(* ===== verification/_CoqProject ===== *)
-Q . S2P
Prelude.v
Gpu.v
PooledHeap.v
DescriptorPool.v
TaggedPointer.v
CommandList.v
ExecContext.v
EventQueue.v
AllocatorRetry.v
Bfc.v
BfcRep.v
BfcOps.v
BfcFind.v
BfcExtend.v
BfcClient.v
DescriptorHeap.v
HeapAllocator.v
BfcTheorems.v
Transfer.v
Readback.v
Text.v
DeviceName.v
DeviceNameProofs.v
KernelKey.v
KernelManager.v
Philox.v
PhiloxProofs.v
TensorShape.v
Bcast.v
BcastProofs.v
BcastMerge.v
BatchIndices.v
TensorName.v
Vec.v
TensorFormat.v
WindowedOutput.v
Kernel.v
ConvDims.v
ConvInit.v
ConvTheorems.v
TensorDesc.v
GraphView.v
GraphInv.v
TopoSort.v
TopoSortProofs.v
Renumber.v
TopoTheorems.v
GraphEdit.v
GraphEditProofs.v
GraphBuild.v
GraphTheorems.v
GraphBulk.v
HashOrder.v
GraphDiff.v
GraphContent.v
GraphWellFormed.v
GraphMutation.v
GraphMutationProofs.v
GraphValidate.v
GraphValidateProofs.v
GraphValidated.v
GraphApply.v
GraphUpdate.v
GraphNewNodes.v
GraphCommit.v
GraphRemoveNodes.v
GraphRemoval.v
GraphApplyProofs.v
GraphMutationTheorems.v
GraphRewrite.v
GraphMeaning.v
Grappler.v
TransposeRemover.v
TransposeTheorems.v
GrapplerExample.v
TransposeMeaning.v
Remapper.v
RemapperProofs.v
