(* ===== verification/Prelude.v ===== *)
(** * TensorFlow-DirectML plugin: verification development (root file)

    The plugin (src/tfdml) lets TensorFlow run its operators on a GPU through
    Direct3D 12 and DirectML.  This development models the parts of it that
    carry logic of their own: the memory allocators and transfers, the
    submission of GPU work, the cache of kernels, the random number generator,
    the shape arithmetic of the runtime adapter, the dimensions of convolutions,
    and the graph optimizer with the mutable view of a graph that it works on.

    ** How the parts interact

    Kernels allocate GPU memory from a best-fit-with-coalescing allocator, which
    obtains regions from a heap allocator of tagged pointers; descriptors are
    allocated in the same way.  Work is recorded as commands in the execution
    context; a background thread replays them into a command list, whose
    descriptors come from a pool that GPU events guard, and submits them to the
    queue.  Data goes to and from the GPU through pooled heaps; a readback ends
    with a callback of the event queue.  The kernel manager caches what kernels
    compile and keeps it alive until the GPU has used it.  Before any of this
    the graph optimizer rewrites the graph of operators through a mutable view,
    which indexes the nodes by name and both ends of every edge.

    ** Files, and the code they model

    - Prelude: faults and results, the state monad and its total-correctness
      predicate [runs], [Status], machine integers, sums and products of lists,
      tactics.
    - Gpu: core/dml_gpu_event.h, dml_buffer_region, the out-of-memory test of
      dml_error_handling.
    - PooledHeap: core/dml_pooled_heap.  DescriptorPool:
      core/dml_descriptor_pool.  TaggedPointer: core/dml_tagged_pointer and the
      pool of allocation identifiers.
    - CommandList: core/dml_command_list and dml_command_allocator_ring; the
      output is the list of Direct3D calls.
    - ExecContext: core/dml_execution_context and dml_command_queue.
      EventQueue: core/dml_event_queue.  In both, every critical section is one
      step, and reachability is by a relation that interleaves the clients, the
      background thread and, for events, the GPU.
    - AllocatorRetry: runtime_adapter/allocator_retry.
    - Bfc: runtime_adapter/bfc_allocator, over the interface [SubAllocator] of
      allocator.h.  The chunk table, the bins and the regions are those of the
      code, handles and all.  BfcRep gives the representation invariant (a list
      of blocks per region), BfcOps, BfcFind and BfcExtend specify one group of
      operations each, BfcClient the calls and sequences of them, and BfcTheorems
      states the results.
    - DescriptorHeap: core/dml_descriptor_heap_allocator and
      dml_descriptor_bfc_allocator, an instance of [SubAllocatorLaws].
    - HeapAllocator: core/dml_heap_allocator and dml_bfc_allocator.
    - Transfer: core/dml_upload_heap, against the class [CommandRecorder] that
      the execution context implements.  Readback: core/dml_readback_heap.
    - Text, DeviceName, DeviceNameProofs: optimizer/device_name_utils.
    - KernelKey, KernelManager: core/dml_kernel_key, dml_kernel_manager and
      [CreateKernelKey] of dml_kernel_wrapper.
    - Philox, PhiloxProofs: runtime_adapter/philox_random,
      guarded_philox_random, stateless_random_ops, random_ops_util.
    - TensorShape: runtime_adapter/tensor_shape and tensor_shape_utils.
    - TensorFormat: runtime_adapter/tensor_format and padding.  WindowedOutput:
      runtime_adapter/kernel_shape_util.
    - Bcast, BcastProofs, BcastMerge, BatchIndices: runtime_adapter/bcast and
      matmul_bcast.
    - TensorDesc: core/dml_tensor_desc, the layouts and conversions of dml_util.

    - Kernel: errors and attributes in the initialization of kernels.  ConvDims,
      ConvInit: the parameters, dimensions and DirectML descriptions of the
      convolutions of kernels/dml_conv_ops.cc; ConvTheorems: results.

    - TensorName: optimizer/tensor_id.  Vec: vectors indexed by an int.
    - GraphView: the data of optimizer/graph_view and graph_view_internal.h, its
      lookups and the constructor; GraphInv: the invariant of a view; GraphEdit:
      the operations on single edges; GraphEditProofs: what they do to the
      invariant; GraphBuild: the constructor; GraphTheorems: results.
    - Mutations of the view.  GraphDiff: the pending changes of one node
      ([NodeViewDiff], [NewNode] of graph_view_internal.h); GraphContent: the
      abstract content of a node and the edits of it; GraphWellFormed: a diff
      denotes edits and knows whether they are well formed.  GraphMutation: class [Mutation]; GraphMutationProofs: recording.
      GraphValidate, GraphValidateProofs: the validation that [Apply] starts with.
      GraphApply: the stages of [Apply]; GraphBulk: what its operations on many
      edges do to the invariant.  One file per stage
      shows what the stage does to a valid mutation without renames:
      GraphValidated (what validation promises the others), GraphUpdate
      (updates of nodes), GraphNewNodes (new nodes and their fanins),
      GraphRemoval over GraphRemoveNodes (removal, in which the last
      node takes the place of a removed one).  GraphCommit and GraphApplyProofs
      put the stages together; GraphMutationTheorems: results.
    - HashOrder: the order in which hash tables are traversed, a parameter: some
      permutation that depends on the contents only.
    - TopoSort: the topological sort of optimizer/graph_view.cc;
      TopoSortProofs: its traversal; Renumber: permuting the nodes;
      TopoTheorems: results.

    - Rewriting graphs.  GraphRewrite: lists of edits and what [Apply] makes of
      them; GraphMeaning: the values that a graph computes.  Grappler: the kinds
      of ops, constant tensors, permutations of formats and what the host says
      of a graph (op_types, tensor_proto_util, perm_utils, utils, grappler_item,
      graph_properties).  TransposeRemover: optimizer/transpose_remover;
      TransposeTheorems, TransposeMeaning: what it does to a graph and to the
      values computed; GrapplerExample: messages and a host for concrete runs.
      Remapper: optimizer/remapper; RemapperProofs: lemmas on its removal of nodes.

    A definition has the name of the C++ function or type it models.  A struct
    is a record, an enumeration an inductive type, a vector a list, a hash map a
    [gmap]; a method that changes its object is a computation of the state
    monad [ST], a loop a recursive function.  A failed CHECK, a failed assert
    and an access out of range are the faults of [result], so that a theorem
    saying that an operation gives [Ok] says that none of them happens.

    ** What the theorems show

    - Allocators: allocations are apart and within limits, best fit, full
      coalescing, no leak at destruction, all under the conditions that
      [client_setup] names (without the one on small requests an allocation may
      loop for ever); tiles are mapped exactly once; tagged pointers round trip.
    - GPU work: commands run exactly once and in order in every interleaving; a
      completion event covers what it promises; a flush completes within a number
      of the thread's steps, wherever the thread is; descriptors and ring space are
      never reused while the GPU may read them; callbacks run after their fence
      and in order; a copy restores the resource states.
    - Transfers: an upload reads its own bytes, a readback delivers the data the
      GPU copied, in every interleaving.
    - Kernel cache: it refines an abstract least-recently-used cache; keys are
      equal exactly when the computations agree.
    - Random numbers: the counter is a 128-bit number, the rounds are a bijection
      of it, and the samples of concurrent clients never collide.
    - Shapes: element counts are the products modulo 2^64 and so exact when
      these fit, a shape is made exactly when it is representable, broadcasting agrees with its definition however dimensions
      are merged, and batch indices tabulate it; conversions between tensor
      formats put every dimension where it belongs; output sizes count windows.
    - Descriptions for DirectML: strides and swizzled sizes read the element that
      broadcasting defines.
    - Convolutions: they are accepted exactly when groups and windows fit, their
      outputs count the windows, and the gradient of the input accepts whatever
      they give and is described like them.
    - Device names: the parser terminates; which names survive printing and
      parsing is decided; merging is a least upper bound.
    - Graph optimizer: tensor names round trip; the constructor of the view
      decides well-formedness and gives a consistent view; the topological sort
      is OK exactly when the graph is sortable, and keeps the view consistent.
    - Mutations: every operation that [edit_allowed] admits records its edit and
      nothing else; a diff is taken for well formed exactly when it leaves no
      gaps and what it sets names other nodes that will exist; a
      mutation that is not valid is refused and changes nothing; a valid one
      without renames leaves a consistent view with exactly the contents that
      were recorded.
    - Transpose remover: it changes exactly the gradients between layout
      transposes and keeps the values of all other tensors, on graphs without
      the patterns that it converts wrongly, which are named.
    - Errors: what the code does where it deviates from its intention is proved
      as well (the retry loop that never ends, descriptors of fills that are
      never reused, the assertion after device removal, the lost carry of a
      skip).

    ** Bounds and fuel

    Loops over a structure recurse on it.  Loops with fuel: the list traversals
    of the allocator take the number of chunks plus one, and the retry loops of
    [Extend] a number derived from the sizes; the theorems on runs of clients
    show that the fuel never runs out there, and [backpedal_livelock] names the
    requests for which no fuel suffices.  The parser of device names takes the
    length of the text, which [ParseFullName_total] shows to be enough.  The
    traversal of the topological sort takes two turns per node and one per edge,
    which its proof shows to be enough.  The retrying allocation takes a number of rounds that [AllocateRaw_returns]
    bounds by the time to wait.  Integers wrap at their width; the theorems name
    the sizes (below 2^63 elements, for example) for which they do not.

    ** Not modelled

    Direct3D, DirectML, TensorFlow and the operating system are parameters, with
    their documented behaviour as class laws where a theorem needs it; the address
    of a node that is added to a graph is such a parameter ([NodeAllocation]).
    All of [Apply] is modelled; what it does to a valid mutation is proved for
    mutations that rename no node.  Vectors that the code moves from are empty afterwards.  The rest of the DML
    kernels (kernels/) builds graphs for DirectML;
    the operator tables (op_defs_core) are generated; the plugin entry points, the
    device and adapter enumeration, tracing and the C API adapters forward
    calls.  The immutable view of a graph is not used by the program.  Of the allocator's garbage collection
    and timing counters the code is modelled, but no theorem uses them, since
    the program creates allocators without them. *)

From stdpp Require Export base list numbers option gmap strings pretty sorting.
From Stdlib Require Export Sorted.

#[export] Set Default Goal Selector "!".
#[global] Open Scope Z_scope.

(** ** Faults and results

    A fault ends the process (or is undefined behaviour) in the C++ program;
    an ordinary error of the program (a [Status], a [nullptr], an empty
    [optional]) is a value of the operation's own result type. *)

Inductive fault :=
  | CheckFailed     (* CHECK / DML_CHECK_SUCCEEDED: aborts in every build *)
  | AssertFailed    (* assert: aborts in a build without NDEBUG *)
  | OutOfRange      (* an index or handle outside its container *)
  | FatalLog        (* TF_Log(TF_FATAL, ...) *)
  | NoFuel          (* the bound on a loop of the model was too small *)
  | DivByZero.      (* division by zero *)

#[export] Instance fault_eq_dec : EqDecision fault.
Proof. solve_decision. Defined.

Inductive result (A : Type) :=
  | Ok (a : A)
  | Fault (f : fault).
Arguments Ok {_} _.
Arguments Fault {_} _.

#[export] Instance result_ret : MRet result := fun A a => Ok a.
#[export] Instance result_bind : MBind result := fun A B f r =>
  match r with Ok a => f a | Fault e => Fault e end.

Definition CHECK (b : bool) : result unit := if b then Ok tt else Fault CheckFailed.
Definition ASSERT (b : bool) : result unit := if b then Ok tt else Fault AssertFailed.
Definition in_range {A} (o : option A) : result A :=
  match o with Some a => Ok a | None => Fault OutOfRange end.

(** A computation on a state that may fault. *)
Definition ST (S A : Type) : Type := S -> result (A * S).

#[export] Instance ST_ret {S} : MRet (ST S) := fun A a s => Ok (a, s).
#[export] Instance ST_bind {S} : MBind (ST S) := fun A B f m s =>
  match m s with Ok (a, s') => f a s' | Fault e => Fault e end.

Definition get {S} : ST S S := fun s => Ok (s, s).
Definition put {S} (s : S) : ST S unit := fun _ => Ok (tt, s).
Definition gets {S A} (f : S -> A) : ST S A := fun s => Ok (f s, s).
Definition modify {S} (f : S -> S) : ST S unit := fun s => Ok (tt, f s).
Definition lift {S A} (r : result A) : ST S A := fun s =>
  match r with Ok a => Ok (a, s) | Fault e => Fault e end.

(** ** Status: the error type of the runtime adapter (status.h) *)

Inductive tf_code :=
  | TF_OK | TF_CANCELLED | TF_UNKNOWN | TF_INVALID_ARGUMENT
  | TF_DEADLINE_EXCEEDED | TF_NOT_FOUND | TF_ALREADY_EXISTS
  | TF_PERMISSION_DENIED | TF_RESOURCE_EXHAUSTED | TF_FAILED_PRECONDITION
  | TF_ABORTED | TF_OUT_OF_RANGE | TF_UNIMPLEMENTED | TF_INTERNAL
  | TF_UNAVAILABLE | TF_DATA_LOSS | TF_UNAUTHENTICATED.

#[export] Instance tf_code_eq_dec : EqDecision tf_code.
Proof. solve_decision. Defined.

Record Status := mk_Status { code : tf_code; error_message : string }.

#[export] Instance Status_eq_dec : EqDecision Status.
Proof. solve_decision. Defined.

Definition Status_OK : Status := mk_Status TF_OK "".
Definition status_ok (s : Status) : bool := bool_decide (code s = TF_OK).
Definition InvalidArgument (msg : string) : Status := mk_Status TF_INVALID_ARGUMENT msg.
Definition ResourceExhausted (msg : string) : Status := mk_Status TF_RESOURCE_EXHAUSTED msg.
Definition Unknown (msg : string) : Status := mk_Status TF_UNKNOWN msg.

(** [StatusOr<T>] *)
Definition StatusOr (T : Type) : Type := Status + T.

(** ** Machine integers *)

Definition u64 (x : Z) : Z := x `mod` 2 ^ 64.
Definition u32 (x : Z) : Z := x `mod` 2 ^ 32.
Definition u64_max : Z := 2 ^ 64 - 1.
Definition u64_not (x : Z) : Z := u64 (Z.lnot x).
(** Conversion to a two's complement [w]-bit signed integer. *)
Definition to_signed (w x : Z) : Z :=
  let y := x `mod` 2 ^ w in if y <? 2 ^ (w - 1) then y else y - 2 ^ w.
Definition i32 (x : Z) : Z := to_signed 32 x.
Definition i64 (x : Z) : Z := to_signed 64 x.

Lemma u64_small x : 0 <= x < 2 ^ 64 -> u64 x = x.
Proof. intros H. unfold u64. by rewrite Z.mod_small. Qed.

Lemma u64_range x : 0 <= u64 x < 2 ^ 64.
Proof. unfold u64. apply Z.mod_pos_bound. lia. Qed.

Lemma u32_small x : 0 <= x < 2 ^ 32 -> u32 x = x.
Proof. intros H. unfold u32. by rewrite Z.mod_small. Qed.

Lemma u32_range x : 0 <= u32 x < 2 ^ 32.
Proof. unfold u32. apply Z.mod_pos_bound. lia. Qed.

Lemma i32_small x : - 2 ^ 31 <= x < 2 ^ 31 -> i32 x = x.
Proof.
  intros H. unfold i32, to_signed. change (32 - 1) with 31.
  destruct (decide (0 <= x)).
  - rewrite Z.mod_small by lia. destruct (Z.ltb_spec x (2 ^ 31)); lia.
  - replace (x `mod` 2 ^ 32) with (x + 2 ^ 32)
      by (symmetry; rewrite <- (Z_mod_plus_full x 1 (2 ^ 32)), Z.mod_small; lia).
    destruct (Z.ltb_spec (x + 2 ^ 32) (2 ^ 31)); lia.
Qed.

Lemma i64_small x : - 2 ^ 63 <= x < 2 ^ 63 -> i64 x = x.
Proof.
  intros H. unfold i64, to_signed. change (64 - 1) with 63. destruct (decide (0 <= x)).
  - rewrite Z.mod_small by lia. destruct (Z.ltb_spec x (2 ^ 63)); lia.
  - rewrite <- (Z_mod_plus_full x 1 (2 ^ 64)), Z.mod_small by lia.
    destruct (Z.ltb_spec (x + 1 * 2 ^ 64) (2 ^ 63)); lia.
Qed.

Lemma i64_high x : 2 ^ 63 <= x < 2 ^ 64 -> i64 x < 0.
Proof.
  intros H. unfold i64, to_signed. change (64 - 1) with 63. rewrite Z.mod_small by lia.
  destruct (Z.ltb_spec x (2 ^ 63)); lia.
Qed.

Lemma i64_mod x : i64 x `mod` 2 ^ 64 = x `mod` 2 ^ 64.
Proof.
  unfold i64, to_signed. destruct (_ <? _).
  - by rewrite Z.mod_mod.
  - rewrite <- (Z_mod_plus_full (x `mod` 2 ^ 64 - 2 ^ 64) 1), Z.mul_1_l, Z.sub_add. by rewrite Z.mod_mod.
Qed.

Lemma i64_eq x y : x `mod` 2 ^ 64 = y `mod` 2 ^ 64 -> i64 x = i64 y.
Proof. unfold i64, to_signed. by intros ->. Qed.

Lemma i64_add_l x y : i64 (i64 x + y) = i64 (x + y).
Proof. apply i64_eq. by rewrite Zplus_mod, i64_mod, <- Zplus_mod. Qed.

Lemma i64_mul_l x y : i64 (i64 x * y) = i64 (x * y).
Proof. apply i64_eq. by rewrite Zmult_mod, i64_mod, <- Zmult_mod. Qed.

Lemma i64_sub_l x y : i64 (i64 x - y) = i64 (x - y).
Proof. unfold Z.sub. apply i64_add_l. Qed.

Lemma u64_i64_sub x y : u64 (i64 x - y) = u64 (x - y).
Proof. unfold u64. by rewrite Zminus_mod, i64_mod, <- Zminus_mod. Qed.

(** Rounding up to a power of two with the mask idiom
    [(x + a - 1) & ~(a - 1)] on 64-bit words. *)
Definition align_up (offset alignment : Z) : Z :=
  Z.land (u64 (u64 (offset + alignment) - 1)) (u64_not (u64 (alignment - 1))).

Lemma land_u64_not_ones x k :
  0 <= k <= 64 -> 0 <= x < 2 ^ 64 ->
  Z.land x (u64_not (Z.ones k)) = x / 2 ^ k * 2 ^ k.
Proof.
  intros Hk Hx. rewrite <- Z.shiftr_div_pow2, <- Z.shiftl_mul_pow2 by lia.
  rewrite <- Z.ldiff_ones_r by lia.
  apply Z.bits_inj'. intros n Hn.
  unfold u64_not, u64. rewrite Z.land_spec, Z.ldiff_spec.
  destruct (decide (n < 64)).
  - rewrite Z.mod_pow2_bits_low by lia. by rewrite Z.lnot_spec.
  - assert (Z.testbit x n = false) as ->; [|done].
    destruct (decide (x = 0)) as [->|]; [apply Z.bits_0|].
    apply Z.bits_above_log2; [lia|].
    apply Z.log2_lt_pow2; [lia|].
    apply Z.lt_le_trans with (2 ^ 64); [lia|]. apply Z.pow_le_mono_r; lia.
Qed.

Lemma align_up_spec x k :
  0 <= k < 64 -> 0 <= x -> x + 2 ^ k <= 2 ^ 64 ->
  align_up x (2 ^ k) = (x + 2 ^ k - 1) / 2 ^ k * 2 ^ k.
Proof.
  intros Hk Hx Hle. unfold align_up.
  assert (0 < 2 ^ k) by (apply Z.pow_pos_nonneg; lia).
  assert (2 ^ k < 2 ^ 64) by (apply Z.pow_lt_mono_r; lia).
  replace (u64 (u64 (x + 2 ^ k) - 1)) with (x + 2 ^ k - 1).
  2:{ unfold u64. rewrite Zminus_mod_idemp_l, Z.mod_small; lia. }
  rewrite (u64_small (2 ^ k - 1)) by lia.
  replace (2 ^ k - 1) with (Z.ones k) by (rewrite Z.ones_equiv; lia).
  apply land_u64_not_ones; lia.
Qed.

Lemma align_up_bounds x k :
  0 <= k < 64 -> 0 <= x -> x + 2 ^ k <= 2 ^ 64 ->
  x <= align_up x (2 ^ k) < x + 2 ^ k /\ align_up x (2 ^ k) `mod` 2 ^ k = 0.
Proof.
  intros Hk Hx Hle. rewrite align_up_spec by done.
  assert (0 < 2 ^ k) by (apply Z.pow_pos_nonneg; lia).
  pose proof (Z.mod_pos_bound (x + 2 ^ k - 1) (2 ^ k) ltac:(lia)).
  pose proof (Z.div_mod (x + 2 ^ k - 1) (2 ^ k) ltac:(lia)).
  split; [lia|]. by rewrite Z.mod_mul by lia.
Qed.

(** ** Tactics *)

(** Runs a hypothesis [m = Ok x] through the binds of the two monads. *)
Ltac inv_step :=
  match goal with
  | H : Ok _ = Ok _ |- _ => injection H; clear H; intros; subst
  | H : Fault _ = Ok _ |- _ => discriminate H
  | H : Ok _ = Fault _ |- _ => discriminate H
  | H : (_ ≫= _) = Ok _ |- _ => unfold mbind, result_bind in H
  | H : mret _ = Ok _ |- _ => unfold mret, result_ret in H
  | H : CHECK ?b = Ok _ |- _ => unfold CHECK in H
  | H : ASSERT ?b = Ok _ |- _ => unfold ASSERT in H
  | H : match ?m with Ok _ => _ | Fault _ => _ end = Ok _ |- _ =>
      let E := fresh "E" in destruct m eqn:E
  | H : match ?p with pair _ _ => _ end = Ok _ |- _ =>
      let E := fresh "E" in destruct p eqn:E
  | H : (if ?b then _ else _) = Ok _ |- _ =>
      let E := fresh "E" in destruct b eqn:E
  end.
Ltac inv_ok := repeat (inv_step; simpl in * ).

(** Turns boolean comparisons in the context into propositions. *)
Ltac bool_to_prop :=
  repeat match goal with
  | H : (_ && _) = true |- _ => apply andb_true_iff in H as [? ?]
  | H : (_ && _) = false |- _ => apply andb_false_iff in H
  | H : (_ || _) = true |- _ => apply orb_true_iff in H
  | H : (_ || _) = false |- _ => apply orb_false_iff in H as [? ?]
  | H : negb _ = true |- _ => apply negb_true_iff in H
  | H : negb _ = false |- _ => apply negb_false_iff in H
  | H : (_ <=? _) = true |- _ => apply Z.leb_le in H
  | H : (_ <=? _) = false |- _ => apply Z.leb_gt in H
  | H : (_ <? _) = true |- _ => apply Z.ltb_lt in H
  | H : (_ <? _) = false |- _ => apply Z.ltb_ge in H
  | H : (_ =? _) = true |- _ => apply Z.eqb_eq in H
  | H : (_ =? _) = false |- _ => apply Z.eqb_neq in H
  end.

(** Case analysis on every comparison of the goal. *)
Ltac case_cmp :=
  repeat match goal with
  | |- context [?a <=? ?b] => destruct (Z.leb_spec a b)
  | |- context [?a <? ?b] => destruct (Z.ltb_spec a b)
  | |- context [?a =? ?b] => destruct (Z.eqb_spec a b)
  end.

(** ** Total correctness of a computation

    [runs m s Q]: from the state [s], [m] returns without a fault, with a
    result and a state that satisfy [Q]. *)

Definition runs {S A} (m : ST S A) (s : S) (Q : A -> S -> Prop) : Prop :=
  exists a s', m s = Ok (a, s') /\ Q a s'.

Lemma runs_bind {S A B} (m : ST S A) (k : A -> ST S B) s Q :
  runs m s (fun a s' => runs (k a) s' Q) -> runs (a ← m; k a) s Q.
Proof.
  intros (a & s1 & Hm & b & s2 & Hk & HQ). exists b, s2. split; [|done].
  unfold mbind, ST_bind. by rewrite Hm.
Qed.

Lemma runs_assoc {S A B C} (m : ST S A) (k : A -> ST S B) (r : B -> ST S C) s Q :
  runs (x ← (y ← m; k y); r x) s Q -> runs (y ← m; x ← k y; r x) s Q.
Proof. unfold runs, mbind, ST_bind. intros H. by destruct (m s) as [[y s1]|]. Qed.

Lemma runs_ret {S A} (a : A) (s : S) Q : Q a s -> runs (mret a) s Q.
Proof. intros HQ. by exists a, s. Qed.

Lemma runs_get {S} (s : S) Q : Q s s -> runs get s Q.
Proof. intros HQ. by exists s, s. Qed.

Lemma runs_gets {S A} (f : S -> A) s Q : Q (f s) s -> runs (gets f) s Q.
Proof. intros HQ. by exists (f s), s. Qed.

Lemma runs_modify {S} (f : S -> S) s Q : Q tt (f s) -> runs (modify f) s Q.
Proof. intros HQ. by exists tt, (f s). Qed.

Lemma runs_lift {S A} (r : result A) a (s : S) Q : r = Ok a -> Q a s -> runs (lift r) s Q.
Proof. intros Hr HQ. exists a, s. unfold lift. by rewrite Hr. Qed.

Lemma runs_CHECK {S} b (s : S) Q : b = true -> Q tt s -> runs (lift (CHECK b)) s Q.
Proof. intros -> HQ. by exists tt, s. Qed.

Lemma runs_ASSERT {S} b (s : S) Q : b = true -> Q tt s -> runs (lift (ASSERT b)) s Q.
Proof. intros -> HQ. by exists tt, s. Qed.

Lemma runs_mono {S A} (m : ST S A) s (Q Q' : A -> S -> Prop) :
  runs m s Q -> (forall a s', Q a s' -> Q' a s') -> runs m s Q'.
Proof. intros (a & s' & Hm & HQ) Himp. exists a, s'. auto. Qed.

(** One step of a computation in a goal [runs _ _ _]; a check leaves its
    condition as the first goal. *)
Ltac run_step :=
  lazymatch goal with
  | |- runs (mbind _ _) _ _ => apply runs_bind
  | |- runs (mret _) _ _ => apply runs_ret
  | |- runs get _ _ => apply runs_get
  | |- runs (gets _) _ _ => apply runs_gets
  | |- runs (modify _) _ _ => apply runs_modify
  | |- runs (lift (CHECK _)) _ _ => apply runs_CHECK
  | |- runs (lift (ASSERT _)) _ _ => apply runs_ASSERT
  end; cbv beta.

(** ** Sums over lists *)

Definition Zsum {A} (f : A -> Z) (l : list A) : Z := foldr (fun a n => f a + n) 0 l.

Lemma Zsum_app {A} (f : A -> Z) l1 l2 : Zsum f (l1 ++ l2) = Zsum f l1 + Zsum f l2.
Proof. induction l1; simpl; lia. Qed.

Lemma Zsum_nonneg {A} (f : A -> Z) l : Forall (fun a => 0 <= f a) l -> 0 <= Zsum f l.
Proof. induction 1; simpl; lia. Qed.

Lemma Zsum_elem_le {A} (f : A -> Z) l a :
  Forall (fun a => 0 <= f a) l -> a ∈ l -> f a <= Zsum f l.
Proof.
  intros Hl Ha. induction Hl as [|b l Hb Hl IH]; [by apply elem_of_nil in Ha|].
  apply Zsum_nonneg in Hl. apply elem_of_cons in Ha as [->|Ha]; simpl; [lia|].
  specialize (IH Ha). lia.
Qed.

(** ** Products of lists *)

Definition Zprod (l : list Z) : Z := foldr Z.mul 1 l.

Lemma Zprod_app l1 l2 : Zprod (l1 ++ l2) = Zprod l1 * Zprod l2.
Proof. induction l1; simpl; lia. Qed.

Lemma Zprod_cons d l : Zprod (d :: l) = d * Zprod l.
Proof. done. Qed.

Lemma Zprod_snoc l d : Zprod (l ++ [d]) = Zprod l * d.
Proof. rewrite Zprod_app. simpl. lia. Qed.

Lemma Zprod_nonneg l : Forall (fun d => 0 <= d) l -> 0 <= Zprod l.
Proof. induction 1; simpl; nia. Qed.

Lemma Zprod_pos l : Forall (fun d => 1 <= d) l -> 1 <= Zprod l.
Proof. induction 1; simpl; nia. Qed.

Lemma Zprod_rev l : Zprod (rev l) = Zprod l.
Proof. induction l; simpl; [done|]. rewrite Zprod_app. simpl. lia. Qed.

(** Updating one element of a vector, as a split of the list around it. *)
Lemma lookup_alter_split {A} (l : list A) i x :
  l !! i = Some x ->
  exists l1 l2, l = l1 ++ x :: l2 /\ length l1 = i /\
    forall f, alter f i l = l1 ++ f x :: l2.
Proof.
  intros Hi. exists (take i l), (drop (S i) l).
  pose proof (lookup_lt_Some _ _ _ Hi).
  assert (length (take i l) = i) as Hlen by (rewrite length_take; lia).
  split; [by rewrite take_drop_middle|]. split; [done|]. intros f.
  rewrite <- (take_drop_middle l i x Hi) at 1.
  rewrite <- Hlen at 1. rewrite <- (Nat.add_0_r (length _)). by rewrite alter_app_r.
Qed.

Lemma Forall_snoc {A} (P : A -> Prop) l x : Forall P l -> P x -> Forall P (l ++ [x]).
Proof. intros. apply Forall_app. by repeat constructor. Qed.

Lemma StronglySorted_snoc {A} (R : A -> A -> Prop) l x :
  StronglySorted R l -> Forall (fun y => R y x) l -> StronglySorted R (l ++ [x]).
Proof.
  intros Hs Hf. apply StronglySorted_app_2; [|done|by repeat constructor].
  intros y z Hy ->%list_elem_of_singleton. rewrite Forall_forall in Hf. auto.
Qed.

Lemma forallb_Forall_true {A} (p : A -> bool) l :
  Forall (fun a => p a = true) l -> forallb p l = true.
Proof. induction 1 as [|a l Ha Hl IH]; simpl; [done|]. by rewrite Ha, IH. Qed.

Lemma StronglySorted_filter {A} (R : A -> A -> Prop) p l :
  StronglySorted R l -> StronglySorted R (List.filter p l).
Proof.
  induction 1 as [|a l Hl IH Ha]; simpl; [constructor|].
  destruct (p a); [|done]. constructor; [done|].
  rewrite Forall_forall in *. intros x Hx%list_elem_of_In%filter_In.
  apply Ha, list_elem_of_In. naive_solver.
Qed.

Lemma Forall_list_filter {A} (P : A -> Prop) p l : Forall P l -> Forall P (List.filter p l).
Proof. induction 1 as [|a l Ha Hl IH]; simpl; [done|]. destruct (p a); auto. Qed.

Lemma Zsum_filter_le {A} (f : A -> Z) p l :
  Forall (fun a => 0 <= f a) l -> 0 <= Zsum f (List.filter p l) <= Zsum f l.
Proof. induction 1 as [|a l Ha Hl IH]; simpl; [lia|]. destruct (p a); simpl; lia. Qed.

Lemma Zsum_map {A B} (g : A -> B) (f : B -> Z) l : Zsum f (map g l) = Zsum (fun a => f (g a)) l.
Proof. induction l; simpl; lia. Qed.

Lemma StronglySorted_map_key {A} (key : A -> Z) (g : A -> A) l :
  (forall a, key (g a) = key a) ->
  StronglySorted (fun a b => key a <= key b) l ->
  StronglySorted (fun a b => key a <= key b) (map g l).
Proof.
  intros Hg. induction 1 as [|a l Hl IH Ha]; simpl; constructor; [done|].
  rewrite Forall_forall in *. intros b Hb. rewrite Hg.
  apply list_elem_of_fmap in Hb as (x & -> & Hx). rewrite Hg. auto.
Qed.

Lemma elem_of_concat {A} (x : A) (ls : list (list A)) :
  x ∈ concat ls <-> exists l, x ∈ l /\ l ∈ ls.
Proof.
  rewrite list_elem_of_In, in_concat.
  split; intros (l & H1 & H2); exists l; rewrite <- ?list_elem_of_In in *; done.
Qed.

Lemma insert_middle {A} (l1 l2 : list A) x y :
  <[length l1 := y]> (l1 ++ x :: l2) = l1 ++ y :: l2.
Proof. rewrite insert_app_r_alt by done. by rewrite Nat.sub_diag. Qed.

Lemma lookup_middle {A} (l1 l2 : list A) x : (l1 ++ x :: l2) !! length l1 = Some x.
Proof. rewrite lookup_app_r by done. by rewrite Nat.sub_diag. Qed.

Create HintDb tfdml discriminated.
Create Rewrite HintDb tfdml.
#[export] Hint Resolve u64_range u32_range : tfdml.
#[export] Hint Rewrite @Zsum_app @length_app @length_insert : tfdml.
