(* ===== verification/Gpu.v ===== *)
(** * GPU events, resources and buffer regions

    [DmlGpuEvent] (core/dml_gpu_event.h), the HRESULT classification of
    core/dml_error_handling.cc and [D3D12BufferRegion]
    (core/dml_buffer_region.{h,cc}).  Direct3D itself is not modelled: a fence
    is an identifier whose completed value is given by a function
    [GetCompletedValue], and a resource is an identifier with a width. *)

From S2P Require Import Prelude.

(** A fence identifier; 0 is the null fence. *)
Record DmlGpuEvent := mk_event { fence_value : Z; fence : Z }.

#[export] Instance DmlGpuEvent_eq_dec : EqDecision DmlGpuEvent.
Proof. solve_decision. Defined.

Definition IsSignaled (GetCompletedValue : Z -> Z) (e : DmlGpuEvent) : bool :=
  fence_value e <=? GetCompletedValue (fence e).

(** An HRESULT as its unsigned 32-bit pattern. *)
Definition FAILED (hr : Z) : bool := 2 ^ 31 <=? hr.
Definition HrIsOutOfMemory (hr : Z) : bool := (hr =? 0x80000002) || (hr =? 0x8007000e).
Definition DML_CHECK_SUCCEEDED (hr : Z) : result unit := CHECK (negb (FAILED hr)).

Lemma FAILED_OutOfMemory hr : FAILED hr = false -> HrIsOutOfMemory hr = false.
Proof. unfold FAILED, HrIsOutOfMemory. intros ?%Z.leb_gt. apply orb_false_iff. lia. Qed.

Record resource := mk_resource { res_id : Z; res_width : Z }.

#[export] Instance resource_eq_dec : EqDecision resource.
Proof. solve_decision. Defined.

Module BufferRegion.

Record D3D12BufferRegion := mk {
  resource_uav_state_ : option resource;
  resource_copy_src_state_ : option resource;
  resource_copy_dst_state_ : option resource;
  offset_ : Z;
  size_in_bytes_ : Z;
  first_valid_resource_ : option resource }.

#[export] Instance D3D12BufferRegion_eq_dec : EqDecision D3D12BufferRegion.
Proof. solve_decision. Defined.

(** The default constructor: an empty region. *)
Definition empty_region : D3D12BufferRegion := mk None None None 0 0 None.

Definition same_width (r : option resource) (buffer_size : Z) : bool :=
  match r with Some r => res_width r =? buffer_size | None => true end.

Definition make (offset size_in_bytes : Z)
    (resource_uav_state resource_copy_src_state resource_copy_dst_state : option resource) :
    result D3D12BufferRegion :=
  let first_valid_resource :=
    match resource_uav_state with
    | Some r => Some r
    | None => match resource_copy_src_state with
              | Some r => Some r
              | None => resource_copy_dst_state
              end
    end in
  match first_valid_resource with
  | None => Fault CheckFailed
  | Some first =>
      CHECK (negb (size_in_bytes =? 0));;
      let buffer_size := res_width first in
      CHECK (offset <? buffer_size);;
      CHECK (size_in_bytes <=? u64 (buffer_size - offset));;
      ASSERT (same_width resource_uav_state buffer_size);;
      ASSERT (same_width resource_copy_src_state buffer_size);;
      ASSERT (same_width resource_copy_dst_state buffer_size);;
      mret (mk resource_uav_state resource_copy_src_state resource_copy_dst_state
               offset size_in_bytes first_valid_resource)
  end.

Definition Offset (r : D3D12BufferRegion) : Z :=
  match first_valid_resource_ r with Some _ => offset_ r | None => 0 end.
Definition SizeInBytes (r : D3D12BufferRegion) : Z :=
  match first_valid_resource_ r with Some _ => size_in_bytes_ r | None => 0 end.
Definition ResourceInUavState := resource_uav_state_.
Definition ResourceInCopySrcState := resource_copy_src_state_.
Definition ResourceInCopyDstState := resource_copy_dst_state_.

(** The move operations swap with the other region; the results are the new
    values of [*this] and [that]. *)
Definition move_construct (that : D3D12BufferRegion) : D3D12BufferRegion * D3D12BufferRegion :=
  (that, empty_region).
Definition move_assign (this that : D3D12BufferRegion) : D3D12BufferRegion * D3D12BufferRegion :=
  (that, this).

(** A [DML_BUFFER_BINDING]: buffer, offset and size. *)
Definition GetBufferBinding (r : D3D12BufferRegion) : option resource * Z * Z :=
  match resource_uav_state_ r with
  | None => (None, 0, 0)
  | Some u => (Some u, offset_ r, size_in_bytes_ r)
  end.

Definition Subregion (r : D3D12BufferRegion) (offset size_in_bytes : Z) :
    result D3D12BufferRegion :=
  CHECK (offset <? size_in_bytes_ r);;
  let size := if size_in_bytes =? 0 then u64 (size_in_bytes_ r - offset)
              else size_in_bytes in
  CHECK (size <=? u64 (size_in_bytes_ r - offset));;
  make (u64 (offset_ r + offset)) size
    (resource_uav_state_ r) (resource_copy_src_state_ r) (resource_copy_dst_state_ r).

(** *** What the constructor guarantees *)

Definition first_of (u s d : option resource) : option resource :=
  match u with Some _ => u | None => match s with Some _ => s | None => d end end.

(** A region made by the constructor: within its resource, not empty, the
    resources of one width. *)
Record wf (r : D3D12BufferRegion) : Prop := {
  wf_first : first_valid_resource_ r =
    first_of (resource_uav_state_ r) (resource_copy_src_state_ r) (resource_copy_dst_state_ r);
  wf_within : exists f, first_valid_resource_ r = Some f /\
    0 <= offset_ r /\ 0 < size_in_bytes_ r /\
    offset_ r + size_in_bytes_ r <= res_width f /\ res_width f < 2 ^ 64 /\
    same_width (resource_uav_state_ r) (res_width f) = true /\
    same_width (resource_copy_src_state_ r) (res_width f) = true /\
    same_width (resource_copy_dst_state_ r) (res_width f) = true }.

Lemma make_ok offset size u s d f :
  first_of u s d = Some f -> 0 <= offset -> 0 < size ->
  offset + size <= res_width f -> res_width f < 2 ^ 64 ->
  same_width u (res_width f) = true -> same_width s (res_width f) = true ->
  same_width d (res_width f) = true ->
  make offset size u s d = Ok (mk u s d offset size (Some f)).
Proof.
  intros Hf Ho Hs Hle Hw Hu Hsrc Hd. unfold make.
  replace (match u with Some r => Some r | None => _ end) with (first_of u s d)
    by (unfold first_of; destruct u, s; done).
  rewrite Hf, Hu, Hsrc, Hd, u64_small by lia.
  by replace (size =? 0) with false by lia;
    replace (offset <? res_width f) with true by lia;
    replace (size <=? res_width f - offset) with true by lia.
Qed.

Lemma make_wf offset size u s d r :
  make offset size u s d = Ok r -> 0 <= offset -> 0 <= size ->
  (forall f, first_of u s d = Some f -> res_width f < 2 ^ 64) ->
  wf r /\ offset_ r = offset /\ size_in_bytes_ r = size /\
  resource_uav_state_ r = u /\ resource_copy_src_state_ r = s /\ resource_copy_dst_state_ r = d.
Proof.
  unfold make. intros H Ho Hs Hw.
  replace (match u with Some r => Some r | None => _ end) with (first_of u s d) in H
    by (unfold first_of; destruct u, s; done).
  destruct (first_of u s d) as [f|] eqn:Ef; [|done].
  specialize (Hw f eq_refl). inv_ok. bool_to_prop.
  rewrite u64_small in * by lia.
  split; [|done]. split; simpl; [done|]. exists f. by repeat (split; [first [done|lia]|]).
Qed.

Lemma Subregion_ok r f offset size :
  wf r -> first_valid_resource_ r = Some f -> 0 <= offset -> 0 <= size ->
  offset < size_in_bytes_ r -> offset + size <= size_in_bytes_ r ->
  Subregion r offset size =
    Ok (mk (resource_uav_state_ r) (resource_copy_src_state_ r) (resource_copy_dst_state_ r)
           (offset_ r + offset)
           (if size =? 0 then size_in_bytes_ r - offset else size) (Some f)).
Proof.
  intros [Hf (f' & Hf' & Ho & Hs & Hle & Hw & Hu & Hsrc & Hd)] Hff Hoff Hsz Hlt Hle'.
  assert (f' = f) as -> by congruence.
  unfold Subregion. rewrite !u64_small by lia.
  replace (offset <? size_in_bytes_ r) with true by lia. simpl.
  set (sz := if size =? 0 then _ else _).
  assert (0 < sz <= size_in_bytes_ r - offset) by (subst sz; destruct (Z.eqb_spec size 0); lia).
  replace (sz <=? size_in_bytes_ r - offset) with true by lia. simpl.
  apply make_ok; try done; try lia. congruence.
Qed.

(** A subregion lies inside the region it is taken from, on the same
    resources (size 0 stands for the rest of the region), a request that does
    not fit ends in a failed check, and a subregion of a subregion is the
    subregion at the sum of the offsets. *)
Theorem Subregion_within r offset size :
  wf r -> 0 <= offset < 2 ^ 64 -> 0 <= size < 2 ^ 64 ->
  if (offset <? size_in_bytes_ r) && (offset + size <=? size_in_bytes_ r) then
    exists r1, Subregion r offset size = Ok r1 /\ wf r1 /\
      offset_ r1 = offset_ r + offset /\
      size_in_bytes_ r1 = (if size =? 0 then size_in_bytes_ r - offset else size) /\
      offset_ r1 + size_in_bytes_ r1 <= offset_ r + size_in_bytes_ r /\
      forall offset2 size2, 0 <= offset2 < size_in_bytes_ r1 -> 0 < size2 ->
        offset2 + size2 <= size_in_bytes_ r1 ->
        Subregion r1 offset2 size2 = Subregion r (offset + offset2) size2
  else Subregion r offset size = Fault CheckFailed.
Proof.
  intros Hwf Ho Hs. pose proof Hwf as [Hf (f & Hff & Hof & Hsz & Hle & Hw & Hu & Hsrc & Hd)].
  destruct (Z.ltb_spec offset (size_in_bytes_ r)) as [Hlt|Hge]; simpl.
  2:{ unfold Subregion. destruct (Z.ltb_spec offset (size_in_bytes_ r)); [lia|done]. }
  destruct (Z.leb_spec (offset + size) (size_in_bytes_ r)) as [Hfit|Hno].
  2:{ unfold Subregion. destruct (Z.ltb_spec offset (size_in_bytes_ r)); [|lia]. simpl.
      destruct (Z.eqb_spec size 0); [lia|]. rewrite !u64_small by lia.
      destruct (Z.leb_spec size (size_in_bytes_ r - offset)); [lia|done]. }
  pose proof (Subregion_ok r f offset size Hwf Hff ltac:(lia) ltac:(lia) Hlt Hfit) as E.
  set (r1 := mk _ _ _ _ _ _) in E.
  assert (wf r1) as Hwf1.
  { split; simpl; [congruence|]. exists f. split_and!; try done; try lia; case_cmp; lia. }
  exists r1. split_and!; [done|done|done|done|simpl; case_cmp; lia|].
  intros offset2 size2 Ho2 Hs2 Hfit2. simpl in Ho2, Hfit2.
  rewrite (Subregion_ok r1 f) by (done || simpl; lia). simpl.
  revert Ho2 Hfit2. destruct (Z.eqb_spec size 0); intros Ho2 Hfit2;
    rewrite (Subregion_ok r f) by (done || lia);
    (destruct (Z.eqb_spec size2 0); [lia|]); by rewrite Z.add_assoc.
Qed.

Definition example_region : D3D12BufferRegion :=
  let u := Some (mk_resource 1 4096) in
  mk u u u 1024 2048 u.

Lemma example_region_wf : wf example_region.
Proof. split; [done|]. exists (mk_resource 1 4096). simpl. split_and!; try done; lia. Qed.

Lemma Subregion_within_witness :
  exists r1, Subregion example_region 512 256 = Ok r1 /\ wf r1 /\
    offset_ r1 = 1536 /\ size_in_bytes_ r1 = 256 /\ 1536 + 256 <= 3072.
Proof.
  destruct (Subregion_within example_region 512 256 example_region_wf ltac:(lia) ltac:(lia))
    as (r1 & E & Hwf & Ho & Hs & _ & _).
  exists r1. split_and!; [exact E|exact Hwf|exact Ho|exact Hs|lia].
Defined.

End BufferRegion.
