(* ===== verification/PooledHeap.v ===== *)
(** * The pooled heap: a ring-buffer sub-allocator

    [DmlPooledHeap] (core/dml_pooled_heap.{h,cc}), the base class of the upload
    and readback heaps.  A heap is a vector of chunks; each chunk keeps the
    list of its allocations from least to most recent and is used as a ring
    buffer.  The class's own [AssertInvariants] is translated as an executable
    predicate; the theorems show that every operation preserves it. *)

From stdpp Require Import sorting.
From S2P Require Import Prelude Gpu.

Definition kMinChunkSize : Z := 1024 * 1024.
Definition kAllocationAlignment : Z := 512.

Record Allocation := mk_Allocation {
  size_in_bytes : Z;
  offset_in_chunk : Z;
  done_event : DmlGpuEvent }.

Record Chunk := mk_Chunk {
  capacity_in_bytes : Z;
  chunk_resource : option resource;
  allocations : list Allocation }.

Record PooledHeap := mk_PooledHeap {
  chunks_ : list Chunk;
  total_capacity_ : Z }.

Definition Align (offset alignment : Z) : result Z :=
  ASSERT (negb (alignment =? 0));; mret (align_up offset alignment).

Definition FindOffsetForAllocation (chunk : Chunk) (size : Z) : result (option Z) :=
  ASSERT (negb (size =? 0));;
  if capacity_in_bytes chunk <? size then mret None
  else
    match allocations chunk, last (allocations chunk) with
    | first_allocation :: _, Some last_allocation =>
        new_allocation_begin ←
          Align (u64 (offset_in_chunk last_allocation + size_in_bytes last_allocation))
                kAllocationAlignment;
        if u64 (new_allocation_begin + size) <? new_allocation_begin then mret None
        else if offset_in_chunk first_allocation <=? offset_in_chunk last_allocation then
          if u64 (new_allocation_begin + size) <=? capacity_in_bytes chunk
          then mret (Some new_allocation_begin)
          else if u64 (0 + size) <=? offset_in_chunk first_allocation
          then mret (Some 0)
          else mret None
        else
          if u64 (new_allocation_begin + size) <=? offset_in_chunk first_allocation
          then mret (Some new_allocation_begin)
          else mret None
    | _, _ => mret (Some 0)
    end.

(** What Direct3D answers: the completed value of each fence, and the HRESULT
    and resource of [CreateCommittedResource] for a buffer of a given width. *)
Record gpu_env := mk_gpu_env {
  GetCompletedValue : Z -> Z;
  CreateCommittedResource : Z -> Z * option resource }.

Definition CreateChunk (env : gpu_env) (size : Z) : result (StatusOr Chunk) :=
  let '(hr, upload_buffer) := CreateCommittedResource env size in
  if HrIsOutOfMemory hr then
    mret (inl (ResourceExhausted
      ("OOM when allocating a buffer of " +:+ pretty size +:+ " bytes")))
  else
    DML_CHECK_SUCCEEDED hr;;
    mret (inr (mk_Chunk size upload_buffer [])).

(** The loop of [Reserve] over [chunks_]: the first chunk with room. *)
Fixpoint find_chunk (l : list Chunk) (i : nat) (size : Z) : result (option (nat * Z)) :=
  match l with
  | [] => mret None
  | chunk :: l =>
      o ← FindOffsetForAllocation chunk size;
      match o with
      | Some off => mret (Some (i, off))
      | None => find_chunk l (S i) size
      end
  end.

(** Returns the index of the chunk that [*chunk_ptr] points to and the offset. *)
Definition Reserve (env : gpu_env) (h : PooledHeap) (size : Z) :
    result (StatusOr (nat * Z) * PooledHeap) :=
  found ← find_chunk (chunks_ h) 0 size;
  match found with
  | Some r => mret (inr r, h)
  | None =>
      let new_chunk_size := Z.max (Z.max (total_capacity_ h) kMinChunkSize) size in
      c ← CreateChunk env new_chunk_size;
      match c with
      | inl s => mret (inl s, h)
      | inr chunk =>
          mret (inr (length (chunks_ h), 0),
                mk_PooledHeap (chunks_ h ++ [chunk])
                              (u64 (total_capacity_ h + new_chunk_size)))
      end
  end.

Fixpoint reclaim_chunk (gcv : Z -> Z) (l : list Allocation) : list Allocation :=
  match l with
  | a :: l' => if IsSignaled gcv (done_event a) then reclaim_chunk gcv l' else l
  | [] => []
  end.

Definition set_allocations (l : list Allocation) (c : Chunk) : Chunk :=
  mk_Chunk (capacity_in_bytes c) (chunk_resource c) l.

Definition ReclaimAllocations (env : gpu_env) (h : PooledHeap) : PooledHeap :=
  mk_PooledHeap
    (map (fun c => set_allocations (reclaim_chunk (GetCompletedValue env) (allocations c)) c)
         (chunks_ h))
    (total_capacity_ h).

(** [chunk->allocations.push_back(...)], done by the heaps built on this one. *)
Definition push_allocation (h : PooledHeap) (i : nat) (a : Allocation) : PooledHeap :=
  mk_PooledHeap (alter (fun c => set_allocations (allocations c ++ [a]) c) i (chunks_ h))
                (total_capacity_ h).

(** ** AssertInvariants *)

Fixpoint is_sorted {A} (lt : A -> A -> bool) (l : list A) : bool :=
  match l with
  | a :: (b :: _) as l' => negb (lt b a) && is_sorted lt l'
  | _ => true
  end.

Definition chunk_capacity_comparer (lhs rhs : Chunk) : bool :=
  capacity_in_bytes lhs <? capacity_in_bytes rhs.
Definition alloc_fence_value_comparer (lhs rhs : Allocation) : bool :=
  fence_value (done_event lhs) <? fence_value (done_event rhs).
Definition alloc_offset_le (lhs rhs : Allocation) : Prop :=
  offset_in_chunk lhs <= offset_in_chunk rhs.
#[export] Instance alloc_offset_le_dec : RelDecision alloc_offset_le.
Proof. intros x y. unfold alloc_offset_le. apply _. Defined.

(** The check on the allocations sorted by offset. *)
Fixpoint no_overlap (l : list Allocation) : bool :=
  match l with
  | alloc :: (next_alloc :: _) as l' =>
      (u64 (offset_in_chunk alloc + size_in_bytes alloc) <=? offset_in_chunk next_alloc)
      && no_overlap l'
  | _ => true
  end.

Definition valid_chunk_resource (c : Chunk) : bool :=
  match chunk_resource c with
  | Some r => capacity_in_bytes c =? res_width r
  | None => false
  end.

Definition valid_allocation (c : Chunk) (a : Allocation) : bool :=
  (u64 (offset_in_chunk a + size_in_bytes a) <=? capacity_in_bytes c)
  && (offset_in_chunk a `mod` kAllocationAlignment =? 0).

Definition AssertInvariants (h : PooledHeap) : result unit :=
  ASSERT (is_sorted chunk_capacity_comparer (chunks_ h));;
  ASSERT (forallb (fun c => is_sorted alloc_fence_value_comparer (allocations c)) (chunks_ h));;
  ASSERT (forallb valid_chunk_resource (chunks_ h));;
  ASSERT (forallb (fun c => forallb (valid_allocation c) (allocations c)) (chunks_ h));;
  ASSERT (forallb (fun c => no_overlap (merge_sort alloc_offset_le (allocations c))) (chunks_ h));;
  ASSERT (foldl (fun n c => u64 (n + capacity_in_bytes c)) 0 (chunks_ h) =? total_capacity_ h).

Definition alloc_empty (c : Chunk) : bool :=
  match allocations c with [] => true | _ => false end.

Definition Trim (env : gpu_env) (h : PooledHeap) : result PooledHeap :=
  AssertInvariants h;;
  let h := ReclaimAllocations env h in
  let chunks := List.filter (fun c => negb (alloc_empty c)) (chunks_ h) in
  let h := mk_PooledHeap chunks
             (foldl (fun n c => u64 (n + capacity_in_bytes c)) 0 chunks) in
  AssertInvariants h;;
  mret h.

(** ** The invariant *)

Definition a_end (a : Allocation) : Z := offset_in_chunk a + size_in_bytes a.

(** [a] lies entirely before [b] in the chunk. *)
Definition before (a b : Allocation) : Prop := a_end a <= offset_in_chunk b.

Definition fence_le (a b : Allocation) : Prop :=
  fence_value (done_event a) <= fence_value (done_event b).

Definition alloc_wf (cap : Z) (a : Allocation) : Prop :=
  0 <= offset_in_chunk a /\ 0 < size_in_bytes a /\ a_end a <= cap /\
  offset_in_chunk a `mod` kAllocationAlignment = 0.

(** The ring shape: the list, from least to most recent, is an upper part
    followed by a lower part, and the lower part followed by the upper part is
    in address order without overlap. *)
Definition ring (l : list Allocation) : Prop :=
  exists hi lo, l = hi ++ lo /\ StronglySorted before (lo ++ hi).

Record chunk_wf (c : Chunk) : Prop := {
  cw_cap : 0 <= capacity_in_bytes c;
  cw_resource : valid_chunk_resource c = true;
  cw_allocs : Forall (alloc_wf (capacity_in_bytes c)) (allocations c);
  cw_ring : ring (allocations c);
  cw_fences : StronglySorted fence_le (allocations c) }.

Record heap_wf (h : PooledHeap) : Prop := {
  hw_chunks : Forall chunk_wf (chunks_ h);
  hw_sorted : StronglySorted (fun a b => capacity_in_bytes a <= capacity_in_bytes b) (chunks_ h);
  hw_total : total_capacity_ h = Zsum capacity_in_bytes (chunks_ h);
  hw_bound : total_capacity_ h + kAllocationAlignment <= 2 ^ 64 }.

(** *** The ring lemmas *)

Lemma before_trans_mid cap a b c :
  alloc_wf cap b -> before a b -> before b c -> before a c.
Proof. unfold alloc_wf, before, a_end. lia. Qed.

Lemma ring_tail a l : ring (a :: l) -> ring l.
Proof.
  intros ([|b hi] & lo & Heq & Hs); simplify_eq/=.
  - exists l, []. split; [by rewrite app_nil_r|].
    rewrite app_nil_r in Hs. simpl. by apply StronglySorted_inv in Hs as [? _].
  - exists hi, lo. split; [done|].
    apply StronglySorted_app in Hs as (Hx & Hlo & Hhi).
    apply StronglySorted_app_2; [set_solver|done|].
    by apply StronglySorted_inv in Hhi as [? _].
Qed.

(** In a ring whose first element is not above its last, there is one part. *)
Lemma ring_unwrapped cap l first last :
  Forall (alloc_wf cap) l -> ring l ->
  head l = Some first -> list.last l = Some last ->
  offset_in_chunk first <= offset_in_chunk last ->
  StronglySorted before l.
Proof.
  intros Hwf (hi & lo & -> & Hs) Hf Hl Hle.
  destruct hi as [|x hi]; [by rewrite app_nil_r in Hs|].
  destruct lo as [|y lo]; [by rewrite app_nil_r|]. exfalso.
  apply StronglySorted_app in Hs as (Hx & _ & _).
  rewrite last_app_cons in Hl. simpl in Hf. simplify_eq.
  apply last_Some_elem_of in Hl.
  specialize (Hx last first ltac:(done) ltac:(set_solver)).
  rewrite Forall_forall in Hwf.
  specialize (Hwf last ltac:(set_solver)). unfold alloc_wf, before, a_end in *. lia.
Qed.

Lemma ring_wrapped l first last :
  ring l -> head l = Some first -> list.last l = Some last ->
  Forall (fun a => 0 < size_in_bytes a) l ->
  offset_in_chunk last < offset_in_chunk first ->
  exists hi lo, l = hi ++ lo /\ hi <> [] /\ lo <> [] /\ StronglySorted before (lo ++ hi).
Proof.
  intros (hi & lo & -> & Hs) Hf Hl Hpos Hlt.
  assert (forall k, head k = Some first -> list.last k = Some last ->
    StronglySorted before k -> Forall (fun a => 0 < size_in_bytes a) k -> False) as Hone.
  { intros [|x k] Hfk Hlk Hk Hp; [done|]. simplify_eq/=.
    apply StronglySorted_inv in Hk as [_ Hall].
    apply last_Some_elem_of in Hlk. rewrite Forall_forall in Hall.
    apply Forall_cons in Hp as [Hp _].
    apply elem_of_cons in Hlk as [->|Hin]; [lia|].
    specialize (Hall _ Hin). unfold before, a_end in Hall. lia. }
  destruct hi as [|x hi].
  { simplify_eq/=. rewrite app_nil_r in Hs. exfalso. by apply (Hone lo). }
  destruct lo as [|y lo].
  { rewrite app_nil_r in *. simpl in Hs. exfalso. by apply (Hone (x :: hi)). }
  by exists (x :: hi), (y :: lo).
Qed.

Lemma sorted_snoc_before cap l last new :
  Forall (alloc_wf cap) l -> StronglySorted before l -> list.last l = Some last ->
  before last new -> StronglySorted before (l ++ [new]).
Proof.
  intros Hwf Hs Hl Hb. apply StronglySorted_app_2; [|done|by repeat constructor].
  intros x y Hx Hy%list_elem_of_singleton. subst y.
  apply last_Some in Hl as [l' ->].
  apply StronglySorted_app in Hs as (Hlt & _ & _).
  apply elem_of_app in Hx as [Hx|Hx%list_elem_of_singleton]; [|by subst].
  apply before_trans_mid with cap last; [|by set_solver|done].
  rewrite Forall_forall in Hwf. set_solver.
Qed.

Lemma sorted_cons_before cap l first new :
  Forall (alloc_wf cap) l -> StronglySorted before l -> head l = Some first ->
  before new first -> StronglySorted before (new :: l).
Proof.
  destruct l as [|x l]; [done|]. intros Hwf Hs Hf Hb. simplify_eq/=.
  apply StronglySorted_cons. split; [|done].
  apply StronglySorted_inv in Hs as [_ Hall]. constructor; [done|].
  eapply Forall_impl; [done|]. intros y Hy.
  apply Forall_cons in Hwf as [Hwf _]. by eapply before_trans_mid.
Qed.

(** *** FindOffsetForAllocation *)

Lemma Align_512 e :
  0 <= e -> e + kAllocationAlignment <= 2 ^ 64 ->
  exists b, Align e kAllocationAlignment = Ok b /\
    e <= b < e + kAllocationAlignment /\ b `mod` kAllocationAlignment = 0.
Proof.
  intros He Hle. exists (align_up e kAllocationAlignment). split; [done|].
  by apply (align_up_bounds e 9).
Qed.

(** The room a chunk has for [size] bytes after its most recent allocation. *)
Inductive fits (c : Chunk) (size : Z) : Z -> Prop :=
  | fits_empty :
      allocations c = [] -> fits c size 0
  | fits_end first last b :
      head (allocations c) = Some first -> list.last (allocations c) = Some last ->
      offset_in_chunk first <= offset_in_chunk last ->
      Align (a_end last) kAllocationAlignment = Ok b ->
      b + size <= capacity_in_bytes c -> fits c size b
  | fits_begin first last b :
      head (allocations c) = Some first -> list.last (allocations c) = Some last ->
      offset_in_chunk first <= offset_in_chunk last ->
      Align (a_end last) kAllocationAlignment = Ok b ->
      capacity_in_bytes c < b + size -> b + size < 2 ^ 64 ->
      size <= offset_in_chunk first -> fits c size 0
  | fits_middle first last b :
      head (allocations c) = Some first -> list.last (allocations c) = Some last ->
      offset_in_chunk last < offset_in_chunk first ->
      Align (a_end last) kAllocationAlignment = Ok b ->
      b + size <= offset_in_chunk first -> fits c size b.

Lemma u64_overflow_check b n :
  0 <= b < 2 ^ 64 -> 0 <= n < 2 ^ 64 -> (u64 (b + n) <? b) = (2 ^ 64 <=? b + n).
Proof.
  intros Hb Hn. unfold u64. destruct (decide (b + n < 2 ^ 64)).
  - rewrite Z.mod_small by lia. lia.
  - rewrite <- (Z_mod_plus_full (b + n) (-1) (2 ^ 64)), Z.mod_small by lia. lia.
Qed.

Lemma FindOffset_spec c size :
  chunk_wf c -> 0 < size < 2 ^ 64 -> capacity_in_bytes c + kAllocationAlignment <= 2 ^ 64 ->
  exists o, FindOffsetForAllocation c size = Ok o /\
    match o with
    | Some off => size <= capacity_in_bytes c /\ fits c size off
    | None => capacity_in_bytes c < size \/ forall off, ~ fits c size off
    end.
Proof.
  intros [Hcap _ Hall _ _] Hsize Hbound. unfold FindOffsetForAllocation.
  assert (kAllocationAlignment = 512) as Hk by done.
  replace (size =? 0) with false by lia. simpl.
  destruct (Z.ltb_spec (capacity_in_bytes c) size); [exists None; split; [done|by left]|].
  destruct (allocations c) as [|first l] eqn:Eal.
  { eexists; split; [done|]. split; [done|]. by constructor. }
  destruct (list.last (first :: l)) as [last|] eqn:El; [|by apply last_None in El].
  assert (alloc_wf (capacity_in_bytes c) last) as Hlast.
  { rewrite Forall_forall in Hall. apply Hall. by apply last_Some_elem_of. }
  assert (alloc_wf (capacity_in_bytes c) first) as Hfirst by by inversion Hall.
  unfold alloc_wf, a_end in Hlast, Hfirst.
  rewrite (u64_small (offset_in_chunk last + _)) by lia. fold (a_end last).
  destruct (Align_512 (a_end last)) as (b & Hb & Hbr & _); [unfold a_end; lia..|].
  replace (align_up (a_end last) kAllocationAlignment) with b by (by injection Hb).
  unfold a_end in *. rewrite Hk in *.
  rewrite u64_overflow_check by lia.
  assert (forall f' l' b' (P : Prop),
    head (allocations c) = Some f' -> list.last (allocations c) = Some l' ->
    Align (offset_in_chunk l' + size_in_bytes l') 512 = Ok b' ->
    (f' = first -> l' = last -> b' = b -> P) -> P) as Hinv.
  { intros f' l' b' P Hf' Hl' Hb' HP. rewrite Eal in Hf', Hl'.
    rewrite El in Hl'. simplify_eq/=. apply HP; congruence. }
  destruct (Z.leb_spec (2 ^ 64) (b + size)).
  { eexists; split; [done|]. right. intros off [Hnil|???????|?????????|???????];
      [congruence|eapply Hinv; eauto; intros; subst; lia..]. }
  rewrite !u64_small by lia. rewrite Z.add_0_l.
  case_cmp; (eexists; split; [reflexivity|]).
  - split; [done|]. eapply fits_end; rewrite ?Eal; eauto.
  - split; [done|]. eapply fits_begin; rewrite ?Eal; eauto; lia.
  - right. intros off [Hnil|???????|?????????|???????];
      [congruence|eapply Hinv; eauto; intros; subst; lia..].
  - split; [done|]. eapply fits_middle; rewrite ?Eal; eauto.
  - right. intros off [Hnil|???????|?????????|???????];
      [congruence|eapply Hinv; eauto; intros; subst; lia..].
Qed.

(** An allocation placed where there is room keeps the ring shape. *)
Lemma fits_ring c size off new :
  chunk_wf c -> 0 < size -> size <= capacity_in_bytes c ->
  capacity_in_bytes c + kAllocationAlignment <= 2 ^ 64 ->
  fits c size off -> size_in_bytes new = size -> offset_in_chunk new = off ->
  alloc_wf (capacity_in_bytes c) new /\ ring (allocations c ++ [new]).
Proof.
  intros [Hcap _ Hall Hring _] Hs Hle Hbound Hfit Hns Hno.
  assert (kAllocationAlignment = 512) as Hk by done.
  assert (forall l, list.last (allocations c) = Some l -> alloc_wf (capacity_in_bytes c) l) as Hl.
  { intros l Hl. rewrite Forall_forall in Hall. apply Hall. by apply last_Some_elem_of. }
  destruct Hfit as [Hnil|first last b Hf Hla Ho Hb Hroom|first last b Hf Hla Ho Hb _ _ Hroom
                   |first last b Hf Hla Ho Hb Hroom].
  - rewrite Hnil. split; [unfold alloc_wf, a_end; rewrite Hns, Hno, Hk; split_and!; [lia..|done]|].
    exists [new], []. split; [done|]. by repeat constructor.
  - pose proof (Hl _ Hla) as Hwl. unfold alloc_wf in Hwl.
    destruct (Align_512 (a_end last)) as (b' & Hb' & Hr & Hm);
      [unfold a_end in *; lia..|]. assert (b' = b) as -> by congruence.
    split; [unfold alloc_wf, a_end in *; rewrite Hns, Hno; lia|].
    exists (allocations c ++ [new]), []. split; [by rewrite app_nil_r|]. simpl.
    eapply sorted_snoc_before; eauto using ring_unwrapped.
    unfold before. lia.
  - split; [unfold alloc_wf, a_end; rewrite Hns, Hno, Hk; split_and!; [lia..|done]|].
    exists (allocations c), [new]. split; [done|]. simpl.
    eapply sorted_cons_before; eauto using ring_unwrapped.
    unfold before, a_end. lia.
  - pose proof (Hl _ Hla) as Hwl. unfold alloc_wf in Hwl.
    destruct (Align_512 (a_end last)) as (b' & Hb' & Hr & Hm);
      [unfold a_end in *; lia..|]. assert (b' = b) as -> by congruence.
    assert (alloc_wf (capacity_in_bytes c) first) as Hwf.
    { rewrite Forall_forall in Hall. apply Hall. destruct (allocations c); [done|].
      simplify_eq/=. set_solver. }
    unfold alloc_wf in Hwf.
    split; [unfold alloc_wf, a_end in *; rewrite Hns, Hno; lia|].
    destruct (ring_wrapped (allocations c) first last) as (hi & lo & Heq & Hhi & Hlo & Hso); try done.
    { eapply Forall_impl; [done|]. unfold alloc_wf. naive_solver. }
    exists hi, (lo ++ [new]). split; [by rewrite Heq, <- app_assoc|].
    rewrite Heq in *. apply Forall_app in Hall as [Hallh Halll].
    apply StronglySorted_app in Hso as (Hx & Hslo & Hshi).
    destruct hi as [|f hi]; [done|]. simplify_eq/=.
    rewrite app_comm_cons, last_app in Hla.
    destruct (list.last lo) as [l'|] eqn:El; [|by apply last_None in El]. simplify_eq.
    assert (StronglySorted before (new :: first :: hi)) as Hnh.
    { eapply sorted_cons_before; eauto; unfold before, a_end; lia. }
    rewrite <- app_assoc. simpl. apply StronglySorted_app_2; [|done|done].
    intros x y Hxin [->|Hy]%elem_of_cons; [|by apply Hx].
    assert (StronglySorted before (lo ++ [new])) as Hln.
    { eapply sorted_snoc_before; eauto; unfold before; lia. }
    eapply StronglySorted_app_1_elem_of; [exact Hln|done|set_solver].
Qed.

(** *** AssertInvariants holds of a well-formed heap *)

Lemma StronglySorted_is_sorted {A} (lt : A -> A -> bool) (R : A -> A -> Prop) l :
  (forall a b, R a b -> lt b a = false) -> StronglySorted R l -> is_sorted lt l = true.
Proof.
  intros HR. induction 1 as [|a l Hl IH Ha]; [done|].
  destruct l as [|b l]; [done|]. apply Forall_cons in Ha as [Hab _].
  simpl in *. by rewrite (HR a b Hab), IH.
Qed.

Lemma spaced_no_overlap cap l :
  cap < 2 ^ 64 -> Forall (alloc_wf cap) l -> StronglySorted before l -> no_overlap l = true.
Proof.
  intros Hcap Hwf. induction 1 as [|a l Hl IH Ha]; [done|].
  destruct l as [|b l]; [done|]. apply Forall_cons in Ha as [Hab _].
  apply Forall_cons in Hwf as [Hwa Hwf]. unfold before, alloc_wf, a_end in *.
  change (no_overlap (a :: b :: l)) with
    ((u64 (offset_in_chunk a + size_in_bytes a) <=? offset_in_chunk b) && no_overlap (b :: l)).
  rewrite IH, u64_small by (done || lia). rewrite andb_true_r. lia.
Qed.

(** Sorting a ring by offset gives its lower part then its upper part. *)
Lemma merge_sort_ring cap l :
  Forall (alloc_wf cap) l -> ring l -> StronglySorted before (merge_sort alloc_offset_le l).
Proof.
  intros Hwf (hi & lo & -> & Hs).
  assert (Transitive alloc_offset_le) by (intros a b c; unfold alloc_offset_le; lia).
  assert (Total alloc_offset_le) by (intros a b; unfold alloc_offset_le; lia).
  replace (merge_sort alloc_offset_le (hi ++ lo)) with (lo ++ hi); [done|].
  assert (Forall (alloc_wf cap) (lo ++ hi)) as Hwf' by by rewrite Permutation_app_comm.
  symmetry. apply (StronglySorted_unique_strong alloc_offset_le).
  - intros x y Hx Hy Hxy Hyx. rewrite merge_sort_Permutation, Permutation_app_comm in Hx.
    clear -Hs Hwf' Hx Hy Hxy Hyx. unfold alloc_offset_le in *.
    induction Hs as [|a l Hl IH Ha]; [by apply elem_of_nil in Hx|].
    apply Forall_cons in Hwf' as [Hwa Hwf]. unfold alloc_wf in Hwa.
    rewrite Forall_forall in Ha. unfold before, a_end in *.
    apply elem_of_cons in Hx as [->|Hx]; apply elem_of_cons in Hy as [->|Hy]; auto.
    + specialize (Ha _ Hy). lia.
    + specialize (Ha _ Hx). lia.
  - by apply StronglySorted_merge_sort.
  - clear -Hs Hwf'. induction Hs as [|a l Hl IH Ha]; [constructor|].
    apply Forall_cons in Hwf' as [Hwa Hwf]. constructor; [auto|].
    eapply Forall_impl; [exact Ha|]. intros b. unfold before, alloc_wf, alloc_offset_le, a_end in *. lia.
  - by rewrite merge_sort_Permutation, Permutation_app_comm.
Qed.

Lemma foldl_capacity n l :
  Forall chunk_wf l -> 0 <= n -> n + Zsum capacity_in_bytes l < 2 ^ 64 ->
  foldl (fun n c => u64 (n + capacity_in_bytes c)) n l = n + Zsum capacity_in_bytes l.
Proof.
  intros Hl. revert n. induction Hl as [|c l Hc Hl IH]; intros n Hn Hlt; simpl in *; [lia|].
  destruct Hc. assert (0 <= Zsum capacity_in_bytes l).
  { apply Zsum_nonneg. eapply Forall_impl; [done|]. by intros ? []. }
  rewrite u64_small, IH; lia.
Qed.

Lemma heap_wf_nonneg h : heap_wf h -> Forall (fun c => 0 <= capacity_in_bytes c) (chunks_ h).
Proof. intros [Hc _ _ _]. eapply Forall_impl; [done|]. by intros ? []. Qed.

Lemma heap_wf_capacity h c :
  heap_wf h -> c ∈ chunks_ h ->
  0 <= capacity_in_bytes c <= total_capacity_ h.
Proof.
  intros Hwf Hin. pose proof (heap_wf_nonneg h Hwf) as Hnn.
  split; [by rewrite Forall_forall in Hnn; apply Hnn|].
  rewrite (hw_total _ Hwf). by apply Zsum_elem_le.
Qed.

Lemma heap_wf_AssertInvariants h : heap_wf h -> AssertInvariants h = Ok ().
Proof.
  intros Hwf. pose proof (heap_wf_capacity h) as Hcapb. pose proof Hwf as [Hc Hs Ht Hb].
  assert (kAllocationAlignment = 512) as Hk by done. rewrite Hk in Hb.
  unfold AssertInvariants.
  rewrite (StronglySorted_is_sorted chunk_capacity_comparer _ _
             (fun a b H => proj2 (Z.ltb_ge _ _) H) Hs).
  rewrite Forall_forall in Hc.
  rewrite !forallb_Forall_true.
  - cbn. rewrite foldl_capacity; [|by apply Forall_forall|lia|lia].
    by rewrite Z.add_0_l, <- Ht, Z.eqb_refl.
  - apply Forall_forall. intros c Hin. destruct (Hc c Hin).
    eapply StronglySorted_is_sorted; [|done]. intros a b Hab. by apply Z.ltb_ge.
  - apply Forall_forall. intros c Hin. by destruct (Hc c Hin).
  - apply Forall_forall. intros c Hin. destruct (Hc c Hin).
    specialize (Hcapb c Hwf Hin).
    apply forallb_Forall_true. eapply Forall_impl; [done|].
    intros a (? & ? & ? & Hm). unfold valid_allocation, a_end in *.
    rewrite u64_small by lia. rewrite Hm. apply andb_true_iff; split; lia.
  - apply Forall_forall. intros c Hin. destruct (Hc c Hin).
    specialize (Hcapb c Hwf Hin).
    eapply spaced_no_overlap; [|by rewrite merge_sort_Permutation|by eapply merge_sort_ring].
    lia.
Qed.

(** *** ReclaimAllocations *)

Lemma reclaim_chunk_suffix gcv l : exists l', l = l' ++ reclaim_chunk gcv l.
Proof.
  induction l as [|a l [l' IH]]; simpl; [by exists []|].
  destruct (IsSignaled gcv (done_event a)); [|by exists []].
  exists (a :: l'). simpl. by f_equal.
Qed.

Lemma ring_suffix l1 l2 : ring (l1 ++ l2) -> ring l2.
Proof. induction l1; simpl; eauto using ring_tail. Qed.

Lemma reclaim_chunk_wf gcv c :
  chunk_wf c -> chunk_wf (set_allocations (reclaim_chunk gcv (allocations c)) c).
Proof.
  intros []. destruct (reclaim_chunk_suffix gcv (allocations c)) as [l' Hl].
  rewrite Hl in cw_allocs0, cw_ring0, cw_fences0.
  apply Forall_app in cw_allocs0 as [_ ?]. apply ring_suffix in cw_ring0.
  apply StronglySorted_app_1_r in cw_fences0. by constructor.
Qed.

(** On one fence, with the allocations in fence order, reclaiming from the
    front removes every allocation whose event is signaled. *)
Lemma reclaim_chunk_filter gcv f l :
  StronglySorted fence_le l -> Forall (fun a => fence (done_event a) = f) l ->
  reclaim_chunk gcv l = List.filter (fun a => negb (IsSignaled gcv (done_event a))) l.
Proof.
  intros Hs Hf. induction Hs as [|a l Hl IH Ha]; [done|]. simpl.
  apply Forall_cons in Hf as [Hfa Hf]. rewrite IH by done.
  destruct (IsSignaled gcv (done_event a)) eqn:E; simpl; [done|]. f_equal.
  clear IH. unfold IsSignaled, fence_le in *. rewrite Hfa in E. apply Z.leb_gt in E.
  induction Ha as [|b l Hb Hl' IH]; [done|]. simpl.
  apply Forall_cons in Hf as [Hfb Hf]. rewrite Hfb.
  destruct (Z.leb_spec (fence_value (done_event b)) (gcv f)); [lia|].
  simpl. f_equal. apply IH; [|done]. by apply StronglySorted_inv in Hl as [? _].
Qed.

Lemma ReclaimAllocations_wf env h : heap_wf h -> heap_wf (ReclaimAllocations env h).
Proof.
  intros [Hc Hs Ht Hb]. split; simpl; [..|done].
  - apply Forall_map. eapply Forall_impl; [done|]. intros c. apply reclaim_chunk_wf.
  - by apply (StronglySorted_map_key capacity_in_bytes).
  - by rewrite Zsum_map.
Qed.

(** *** Reserve *)

(** What Direct3D promises of [CreateCommittedResource]: a success returns a
    buffer of the width asked for. *)
Definition creates_buffers (env : gpu_env) : Prop :=
  forall size hr r, CreateCommittedResource env size = (hr, r) -> FAILED hr = false ->
    exists res, r = Some res /\ res_width res = size.

(** The only failure of the device is to be out of memory. *)
Definition only_out_of_memory (env : gpu_env) : Prop :=
  forall size, let hr := fst (CreateCommittedResource env size) in
    FAILED hr = true -> HrIsOutOfMemory hr = true.

Definition new_chunk_size (h : PooledHeap) (size : Z) : Z :=
  Z.max (Z.max (total_capacity_ h) kMinChunkSize) size.

Definition has_room (c : Chunk) (size off : Z) : Prop :=
  size <= capacity_in_bytes c /\ fits c size off.

Lemma find_chunk_spec l i size :
  Forall (fun c => chunk_wf c /\ capacity_in_bytes c + kAllocationAlignment <= 2 ^ 64) l ->
  0 < size < 2 ^ 64 ->
  exists o, find_chunk l i size = Ok o /\
    match o with
    | Some (j, off) => exists k c, j = (i + k)%nat /\ l !! k = Some c /\ has_room c size off
    | None => Forall (fun c => forall off, ~ has_room c size off) l
    end.
Proof.
  intros Hl Hs. revert i. induction Hl as [|c l [Hc Hcap] Hl IH]; intros i; simpl.
  { by exists None. }
  destruct (FindOffset_spec c size Hc Hs Hcap) as (o & Ho & Hspec). rewrite Ho. simpl.
  destruct o as [off|].
  { eexists; split; [done|]. exists 0%nat, c. by rewrite Nat.add_0_r. }
  destruct (IH (S i)) as ([[j off]|] & Hf & Hrest); rewrite Hf;
    (eexists; split; [reflexivity|]).
  - destruct Hrest as (k & c' & -> & Hk & Hroom). exists (S k), c'.
    split; [lia|done].
  - constructor; [|done]. intros off [Hle Hfit]. destruct Hspec as [Hlt|Hno]; [lia|].
    by apply (Hno off).
Qed.

Lemma fresh_chunk_wf size res :
  0 < size -> res_width res = size -> chunk_wf (mk_Chunk size (Some res) []).
Proof.
  intros Hs Hw. split; simpl; [lia|by apply Z.eqb_eq|constructor| |constructor].
  exists [], []. split; [done|constructor].
Qed.

Lemma snoc_chunk_wf h c :
  heap_wf h -> chunk_wf c -> total_capacity_ h <= capacity_in_bytes c ->
  total_capacity_ h + capacity_in_bytes c + kAllocationAlignment <= 2 ^ 64 ->
  heap_wf (mk_PooledHeap (chunks_ h ++ [c]) (u64 (total_capacity_ h + capacity_in_bytes c))).
Proof.
  intros Hwf Hc Hge Hbound. pose proof (heap_wf_capacity h) as Hcapb.
  pose proof Hwf as [Hcs Hs Ht Hb]. destruct Hc as [Hc0 ?].
  assert (0 <= total_capacity_ h).
  { rewrite Ht. apply Zsum_nonneg, heap_wf_nonneg, Hwf. }
  assert (kAllocationAlignment = 512) as Hk by done.
  rewrite u64_small by lia.
  split; simpl; [..|lia].
  - apply Forall_app. split; [done|]. by repeat constructor.
  - apply StronglySorted_app_2; [|done|by repeat constructor].
    intros x y Hx ->%list_elem_of_singleton. specialize (Hcapb x Hwf Hx). lia.
  - rewrite Zsum_app, Ht. simpl. lia.
Qed.

Lemma Reserve_spec env h size :
  heap_wf h -> 0 < size < 2 ^ 64 ->
  total_capacity_ h + new_chunk_size h size + kAllocationAlignment <= 2 ^ 64 ->
  creates_buffers env -> only_out_of_memory env ->
  exists r h', Reserve env h size = Ok (r, h') /\ heap_wf h' /\
    match r with
    | inl s => h' = h /\ code s = TF_RESOURCE_EXHAUSTED
    | inr (i, off) => exists c, chunks_ h' !! i = Some c /\ has_room c size off /\
        (h' = h \/
         (chunks_ h' = chunks_ h ++ [c] /\ allocations c = [] /\
          capacity_in_bytes c = new_chunk_size h size /\
          snd (CreateCommittedResource env (new_chunk_size h size)) = chunk_resource c /\
          Forall (fun c => forall off, ~ has_room c size off) (chunks_ h)))
    end.
Proof.
  intros Hwf Hs Hbound Hcreate Hoom. unfold Reserve.
  assert (kAllocationAlignment = 512) as Hk by done.
  assert (0 <= total_capacity_ h).
  { rewrite (hw_total _ Hwf). apply Zsum_nonneg, heap_wf_nonneg, Hwf. }
  assert (new_chunk_size h size >= size /\ new_chunk_size h size >= total_capacity_ h)
    by (unfold new_chunk_size; lia).
  destruct (find_chunk_spec (chunks_ h) 0 size) as (o & Ho & Hspec); [|done|].
  { apply Forall_forall. intros c Hin. pose proof (heap_wf_capacity h c Hwf Hin).
    destruct Hwf as [Hc _ _ ?]. rewrite Forall_forall in Hc. split; [auto|lia]. }
  rewrite Ho. simpl. destruct o as [[j off]|].
  { destruct Hspec as (k & c & -> & Hl & Hroom). eexists _, h. split; [reflexivity|].
    split; [done|]. exists c. eauto. }
  fold (new_chunk_size h size). unfold CreateChunk.
  destruct (CreateCommittedResource env (new_chunk_size h size)) as [hr r] eqn:Ecr.
  destruct (HrIsOutOfMemory hr) eqn:Eoom; simpl.
  { eexists _, h. split; [reflexivity|]. by split. }
  destruct (FAILED hr) eqn:Ef.
  { specialize (Hoom (new_chunk_size h size)). rewrite Ecr in Hoom. simpl in Hoom.
    by rewrite Hoom in Eoom. }
  destruct (Hcreate _ _ _ Ecr Ef) as (res & -> & Hw).
  unfold DML_CHECK_SUCCEEDED. rewrite Ef. simpl.
  eexists _, _. split; [reflexivity|]. split.
  { apply (snoc_chunk_wf h (mk_Chunk _ _ _)); simpl; [done| |lia|lia].
    apply fresh_chunk_wf; [lia|done]. }
  eexists. simpl. rewrite lookup_app_r, Nat.sub_diag by lia. split; [reflexivity|].
  split; [split; [simpl; lia|by constructor]|]. right. done.
Qed.

(** Adding the reserved allocation, with an event not earlier than the others. *)
Lemma push_allocation_wf h i c a :
  heap_wf h -> chunks_ h !! i = Some c ->
  has_room c (size_in_bytes a) (offset_in_chunk a) -> 0 < size_in_bytes a ->
  Forall (fun b => fence_le b a) (allocations c) ->
  heap_wf (push_allocation h i a).
Proof.
  intros Hwf Hi [Hle Hfit] Hpos Hf. pose proof Hwf as [Hc Hs Ht Hb].
  assert (c ∈ chunks_ h) as Hin by by eapply list_elem_of_lookup_2.
  pose proof (heap_wf_capacity h c Hwf Hin).
  assert (chunk_wf c) as Hcw by by rewrite Forall_forall in Hc; apply Hc.
  destruct (fits_ring c _ _ a Hcw Hpos Hle ltac:(lia) Hfit eq_refl eq_refl) as [Haw Hring].
  destruct (lookup_alter_split _ _ _ Hi) as (l1 & l2 & Heq & _ & Halt).
  set (c' := set_allocations (allocations c ++ [a]) c).
  assert (chunk_wf c') as Hc'.
  { destruct Hcw. split; simpl; auto using Forall_snoc, StronglySorted_snoc. }
  unfold push_allocation. rewrite Halt. fold c'. rewrite Heq in Hc, Hs, Ht.
  split; simpl; [..|done].
  - rewrite Forall_app, Forall_cons in *. naive_solver.
  - rewrite StronglySorted_app, StronglySorted_cons in *.
    destruct Hs as (Hx & ? & Hcf & ?). split_and!; [|done|done|done].
    intros x y Hx1 [->|Hy]%elem_of_cons; [by apply (Hx x c); set_solver|].
    apply Hx; set_solver.
  - rewrite Zsum_app in *. done.
Qed.

(** *** Trim *)

Lemma filter_heap_wf p h :
  heap_wf h ->
  let cs := List.filter p (chunks_ h) in
  heap_wf (mk_PooledHeap cs (foldl (fun n c => u64 (n + capacity_in_bytes c)) 0 cs)).
Proof.
  intros Hwf cs. pose proof (heap_wf_nonneg _ Hwf) as Hnn. destruct Hwf as [Hc Hs Ht Hb].
  pose proof (Zsum_filter_le capacity_in_bytes p _ Hnn). fold cs in H.
  assert (kAllocationAlignment = 512) by done.
  assert (Forall chunk_wf cs) as Hcs by by apply Forall_list_filter.
  rewrite foldl_capacity by (done || lia).
  split; simpl; [done|by apply StronglySorted_filter|lia|lia].
Qed.

(** *** What clients rely on *)

(** Two members of a list sorted by [before] do not overlap. *)
Lemma sorted_perm_related {A} (R : A -> A -> Prop) l a l' b :
  StronglySorted R l -> l ≡ₚ a :: l' -> b ∈ l' -> R a b \/ R b a.
Proof.
  intros Hs Hp Hb. assert (a ∈ l) as (l1 & l2 & ->)%list_elem_of_split by (rewrite Hp; by left).
  rewrite <- Permutation_middle in Hp. apply Permutation_cons_inv in Hp. rewrite <- Hp in Hb.
  apply StronglySorted_app in Hs as (Hx & _ & [_ Hall]%StronglySorted_inv).
  rewrite Forall_forall in Hall.
  apply elem_of_app in Hb as [Hb|Hb]; [right; apply Hx; set_solver|left; auto].
Qed.

(** A place with room lies inside its chunk and overlaps no allocation of it. *)
Lemma has_room_disjoint h c size off :
  heap_wf h -> c ∈ chunks_ h -> 0 < size -> has_room c size off ->
  0 <= off /\ off + size <= capacity_in_bytes c /\ off `mod` kAllocationAlignment = 0 /\
  Forall (fun b => off + size <= offset_in_chunk b \/ a_end b <= off) (allocations c).
Proof.
  intros Hwf Hin Hs [Hle Hfit]. pose proof (heap_wf_capacity h c Hwf Hin). pose proof (hw_bound _ Hwf).
  assert (chunk_wf c) as Hcw.
  { destruct Hwf as [Hcs _ _ _]. rewrite Forall_forall in Hcs. by apply Hcs. }
  destruct (fits_ring c size off (mk_Allocation size off (mk_event 0 0)) Hcw) as [Haw Hring];
    try done; try lia.
  destruct Haw as (Hoff & _ & Hend & Hal). unfold a_end in Hend. simpl in *. split_and!; try done.
  apply Forall_forall. intros b Hbin. destruct Hring as (hi & lo & Heq & Hso).
  destruct (sorted_perm_related before (lo ++ hi) (mk_Allocation size off (mk_event 0 0))
              (allocations c) b) as [Hab|Hab]; [done| |done| |].
  - by rewrite Permutation_app_comm, <- Heq, Permutation_app_comm.
  - by left.
  - by right.
Qed.

(** C4: [Reserve] returns or reports that the device is out of memory, and the
    allocation recorded at the place it gives lies inside its chunk, aligned,
    overlaps no other allocation of the chunk, and leaves a heap whose own
    invariants hold. *)
Theorem Reserve_no_overlap env h size :
  heap_wf h -> 0 < size < 2 ^ 64 ->
  total_capacity_ h + new_chunk_size h size + kAllocationAlignment <= 2 ^ 64 ->
  creates_buffers env -> only_out_of_memory env ->
  exists r h', Reserve env h size = Ok (r, h') /\
    match r with
    | inl s => h' = h /\ code s = TF_RESOURCE_EXHAUSTED
    | inr (i, off) => exists c, chunks_ h' !! i = Some c /\
        off + size <= capacity_in_bytes c /\ off `mod` kAllocationAlignment = 0 /\
        Forall (fun b => off + size <= offset_in_chunk b \/ a_end b <= off) (allocations c) /\
        forall e, Forall (fun b => fence_value (done_event b) <= fence_value e) (allocations c) ->
          AssertInvariants (push_allocation h' i (mk_Allocation size off e)) = Ok tt
    end.
Proof.
  intros Hwf Hs Hb Hc Ho.
  destruct (Reserve_spec env h size Hwf Hs Hb Hc Ho) as (r & h' & E & Hwf' & Hr).
  exists r, h'. split; [done|]. destruct r as [s|[i off]]; [done|].
  destruct Hr as (c & Hi & Hroom & _). exists c. split; [done|].
  destruct (has_room_disjoint h' c size off Hwf' ltac:(by eapply list_elem_of_lookup_2) ltac:(lia) Hroom)
    as (_ & Hend & Hal & Hdisj).
  split_and!; [done|done|done|].
  intros e He. apply heap_wf_AssertInvariants. eapply push_allocation_wf; [done|exact Hi|done|simpl; lia|done].
Qed.

(** [Trim] never fails its own assertions; on the timeline of one fence it
    forgets exactly the allocations whose event is signaled and the chunks that
    then have none. *)
Theorem Trim_spec env h f :
  heap_wf h -> Forall (fun c => Forall (fun a => fence (done_event a) = f) (allocations c)) (chunks_ h) ->
  exists h', Trim env h = Ok h' /\ heap_wf h' /\
    chunks_ h' = List.filter (fun c => negb (alloc_empty c))
      (map (fun c => set_allocations
              (List.filter (fun a => negb (IsSignaled (GetCompletedValue env) (done_event a)))
                 (allocations c)) c) (chunks_ h)).
Proof.
  intros Hwf Hf. unfold Trim. rewrite (heap_wf_AssertInvariants h Hwf). simpl.
  pose proof (ReclaimAllocations_wf env h Hwf) as Hwf1.
  pose proof (filter_heap_wf (fun c => negb (alloc_empty c)) _ Hwf1) as Hwf2. simpl in Hwf2.
  rewrite (heap_wf_AssertInvariants _ Hwf2). simpl. eexists. split; [reflexivity|]. split; [done|].
  simpl. f_equal. apply map_ext_in. intros c Hc%list_elem_of_In. rewrite Forall_forall in Hf.
  f_equal. apply (reclaim_chunk_filter _ f); [|by apply Hf].
  destruct Hwf as [Hcs _ _ _]. rewrite Forall_forall in Hcs. by apply Hcs.
Qed.

Definition example_env : gpu_env :=
  mk_gpu_env (fun _ => 5) (fun size => (0, Some (mk_resource 9 size))).

Lemma example_env_creates : creates_buffers example_env /\ only_out_of_memory example_env.
Proof. split; [|by intros size]. intros size hr r [= <- <-] _. by eexists. Qed.

(** A wrapped ring: the most recent allocation is at the beginning. *)
Definition example_heap : PooledHeap :=
  mk_PooledHeap
    [mk_Chunk 4096 (Some (mk_resource 7 4096))
       [mk_Allocation 1000 1536 (mk_event 5 1); mk_Allocation 1500 2560 (mk_event 6 1);
        mk_Allocation 500 0 (mk_event 7 1)]] 4096.

Lemma example_heap_wf : heap_wf example_heap.
Proof.
  split; simpl; [|by repeat constructor|done|done].
  constructor; [|done]. split; simpl; [lia|done| | |].
  - repeat constructor; unfold alloc_wf, a_end; simpl; done.
  - exists [mk_Allocation 1000 1536 (mk_event 5 1); mk_Allocation 1500 2560 (mk_event 6 1)],
      [mk_Allocation 500 0 (mk_event 7 1)]. split; [done|].
    repeat constructor; unfold before, a_end; simpl; lia.
  - repeat constructor; unfold fence_le; simpl; lia.
Qed.

Lemma Reserve_no_overlap_witness :
  exists h', Reserve example_env example_heap 1024 = Ok (inr (0%nat, 512), h') /\
    AssertInvariants (push_allocation h' 0 (mk_Allocation 1024 512 (mk_event 7 1))) = Ok tt.
Proof.
  destruct (Reserve_no_overlap example_env example_heap 1024 example_heap_wf ltac:(lia)
              ltac:(vm_compute; discriminate) (proj1 example_env_creates) (proj2 example_env_creates))
    as (r & h' & E & Hr).
  vm_compute in E. injection E as <- <-. eexists. split; [vm_compute; reflexivity|].
  destruct Hr as (c & Hc & _ & _ & _ & Hinv). vm_compute in Hc. injection Hc as <-.
  apply (Hinv (mk_event 7 1)). repeat constructor; simpl; lia.
Defined.

Lemma Trim_spec_witness :
  exists h', Trim example_env example_heap = Ok h' /\
    map (fun c => length (allocations c)) (chunks_ h') = [2%nat].
Proof.
  destruct (Trim_spec example_env example_heap 1 example_heap_wf ltac:(by repeat constructor))
    as (h' & E & _ & Hc).
  exists h'. split; [exact E|]. rewrite Hc. reflexivity.
Defined.
