(* ===== verification/DescriptorPool.v ===== *)
(** * The descriptor pool

    [DmlDescriptorHeap] and [DmlDescriptorPool]
    (core/dml_descriptor_pool.{h,cc}): ranges of descriptors are taken from the
    end of a heap, and a heap starts again from its beginning when the event of
    its most recent allocation is signaled. *)

From S2P Require Import Prelude Gpu.

Definition D3D12_DESCRIPTOR_HEAP_FLAG_NONE : Z := 0.
Definition D3D12_DESCRIPTOR_HEAP_FLAG_SHADER_VISIBLE : Z := 1.

(** An ID3D12DescriptorHeap: what its [GetDesc] and handle getters return. *)
Record d3d_heap := mk_d3d_heap {
  heap_id : Z;
  NumDescriptors : Z;
  heap_Flags : Z;
  cpu_start : Z;
  gpu_start : Z }.

Record DmlDescriptorRange := mk_range {
  range_heap : d3d_heap;
  cpu_handle : Z;
  gpu_handle : Z }.

Record DmlDescriptorHeap := mk_DescriptorHeap {
  heap_ : d3d_heap;
  capacity_ : Z;
  size_ : Z;
  handle_increment_size_ : Z;
  head_cpu_handle_ : Z;
  head_gpu_handle_ : Z;
  heap_flags_ : Z;
  completion_event_ : DmlGpuEvent }.

(** A default-constructed event: no fence.  (Its value is not initialised and
    is read only when there is a fence.) *)
Definition null_event : DmlGpuEvent := mk_event 0 0.

Definition shader_visible (flags : Z) : bool :=
  negb (Z.land flags D3D12_DESCRIPTOR_HEAP_FLAG_SHADER_VISIBLE =? 0).

Definition make_DescriptorHeap (handle_increment : Z) (heap : d3d_heap) : DmlDescriptorHeap :=
  mk_DescriptorHeap heap (NumDescriptors heap) 0 handle_increment (cpu_start heap)
    (if shader_visible (heap_Flags heap) then gpu_start heap else 0)
    (heap_Flags heap) null_event.

(** [CD3DX12_CPU_DESCRIPTOR_HANDLE::Offset]. *)
Definition handle_Offset (handle num increment : Z) : Z := u64 (handle + i32 num * increment).

(** The first half of [TryAllocDescriptors]: starting again from the beginning. *)
Definition rewind (gcv : Z -> Z) (heap_flags : Z) (h : DmlDescriptorHeap) : DmlDescriptorHeap :=
  if negb (fence (completion_event_ h) =? 0) && IsSignaled gcv (completion_event_ h) then
    mk_DescriptorHeap (heap_ h) (capacity_ h) 0 (handle_increment_size_ h)
      (cpu_start (heap_ h))
      (if shader_visible heap_flags then gpu_start (heap_ h) else head_gpu_handle_ h)
      (heap_flags_ h) (completion_event_ h)
  else h.

Definition TryAllocDescriptors (gcv : Z -> Z) (h : DmlDescriptorHeap)
    (num_descriptors : Z) (completion_event : DmlGpuEvent) (heap_flags : Z) :
    option DmlDescriptorRange * DmlDescriptorHeap :=
  if negb (heap_flags_ h =? heap_flags) then (None, h)
  else
    let h := rewind gcv heap_flags h in
    let space_remaining := u32 (capacity_ h - size_ h) in
    if space_remaining <? num_descriptors then (None, h)
    else
      (Some (mk_range (heap_ h) (head_cpu_handle_ h) (head_gpu_handle_ h)),
       mk_DescriptorHeap (heap_ h) (capacity_ h) (u32 (size_ h + num_descriptors))
         (handle_increment_size_ h)
         (handle_Offset (head_cpu_handle_ h) num_descriptors (handle_increment_size_ h))
         (handle_Offset (head_gpu_handle_ h) num_descriptors (handle_increment_size_ h))
         (heap_flags_ h) completion_event).

Record DmlDescriptorPool := mk_DescriptorPool {
  heaps_ : list DmlDescriptorHeap;
  initial_heap_capacity_ : Z }.

(** The device: [CreateDescriptorHeap] for a number of descriptors and flags,
    and [GetDescriptorHandleIncrementSize]. *)
Record descriptor_device := mk_descriptor_device {
  CreateDescriptorHeap : Z -> Z -> Z * option d3d_heap;
  GetDescriptorHandleIncrementSize : Z }.

Definition CreateHeap (dev : descriptor_device) (p : DmlDescriptorPool)
    (num_descriptors heap_flags : Z) : result DmlDescriptorPool :=
  let '(hr, heap) := CreateDescriptorHeap dev num_descriptors heap_flags in
  DML_CHECK_SUCCEEDED hr;;
  heap ← in_range heap;
  mret (mk_DescriptorPool
          (heaps_ p ++ [make_DescriptorHeap (GetDescriptorHandleIncrementSize dev) heap])
          (initial_heap_capacity_ p)).

Definition make_DescriptorPool (dev : descriptor_device) (initial_capacity : Z) :
    result DmlDescriptorPool :=
  CreateHeap dev (mk_DescriptorPool [] initial_capacity) initial_capacity
    D3D12_DESCRIPTOR_HEAP_FLAG_SHADER_VISIBLE.

(** The loop over the existing heaps; every heap it visits may rewind. *)
Fixpoint alloc_existing (gcv : Z -> Z) (hs : list DmlDescriptorHeap)
    (n : Z) (e : DmlGpuEvent) (flags : Z) :
    option DmlDescriptorRange * list DmlDescriptorHeap :=
  match hs with
  | [] => (None, [])
  | h :: hs =>
      match TryAllocDescriptors gcv h n e flags with
      | (Some r, h') => (Some r, h' :: hs)
      | (None, h') => let '(r, hs') := alloc_existing gcv hs n e flags in (r, h' :: hs')
      end
  end.

(** Allocation from the heap just created, [heaps_.back()]. *)
Definition alloc_back (gcv : Z -> Z) (p : DmlDescriptorPool)
    (n : Z) (e : DmlGpuEvent) (flags : Z) : result (DmlDescriptorRange * DmlDescriptorPool) :=
  back ← in_range (last (heaps_ p));
  let '(r, h') := TryAllocDescriptors gcv back n e flags in
  ASSERT (bool_decide (is_Some r));;
  r ← in_range r;
  mret (r, mk_DescriptorPool
             (alter (fun _ => h') (length (heaps_ p) - 1)%nat (heaps_ p))
             (initial_heap_capacity_ p)).

Definition AllocDescriptors (gcv : Z -> Z) (dev : descriptor_device) (p : DmlDescriptorPool)
    (num_descriptors : Z) (completion_event : DmlGpuEvent) (heap_flags : Z) :
    result (DmlDescriptorRange * DmlDescriptorPool) :=
  let '(r, hs) := alloc_existing gcv (heaps_ p) num_descriptors completion_event heap_flags in
  let p := mk_DescriptorPool hs (initial_heap_capacity_ p) in
  match r with
  | Some r => mret (r, p)
  | None =>
      let new_heap_capacity := Z.max num_descriptors (initial_heap_capacity_ p) in
      p ← CreateHeap dev p new_heap_capacity heap_flags;
      alloc_back gcv p num_descriptors completion_event heap_flags
  end.

Definition not_pending (gcv : Z -> Z) (h : DmlDescriptorHeap) : bool :=
  (fence (completion_event_ h) =? 0) || IsSignaled gcv (completion_event_ h).

Definition Trim (gcv : Z -> Z) (p : DmlDescriptorPool) : DmlDescriptorPool :=
  mk_DescriptorPool (List.filter (fun h => negb (not_pending gcv h)) (heaps_ p))
                    (initial_heap_capacity_ p).

Definition GetTotalCapacity (p : DmlDescriptorPool) : Z :=
  foldl (fun c h => u32 (c + capacity_ h)) 0 (heaps_ p).

(** ** Ownership of descriptors

    A reservation is a slice of a heap's descriptors with the event that ends
    its use. *)

Record reservation := mk_reservation { res_first : Z; res_count : Z; res_event : DmlGpuEvent }.

Definition pending (gcv : Z -> Z) (r : reservation) : Prop :=
  IsSignaled gcv (res_event r) = false.

(** A heap and the reservations made from it: they lie below [size_], and on
    the timeline of the fence [f] none is later than [completion_event_]. *)
Record heap_inv (f : Z) (h : DmlDescriptorHeap) (live : list reservation) : Prop := {
  hi_size : 0 <= size_ h <= capacity_ h;
  hi_capacity : capacity_ h < 2 ^ 31 /\ capacity_ h = NumDescriptors (heap_ h);
  hi_cpu : head_cpu_handle_ h = cpu_start (heap_ h) + size_ h * handle_increment_size_ h;
  hi_space : 0 <= handle_increment_size_ h /\ 0 <= cpu_start (heap_ h) /\
    cpu_start (heap_ h) + capacity_ h * handle_increment_size_ h < 2 ^ 64;
  hi_live : Forall (fun r => 0 <= res_first r /\ 0 <= res_count r /\
      res_first r + res_count r <= size_ h /\ fence (res_event r) = f /\
      fence_value (res_event r) <= fence_value (completion_event_ h)) live;
  hi_fence : live <> [] -> fence (completion_event_ h) = f }.

Definition disjoint_from (first count : Z) (r : reservation) : Prop :=
  first + count <= res_first r \/ res_first r + res_count r <= first.

(** The heap restarts only when no reservation of it is pending. *)
Lemma rewind_inv gcv f flags h live :
  f <> 0 -> heap_inv f h live ->
  heap_inv f (rewind gcv flags h) (List.filter (fun r => negb (IsSignaled gcv (res_event r))) live).
Proof.
  intros Hf [Hs Hc Hcpu Hsp Hl Hfe]. unfold rewind.
  destruct (Z.eqb_spec (fence (completion_event_ h)) 0) as [H0|H0]; simpl.
  { split; simpl; auto using Forall_list_filter. intros Hne. apply Hfe. intros ->. done. }
  destruct (IsSignaled gcv (completion_event_ h)) eqn:E; simpl.
  2:{ split; simpl; auto using Forall_list_filter. intros Hne. apply Hfe. intros ->. done. }
  assert (List.filter (fun r => negb (IsSignaled gcv (res_event r))) live = []) as Hnil.
  { destruct live as [|r0 live0] eqn:El; [done|]. rewrite <- El in *.
    specialize (Hfe ltac:(by rewrite El)). clear El r0 live0.
    induction Hl as [|r l (_ & _ & _ & Hfr & Hle) Hl IH]; [done|]. simpl.
    unfold IsSignaled in *. rewrite Hfr. rewrite Hfe in E. apply Z.leb_le in E.
    destruct (Z.leb_spec (fence_value (res_event r)) (gcv f)); [done|lia]. }
  rewrite Hnil. split; simpl; auto; try done; lia.
Qed.

Definition still_pending (gcv : Z -> Z) (live : list reservation) : list reservation :=
  List.filter (fun r => negb (IsSignaled gcv (res_event r))) live.

(** What a successful allocation from a heap guarantees. *)
Definition allocated (gcv : Z -> Z) (f : Z) (h h' : DmlDescriptorHeap) (live live' : list reservation)
    (n : Z) (e : DmlGpuEvent) (r : DmlDescriptorRange) : Prop :=
  exists first,
    range_heap r = heap_ h /\
    cpu_handle r = cpu_start (heap_ h) + first * handle_increment_size_ h /\
    0 <= first /\ first + n <= NumDescriptors (heap_ h) /\
    Forall (fun v => pending gcv v -> disjoint_from first n v) live /\
    live' = mk_reservation first n e :: still_pending gcv live /\
    heap_inv f h' live'.

Lemma rewind_fields gcv flags h :
  heap_ (rewind gcv flags h) = heap_ h /\ capacity_ (rewind gcv flags h) = capacity_ h /\
  handle_increment_size_ (rewind gcv flags h) = handle_increment_size_ h /\
  heap_flags_ (rewind gcv flags h) = heap_flags_ h /\
  completion_event_ (rewind gcv flags h) = completion_event_ h.
Proof. unfold rewind. by case_match. Qed.

Lemma pending_filter gcv live (P : reservation -> Prop) :
  Forall P (still_pending gcv live) -> Forall (fun v => pending gcv v -> P v) live.
Proof.
  unfold still_pending, pending. induction live as [|v l IH]; simpl; [done|].
  destruct (IsSignaled gcv (res_event v)) eqn:E; simpl.
  - intros H. constructor; [congruence|auto].
  - intros [Hv H]%Forall_cons. constructor; auto.
Qed.

Lemma TryAllocDescriptors_some gcv f h live n e flags r h' :
  f <> 0 -> heap_inv f h live -> 0 <= n < 2 ^ 31 -> fence e = f ->
  fence_value (completion_event_ h) <= fence_value e ->
  TryAllocDescriptors gcv h n e flags = (Some r, h') ->
  exists live', allocated gcv f h h' live live' n e r.
Proof.
  intros Hf Hinv Hn He Hle. unfold TryAllocDescriptors.
  destruct (negb _); [done|].
  pose proof (rewind_inv gcv f flags h live Hf Hinv) as Hr.
  destruct (rewind_fields gcv flags h) as (Eh & Ec & Ei & _ & Ee).
  set (h1 := rewind gcv flags h) in *. destruct Hr as [Hs Hc Hcpu Hsp Hl Hfe].
  rewrite u32_small by lia.
  destruct (Z.ltb_spec (capacity_ h1 - size_ h1) n) as [|Hroom]; [done|].
  intros [= <- <-]. rewrite u32_small by lia.
  assert (size_ h1 * handle_increment_size_ h1 + n * handle_increment_size_ h1
            <= capacity_ h1 * handle_increment_size_ h1) as Hmul by nia.
  assert (0 <= size_ h1 * handle_increment_size_ h1) by nia.
  assert (0 <= n * handle_increment_size_ h1) by nia.
  eexists _, (size_ h1). simpl. rewrite Hcpu, Eh, Ei.
  rewrite Eh, Ei in *. split_and!; [done|done|lia|lia| |reflexivity|].
  - apply pending_filter. eapply Forall_impl; [exact Hl|].
    intros v (? & ? & ? & _). unfold disjoint_from. lia.
  - assert (Forall (fun v => 0 <= res_first v /\ 0 <= res_count v /\
       res_first v + res_count v <= size_ h1 + n /\ fence (res_event v) = f /\
       fence_value (res_event v) <= fence_value e) (still_pending gcv live)) as Hl'.
    { eapply Forall_impl; [exact Hl|]. intros v (? & ? & ? & ? & ?). rewrite Ee in *. split_and!; lia. }
    split; simpl; rewrite ?Eh, ?Ei; [lia|lia| |lia| |done].
    + unfold handle_Offset. rewrite i32_small by lia. rewrite u64_small; lia.
    + constructor; simpl; [lia|done].
Qed.

(** With the flags of the heap and enough room after the rewind, or in a fresh
    heap, an allocation succeeds. *)
Lemma TryAllocDescriptors_fresh gcv inc d n e :
  0 <= n <= NumDescriptors d -> NumDescriptors d < 2 ^ 31 ->
  exists r h', TryAllocDescriptors gcv (make_DescriptorHeap inc d) n e (heap_Flags d) = (Some r, h').
Proof.
  intros Hn Hd. unfold TryAllocDescriptors, make_DescriptorHeap. simpl.
  rewrite Z.eqb_refl. simpl. unfold rewind. simpl. rewrite u32_small by lia.
  destruct (Z.ltb_spec (NumDescriptors d - 0) n); [lia|eauto].
Qed.

Lemma TryAllocDescriptors_none gcv f h live n e flags h' :
  f <> 0 -> heap_inv f h live ->
  TryAllocDescriptors gcv h n e flags = (None, h') ->
  (h' = h \/ h' = rewind gcv flags h).
Proof.
  intros Hf Hinv. unfold TryAllocDescriptors.
  destruct (negb _); [intros [= <-]; by left|].
  case_match; intros [= <-]. by right.
Qed.

Definition pool_inv (f : Z) (p : DmlDescriptorPool) (lives : list (list reservation)) : Prop :=
  Forall2 (heap_inv f) (heaps_ p) lives.

(** What the device promises: a new heap has the flags and the number of
    descriptors asked for, and its address range does not wrap around. *)
Definition creates_heaps (dev : descriptor_device) : Prop :=
  0 <= GetDescriptorHandleIncrementSize dev /\
  forall n flags, 0 <= n < 2 ^ 31 -> exists d, CreateDescriptorHeap dev n flags = (0, Some d) /\
    NumDescriptors d = n /\ heap_Flags d = flags /\ 0 <= cpu_start d /\
    cpu_start d + n * GetDescriptorHandleIncrementSize dev < 2 ^ 64.

Lemma fresh_heap_inv f inc d :
  0 <= NumDescriptors d < 2 ^ 31 -> 0 <= inc -> 0 <= cpu_start d ->
  cpu_start d + NumDescriptors d * inc < 2 ^ 64 ->
  heap_inv f (make_DescriptorHeap inc d) [].
Proof. intros. split; simpl; [lia|lia|lia|lia|constructor|done]. Qed.

(** No pending reservation is forgotten. *)
Definition kept (gcv : Z -> Z) (live live' : list reservation) : Prop :=
  forall v, v ∈ live -> pending gcv v -> v ∈ live'.

Lemma kept_refl gcv live : kept gcv live live.
Proof. by intros v. Qed.

Lemma kept_still_pending gcv live : kept gcv live (still_pending gcv live).
Proof.
  intros v Hv Hp. apply list_elem_of_In, filter_In. split; [by apply list_elem_of_In|].
  unfold pending in Hp. by rewrite Hp.
Qed.

Lemma allocated_kept gcv f h h' live live' n e r :
  allocated gcv f h h' live live' n e r -> kept gcv live live'.
Proof.
  intros (first & _ & _ & _ & _ & _ & -> & _) v Hv Hp.
  apply elem_of_cons. right. by apply kept_still_pending.
Qed.

#[export] Hint Resolve kept_refl kept_still_pending allocated_kept : tfdml.

Lemma alloc_existing_spec gcv f hs lives n e flags :
  Forall2 (heap_inv f) hs lives -> f <> 0 -> 0 <= n < 2 ^ 31 -> fence e = f ->
  Forall (fun h => fence_value (completion_event_ h) <= fence_value e) hs ->
  exists o hs' lives', alloc_existing gcv hs n e flags = (o, hs') /\
    Forall2 (heap_inv f) hs' lives' /\ Forall2 (kept gcv) lives lives' /\
    match o with
    | Some r => exists i h h' live live',
        hs !! i = Some h /\ lives !! i = Some live /\
        hs' !! i = Some h' /\ lives' !! i = Some live' /\
        allocated gcv f h h' live live' n e r
    | None => True
    end.
Proof.
  intros Hinv Hf Hn He Hle. induction Hinv as [|h live hs lives Hh Hinv IH].
  { by exists None, [], []. }
  apply Forall_cons in Hle as [Hleh Hle].
  assert (Forall2 (kept gcv) lives lives) as Hrefl
    by (apply Forall_Forall2_diag, Forall_forall; auto with tfdml).
  simpl. destruct (TryAllocDescriptors gcv h n e flags) as [[r|] h'] eqn:Et.
  - destruct (TryAllocDescriptors_some gcv f h live n e flags r h') as [live' Ha]; [done..|].
    exists (Some r), (h' :: hs), (live' :: lives). split; [done|].
    pose proof Ha as (? & _ & _ & _ & _ & _ & _ & Hinv').
    split; [by constructor|]. split; [by constructor; eauto with tfdml|].
    exists 0%nat, h, h', live, live'. done.
  - destruct (IH Hle) as (o & hs' & lives' & Ho & Hinv' & Hkept & Hmatch).
    rewrite Ho.
    assert (exists live', heap_inv f h' live' /\ kept gcv live live') as (live' & Hl' & Hk').
    { destruct (TryAllocDescriptors_none gcv f h live n e flags h') as [->| ->]; [done..| |].
      - exists live. auto with tfdml.
      - exists (still_pending gcv live). split; [by apply rewind_inv|auto with tfdml]. }
    exists o, (h' :: hs'), (live' :: lives'). split; [done|].
    split; [by constructor|]. split; [by constructor|].
    destruct o as [r|]; [|done].
    destruct Hmatch as (i & h0 & h0' & l0 & l0' & Hrest). by exists (S i), h0, h0', l0, l0'.
Qed.

(** C5: Allocating descriptors from the pool always succeeds (with a device
    that creates heaps), and the range it returns lies within one descriptor
    heap and overlaps no reservation of that heap whose GPU work is pending;
    no pending reservation of any heap is forgotten and every heap keeps its
    invariant. *)
Theorem AllocDescriptors_disjoint gcv dev f p lives n e flags :
  pool_inv f p lives -> creates_heaps dev -> f <> 0 -> 0 <= n < 2 ^ 31 ->
  0 <= initial_heap_capacity_ p < 2 ^ 31 -> fence e = f ->
  Forall (fun h => fence_value (completion_event_ h) <= fence_value e) (heaps_ p) ->
  0 <= fence_value e ->
  exists r p' lives' i h h' live live',
    AllocDescriptors gcv dev p n e flags = Ok (r, p') /\ pool_inv f p' lives' /\
    (forall j lj, lives !! j = Some lj -> exists lj', lives' !! j = Some lj' /\ kept gcv lj lj') /\
    lives' !! i = Some live' /\ heaps_ p' !! i = Some h' /\
    (lives !! i = Some live \/ (i = length lives /\ live = [])) /\
    allocated gcv f h h' live live' n e r.
Proof.
  intros Hinv [Hinc Hdev] Hf Hn Hcap He Hle Hev. unfold AllocDescriptors.
  destruct (alloc_existing_spec gcv f (heaps_ p) lives n e flags)
    as (o & hs' & lives' & Ho & Hinv' & Hkept & Hmatch); [done..|].
  rewrite Ho. destruct o as [r|].
  { destruct Hmatch as (i & h & h' & live & live' & Hh & Hl & Hh' & Hl' & Ha).
    exists r, (mk_DescriptorPool hs' (initial_heap_capacity_ p)), lives', i, h, h', live, live'.
    split_and!; [done|exact Hinv'| |done|done|by left|done].
    intros j lj Hj. destruct (Forall2_lookup_l _ _ _ _ _ Hkept Hj) as (lj' & ? & ?); eauto. }
  unfold CreateHeap. simpl. set (cap := Z.max n (initial_heap_capacity_ p)).
  destruct (Hdev cap flags ltac:(lia)) as (d & Hd & Hnum & Hfl & Hcs & Hspace). rewrite Hd. simpl.
  set (inc := GetDescriptorHandleIncrementSize dev) in *.
  assert (heap_inv f (make_DescriptorHeap inc d) []) as Hfresh
    by (apply fresh_heap_inv; lia).
  unfold alloc_back. simpl. rewrite last_snoc. simpl.
  destruct (TryAllocDescriptors_fresh gcv inc d n e) as (r & h' & Ht); [lia|lia|].
  rewrite Hfl in Ht. rewrite Ht. simpl.
  destruct (TryAllocDescriptors_some gcv f (make_DescriptorHeap inc d) [] n e flags r h')
    as [live' Ha]; try done.
  rewrite length_app, Nat.add_sub. simpl.
  rewrite alter_app_r_alt, Nat.sub_diag by lia. simpl.
  pose proof Ha as (? & _ & _ & _ & _ & _ & _ & Hinvh').
  pose proof (Forall2_length _ _ _ Hinv'). pose proof (Forall2_length _ _ _ Hkept).
  eexists r, _, (lives' ++ [live']), (length lives), _, h', [], live'.
  split; [reflexivity|]. split; [by apply Forall2_app; [|repeat first [assumption|constructor]]|].
  split.
  { intros j lj Hj. destruct (Forall2_lookup_l _ _ _ _ _ Hkept Hj) as (lj' & Hlj' & Hk).
    exists lj'. split; [|done]. by apply lookup_app_l_Some. }
  split_and!; [|simpl|by right|exact Ha].
  - rewrite lookup_app_r by lia. by replace (length lives - length lives')%nat with 0%nat by lia.
  - rewrite lookup_app_r by lia. by replace (length lives - length hs')%nat with 0%nat by lia.
Qed.

(** Trimming the pool removes exactly the heaps with no pending work: no
    pending reservation is lost, and every heap left has its most recent
    allocation pending. *)
Theorem Trim_keeps_pending gcv f p lives :
  pool_inv f p lives -> f <> 0 ->
  Forall (fun h => not_pending gcv h = false) (heaps_ (Trim gcv p)) /\
  forall i h live v, heaps_ p !! i = Some h -> lives !! i = Some live ->
    v ∈ live -> pending gcv v -> h ∈ heaps_ (Trim gcv p).
Proof.
  intros Hinv Hf. split.
  { apply Forall_forall. intros h Hh%list_elem_of_In%filter_In.
    destruct Hh as [_ Hh]. by apply negb_true_iff. }
  intros i h live v Hh Hl Hv Hp. simpl.
  apply list_elem_of_In, filter_In. split.
  { apply list_elem_of_In. by eapply list_elem_of_lookup_2. }
  pose proof (Forall2_lookup_lr _ _ _ _ _ _ Hinv Hh Hl) as [_ _ _ _ Hlive Hfe].
  rewrite Forall_forall in Hlive. destruct (Hlive v Hv) as (_ & _ & _ & Hfv & Hle).
  assert (fence (completion_event_ h) = f) as Hfc by (apply Hfe; intros ->; by apply elem_of_nil in Hv).
  unfold not_pending, pending, IsSignaled in *. rewrite Hfc. rewrite Hfv in Hp.
  bool_to_prop. case_cmp; simpl; try done; lia.
Qed.

(** ** Examples *)

Definition example_device : descriptor_device :=
  mk_descriptor_device (fun n flags => (0, Some (mk_d3d_heap 1 n flags 4096 8192))) 32.

Lemma example_device_creates : creates_heaps example_device.
Proof. split; [done|]. intros n flags Hn. eexists. split; [reflexivity|]. simpl. lia. Qed.

Definition example_heap : DmlDescriptorHeap :=
  mk_DescriptorHeap (mk_d3d_heap 1 8 0 4096 0) 8 6 32 (4096 + 6 * 32) 0 0 (mk_event 9 1).

Definition example_pool : DmlDescriptorPool := mk_DescriptorPool [example_heap] 8.

Definition example_lives : list (list reservation) :=
  [[mk_reservation 4 2 (mk_event 9 1); mk_reservation 0 4 (mk_event 5 1)]].

Lemma example_pool_inv : pool_inv 1 example_pool example_lives.
Proof.
  constructor; [|constructor]. split; simpl; try done; try lia.
  repeat constructor; simpl; lia.
Qed.

Lemma AllocDescriptors_disjoint_witness :
  exists r p', AllocDescriptors (fun _ => 6) example_device example_pool 2 (mk_event 10 1) 0
                 = Ok (r, p') /\ cpu_handle r = 4096 + 6 * 32.
Proof.
  destruct (AllocDescriptors_disjoint (fun _ => 6) example_device 1 example_pool example_lives
              2 (mk_event 10 1) 0 example_pool_inv example_device_creates ltac:(done) ltac:(lia)
              ltac:(simpl; lia) ltac:(done) ltac:(repeat constructor; simpl; lia) ltac:(simpl; lia))
    as (r & p' & _ & _ & _ & _ & _ & _ & E & _).
  exists r, p'. split; [exact E|]. vm_compute in E. by injection E as <- _.
Defined.

Lemma Trim_keeps_pending_witness :
  example_heap ∈ heaps_ (Trim (fun _ => 6) example_pool).
Proof.
  destruct (Trim_keeps_pending (fun _ => 6) 1 example_pool example_lives example_pool_inv ltac:(done))
    as [_ H].
  apply (H 0%nat example_heap _ (mk_reservation 4 2 (mk_event 9 1)) eq_refl eq_refl); [by left|done].
Defined.
