(* ===== verification/TaggedPointer.v ===== *)
(** * Tagged pointers and allocation identifiers

    [TaggedPointer] (core/dml_tagged_pointer.{h,cc}), the 64-bit value that the
    two D3D12 heap allocators return as a pointer, and the pool of allocation
    identifiers that both keep ([current_allocation_id_],
    [free_allocation_ids_], [TryReserveAllocationID], [ReleaseAllocationID]). *)

From S2P Require Import Prelude.

Definition kDeviceIDBits : Z := 4.
Definition kAllocationIDBits : Z := 20.
Definition kOffsetBits : Z := 40.

Record TaggedPointer := mk_tagged { device_id : Z; allocation_id : Z; offset : Z }.

Definition Unpack (ptr_val : Z) : TaggedPointer :=
  let kAllocationIDMask := u64 (Z.shiftl 1 kAllocationIDBits) - 1 in
  let kOffsetMask := u64 (Z.shiftl 1 kOffsetBits) - 1 in
  mk_tagged
    (Z.land (Z.shiftr ptr_val (kAllocationIDBits + kOffsetBits)) (Z.ones kDeviceIDBits))
    (Z.land (Z.shiftr ptr_val kOffsetBits) kAllocationIDMask)
    (Z.land ptr_val kOffsetMask).

Definition Pack (device_id allocation_id offset : Z) : result Z :=
  ASSERT (device_id <? Z.shiftl 1 kDeviceIDBits);;
  ASSERT (allocation_id <? Z.shiftl 1 kAllocationIDBits);;
  ASSERT (offset <? Z.shiftl 1 kOffsetBits);;
  mret (Z.lor (Z.lor (u64 (Z.shiftl device_id (kAllocationIDBits + kOffsetBits)))
                     (u64 (Z.shiftl allocation_id kOffsetBits))) offset).

(** The identifiers: [free_allocation_ids_] is listed from the back of the vector. *)
Record id_pool := mk_pool { current_allocation_id_ : Z; free_allocation_ids_ : list Z }.

Definition kMaxAllocationID : Z := Z.shiftl 1 kAllocationIDBits - 1.

Definition TryReserveAllocationID (s : id_pool) : option Z * id_pool :=
  match free_allocation_ids_ s with
  | id :: ids => (Some id, mk_pool (current_allocation_id_ s) ids)
  | [] =>
      if current_allocation_id_ s =? kMaxAllocationID then (None, s)
      else let id := u32 (current_allocation_id_ s + 1) in (Some id, mk_pool id [])
  end.

Definition ReleaseAllocationID (id : Z) (s : id_pool) : id_pool :=
  mk_pool (current_allocation_id_ s) (id :: free_allocation_ids_ s).

(** ** Pointers *)

Lemma lor_add_low a b k : 0 <= k -> 0 <= b < 2 ^ k -> Z.lor (Z.shiftl a k) b = a * 2 ^ k + b.
Proof.
  intros Hk Hb. rewrite <- Z.shiftl_mul_pow2 by done. rewrite <- Z.add_lor_land.
  replace (Z.land (Z.shiftl a k) b) with 0; [lia|]. symmetry. apply Z.bits_inj'. intros n Hn. rewrite Z.land_spec, Z.bits_0. destruct (Z.ltb_spec n k).
  - by rewrite Z.shiftl_spec_low.
  - destruct (Z.eq_dec b 0) as [->|]; [by rewrite Z.bits_0, andb_false_r|].
    rewrite (Z.bits_above_log2 b n), andb_false_r; [done|lia|]. apply Z.log2_lt_pow2; [lia|].
    apply Z.lt_le_trans with (2 ^ k); [lia|]. by apply Z.pow_le_mono_r.
Qed.

Definition in_fields (d i o : Z) : Prop := 0 <= d < 2 ^ 4 /\ 0 <= i < 2 ^ 20 /\ 0 <= o < 2 ^ 40.

Lemma Pack_eq d i o : in_fields d i o -> Pack d i o = Ok (d * 2 ^ 60 + i * 2 ^ 40 + o).
Proof.
  intros (Hd & Hi & Ho). unfold Pack, kDeviceIDBits, kAllocationIDBits, kOffsetBits.
  change (Z.shiftl 1 4) with 16. change (Z.shiftl 1 20) with 1048576.
  change (Z.shiftl 1 40) with 1099511627776. change (20 + 40) with 60.
  replace (d <? 16) with true by lia. replace (i <? 1048576) with true by lia.
  replace (o <? 1099511627776) with true by lia. simpl. f_equal.
  rewrite (Z.shiftl_mul_pow2 d), (Z.shiftl_mul_pow2 i) by lia.
  rewrite !u64_small by lia.
  replace (Z.lor (Z.lor (d * 2 ^ 60) (i * 2 ^ 40)) o) with (Z.lor (Z.lor (Z.shiftl d 60) (Z.shiftl i 40)) o)
    by by rewrite !Z.shiftl_mul_pow2.
  rewrite <- Z.lor_assoc, (lor_add_low i o) by lia.
  rewrite lor_add_low by lia. lia.
Qed.

Lemma Unpack_eq d i o :
  in_fields d i o -> Unpack (d * 2 ^ 60 + i * 2 ^ 40 + o) = mk_tagged d i o.
Proof.
  intros (Hd & Hi & Ho). unfold Unpack, kDeviceIDBits, kAllocationIDBits, kOffsetBits.
  change (u64 (Z.shiftl 1 20) - 1) with (Z.ones 20). change (u64 (Z.shiftl 1 40) - 1) with (Z.ones 40).
  change (20 + 40) with 60.
  rewrite !Z.land_ones, !Z.shiftr_div_pow2 by lia. f_equal.
  - rewrite Z.mod_small; [|split; [apply Z.div_pos|apply Z.div_lt_upper_bound]; lia].
    symmetry. apply (Z.div_unique _ _ _ (i * 2 ^ 40 + o)); lia.
  - replace (d * 2 ^ 60 + i * 2 ^ 40 + o) with ((d * 2 ^ 20 + i) * 2 ^ 40 + o) by lia.
    rewrite Z.div_add_l, (Z.div_small o), Z.add_0_r by lia.
    rewrite Z.add_comm, Z.mod_add by lia. by apply Z.mod_small.
  - replace (d * 2 ^ 60 + i * 2 ^ 40 + o) with (o + (d * 2 ^ 20 + i) * 2 ^ 40) by lia.
    rewrite Z.mod_add by lia. by apply Z.mod_small.
Qed.

(** C28: [Unpack] inverts [Pack], also for a pointer advanced by [delta] inside
    the allocation: a pointer into the middle of an allocation has the
    identifiers of the allocation and the advanced offset. *)
Theorem Unpack_Pack d i o p delta :
  in_fields d i o -> Pack d i o = Ok p -> 0 <= delta -> o + delta < 2 ^ kOffsetBits ->
  Unpack (p + delta) = mk_tagged d i (o + delta).
Proof.
  intros Hf E Hd Hlt. rewrite Pack_eq in E by done. injection E as <-.
  rewrite <- (Unpack_eq d i (o + delta)).
  - f_equal. lia.
  - destruct Hf as (? & ? & ?). unfold kOffsetBits in Hlt. split_and!; lia.
Qed.

Lemma Unpack_Pack_witness :
  Pack 3 77 5 = Ok (3 * 2 ^ 60 + 77 * 2 ^ 40 + 5) /\
  Unpack (3 * 2 ^ 60 + 77 * 2 ^ 40 + 5 + 1000) = mk_tagged 3 77 1005.
Proof.
  split; [reflexivity|]. apply (Unpack_Pack 3 77 5); [|reflexivity|lia|reflexivity].
  unfold in_fields. lia.
Defined.

(** Every 64-bit pointer is the packing of its fields, which are in range:
    packing loses nothing and two pointers with the same fields are equal. *)
Lemma Pack_Unpack p :
  0 <= p < 2 ^ 64 ->
  in_fields (device_id (Unpack p)) (allocation_id (Unpack p)) (offset (Unpack p)) /\
  Pack (device_id (Unpack p)) (allocation_id (Unpack p)) (offset (Unpack p)) = Ok p.
Proof.
  intros Hp. assert (exists d i o, in_fields d i o /\ p = d * 2 ^ 60 + i * 2 ^ 40 + o) as (d & i & o & Hf & ->).
  { exists (p / 2 ^ 40 / 2 ^ 20), ((p / 2 ^ 40) `mod` 2 ^ 20), (p `mod` 2 ^ 40). unfold in_fields.
    pose proof (Z.div_mod p (2 ^ 40) ltac:(lia)). pose proof (Z.mod_pos_bound p (2 ^ 40) ltac:(lia)).
    pose proof (Z.div_mod (p / 2 ^ 40) (2 ^ 20) ltac:(lia)).
    pose proof (Z.mod_pos_bound (p / 2 ^ 40) (2 ^ 20) ltac:(lia)).
    change (2 ^ 40) with 1099511627776 in *. change (2 ^ 20) with 1048576 in *.
    change (2 ^ 60) with 1152921504606846976. change (2 ^ 64) with 18446744073709551616 in *.
    change (2 ^ 4) with 16.
    lia. }
  rewrite Unpack_eq by done. simpl. split; [done|]. by apply Pack_eq.
Qed.

(** ** Identifiers *)

(** The pool with the identifiers [live] given out: free and live identifiers
    are the numbers from 1 to the largest given out so far. *)
Record pool_wf (s : id_pool) (live : list Z) : Prop := {
  pw_range : 0 <= current_allocation_id_ s <= kMaxAllocationID;
  pw_ids : free_allocation_ids_ s ++ live ≡ₚ seqZ 1 (current_allocation_id_ s) }.

#[export] Instance pool_wf_proper s : Proper ((≡ₚ) ==> iff) (pool_wf s).
Proof. intros l l' Hl. split; intros [Hr Hp]; (split; [done|]); rewrite <- Hp; by rewrite Hl. Qed.

Lemma pool_wf_id s live id : pool_wf s live -> id ∈ live -> 1 <= id <= kMaxAllocationID.
Proof.
  intros [Hr Hp] Hid. assert (id ∈ seqZ 1 (current_allocation_id_ s)) as Hin%elem_of_seqZ.
  { rewrite <- Hp. apply elem_of_app. by right. }
  lia.
Qed.

Lemma TryReserveAllocationID_spec s live :
  pool_wf s live ->
  match TryReserveAllocationID s with
  | (Some id, s') => id ∉ live /\ 1 <= id <= kMaxAllocationID /\ pool_wf s' (id :: live)
  | (None, s') => s' = s /\ Z.of_nat (length live) = kMaxAllocationID
  end.
Proof.
  intros [Hr Hp]. unfold TryReserveAllocationID.
  destruct (free_allocation_ids_ s) as [|id ids] eqn:Ef; simpl in Hp.
  - destruct (Z.eqb_spec (current_allocation_id_ s) kMaxAllocationID) as [Heq|Hne].
    + split; [done|]. rewrite Hp, length_seqZ. lia.
    + change kMaxAllocationID with 1048575 in *. set (c := current_allocation_id_ s) in *.
      rewrite u32_small by lia.
      split; [rewrite Hp, elem_of_seqZ; lia|]. split; [lia|].
      split; simpl; [change kMaxAllocationID with 1048575; lia|].
      rewrite Hp. replace (c + 1) with (Z.of_nat (S (Z.to_nat c))) by lia.
      rewrite seqZ_S, Permutation_app_comm. simpl. rewrite Z2Nat.id by lia. f_equiv. lia.
  - assert (NoDup (id :: ids ++ live)) as Hn%NoDup_cons by (rewrite Hp; apply NoDup_seqZ).
    destruct Hn as [Hn _]. assert (id ∈ seqZ 1 (current_allocation_id_ s)) as Hin%elem_of_seqZ.
    { rewrite <- Hp. by left. }
    split; [set_solver|]. split; [lia|]. split; simpl; [done|].
    rewrite <- Hp. by rewrite Permutation_middle.
Qed.

Lemma ReleaseAllocationID_spec s id live :
  pool_wf s (id :: live) -> pool_wf (ReleaseAllocationID id s) live.
Proof. intros [Hr Hp]. split; simpl; [done|]. rewrite <- Hp. by rewrite Permutation_middle. Qed.

Lemma new_pool_wf : pool_wf (mk_pool 0 []) [].
Proof. split; simpl; [done|]. done. Qed.
