(* ===== verification/CommandList.v ===== *)
(** * The command list

    [DmlCommandList] (core/dml_command_list.{h,cc}) and the ring of command
    allocators it draws from (core/dml_command_allocator_ring.h).  The calls it
    makes on the Direct3D command list and device are recorded in order in
    [calls]; their effect on resource states is given by [run_calls]. *)

From S2P Require Import Prelude Gpu DescriptorPool.

Definition D3D12_RESOURCE_STATE_UNORDERED_ACCESS : Z := 0x8.
Definition D3D12_RESOURCE_STATE_COPY_DEST : Z := 0x400.
Definition D3D12_RESOURCE_STATE_COPY_SOURCE : Z := 0x800.
Definition D3D12_RESOURCE_STATE_GENERIC_READ : Z := 0xAC3.

Definition has_state (state flag : Z) : bool := negb (Z.land state flag =? 0).

Inductive barrier :=
  | Transition (res StateBefore StateAfter : Z)
  | Aliasing
  | UAV.

(** A command recorded through the execution context: the closure's captures. *)
Inductive Command :=
  | CmdCopyBufferRegion (dst_buffer dst_offset dst_state src_buffer src_offset src_state
                         byte_count : Z)
  | CmdFillBufferWithPattern (dst dst_offset dst_size_in_bytes : Z) (value : list Z)
  | CmdInitializeOperator (initializer binding_table : Z)
      (PersistentResourceSize TemporaryResourceSize : Z) (descriptor_heap : Z)
  | CmdExecuteOperator (op binding_table descriptor_heap : Z)
  | CmdResourceBarrier (barriers : list barrier)
  | CmdUavBarrier.

(** Calls on Direct3D objects. *)
Inductive d3d_call :=
  | CallResourceBarrier (barriers : list barrier)
  | CallCopyBufferRegion (dst dst_offset src src_offset count : Z)
  | CallCreateUnorderedAccessView (dst FirstElement NumElements cpu_handle : Z)
  | CallSetDescriptorHeaps (heap : Z)
  | CallClearUnorderedAccessViewUint (gpu_handle cpu_handle dst : Z) (pattern : list Z)
  | CallRecordDispatch (op binding_table : Z)
  | CallResetAllocator (allocator : Z)
  | CallCreateCommandList (allocator : Z)
  | CallReset (allocator : Z)
  | CallClose.

#[export] Instance barrier_eq_dec : EqDecision barrier.
Proof. solve_decision. Defined.
#[export] Instance Command_eq_dec : EqDecision Command.
Proof. solve_decision. Defined.
#[export] Instance d3d_call_eq_dec : EqDecision d3d_call.
Proof. solve_decision. Defined.

(** ** The allocator ring (allocator_count = 2) *)

Record CommandAllocatorInfo := mk_AllocatorInfo { allocator : Z; completion_event : DmlGpuEvent }.

Record AllocatorRing := mk_ring {
  command_allocators_ : list CommandAllocatorInfo;
  current_command_allocator_ : nat }.

Definition allocator_count : nat := 2.

Definition make_ring (allocators : list Z) (initial_event : DmlGpuEvent) : AllocatorRing :=
  mk_ring (map (fun a => mk_AllocatorInfo a initial_event) allocators) 0.

(** Returns the allocator, whether it was reset, and the ring. *)
Definition GetNextAllocator (gcv : Z -> Z) (r : AllocatorRing) (next_completion_event : DmlGpuEvent) :
    result (Z * bool * AllocatorRing) :=
  let earliest_other_allocator := ((current_command_allocator_ r + 1) mod allocator_count)%nat in
  current ← in_range (command_allocators_ r !! current_command_allocator_ r);
  other ← in_range (command_allocators_ r !! earliest_other_allocator);
  ASSERT (negb (IsSignaled gcv (completion_event current))
          || IsSignaled gcv (completion_event other));;
  let reset := IsSignaled gcv (completion_event other) in
  let i := if reset then earliest_other_allocator else current_command_allocator_ r in
  chosen ← in_range (command_allocators_ r !! i);
  mret (allocator chosen, reset,
        mk_ring (<[i := mk_AllocatorInfo (allocator chosen) next_completion_event]>
                   (command_allocators_ r)) i).

(** ** The command list *)

Record DmlCommandList := mk_CommandList {
  calls : list d3d_call;                         (* in the order they were made *)
  d3d_command_list_ : bool;                      (* created? *)
  descriptor_pool_ : DmlDescriptorPool;
  current_descriptor_heap_ : Z;                  (* 0 is null *)
  current_completion_event_ : DmlGpuEvent;
  command_allocator_ring_ : AllocatorRing }.

Definition emit (l : list d3d_call) (c : DmlCommandList) : DmlCommandList :=
  mk_CommandList (calls c ++ l) (d3d_command_list_ c) (descriptor_pool_ c)
    (current_descriptor_heap_ c) (current_completion_event_ c) (command_allocator_ring_ c).

Definition swap_transition (b : barrier) : barrier :=
  match b with Transition r s1 s2 => Transition r s2 s1 | b => b end.

Definition CopyBufferRegion (dst_buffer dst_offset dst_state src_buffer src_offset src_state
    byte_count : Z) (c : DmlCommandList) : DmlCommandList :=
  let barriers :=
    (if negb (has_state dst_state D3D12_RESOURCE_STATE_COPY_DEST)
     then [Transition dst_buffer dst_state D3D12_RESOURCE_STATE_COPY_DEST] else []) ++
    (if negb (has_state src_state D3D12_RESOURCE_STATE_COPY_SOURCE)
     then [Transition src_buffer src_state D3D12_RESOURCE_STATE_COPY_SOURCE] else []) in
  let c := match barriers with [] => c | _ => emit [CallResourceBarrier barriers] c end in
  let c := emit [CallCopyBufferRegion dst_buffer dst_offset src_buffer src_offset byte_count] c in
  emit [CallResourceBarrier (map swap_transition barriers ++ [Aliasing])] c.

(** The loop that repeats the value into the pattern. *)
Fixpoint fill_pattern (value : list Z) (value_index n : nat) : result (list Z) :=
  match n with
  | O => mret []
  | S n =>
      p ← in_range (value !! value_index);
      let value_index := S value_index in
      let value_index := if (value_index =? length value)%nat then O else value_index in
      rest ← fill_pattern value value_index n;
      mret (p :: rest)
  end.

Definition fillPattern (value : list Z) : result (list Z) :=
  ASSERT (length value <=? 16)%nat;;
  match value with
  | [] => mret (replicate 16 0)
  | _ => ASSERT (16 mod length value =? 0)%nat;; fill_pattern value 0 16
  end.

Definition SetDescriptorHeap (descriptor_heap : Z) (c : DmlCommandList) : DmlCommandList :=
  if negb (descriptor_heap =? 0) && negb (descriptor_heap =? current_descriptor_heap_ c) then
    emit [CallSetDescriptorHeaps descriptor_heap]
      (mk_CommandList (calls c) (d3d_command_list_ c) (descriptor_pool_ c) descriptor_heap
         (current_completion_event_ c) (command_allocator_ring_ c))
  else c.

Definition set_pool (p : DmlDescriptorPool) (c : DmlCommandList) : DmlCommandList :=
  mk_CommandList (calls c) (d3d_command_list_ c) p
    (current_descriptor_heap_ c) (current_completion_event_ c) (command_allocator_ring_ c).

Definition barrier_all_outputs : d3d_call := CallResourceBarrier [UAV; Aliasing].

Definition FillBufferWithPattern (gcv : Z -> Z) (dev : descriptor_device)
    (dst dst_offset dst_size_in_bytes : Z) (value : list Z) (c : DmlCommandList) :
    result DmlCommandList :=
  pattern ← fillPattern value;
  ASSERT (dst_offset `mod` 4 =? 0);;
  ASSERT (dst_size_in_bytes `mod` 4 =? 0);;
  let FirstElement := u32 (dst_offset / 4) in
  let NumElements := u32 (dst_size_in_bytes / 4) in
  '(range_cpu, pool) ← AllocDescriptors gcv dev (descriptor_pool_ c) 1
      (current_completion_event_ c) D3D12_DESCRIPTOR_HEAP_FLAG_NONE;
  '(range_gpu, pool) ← AllocDescriptors gcv dev pool 1
      (current_completion_event_ c) D3D12_DESCRIPTOR_HEAP_FLAG_SHADER_VISIBLE;
  let c := set_pool pool c in
  let c := emit
    [CallCreateUnorderedAccessView dst FirstElement NumElements (cpu_handle range_cpu);
     CallCreateUnorderedAccessView dst FirstElement NumElements (cpu_handle range_gpu)] c in
  let c := SetDescriptorHeap (heap_id (range_heap range_gpu)) c in
  mret (emit
    [CallClearUnorderedAccessViewUint (gpu_handle range_gpu) (cpu_handle range_cpu) dst pattern;
     barrier_all_outputs] c).

Definition InitializeOperator (initializer binding_table PersistentResourceSize
    TemporaryResourceSize descriptor_heap : Z) (c : DmlCommandList) : DmlCommandList :=
  let c := emit [CallRecordDispatch initializer binding_table]
             (SetDescriptorHeap descriptor_heap c) in
  if (0 <? PersistentResourceSize) || (0 <? TemporaryResourceSize)
  then emit [barrier_all_outputs] c else c.

Definition ExecuteOperator (op binding_table descriptor_heap : Z) (c : DmlCommandList) :
    DmlCommandList :=
  emit [CallRecordDispatch op binding_table; barrier_all_outputs]
    (SetDescriptorHeap descriptor_heap c).

Definition ResourceBarrier (barriers : list barrier) (c : DmlCommandList) : DmlCommandList :=
  emit [CallResourceBarrier barriers] c.

Definition UavBarrier (c : DmlCommandList) : DmlCommandList :=
  emit [CallResourceBarrier [UAV]] c.

(** What the closure pushed on a batch does to the command list. *)
Definition run_command (gcv : Z -> Z) (dev : descriptor_device) (cmd : Command)
    (c : DmlCommandList) : result DmlCommandList :=
  match cmd with
  | CmdCopyBufferRegion d doff ds s soff ss n => mret (CopyBufferRegion d doff ds s soff ss n c)
  | CmdFillBufferWithPattern d off n v => FillBufferWithPattern gcv dev d off n v c
  | CmdInitializeOperator i b p t h => mret (InitializeOperator i b p t h c)
  | CmdExecuteOperator o b h => mret (ExecuteOperator o b h c)
  | CmdResourceBarrier bs => mret (ResourceBarrier bs c)
  | CmdUavBarrier => mret (UavBarrier c)
  end.

(** [next_event] is the queue's [GetNextCompletionEvent()]; the HRESULTs are
    those of the allocator's [Reset] and of [CreateCommandList] or [Reset]. *)
Definition Open (gcv : Z -> Z) (next_event : DmlGpuEvent) (hr_allocator hr_list : Z)
    (c : DmlCommandList) : result DmlCommandList :=
  ASSERT (current_descriptor_heap_ c =? 0);;
  next ← GetNextAllocator gcv (command_allocator_ring_ c) next_event;
  let '(a, reset, ring) := (next : Z * bool * AllocatorRing) in
  CHECK (negb reset || negb (FAILED hr_allocator));;
  DML_CHECK_SUCCEEDED hr_list;;
  mret (mk_CommandList
    (calls c ++ (if reset then [CallResetAllocator a] else [])
             ++ [if d3d_command_list_ c then CallReset a else CallCreateCommandList a])
    true (descriptor_pool_ c) (current_descriptor_heap_ c) (current_completion_event_ c) ring).

(** [hr] is the HRESULT of [d3d_command_list_->Close()], the other two the
    device-removed reasons. *)
Definition Close (hr dml_removed d3d_removed : Z) (c : DmlCommandList) :
    result (Status * DmlCommandList) :=
  let c := emit [CallClose] c in
  if HrIsOutOfMemory hr then
    mret (ResourceExhausted "OOM when closing the command list", c)
  else
    DML_CHECK_SUCCEEDED hr;;
    let c := mk_CommandList (calls c) (d3d_command_list_ c) (descriptor_pool_ c) 0
               (current_completion_event_ c) (command_allocator_ring_ c) in
    DML_CHECK_SUCCEEDED dml_removed;;
    DML_CHECK_SUCCEEDED d3d_removed;;
    mret (Status_OK, c).

(** The constructor; [current_completion_event_] is default-constructed. *)
Definition make_CommandList (dev : descriptor_device) (allocators : list Z)
    (queue_event : DmlGpuEvent) : result DmlCommandList :=
  pool ← make_DescriptorPool dev 2048;
  mret (mk_CommandList [] false pool 0 null_event (make_ring allocators queue_event)).

(** ** Resource states

    What Direct3D requires of a barrier and of a copy: a transition starts from
    the state the resource is in, a copy needs COPY_DEST and COPY_SOURCE. *)

Definition apply_barrier (st : gmap Z Z) (b : barrier) : option (gmap Z Z) :=
  match b with
  | Transition r s1 s2 => if decide (st !! r = Some s1) then Some (<[r := s2]> st) else None
  | Aliasing | UAV => Some st
  end.

Fixpoint apply_barriers (st : gmap Z Z) (bs : list barrier) : option (gmap Z Z) :=
  match bs with
  | [] => Some st
  | b :: bs => match apply_barrier st b with Some st => apply_barriers st bs | None => None end
  end.

Definition in_state (st : gmap Z Z) (r flag : Z) : bool :=
  match st !! r with Some s => has_state s flag | None => false end.

Fixpoint run_calls (l : list d3d_call) (st : gmap Z Z) : option (gmap Z Z) :=
  match l with
  | [] => Some st
  | CallResourceBarrier bs :: l =>
      match apply_barriers st bs with Some st => run_calls l st | None => None end
  | CallCopyBufferRegion d _ s _ _ :: l =>
      if in_state st d D3D12_RESOURCE_STATE_COPY_DEST
         && in_state st s D3D12_RESOURCE_STATE_COPY_SOURCE
      then run_calls l st else None
  | _ :: l => run_calls l st
  end.

(** C26: Recording a copy is legal for the resource states the caller names, and
    leaves every resource in the state it was in before: the transitions
    inserted before the copy are exactly undone after it. *)
Theorem CopyBufferRegion_restores_states c st dst doff ds src soff ss n :
  st !! dst = Some ds -> st !! src = Some ss -> dst <> src ->
  exists l, calls (CopyBufferRegion dst doff ds src soff ss n c) = calls c ++ l /\
    CallCopyBufferRegion dst doff src soff n ∈ l /\
    run_calls l st = Some st.
Proof.
  intros Hd Hs Hne. unfold CopyBufferRegion.
  destruct (has_state ds D3D12_RESOURCE_STATE_COPY_DEST) eqn:Ed;
  destruct (has_state ss D3D12_RESOURCE_STATE_COPY_SOURCE) eqn:Es; simpl;
  (eexists; split; [rewrite <- ?app_assoc; reflexivity|]; split; [set_solver|]);
  simpl; unfold in_state;
  repeat first
    [ rewrite lookup_insert_eq | rewrite lookup_insert_ne by done | rewrite Hd | rewrite Hs
    | rewrite Ed | rewrite Es | rewrite decide_True by done | rewrite insert_insert_eq
    | progress simpl ].
  - done.
  - by rewrite insert_id.
  - by rewrite insert_id.
  - f_equal. apply map_eq. intros i. rewrite !lookup_insert.
    repeat case_decide; congruence.
Qed.

(** ** The fill pattern *)

Lemma next_index k n :
  (0 < n)%nat -> (if (S (k mod n) =? n)%nat then O else S (k mod n)) = (S k mod n)%nat.
Proof.
  intros Hn. assert (k mod n < n)%nat by (apply Nat.mod_upper_bound; lia).
  destruct (Nat.eqb_spec (S (k mod n)) n) as [He|He].
  - replace (S k) with (n + k / n * n)%nat by (pose proof (Nat.div_mod_eq k n); lia).
    by rewrite Nat.Div0.mod_add, Nat.Div0.mod_same.
  - assert (S (k mod n) mod n = S k mod n)%nat as <-; [|by rewrite (Nat.mod_small (S (k mod n))) by lia].
    change (S (k mod n)) with (1 + k mod n)%nat. change (S k) with (1 + k)%nat.
    apply Nat.Div0.add_mod_idemp_r.
Qed.

Lemma fill_pattern_spec value n k :
  (0 < length value)%nat ->
  exists p, fill_pattern value (k mod length value) n = Ok p /\ length p = n /\
    forall i, (i < n)%nat -> p !! i = value !! ((k + i) mod length value)%nat.
Proof.
  intros Hl. revert k. induction n as [|n IH]; intros k.
  { exists []. split; [done|]. split; [done|]. lia. }
  assert (k mod length value < length value)%nat as Hlt by (apply Nat.mod_upper_bound; lia).
  destruct (lookup_lt_is_Some_2 _ _ Hlt) as [x Hx].
  destruct (IH (S k)) as (p & Hp & Hlen & Hi).
  exists (x :: p). cbn [fill_pattern]. rewrite Hx. cbn [in_range mbind result_bind].
  rewrite next_index by done.
  rewrite Hp. simpl. split; [done|]. split; [by rewrite Hlen|].
  intros [|i] Hin; simpl; [by rewrite Nat.add_0_r|].
  rewrite Hi by lia. by replace (S k + i)%nat with (k + S i)%nat by lia.
Qed.

(** The 16-byte pattern that a fill clears the buffer with repeats the
    value: byte i of the pattern is byte (i mod n) of an n-byte value, for
    every n that divides 16 (the asserts hold). *)
Theorem fillPattern_repeats value :
  (0 < length value)%nat -> (16 mod length value = 0)%nat ->
  exists p, fillPattern value = Ok p /\ length p = 16%nat /\
    forall i, (i < 16)%nat -> p !! i = value !! (i mod length value)%nat.
Proof.
  intros Hl Hm. unfold fillPattern.
  assert (length value <= 16)%nat.
  { destruct (decide (length value <= 16)%nat); [done|].
    rewrite Nat.mod_small in Hm by lia. done. }
  destruct (fill_pattern_spec value 16 0 Hl) as (p & Hp & Hlen & Hi).
  rewrite Nat.Div0.mod_0_l in Hp. exists p. split; [|done].
  rewrite (proj2 (Nat.leb_le _ _)), Hm by done.
  destruct value as [|x v]; [by apply Nat.lt_irrefl in Hl|]. exact Hp.
Qed.

(** ** The allocator ring *)

Record ring_inv (f : Z) (r : AllocatorRing) (current other : CommandAllocatorInfo) : Prop := {
  ri_len : length (command_allocators_ r) = 2%nat;
  ri_cur : command_allocators_ r !! current_command_allocator_ r = Some current;
  ri_other : command_allocators_ r !! ((current_command_allocator_ r + 1) mod 2)%nat = Some other;
  ri_fence : fence (completion_event current) = f /\ fence (completion_event other) = f;
  ri_le : fence_value (completion_event other) <= fence_value (completion_event current) }.

(** On the queue's single fence, with completion events that do not go
    back, taking the next allocator never trips the ring's assertion, and the
    allocator it resets is one whose last submitted command list has completed
    on the GPU; the allocator returned is marked with the event of the list to
    be recorded. *)
Theorem GetNextAllocator_safe gcv f r current other e :
  ring_inv f r current other -> fence e = f ->
  fence_value (completion_event current) <= fence_value e ->
  exists a reset r' current' other',
    GetNextAllocator gcv r e = Ok (a, reset, r') /\
    ring_inv f r' current' other' /\
    allocator current' = a /\ completion_event current' = e /\
    (if reset then a = allocator other /\ IsSignaled gcv (completion_event other) = true
     else a = allocator current /\ IsSignaled gcv (completion_event other) = false).
Proof.
  destruct r as [infos k]. intros [Hlen Hc Ho [Hfc Hfo] Hle] He Hlee. simpl in *.
  pose proof (lookup_lt_Some _ _ _ Hc) as Hlt.
  destruct infos as [|x [|y [|? ?]]]; simpl in Hlen; try lia.
  assert (negb (IsSignaled gcv (completion_event current))
          || IsSignaled gcv (completion_event other) = true) as Hassert.
  { unfold IsSignaled. rewrite Hfc, Hfo. case_cmp; simpl; try done; lia. }
  unfold GetNextAllocator.
  destruct k as [|[|?]]; simpl in *; [..|lia]; simplify_eq; rewrite Hassert; simpl;
    destruct (IsSignaled gcv (completion_event other)) eqn:Es; simpl.
  all: match goal with
  | |- context [mret (?a, true, _)] => eexists _, _, _, (mk_AllocatorInfo a e), current
  | |- context [mret (?a, false, _)] => eexists _, _, _, (mk_AllocatorInfo a e), other
  end.
  all: split_and!; [reflexivity| |done..]; split; simpl; try done; lia.
Qed.

(** ** Descriptors of fills

    [current_completion_event_] is never assigned after construction, so the
    pool is told of no fence and never restarts a heap. *)

Record unfenced_heap (h : DmlDescriptorHeap) : Prop := {
  uh_fence : fence (completion_event_ h) = 0;
  uh_size : 0 <= size_ h <= capacity_ h;
  uh_capacity : capacity_ h < 2 ^ 31 }.

Definition unfenced_pool (p : DmlDescriptorPool) (used : Z) : Prop :=
  0 <= initial_heap_capacity_ p < 2 ^ 31 /\ Forall unfenced_heap (heaps_ p) /\
  Zsum size_ (heaps_ p) = used.

Lemma unfenced_rewind gcv flags h : unfenced_heap h -> rewind gcv flags h = h.
Proof. intros [Hf _ _]. unfold rewind. by rewrite Hf. Qed.

Lemma unfenced_TryAlloc gcv h n e flags :
  unfenced_heap h -> fence e = 0 -> 0 <= n < 2 ^ 31 ->
  match TryAllocDescriptors gcv h n e flags with
  | (None, h') => h' = h
  | (Some _, h') => unfenced_heap h' /\ size_ h' = size_ h + n
  end.
Proof.
  intros Hu He Hn. pose proof Hu as [Hf Hs Hc]. unfold TryAllocDescriptors.
  destruct (negb _); [done|]. rewrite unfenced_rewind by done.
  rewrite u32_small by lia. case_cmp; [done|]. rewrite u32_small by lia.
  split; [|done]. split; simpl; [done|lia|lia].
Qed.

Lemma unfenced_alloc_existing gcv hs n e flags :
  Forall unfenced_heap hs -> fence e = 0 -> 0 <= n < 2 ^ 31 ->
  match alloc_existing gcv hs n e flags with
  | (None, hs') => hs' = hs
  | (Some _, hs') => Forall unfenced_heap hs' /\ Zsum size_ hs' = Zsum size_ hs + n
  end.
Proof.
  intros Hhs He Hn. induction Hhs as [|h hs Hh Hhs IH]; simpl; [done|].
  pose proof (unfenced_TryAlloc gcv h n e flags Hh He Hn) as Ht.
  destruct (TryAllocDescriptors gcv h n e flags) as [[r|] h'].
  - destruct Ht as [Hu Hsz]. split; [by constructor|]. simpl. lia.
  - subst h'. destruct (alloc_existing gcv hs n e flags) as [[r|] hs'].
    + destruct IH. split; [by constructor|]. simpl. lia.
    + by rewrite IH.
Qed.

Lemma unfenced_AllocDescriptors gcv dev p used n e flags r p' :
  creates_heaps dev -> unfenced_pool p used -> fence e = 0 -> 0 <= n < 2 ^ 31 ->
  AllocDescriptors gcv dev p n e flags = Ok (r, p') -> unfenced_pool p' (used + n).
Proof.
  intros [Hinc Hdev] (Hcap & Hhs & Hu) He Hn. unfold AllocDescriptors.
  pose proof (unfenced_alloc_existing gcv (heaps_ p) n e flags Hhs He Hn) as Ha.
  destruct (alloc_existing gcv (heaps_ p) n e flags) as [[r0|] hs'].
  { destruct Ha as [Ha Hs]. intros [= <- <-]. split; [done|]. split; [done|]. simpl. lia. }
  subst hs'. unfold CreateHeap. cbn [initial_heap_capacity_ heaps_].
  set (cap := Z.max n (initial_heap_capacity_ p)).
  destruct (Hdev cap flags ltac:(lia)) as (d & Hd & Hnum & Hfl & _). rewrite Hd. simpl.
  set (fresh := make_DescriptorHeap _ d).
  assert (unfenced_heap fresh) as Hfresh
    by (split; simpl; [done|rewrite Hnum; subst cap; lia..]).
  unfold alloc_back. simpl. rewrite last_snoc. simpl.
  pose proof (unfenced_TryAlloc gcv fresh n e flags Hfresh He Hn) as Ht.
  destruct (TryAllocDescriptors gcv fresh n e flags) as [[r0|] h']; simpl; [|done].
  destruct Ht as [Hh' Hsz]. intros [= <- <-]. split; [done|].
  simpl. rewrite length_app, Nat.add_sub, alter_app_r_alt, Nat.sub_diag by lia. simpl.
  split; [by apply Forall_snoc|]. rewrite Zsum_app. simpl.
  replace (size_ fresh) with 0 in Hsz by done. lia.
Qed.

Definition is_fill (cmd : Command) : bool :=
  match cmd with CmdFillBufferWithPattern _ _ _ _ => true | _ => false end.

(** Commands recorded over time, each seeing its own fence values. *)
Fixpoint run_commands (dev : descriptor_device) (l : list ((Z -> Z) * Command))
    (c : DmlCommandList) : result DmlCommandList :=
  match l with
  | [] => mret c
  | (gcv, cmd) :: l => c ← run_command gcv dev cmd c; run_commands dev l c
  end.

Definition unfenced (c : DmlCommandList) (used : Z) : Prop :=
  fence (current_completion_event_ c) = 0 /\ unfenced_pool (descriptor_pool_ c) used.

Lemma SetDescriptorHeap_pool h c :
  descriptor_pool_ (SetDescriptorHeap h c) = descriptor_pool_ c /\
  current_completion_event_ (SetDescriptorHeap h c) = current_completion_event_ c.
Proof. unfold SetDescriptorHeap. by case_match. Qed.

Lemma run_command_unfenced gcv dev cmd c c' used :
  creates_heaps dev -> unfenced c used -> run_command gcv dev cmd c = Ok c' ->
  unfenced c' (used + if is_fill cmd then 2 else 0).
Proof.
  intros Hdev [He Hp]. destruct cmd; simpl; rewrite ?Z.add_0_r.
  - intros [= <-]. unfold CopyBufferRegion, emit. by repeat case_match.
  - unfold FillBufferWithPattern. intros H. inv_ok.
    match goal with
    | |- unfenced (emit _ (SetDescriptorHeap ?h ?k)) _ =>
        destruct (SetDescriptorHeap_pool h k) as [Epool Eevent]
    end.
    unfold unfenced. simpl in *. rewrite Epool, Eevent. split; [done|].
    replace (used + 2) with (used + 1 + 1) by lia.
    eapply unfenced_AllocDescriptors; [done| |done|done|eassumption].
    by eapply unfenced_AllocDescriptors; [done| |done|done|eassumption].
  - intros [= <-]. unfold InitializeOperator, SetDescriptorHeap, emit, unfenced.
    by repeat case_match.
  - intros [= <-]. unfold ExecuteOperator, SetDescriptorHeap, emit, unfenced. by case_match.
  - by intros [= <-].
  - by intros [= <-].
Qed.

Definition fills (l : list ((Z -> Z) * Command)) : Z :=
  Z.of_nat (length (List.filter (fun x => is_fill (snd x)) l)).

Lemma run_commands_unfenced dev l c c' used :
  creates_heaps dev -> unfenced c used -> run_commands dev l c = Ok c' ->
  unfenced c' (used + 2 * fills l).
Proof.
  intros Hdev. unfold fills. revert c used.
  induction l as [|[gcv cmd] l IH]; intros c used Hc Hrun; simpl in *.
  { inv_ok. by rewrite Z.add_0_r. }
  inv_ok. eapply run_command_unfenced in Hc; [|done|eassumption].
  specialize (IH _ _ Hc Hrun).
  match type of IH with unfenced _ ?x =>
    match goal with |- unfenced _ ?y => replace y with x; [exact IH|] end
  end.
  destruct (is_fill cmd); simpl length; lia.
Qed.

(** The descriptors of fills are never reused, whatever the fences report:
    after any sequence of commands with n fills the command list's pool holds
    2 n reserved descriptors, so its heaps grow without bound. *)
Theorem fill_descriptors_never_reused dev allocators e l c c' :
  creates_heaps dev -> make_CommandList dev allocators e = Ok c ->
  run_commands dev l c = Ok c' ->
  Zsum size_ (heaps_ (descriptor_pool_ c')) = 2 * fills l /\
  2 * fills l <= Zsum capacity_ (heaps_ (descriptor_pool_ c')).
Proof.
  intros Hdev Hmake Hrun.
  assert (unfenced c 0) as Hc.
  { unfold make_CommandList, make_DescriptorPool, CreateHeap in Hmake.
    destruct (proj2 Hdev 2048 D3D12_DESCRIPTOR_HEAP_FLAG_SHADER_VISIBLE ltac:(lia))
      as (d & Hd & Hnum & _). rewrite Hd in Hmake. simpl in Hmake. inv_ok.
    split; [done|]. split; [done|]. split; [|done].
    repeat constructor; simpl; rewrite ?Hnum; lia. }
  pose proof (run_commands_unfenced _ _ _ _ _ Hdev Hc Hrun) as (_ & _ & Hhs & Hsum).
  rewrite Z.add_0_l in Hsum. split; [done|]. rewrite <- Hsum.
  clear -Hhs. induction Hhs as [|h hs [_ ? _] Hhs IH]; simpl; lia.
Qed.

(** ** Examples *)

Definition example_list : DmlCommandList :=
  mk_CommandList [] false (mk_DescriptorPool [] 2048) 0 null_event (make_ring [11; 12] (mk_event 0 1)).

Lemma CopyBufferRegion_restores_states_witness :
  exists l, calls (CopyBufferRegion 1 0 8 2 0 8 64 example_list) = l /\
    CallCopyBufferRegion 1 0 2 0 64 ∈ l /\
    run_calls l {[1 := 8; 2 := 8]} = Some {[1 := 8; 2 := 8]}.
Proof.
  apply (CopyBufferRegion_restores_states example_list {[1 := 8; 2 := 8]} 1 0 8 2 0 8 64); [done|done|lia].
Defined.

Lemma fillPattern_repeats_witness :
  exists p, fillPattern [1; 2; 3; 4] = Ok p /\ p !! 6%nat = Some 3.
Proof.
  destruct (fillPattern_repeats [1; 2; 3; 4] ltac:(simpl; lia) ltac:(reflexivity)) as (p & E & _ & Hi).
  exists p. split; [exact E|]. rewrite Hi by lia. reflexivity.
Defined.

Lemma example_ring_inv :
  ring_inv 1 (mk_ring [mk_AllocatorInfo 11 (mk_event 3 1); mk_AllocatorInfo 12 (mk_event 2 1)] 0)
    (mk_AllocatorInfo 11 (mk_event 3 1)) (mk_AllocatorInfo 12 (mk_event 2 1)).
Proof. split; simpl; [done|done|done|done|lia]. Qed.

Lemma GetNextAllocator_safe_witness :
  exists a reset r', GetNextAllocator (fun _ => 2)
      (mk_ring [mk_AllocatorInfo 11 (mk_event 3 1); mk_AllocatorInfo 12 (mk_event 2 1)] 0)
      (mk_event 4 1) = Ok (a, reset, r') /\ a = 12 /\ reset = true.
Proof.
  destruct (GetNextAllocator_safe (fun _ => 2) 1 _ _ _ (mk_event 4 1) example_ring_inv eq_refl
              ltac:(simpl; lia)) as (a & reset & r' & _ & _ & E & _ & _ & _ & _).
  exists a, reset, r'. split; [exact E|]. vm_compute in E. by injection E as <- <- _.
Defined.

Definition example_fills : list ((Z -> Z) * Command) :=
  [((fun _ => 100), CmdFillBufferWithPattern 5 0 64 [1; 2; 3; 4]); ((fun _ => 200), CmdUavBarrier);
   ((fun _ => 300), CmdFillBufferWithPattern 5 64 64 [0])].

Lemma fill_descriptors_never_reused_witness :
  exists c c', make_CommandList example_device [11; 12] (mk_event 0 1) = Ok c /\
    run_commands example_device example_fills c = Ok c' /\
    Zsum size_ (heaps_ (descriptor_pool_ c')) = 4.
Proof.
  eexists _, _. split; [reflexivity|]. split; [vm_compute; reflexivity|].
  refine (proj1 (fill_descriptors_never_reused example_device [11; 12] (mk_event 0 1) example_fills _ _
            example_device_creates eq_refl _)). vm_compute. reflexivity.
Defined.
