(* ===== verification/ExecContext.v ===== *)
(** * The execution context

    [DmlCommandQueue] (core/dml_command_queue.cc) and [DmlExecutionContext]
    (core/dml_execution_context.{h,cc}): client threads append commands to a
    write batch and receive the GPU event of the next flush; a background
    thread swaps the two batches, records one of them into the command list and
    submits it.  Every critical section of [BatchState::mutex] is one step; the
    thread's work outside the mutex is interleaved with the clients.  Safety is
    an invariant of the steps ([inv]), the progress of a flush a bound on the
    steps that the thread still takes ([pending]). *)

From S2P Require Import Prelude Gpu DescriptorPool CommandList.
Import BufferRegion.

(** ** The command queue *)

Record DmlCommandQueue := mk_queue {
  last_fence_value_ : Z;
  fence_ : Z;
  (* what was given to [ID3D12CommandQueue::ExecuteCommandLists], as the
     commands recorded in the list, and the value signaled after it *)
  submissions : list (list Command * Z) }.

Definition make_queue (f : Z) : DmlCommandQueue := mk_queue 0 f [].

Definition ExecuteCommandLists (cmds : list Command) (q : DmlCommandQueue) : DmlCommandQueue :=
  let v := u64 (last_fence_value_ q + 1) in
  mk_queue v (fence_ q) (submissions q ++ [(cmds, v)]).

Definition GetCurrentCompletionEvent_queue (q : DmlCommandQueue) : DmlGpuEvent :=
  mk_event (last_fence_value_ q) (fence_ q).

Definition GetNextCompletionEvent (q : DmlCommandQueue) : DmlGpuEvent :=
  mk_event (u64 (last_fence_value_ q + 1)) (fence_ q).

(** ** The state shared with the execution thread *)

Definition default_batch_flush_size : Z := 100.
Definition default_batch_flush_time_us : Z := 1000.

Record BatchState := mk_BatchState {
  next_flush_event : DmlGpuEvent;
  batches : list (list Command);
  write_batch_index : nat;
  exit_requested : bool;
  flush_requested : bool;
  status : Status }.

(** Where the execution thread is: at the top of its loop, in the wait on
    [command_added], or flushing the batch of the given index — before [Open],
    or between two commands with those already recorded and those to do. *)
Inductive thread_pc :=
  | Top
  | Waiting
  | Opening (batch : nat)
  | Recording (batch : nat) (recorded todo : list Command)
  | Done.

Record context := mk_context {
  batch_state_ : BatchState;
  dml_command_queue_ : DmlCommandQueue;
  dml_command_list_ : DmlCommandList;
  batch_flush_size : Z;
  batch_flush_time_us : Z;
  pc : thread_pc }.

Definition set_batch_state (b : BatchState) (s : context) : context :=
  mk_context b (dml_command_queue_ s) (dml_command_list_ s)
    (batch_flush_size s) (batch_flush_time_us s) (pc s).
Definition set_pc (p : thread_pc) (s : context) : context :=
  mk_context (batch_state_ s) (dml_command_queue_ s) (dml_command_list_ s)
    (batch_flush_size s) (batch_flush_time_us s) p.
Definition set_command_list (c : DmlCommandList) (s : context) : context :=
  mk_context (batch_state_ s) (dml_command_queue_ s) c
    (batch_flush_size s) (batch_flush_time_us s) (pc s).
Definition set_queue (q : DmlCommandQueue) (s : context) : context :=
  mk_context (batch_state_ s) q (dml_command_list_ s)
    (batch_flush_size s) (batch_flush_time_us s) (pc s).

(** [(write_batch_index + 1) % 2]. *)
Definition swap_index (i : nat) : nat := ((i + 1) mod 2)%nat.
Arguments swap_index : simpl never.

Definition batch_at (b : BatchState) (i : nat) : list Command := default [] (batches b !! i).
Definition WriteBatch (b : BatchState) : list Command := batch_at b (write_batch_index b).

(** [++event.fence_value]. *)
Definition next_event (e : DmlGpuEvent) : DmlGpuEvent := mk_event (u64 (fence_value e + 1)) (fence e).
Definition prev_event (e : DmlGpuEvent) : DmlGpuEvent := mk_event (u64 (fence_value e - 1)) (fence e).

(** An environment variable: [Some v] when [ReadInt64FromEnvVar] succeeds. *)
Definition env_or_default (v : option Z) (d : Z) : Z :=
  match v with Some v => if v =? 0 then d else u32 v | None => d end.

Definition make_context (q : DmlCommandQueue) (c : DmlCommandList)
    (env_flush_size env_flush_time : option Z) : context :=
  mk_context
    (mk_BatchState (next_event (GetCurrentCompletionEvent_queue q)) [[]; []] 0 false false Status_OK)
    q c
    (env_or_default env_flush_size default_batch_flush_size)
    (env_or_default env_flush_time default_batch_flush_time_us)
    Top.

(** ** The client operations: each is one critical section *)

Definition push_command (cmd : Command) (s : context) : DmlGpuEvent * context :=
  let b := batch_state_ s in
  (next_flush_event b,
   set_batch_state
     (mk_BatchState (next_flush_event b)
        (alter (fun l => l ++ [cmd]) (write_batch_index b) (batches b))
        (write_batch_index b) (exit_requested b) (flush_requested b) (status b)) s).

Definition CopyBufferRegionRaw (dst_buffer dst_offset dst_state src_buffer src_offset src_state
    byte_count : Z) : context -> DmlGpuEvent * context :=
  push_command
    (CmdCopyBufferRegion dst_buffer dst_offset dst_state src_buffer src_offset src_state byte_count).

Definition resource_ptr (r : option resource) : Z :=
  match r with Some r => res_id r | None => 0 end.

Definition CopyBufferRegion (dst src : D3D12BufferRegion) (s : context) :
    result (DmlGpuEvent * context) :=
  CHECK (SizeInBytes src <=? SizeInBytes dst);;
  mret (CopyBufferRegionRaw
    (resource_ptr (ResourceInCopyDstState dst)) (Offset dst) D3D12_RESOURCE_STATE_COPY_DEST
    (resource_ptr (ResourceInCopySrcState src)) (Offset src) D3D12_RESOURCE_STATE_COPY_SOURCE
    (SizeInBytes src) s).

Definition FillBufferWithPatternRaw (dst dst_offset dst_size_in_bytes : Z) (value : list Z) :
    context -> DmlGpuEvent * context :=
  push_command (CmdFillBufferWithPattern dst dst_offset dst_size_in_bytes value).

Definition FillBufferWithPattern (dst : D3D12BufferRegion) (value : list Z) :
    context -> DmlGpuEvent * context :=
  FillBufferWithPatternRaw (resource_ptr (ResourceInUavState dst)) (Offset dst) (SizeInBytes dst) value.

Definition InitializeOperator (initializer binding_table persistent temporary descriptor_heap : Z) :
    context -> DmlGpuEvent * context :=
  push_command (CmdInitializeOperator initializer binding_table persistent temporary descriptor_heap).

Definition ExecuteOperator (op binding_table descriptor_heap : Z) :
    context -> DmlGpuEvent * context :=
  push_command (CmdExecuteOperator op binding_table descriptor_heap).

Definition ResourceBarrier (barriers : list barrier) : context -> DmlGpuEvent * context :=
  push_command (CmdResourceBarrier barriers).

Definition UavBarrier : context -> DmlGpuEvent * context := push_command CmdUavBarrier.

Definition is_nil {A} (l : list A) : bool := match l with [] => true | _ => false end.

Definition GetCurrentCompletionEvent (s : context) : DmlGpuEvent :=
  let b := batch_state_ s in
  if is_nil (WriteBatch b) then prev_event (next_flush_event b) else next_flush_event b.

Definition Flush (s : context) : DmlGpuEvent * context :=
  let b := batch_state_ s in
  (if is_nil (WriteBatch b) then prev_event (next_flush_event b) else next_flush_event b,
   set_batch_state
     (mk_BatchState (next_flush_event b) (batches b) (write_batch_index b)
        (exit_requested b) true (status b)) s).

Definition GetCommandRecorderStatus (s : context) : Status := status (batch_state_ s).

(** The destructor asks the thread to exit. *)
Definition request_exit (s : context) : context :=
  let b := batch_state_ s in
  set_batch_state
    (mk_BatchState (next_flush_event b) (batches b) (write_batch_index b)
       true (flush_requested b) (status b)) s.

(** ** The execution thread *)

(** The critical section at the top of the loop; [elapsed_us] is the time since
    the last flush. *)
Definition thread_check (elapsed_us : Z) (s : context) : context :=
  let b := batch_state_ s in
  if exit_requested b then set_pc Done s
  else if is_nil (WriteBatch b) then set_pc Waiting s
  else
    let flush := flush_requested b
                 || (batch_flush_size s <=? Z.of_nat (length (WriteBatch b)))
                 || (batch_flush_time_us s <=? elapsed_us) in
    if flush then
      set_pc (Opening (write_batch_index b))
        (set_batch_state
           (mk_BatchState (next_event (next_flush_event b)) (batches b)
              (swap_index (write_batch_index b)) (exit_requested b) false (status b)) s)
    else
      set_pc Top
        (set_batch_state
           (mk_BatchState (next_flush_event b) (batches b) (write_batch_index b)
              (exit_requested b) false (status b)) s).

Definition thread_open (gcv : Z -> Z) (hr_allocator hr_list : Z) (i : nat) (s : context) :
    result context :=
  c ← Open gcv (GetNextCompletionEvent (dml_command_queue_ s)) hr_allocator hr_list
        (dml_command_list_ s);
  mret (set_pc (Recording i [] (batch_at (batch_state_ s) i)) (set_command_list c s)).

Definition thread_record (gcv : Z -> Z) (dev : descriptor_device) (i : nat)
    (recorded : list Command) (cmd : Command) (todo : list Command) (s : context) :
    result context :=
  c ← run_command gcv dev cmd (dml_command_list_ s);
  mret (set_pc (Recording i (recorded ++ [cmd]) todo) (set_command_list c s)).

Definition thread_close (hr dml_removed d3d_removed : Z) (i : nat) (recorded : list Command)
    (s : context) : result context :=
  closed ← Close hr dml_removed d3d_removed (dml_command_list_ s);
  let '(st, c) := (closed : Status * DmlCommandList) in
  let s := set_command_list c s in
  let b := batch_state_ s in
  if negb (status_ok st) then
    mret (set_pc Done
      (set_batch_state
         (mk_BatchState (next_flush_event b) (batches b) (write_batch_index b)
            (exit_requested b) (flush_requested b) st) s))
  else
    mret (set_pc Top
      (set_queue (ExecuteCommandLists recorded (dml_command_queue_ s))
      (set_batch_state
         (mk_BatchState (next_flush_event b) (<[i := []]> (batches b)) (write_batch_index b)
            (exit_requested b) (flush_requested b) (status b)) s))).

(** ** Interleavings *)

Inductive label :=
  | LCommand (cmd : Command) (e : DmlGpuEvent)   (* a client recorded [cmd], was given [e] *)
  | LFlush (e : DmlGpuEvent)
  | LExit
  | LThread.

Inductive step : context -> label -> context -> Prop :=
  | step_command s cmd e s' :
      push_command cmd s = (e, s') -> step s (LCommand cmd e) s'
  | step_flush s e s' : Flush s = (e, s') -> step s (LFlush e) s'
  | step_exit s : step s LExit (request_exit s)
  | step_check s elapsed_us :
      pc s = Top -> step s LThread (thread_check elapsed_us s)
  | step_wake s : pc s = Waiting -> step s LThread (set_pc Top s)
  | step_open s gcv hr_allocator hr_list i s' :
      pc s = Opening i -> thread_open gcv hr_allocator hr_list i s = Ok s' ->
      step s LThread s'
  | step_record s gcv dev i recorded cmd todo s' :
      pc s = Recording i recorded (cmd :: todo) ->
      thread_record gcv dev i recorded cmd todo s = Ok s' ->
      step s LThread s'
  | step_close s hr dml_removed d3d_removed i recorded s' :
      pc s = Recording i recorded [] ->
      thread_close hr dml_removed d3d_removed i recorded s = Ok s' ->
      step s LThread s'.

(** The commands given to clients' calls, with the fence value of their events,
    in the order the calls were made. *)
Definition logged (l : label) : list (Command * Z) :=
  match l with LCommand cmd e => [(cmd, fence_value e)] | _ => [] end.

Inductive reach (s0 : context) : context -> list (Command * Z) -> Prop :=
  | reach_refl : reach s0 s0 []
  | reach_step s log l s' : reach s0 s log -> step s l s' -> reach s0 s' (log ++ logged l).

(** ** The invariant *)

Definition tag (v : Z) (l : list Command) : list (Command * Z) := map (fun c => (c, v)) l.

(** The commands submitted so far, each with the value signaled after its list. *)
Definition submitted (q : DmlCommandQueue) : list (Command * Z) :=
  concat (map (fun '(cmds, v) => tag v cmds) (submissions q)).

Definition flushes (s : context) : Z := Z.of_nat (length (submissions (dml_command_queue_ s))).

(** The batch the thread is flushing: empty when it is not flushing. *)
Definition exec_batch (s : context) : list Command :=
  batch_at (batch_state_ s) (swap_index (write_batch_index (batch_state_ s))).

(** How many flushes were started and not submitted: 0 or 1. *)
Inductive in_flight (s : context) : Z -> Prop :=
  | idle : exec_batch s = [] -> (pc s = Top \/ pc s = Waiting \/ pc s = Done) -> in_flight s 0
  | opening i :
      pc s = Opening i -> i = swap_index (write_batch_index (batch_state_ s)) ->
      in_flight s 1
  | recording i recorded todo :
      pc s = Recording i recorded todo ->
      i = swap_index (write_batch_index (batch_state_ s)) ->
      exec_batch s = recorded ++ todo -> in_flight s 1
  | failed : pc s = Done -> status_ok (status (batch_state_ s)) = false -> in_flight s 1.

Record inv (s : context) (log : list (Command * Z)) : Prop := {
  inv_len : length (batches (batch_state_ s)) = 2%nat;
  inv_index : (write_batch_index (batch_state_ s) < 2)%nat;
  inv_last : last_fence_value_ (dml_command_queue_ s) = u64 (flushes s);
  inv_values : forall k cmds v, submissions (dml_command_queue_ s) !! k = Some (cmds, v) ->
    v = u64 (Z.of_nat k + 1);
  inv_flight : exists n, in_flight s n /\
    next_flush_event (batch_state_ s) =
      mk_event (u64 (flushes s + n + 1)) (fence_ (dml_command_queue_ s)) /\
    log = submitted (dml_command_queue_ s) ++
          tag (u64 (flushes s + 1)) (exec_batch s) ++
          tag (u64 (flushes s + n + 1)) (WriteBatch (batch_state_ s)) }.

Lemma u64_idemp_l x y : u64 (u64 x + y) = u64 (x + y).
Proof. unfold u64. by rewrite Zplus_mod_idemp_l. Qed.

Lemma tag_app v l1 l2 : tag v (l1 ++ l2) = tag v l1 ++ tag v l2.
Proof. apply map_app. Qed.

Lemma submitted_app cmds q :
  submitted (ExecuteCommandLists cmds q) = submitted q ++ tag (u64 (last_fence_value_ q + 1)) cmds.
Proof. unfold submitted. simpl. rewrite map_app, concat_app. simpl. by rewrite app_nil_r. Qed.

(** With two batches, the state is one of two mirror images. *)
Lemma two_batches b :
  length (batches b) = 2%nat -> (write_batch_index b < 2)%nat ->
  exists w e, WriteBatch b = w /\ batch_at b (swap_index (write_batch_index b)) = e /\
    ((write_batch_index b = 0%nat /\ batches b = [w; e]) \/
     (write_batch_index b = 1%nat /\ batches b = [e; w])).
Proof.
  destruct b as [ev [|x [|y [|]]] i ? ? ?]; simpl; try lia. intros _ Hi.
  destruct i as [|[|]]; [| |lia].
  - exists x, y. auto.
  - exists y, x. auto.
Qed.

Lemma in_flight_same s s' n :
  in_flight s n -> pc s' = pc s ->
  write_batch_index (batch_state_ s') = write_batch_index (batch_state_ s) ->
  exec_batch s' = exec_batch s -> status (batch_state_ s') = status (batch_state_ s) ->
  in_flight s' n.
Proof.
  intros Hf Ep Ew Ee Es.
  destruct Hf as [He Hp|i Hp Hw|i r t Hp Hw He|Hp Hst].
  - apply idle; congruence || by rewrite Ep.
  - eapply opening; [by rewrite Ep|by rewrite Ew].
  - eapply recording; [by rewrite Ep|by rewrite Ew|by rewrite Ee].
  - apply failed; [by rewrite Ep|by rewrite Es].
Qed.

(** The operations that leave the thread, the queue and the batches alone. *)
Lemma inv_same_batches s log b :
  inv s log ->
  next_flush_event b = next_flush_event (batch_state_ s) ->
  batches b = batches (batch_state_ s) ->
  write_batch_index b = write_batch_index (batch_state_ s) ->
  status b = status (batch_state_ s) ->
  inv (set_batch_state b s) log.
Proof.
  intros [Hl Hi Hlast Hv (n & Hf & Hn & Hlog)] En Eb Ei Est.
  assert (forall j, batch_at b j = batch_at (batch_state_ s) j) as Eat
    by (intros j; unfold batch_at; by rewrite Eb).
  assert (exec_batch (set_batch_state b s) = exec_batch s) as Eex
    by (unfold exec_batch; simpl; by rewrite Eat, Ei).
  split; simpl; [by rewrite Eb|by rewrite Ei|done|done|].
  exists n. split; [by eapply in_flight_same|].
  rewrite Eex. unfold WriteBatch. rewrite Eat, Ei, En. by split.
Qed.

Lemma inv_push s log cmd e s' :
  inv s log -> push_command cmd s = (e, s') -> inv s' (log ++ [(cmd, fence_value e)]).
Proof.
  intros [Hl Hi Hlast Hv (n & Hf & Hn & Hlog)] Hpush.
  unfold push_command in Hpush. injection Hpush as <- <-.
  destruct (two_batches _ Hl Hi) as (w & x & Ew & Ee & Hcase).
  set (b' := mk_BatchState _ _ _ _ _ _).
  assert (WriteBatch b' = w ++ [cmd] /\ exec_batch (set_batch_state b' s) = x /\
          length (batches b') = 2%nat) as (Ew' & Ee' & Hl').
  { subst b'. unfold WriteBatch, exec_batch, batch_at. simpl.
    destruct Hcase as [[-> ->]|[-> ->]]; done. }
  assert (exec_batch s = x) as Ex by exact Ee.
  split; simpl; [done|done|done|done|].
  exists n. split; [eapply in_flight_same; [done|done|done|congruence|done]|].
  split; [done|].
  rewrite Ew', Ee', Hlog, Hn, Ew, Ex, tag_app, <- !app_assoc. done.
Qed.

Lemma swap_swap i : (i < 2)%nat -> swap_index (swap_index i) = i /\ (swap_index i < 2)%nat.
Proof. destruct i as [|[|]]; cbv; lia. Qed.

(** The top of the thread's loop: starting a flush exchanges the batches. *)
Lemma inv_check s log elapsed_us :
  inv s log -> pc s = Top -> inv (thread_check elapsed_us s) log.
Proof.
  intros Hinv Hpc. pose proof Hinv as [Hl Hi Hlast Hv (n & Hf & Hn & Hlog)].
  assert (n = 0 /\ exec_batch s = []) as [-> Hex].
  { destruct Hf; [done|congruence|congruence|congruence]. }
  assert (forall p, p = Top \/ p = Waiting \/ p = Done -> inv (set_pc p s) log) as Hset.
  { intros p Hp. split; [done..|]. exists 0. split; [|done]. by apply idle. }
  unfold thread_check.
  destruct (exit_requested (batch_state_ s)); [by apply Hset; auto|].
  destruct (is_nil (WriteBatch (batch_state_ s))) eqn:Enil; [by apply Hset; auto|].
  destruct (_ || _).
  2:{ apply (inv_same_batches (set_pc Top s)); [by apply Hset; auto|done..]. }
  destruct (swap_swap _ Hi) as [Hss Hs2].
  set (b' := mk_BatchState (next_event _) _ _ _ _ _).
  assert (WriteBatch b' = []) as Hw by exact Hex.
  assert (exec_batch (set_pc (Opening (write_batch_index (batch_state_ s))) (set_batch_state b' s))
          = WriteBatch (batch_state_ s)) as He.
  { unfold exec_batch, WriteBatch, batch_at. simpl. by rewrite Hss. }
  split; simpl; [done|done|done|done|].
  exists 1. split; [by eapply opening; [done|simpl; by rewrite Hss]|].
  split.
  - unfold next_event. rewrite Hn. simpl. f_equal. rewrite u64_idemp_l. f_equal.
    unfold flushes. simpl. lia.
  - rewrite Hw, He, Hlog, Hex. simpl. rewrite app_nil_r. unfold flushes. simpl.
    by rewrite Z.add_0_r.
Qed.

(** Closing: the recorded batch is submitted, or the context has failed. *)
Lemma inv_close s log hr dml_removed d3d_removed i recorded s' :
  inv s log -> pc s = Recording i recorded [] ->
  thread_close hr dml_removed d3d_removed i recorded s = Ok s' -> inv s' log.
Proof.
  intros Hinv Hpc Hclose. unfold thread_close in Hclose. inv_ok;
    destruct Hinv as [Hl Hi Hlast Hv (n & Hf & Hn & Hlog)];
    (assert (n = 1 /\ i = swap_index (write_batch_index (batch_state_ s)) /\ exec_batch s = recorded)
       as (-> & -> & Hex);
     [destruct Hf as [? Hp|?|? r t Hp Hw He|?];
        [destruct Hp as [Hp|[Hp|Hp]]; congruence|congruence| |congruence];
      rewrite Hpc in Hp; simplify_eq; by rewrite app_nil_r in He|]).
  - clear E. split; simpl; [done|done|done|done|]. exists 1.
    split; [by apply failed; [|simpl; by apply negb_true_iff]|]. done.
  - destruct (swap_swap _ Hi) as [Hss Hs2].
    set (b := batch_state_ s) in *. set (b' := mk_BatchState _ _ _ _ _ _).
    set (s' := set_pc Top _).
    assert (swap_index (write_batch_index b) <> write_batch_index b) as Hne
      by (destruct (write_batch_index b) as [|[|]]; cbv; lia).
    assert (WriteBatch b' = WriteBatch b) as Hw.
    { unfold WriteBatch, batch_at. simpl. by rewrite list_lookup_insert_ne. }
    assert (exec_batch s' = []) as He.
    { unfold exec_batch, batch_at. simpl. fold b.
      by rewrite list_lookup_insert_eq by lia. }
    assert (flushes s' = flushes s + 1) as Hfl.
    { unfold flushes. simpl. rewrite length_app. simpl. lia. }
    split; simpl; [by rewrite length_insert|done| | |].
    + rewrite Hlast, u64_idemp_l. by rewrite <- Hfl.
    + intros k cmds v Hk. apply lookup_app_Some in Hk as [Hk|[Hle Hk]]; [by eapply Hv|].
      apply list_lookup_singleton_Some in Hk as [Hk [= <- <-]].
      rewrite Hlast, u64_idemp_l. unfold flushes. f_equal. lia.
    + exists 0. split; [by apply idle; [|by left]|]. rewrite Hw, He, Hfl.
      fold b in Hn, Hlog. rewrite Hn. split; [f_equal; f_equal; lia|].
      rewrite Hlog, Hex, submitted_app, Hlast, u64_idemp_l, <- app_assoc. simpl.
      do 2 f_equal. f_equal. f_equal. lia.
Qed.

Lemma inv_command_list s log c p :
  inv s log -> (forall n, in_flight s n -> in_flight (set_pc p (set_command_list c s)) n) ->
  inv (set_pc p (set_command_list c s)) log.
Proof.
  intros [Hl Hi Hlast Hv (n & Hf & Hn & Hlog)] Hp. split; [done..|]. exists n. auto.
Qed.

Lemma ctx_inv_step s log l s' : inv s log -> step s l s' -> inv s' (log ++ logged l).
Proof.
  intros Hinv Hstep. destruct Hstep; simpl; rewrite ?app_nil_r.
  - by eapply inv_push.
  - injection H as <- <-. by apply inv_same_batches.
  - by apply inv_same_batches.
  - by apply inv_check.
  - destruct Hinv as [Hl Hi Hlast Hv (n & Hf & Hn & Hlog)]. split; [done..|].
    exists n. split; [|done]. destruct Hf; [|congruence..]. apply idle; [done|by left].
  - unfold thread_open in *. inv_ok. apply inv_command_list; [done|].
    intros n Hf. destruct Hf as [? Hp|j Hp Hw|? ? ? Hp|Hp]; [destruct Hp as [Hp|[Hp|Hp]]; congruence| |congruence..].
    rewrite H in Hp. simplify_eq. eapply recording; [done|done|done].
  - unfold thread_record in *. inv_ok. apply inv_command_list; [done|].
    intros n Hf. destruct Hf as [? Hp|j Hp Hw|? ? ? Hp Hw He|Hp]; [destruct Hp as [Hp|[Hp|Hp]]; congruence|congruence| |congruence].
    rewrite H in Hp. simplify_eq. eapply recording; [done|done|].
    unfold exec_batch in *. simpl. by rewrite He, <- app_assoc.
  - by eapply inv_close.
Qed.

Lemma inv_initial f c fs ft : inv (make_context (make_queue f) c fs ft) [].
Proof.
  split; simpl; [done|lia|done|done|]. exists 0. split; [by apply idle; [|by left]|]. done.
Qed.

Lemma ctx_reach_inv s0 s log log0 : inv s0 log0 -> reach s0 s log -> inv s (log0 ++ log).
Proof.
  intros H0. induction 1 as [|s log l s' Hr IH Hs]; [by rewrite app_nil_r|].
  rewrite app_assoc. by eapply ctx_inv_step.
Qed.

Lemma step_flushes s l s' : step s l s' -> flushes s <= flushes s'.
Proof.
  unfold flushes.
  destruct 1; unfold push_command, Flush, thread_open, thread_record, thread_close in *;
    inv_ok; simplify_eq/=; rewrite ?length_app; simpl; try lia.
  unfold thread_check. repeat case_match; simpl; lia.
Qed.

Lemma reach_flushes s0 s log : reach s0 s log -> flushes s0 <= flushes s.
Proof. induction 1 as [|? ? ? ? ? ? Hs]; [lia|]. apply step_flushes in Hs. lia. Qed.

(** C2: In every interleaving of clients and the execution thread, commands are
    executed exactly once and in the order they were recorded: the log of
    recorded commands is what has been submitted to the queue, followed by the
    batch being flushed and the batch being written; the k-th submission
    signals k+1, and the event a client got for a submitted command is the one
    signaled right after the list that contains it. *)
Theorem commands_once_in_order f c fs ft s log :
  reach (make_context (make_queue f) c fs ft) s log ->
  exists rest, log = submitted (dml_command_queue_ s) ++ rest /\
    map fst rest = exec_batch s ++ WriteBatch (batch_state_ s) /\
    forall k cmds v, submissions (dml_command_queue_ s) !! k = Some (cmds, v) ->
      v = u64 (Z.of_nat k + 1).
Proof.
  intros Hr. apply (ctx_reach_inv _ _ _ []) in Hr; [|apply inv_initial].
  destruct Hr as [_ _ _ Hv (n & _ & _ & Hlog)].
  eexists. split; [exact Hlog|]. split; [|done].
  rewrite map_app. unfold tag. by rewrite !map_map, !map_id.
Qed.

(** Below the wrap-around of fence values, what each part of the log holds. *)
Lemma inv_bounds s log :
  inv s log -> flushes s + 2 < 2 ^ 64 ->
  exists n, 0 <= n <= 1 /\ (exec_batch s <> [] -> n = 1) /\
    last_fence_value_ (dml_command_queue_ s) = flushes s /\
    fence_value (next_flush_event (batch_state_ s)) = flushes s + n + 1 /\
    Forall (fun x => 0 <= snd x <= flushes s) (submitted (dml_command_queue_ s)) /\
    log = submitted (dml_command_queue_ s) ++ tag (flushes s + 1) (exec_batch s) ++
          tag (flushes s + n + 1) (WriteBatch (batch_state_ s)).
Proof.
  intros [_ _ Hlast Hv (n & Hf & Hn & Hlog)] Hb.
  assert (0 <= flushes s) by (unfold flushes; lia).
  assert (0 <= n <= 1 /\ (exec_batch s <> [] -> n = 1)) as [Hn1 Hn2] by (destruct Hf; split; done || lia).
  exists n. rewrite !u64_small in * by lia. rewrite Hn. split_and!; try done; try lia.
  apply Forall_concat, Forall_map, Forall_forall. intros [cmds v] Hin.
  apply list_elem_of_lookup in Hin as [k Hk].
  pose proof (lookup_lt_Some _ _ _ Hk). pose proof (Hv _ _ _ Hk) as ->.
  unfold flushes in *. rewrite u64_small by lia.
  apply Forall_map, Forall_forall. intros cmd _. simpl. lia.
Qed.

Lemma elem_of_tag x v l : x ∈ tag v l -> snd x = v /\ l <> [].
Proof. intros (c & -> & Hc)%list_elem_of_fmap. split; [done|]. intros ->. by apply elem_of_nil in Hc. Qed.

(** C3: Waiting on the completion event a client reads at some moment covers
    everything recorded before it: once the queue has signaled that value,
    every command in the log at the time of the read has been submitted (for
    fewer than 2^64 - 2 flushes). *)
Theorem completion_event_covers f c fs ft s log s' log' :
  reach (make_context (make_queue f) c fs ft) s log -> reach s s' log' ->
  flushes s' + 2 < 2 ^ 64 ->
  fence_value (GetCurrentCompletionEvent s) <= last_fence_value_ (dml_command_queue_ s') ->
  forall x, x ∈ log -> x ∈ submitted (dml_command_queue_ s').
Proof.
  intros Hr Hr' Hb He x Hx.
  assert (inv s log) as Hi by (apply (ctx_reach_inv _ _ _ [] (inv_initial _ _ _ _) Hr)).
  pose proof (ctx_reach_inv _ _ _ _ Hi Hr') as Hi'.
  pose proof (reach_flushes _ _ _ Hr') as Hmono.
  destruct (inv_bounds _ _ Hi) as (n & Hn & Hex & _ & Hnext & Hsub & Hlog); [lia|].
  destruct (inv_bounds _ _ Hi') as (n' & Hn' & _ & Hlast' & _ & _ & Hlog'); [lia|].
  assert (snd x <= fence_value (GetCurrentCompletionEvent s)) as Hle.
  { unfold GetCurrentCompletionEvent.
    assert (0 <= flushes s) by (unfold flushes; lia).
    rewrite Hlog in Hx. apply elem_of_app in Hx as [Hx|[Hx|Hx]%elem_of_app].
    - rewrite Forall_forall in Hsub. specialize (Hsub x Hx).
      destruct (is_nil _); simpl; rewrite Hnext, ?u64_small; lia.
    - apply elem_of_tag in Hx as [-> Hne]. specialize (Hex Hne).
      destruct (is_nil _); simpl; rewrite Hnext, ?u64_small; lia.
    - apply elem_of_tag in Hx as [-> Hne].
      destruct (WriteBatch (batch_state_ s)); [done|]. simpl. lia. }
  assert (x ∈ log ++ log') as Hx' by (apply elem_of_app; by left).
  rewrite Hlog' in Hx'. apply elem_of_app in Hx' as [Hx'|[Hx'|Hx']%elem_of_app]; [done|..];
    apply elem_of_tag in Hx' as [Hv _]; lia.
Qed.

(** ** Progress of a flush *)

(** A sequence of steps, with its labels. *)
Inductive run : context -> list label -> context -> Prop :=
  | run_nil s : run s [] s
  | run_cons s l s1 tr s' : step s l s1 -> run s1 tr s' -> run s (l :: tr) s'.

Lemma run_app s1 tr1 s2 tr2 s3 : run s1 tr1 s2 -> run s2 tr2 s3 -> run s1 (tr1 ++ tr2) s3.
Proof. induction 1 as [|s l s' tr s2 Hs Hr IH]; intros H; [done|]. econstructor; [done|auto]. Qed.

(** How many of the steps are the thread's, and how many record a command. *)
Definition is_thread (l : label) : nat := match l with LThread => 1 | _ => 0 end.
Definition is_command (l : label) : nat := match l with LCommand _ _ => 1 | _ => 0 end.
Definition threads (tr : list label) : nat := list_sum (map is_thread tr).
Definition commands (tr : list label) : nat := list_sum (map is_command tr).

(** How many steps the thread takes at most until it has submitted the batch
    being flushed and then the batch being written. *)
Definition steps_left (s : context) : nat :=
  let w := length (WriteBatch (batch_state_ s)) in
  match pc s with
  | Top => 3 + w
  | Waiting => 4 + w
  | Opening i => 5 + length (batch_at (batch_state_ s) i) + w
  | Recording _ _ todo => 4 + length todo + w
  | Done => 0
  end.

Definition busy (s : context) : Z :=
  match pc s with Opening _ | Recording _ _ _ => 1 | _ => 0 end.

(** [log] was recorded before the flush, which is over after [v] submissions:
    then the commands are submitted, unless closing the list failed. *)
Definition finished (log : list (Command * Z)) (v : Z) (s : context) : Prop :=
  status_ok (status (batch_state_ s)) = false \/
  (v <= flushes s /\ forall x, x ∈ log -> x ∈ submitted (dml_command_queue_ s)).

(** The batch is swapped in and on its way: the thread needs [m] more steps. *)
Record taken (log : list (Command * Z)) (v : Z) (s : context) (m : nat) : Prop := {
  taken_value : v <= flushes s + 1;
  taken_log : forall x, x ∈ log ->
    x ∈ submitted (dml_command_queue_ s) ++ tag (u64 (flushes s + 1)) (exec_batch s);
  taken_steps : match pc s with
    | Opening i => m = (2 + length (batch_at (batch_state_ s) i))%nat
    | Recording _ _ todo => m = S (length todo)
    | _ => False
    end }.

(** The flush is requested and the thread has not seen it. *)
Record requested (v : Z) (s : context) (m : nat) : Prop := {
  requested_flag : flush_requested (batch_state_ s) = true;
  requested_work : WriteBatch (batch_state_ s) <> [];
  requested_thread : pc s <> Done;
  requested_value : v <= flushes s + busy s + 1;
  requested_steps : m = steps_left s }.

Definition pending (log : list (Command * Z)) (v : Z) (s : context) (m : nat) : Prop :=
  exit_requested (batch_state_ s) = false /\ (taken log v s m \/ requested v s m).

Lemma finished_step log v s l s' : finished log v s -> step s l s' -> finished log v s'.
Proof.
  intros Hf Hs. pose proof (step_flushes _ _ _ Hs) as Hfl.
  destruct Hf as [Hst|[Hv Hx]]; [left|].
  - destruct Hs; unfold push_command, Flush, thread_open, thread_record, thread_close in *;
      inv_ok; simplify_eq/=; try done; [unfold thread_check; by repeat case_match|].
    by apply negb_true_iff.
  - right. split; [lia|]. intros x Hin. specialize (Hx x Hin).
    destruct Hs; unfold push_command, Flush, thread_open, thread_record, thread_close in *;
      inv_ok; simplify_eq/=; try done; [unfold thread_check; by repeat case_match|].
    change (x ∈ submitted (ExecuteCommandLists recorded (dml_command_queue_ s))).
    rewrite submitted_app. apply elem_of_app. by left.
Qed.

(** What the thread is doing decides how many flushes are in flight. *)
Lemma in_flight_busy s n : in_flight s n -> pc s <> Done -> n = busy s.
Proof. unfold busy. destruct 1 as [? [H|[H|H]]|? H|? ? ? H|H]; rewrite ?H; done. Qed.

Lemma WriteBatch_push s cmd log :
  inv s log ->
  let s' := snd (push_command cmd s) in
  WriteBatch (batch_state_ s') = WriteBatch (batch_state_ s) ++ [cmd] /\
  exec_batch s' = exec_batch s /\
  forall i, i = swap_index (write_batch_index (batch_state_ s)) ->
    batch_at (batch_state_ s') i = batch_at (batch_state_ s) i.
Proof.
  intros [Hl Hi _ _ _]. destruct (two_batches _ Hl Hi) as (w & x & Ew & Ee & Hcase).
  cbn zeta. unfold exec_batch, WriteBatch, batch_at in *. simpl.
  destruct Hcase as [[-> ->]|[-> ->]]; split_and!; try done; by intros ? ->.
Qed.

Lemma inv_busy s log :
  inv s log -> pc s <> Done ->
  log = submitted (dml_command_queue_ s) ++ tag (u64 (flushes s + 1)) (exec_batch s) ++
        tag (u64 (flushes s + busy s + 1)) (WriteBatch (batch_state_ s)) /\
  fence_value (next_flush_event (batch_state_ s)) = u64 (flushes s + busy s + 1) /\
  match pc s with
  | Opening i => i = swap_index (write_batch_index (batch_state_ s))
  | Recording i recorded todo =>
      i = swap_index (write_batch_index (batch_state_ s)) /\ exec_batch s = recorded ++ todo
  | _ => exec_batch s = []
  end.
Proof.
  intros [_ _ _ _ (n & Hf & Hn & Hlog)] Hpc.
  pose proof (in_flight_busy _ _ Hf Hpc) as ->. rewrite Hn. split; [done|]. split; [done|].
  destruct Hf as [He Hp|i Hp Hw|i r t Hp Hw He|Hp _]; [|by rewrite Hp..|done].
  by destruct Hp as [Hp|[Hp|Hp]]; rewrite Hp.
Qed.

(** The clients' steps: a command recorded meanwhile may cost one more step. *)
Lemma pending_command log v s m full cmd :
  inv s full -> pending log v s m ->
  exists m', pending log v (snd (push_command cmd s)) m' /\ (m' <= m + 1)%nat.
Proof.
  intros Hi [Hexit Hp]. destruct (WriteBatch_push s cmd full Hi) as (Ew & Ee & Eb).
  destruct Hp as [[Hv Hl Hm]|[Hf Hw Hpc Hv Hm]].
  - assert (pc s <> Done) as Hpc by by destruct (pc s).
    destruct (inv_busy _ _ Hi Hpc) as (_ & _ & Hb).
    exists m. split; [|lia]. split; [done|left]. split; [done|by rewrite Ee|].
    change (pc (snd (push_command cmd s))) with (pc s).
    destruct (pc s); try done. by rewrite Eb.
  - destruct (inv_busy _ _ Hi Hpc) as (_ & _ & Hb).
    exists (steps_left (snd (push_command cmd s))). split.
    + split; [done|right]. split; try done. rewrite Ew. by destruct (WriteBatch _).
    + subst m. unfold steps_left. rewrite Ew, length_app.
      change (pc (snd (push_command cmd s))) with (pc s). simpl length.
      destruct (pc s); try rewrite Eb by done; lia.
Qed.

Lemma pending_same log v s m b :
  pending log v s m ->
  batches b = batches (batch_state_ s) ->
  write_batch_index b = write_batch_index (batch_state_ s) ->
  exit_requested b = false -> (flush_requested (batch_state_ s) = true -> flush_requested b = true) ->
  pending log v (set_batch_state b s) m.
Proof.
  intros [Hexit Hp] Eb Ei Ex Hfl.
  assert (forall j, batch_at b j = batch_at (batch_state_ s) j) as Eat
    by (intros j; unfold batch_at; by rewrite Eb).
  split; [done|]. destruct Hp as [[Hv Hl Hm]|[Hf Hw Hpc Hv Hm]]; [left|right]; split; try done.
  - unfold exec_batch. simpl. by rewrite Eat, Ei.
  - simpl. destruct (pc s); try done. by rewrite Eat.
  - by apply Hfl.
  - unfold WriteBatch. simpl. by rewrite Eat, Ei.
  - subst m. unfold steps_left, WriteBatch. simpl. rewrite Ei, !Eat. by destruct (pc s); rewrite ?Eat.
Qed.

(** The thread sees the request, whatever time has elapsed. *)
Lemma pending_check log v s m full elapsed_us :
  inv s full -> (forall x, x ∈ log -> x ∈ full) -> pc s = Top -> pending log v s m ->
  exists m', pending log v (thread_check elapsed_us s) m' /\ (S m' <= m)%nat.
Proof.
  intros Hi Hfull Hpc [Hexit [[_ _ Hm]|[Hf Hw _ Hv Hm]]]; [by rewrite Hpc in Hm|].
  destruct (inv_busy _ _ Hi) as (Hlog & _ & Hex); [by rewrite Hpc|]. rewrite Hpc in Hex.
  unfold busy in Hv, Hlog. rewrite Hpc in Hv, Hlog.
  exists (2 + length (WriteBatch (batch_state_ s)))%nat. split.
  2:{ subst m. unfold steps_left. rewrite Hpc. lia. }
  unfold thread_check. rewrite Hexit, Hf.
  replace (is_nil (WriteBatch (batch_state_ s))) with false by by destruct (WriteBatch _).
  simpl. destruct Hi as [_ Hlt _ _ _]. destruct (swap_swap _ Hlt) as [Hss _].
  split; [done|left]. split; [unfold flushes in *; simpl; lia| |done].
  intros x Hx. apply Hfull in Hx. rewrite Hlog, Hex in Hx. simpl in Hx.
  unfold exec_batch, flushes, batch_at in *. simpl. rewrite Hss.
  by rewrite Z.add_0_r in Hx.
Qed.

Lemma pending_wake log v s m :
  pc s = Waiting -> pending log v s m ->
  exists m', pending log v (set_pc Top s) m' /\ (S m' <= m)%nat.
Proof.
  intros Hpc [Hexit [[_ _ Hm]|[Hf Hw _ Hv Hm]]]; [by rewrite Hpc in Hm|].
  exists (steps_left (set_pc Top s)). split.
  - split; [done|right]. split; try done. unfold busy, flushes in *. simpl. by rewrite Hpc in Hv.
  - subst m. unfold steps_left. rewrite Hpc. simpl. lia.
Qed.

(** Opening the list and recording a command each take one step off. *)
Lemma pending_recording log v s m c i recorded todo :
  match pc s with
  | Opening j => todo = batch_at (batch_state_ s) j
  | Recording _ _ (_ :: todo') => todo = todo'
  | _ => False
  end ->
  pending log v s m ->
  exists m', pending log v (set_pc (Recording i recorded todo) (set_command_list c s)) m' /\
             (S m' <= m)%nat.
Proof.
  intros Hpc [Hexit [[Hv Hl Hm]|[Hf Hw _ Hv Hm]]].
  - exists (S (length todo)). split; [split; [done|by left]|].
    destruct (pc s) as [| | |? ? [|]|]; subst; simpl; lia || done.
  - exists (4 + length todo + length (WriteBatch (batch_state_ s)))%nat. split.
    + split; [done|right]. split; try done.
      unfold busy, flushes in *. simpl. by destruct (pc s).
    + subst m. unfold steps_left.
      destruct (pc s) as [| | |? ? [|]|]; subst; simpl; lia || done.
Qed.

(** Submitting the batch finishes the flush that took it; a flush requested
    since then is still to come. *)
Lemma pending_close log v s m full hr dml_removed d3d_removed i recorded s' :
  inv s full -> pc s = Recording i recorded [] ->
  thread_close hr dml_removed d3d_removed i recorded s = Ok s' -> pending log v s m ->
  finished log v s' \/ exists m', pending log v s' m' /\ (S m' <= m)%nat.
Proof.
  intros Hi Hpc Hclose Hp.
  destruct (inv_busy _ _ Hi) as (_ & _ & Hex); [by rewrite Hpc|]. rewrite Hpc, app_nil_r in Hex.
  destruct Hex as [-> Hex].
  assert (last_fence_value_ (dml_command_queue_ s) = u64 (flushes s)) as Hlast by apply Hi.
  pose proof (inv_index _ _ Hi) as Hlt.
  unfold thread_close in Hclose. inv_ok; [left; left; by apply negb_true_iff|].
  destruct Hp as [Hexit [[Hv Hl Hm]|[Hf Hw _ Hv Hm]]]; [left; right|right].
  - split; [unfold flushes in *; simpl; rewrite length_app; simpl; lia|].
    intros x Hx. change (x ∈ submitted (ExecuteCommandLists (exec_batch s) (dml_command_queue_ s))).
    rewrite submitted_app, Hlast, u64_idemp_l. by apply Hl.
  - assert (swap_index (write_batch_index (batch_state_ s)) <> write_batch_index (batch_state_ s))
      as Hne by (destruct (write_batch_index _) as [|[|]]; cbv; lia).
    set (s' := set_pc Top _).
    assert (WriteBatch (batch_state_ s') = WriteBatch (batch_state_ s)) as Ew
      by (unfold WriteBatch, batch_at; simpl; by rewrite list_lookup_insert_ne).
    exists (steps_left s'). split.
    + split; [done|right]. split; try done; [by rewrite Ew|].
      unfold busy, flushes in *. rewrite Hpc in Hv. simpl. rewrite length_app. simpl. lia.
    + subst m. unfold steps_left. rewrite Ew, Hpc. simpl. lia.
Qed.

Lemma pending_step log v s m full l s' :
  inv s full -> (forall x, x ∈ log -> x ∈ full) -> l <> LExit ->
  pending log v s m -> step s l s' ->
  finished log v s' \/
  exists m', pending log v s' m' /\ (m' + is_thread l <= m + is_command l)%nat.
Proof.
  intros Hi Hfull Hl Hp Hs.
  destruct Hs as [s cmd e s' H|s e s' H|s|s elapsed_us H|s H|s gcv ha hl i s' H H0
                 |s gcv dev i recorded cmd todo s' H H0|s hr dr d3 i recorded s' H H0]; simpl.
  - destruct (pending_command log v s m full cmd Hi Hp) as (m' & Hm' & Hle).
    right. exists m'. replace s' with (snd (push_command cmd s)) by by rewrite H. split; [done|lia].
  - right. exists m. split; [|lia]. injection H as _ <-. by apply pending_same; [|..|apply Hp|].
  - done.
  - right. destruct (pending_check log v s m full elapsed_us Hi Hfull H Hp) as (m' & ? & ?).
    exists m'. split; [done|lia].
  - right. destruct (pending_wake log v s m H Hp) as (m' & ? & ?). exists m'. split; [done|lia].
  - right. unfold thread_open in H0. inv_ok.
    destruct (pending_recording log v s m a i [] (batch_at (batch_state_ s) i)) as (m' & ? & ?);
      [by rewrite H|done|]. exists m'. split; [done|lia].
  - right. unfold thread_record in H0. inv_ok.
    destruct (pending_recording log v s m a i (recorded ++ [cmd]) todo) as (m' & ? & ?);
      [by rewrite H|done|]. exists m'. split; [done|lia].
  - destruct (pending_close log v s m full hr dr d3 i recorded s' Hi H H0 Hp)
      as [?|(m' & ? & ?)]; [by left|right]. exists m'. split; [done|lia].
Qed.

Lemma finished_run log v s tr s' : run s tr s' -> finished log v s -> finished log v s'.
Proof. induction 1; eauto using finished_step. Qed.

Lemma pending_run log v s m full tr s' :
  run s tr s' -> inv s full -> (forall x, x ∈ log -> x ∈ full) -> LExit ∉ tr ->
  pending log v s m ->
  finished log v s' \/
  exists m', pending log v s' m' /\ (m' + threads tr <= m + commands tr)%nat.
Proof.
  intros Hr. revert m full. induction Hr as [s|s l s1 tr s' Hs Hr IH]; intros m full Hi Hfull Hx Hp.
  { right. exists m. split; [done|]. unfold threads, commands. simpl. lia. }
  apply not_elem_of_cons in Hx as [Hl Hx].
  destruct (pending_step _ _ _ _ _ _ _ Hi Hfull (not_eq_sym Hl) Hp Hs) as [Hf|(m1 & Hp1 & Hle)].
  { left. by eapply finished_run. }
  destruct (IH m1 (full ++ logged l)) as [Hf|(m2 & Hp2 & Hle2)]; try done.
  - by eapply ctx_inv_step.
  - intros x ?. apply elem_of_app. left. auto.
  - by left.
  - right. exists m2. split; [done|]. unfold threads, commands in *. simpl. lia.
Qed.

Lemma pending_positive log v s m : pending log v s m -> (1 <= m)%nat.
Proof.
  intros [_ [[_ _ Hm]|[_ _ Hpc _ ->]]]; [|unfold steps_left]; destruct (pc s); done || lia.
Qed.

Lemma inv_Flush s log : inv s log -> inv (snd (Flush s)) log.
Proof. intros Hi. by apply inv_same_batches. Qed.

Lemma run_inv s tr s' log : run s tr s' -> inv s log -> exists log', inv s' log'.
Proof. intros Hr. revert log. induction Hr; eauto using ctx_inv_step. Qed.

(** The moment [Flush] returns. *)
Lemma Flush_pending s log :
  inv s log -> exit_requested (batch_state_ s) = false -> pc s <> Done ->
  exists v, fence_value (fst (Flush s)) = u64 v /\ 0 <= v /\
    (finished log v (snd (Flush s)) \/
     exists m, pending log v (snd (Flush s)) m /\ (m <= steps_left s)%nat).
Proof.
  intros Hi Hexit Hpc. destruct (inv_busy _ _ Hi Hpc) as (Hlog & Hn & Hb).
  assert (0 <= busy s /\ 0 <= flushes s) as [H0 H1]
    by (unfold busy, flushes; destruct (pc s); lia).
  destruct (decide (WriteBatch (batch_state_ s) = [])) as [Hw|Hw].
  - exists (flushes s + busy s). unfold Flush. rewrite Hw. simpl. rewrite Hn.
    split; [unfold u64; rewrite Zminus_mod_idemp_l; f_equal; lia|]. split; [lia|].
    rewrite Hw in Hlog. simpl in Hlog. rewrite app_nil_r in Hlog.
    assert (pc s = Top \/ pc s = Waiting \/ exists m,
      pending log (flushes s + busy s) (snd (Flush s)) m /\ (m <= steps_left s)%nat) as [H|[H|H]].
    { unfold steps_left. destruct (pc s) as [| |i|i r t|] eqn:E; auto; [right; right..|done].
      - exists (2 + length (batch_at (batch_state_ s) i))%nat. split; [|lia].
        split; [done|left]. split; [unfold flushes, busy; rewrite E; simpl; lia|by subst|].
        change (pc (snd (Flush s))) with (pc s). by rewrite E.
      - exists (S (length t)). split; [|lia].
        split; [done|left]. split; [unfold flushes, busy; rewrite E; simpl; lia|by subst|].
        change (pc (snd (Flush s))) with (pc s). by rewrite E. }
    3:{ right. destruct H as (m & Hm & Hle). exists m. split; [|done]. unfold Flush in Hm. done. }
    all: left; right; unfold busy; rewrite H in *; rewrite Hb in Hlog; simpl in Hlog;
      rewrite app_nil_r in Hlog; subst log; split; [unfold flushes; simpl; lia|done].
  - exists (flushes s + busy s + 1). unfold Flush.
    replace (is_nil (WriteBatch (batch_state_ s))) with false by by destruct (WriteBatch _).
    split; [done|]. split; [lia|]. right. exists (steps_left s). split; [|done].
    split; [done|right]. split; try done; unfold busy, flushes; simpl; lia.
Qed.

(** Recording a batch of commands into an open command list. *)
Fixpoint record_all (gcv : Z -> Z) (dev : descriptor_device) (l : list Command)
    (c : DmlCommandList) : result DmlCommandList :=
  match l with
  | [] => mret c
  | cmd :: l => c ← run_command gcv dev cmd c; record_all gcv dev l c
  end.

Lemma thread_records gcv dev i recorded todo c s :
  pc s = Recording i recorded todo ->
  record_all gcv dev todo (dml_command_list_ s) = Ok c ->
  run s (repeat LThread (length todo))
    (set_pc (Recording i (recorded ++ todo) []) (set_command_list c s)).
Proof.
  revert s recorded. induction todo as [|cmd todo IH]; intros s recorded Hpc Hr; simpl in Hr.
  - inv_ok. rewrite app_nil_r. destruct s; simpl in *; subst. apply run_nil.
  - inv_ok. simpl. eapply run_cons.
    { eapply step_record; [exact Hpc|]. unfold thread_record. rewrite E. reflexivity. }
    replace (recorded ++ cmd :: todo) with ((recorded ++ [cmd]) ++ todo) by by rewrite <- app_assoc.
    eapply (IH (set_pc (Recording i (recorded ++ [cmd]) todo) (set_command_list a s))
              (recorded ++ [cmd])); done.
Qed.

(** Where recording and closing the batch succeed, the thread can take its
    steps: none of them waits for a client. *)
Lemma Flush_runs s log gcv dev c1 c2 c3 :
  inv s log -> pc s = Top -> exit_requested (batch_state_ s) = false ->
  WriteBatch (batch_state_ s) <> [] ->
  Open gcv (GetNextCompletionEvent (dml_command_queue_ s)) 0 0 (dml_command_list_ s) = Ok c1 ->
  record_all gcv dev (WriteBatch (batch_state_ s)) c1 = Ok c2 ->
  Close 0 0 0 c2 = Ok (Status_OK, c3) ->
  exists s', run (snd (Flush s)) (repeat LThread (steps_left s)) s' /\ pc s' = Top /\
    WriteBatch (batch_state_ s') = [] /\
    submissions (dml_command_queue_ s') =
      submissions (dml_command_queue_ s) ++
        [(WriteBatch (batch_state_ s), fence_value (fst (Flush s)))].
Proof.
  intros Hinv Hpc Hexit Hne Hopen Hrec Hclose.
  destruct (inv_busy _ _ Hinv) as (_ & Hn & Hex); [by rewrite Hpc|]. rewrite Hpc in Hex.
  unfold busy in Hn. rewrite Hpc in Hn. destruct Hinv as [Hl Hi Hlast _ _].
  assert (is_nil (WriteBatch (batch_state_ s)) = false) as Hnil
    by by destruct (WriteBatch (batch_state_ s)).
  set (s0 := snd (Flush s)). set (i := write_batch_index (batch_state_ s)).
  assert (thread_check 0 s0 = set_pc (Opening i) (set_batch_state
    (mk_BatchState (next_event (next_flush_event (batch_state_ s))) (batches (batch_state_ s))
       (swap_index i) false false (status (batch_state_ s))) s0)) as Hcheck.
  { unfold thread_check. simpl.
    change (WriteBatch (mk_BatchState _ _ _ _ _ _)) with (WriteBatch (batch_state_ s)).
    by rewrite Hexit, Hnil. }
  set (s1 := thread_check 0 s0) in *.
  set (s2 := set_pc (Recording i [] (WriteBatch (batch_state_ s))) (set_command_list c1 s1)).
  set (s3 := set_pc (Recording i (WriteBatch (batch_state_ s)) []) (set_command_list c2 s2)).
  assert (exists s4, thread_close 0 0 0 i (WriteBatch (batch_state_ s)) s3 = Ok s4 /\
    pc s4 = Top /\ WriteBatch (batch_state_ s4) = [] /\
    submissions (dml_command_queue_ s4) = submissions (dml_command_queue_ s) ++
        [(WriteBatch (batch_state_ s), fence_value (fst (Flush s)))]) as (s4 & E4 & Hs4).
  { unfold thread_close. change (dml_command_list_ s3) with c2. rewrite Hclose. simpl.
    eexists. split; [reflexivity|]. rewrite Hcheck. simpl. split; [done|]. split.
    - unfold WriteBatch, batch_at. simpl. rewrite list_lookup_insert_ne; [exact Hex|].
      unfold i. destruct (write_batch_index (batch_state_ s)) as [|[|]]; cbv; lia.
    - rewrite Hnil, Hn, Hlast. simpl. by rewrite u64_idemp_l, Z.add_0_r. }
  exists s4. split; [|exact Hs4]. unfold steps_left. rewrite Hpc.
  replace (3 + length (WriteBatch (batch_state_ s)))%nat
    with (2 + (length (WriteBatch (batch_state_ s)) + 1))%nat by lia.
  rewrite !repeat_app. apply (run_cons _ _ s1); [exact (step_check s0 0 Hpc)|].
  apply (run_cons _ _ s2).
  { apply step_open with gcv 0 0 i; [by rewrite Hcheck|].
    unfold thread_open. rewrite Hcheck.
    change (dml_command_list_ (set_pc _ (set_batch_state _ s0))) with (dml_command_list_ s).
    change (dml_command_queue_ (set_pc _ (set_batch_state _ s0))) with (dml_command_queue_ s).
    rewrite Hopen. unfold s2. rewrite Hcheck. unfold batch_at. simpl. done. }
  apply run_app with s3; [by apply (thread_records gcv dev i [] (WriteBatch (batch_state_ s)) c2)|].
  eapply run_cons; [|apply run_nil]. by apply (step_close _ 0 0 0 i (WriteBatch (batch_state_ s))).
Qed.

(** C27: A requested flush completes in a bounded number of the thread's steps.
    Take a reachable context whose destructor has not run and whose thread has
    not stopped, wherever the thread is, and call [Flush].  In every
    continuation in which the destructor does not run, with any commands and
    flushes of clients interleaved, and whatever time elapses between the
    thread's checks: once the thread has taken [steps_left s] steps (the
    commands of both batches and at most five more), and one more for each
    command recorded since, every command recorded before the flush has been
    submitted, and the queue has been given the value of the event that [Flush]
    returned to signal after it (for fewer than 2^64 - 2 flushes), unless
    closing a command list failed and its status was recorded.  Such runs exist: at the top of its loop with a batch to flush,
    when the driver records and closes the list, that many steps of the thread
    alone submit exactly the batch, with the value [Flush] returned. *)
Theorem Flush_completes f c0 fs ft s log :
  reach (make_context (make_queue f) c0 fs ft) s log ->
  exit_requested (batch_state_ s) = false -> pc s <> Done ->
  (forall tr s', run (snd (Flush s)) tr s' -> LExit ∉ tr ->
     (steps_left s + commands tr <= threads tr)%nat ->
     status_ok (status (batch_state_ s')) = false \/
     (forall x, x ∈ log -> x ∈ submitted (dml_command_queue_ s')) /\
     (flushes s' + 2 < 2 ^ 64 ->
      fence_value (fst (Flush s)) <= last_fence_value_ (dml_command_queue_ s'))) /\
  (forall gcv dev c1 c2 c3, pc s = Top -> WriteBatch (batch_state_ s) <> [] ->
     Open gcv (GetNextCompletionEvent (dml_command_queue_ s)) 0 0 (dml_command_list_ s) = Ok c1 ->
     record_all gcv dev (WriteBatch (batch_state_ s)) c1 = Ok c2 ->
     Close 0 0 0 c2 = Ok (Status_OK, c3) ->
     exists s', run (snd (Flush s)) (repeat LThread (steps_left s)) s' /\ pc s' = Top /\
       WriteBatch (batch_state_ s') = [] /\
       submissions (dml_command_queue_ s') =
         submissions (dml_command_queue_ s) ++
           [(WriteBatch (batch_state_ s), fence_value (fst (Flush s)))]).
Proof.
  intros Hr Hexit Hpc. apply (ctx_reach_inv _ _ _ [] (inv_initial _ _ _ _)) in Hr. simpl in Hr.
  split; [|intros; by eapply Flush_runs].
  intros tr s' Hrun Hx Hle.
  destruct (Flush_pending s log Hr Hexit Hpc) as (v & Hv & Hv0 & Hm).
  assert (finished log v s') as [Hst|[Hvs Hsub]]; [|by left|right; split; [done|]].
  - destruct Hm as [Hf|(m & Hp & Hms)]; [by eapply finished_run|].
    destruct (pending_run _ _ _ _ log _ _ Hrun (inv_Flush _ _ Hr) (fun _ H => H) Hx Hp)
      as [?|(m' & Hp' & ?)]; [done|].
    apply pending_positive in Hp'. lia.
  - intros Hb. rewrite Hv.
    assert (exists log', inv s' log') as [log' Hi']
      by (eapply run_inv; [exact Hrun|by apply inv_Flush]).
    rewrite (inv_last _ _ Hi'), !u64_small; lia.
Qed.

(** A flush of an empty context is remembered, although the header calls it
    a no-op: the next command recorded, alone, is flushed at once, where
    without the flush the thread would have kept batching. *)
Lemma Flush_empty_remembered s cmd :
  pc s = Top -> exit_requested (batch_state_ s) = false ->
  flush_requested (batch_state_ s) = false -> WriteBatch (batch_state_ s) = [] ->
  (write_batch_index (batch_state_ s) < length (batches (batch_state_ s)))%nat ->
  1 < batch_flush_size s -> 0 < batch_flush_time_us s ->
  pc (thread_check 0 (snd (push_command cmd (snd (Flush s))))) =
    Opening (write_batch_index (batch_state_ s)) /\
  pc (thread_check 0 (snd (push_command cmd s))) = Top.
Proof.
  intros Hpc Hexit Hfl Hw Hlt Hsize Htime.
  assert (forall fr, WriteBatch (mk_BatchState (next_flush_event (batch_state_ s))
      (alter (fun l => l ++ [cmd]) (write_batch_index (batch_state_ s)) (batches (batch_state_ s)))
      (write_batch_index (batch_state_ s)) (exit_requested (batch_state_ s)) fr
      (status (batch_state_ s))) = [cmd]) as Hw'.
  { intros fr. unfold WriteBatch, batch_at in *. simpl. rewrite list_lookup_alter_eq.
    apply lookup_lt_is_Some_2 in Hlt as [l Hl]. rewrite Hl in *. simpl in *. by rewrite Hw. }
  unfold thread_check. simpl. rewrite !Hw', !Hexit, Hfl. simpl.
  split; [done|].
  destruct (Z.leb_spec (batch_flush_size s) (Z.of_nat 1)); [lia|].
  destruct (Z.leb_spec (batch_flush_time_us s) 0); [lia|]. done.
Qed.

(** ** Examples *)

Definition example_context : context := make_context (make_queue 1) example_list (Some 1) None.

Definition example_cmd : Command := CmdExecuteOperator 21 22 23.

Definition example_pushed : context := snd (push_command example_cmd example_context).

Lemma example_pushed_reach : reach example_context example_pushed [(example_cmd, 1)].
Proof.
  eapply (reach_step _ _ [] (LCommand example_cmd (mk_event 1 1))); [apply reach_refl|].
  by apply step_command.
Qed.

Definition example_opened : context := thread_check 0 example_pushed.

Lemma example_opened_reach : reach example_pushed example_opened [].
Proof. by eapply (reach_step _ _ [] LThread); [apply reach_refl|apply step_check]. Qed.

Lemma commands_once_in_order_witness :
  exists rest, [(example_cmd, 1)] = submitted (dml_command_queue_ example_pushed) ++ rest /\
    map fst rest = [example_cmd].
Proof.
  destruct (commands_once_in_order 1 example_list (Some 1) None example_pushed _ example_pushed_reach)
    as (rest & E & Hm & _).
  exists rest. split; [exact E|]. rewrite Hm. reflexivity.
Defined.

(** The state after the batch is recorded, closed and submitted. *)
Definition example_flushed : result context :=
  s ← thread_open (fun _ => 0) 0 0 0 example_opened;
  s ← thread_record (fun _ => 0) example_device 0 [] example_cmd [] s;
  thread_close 0 0 0 0 [example_cmd] s.

Lemma example_flushed_reach s : example_flushed = Ok s -> reach example_pushed s [].
Proof.
  intros H. unfold example_flushed in H.
  destruct (thread_open _ 0 0 0 example_opened) as [s1|] eqn:E1; [|done]. cbn [mbind result_bind] in H.
  destruct (thread_record _ _ 0 [] example_cmd [] s1) as [s2|] eqn:E2; [|done]. cbn [mbind result_bind] in H.
  eapply (reach_step _ _ [] LThread); [|eapply (step_close s2 0 0 0 0%nat [example_cmd]); [|exact H]].
  - eapply (reach_step _ _ [] LThread); [|eapply (step_record s1); [|exact E2]].
    + eapply (reach_step _ _ [] LThread); [apply example_opened_reach|].
      eapply (step_open _ _ _ _ 0%nat); [reflexivity|exact E1].
    + vm_compute in E1. by injection E1 as <-.
  - vm_compute in E1. injection E1 as <-. vm_compute in E2. by injection E2 as <-.
Qed.

Lemma completion_event_covers_witness :
  exists s', example_flushed = Ok s' /\ (example_cmd, 1) ∈ submitted (dml_command_queue_ s').
Proof.
  destruct example_flushed as [s'|] eqn:E; [|vm_compute in E; discriminate E].
  exists s'. split; [reflexivity|].
  apply (completion_event_covers 1 example_list (Some 1) None example_pushed [(example_cmd, 1)] s' []
           example_pushed_reach (example_flushed_reach s' E)).
  - vm_compute in E. injection E as <-. vm_compute. reflexivity.
  - vm_compute in E. injection E as <-. vm_compute. discriminate.
  - by left.
Defined.

Lemma Flush_empty_remembered_witness :
  pc (thread_check 0 (snd (push_command example_cmd
       (snd (Flush (make_context (make_queue 1) example_list None None)))))) = Opening 0.
Proof.
  refine (proj1 (Flush_empty_remembered (make_context (make_queue 1) example_list None None) example_cmd
            _ _ _ _ _ _ _)); try reflexivity. simpl. lia.
Defined.

Lemma Flush_completes_witness :
  exists s', run (snd (Flush example_pushed)) (repeat LThread 4) s' /\
    submissions (dml_command_queue_ s') = [([example_cmd], 1)] /\
    (status_ok (status (batch_state_ s')) = false \/
     (example_cmd, 1) ∈ submitted (dml_command_queue_ s')).
Proof.
  destruct (Open (fun _ => 0) (GetNextCompletionEvent (dml_command_queue_ example_pushed)) 0 0
              (dml_command_list_ example_pushed)) as [c1|] eqn:E1; [|vm_compute in E1; discriminate E1].
  destruct (record_all (fun _ => 0) example_device (WriteBatch (batch_state_ example_pushed)) c1)
    as [c2|] eqn:E2; [|vm_compute in E1; injection E1 as <-; vm_compute in E2; discriminate E2].
  destruct (Close 0 0 0 c2) as [[st c3]|] eqn:E3;
    [|vm_compute in E1; injection E1 as <-; vm_compute in E2; injection E2 as <-;
      vm_compute in E3; discriminate E3].
  assert (st = Status_OK) as -> by (unfold Close in E3; simpl in E3; by injection E3 as <- _).
  destruct (Flush_completes 1 example_list (Some 1) None example_pushed _ example_pushed_reach
              eq_refl ltac:(discriminate)) as [Hall Hex].
  destruct (Hex (fun _ => 0) example_device c1 c2 c3 eq_refl ltac:(discriminate) E1 E2 E3)
    as (s' & Hs & _ & _ & Hsub).
  exists s'. split; [exact Hs|]. split; [rewrite Hsub; reflexivity|].
  destruct (Hall _ s' Hs) as [?|[Hx _]]; [|cbv; lia|by left|right; apply Hx; by left].
  simpl. rewrite !not_elem_of_cons. split_and!; try discriminate. apply not_elem_of_nil.
Defined.
