(* ===== verification/EventQueue.v ===== *)
(** * The event queue

    [DmlEventQueue] (core/dml_event_queue.{h,cc}): CPU callbacks fired when the
    GPU events they are queued on become signaled.  The state shared with the
    background thread, [Enqueue], the passes of [ThreadProc] under the mutex,
    and the interleavings of clients, thread and GPU.  A callback is an
    element of an abstract type; firing one appends it to [fired]. *)

From S2P Require Import Prelude Gpu.

Section event_queue.
Context {callback : Type}.

(** Where the background thread is: at the top of its loop, waiting on
    [new_event_enqueued], waiting for the fence value given, or gone. *)
Inductive thread_pc := Top | Waiting | AwaitFence (next_fence_value : Z) | Done.

Record SharedState := mk_SharedState {
  fence_ : Z;
  events_by_fence_value : list (Z * callback);   (* the multimap, in key order *)
  current_awaited_fence_value : Z;
  exit_requested : bool;
  (* the environment: the fence's completed value, the callbacks invoked *)
  completed : Z;
  fired : list (Z * callback);
  pc : thread_pc }.

Definition make_SharedState (f completed0 : Z) : SharedState :=
  mk_SharedState f [] 0 false completed0 [] Top.

(** [std::multimap::emplace]: after the elements with the same key. *)
Fixpoint emplace (k : Z) (c : callback) (m : list (Z * callback)) : list (Z * callback) :=
  match m with
  | [] => [(k, c)]
  | (k', c') :: m' => if k <? k' then (k, c) :: m else (k', c') :: emplace k c m'
  end.

(** [lower_bound] splits the multimap at the first key not below [k]. *)
Fixpoint before_lower_bound (k : Z) (m : list (Z * callback)) : list (Z * callback) :=
  match m with
  | (k', c) :: m => if k' <? k then (k', c) :: before_lower_bound k m else []
  | [] => []
  end.
Fixpoint from_lower_bound (k : Z) (m : list (Z * callback)) : list (Z * callback) :=
  match m with
  | (k', c) :: m' => if k' <? k then from_lower_bound k m' else m
  | [] => []
  end.

Definition is_nil {A} (l : list A) : bool := match l with [] => true | _ => false end.

Definition Enqueue (gpu_event : DmlGpuEvent) (done_callback : callback) (s : SharedState) :
    result SharedState :=
  CHECK (fence_ s =? fence gpu_event);;
  ASSERT (current_awaited_fence_value s <=? u64 (completed s + 1));;
  if current_awaited_fence_value s <=? fence_value gpu_event then
    mret (mk_SharedState (fence_ s)
            (emplace (fence_value gpu_event) done_callback (events_by_fence_value s))
            (current_awaited_fence_value s) (exit_requested s) (completed s) (fired s) (pc s))
  else
    ASSERT (is_nil (before_lower_bound (fence_value gpu_event) (events_by_fence_value s)));;
    mret (mk_SharedState (fence_ s) (events_by_fence_value s)
            (current_awaited_fence_value s) (exit_requested s) (completed s)
            (fired s ++ [(fence_value gpu_event, done_callback)]) (pc s)).

Definition set_pc (p : thread_pc) (s : SharedState) : SharedState :=
  mk_SharedState (fence_ s) (events_by_fence_value s) (current_awaited_fence_value s)
    (exit_requested s) (completed s) (fired s) p.

(** One pass of the loop of [ThreadProc], up to the wait at its end. *)
Definition thread_pass (s : SharedState) : SharedState :=
  if exit_requested s then set_pc Done s
  else if is_nil (events_by_fence_value s) then set_pc Waiting s
  else
    let next_fence_value := u64 (completed s + 1) in
    let device_removed := next_fence_value =? 0 in
    let next_fence_value := if device_removed then u64_max else next_fence_value in
    let events_to_process := before_lower_bound next_fence_value (events_by_fence_value s) in
    let rest := from_lower_bound next_fence_value (events_by_fence_value s) in
    mk_SharedState (fence_ s) rest next_fence_value (exit_requested s) (completed s)
      (fired s ++ events_to_process)
      (if device_removed then Done
       else if is_nil rest then Top else AwaitFence next_fence_value).

(** The end of [WaitForSignal] and the check after it. *)
Definition thread_signaled (next_fence_value : Z) (s : SharedState) : result SharedState :=
  CHECK (next_fence_value <=? completed s);;
  mret (set_pc Top s).

(** The destructor asks the thread to exit. *)
Definition request_exit (s : SharedState) : SharedState :=
  mk_SharedState (fence_ s) (events_by_fence_value s) (current_awaited_fence_value s)
    true (completed s) (fired s) (pc s).

(** The GPU signals a later value, or the device is removed ([u64_max]). *)
Definition signal (v : Z) (s : SharedState) : SharedState :=
  mk_SharedState (fence_ s) (events_by_fence_value s) (current_awaited_fence_value s)
    (exit_requested s) v (fired s) (pc s).

Inductive label := LEnqueue (v : Z) (c : callback) | LOther.

Inductive step : SharedState -> label -> SharedState -> Prop :=
  | step_enqueue s e c s' :
      Enqueue e c s = Ok s' -> step s (LEnqueue (fence_value e) c) s'
  | step_signal s v : completed s <= v < 2 ^ 64 -> step s LOther (signal v s)
  | step_exit s : step s LOther (request_exit s)
  | step_pass s : pc s = Top -> step s LOther (thread_pass s)
  | step_wake s : pc s = Waiting -> step s LOther (set_pc Top s)
  | step_signaled s v s' :
      pc s = AwaitFence v -> v <= completed s -> thread_signaled v s = Ok s' ->
      step s LOther s'.

(** The callbacks enqueued, in order, with their fence values. *)
Definition logged (l : label) : list (Z * callback) :=
  match l with LEnqueue v c => [(v, c)] | LOther => [] end.

Inductive reach (s0 : SharedState) : SharedState -> list (Z * callback) -> Prop :=
  | reach_refl : reach s0 s0 []
  | reach_step s log l s' : reach s0 s log -> step s l s' -> reach s0 s' (log ++ logged l).

(** ** Lemmas on the multimap *)

Definition key_le (a b : Z * callback) : Prop := fst a <= fst b.

(** The callbacks of one fence value. *)
Definition of_value (v : Z) (l : list (Z * callback)) : list (Z * callback) :=
  List.filter (fun x => fst x =? v) l.

Lemma of_value_cons v x l :
  of_value v (x :: l) = if fst x =? v then x :: of_value v l else of_value v l.
Proof. done. Qed.

Lemma of_value_app v l1 l2 : of_value v (l1 ++ l2) = of_value v l1 ++ of_value v l2.
Proof. apply List.filter_app. Qed.

Lemma of_value_nil v l : Forall (fun x => fst x <> v) l -> of_value v l = [].
Proof.
  induction 1 as [|x l Hx Hl IH]; [done|]. simpl.
  by destruct (Z.eqb_spec (fst x) v).
Qed.

Lemma split_lower_bound k m : before_lower_bound k m ++ from_lower_bound k m = m.
Proof.
  induction m as [|[k' c] m IH]; simpl; [done|].
  destruct (k' <? k); simpl; [by rewrite IH|done].
Qed.

Lemma before_lower_bound_lt k m : Forall (fun x => fst x < k) (before_lower_bound k m).
Proof.
  induction m as [|[k' c] m IH]; simpl; [done|].
  destruct (Z.ltb_spec k' k); by constructor.
Qed.

Lemma from_lower_bound_ge k m :
  StronglySorted key_le m -> Forall (fun x => k <= fst x) (from_lower_bound k m).
Proof.
  induction 1 as [|[k' c] m Hm IH Hk]; simpl; [done|].
  destruct (Z.ltb_spec k' k); [done|]. constructor; [done|].
  eapply Forall_impl; [exact Hk|]. unfold key_le. simpl. intros x ?. simpl in *. lia.
Qed.

Lemma from_lower_bound_sorted k m :
  StronglySorted key_le m -> StronglySorted key_le (from_lower_bound k m).
Proof.
  intros Hm. rewrite <- (split_lower_bound k m) in Hm. by apply StronglySorted_app_1_r in Hm.
Qed.

Lemma Forall_emplace (P : Z * callback -> Prop) k c m :
  P (k, c) -> Forall P m -> Forall P (emplace k c m).
Proof.
  intros Hk. induction 1 as [|[k' c'] m Hx Hm IH]; simpl; [by constructor|].
  destruct (k <? k'); by repeat constructor.
Qed.

Lemma emplace_sorted k c m : StronglySorted key_le m -> StronglySorted key_le (emplace k c m).
Proof.
  induction 1 as [|[k' c'] m Hm IH Hk]; simpl; [by repeat constructor|].
  destruct (Z.ltb_spec k k').
  - constructor; [by constructor|]. constructor; [unfold key_le; simpl; lia|].
    eapply Forall_impl; [exact Hk|]. unfold key_le. simpl. intros x ?. simpl in *. lia.
  - constructor; [done|]. apply Forall_emplace; [unfold key_le; simpl; lia|done].
Qed.

Lemma of_value_emplace v k c m :
  StronglySorted key_le m ->
  of_value v (emplace k c m) = of_value v m ++ (if k =? v then [(k, c)] else []).
Proof.
  induction 1 as [|[k' c'] m Hm IH Hk].
  { simpl. by destruct (k =? v). }
  cbn [emplace]. destruct (Z.ltb_spec k k').
  - assert (Forall (fun x => fst x <> k) ((k', c') :: m)) as Hne.
    { constructor; [simpl; lia|]. eapply Forall_impl; [exact Hk|].
      unfold key_le. intros x ?. simpl in *. lia. }
    rewrite of_value_cons. cbn [fst].
    destruct (Z.eqb_spec k v) as [->|]; [|by rewrite app_nil_r].
    by rewrite (of_value_nil v _ Hne).
  - rewrite !of_value_cons, IH. cbn [fst]. by destruct (k' =? v), (k =? v).
Qed.

(** ** The invariant *)

Record inv (s : SharedState) (log : list (Z * callback)) : Prop := {
  inv_sorted : StronglySorted key_le (events_by_fence_value s);
  inv_pending : Forall (fun x => current_awaited_fence_value s <= fst x) (events_by_fence_value s);
  inv_fired : Forall (fun x => fst x <= completed s) (fired s);
  inv_completed : 0 <= completed s < 2 ^ 64;
  inv_awaited : current_awaited_fence_value s <= completed s + 1;
  inv_wait : match pc s with
             | AwaitFence v => v = current_awaited_fence_value s
             | _ => True
             end;
  inv_log : forall v, of_value v log = of_value v (fired s) ++ of_value v (events_by_fence_value s) }.

Lemma before_sorted_lower k m :
  Forall (fun x => k <= fst x) m -> before_lower_bound k m = [].
Proof.
  destruct m as [|[k' c] m]; [done|]. intros [Hk _]%Forall_cons. simpl in *.
  destruct (Z.ltb_spec k' k); [lia|done].
Qed.

Lemma inv_set_pc s log p :
  inv s log -> (match p with AwaitFence _ => False | _ => True end) -> inv (set_pc p s) log.
Proof. intros [] Hp. split; try done. by destruct p. Qed.

Lemma inv_enqueue s log e c s' :
  inv s log -> Enqueue e c s = Ok s' -> inv s' (log ++ [(fence_value e, c)]).
Proof.
  intros [Hs Hp Hf Hc Ha Hw Hl] He. unfold Enqueue in He. inv_ok; bool_to_prop.
  - split; simpl; [by apply emplace_sorted|by apply Forall_emplace|done|done|done|done|].
    intros v. rewrite of_value_app, of_value_emplace, Hl, <- app_assoc by done.
    by do 2 f_equal.
  - split; simpl; [done|done| |done|done|done|].
    + apply Forall_app_2; [done|]. apply Forall_singleton. simpl. lia.
    + intros v. rewrite !of_value_app, Hl. rewrite <- !app_assoc. f_equal.
      rewrite of_value_cons. simpl. destruct (Z.eqb_spec (fence_value e) v); [|by rewrite app_nil_r].
      rewrite (of_value_nil v (events_by_fence_value s)); [done|].
      eapply Forall_impl; [exact Hp|]. intros x ?. simpl in *. lia.
Qed.

Lemma inv_pass s log : inv s log -> inv (thread_pass s) log.
Proof.
  intros Hinv. pose proof Hinv as [Hs Hp Hf Hc Ha Hw Hl]. unfold thread_pass.
  destruct (exit_requested s); [by apply inv_set_pc|].
  destruct (is_nil _); [by apply inv_set_pc|].
  set (next := if _ =? 0 then _ else _).
  assert (next <= completed s + 1 /\ 0 <= next) as [Hn Hn0].
  { subst next. unfold u64_max. destruct (Z.eqb_spec (u64 (completed s + 1)) 0) as [E|E].
    - destruct (decide (completed s + 1 < 2 ^ 64)); [rewrite u64_small in E; lia|lia].
    - destruct (decide (completed s + 1 < 2 ^ 64)); [rewrite u64_small; lia|].
      exfalso. apply E. replace (completed s + 1) with (2 ^ 64) by lia. done. }
  assert (Forall (fun x => fst x <= completed s)
            (before_lower_bound next (events_by_fence_value s))) as Hb.
  { eapply Forall_impl; [apply before_lower_bound_lt|]. intros x ?. simpl in *. lia. }
  split; simpl.
  - by apply from_lower_bound_sorted.
  - by apply from_lower_bound_ge.
  - by apply Forall_app.
  - done.
  - done.
  - clearbody next. by destruct (u64 _ =? 0), (is_nil (from_lower_bound next (events_by_fence_value s))).
  - intros v. rewrite of_value_app, <- app_assoc, <- of_value_app, split_lower_bound. apply Hl.
Qed.

Lemma queue_inv_step s log l s' : inv s log -> step s l s' -> inv s' (log ++ logged l).
Proof.
  intros Hinv Hstep. destruct Hstep as [s e c s' He|s v Hv|s|s Hpc|s Hpc|s v s' Hpc Hv Hsig];
    simpl; rewrite ?app_nil_r.
  - by eapply inv_enqueue.
  - destruct Hinv as [? ? Hf ? ? ? ?]. split; simpl; try done; [|lia|lia].
    eapply Forall_impl; [exact Hf|]. intros x ?. simpl in *. lia.
  - by destruct Hinv.
  - by apply inv_pass.
  - by apply inv_set_pc.
  - unfold thread_signaled in Hsig. inv_ok. by apply inv_set_pc.
Qed.

Lemma step_fence s l s' : step s l s' -> fence_ s' = fence_ s.
Proof.
  intros [s0 e c s1 He| | |s0 _| |s0 v s1 _ _ Hsig]; try done.
  - unfold Enqueue in He. inv_ok; done.
  - unfold thread_pass. by repeat case_match.
  - unfold thread_signaled in Hsig. inv_ok. done.
Qed.

Lemma reach_fence s0 s log : reach s0 s log -> fence_ s = fence_ s0.
Proof. induction 1 as [|? ? ? ? ? IH Hstep]; [done|]. by rewrite (step_fence _ _ _ Hstep). Qed.

Lemma queue_reach_inv f s log completed0 :
  0 <= completed0 < 2 ^ 64 -> reach (make_SharedState f completed0) s log -> inv s log.
Proof.
  intros Hc. induction 1 as [|s log l s' Hr IH Hstep]; [|by eapply queue_inv_step].
  split; simpl; try done; [constructor|lia].
Qed.

(** An event not earlier than the others pending, nor signaled yet, goes to the
    end of the queue. *)
Lemma emplace_last k c m : Forall (fun x => fst x <= k) m -> emplace k c m = m ++ [(k, c)].
Proof.
  induction 1 as [|[k' c'] m Hx Hm IH]; simpl in *; [done|].
  destruct (Z.ltb_spec k k'); [lia|]. by rewrite IH.
Qed.

Lemma Enqueue_last s log e c :
  inv s log -> fence e = fence_ s -> completed s < fence_value e -> fence_value e < 2 ^ 64 ->
  Forall (fun x => fst x <= fence_value e) (events_by_fence_value s) ->
  Enqueue e c s = Ok (mk_SharedState (fence_ s) (events_by_fence_value s ++ [(fence_value e, c)])
    (current_awaited_fence_value s) (exit_requested s) (completed s) (fired s) (pc s)).
Proof.
  intros Hi Hf Hlt He Hall. pose proof (inv_completed _ _ Hi). pose proof (inv_awaited _ _ Hi).
  unfold Enqueue. rewrite Hf, Z.eqb_refl, u64_small by lia. simpl.
  destruct (Z.leb_spec (current_awaited_fence_value s) (completed s + 1)); [|lia]. simpl.
  destruct (Z.leb_spec (current_awaited_fence_value s) (fence_value e)); [|lia].
  by rewrite emplace_last.
Qed.

(** The thread moves callbacks from the front of the queue to those fired. *)
Lemma step_other_fired s s' :
  step s LOther s' ->
  exists new, fired s' = fired s ++ new /\ new ++ events_by_fence_value s' = events_by_fence_value s.
Proof.
  intros Hstep. remember LOther as l eqn:El. destruct Hstep as [| | |s _| |s v s' _ _ Hsig]; try done;
    try (by exists []; rewrite app_nil_r).
  - unfold thread_pass. destruct (exit_requested s); [by exists []; rewrite app_nil_r|].
    destruct (is_nil _); [by exists []; rewrite app_nil_r|]. eexists. split; [reflexivity|].
    apply split_lower_bound.
  - unfold thread_signaled in Hsig. inv_ok. exists []. by rewrite app_nil_r.
Qed.

(** C6: In every interleaving of clients, background thread and GPU, a callback
    is invoked only after its fence value was signaled, each callback is
    pending or invoked exactly once, and the callbacks of one fence value are
    invoked in the order they were enqueued. *)
Theorem callbacks_after_signal_in_order f completed0 s log :
  0 <= completed0 < 2 ^ 64 -> reach (make_SharedState f completed0) s log ->
  Forall (fun x => fst x <= completed s) (fired s) /\
  forall v, of_value v log = of_value v (fired s) ++ of_value v (events_by_fence_value s).
Proof. intros Hc Hr. apply queue_reach_inv in Hr; [|done]. by destruct Hr. Qed.

(** A pass of the background thread leaves no callback behind whose fence
    value is signaled, other than at the value reserved for device removal. *)
Theorem thread_pass_drains s :
  StronglySorted key_le (events_by_fence_value s) -> 0 <= completed s < 2 ^ 64 ->
  Forall (fun x => fst x <= u64_max) (events_by_fence_value s) ->
  exit_requested s = false ->
  Forall (fun x => completed s < fst x \/ fst x = u64_max) (events_by_fence_value (thread_pass s)).
Proof.
  intros Hs Hc Hno He. unfold thread_pass. rewrite He.
  destruct (is_nil (events_by_fence_value s)) eqn:En.
  { simpl. destruct (events_by_fence_value s); done. }
  simpl. set (next := if _ =? 0 then _ else _).
  pose proof (from_lower_bound_ge next _ Hs) as Hge.
  rewrite <- (split_lower_bound next) in Hno. apply Forall_app in Hno as [_ Hno].
  rewrite Forall_forall in *. intros x Hx. specialize (Hge x Hx). specialize (Hno x Hx).
  simpl in *. subst next. unfold u64_max in *.
  destruct (Z.eqb_spec (u64 (completed s + 1)) 0) as [E|E]; [right; lia|left].
  destruct (decide (completed s + 1 < 2 ^ 64)); [rewrite u64_small in Hge; lia|].
  exfalso. apply E. by replace (completed s + 1) with (2 ^ 64) by lia.
Qed.

(** Until the device is removed, [Enqueue] on the queue's own fence never
    fails: the checks and assertions in it hold in every reachable state. *)
Theorem Enqueue_never_fails f completed0 s log v c :
  0 <= completed0 < 2 ^ 64 -> reach (make_SharedState f completed0) s log ->
  completed s < u64_max ->
  exists s', Enqueue (mk_event v f) c s = Ok s'.
Proof.
  intros Hc Hr Hcom. pose proof (reach_fence _ _ _ Hr) as Hf. simpl in Hf. apply queue_reach_inv in Hr as [Hs Hp _ Hcr Ha _ _]; [|done].
  unfold Enqueue, u64_max in *. simpl. rewrite Hf, Z.eqb_refl. simpl.
  rewrite u64_small by lia.
  destruct (Z.leb_spec (current_awaited_fence_value s) (completed s + 1)); [|lia]. simpl.
  destruct (Z.leb_spec (current_awaited_fence_value s) v); [eauto|].
  rewrite before_sorted_lower; [simpl; eauto|].
  eapply Forall_impl; [exact Hp|]. intros x ?. simpl in *. lia.
Qed.

(** After the device is removed and the thread has flushed the queue, every
    further [Enqueue] trips its own assertion: the completed value plus one
    wraps to 0 while the awaited value is the largest. *)
Theorem Enqueue_after_device_removal s e c :
  exit_requested s = false -> events_by_fence_value s <> [] ->
  completed s = u64_max -> fence_ s = fence e ->
  Enqueue e c (thread_pass s) = Fault AssertFailed.
Proof.
  intros Hx Hne Hcom Hf. unfold thread_pass. rewrite Hx.
  destruct (events_by_fence_value s) as [|x l] eqn:El; [done|]. rewrite <- El. simpl.
  rewrite El. simpl. rewrite Hcom. unfold Enqueue. simpl. by rewrite Hf, Z.eqb_refl.
Qed.

End event_queue.

Arguments SharedState : clear implicits.

(** ** Examples: callbacks are numbers *)

Definition example_queue : SharedState nat :=
  mk_SharedState 1 [(3, 7%nat); (9, 8%nat)] 1 false 4 [] Top.

(** One callback enqueued, its value signaled, and a pass of the thread. *)
Lemma example_queue_reach :
  reach (make_SharedState 1 0)
    (mk_SharedState 1 [] 6 false 5 [(3, 7%nat)] Top) [(3, 7%nat)].
Proof.
  change [(3, 7%nat)] with ((([] ++ [(3, 7%nat)]) ++ []) ++ []) at 2.
  eapply (reach_step _ _ _ LOther); [|by apply (step_pass (mk_SharedState 1 [(3, 7%nat)] 0 false 5 [] Top))].
  eapply (reach_step _ _ _ LOther);
    [|by apply (step_signal (mk_SharedState 1 [(3, 7%nat)] 0 false 0 [] Top) 5)].
  eapply (reach_step _ _ _ (LEnqueue 3 7%nat)); [apply reach_refl|].
  by apply (step_enqueue (make_SharedState 1 0) (mk_event 3 1)).
Qed.

Lemma callbacks_after_signal_in_order_witness :
  Forall (fun x => fst x <= 5) [(3, 7%nat)].
Proof.
  apply (callbacks_after_signal_in_order 1 0 _ _ ltac:(lia) example_queue_reach).
Defined.

Lemma thread_pass_drains_witness :
  Forall (fun x => 4 < fst x \/ fst x = u64_max) (events_by_fence_value (thread_pass example_queue)).
Proof.
  apply (thread_pass_drains example_queue); [|simpl; lia| |done].
  - repeat constructor; unfold key_le; simpl; lia.
  - repeat constructor; simpl; unfold u64_max; lia.
Defined.

Lemma Enqueue_never_fails_witness :
  exists s', Enqueue (mk_event 8 1) 9%nat (mk_SharedState 1 [] 6 false 5 [(3, 7%nat)] Top) = Ok s'.
Proof.
  apply (Enqueue_never_fails 1 0 _ _ 8 9%nat ltac:(lia) example_queue_reach).
  simpl. unfold u64_max. lia.
Defined.

Lemma Enqueue_after_device_removal_witness :
  Enqueue (mk_event 10 1) 9%nat (thread_pass (signal u64_max example_queue)) = Fault AssertFailed.
Proof. by apply Enqueue_after_device_removal. Defined.
