(* ===== verification/AllocatorRetry.v ===== *)
(** * The retrying wrapper of an allocator

    [AllocatorRetry] (runtime_adapter/allocator_retry.{h,cc}), generic in the
    state of the world: the allocation function, the clock (microseconds) and
    the wait on the condition variable, during which other threads run, are
    parameters. *)

From S2P Require Import Prelude.

Section retry.
Context {W : Type}.
Context (now : ST W Z) (wait_for : Z -> ST W unit).
Context (alloc_func : Z -> Z -> bool -> ST W (option Z)).

(** The loop: [deadline] is [None] while [first] holds. *)
Fixpoint retry_loop (fuel : nat) (deadline : option Z)
    (max_millis_to_wait alignment num_bytes : Z) : ST W (option Z) :=
  match fuel with
  | O => lift (Fault NoFuel)
  | S fuel =>
      ptr ← alloc_func alignment num_bytes false;
      match (ptr : option Z) with
      | Some _ => mret ptr
      | None =>
          t ← now;
          let deadline_micros :=
            default (u64 (t + i32 (max_millis_to_wait * 1000))) deadline in
          if t <? deadline_micros then
            wait_for ((deadline_micros - t) / 1000);;
            retry_loop fuel (Some deadline_micros) max_millis_to_wait alignment num_bytes
          else alloc_func alignment num_bytes true
      end
  end.

Definition AllocateRaw (fuel : nat) (max_millis_to_wait alignment num_bytes : Z) :
    ST W (option Z) :=
  if num_bytes =? 0 then mret None
  else retry_loop fuel None max_millis_to_wait alignment num_bytes.

(** ** Facts used below *)

Context (time : W -> Z).

(** The clock is read without changing the world, does not go back, and a wait
    lets at least one microsecond pass. *)
Record clock_laws : Prop := {
  cl_now w : now w = Ok (time w, w);
  cl_range w : 0 <= time w;
  cl_wait n w : exists w', wait_for n w = Ok (tt, w') /\ time w < time w';
  cl_alloc a n v w : exists r w', alloc_func a n v w = Ok (r, w') /\ time w <= time w' }.

Lemma retry_loop_returns fuel deadline max a n w :
  clock_laws -> deadline - time w < Z.of_nat fuel ->
  0 < Z.of_nat fuel ->
  exists r w', retry_loop fuel (Some deadline) max a n w = Ok (r, w').
Proof.
  intros Hl. revert w. induction fuel as [|fuel IH]; intros w Hd Hf; [lia|].
  simpl. unfold mbind, ST_bind.
  destruct (cl_alloc Hl a n false w) as (r & w1 & -> & Ht).
  destruct r as [p|]; [by eauto|].
  rewrite (cl_now Hl). simpl.
  destruct (Z.ltb_spec (time w1) deadline) as [Hlt|Hge].
  - destruct (cl_wait Hl ((deadline - time w1) / 1000) w1) as (w2 & -> & Ht2).
    apply IH; lia.
  - destruct (cl_alloc Hl a n true w1) as (r & w2 & -> & _). eauto.
Qed.

(** With a clock that advances while waiting, the retrying allocation
    returns: the number of rounds is bounded by the microseconds to wait. *)
Theorem AllocateRaw_returns max_millis_to_wait a n w :
  clock_laws -> 0 <= max_millis_to_wait * 1000 < 2 ^ 31 ->
  (forall r w', alloc_func a n false w = Ok (r, w') -> time w' + max_millis_to_wait * 1000 < 2 ^ 64) ->
  exists r w', AllocateRaw (Z.to_nat (max_millis_to_wait * 1000) + 2) max_millis_to_wait a n w
               = Ok (r, w').
Proof.
  intros Hl Hmax Htime. unfold AllocateRaw. destruct (n =? 0); [by eauto|].
  rewrite Nat.add_succ_r. cbn [retry_loop]. unfold mbind, ST_bind.
  destruct (cl_alloc Hl a n false w) as (r & w1 & E & Ht). specialize (Htime _ _ E). rewrite E.
  destruct r as [p|]; [by eauto|].
  rewrite (cl_now Hl). simpl.
  pose proof (cl_range Hl w1).
  rewrite i32_small, u64_small by lia.
  destruct (Z.ltb_spec (time w1) (time w1 + max_millis_to_wait * 1000)).
  - destruct (cl_wait Hl ((time w1 + max_millis_to_wait * 1000 - time w1) / 1000) w1)
      as (w2 & -> & Ht2).
    apply retry_loop_returns; [done|lia|lia].
  - destruct (cl_alloc Hl a n true w1) as (r & w2 & -> & _). eauto.
Qed.

End retry.

(** A clock that ticks once per wait; the allocation succeeds from time 3 on. *)
Definition example_alloc (alignment num_bytes : Z) (verbose : bool) : ST nat (option Z) :=
  gets (fun t => if (3 <=? t)%nat then Some 4096 else None).

Lemma example_clock_laws :
  clock_laws (gets Z.of_nat) (fun _ => modify S) example_alloc Z.of_nat.
Proof.
  split; [done|lia| |].
  - intros n w. exists (S w). split; [done|lia].
  - intros a n v w. do 2 eexists. split; [done|lia].
Qed.

Lemma AllocateRaw_returns_witness :
  (exists r w', AllocateRaw (gets Z.of_nat) (fun _ => modify S) example_alloc
                  (Z.to_nat (10 * 1000) + 2) 10 0 64 0%nat = Ok (r, w')) /\
  AllocateRaw (gets Z.of_nat) (fun _ => modify S) example_alloc 100 10 0 64 0%nat = Ok (Some 4096, 3%nat).
Proof.
  split; [|reflexivity].
  apply (AllocateRaw_returns _ _ _ _ 10 0 64 0%nat example_clock_laws); [lia|].
  intros r w' E. injection E as _ <-. simpl. lia.
Defined.
