(* ===== verification/Bfc.v ===== *)
(** * The best-fit-with-coalescing allocator: data and operations

    [BFCAllocator] (runtime_adapter/bfc_allocator.{h,cc}) and the
    [SubAllocator] interface it is built on (runtime_adapter/allocator.h).
    The allocator is generic in the sub-allocator: its state is a type [S] with
    an instance of the class below.  A pointer is its 64-bit address (0 is
    [nullptr]); a [ChunkHandle] is an index into [chunks_]; a [Chunk*] is
    modelled by its handle, so that a write through it is an update of
    [chunks_].  A [std::set] ordered by [ChunkComparator] is the list of its
    elements in that order.  The lemmas and theorems are in BfcProofs. *)

From Stdlib Require Import Ascii.
From S2P Require Import Prelude.
From S2P Require Import AllocatorRetry.

(** ** The sub-allocator's interface *)

Inductive AllocatorMemoryType := kUnknown | kDevice | kHostPageable | kHostPinned.

(** [sub_Alloc alignment num_bytes] gives the pointer and [bytes_received], or
    [None] for [nullptr]. *)
Class SubAllocator (S : Type) := {
  sub_Alloc : Z -> Z -> ST S (option (Z * Z));
  sub_Free : Z -> Z -> ST S unit;
  SupportsCoalescing : bool;
  sub_GetMemoryType : AllocatorMemoryType }.

(** ** Data *)

Definition kInvalidChunkHandle : Z := u64_max.
Definition kInvalidBinNum : Z := -1.
Definition kNumBins : Z := 21.
Definition kMinAllocationBits : Z := 8.
Definition kMinAllocationSize : Z := Z.shiftl 1 kMinAllocationBits.

Record Chunk := mk_Chunk {
  size : Z;
  requested_size : Z;
  allocation_id : Z;
  ptr : Z;
  prev : Z;
  next : Z;
  bin_num : Z;
  freed_at_count : Z }.

Definition new_Chunk : Chunk :=
  mk_Chunk 0 0 (-1) 0 kInvalidChunkHandle kInvalidChunkHandle kInvalidBinNum 0.

Definition in_use (c : Chunk) : bool := negb (allocation_id c =? -1).

Definition set_size x (c : Chunk) := mk_Chunk x (requested_size c) (allocation_id c) (ptr c) (prev c) (next c) (bin_num c) (freed_at_count c).
Definition set_requested_size x (c : Chunk) := mk_Chunk (size c) x (allocation_id c) (ptr c) (prev c) (next c) (bin_num c) (freed_at_count c).
Definition set_allocation_id x (c : Chunk) := mk_Chunk (size c) (requested_size c) x (ptr c) (prev c) (next c) (bin_num c) (freed_at_count c).
Definition set_ptr x (c : Chunk) := mk_Chunk (size c) (requested_size c) (allocation_id c) x (prev c) (next c) (bin_num c) (freed_at_count c).
Definition set_prev x (c : Chunk) := mk_Chunk (size c) (requested_size c) (allocation_id c) (ptr c) x (next c) (bin_num c) (freed_at_count c).
Definition set_next x (c : Chunk) := mk_Chunk (size c) (requested_size c) (allocation_id c) (ptr c) (prev c) x (bin_num c) (freed_at_count c).
Definition set_bin_num x (c : Chunk) := mk_Chunk (size c) (requested_size c) (allocation_id c) (ptr c) (prev c) (next c) x (freed_at_count c).
Definition set_freed_at_count x (c : Chunk) := mk_Chunk (size c) (requested_size c) (allocation_id c) (ptr c) (prev c) (next c) (bin_num c) x.

Record Bin := mk_Bin { bin_size : Z; free_chunks : list Z }.

Record AllocationRegion := mk_Region {
  region_ptr : Z;
  memory_size : Z;
  end_ptr : Z;
  handles_ : list Z }.

(** [fragmentation_fraction] is a double: a numerator and the power of two it
    is divided by. *)
Record Options := mk_Options {
  allow_growth : bool;
  allow_retry_on_failure : bool;
  garbage_collection : bool;
  fragmentation_fraction : Z * Z;
  max_allocation_size_bytes : Z }.

Definition default_Options : Options := mk_Options true true false (0, 0) u64_max.

Record AllocatorStats := mk_stats {
  num_allocs : Z;
  bytes_in_use : Z;
  peak_bytes_in_use : Z;
  largest_alloc_size : Z;
  bytes_limit : option Z }.

Record BFCAllocator (S : Type) := mk_BFC {
  opts_ : Options;
  memory_limit_ : Z;
  curr_region_allocation_bytes_ : Z;
  total_region_allocated_bytes_ : Z;
  started_backpedal_ : bool;
  coalesce_regions_ : bool;
  sub_allocator_ : S;
  timestamped_chunks_ : list Z;
  safe_frontier_ : Z;
  regions_ : list AllocationRegion;
  chunks_ : list Chunk;
  free_chunks_list_ : Z;
  next_allocation_id_ : Z;
  stats_ : AllocatorStats;
  bins_ : list Bin }.
Arguments mk_BFC {S}.
Arguments opts_ {S}. Arguments memory_limit_ {S}. Arguments curr_region_allocation_bytes_ {S}.
Arguments total_region_allocated_bytes_ {S}. Arguments started_backpedal_ {S}.
Arguments coalesce_regions_ {S}. Arguments sub_allocator_ {S}. Arguments timestamped_chunks_ {S}.
Arguments safe_frontier_ {S}. Arguments regions_ {S}. Arguments chunks_ {S}.
Arguments free_chunks_list_ {S}. Arguments next_allocation_id_ {S}. Arguments stats_ {S}.
Arguments bins_ {S}.

(** ** Sizes and bins *)

Definition RoundedBytes (bytes : Z) : result Z :=
  let rounded_bytes :=
    u64 (kMinAllocationSize * (u64 (u64 (bytes + kMinAllocationSize) - 1) / kMinAllocationSize)) in
  ASSERT (rounded_bytes `mod` kMinAllocationSize =? 0);;
  mret rounded_bytes.

(** The portable loop; [n] has at most 64 bits. *)
Fixpoint Log2FloorNonZeroSlow_loop (fuel : nat) (n r : Z) : result Z :=
  if n <=? 0 then mret (r - 1)
  else match fuel with
       | O => Fault NoFuel
       | Datatypes.S fuel => Log2FloorNonZeroSlow_loop fuel (Z.shiftr n 1) (r + 1)
       end.
Definition Log2FloorNonZeroSlow (n : Z) : result Z := Log2FloorNonZeroSlow_loop 64 n 0.

(** [63 ^ __builtin_clzll(n)]. *)
Definition clzll (n : Z) : Z := 63 - Z.log2 n.
Definition Log2FloorNonZero (n : Z) : Z := Z.lxor 63 (clzll n).

Definition BinNumToSize (index : Z) : Z := u64 (Z.shiftl 256 index).

Definition BinNumForSize (bytes : Z) : Z :=
  let v := Z.shiftr (Z.max bytes 256) kMinAllocationBits in
  Z.min (kNumBins - 1) (Log2FloorNonZero v).

(** ** Regions *)

Definition n_handles (memory_size : Z) : nat :=
  Z.to_nat (u64 (u64 (memory_size + kMinAllocationSize) - 1) / kMinAllocationSize).

(** [handles_.resize(n, kInvalidChunkHandle)]. *)
Definition resize_handles (n : nat) (l : list Z) : list Z := resize n kInvalidChunkHandle l.

Definition make_region (ptr memory_size : Z) : result AllocationRegion :=
  ASSERT (0 =? memory_size `mod` kMinAllocationSize);;
  mret (mk_Region ptr memory_size (u64 (ptr + memory_size))
          (resize_handles (n_handles memory_size) [])).

Definition extend (size : Z) (r : AllocationRegion) : result AllocationRegion :=
  let memory_size_ := u64 (memory_size r + size) in
  ASSERT (0 =? memory_size_ `mod` kMinAllocationSize);;
  mret (mk_Region (region_ptr r) memory_size_ (u64 (end_ptr r + size))
          (resize_handles (n_handles memory_size_) (handles_ r))).

Definition IndexFor (r : AllocationRegion) (p : Z) : result nat :=
  ASSERT (region_ptr r <=? p);;
  ASSERT (p <? u64 (region_ptr r + memory_size r));;
  mret (Z.to_nat (Z.shiftr (u64 (p - region_ptr r)) kMinAllocationBits)).

Definition region_get_handle (r : AllocationRegion) (p : Z) : result Z :=
  i ← IndexFor r p;
  in_range (handles_ r !! i).

Definition region_set_handle (p h : Z) (r : AllocationRegion) : result AllocationRegion :=
  i ← IndexFor r p;
  in_range (handles_ r !! i);;
  mret (mk_Region (region_ptr r) (memory_size r) (end_ptr r) (<[i := h]> (handles_ r))).

(** [std::upper_bound] with [Comparator]: the index of the first region whose
    end is above [p], the number of regions if there is none. *)
Fixpoint upper_bound (p : Z) (l : list AllocationRegion) : nat :=
  match l with
  | r :: l => if p <? end_ptr r then O else Datatypes.S (upper_bound p l)
  | [] => O
  end.

Definition insert_region (i : nat) (r : AllocationRegion) (l : list AllocationRegion) :
    list AllocationRegion := take i l ++ r :: drop i l.

Definition AddAllocationRegion (ptr memory_size : Z) (l : list AllocationRegion) :
    result (list AllocationRegion) :=
  r ← make_region ptr memory_size;
  mret (insert_region (upper_bound ptr l) r l).

(** Returns also the index of the region that was extended. *)
Definition AddOrExtendAllocationRegion (ptr memory_size : Z) (l : list AllocationRegion) :
    result (option nat * list AllocationRegion) :=
  let entry := upper_bound ptr l in
  let insert :=
    r ← make_region ptr memory_size;
    mret (None, insert_region entry r l) in
  match entry with
  | O => insert
  | Datatypes.S i =>
      preceding_region ← in_range (l !! i);
      if end_ptr preceding_region =? ptr then
        r ← extend memory_size preceding_region;
        mret (Some i, <[i := r]> l)
      else insert
  end.

Definition RemoveAllocationRegion (i : nat) (l : list AllocationRegion) : list AllocationRegion :=
  take i l ++ drop (Datatypes.S i) l.

Definition RegionFor (p : Z) (l : list AllocationRegion) : result (nat * AllocationRegion) :=
  let entry := upper_bound p l in
  match l !! entry with
  | Some r => mret (entry, r)
  | None => Fault FatalLog
  end.

Section allocator.
Context {S : Type} `{!SubAllocator S}.

Notation bfc := (BFCAllocator S).
Notation M := (ST (BFCAllocator S)).

Definition set_chunks (x : list Chunk) (s : bfc) : bfc :=
  mk_BFC (opts_ s) (memory_limit_ s) (curr_region_allocation_bytes_ s)
    (total_region_allocated_bytes_ s) (started_backpedal_ s) (coalesce_regions_ s)
    (sub_allocator_ s) (timestamped_chunks_ s) (safe_frontier_ s) (regions_ s) x
    (free_chunks_list_ s) (next_allocation_id_ s) (stats_ s) (bins_ s).
Definition set_regions (x : list AllocationRegion) (s : bfc) : bfc :=
  mk_BFC (opts_ s) (memory_limit_ s) (curr_region_allocation_bytes_ s)
    (total_region_allocated_bytes_ s) (started_backpedal_ s) (coalesce_regions_ s)
    (sub_allocator_ s) (timestamped_chunks_ s) (safe_frontier_ s) x (chunks_ s)
    (free_chunks_list_ s) (next_allocation_id_ s) (stats_ s) (bins_ s).
Definition set_bins (x : list Bin) (s : bfc) : bfc :=
  mk_BFC (opts_ s) (memory_limit_ s) (curr_region_allocation_bytes_ s)
    (total_region_allocated_bytes_ s) (started_backpedal_ s) (coalesce_regions_ s)
    (sub_allocator_ s) (timestamped_chunks_ s) (safe_frontier_ s) (regions_ s) (chunks_ s)
    (free_chunks_list_ s) (next_allocation_id_ s) (stats_ s) x.
Definition set_free_chunks_list (x : Z) (s : bfc) : bfc :=
  mk_BFC (opts_ s) (memory_limit_ s) (curr_region_allocation_bytes_ s)
    (total_region_allocated_bytes_ s) (started_backpedal_ s) (coalesce_regions_ s)
    (sub_allocator_ s) (timestamped_chunks_ s) (safe_frontier_ s) (regions_ s) (chunks_ s)
    x (next_allocation_id_ s) (stats_ s) (bins_ s).
Definition set_stats (x : AllocatorStats) (s : bfc) : bfc :=
  mk_BFC (opts_ s) (memory_limit_ s) (curr_region_allocation_bytes_ s)
    (total_region_allocated_bytes_ s) (started_backpedal_ s) (coalesce_regions_ s)
    (sub_allocator_ s) (timestamped_chunks_ s) (safe_frontier_ s) (regions_ s) (chunks_ s)
    (free_chunks_list_ s) (next_allocation_id_ s) x (bins_ s).
Definition set_next_allocation_id (x : Z) (s : bfc) : bfc :=
  mk_BFC (opts_ s) (memory_limit_ s) (curr_region_allocation_bytes_ s)
    (total_region_allocated_bytes_ s) (started_backpedal_ s) (coalesce_regions_ s)
    (sub_allocator_ s) (timestamped_chunks_ s) (safe_frontier_ s) (regions_ s) (chunks_ s)
    (free_chunks_list_ s) x (stats_ s) (bins_ s).
Definition set_curr_region (x : Z) (s : bfc) : bfc :=
  mk_BFC (opts_ s) (memory_limit_ s) x
    (total_region_allocated_bytes_ s) (started_backpedal_ s) (coalesce_regions_ s)
    (sub_allocator_ s) (timestamped_chunks_ s) (safe_frontier_ s) (regions_ s) (chunks_ s)
    (free_chunks_list_ s) (next_allocation_id_ s) (stats_ s) (bins_ s).
Definition set_total_region (x : Z) (s : bfc) : bfc :=
  mk_BFC (opts_ s) (memory_limit_ s) (curr_region_allocation_bytes_ s)
    x (started_backpedal_ s) (coalesce_regions_ s)
    (sub_allocator_ s) (timestamped_chunks_ s) (safe_frontier_ s) (regions_ s) (chunks_ s)
    (free_chunks_list_ s) (next_allocation_id_ s) (stats_ s) (bins_ s).
Definition set_started_backpedal (x : bool) (s : bfc) : bfc :=
  mk_BFC (opts_ s) (memory_limit_ s) (curr_region_allocation_bytes_ s)
    (total_region_allocated_bytes_ s) x (coalesce_regions_ s)
    (sub_allocator_ s) (timestamped_chunks_ s) (safe_frontier_ s) (regions_ s) (chunks_ s)
    (free_chunks_list_ s) (next_allocation_id_ s) (stats_ s) (bins_ s).
Definition set_sub_allocator (x : S) (s : bfc) : bfc :=
  mk_BFC (opts_ s) (memory_limit_ s) (curr_region_allocation_bytes_ s)
    (total_region_allocated_bytes_ s) (started_backpedal_ s) (coalesce_regions_ s)
    x (timestamped_chunks_ s) (safe_frontier_ s) (regions_ s) (chunks_ s)
    (free_chunks_list_ s) (next_allocation_id_ s) (stats_ s) (bins_ s).
Definition set_timestamped_chunks (x : list Z) (s : bfc) : bfc :=
  mk_BFC (opts_ s) (memory_limit_ s) (curr_region_allocation_bytes_ s)
    (total_region_allocated_bytes_ s) (started_backpedal_ s) (coalesce_regions_ s)
    (sub_allocator_ s) x (safe_frontier_ s) (regions_ s) (chunks_ s)
    (free_chunks_list_ s) (next_allocation_id_ s) (stats_ s) (bins_ s).
Definition set_safe_frontier (x : Z) (s : bfc) : bfc :=
  mk_BFC (opts_ s) (memory_limit_ s) (curr_region_allocation_bytes_ s)
    (total_region_allocated_bytes_ s) (started_backpedal_ s) (coalesce_regions_ s)
    (sub_allocator_ s) (timestamped_chunks_ s) x (regions_ s) (chunks_ s)
    (free_chunks_list_ s) (next_allocation_id_ s) (stats_ s) (bins_ s).

Definition on_sub {A} (m : ST S A) : M A := fun s =>
  match m (sub_allocator_ s) with
  | Ok (a, x) => Ok (a, set_sub_allocator x s)
  | Fault e => Fault e
  end.

(** ** Access to chunks, regions and bins *)

Definition ChunkFromHandle (h : Z) : M Chunk := fun s =>
  (ASSERT (0 <=? h);;
   ASSERT (h <? u64 (i32 (Z.of_nat (length (chunks_ s)))));;
   c ← in_range (chunks_ s !! Z.to_nat h);
   mret (c, s)).

(** A write through the [Chunk*] of handle [h]. *)
Definition update_chunk (h : Z) (f : Chunk -> Chunk) : M unit :=
  modify (fun s => set_chunks (alter f (Z.to_nat h) (chunks_ s)) s).

Definition get_handle (p : Z) : M Z := fun s =>
  ('(_, r) ← RegionFor p (regions_ s);
   h ← region_get_handle r p;
   mret (h, s)).

Definition set_handle (p h : Z) : M unit := fun s =>
  ('(i, r) ← RegionFor p (regions_ s);
   r ← region_set_handle p h r;
   mret (tt, set_regions (<[i := r]> (regions_ s)) s)).

Definition erase (p : Z) : M unit := set_handle p kInvalidChunkHandle.

(** [ChunkComparator]: by size, then by address. *)
Definition chunk_less (a b : Chunk) : bool :=
  if negb (size a =? size b) then size a <? size b else ptr a <? ptr b.

Definition ChunkComparator (ha hb : Z) : M bool :=
  a ← ChunkFromHandle ha;
  b ← ChunkFromHandle hb;
  mret (chunk_less a b).

(** [std::set::insert]: nothing when an equivalent element is there. *)
Fixpoint set_insert (h : Z) (l : list Z) : M (list Z) :=
  match l with
  | [] => mret [h]
  | x :: l' =>
      before ← ChunkComparator h x;
      if (before : bool) then mret (h :: l)
      else
        after ← ChunkComparator x h;
        if (after : bool) then l' ← set_insert h l'; mret (x :: l')
        else mret l
  end.

(** [std::set::erase] by key: also the number of elements erased. *)
Fixpoint set_erase (h : Z) (l : list Z) : M (Z * list Z) :=
  match l with
  | [] => mret (0, [])
  | x :: l' =>
      after ← ChunkComparator x h;
      if (after : bool) then
        r ← set_erase h l';
        let '(n, l') := (r : Z * list Z) in
        mret (n, x :: l')
      else
        before ← ChunkComparator h x;
        if (before : bool) then mret (0, l) else mret (1, l')
  end.

(** [std::set::erase] by iterator. *)
Fixpoint set_erase_iter (h : Z) (l : list Z) : list Z :=
  match l with
  | x :: l => if x =? h then l else x :: set_erase_iter h l
  | [] => []
  end.

(** [BinFromIndex(b)->free_chunks]. *)
Definition bin_chunks (b : Z) : M (list Z) := fun s =>
  (bin ← in_range (bins_ s !! Z.to_nat b); mret (free_chunks bin, s)).
Definition set_bin_chunks (b : Z) (l : list Z) : M unit :=
  modify (fun s => set_bins (alter (fun bin => mk_Bin (bin_size bin) l) (Z.to_nat b) (bins_ s)) s).

Definition InsertFreeChunkIntoBin (h : Z) : M unit :=
  c ← ChunkFromHandle h;
  lift (CHECK (negb (in_use c) && (bin_num c =? kInvalidBinNum)));;
  let b := BinNumForSize (size c) in
  update_chunk h (set_bin_num b);;
  l ← bin_chunks b;
  l ← set_insert h l;
  set_bin_chunks b l.

(** The iterator is given by the bin it points into and its element. *)
Definition RemoveFreeChunkIterFromBin (b h : Z) : M unit :=
  c ← ChunkFromHandle h;
  lift (CHECK (negb (in_use c) && negb (bin_num c =? kInvalidBinNum)));;
  l ← bin_chunks b;
  set_bin_chunks b (set_erase_iter h l);;
  update_chunk h (set_bin_num kInvalidBinNum).

Definition RemoveFreeChunkFromBin (h : Z) : M unit :=
  c ← ChunkFromHandle h;
  lift (CHECK (negb (in_use c) && negb (bin_num c =? kInvalidBinNum)));;
  l ← bin_chunks (bin_num c);
  r ← set_erase h l;
  let '(n, l) := (r : Z * list Z) in
  set_bin_chunks (bin_num c) l;;
  lift (CHECK (0 <? n));;
  update_chunk h (set_bin_num kInvalidBinNum).

(** ** Chunk handles *)

Definition AllocateChunk : M Z :=
  s ← get;
  if negb (free_chunks_list_ s =? kInvalidChunkHandle) then
    let h := free_chunks_list_ s in
    c ← ChunkFromHandle h;
    modify (set_free_chunks_list (next c));;
    mret h
  else
    modify (set_chunks (chunks_ s ++ [new_Chunk]));;
    mret (Z.of_nat (length (chunks_ s))).

Definition DeallocateChunk (h : Z) : M unit :=
  ChunkFromHandle h;;
  s ← get;
  update_chunk h (fun c =>
    set_next (free_chunks_list_ s) (set_bin_num kInvalidBinNum (set_allocation_id (-1) c)));;
  modify (set_free_chunks_list h).

Definition DeleteChunk (h : Z) : M unit :=
  c ← ChunkFromHandle h;
  erase (ptr c);;
  DeallocateChunk h.

(** ** Merging and splitting *)

Definition Merge (h1 h2 : Z) : M unit :=
  c1 ← ChunkFromHandle h1;
  c2 ← ChunkFromHandle h2;
  lift (CHECK (negb (in_use c1) && negb (in_use c2)));;
  let h3 := next c2 in
  update_chunk h1 (set_next h3);;
  c2 ← ChunkFromHandle h2;
  lift (CHECK (prev c2 =? h1));;
  (if negb (h3 =? kInvalidChunkHandle) then
     ChunkFromHandle h3;;
     update_chunk h3 (set_prev h1)
   else mret tt);;
  c2 ← ChunkFromHandle h2;
  update_chunk h1 (fun c1 => set_size (u64 (size c1 + size c2)) c1);;
  c2 ← ChunkFromHandle h2;
  update_chunk h1 (fun c1 =>
    set_freed_at_count (Z.max (freed_at_count c1) (freed_at_count c2)) c1);;
  DeleteChunk h2.

Definition SplitChunk (h num_bytes : Z) : M unit :=
  h_new_chunk ← AllocateChunk;
  c ← ChunkFromHandle h;
  lift (CHECK (negb (in_use c) && (bin_num c =? kInvalidBinNum)));;
  ChunkFromHandle h_new_chunk;;
  update_chunk h_new_chunk (set_ptr (u64 (ptr c + num_bytes)));;
  set_handle (u64 (ptr c + num_bytes)) h_new_chunk;;
  c ← ChunkFromHandle h;
  update_chunk h_new_chunk (set_size (u64 (size c - num_bytes)));;
  update_chunk h (set_size num_bytes);;
  update_chunk h_new_chunk (set_allocation_id (-1));;
  c ← ChunkFromHandle h;
  update_chunk h_new_chunk (set_freed_at_count (freed_at_count c));;
  c ← ChunkFromHandle h;
  let h_neighbor := next c in
  update_chunk h_new_chunk (set_prev h);;
  update_chunk h_new_chunk (set_next h_neighbor);;
  update_chunk h (set_next h_new_chunk);;
  (if negb (h_neighbor =? kInvalidChunkHandle) then
     ChunkFromHandle h_neighbor;;
     update_chunk h_neighbor (set_prev h_new_chunk)
   else mret tt);;
  InsertFreeChunkIntoBin h_new_chunk.

(** The test on a neighbour [hn] in [TryToCoalesce]: it exists, is free, and its
    timestamp allows the merge. *)
Definition mergeable (hn : Z) (ignore_freed_at : bool) : M bool :=
  if negb (hn =? kInvalidChunkHandle) then
    n ← ChunkFromHandle hn;
    mret (negb (in_use n) && ((freed_at_count n =? 0) || ignore_freed_at))
  else mret false.

Definition TryToCoalesce (h : Z) (ignore_freed_at : bool) : M Z :=
  c ← ChunkFromHandle h;
  if negb ignore_freed_at && (0 <? freed_at_count c) then mret h
  else
    with_next ← mergeable (next c) ignore_freed_at;
    (if (with_next : bool) then
       RemoveFreeChunkFromBin (next c);;
       c ← ChunkFromHandle h;
       Merge h (next c)
     else mret tt);;
    c ← ChunkFromHandle h;
    with_prev ← mergeable (prev c) ignore_freed_at;
    if (with_prev : bool) then
      let coalesced_chunk := prev c in
      RemoveFreeChunkFromBin (prev c);;
      c ← ChunkFromHandle h;
      Merge (prev c) h;;
      mret coalesced_chunk
    else mret h.

(** ** Finding a chunk *)

(** A nonnegative integer rounded to [prec] significant bits, ties to even: the
    value of a float or a double for it. *)
Definition round_to (prec n : Z) : Z :=
  let s := Z.log2 n + 1 - prec in
  if s <=? 0 then n
  else
    let q := Z.shiftr n s in
    let r := n - Z.shiftl q s in
    let half := Z.shiftl 1 (s - 1) in
    let up := if r <? half then false else if half <? r then true else negb (Z.even q) in
    Z.shiftl (if up then q + 1 else q) s.

(** [max_internal_fragmentation_bytes], an [int64_t]. *)
Definition max_internal_fragmentation_bytes (s : bfc) : Z :=
  let '(num, exp) := fragmentation_fraction (opts_ s) in
  if 0 <? num then
    i64 (Z.shiftr (round_to 53 (num * round_to 53 (memory_limit_ s))) exp)
  else Z.shiftl 128 20.

(** The loop over one bin: the first chunk that is large enough. *)
Fixpoint scan_bin (l : list Z) (rounded_bytes freed_before : Z) : M (option Z) :=
  match l with
  | [] => mret None
  | h :: l =>
      chunk ← ChunkFromHandle h;
      lift (ASSERT (negb (in_use chunk)));;
      if (0 <? freed_before) && (freed_before <? freed_at_count chunk)
      then scan_bin l rounded_bytes freed_before
      else if rounded_bytes <=? size chunk then mret (Some h)
      else scan_bin l rounded_bytes freed_before
  end.

Definition count_alloc (chunk_size : Z) (st : AllocatorStats) : AllocatorStats :=
  let in_use := i64 (bytes_in_use st + chunk_size) in
  mk_stats (num_allocs st + 1) in_use
    (Z.max (peak_bytes_in_use st) in_use)
    (i64 (Z.max (u64 (largest_alloc_size st)) chunk_size))
    (bytes_limit st).

(** The body of the loop once a chunk [h] of the bin [b] is found. *)
Definition take_chunk (b h rounded_bytes num_bytes : Z) : M Z :=
  RemoveFreeChunkIterFromBin b h;;
  chunk ← ChunkFromHandle h;
  s ← get;
  (if (u64 (rounded_bytes * 2) <=? size chunk)
      || (u64 (max_internal_fragmentation_bytes s) <=? u64 (i64 (size chunk) - rounded_bytes))
   then SplitChunk h rounded_bytes
   else mret tt);;
  s ← get;
  update_chunk h (set_requested_size num_bytes);;
  update_chunk h (set_allocation_id (next_allocation_id_ s));;
  modify (set_next_allocation_id (next_allocation_id_ s + 1));;
  chunk ← ChunkFromHandle h;
  modify (fun s => set_stats (count_alloc (size chunk) (stats_ s)) s);;
  mret (ptr chunk).

(** The loop over the bins from [b] on; [n] is the number of bins left. *)
Fixpoint FindChunkPtr_loop (n : nat) (b rounded_bytes num_bytes freed_before : Z) :
    M (option Z) :=
  match n with
  | O => mret None
  | Datatypes.S n =>
      l ← bin_chunks b;
      found ← scan_bin l rounded_bytes freed_before;
      match (found : option Z) with
      | Some h => p ← take_chunk b h rounded_bytes num_bytes; mret (Some p)
      | None => FindChunkPtr_loop n (b + 1) rounded_bytes num_bytes freed_before
      end
  end.

Definition FindChunkPtr (b rounded_bytes num_bytes freed_before : Z) : M (option Z) :=
  FindChunkPtr_loop (Z.to_nat (kNumBins - b)) b rounded_bytes num_bytes freed_before.

(** ** Extend *)

(** [while (rounded_bytes > curr) curr *= 2]: also whether it ran. *)
Fixpoint increase_region (fuel : nat) (rounded_bytes curr : Z) (increased : bool) :
    result (Z * bool) :=
  if curr <? rounded_bytes then
    match fuel with
    | O => Fault NoFuel
    | Datatypes.S fuel => increase_region fuel rounded_bytes (u64 (curr * 2)) true
    end
  else mret (curr, increased).

(** [bytes * kBackpedalFactor]: the float 0.9 is 15099494 / 2 ^ 24. *)
Definition kBackpedalFactor_num : Z := 15099494.
Definition backpedal_bytes (bytes : Z) : Z :=
  Z.shiftr (round_to 24 (round_to 24 bytes * kBackpedalFactor_num)) 24.

(** The loop that tries to allocate less memory: the pointer with the bytes
    received, and [bytes]. *)
Fixpoint backpedal (fuel : nat) (alignment rounded_bytes bytes : Z) :
    M (option (Z * Z) * Z) :=
  match fuel with
  | O => lift (Fault NoFuel)
  | Datatypes.S fuel =>
      bytes ← lift (RoundedBytes (backpedal_bytes bytes));
      if bytes <? rounded_bytes then mret (None, bytes)
      else
        mem ← on_sub (sub_Alloc alignment bytes);
        match (mem : option (Z * Z)) with
        | Some _ => mret (mem, bytes)
        | None => backpedal fuel alignment rounded_bytes bytes
        end
  end.

(** The last chunk of the chain that [h] is in. *)
Fixpoint last_chunk (fuel : nat) (h : Z) : M Z :=
  match fuel with
  | O => lift (Fault NoFuel)
  | Datatypes.S fuel =>
      c ← ChunkFromHandle h;
      if negb (next c =? kInvalidChunkHandle) then last_chunk fuel (next c) else mret h
  end.

(** A bound on the length of a chain of chunks. *)
Definition chain_fuel : M nat := gets (fun s => Datatypes.S (length (chunks_ s))).

(** The memory obtained becomes a region, or the end of one, with one chunk. *)
Definition add_region (mem_addr bytes_received : Z) : M unit :=
  s ← get;
  r ← (if coalesce_regions_ s
       then lift (AddOrExtendAllocationRegion mem_addr bytes_received (regions_ s))
       else l ← lift (AddAllocationRegion mem_addr bytes_received (regions_ s));
            mret (None, l));
  let '(maybe_extended_region, regions) := (r : option nat * list AllocationRegion) in
  modify (set_regions regions);;
  h ← AllocateChunk;
  ChunkFromHandle h;;
  update_chunk h (fun c =>
    set_freed_at_count 0 (set_next kInvalidChunkHandle (set_prev kInvalidChunkHandle
      (set_allocation_id (-1) (set_size bytes_received (set_ptr mem_addr c))))));;
  set_handle mem_addr h;;
  (match maybe_extended_region with
   | Some i =>
       s ← get;
       region ← lift (in_range (regions_ s !! i));
       p ← lift (region_get_handle region (region_ptr region));
       fuel ← chain_fuel;
       p ← last_chunk fuel p;
       update_chunk h (set_prev p);;
       update_chunk p (set_next h)
   | None => mret tt
   end);;
  h ← TryToCoalesce h false;
  InsertFreeChunkIntoBin h.

Definition increase_fuel : nat := 64.
Definition backpedal_fuel : nat := 1024.

Definition Extend (alignment rounded_bytes : Z) : M bool :=
  s ← get;
  let available_bytes := u64 (memory_limit_ s - total_region_allocated_bytes_ s) in
  let available_bytes := available_bytes / kMinAllocationSize * kMinAllocationSize in
  if available_bytes <? rounded_bytes then mret false
  else
    r ← lift (increase_region increase_fuel rounded_bytes (curr_region_allocation_bytes_ s) false);
    let '(curr, increased_allocation) := (r : Z * bool) in
    modify (set_curr_region (Z.min curr (max_allocation_size_bytes (opts_ s))));;
    s ← get;
    let bytes := Z.min (curr_region_allocation_bytes_ s) available_bytes in
    mem ← on_sub (sub_Alloc alignment bytes);
    r ← (match (mem : option (Z * Z)) with
         | None =>
             if negb (started_backpedal_ s) then
               modify (set_started_backpedal true);;
               backpedal backpedal_fuel alignment rounded_bytes bytes
             else mret (None, bytes)
         | Some _ => mret (mem, bytes)
         end);
    match (r : option (Z * Z) * Z) with
    | (None, _) => mret false
    | (Some (mem_addr, bytes_received), bytes) =>
        (if negb increased_allocation then
           modify (fun s => set_curr_region
             (Z.min (u64 (curr_region_allocation_bytes_ s * 2))
                    (max_allocation_size_bytes (opts_ s))) s)
         else mret tt);;
        modify (fun s => set_total_region (u64 (total_region_allocated_bytes_ s + bytes)) s);;
        add_region mem_addr bytes_received;;
        mret true
    end.

(** ** Giving regions back *)

(** Whether a chunk of the chain starting at [h] is in use. *)
Fixpoint any_use (fuel : nat) (h : Z) : M bool :=
  match fuel with
  | O => lift (Fault NoFuel)
  | Datatypes.S fuel =>
      if h =? kInvalidChunkHandle then mret false
      else
        c ← ChunkFromHandle h;
        if in_use c then mret true else any_use fuel (next c)
  end.

(** The pointers of the free regions and the sum of their sizes. *)
Fixpoint find_free_regions (l : list AllocationRegion) (ptrs : list Z) (total_free_bytes : Z) :
    M (list Z * Z) :=
  match l with
  | [] => mret (ptrs, total_free_bytes)
  | region :: l =>
      h ← get_handle (region_ptr region);
      fuel ← chain_fuel;
      used ← any_use fuel h;
      if (used : bool) then find_free_regions l ptrs total_free_bytes
      else find_free_regions l (region_ptr region :: ptrs)
             (u64 (total_free_bytes + memory_size region))
  end.

(** Removes the chunks of the chain starting at [h] from the bins and deletes them. *)
Fixpoint delete_chain (fuel : nat) (h : Z) : M unit :=
  match fuel with
  | O => lift (Fault NoFuel)
  | Datatypes.S fuel =>
      if h =? kInvalidChunkHandle then mret tt
      else
        c ← ChunkFromHandle h;
        (if negb (bin_num c =? kInvalidBinNum) then RemoveFreeChunkFromBin h else mret tt);;
        c ← ChunkFromHandle h;
        DeleteChunk h;;
        delete_chain fuel (next c)
  end.

(** The loop over the regions from index [i] on; [n] regions are left. *)
Fixpoint DeallocateRegions_loop (n i : nat) (region_ptrs : list Z) : M unit :=
  match n with
  | O => mret tt
  | Datatypes.S n =>
      s ← get;
      it ← lift (in_range (regions_ s !! i));
      if negb (bool_decide (region_ptr it ∈ region_ptrs)) then
        DeallocateRegions_loop n (Datatypes.S i) region_ptrs
      else
        h ← get_handle (region_ptr it);
        fuel ← chain_fuel;
        delete_chain fuel h;;
        on_sub (sub_Free (region_ptr it) (memory_size it));;
        modify (fun s => set_total_region (u64 (total_region_allocated_bytes_ s - memory_size it)) s);;
        modify (fun s => set_regions (RemoveAllocationRegion i (regions_ s)) s);;
        DeallocateRegions_loop n i region_ptrs
  end.

Definition DeallocateRegions (region_ptrs : list Z) : M unit :=
  s ← get;
  DeallocateRegions_loop (length (regions_ s)) 0 region_ptrs.

Definition DeallocateFreeRegions (rounded_bytes : Z) : M bool :=
  s ← get;
  if negb (garbage_collection (opts_ s)) then mret false
  else
    r ← find_free_regions (regions_ s) [] 0;
    let '(free_region_ptrs, total_free_bytes) := (r : list Z * Z) in
    if total_free_bytes =? 0 then mret false
    else
      let available_bytes :=
        u64 (u64 (memory_limit_ s - total_region_allocated_bytes_ s) + total_free_bytes) in
      if available_bytes <? rounded_bytes then mret false
      else
        DeallocateRegions free_region_ptrs;;
        mret true.

(** ** Timestamped chunks *)

(** The first loop of [MergeTimestampedChunks] over the queue taken out of the
    state: what goes to [to_merge] and to [new_ts_queue]. *)
Fixpoint sort_timestamped (queue : list Z) (required_bytes : Z) (to_merge new_ts_queue : list Z) :
    M (list Z * list Z) :=
  match queue with
  | [] => mret (to_merge, new_ts_queue)
  | h0 :: queue =>
      lift (ASSERT (negb (h0 =? kInvalidChunkHandle)));;
      c ← ChunkFromHandle h0;
      h ← get_handle (ptr c);
      if h =? kInvalidChunkHandle then sort_timestamped queue required_bytes to_merge new_ts_queue
      else if in_use c || (bin_num c =? kInvalidBinNum)
      then sort_timestamped queue required_bytes to_merge new_ts_queue
      else if freed_at_count c =? 0
      then sort_timestamped queue required_bytes (to_merge ++ [ptr c]) new_ts_queue
      else
        lift (ASSERT (negb (bin_num c =? kInvalidBinNum)));;
        s ← get;
        if freed_at_count c <? safe_frontier_ s then
          update_chunk h0 (set_freed_at_count 0);;
          sort_timestamped queue required_bytes (to_merge ++ [ptr c]) new_ts_queue
        else if 0 <? required_bytes
        then sort_timestamped queue required_bytes (to_merge ++ [ptr c]) new_ts_queue
        else sort_timestamped queue required_bytes to_merge (new_ts_queue ++ [h])
  end.

Definition push_timestamped (h : Z) : M unit :=
  modify (fun s => set_timestamped_chunks (timestamped_chunks_ s ++ [h]) s).

Fixpoint merge_timestamped (to_merge : list Z) (required_bytes : Z) (satisfied : bool) : M bool :=
  match to_merge with
  | [] => mret satisfied
  | p :: to_merge =>
      h ← get_handle p;
      if h =? kInvalidChunkHandle then merge_timestamped to_merge required_bytes satisfied
      else if (required_bytes =? 0) || negb satisfied then
        c ← ChunkFromHandle h;
        lift (ASSERT (negb (bin_num c =? kInvalidBinNum)));;
        lift (ASSERT (negb (in_use c)));;
        RemoveFreeChunkFromBin h;;
        new_h ← TryToCoalesce h (0 <? required_bytes);
        InsertFreeChunkIntoBin new_h;;
        if 0 <? required_bytes then
          c ← ChunkFromHandle new_h;
          (if negb (new_h =? h) && (0 <? freed_at_count c)
           then push_timestamped new_h else mret tt);;
          merge_timestamped to_merge required_bytes
            (if required_bytes <=? size c then true else satisfied)
        else merge_timestamped to_merge required_bytes satisfied
      else
        push_timestamped h;;
        merge_timestamped to_merge required_bytes satisfied
  end.

Definition MergeTimestampedChunks (required_bytes : Z) : M bool :=
  s ← get;
  modify (set_timestamped_chunks []);;
  r ← sort_timestamped (timestamped_chunks_ s) required_bytes [] [];
  let '(to_merge, new_ts_queue) := (r : list Z * list Z) in
  s ← get;
  lift (ASSERT (bool_decide (timestamped_chunks_ s = [])));;
  modify (set_timestamped_chunks new_ts_queue);;
  merge_timestamped to_merge required_bytes (required_bytes =? 0).

(** Without another thread raising the frontier in between, the loop around the
    compare-and-swap is one store. *)
Definition SetSafeFrontier (count : Z) : M unit :=
  modify (fun s => if safe_frontier_ s <? count then set_safe_frontier count s else s).

(** ** Allocation *)

(** [if (m()) { p = FindChunkPtr(...); if (p) return p; } rest]. *)
Definition retry_find (m : M bool) (find rest : M (option Z)) : M (option Z) :=
  b ← m;
  if (b : bool) then
    p ← find;
    match (p : option Z) with Some _ => mret p | None => rest end
  else rest.

Definition AllocateRawInternal (unused_alignment num_bytes freed_before : Z) : M (option Z) :=
  s ← get;
  if num_bytes =? 0 then mret None
  else if max_allocation_size_bytes (opts_ s) <? num_bytes then mret None
  else
    rounded_bytes ← lift (RoundedBytes num_bytes);
    let b := BinNumForSize rounded_bytes in
    (if negb (bool_decide (timestamped_chunks_ s = []))
     then MergeTimestampedChunks 0;; mret tt else mret tt);;
    let find := FindChunkPtr b rounded_bytes num_bytes freed_before in
    retry_find (mret true) find
    (retry_find (Extend unused_alignment rounded_bytes) find
    (retry_find
       (s ← get;
        if (freed_before =? 0) && negb (bool_decide (timestamped_chunks_ s = []))
        then MergeTimestampedChunks rounded_bytes else mret false) find
    (retry_find
       (dealloc ← DeallocateFreeRegions rounded_bytes;
        if (dealloc : bool) then Extend unused_alignment rounded_bytes else mret false) find
    (mret None)))).

(** ** Deallocation *)

Definition RequestedSize (p : Z) : M Z :=
  lift (CHECK (negb (p =? 0)));;
  h ← get_handle p;
  lift (CHECK (negb (h =? kInvalidChunkHandle)));;
  c ← ChunkFromHandle h;
  mret (requested_size c).

Definition AllocatedSize (p : Z) : M Z :=
  h ← get_handle p;
  lift (CHECK (negb (h =? kInvalidChunkHandle)));;
  c ← ChunkFromHandle h;
  mret (size c).

Definition AllocationId (p : Z) : M Z :=
  h ← get_handle p;
  lift (CHECK (negb (h =? kInvalidChunkHandle)));;
  c ← ChunkFromHandle h;
  mret (allocation_id c).

Definition MarkFree (h : Z) : M unit :=
  c ← ChunkFromHandle h;
  lift (CHECK (in_use c && (bin_num c =? kInvalidBinNum)));;
  update_chunk h (set_allocation_id (-1));;
  modify (fun s =>
    let st := stats_ s in
    set_stats (mk_stats (num_allocs st) (i64 (bytes_in_use st - size c))
                 (peak_bytes_in_use st) (largest_alloc_size st) (bytes_limit st)) s).

Definition DeallocateRawInternal (p : Z) : M unit :=
  if p =? 0 then mret tt
  else
    h ← get_handle p;
    lift (CHECK (negb (h =? kInvalidChunkHandle)));;
    ChunkFromHandle h;;
    MarkFree h;;
    h ← TryToCoalesce h false;
    InsertFreeChunkIntoBin h.

(** The log line reads the requested size first. *)
Definition DeallocateRaw (p : Z) : M unit :=
  (if negb (p =? 0) then RequestedSize p;; mret tt else mret tt);;
  DeallocateRawInternal p.

(** ** Allocation with retries *)

Record AllocationAttributes := mk_attributes {
  retry_on_failure : bool;
  allocation_will_be_logged : bool;
  freed_by_func : option (M Z) }.

Definition freed_by_count (attr : AllocationAttributes) : M Z :=
  match freed_by_func attr with Some f => f | None => mret 0 end.

Definition kMaxMillisToWait : Z := 10000.

(** [now] reads the clock and [wait_for] is what other threads do to the
    allocator while this one sleeps in [AllocatorRetry]. *)
Definition AllocateRawInternalWithRetry (now : M Z) (wait_for : Z -> M unit) (fuel : nat)
    (unused_alignment num_bytes : Z) (attr : AllocationAttributes) : M (option Z) :=
  count ← freed_by_count attr;
  r ← AllocateRawInternal unused_alignment num_bytes count;
  match (r : option Z) with
  | Some _ => mret r
  | None =>
      AllocatorRetry.AllocateRaw now wait_for
        (fun a nb v => count ← freed_by_count attr; AllocateRawInternal a nb count)
        fuel kMaxMillisToWait unused_alignment num_bytes
  end.

Definition AllocateRaw (now : M Z) (wait_for : Z -> M unit) (fuel : nat)
    (unused_alignment num_bytes : Z) (attr : AllocationAttributes) : M (option Z) :=
  s ← get;
  if negb (allow_retry_on_failure (opts_ s)) || negb (retry_on_failure attr) then
    count ← freed_by_count attr;
    AllocateRawInternal unused_alignment num_bytes count
  else AllocateRawInternalWithRetry now wait_for fuel unused_alignment num_bytes attr.

(** ** Statistics and debugging aids *)

Definition GetStats : M AllocatorStats := gets stats_.

Definition ClearStats : M bool :=
  modify (fun s =>
    let st := stats_ s in
    set_stats (mk_stats 0 (bytes_in_use st) (bytes_in_use st) 0 (bytes_limit st)) s);;
  mret true.

Definition TracksAllocationSizes : bool := true.

Definition GetMemoryType : AllocatorMemoryType := sub_GetMemoryType.

(** [n] bins are left, the last of them first. *)
Fixpoint LargestFreeChunk_loop (n : nat) : M Z :=
  match n with
  | O => mret 0
  | Datatypes.S n =>
      l ← bin_chunks (Z.of_nat n);
      match last (l : list Z) with
      | Some h => c ← ChunkFromHandle h; mret (i64 (size c))
      | None => LargestFreeChunk_loop n
      end
  end.
Definition LargestFreeChunk : M Z := LargestFreeChunk_loop (Z.to_nat kNumBins).

Record BinDebugInfo := mk_BinDebugInfo {
  total_bytes_in_use : Z;
  total_bytes_in_bin : Z;
  total_requested_bytes_in_use : Z;
  total_chunks_in_use : Z;
  total_chunks_in_bin : Z }.

Definition count_in_bin (c : Chunk) (b : BinDebugInfo) : BinDebugInfo :=
  mk_BinDebugInfo
    (if in_use c then u64 (total_bytes_in_use b + size c) else total_bytes_in_use b)
    (u64 (total_bytes_in_bin b + size c))
    (if in_use c then u64 (total_requested_bytes_in_use b + requested_size c)
     else total_requested_bytes_in_use b)
    (if in_use c then u64 (total_chunks_in_use b + 1) else total_chunks_in_use b)
    (u64 (total_chunks_in_bin b + 1)).

(** [std::set::count]. *)
Fixpoint set_count (h : Z) (l : list Z) : M Z :=
  match l with
  | [] => mret 0
  | x :: l =>
      after ← ChunkComparator x h;
      if (after : bool) then set_count h l
      else before ← ChunkComparator h x; mret (if (before : bool) then 0 else 1)
  end.

Fixpoint bin_debug_chain (fuel : nat) (h : Z) (bin_infos : list BinDebugInfo) :
    M (list BinDebugInfo) :=
  match fuel with
  | O => lift (Fault NoFuel)
  | Datatypes.S fuel =>
      if h =? kInvalidChunkHandle then mret bin_infos
      else
        c ← ChunkFromHandle h;
        let b := BinNumForSize (size c) in
        let bin_infos := alter (count_in_bin c) (Z.to_nat b) bin_infos in
        (if in_use c then mret tt
         else
           l ← bin_chunks b;
           n ← set_count h l;
           lift (CHECK (n =? 1));;
           lift (CHECK (bin_num c =? b)));;
        bin_debug_chain fuel (next c) bin_infos
  end.

Fixpoint bin_debug_regions (l : list AllocationRegion) (bin_infos : list BinDebugInfo) :
    M (list BinDebugInfo) :=
  match l with
  | [] => mret bin_infos
  | region :: l =>
      h ← get_handle (region_ptr region);
      fuel ← chain_fuel;
      bin_infos ← bin_debug_chain fuel h bin_infos;
      bin_debug_regions l bin_infos
  end.

Definition get_bin_debug_info : M (list BinDebugInfo) :=
  s ← get;
  bin_debug_regions (regions_ s) (replicate (Z.to_nat kNumBins) (mk_BinDebugInfo 0 0 0 0 0)).

(** *** RenderOccupancy *)

Definition resolution : Z := 100.

(** Writes [n] copies of [c] from index [i] on. *)
Fixpoint fill_cells (n i : nat) (c : ascii) (rendered : list ascii) : list ascii :=
  match n with
  | O => rendered
  | Datatypes.S n => fill_cells n (Datatypes.S i) c (<[i := c]> rendered)
  end.

Definition RenderRegion (rendered : list ascii) (total_render_size offset base_ptr ptr size : Z)
    (c : ascii) : result (list ascii) :=
  let start_location :=
    u64 (u64 (ptr - base_ptr + offset) * resolution) / total_render_size in
  CHECK (0 <=? start_location);;
  CHECK (start_location <? resolution);;
  let end_location :=
    u64 (u64 (ptr + size - 1 - base_ptr + offset) * resolution) / total_render_size in
  CHECK (0 <=? end_location);;
  CHECK (end_location <? resolution);;
  mret (fill_cells (Z.to_nat (end_location + 1 - start_location)) (Z.to_nat start_location)
          c rendered).

Fixpoint render_chain (fuel : nat) (h total_region_size region_offset : Z)
    (region : AllocationRegion) (rendered : list ascii) : M (list ascii) :=
  match fuel with
  | O => lift (Fault NoFuel)
  | Datatypes.S fuel =>
      if h =? kInvalidChunkHandle then mret rendered
      else
        c ← ChunkFromHandle h;
        rendered ←
          (if in_use c then
             let wasted := u64 (size c - requested_size c) in
             rendered ←
               (if 0 <? wasted then
                  lift (RenderRegion rendered total_region_size
                          (u64 (region_offset + requested_size c)) (region_ptr region) (ptr c)
                          wasted "x"%char)
                else mret rendered);
             lift (RenderRegion rendered total_region_size region_offset (region_ptr region)
                     (ptr c) (requested_size c) "*"%char)
           else mret rendered);
        render_chain fuel (next c) total_region_size region_offset region rendered
  end.

Fixpoint render_regions (l : list AllocationRegion) (total_region_size region_offset : Z)
    (rendered : list ascii) : M (list ascii) :=
  match l with
  | [] => mret rendered
  | region :: l =>
      h ← get_handle (region_ptr region);
      fuel ← chain_fuel;
      rendered ← render_chain fuel h total_region_size region_offset region rendered;
      render_regions l total_region_size (u64 (region_offset + memory_size region)) rendered
  end.

(** The occupancy as its 100 characters, or [None] for the text saying that the
    allocator contains no memory. *)
Definition RenderOccupancy : M (option (list ascii)) :=
  s ← get;
  let total_region_size := foldl (fun n r => u64 (n + memory_size r)) 0 (regions_ s) in
  if total_region_size =? 0 then mret None
  else
    rendered ← lift (RenderRegion (replicate (Z.to_nat resolution) "000"%char)
                       total_region_size 0 0 0 total_region_size "_"%char);
    rendered ← render_regions (regions_ s) total_region_size 0 rendered;
    mret (Some rendered).

(** ** Construction and destruction *)

(** The bins built so far and the CHECKs made after each. *)
Fixpoint make_bins (n : nat) (b : Z) : result (list Bin) :=
  match n with
  | O => mret []
  | Datatypes.S n =>
      let bin_size := BinNumToSize b in
      CHECK (BinNumForSize bin_size =? b);;
      CHECK (BinNumForSize (u64 (bin_size + 255)) =? b);;
      CHECK (BinNumForSize (u64 (u64 (bin_size * 2) - 1)) =? b);;
      (if b + 1 <? kNumBins then CHECK (negb (BinNumForSize (u64 (bin_size * 2)) =? b))
       else mret tt);;
      bins ← make_bins n (b + 1);
      mret (mk_Bin bin_size [] :: bins)
  end.

Definition make_BFCAllocator (sub_allocator : S) (total_memory : Z) (opts : Options) : result bfc :=
  curr ← RoundedBytes (if allow_growth opts then Z.min total_memory (Z.shiftl 2 20)
                       else total_memory);
  bins ← make_bins (Z.to_nat kNumBins) 0;
  mret (mk_BFC opts total_memory (Z.min curr (max_allocation_size_bytes opts)) 0 false
          SupportsCoalescing sub_allocator [] 0 [] [] kInvalidChunkHandle 1
          (mk_stats 0 0 0 0 (Some (i64 total_memory))) bins).

Fixpoint free_regions (l : list AllocationRegion) : M unit :=
  match l with
  | [] => mret tt
  | region :: l =>
      on_sub (sub_Free (region_ptr region) (memory_size region));;
      free_regions l
  end.

(** The destructor. *)
Definition destroy : M unit :=
  s ← get;
  free_regions (regions_ s).

End allocator.

Arguments mk_attributes {S}.
