(* ===== verification/BfcRep.v ===== *)
(** * The best-fit-with-coalescing allocator: its representation invariant

    An allocator state represents, for every region, the list of the blocks
    that tile it, and the list of the free chunk handles.  The invariant [rep]
    says how [chunks_] (a doubly linked list per region and a free list), the
    handle table of every region, the bins and the counters represent them.
    The lemmas evaluate the primitive operations on a represented state. *)

From S2P Require Import Prelude Bfc.

(** ** Blocks *)

Record blk := mk_blk {
  b_h : Z;      (* the handle of its chunk *)
  b_size : Z;
  b_req : Z;
  b_id : Z;
  b_ptr : Z;
  b_bin : Z }.

#[export] Instance blk_eq_dec : EqDecision blk.
Proof. solve_decision. Defined.

Definition chunk_of (p n : Z) (b : blk) : Chunk :=
  mk_Chunk (b_size b) (b_req b) (b_id b) (b_ptr b) p n (b_bin b) 0.

Definition b_used (b : blk) : bool := negb (b_id b =? -1).

Definition hd_h (bs : list blk) (nx : Z) : Z := match bs with b :: _ => b_h b | [] => nx end.
Fixpoint lst_h (p : Z) (bs : list blk) : Z :=
  match bs with b :: bs => lst_h (b_h b) bs | [] => p end.

(** The chunks of consecutive blocks, between the handles [p] and [nx]. *)
Fixpoint seg (lk : Z -> option Chunk) (p : Z) (bs : list blk) (nx : Z) : Prop :=
  match bs with
  | [] => True
  | b :: bs => lk (b_h b) = Some (chunk_of p (hd_h bs nx) b) /\ seg lk (b_h b) bs nx
  end.

(** The chunks of the free list that starts at [h]. *)
Fixpoint free_seg (lk : Z -> option Chunk) (h : Z) (fl : list Z) : Prop :=
  match fl with
  | [] => h = kInvalidChunkHandle
  | x :: fl => h = x /\ x <> kInvalidChunkHandle /\
      exists c, lk x = Some c /\ allocation_id c = -1 /\ bin_num c = kInvalidBinNum /\
                freed_at_count c = 0 /\ free_seg lk (next c) fl
  end.

Definition size_ok (n : Z) : Prop := 0 < n /\ n `mod` kMinAllocationSize = 0.

(** The blocks tile the memory from address [a] on. *)
Fixpoint tiles (a : Z) (bs : list blk) : Prop :=
  match bs with
  | [] => True
  | b :: bs => b_ptr b = a /\ size_ok (b_size b) /\ tiles (a + b_size b) bs
  end.

Definition total (bs : list blk) : Z := Zsum b_size bs.
Arguments total : simpl never.

Definition cells (n : Z) : nat := Z.to_nat (n / kMinAllocationSize).

(** The handle table of a region. *)
Definition row (h : Z) (n : nat) : list Z := h :: replicate (n - 1) kInvalidChunkHandle.
Arguments row : simpl never.
Definition table (bs : list blk) : list Z :=
  concat (map (fun b => row (b_h b) (cells (b_size b))) bs).

Arguments table : simpl never.

Record region_ok (r : AllocationRegion) (bs : list blk) : Prop := {
  ro_nonempty : bs <> [];
  ro_tiles : tiles (region_ptr r) bs;
  ro_size : memory_size r = total bs;
  ro_end : end_ptr r = region_ptr r + total bs;
  ro_table : handles_ r = table bs;
  ro_base : 0 < region_ptr r;
  ro_bound : region_ptr r + total bs < 2 ^ 64 }.

Record blk_wf (next_id : Z) (b : blk) : Prop := {
  bw_handle : 0 <= b_h b < 2 ^ 31;
  bw_id : b_id b = -1 \/ 0 < b_id b < next_id;
  bw_used : b_id b <> -1 -> b_bin b = kInvalidBinNum /\ 0 < b_req b <= b_size b;
  bw_bin : b_bin b = kInvalidBinNum \/ b_bin b = BinNumForSize (b_size b) }.

(** The order of [ChunkComparator]. *)
Definition blk_lt (a b : blk) : Prop :=
  b_size a < b_size b \/ (b_size a = b_size b /\ b_ptr a < b_ptr b).

Definition bin_ok (i : Z) (l : list Z) (bs : list blk) : Prop :=
  exists kb, l = map b_h kb /\ StronglySorted blk_lt kb /\
    forall b, b ∈ kb <-> b ∈ bs /\ b_bin b = i.

Definition used_size (b : blk) : Z := if b_used b then b_size b else 0.

Definition used_ids (bs : list blk) : list Z := map b_id (List.filter b_used bs).

(** ** Bin numbers *)

Lemma Log2FloorNonZero_log2 n : 0 < n < 2 ^ 64 -> Log2FloorNonZero n = Z.log2 n.
Proof.
  intros Hn. unfold Log2FloorNonZero, clzll.
  assert (0 <= Z.log2 n < 64) as Hl.
  { split; [apply Z.log2_nonneg|]. apply Z.log2_lt_pow2; lia. }
  assert (Forall (fun l => Z.lxor 63 (63 - l) = l) (seqZ 0 64)) as Hall
    by (apply (bool_decide_unpack _); vm_compute; exact I).
  rewrite Forall_forall in Hall. apply Hall, elem_of_seqZ. lia.
Qed.

Lemma BinNumForSize_eq n :
  0 <= n < 2 ^ 64 -> BinNumForSize n = Z.min 20 (Z.log2 (Z.max n 256 / 256)).
Proof.
  intros Hn. unfold BinNumForSize. change (kNumBins - 1) with 20.
  rewrite Z.shiftr_div_pow2 by done. change (2 ^ kMinAllocationBits) with 256.
  rewrite Log2FloorNonZero_log2; [done|].
  pose proof (Z.div_le_mono 256 (Z.max n 256) 256). pose proof (Z.div_le_upper_bound (Z.max n 256) 256 (2 ^ 64)).
  pose proof (Z_div_lt (Z.max n 256) 256). change (256 / 256) with 1 in *. lia.
Qed.

Lemma BinNumForSize_range n : 0 <= n < 2 ^ 64 -> 0 <= BinNumForSize n < kNumBins.
Proof.
  intros Hn. rewrite BinNumForSize_eq by done. change kNumBins with 21.
  pose proof (Z.log2_nonneg (Z.max n 256 / 256)). lia.
Qed.

(** ** The geometry of a region *)

Lemma total_cons b bs : total (b :: bs) = b_size b + total bs.
Proof. done. Qed.

Lemma total_app bs1 bs2 : total (bs1 ++ bs2) = total bs1 + total bs2.
Proof. apply Zsum_app. Qed.

Lemma tiles_app a bs1 bs2 : tiles a (bs1 ++ bs2) <-> tiles a bs1 /\ tiles (a + total bs1) bs2.
Proof.
  revert a. induction bs1 as [|b bs1 IH]; intros a; simpl.
  - change (total []) with 0. rewrite Z.add_0_r. tauto.
  - rewrite IH, total_cons, Z.add_assoc. tauto.
Qed.

Lemma tiles_sizes a bs : tiles a bs -> Forall (fun b => size_ok (b_size b)) bs.
Proof. revert a. induction bs; intros a0; simpl; [done|]. intros (_ & ? & ?). eauto. Qed.

Lemma size_ok_cells n : size_ok n -> (1 <= cells n)%nat /\ Z.of_nat (cells n) * 256 = n.
Proof.
  unfold size_ok, cells. change kMinAllocationSize with 256. intros [Hp Hm].
  pose proof (Z.div_mod n 256 ltac:(lia)). lia.
Qed.

Lemma length_row h n : (1 <= n)%nat -> length (row h n) = n.
Proof. intros. unfold row. simpl. rewrite length_replicate. lia. Qed.

Lemma table_cons b bs : table (b :: bs) = row (b_h b) (cells (b_size b)) ++ table bs.
Proof. done. Qed.

Lemma table_app bs1 bs2 : table (bs1 ++ bs2) = table bs1 ++ table bs2.
Proof. unfold table. by rewrite map_app, concat_app. Qed.

Lemma length_table bs :
  Forall (fun b => size_ok (b_size b)) bs -> Z.of_nat (length (table bs)) * 256 = total bs.
Proof.
  induction 1 as [|b bs Hb Hbs IH]; [done|]. rewrite table_cons, total_cons, length_app.
  apply size_ok_cells in Hb as [? ?]. rewrite length_row; lia.
Qed.

Lemma total_nonneg bs : Forall (fun b => size_ok (b_size b)) bs -> 0 <= total bs.
Proof. intros H. apply Zsum_nonneg. eapply Forall_impl; [exact H|]. unfold size_ok. lia. Qed.

(** Where a block is: its address and its cell in the handle table. *)
Lemma tiles_at a B1 b B2 :
  tiles a (B1 ++ b :: B2) ->
  b_ptr b = a + total B1 /\ size_ok (b_size b) /\ 0 <= total B1 /\ 0 <= total B2 /\
  Z.of_nat (length (table B1)) * 256 = total B1.
Proof.
  intros Ht. pose proof (tiles_sizes _ _ Ht) as Hs.
  apply Forall_app in Hs as [Hs1 [Hb Hs2]%Forall_cons].
  apply tiles_app in Ht as [_ [Hp _]].
  split_and!; auto using total_nonneg, length_table.
Qed.

Lemma region_block r B1 b B2 :
  region_ok r (B1 ++ b :: B2) ->
  b_ptr b = region_ptr r + total B1 /\ size_ok (b_size b) /\ 0 <= total B1 /\ 0 <= total B2 /\
  Z.of_nat (length (table B1)) * 256 = total B1 /\
  region_ptr r <= b_ptr b /\ b_ptr b + b_size b <= end_ptr r /\
  memory_size r = total B1 + b_size b + total B2.
Proof.
  intros [_ Ht Hm He _ _ _]. destruct (tiles_at _ _ _ _ Ht) as (Hp & Hs & H1 & H2 & Hl).
  rewrite total_app, total_cons in *. destruct Hs. repeat split; try lia.
Qed.

Lemma IndexFor_in r bs p :
  region_ok r bs -> region_ptr r <= p < end_ptr r ->
  IndexFor r p = Ok (Z.to_nat ((p - region_ptr r) / 256)).
Proof.
  intros [_ _ Hm He _ Hb Hbd] Hp. unfold IndexFor. rewrite Hm, !u64_small by lia.
  replace (region_ptr r <=? p) with true by lia.
  replace (p <? region_ptr r + total bs) with true by lia. simpl.
  by rewrite Z.shiftr_div_pow2.
Qed.

Lemma IndexFor_block r B1 b B2 d :
  region_ok r (B1 ++ b :: B2) -> 0 <= d < b_size b -> d `mod` 256 = 0 ->
  IndexFor r (b_ptr b + d) = Ok (length (table B1) + Z.to_nat (d / 256))%nat.
Proof.
  intros Hr Hd Hm. destruct (region_block _ _ _ _ Hr) as (Hp & Hs & H1 & H2 & Hl & Hlo & Hhi & _).
  rewrite (IndexFor_in r (B1 ++ b :: B2)) by (done || lia). do 2 f_equal.
  replace (b_ptr b + d - region_ptr r) with (d + Z.of_nat (length (table B1)) * 256) by lia.
  rewrite Z.div_add by lia. pose proof (Z.div_pos d 256). lia.
Qed.

Lemma upper_bound_at R1 r R2 p :
  StronglySorted (fun r r' => end_ptr r <= region_ptr r') (R1 ++ r :: R2) ->
  region_ptr r <= p < end_ptr r -> upper_bound p (R1 ++ r :: R2) = length R1.
Proof.
  intros Hs Hp. induction R1 as [|r1 R1 IH]; simpl in *.
  - by replace (p <? end_ptr r) with true by lia.
  - apply StronglySorted_inv in Hs as [Hs Hall]. rewrite Forall_forall in Hall.
    specialize (Hall r ltac:(set_solver)).
    replace (p <? end_ptr r1) with false by lia. by rewrite IH.
Qed.

Section rep.
Context {S : Type} `{!SubAllocator S}.
Notation bfc := (BFCAllocator S).

Definition lk (s : bfc) (h : Z) : option Chunk :=
  if 0 <=? h then chunks_ s !! Z.to_nat h else None.

Record rep (s : bfc) (chains : list (list blk)) (fl : list Z) : Prop := {
  rep_regions : Forall2 region_ok (regions_ s) chains;
  rep_sorted : StronglySorted (fun r r' => end_ptr r <= region_ptr r') (regions_ s);
  rep_links : Forall (fun bs => seg (lk s) kInvalidChunkHandle bs kInvalidChunkHandle) chains;
  rep_handles : NoDup (map b_h (concat chains) ++ fl);
  rep_free : free_seg (lk s) (free_chunks_list_ s) fl;
  rep_blocks : Forall (blk_wf (next_allocation_id_ s)) (concat chains);
  rep_ids : NoDup (used_ids (concat chains));
  rep_nbins : length (bins_ s) = Z.to_nat kNumBins;
  rep_bins : forall i bin, 0 <= i < kNumBins -> bins_ s !! Z.to_nat i = Some bin ->
    bin_ok i (free_chunks bin) (concat chains);
  rep_stats : bytes_in_use (stats_ s) = i64 (Zsum used_size (concat chains));
  rep_total : total_region_allocated_bytes_ s = Zsum memory_size (regions_ s);
  rep_limit : total_region_allocated_bytes_ s <= memory_limit_ s < 2 ^ 64;
  rep_small : Z.of_nat (length (chunks_ s)) < 2 ^ 31;
  rep_next_id : 0 < next_allocation_id_ s;
  rep_timestamped : timestamped_chunks_ s = [];
  rep_coalesce : coalesce_regions_ s = false }.

(** ** Reading and writing chunks *)

Definition upd (h : Z) (f : Chunk -> Chunk) (s : bfc) : bfc :=
  set_chunks (alter f (Z.to_nat h) (chunks_ s)) s.

Lemma lk_Some s h c : lk s h = Some c -> 0 <= h < Z.of_nat (length (chunks_ s)).
Proof.
  unfold lk. destruct (Z.leb_spec 0 h); [|done]. intros ?%lookup_lt_Some. lia.
Qed.

Lemma lk_upd s h f h' : 0 <= h ->
  lk (upd h f s) h' = if decide (h' = h) then f <$> lk s h' else lk s h'.
Proof.
  intros Hh. unfold lk, upd. simpl. destruct (Z.leb_spec 0 h').
  - destruct (decide (h' = h)) as [->|].
    + by rewrite list_lookup_alter_eq.
    + rewrite list_lookup_alter_ne; [done|lia].
  - by destruct (decide (h' = h)).
Qed.

Lemma runs_update h f (s : bfc) Q : Q tt (upd h f s) -> runs (update_chunk h f) s Q.
Proof. apply runs_modify. Qed.

Lemma runs_chunk s h c Q :
  Z.of_nat (length (chunks_ s)) < 2 ^ 31 -> lk s h = Some c -> Q c s ->
  runs (ChunkFromHandle h) s Q.
Proof.
  intros Hs Hl HQ. pose proof (lk_Some _ _ _ Hl) as Hh. exists c, s. split; [|done].
  unfold lk in Hl. unfold ChunkFromHandle. rewrite i32_small, u64_small by lia.
  replace (h <? Z.of_nat (length (chunks_ s))) with true by lia.
  destruct (0 <=? h); [|done]. simpl. by rewrite Hl.
Qed.

(** ** Segments *)

Lemma hd_h_app bs1 bs2 nx : hd_h (bs1 ++ bs2) nx = hd_h bs1 (hd_h bs2 nx).
Proof. by destruct bs1. Qed.

Lemma lst_h_app p bs1 bs2 : lst_h p (bs1 ++ bs2) = lst_h (lst_h p bs1) bs2.
Proof. revert p. induction bs1; simpl; auto. Qed.

Lemma seg_app l p bs1 bs2 nx :
  seg l p (bs1 ++ bs2) nx <-> seg l p bs1 (hd_h bs2 nx) /\ seg l (lst_h p bs1) bs2 nx.
Proof.
  revert p. induction bs1 as [|b bs1 IH]; intros p; simpl; [tauto|].
  rewrite IH, hd_h_app. tauto.
Qed.

Lemma seg_ext l l' p bs nx :
  (forall b, b ∈ bs -> l' (b_h b) = l (b_h b)) -> seg l p bs nx -> seg l' p bs nx.
Proof.
  revert p. induction bs as [|b bs IH]; intros p Heq; simpl; [done|].
  intros [Hb Hs]. split; [rewrite Heq; [done|set_solver]|].
  apply IH; [|done]. intros b' Hb'. apply Heq. set_solver.
Qed.

Lemma seg_lookup l p bs nx b : seg l p bs nx -> b ∈ bs -> exists p' n', l (b_h b) = Some (chunk_of p' n' b).
Proof.
  revert p. induction bs as [|b' bs IH]; intros p; simpl; [set_solver|].
  intros [Hb Hs] [->|Hin]%elem_of_cons; [eauto|]. by eapply IH.
Qed.

Lemma free_seg_ext l l' h fl :
  (forall x, x ∈ fl -> l' x = l x) -> free_seg l h fl -> free_seg l' h fl.
Proof.
  revert h. induction fl as [|x fl IH]; intros h Heq; simpl; [done|].
  intros (-> & Hx & c & Hc & ? & ? & ? & Hf). split; [done|]. split; [done|].
  exists c. rewrite Heq by set_solver. split_and!; try done.
  apply IH; [|done]. intros y Hy. apply Heq. set_solver.
Qed.

Lemma rep_lookup s chains fl b :
  rep s chains fl -> b ∈ concat chains -> exists p n, lk s (b_h b) = Some (chunk_of p n b).
Proof.
  intros Hr (bs & Hb & Hbs)%elem_of_concat. pose proof (rep_links _ _ _ Hr) as Hl.
  rewrite Forall_forall in Hl. eapply seg_lookup; [by apply Hl|done].
Qed.

(** ** The region of a block *)

(** A represented state split at one of its regions. *)
Record focus (s : bfc) (chains : list (list blk)) (R1 R2 : list AllocationRegion)
    (r : AllocationRegion) (C1 C2 : list (list blk)) (bs : list blk) : Prop := {
  fo_regions : regions_ s = R1 ++ r :: R2;
  fo_chains : chains = C1 ++ bs :: C2;
  fo_sorted : StronglySorted (fun r r' => end_ptr r <= region_ptr r') (R1 ++ r :: R2);
  fo_1 : Forall2 region_ok R1 C1;
  fo_2 : Forall2 region_ok R2 C2;
  fo_ok : region_ok r bs }.

Lemma rep_focus s C1 C2 fl bs :
  rep s (C1 ++ bs :: C2) fl ->
  exists R1 R2 r, focus s (C1 ++ bs :: C2) R1 R2 r C1 C2 bs.
Proof.
  intros Hr. pose proof (rep_regions _ _ _ Hr) as Hf. pose proof (rep_sorted _ _ _ Hr) as Hs.
  apply Forall2_app_inv_r in Hf as (R1 & R2 & Hf1 & Hf2 & Heq).
  apply Forall2_cons_inv_r in Hf2 as (r & R2' & Hok & Hf2 & ->).
  rewrite Heq in Hs. exists R1, R2', r. by split.
Qed.

Lemma RegionFor_at s chains R1 R2 r C1 C2 bs p :
  focus s chains R1 R2 r C1 C2 bs -> region_ptr r <= p < end_ptr r ->
  RegionFor p (regions_ s) = Ok (length R1, r).
Proof.
  intros [Hr _ Hs _ _ Hok] Hp. unfold RegionFor. rewrite Hr, upper_bound_at by done.
  by rewrite lookup_middle.
Qed.

Lemma runs_get_handle s chains R1 R2 r C1 C2 B1 b B2 Q :
  focus s chains R1 R2 r C1 C2 (B1 ++ b :: B2) -> Q (b_h b) s -> runs (get_handle (b_ptr b)) s Q.
Proof.
  intros Hf HQ. pose proof (fo_ok _ _ _ _ _ _ _ _ Hf) as Hok.
  destruct (region_block _ _ _ _ Hok) as (Hp & [Hs _] & H1 & H2 & Hl & Hlo & Hhi & _).
  exists (b_h b), s. split; [|done]. unfold get_handle.
  erewrite RegionFor_at by (done || lia). simpl. unfold region_get_handle.
  replace (b_ptr b) with (b_ptr b + 0) by lia.
  erewrite IndexFor_block by (done || lia). simpl.
  rewrite (ro_table _ _ Hok), table_app, table_cons, Nat.add_0_r, lookup_app_r by done.
  by rewrite Nat.sub_diag.
Qed.

(** [set_handle] at a multiple [d] of the cell size inside the block [b]. *)
Lemma runs_set_handle s chains R1 R2 r C1 C2 B1 b B2 d h Q :
  focus s chains R1 R2 r C1 C2 (B1 ++ b :: B2) -> 0 <= d < b_size b -> d `mod` 256 = 0 ->
  Q tt (set_regions
    (R1 ++ mk_Region (region_ptr r) (memory_size r) (end_ptr r)
             (table B1 ++ <[Z.to_nat (d / 256) := h]> (row (b_h b) (cells (b_size b))) ++ table B2)
        :: R2) s) ->
  runs (set_handle (b_ptr b + d) h) s Q.
Proof.
  intros Hf Hd Hm HQ. pose proof (fo_ok _ _ _ _ _ _ _ _ Hf) as Hok.
  destruct (region_block _ _ _ _ Hok) as (Hp & Hsz & H1 & H2 & Hl & Hlo & Hhi & _).
  eexists _, _. split; [|exact HQ]. unfold set_handle.
  erewrite RegionFor_at by (done || lia). simpl. unfold region_set_handle.
  erewrite IndexFor_block by done. simpl.
  apply size_ok_cells in Hsz as [Hc1 Hc2].
  assert (Z.to_nat (d / 256) < cells (b_size b))%nat as Hlt.
  { pose proof (Z.div_mod d 256 ltac:(lia)). lia. }
  rewrite (ro_table _ _ Hok), table_app, table_cons.
  assert (exists x, (table B1 ++ row (b_h b) (cells (b_size b)) ++ table B2)
            !! (length (table B1) + Z.to_nat (d / 256))%nat = Some x) as [x ->].
  { apply lookup_lt_is_Some. rewrite !length_app, length_row by done. lia. }
  rewrite insert_app_r, insert_app_l by (rewrite length_row; done).
  unfold mbind, result_bind, mret, result_ret, in_range. cbv beta iota.
  by rewrite (fo_regions _ _ _ _ _ _ _ _ Hf), insert_middle.
Qed.

End rep.
