(* ===== verification/BfcOps.v ===== *)
(** * The best-fit-with-coalescing allocator: the internal operations

    Every internal operation of [BFCAllocator] — the bins, the chunk handles,
    [Merge], [SplitChunk], [TryToCoalesce], [MarkFree] — runs without a fault
    on a represented state, and its effect on the blocks. *)

From S2P Require Import Prelude Bfc BfcRep.

(** ** The blocks of a region in their context *)

Notation ctx C1 B1 mid B2 C2 := (C1 ++ (B1 ++ mid ++ B2) :: C2) (only parsing).

Definition others (C1 : list (list blk)) (B1 B2 : list blk) (C2 : list (list blk)) : list blk :=
  concat C1 ++ B1 ++ B2 ++ concat C2.

Lemma concat_ctx C1 B1 mid B2 C2 :
  concat (ctx C1 B1 mid B2 C2) ≡ₚ mid ++ others C1 B1 B2 C2.
Proof. unfold others. rewrite concat_app. simpl. solve_Permutation. Qed.

Lemma others_region x C1 B1 B2 C2 : x ∈ B1 ++ B2 -> x ∈ others C1 B1 B2 C2.
Proof. unfold others. rewrite !elem_of_app. tauto. Qed.

Lemma others_rest x C1 B1 B2 C2 : x ∈ concat C1 ++ concat C2 -> x ∈ others C1 B1 B2 C2.
Proof. unfold others. rewrite !elem_of_app. tauto. Qed.

Lemma others_after x C1 B1 B2 C2 : x ∈ B2 -> x ∈ others C1 B1 B2 C2.
Proof. intros Hx. apply others_region, elem_of_app. by right. Qed.

Lemma elem_of_ctx b C1 B1 mid B2 C2 :
  b ∈ concat (ctx C1 B1 mid B2 C2) <-> b ∈ mid \/ b ∈ others C1 B1 B2 C2.
Proof. by rewrite concat_ctx, elem_of_app. Qed.

Lemma filter_Permutation {A} (p : A -> bool) l1 l2 :
  l1 ≡ₚ l2 -> List.filter p l1 ≡ₚ List.filter p l2.
Proof.
  induction 1 as [|x l1 l2 _ IH|x y l|l1 l2 l3 _ IH1 _ IH2]; simpl.
  - done.
  - destruct (p x); by rewrite IH.
  - destruct (p x), (p y); try done. by rewrite perm_swap.
  - by rewrite IH1.
Qed.

Lemma Zsum_Permutation {A} (f : A -> Z) l1 l2 : l1 ≡ₚ l2 -> Zsum f l1 = Zsum f l2.
Proof. induction 1; simpl; lia. Qed.

Lemma used_ids_Permutation l1 l2 : l1 ≡ₚ l2 -> used_ids l1 ≡ₚ used_ids l2.
Proof. intros H. unfold used_ids. by rewrite (filter_Permutation _ _ _ H). Qed.

Lemma used_ids_same b b' l : b_id b' = b_id b -> used_ids (b' :: l) = used_ids (b :: l).
Proof.
  intros Hi. unfold used_ids. simpl. replace (b_used b') with (b_used b) by (unfold b_used; by rewrite Hi).
  destruct (b_used b); simpl; by rewrite ?Hi.
Qed.

Lemma used_ids_app l1 l2 : used_ids (l1 ++ l2) = used_ids l1 ++ used_ids l2.
Proof. unfold used_ids. by rewrite List.filter_app, map_app. Qed.

Lemma bin_ok_same i l bs bs' :
  (forall b, b_bin b = i -> b ∈ bs <-> b ∈ bs') -> bin_ok i l bs -> bin_ok i l bs'.
Proof.
  intros Heq (kb & -> & Hs & Hin). exists kb. split; [done|]. split; [done|].
  intros b. rewrite Hin. split; intros [H1 H2]; split; auto; by apply Heq.
Qed.

Lemma tiles_disjoint a bs x y :
  tiles a bs -> x ∈ bs -> y ∈ bs ->
  x = y \/ b_ptr x + b_size x <= b_ptr y \/ b_ptr y + b_size y <= b_ptr x.
Proof.
  intros Ht. revert a Ht. induction bs as [|b bs IH]; intros a; simpl; [set_solver|].
  intros (Hp & [Hsz _] & Ht).
  assert (forall z, z ∈ bs -> b_ptr b + b_size b <= b_ptr z) as Hlt.
  { intros z (l1 & l2 & ->)%list_elem_of_split.
    destruct (tiles_at _ _ _ _ Ht) as (Hz & _ & ? & _). lia. }
  intros [->|Hx]%elem_of_cons [->|Hy]%elem_of_cons; eauto.
Qed.

Lemma regions_disjoint Rs Cs x y :
  StronglySorted (fun r r' => end_ptr r <= region_ptr r') Rs -> Forall2 region_ok Rs Cs ->
  x ∈ concat Cs -> y ∈ concat Cs ->
  x = y \/ b_ptr x + b_size x <= b_ptr y \/ b_ptr y + b_size y <= b_ptr x.
Proof.
  intros Hs Hf. revert Hs. induction Hf as [|r bs Rs Cs Hok Hf IH]; simpl; [set_solver|].
  rewrite StronglySorted_cons, Forall_forall. intros [Hall Hs].
  assert (forall z, z ∈ bs -> b_ptr z + b_size z <= end_ptr r) as Hin.
  { intros z (l1 & l2 & ->)%list_elem_of_split. apply region_block in Hok. tauto. }
  assert (forall z, z ∈ concat Cs -> end_ptr r <= b_ptr z) as Hout.
  { intros z (bs' & Hz & Hbs')%elem_of_concat.
    apply list_elem_of_lookup_1 in Hbs' as [i Hi].
    destruct (Forall2_lookup_r _ _ _ _ _ Hf Hi) as (r' & Hr' & Hok').
    apply list_elem_of_split in Hz as (l1 & l2 & ->).
    apply region_block in Hok' as (_ & _ & _ & _ & _ & Hlo & _ & _).
    apply list_elem_of_lookup_2 in Hr'. specialize (Hall _ Hr'). lia. }
  intros [Hx|Hx]%elem_of_app [Hy|Hy]%elem_of_app; auto.
  - destruct Hok as [_ Ht _ _ _ _ _]. by eapply tiles_disjoint.
  - specialize (Hin _ Hx). specialize (Hout _ Hy). lia.
  - specialize (Hin _ Hy). specialize (Hout _ Hx). lia.
Qed.

(** ** Bins as sorted lists of blocks *)

Definition blk_ltb (a b : blk) : bool :=
  if negb (b_size a =? b_size b) then b_size a <? b_size b else b_ptr a <? b_ptr b.

Lemma blk_ltb_spec a b : blk_ltb a b = true <-> blk_lt a b.
Proof. unfold blk_ltb, blk_lt. destruct (Z.eqb_spec (b_size a) (b_size b)); simpl; lia. Qed.

Lemma blk_lt_trans a b c : blk_lt a b -> blk_lt b c -> blk_lt a c.
Proof. unfold blk_lt. lia. Qed.

Lemma blk_lt_irrefl a : ~ blk_lt a a.
Proof. unfold blk_lt. lia. Qed.

Fixpoint kb_insert (b : blk) (kb : list blk) : list blk :=
  match kb with
  | [] => [b]
  | x :: kb' =>
      if blk_ltb b x then b :: kb else if blk_ltb x b then x :: kb_insert b kb' else kb
  end.

Lemma kb_insert_elem b kb y :
  Forall (fun x => b_ptr x <> b_ptr b) kb -> y ∈ kb_insert b kb <-> y = b \/ y ∈ kb.
Proof.
  induction 1 as [|x kb Hx Hkb IH]; simpl; [set_solver|].
  destruct (blk_ltb b x) eqn:E1; [set_solver|].
  destruct (blk_ltb x b) eqn:E2; [set_solver|].
  exfalso. unfold blk_ltb in *. destruct (Z.eqb_spec (b_size b) (b_size x)) as [E|E];
    rewrite ?E, ?Z.eqb_refl in *; simpl in *; [lia|].
  replace (b_size x =? b_size b) with false in E2 by lia. simpl in E2. lia.
Qed.

Lemma kb_insert_sorted b kb :
  Forall (fun x => b_ptr x <> b_ptr b) kb ->
  StronglySorted blk_lt kb -> StronglySorted blk_lt (kb_insert b kb).
Proof.
  intros Hp. induction 1 as [|x kb Hkb IH Hx]; simpl; [by repeat constructor|].
  apply Forall_cons in Hp as [Hpx Hp].
  destruct (blk_ltb b x) eqn:E1.
  - apply blk_ltb_spec in E1. constructor; [by constructor|]. constructor; [done|].
    eapply Forall_impl; [exact Hx|]. intros y Hy. by eapply blk_lt_trans.
  - destruct (blk_ltb x b) eqn:E2; [|by constructor].
    apply blk_ltb_spec in E2. constructor; [auto|].
    rewrite Forall_forall in *. intros y Hy.
    apply kb_insert_elem in Hy as [->|Hy]; [done|auto|]. by apply Forall_forall.
Qed.

Lemma sorted_without k1 b k2 :
  StronglySorted blk_lt (k1 ++ b :: k2) ->
  StronglySorted blk_lt (k1 ++ k2) /\ Forall (fun x => blk_lt x b) k1 /\
  forall y, y ∈ k1 ++ k2 <-> y ∈ k1 ++ b :: k2 /\ y <> b.
Proof.
  rewrite StronglySorted_app, StronglySorted_cons, Forall_forall.
  intros (Hx & H1 & Hb & H2). split_and!.
  - apply StronglySorted_app_2; [|done|done]. intros x y ? ?. apply Hx; set_solver.
  - rewrite Forall_forall. intros x ?. apply Hx; set_solver.
  - intros y. split; [|set_solver]. intros Hy. split; [set_solver|]. intros ->.
    apply (blk_lt_irrefl b). apply elem_of_app in Hy as [Hy|Hy]; [apply Hx; set_solver|auto].
Qed.

Section ops.
Context {S : Type} `{!SubAllocator S}.
Notation bfc := (BFCAllocator S).

(** The parts of the state that an operation on chunks leaves alone. *)
Record same_rest (s s' : bfc) : Prop := {
  sr_opts : opts_ s' = opts_ s;
  sr_limit : memory_limit_ s' = memory_limit_ s;
  sr_curr : curr_region_allocation_bytes_ s' = curr_region_allocation_bytes_ s;
  sr_total : total_region_allocated_bytes_ s' = total_region_allocated_bytes_ s;
  sr_backpedal : started_backpedal_ s' = started_backpedal_ s;
  sr_coalesce : coalesce_regions_ s' = coalesce_regions_ s;
  sr_sub : sub_allocator_ s' = sub_allocator_ s;
  sr_timestamped : timestamped_chunks_ s' = timestamped_chunks_ s;
  sr_frontier : safe_frontier_ s' = safe_frontier_ s;
  sr_mem : map (fun r => (region_ptr r, memory_size r)) (regions_ s') =
           map (fun r => (region_ptr r, memory_size r)) (regions_ s) }.

Lemma same_rest_refl s : same_rest s s.
Proof. by split. Qed.

Lemma same_rest_trans s1 s2 s3 : same_rest s1 s2 -> same_rest s2 s3 -> same_rest s1 s3.
Proof. intros [] []. split; congruence. Qed.

(** Rebuilding the invariant after the blocks [mid] of one region are replaced
    by [mid']. *)
Lemma rep_change s s' C1 B1 mid mid' B2 C2 fl fl' R1 R2 r r' :
  rep s (ctx C1 B1 mid B2 C2) fl ->
  focus s (ctx C1 B1 mid B2 C2) R1 R2 r C1 C2 (B1 ++ mid ++ B2) ->
  same_rest s s' -> regions_ s' = R1 ++ r' :: R2 ->
  region_ptr r' = region_ptr r -> end_ptr r' = end_ptr r -> memory_size r' = memory_size r ->
  region_ok r' (B1 ++ mid' ++ B2) ->
  seg (lk s') kInvalidChunkHandle (B1 ++ mid' ++ B2) kInvalidChunkHandle ->
  (forall x, x ∈ concat C1 ++ concat C2 -> lk s' (b_h x) = lk s (b_h x)) ->
  NoDup (map b_h (mid' ++ others C1 B1 B2 C2) ++ fl') ->
  free_seg (lk s') (free_chunks_list_ s') fl' ->
  next_allocation_id_ s <= next_allocation_id_ s' ->
  Forall (blk_wf (next_allocation_id_ s')) mid' ->
  NoDup (used_ids (mid' ++ others C1 B1 B2 C2)) ->
  length (bins_ s') = Z.to_nat kNumBins ->
  (forall i bin, 0 <= i < kNumBins -> bins_ s' !! Z.to_nat i = Some bin ->
     bin_ok i (free_chunks bin) (concat (ctx C1 B1 mid' B2 C2))) ->
  bytes_in_use (stats_ s') = i64 (Zsum used_size (mid' ++ others C1 B1 B2 C2)) ->
  Z.of_nat (length (chunks_ s')) < 2 ^ 31 ->
  rep s' (ctx C1 B1 mid' B2 C2) fl'.
Proof.
  intros Hr Hf Hsr Hregs Hp He Hm Hok Hseg Hlk Hnd Hfl Hid Hbw Hids Hnb Hbins Hst Hsm.
  destruct Hf as [Hfr _ Hso Hf1 Hf2 _]. destruct Hsr as [_ Hlim _ Htot _ Hco _ Hts _ _].
  pose proof (rep_links _ _ _ Hr) as Hl. apply Forall_app in Hl as [Hl1 [_ Hl2]%Forall_cons].
  assert (forall C, (forall bs, bs ∈ C -> bs ∈ C1 \/ bs ∈ C2) ->
    Forall (fun bs => seg (lk s) kInvalidChunkHandle bs kInvalidChunkHandle) C ->
    Forall (fun bs => seg (lk s') kInvalidChunkHandle bs kInvalidChunkHandle) C) as Hext.
  { intros C HC HF. rewrite Forall_forall in *. intros bs Hbs.
    eapply seg_ext; [|by apply HF]. intros x Hx. apply Hlk.
    rewrite elem_of_app, !elem_of_concat. destruct (HC _ Hbs); [left|right]; eauto. }
  split; try done; try congruence.
  - rewrite Hregs. apply Forall2_app; [done|]. by constructor.
  - rewrite Hregs. rewrite StronglySorted_app, StronglySorted_cons, Forall_forall in *.
    destruct Hso as (Hx & ? & Hall & ?). split_and!; try done.
    + intros x y Hx1 [->|Hy]%elem_of_cons; [|by apply Hx; set_solver].
      rewrite Hp. apply Hx; set_solver.
    + intros y Hy. rewrite He. auto.
  - apply Forall_app. split; [apply Hext; auto|].
    constructor; [done|]. apply Hext; auto.
  - by rewrite concat_ctx.
  - rewrite concat_ctx, Forall_app. split; [done|].
    pose proof (rep_blocks _ _ _ Hr) as Hb. rewrite concat_ctx, Forall_app in Hb.
    destruct Hb as [_ Hb]. eapply Forall_impl; [exact Hb|].
    intros x [? Hi ? ?]. split; try done. lia.
  - by rewrite (used_ids_Permutation _ _ (concat_ctx _ _ _ _ _)).
  - by rewrite (Zsum_Permutation _ _ _ (concat_ctx _ _ _ _ _)).
  - rewrite Htot, (rep_total _ _ _ Hr), Hregs, Hfr, !Zsum_app. simpl. lia.
  - rewrite Htot, Hlim. apply (rep_limit _ _ _ Hr).
  - pose proof (rep_next_id _ _ _ Hr). lia.
  - rewrite Hts. apply (rep_timestamped _ _ _ Hr).
  - rewrite Hco. apply (rep_coalesce _ _ _ Hr).
Qed.

(** *** Replacing one block in place *)

Definition with_bin (x : Z) (b : blk) : blk :=
  mk_blk (b_h b) (b_size b) (b_req b) (b_id b) (b_ptr b) x.

Lemma region_ok_replace r B1 b b' B2 :
  b_h b' = b_h b -> b_ptr b' = b_ptr b -> b_size b' = b_size b ->
  region_ok r (B1 ++ b :: B2) -> region_ok r (B1 ++ b' :: B2).
Proof.
  intros Hh Hp Hs [Hne Ht Hm He Htab Hb Hbd].
  assert (total (B1 ++ b' :: B2) = total (B1 ++ b :: B2)) as Hto
    by (rewrite !total_app, !total_cons; lia).
  split; rewrite ?Hto; try done.
  - by destruct B1.
  - rewrite tiles_app in *. simpl in *. by rewrite Hp, Hs.
  - rewrite Htab, !table_app, !table_cons. by rewrite Hh, Hs.
Qed.

Lemma seg_replace l l' p B1 b b' B2 nx f :
  seg l p (B1 ++ b :: B2) nx -> b_h b' = b_h b -> NoDup (map b_h (B1 ++ b :: B2)) ->
  (forall h, l' h = if decide (h = b_h b) then f <$> l h else l h) ->
  (forall p n, f (chunk_of p n b) = chunk_of p n b') ->
  seg l' p (B1 ++ b' :: B2) nx.
Proof.
  intros Hs Hh Hnd Hl Hf. rewrite map_app, NoDup_app in Hnd. simpl in Hnd.
  rewrite NoDup_cons in Hnd. destruct Hnd as (_ & Hx & Hb & _).
  rewrite seg_app in *. simpl in *. rewrite Hh. destruct Hs as (H1 & H2 & H3).
  split_and!.
  - eapply seg_ext; [|done]. intros x Hin. rewrite Hl. case_decide as E; [|done].
    exfalso. apply (Hx (b_h x)); [by apply list_elem_of_fmap_2|rewrite E; set_solver].
  - rewrite Hl, decide_True by done. rewrite H2. simpl. by rewrite Hf.
  - eapply seg_ext; [|done]. intros x Hin. rewrite Hl. case_decide as E; [|done].
    exfalso. apply Hb. rewrite <- E. by apply list_elem_of_fmap_2.
Qed.

(** The handles of the blocks of a represented state, and of its free list. *)
Lemma rep_nodup (s : bfc) C1 B1 mid B2 C2 fl :
  rep s (ctx C1 B1 mid B2 C2) fl ->
  NoDup (map b_h (mid ++ others C1 B1 B2 C2) ++ fl).
Proof. intros Hr. rewrite <- concat_ctx. apply Hr. Qed.

Lemma rep_ids_ctx (s : bfc) C1 B1 mid B2 C2 fl :
  rep s (ctx C1 B1 mid B2 C2) fl -> NoDup (used_ids (mid ++ others C1 B1 B2 C2)).
Proof. intros Hr. rewrite <- (used_ids_Permutation _ _ (concat_ctx _ _ _ _ _)). apply Hr. Qed.

Lemma rep_stats_ctx (s : bfc) C1 B1 mid B2 C2 fl :
  rep s (ctx C1 B1 mid B2 C2) fl ->
  bytes_in_use (stats_ s) = i64 (Zsum used_size (mid ++ others C1 B1 B2 C2)).
Proof. intros Hr. by rewrite (rep_stats _ _ _ Hr), (Zsum_Permutation _ _ _ (concat_ctx _ _ _ _ _)). Qed.

Lemma rep_blk_wf (s : bfc) C1 B1 mid B2 C2 fl :
  rep s (ctx C1 B1 mid B2 C2) fl -> Forall (blk_wf (next_allocation_id_ s)) (mid ++ others C1 B1 B2 C2).
Proof. intros Hr. rewrite <- concat_ctx. apply Hr. Qed.

Lemma nodup_region C1 B1 mid B2 C2 fl :
  NoDup (map b_h (mid ++ others C1 B1 B2 C2) ++ fl) -> NoDup (map b_h (B1 ++ mid ++ B2)).
Proof.
  intros (H & _)%NoDup_app. unfold others in H.
  assert (mid ++ concat C1 ++ B1 ++ B2 ++ concat C2 ≡ₚ
          (B1 ++ mid ++ B2) ++ concat C1 ++ concat C2) as Hp by solve_Permutation.
  rewrite Hp, map_app in H. by apply NoDup_app in H as (? & _).
Qed.

Lemma nodup_other C1 B1 mid B2 C2 fl b x :
  NoDup (map b_h (mid ++ others C1 B1 B2 C2) ++ fl) -> b ∈ mid ->
  x ∈ others C1 B1 B2 C2 -> b_h x <> b_h b.
Proof.
  intros (H & _)%NoDup_app Hb Hx Heq. rewrite map_app in H.
  apply NoDup_app in H as (_ & H & _). apply (H (b_h b)); [by apply list_elem_of_fmap_2|].
  rewrite <- Heq. by apply list_elem_of_fmap_2.
Qed.

Lemma nodup_free mid C1 B1 B2 C2 fl b x :
  NoDup (map b_h (mid ++ others C1 B1 B2 C2) ++ fl) -> b ∈ mid -> x ∈ fl -> x <> b_h b.
Proof.
  intros (_ & H & _)%NoDup_app Hb Hx ->. apply (H (b_h b)); [|done].
  rewrite map_app, elem_of_app. left. by apply list_elem_of_fmap_2.
Qed.

(** One block [b] becomes [b'] by the write [f] to its chunk. *)
Lemma rep_replace s s' C1 B1 b b' B2 C2 fl f :
  rep s (ctx C1 B1 [b] B2 C2) fl -> same_rest s s' -> regions_ s' = regions_ s ->
  free_chunks_list_ s' = free_chunks_list_ s -> length (chunks_ s') = length (chunks_ s) ->
  b_h b' = b_h b -> b_ptr b' = b_ptr b -> b_size b' = b_size b ->
  (forall h, lk s' h = if decide (h = b_h b) then f <$> lk s h else lk s h) ->
  (forall p n, f (chunk_of p n b) = chunk_of p n b') ->
  next_allocation_id_ s <= next_allocation_id_ s' ->
  blk_wf (next_allocation_id_ s') b' ->
  NoDup (used_ids (b' :: others C1 B1 B2 C2)) ->
  length (bins_ s') = Z.to_nat kNumBins ->
  (forall i bin, 0 <= i < kNumBins -> bins_ s' !! Z.to_nat i = Some bin ->
     bin_ok i (free_chunks bin) (b' :: others C1 B1 B2 C2)) ->
  bytes_in_use (stats_ s') = i64 (Zsum used_size (b' :: others C1 B1 B2 C2)) ->
  rep s' (ctx C1 B1 [b'] B2 C2) fl.
Proof.
  intros Hr Hsr Hreg Hfree Hlen Hh Hp Hs Hl Hf Hid Hbw Hids Hnb Hbins Hst.
  destruct (rep_focus _ _ _ _ _ Hr) as (R1 & R2 & r & Hfo).
  pose proof (rep_nodup _ _ _ _ _ _ _ Hr) as Hnd.
  pose proof (rep_links _ _ _ Hr) as Hlinks.
  apply Forall_app in Hlinks as [_ [Hseg _]%Forall_cons].
  pose proof (fo_ok _ _ _ _ _ _ _ _ Hfo) as Hok.
  eapply (rep_change s s' C1 B1 [b] [b']); try done.
  - by rewrite Hreg, (fo_regions _ _ _ _ _ _ _ _ Hfo).
  - by eapply region_ok_replace.
  - eapply seg_replace; [exact Hseg|done| |done|done]. by apply nodup_region in Hnd.
  - intros x Hx. rewrite Hl, decide_False; [done|].
    eapply nodup_other; [exact Hnd|by left|]. unfold others. set_solver.
  - simpl in *. by rewrite Hh.
  - rewrite Hfree. eapply free_seg_ext; [|apply Hr]. intros x Hx.
    rewrite Hl, decide_False; [done|]. eapply nodup_free; [exact Hnd|by left|done].
  - by constructor.
  - intros i bin Hi Hlk. eapply bin_ok_same; [|by apply Hbins].
    intros x _. rewrite elem_of_ctx. set_solver.
  - rewrite Hlen. apply Hr.
Qed.

(** *** The sets of chunks *)

Definition keyed (s : bfc) (b : blk) : Prop :=
  exists c, lk s (b_h b) = Some c /\ size c = b_size b /\ ptr c = b_ptr b.

Definition few_chunks (s : bfc) : Prop := Z.of_nat (length (chunks_ s)) < 2 ^ 31.

Lemma runs_comparator (s : bfc) a b Q :
  few_chunks s -> keyed s a -> keyed s b -> Q (blk_ltb a b) s ->
  runs (ChunkComparator (b_h a) (b_h b)) s Q.
Proof.
  intros Hs (ca & Ha & Hsa & Hpa) (cb & Hb & Hsb & Hpb) HQ. unfold ChunkComparator.
  run_step. eapply runs_chunk; [done..|]. run_step. eapply runs_chunk; [done..|].
  run_step. unfold chunk_less. by rewrite Hsa, Hsb, Hpa, Hpb.
Qed.

Lemma runs_set_insert (s : bfc) b kb Q :
  few_chunks s -> keyed s b -> Forall (keyed s) kb ->
  Q (map b_h (kb_insert b kb)) s -> runs (set_insert (b_h b) (map b_h kb)) s Q.
Proof.
  intros Hs Hb Hkb. revert Q. induction Hkb as [|x kb Hx Hkb IH]; intros Q HQ; simpl.
  { by run_step. }
  run_step. eapply runs_comparator; [done..|]. simpl in HQ.
  destruct (blk_ltb b x); [by run_step|].
  run_step. eapply runs_comparator; [done..|].
  destruct (blk_ltb x b); [|by run_step].
  run_step. apply IH. by run_step.
Qed.

Lemma runs_set_erase (s : bfc) k1 b k2 Q :
  few_chunks s -> Forall (keyed s) (k1 ++ b :: k2) -> Forall (fun x => blk_lt x b) k1 ->
  Q (1, map b_h (k1 ++ k2)) s -> runs (set_erase (b_h b) (map b_h (k1 ++ b :: k2))) s Q.
Proof.
  intros Hs Hk Hlt. assert (keyed s b) as Hb by (rewrite Forall_forall in Hk; set_solver).
  revert Q. induction Hlt as [|x k1 Hx Hlt IH]; intros Q HQ; simpl in *.
  - assert (blk_ltb b b = false) as E.
    { destruct (blk_ltb b b) eqn:E; [|done]. apply blk_ltb_spec, blk_lt_irrefl in E as []. }
    do 2 (run_step; eapply runs_comparator; [done..|]; rewrite E). by run_step.
  - apply Forall_cons in Hk as [Hkx Hk].
    run_step. eapply runs_comparator; [done..|]. rewrite (proj2 (blk_ltb_spec _ _) Hx).
    run_step. apply IH; [done|]. by run_step.
Qed.

Lemma set_erase_iter_at k1 b k2 :
  (forall x, x ∈ k1 -> b_h x <> b_h b) ->
  set_erase_iter (b_h b) (map b_h (k1 ++ b :: k2)) = map b_h (k1 ++ k2).
Proof.
  intros Hne. induction k1 as [|x k1 IH]; simpl.
  - by rewrite Z.eqb_refl.
  - destruct (Z.eqb_spec (b_h x) (b_h b)) as [E|_]; [by apply Hne in E; [|set_solver]|].
    rewrite IH; [done|]. intros y Hy. apply Hne. set_solver.
Qed.

Lemma runs_bin_chunks (s : bfc) i bin Q :
  bins_ s !! Z.to_nat i = Some bin -> Q (free_chunks bin) s -> runs (bin_chunks i) s Q.
Proof. intros Hb HQ. exists (free_chunks bin), s. unfold bin_chunks. by rewrite Hb. Qed.

Lemma rep_keyed (s : bfc) chains fl b : rep s chains fl -> b ∈ concat chains -> keyed s b.
Proof. intros Hr Hb. destruct (rep_lookup _ _ _ _ Hr Hb) as (p & n & E). by exists (chunk_of p n b). Qed.

Lemma rep_few (s : bfc) chains fl : rep s chains fl -> few_chunks s.
Proof. apply rep_small. Qed.

(** The handles and the addresses tell the blocks of a represented state apart. *)
Lemma rep_handle_inj (s : bfc) chains fl x y :
  rep s chains fl -> x ∈ concat chains -> y ∈ concat chains -> b_h x = b_h y -> x = y.
Proof.
  intros Hr Hx Hy Heq. pose proof (rep_handles _ _ _ Hr) as Hnd.
  apply NoDup_app in Hnd as (Hnd & _). revert Hnd Hx Hy.
  generalize (concat chains). intros l. induction l as [|b l IH]; simpl; [set_solver|].
  rewrite NoDup_cons. intros [Hb Hnd] [->|Hx]%elem_of_cons [->|Hy]%elem_of_cons; auto.
  - destruct Hb. rewrite Heq. by apply list_elem_of_fmap_2.
  - destruct Hb. rewrite <- Heq. by apply list_elem_of_fmap_2.
Qed.

(** Distinct blocks do not overlap. *)
Lemma rep_disjoint (s : bfc) chains fl x y :
  rep s chains fl -> x ∈ concat chains -> y ∈ concat chains ->
  x = y \/ b_ptr x + b_size x <= b_ptr y \/ b_ptr y + b_size y <= b_ptr x.
Proof. intros Hr. eapply regions_disjoint; apply Hr. Qed.

Lemma rep_block_size (s : bfc) chains fl b :
  rep s chains fl -> b ∈ concat chains -> size_ok (b_size b).
Proof.
  intros Hr (bs & Hb & Hbs)%elem_of_concat. pose proof (rep_regions _ _ _ Hr) as Hf.
  apply list_elem_of_lookup_1 in Hbs as [i Hi].
  destruct (Forall2_lookup_r _ _ _ _ _ Hf Hi) as (r' & _ & [_ Ht _ _ _ _ _]).
  apply tiles_sizes in Ht. rewrite Forall_forall in Ht. auto.
Qed.

Lemma rep_ptr_inj (s : bfc) chains fl x y :
  rep s chains fl -> x ∈ concat chains -> y ∈ concat chains -> b_ptr x = b_ptr y -> x = y.
Proof.
  intros Hr Hx Hy Heq. destruct (rep_disjoint _ _ _ _ _ Hr Hx Hy) as [|Hd]; [done|].
  destruct (rep_block_size _ _ _ _ Hr Hx), (rep_block_size _ _ _ _ Hr Hy). lia.
Qed.

(** *** Into and out of the bins *)

Definition same_counts (s s' : bfc) : Prop :=
  stats_ s' = stats_ s /\ next_allocation_id_ s' = next_allocation_id_ s /\
  length (chunks_ s') = length (chunks_ s).

Lemma rep_block_bound (s : bfc) chains fl b :
  rep s chains fl -> b ∈ concat chains -> 0 < b_ptr b /\ b_ptr b + b_size b < 2 ^ 64.
Proof.
  intros Hr (bs & Hb & Hbs)%elem_of_concat. pose proof (rep_regions _ _ _ Hr) as Hf.
  apply list_elem_of_lookup_1 in Hbs as [i Hi].
  destruct (Forall2_lookup_r _ _ _ _ _ Hf Hi) as (r' & _ & Hok).
  apply list_elem_of_split in Hb as (l1 & l2 & ->).
  destruct (region_block _ _ _ _ Hok) as (_ & _ & _ & _ & _ & ? & ? & _).
  destruct Hok as [_ _ _ He _ ? ?]. lia.
Qed.

Lemma rep_bin_range (s : bfc) chains fl b :
  rep s chains fl -> b ∈ concat chains -> 0 <= BinNumForSize (b_size b) < kNumBins.
Proof.
  intros Hr Hb. destruct (rep_block_size _ _ _ _ Hr Hb). destruct (rep_block_bound _ _ _ _ Hr Hb).
  apply BinNumForSize_range. lia.
Qed.

Lemma rep_bin_lookup (s : bfc) chains fl i :
  rep s chains fl -> 0 <= i < kNumBins -> exists bin, bins_ s !! Z.to_nat i = Some bin.
Proof. intros Hr Hi. apply lookup_lt_is_Some. rewrite (rep_nbins _ _ _ Hr). lia. Qed.

(** The bins after the contents of the bin [i] became [l']. *)
Lemma bins_ok_alter (s : bfc) C1 B1 b b' B2 C2 fl i l' :
  rep s (ctx C1 B1 [b] B2 C2) fl -> 0 <= i < kNumBins ->
  (forall j, 0 <= j < kNumBins -> j <> i -> b_bin b <> j /\ b_bin b' <> j) ->
  bin_ok i l' (b' :: others C1 B1 B2 C2) ->
  forall j bin, 0 <= j < kNumBins ->
    alter (fun bin => mk_Bin (bin_size bin) l') (Z.to_nat i) (bins_ s) !! Z.to_nat j = Some bin ->
    bin_ok j (free_chunks bin) (b' :: others C1 B1 B2 C2).
Proof.
  intros Hr Hi Hother Hnew j bin Hj Hl. rewrite list_lookup_alter in Hl.
  case_decide as E.
  - assert (i = j) as <- by lia. destruct (bins_ s !! Z.to_nat i); simplify_eq/=. done.
  - destruct (Hother j Hj ltac:(lia)) as [Hb Hb'].
    eapply bin_ok_same; [|by eapply Hr]. intros x Hx. rewrite elem_of_ctx. set_solver.
Qed.

Lemma InsertFreeChunkIntoBin_spec (s : bfc) C1 B1 b B2 C2 fl :
  rep s (ctx C1 B1 [b] B2 C2) fl -> b_id b = -1 -> b_bin b = kInvalidBinNum ->
  runs (InsertFreeChunkIntoBin (b_h b)) s (fun _ s' =>
    rep s' (ctx C1 B1 [with_bin (BinNumForSize (b_size b)) b] B2 C2) fl /\
    same_rest s s' /\ same_counts s s').
Proof.
  intros Hr Hid Hbin. assert (b ∈ concat (ctx C1 B1 [b] B2 C2)) as Hb by (rewrite elem_of_ctx; set_solver).
  destruct (rep_lookup _ _ _ _ Hr Hb) as (p & n & Hl).
  pose proof (lk_Some _ _ _ Hl) as Hrange.
  set (i := BinNumForSize (b_size b)). pose proof (rep_bin_range _ _ _ _ Hr Hb : 0 <= i < _) as Hi.
  destruct (rep_bin_lookup _ _ _ i Hr Hi) as [bin Hbl].
  destruct (rep_bins _ _ _ Hr i bin Hi Hbl) as (kb & Hkl & Hks & Hkb).
  set (b' := with_bin i b). set (s1 := upd (b_h b) (set_bin_num i) s).
  assert (forall h, lk s1 h = if decide (h = b_h b) then set_bin_num i <$> lk s h else lk s h) as Hl1
    by (intros h; apply lk_upd; lia).
  assert (forall x, x ∈ kb -> x ∈ others C1 B1 B2 C2 /\ b_ptr x <> b_ptr b) as Hko.
  { intros x [Hx Hxi]%Hkb. assert (x <> b) as Hne by (intros ->; rewrite Hbin in Hxi; unfold kInvalidBinNum in Hxi; lia).
    split; [rewrite elem_of_ctx in Hx; set_solver|]. intros Hpe. apply Hne. by eapply rep_ptr_inj. }
  assert (Forall (keyed s1) kb) as Hkk.
  { apply Forall_forall. intros x Hx. destruct (proj1 (Hkb x) Hx) as [Hxc _].
    destruct (rep_keyed _ _ _ _ Hr Hxc) as (c & Hc & ? & ?). exists c.
    rewrite Hl1, decide_False; [done|].
    eapply nodup_other; [by eapply rep_nodup|by left|by apply Hko]. }
  assert (keyed s1 b') as Hkb'.
  { eexists. simpl. rewrite Hl1, decide_True, Hl by done. done. }
  unfold InsertFreeChunkIntoBin. run_step. eapply runs_chunk; [by eapply rep_few|done|].
  do 2 run_step. { unfold in_use. simpl. by rewrite Hid, Hbin. }
  run_step. apply runs_update. simpl size. fold i s1. run_step.
  eapply (runs_bin_chunks s1); [done|]. run_step. rewrite Hkl.
  eapply (runs_set_insert s1 b'); [|done|done|].
  { unfold few_chunks, s1, upd. simpl. rewrite length_alter. apply Hr. }
  apply runs_modify.
  split; [|split; [done|unfold same_counts; simpl; by rewrite length_alter]].
  assert (Forall (fun x => b_ptr x <> b_ptr b') kb) as Hpk.
  { apply Forall_forall. intros x Hx. by apply Hko. }
  eapply (rep_replace s _ C1 B1 b b' B2 C2 fl (set_bin_num i)); try done.
  - simpl. by rewrite length_alter.
  - pose proof (rep_blocks _ _ _ Hr) as Hw. rewrite Forall_forall in Hw.
    destruct (Hw _ Hb) as [? ? Hu ?]. split; simpl; try done. by right.
  - rewrite (used_ids_same b) by done. by apply rep_ids_ctx in Hr.
  - simpl. rewrite length_alter. apply Hr.
  - simpl. eapply bins_ok_alter; [done|done| |].
    { intros j Hj Hne. rewrite Hbin. simpl. unfold kInvalidBinNum. lia. }
    exists (kb_insert b' kb). split; [done|]. split; [by apply kb_insert_sorted|].
    intros x. rewrite kb_insert_elem by done. split.
    + intros [->|Hx]; [set_solver|]. split; [|by apply Hkb]. apply elem_of_cons. right. by apply Hko.
    + intros [[->|Hx]%elem_of_cons Hxi]; [by left|right]. apply Hkb. split; [|done].
      rewrite elem_of_ctx. by right.
  - by apply rep_stats_ctx in Hr.
Qed.

(** The bin of a binned block, split at the block. *)
Lemma binned_block (s : bfc) C1 B1 b B2 C2 fl :
  rep s (ctx C1 B1 [b] B2 C2) fl -> b_bin b <> kInvalidBinNum ->
  0 <= b_bin b < kNumBins /\ b_id b = -1 /\
  exists bin k1 k2, bins_ s !! Z.to_nat (b_bin b) = Some bin /\
    free_chunks bin = map b_h (k1 ++ b :: k2) /\ StronglySorted blk_lt (k1 ++ b :: k2) /\
    Forall (keyed s) (k1 ++ b :: k2) /\ (forall x, x ∈ k1 -> b_h x <> b_h b) /\
    bin_ok (b_bin b) (map b_h (k1 ++ k2)) (with_bin kInvalidBinNum b :: others C1 B1 B2 C2).
Proof.
  intros Hr Hbin. assert (b ∈ concat (ctx C1 B1 [b] B2 C2)) as Hb by (rewrite elem_of_ctx; set_solver).
  pose proof (rep_blocks _ _ _ Hr) as Hw. rewrite Forall_forall in Hw.
  destruct (Hw _ Hb) as [_ Hid Hu Hbn]. destruct Hbn as [|Hbn]; [done|].
  pose proof (rep_bin_range _ _ _ _ Hr Hb) as Hi. rewrite <- Hbn in Hi.
  split; [done|]. split.
  { destruct Hid as [|Hid]; [done|]. destruct (Hu ltac:(lia)) as [Hu1 _]. by rewrite Hu1 in Hbin. }
  destruct (rep_bin_lookup _ _ _ _ Hr Hi) as [bin Hbl].
  destruct (rep_bins _ _ _ Hr _ bin Hi Hbl) as (kb & Hkl & Hks & Hkb).
  assert (b ∈ kb) as (k1 & k2 & ->)%list_elem_of_split by (apply Hkb; done).
  destruct (sorted_without _ _ _ Hks) as (Hks' & _ & Hel).
  exists bin, k1, k2. split_and!; try done.
  - apply Forall_forall. intros x Hx. eapply rep_keyed; [done|]. by apply Hkb.
  - intros x Hx Heq. destruct (proj1 (Hel x)) as [Hxk Hne]; [set_solver|]. apply Hne.
    eapply rep_handle_inj; [exact Hr| |done|done]. by apply Hkb.
  - exists (k1 ++ k2). split; [done|]. split; [done|]. intros x. rewrite Hel, Hkb, elem_of_ctx.
    split.
    + intros [[[Hx|Hx] Hxb] Hne]; [set_solver|]. split; [|done]. by right.
    + intros [[->|Hx]%elem_of_cons Hxb]; [done|]. split_and!; [by right|done|].
      intros ->. apply rep_nodup in Hr. by eapply nodup_other in Hx; [|exact Hr|left].
Qed.

Lemma rep_unbin (s : bfc) C1 B1 b B2 C2 fl l' :
  rep s (ctx C1 B1 [b] B2 C2) fl -> b_bin b <> kInvalidBinNum ->
  bin_ok (b_bin b) l' (with_bin kInvalidBinNum b :: others C1 B1 B2 C2) ->
  rep (upd (b_h b) (set_bin_num kInvalidBinNum)
        (set_bins (alter (fun bin => mk_Bin (bin_size bin) l') (Z.to_nat (b_bin b)) (bins_ s)) s))
      (ctx C1 B1 [with_bin kInvalidBinNum b] B2 C2) fl.
Proof.
  intros Hr Hbin Hok. destruct (binned_block _ _ _ _ _ _ _ Hr Hbin) as (Hi & Hid & _).
  assert (b ∈ concat (ctx C1 B1 [b] B2 C2)) as Hb by (rewrite elem_of_ctx; set_solver).
  destruct (rep_lookup _ _ _ _ Hr Hb) as (p & n & Hl). pose proof (lk_Some _ _ _ Hl) as Hrange.
  eapply (rep_replace s _ C1 B1 b _ B2 C2 fl (set_bin_num kInvalidBinNum)); try done.
  - simpl. by rewrite length_alter.
  - intros h. rewrite lk_upd by lia. done.
  - pose proof (rep_blocks _ _ _ Hr) as Hw. rewrite Forall_forall in Hw.
    destruct (Hw _ Hb) as [? ? Hu ?]. split; simpl; try done. by left.
  - rewrite (used_ids_same b) by done. by apply rep_ids_ctx in Hr.
  - simpl. rewrite length_alter. apply Hr.
  - simpl. eapply bins_ok_alter; [done|done| |done].
    intros j Hj Hne. simpl. unfold kInvalidBinNum. lia.
  - by apply rep_stats_ctx in Hr.
Qed.

Lemma RemoveFreeChunkFromBin_spec (s : bfc) C1 B1 b B2 C2 fl :
  rep s (ctx C1 B1 [b] B2 C2) fl -> b_bin b <> kInvalidBinNum ->
  runs (RemoveFreeChunkFromBin (b_h b)) s (fun _ s' =>
    rep s' (ctx C1 B1 [with_bin kInvalidBinNum b] B2 C2) fl /\ same_rest s s' /\ same_counts s s').
Proof.
  intros Hr Hbin. assert (b ∈ concat (ctx C1 B1 [b] B2 C2)) as Hb by (rewrite elem_of_ctx; set_solver).
  destruct (rep_lookup _ _ _ _ Hr Hb) as (p & n & Hl).
  destruct (binned_block _ _ _ _ _ _ _ Hr Hbin)
    as (Hi & Hid & bin & k1 & k2 & Hbl & Hkl & Hks & Hkk & Hh & Hok).
  unfold RemoveFreeChunkFromBin. run_step. eapply runs_chunk; [by eapply rep_few|done|].
  do 2 run_step. { unfold in_use. simpl. rewrite Hid. by destruct (Z.eqb_spec (b_bin b) kInvalidBinNum). }
  run_step. eapply (runs_bin_chunks s); [done|]. rewrite Hkl. run_step.
  eapply runs_set_erase; [by eapply rep_few|done| |]. { by apply sorted_without in Hks as (_ & ? & _). }
  cbv beta iota. run_step. apply runs_modify. do 2 run_step; [done|]. apply runs_update.
  split; [by apply rep_unbin|]. split; [done|]. unfold same_counts. simpl. by rewrite length_alter.
Qed.

Lemma RemoveFreeChunkIterFromBin_spec (s : bfc) C1 B1 b B2 C2 fl :
  rep s (ctx C1 B1 [b] B2 C2) fl -> b_bin b <> kInvalidBinNum ->
  runs (RemoveFreeChunkIterFromBin (b_bin b) (b_h b)) s (fun _ s' =>
    rep s' (ctx C1 B1 [with_bin kInvalidBinNum b] B2 C2) fl /\ same_rest s s' /\ same_counts s s').
Proof.
  intros Hr Hbin. assert (b ∈ concat (ctx C1 B1 [b] B2 C2)) as Hb by (rewrite elem_of_ctx; set_solver).
  destruct (rep_lookup _ _ _ _ Hr Hb) as (p & n & Hl).
  destruct (binned_block _ _ _ _ _ _ _ Hr Hbin)
    as (Hi & Hid & bin & k1 & k2 & Hbl & Hkl & Hks & Hkk & Hh & Hok).
  unfold RemoveFreeChunkIterFromBin. run_step. eapply runs_chunk; [by eapply rep_few|done|].
  do 2 run_step. { unfold in_use. simpl. rewrite Hid. by destruct (Z.eqb_spec (b_bin b) kInvalidBinNum). }
  run_step. eapply (runs_bin_chunks s); [done|]. rewrite Hkl, set_erase_iter_at by done.
  run_step. apply runs_modify. apply runs_update. split; [by apply rep_unbin|]. split; [done|].
  unfold same_counts. simpl. by rewrite length_alter.
Qed.

(** *** Writes to several chunks *)

Lemma lk_upd_eq (s : bfc) h f c : lk s h = Some c -> lk (upd h f s) h = Some (f c).
Proof. intros Hl. rewrite lk_upd by (apply lk_Some in Hl; lia). rewrite decide_True, Hl; done. Qed.

Lemma lk_upd_ne (s : bfc) h f h' : 0 <= h -> h' <> h -> lk (upd h f s) h' = lk s h'.
Proof. intros Hh Hne. rewrite lk_upd by done. by rewrite decide_False. Qed.

(** The write of [prev] to the first block after a place, if there is one. *)
Definition upd_hd (bs : list blk) (f : Chunk -> Chunk) (s : bfc) : bfc :=
  match bs with b :: _ => upd (b_h b) f s | [] => s end.

Lemma upd_hd_rest bs f (s : bfc) :
  same_rest s (upd_hd bs f s) /\ same_counts s (upd_hd bs f s) /\
  regions_ (upd_hd bs f s) = regions_ s /\ bins_ (upd_hd bs f s) = bins_ s /\
  free_chunks_list_ (upd_hd bs f s) = free_chunks_list_ s /\
  length (chunks_ (upd_hd bs f s)) = length (chunks_ s).
Proof. destruct bs; simpl; [by repeat split|]. unfold same_counts. simpl. rewrite length_alter. by repeat split. Qed.

Lemma lk_upd_hd_ne bs f (s : bfc) h :
  Forall (fun b => 0 <= b_h b) bs -> (forall b, b ∈ bs -> b_h b <> h) ->
  lk (upd_hd bs f s) h = lk s h.
Proof.
  destruct bs as [|b bs]; simpl; [done|]. intros [Hb _]%Forall_cons Hne.
  apply lk_upd_ne; [done|]. intros ->. by apply (Hne b); [left|].
Qed.

Lemma seg_upd_hd bs (s : bfc) p nx h :
  Forall (fun b => 0 <= b_h b) bs -> NoDup (map b_h bs) ->
  seg (lk s) p bs nx -> seg (lk (upd_hd bs (set_prev h) s)) h bs nx.
Proof.
  destruct bs as [|b bs]; simpl; [done|]. intros [Hb _]%Forall_cons [Hnb _]%NoDup_cons [Hl Hs].
  split; [by rewrite (lk_upd_eq _ _ _ _ Hl)|].
  eapply seg_ext; [|done]. intros x Hx. apply lk_upd_ne; [done|]. intros Heq.
  apply Hnb. rewrite <- Heq. by apply list_elem_of_fmap_2.
Qed.

Lemma runs_set_prev_hd bs (s : bfc) p h Q :
  few_chunks s -> Forall (fun b => 0 <= b_h b < 2 ^ 31) bs ->
  seg (lk s) p bs kInvalidChunkHandle -> Q tt (upd_hd bs (set_prev h) s) ->
  runs (if negb (hd_h bs kInvalidChunkHandle =? kInvalidChunkHandle) then
          ChunkFromHandle (hd_h bs kInvalidChunkHandle);;
          update_chunk (hd_h bs kInvalidChunkHandle) (set_prev h)
        else mret tt) s Q.
Proof.
  intros Hs Hb Hseg HQ. destruct bs as [|b bs]; simpl in *; [by run_step|].
  apply Forall_cons in Hb as [Hb _].
  destruct (Z.eqb_spec (b_h b) kInvalidChunkHandle) as [E|_].
  { rewrite E in Hb. unfold kInvalidChunkHandle, u64_max in Hb. lia. }
  simpl. run_step. eapply runs_chunk; [done|apply Hseg|]. by apply runs_update.
Qed.

Lemma focus_same (s s' : bfc) chains R1 R2 r C1 C2 bs :
  regions_ s' = regions_ s -> focus s chains R1 R2 r C1 C2 bs -> focus s' chains R1 R2 r C1 C2 bs.
Proof. intros Heq []. split; try done. congruence. Qed.

Lemma rep_handles_range (s : bfc) chains fl :
  rep s chains fl -> Forall (fun b => 0 <= b_h b < 2 ^ 31) (concat chains).
Proof. intros Hr. eapply Forall_impl; [apply Hr|]. by intros b []. Qed.

(** *** Merge *)

Definition merged (b1 b2 : blk) : blk :=
  mk_blk (b_h b1) (b_size b1 + b_size b2) (b_req b1) (b_id b1) (b_ptr b1) kInvalidBinNum.

Lemma cells_add n m : size_ok n -> size_ok m -> cells (n + m) = (cells n + cells m)%nat /\ size_ok (n + m).
Proof.
  intros Hn Hm. pose proof (size_ok_cells _ Hn). pose proof (size_ok_cells _ Hm).
  destruct Hn as [Hn1 Hn2], Hm as [Hm1 Hm2].
  assert (size_ok (n + m)) as Hs.
  { split; [lia|]. rewrite Z.add_mod by done. by rewrite Hn2, Hm2. }
  pose proof (size_ok_cells _ Hs). split; [lia|done].
Qed.

Lemma row_merge h1 h2 n m :
  (1 <= n)%nat -> (1 <= m)%nat ->
  row h1 n ++ <[0%nat := kInvalidChunkHandle]> (row h2 m) = row h1 (n + m).
Proof.
  intros Hn Hm. unfold row. simpl. f_equal.
  change (kInvalidChunkHandle :: replicate (m - 1) kInvalidChunkHandle)
    with (replicate (Datatypes.S (m - 1)) kInvalidChunkHandle).
  rewrite <- replicate_add. f_equal. lia.
Qed.

Lemma region_ok_merge r B1 b1 b2 B2 :
  region_ok r (B1 ++ b1 :: b2 :: B2) ->
  region_ok (mk_Region (region_ptr r) (memory_size r) (end_ptr r)
      (table (B1 ++ [b1]) ++ <[0%nat := kInvalidChunkHandle]> (row (b_h b2) (cells (b_size b2))) ++ table B2))
    (B1 ++ merged b1 b2 :: B2).
Proof.
  intros Hok. pose proof (region_block _ _ _ _ Hok) as (_ & Hs1 & _).
  replace (B1 ++ b1 :: b2 :: B2) with ((B1 ++ [b1]) ++ b2 :: B2) in Hok by by rewrite <- app_assoc.
  pose proof (region_block _ _ _ _ Hok) as (_ & Hs2 & _).
  rewrite <- app_assoc in Hok. simpl in Hok. destruct Hok as [_ Ht Hm He _ Hb Hbd].
  assert (total (B1 ++ merged b1 b2 :: B2) = total (B1 ++ b1 :: b2 :: B2)) as Hto
    by (rewrite !total_app, !total_cons; simpl; lia).
  destruct (cells_add _ _ Hs1 Hs2) as [Hc Hs12].
  split; cbn [region_ptr memory_size end_ptr handles_]; rewrite ?Hto; try done.
  - by destruct B1.
  - rewrite tiles_app in *. simpl in *. destruct Ht as (? & ? & ? & ? & ? & ?).
    split_and!; try done. by rewrite Z.add_assoc.
  - rewrite !table_app, !table_cons. cbn [merged b_h b_size]. rewrite Hc.
    rewrite <- (row_merge _ (b_h b2)) by (apply size_ok_cells; done).
    change (table []) with (@nil Z). by rewrite app_nil_r, <- !app_assoc.
Qed.

(** The handles in a region with two consecutive blocks. *)
Lemma nodup_pair B1 b1 b2 B2 :
  NoDup (map b_h (B1 ++ [b1; b2] ++ B2)) ->
  b_h b1 <> b_h b2 /\ NoDup (map b_h B2) /\
  (forall x, x ∈ B1 ++ B2 -> b_h x <> b_h b1 /\ b_h x <> b_h b2) /\
  (forall x y, x ∈ B1 -> y ∈ B2 -> b_h x <> b_h y).
Proof.
  rewrite map_app, NoDup_app. simpl. rewrite !NoDup_cons, elem_of_cons.
  intros (_ & Hx & H1 & H2 & H3). split; [tauto|]. split; [done|]. split.
  - intros x [Hin|Hin]%elem_of_app; assert (b_h x ∈ map b_h _) as Hm
      by (apply list_elem_of_fmap_2, Hin); split; intros Heq; rewrite Heq in Hm.
    + apply (Hx _ Hm). set_solver.
    + apply (Hx _ Hm). set_solver.
    + tauto.
    + tauto.
  - intros x y Hin Hy Heq. assert (b_h x ∈ map b_h B1) as Hm by by apply list_elem_of_fmap_2.
    apply (Hx _ Hm). rewrite Heq, !elem_of_cons. do 2 right. by apply list_elem_of_fmap_2.
Qed.

Lemma nodup_ctx C1 B1 mid B2 C2 fl b x :
  NoDup (map b_h (mid ++ others C1 B1 B2 C2) ++ fl) -> b ∈ B1 ++ mid ++ B2 ->
  x ∈ concat C1 ++ concat C2 -> b_h x <> b_h b.
Proof.
  intros (H & _)%NoDup_app Hb Hx. unfold others in H.
  assert (mid ++ concat C1 ++ B1 ++ B2 ++ concat C2 ≡ₚ
          (B1 ++ mid ++ B2) ++ concat C1 ++ concat C2) as Hp by solve_Permutation.
  rewrite Hp, map_app in H. apply NoDup_app in H as (_ & H & _). intros Heq.
  apply (H (b_h b)); [by apply list_elem_of_fmap_2|]. rewrite <- Heq. by apply list_elem_of_fmap_2.
Qed.

Lemma nodup_ctx_free C1 B1 mid B2 C2 fl b x :
  NoDup (map b_h (mid ++ others C1 B1 B2 C2) ++ fl) -> b ∈ B1 ++ mid ++ B2 -> x ∈ fl -> x <> b_h b.
Proof.
  intros (_ & H & _)%NoDup_app Hb Hx ->. apply (H (b_h b)); [|done].
  apply list_elem_of_fmap_2. unfold others. set_solver.
Qed.

Lemma used_ids_free b l : b_id b = -1 -> used_ids (b :: l) = used_ids l.
Proof. intros Hi. unfold used_ids, b_used. simpl. by rewrite Hi. Qed.

Lemma used_sum_free b l : b_id b = -1 -> Zsum used_size (b :: l) = Zsum used_size l.
Proof. intros Hi. unfold used_size, b_used. simpl. by rewrite Hi. Qed.

Lemma bins_ok_unbinned (s : bfc) bins' C1 B1 mid mid' B2 C2 fl :
  rep s (ctx C1 B1 mid B2 C2) fl -> bins' = bins_ s ->
  Forall (fun b => b_bin b = kInvalidBinNum) mid -> Forall (fun b => b_bin b = kInvalidBinNum) mid' ->
  forall i bin, 0 <= i < kNumBins -> bins' !! Z.to_nat i = Some bin ->
    bin_ok i (free_chunks bin) (concat (ctx C1 B1 mid' B2 C2)).
Proof.
  intros Hr -> H1 H2 i bin Hi Hl. rewrite Forall_forall in *.
  eapply bin_ok_same; [|by eapply Hr]. intros b Hb. rewrite !elem_of_ctx.
  split; (intros [Hm|Ho]; [exfalso|by right]); [specialize (H1 _ Hm)|specialize (H2 _ Hm)];
    unfold kInvalidBinNum in *; lia.
Qed.

Lemma ctx_segs (s : bfc) C1 B1 b1 b2 B2 C2 fl :
  rep s (ctx C1 B1 [b1; b2] B2 C2) fl ->
  seg (lk s) kInvalidChunkHandle B1 (b_h b1) /\
  lk s (b_h b1) = Some (chunk_of (lst_h kInvalidChunkHandle B1) (b_h b2) b1) /\
  lk s (b_h b2) = Some (chunk_of (b_h b1) (hd_h B2 kInvalidChunkHandle) b2) /\
  seg (lk s) (b_h b2) B2 kInvalidChunkHandle.
Proof.
  intros Hr. pose proof (rep_links _ _ _ Hr) as Hl.
  apply Forall_app in Hl as [_ [Hl _]%Forall_cons]. rewrite seg_app in Hl. simpl in Hl. tauto.
Qed.

Lemma Merge_spec (s : bfc) C1 B1 b1 b2 B2 C2 fl :
  rep s (ctx C1 B1 [b1; b2] B2 C2) fl ->
  b_id b1 = -1 -> b_id b2 = -1 -> b_bin b1 = kInvalidBinNum -> b_bin b2 = kInvalidBinNum ->
  runs (Merge (b_h b1) (b_h b2)) s (fun _ s' =>
    rep s' (ctx C1 B1 [merged b1 b2] B2 C2) (b_h b2 :: fl) /\ same_rest s s' /\ same_counts s s').
Proof.
  intros Hr Hi1 Hi2 Hn1 Hn2.
  destruct (rep_focus _ _ _ _ _ Hr) as (R1 & R2 & r & Hfo).
  pose proof (rep_nodup _ _ _ _ _ _ _ Hr) as Hnd.
  destruct (nodup_pair _ _ _ _ (nodup_region _ _ _ _ _ _ Hnd)) as (Hne & HndB2 & Hx12 & HxB).
  destruct (ctx_segs _ _ _ _ _ _ _ _ Hr) as (HsB1 & Hl1 & Hl2 & HsB2).
  pose proof (rep_few _ _ _ Hr) as Hfew.
  assert (forall b, b ∈ [b1; b2] ++ others C1 B1 B2 C2 -> 0 <= b_h b < 2 ^ 31) as Hrng.
  { intros b Hb. pose proof (rep_handles_range _ _ _ Hr) as H. rewrite Forall_forall in H.
    apply H. by rewrite concat_ctx. }
  assert (0 <= b_h b1 /\ 0 <= b_h b2) as [Hp1 Hp2] by (split; apply Hrng; set_solver).
  assert (Forall (fun b => 0 <= b_h b < 2 ^ 31) B2) as HrB2.
  { apply Forall_forall. intros x Hx. apply Hrng. unfold others. set_solver. }
  assert (Forall (fun b => 0 <= b_h b) B2) as HpB2 by (eapply Forall_impl; [exact HrB2|]; simpl; lia).
  set (n2 := hd_h B2 kInvalidChunkHandle) in *. set (h1 := b_h b1) in *. set (h2 := b_h b2) in *.
  set (s1 := upd h1 (set_next n2) s). set (s2 := upd_hd B2 (set_prev h1) s1).
  destruct (upd_hd_rest B2 (set_prev h1) s1) as (Hsr2 & Hsc2 & Hrg2 & Hbi2 & Hfr2 & Hlen2).
  fold s2 in Hsr2, Hsc2, Hrg2, Hbi2, Hfr2, Hlen2.
  assert (forall x, x <> h1 -> (forall b, b ∈ B2 -> b_h b <> x) -> lk s2 x = lk s x) as Hlk2.
  { intros x Hx HxB2. subst s2. rewrite lk_upd_hd_ne by done. by apply lk_upd_ne. }
  assert (lk s2 h1 = Some (chunk_of (lst_h kInvalidChunkHandle B1) n2 b1)) as Hl1'.
  { subst s2. rewrite lk_upd_hd_ne; [|done|intros b Hb; apply Hx12; set_solver].
    subst s1. by rewrite (lk_upd_eq _ _ _ _ Hl1). }
  assert (lk s2 h2 = Some (chunk_of h1 n2 b2)) as Hl2'.
  { rewrite Hlk2; [done|done|]. intros b Hb. apply Hx12. set_solver. }
  assert (seg (lk s1) h2 B2 kInvalidChunkHandle) as HsB2'.
  { eapply seg_ext; [|exact HsB2]. intros x Hx. apply lk_upd_ne; [done|]. apply Hx12. set_solver. }
  unfold Merge. run_step. eapply runs_chunk; [done..|]. run_step. eapply runs_chunk; [done..|].
  do 2 run_step. { unfold in_use. simpl. by rewrite Hi1, Hi2. }
  cbn [next chunk_of]. run_step. apply runs_update. fold s1. run_step.
  assert (few_chunks s1) as Hfew1 by (unfold few_chunks, s1, upd; simpl; by rewrite length_alter).
  eapply runs_chunk; [done| |]. { unfold s1. rewrite lk_upd_ne by done. done. }
  do 2 run_step. { simpl. by rewrite Z.eqb_refl. }
  run_step. eapply runs_set_prev_hd; [done..|]. fold s2.
  assert (few_chunks s2) as Hfew2 by (unfold few_chunks; by rewrite Hlen2).
  run_step. eapply runs_chunk; [done..|]. run_step. apply runs_update.
  set (s3 := upd h1 _ s2). assert (lk s3 h2 = Some (chunk_of h1 n2 b2)) as Hl3
    by (unfold s3; rewrite lk_upd_ne by done; done).
  assert (few_chunks s3) as Hfew3 by (unfold few_chunks, s3, upd; simpl; by rewrite length_alter).
  run_step. eapply runs_chunk; [done..|]. run_step. apply runs_update.
  set (s4 := upd h1 _ s3). assert (lk s4 h2 = Some (chunk_of h1 n2 b2)) as Hl4
    by (unfold s4; rewrite lk_upd_ne by done; done).
  assert (few_chunks s4) as Hfew4 by (unfold few_chunks, s4, upd; simpl; by rewrite length_alter).
  unfold DeleteChunk, erase. run_step. eapply runs_chunk; [done..|]. run_step.
  cbn [ptr chunk_of]. replace (b_ptr b2) with (b_ptr b2 + 0) by lia.
  eapply (runs_set_handle s4 _ R1 R2 r C1 C2 (B1 ++ [b1]) b2 B2); [| |done|].
  { replace ((B1 ++ [b1]) ++ b2 :: B2) with (B1 ++ [b1; b2] ++ B2) by by rewrite <- app_assoc.
    eapply (focus_same s); [exact Hrg2|exact Hfo]. }
  { assert (b2 ∈ concat (ctx C1 B1 [b1; b2] B2 C2)) as Hb2 by (rewrite elem_of_ctx; set_solver).
    destruct (rep_block_size _ _ _ _ Hr Hb2). lia. }
  set (s5 := set_regions _ s4). unfold DeallocateChunk. run_step.
  eapply runs_chunk; [exact Hfew4|exact Hl4|]. do 2 run_step. run_step. apply runs_update.
  apply runs_modify. set (s6 := upd h2 _ s5).
  assert (forall x, x <> h1 -> x <> h2 -> (forall b, b ∈ B2 -> b_h b <> x) -> lk s6 x = lk s x) as Hlk6.
  { intros x ? ? ?. unfold s6. rewrite lk_upd_ne by done. change (lk s5 x) with (lk s4 x).
    unfold s4, s3. rewrite !lk_upd_ne by done. by apply Hlk2. }
  pose proof (region_ok_merge _ _ _ _ _ (fo_ok _ _ _ _ _ _ _ _ Hfo)) as Hok.
  assert (0 < b_size (merged b1 b2) < 2 ^ 64) as Hsz.
  { pose proof (region_block _ _ _ _ Hok) as (_ & [? _] & _ & _ & _ & ? & ? & _).
    destruct Hok as [_ _ _ He _ ? ?]. simpl in *. lia. }
  assert (lk s6 h1 = Some (chunk_of (lst_h kInvalidChunkHandle B1) n2 (merged b1 b2))) as Hl6.
  { unfold s6. rewrite lk_upd_ne by done. change (lk s5 h1) with (lk s4 h1).
    unfold s4, s3. erewrite lk_upd_eq by (by erewrite lk_upd_eq). simpl in Hsz.
    unfold chunk_of, set_size, set_freed_at_count. simpl. rewrite u64_small by lia. by rewrite Hn1. }
  assert (length (chunks_ s6) = length (chunks_ s)) as Hlen6.
  { unfold s6, upd, s5. simpl. rewrite !length_alter, Hlen2. simpl. by rewrite length_alter. }
  match goal with |- rep ?x _ _ /\ _ => set (s7 := x) end.
  assert (same_rest s s7) as Hsr7.
  { destruct Hsr2. split; try assumption. simpl. rewrite (fo_regions _ _ _ _ _ _ _ _ Hfo), !map_app. done. }
  split; [|split; [done|by destruct Hsc2 as (? & ? & _)]].
  eapply (rep_change s _ C1 B1 [b1; b2] [merged b1 b2]); try done.
  - rewrite seg_app. split.
    { eapply seg_ext; [|exact HsB1]. intros x Hx. apply Hlk6; [apply Hx12; set_solver..|].
      intros y Hy. apply not_eq_sym. auto. }
    split; [done|]. simpl. eapply seg_ext; [|apply (seg_upd_hd B2 s1 h2); done].
    intros x Hx. assert (b_h x <> h1 /\ b_h x <> h2) as [? ?] by (apply Hx12; set_solver).
    change (lk s7 (b_h x)) with (lk s6 (b_h x)). unfold s6. rewrite lk_upd_ne by done.
    change (lk s5 (b_h x)) with (lk s4 (b_h x)). unfold s4, s3. by rewrite !lk_upd_ne by done.
  - intros x Hx. assert (forall b, b ∈ [b1; b2] ++ B2 -> b_h x <> b_h b) as Hxb.
    { intros b Hb. eapply nodup_ctx; [exact Hnd|set_solver|done]. }
    apply Hlk6; [apply Hxb; set_solver..|]. intros b Hb. apply not_eq_sym, Hxb. set_solver.
  - eapply NoDup_Permutation_proper; [|exact Hnd]. simpl. fold h1 h2.
    rewrite <- Permutation_middle. by rewrite perm_swap.
  - simpl. split; [done|]. split.
    { assert (0 <= h2 < 2 ^ 31) by (apply Hrng; set_solver). unfold kInvalidChunkHandle, u64_max. lia. }
    eexists. split; [eapply (lk_upd_eq s5); exact Hl4|]. split_and!; [done..|]. simpl.
    rewrite Hfr2. eapply free_seg_ext; [|apply Hr]. intros x Hx.
    assert (forall b, b ∈ [b1; b2] ++ B2 -> x <> b_h b) as Hxb.
    { intros b Hb. eapply nodup_ctx_free; [exact Hnd|set_solver|done]. }
    apply Hlk6; [apply Hxb; set_solver..|]. intros b Hb. apply not_eq_sym, Hxb. set_solver.
  - destruct Hsc2 as (_ & Hid & _). simpl in *. lia.
  - apply Forall_singleton. split; simpl; [apply Hrng; set_solver|by left|by rewrite Hi1|by left].
  - apply rep_ids_ctx in Hr. simpl in *. rewrite used_ids_free by done.
    by rewrite !used_ids_free in Hr by done.
  - simpl. rewrite Hbi2. apply Hr.
  - eapply bins_ok_unbinned; [exact Hr|exact Hbi2|by repeat constructor|by repeat constructor].
  - destruct Hsc2 as (Hst & _ & _). apply rep_stats_ctx in Hr. simpl app in *.
    rewrite used_sum_free by done. rewrite !used_sum_free in Hr by done. simpl. by rewrite Hst.
  - simpl in Hlen6. simpl. rewrite Hlen6. apply Hfew.
Qed.

(** *** AllocateChunk *)

(** The state after a fresh handle [h] was taken, with the free handles [fl']. *)
Record fresh_handle (s s' : bfc) (chains : list (list blk)) (h : Z) (fl' : list Z) : Prop := {
  fh_range : 0 <= h < 2 ^ 31;
  fh_lk : exists c, lk s' h = Some c /\ allocation_id c = -1 /\ bin_num c = kInvalidBinNum /\
            freed_at_count c = 0;
  fh_same : forall x, x <> h -> lk s' x = lk s x;
  fh_free : free_seg (lk s') (free_chunks_list_ s') fl';
  fh_nodup : NoDup (map b_h (concat chains) ++ h :: fl');
  fh_rest : same_rest s s';
  fh_counts : stats_ s' = stats_ s /\ next_allocation_id_ s' = next_allocation_id_ s;
  fh_regions : regions_ s' = regions_ s;
  fh_bins : bins_ s' = bins_ s;
  fh_few : few_chunks s';
  fh_length : Z.of_nat (length (chunks_ s')) <= Z.of_nat (length (chunks_ s)) + 1 }.

Lemma AllocateChunk_spec (s : bfc) chains fl :
  free_seg (lk s) (free_chunks_list_ s) fl -> NoDup (map b_h (concat chains) ++ fl) ->
  (forall b, b ∈ concat chains -> exists p n, lk s (b_h b) = Some (chunk_of p n b)) ->
  Z.of_nat (length (chunks_ s)) + 1 < 2 ^ 31 ->
  runs AllocateChunk s (fun h s' => exists fl', fresh_handle s s' chains h fl').
Proof.
  intros Hf Hnd Hlkb Hlen. assert (few_chunks s) as Hfew by (unfold few_chunks; lia).
  unfold AllocateChunk. do 2 run_step. destruct fl as [|h fl]; simpl in Hf.
  - rewrite Hf. simpl. run_step. apply runs_modify. run_step. exists [].
    set (h := Z.of_nat (length (chunks_ s))). set (s' := set_chunks _ s).
    assert (forall x, lk s x <> None -> x < h) as Hlt.
    { intros x Hx. destruct (lk s x) eqn:E; [|done]. apply lk_Some in E. lia. }
    assert (lk s' h = Some new_Chunk) as Hl.
    { unfold lk, s'. simpl. replace (0 <=? h) with true by lia. unfold h.
      by rewrite Nat2Z.id, lookup_middle. }
    split; try done.
    + lia.
    + by eexists.
    + intros x Hx. unfold lk, s'. simpl. destruct (Z.leb_spec 0 x); [|done].
      destruct (decide (x < h)); [by rewrite lookup_app_l by lia|].
      rewrite !lookup_ge_None_2; [done|lia|]. rewrite length_app. simpl. lia.
    + rewrite app_nil_r in Hnd. apply NoDup_app. split; [done|]. split; [|by apply NoDup_singleton].
      intros x Hx ->%list_elem_of_singleton. apply list_elem_of_fmap in Hx as (b & Heq & Hb).
      destruct (Hlkb _ Hb) as (p & n & E). apply lk_Some in E. lia.
    + unfold few_chunks, s'. simpl. rewrite length_app. simpl. lia.
    + unfold s'. simpl. rewrite length_app. simpl. lia.
  - destruct Hf as (Hh & Hne & c & Hc & Ha & Hb & Hfr & Hf). rewrite Hh.
    destruct (Z.eqb_spec h kInvalidChunkHandle); [done|]. simpl.
    run_step. eapply runs_chunk; [done..|]. run_step. apply runs_modify. run_step. exists fl.
    apply lk_Some in Hc as Hrange. unfold few_chunks in Hfew.
    split; try done; [lia|by exists c|simpl; lia].
Qed.

End ops.
