(* ===== verification/BfcFind.v ===== *)
(** * The best-fit-with-coalescing allocator: finding a chunk

    [FindChunkPtr] takes the smallest free block that is large enough, splits
    it when that is worthwhile and marks it in use. *)

From S2P Require Import Prelude Bfc BfcRep BfcOps.


(** ** The best-fit-with-coalescing allocator: splitting and coalescing

    [SplitChunk] and [TryToCoalesce] on a represented state. *)

Definition split_left (n : Z) (b : blk) : blk :=
  mk_blk (b_h b) n (b_req b) (b_id b) (b_ptr b) kInvalidBinNum.
Definition split_right (n : Z) (h req : Z) (b : blk) : blk :=
  mk_blk h (b_size b - n) req (-1) (b_ptr b + n) kInvalidBinNum.

Lemma ctx_two {A} (B1 : list A) x y B2 : B1 ++ [x; y] ++ B2 = (B1 ++ [x]) ++ [y] ++ B2.
Proof. by rewrite <- app_assoc. Qed.

Lemma size_ok_sub n m : size_ok n -> size_ok m -> n < m -> size_ok (m - n).
Proof.
  intros [? Hn] [? Hm] Hlt. split; [lia|]. rewrite Zminus_mod. by rewrite Hn, Hm.
Qed.

Lemma row_split h1 h2 n m :
  (1 <= n)%nat -> (1 <= m)%nat -> <[n := h2]> (row h1 (n + m)) = row h1 n ++ row h2 m.
Proof.
  intros Hn Hm. unfold row. destruct n as [|n]; [lia|]. simpl. f_equal.
  replace (n + m - 0)%nat with (n + m)%nat by lia. replace (n - 0)%nat with n by lia.
  replace m with (1 + (m - 1))%nat at 1 by lia. rewrite !replicate_add. simpl.
  rewrite insert_app_r_alt by (rewrite length_replicate; lia).
  by rewrite length_replicate, Nat.sub_diag.
Qed.

Lemma region_ok_split r B1 b B2 n h req :
  region_ok r (B1 ++ b :: B2) -> size_ok n -> n < b_size b ->
  region_ok (mk_Region (region_ptr r) (memory_size r) (end_ptr r)
      (table B1 ++ <[Z.to_nat (n / 256) := h]> (row (b_h b) (cells (b_size b))) ++ table B2))
    (B1 ++ split_left n b :: split_right n h req b :: B2).
Proof.
  intros Hok Hn Hlt. pose proof (region_block _ _ _ _ Hok) as (_ & Hs & _).
  pose proof (size_ok_sub _ _ Hn Hs Hlt) as Hm.
  destruct Hok as [_ Ht Hms He _ Hb Hbd].
  assert (total (B1 ++ split_left n b :: split_right n h req b :: B2) = total (B1 ++ b :: B2)) as Hto
    by (rewrite !total_app, !total_cons; simpl; lia).
  destruct (cells_add _ _ Hn Hm) as [Hc _]. replace (n + (b_size b - n)) with (b_size b) in Hc by lia.
  split; cbn [region_ptr memory_size end_ptr handles_]; rewrite ?Hto; try done.
  - by destruct B1.
  - rewrite tiles_app in *. simpl in *. destruct Ht as (? & ? & ? & ?).
    split_and!; try done; [lia|]. by replace (region_ptr r + total B1 + n + (b_size b - n))
      with (region_ptr r + total B1 + b_size b) by lia.
  - rewrite !table_app, !table_cons. cbn [split_left split_right b_h b_size].
    change (Z.to_nat (n / 256)) with (cells n). rewrite Hc.
    rewrite row_split by (apply size_ok_cells; done). by rewrite <- app_assoc.
Qed.

(** ** Coalesced regions *)

(** No two neighbouring blocks are both free. *)
Fixpoint no_adj (bs : list blk) : Prop :=
  match bs with
  | x :: (y :: _) as bs' => (b_used x = true \/ b_used y = true) /\ no_adj bs'
  | _ => True
  end.

(** Every free block is in a bin. *)
Definition binned (bs : list blk) : Prop :=
  Forall (fun b => b_used b = false -> b_bin b <> kInvalidBinNum) bs.

Definition hd_used (bs : list blk) : Prop := match bs with x :: _ => b_used x = true | [] => True end.
Definition lst_used (bs : list blk) : Prop := match last bs with Some x => b_used x = true | None => True end.

Lemma no_adj_cons x bs : no_adj (x :: bs) <-> (b_used x = true \/ hd_used bs) /\ no_adj bs.
Proof. destruct bs; simpl; tauto. Qed.

Lemma no_adj_app l1 l2 : no_adj (l1 ++ l2) -> no_adj l1 /\ no_adj l2.
Proof.
  induction l1 as [|x l1 IH]; [done|]. cbn [app]. rewrite !no_adj_cons.
  intros [Hx H]. apply IH in H as [? ?]. split; [|done]. split; [|done].
  destruct Hx as [|Hx]; [by left|right]. by destruct l1.
Qed.

Lemma no_adj_snoc l x : no_adj l -> lst_used l \/ b_used x = true -> no_adj (l ++ [x]).
Proof.
  induction l as [|y l IH]; [done|]. cbn [app]. rewrite !no_adj_cons. intros [Hy Hl] Hx. split.
  - destruct l as [|z l]; simpl in *; [|tauto]. unfold lst_used in Hx. simpl in Hx. tauto.
  - apply IH; [done|]. destruct Hx as [Hx|]; [left|by right]. unfold lst_used in *.
    destruct l; [done|]. by rewrite last_cons_cons in Hx.
Qed.

Lemma no_adj_last l x : no_adj (l ++ [x]) -> b_used x = false -> lst_used l.
Proof.
  intros Ha Hx. destruct (decide (l = [])) as [->|Hne]; [done|].
  apply exists_last in Hne as (l' & y & ->). rewrite <- app_assoc in Ha.
  apply no_adj_app in Ha as [_ Ha]. simpl in Ha. rewrite Hx in Ha.
  unfold lst_used. rewrite last_snoc. by destruct Ha as [[|] _].
Qed.

Lemma no_adj_join l1 x l2 : no_adj (l1 ++ [x]) -> no_adj (x :: l2) -> no_adj (l1 ++ x :: l2).
Proof.
  induction l1 as [|y l1 IH]; [done|]. cbn [app]. rewrite !no_adj_cons. intros [Hy H1] H2.
  split; [|by apply IH; rewrite ?no_adj_cons]. destruct l1; simpl in *; tauto.
Qed.

Lemma no_adj_mid l1 x l2 :
  no_adj l1 -> no_adj l2 -> lst_used l1 -> hd_used l2 -> no_adj (l1 ++ [x] ++ l2).
Proof.
  intros H1 H2 Hl Hh. apply no_adj_join; [apply no_adj_snoc; auto|].
  rewrite no_adj_cons. auto.
Qed.

Section split.
Context {S : Type} `{!SubAllocator S}.
Notation bfc := (BFCAllocator S).

Lemma few_upd (s : bfc) h f : few_chunks s -> few_chunks (upd h f s).
Proof. unfold few_chunks, upd. simpl. by rewrite length_alter. Qed.

Lemma ctx_seg (s : bfc) C1 B1 b B2 C2 fl :
  rep s (ctx C1 B1 [b] B2 C2) fl ->
  seg (lk s) kInvalidChunkHandle B1 (b_h b) /\
  lk s (b_h b) = Some (chunk_of (lst_h kInvalidChunkHandle B1) (hd_h B2 kInvalidChunkHandle) b) /\
  seg (lk s) (b_h b) B2 kInvalidChunkHandle.
Proof.
  intros Hr. pose proof (rep_links _ _ _ Hr) as Hl.
  apply Forall_app in Hl as [_ [Hl _]%Forall_cons]. rewrite seg_app in Hl. simpl in Hl. tauto.
Qed.

Lemma few_regions (s : bfc) x : few_chunks s -> few_chunks (set_regions x s).
Proof. done. Qed.

Lemma lk_regions (s : bfc) x h : lk (set_regions x s) h = lk s h.
Proof. done. Qed.

Ltac few := first [assumption | apply few_upd; few | apply few_regions; few].
Ltac ne := first [assumption | apply not_eq_sym; assumption | lia].
Ltac lk_at :=
  first [eassumption | eapply lk_upd_eq; lk_at | rewrite lk_upd_ne by ne; lk_at
        | rewrite lk_regions; lk_at].

(** The pointer writes of [SplitChunk]: what is left is to put the new chunk
    into its bin. *)
Lemma SplitChunk_pre (s : bfc) C1 B1 b B2 C2 fl n Q :
  rep s (ctx C1 B1 [b] B2 C2) fl -> Z.of_nat (length (chunks_ s)) + 1 < 2 ^ 31 ->
  b_id b = -1 -> b_bin b = kInvalidBinNum -> size_ok n -> n < b_size b ->
  (forall s' h req fl',
     rep s' (ctx C1 B1 [split_left n b; split_right n h req b] B2 C2) fl' ->
     same_rest s s' -> stats_ s' = stats_ s -> next_allocation_id_ s' = next_allocation_id_ s ->
     Z.of_nat (length (chunks_ s')) <= Z.of_nat (length (chunks_ s)) + 1 ->
     runs (InsertFreeChunkIntoBin h) s' Q) ->
  runs (SplitChunk (b_h b) n) s Q.
Proof.
  intros Hr Hlen Hid Hbin Hn Hlt HQ.
  destruct (rep_focus _ _ _ _ _ Hr) as (R1 & R2 & r & Hfo).
  pose proof (rep_nodup _ _ _ _ _ _ _ Hr) as Hnd0.
  destruct (ctx_seg _ _ _ _ _ _ _ Hr) as (HsB1 & Hl & HsB2).
  assert (b ∈ concat (ctx C1 B1 [b] B2 C2)) as Hbin' by (rewrite elem_of_ctx; set_solver).
  destruct (rep_block_bound _ _ _ _ Hr Hbin') as [Hbp Hbb].
  assert (Forall (fun b => 0 <= b_h b < 2 ^ 31) (concat (ctx C1 B1 [b] B2 C2))) as Hrng
    by by eapply rep_handles_range.
  unfold SplitChunk. run_step. eapply runs_mono;
    [by apply (AllocateChunk_spec _ _ _ (rep_free _ _ _ Hr) (rep_handles _ _ _ Hr)
                 (fun b => rep_lookup _ _ _ b Hr) Hlen)|].
  intros h s1 (fl' & [Hh (c0 & Hc0 & Ha0 & Hb0 & Hf0) Hsame Hfree Hnd Hrest Hcnt Hreg Hbins Hfew Hlen1]).
  assert (forall x, x ∈ concat (ctx C1 B1 [b] B2 C2) -> b_h x <> h) as Hxh.
  { intros x Hx Heq. apply NoDup_app in Hnd as (_ & Hnd & _). apply (Hnd h); [|by left].
    rewrite <- Heq. by apply list_elem_of_fmap_2. }
  pose proof (Hxh _ Hbin') as Hbh.
  rewrite Forall_forall in Hrng. pose proof (Hrng _ Hbin') as Hbr. simpl in Hbr.
  set (hb := b_h b) in *. set (n2 := hd_h B2 kInvalidChunkHandle) in *.
  assert (lk s1 hb = Some (chunk_of (lst_h kInvalidChunkHandle B1) n2 b)) as Hl1
    by (rewrite Hsame by done; done).
  run_step. eapply runs_chunk; [few|exact Hl1|]. do 2 run_step.
  { unfold in_use. simpl. by rewrite Hid, Hbin. }
  run_step. eapply runs_chunk; [few|exact Hc0|]. run_step. apply runs_update.
  cbn [ptr chunk_of]. rewrite (u64_small (b_ptr b + n)) by (destruct Hn; lia).
  run_step. set (s2 := upd h (set_ptr (b_ptr b + n)) s1).
  eapply (runs_set_handle s2 _ R1 R2 r C1 C2 B1 b B2).
  { eapply (focus_same s); [exact Hreg|exact Hfo]. }
  { destruct Hn. lia. } { apply Hn. }
  match goal with |- runs _ (set_regions ?x _) _ => set (rs := x) end.
  run_step. eapply runs_chunk; [unfold s2; few|unfold s2; lk_at|].
  run_step. apply runs_update. run_step. apply runs_update. run_step. apply runs_update.
  run_step. eapply runs_chunk; [unfold s2; few|unfold s2; lk_at|].
  run_step. apply runs_update.
  run_step. eapply runs_chunk; [unfold s2; few|unfold s2; lk_at|].
  run_step. apply runs_update. run_step. apply runs_update. run_step. apply runs_update.
  cbn [size next freed_at_count chunk_of set_size].
  set (req := requested_size c0). set (br := split_right n h req b). set (bl := split_left n b).
  match goal with |- runs _ ?x _ => set (s10 := x) end.
  assert (few_chunks s10) as Hfew10 by (unfold s10, s2; few).
  assert (lk s10 hb = Some (chunk_of (lst_h kInvalidChunkHandle B1) h bl)) as Hlb.
  { etrans; [unfold s10, s2; lk_at|]. unfold chunk_of, bl. simpl. by rewrite <- Hbin. }
  assert (lk s10 h = Some (chunk_of hb n2 br)) as Hlh.
  { etrans; [unfold s10, s2; lk_at|]. unfold chunk_of, br. simpl. rewrite <- Hb0.
    by rewrite (u64_small (b_size b - n)) by (destruct Hn; lia). }
  assert (forall x, x <> hb -> x <> h -> lk s10 x = lk s x) as Hlx.
  { intros x ? ?. unfold s10, s2. rewrite !lk_upd_ne by ne. rewrite lk_regions, lk_upd_ne by ne. auto. }
  assert (same_rest s s10 /\ stats_ s10 = stats_ s /\
          next_allocation_id_ s10 = next_allocation_id_ s) as [Hrest10 Hcnt10].
  { destruct Hrest. split; [split; try assumption|exact Hcnt]. simpl.
    rewrite (fo_regions _ _ _ _ _ _ _ _ Hfo). unfold rs. by rewrite !map_app. }
  assert (regions_ s10 = rs /\ bins_ s10 = bins_ s /\ free_chunks_list_ s10 = free_chunks_list_ s1 /\
          length (chunks_ s10) = length (chunks_ s1)) as (Hrg10 & Hbi10 & Hfr10 & Hlen10).
  { split; [done|]. split; [exact Hbins|]. split; [done|]. unfold s10, s2, upd. simpl.
    by rewrite !length_alter. }
  clearbody s10. clear s2 Hl1.
  assert (forall x, x ∈ B1 ++ B2 -> b_h x <> hb /\ b_h x <> h) as Hx12.
  { intros x Hx. split; [eapply nodup_other; [exact Hnd0|by left|]|apply Hxh; rewrite elem_of_ctx; right];
      by apply others_region. }
  assert (Forall (fun b => 0 <= b_h b < 2 ^ 31) B2) as HrB2.
  { apply Forall_forall. intros x Hx. apply Hrng. rewrite elem_of_ctx. right. by apply others_after. }
  assert (seg (lk s10) hb B2 kInvalidChunkHandle) as HsB2'.
  { eapply seg_ext; [|exact HsB2]. intros x Hx. apply Hlx; apply Hx12; set_solver. }
  run_step. eapply (runs_set_prev_hd B2); [done..|].
  destruct (upd_hd_rest B2 (set_prev h) s10) as (Hsr & Hsc & Hrg & Hbi & Hfr & Hlen11).
  set (s11 := upd_hd B2 (set_prev h) s10) in *.
  assert (Forall (fun b => 0 <= b_h b) B2) as HpB2 by (eapply Forall_impl; [exact HrB2|]; simpl; lia).
  assert (forall x, (forall b, b ∈ B2 -> b_h b <> x) -> lk s11 x = lk s10 x) as Hlk11.
  { intros x Hx. by apply lk_upd_hd_ne. }
  assert (same_rest s s11) as Hsr11 by by eapply same_rest_trans.
  assert (NoDup (map b_h ([bl; br] ++ others C1 B1 B2 C2) ++ fl')) as Hnd11.
  { eapply NoDup_Permutation_proper; [|exact Hnd]. rewrite concat_ctx. simpl. fold hb.
    by rewrite <- Permutation_middle, perm_swap. }
  assert (stats_ s11 = stats_ s /\ next_allocation_id_ s11 = next_allocation_id_ s) as [Hst11 Hid11]
    by (destruct Hcnt10, Hsc as (? & ? & _); split; congruence).
  eapply (HQ s11 h req fl'); [|done..|lia].
  apply (rep_change s s11 C1 B1 [b] [bl; br] B2 C2 fl fl' R1 R2 r
    (mk_Region (region_ptr r) (memory_size r) (end_ptr r)
      (table B1 ++ <[Z.to_nat (n / 256) := h]> (row (b_h b) (cells (b_size b))) ++ table B2)));
    try done.
  - by rewrite Hrg, Hrg10.
  - by apply region_ok_split; [apply (fo_ok _ _ _ _ _ _ _ _ Hfo)|..].
  - rewrite seg_app. simpl. fold hb. split_and!.
    + eapply seg_ext; [|exact HsB1]. intros x Hx. rewrite Hlk11; [apply Hlx; apply Hx12; set_solver|].
      intros y Hy Heq. apply nodup_region in Hnd0. rewrite map_app, NoDup_app in Hnd0.
      destruct Hnd0 as (_ & Hd & _). apply (Hd (b_h x)); [by apply list_elem_of_fmap_2|].
      rewrite <- Heq. simpl. apply elem_of_cons. right. by apply list_elem_of_fmap_2.
    + rewrite Hlk11; [done|]. intros y Hy. apply Hx12. set_solver.
    + rewrite Hlk11; [done|]. intros y Hy. apply Hx12. set_solver.
    + apply (seg_upd_hd B2 s10 hb); [done| |done]. apply nodup_region in Hnd0.
      rewrite map_app, NoDup_app in Hnd0. destruct Hnd0 as (_ & _ & Hnd0). simpl in Hnd0.
      by apply NoDup_cons in Hnd0 as [_ ?].
  - intros x Hx. assert (forall y, y ∈ [b] ++ B2 -> b_h x <> b_h y) as Hxy.
    { intros y Hy. eapply nodup_ctx; [exact Hnd0|apply elem_of_app; by right|done]. }
    rewrite Hlk11; [|intros y Hy; apply not_eq_sym, Hxy; set_solver].
    apply Hlx; [apply Hxy; by left|]. apply Hxh. rewrite elem_of_ctx. right. by apply others_rest.
  - rewrite Hfr, Hfr10. eapply free_seg_ext; [|exact Hfree]. intros x Hx.
    assert (forall y, y ∈ concat (ctx C1 B1 [b] B2 C2) -> x <> b_h y) as Hxy.
    { intros y Hy ->. apply NoDup_app in Hnd as (_ & Hnd & _). apply (Hnd (b_h y)); [|by right].
      by apply list_elem_of_fmap_2. }
    assert (x <> h) as Hxh'.
    { intros ->. apply NoDup_app in Hnd as (_ & _ & [Hnd _]%NoDup_cons). done. }
    rewrite Hlk11, Hlx, Hsame; [done|done|by apply Hxy|done|].
    intros y Hy. apply not_eq_sym, Hxy. rewrite elem_of_ctx. right. by apply others_after.
  - lia.
  - pose proof (rep_blk_wf _ _ _ _ _ _ _ Hr) as Hw. rewrite Hid11.
    apply Forall_cons in Hw as [[? ? ? ?] _].
    repeat constructor; simpl; try done; try lia; auto.
  - apply rep_ids_ctx in Hr. simpl in *. rewrite !used_ids_free by done.
    by rewrite used_ids_free in Hr by done.
  - rewrite Hbi, Hbi10. apply Hr.
  - eapply bins_ok_unbinned; [exact Hr|congruence|by repeat constructor|by repeat constructor].
  - rewrite Hst11. apply rep_stats_ctx in Hr. simpl app in *. rewrite !used_sum_free by done.
    by rewrite used_sum_free in Hr by done.
  - rewrite Hlen11. apply Hfew10.
Qed.

Lemma SplitChunk_spec (s : bfc) C1 B1 b B2 C2 fl n :
  rep s (ctx C1 B1 [b] B2 C2) fl -> Z.of_nat (length (chunks_ s)) + 1 < 2 ^ 31 ->
  b_id b = -1 -> b_bin b = kInvalidBinNum -> size_ok n -> n < b_size b ->
  runs (SplitChunk (b_h b) n) s (fun _ s' => exists h req fl',
    rep s' (ctx C1 B1 [split_left n b;
                       with_bin (BinNumForSize (b_size b - n)) (split_right n h req b)] B2 C2) fl' /\
    same_rest s s' /\ stats_ s' = stats_ s /\ next_allocation_id_ s' = next_allocation_id_ s /\
    Z.of_nat (length (chunks_ s')) <= Z.of_nat (length (chunks_ s)) + 1).
Proof.
  intros Hr Hlen Hid Hbin Hn Hlt. eapply SplitChunk_pre; [done..|].
  intros s1 h req fl1 Hr1 Hsr1 Hst1 Hid1 Hl1. rewrite ctx_two in Hr1.
  change h with (b_h (split_right n h req b)) at 1.
  eapply runs_mono; [by apply (InsertFreeChunkIntoBin_spec _ _ _ _ _ _ _ Hr1)|].
  intros _ s2 (Hr2 & Hsr2 & Hst2 & Hid2 & Hl2). exists h, req, fl1. rewrite ctx_two.
  split_and!; [done|by eapply same_rest_trans|congruence|congruence|by rewrite Hl2].
Qed.

(** ** TryToCoalesce *)

Lemma runs_mergeable (s : bfc) h c Q :
  few_chunks s -> h <> kInvalidChunkHandle -> lk s h = Some c -> freed_at_count c = 0 ->
  Q (negb (in_use c)) s -> runs (mergeable h false) s Q.
Proof.
  intros Hs Hh Hl Hf HQ. unfold mergeable. destruct (Z.eqb_spec h kInvalidChunkHandle); [done|].
  simpl. run_step. eapply runs_chunk; [done..|]. run_step. rewrite Hf. simpl.
  by rewrite andb_true_r.
Qed.

Lemma handle_valid b : 0 <= b_h b < 2 ^ 31 -> b_h b <> kInvalidChunkHandle.
Proof. unfold kInvalidChunkHandle, u64_max. lia. Qed.

Lemma rep_handle_valid (s : bfc) chains fl b :
  rep s chains fl -> b ∈ concat chains -> b_h b <> kInvalidChunkHandle.
Proof.
  intros Hr Hb. apply rep_handles_range in Hr. rewrite Forall_forall in Hr. by apply handle_valid, Hr.
Qed.

Lemma same_counts_trans (s1 s2 s3 : bfc) : same_counts s1 s2 -> same_counts s2 s3 -> same_counts s1 s3.
Proof. intros (? & ? & ?) (? & ? & ?). split_and!; congruence. Qed.

(** The merge with the next block. *)
Lemma coalesce_next_spec (s : bfc) C1 B1 b B2 C2 fl Q :
  rep s (ctx C1 B1 [b] B2 C2) fl -> b_id b = -1 -> b_bin b = kInvalidBinNum -> binned B2 -> no_adj B2 ->
  (forall s' m B2' fl',
     rep s' (ctx C1 B1 [m] B2' C2) fl' -> b_h m = b_h b -> b_id m = -1 -> b_bin m = kInvalidBinNum ->
     b_size b <= b_size m -> b_ptr m = b_ptr b -> (B2' = B2 -> b_size m = b_size b) -> hd_used B2' -> suffix B2' B2 ->
     List.filter b_used B2' = List.filter b_used B2 ->
     same_rest s s' -> same_counts s s' -> Q tt s') ->
  runs (with_next ← mergeable (hd_h B2 kInvalidChunkHandle) false;
        if (with_next : bool) then
          RemoveFreeChunkFromBin (hd_h B2 kInvalidChunkHandle);;
          c ← ChunkFromHandle (b_h b);
          Merge (b_h b) (next c)
        else mret tt) s Q.
Proof.
  intros Hr Hid Hbin HbB HaB HQ. run_step. destruct B2 as [|b2 B2]; cbn [hd_h].
  { apply runs_ret. apply runs_ret. by eapply HQ. }
  assert (b2 ∈ concat (ctx C1 B1 [b] (b2 :: B2) C2)) as Hb2.
  { rewrite elem_of_ctx. right. apply others_after. by left. }
  destruct (rep_lookup _ _ _ _ Hr Hb2) as (p & n & Hl2).
  eapply runs_mergeable; [by eapply rep_few|by eapply rep_handle_valid|done|done|].
  unfold in_use. cbn [allocation_id chunk_of]. fold (b_used b2).
  destruct (b_used b2) eqn:Hu2; simpl.
  { apply runs_ret. by eapply HQ. }
  apply Forall_cons in HbB as [Hbb2 HbB]. specialize (Hbb2 Hu2).
  assert (b_id b2 = -1) as Hid2 by (unfold b_used in Hu2; bool_to_prop; lia).
  pose proof Hr as Hr0. change (b2 :: B2) with ([b2] ++ B2) in Hr.
  change ([b] ++ [b2] ++ B2) with ([b; b2] ++ B2) in Hr. rewrite ctx_two in Hr.
  run_step. eapply runs_mono; [by apply (RemoveFreeChunkFromBin_spec _ _ _ _ _ _ _ Hr)|].
  intros _ s1 (Hr1 & Hsr1 & Hsc1). rewrite <- ctx_two in Hr1.
  destruct (ctx_segs _ _ _ _ _ _ _ _ Hr1) as (_ & Hl & _ & _).
  run_step. eapply runs_chunk; [by eapply rep_few|done|]. cbn [next chunk_of].
  eapply runs_mono; [by apply (Merge_spec _ _ _ _ _ _ _ _ Hr1)|].
  intros [] s2 (Hr2 & Hsr2 & Hsc2). eapply HQ; [exact Hr2|..]; try done.
  - simpl. destruct (rep_block_size _ _ _ _ Hr0 Hb2). lia.
  - intros Heq. apply (f_equal length) in Heq. simpl in Heq. lia.
  - apply no_adj_cons in HaB as [[Ha|Ha] _]; [by rewrite Ha in Hu2|done].
  - by exists [b2].
  - simpl. by rewrite Hu2.
  - by eapply same_rest_trans.
  - by eapply same_counts_trans.
Qed.

Lemma lst_h_snoc p bs b : lst_h p (bs ++ [b]) = b_h b.
Proof. by rewrite lst_h_app. Qed.

(** [TryToCoalesce] on a free block that is in no bin: what is left of the
    blocks around it, and the merged block. *)
Lemma TryToCoalesce_spec (s : bfc) C1 B1 b B2 C2 fl :
  rep s (ctx C1 B1 [b] B2 C2) fl -> b_id b = -1 -> b_bin b = kInvalidBinNum ->
  binned B1 -> binned B2 -> no_adj B1 -> no_adj B2 ->
  runs (TryToCoalesce (b_h b) false) s (fun h s' => exists B1' m B2' fl',
    rep s' (ctx C1 B1' [m] B2' C2) fl' /\ h = b_h m /\ b_id m = -1 /\ b_bin m = kInvalidBinNum /\
    b_size b <= b_size m /\ (B1' = B1 -> b_ptr m = b_ptr b) /\
    (B1' = B1 -> B2' = B2 -> b_size m = b_size b) /\ prefix B1' B1 /\ suffix B2' B2 /\ lst_used B1' /\ hd_used B2' /\
    List.filter b_used B1' = List.filter b_used B1 /\
    List.filter b_used B2' = List.filter b_used B2 /\
    same_rest s s' /\ same_counts s s').
Proof.
  intros Hr Hid Hbin Hb1 Hb2 Ha1 Ha2. destruct (ctx_seg _ _ _ _ _ _ _ Hr) as (_ & Hl & _).
  unfold TryToCoalesce. run_step. eapply runs_chunk; [by eapply rep_few|done|].
  cbn [freed_at_count chunk_of next prev]. simpl negb. cbn [andb Z.ltb Z.compare].
  apply runs_assoc, runs_bind. eapply coalesce_next_spec; [done..|].
  intros s1 m B2' fl1 Hr1 Hh Hidm Hbm Hsz Hpm Hszm Hhd Hsuf Hfil Hsr1 Hsc1.
  destruct (ctx_seg _ _ _ _ _ _ _ Hr1) as (_ & Hl1 & _). rewrite Hh in Hl1.
  run_step. eapply runs_chunk; [by eapply rep_few|done|]. cbn [prev chunk_of]. run_step.
  destruct (decide (B1 = [])) as [->|Hne].
  { apply runs_ret. apply runs_ret. exists [], m, B2', fl1. by rewrite Hh. }
  apply exists_last in Hne as (B1' & b0 & ->).
  rewrite lst_h_snoc. pose proof Hr1 as Hr1'.
  assert (b0 ∈ concat (ctx C1 (B1' ++ [b0]) [m] B2' C2)) as Hb0.
  { rewrite elem_of_ctx. right. apply others_region, elem_of_app. left. set_solver. }
  destruct (rep_lookup _ _ _ _ Hr1 Hb0) as (p & n & Hl0).
  eapply runs_mergeable; [by eapply rep_few|by eapply rep_handle_valid|done|done|].
  unfold in_use. cbn [allocation_id chunk_of]. fold (b_used b0).
  destruct (b_used b0) eqn:Hu0; simpl.
  { apply runs_ret. exists (B1' ++ [b0]), m, B2', fl1. rewrite Hh.
    split_and!; try done. unfold lst_used. by rewrite last_snoc. }
  assert (b_id b0 = -1) as Hid0 by (unfold b_used in Hu0; bool_to_prop; lia).
  assert (b_bin b0 <> kInvalidBinNum) as Hbb0.
  { apply Forall_app in Hb1 as [_ [Hb1 _]%Forall_cons]. auto. }
  replace (ctx C1 (B1' ++ [b0]) [m] B2' C2) with (ctx C1 B1' [b0] ([m] ++ B2') C2) in Hr1
    by by rewrite <- !app_assoc.
  run_step. eapply runs_mono; [by apply (RemoveFreeChunkFromBin_spec _ _ _ _ _ _ _ Hr1)|].
  intros _ s2 (Hr2 & Hsr2 & Hsc2).
  change ([with_bin kInvalidBinNum b0] ++ [m] ++ B2')
    with ([with_bin kInvalidBinNum b0; m] ++ B2') in Hr2.
  destruct (ctx_segs _ _ _ _ _ _ _ _ Hr2) as (_ & _ & Hl2 & _). rewrite Hh in Hl2.
  run_step. eapply runs_chunk; [by eapply rep_few|done|]. cbn [prev chunk_of].
  rewrite <- Hh. run_step. eapply runs_mono; [by apply (Merge_spec _ _ _ _ _ _ _ _ Hr2)|].
  intros _ s3 (Hr3 & Hsr3 & Hsc3). run_step.
  exists B1', (merged (with_bin kInvalidBinNum b0) m), B2', (b_h m :: fl1).
  split_and!; try done.
  - simpl. destruct (rep_block_size _ _ _ _ Hr1' Hb0). lia.
  - intros Heq. apply (f_equal length) in Heq. rewrite length_app in Heq. simpl in Heq. lia.
  - intros Heq. apply (f_equal length) in Heq. rewrite length_app in Heq. simpl in Heq. lia.
  - by exists [b0].
  - by apply no_adj_last in Ha1.
  - rewrite List.filter_app. simpl. by rewrite Hu0, app_nil_r.
  - do 2 (eapply same_rest_trans; [done|]). done.
  - do 2 (eapply same_counts_trans; [done|]). done.
Qed.

End split.

(** ** The best-fit-with-coalescing allocator: finding a chunk *)

(** Every region is coalesced and its free blocks are in the bins. *)
Definition settled (chains : list (list blk)) : Prop :=
  Forall (fun bs => no_adj bs /\ binned bs) chains.

Definition used (chains : list (list blk)) : list blk := List.filter b_used (concat chains).

(** The block [b] after it is given to a client. *)
Definition taken (b : blk) (num_bytes id : Z) : blk :=
  mk_blk (b_h b) (b_size b) num_bytes id (b_ptr b) kInvalidBinNum.

Lemma BinNumForSize_mono n m :
  0 <= n -> n <= m -> m < 2 ^ 64 -> BinNumForSize n <= BinNumForSize m.
Proof.
  intros Hn Hnm Hm. rewrite !BinNumForSize_eq by lia.
  pose proof (Z.log2_le_mono (Z.max n 256 / 256) (Z.max m 256 / 256)) as Hl.
  pose proof (Z.div_le_mono (Z.max n 256) (Z.max m 256) 256). lia.
Qed.

Lemma b_used_false b : b_used b = false <-> b_id b = -1.
Proof. unfold b_used. destruct (Z.eqb_spec (b_id b) (-1)); simpl; intuition congruence. Qed.

Section find.
Context {S : Type} `{!SubAllocator S}.
Notation bfc := (BFCAllocator S).

Lemma runs_scan_bin (s : bfc) kb rounded_bytes freed_before Q :
  few_chunks s -> 0 <= freed_before ->
  Forall (fun b => b_used b = false /\ exists p n, lk s (b_h b) = Some (chunk_of p n b)) kb ->
  (forall k1 b k2, kb = k1 ++ b :: k2 -> Forall (fun x => b_size x < rounded_bytes) k1 ->
     rounded_bytes <= b_size b -> Q (Some (b_h b)) s) ->
  (Forall (fun x => b_size x < rounded_bytes) kb -> Q None s) ->
  runs (scan_bin (map b_h kb) rounded_bytes freed_before) s Q.
Proof.
  intros Hs Hfb Hkb. revert Q. induction Hkb as [|b kb [Hu (p & n & Hl)] Hkb IH]; intros Q HS HN.
  { apply runs_ret. by apply HN. }
  cbn [map scan_bin]. run_step. eapply runs_chunk; [done..|]. do 2 run_step.
  { unfold in_use. cbn [allocation_id chunk_of]. fold (b_used b). by rewrite Hu. }
  cbn [freed_at_count size chunk_of].
  replace ((0 <? freed_before) && (freed_before <? 0)) with false
    by (symmetry; apply andb_false_iff; destruct (Z.ltb_spec 0 freed_before); [right|by left];
        by apply Z.ltb_ge).
  destruct (Z.leb_spec rounded_bytes (b_size b)) as [Hle|Hlt].
  - apply runs_ret. by apply (HS [] b kb).
  - apply IH.
    + intros k1 x k2 -> H1 H2. apply (HS (b :: k1) x k2); [done| |done]. by constructor.
    + intros H. apply HN. by constructor.
Qed.

(** The blocks in a bin, with their chunks. *)
Lemma bin_blocks (s : bfc) chains fl i :
  rep s chains fl -> 0 <= i < kNumBins ->
  exists kb bin, bins_ s !! Z.to_nat i = Some bin /\ free_chunks bin = map b_h kb /\
    StronglySorted blk_lt kb /\ (forall b, b ∈ kb <-> b ∈ concat chains /\ b_bin b = i) /\
    Forall (fun b => b_used b = false /\ exists p n, lk s (b_h b) = Some (chunk_of p n b)) kb.
Proof.
  intros Hr Hi. destruct (rep_bin_lookup _ _ _ _ Hr Hi) as [bin Hbin].
  destruct (rep_bins _ _ _ Hr _ _ Hi Hbin) as (kb & Hkl & Hs & Hel).
  exists kb, bin. split_and!; try done. apply Forall_forall. intros b Hb.
  apply Hel in Hb as [Hb Hbi]. split; [|by eapply rep_lookup].
  pose proof (rep_blocks _ _ _ Hr) as Hw. rewrite Forall_forall in Hw.
  destruct (Hw _ Hb) as [_ _ Hu _]. apply b_used_false. destruct (decide (b_id b = -1)); [done|].
  destruct (Hu ltac:(done)) as [Hu1 _]. unfold kInvalidBinNum in Hu1. lia.
Qed.

(** [b] is a smallest free block of at least [rounded_bytes]. *)
Definition best_fit (chains : list (list blk)) (rounded_bytes : Z) (b : blk) : Prop :=
  b ∈ concat chains /\ b_used b = false /\ b_bin b <> kInvalidBinNum /\ rounded_bytes <= b_size b /\
  forall x, x ∈ concat chains -> b_used x = false -> rounded_bytes <= b_size x -> b_size b <= b_size x.

Definition none_fits (chains : list (list blk)) (rounded_bytes : Z) : Prop :=
  forall x, x ∈ concat chains -> b_used x = false -> b_size x < rounded_bytes.

Lemma settled_bin (s : bfc) chains fl x :
  rep s chains fl -> settled chains -> x ∈ concat chains -> b_used x = false ->
  b_bin x = BinNumForSize (b_size x) /\ 0 <= b_bin x < kNumBins.
Proof.
  intros Hr Hset Hx Hu. pose proof (rep_blocks _ _ _ Hr) as Hw. rewrite Forall_forall in Hw.
  destruct (Hw _ Hx) as [_ _ _ Hb]. pose proof (rep_bin_range _ _ _ _ Hr Hx) as Hrg.
  assert (b_bin x <> kInvalidBinNum) as Hne.
  { apply elem_of_concat in Hx as (bs & Hxb & Hbs). unfold settled in Hset.
    rewrite Forall_forall in Hset. destruct (Hset _ Hbs) as [_ Hbn]. unfold binned in Hbn.
    rewrite Forall_forall in Hbn. auto. }
  destruct Hb as [|Hb]; [done|]. split; [done|]. by rewrite Hb.
Qed.

Lemma FindChunkPtr_loop_spec (s : bfc) chains fl n i rounded_bytes num_bytes freed_before Q :
  rep s chains fl -> settled chains -> 0 <= freed_before -> 0 <= i -> i + Z.of_nat n = kNumBins ->
  (forall x, x ∈ concat chains -> b_used x = false -> b_bin x < i -> b_size x < rounded_bytes) ->
  (forall b, best_fit chains rounded_bytes b ->
     runs (take_chunk (b_bin b) (b_h b) rounded_bytes num_bytes) s (fun p => Q (Some p))) ->
  (none_fits chains rounded_bytes -> Q None s) ->
  runs (FindChunkPtr_loop n i rounded_bytes num_bytes freed_before) s Q.
Proof.
  intros Hr Hset Hfb. revert i. induction n as [|n IH]; intros i Hi Hin Hprev HS HN; cbn [FindChunkPtr_loop].
  { apply runs_ret, HN. intros x Hx Hu. apply Hprev; [done..|].
    destruct (settled_bin _ _ _ _ Hr Hset Hx Hu) as [_ ?]. lia. }
  destruct (bin_blocks _ _ _ i Hr ltac:(lia)) as (kb & bin & Hbl & Hkl & Hs & Hel & Hkb).
  run_step. eapply (runs_bin_chunks s); [done|]. rewrite Hkl.
  run_step. apply runs_scan_bin; [by eapply rep_few|done|done| |].
  - intros k1 b k2 Heq H1 Hle. run_step.
    assert (b ∈ kb) as Hb by (rewrite Heq; set_solver).
    destruct (proj1 (Hel b) Hb) as [Hbc Hbi]. subst i.
    rewrite Forall_forall in Hkb. destruct (Hkb _ Hb) as [Hub _].
    eapply runs_mono; [apply HS|intros p s' HQ; by apply runs_ret].
    split_and!; [done|done|unfold kInvalidBinNum; lia|done|].
    intros x Hx Hu Hxs. destruct (settled_bin _ _ _ _ Hr Hset Hx Hu) as [Hxb Hxr].
    destruct (settled_bin _ _ _ _ Hr Hset Hbc Hub) as [Hbb _].
    destruct (decide (b_size b <= b_size x)) as [|Hgt]; [done|exfalso].
    destruct (rep_block_bound _ _ _ _ Hr Hx), (rep_block_bound _ _ _ _ Hr Hbc).
    destruct (rep_block_size _ _ _ _ Hr Hx) as [? _].
    pose proof (BinNumForSize_mono (b_size x) (b_size b)) as Hmono.
    destruct (decide (b_bin x < b_bin b)) as [Hlt|]; [specialize (Hprev _ Hx Hu Hlt); lia|].
    assert (x ∈ kb) as Hxk by (apply Hel; split; [done|lia]).
    rewrite Heq in Hxk, Hs. apply elem_of_app in Hxk as [Hxk|[->|Hxk]%elem_of_cons]; [|lia|].
    + rewrite Forall_forall in H1. specialize (H1 _ Hxk). simpl in H1. lia.
    + apply StronglySorted_app in Hs as (_ & _ & Hs). apply StronglySorted_cons in Hs as [Hs _].
      rewrite Forall_forall in Hs. specialize (Hs _ Hxk). unfold blk_lt in Hs. lia.
  - intros Hall. apply IH; try done; [lia|lia|].
    intros x Hx Hu Hlt. destruct (decide (b_bin x < i)); [by apply Hprev|].
    rewrite Forall_forall in Hall. apply Hall, Hel. split; [done|lia].
Qed.

(** The options for which a split never leaves an empty chunk behind. *)
Definition splits_ok (s : bfc) : Prop := 0 < max_internal_fragmentation_bytes s < 2 ^ 63.

Lemma splits_ok_same (s s' : bfc) : same_rest s s' -> splits_ok s -> splits_ok s'.
Proof.
  intros [Ho Hl _ _ _ _ _ _ _ _]. unfold splits_ok, max_internal_fragmentation_bytes. by rewrite Ho, Hl.
Qed.

Lemma used_ctx C1 B1 mid B2 C2 :
  used (ctx C1 B1 mid B2 C2) ≡ₚ List.filter b_used mid ++ List.filter b_used (others C1 B1 B2 C2).
Proof. unfold used. by rewrite (filter_Permutation _ _ _ (concat_ctx _ _ _ _ _)), List.filter_app. Qed.

Lemma settled_ctx C1 B1 mid B2 C2 :
  settled (ctx C1 B1 mid B2 C2) <->
  settled C1 /\ settled C2 /\ no_adj (B1 ++ mid ++ B2) /\ binned (B1 ++ mid ++ B2).
Proof. unfold settled. rewrite Forall_app, Forall_cons. tauto. Qed.

Lemma taken_used b n id : 0 < id -> b_used (taken b n id) = true.
Proof. intros Hid. unfold b_used. simpl. by replace (id =? -1) with false by lia. Qed.

(** Marking the free block [b], which is in no bin, as in use. *)
Lemma rep_take (s : bfc) C1 B1 b B2 C2 fl n :
  rep s (ctx C1 B1 [b] B2 C2) fl -> b_id b = -1 -> b_bin b = kInvalidBinNum -> 0 < n <= b_size b ->
  let id := next_allocation_id_ s in
  let s1 := set_next_allocation_id (id + 1)
              (upd (b_h b) (set_allocation_id id) (upd (b_h b) (set_requested_size n) s)) in
  rep (set_stats (count_alloc (b_size b) (stats_ s)) s1) (ctx C1 B1 [taken b n id] B2 C2) fl.
Proof.
  intros Hr Hid Hbin Hn id s1. destruct (ctx_seg _ _ _ _ _ _ _ Hr) as (_ & Hl & _).
  pose proof (lk_Some _ _ _ Hl) as Hrange. pose proof (rep_next_id _ _ _ Hr) as Hpos.
  pose proof (rep_blk_wf _ _ _ _ _ _ _ Hr) as Hw.
  eapply (rep_replace s _ C1 B1 b _ B2 C2 fl
            (fun c => set_allocation_id id (set_requested_size n c))); try done.
  - unfold s1. simpl. by rewrite !length_alter.
  - intros h. change (lk s1 h = if decide (h = b_h b) then
      (fun c => set_allocation_id id (set_requested_size n c)) <$> lk s h else lk s h).
    unfold s1. change (lk (upd (b_h b) (set_allocation_id id) (upd (b_h b) (set_requested_size n) s)) h = if decide (h = b_h b) then
      (fun c => set_allocation_id id (set_requested_size n c)) <$> lk s h else lk s h).
    rewrite !lk_upd by lia. destruct (decide (h = b_h b)) as [->|]; [|done]. by rewrite Hl.
  - intros p' n'. unfold chunk_of, set_allocation_id, set_requested_size. simpl. by rewrite Hbin.
  - simpl. lia.
  - apply Forall_cons in Hw as [[? ? ? ?] _]. split; simpl; [done|right; lia|done|by left].
  - unfold used_ids. cbn [List.filter]. rewrite taken_used by done. cbn [map]. apply NoDup_cons. split.
    + intros Hin. apply list_elem_of_fmap in Hin as (x & Hx & Hxo).
      apply list_elem_of_In, filter_In in Hxo as [Hxo _]. apply list_elem_of_In in Hxo.
      apply Forall_cons in Hw as [_ Hw]. rewrite Forall_forall in Hw.
      destruct (Hw _ Hxo) as [_ Hxi _ _]. simpl in Hx. subst id. lia.
    + apply rep_ids_ctx in Hr. simpl in Hr. by rewrite used_ids_free in Hr by done.
  - apply Hr.
  - intros i bin Hi Hlb. eapply bin_ok_same; [|by eapply Hr]. intros x Hx. rewrite elem_of_ctx.
    unfold kInvalidBinNum in *. rewrite list_elem_of_singleton, elem_of_cons.
    split; (intros [->|Ho]; [|by right]); simpl in *; unfold kInvalidBinNum in *; lia.
  - simpl. apply rep_stats_ctx in Hr. simpl app in Hr. rewrite used_sum_free in Hr by done.
    rewrite Hr, i64_add_l. simpl. unfold used_size at 2. rewrite taken_used by done. simpl. f_equal. lia.
Qed.

(** What an allocation does to a represented state: the block [nb] is given to
    the client, the other blocks in use stay as they are. *)
Record allocated (s s' : bfc) (chains : list (list blk)) (rounded_bytes num_bytes p : Z) (nb : blk) : Prop := {
  al_state : exists chains' fl', rep s' chains' fl' /\ settled chains' /\
               used chains' ≡ₚ nb :: used chains;
  al_ptr : b_ptr nb = p;
  al_size : rounded_bytes <= b_size nb;
  al_req : b_req nb = num_bytes;
  al_id : b_id nb = next_allocation_id_ s;
  al_next : next_allocation_id_ s' = next_allocation_id_ s + 1;
  al_stats : stats_ s' = count_alloc (b_size nb) (stats_ s);
  al_rest : same_rest s s';
  al_length : Z.of_nat (length (chunks_ s')) <= Z.of_nat (length (chunks_ s)) + 1 }.

Lemma no_adj_used l1 x l2 : no_adj l1 -> no_adj l2 -> b_used x = true -> no_adj (l1 ++ [x] ++ l2).
Proof.
  intros H1 H2 Hx. apply no_adj_join; [apply no_adj_snoc; auto|]. rewrite no_adj_cons. auto.
Qed.

(** The last writes of [take_chunk]. *)
Lemma take_finish (s0 s : bfc) C1 B1 b m B2 B2' C2 fl rounded_bytes num_bytes :
  rep s (ctx C1 B1 [m] B2' C2) fl -> b_id m = -1 -> b_bin m = kInvalidBinNum ->
  b_h m = b_h b -> b_ptr m = b_ptr b -> 0 < num_bytes <= rounded_bytes -> rounded_bytes <= b_size m ->
  settled C1 -> settled C2 -> no_adj B1 -> binned B1 -> no_adj B2' -> binned B2' ->
  List.filter b_used (concat C1 ++ B1 ++ B2' ++ concat C2) = List.filter b_used (others C1 B1 B2 C2) ->
  b_used b = false -> same_rest s0 s -> stats_ s = stats_ s0 ->
  next_allocation_id_ s = next_allocation_id_ s0 ->
  Z.of_nat (length (chunks_ s)) <= Z.of_nat (length (chunks_ s0)) + 1 ->
  runs (s ← get;
        update_chunk (b_h b) (set_requested_size num_bytes);;
        update_chunk (b_h b) (set_allocation_id (next_allocation_id_ s));;
        modify (set_next_allocation_id (next_allocation_id_ s + 1));;
        chunk ← ChunkFromHandle (b_h b);
        modify (fun s => set_stats (count_alloc (size chunk) (stats_ s)) s);;
        mret (ptr chunk)) s
    (fun p s' => exists nb, b_ptr nb = b_ptr b /\ allocated s0 s' (ctx C1 B1 [b] B2 C2) rounded_bytes num_bytes p nb).
Proof.
  intros Hr Hid Hbin Hh Hp Hn Hle HC1 HC2 Ha1 Hb1 Ha2 Hb2 Hfil Hub Hsr Hst Hnx Hlen.
  destruct (ctx_seg _ _ _ _ _ _ _ Hr) as (_ & Hl & _). rewrite <- Hh.
  pose proof (rep_take _ _ _ _ _ _ _ num_bytes Hr Hid Hbin ltac:(lia)) as Hr'. cbv zeta in Hr'.
  pose proof (rep_next_id _ _ _ Hr) as Hpos.
  set (nb := taken m num_bytes (next_allocation_id_ s)) in *.
  assert (b_used nb = true) as Hunb by by apply taken_used.
  do 2 run_step. run_step. apply runs_update. run_step. apply runs_update.
  run_step. apply runs_modify. run_step.
  eapply runs_chunk; [eapply few_upd, few_upd, rep_few, Hr| |].
  { eapply lk_upd_eq, lk_upd_eq. exact Hl. }
  cbn [size ptr chunk_of set_allocation_id set_requested_size].
  run_step. apply runs_modify. run_step. exists nb. split; [done|].
  match goal with |- allocated _ ?x _ _ _ _ _ => set (s' := x) end.
  split; try done.
  - exists (ctx C1 B1 [nb] B2' C2), fl. split; [exact Hr'|]. split.
    + apply settled_ctx. split_and!; [done|done|by apply no_adj_used|].
      apply Forall_app; split; [done|]. constructor; [by rewrite Hunb|done].
    + rewrite !used_ctx. simpl. rewrite Hunb, Hub. simpl. by rewrite <- Hfil.
  - simpl. by rewrite Hnx.
  - simpl. by rewrite Hst.
  - eapply same_rest_trans; [exact Hsr|]. by split.
  - simpl. by rewrite !length_alter.
Qed.

Lemma take_chunk_spec (s : bfc) C1 B1 b B2 C2 fl rounded_bytes num_bytes :
  rep s (ctx C1 B1 [b] B2 C2) fl -> settled (ctx C1 B1 [b] B2 C2) ->
  b_used b = false -> b_bin b <> kInvalidBinNum -> splits_ok s ->
  size_ok rounded_bytes -> 0 < num_bytes <= rounded_bytes -> rounded_bytes <= b_size b ->
  rounded_bytes < 2 ^ 63 -> Z.of_nat (length (chunks_ s)) + 1 < 2 ^ 31 ->
  runs (take_chunk (b_bin b) (b_h b) rounded_bytes num_bytes) s
    (fun p s' => exists nb, b_ptr nb = b_ptr b /\ allocated s s' (ctx C1 B1 [b] B2 C2) rounded_bytes num_bytes p nb).
Proof.
  intros Hr Hset Hu Hbin Hso Hrd Hn Hle Hmax Hlen.
  assert (b_id b = -1) as Hid by by apply b_used_false.
  assert (b ∈ concat (ctx C1 B1 [b] B2 C2)) as Hb by (rewrite elem_of_ctx; set_solver).
  destruct (rep_block_bound _ _ _ _ Hr Hb) as [Hbp Hbb].
  apply settled_ctx in Hset as (HC1 & HC2 & Hadj & Hbn).
  pose proof (no_adj_app _ _ Hadj) as [Ha1 Hadj2]. pose proof (no_adj_app [b] B2 Hadj2) as [_ Ha2].
  apply Forall_app in Hbn as [Hb1 [_ Hb2]%Forall_app].
  assert (hd_used B2) as Hhd.
  { change ([b] ++ B2) with (b :: B2) in Hadj2. apply no_adj_cons in Hadj2 as [[H|H] _]; [by rewrite H in Hu|done]. }
  unfold take_chunk. run_step.
  eapply runs_mono; [by apply (RemoveFreeChunkIterFromBin_spec _ _ _ _ _ _ _ Hr)|].
  intros _ s1 (Hr1 & Hsr1 & (Hst1 & Hnx1 & Hl1)). set (b1 := with_bin kInvalidBinNum b) in *.
  destruct (ctx_seg _ _ _ _ _ _ _ Hr1) as (_ & Hl & _).
  run_step. eapply runs_chunk; [by eapply rep_few|exact Hl|]. do 2 run_step. cbn [size chunk_of].
  change (b_size b1) with (b_size b). rewrite u64_i64_sub, (u64_small (b_size b - _)) by lia.
  pose proof (splits_ok_same _ _ Hsr1 Hso) as [Hso1 Hso2].
  rewrite (u64_small (max_internal_fragmentation_bytes s1)), u64_small by lia.
  run_step. destruct (_ || _) eqn:Esplit.
  - assert (rounded_bytes < b_size b) as Hlt.
    { apply orb_true_iff in Esplit as [E|E]; bool_to_prop; lia. }
    eapply runs_mono; [apply (SplitChunk_spec _ _ _ _ _ _ _ rounded_bytes Hr1); try done; rewrite Hl1; done|].
    intros _ s2 (h & req & fl2 & Hr2 & Hsr2 & Hst2 & Hnx2 & Hl2). rewrite ctx_two, <- app_assoc in Hr2.
    set (br := with_bin _ _) in Hr2. assert (b_used br = false) as Hubr by done.
    eapply (take_finish s s2 C1 B1 b (split_left rounded_bytes b1) B2 ([br] ++ B2) C2); try done.
    + apply no_adj_cons. auto.
    + constructor; [|done]. intros _. simpl.
      pose proof (BinNumForSize_range (b_size b - rounded_bytes)) as Hrg. unfold kInvalidBinNum. lia.
    + unfold others. rewrite !List.filter_app. cbn [List.filter app]. by rewrite Hubr.
    + by eapply same_rest_trans.
    + congruence.
    + congruence.
    + lia.
  - apply runs_ret. eapply (take_finish s s1 C1 B1 b b1 B2 B2 C2); try done. lia.
Qed.

Lemma FindChunkPtr_spec (s : bfc) chains fl rounded_bytes num_bytes freed_before :
  rep s chains fl -> settled chains -> 0 <= freed_before -> splits_ok s ->
  size_ok rounded_bytes -> 0 < num_bytes <= rounded_bytes -> rounded_bytes < 2 ^ 63 ->
  Z.of_nat (length (chunks_ s)) + 1 < 2 ^ 31 ->
  runs (FindChunkPtr (BinNumForSize rounded_bytes) rounded_bytes num_bytes freed_before) s
    (fun r s' =>
       match r with
       | Some p => exists b nb, best_fit chains rounded_bytes b /\ b_ptr nb = b_ptr b /\
                     allocated s s' chains rounded_bytes num_bytes p nb
       | None => s' = s /\ none_fits chains rounded_bytes
       end).
Proof.
  intros Hr Hset Hfb Hso Hrd Hn Hmax Hlen. destruct Hrd as [Hrd1 Hrd2].
  pose proof (BinNumForSize_range rounded_bytes ltac:(lia)) as Hi.
  unfold FindChunkPtr. eapply FindChunkPtr_loop_spec; [done|done|done|lia|lia| | |done].
  - intros x Hx Hu Hlt. destruct (settled_bin _ _ _ _ Hr Hset Hx Hu) as [Hxb _].
    destruct (decide (b_size x < rounded_bytes)) as [|Hge]; [done|exfalso].
    destruct (rep_block_bound _ _ _ _ Hr Hx).
    pose proof (BinNumForSize_mono rounded_bytes (b_size x)). lia.
  - intros b Hbf. pose proof Hbf as (Hb & Hu & Hbin & Hle & _).
    apply elem_of_concat in Hb as (bs & Hb & (C1 & C2 & ->)%list_elem_of_split).
    apply list_elem_of_split in Hb as (B1 & B2 & ->).
    eapply runs_mono; [by apply (take_chunk_spec _ _ _ _ _ _ _ _ _ Hr)|].
    intros p s' (nb & Hp & Hal). by exists b, nb.
Qed.

End find.
