(* ===== verification/BfcExtend.v ===== *)
(** * The best-fit-with-coalescing allocator: growing

    [Extend] asks the sub-allocator for a new region.  The promises of a
    sub-allocator are a class, against which the allocator is proved. *)

From S2P Require Import Prelude Bfc BfcRep BfcOps BfcFind.

(** What the allocator relies on: a sub-allocator in a valid state answers every
    request up to [sub_max] with [nullptr] or with exactly the bytes asked for,
    apart from the regions it gave out before. *)
Class SubAllocatorLaws (S : Type) `{SubAllocator S} := {
  sub_valid : S -> Prop;
  sub_live : S -> list (Z * Z);
  sub_max : Z;
  sub_no_coalescing : SupportsCoalescing = false;
  sub_Alloc_law a n s : sub_valid s -> 0 < n <= sub_max ->
    exists r s', sub_Alloc a n s = Ok (r, s') /\ sub_valid s' /\
      match r with
      | None => sub_live s' = sub_live s
      | Some (p, bytes_received) =>
          bytes_received = n /\ 0 < p /\ p + n < 2 ^ 64 /\
          (forall q m, (q, m) ∈ sub_live s -> p + n <= q \/ q + m <= p) /\
          sub_live s' ≡ₚ (p, n) :: sub_live s
      end;
  sub_Free_law p n s : sub_valid s -> (p, n) ∈ sub_live s ->
    exists s', sub_Free p n s = Ok (tt, s') /\ sub_valid s' /\
      sub_live s ≡ₚ (p, n) :: sub_live s' }.

(** ** Arithmetic *)

Lemma RoundedBytes_spec n :
  0 <= n <= 2 ^ 63 ->
  exists r, RoundedBytes n = Ok r /\ n <= r < n + 256 /\ r `mod` 256 = 0.
Proof.
  intros Hn. exists (256 * ((n + 255) / 256)). pose proof (Z.div_mod (n + 255) 256 ltac:(lia)).
  pose proof (Z.mod_pos_bound (n + 255) 256 ltac:(lia)).
  assert ((256 * ((n + 255) / 256)) `mod` 256 = 0) as Hm by (rewrite Z.mul_comm; by apply Z_mod_mult).
  split; [|split; [lia|done]]. unfold RoundedBytes. change kMinAllocationSize with 256.
  rewrite (u64_small (n + 256)), (u64_small (_ - 1)) by lia.
  replace (n + 256 - 1) with (n + 255) by lia. rewrite u64_small by lia. by rewrite Hm.
Qed.

Lemma round_to_bound p n :
  0 < p -> 0 <= n -> n * (2 ^ p - 1) <= round_to p n * 2 ^ p <= n * (2 ^ p + 1).
Proof.
  intros Hp Hn. assert (0 < 2 ^ p) by (apply Z.pow_pos_nonneg; lia). unfold round_to.
  set (s := Z.log2 n + 1 - p). destruct (Z.leb_spec s 0); [split; nia|].
  assert (0 < n) as Hn0.
  { destruct (decide (n = 0)) as [->|]; [|lia]. subst s. change (Z.log2 0) with 0 in *. lia. }
  rewrite !Z.shiftr_div_pow2, !Z.shiftl_mul_pow2 by lia. rewrite Z.mul_1_l.
  set (q := n / 2 ^ s). assert (0 < 2 ^ s) by (apply Z.pow_pos_nonneg; lia).
  assert (2 ^ s = 2 * 2 ^ (s - 1)) as Hs by (rewrite <- Z.pow_succ_r by lia; f_equal; lia).
  assert (2 ^ (s - 1) * 2 ^ p <= n) as Hhalf.
  { rewrite <- Z.pow_add_r by lia. replace (s - 1 + p) with (Z.log2 n) by (subst s; lia).
    by apply Z.log2_spec. }
  pose proof (Z.div_mod n (2 ^ s) ltac:(lia)) as Hd. fold q in Hd.
  pose proof (Z.mod_pos_bound n (2 ^ s) ltac:(lia)).
  assert (0 <= q) by (apply Z.div_pos; lia).
  set (up := if _ <? _ then false else _).
  assert (up = true -> 2 ^ (s - 1) <= n - q * 2 ^ s) as Hup.
  { subst up. destruct (Z.ltb_spec (n - q * 2 ^ s) (2 ^ (s - 1))); [done|lia]. }
  assert (up = false -> n - q * 2 ^ s <= 2 ^ (s - 1)) as Hdown.
  { subst up. destruct (Z.ltb_spec (n - q * 2 ^ s) (2 ^ (s - 1))); [lia|].
    destruct (Z.ltb_spec (2 ^ (s - 1)) (n - q * 2 ^ s)); [done|lia]. }
  destruct up; [specialize (Hup eq_refl)|specialize (Hdown eq_refl)]; split; nia.
Qed.

(** One backpedal step. *)
Lemma backpedal_step b :
  0 <= b <= 2 ^ 62 -> exists r, RoundedBytes (backpedal_bytes b) = Ok r /\ 0 <= r /\
    r `mod` 256 = 0 /\ (8192 < b -> 0 < r /\ 20 * r <= 19 * b).
Proof.
  intros Hb. unfold backpedal_bytes.
  destruct (round_to_bound 24 b ltac:(lia) ltac:(lia)) as [Hx1 Hx2].
  destruct (round_to_bound 24 (round_to 24 b * kBackpedalFactor_num)) as [Hy1 Hy2];
    [lia|unfold kBackpedalFactor_num; lia|].
  unfold kBackpedalFactor_num in *. set (x := round_to 24 b) in *.
  set (y := round_to 24 (x * 15099494)) in *. rewrite Z.shiftr_div_pow2 by lia.
  pose proof (Z.div_mod y (2 ^ 24) ltac:(lia)). pose proof (Z.mod_pos_bound y (2 ^ 24) ltac:(lia)).
  assert (0 <= y / 2 ^ 24) by (apply Z.div_pos; lia).
  change (2 ^ 24) with 16777216 in *.
  destruct (RoundedBytes_spec (y / 16777216)) as (r & -> & Hr & Hm); [lia|].
  exists r. split; [done|]. split; [lia|]. split; [done|]. lia.
Qed.

(** The last steps, by evaluation. *)
Lemma backpedal_small b :
  0 < b <= 8192 -> b `mod` 256 = 0 ->
  exists r, RoundedBytes (backpedal_bytes b) = Ok r /\ 0 < r <= b /\ r `mod` 256 = 0 /\
    (2304 < b -> r <= b - 256) /\ (b <= 2304 -> r <= 2304).
Proof.
  intros Hb Hm.
  assert (Forall (fun k => match RoundedBytes (backpedal_bytes (256 * k)) with
     | Ok r => (0 <? r) && (r `mod` 256 =? 0) &&
               (r <=? 256 * k) && (if 9 <? k then r <=? 256 * k - 256 else r <=? 2304)
     | Fault _ => false end = true) (seqZ 1 32)) as Hall
    by (apply (bool_decide_unpack _); vm_compute; exact I).
  pose proof (Z.div_mod b 256 ltac:(lia)) as Hd. rewrite Hm, Z.add_0_r in Hd.
  rewrite Forall_forall in Hall. specialize (Hall (b / 256)). rewrite <- Hd in Hall.
  destruct (RoundedBytes (backpedal_bytes b)) as [r|]; [|discriminate Hall; apply elem_of_seqZ; lia].
  exists r. specialize (Hall ltac:(apply elem_of_seqZ; lia)).
  destruct (Z.ltb_spec 9 (b / 256)); bool_to_prop; split_and!; (done || lia).
Qed.

(** Enough rounds to go from the largest request to the smallest. *)
Lemma backpedal_fuel_enough :
  exists k, 2 ^ 62 * 19 ^ Z.of_nat k <= 8192 * 20 ^ Z.of_nat k /\ (k + 24 < backpedal_fuel)%nat.
Proof.
  exists 750%nat. split; [|apply Nat.ltb_lt; vm_compute; reflexivity].
  apply Z.leb_le. vm_compute. reflexivity.
Qed.

#[local] Opaque backpedal_fuel.

Section extend.
Context {S : Type} `{HL : SubAllocatorLaws S}.
Notation bfc := (BFCAllocator S).

(** Where the sub-allocator grants every request of at most 2304 bytes (and
    within its maximum), or only larger blocks are asked for, the loop that
    backs off terminates. *)
Definition small_requests_granted (live : list (Z * Z)) : Prop :=
  forall a n (s : S) r s', sub_valid s -> 0 < n <= 2304 -> length (sub_live s) = length live ->
    sub_Alloc a n s = Ok (r, s') -> r <> None.

Definition region_list (s : bfc) : list (Z * Z) :=
  map (fun r => (region_ptr r, memory_size r)) (regions_ s).

(** The invariant of the whole allocator. *)
Record bfc_wf (s : bfc) (chains : list (list blk)) (fl : list Z) : Prop := {
  wf_rep : rep s chains fl;
  wf_settled : settled chains;
  wf_splits : splits_ok s;
  wf_max : 256 <= max_allocation_size_bytes (opts_ s) <= 2 ^ 62 /\
           max_allocation_size_bytes (opts_ s) <= sub_max /\
           max_allocation_size_bytes (opts_ s) `mod` 256 = 0;
  wf_curr : 256 <= curr_region_allocation_bytes_ s <= max_allocation_size_bytes (opts_ s) /\
            curr_region_allocation_bytes_ s `mod` 256 = 0;
  wf_gc : garbage_collection (opts_ s) = false;
  wf_sub : sub_valid (sub_allocator_ s);
  wf_live : sub_live (sub_allocator_ s) ≡ₚ region_list s }.

Lemma increase_region_spec fuel rounded_bytes curr i :
  0 < curr < 2 ^ 63 -> curr `mod` 256 = 0 -> rounded_bytes <= 2 ^ 62 ->
  rounded_bytes <= curr * 2 ^ Z.of_nat fuel ->
  exists c j, increase_region fuel rounded_bytes curr i = Ok (c, j) /\
    rounded_bytes <= c /\ curr <= c < 2 ^ 63 /\ c `mod` 256 = 0.
Proof.
  revert curr i. induction fuel as [|fuel IH]; intros curr i Hc Hm Hr Hle; simpl.
  - rewrite Z.mul_1_r in Hle. destruct (Z.ltb_spec curr rounded_bytes); [lia|].
    exists curr, i. split_and!; (done || lia).
  - destruct (Z.ltb_spec curr rounded_bytes); [|exists curr, i; split_and!; (done || lia)].
    rewrite u64_small by lia.
    destruct (IH (curr * 2) true) as (c & j & -> & H1 & H2 & H3); [lia| |done| |].
    + rewrite <- Zmult_mod_idemp_l. by rewrite Hm.
    + rewrite Nat2Z.inj_succ, Z.pow_succ_r in Hle by lia. lia.
    + exists c, j. split; [done|]. split; [done|]. split; [lia|done].
Qed.

(** Asking the sub-allocator. *)
Lemma runs_sub_Alloc (s : bfc) a n Q :
  sub_valid (sub_allocator_ s) -> 0 < n <= sub_max ->
  (forall x r, sub_valid x -> sub_Alloc a n (sub_allocator_ s) = Ok (r, x) ->
     match r with
     | None => sub_live x = sub_live (sub_allocator_ s)
     | Some (p, bytes_received) =>
         bytes_received = n /\ 0 < p /\ p + n < 2 ^ 64 /\
         (forall q m, (q, m) ∈ sub_live (sub_allocator_ s) -> p + n <= q \/ q + m <= p) /\
         sub_live x ≡ₚ (p, n) :: sub_live (sub_allocator_ s)
     end -> Q r (set_sub_allocator x s)) ->
  runs (on_sub (sub_Alloc a n)) s Q.
Proof.
  intros Hv Hn HQ. destruct (sub_Alloc_law a n _ Hv Hn) as (r & x & E & Hx & Hr).
  exists r, (set_sub_allocator x s). unfold on_sub. rewrite E. auto.
Qed.

(** What the attempts to get memory end with: nothing, or a new region. *)
Definition obtained (s s' : bfc) (rounded_bytes bytes0 : Z) (r : option (Z * Z) * Z) : Prop :=
  exists x, s' = set_sub_allocator x s /\ sub_valid x /\
  match r with
  | (None, _) => sub_live x ≡ₚ sub_live (sub_allocator_ s)
  | (Some (p, bytes_received), bytes) =>
      bytes_received = bytes /\ 0 < p /\ p + bytes < 2 ^ 64 /\ rounded_bytes <= bytes <= bytes0 /\
      0 < bytes /\ bytes `mod` 256 = 0 /\
      (forall q m, (q, m) ∈ sub_live (sub_allocator_ s) -> p + bytes <= q \/ q + m <= p) /\
      sub_live x ≡ₚ (p, bytes) :: sub_live (sub_allocator_ s)
  end.

Lemma obtained_mono s s' rounded_bytes b b' r x :
  obtained (set_sub_allocator x s) s' rounded_bytes b r -> b <= b' -> sub_valid x ->
  sub_live x = sub_live (sub_allocator_ s) -> obtained s s' rounded_bytes b' r.
Proof.
  intros (y & -> & Hy & Hr) Hb Hx Hl. exists y. split; [done|]. split; [done|]. simpl in Hr.
  rewrite Hl in Hr. destruct r as [[[p n]|] bytes]; [|done]. naive_solver lia.
Qed.

(** One round of the loop: it ends, or goes on with fewer bytes. *)
Lemma backpedal_round (s : bfc) fuel a rounded_bytes bytes r Q :
  sub_valid (sub_allocator_ s) -> 0 <= rounded_bytes -> bytes <= sub_max ->
  RoundedBytes (backpedal_bytes bytes) = Ok r -> 0 < r <= bytes -> r `mod` 256 = 0 ->
  (2304 < rounded_bytes \/ small_requests_granted (sub_live (sub_allocator_ s))) ->
  (forall res s', obtained s s' rounded_bytes bytes res -> Q res s') ->
  (2304 < r -> forall x, sub_valid x -> sub_live x = sub_live (sub_allocator_ s) ->
     runs (backpedal fuel a rounded_bytes r) (set_sub_allocator x s) Q) ->
  runs (backpedal (Datatypes.S fuel) a rounded_bytes bytes) s Q.
Proof.
  intros Hv Hr0 Hmax Hr Hrb Hm Hsmall HQ Hnext. cbn [backpedal].
  run_step. eapply runs_lift; [done|]. destruct (Z.ltb_spec r rounded_bytes) as [Hlt|Hge].
  { apply runs_ret, HQ. exists (sub_allocator_ s). by destruct s. }
  run_step. apply runs_sub_Alloc; [done|lia|]. intros x [[p n]|] Hx Hal Hres.
  - apply runs_ret, HQ. exists x. split; [done|]. split; [done|]. naive_solver lia.
  - apply Hnext; [|done|done]. destruct (decide (2304 < r)) as [|Hle]; [done|exfalso].
    destruct Hsmall as [|Hsmall]; [lia|]. by eapply (Hsmall a r); [| | |exact Hal|]; [done|lia|done|].
Qed.

Lemma backpedal_small_spec (s : bfc) k fuel a rounded_bytes bytes :
  sub_valid (sub_allocator_ s) -> 0 <= rounded_bytes -> bytes <= sub_max ->
  0 < bytes <= 8192 -> bytes `mod` 256 = 0 -> bytes <= 2304 + 256 * Z.of_nat k -> (k < fuel)%nat ->
  (2304 < rounded_bytes \/ small_requests_granted (sub_live (sub_allocator_ s))) ->
  runs (backpedal fuel a rounded_bytes bytes) s (fun r s' => obtained s s' rounded_bytes bytes r).
Proof.
  revert s fuel bytes. induction k as [|k IH]; intros s fuel bytes Hv Hr0 Hmax Hb Hm Hk Hf Hsmall;
    (destruct fuel as [|fuel]; [lia|]);
    destruct (backpedal_small bytes Hb Hm) as (r & Hr & Hr1 & Hrm & Hr2 & Hr3);
    (eapply backpedal_round; [done|done|done|exact Hr|done|done|done|done|]); intros Hgt x Hx Hl.
  { lia. }
  eapply runs_mono; [apply IH; simpl; rewrite ?Hl; try done; lia|].
  intros res s' Hob. eapply obtained_mono; [exact Hob|lia|done|done].
Qed.

Lemma backpedal_spec (s : bfc) k fuel a rounded_bytes bytes :
  sub_valid (sub_allocator_ s) -> 0 <= rounded_bytes -> bytes <= sub_max ->
  0 < bytes <= 2 ^ 62 -> bytes `mod` 256 = 0 ->
  bytes * 19 ^ Z.of_nat k <= 8192 * 20 ^ Z.of_nat k -> (k + 24 < fuel)%nat ->
  (2304 < rounded_bytes \/ small_requests_granted (sub_live (sub_allocator_ s))) ->
  runs (backpedal fuel a rounded_bytes bytes) s (fun r s' => obtained s s' rounded_bytes bytes r).
Proof.
  revert s fuel bytes. induction k as [|k IH]; intros s fuel bytes Hv Hr0 Hmax Hb Hm Hk Hf Hsmall.
  { apply (backpedal_small_spec s 23); try done; lia. }
  destruct (decide (bytes <= 8192)) as [|Hbig]; [apply (backpedal_small_spec s 23); try done; lia|].
  destruct fuel as [|fuel]; [lia|].
  destruct (backpedal_step bytes ltac:(lia)) as (r & Hr & Hr1 & Hrm & Hr2). destruct (Hr2 ltac:(lia)) as [Hr3 Hr4].
  eapply backpedal_round; [done|done|done|exact Hr| |done|done|done|].
  { lia. }
  intros Hgt x Hx Hl. eapply runs_mono; [apply IH; simpl; rewrite ?Hl; try done; try lia|].
  - rewrite Nat2Z.inj_succ, !Z.pow_succ_r in Hk by lia.
    assert (0 < 19 ^ Z.of_nat k) by (apply Z.pow_pos_nonneg; lia). nia.
  - intros res s' Hob. eapply obtained_mono; [exact Hob|lia|done|done].
Qed.

(** *** A new region *)

Lemma upper_bound_split p l :
  StronglySorted (fun r r' => end_ptr r <= region_ptr r') l ->
  Forall (fun r => region_ptr r < end_ptr r) l ->
  Forall (fun r => end_ptr r <= p) (take (upper_bound p l) l) /\
  Forall (fun r => p < end_ptr r) (drop (upper_bound p l) l).
Proof.
  induction l as [|r l IH]; [by split|]. intros [Hr Hs]%StronglySorted_cons [Hb Hn]%Forall_cons.
  cbn [upper_bound]. destruct (Z.ltb_spec p (end_ptr r)); simpl.
  - split; [done|]. constructor; [done|]. rewrite Forall_forall in *. intros x Hx.
    specialize (Hr _ Hx). specialize (Hn _ Hx). simpl in *. lia.
  - destruct (IH Hs Hn). split; [by constructor|done].
Qed.

Lemma region_ok_pos r bs : region_ok r bs -> region_ptr r < end_ptr r.
Proof.
  intros [Hne Ht Hm He _ _ _]. destruct bs as [|b bs]; [done|]. rewrite total_cons in *.
  pose proof (tiles_sizes _ _ Ht) as [[? _] Hs]%Forall_cons. pose proof (total_nonneg _ Hs). lia.
Qed.

Lemma rep_regions_pos (s : bfc) chains fl :
  rep s chains fl -> Forall (fun r => region_ptr r < end_ptr r) (regions_ s).
Proof.
  intros Hr. eapply Forall2_Forall_l; [apply Hr|]. apply Forall_forall.
  intros bs _ r. apply region_ok_pos.
Qed.

Lemma new_region_ok p n h :
  0 < p -> p + n < 2 ^ 64 -> size_ok n ->
  forall req bin, region_ok (mk_Region p n (p + n) (row h (cells n)))
                    [mk_blk h n req (-1) p bin].
Proof.
  intros Hp Hb Hn req bin. assert (total [mk_blk h n req (-1) p bin] = n) as Ht
    by (rewrite total_cons; apply Z.add_0_r).
  split; cbn [region_ptr memory_size end_ptr handles_]; rewrite ?Ht; try done.
  rewrite table_cons. change (table []) with (@nil Z). by rewrite app_nil_r.
Qed.

Lemma make_region_spec p n :
  0 < p -> p + n < 2 ^ 64 -> size_ok n -> n < 2 ^ 63 ->
  make_region p n = Ok (mk_Region p n (p + n) (row kInvalidChunkHandle (cells n))).
Proof.
  intros Hp Hb Hn Hn63. pose proof (size_ok_cells _ Hn) as [Hc1 Hc2]. destruct Hn as [Hn Hm].
  unfold make_region. rewrite Hm. simpl. rewrite u64_small by lia. unfold mret, result_ret. do 2 f_equal.
  unfold resize_handles, n_handles, row. change kMinAllocationSize with 256.
  rewrite (u64_small (n + 256)), u64_small by lia. rewrite resize_nil.
  replace (Z.to_nat ((n + 256 - 1) / 256)) with (Datatypes.S (cells n - 1)); [done|].
  replace (n + 256 - 1) with (255 + Z.of_nat (cells n) * 256) by lia.
  rewrite Z.div_add by lia. change (255 / 256) with 0. lia.
Qed.

(** The parts of the state that the invariant of the blocks reads. *)
Record same_heap (s s' : bfc) : Prop := {
  sh_regions : regions_ s' = regions_ s;
  sh_chunks : chunks_ s' = chunks_ s;
  sh_free : free_chunks_list_ s' = free_chunks_list_ s;
  sh_next : next_allocation_id_ s' = next_allocation_id_ s;
  sh_stats : stats_ s' = stats_ s;
  sh_bins : bins_ s' = bins_ s;
  sh_limit : memory_limit_ s' = memory_limit_ s;
  sh_timestamped : timestamped_chunks_ s' = timestamped_chunks_ s;
  sh_coalesce : coalesce_regions_ s' = coalesce_regions_ s }.

Lemma rep_same_heap (s s' : bfc) chains fl :
  same_heap s s' -> total_region_allocated_bytes_ s' = total_region_allocated_bytes_ s ->
  rep s chains fl -> rep s' chains fl.
Proof.
  intros [Hrg Hch Hfr Hnx Hst Hbi Hli Hts Hco] Htot [].
  assert (lk s' = lk s) as Hlk by (unfold lk; by rewrite Hch).
  split; rewrite ?Hlk, ?Hrg, ?Hch, ?Hfr, ?Hnx, ?Hst, ?Hbi, ?Hli, ?Hts, ?Hco, ?Htot; done.
Qed.

Lemma insert_sorted R1 r R2 :
  StronglySorted (fun r r' => end_ptr r <= region_ptr r') (R1 ++ R2) ->
  (forall x, x ∈ R1 -> end_ptr x <= region_ptr r) -> (forall y, y ∈ R2 -> end_ptr r <= region_ptr y) ->
  StronglySorted (fun r r' => end_ptr r <= region_ptr r') (R1 ++ r :: R2).
Proof.
  intros (Hx & H1 & H2)%StronglySorted_app Hr1 Hr2. apply StronglySorted_app_2; [|done|].
  - intros x y Hx1 [->|Hy]%elem_of_cons; auto.
  - apply StronglySorted_cons. split; [by apply Forall_forall|done].
Qed.

(** The invariant with the new region and its block. *)
Lemma rep_new_region (s0 s : bfc) C1 C2 R1 R2 r nb fl fl' :
  rep s0 (C1 ++ C2) fl -> regions_ s0 = R1 ++ R2 -> Forall2 region_ok R1 C1 -> Forall2 region_ok R2 C2 ->
  (forall x, x ∈ R1 -> end_ptr x <= region_ptr r) -> (forall y, y ∈ R2 -> end_ptr r <= region_ptr y) ->
  regions_ s = R1 ++ r :: R2 -> region_ok r [nb] ->
  total_region_allocated_bytes_ s = total_region_allocated_bytes_ s0 + memory_size r ->
  total_region_allocated_bytes_ s <= memory_limit_ s -> memory_limit_ s = memory_limit_ s0 ->
  b_id nb = -1 -> b_bin nb = kInvalidBinNum -> 0 <= b_h nb < 2 ^ 31 ->
  lk s (b_h nb) = Some (chunk_of kInvalidChunkHandle kInvalidChunkHandle nb) ->
  (forall x, x <> b_h nb -> lk s x = lk s0 x) ->
  free_seg (lk s) (free_chunks_list_ s) fl' ->
  NoDup (map b_h (concat (C1 ++ C2)) ++ b_h nb :: fl') -> few_chunks s ->
  stats_ s = stats_ s0 -> next_allocation_id_ s = next_allocation_id_ s0 -> bins_ s = bins_ s0 ->
  timestamped_chunks_ s = [] -> coalesce_regions_ s = false ->
  rep s (C1 ++ [nb] :: C2) fl'.
Proof.
  intros Hr HR HF1 HF2 Hr1 Hr2 Hrg Hok Htot Hle Hlim Hid Hbin Hh Hl Hlk Hfree Hnd Hfew Hst Hnx Hbi Hts Hco.
  assert (concat (C1 ++ [nb] :: C2) ≡ₚ nb :: concat (C1 ++ C2)) as Hperm.
  { rewrite !concat_app. simpl. by rewrite <- Permutation_middle. }
  assert (forall b, b ∈ concat (C1 ++ C2) -> b_h b <> b_h nb) as Hne.
  { intros b Hb Heq. apply NoDup_app in Hnd as (_ & Hnd & _). apply (Hnd (b_h b)); [by apply list_elem_of_fmap_2|].
    rewrite Heq. by left. }
  assert (forall C, (forall bs, bs ∈ C -> bs ∈ C1 ++ C2) ->
    Forall (fun bs => seg (lk s) kInvalidChunkHandle bs kInvalidChunkHandle) C) as Hext.
  { intros C HC. pose proof (rep_links _ _ _ Hr) as Hlinks. rewrite Forall_forall in *.
    intros bs Hbs. eapply seg_ext; [|by apply Hlinks, HC]. intros b Hb. apply Hlk, Hne.
    rewrite elem_of_concat. eauto. }
  split; try done; try congruence.
  - rewrite Hrg. apply Forall2_app; [done|by constructor].
  - rewrite Hrg. apply insert_sorted; [|done|done]. rewrite <- HR. apply Hr.
  - apply Forall_app. split; [apply Hext; set_solver|]. constructor; [by simpl|apply Hext; set_solver].
  - rewrite Hperm. eapply NoDup_Permutation_proper; [|exact Hnd]. simpl. by rewrite <- Permutation_middle.
  - rewrite Hperm, Hnx. constructor; [|apply Hr].
    split; [done|by left|by rewrite Hid|by left].
  - rewrite (used_ids_Permutation _ _ Hperm), used_ids_free by done. apply Hr.
  - rewrite Hbi. apply Hr.
  - intros j bin Hj. rewrite Hbi. intros Hlb. eapply bin_ok_same; [|by eapply Hr].
    intros b Hb. rewrite Hperm, elem_of_cons. split; [by right|]. intros [->|]; [|done].
    unfold kInvalidBinNum in Hbin. lia.
  - rewrite (Zsum_Permutation _ _ _ Hperm), used_sum_free, Hst by done. apply Hr.
  - rewrite Htot, (rep_total _ _ _ Hr), HR, Hrg, !Zsum_app. simpl. lia.
  - rewrite Hlim. rewrite Hlim in Hle. split; [done|apply Hr].
  - rewrite Hnx. apply Hr.
Qed.

Lemma add_region_spec (s0 s : bfc) chains fl p n :
  rep s0 chains fl -> same_heap s0 s ->
  total_region_allocated_bytes_ s = total_region_allocated_bytes_ s0 + n ->
  total_region_allocated_bytes_ s <= memory_limit_ s ->
  0 < p -> p + n < 2 ^ 64 -> size_ok n -> n < 2 ^ 63 ->
  (forall r, r ∈ regions_ s0 -> p + n <= region_ptr r \/ end_ptr r <= p) ->
  Z.of_nat (length (chunks_ s)) + 1 < 2 ^ 31 ->
  runs (add_region p n) s (fun _ s' => exists C1 C2 nb fl' R1 R2 r,
    chains = C1 ++ C2 /\ regions_ s0 = R1 ++ R2 /\ region_ptr r = p /\ memory_size r = n /\
    rep s' (C1 ++ [nb] :: C2) fl' /\ b_used nb = false /\ b_bin nb <> kInvalidBinNum /\
    b_size nb = n /\ b_ptr nb = p /\ same_rest (set_regions (R1 ++ r :: R2) s) s' /\
    stats_ s' = stats_ s /\ next_allocation_id_ s' = next_allocation_id_ s /\
    Z.of_nat (length (chunks_ s')) <= Z.of_nat (length (chunks_ s)) + 1).
Proof.
  intros Hr Hsh Htot Hlim Hp Hb Hn Hn63 Hdis Hlen.
  pose proof Hsh as [Hrg Hch Hfr Hnx Hst Hbi Hli Hts Hco].
  assert (lk s = lk s0) as Hlk by (unfold lk; by rewrite Hch).
  set (i := upper_bound p (regions_ s0)).
  pose proof (upper_bound_split p _ (rep_sorted _ _ _ Hr) (rep_regions_pos _ _ _ Hr)) as [HR1 HR2].
  fold i in HR1, HR2.
  pose proof (rep_regions _ _ _ Hr) as HF.
  set (R1 := take i (regions_ s0)) in *. set (R2 := drop i (regions_ s0)) in *.
  set (C1 := take i chains). set (C2 := drop i chains).
  assert (chains = C1 ++ C2) as HC by (symmetry; apply take_drop).
  assert (regions_ s0 = R1 ++ R2) as HR by (symmetry; apply take_drop).
  assert (Forall2 region_ok R1 C1 /\ Forall2 region_ok R2 C2) as [HF1 HF2]
    by (split; [by apply Forall2_take|by apply Forall2_drop]).
  rewrite Forall_forall in HR1, HR2.
  set (r0 := mk_Region p n (p + n) (row kInvalidChunkHandle (cells n))).
  assert (forall y, y ∈ R2 -> p + n <= region_ptr y) as Hy.
  { intros y Hin. specialize (HR2 _ Hin). destruct (Hdis y); [rewrite HR; set_solver|done|lia]. }
  assert (StronglySorted (fun r r' => end_ptr r <= region_ptr r') (R1 ++ r0 :: R2)) as Hsort.
  { apply insert_sorted; [rewrite <- HR; apply Hr|done|done]. }
  unfold add_region. do 2 run_step. rewrite Hco, (rep_coalesce _ _ _ Hr). run_step. run_step.
  eapply (runs_lift _ (R1 ++ r0 :: R2)).
  { unfold AddAllocationRegion. by rewrite make_region_spec, Hrg. }
  run_step. cbv beta iota. run_step. apply runs_modify. set (s1 := set_regions (R1 ++ r0 :: R2) s).
  run_step. eapply runs_mono; [apply (AllocateChunk_spec s1 chains fl)|].
  { change (free_seg (lk s) (free_chunks_list_ s) fl). rewrite Hlk, Hfr. apply Hr. }
  { apply Hr. } { intros b Hbc. change (lk s1) with (lk s). rewrite Hlk. by eapply rep_lookup. } { done. }
  intros h s2 (fl' & [Hh (c0 & Hc0 & Ha0 & Hb0 & Hf0) Hsame Hfree Hnd Hrest [Hst2 Hnx2] Hreg Hbins Hfew Hlen2]).
  run_step. eapply runs_chunk; [done..|]. run_step. apply runs_update.
  match goal with |- runs _ (upd h ?f s2) _ => set (F := f) end. set (s3 := upd h F s2).
  set (nb := mk_blk h n (requested_size c0) (-1) p kInvalidBinNum).
  set (d := mk_blk kInvalidChunkHandle n 0 (-1) p kInvalidBinNum).
  run_step. replace p with (b_ptr d + 0) at 1 by (simpl; lia).
  eapply (runs_set_handle s3 (C1 ++ [d] :: C2) R1 R2 r0 C1 C2 [] d []); [| |done|].
  { split; [exact Hreg|done|done|done|done|by apply new_region_ok]. }
  { simpl. destruct Hn. lia. }
  set (r' := mk_Region p n (p + n) (row h (cells n))).
  match goal with |- runs _ (set_regions ?x s3) _ => assert (x = R1 ++ r' :: R2) as -> end.
  { change (table []) with (@nil Z). simpl. by rewrite app_nil_r. }
  set (s4 := set_regions (R1 ++ r' :: R2) s3).
  assert (rep s4 (C1 ++ ([] ++ [nb] ++ []) :: C2) fl') as Hr4.
  { rewrite HC in Hr, Hnd. destruct Hrest.
    assert (forall x, x <> h -> lk s4 x = lk s2 x) as Hlk4 by (intros x Hx; apply lk_upd_ne; lia).
    assert (lk s4 h = Some (F c0)) as Hl4 by by apply lk_upd_eq.
    apply (rep_new_region s0 s4 C1 C2 R1 R2 r' nb fl fl'); try done.
    - by apply new_region_ok.
    - simpl. simpl in *. congruence.
    - simpl in *. congruence.
    - simpl in *. congruence.
    - cbn [b_h nb]. rewrite Hl4. unfold F, chunk_of, set_freed_at_count, set_next, set_prev,
        set_allocation_id, set_size, set_ptr. simpl. by rewrite Hb0.
    - intros x Hx. rewrite Hlk4 by done. rewrite Hsame by done. by rewrite <- Hlk.
    - simpl. eapply free_seg_ext; [|exact Hfree]. intros x Hx. apply Hlk4. intros ->.
      apply NoDup_app in Hnd as (_ & _ & [Hnd _]%NoDup_cons). done.
    - by apply few_upd.
    - simpl in *. congruence.
    - simpl in *. congruence.
    - simpl in *. rewrite Hbins. done.
    - simpl in *. rewrite sr_timestamped, Hts. apply Hr.
    - simpl in *. rewrite sr_coalesce, Hco. apply Hr. }
  run_step. apply runs_ret. run_step.
  eapply runs_mono; [apply (TryToCoalesce_spec s4 C1 [] nb [] C2 fl'); try done; constructor|].
  intros hm s5 (B1' & m & B2' & fl5 & Hr5 & -> & Hidm & Hbm & _ & Hpm & Hszm & [k1 Hp1] & [k2 Hp2] & _ & _ & _ & _ & Hsr5 & Hsc5).
  symmetry in Hp1, Hp2. apply app_eq_nil in Hp1 as [-> _], Hp2 as [_ ->].
  eapply runs_mono; [by apply (InsertFreeChunkIntoBin_spec _ _ _ _ _ _ _ Hr5)|].
  intros _ s6 (Hr6 & Hsr6 & Hsc6).
  specialize (Hpm eq_refl). specialize (Hszm eq_refl eq_refl). simpl in Hpm, Hszm.
  exists C1, C2, (with_bin (BinNumForSize (b_size m)) m), fl5, R1, R2, r'.
  assert (same_rest (set_regions (R1 ++ r' :: R2) s) s6) as Hsr.
  { eapply same_rest_trans; [|eapply same_rest_trans; [exact Hsr5|exact Hsr6]].
    destruct Hrest. split; try assumption. done. }
  destruct Hsc5 as (Hst5 & Hnx5 & Hl5), Hsc6 as (Hst6 & Hnx6 & Hl6).
  split_and!; try done.
  - by apply b_used_false.
  - cbn [b_bin with_bin]. rewrite Hszm. destruct Hn.
    pose proof (BinNumForSize_range n ltac:(lia)). unfold kInvalidBinNum. lia.
  - rewrite Hst6, Hst5. exact Hst2.
  - rewrite Hnx6, Hnx5. exact Hnx2.
  - rewrite Hl6, Hl5. unfold s4, s3, upd. simpl. by rewrite length_alter.
Qed.

(** *** Extend *)

Definition backpedal_ok (s : bfc) (rounded_bytes : Z) : Prop :=
  started_backpedal_ s = true \/ 2304 < rounded_bytes \/ small_requests_granted (sub_live (sub_allocator_ s)).

Lemma runs_get_memory (s : bfc) a rounded_bytes bytes :
  sub_valid (sub_allocator_ s) -> 0 < rounded_bytes <= bytes -> bytes <= sub_max -> bytes <= 2 ^ 62 ->
  bytes `mod` 256 = 0 -> backpedal_ok s rounded_bytes ->
  runs (mem ← on_sub (sub_Alloc a bytes);
        match (mem : option (Z * Z)) with
        | None =>
            if negb (started_backpedal_ s) then
              modify (set_started_backpedal true);;
              backpedal backpedal_fuel a rounded_bytes bytes
            else mret (None, bytes)
        | Some _ => mret (mem, bytes)
        end) s
    (fun r s' => exists b, obtained (set_started_backpedal b s) s' rounded_bytes bytes r).
Proof.
  intros Hv Hr Hmax H62 Hm Hbp. run_step. apply runs_sub_Alloc; [done|lia|].
  intros x [[p n]|] Hx Hal Hres.
  - apply runs_ret. exists (started_backpedal_ s), x. destruct s. split; [done|]. split; [done|].
    simpl in *. naive_solver lia.
  - destruct (started_backpedal_ s) eqn:Eb; simpl.
    + apply runs_ret. exists true, x. split; [|split; [done|by rewrite Hres]].
      destruct s; simpl in *. by subst.
    + run_step. apply runs_modify.
      destruct backpedal_fuel_enough as (k & Hk & Hkf).
      eapply runs_mono; [apply (backpedal_spec _ k backpedal_fuel a rounded_bytes bytes)|].
      * done.
      * lia.
      * done.
      * lia.
      * done.
      * assert (0 < 19 ^ Z.of_nat k) by (apply Z.pow_pos_nonneg; lia). nia.
      * done.
      * destruct Hbp as [Hbp|Hbp]; [congruence|]. simpl. by rewrite Hres.
      * intros res s' (y & -> & Hy & Hob). exists true, y. split; [done|]. split; [done|].
        simpl in Hob. by rewrite Hres in Hob.
Qed.

Lemma region_list_in (s : bfc) chains fl r :
  rep s chains fl -> r ∈ regions_ s ->
  (region_ptr r, memory_size r) ∈ region_list s /\ end_ptr r = region_ptr r + memory_size r.
Proof.
  intros Hr Hin. split; [by apply (list_elem_of_fmap_2 (fun r => (region_ptr r, memory_size r)))|].
  apply list_elem_of_lookup_1 in Hin as [i Hi].
  destruct (Forall2_lookup_l _ _ _ _ _ (rep_regions _ _ _ Hr) Hi) as (bs & _ & [_ _ Hm He _ _ _]).
  lia.
Qed.

Lemma used_insert C1 nb C2 : b_used nb = false -> used (C1 ++ [nb] :: C2) = used (C1 ++ C2).
Proof. intros Hu. unfold used. rewrite !concat_app, !List.filter_app. simpl. by rewrite Hu. Qed.

(** The state of the allocator after [Extend]. *)
Record extended (s s' : bfc) (chains : list (list blk)) (rounded_bytes : Z) (ok : bool) : Prop := {
  ex_state : exists chains' fl', bfc_wf s' chains' fl' /\ used chains' = used chains /\
    if ok then exists nb, nb ∈ concat chains' /\ b_used nb = false /\ rounded_bytes <= b_size nb
    else chains' = chains;
  ex_opts : opts_ s' = opts_ s;
  ex_limit : memory_limit_ s' = memory_limit_ s;
  ex_next : next_allocation_id_ s' = next_allocation_id_ s;
  ex_stats : stats_ s' = stats_ s;
  ex_length : Z.of_nat (length (chunks_ s')) <= Z.of_nat (length (chunks_ s)) + 1 }.

Lemma Extend_spec (s : bfc) chains fl a rounded_bytes :
  bfc_wf s chains fl -> size_ok rounded_bytes ->
  rounded_bytes <= max_allocation_size_bytes (opts_ s) ->
  Z.of_nat (length (chunks_ s)) + 1 < 2 ^ 31 -> backpedal_ok s rounded_bytes ->
  runs (Extend a rounded_bytes) s (fun ok s' => extended s s' chains rounded_bytes ok).
Proof.
  intros Hwf Hrd Hmax Hlen Hbp. pose proof Hwf as [Hr Hset Hso (HM1 & HM2 & HM3) (HC1 & HC2) Hgc Hv Hlive].
  pose proof (rep_limit _ _ _ Hr) as Hlim. pose proof Hrd as [Hrd0 _].
  assert (0 <= total_region_allocated_bytes_ s) as Ht0.
  { rewrite (rep_total _ _ _ Hr). apply Zsum_nonneg, Forall_forall. intros r Hin.
    destruct (region_list_in _ _ _ _ Hr Hin) as [_ He].
    pose proof (rep_regions_pos _ _ _ Hr) as Hpos. rewrite Forall_forall in Hpos.
    specialize (Hpos _ Hin). simpl in Hpos. lia. }
  unfold Extend. do 2 run_step. rewrite u64_small by lia. change kMinAllocationSize with 256.
  set (limit := memory_limit_ s - total_region_allocated_bytes_ s).
  set (available := limit / 256 * 256).
  assert (available <= limit) as Hav by (subst available; pose proof (Z.mul_div_le limit 256); lia).
  assert (available `mod` 256 = 0) as Ham by by apply Z_mod_mult.
  destruct (Z.ltb_spec available rounded_bytes).
  { apply runs_ret. split; try done; [|lia]. by exists chains, fl. }
  destruct (increase_region_spec increase_fuel rounded_bytes (curr_region_allocation_bytes_ s) false)
    as (c & j & Hinc & Hc1 & Hc2 & Hc3); [lia|done|lia| |].
  { change (2 ^ Z.of_nat increase_fuel) with (2 ^ 64). lia. }
  run_step. eapply runs_lift; [exact Hinc|]. cbv beta iota. run_step. apply runs_modify.
  run_step. run_step. set (s1 := set_curr_region _ s).
  set (mx := max_allocation_size_bytes (opts_ s)) in *.
  set (bytes := Z.min (curr_region_allocation_bytes_ s1) available).
  assert (rounded_bytes <= bytes <= available /\ bytes <= mx /\ bytes `mod` 256 = 0) as (Hb1 & Hb2 & Hb3).
  { subst bytes. simpl. fold mx. split_and!; try lia.
    destruct (Z.min_spec (Z.min c mx) available) as [[_ ->]|[_ ->]]; [|done].
    by destruct (Z.min_spec c mx) as [[_ ->]|[_ ->]]. }
  apply runs_assoc, runs_bind.
  eapply runs_mono; [by apply (runs_get_memory s1 a rounded_bytes bytes); try done; simpl; lia|].
  intros r s2 (b & x & -> & Hx & Hob). set (s2 := set_sub_allocator x _).
  assert (256 <= Z.min c mx <= mx /\ Z.min c mx `mod` 256 = 0) as [Hcm1 Hcm2].
  { split; [lia|]. by destruct (Z.min_spec c mx) as [[_ ->]|[_ ->]]. }
  destruct r as [[[p n]|] bytes'].
  2:{ apply runs_ret. split; try done; [|simpl; lia]. exists chains, fl. split_and!; try done.
      split; try done; [by eapply (rep_same_heap s)|]. by etrans; [exact Hob|]. }
  destruct Hob as (-> & Hp & Hpb & Hbb & Hb0 & Hbm & Hdis & Hlx). simpl in Hdis, Hlx.
  run_step. eapply (runs_mono _ _ (fun _ s' => exists cur, s' = set_curr_region cur s2 /\
    256 <= cur <= mx /\ cur `mod` 256 = 0)).
  { destruct j; simpl; [apply runs_ret; exists (Z.min c mx); by destruct s|].
    apply runs_modify. eexists. split; [done|]. simpl. fold mx.
    rewrite u64_small by lia. split; [lia|].
    destruct (Z.min_spec (Z.min c mx * 2) mx) as [[_ ->]|[_ ->]]; [|done].
    rewrite <- Zmult_mod_idemp_l. by rewrite Hcm2. }
  intros _ s3 (cur & -> & Hcur1 & Hcur2). run_step. apply runs_modify.
  cbn [total_region_allocated_bytes_ set_curr_region s2 set_sub_allocator set_started_backpedal s1].
  rewrite u64_small by lia. set (s4 := set_total_region _ _).
  run_step. eapply runs_mono; [apply (add_region_spec s s4 chains fl p bytes'); try done|].
  { simpl. lia. } { lia. }
  { intros r Hr'. destruct (region_list_in _ _ _ _ Hr Hr') as [Hin ->]. apply Hdis. by rewrite Hlive. }
  intros _ s5 (C1 & C2 & nb & fl' & R1 & R2 & r & -> & HR & Hrp & Hrm & Hr5 & Hu & Hbn & Hsz & _ &
               Hsr & Hst & Hnx & Hl5).
  apply runs_ret. destruct Hsr as [Hopts Hlimit Hcur _ _ _ Hsub _ _ Hmem].
  assert (opts_ s5 = opts_ s) as Ho by exact Hopts.
  assert (memory_limit_ s5 = memory_limit_ s) as Hl by exact Hlimit.
  assert (curr_region_allocation_bytes_ s5 = cur) as Hc by exact Hcur.
  assert (sub_allocator_ s5 = x) as Hs5 by exact Hsub.
  split; [|done|done|exact Hnx|exact Hst|exact Hl5].
  exists (C1 ++ [nb] :: C2), fl'. split_and!; [|by apply used_insert|].
  - split; [done| | | | | | |].
    + apply Forall_app in Hset as [? ?]. apply Forall_app. split; [done|]. constructor; [|done].
      split; [done|]. by repeat constructor.
    + unfold splits_ok, max_internal_fragmentation_bytes in *. by rewrite Ho, Hl.
    + by rewrite Ho.
    + by rewrite Ho, Hc.
    + by rewrite Ho.
    + by rewrite Hs5.
    + rewrite Hs5. etrans; [exact Hlx|]. rewrite Hlive. unfold region_list. rewrite Hmem, HR.
      cbn [regions_ set_regions]. rewrite !map_app. cbn [map]. rewrite Hrp, Hrm.
      by rewrite <- Permutation_middle.
  - exists nb. split_and!; [|done|lia]. rewrite concat_app. apply elem_of_app. right. by left.
Qed.

End extend.
