(* ===== verification/BfcClient.v ===== *)
(** * The best-fit-with-coalescing allocator: runs of its clients

    The constructor, sequences of client calls on a new allocator, and the
    properties of the allocator over any sub-allocator that keeps its promises. *)

From S2P Require Import Prelude Bfc BfcRep BfcOps BfcFind BfcExtend.


(** ** The best-fit-with-coalescing allocator: what its clients can rely on

    [AllocateRaw] and [DeallocateRaw] on a well-formed allocator, and runs of
    client operations from a new one. *)

Section proofs.
Context {S : Type} `{HSub : SubAllocator S} `{HL : !SubAllocatorLaws S}.
Notation bfc := (BFCAllocator S).

Lemma bfc_wf_rest (s s' : bfc) chains chains' fl fl' :
  bfc_wf s chains fl -> same_rest s s' -> rep s' chains' fl' -> settled chains' -> bfc_wf s' chains' fl'.
Proof.
  intros [_ _ Hso HM HC Hgc Hv Hl] Hsr Hr Hset. pose proof (splits_ok_same _ _ Hsr Hso).
  destruct Hsr as [Ho Hli Hcu _ _ _ Hsu _ _ Hmem].
  split; [done|done|done|by rewrite Ho|by rewrite Ho, Hcu|by rewrite Ho|by rewrite Hsu|].
  rewrite Hsu. unfold region_list in *. by rewrite Hmem.
Qed.

(** ** Allocation *)

(** What a call of [AllocateRaw] does: it gives out one more block, or none. *)
Record raw_allocated (s s' : bfc) (chains : list (list blk)) (num_bytes : Z) (r : option Z) : Prop := {
  ra_state : exists chains' fl', bfc_wf s' chains' fl' /\
    match r with
    | Some p => exists nb, used chains' ≡ₚ nb :: used chains /\ b_ptr nb = p /\
                  b_req nb = num_bytes /\ num_bytes <= b_size nb /\ b_id nb = next_allocation_id_ s /\
                  stats_ s' = count_alloc (b_size nb) (stats_ s)
    | None => used chains' = used chains /\ stats_ s' = stats_ s
    end;
  ra_opts : opts_ s' = opts_ s;
  ra_limit : memory_limit_ s' = memory_limit_ s;
  ra_length : Z.of_nat (length (chunks_ s')) <= Z.of_nat (length (chunks_ s)) + 2 }.

Lemma raw_allocated_found (s s' s'' : bfc) chains chains' fl' rounded_bytes num_bytes p nb :
  bfc_wf s' chains' fl' -> used chains' = used chains -> opts_ s' = opts_ s ->
  memory_limit_ s' = memory_limit_ s ->
  next_allocation_id_ s' = next_allocation_id_ s -> stats_ s' = stats_ s ->
  Z.of_nat (length (chunks_ s')) <= Z.of_nat (length (chunks_ s)) + 1 -> num_bytes <= rounded_bytes ->
  allocated s' s'' chains' rounded_bytes num_bytes p nb -> raw_allocated s s'' chains num_bytes (Some p).
Proof.
  intros Hwf Hu Ho Hli Hnx Hst Hl Hle [(chains'' & fl'' & Hr & Hset & Hperm) Hp Hsz Hreq Hid Hnx' Hst' Hsr Hl'].
  split.
  - exists chains'', fl''. split; [by eapply bfc_wf_rest|]. exists nb. rewrite <- Hu.
    split_and!; try done; [lia|congruence|congruence].
  - destruct Hsr as [Ho' _ _ _ _ _ _ _ _ _]. congruence.
  - destruct Hsr as [_ Hli' _ _ _ _ _ _ _ _]. congruence.
  - lia.
Qed.

Lemma retry_find_false (m : ST bfc bool) find rest (s : bfc) Q :
  runs m s (fun b s' => b = false /\ runs rest s' Q) -> runs (retry_find m find rest) s Q.
Proof. intros Hm. unfold retry_find. run_step. eapply runs_mono; [exact Hm|]. by intros b s' [-> ?]. Qed.

Lemma AllocateRawInternal_spec (s : bfc) chains fl a num_bytes freed_before :
  bfc_wf s chains fl -> 0 <= num_bytes -> 0 <= freed_before ->
  Z.of_nat (length (chunks_ s)) + 2 < 2 ^ 31 -> backpedal_ok s num_bytes ->
  runs (AllocateRawInternal a num_bytes freed_before) s (fun r s' => raw_allocated s s' chains num_bytes r).
Proof.
  intros Hwf Hn Hfb Hlen Hbp. pose proof Hwf as [Hr Hset Hso (HM1 & HM2 & HM3) _ Hgc _ _].
  unfold AllocateRawInternal. do 2 run_step.
  assert (raw_allocated s s chains num_bytes None) as Hnone by (split; [by exists chains, fl|done|done|lia]).
  destruct (Z.eqb_spec num_bytes 0) as [|Hn0]; [by apply runs_ret|].
  destruct (Z.ltb_spec (max_allocation_size_bytes (opts_ s)) num_bytes); [by apply runs_ret|].
  destruct (RoundedBytes_spec num_bytes ltac:(lia)) as (rounded & Hrd & Hrd1 & Hrd2).
  assert (size_ok rounded) as Hsz by (split; [lia|done]).
  assert (rounded <= max_allocation_size_bytes (opts_ s)) as Hrm.
  { set (mx := max_allocation_size_bytes (opts_ s)) in *.
    pose proof (Z.div_mod mx 256 ltac:(lia)). pose proof (Z.div_mod rounded 256 ltac:(lia)). lia. }
  run_step. eapply runs_lift; [done|]. rewrite (rep_timestamped _ _ _ Hr). simpl negb.
  run_step. apply runs_ret.
  unfold retry_find at 1. run_step. apply runs_ret. run_step.
  eapply runs_mono; [by apply (FindChunkPtr_spec s chains fl); try done; lia|].
  intros [p|] s1.
  { intros (b & nb & _ & _ & Hal). apply runs_ret. eapply raw_allocated_found; [exact Hwf|done|done|done|done|done|lia| |exact Hal]. lia. }
  intros [-> Hno]. unfold retry_find at 1. run_step.
  eapply runs_mono; [apply (Extend_spec s chains fl); try done; [lia|]|].
  { destruct Hbp as [?|[?|?]]; [by left|right; left; lia|by do 2 right]. }
  intros [] s2 [(chains2 & fl2 & Hwf2 & Hu2 & Hex) Ho2 Hl2 Hnx2 Hst2 Hle2].
  - run_step. pose proof Hwf2 as [Hr2 Hset2 Hso2 _ _ _ _ _].
    eapply runs_mono; [apply (FindChunkPtr_spec s2 chains2 fl2); try done; lia|].
    intros [p|] s3.
    + intros (b & nb & _ & _ & Hal). apply runs_ret.
      eapply raw_allocated_found; [exact Hwf2|done|done|done|done|done|lia| |exact Hal]. lia.
    + intros [_ Hno2]. destruct Hex as (nb & Hnb & Hub & Hsb). specialize (Hno2 _ Hnb Hub). lia.
  - apply retry_find_false. do 2 run_step. rewrite (rep_timestamped _ _ _ (wf_rep _ _ _ Hwf2)).
    simpl negb. rewrite andb_false_r. apply runs_ret. split; [done|].
    apply retry_find_false. run_step. unfold DeallocateFreeRegions. do 2 run_step.
    rewrite Ho2, Hgc. simpl negb. apply runs_ret. apply runs_ret. split; [done|]. apply runs_ret.
    split; [|done|done|lia]. by exists chains2, fl2.
Qed.

(** ** Deallocation *)

Definition freed (b : blk) : blk :=
  mk_blk (b_h b) (b_size b) (b_req b) (-1) (b_ptr b) kInvalidBinNum.

Lemma MarkFree_spec (s : bfc) C1 B1 b B2 C2 fl :
  rep s (ctx C1 B1 [b] B2 C2) fl -> b_used b = true ->
  runs (MarkFree (b_h b)) s (fun _ s' =>
    rep s' (ctx C1 B1 [freed b] B2 C2) fl /\ same_rest s s' /\
    length (chunks_ s') = length (chunks_ s)).
Proof.
  intros Hr Hu. destruct (ctx_seg _ _ _ _ _ _ _ Hr) as (_ & Hl & _).
  pose proof (lk_Some _ _ _ Hl) as Hrange. pose proof (rep_blk_wf _ _ _ _ _ _ _ Hr) as Hw.
  apply Forall_cons in Hw as [[Hwh Hwi Hwu Hwb] _].
  assert (b_id b <> -1) as Hid by (intros E; apply b_used_false in E; congruence).
  destruct (Hwu Hid) as [Hbin Hreq].
  unfold MarkFree. run_step. eapply runs_chunk; [by eapply rep_few|done|]. do 2 run_step.
  { unfold in_use. cbn [allocation_id bin_num chunk_of]. fold (b_used b). by rewrite Hu, Hbin. }
  run_step. apply runs_update. apply runs_modify. cbn [size chunk_of].
  match goal with |- rep ?x _ _ /\ _ => set (s' := x) end.
  split; [|split; [by split|unfold s', upd; simpl; by rewrite length_alter]].
  eapply (rep_replace s s' C1 B1 b (freed b) B2 C2 fl (set_allocation_id (-1))); try done.
  - unfold s', upd. simpl. by rewrite length_alter.
  - intros h. change (lk s' h) with (lk (upd (b_h b) (set_allocation_id (-1)) s) h).
    apply lk_upd. lia.
  - intros p n. unfold chunk_of, set_allocation_id. simpl. by rewrite Hbin.
  - split; simpl; [done|by left|done|by left].
  - apply rep_ids_ctx in Hr. rewrite used_ids_free by done. simpl in Hr.
    unfold used_ids in Hr at 1. simpl in Hr. rewrite Hu in Hr. simpl in Hr. by apply NoDup_cons in Hr as [_ ?].
  - apply Hr.
  - intros i bin Hi Hlb. eapply bin_ok_same; [|by eapply Hr]. intros x Hx. rewrite elem_of_ctx.
    rewrite list_elem_of_singleton, elem_of_cons. unfold kInvalidBinNum in *.
    split; (intros [->|Ho]; [|by right]); simpl in *; unfold kInvalidBinNum in *; lia.
  - apply rep_stats_ctx in Hr. simpl app in Hr. unfold s'. simpl. rewrite Hr, i64_sub_l.
    simpl. unfold used_size at 1 3. rewrite Hu. simpl. f_equal. lia.
Qed.

Lemma settled_replaced C1 B1 b B2 C2 :
  settled (ctx C1 B1 [b] B2 C2) -> no_adj B1 /\ no_adj B2 /\ binned B1 /\ binned B2 /\ settled C1 /\ settled C2.
Proof.
  intros (HC1 & HC2 & Hadj & Hbn)%settled_ctx. pose proof (no_adj_app _ _ Hadj) as [Ha1 Hadj2].
  pose proof (no_adj_app [b] B2 Hadj2) as [_ Ha2]. apply Forall_app in Hbn as [Hb1 [_ Hb2]%Forall_app].
  done.
Qed.

Lemma DeallocateRaw_spec (s : bfc) chains fl b :
  bfc_wf s chains fl -> b ∈ used chains ->
  runs (DeallocateRaw (b_ptr b)) s (fun _ s' => exists chains' fl',
    bfc_wf s' chains' fl' /\ used chains ≡ₚ b :: used chains' /\ opts_ s' = opts_ s /\
    memory_limit_ s' = memory_limit_ s /\ started_backpedal_ s' = started_backpedal_ s /\
    length (chunks_ s') = length (chunks_ s)).
Proof.
  intros Hwf Hb. apply list_elem_of_In, filter_In in Hb as [Hb Hu]. apply list_elem_of_In in Hb.
  pose proof Hwf as [Hr Hset _ _ _ _ _ _].
  destruct (rep_block_bound _ _ _ _ Hr Hb) as [Hp _]. pose proof (rep_handle_valid _ _ _ _ Hr Hb) as Hh.
  apply elem_of_concat in Hb as (bs & Hb & (C1 & C2 & ->)%list_elem_of_split).
  apply list_elem_of_split in Hb as (B1 & B2 & ->).
  change (B1 ++ b :: B2) with (B1 ++ [b] ++ B2) in *.
  destruct (rep_focus _ _ _ _ _ Hr) as (R1 & R2 & r & Hfo).
  destruct (ctx_seg _ _ _ _ _ _ _ Hr) as (_ & Hl & _).
  apply settled_replaced in Hset as (Ha1 & Ha2 & Hb1 & Hb2 & HC1 & HC2).
  unfold DeallocateRaw. destruct (Z.eqb_spec (b_ptr b) 0); [lia|]. simpl negb.
  run_step. unfold RequestedSize. run_step. do 2 run_step. { by destruct (Z.eqb_spec (b_ptr b) 0). }
  run_step. eapply runs_get_handle; [exact Hfo|]. do 2 run_step.
  { by destruct (Z.eqb_spec (b_h b) kInvalidChunkHandle). }
  run_step. eapply runs_chunk; [by eapply rep_few|done|]. run_step. run_step.
  unfold DeallocateRawInternal. destruct (Z.eqb_spec (b_ptr b) 0); [lia|].
  run_step. eapply runs_get_handle; [exact Hfo|]. do 2 run_step.
  { by destruct (Z.eqb_spec (b_h b) kInvalidChunkHandle). }
  run_step. eapply runs_chunk; [by eapply rep_few|done|]. run_step.
  eapply runs_mono; [by apply (MarkFree_spec _ _ _ _ _ _ _ Hr)|].
  intros _ s1 (Hr1 & Hsr1 & Hl1). run_step.
  eapply runs_mono; [by apply (TryToCoalesce_spec _ _ _ _ _ _ _ Hr1)|].
  intros h s2 (B1' & m & B2' & fl2 & Hr2 & -> & Hidm & Hbm & Hszm & _ & _ & [k1 Hpre] & [k2 Hsuf] & Hl1u & Hh2u &
               Hf1 & Hf2 & Hsr2 & Hsc2).
  eapply runs_mono; [by apply (InsertFreeChunkIntoBin_spec _ _ _ _ _ _ _ Hr2)|].
  intros _ s3 (Hr3 & Hsr3 & Hsc3).
  assert (same_rest s s3) as Hsr by (do 2 (eapply same_rest_trans; [done|]); done).
  set (m' := with_bin _ m) in *. assert (b_used m' = false) as Hum by by apply b_used_false.
  assert (used (ctx C1 B1 [b] B2 C2) ≡ₚ b :: used (ctx C1 B1' [m'] B2' C2)) as Hused.
  { rewrite !used_ctx. simpl. rewrite Hu, Hum. simpl. constructor. unfold others.
    rewrite !List.filter_app. by rewrite Hf1, Hf2. }
  exists (ctx C1 B1' [m'] B2' C2), fl2. subst B1 B2.
  apply no_adj_app in Ha1 as [Ha1 _], Ha2 as [_ Ha2].
  apply Forall_app in Hb1 as [Hb1 _], Hb2 as [_ Hb2].
  split; [eapply bfc_wf_rest; [exact Hwf|done|done|]|].
  { apply settled_ctx. split_and!; [done|done|by apply no_adj_mid|].
    apply Forall_app. split; [done|]. constructor; [|done]. intros _. simpl.
    assert (m ∈ concat (ctx C1 B1' [m] B2' C2)) as Hm by (rewrite elem_of_ctx; left; by left).
    pose proof (rep_bin_range _ _ _ _ Hr2 Hm). unfold kInvalidBinNum. lia. }
  split; [done|]. destruct Hsr as [Ho Hli _ _ Hbp _ _ _ _ _]. split; [done|]. split; [done|]. split; [done|].
  destruct Hsc2 as (_ & _ & Hl2), Hsc3 as (_ & _ & Hl3). congruence.
Qed.

End proofs.

(** ** The best-fit-with-coalescing allocator: runs of its clients *)

(** A client allocates, or frees one of the allocations it holds. *)
Inductive client_op :=
  | Malloc (alignment num_bytes : Z)
  | Free (i : nat).

Section client.
Context {S : Type} `{HSub : SubAllocator S} `{HL : !SubAllocatorLaws S}.
Notation bfc := (BFCAllocator S).

(** The allocator and the allocations held: pointers and bytes requested. *)
Definition run_op (op : client_op) (st : bfc * list (Z * Z)) : result (bfc * list (Z * Z)) :=
  let '(s, held) := st in
  match op with
  | Malloc alignment num_bytes =>
      r ← AllocateRawInternal alignment num_bytes 0 s;
      mret (match r with
            | (Some p, s) => (s, (p, num_bytes) :: held)
            | (None, s) => (s, held)
            end)
  | Free i =>
      match held !! i with
      | Some (p, _) => r ← DeallocateRaw p s; mret (snd r, delete i held)
      | None => mret (s, held)
      end
  end.

Fixpoint run_ops (ops : list client_op) (st : bfc * list (Z * Z)) : result (bfc * list (Z * Z)) :=
  match ops with
  | [] => mret st
  | op :: ops => st ← run_op op st; run_ops ops st
  end.

Definition valid_op (op : client_op) : Prop :=
  match op with Malloc _ n => 0 <= n < 2 ^ 64 | Free _ => True end.

(** Options for which the allocator never livelocks, wraps or leaves empty
    chunks behind, as [DmlDescriptorAllocator] chooses them. *)
Record options_ok (opts : Options) : Prop := {
  oo_max : 256 <= max_allocation_size_bytes opts <= 2 ^ 62 /\
           max_allocation_size_bytes opts <= sub_max /\
           max_allocation_size_bytes opts `mod` 256 = 0;
  oo_growth : allow_growth opts = true;
  oo_gc : garbage_collection opts = false;
  oo_fragmentation : fst (fragmentation_fraction opts) <= 0 }.

Lemma make_bins_ok :
  make_bins (Z.to_nat kNumBins) 0 = Ok (map (fun b => mk_Bin (BinNumToSize b) []) (seqZ 0 21)).
Proof. vm_compute. reflexivity. Qed.

Lemma make_BFCAllocator_spec (x : S) total_memory opts :
  options_ok opts -> 0 < total_memory < 2 ^ 64 -> sub_valid x -> sub_live x = [] ->
  exists s, make_BFCAllocator x total_memory opts = Ok s /\ bfc_wf s [] [] /\ chunks_ s = [] /\
    memory_limit_ s = total_memory /\ opts_ s = opts.
Proof.
  intros [(HM1 & HM2 & HM3) Hg Hgc Hfr] Ht Hx Hlx. unfold make_BFCAllocator. rewrite Hg, make_bins_ok.
  change (Z.shiftl 2 20) with 2097152.
  destruct (RoundedBytes_spec (Z.min total_memory 2097152)) as (r & -> & Hr1 & Hr2); [lia|].
  set (bins := map _ _). simpl. eexists. split; [reflexivity|]. split; [|done].
  assert (256 <= r) as Hr.
  { pose proof (Z.div_mod r 256). lia. }
  split; simpl; try done.
  - split; simpl; try done; try lia; try apply sub_no_coalescing; try solve [constructor].
    intros i bin Hi Hl. apply list_lookup_fmap_Some in Hl as (b & -> & _).
    exists []. split; [done|]. split; [constructor|]. intros b'. split; [set_solver|].
    intros [Hb' _]. by apply not_elem_of_nil in Hb'.
  - constructor.
  - unfold splits_ok, max_internal_fragmentation_bytes. simpl.
    destruct (fragmentation_fraction opts) as [num exp]. simpl in Hfr.
    destruct (Z.ltb_spec 0 num); [lia|]. done.
  - split; [lia|]. by destruct (Z.min_spec r (max_allocation_size_bytes opts)) as [[_ ->]|[_ ->]].
  - by rewrite Hlx.
Qed.

(** The allocator in a client's hands: well formed, with exactly the held
    allocations in use. *)
Record client_inv (total_memory : Z) (opts : Options) (st : bfc * list (Z * Z)) (n : nat) : Prop := {
  ci_wf : exists chains fl, bfc_wf (fst st) chains fl /\
            map (fun b => (b_ptr b, b_req b)) (used chains) ≡ₚ snd st;
  ci_length : Z.of_nat (length (chunks_ (fst st))) <= 2 * Z.of_nat n;
  ci_limit : memory_limit_ (fst st) = total_memory;
  ci_opts : opts_ (fst st) = opts }.

(** Each region has a chunk, so that no more regions than chunks are live. *)
Lemma live_le_chunks (s : bfc) chains fl :
  bfc_wf s chains fl -> (length (sub_live (sub_allocator_ s)) <= length (chunks_ s))%nat.
Proof.
  intros Hwf. pose proof (wf_rep _ _ _ Hwf) as Hr. rewrite (wf_live _ _ _ Hwf). unfold region_list.
  rewrite length_map, (Forall2_length _ _ _ (rep_regions _ _ _ Hr)).
  transitivity (length (concat chains)).
  - pose proof (rep_regions _ _ _ Hr) as Hf. clear Hwf Hr. induction Hf as [|r bs rs cs Hok _ IH]; [done|].
    simpl. rewrite length_app. pose proof (ro_nonempty _ _ Hok). destruct bs; [done|]. simpl. lia.
  - pose proof (rep_handles _ _ _ Hr) as Hn. apply NoDup_app in Hn as [Hn _].
    rewrite <- (length_map b_h). rewrite <- (Nat2Z.id (length (chunks_ s))), <- (length_seqZ 0).
    apply submseteq_length, NoDup_submseteq; [done|]. intros h Hh. apply elem_of_seqZ.
    apply list_elem_of_fmap in Hh as (b & -> & Hb).
    destruct (rep_lookup _ _ _ _ Hr Hb) as (p & n & Hl). apply lk_Some in Hl. rewrite Z.add_0_l. exact Hl.
Qed.

Lemma run_op_inv total opts op st n :
  client_inv total opts st n -> valid_op op ->
  (forall live, Z.of_nat (length live) <= 2 * Z.of_nat n -> small_requests_granted live) -> 2 * Z.of_nat n + 2 < 2 ^ 31 ->
  exists st', run_op op st = Ok st' /\ client_inv total opts st' (Datatypes.S n).
Proof.
  destruct st as [s held]. intros [(chains & fl & Hwf & Hheld) Hlen Hlim Hopts] Hop Hsmall Hn. simpl in *.
  destruct op as [a nb|i]; simpl in *.
  - destruct (AllocateRawInternal_spec s chains fl a nb 0 Hwf) as (r & s' & -> & [Hst Ho Hl1 Hl]);
      [lia|lia|lia| |].
    { do 2 right. apply Hsmall. pose proof (live_le_chunks _ _ _ Hwf). lia. }
    simpl.
    destruct Hst as (chains' & fl' & Hwf' & Hr). destruct r as [p|]; (eexists; split; [reflexivity|]).
    + destruct Hr as (b & Hperm & Hp & Hreq & _). split; simpl; [|lia|congruence|congruence].
      exists chains', fl'. split; [done|]. rewrite Hperm. simpl. by rewrite Hp, Hreq, Hheld.
    + destruct Hr as (Hu & _). split; simpl; [|lia|congruence|congruence]. exists chains', fl'. by rewrite Hu.
  - destruct (held !! i) as [[p nb]|] eqn:Ei.
    2:{ eexists. split; [reflexivity|]. split; simpl; [by exists chains, fl|lia|done|done]. }
    pose proof (delete_Permutation _ _ _ Ei) as Hdel.
    assert ((p, nb) ∈ map (fun b => (b_ptr b, b_req b)) (used chains)) as Hin.
    { rewrite Hheld. by eapply list_elem_of_lookup_2. }
    apply list_elem_of_fmap in Hin as (b & Hpb & Hb). simplify_eq.
    destruct (DeallocateRaw_spec s chains fl b Hwf Hb)
      as ([] & s' & -> & chains' & fl' & Hwf' & Hperm & Ho & Hl1 & _ & Hl).
    simpl. eexists. split; [reflexivity|]. split; simpl; [|lia|congruence|congruence].
    exists chains', fl'. split; [done|]. rewrite Hperm in Hheld. simpl in Hheld.
    rewrite Hdel in Hheld. by apply Permutation_cons_inv in Hheld.
Qed.

Lemma run_ops_inv total opts ops st n :
  client_inv total opts st n -> Forall valid_op ops ->
  (forall live, Z.of_nat (length live) < 2 * (Z.of_nat n + Z.of_nat (length ops)) -> small_requests_granted live) ->
  2 * (Z.of_nat n + Z.of_nat (length ops)) < 2 ^ 31 ->
  exists st', run_ops ops st = Ok st' /\ client_inv total opts st' (n + length ops).
Proof.
  revert st n. induction ops as [|op ops IH]; intros st n Hinv Hops Hsmall Hn; simpl in *.
  - exists st. by rewrite Nat.add_0_r.
  - apply Forall_cons in Hops as [Hop Hops].
    destruct (run_op_inv total opts op st n) as (st1 & -> & Hinv1); [done|done| |lia|].
    { intros live Hl. apply Hsmall. lia. }
    simpl.
    rewrite Nat.add_succ_r. apply (IH st1 (Datatypes.S n)); [done|done| |lia].
    intros live Hl. apply Hsmall. lia.
Qed.

(** A new allocator over a sub-allocator that has given nothing out, and a
    client that makes the calls [ops]. *)
Record client_setup (x : S) (total_memory : Z) (opts : Options) (ops : list client_op) : Prop := {
  cs_options : options_ok opts;
  cs_memory : 0 < total_memory < 2 ^ 64;
  cs_valid : sub_valid x;
  cs_fresh : sub_live x = [];
  cs_small : forall live, Z.of_nat (length live) < 2 * Z.of_nat (length ops) -> small_requests_granted live;
  cs_ops : Forall valid_op ops;
  cs_length : 2 * Z.of_nat (length ops) < 2 ^ 31 }.

Definition client_result (x : S) (total_memory : Z) (opts : Options) (ops : list client_op) :
    result (bfc * list (Z * Z)) :=
  s ← make_BFCAllocator x total_memory opts;
  run_ops ops (s, []).

Lemma client_result_inv x total_memory opts ops :
  client_setup x total_memory opts ops ->
  exists st, client_result x total_memory opts ops = Ok st /\ client_inv total_memory opts st (length ops).
Proof.
  intros [Ho Hm Hv Hf Hs Hops Hl]. unfold client_result.
  destruct (make_BFCAllocator_spec x total_memory opts Ho Hm Hv Hf) as (s & -> & Hwf & Hc & Hlim & Ho').
  apply (run_ops_inv total_memory opts ops (s, []) 0); [|done|done|lia].
  split; simpl; [by exists [], []|by rewrite Hc|done|done].
Qed.

Lemma held_block (s : bfc) chains held p n :
  map (fun b => (b_ptr b, b_req b)) (used chains) ≡ₚ held -> (p, n) ∈ held ->
  exists b, b ∈ concat chains /\ b_used b = true /\ p = b_ptr b /\ n = b_req b.
Proof.
  intros Hp Hin. rewrite <- Hp in Hin. apply list_elem_of_fmap in Hin as (b & Heq & Hb).
  apply list_elem_of_In, filter_In in Hb as [Hb Hu]. apply list_elem_of_In in Hb. simplify_eq. by exists b.
Qed.

(** The handle, and so the chunk, of a block. *)
Lemma block_chunk (s : bfc) chains fl b :
  rep s chains fl -> b ∈ concat chains ->
  exists p n, get_handle (b_ptr b) s = Ok (b_h b, s) /\ b_h b <> kInvalidChunkHandle /\
    ChunkFromHandle (b_h b) s = Ok (chunk_of p n b, s).
Proof.
  intros Hr Hb. pose proof (rep_handle_valid _ _ _ _ Hr Hb) as Hh. pose proof (rep_few _ _ _ Hr) as Hfew.
  apply elem_of_concat in Hb as (bs & Hb & (C1 & C2 & ->)%list_elem_of_split).
  apply list_elem_of_split in Hb as (B1 & B2 & ->).
  destruct (rep_focus _ _ _ _ _ Hr) as (R1 & R2 & r & Hfo).
  destruct (ctx_seg _ _ _ _ _ _ _ Hr) as (_ & Hl & _).
  assert (runs (get_handle (b_ptr b)) s (fun h s' => h = b_h b /\ s' = s)) as (h & s' & E1 & -> & ->)
    by by eapply runs_get_handle.
  match type of Hl with _ = Some ?c0 =>
    assert (runs (ChunkFromHandle (b_h b)) s (fun c s' => c = c0 /\ s' = s)) as (c & s' & E2 & -> & ->)
      by by eapply runs_chunk
  end.
  by do 2 eexists.
Qed.

Lemma block_sizes (s : bfc) chains fl b :
  rep s chains fl -> b ∈ concat chains ->
  AllocatedSize (b_ptr b) s = Ok (b_size b, s) /\ RequestedSize (b_ptr b) s = Ok (b_req b, s).
Proof.
  intros Hr Hb. destruct (block_chunk s chains fl b Hr Hb) as (p & n & E1 & Hh & E2).
  destruct (rep_block_bound _ _ _ _ Hr Hb) as [Hp _].
  unfold AllocatedSize, RequestedSize. destruct (Z.eqb_spec (b_ptr b) 0); [lia|].
  split; unfold mbind, ST_bind, lift, CHECK; simpl; rewrite E1; simpl;
    (destruct (Z.eqb_spec (b_h b) kInvalidChunkHandle); [done|]); simpl; by rewrite E2.
Qed.

Lemma used_fits (s : bfc) chains fl b :
  rep s chains fl -> b ∈ concat chains -> b_used b = true -> 0 < b_req b <= b_size b.
Proof.
  intros Hr Hb Hu. pose proof (rep_blocks _ _ _ Hr) as Hw. rewrite Forall_forall in Hw.
  destruct (Hw _ Hb) as [_ _ Hused _]. apply Hused. intros Hid. apply b_used_false in Hid. congruence.
Qed.

(** Two of the allocations held are two blocks. *)
Lemma held_two (s : bfc) chains held i j p n q m :
  map (fun b => (b_ptr b, b_req b)) (used chains) ≡ₚ held -> i <> j ->
  held !! i = Some (p, n) -> held !! j = Some (q, m) ->
  NoDup (used chains) ->
  exists x y, x ∈ concat chains /\ y ∈ concat chains /\ p = b_ptr x /\ q = b_ptr y /\ x <> y.
Proof.
  intros Hp Hij Hi Hj Hnd. symmetry in Hp. apply Permutation_map_inv in Hp as (l & -> & Hl).
  rewrite Hl in Hnd.
  apply list_lookup_fmap_Some in Hi as (x & Hx & Hi), Hj as (y & Hy & Hj). simplify_eq.
  assert (forall z k, l !! k = Some z -> z ∈ concat chains) as Hin.
  { intros z k Hk%list_elem_of_lookup_2. rewrite <- Hl in Hk.
    by apply list_elem_of_In, filter_In in Hk as [?%list_elem_of_In _]. }
  exists x, y. split_and!; eauto. intros ->. by eapply Hij, NoDup_lookup.
Qed.

Lemma used_NoDup (s : bfc) chains fl : rep s chains fl -> NoDup (used chains).
Proof.
  intros Hr. pose proof (rep_ids _ _ _ Hr) as Hn. unfold used_ids in Hn.
  unfold used. by apply NoDup_fmap_1 in Hn.
Qed.

Lemma used_nil_sum chains : used chains = [] -> Zsum used_size (concat chains) = 0.
Proof.
  unfold used. induction (concat chains) as [|b l IH]; [done|]. simpl.
  unfold used_size at 1. destruct (b_used b); [done|]. intros H. rewrite IH; [lia|done].
Qed.

Lemma no_adj_all_free bs :
  no_adj bs -> bs <> [] -> List.filter b_used bs = [] -> exists b, bs = [b] /\ b_used b = false.
Proof.
  destruct bs as [|x [|y bs]]; intros Ha Hne Hf; [done| |].
  - exists x. split; [done|]. simpl in Hf. by destruct (b_used x).
  - simpl in Hf. apply no_adj_cons in Ha as [[Hx|Hy] _]; [by rewrite Hx in Hf|].
    simpl in Hy. rewrite Hy in Hf. by destruct (b_used x).
Qed.

Lemma region_one_block (s : bfc) chains fl r :
  bfc_wf s chains fl -> used chains = [] -> r ∈ regions_ s ->
  exists b, b ∈ concat chains /\ b_used b = false /\ b_ptr b = region_ptr r /\ b_size b = memory_size r.
Proof.
  intros Hwf Hu (R1 & R2 & HR)%list_elem_of_split. pose proof (wf_rep _ _ _ Hwf) as Hr.
  pose proof (rep_regions _ _ _ Hr) as Hf. rewrite HR in Hf.
  apply Forall2_app_inv_l in Hf as (C1 & C2 & _ & Hf & ->).
  apply Forall2_cons_inv_l in Hf as (bs & C2' & Hok & _ & ->).
  pose proof (wf_settled _ _ _ Hwf) as Hset. unfold settled in Hset.
  apply Forall_app in Hset as [_ [Hbs _]%Forall_cons].
  unfold used in Hu. rewrite concat_app, List.filter_app in Hu. apply app_eq_nil in Hu as [_ Hu].
  simpl in Hu. rewrite List.filter_app in Hu. apply app_eq_nil in Hu as [Hu _].
  destruct (no_adj_all_free bs ltac:(apply Hbs) (ro_nonempty _ _ Hok) Hu) as (b & -> & Hub).
  exists b. destruct Hok as [_ Ht Hms _ _ _ _]. split_and!.
  - apply elem_of_concat. exists [b]. split; [by left|]. apply elem_of_app. right. by left.
  - done.
  - simpl in Ht. by destruct Ht.
  - rewrite Hms. unfold total. simpl. lia.
Qed.

Lemma free_regions_spec l (s : bfc) :
  sub_valid (sub_allocator_ s) ->
  sub_live (sub_allocator_ s) ≡ₚ map (fun r => (region_ptr r, memory_size r)) l ->
  exists s', free_regions l s = Ok (tt, s') /\ sub_live (sub_allocator_ s') = [].
Proof.
  revert s. induction l as [|r l IH]; intros s Hv Hl; simpl in Hl.
  - exists s. split; [done|]. by apply Permutation_nil.
  - destruct (sub_Free_law (region_ptr r) (memory_size r) (sub_allocator_ s)) as (x & E & Hx & Hlx);
      [done|rewrite Hl; by left|].
    destruct (IH (set_sub_allocator x s)) as (s' & E' & Hs'); [done| |].
    { rewrite Hlx in Hl. by apply Permutation_cons_inv in Hl. }
    exists s'. split; [|done]. simpl. unfold mbind, ST_bind, on_sub. by rewrite E.
Qed.

(** With a free block that is large enough no memory is asked for. *)
Lemma AllocateRawInternal_fits (s : bfc) chains fl a n rounded b0 :
  bfc_wf s chains fl -> 0 < n <= max_allocation_size_bytes (opts_ s) -> RoundedBytes n = Ok rounded ->
  Z.of_nat (length (chunks_ s)) + 1 < 2 ^ 31 ->
  b0 ∈ concat chains -> b_used b0 = false -> rounded <= b_size b0 ->
  runs (AllocateRawInternal a n 0) s (fun r s' => exists b, best_fit chains rounded b /\
    r = Some (b_ptr b) /\ sub_allocator_ s' = sub_allocator_ s).
Proof.
  intros Hwf Hn Hrd Hlen Hb0 Hu0 Hle. pose proof Hwf as [Hr Hset Hso (HM1 & _) _ _ _ _].
  destruct (RoundedBytes_spec n ltac:(lia)) as (r' & Hrd' & Hrd1 & Hrd2). assert (r' = rounded) as -> by congruence.
  assert (size_ok rounded) as Hsz by (split; [lia|done]).
  unfold AllocateRawInternal. do 2 run_step. destruct (Z.eqb_spec n 0); [lia|].
  destruct (Z.ltb_spec (max_allocation_size_bytes (opts_ s)) n); [lia|].
  run_step. eapply runs_lift; [done|]. rewrite (rep_timestamped _ _ _ Hr). simpl negb.
  run_step. apply runs_ret. unfold retry_find at 1. run_step. apply runs_ret. run_step.
  eapply runs_mono; [by apply (FindChunkPtr_spec s chains fl); try done; lia|].
  intros [p|] s1.
  - intros (b & nb & Hbf & Hpb & [_ Hp _ _ _ _ _ Hsr _]). apply runs_ret. exists b.
    split_and!; [done|congruence|apply Hsr].
  - intros [_ Hno]. specialize (Hno _ Hb0 Hu0). lia.
Qed.

End client.
