(* ===== verification/DescriptorHeap.v ===== *)
(** * Descriptor heaps and the descriptor allocator

    [D3D12DescriptorHeapAllocator] (core/dml_descriptor_heap_allocator.{h,cc}),
    the sub-allocator wrapper, [DmlDescriptorAllocator] and the move-only
    [DescriptorAllocation] (core/dml_descriptor_bfc_allocator.{h,cc}).  The
    D3D12 device is a parameter: a class of the one call made on it, with its
    documented behaviour as laws. *)

From S2P Require Import Prelude Gpu AllocatorRetry Bfc BfcRep BfcExtend TaggedPointer.

Record D3D12_DESCRIPTOR_HEAP_DESC := mk_heap_desc { Type_ : Z; desc_NumDescriptors : Z; Flags : Z }.

(** A heap as the device describes it. *)
Record DescriptorHeap := mk_descriptor_heap {
  heap_id : Z;
  NumDescriptors : Z;
  GPUDescriptorHandleForHeapStart : Z;
  CPUDescriptorHandleForHeapStart : Z }.

(** [CreateDescriptorHeap] gives the HRESULT and, where it succeeded, the heap. *)
Class DescriptorDevice (D : Type) := {
  CreateDescriptorHeap : D3D12_DESCRIPTOR_HEAP_DESC -> D -> Z * DescriptorHeap * D;
  GetDescriptorHandleIncrementSize : Z -> D -> Z }.

(** A heap created has as many descriptors as asked for, and creation fails only
    for want of memory. *)
Class DescriptorDeviceLaws (D : Type) `{DescriptorDevice D} := {
  create_size desc (d : D) hr h d' : CreateDescriptorHeap desc d = (hr, h, d') ->
    FAILED hr = false -> NumDescriptors h = desc_NumDescriptors desc;
  create_failure desc (d : D) hr h d' : CreateDescriptorHeap desc d = (hr, h, d') ->
    FAILED hr = true -> HrIsOutOfMemory hr = true }.

Record D3D12DescriptorHandles := mk_handles { handle_heap : option Z; gpu : Z; cpu : Z }.

Record D3D12DescriptorHeapAllocator (D : Type) := mk_descriptor_heap_allocator {
  device_ : D;
  heap_type_ : Z;
  heap_flags_ : Z;
  handle_increment_ : Z;
  ids : id_pool;
  allocations_by_id_ : gmap Z DescriptorHeap;
  device_id_ : Z }.
Arguments mk_descriptor_heap_allocator {D}.
Arguments device_ {D}. Arguments heap_type_ {D}. Arguments heap_flags_ {D}.
Arguments handle_increment_ {D}. Arguments ids {D}. Arguments allocations_by_id_ {D}.
Arguments device_id_ {D}.

Section allocator.
Context {D : Type} `{!DescriptorDevice D}.
Notation heap_allocator := (D3D12DescriptorHeapAllocator D).

Definition set_device (d : D) (s : heap_allocator) : heap_allocator :=
  mk_descriptor_heap_allocator d (heap_type_ s) (heap_flags_ s) (handle_increment_ s)
    (ids s) (allocations_by_id_ s) (device_id_ s).

Definition set_allocations (p : id_pool) (m : gmap Z DescriptorHeap) (s : heap_allocator) :
    heap_allocator :=
  mk_descriptor_heap_allocator (device_ s) (heap_type_ s) (heap_flags_ s) (handle_increment_ s)
    p m (device_id_ s).

Definition make_D3D12DescriptorHeapAllocator (device : D) (type flags device_id : Z) : heap_allocator :=
  mk_descriptor_heap_allocator device type flags (GetDescriptorHandleIncrementSize type device)
    (mk_pool 0 []) ∅ device_id.

(** [emplace] leaves an existing entry alone. *)
Definition emplace {A} (k : Z) (a : A) (m : gmap Z A) : gmap Z A :=
  match m !! k with Some _ => m | None => <[k := a]> m end.

(** 0 is [nullptr]. *)
Definition Alloc (size_in_descriptors : Z) : ST heap_allocator Z := fun s =>
  if size_in_descriptors =? 0 then Ok (0, s)
  else
    let heap_desc := mk_heap_desc (heap_type_ s) (u32 size_in_descriptors) (heap_flags_ s) in
    let '(hr, heap, d) := CreateDescriptorHeap heap_desc (device_ s) in
    let s := set_device d s in
    if HrIsOutOfMemory hr then Ok (0, s)
    else
      DML_CHECK_SUCCEEDED hr;;
      match TryReserveAllocationID (ids s) with
      | (None, pool) => Ok (0, set_allocations pool (allocations_by_id_ s) s)
      | (Some id, pool) =>
          p ← Pack (device_id_ s) id 0;
          Ok (p, set_allocations pool (emplace id heap (allocations_by_id_ s)) s)
      end.

Definition Free (ptr size_in_descriptors : Z) : ST heap_allocator unit := fun s =>
  CHECK (negb (ptr =? 0));;
  let tagged_ptr := Unpack ptr in
  CHECK (offset tagged_ptr =? 0);;
  match allocations_by_id_ s !! allocation_id tagged_ptr with
  | None => Fault CheckFailed
  | Some heap =>
      ASSERT (NumDescriptors heap =? size_in_descriptors);;
      Ok (tt, set_allocations (ReleaseAllocationID (allocation_id tagged_ptr) (ids s))
                (delete (allocation_id tagged_ptr) (allocations_by_id_ s)) s)
  end.

(** [CD3DX12_GPU_DESCRIPTOR_HANDLE(start, offset, increment)] takes the offset
    as an [INT]. *)
Definition descriptor_handle (start offset increment : Z) : Z := u64 (start + i32 offset * increment).

Definition GetDescriptorHandles (s : heap_allocator) (ptr : Z) : result D3D12DescriptorHandles :=
  CHECK (negb (ptr =? 0));;
  let tagged_ptr := Unpack ptr in
  match allocations_by_id_ s !! allocation_id tagged_ptr with
  | None => Fault CheckFailed
  | Some heap =>
      mret (mk_handles (Some (heap_id heap))
              (descriptor_handle (GPUDescriptorHandleForHeapStart heap) (offset tagged_ptr) (handle_increment_ s))
              (descriptor_handle (CPUDescriptorHandleForHeapStart heap) (offset tagged_ptr) (handle_increment_ s)))
  end.

(** ** [SubAllocatorWrapper]: descriptors in the place of bytes *)

#[export] Instance SubAllocatorWrapper : SubAllocator heap_allocator := {
  sub_Alloc alignment num_bytes :=
    p ← Alloc num_bytes;
    mret (if p =? 0 then None else Some (p, num_bytes));
  sub_Free ptr num_bytes := Free ptr num_bytes;
  SupportsCoalescing := false;
  sub_GetMemoryType := kUnknown }.

(** ** [DmlDescriptorAllocator] *)

Definition kMaxAllocationSizeInDescriptors : Z := 65536.
Definition kMaxTotalDescriptors : Z := u64 (-1).

Definition GetOptions (max_allocation_size_in_descriptors : Z) : Options :=
  mk_Options true true false (0, 0) max_allocation_size_in_descriptors.

Definition make_DmlDescriptorAllocator (heap_allocator : heap_allocator) :
    result (BFCAllocator (D3D12DescriptorHeapAllocator D)) :=
  make_BFCAllocator heap_allocator kMaxTotalDescriptors (GetOptions kMaxAllocationSizeInDescriptors).

Notation M := (ST (BFCAllocator heap_allocator)).

(** [allocator_] is whether the pointer to the one descriptor allocator is set. *)
Record DescriptorAllocation := mk_descriptor_allocation {
  allocator_ : bool;
  p_ : Z;
  size_in_descriptors_ : Z }.

Definition empty_allocation : DescriptorAllocation := mk_descriptor_allocation false 0 0.

Definition allocation_bool (a : DescriptorAllocation) : bool := allocator_ a && negb (p_ a =? 0).

Definition Reset (a : DescriptorAllocation) : M DescriptorAllocation :=
  (if allocator_ a && negb (p_ a =? 0) then DeallocateRaw (p_ a) else mret tt);;
  mret empty_allocation.

(** [a = std::move(x)] for distinct objects: the new values of [a] and [x]. *)
Definition move_assign (a x : DescriptorAllocation) : DescriptorAllocation * DescriptorAllocation :=
  (mk_descriptor_allocation (allocator_ x) (p_ x) (size_in_descriptors_ x), empty_allocation).

(** The move constructor assigns to a default-initialized object. *)
Definition move_construct (x : DescriptorAllocation) : DescriptorAllocation * DescriptorAllocation :=
  move_assign empty_allocation x.

Definition DmlDescriptorAllocator_Alloc (now : M Z) (wait_for : Z -> M unit) (fuel : nat)
    (size_in_descriptors : Z) : M DescriptorAllocation :=
  if size_in_descriptors =? 0 then mret empty_allocation
  else
    p ← AllocateRaw now wait_for fuel 0 size_in_descriptors (mk_attributes true false None);
    mret (mk_descriptor_allocation true (default 0 p) size_in_descriptors).

Definition allocation_GetDescriptorHandles (s : BFCAllocator heap_allocator) (a : DescriptorAllocation) :
    result D3D12DescriptorHandles :=
  if negb (allocator_ a) || (p_ a =? 0) then mret (mk_handles None (u64 (-1)) (u64 (-1)))
  else GetDescriptorHandles (sub_allocator_ s) (p_ a).

End allocator.

(** ** The laws of the sub-allocator *)

Section laws.
Context {D : Type} `{HL : DescriptorDeviceLaws D}.
Notation heap_allocator := (D3D12DescriptorHeapAllocator D).

Definition heap_ptr (s : heap_allocator) (id : Z) : Z := device_id_ s * 2 ^ 60 + id * 2 ^ 40 + 0.

Record heap_valid (s : heap_allocator) : Prop := {
  hv_pool : pool_wf (ids s) (map fst (map_to_list (allocations_by_id_ s)));
  hv_device : 0 <= device_id_ s < 2 ^ 4;
  hv_sizes id h : allocations_by_id_ s !! id = Some h -> 0 < NumDescriptors h <= 2 ^ 31 }.

Definition heap_live (s : heap_allocator) : list (Z * Z) :=
  map (fun ih => (heap_ptr s ih.1, NumDescriptors ih.2)) (map_to_list (allocations_by_id_ s)).

Lemma elem_of_heap_live s p n :
  (p, n) ∈ heap_live s <->
  exists id h, allocations_by_id_ s !! id = Some h /\ p = heap_ptr s id /\ n = NumDescriptors h.
Proof.
  unfold heap_live. rewrite list_elem_of_fmap. split.
  - intros ([id h] & Heq & Hin). simplify_eq. exists id, h. by rewrite <- elem_of_map_to_list.
  - intros (id & h & Hl & -> & ->). exists (id, h). by rewrite elem_of_map_to_list.
Qed.

Lemma heap_id_range s id h :
  heap_valid s -> allocations_by_id_ s !! id = Some h -> 1 <= id < 2 ^ 20.
Proof.
  intros [Hp _ _] Hl. assert (1 <= id <= kMaxAllocationID) as Hid; [|change kMaxAllocationID with (2 ^ 20 - 1) in Hid; lia].
  eapply pool_wf_id; [exact Hp|]. apply (list_elem_of_fmap_2 fst _ (id, h)). by apply elem_of_map_to_list.
Qed.

Lemma heap_Unpack s id h delta :
  heap_valid s -> allocations_by_id_ s !! id = Some h -> 0 <= delta < 2 ^ 40 ->
  Unpack (heap_ptr s id + delta) = mk_tagged (device_id_ s) id delta.
Proof.
  intros Hv Hl Hd. pose proof (heap_id_range _ _ _ Hv Hl).
  unfold heap_ptr. rewrite Z.add_0_r. apply Unpack_eq. split_and!; try lia; apply Hv.
Qed.

Lemma Alloc_spec s n :
  heap_valid s -> 0 < n <= 2 ^ 31 ->
  exists p s', Alloc n s = Ok (p, s') /\ heap_valid s' /\
    ((p = 0 /\ heap_live s' = heap_live s) \/
     (exists id, 1 <= id < 2 ^ 20 /\ p = heap_ptr s id /\ allocations_by_id_ s !! id = None /\
        heap_live s' ≡ₚ (p, n) :: heap_live s)).
Proof.
  intros Hv Hn. pose proof Hv as [Hp Hd Hs]. unfold Alloc.
  destruct (Z.eqb_spec n 0); [lia|]. rewrite u32_small by lia.
  destruct (CreateDescriptorHeap _ _) as [[hr h] d] eqn:Ec.
  assert (heap_valid (set_device d s)) as Hv' by by split.
  destruct (HrIsOutOfMemory hr) eqn:Eo; [by exists 0, (set_device d s); eauto|].
  destruct (FAILED hr) eqn:Ef; [by rewrite (create_failure _ _ _ _ _ Ec Ef) in Eo|].
  pose proof (create_size _ _ _ _ _ Ec Ef) as Hsz. simpl in Hsz.
  unfold DML_CHECK_SUCCEEDED. rewrite Ef. simpl.
  pose proof (TryReserveAllocationID_spec _ _ Hp) as Hr.
  destruct (TryReserveAllocationID (ids s)) as [[id|] pool].
  - destruct Hr as (Hid & Hrange & Hp'). change kMaxAllocationID with (2 ^ 20 - 1) in Hrange.
    assert (allocations_by_id_ s !! id = None) as Hnone.
    { apply eq_None_not_Some. intros [h' Hh]. apply Hid, (list_elem_of_fmap_2 fst _ (id, h')).
      by apply elem_of_map_to_list. }
    rewrite Pack_eq by (split_and!; lia). simpl. unfold emplace. rewrite Hnone.
    do 2 eexists. split; [reflexivity|]. split; [split; simpl|right; exists id].
    + by rewrite map_to_list_insert.
    + done.
    + intros id' h'. destruct (decide (id' = id)) as [->|]; [rewrite lookup_insert_eq|rewrite lookup_insert_ne by done; apply Hs].
      intros [= <-]. lia.
    + split; [lia|]. split; [done|]. split; [done|]. unfold heap_live. simpl.
      rewrite map_to_list_insert by done. simpl. by rewrite Hsz.
  - destruct Hr as [-> _]. exists 0. eexists. split; [reflexivity|]. split; [by split|by left].
Qed.

Lemma Free_spec s p n :
  heap_valid s -> (p, n) ∈ heap_live s ->
  exists s', Free p n s = Ok (tt, s') /\ heap_valid s' /\ heap_live s ≡ₚ (p, n) :: heap_live s'.
Proof.
  intros Hv (id & h & Hl & -> & ->)%elem_of_heap_live.
  pose proof (heap_id_range _ _ _ Hv Hl). unfold Free.
  replace (heap_ptr s id =? 0) with false by (unfold heap_ptr; pose proof (hv_device _ Hv); lia).
  rewrite <- (Z.add_0_r (heap_ptr s id)), (heap_Unpack s id h 0) by done.
  cbn [offset TaggedPointer.allocation_id]. rewrite Hl, !Z.eqb_refl. cbn [negb CHECK ASSERT mbind result_bind]. pose proof (map_to_list_delete _ _ _ Hl) as Hdel.
  eexists. split; [reflexivity|]. destruct Hv as [Hp Hd Hs]. split; [split; simpl|].
  - rewrite <- Hdel in Hp. simpl in Hp. by apply ReleaseAllocationID_spec.
  - done.
  - intros id' h' [_ Hl']%lookup_delete_Some. eauto.
  - unfold heap_live. simpl. rewrite <- Hdel. simpl. by rewrite Z.add_0_r.
Qed.

#[export] Program Instance SubAllocatorWrapper_laws : SubAllocatorLaws heap_allocator := {
  sub_valid := heap_valid;
  sub_live := heap_live;
  sub_max := 2 ^ 31 }.
Next Obligation. done. Qed.
Next Obligation.
  intros a n s Hv Hn. destruct (Alloc_spec s n Hv Hn) as (p & s' & E & Hv' & Hp).
  simpl. unfold mbind, ST_bind. rewrite E. do 2 eexists. split; [reflexivity|]. split; [done|].
  destruct Hp as [[-> ->]|(id & Hid & -> & Hnone & Hl)]; [done|].
  pose proof (hv_device _ Hv). destruct (Z.eqb_spec (heap_ptr s id) 0) as [Heq|_]; [unfold heap_ptr in Heq; lia|].
  split; [done|]. split; [unfold heap_ptr; lia|]. split; [unfold heap_ptr; lia|]. split; [|done].
  intros q m (id' & h & Hl' & -> & ->)%elem_of_heap_live. pose proof (hv_sizes _ Hv _ _ Hl').
  assert (id' <> id) by congruence. unfold heap_ptr. lia.
Qed.
Next Obligation. intros p n s Hv Hin. simpl. by apply Free_spec. Qed.

End laws.

(** ** Small requests

    A device that always has memory for a heap of at most 2304 descriptors, as
    long as identifiers are left. *)

Definition grants_small {D : Type} `{DescriptorDevice D} : Prop :=
  forall desc (d : D) hr h d', 0 < desc_NumDescriptors desc <= 2304 ->
    CreateDescriptorHeap desc d = (hr, h, d') -> FAILED hr = false.

Lemma grants_small_requests {D : Type} `{HL : DescriptorDeviceLaws D} (live : list (Z * Z)) :
  grants_small (D:=D) -> Z.of_nat (length live) < kMaxAllocationID ->
  small_requests_granted (S:=D3D12DescriptorHeapAllocator D) live.
Proof.
  intros Hg Hlen a n s r s' Hv Hn Hl E. simpl in Hv, Hl, E.
  unfold mbind, ST_bind, Alloc in E. destruct (Z.eqb_spec n 0); [lia|]. rewrite u32_small in E by lia.
  destruct (CreateDescriptorHeap _ _) as [[hr h] d] eqn:Ec.
  assert (FAILED hr = false) as Hf by (eapply Hg; [|exact Ec]; simpl; lia).
  rewrite (FAILED_OutOfMemory _ Hf) in E. unfold DML_CHECK_SUCCEEDED in E. rewrite Hf in E.
  cbn [negb CHECK mbind result_bind] in E.
  pose proof (TryReserveAllocationID_spec _ _ (hv_pool _ Hv)) as Hr.
  change (ids (set_device d s)) with (ids s) in E.
  destruct (TryReserveAllocationID (ids s)) as [[id|] pool].
  - destruct Hr as (_ & Hid & _). change kMaxAllocationID with (2 ^ 20 - 1) in Hid.
    change (device_id_ (set_device d s)) with (device_id_ s) in E. pose proof (hv_device _ Hv).
    rewrite Pack_eq in E by (split_and!; lia). cbn [mbind result_bind] in E.
    destruct (Z.eqb_spec (device_id_ s * 2 ^ 60 + id * 2 ^ 40 + 0) 0) as [He|_]; [lia|].
    by injection E as <- _.
  - destruct Hr as [_ Hr]. unfold heap_live in Hl. rewrite length_map in Hl, Hr. lia.
Qed.

(** ** An example: a device that numbers its heaps *)

Definition example_create (desc : D3D12_DESCRIPTOR_HEAP_DESC) (d : Z) : Z * DescriptorHeap * Z :=
  (0, mk_descriptor_heap d (desc_NumDescriptors desc) (d * 2 ^ 40) (d * 2 ^ 40), d + 1).

#[export] Instance example_device : DescriptorDevice Z :=
  { CreateDescriptorHeap := example_create; GetDescriptorHandleIncrementSize := fun _ _ => 32 }.

#[export] Instance example_device_laws : DescriptorDeviceLaws Z.
Proof. split; intros desc d hr h d' [= <- <- <-]; done. Qed.

Lemma example_device_grants : grants_small (D:=Z).
Proof. by intros desc d hr h d' _ [= <- <- <-]. Qed.

Definition example_heap_allocator : D3D12DescriptorHeapAllocator Z :=
  make_D3D12DescriptorHeapAllocator 1 0 1 2.

Lemma new_heap_valid {D : Type} `{HL : DescriptorDeviceLaws D} (d : D) type flags device_id :
  0 <= device_id < 2 ^ 4 ->
  heap_valid (make_D3D12DescriptorHeapAllocator d type flags device_id) /\
  heap_live (make_D3D12DescriptorHeapAllocator d type flags device_id) = [].
Proof.
  intros Hd. split; [|done]. split; simpl; [|done|].
  - rewrite map_to_list_empty. apply new_pool_wf.
  - by intros id h [=].
Qed.
