(* ===== verification/HeapAllocator.v ===== *)
(** * The heap allocator of GPU memory

    [D3D12HeapAllocator] (core/dml_heap_allocator.{h,cc}) and the wrapper
    [DmlAllocator] (core/dml_bfc_allocator.{h,cc}).  An allocation is three
    resources over the same heaps; with tiled resources the heaps are mapped
    into the resources piece by piece, by calls on the command queue that the
    model records in [queue_].  The device is a class of the calls made on it,
    with their documented behaviour as laws. *)

From S2P Require Import Prelude Gpu TaggedPointer DescriptorHeap.

Record D3D12Heap := mk_heap { heap_id : Z; SizeInBytes : Z }.

(** Each creation gives the HRESULT and, where it succeeded, the object. *)
Class HeapDevice (D : Type) := {
  TiledResourcesTier : D -> Z * Z;
  CreateReservedResource : Z -> Z -> Z -> D -> Z * resource * D;
  CreatePlacedResource : D3D12Heap -> Z -> Z -> Z -> Z -> D -> Z * resource * D;
  CreateHeap : Z -> Z -> Z -> D -> Z * D3D12Heap * D }.

(** A creation that does not succeed fails for want of memory, and what is
    created has the size asked for. *)
Class HeapDeviceLaws (D : Type) `{HeapDevice D} := {
  reserved_law w flags st (d : D) hr r d' : CreateReservedResource w flags st d = (hr, r, d') ->
    if FAILED hr then HrIsOutOfMemory hr = true else res_width r = w;
  placed_law h o w flags st (d : D) hr r d' : CreatePlacedResource h o w flags st d = (hr, r, d') ->
    if FAILED hr then HrIsOutOfMemory hr = true else res_width r = w;
  heap_law n props flags (d : D) hr h d' : CreateHeap n props flags d = (hr, h, d') ->
    if FAILED hr then HrIsOutOfMemory hr = true else SizeInBytes h = n }.

(** One call of [UpdateTileMappings]: a region of tiles of the resource, and
    the range of tiles of the heap that backs it. *)
Record tile_mapping := mk_tile_mapping {
  tm_resource : resource;
  X : Z;
  NumTiles : Z;
  tm_heap : D3D12Heap;
  heap_range_start_offset : Z;
  heap_range_tile_count : Z }.

Record Allocation := mk_heap_allocation {
  heaps : list D3D12Heap;
  resource_uav_state : option resource;
  resource_copy_src_state : option resource;
  resource_copy_dst_state : option resource }.

Record D3D12HeapAllocator (D : Type) := mk_heap_allocator {
  device_ : D;
  queue_ : list tile_mapping;
  heap_properties_ : Z;
  heap_flags_ : Z;
  resource_flags_ : Z;
  initial_state_ : Z;
  tiling_enabled_ : bool;
  max_heap_size_in_tiles_ : Z;
  ids : id_pool;
  allocations_by_id_ : gmap Z Allocation }.
Arguments mk_heap_allocator {D}. Arguments device_ {D}. Arguments queue_ {D}.
Arguments heap_properties_ {D}. Arguments heap_flags_ {D}. Arguments resource_flags_ {D}.
Arguments initial_state_ {D}. Arguments tiling_enabled_ {D}. Arguments max_heap_size_in_tiles_ {D}.
Arguments ids {D}. Arguments allocations_by_id_ {D}.

Definition kDefaultMaxHeapSizeInTiles : Z := 512.
Definition kDefaultMaxAllocationSizeInBytes : Z := 2 ^ 32 - 2 ^ 20.
Definition D3D12_TILED_RESOURCE_TILE_SIZE_IN_BYTES : Z := 65536.
Definition D3D12_RESOURCE_STATE_COPY_DEST : Z := 0x400.
Definition D3D12_RESOURCE_STATE_COPY_SOURCE : Z := 0x800.
Definition D3D12_TILED_RESOURCES_TIER_1 : Z := 1.

(** [GetMaxHeapSizeInTiles] reads an environment variable: [Some v] when
    [ReadInt64FromEnvVar] succeeds with [v], which is 0 if it is not set. *)
Definition GetMaxHeapSizeInTiles (override : option Z) : Z :=
  match override with
  | Some v => if 0 <? v then v else kDefaultMaxHeapSizeInTiles
  | None => kDefaultMaxHeapSizeInTiles
  end.

Section allocator.
Context {D : Type} `{!HeapDevice D}.
Notation heap_allocator := (D3D12HeapAllocator D).
Notation M := (ST heap_allocator).

(** [force] is TF_DIRECTML_FORCE_PLACED_RESOURCES, if it is set. *)
Definition GetTilingEnabled (force : option string) (device : D) : bool :=
  let force_placed_resources :=
    match force with
    | Some s =>
        if bool_decide (s = "false"%string) then false
        else if bool_decide (s = "true"%string) then true else false
    | None => false
    end in
  if negb force_placed_resources then
    let '(hr, tier) := TiledResourcesTier device in
    if negb (FAILED hr) then D3D12_TILED_RESOURCES_TIER_1 <=? tier else false
  else false.

Definition make_D3D12HeapAllocator (force : option string) (max_tiles : option Z)
    (device : D) (heap_props heap_flags resource_flags initial_state : Z) : heap_allocator :=
  mk_heap_allocator device [] heap_props heap_flags resource_flags initial_state
    (GetTilingEnabled force device) (GetMaxHeapSizeInTiles max_tiles) (mk_pool 0 []) ∅.

Definition set_device (d : D) (s : heap_allocator) : heap_allocator :=
  mk_heap_allocator d (queue_ s) (heap_properties_ s) (heap_flags_ s) (resource_flags_ s)
    (initial_state_ s) (tiling_enabled_ s) (max_heap_size_in_tiles_ s) (ids s) (allocations_by_id_ s).

Definition UpdateTileMappings (ms : list tile_mapping) (s : heap_allocator) : heap_allocator :=
  mk_heap_allocator (device_ s) (queue_ s ++ ms) (heap_properties_ s) (heap_flags_ s)
    (resource_flags_ s) (initial_state_ s) (tiling_enabled_ s) (max_heap_size_in_tiles_ s)
    (ids s) (allocations_by_id_ s).

Definition set_allocations (p : id_pool) (m : gmap Z Allocation) (s : heap_allocator) : heap_allocator :=
  mk_heap_allocator (device_ s) (queue_ s) (heap_properties_ s) (heap_flags_ s)
    (resource_flags_ s) (initial_state_ s) (tiling_enabled_ s) (max_heap_size_in_tiles_ s) p m.

(** A creation on the device; [None] when it is out of memory. *)
Definition create {A} (f : D -> Z * A * D) : M (option A) := fun s =>
  let '(hr, a, d) := f (device_ s) in
  if HrIsOutOfMemory hr then Ok (None, set_device d s)
  else DML_CHECK_SUCCEEDED hr;; Ok (Some a, set_device d s).

(** The loop that creates the three resources, in the order of [states]. *)
Fixpoint create_resources (f : Z -> D -> Z * resource * D) (states : list Z) :
    M (option (list resource)) :=
  match states with
  | [] => mret (Some [])
  | state :: states =>
      r ← create (f state);
      match r with
      | None => mret None
      | Some r => rs ← create_resources f states; mret (cons r <$> rs)
      end
  end.

(** The loop over the heaps of a tiled allocation: [n] heaps are left, the
    resources are mapped up to tile [start], [unmapped] tiles are left. *)
Fixpoint map_heaps (n : nat) (resources : list resource) (start unmapped_resource_tiles : Z)
    (hs : list D3D12Heap) : M (option (list D3D12Heap * Z)) :=
  match n with
  | O => mret (Some (hs, unmapped_resource_tiles))
  | Datatypes.S n =>
      s ← get;
      let heap_size_in_tiles := Z.min unmapped_resource_tiles (max_heap_size_in_tiles_ s) in
      let heap_size_in_bytes := u64 (heap_size_in_tiles * D3D12_TILED_RESOURCE_TILE_SIZE_IN_BYTES) in
      h ← create (CreateHeap heap_size_in_bytes (heap_properties_ s) (heap_flags_ s));
      match h with
      | None => mret None
      | Some h =>
          modify (UpdateTileMappings
            (map (fun r => mk_tile_mapping r start (u32 heap_size_in_tiles) h 0 (u32 heap_size_in_tiles))
               resources));;
          map_heaps n resources (u32 (start + heap_size_in_tiles))
            (u64 (unmapped_resource_tiles - heap_size_in_tiles)) (hs ++ [h])
      end
  end.

Definition resource_states (s : heap_allocator) : list Z :=
  [initial_state_ s; D3D12_RESOURCE_STATE_COPY_SOURCE; D3D12_RESOURCE_STATE_COPY_DEST].

Definition TryCreateTiledAllocation (size_in_bytes : Z) : M (option Allocation) :=
  let resource_size_in_tiles :=
    1 + u64 (size_in_bytes - 1) / D3D12_TILED_RESOURCE_TILE_SIZE_IN_BYTES in
  let resource_size_in_bytes :=
    u64 (resource_size_in_tiles * D3D12_TILED_RESOURCE_TILE_SIZE_IN_BYTES) in
  s ← get;
  resources ← create_resources
    (CreateReservedResource resource_size_in_bytes (resource_flags_ s)) (resource_states s);
  match resources with
  | None => mret None
  | Some resources =>
      let heap_count := 1 + (resource_size_in_tiles - 1) / max_heap_size_in_tiles_ s in
      mapped ← map_heaps (Z.to_nat heap_count) resources 0 resource_size_in_tiles [];
      match mapped with
      | None => mret None
      | Some (hs, unmapped_resource_tiles) =>
          lift (ASSERT (unmapped_resource_tiles =? 0));;
          mret (Some (mk_heap_allocation hs (resources !! 0%nat) (resources !! 1%nat) (resources !! 2%nat)))
      end
  end.

Definition TryCreateUntiledAllocation (size_in_bytes : Z) : M (option Allocation) :=
  s ← get;
  h ← create (CreateHeap size_in_bytes (heap_properties_ s) (heap_flags_ s));
  match h with
  | None => mret None
  | Some h =>
      resources ← create_resources
        (CreatePlacedResource h 0 size_in_bytes (resource_flags_ s)) (resource_states s);
      match resources with
      | None => mret None
      | Some resources =>
          mret (Some (mk_heap_allocation [h] (resources !! 0%nat) (resources !! 1%nat) (resources !! 2%nat)))
      end
  end.

(** 0 is [nullptr]. *)
Definition Alloc (device_id size_in_bytes : Z) : M Z :=
  if size_in_bytes =? 0 then mret 0
  else
    s ← get;
    allocation ← (if tiling_enabled_ s then TryCreateTiledAllocation size_in_bytes
                  else TryCreateUntiledAllocation size_in_bytes);
    match allocation with
    | None => mret 0
    | Some allocation =>
        s ← get;
        match TryReserveAllocationID (ids s) with
        | (None, pool) => modify (set_allocations pool (allocations_by_id_ s));; mret 0
        | (Some id, pool) =>
            modify (set_allocations pool (emplace id allocation (allocations_by_id_ s)));;
            lift (Pack device_id id 0)
        end
    end.

Definition Free (ptr size_in_bytes : Z) : M unit :=
  lift (CHECK (negb (ptr =? 0)));;
  let tagged_ptr := Unpack ptr in
  lift (CHECK (offset tagged_ptr =? 0));;
  s ← get;
  match allocations_by_id_ s !! allocation_id tagged_ptr with
  | None => lift (Fault CheckFailed)
  | Some _ =>
      modify (set_allocations (ReleaseAllocationID (allocation_id tagged_ptr) (ids s))
                (delete (allocation_id tagged_ptr) (allocations_by_id_ s)))
  end.

Definition CreateBufferRegion (s : heap_allocator) (ptr size_in_bytes : Z) :
    result BufferRegion.D3D12BufferRegion :=
  CHECK (negb (ptr =? 0));;
  let tagged_ptr := Unpack ptr in
  match allocations_by_id_ s !! allocation_id tagged_ptr with
  | None => Fault CheckFailed
  | Some allocation =>
      BufferRegion.make (offset tagged_ptr) size_in_bytes (resource_uav_state allocation)
        (resource_copy_src_state allocation) (resource_copy_dst_state allocation)
  end.

(** [DmlAllocator] forwards to the heap allocator. *)
Definition DmlAllocator_CreateBufferRegion := CreateBufferRegion.
Definition DmlAllocator_Alloc := Alloc.
Definition DmlAllocator_Free := Free.

End allocator.

(** ** What backs a tile of a resource

    As D3D12 documents it: the mapping made last for a tile holds. *)

Definition backs (r : resource) (t : Z) (m : tile_mapping) : bool :=
  (res_id r =? res_id (tm_resource m)) && (X m <=? t) && (t <? X m + NumTiles m).

Definition map_tile (r : resource) (t : Z) (b : option (D3D12Heap * Z)) (m : tile_mapping) :
    option (D3D12Heap * Z) :=
  if backs r t m then Some (tm_heap m, heap_range_start_offset m + (t - X m)) else b.

Definition tile_backing (ms : list tile_mapping) (r : resource) (t : Z) : option (D3D12Heap * Z) :=
  foldl (map_tile r t) None ms.

(** The tiles [start], ..., [start + n - 1] of [r] are laid out over [hs], [k]
    to a heap; other tiles are as in [b]. *)
Definition laid_out (hs : list D3D12Heap) (k start n t : Z) (b b' : option (D3D12Heap * Z)) : Prop :=
  if (start <=? t) && (t <? start + n) then
    exists h, hs !! Z.to_nat ((t - start) / k) = Some h /\ b' = Some (h, (t - start) `mod` k) /\
      (t - start) `mod` k * D3D12_TILED_RESOURCE_TILE_SIZE_IN_BYTES < SizeInBytes h
  else b' = b.

Lemma map_tile_same (f : resource -> tile_mapping) r t rs b :
  (forall r', tm_resource (f r') = r' /\ X (f r') = X (f r) /\ NumTiles (f r') = NumTiles (f r) /\
     tm_heap (f r') = tm_heap (f r) /\ heap_range_start_offset (f r') = heap_range_start_offset (f r)) ->
  r ∈ rs -> foldl (map_tile r t) b (map f rs) = map_tile r t b (f r).
Proof.
  intros Hf Hin. destruct (Hf r) as (Hr & _).
  assert (forall r' b, map_tile r t b (f r') = if res_id r =? res_id r' then map_tile r t b (f r) else b) as Hstep.
  { intros r' b'. destruct (Hf r') as (H1 & H2 & H3 & H4 & H5).
    unfold map_tile, backs. rewrite H1, H2, H3, H4, H5, Hr, Z.eqb_refl.
    by destruct (res_id r =? res_id r'). }
  assert (forall b, map_tile r t (map_tile r t b (f r)) (f r) = map_tile r t b (f r)) as Hidem.
  { intros b'. unfold map_tile. by destruct (backs _ _ _). }
  assert (forall rs, foldl (map_tile r t) (map_tile r t b (f r)) (map f rs) = map_tile r t b (f r)) as Hdone.
  { induction rs0 as [|r' rs0 IH]; simpl; [done|]. rewrite Hstep, Hidem. by destruct (_ =? _). }
  induction Hin as [r rs|r r' rs Hin IH]; simpl; [apply Hdone|].
  rewrite Hstep. destruct (_ =? _); [apply Hdone|by apply IH].
Qed.

Section proofs.
Context {D : Type} `{HL : HeapDeviceLaws D}.
Notation heap_allocator := (D3D12HeapAllocator D).

(** The device may run out of memory in a call. *)
Definition exhaustible {A} (f : D -> Z * A * D) : Prop :=
  exists d, HrIsOutOfMemory (f d).1.1 = true.

Lemma runs_create {A} (f : D -> Z * A * D) (P : A -> Prop) (s : heap_allocator) Q :
  (forall d hr a d', f d = (hr, a, d') -> if FAILED hr then HrIsOutOfMemory hr = true else P a) ->
  (forall d, exhaustible f -> Q None (set_device d s)) ->
  (forall d a, P a -> Q (Some a) (set_device d s)) ->
  runs (create f) s Q.
Proof.
  intros Hlaw Hnone Hsome. unfold runs, create. destruct (f (device_ s)) as [[hr a] d] eqn:Ef.
  pose proof (Hlaw _ _ _ _ Ef) as Hf. destruct (HrIsOutOfMemory hr) eqn:Eo.
  { do 2 eexists. split; [done|]. apply Hnone. exists (device_ s). by rewrite Ef. }
  destruct (FAILED hr) eqn:Ehr; [done|]. unfold DML_CHECK_SUCCEEDED. rewrite Ehr. simpl. eauto.
Qed.

Lemma create_resources_spec f (P : resource -> Prop) states (s : heap_allocator) :
  (forall st d hr a d', f st d = (hr, a, d') -> if FAILED hr then HrIsOutOfMemory hr = true else P a) ->
  runs (create_resources f states) s (fun o s' => exists d, s' = set_device d s /\
    match o with
    | Some rs => length rs = length states /\ Forall P rs
    | None => exists st, exhaustible (f st)
    end).
Proof.
  intros Hlaw. revert s. induction states as [|st states IH]; intros s; simpl.
  - run_step. exists (device_ s). by destruct s.
  - run_step. eapply runs_create; [apply Hlaw| |].
    + intros d He. run_step. exists d. eauto.
    + intros d r Hr. run_step. eapply runs_mono; [apply IH|]. intros o s' (d' & -> & Ho).
      run_step. exists d'. split; [done|]. destruct o as [rs|]; [|done].
      destruct Ho as [Hlen Hall]. split; [simpl; lia|by constructor].
Qed.

Lemma ceil_step u k : 0 < k -> 0 < u ->
  (u + k - 1) / k = 1 + (u - Z.min u k + k - 1) / k.
Proof.
  intros Hk Hu. destruct (Z.le_gt_cases u k).
  - rewrite Z.min_l by lia. rewrite Z.sub_diag, (Z.div_small (0 + k - 1)) by lia.
    symmetry. apply (Z.div_unique _ _ _ (u - 1)); lia.
  - rewrite Z.min_r by lia. replace (u + k - 1) with (u - k + k - 1 + 1 * k) by lia.
    rewrite Z.div_add by lia. lia.
Qed.

Lemma laid_out_cons h hs k start u t b b1 b2 :
  0 < k -> 0 < u ->
  SizeInBytes h = Z.min u k * D3D12_TILED_RESOURCE_TILE_SIZE_IN_BYTES ->
  b1 = (if (start <=? t) && (t <? start + Z.min u k) then Some (h, 0 + (t - start)) else b) ->
  laid_out hs k (start + Z.min u k) (u - Z.min u k) t b1 b2 ->
  laid_out (h :: hs) k start u t b b2.
Proof.
  intros Hk Hu Hh -> Hl. revert Hl. unfold laid_out.
  destruct (Z.leb_spec start t); [|destruct (Z.leb_spec (start + Z.min u k) t); [lia|done]].
  destruct (Z.ltb_spec t (start + Z.min u k)).
  - destruct (Z.leb_spec (start + Z.min u k) t); [lia|]. intros ->.
    destruct (Z.ltb_spec t (start + u)); [|lia]. simpl. exists h.
    rewrite Z.div_small, Z.mod_small by lia. split; [done|]. split; [done|].
    rewrite Hh. unfold D3D12_TILED_RESOURCE_TILE_SIZE_IN_BYTES. lia.
  - destruct (Z.leb_spec (start + Z.min u k) t); [|lia].
    replace (start + Z.min u k + (u - Z.min u k)) with (start + u) by lia.
    destruct (Z.ltb_spec t (start + u)); [|done]. cbn [andb].
    assert (Z.min u k = k) as -> by lia.
    replace (t - start) with (t - (start + k) + 1 * k) by lia.
    rewrite Z.div_add, Z.mod_add by lia.
    assert (0 <= (t - (start + k)) / k) by (apply Z.div_pos; lia).
    intros (h' & Hh' & Hrest). exists h'.
    replace (Z.to_nat _) with (S (Z.to_nat ((t - (start + k)) / k))) by lia. done.
Qed.

Definition heaps_fit (hs : list D3D12Heap) (k u : Z) : Prop :=
  Zsum SizeInBytes hs = u * D3D12_TILED_RESOURCE_TILE_SIZE_IN_BYTES /\
  Forall (fun h => 0 < SizeInBytes h <= k * D3D12_TILED_RESOURCE_TILE_SIZE_IN_BYTES) hs.

Lemma map_heaps_spec n rs start u hs (s : heap_allocator) k :
  max_heap_size_in_tiles_ s = k -> 0 < k -> 0 <= start -> 0 <= u -> start + u < 2 ^ 32 ->
  Z.of_nat n = (u + k - 1) / k ->
  runs (map_heaps n rs start u hs) s (fun o s' => exists d ms,
    s' = UpdateTileMappings ms (set_device d s) /\
    match o with
    | Some (hs', u') => u' = 0 /\
        exists new, hs' = hs ++ new /\ length new = n /\ heaps_fit new k u /\
        forall r t b, r ∈ rs -> laid_out new k start u t b (foldl (map_tile r t) b ms)
    | None => exists n props flags, exhaustible (CreateHeap n props flags)
    end).
Proof.
  revert start u hs s. induction n as [|n IH]; intros start u hs s Hk Hpos Hst Hu Hlt Hn.
  - assert (u = 0) as ->.
    { destruct (Z.eq_dec u 0); [done|]. rewrite ceil_step in Hn by lia.
      assert (0 <= (u - Z.min u k + k - 1) / k) by (apply Z.div_pos; lia). lia. }
    apply runs_ret. exists (device_ s), []. split; [destruct s; unfold UpdateTileMappings; simpl; by rewrite app_nil_r|].
    split; [done|]. exists []. rewrite app_nil_r. split; [done|].
    split; [done|]. split; [by split|]. intros r t b _. unfold laid_out. simpl.
    destruct (Z.leb_spec start t), (Z.ltb_spec t (start + 0)); done || lia.
  - assert (0 < u) as Hu'.
    { destruct (Z.eq_dec u 0) as [->|]; [|lia]. rewrite Z.div_small in Hn; lia. }
    rewrite ceil_step in Hn by lia.
    assert (0 < Z.min u k < 2 ^ 32) by lia. simpl map_heaps. run_step. run_step. cbv zeta. rewrite Hk.
    unfold D3D12_TILED_RESOURCE_TILE_SIZE_IN_BYTES.
    rewrite !u32_small, !u64_small by lia. run_step.
    eapply (runs_create _ (fun h => SizeInBytes h = Z.min u k * D3D12_TILED_RESOURCE_TILE_SIZE_IN_BYTES)).
    + intros d hr h d' E. apply heap_law in E. done.
    + intros d He. run_step. exists d, []. split; [|by eauto].
      destruct s. unfold UpdateTileMappings. simpl. by rewrite app_nil_r.
    + intros d h Hh. run_step. run_step.
      set (ms1 := map _ rs). eapply runs_mono.
      { apply IH; simpl; try done; try lia. }
      intros o s' (d' & ms2 & -> & Ho). exists d', (ms1 ++ ms2).
      split; [by unfold UpdateTileMappings; simpl; rewrite app_assoc|].
      destruct o as [[hs' u']|]; [|done]. destruct Ho as (-> & new & -> & <- & [Hsum Hall] & Hlay).
      split; [done|]. exists (h :: new). split; [by rewrite <- app_assoc|]. split; [done|].
      unfold heaps_fit, D3D12_TILED_RESOURCE_TILE_SIZE_IN_BYTES in *. split; [split; [simpl; lia|by constructor; [rewrite Hh; lia|]]|].
      intros r t b Hr. rewrite foldl_app.
      eapply laid_out_cons; [done|done|done| |by apply Hlay].
      unfold ms1. rewrite (map_tile_same (fun r => mk_tile_mapping r start (Z.min u k) h 0 (Z.min u k))) by done.
      unfold map_tile, backs. simpl. by rewrite Z.eqb_refl.
Qed.

(** A device that may refuse a creation. *)
Definition device_exhaustible : Prop :=
  (exists w flags st, exhaustible (CreateReservedResource w flags st)) \/
  (exists h o w flags st, exhaustible (CreatePlacedResource h o w flags st)) \/
  (exists n props flags, exhaustible (CreateHeap n props flags)).

(** An allocation has its three resources, of one width. *)
Definition resources_ok (a : Allocation) (w : Z) : Prop :=
  exists u c d, resource_uav_state a = Some u /\ resource_copy_src_state a = Some c /\
    resource_copy_dst_state a = Some d /\ Forall (fun r => res_width r = w) [u; c; d].

Lemma three_resources {A} (rs : list A) : length rs = 3%nat -> exists u c d, rs = [u; c; d].
Proof. intros Hl. destruct rs as [|u [|c [|d [|]]]]; try done. by exists u, c, d. Qed.

(** The memory of a tiled allocation of [size] bytes: its heaps are exactly as
    large as its tiles together, none above [k] tiles; its three resources have
    the same tiles, and tile [t] is backed by tile [t mod k] of heap [t / k],
    which lies within that heap. *)
Definition backed (ms : list tile_mapping) (k size : Z) (a : Allocation) : Prop :=
  let tiles := (size + 65535) / 65536 in
  Zsum SizeInBytes (heaps a) = tiles * 65536 /\
  Forall (fun h => 0 < SizeInBytes h <= k * 65536) (heaps a) /\
  exists u c d, resource_uav_state a = Some u /\ resource_copy_src_state a = Some c /\
    resource_copy_dst_state a = Some d /\
    forall r, r ∈ [u; c; d] -> size <= res_width r /\ res_width r = tiles * 65536 /\
      forall t, 0 <= t < tiles -> exists h, heaps a !! Z.to_nat (t / k) = Some h /\
        tile_backing ms r t = Some (h, t `mod` k) /\ t `mod` k * 65536 < SizeInBytes h.

Lemma tiles_of_size size : 0 < size <= 2 ^ 47 ->
  1 + u64 (size - 1) / 65536 = (size + 65535) / 65536 /\
  size <= (size + 65535) / 65536 * 65536 /\ 0 < (size + 65535) / 65536 <= 2 ^ 31.
Proof.
  intros Hs. rewrite u64_small by lia. replace (size + 65535) with (size - 1 + 1 * 65536) by lia.
  rewrite Z.div_add by lia.
  pose proof (Z.div_mod (size - 1) 65536 ltac:(lia)).
  pose proof (Z.mod_pos_bound (size - 1) 65536 ltac:(lia)).
  assert (0 <= (size - 1) / 65536) by (apply Z.div_pos; lia). lia.
Qed.

Lemma tiled_spec (s : heap_allocator) size :
  0 < max_heap_size_in_tiles_ s -> 0 < size <= 2 ^ 47 ->
  runs (TryCreateTiledAllocation size) s (fun o s' => exists d ms,
    s' = UpdateTileMappings ms (set_device d s) /\
    match o with
    | None => device_exhaustible
    | Some a => backed (queue_ s') (max_heap_size_in_tiles_ s) size a
    end).
Proof.
  intros Hk Hs. destruct (tiles_of_size size Hs) as (Htiles & Hle & Hrange).
  unfold TryCreateTiledAllocation, backed, D3D12_TILED_RESOURCE_TILE_SIZE_IN_BYTES.
  rewrite Htiles. set (tiles := (size + 65535) / 65536) in *. cbv zeta.
  rewrite u64_small by lia. run_step. run_step. run_step. eapply runs_mono.
  { apply (create_resources_spec _ (fun r => res_width r = tiles * 65536)).
    intros st d hr r d' E. by apply reserved_law in E. }
  intros [rs|] s1 (d & -> & Hrs); [|run_step; exists d, []; split; [|by left; naive_solver]].
  2:{ destruct s. unfold UpdateTileMappings. simpl. by rewrite app_nil_r. }
  destruct Hrs as [Hlen Hall]. apply three_resources in Hlen as (u & c & d0 & ->).
  run_step. eapply runs_mono.
  { apply (map_heaps_spec _ _ _ _ _ _ (max_heap_size_in_tiles_ s)); simpl; try done; try lia.
    replace (tiles + max_heap_size_in_tiles_ s - 1)
      with (tiles - 1 + 1 * max_heap_size_in_tiles_ s) by lia.
    rewrite Z.div_add by lia.
    assert (0 <= (tiles - 1) / max_heap_size_in_tiles_ s) by (apply Z.div_pos; lia). lia. }
  intros [[hs u']|] s2 (d' & ms & -> & Ho).
  2:{ run_step. exists d', ms. split; [done|]. right. right. done. }
  destruct Ho as (-> & new & -> & _ & [Hsum Hfit] & Hlay).
  run_step. run_step; [done|]. run_step. exists d', ms. split; [done|]. simpl.
  split; [done|]. split; [done|]. exists u, c, d0. do 3 (split; [done|]). intros r Hr.
  rewrite Forall_forall in Hall. rewrite Hall by done. do 2 (split; [done|]). intros t Ht.
  unfold tile_backing. rewrite foldl_app.
  specialize (Hlay r t (foldl (map_tile r t) None (queue_ s)) Hr). unfold laid_out in Hlay.
  destruct (Z.leb_spec 0 t); [|lia]. destruct (Z.ltb_spec t (0 + tiles)); [|lia].
  simpl in Hlay. by rewrite Z.sub_0_r in Hlay.
Qed.

(** C9: a tiled allocation returns, and its memory is laid out completely over
    its heaps: every tile of each of its three resources is backed by the tile
    of the heap that dividing its number by the size of a heap gives; there is
    an allocation unless the device may be out of memory. *)
Theorem tiles_map_whole_allocation (s : heap_allocator) size_in_bytes :
  0 < max_heap_size_in_tiles_ s -> 0 < size_in_bytes <= 2 ^ 47 ->
  exists o s', TryCreateTiledAllocation size_in_bytes s = Ok (o, s') /\
    match o with
    | None => device_exhaustible
    | Some a => backed (queue_ s') (max_heap_size_in_tiles_ s) size_in_bytes a
    end.
Proof.
  intros Hk Hs. destruct (tiled_spec s size_in_bytes Hk Hs) as (o & s' & E & d & ms & _ & Ho). eauto.
Qed.

Lemma untiled_spec (s : heap_allocator) size :
  runs (TryCreateUntiledAllocation size) s (fun o s' => exists d, s' = set_device d s /\
    match o with None => device_exhaustible | Some a => resources_ok a size end).
Proof.
  unfold TryCreateUntiledAllocation. run_step. run_step. run_step.
  eapply (runs_create _ (fun _ => True)).
  - intros d hr h d' E. apply heap_law in E. by destruct (FAILED hr).
  - intros d He. run_step. exists d. split; [done|]. right. right. eauto.
  - intros d h _. run_step. eapply runs_mono.
    { apply (create_resources_spec _ (fun r => res_width r = size)).
      intros st d1 hr r d' E. by apply placed_law in E. }
    intros [rs|] s1 (d' & -> & Hrs); run_step; exists d'; (split; [done|]).
    + destruct Hrs as [Hlen Hall]. apply three_resources in Hlen as (u & c & d0 & ->). by exists u, c, d0.
    + destruct Hrs as [st He]. right. left. eauto 10.
Qed.

Lemma backed_resources ms k size a :
  0 < size <= 2 ^ 47 -> backed ms k size a ->
  exists w, resources_ok a w /\ size <= w < 2 ^ 48.
Proof.
  intros Hs (_ & _ & u & c & d & Hu & Hc & Hd & Hr).
  destruct (tiles_of_size size Hs) as (_ & Hle & Hrange).
  exists ((size + 65535) / 65536 * 65536). split; [|lia]. exists u, c, d. do 3 (split; [done|]).
  apply Forall_forall. intros r Hin. by destruct (Hr r Hin) as (_ & Hw & _).
Qed.

(** Either way of creating an allocation. *)
Lemma TryCreate_spec (s : heap_allocator) size :
  0 < max_heap_size_in_tiles_ s -> 0 < size <= 2 ^ 47 ->
  runs (if tiling_enabled_ s then TryCreateTiledAllocation size
        else TryCreateUntiledAllocation size) s (fun o s' => exists d ms,
    s' = UpdateTileMappings ms (set_device d s) /\
    match o with
    | None => device_exhaustible
    | Some a => exists w, resources_ok a w /\ size <= w < 2 ^ 48
    end).
Proof.
  intros Hk Hs. destruct (tiling_enabled_ s).
  - eapply runs_mono; [by apply tiled_spec|]. intros o s' (d & ms & -> & Ho). exists d, ms.
    split; [done|]. destruct o as [a|]; [|done]. eapply backed_resources; eauto.
  - eapply runs_mono; [apply untiled_spec|]. intros o s' (d & -> & Ho). exists d, [].
    split; [destruct s; unfold UpdateTileMappings; simpl; by rewrite app_nil_r|].
    destruct o as [a|]; [|done]. exists size. split; [done|lia].
Qed.

(** ** Pointers and allocations *)

Definition heap_ptr (device_id id : Z) : Z := device_id * 2 ^ 60 + id * 2 ^ 40 + 0.

(** [held] lists the pointers given out and not freed, with the sizes asked for. *)
Record heap_inv (device_id : Z) (s : heap_allocator) (held : list (Z * Z)) : Prop := {
  hi_device : 0 <= device_id < 2 ^ 4;
  hi_max : 0 < max_heap_size_in_tiles_ s;
  hi_pool : pool_wf (ids s) (map fst (map_to_list (allocations_by_id_ s)));
  hi_ptrs : map fst held ≡ₚ map (fun ia => heap_ptr device_id ia.1) (map_to_list (allocations_by_id_ s));
  hi_held p n : (p, n) ∈ held -> exists id a w, allocations_by_id_ s !! id = Some a /\
    p = heap_ptr device_id id /\ resources_ok a w /\ 0 < n <= w /\ w < 2 ^ 48 }.

Lemma heap_inv_id device_id s held id a :
  heap_inv device_id s held -> allocations_by_id_ s !! id = Some a -> 1 <= id < 2 ^ 20.
Proof.
  intros Hi Hl. assert (1 <= id <= kMaxAllocationID) as Hid; [|change kMaxAllocationID with (2 ^ 20 - 1) in Hid; lia].
  eapply pool_wf_id; [apply Hi|]. apply (list_elem_of_fmap_2 fst _ (id, a)). by apply elem_of_map_to_list.
Qed.

Lemma heap_inv_Unpack device_id s held id a delta :
  heap_inv device_id s held -> allocations_by_id_ s !! id = Some a -> 0 <= delta < 2 ^ 40 ->
  Unpack (heap_ptr device_id id + delta) = mk_tagged device_id id delta.
Proof.
  intros Hi Hl Hd. pose proof (heap_inv_id _ _ _ _ _ Hi Hl).
  unfold heap_ptr. rewrite Z.add_0_r. apply Unpack_eq. split_and!; try lia; apply Hi.
Qed.

Lemma heap_Alloc_spec device_id (s : heap_allocator) held n :
  heap_inv device_id s held -> 0 < n <= 2 ^ 47 ->
  runs (Alloc device_id n) s (fun p s' =>
    heap_inv device_id s' (if p =? 0 then held else (p, n) :: held) /\
    (p = 0 -> device_exhaustible \/ Z.of_nat (length held) = kMaxAllocationID)).
Proof.
  intros Hi Hn. unfold Alloc. destruct (Z.eqb_spec n 0); [lia|]. run_step. run_step. run_step.
  eapply runs_mono; [apply TryCreate_spec; [apply Hi|done]|].
  intros o s1 (d & ms & -> & Ho).
  assert (heap_inv device_id (UpdateTileMappings ms (set_device d s)) held) as Hi1 by by destruct Hi.
  destruct o as [a|]; [|run_step; split; [done|by left]].
  destruct Ho as (w & Ha & Hw). run_step. run_step.
  change (ids (UpdateTileMappings ms (set_device d s))) with (ids s).
  change (allocations_by_id_ (UpdateTileMappings ms (set_device d s))) with (allocations_by_id_ s).
  set (s1 := UpdateTileMappings ms (set_device d s)) in *.
  pose proof (TryReserveAllocationID_spec _ _ (hi_pool _ _ _ Hi)) as Hr.
  destruct (TryReserveAllocationID (ids s)) as [[id|] pool]; run_step; run_step.
  - destruct Hr as (Hid & Hrange & Hp). change kMaxAllocationID with (2 ^ 20 - 1) in Hrange.
    pose proof (hi_device _ _ _ Hi).
    eapply runs_lift; [apply Pack_eq; split_and!; lia|].
    assert (allocations_by_id_ s !! id = None) as Hnone.
    { apply eq_None_not_Some. intros [a' Ha']. apply Hid, (list_elem_of_fmap_2 fst _ (id, a')).
      by apply elem_of_map_to_list. }
    fold (heap_ptr device_id id). assert (heap_ptr device_id id <> 0) by (unfold heap_ptr; lia).
    destruct (Z.eqb_spec (heap_ptr device_id id) 0); [done|]. split; [|done].
    unfold emplace. rewrite Hnone. split; simpl; [done|apply Hi| | |].
    + by rewrite map_to_list_insert.
    + rewrite map_to_list_insert by done. simpl. f_equiv. apply Hi.
    + intros p n' [[= -> ->]|Hin]%elem_of_cons; [exists id, a, w; rewrite lookup_insert_eq; split_and!; done || lia|].
      destruct (hi_held _ _ _ Hi _ _ Hin) as (id' & a' & w' & Hl & Hrest). exists id', a', w'.
      rewrite lookup_insert_ne by congruence. done.
  - destruct Hr as [-> Hlen]. run_step. split; [simpl; by destruct Hi1|]. intros _. right.
    rewrite <- Hlen. rewrite <- (length_map fst held), (Permutation_length (hi_ptrs _ _ _ Hi)).
    by rewrite !length_map.
Qed.

Lemma heap_Free_spec device_id (s : heap_allocator) held1 p n held2 :
  heap_inv device_id s (held1 ++ (p, n) :: held2) ->
  runs (Free p n) s (fun _ s' => heap_inv device_id s' (held1 ++ held2) /\
    forall m, CreateBufferRegion s' p m = Fault CheckFailed).
Proof.
  intros Hi. destruct (hi_held _ _ _ Hi p n ltac:(set_solver)) as (id & a & w & Hl & -> & Ha & Hn & Hw).
  pose proof (heap_inv_id _ _ _ _ _ Hi Hl). pose proof (hi_device _ _ _ Hi).
  pose proof (heap_inv_Unpack _ _ _ _ _ 0 Hi Hl ltac:(lia)) as Hu. rewrite Z.add_0_r in Hu.
  assert ((heap_ptr device_id id =? 0) = false) as Hnz by (unfold heap_ptr; lia).
  unfold Free. rewrite Hu, Hnz. cbn [offset TaggedPointer.allocation_id].
  run_step. run_step; [done|]. run_step. run_step; [done|]. run_step. run_step. rewrite Hl. run_step.
  pose proof (map_to_list_delete _ _ _ Hl) as Hdel.
  assert (map fst (held1 ++ held2) ≡ₚ
    map (fun ia => heap_ptr device_id ia.1) (map_to_list (delete id (allocations_by_id_ s)))) as Hptrs.
  { pose proof (hi_ptrs _ _ _ Hi) as Hp. rewrite <- Hdel, map_app in Hp. simpl in Hp.
    rewrite <- Permutation_middle, <- map_app in Hp. by apply Permutation_cons_inv in Hp. }
  split; [split; simpl; try apply Hi|].
  - apply ReleaseAllocationID_spec. pose proof (hi_pool _ _ _ Hi) as Hp. by rewrite <- Hdel in Hp.
  - done.
  - intros q m Hin.
    assert (q ∈ map fst (held1 ++ held2)) as Hq by (apply list_elem_of_fmap; by exists (q, m)).
    rewrite Hptrs in Hq. apply list_elem_of_fmap in Hq as ([id' a'] & -> & Hl'%elem_of_map_to_list).
    destruct (hi_held _ _ _ Hi (heap_ptr device_id id') m) as (id2 & a2 & w2 & Hl2 & Heq & Hrest); [set_solver|].
    simpl in *. assert (id2 = id') as -> by (unfold heap_ptr in Heq; lia).
    assert (id' <> id) by (intros ->; by rewrite lookup_delete_eq in Hl').
    exists id', a2, w2. by rewrite lookup_delete_ne by done.
  - intros m. unfold CreateBufferRegion. rewrite Hu, Hnz. simpl. by rewrite lookup_delete_eq.
Qed.

Lemma CreateBufferRegion_spec device_id (s : heap_allocator) held p n delta m :
  heap_inv device_id s held -> (p, n) ∈ held -> 0 <= delta < 2 ^ 40 -> 0 < m -> delta + m <= n ->
  exists r, CreateBufferRegion s (p + delta) m = Ok r /\ BufferRegion.wf r /\
    BufferRegion.offset_ r = delta /\ BufferRegion.size_in_bytes_ r = m.
Proof.
  intros Hi Hin Hd Hm Hle. destruct (hi_held _ _ _ Hi _ _ Hin) as (id & a & w & Hl & -> & Ha & Hn & Hw).
  pose proof (heap_inv_id _ _ _ _ _ Hi Hl). pose proof (hi_device _ _ _ Hi).
  destruct Ha as (u & c & d & Hu & Hc & Hd' & Hall).
  inversion_clear Hall as [|? ? Wu Hall']. inversion_clear Hall' as [|? ? Wc Hall''].
  inversion_clear Hall'' as [|? ? Wd _].
  unfold CreateBufferRegion. rewrite (heap_inv_Unpack _ _ _ _ _ _ Hi Hl) by done.
  cbn [offset TaggedPointer.allocation_id]. rewrite Hl.
  replace (heap_ptr device_id id + delta =? 0) with false by (unfold heap_ptr; lia).
  rewrite Hu, Hc, Hd'. eexists.
  assert (forall r, res_width r = w -> BufferRegion.same_width (Some r) (res_width u) = true) as Hsame.
  { intros r Hr. simpl. rewrite Hr, Wu. apply Z.eqb_refl. }
  assert (BufferRegion.make delta m (Some u) (Some c) (Some d) =
    Ok (BufferRegion.mk (Some u) (Some c) (Some d) delta m (Some u))) as E.
  { apply BufferRegion.make_ok; try done; try lia; by apply Hsame. }
  split; [exact E|]. eapply BufferRegion.make_wf in E; [|lia|lia|intros f [= <-]; lia].
  by destruct E as (Hwf & _).
Qed.

(** The states a client reaches, with the pointers it holds. *)
Inductive reach (device_id : Z) (s0 : heap_allocator) : heap_allocator -> list (Z * Z) -> Prop :=
  | reach_new : reach device_id s0 s0 []
  | reach_alloc s held n p s' :
      reach device_id s0 s held -> 0 < n <= 2 ^ 47 -> Alloc device_id n s = Ok (p, s') ->
      reach device_id s0 s' (if p =? 0 then held else (p, n) :: held)
  | reach_free s held1 p n held2 s' :
      reach device_id s0 s (held1 ++ (p, n) :: held2) -> Free p n s = Ok (tt, s') ->
      reach device_id s0 s' (held1 ++ held2).

Lemma GetMaxHeapSizeInTiles_pos o : 0 < GetMaxHeapSizeInTiles o.
Proof. unfold GetMaxHeapSizeInTiles, kDefaultMaxHeapSizeInTiles. destruct o; [case_cmp|]; lia. Qed.

Lemma reach_heap_inv device_id force max_tiles (d : D) props hf rf st s held :
  0 <= device_id < 2 ^ 4 ->
  reach device_id (make_D3D12HeapAllocator force max_tiles d props hf rf st) s held ->
  heap_inv device_id s held.
Proof.
  intros Hd Hr. induction Hr as [|s held n p s' _ IH Hn E|s held1 p n held2 s' _ IH E].
  - split; simpl; [done|apply GetMaxHeapSizeInTiles_pos| | |by intros ? ? ?%elem_of_nil];
      rewrite map_to_list_empty; [apply new_pool_wf|done].
  - destruct (heap_Alloc_spec _ _ _ _ IH Hn) as (p' & s1 & E' & Hi & _). by rewrite E in E'; injection E' as -> ->.
  - destruct (heap_Free_spec _ _ _ _ _ _ IH) as ([] & s1 & E' & Hi & _). by rewrite E in E'; injection E' as ->.
Qed.

(** C12: the memory held is addressable and disjoint: after any allocations and
    deallocations, an allocation returns (with null only if the device may be
    out of memory or all identifiers are in use); a region of a held pointer,
    advanced within the size asked for, is the region at that offset of its
    resources; held pointers are 2^40 apart; and a pointer that is freed no
    longer gives a region. *)
Theorem held_memory_is_addressable device_id force max_tiles (d : D) props hf rf st s held :
  0 <= device_id < 2 ^ 4 ->
  reach device_id (make_D3D12HeapAllocator force max_tiles d props hf rf st) s held ->
  (forall n, 0 < n <= 2 ^ 47 -> exists p s', Alloc device_id n s = Ok (p, s') /\
     (p = 0 -> device_exhaustible \/ Z.of_nat (length held) = kMaxAllocationID)) /\
  (forall p n delta m, (p, n) ∈ held -> 0 <= delta < 2 ^ 40 -> 0 < m -> delta + m <= n ->
     exists r, CreateBufferRegion s (p + delta) m = Ok r /\ BufferRegion.wf r /\
       BufferRegion.offset_ r = delta /\ BufferRegion.size_in_bytes_ r = m) /\
  (forall i j p n q m, i <> j -> held !! i = Some (p, n) -> held !! j = Some (q, m) ->
     2 ^ 40 <= Z.abs (p - q)) /\
  (forall p n, (p, n) ∈ held -> exists s', Free p n s = Ok (tt, s') /\
     forall m, CreateBufferRegion s' p m = Fault CheckFailed).
Proof.
  intros Hd Hr. pose proof (reach_heap_inv _ _ _ _ _ _ _ _ _ _ Hd Hr) as Hi. split_and!.
  - intros n Hn. destruct (heap_Alloc_spec _ _ _ _ Hi Hn) as (p & s' & E & _ & Hp). eauto.
  - intros p n delta m. by apply (CreateBufferRegion_spec device_id).
  - intros i j p n q m Hij Hp Hq.
    assert (NoDup (map fst held)) as Hnd.
    { rewrite (hi_ptrs _ _ _ Hi).
      replace (map _ _) with (heap_ptr device_id <$> (map_to_list (allocations_by_id_ s)).*1)
        by (by rewrite <- list_fmap_compose).
      apply NoDup_fmap_2; [|apply NoDup_fst_map_to_list]. intros x y. unfold heap_ptr. lia. }
    assert (p <> q).
    { intros ->. apply Hij. eapply NoDup_lookup; [exact Hnd| |];
        rewrite list_lookup_fmap; [by rewrite Hp|by rewrite Hq]. }
    destruct (hi_held _ _ _ Hi p n) as (id & ? & ? & _ & -> & _); [by eapply list_elem_of_lookup_2|].
    destruct (hi_held _ _ _ Hi q m) as (id' & ? & ? & _ & -> & _); [by eapply list_elem_of_lookup_2|].
    assert (id <> id') by congruence. unfold heap_ptr. lia.
  - intros p n (held1 & held2 & ->)%list_elem_of_split.
    destruct (heap_Free_spec _ _ _ _ _ _ Hi) as ([] & s' & E & _ & Hf). eauto.
Qed.

End proofs.

(** ** An example: a device that numbers what it creates *)

#[export] Instance example_heap_device : HeapDevice Z := {
  TiledResourcesTier d := (0, 2);
  CreateReservedResource w _ _ d := (0, mk_resource d w, d + 1);
  CreatePlacedResource _ _ w _ _ d := (0, mk_resource d w, d + 1);
  CreateHeap n _ _ d := (0, mk_heap d n, d + 1) }.

#[export] Instance example_heap_device_laws : HeapDeviceLaws Z.
Proof. split; intros; simplify_eq/=; done. Qed.

Definition example_heaps : D3D12HeapAllocator Z :=
  make_D3D12HeapAllocator None (Some 4) 1 0 0 0 8.

(** 600000 bytes are ten tiles, on heaps of four, four and two. *)
Example example_tiles :
  match Alloc 0 600000 example_heaps with
  | Ok (p, s) => map (fun m => (X m, NumTiles m, SizeInBytes (tm_heap m))) (queue_ s) =
      [(0, 4, 262144); (0, 4, 262144); (0, 4, 262144); (4, 4, 262144); (4, 4, 262144);
       (4, 4, 262144); (8, 2, 131072); (8, 2, 131072); (8, 2, 131072)] /\ p = 2 ^ 40
  | Fault _ => False
  end.
Proof. vm_compute. done. Qed.

Lemma tiles_map_whole_allocation_witness :
  exists o s', TryCreateTiledAllocation 600000 example_heaps = Ok (o, s') /\
    match o with
    | None => device_exhaustible (D:=Z)
    | Some a => backed (queue_ s') 4 600000 a
    end.
Proof. apply (tiles_map_whole_allocation example_heaps 600000); [done|lia]. Defined.

Lemma held_memory_is_addressable_witness :
  exists p n (s' : D3D12HeapAllocator Z), (0 < n) /\ Free p n s' <> Fault CheckFailed /\
    exists r, CreateBufferRegion s' (p + 70000) 500 = Ok r /\ BufferRegion.offset_ r = 70000.
Proof.
  destruct (Alloc 0 600000 example_heaps) as [[p s]|] eqn:E; [|by vm_compute in E].
  assert (p = 2 ^ 40) as -> by (apply (f_equal (fun r => match r with Ok x => x.1 | _ => 0 end)) in E;
    by vm_compute in E).
  pose proof (reach_alloc 0 example_heaps example_heaps [] 600000 _ s (reach_new _ _) ltac:(lia) E) as Hr.
  destruct (held_memory_is_addressable 0 None (Some 4) 1 0 0 0 8 s _ ltac:(lia) Hr) as (_ & Hc & _ & Hf).
  exists (2 ^ 40), 600000, s. split; [lia|]. split.
  - destruct (Hf (2 ^ 40) 600000) as (s' & -> & _); [by left|done].
  - destruct (Hc (2 ^ 40) 600000 70000 500) as (r & E' & _ & Ho & _); [by left|lia|lia|lia|]. eauto.
Defined.
