(* ===== verification/BfcTheorems.v ===== *)
(** * The best-fit-with-coalescing allocator: what it guarantees

    The properties of [BFCAllocator] over any sub-allocator that keeps its
    promises, for every sequence of calls that a client makes. *)

From S2P Require Import Prelude TaggedPointer DescriptorHeap Bfc BfcRep BfcOps BfcFind BfcExtend BfcClient.

Section theorems.
Context {S : Type} `{HSub : SubAllocator S} `{HL : !SubAllocatorLaws S}.
Notation bfc := (BFCAllocator S).

(** C1: under the conditions of [client_setup], every sequence of allocations
    and deallocations of a client runs without a failed check, assertion or
    endless loop, and afterwards the allocations held are pairwise disjoint,
    each at least as large as requested, with the requested size on record,
    while the memory taken from the sub-allocator is within [total_memory].

    The conditions are: a sub-allocator that has given nothing out yet and obeys
    its laws; options with growth, without garbage collection and without a
    limit on fragmentation, and a maximal allocation that is a multiple of 256
    between 256 and 2^62 and no more than the sub-allocator's maximum
    ([options_ok]); fewer than 2^30 operations, with sizes below 2^64; and a
    sub-allocator that never refuses a request of at most 2304 bytes
    ([cs_small]).  The last one is needed: where such a request is refused, the
    loop of [Extend] that backs off (bfc_allocator.cc:157) never ends, which is
    [backpedal_livelock] below. *)
Theorem client_allocations_safe x total_memory opts ops :
  client_setup x total_memory opts ops ->
  exists s held, client_result x total_memory opts ops = Ok (s, held) /\
    total_region_allocated_bytes_ s <= total_memory /\
    (forall p n, (p, n) ∈ held -> exists a, RequestedSize p s = Ok (n, s) /\
       AllocatedSize p s = Ok (a, s) /\ 0 < n <= a /\ 0 < p /\ p + a < 2 ^ 64) /\
    (forall i j p n q m a b, i <> j -> held !! i = Some (p, n) -> held !! j = Some (q, m) ->
       AllocatedSize p s = Ok (a, s) -> AllocatedSize q s = Ok (b, s) -> p + a <= q \/ q + b <= p).
Proof.
  intros Hs. destruct (client_result_inv _ _ _ _ Hs) as ([s held] & -> & [(chains & fl & Hwf & Hp) _ Hlim _]).
  simpl in *. pose proof (wf_rep _ _ _ Hwf) as Hr. exists s, held. split; [done|].
  split; [rewrite <- Hlim; apply (rep_limit _ _ _ Hr)|]. split.
  - intros p n Hin. destruct (held_block s _ _ _ _ Hp Hin) as (b & Hb & Hu & -> & ->).
    destruct (block_sizes s _ _ _ Hr Hb) as [E1 E2]. destruct (rep_block_bound _ _ _ _ Hr Hb).
    exists (b_size b). split_and!; try done; apply (used_fits s chains fl b Hr Hb Hu).
  - intros i j p n q m a b Hij Hi Hj Ha Hb.
    destruct (held_two s chains held i j p n q m Hp Hij Hi Hj (used_NoDup s _ _ Hr)) as (x1 & x2 & H1 & H2 & -> & -> & Hne).
    destruct (block_sizes s _ _ _ Hr H1) as [E1 _], (block_sizes s _ _ _ Hr H2) as [E2 _].
    rewrite E1 in Ha. rewrite E2 in Hb. simplify_eq.
    destruct (rep_disjoint _ _ _ _ _ Hr H1 H2) as [?|[?|?]]; [done|by left|by right].
Qed.

(** C7: after any run under the conditions of [client_setup] (see
    [client_allocations_safe]), an allocation takes the smallest free block that
    is large enough: when there is one, no memory is asked of the sub-allocator,
    and the address returned is that of a smallest such block. *)
Theorem allocation_is_best_fit x total_memory opts ops s held :
  client_setup x total_memory opts ops -> client_result x total_memory opts ops = Ok (s, held) ->
  exists chains fl, rep s chains fl /\
    forall a n rounded b0, 0 < n <= max_allocation_size_bytes opts -> RoundedBytes n = Ok rounded ->
      b0 ∈ concat chains -> b_used b0 = false -> rounded <= b_size b0 ->
      exists b s', best_fit chains rounded b /\ AllocateRawInternal a n 0 s = Ok (Some (b_ptr b), s') /\
        sub_allocator_ s' = sub_allocator_ s.
Proof.
  intros Hs Hres. destruct (client_result_inv _ _ _ _ Hs) as (st & Heq & [(chains & fl & Hwf & _) Hlen _ Hopts]).
  rewrite Hres in Heq. simplify_eq. simpl in *. exists chains, fl. split; [apply Hwf|].
  intros a n rounded b0 Hn Hrd Hb0 Hu0 Hle. pose proof (cs_length _ _ _ _ Hs).
  destruct (AllocateRawInternal_fits s chains fl a n rounded b0) as (r & s' & E & b & Hbf & -> & Hsub);
    try done; [lia|].
  by exists b, s'.
Qed.

(** C8: adjacent free blocks are always merged: when a client, under the
    conditions of [client_setup], has freed everything, each region is one free
    chunk of the region's size, and no bytes are counted as in use. *)
Theorem all_freed_coalesces x total_memory opts ops s :
  client_setup x total_memory opts ops -> client_result x total_memory opts ops = Ok (s, []) ->
  bytes_in_use (stats_ s) = 0 /\
  forall r, r ∈ regions_ s -> exists h c, get_handle (region_ptr r) s = Ok (h, s) /\
    ChunkFromHandle h s = Ok (c, s) /\ in_use c = false /\ ptr c = region_ptr r /\ size c = memory_size r.
Proof.
  intros Hs Hres. destruct (client_result_inv _ _ _ _ Hs) as (st & Heq & [(chains & fl & Hwf & Hp) _ _ _]).
  rewrite Hres in Heq. simplify_eq. simpl in *.
  apply Permutation_sym, Permutation_nil, map_eq_nil in Hp. pose proof (wf_rep _ _ _ Hwf) as Hr. split.
  - by rewrite (rep_stats _ _ _ Hr), (used_nil_sum chains Hp).
  - intros r Hin. destruct (region_one_block s chains fl r Hwf Hp Hin) as (b & Hb & Hu & Hbp & Hbs).
    destruct (block_chunk s chains fl b Hr Hb) as (p & n & E1 & _ & E2).
    rewrite Hbp in E1. eexists _, _. split; [exact E1|]. split; [exact E2|].
    rewrite <- Hbp, <- Hbs. split; [|done]. apply b_used_false in Hu. unfold in_use. simpl. by rewrite Hu.
Qed.

(** C25: after any run under the conditions of [client_setup], the destructor
    gives every region back to the sub-allocator, whatever the client still
    holds. *)
Theorem destroy_frees_everything x total_memory opts ops s held :
  client_setup x total_memory opts ops -> client_result x total_memory opts ops = Ok (s, held) ->
  exists s', destroy s = Ok (tt, s') /\ sub_live (sub_allocator_ s') = [].
Proof.
  intros Hs Hres. destruct (client_result_inv _ _ _ _ Hs) as (st & Heq & [(chains & fl & Hwf & _) _ _ _]).
  rewrite Hres in Heq. simplify_eq. simpl in *.
  destruct (free_regions_spec (regions_ s) s (wf_sub _ _ _ Hwf) (wf_live _ _ _ Hwf)) as (s' & E & Hl).
  exists s'. by split.
Qed.

End theorems.

(** ** The loop that backs off *)

(** From 2304 bytes up, a step of the loop never goes below 2304 bytes. *)
Lemma backpedal_stays b :
  2304 <= b <= 2 ^ 62 -> exists r, RoundedBytes (backpedal_bytes b) = Ok r /\ 2304 <= r <= 2 ^ 62.
Proof.
  intros Hb. unfold backpedal_bytes.
  destruct (round_to_bound 24 b ltac:(lia) ltac:(lia)) as [Hx1 Hx2].
  destruct (round_to_bound 24 (round_to 24 b * kBackpedalFactor_num)) as [Hy1 Hy2];
    [lia|unfold kBackpedalFactor_num; lia|].
  unfold kBackpedalFactor_num in *. set (x := round_to 24 b) in *.
  set (y := round_to 24 (x * 15099494)) in *. rewrite Z.shiftr_div_pow2 by lia.
  pose proof (Z.div_mod y (2 ^ 24) ltac:(lia)). pose proof (Z.mod_pos_bound y (2 ^ 24) ltac:(lia)).
  change (2 ^ 24) with 16777216 in *. set (q := y / 16777216) in *.
  destruct (RoundedBytes_spec q) as (r & -> & Hr & Hm); [lia|]. exists r. split; [done|].
  pose proof (Z.div_mod r 256 ltac:(lia)). lia.
Qed.

(** C29: when the sub-allocator is out of memory and at most 2304 bytes are
    asked for, the loop in [Extend] that retries with smaller sizes never
    ends: 90% of 2304 bytes is rounded up to 2304 bytes again, which is not
    below the size asked for. *)
Theorem backpedal_livelock {S : Type} `{!SubAllocator S} fuel a rounded_bytes bytes (s : BFCAllocator S) :
  (forall n x, sub_Alloc a n x = Ok (None, x)) -> rounded_bytes <= 2304 <= bytes -> bytes <= 2 ^ 62 ->
  backpedal fuel a rounded_bytes bytes s = Fault NoFuel.
Proof.
  intros Hfail [Hr Hb] Hmax. revert bytes s Hb Hmax. induction fuel as [|fuel IH]; intros bytes s Hb Hmax; [done|].
  destruct (backpedal_stays bytes ltac:(lia)) as (r & E & Hr1 & Hr2).
  cbn [backpedal]. unfold mbind, ST_bind, lift, on_sub. rewrite E. simpl.
  destruct (Z.ltb_spec r rounded_bytes); [lia|]. rewrite Hfail. by apply IH.
Qed.

(** ** Logarithms *)

Lemma Log2FloorNonZeroSlow_loop_spec fuel n r :
  0 <= n < 2 ^ Z.of_nat fuel ->
  Log2FloorNonZeroSlow_loop fuel n r = Ok (if n =? 0 then r - 1 else r + Z.log2 n).
Proof.
  revert n r. induction fuel as [|fuel IH]; intros n r Hn.
  - simpl in *. replace n with 0 by lia. done.
  - simpl. destruct (Z.leb_spec n 0); [by replace n with 0 by lia|].
    rewrite Nat2Z.inj_succ, Z.pow_succ_r in Hn by lia. pose proof (Z.div_mod n 2 ltac:(lia)).
    pose proof (Z.mod_pos_bound n 2 ltac:(lia)). change (Z.shiftr n 1) with (Z.div2 n). rewrite Z.div2_div.
    rewrite IH by lia. destruct (Z.eqb_spec n 0); [lia|]. destruct (Z.eqb_spec (n / 2) 0) as [Hz|Hz].
    + replace n with 1 by lia. f_equal. change (Z.log2 1) with 0. lia.
    + f_equal. pose proof (Z.log2_shiftr n 1 ltac:(lia)) as Hs. change (Z.shiftr n 1) with (Z.div2 n) in Hs. rewrite Z.div2_div in Hs.
      assert (1 <= Z.log2 n) by (apply Z.log2_le_pow2; lia). lia.
Qed.

(** the portable logarithm and the one that counts leading zeros agree on
    every 64-bit number but zero, and both give the floor of log2. *)
Theorem Log2_implementations_agree n :
  0 < n < 2 ^ 64 -> Log2FloorNonZeroSlow n = Ok (Log2FloorNonZero n) /\
    2 ^ Log2FloorNonZero n <= n < 2 ^ (Log2FloorNonZero n + 1).
Proof.
  intros Hn. rewrite Log2FloorNonZero_log2 by done. split.
  - unfold Log2FloorNonZeroSlow. rewrite Log2FloorNonZeroSlow_loop_spec by (simpl; lia).
    destruct (Z.eqb_spec n 0); [lia|done].
  - apply Z.log2_spec. lia.
Qed.

(** ** Examples: the descriptor allocator over an example device *)

Lemma descriptor_options_ok : options_ok (S:=D3D12DescriptorHeapAllocator Z) (GetOptions kMaxAllocationSizeInDescriptors).
Proof. split; simpl; try done; lia. Qed.

Definition example_ops : list client_op :=
  [Malloc 0 100; Malloc 0 300; Malloc 0 70000; Malloc 0 40000; Free 1; Malloc 0 50].

Lemma example_setup :
  client_setup example_heap_allocator kMaxTotalDescriptors
    (GetOptions kMaxAllocationSizeInDescriptors) example_ops.
Proof.
  destruct (new_heap_valid (D:=Z) 1 0 1 2 ltac:(lia)) as [Hv Hl].
  split; [apply descriptor_options_ok|by vm_compute|exact Hv|exact Hl| | |by vm_compute].
  - intros live Hlen. apply grants_small_requests; [apply example_device_grants|].
    change kMaxAllocationID with 1048575. simpl in Hlen. lia.
  - repeat constructor; simpl; lia.
Qed.

#[local] Notation example_result :=
  (client_result example_heap_allocator kMaxTotalDescriptors
    (GetOptions kMaxAllocationSizeInDescriptors) example_ops).

Lemma example_returns : match example_result with Ok _ => True | Fault _ => False end.
Proof. vm_compute. exact I. Qed.

Lemma client_allocations_safe_witness :
  exists s held, example_result = Ok (s, held) /\ total_region_allocated_bytes_ s <= kMaxTotalDescriptors.
Proof.
  destruct (client_allocations_safe _ _ _ _ example_setup) as (s & held & E & Ht & _).
  exists s, held. split; [exact E|exact Ht].
Defined.

Lemma allocation_is_best_fit_witness :
  exists s held, example_result = Ok (s, held) /\ exists chains fl, rep s chains fl.
Proof.
  pose proof example_returns as H.
  destruct example_result as [[s held]|] eqn:E; [|destruct H].
  exists s, held. split; [reflexivity|].
  destruct (allocation_is_best_fit _ _ _ _ s held example_setup E) as (chains & fl & Hr & _).
  exists chains, fl. exact Hr.
Defined.

Definition freeing_ops : list client_op := [Malloc 0 100; Malloc 0 300; Malloc 0 256; Free 1; Free 0; Free 0].

Lemma freeing_setup :
  client_setup example_heap_allocator kMaxTotalDescriptors
    (GetOptions kMaxAllocationSizeInDescriptors) freeing_ops.
Proof.
  destruct example_setup as [? ? ? ? Hsmall _ _]. split; try done. by repeat constructor.
Qed.

Lemma freeing_result :
  match client_result example_heap_allocator kMaxTotalDescriptors
      (GetOptions kMaxAllocationSizeInDescriptors) freeing_ops with
  | Ok (_, held) => held = []
  | Fault _ => False
  end.
Proof. vm_compute. reflexivity. Qed.

Lemma all_freed_coalesces_witness :
  exists s, client_result example_heap_allocator kMaxTotalDescriptors
      (GetOptions kMaxAllocationSizeInDescriptors) freeing_ops = Ok (s, []) /\
    bytes_in_use (stats_ s) = 0.
Proof.
  pose proof freeing_result as H.
  destruct (client_result example_heap_allocator kMaxTotalDescriptors
      (GetOptions kMaxAllocationSizeInDescriptors) freeing_ops) as [[s held]|] eqn:E; [|destruct H].
  subst held. exists s. split; [reflexivity|].
  exact (proj1 (all_freed_coalesces _ _ _ _ s freeing_setup E)).
Defined.

Lemma destroy_frees_everything_witness :
  exists s held s', example_result = Ok (s, held) /\ destroy s = Ok (tt, s') /\
    sub_live (sub_allocator_ s') = [].
Proof.
  pose proof example_returns as H.
  destruct example_result as [[s held]|] eqn:E; [|destruct H].
  destruct (destroy_frees_everything _ _ _ _ s held example_setup E) as (s' & Hd & Hl).
  exists s, held, s'. split; [reflexivity|]. split; [exact Hd|exact Hl].
Defined.

Definition exhausted : SubAllocator unit :=
  {| sub_Alloc := fun _ _ => mret None; sub_Free := fun _ _ => mret tt;
     SupportsCoalescing := false; sub_GetMemoryType := kUnknown |}.

Lemma backpedal_livelock_witness :
  exists s, make_BFCAllocator (SubAllocator0:=exhausted) tt (2 ^ 30) default_Options = Ok s /\
    backpedal (SubAllocator0:=exhausted) 500 0 256 1048576 s = Fault NoFuel.
Proof.
  eexists. split; [vm_compute; reflexivity|].
  apply (backpedal_livelock (SubAllocator0:=exhausted)); [done|lia|lia].
Defined.

Lemma Log2_implementations_agree_witness :
  Log2FloorNonZeroSlow 1000 = Ok (Log2FloorNonZero 1000) /\ Log2FloorNonZero 1000 = 9.
Proof. split; [apply (Log2_implementations_agree 1000); lia|reflexivity]. Defined.
