(* ===== verification/Transfer.v ===== *)
(** * Uploads and readbacks

    [DmlUploadHeap] (core/dml_upload_heap.{h,cc}) and [DmlReadbackHeap]
    (core/dml_readback_heap.{h,cc}): copies between CPU memory and GPU
    resources through a pooled heap, the execution context and, for
    readbacks, the event queue.  The two heaps use the execution context
    through the class [CommandRecorder]; the instance for the context of
    ExecContext.v discharges its laws.  The memory of the pooled resources is
    a function of resource and address. *)

From S2P Require Import Prelude ExecContext EventQueue Gpu PooledHeap.
Import BufferRegion.

(** ** What the heaps need of the execution context *)

Class CommandRecorder (X : Type) := {
  rec_CopyBufferRegion : D3D12BufferRegion -> D3D12BufferRegion -> X -> result (DmlGpuEvent * X);
  rec_Status : X -> Status }.

(** The events given out lie on one fence and do not go back, whatever else
    happens to the context ([rec_step]); a copy into a region that is large
    enough is accepted; an error of the context is final. *)
Class CommandRecorderLaws (X : Type) `{CommandRecorder X} := {
  rec_valid : X -> Prop;
  rec_fence : X -> Z;
  rec_clock : X -> Z;
  rec_step : X -> X -> Prop;
  rec_valid_law x : rec_valid x -> 0 <= rec_clock x < 2 ^ 64;
  rec_copy_law dst src x : rec_valid x -> SizeInBytes src <= SizeInBytes dst ->
    exists e x', rec_CopyBufferRegion dst src x = Ok (e, x') /\ rec_valid x' /\
      fence e = rec_fence x /\ fence_value e = rec_clock x /\
      rec_fence x' = rec_fence x /\ rec_clock x <= rec_clock x' /\ rec_Status x' = rec_Status x;
  rec_step_law x x' : rec_valid x -> rec_step x x' ->
    rec_valid x' /\ rec_fence x' = rec_fence x /\ rec_clock x <= rec_clock x' /\
    (status_ok (rec_Status x') = true -> status_ok (rec_Status x) = true) }.

#[export] Instance context_recorder : CommandRecorder ExecContext.context := {
  rec_CopyBufferRegion := ExecContext.CopyBufferRegion;
  rec_Status := ExecContext.GetCommandRecorderStatus }.

#[export] Program Instance context_recorder_laws : CommandRecorderLaws ExecContext.context := {
  rec_valid s := 0 <= fence_value (next_flush_event (batch_state_ s)) < 2 ^ 64;
  rec_fence s := fence (next_flush_event (batch_state_ s));
  rec_clock s := fence_value (next_flush_event (batch_state_ s));
  rec_step s s' := exists l, ExecContext.step s l s' /\
    fence_value (next_flush_event (batch_state_ s)) + 1 < 2 ^ 64 }.
Next Obligation. done. Qed.
Next Obligation.
  intros dst src s Hv Hle. simpl. unfold ExecContext.CopyBufferRegion.
  destruct (Z.leb_spec (SizeInBytes src) (SizeInBytes dst)); [|lia]. simpl.
  do 2 eexists. split; [reflexivity|]. simpl in *. split_and!; done || lia.
Qed.
Next Obligation.
  intros s s' Hv (l & Hstep & Hlt). simpl in *.
  assert ((next_flush_event (batch_state_ s') = next_flush_event (batch_state_ s) \/
           next_flush_event (batch_state_ s') = next_event (next_flush_event (batch_state_ s))) /\
          (status (batch_state_ s') = status (batch_state_ s) \/
           status_ok (status (batch_state_ s')) = false)) as [He Hst].
  { destruct Hstep as [s cmd e s' E|s e s' E|s|s t _|s _|s gcv h1 h2 i s' _ E|
      s gcv dev i r cmd t s' _ E|s h d1 d2 i r s' _ E].
    - injection E as _ <-. auto.
    - injection E as _ <-. auto.
    - auto.
    - unfold thread_check. repeat case_match; simpl; auto.
    - auto.
    - unfold thread_open in E. inv_ok. auto.
    - unfold thread_record in E. inv_ok. auto.
    - unfold thread_close in E. inv_ok; bool_to_prop; auto. }
  unfold GetCommandRecorderStatus.
  assert (status_ok (status (batch_state_ s')) = true -> status_ok (status (batch_state_ s)) = true)
    by (destruct Hst as [->|Hst]; [done|by rewrite Hst]).
  destruct He as [->| ->].
  - split_and!; done || lia.
  - unfold next_event. simpl. rewrite u64_small by lia. split_and!; done || lia.
Qed.

(** ** Places of a pooled heap that are in use *)

(** A place given to a transfer: the resource of the chunk, the range in it,
    and the event after which it may be reused. *)
Record placement := mk_placement {
  pl_resource : Z;
  pl_offset : Z;
  pl_size : Z;
  pl_event : DmlGpuEvent }.

Definition chunk_id (c : Chunk) : option Z := res_id <$> chunk_resource c.

Definition placed (h : PooledHeap) (p : placement) : Prop :=
  exists c, c ∈ chunks_ h /\ chunk_id c = Some (pl_resource p) /\
    mk_Allocation (pl_size p) (pl_offset p) (pl_event p) ∈ allocations c.

(** With [n] the completed value of the fence. *)
Definition in_flight (n : Z) (p : placement) : Prop := n < fence_value (pl_event p).

Definition apart (p q : placement) : Prop :=
  pl_resource p <> pl_resource q \/ pl_offset p + pl_size p <= pl_offset q \/
  pl_offset q + pl_size q <= pl_offset p.

Lemma apart_sym p q : apart p q -> apart q p.
Proof. unfold apart. naive_solver. Qed.

(** All events are of fence [f], with values of at most [bound]. *)
Record flight_inv (f bound n : Z) (h : PooledHeap) (ps : list placement) : Prop := {
  fi_wf : heap_wf h;
  fi_ids : NoDup (map chunk_id (chunks_ h));
  fi_events c a : c ∈ chunks_ h -> a ∈ allocations c ->
    fence (done_event a) = f /\ fence_value (done_event a) <= bound;
  fi_placed p : p ∈ ps -> in_flight n p -> placed h p;
  fi_apart i j p q : i <> j -> ps !! i = Some p -> ps !! j = Some q ->
    in_flight n p -> in_flight n q -> apart p q }.

(** What Direct3D promises of the buffers it creates. *)
Record device_ok (env : gpu_env) (h : PooledHeap) : Prop := {
  do_creates : creates_buffers env;
  do_failure : only_out_of_memory env;
  do_fresh size : (res_id <$> snd (CreateCommittedResource env size)) ∉ map chunk_id (chunks_ h) }.

Lemma flight_mono f bound bound' n n' h ps :
  flight_inv f bound n h ps -> bound <= bound' -> n <= n' -> flight_inv f bound' n' h ps.
Proof.
  intros [Hw Hi He Hp Ha] Hb Hn. split; [done|done| | |]; unfold in_flight in *.
  - intros c a Hc Hal. destruct (He c a Hc Hal). split; [done|lia].
  - intros p Hin ?. apply Hp; [done|lia].
  - intros i j p q Hij Hpi Hqj ? ?. eapply Ha; [exact Hij|done|done|lia|lia].
Qed.

(** Reclaiming keeps the chunks and every allocation whose event is not signaled. *)
Lemma reclaim_chunk_keeps gcv l a :
  a ∈ l -> IsSignaled gcv (done_event a) = false -> a ∈ reclaim_chunk gcv l.
Proof.
  intros Hin Hs. induction l as [|b l IH]; simpl; [done|].
  destruct (IsSignaled gcv (done_event b)) eqn:E; [|done].
  apply elem_of_cons in Hin as [->|Hin]; [congruence|by apply IH].
Qed.

Lemma elem_of_reclaim_chunk gcv l a : a ∈ reclaim_chunk gcv l -> a ∈ l.
Proof.
  destruct (reclaim_chunk_suffix gcv l) as [l' Hl]. intros Hin. rewrite Hl. apply elem_of_app. by right.
Qed.

Lemma flight_reclaim f bound n env h ps :
  GetCompletedValue env f = n -> flight_inv f bound n h ps ->
  flight_inv f bound n (ReclaimAllocations env h) ps.
Proof.
  intros Hgcv [Hw Hi He Hp Ha]. split; [by apply ReclaimAllocations_wf| | | |done].
  - unfold ReclaimAllocations. simpl. rewrite map_map. done.
  - intros c a Hc Hal. unfold ReclaimAllocations in Hc. simpl in Hc.
    apply list_elem_of_fmap in Hc as (c0 & -> & Hc0). simpl in Hal.
    apply (He c0 a Hc0). by eapply elem_of_reclaim_chunk.
  - intros p Hin Hfl. destruct (Hp p Hin Hfl) as (c & Hc & Hid & Hal).
    eexists. split; [apply list_elem_of_fmap; by exists c|]. split; [done|]. simpl.
    apply reclaim_chunk_keeps; [done|]. destruct (He c _ Hc Hal) as [Hf _]. simpl in Hf.
    unfold IsSignaled. simpl. rewrite Hf, Hgcv. apply Z.leb_gt, Hfl.
Qed.

Lemma sublist_map_filter {A B} (g : A -> B) p l : sublist (map g (List.filter p l)) (map g l).
Proof. induction l as [|a l IH]; simpl; [done|]. destruct (p a); simpl; by constructor. Qed.

Lemma flight_trim f bound n env h ps :
  GetCompletedValue env f = n -> flight_inv f bound n h ps ->
  exists h', Trim env h = Ok h' /\ flight_inv f bound n h' ps.
Proof.
  intros Hgcv Hfi. pose proof (flight_reclaim _ _ _ _ _ _ Hgcv Hfi) as [Hw Hi He Hp Ha].
  pose proof (filter_heap_wf (fun c => negb (alloc_empty c)) _ Hw) as Hwf. simpl in Hwf.
  unfold Trim. rewrite (heap_wf_AssertInvariants h) by apply Hfi. simpl.
  rewrite (heap_wf_AssertInvariants _ Hwf). simpl.
  eexists. split; [reflexivity|].
  assert (forall c, c ∈ List.filter (fun c => negb (alloc_empty c)) (chunks_ (ReclaimAllocations env h)) <->
    c ∈ chunks_ (ReclaimAllocations env h) /\ alloc_empty c = false) as Hf.
  { intros c. rewrite !list_elem_of_In, filter_In, negb_true_iff. done. }
  split; [exact Hwf| | | |done]; simpl.
  - eapply sublist_NoDup; [exact Hi|apply sublist_map_filter].
  - intros c a Hc. apply He. by apply Hf.
  - intros p Hin Hfl. destruct (Hp p Hin Hfl) as (c & Hc & Hid & Hal). exists c. split; [|done].
    apply Hf. split; [done|]. unfold alloc_empty. destruct (allocations c); [by apply elem_of_nil in Hal|done].
Qed.

(** A chunk is known by its resource. *)
Lemma chunk_id_inj h c c' :
  NoDup (map chunk_id (chunks_ h)) -> c ∈ chunks_ h -> c' ∈ chunks_ h ->
  chunk_id c = chunk_id c' -> c = c'.
Proof.
  intros Hnd [i Hi]%list_elem_of_lookup_1 [j Hj]%list_elem_of_lookup_1 Heq.
  assert (i = j) as ->; [|congruence]. eapply (NoDup_lookup _ i j); [exact Hnd| |].
  - rewrite list_lookup_fmap, Hi. reflexivity.
  - rewrite list_lookup_fmap, Hj. simpl. by rewrite Heq.
Qed.

(** A new chunk, without allocations, changes nothing in flight. *)
Lemma flight_new_chunk f bound n h h' ps c :
  flight_inv f bound n h ps -> heap_wf h' -> chunks_ h' = chunks_ h ++ [c] -> allocations c = [] ->
  chunk_id c ∉ map chunk_id (chunks_ h) -> flight_inv f bound n h' ps.
Proof.
  intros [_ Hids Hev Hpl Hap] Hwf Hch Hempty Hfr. split; [done| | | |done]; rewrite ?Hch.
  - rewrite map_app. apply NoDup_app. split; [done|]. split; [|by apply NoDup_singleton].
    by intros x Hx ->%list_elem_of_singleton.
  - intros c' a [Hc'| ->%list_elem_of_singleton]%elem_of_app; [by apply Hev|].
    by rewrite Hempty; intros ?%elem_of_nil.
  - intros p Hin Hfl. destruct (Hpl p Hin Hfl) as (c' & Hc' & Hrest). exists c'. split; [|done].
    rewrite Hch. apply elem_of_app. by left.
Qed.

(** A place with room is apart from all that is in flight. *)
Lemma flight_room_apart f bound n h ps c res size off :
  flight_inv f bound n h ps -> c ∈ chunks_ h -> chunk_resource c = Some res ->
  0 < size -> has_room c size off ->
  forall p e, p ∈ ps -> in_flight n p -> apart p (mk_placement (res_id res) off size e).
Proof.
  intros Hfi Hc Eres Hs Hrm p e Hin Hfl.
  destruct (has_room_disjoint h c size off (fi_wf _ _ _ _ _ Hfi) Hc Hs Hrm) as (_ & _ & _ & Hdisj).
  unfold apart. simpl. destruct (fi_placed _ _ _ _ _ Hfi p Hin Hfl) as (c' & Hc' & Hid & Hal).
  destruct (decide (pl_resource p = res_id res)) as [Heq|]; [|by left]. right.
  assert (c' = c) as ->.
  { eapply chunk_id_inj; [apply Hfi|done|done|]. rewrite Hid. unfold chunk_id. rewrite Eres. simpl. by rewrite Heq. }
  rewrite Forall_forall in Hdisj. specialize (Hdisj _ Hal). unfold a_end in Hdisj. simpl in Hdisj. lia.
Qed.

(** Recording the allocation puts its place in flight. *)
Lemma flight_push f bound n h ps i c res size off e :
  flight_inv f bound n h ps -> chunks_ h !! i = Some c -> chunk_resource c = Some res ->
  0 < size -> has_room c size off -> fence e = f -> bound <= fence_value e ->
  flight_inv f (fence_value e) n (push_allocation h i (mk_Allocation size off e))
    (ps ++ [mk_placement (res_id res) off size e]).
Proof.
  intros Hfi Hi Eres Hs Hrm Hfe Hbe.
  assert (c ∈ chunks_ h) as Hc by by eapply list_elem_of_lookup_2.
  assert (forall c' a, c' ∈ chunks_ h -> a ∈ allocations c' ->
    fence (done_event a) = f /\ fence_value (done_event a) <= fence_value e) as Hev.
  { intros c' a Hc' Ha. destruct (fi_events _ _ _ _ _ Hfi c' a Hc' Ha). split; [done|lia]. }
  pose proof (flight_room_apart _ _ _ _ _ _ _ _ _ Hfi Hc Eres Hs Hrm) as Hapart.
  set (a := mk_Allocation size off e). set (c1 := set_allocations (allocations c ++ [a]) c).
  destruct (lookup_alter_split _ _ _ Hi) as (l1 & l2 & Hsplit & _ & Halt).
  assert (chunks_ (push_allocation h i a) = l1 ++ c1 :: l2) as Hpush by apply Halt.
  assert (forall c', c' ∈ chunks_ (push_allocation h i a) <-> c' = c1 \/ c' ∈ l1 ++ l2) as Hin.
  { intros c'. rewrite Hpush, !elem_of_app, elem_of_cons. tauto. }
  assert (forall c', c' ∈ chunks_ h <-> c' = c \/ c' ∈ l1 ++ l2) as Hin'.
  { intros c'. rewrite Hsplit, !elem_of_app, elem_of_cons. tauto. }
  split.
  - eapply push_allocation_wf; [apply Hfi|exact Hi|done|simpl; lia|].
    apply Forall_forall. intros b Hb'. unfold fence_le. simpl. by apply (Hev c).
  - pose proof (fi_ids _ _ _ _ _ Hfi) as Hids. rewrite Hsplit in Hids. rewrite Hpush.
    by rewrite map_app in Hids |- *.
  - intros c' b [->|Hc']%Hin; [|by apply Hev, Hin'; right].
    unfold c1. simpl. intros [Hb'| ->%list_elem_of_singleton]%elem_of_app; [by apply (Hev c)|].
    simpl. split; [done|lia].
  - intros p [Hp| ->%list_elem_of_singleton]%elem_of_app Hfl.
    + destruct (fi_placed _ _ _ _ _ Hfi p Hp Hfl) as (c' & [->|Hc']%Hin' & Hid & Hal).
      * exists c1. rewrite Hin. split; [by left|]. split; [done|]. unfold c1. simpl. set_solver.
      * exists c'. rewrite Hin. by split; [right|].
    + exists c1. rewrite Hin. split; [by left|]. unfold c1, chunk_id. simpl. rewrite Eres. set_solver.
  - intros j k p q Hjk Hp Hq Hfp Hfq.
    apply lookup_snoc_Some in Hp as [[_ Hp]|[Hjl <-]]; apply lookup_snoc_Some in Hq as [[_ Hq]|[Hkl <-]].
    + by eapply (fi_apart _ _ _ _ _ Hfi j k).
    + apply Hapart; [by eapply list_elem_of_lookup_2|done].
    + apply apart_sym, Hapart; [by eapply list_elem_of_lookup_2|done].
    + congruence.
Qed.

(** Reserving a place after reclaiming: with memory or not, nothing in flight
    is forgotten, and the place can be put in flight. *)
Lemma flight_reserve f bound n env h ps size :
  GetCompletedValue env f = n -> flight_inv f bound n h ps -> device_ok env h ->
  0 < size < 2 ^ 64 -> total_capacity_ h + new_chunk_size h size + kAllocationAlignment <= 2 ^ 64 ->
  exists r h', Reserve env (ReclaimAllocations env h) size = Ok (r, h') /\ flight_inv f bound n h' ps /\
    match r with
    | inl st => code st = TF_RESOURCE_EXHAUSTED
    | inr (i, off) => exists c res, chunks_ h' !! i = Some c /\ chunk_resource c = Some res /\
        0 <= off /\ off + size <= res_width res /\ res_width res = capacity_in_bytes c /\
        capacity_in_bytes c < 2 ^ 64 /\ has_room c size off
    end.
Proof.
  intros Hgcv Hfi Hdev Hs Hroom.
  pose proof (flight_reclaim _ _ _ _ _ _ Hgcv Hfi) as Hfi1. destruct Hdev as [Hcr Hfa Hfr].
  destruct (Reserve_spec env (ReclaimAllocations env h) size (fi_wf _ _ _ _ _ Hfi1) Hs Hroom Hcr Hfa)
    as (r & h' & E & Hwf' & Hr).
  exists r, h'. split; [done|]. destruct r as [st|[i off]]; [by destruct Hr as [-> ?]|].
  destruct Hr as (c & Hi & Hrm & Hnew).
  assert (c ∈ chunks_ h') as Hc by by eapply list_elem_of_lookup_2.
  split.
  { destruct Hnew as [->|(Hch & Hempty & _ & Hsnd & _)]; [done|].
    eapply flight_new_chunk; [exact Hfi1|done|exact Hch|done|].
    unfold chunk_id at 1. rewrite <- Hsnd. unfold ReclaimAllocations at 2. simpl. rewrite map_map. apply Hfr. }
  destruct (has_room_disjoint h' c size off Hwf' Hc ltac:(lia) Hrm) as (Hoff & Hend & _ & _).
  pose proof Hwf' as [Hcs _ _ Hb]. rewrite Forall_forall in Hcs. pose proof (cw_resource _ (Hcs c Hc)) as Hres.
  unfold valid_chunk_resource in Hres. destruct (chunk_resource c) as [res|] eqn:Eres; [|done].
  apply Z.eqb_eq in Hres. exists c, res. pose proof (heap_wf_capacity h' c Hwf' Hc).
  assert (kAllocationAlignment = 512) as Hk by done.
  split_and!; try done; lia.
Qed.

(** ** Memory *)

Definition memory := Z -> Z -> Z.

(** [memcpy] to [offset] in the resource. *)
Definition write_bytes (res offset : Z) (data : list Z) (m : memory) : memory := fun r a =>
  if (r =? res) && (offset <=? a) && (a <? offset + Z.of_nat (length data))
  then default 0 (data !! Z.to_nat (a - offset)) else m r a.

Definition read_bytes (res offset : Z) (n : nat) (m : memory) : list Z :=
  map (fun i => m res (offset + Z.of_nat i)) (seq 0 n).

Lemma length_read_bytes res offset n m : length (read_bytes res offset n m) = n.
Proof. unfold read_bytes. by rewrite length_map, length_seq. Qed.

Lemma read_write_same res offset data m :
  read_bytes res offset (length data) (write_bytes res offset data m) = data.
Proof.
  apply list_eq. intros i. unfold read_bytes. rewrite list_lookup_fmap.
  destruct (decide (i < length data)%nat) as [Hlt|Hge].
  - rewrite lookup_seq_lt by done. simpl. unfold write_bytes. rewrite Z.eqb_refl.
    destruct (Z.leb_spec offset (offset + Z.of_nat i)); [|lia].
    destruct (Z.ltb_spec (offset + Z.of_nat i) (offset + Z.of_nat (length data))); [|lia]. simpl.
    replace (Z.to_nat (offset + Z.of_nat i - offset)) with i by lia.
    by destruct (lookup_lt_is_Some_2 data i Hlt) as [x ->].
  - rewrite lookup_seq_ge, lookup_ge_None_2 by lia. done.
Qed.

Lemma read_write_apart res offset n res' offset' data m :
  res <> res' \/ offset + Z.of_nat n <= offset' \/ offset' + Z.of_nat (length data) <= offset ->
  read_bytes res offset n (write_bytes res' offset' data m) = read_bytes res offset n m.
Proof.
  intros Hap. unfold read_bytes. apply map_ext_in. intros i Hi%in_seq. unfold write_bytes.
  destruct (Z.eqb_spec res res'); [|done]. simpl.
  destruct (Z.leb_spec offset' (offset + Z.of_nat i)); [|done]. simpl.
  destruct (Z.ltb_spec (offset + Z.of_nat i) (offset' + Z.of_nat (length data))); [lia|done].
Qed.

(** ** The upload heap *)

Section upload.
Context {X : Type} `{!CommandRecorder X}.

Record DmlUploadHeap := mk_upload_heap {
  up_heap : PooledHeap;
  up_memory : memory;
  up_recorder : X }.

Definition make_DmlUploadHeap (m : memory) (x : X) : DmlUploadHeap :=
  mk_upload_heap (mk_PooledHeap [] 0) m x.

Definition set_up_heap (h : PooledHeap) (s : DmlUploadHeap) : DmlUploadHeap :=
  mk_upload_heap h (up_memory s) (up_recorder s).

(** The upload, with the region of the heap that was given to the copy. *)
Definition begin_upload (env : gpu_env) (hr_map : Z) (dst : D3D12BufferRegion) (src : list Z) :
    ST DmlUploadHeap (StatusOr (DmlGpuEvent * D3D12BufferRegion)) :=
  s ← get;
  let st := rec_Status (up_recorder s) in
  if negb (status_ok st) then mret (inl st)
  else
    lift (ASSERT (negb (is_nil src)));;
    lift (in_range (ResourceInUavState dst));;
    lift (AssertInvariants (up_heap s));;
    let size := Z.of_nat (length src) in
    '(r, h) ← lift (Reserve env (ReclaimAllocations env (up_heap s)) size);
    modify (set_up_heap h);;
    match r with
    | inl st => lift (AssertInvariants h);; mret (inl st)
    | inr (i, offset_in_chunk) =>
        chunk ← lift (in_range (chunks_ h !! i));
        lift (ASSERT (u64 (offset_in_chunk + size) <=? capacity_in_bytes chunk));;
        resource ← lift (in_range (chunk_resource chunk));
        lift (DML_CHECK_SUCCEEDED hr_map);;
        upload_resource ← lift (make offset_in_chunk size None (Some resource) None);
        '(done_event, x) ← lift (rec_CopyBufferRegion dst upload_resource (up_recorder s));
        let h := push_allocation h i (mk_Allocation size offset_in_chunk done_event) in
        put (mk_upload_heap h (write_bytes (res_id resource) offset_in_chunk src (up_memory s)) x);;
        lift (AssertInvariants h);;
        mret (inr (done_event, upload_resource))
    end.

Definition BeginUploadToGpu (env : gpu_env) (hr_map : Z) (dst : D3D12BufferRegion) (src : list Z) :
    ST DmlUploadHeap (StatusOr DmlGpuEvent) :=
  r ← begin_upload env hr_map dst src;
  mret (match r with inl st => inl st | inr (e, _) => inr e end).

End upload.
Arguments DmlUploadHeap : clear implicits.

(** *** Every upload reads its own bytes *)

(** An upload: the region of the heap its copy reads, its data and its event. *)
Record upload := mk_upload { u_region : D3D12BufferRegion; u_data : list Z; u_event : DmlGpuEvent }.

Definition upload_placement (u : upload) : placement :=
  mk_placement (resource_ptr (ResourceInCopySrcState (u_region u))) (Offset (u_region u))
    (SizeInBytes (u_region u)) (u_event u).

Definition upload_bytes (m : memory) (u : upload) : list Z :=
  read_bytes (resource_ptr (ResourceInCopySrcState (u_region u))) (Offset (u_region u))
    (Z.to_nat (SizeInBytes (u_region u))) m.

Section upload_proofs.
Context {X : Type} `{HL : CommandRecorderLaws X}.

(** The conditions on one upload: the device keeps its promises, there is room
    left in the address space, and the destination is large enough. *)
Record upload_ok (env : gpu_env) (hr_map : Z) (dst : D3D12BufferRegion) (src : list Z)
    (n : Z) (s : DmlUploadHeap X) : Prop := {
  uo_device : device_ok env (up_heap s);
  uo_fence : GetCompletedValue env (rec_fence (up_recorder s)) = n;
  uo_map : FAILED hr_map = false;
  uo_src : src <> [];
  uo_room : total_capacity_ (up_heap s) + new_chunk_size (up_heap s) (Z.of_nat (length src)) +
              kAllocationAlignment <= 2 ^ 64;
  uo_dst : is_Some (ResourceInUavState dst) /\ Z.of_nat (length src) <= SizeInBytes dst }.

Record upload_inv (s : DmlUploadHeap X) (n : Z) (us : list upload) : Prop := {
  ui_valid : rec_valid (up_recorder s);
  ui_flight : flight_inv (rec_fence (up_recorder s)) (rec_clock (up_recorder s)) n (up_heap s)
                (map upload_placement us);
  ui_size u : u ∈ us -> SizeInBytes (u_region u) = Z.of_nat (length (u_data u));
  ui_bytes u : u ∈ us -> n < fence_value (u_event u) -> upload_bytes (up_memory s) u = u_data u }.

Lemma new_chunk_size_pos h size : size <= new_chunk_size h size.
Proof. unfold new_chunk_size. lia. Qed.

Lemma begin_upload_spec env hr_map dst src (s : DmlUploadHeap X) n us :
  upload_inv s n us -> upload_ok env hr_map dst src n s ->
  runs (begin_upload env hr_map dst src) s (fun r s' =>
    match r with
    | inl st => upload_inv s' n us /\ (code st = TF_RESOURCE_EXHAUSTED \/ st = rec_Status (up_recorder s))
    | inr (e, region) => upload_inv s' n (us ++ [mk_upload region src e]) /\ wf region /\
        SizeInBytes region = Z.of_nat (length src)
    end).
Proof.
  intros [Hv Hfl Hsz Hby] [Hdev Hgcv Hmap Hsrc Hroom [[u Hu] Hdst]]. unfold begin_upload.
  run_step. run_step. destruct (status_ok _); simpl; [|run_step; split; [by split|by right]].
  assert (0 < Z.of_nat (length src)) as Hpos by (destruct src; [done|simpl; lia]).
  pose proof (new_chunk_size_pos (up_heap s) (Z.of_nat (length src))).
  assert (0 <= total_capacity_ (up_heap s)).
  { pose proof (fi_wf _ _ _ _ _ Hfl) as Hw. rewrite (hw_total _ Hw). apply Zsum_nonneg, heap_wf_nonneg, Hw. }
  assert (kAllocationAlignment = 512) as Hk by done.
  run_step. run_step; [by destruct src|]. run_step. rewrite Hu. eapply runs_lift; [done|].
  run_step. eapply runs_lift; [apply heap_wf_AssertInvariants, Hfl|].
  destruct (flight_reserve _ _ _ _ _ _ (Z.of_nat (length src)) Hgcv Hfl Hdev ltac:(lia) Hroom)
    as (r & h' & E & Hfl' & Hr).
  run_step. eapply runs_lift; [exact E|]. cbv beta iota. run_step. run_step.
  destruct r as [st|[i off]].
  { run_step. eapply runs_lift; [apply heap_wf_AssertInvariants, Hfl'|]. run_step.
    split; [by split|by left]. }
  destruct Hr as (c & res & Hi & Hres & Hoff & Hend & Hw & Hcap & Hrm).
  run_step. rewrite Hi. eapply runs_lift; [done|]. run_step. rewrite u64_small by lia.
  run_step; [lia|]. run_step. rewrite Hres. eapply runs_lift; [done|]. run_step.
  unfold DML_CHECK_SUCCEEDED. rewrite Hmap. run_step; [done|]. run_step.
  assert (make off (Z.of_nat (length src)) None (Some res) None =
    Ok (mk None (Some res) None off (Z.of_nat (length src)) (Some res))) as Emk.
  { apply make_ok; try done; try lia. simpl. apply Z.eqb_refl. }
  eapply runs_lift; [exact Emk|].
  set (region := mk None (Some res) None off (Z.of_nat (length src)) (Some res)) in *.
  assert (wf region) as Hwfr.
  { eapply make_wf in Emk as [? _]; [done|lia|lia|]. intros f [= <-]. lia. }
  destruct (rec_copy_law dst region _ Hv Hdst) as (e & x' & Ec & Hv' & Hfe & Hve & Hfx & Hcx & _).
  run_step. eapply runs_lift; [exact Ec|]. cbv beta iota.
  pose proof (flight_push _ _ _ _ _ _ _ _ _ _ e Hfl' Hi Hres Hpos Hrm Hfe ltac:(lia)) as Hpush.
  run_step. exists tt. eexists. split; [reflexivity|]. run_step.
  eapply runs_lift; [apply heap_wf_AssertInvariants, Hpush|]. run_step.
  split; [split; simpl|by split].
  - done.
  - rewrite Hfx, map_app. eapply flight_mono; [exact Hpush|lia|lia].
  - intros u' [Hin| ->%list_elem_of_singleton]%elem_of_app; [by apply Hsz|done].
  - intros u' [Hin| ->%list_elem_of_singleton]%elem_of_app Hlt; unfold upload_bytes.
    + rewrite <- (Hby u' Hin Hlt). unfold upload_bytes. apply read_write_apart.
      pose proof (flight_room_apart _ _ _ _ _ _ _ _ _ Hfl' ltac:(by eapply list_elem_of_lookup_2) Hres Hpos Hrm
        (upload_placement u') e) as Hap.
      specialize (Hap ltac:(by apply list_elem_of_fmap; exists u') Hlt). unfold apart in Hap. simpl in Hap.
      rewrite (Hsz u' Hin) in Hap |- *. lia.
    + simpl. change (SizeInBytes region) with (Z.of_nat (length src)). rewrite Nat2Z.id. apply read_write_same.
Qed.

Definition set_up_recorder (x : X) (s : DmlUploadHeap X) : DmlUploadHeap X :=
  mk_upload_heap (up_heap s) (up_memory s) x.

(** The states reached by uploads, with the completed value of the fence, and
    the uploads so far: in between, the GPU makes progress, the execution
    context is used otherwise and the heap is trimmed. *)
Inductive upload_reach (s0 : DmlUploadHeap X) (n0 : Z) : DmlUploadHeap X -> Z -> list upload -> Prop :=
  | upload_new : upload_reach s0 n0 s0 n0 []
  | upload_begin s n us env hr_map dst src r s' :
      upload_reach s0 n0 s n us -> upload_ok env hr_map dst src n s ->
      begin_upload env hr_map dst src s = Ok (r, s') ->
      upload_reach s0 n0 s' n
        (us ++ match r with inr (e, region) => [mk_upload region src e] | inl _ => [] end)
  | upload_signal s n us n' : upload_reach s0 n0 s n us -> n <= n' -> upload_reach s0 n0 s n' us
  | upload_recorder s n us x :
      upload_reach s0 n0 s n us -> rec_step (up_recorder s) x ->
      upload_reach s0 n0 (set_up_recorder x s) n us
  | upload_trim s n us env h :
      upload_reach s0 n0 s n us -> GetCompletedValue env (rec_fence (up_recorder s)) = n ->
      Trim env (up_heap s) = Ok h -> upload_reach s0 n0 (set_up_heap h s) n us.

Lemma new_flight_inv f bound n : flight_inv f bound n (mk_PooledHeap [] 0) [].
Proof.
  split; simpl; try by intros; set_solver.
  - split; simpl; try done; constructor.
  - constructor.
Qed.

Lemma upload_reach_inv m x n0 s n us :
  rec_valid x -> upload_reach (make_DmlUploadHeap m x) n0 s n us -> upload_inv s n us.
Proof.
  intros Hv Hr. induction Hr as [|s n us env hr dst src r s' _ IH Hok E|s n us n' _ IH Hn|
    s n us x' _ IH Hstep|s n us env h _ IH Hgcv E].
  - split; simpl; [done|apply new_flight_inv|by intros ? ?%elem_of_nil|by intros ? ?%elem_of_nil].
  - destruct (begin_upload_spec _ _ _ _ _ _ _ IH Hok) as (r' & s1 & E' & Hpost).
    rewrite E in E'. injection E' as <- <-. destruct r as [st|[e region]]; [rewrite app_nil_r|]; apply Hpost.
  - destruct IH as [? Hfl ? Hby]. split; [done| |done|].
    + eapply flight_mono; [exact Hfl|lia|done].
    + intros u Hin Hlt. apply Hby; [done|lia].
  - destruct IH as [Hv0 Hfl Hsz Hby]. destruct (rec_step_law _ _ Hv0 Hstep) as (Hv' & Hf & Hc & _).
    split; simpl; [done| |done|done]. rewrite Hf. eapply flight_mono; [exact Hfl|done|lia].
  - destruct IH as [Hv0 Hfl Hsz Hby]. destruct (flight_trim _ _ _ _ _ _ Hgcv Hfl) as (h' & E' & Hfl').
    rewrite E in E'. injection E' as <-. by split.
Qed.

(** C11: every upload that the GPU may still have to execute reads its own
    bytes: until its event is signaled, the region of the upload heap that its
    copy reads holds the data given, apart from the regions of all other
    uploads in flight; and an upload never trips a check or an assertion. *)
Theorem uploads_read_own_bytes m x n0 s n us :
  rec_valid x -> upload_reach (make_DmlUploadHeap m x) n0 s n us ->
  (forall u, u ∈ us -> n < fence_value (u_event u) -> upload_bytes (up_memory s) u = u_data u) /\
  (forall i j u v, i <> j -> us !! i = Some u -> us !! j = Some v ->
     n < fence_value (u_event u) -> n < fence_value (u_event v) ->
     apart (upload_placement u) (upload_placement v)) /\
  (forall env hr_map dst src, upload_ok env hr_map dst src n s ->
     exists r s', BeginUploadToGpu env hr_map dst src s = Ok (r, s')).
Proof.
  intros Hv Hr. pose proof (upload_reach_inv _ _ _ _ _ _ Hv Hr) as Hi. split_and!.
  - apply Hi.
  - intros i j u v Hij Hu Hw.
    apply (fi_apart _ _ _ _ _ (ui_flight _ _ _ Hi) i j (upload_placement u) (upload_placement v));
      [done| |]; rewrite list_lookup_fmap; [by rewrite Hu|by rewrite Hw].
  - intros env hr dst src Hok. destruct (begin_upload_spec _ _ _ _ _ _ _ Hi Hok) as (r & s' & E & _).
    unfold BeginUploadToGpu, mbind, ST_bind. rewrite E. by do 2 eexists.
Qed.

End upload_proofs.

Definition example_gpu : gpu_env :=
  mk_gpu_env (fun _ => 0) (fun size => (0, Some (mk_resource 9 size))).

Lemma uploads_read_own_bytes_witness :
  exists u s, upload_bytes (up_memory s) u = [1; 2; 3] /\ fence_value (u_event u) = 1 /\
    begin_upload example_gpu 0 example_region [1; 2; 3]
      (make_DmlUploadHeap (fun _ _ => 0) example_context) = Ok (inr (u_event u, u_region u), s).
Proof.
  set (s0 := make_DmlUploadHeap (fun _ _ => 0) example_context).
  assert (upload_ok example_gpu 0 example_region [1; 2; 3] 0 s0) as Hok.
  { split; try done. split; [|by intros size|by intros size ?%elem_of_nil].
    intros size hr r [= <- <-] _. by eexists. }
  destruct (begin_upload example_gpu 0 example_region [1; 2; 3] s0) as [[[st|[e region]] s]|] eqn:E;
    [by vm_compute in E| |by vm_compute in E].
  assert (rec_valid example_context) as Hv by by split.
  pose proof (upload_begin s0 0 s0 0 [] _ _ _ _ _ s (upload_new _ _) Hok E) as Hr.
  destruct (uploads_read_own_bytes _ _ _ _ _ _ Hv Hr) as (Hby & _ & _).
  assert (fence_value e = 1) as He.
  { apply (f_equal (fun r => match r with Ok (inr (e, _), _) => fence_value e | _ => 0 end)) in E.
    by vm_compute in E. }
  exists (mk_upload region [1; 2; 3] e), s. split; [|by split].
  apply (Hby (mk_upload region [1; 2; 3] e)); [by left|simpl; lia].
Defined.
