(* ===== verification/Readback.v ===== *)
(** * Readbacks

    [DmlReadbackHeap] (core/dml_readback_heap.{h,cc}): GPU data is copied into
    a pooled heap, and a callback of the event queue copies it from there to
    the CPU buffer and signals the heap's own fence.  The model puts together
    the pooled heap, the execution context (through [CommandRecorder]) and the
    event queue; a callback is the record of what the closure captures. *)

From S2P Require Import Prelude Gpu PooledHeap Transfer EventQueue.
Import BufferRegion.

(** The captures of [done_callback]: the CPU buffer, the place in the heap and
    the event to signal. *)
Record done_callback := mk_done_callback {
  cb_dst : Z;
  cb_size : Z;
  cb_resource : Z;
  cb_offset : Z;
  cb_event : DmlGpuEvent }.

Section readback.
Context {X : Type} `{!CommandRecorder X}.

Record DmlReadbackHeap := mk_readback_heap {
  rb_heap : PooledHeap;
  execution_context_ : X;
  event_queue_ : SharedState done_callback;
  current_completion_event_ : DmlGpuEvent;
  (* the environment: the memory of the heap's resources, the CPU buffers, and
     the completed value of the heap's fence *)
  rb_memory : memory;
  rb_cpu : Z -> list Z;
  rb_completed : Z }.

Definition make_DmlReadbackHeap (x : X) (q : SharedState done_callback) (fence : Z)
    (m : memory) (cpu : Z -> list Z) : DmlReadbackHeap :=
  mk_readback_heap (mk_PooledHeap [] 0) x q (mk_event 0 fence) m cpu 0.

Definition set_heap (h : PooledHeap) (s : DmlReadbackHeap) : DmlReadbackHeap :=
  mk_readback_heap h (execution_context_ s) (event_queue_ s) (current_completion_event_ s)
    (rb_memory s) (rb_cpu s) (rb_completed s).
Definition set_context (x : X) (s : DmlReadbackHeap) : DmlReadbackHeap :=
  mk_readback_heap (rb_heap s) x (event_queue_ s) (current_completion_event_ s)
    (rb_memory s) (rb_cpu s) (rb_completed s).
Definition set_queue (q : SharedState done_callback) (s : DmlReadbackHeap) : DmlReadbackHeap :=
  mk_readback_heap (rb_heap s) (execution_context_ s) q (current_completion_event_ s)
    (rb_memory s) (rb_cpu s) (rb_completed s).
Definition set_event (e : DmlGpuEvent) (s : DmlReadbackHeap) : DmlReadbackHeap :=
  mk_readback_heap (rb_heap s) (execution_context_ s) (event_queue_ s) e
    (rb_memory s) (rb_cpu s) (rb_completed s).
Definition set_memory (m : memory) (s : DmlReadbackHeap) : DmlReadbackHeap :=
  mk_readback_heap (rb_heap s) (execution_context_ s) (event_queue_ s) (current_completion_event_ s)
    m (rb_cpu s) (rb_completed s).

(** The CPU buffer written and the fence signaled. *)
Definition deliver (cpu : Z -> list Z) (v : Z) (s : DmlReadbackHeap) : DmlReadbackHeap :=
  mk_readback_heap (rb_heap s) (execution_context_ s) (event_queue_ s) (current_completion_event_ s)
    (rb_memory s) cpu v.

(** The body of [done_callback]. *)
Definition run_callback (hr_map : Z) (c : done_callback) : ST DmlReadbackHeap unit :=
  s ← get;
  if negb (status_ok (rec_Status (execution_context_ s))) then mret tt
  else
    lift (DML_CHECK_SUCCEEDED hr_map);;
    let data := read_bytes (cb_resource c) (cb_offset c) (Z.to_nat (cb_size c)) (rb_memory s) in
    modify (deliver (fun d => if d =? cb_dst c then data else rb_cpu s d) (fence_value (cb_event c))).

(** The callbacks that a change of the queue has fired, run in their order. *)
Fixpoint run_callbacks (hr_map : Z) (l : list (Z * done_callback)) : ST DmlReadbackHeap unit :=
  match l with
  | [] => mret tt
  | (_, c) :: l => run_callback hr_map c;; run_callbacks hr_map l
  end.

Definition update_queue (hr_map : Z) (q : SharedState done_callback) : ST DmlReadbackHeap unit :=
  s ← get;
  modify (set_queue q);;
  run_callbacks hr_map (drop (length (fired (event_queue_ s))) (fired q)).

(** [++current_completion_event_.fence_value] *)
Definition next_completion_event (e : DmlGpuEvent) : DmlGpuEvent :=
  mk_event (u64 (fence_value e + 1)) (fence e).

(** The readback, with the GPU event of the copy and the callback enqueued. *)
Definition readback (env : gpu_env) (hr_map : Z) (dst size : Z) (src : D3D12BufferRegion) :
    ST DmlReadbackHeap (StatusOr (DmlGpuEvent * (DmlGpuEvent * done_callback))) :=
  s ← get;
  lift (ASSERT (negb (size =? 0)));;
  lift (in_range (ResourceInUavState src));;
  lift (AssertInvariants (rb_heap s));;
  '(r, h) ← lift (Reserve env (ReclaimAllocations env (rb_heap s)) size);
  modify (set_heap h);;
  match r with
  | inl st => lift (AssertInvariants h);; mret (inl st)
  | inr (i, offset_in_chunk) =>
      chunk ← lift (in_range (chunks_ h !! i));
      lift (ASSERT (u64 (offset_in_chunk + size) <=? capacity_in_bytes chunk));;
      resource ← lift (in_range (chunk_resource chunk));
      readback_resource ← lift (make offset_in_chunk size None None (Some resource));
      src ← lift (Subregion src 0 size);
      '(gpu_done_event, x) ← lift (rec_CopyBufferRegion readback_resource src (execution_context_ s));
      modify (set_context x);;
      let done_event := next_completion_event (current_completion_event_ s) in
      modify (set_event done_event);;
      let done_callback := mk_done_callback dst size (res_id resource) offset_in_chunk done_event in
      modify (set_heap (push_allocation h i (mk_Allocation size offset_in_chunk done_event)));;
      q ← lift (Enqueue gpu_done_event done_callback (event_queue_ s));
      update_queue hr_map q;;
      s ← get;
      lift (AssertInvariants (rb_heap s));;
      mret (inr (done_event, (gpu_done_event, done_callback)))
  end.

Definition ReadbackFromGpu (env : gpu_env) (hr_map : Z) (dst size : Z) (src : D3D12BufferRegion) :
    ST DmlReadbackHeap (StatusOr DmlGpuEvent) :=
  r ← readback env hr_map dst size src;
  mret (match r with inl st => inl st | inr (e, _) => inr e end).

End readback.
Arguments DmlReadbackHeap : clear implicits.

(** ** Requests *)

(** A readback, the GPU event of its copy, and the data the GPU has copied,
    once it has executed the copy. *)
Record request := mk_request {
  rq_callback : done_callback;
  rq_gpu : DmlGpuEvent;
  rq_data : option (list Z) }.

Definition request_placement (r : request) : placement :=
  mk_placement (cb_resource (rq_callback r)) (cb_offset (rq_callback r)) (cb_size (rq_callback r))
    (cb_event (rq_callback r)).

Definition request_entry (r : request) : Z * done_callback := (fence_value (rq_gpu r), rq_callback r).

Definition set_data (data : list Z) (r : request) : request :=
  mk_request (rq_callback r) (rq_gpu r) (Some data).

Section readback_proofs.
Context {X : Type} `{HL : CommandRecorderLaws X}.
Notation heap := (DmlReadbackHeap X).

Record readback_ok (env : gpu_env) (hr_map dst size : Z) (src : D3D12BufferRegion)
    (s : heap) (rs : list request) : Prop := {
  ro_device : device_ok env (rb_heap s);
  ro_fence : GetCompletedValue env (fence (current_completion_event_ s)) = rb_completed s;
  ro_map : FAILED hr_map = false;
  ro_size : 0 < size <= size_in_bytes_ src;
  ro_room : total_capacity_ (rb_heap s) + new_chunk_size (rb_heap s) size + kAllocationAlignment <= 2 ^ 64;
  ro_src : wf src /\ is_Some (ResourceInUavState src);
  ro_dst : dst ∉ map (fun r => cb_dst (rq_callback r)) rs;
  ro_count : Z.of_nat (length rs) + 1 < 2 ^ 64 }.

(** The states reached by readbacks: the GPU executes copies and signals the
    fence of the queue, never beyond the copies executed or the event being
    written; the thread of the event queue runs; the execution context is used
    otherwise; the heap is trimmed. *)
Inductive readback_reach (s0 : heap) : heap -> list request -> Prop :=
  | readback_new : readback_reach s0 s0 []
  | readback_begin s rs env hr_map dst size src r s' :
      readback_reach s0 s rs -> readback_ok env hr_map dst size src s rs ->
      readback env hr_map dst size src s = Ok (r, s') ->
      readback_reach s0 s' (rs ++ match r with inr (_, (e, c)) => [mk_request c e None] | inl _ => [] end)
  | readback_copy s rs i r data :
      readback_reach s0 s rs -> rs !! i = Some r -> rq_data r = None ->
      Z.of_nat (length data) = cb_size (rq_callback r) ->
      readback_reach s0
        (set_memory (write_bytes (cb_resource (rq_callback r)) (cb_offset (rq_callback r)) data (rb_memory s)) s)
        (<[i := set_data data r]> rs)
  | readback_signal s rs v :
      readback_reach s0 s rs -> completed (event_queue_ s) <= v < rec_clock (execution_context_ s) ->
      (forall r, r ∈ rs -> fence_value (rq_gpu r) <= v -> is_Some (rq_data r)) ->
      readback_reach s0 (set_queue (signal v (event_queue_ s)) s) rs
  | readback_thread s rs q hr_map s' :
      readback_reach s0 s rs -> EventQueue.step (event_queue_ s) LOther q ->
      completed q = completed (event_queue_ s) -> FAILED hr_map = false -> update_queue hr_map q s = Ok (tt, s') ->
      readback_reach s0 s' rs
  | readback_context s rs x :
      readback_reach s0 s rs -> rec_step (execution_context_ s) x -> readback_reach s0 (set_context x s) rs
  | readback_trim s rs env h :
      readback_reach s0 s rs -> GetCompletedValue env (fence (current_completion_event_ s)) = rb_completed s ->
      Trim env (rb_heap s) = Ok h -> readback_reach s0 (set_heap h s) rs.

(** ** The invariant *)

(** [j] callbacks have been run. *)
Record rb_inv (s : heap) (rs : list request) (j : nat) : Prop := {
  ri_valid : rec_valid (execution_context_ s);
  ri_queue : EventQueue.inv (event_queue_ s) (map request_entry rs);
  ri_fence : fence_ (event_queue_ s) = rec_fence (execution_context_ s);
  ri_order : fired (event_queue_ s) ++ events_by_fence_value (event_queue_ s) = map request_entry rs;
  ri_clock : completed (event_queue_ s) < rec_clock (execution_context_ s);
  ri_gpu r : r ∈ rs -> fence_value (rq_gpu r) <= rec_clock (execution_context_ s);
  ri_event : fence_value (current_completion_event_ s) = Z.of_nat (length rs);
  ri_numbers i r : rs !! i = Some r ->
    cb_event (rq_callback r) = mk_event (Z.of_nat i + 1) (fence (current_completion_event_ s));
  ri_flight : flight_inv (fence (current_completion_event_ s)) (Z.of_nat (length rs)) (rb_completed s)
    (rb_heap s) (map request_placement rs);
  ri_size r : r ∈ rs -> 0 <= cb_size (rq_callback r);
  ri_data r : r ∈ rs -> fence_value (rq_gpu r) <= completed (event_queue_ s) -> is_Some (rq_data r);
  ri_memory i r data : rs !! i = Some r -> rq_data r = Some data -> rb_completed s <= Z.of_nat i ->
    read_bytes (cb_resource (rq_callback r)) (cb_offset (rq_callback r)) (Z.to_nat (cb_size (rq_callback r)))
      (rb_memory s) = data;
  ri_dsts : NoDup (map (fun r => cb_dst (rq_callback r)) rs);
  ri_cpu i r : rs !! i = Some r -> Z.of_nat i < rb_completed s ->
    rq_data r = Some (rb_cpu s (cb_dst (rq_callback r)));
  ri_done : 0 <= rb_completed s <= Z.of_nat j;
  ri_run : (j <= length (fired (event_queue_ s)))%nat;
  ri_status : status_ok (rec_Status (execution_context_ s)) = true -> rb_completed s = Z.of_nat j }.

(** A callback that is fired belongs to a request whose copy is done. *)
Lemma fired_request s rs j i v c :
  rb_inv s rs j -> fired (event_queue_ s) !! i = Some (v, c) ->
  exists r, rs !! i = Some r /\ rq_callback r = c /\ is_Some (rq_data r).
Proof.
  intros Hi Hf.
  assert (map request_entry rs !! i = Some (v, c)) as He.
  { rewrite <- (ri_order _ _ _ Hi). by apply lookup_app_l_Some. }
  rewrite list_lookup_fmap in He. destruct (rs !! i) as [r|] eqn:Er; [|done]. simpl in He.
  unfold request_entry in He. injection He as Hv Hc. exists r. split; [done|]. split; [done|].
  apply (ri_data _ _ _ Hi); [by eapply list_elem_of_lookup_2|].
  pose proof (EventQueue.inv_fired _ _ (ri_queue _ _ _ Hi)) as Hall. rewrite Forall_forall in Hall.
  specialize (Hall (v, c) ltac:(by eapply list_elem_of_lookup_2)). simpl in Hall. lia.
Qed.

Lemma run_callback_spec hr_map s rs j v c :
  rb_inv s rs j -> FAILED hr_map = false -> fired (event_queue_ s) !! j = Some (v, c) ->
  runs (run_callback hr_map c) s (fun _ s' => rb_inv s' rs (S j) /\ event_queue_ s' = event_queue_ s).
Proof.
  intros Hi Hhr Hf. destruct (fired_request _ _ _ _ _ _ Hi Hf) as (r & Hr & Hc & [data Hd]).
  pose proof (lookup_lt_Some _ _ _ Hf) as Hlt.
  unfold run_callback. run_step. run_step. destruct (status_ok _) eqn:Hst; simpl.
  2:{ run_step. split; [|done]. destruct Hi. split; try done; try lia. by rewrite Hst. }
  pose proof (ri_status _ _ _ Hi Hst) as Hdone.
  unfold DML_CHECK_SUCCEEDED. rewrite Hhr. run_step. run_step; [done|]. run_step. split; [|done].
  pose proof (ri_numbers _ _ _ Hi _ _ Hr) as Hnum. rewrite Hc in Hnum. rewrite Hnum.
  pose proof (ri_memory _ _ _ Hi _ _ _ Hr Hd ltac:(lia)) as Hmem. rewrite Hc in Hmem. rewrite Hmem.
  pose proof Hi as [? ? ? ? ? ? ? ? Hfl ? ? Hm Hnd Hcpu ? ? ?].
  split; simpl; try done; try lia.
  - eapply flight_mono; [exact Hfl|done|lia].
  - intros i r' data' Hr' Hd' Hle. apply (Hm i); [done|done|lia].
  - intros i r' Hr' Hlt'. destruct (Z.eqb_spec (cb_dst (rq_callback r')) (cb_dst c)) as [Heq|Hne].
    + assert (i = j) as ->; [|congruence]. eapply (NoDup_lookup _ i j); [exact Hnd| |].
      * rewrite list_lookup_fmap, Hr'. reflexivity.
      * rewrite list_lookup_fmap, Hr. simpl. by rewrite Hc, Heq.
    + apply (Hcpu i); [done|]. destruct (decide (i = j)) as [->|]; [congruence|lia].
Qed.

Lemma run_callbacks_spec hr_map l s rs j :
  rb_inv s rs j -> FAILED hr_map = false -> drop j (fired (event_queue_ s)) = l ->
  runs (run_callbacks hr_map l) s (fun _ s' =>
    rb_inv s' rs (length (fired (event_queue_ s'))) /\ event_queue_ s' = event_queue_ s).
Proof.
  intros Hi Hhr. revert s j Hi. induction l as [|[v c] l IH]; intros s j Hi Hl; simpl.
  - run_step. split; [|done]. assert (length (fired (event_queue_ s)) = j) as ->; [|done].
    apply (f_equal length) in Hl. rewrite length_drop in Hl. simpl in Hl. pose proof (ri_run _ _ _ Hi). lia.
  - assert (fired (event_queue_ s) !! j = Some (v, c)) as Hj.
    { rewrite <- (Nat.add_0_r j), <- lookup_drop, Hl. done. }
    run_step. eapply runs_mono; [by eapply run_callback_spec|]. intros _ s1 [Hi1 Hq].
    eapply runs_mono; [apply (IH _ _ Hi1); rewrite Hq|].
    + by rewrite <- Nat.add_1_r, <- drop_drop, Hl.
    + intros _ s2 [Hi2 Hq2]. split; [done|congruence].
Qed.

(** Nothing fired: the queue is replaced and no callback runs. *)
Lemma update_queue_quiet hr_map q s :
  fired q = fired (event_queue_ s) -> runs (update_queue hr_map q) s (fun _ s' => s' = set_queue q s).
Proof.
  intros Hf. unfold update_queue. run_step. run_step. run_step. run_step.
  rewrite Hf, drop_all. simpl. by run_step.
Qed.

(** A new request: its callback goes to the end of the queue. *)
Lemma rb_inv_request s rs h h' x e c :
  rb_inv s rs (length (fired (event_queue_ s))) -> rec_valid x ->
  rec_fence x = rec_fence (execution_context_ s) -> rec_clock (execution_context_ s) <= rec_clock x ->
  rec_Status x = rec_Status (execution_context_ s) ->
  fence e = rec_fence (execution_context_ s) -> fence_value e = rec_clock (execution_context_ s) ->
  cb_event c = next_completion_event (current_completion_event_ s) -> 0 <= cb_size c ->
  cb_dst c ∉ map (fun r => cb_dst (rq_callback r)) rs -> Z.of_nat (length rs) + 1 < 2 ^ 64 ->
  flight_inv (fence (cb_event c)) (fence_value (cb_event c)) (rb_completed s) h'
    (map request_placement rs ++ [request_placement (mk_request c e None)]) ->
  exists q, Enqueue e c (event_queue_ s) = Ok q /\ fired q = fired (event_queue_ s) /\
    rb_inv (set_queue q (set_heap h' (set_event (cb_event c) (set_context x (set_heap h s)))))
      (rs ++ [mk_request c e None]) (length (fired q)).
Proof.
  intros Hi Hv Hfx Hcx Hst Hfe Hve Hev Hsz Hdst Hcount Hfl.
  assert (cb_event c = mk_event (Z.of_nat (length rs) + 1) (fence (current_completion_event_ s))) as Hce.
  { rewrite Hev. unfold next_completion_event. rewrite (ri_event _ _ _ Hi), u64_small by lia. done. }
  pose proof (rec_valid_law _ (ri_valid _ _ _ Hi)) as Hclock.
  assert (Enqueue e c (event_queue_ s) = Ok (mk_SharedState (fence_ (event_queue_ s))
    (events_by_fence_value (event_queue_ s) ++ [(fence_value e, c)])
    (current_awaited_fence_value (event_queue_ s)) (exit_requested (event_queue_ s))
    (completed (event_queue_ s)) (fired (event_queue_ s)) (pc (event_queue_ s)))) as E.
  { eapply Enqueue_last; [apply Hi|by rewrite (ri_fence _ _ _ Hi)|rewrite Hve; apply Hi|lia|].
    apply Forall_forall. intros p Hp. assert (p ∈ map request_entry rs) as Hin.
    { rewrite <- (ri_order _ _ _ Hi). apply elem_of_app. by right. }
    apply list_elem_of_fmap in Hin as (r & -> & Hr). rewrite Hve. by apply (ri_gpu _ _ _ Hi). }
  eexists. split; [exact E|]. split; [done|].
  pose proof (EventQueue.inv_enqueue _ _ _ _ _ (ri_queue _ _ _ Hi) E) as Hq.
  pose proof Hi as [? ? Hf Hor Hcl Hg ? Hnum ? Hs Hd Hm Hnd Hc Hdone Hrun Hok].
  split; simpl; rewrite ?Hce in *; simpl in *; rewrite ?map_app, ?length_app.
  - done.
  - done.
  - by rewrite Hf.
  - rewrite app_assoc, Hor. done.
  - lia.
  - intros r [Hr| ->%list_elem_of_singleton]%elem_of_app; [specialize (Hg r Hr); lia|simpl; lia].
  - simpl. lia.
  - intros i r [[_ Hr]|[-> <-]]%lookup_snoc_Some; [by apply Hnum|done].
  - eapply flight_mono; [exact Hfl|simpl; lia|done].
  - intros r [Hr| ->%list_elem_of_singleton]%elem_of_app; [by apply Hs|done].
  - intros r [Hr| ->%list_elem_of_singleton]%elem_of_app; [by apply Hd|simpl; lia].
  - intros i r data [[_ Hr]|[-> <-]]%lookup_snoc_Some; [by apply Hm|done].
  - apply NoDup_app. split; [done|]. split; [|by apply NoDup_singleton].
    by intros d Hd' ->%list_elem_of_singleton.
  - intros i r [[_ Hr]|[-> <-]]%lookup_snoc_Some Hlt; [by apply (Hc i)|].
    assert (length (fired (event_queue_ s)) <= length rs)%nat; [|lia].
    rewrite <- (length_map request_entry rs), <- Hor, length_app. lia.
  - lia.
  - lia.
  - rewrite Hst. done.
Qed.

Lemma readback_spec env hr_map dst size src s rs :
  rb_inv s rs (length (fired (event_queue_ s))) -> readback_ok env hr_map dst size src s rs ->
  runs (readback env hr_map dst size src) s (fun r s' =>
    rb_inv s' (rs ++ match r with inr (_, (e, c)) => [mk_request c e None] | inl _ => [] end)
      (length (fired (event_queue_ s'))) /\
    match r with inl st => code st = TF_RESOURCE_EXHAUSTED | inr (e, (_, c)) => cb_event c = e end).
Proof.
  intros Hi [Hdev Hgcv Hmap Hsz Hroom [Hwf [u Hu]] Hdst Hcount].
  pose proof Hwf as [Hfirst (f & Hff & Ho & Hs & Hle & Hw & _)].
  pose proof (ri_flight _ _ _ Hi) as Hfl. unfold readback.
  run_step. run_step. run_step. run_step; [bool_to_prop; destruct (Z.eqb_spec size 0); [lia|done]|].
  run_step. rewrite Hu. eapply runs_lift; [done|].
  run_step. eapply runs_lift; [apply heap_wf_AssertInvariants, Hfl|].
  destruct (flight_reserve _ _ _ _ _ _ size Hgcv Hfl Hdev ltac:(lia) Hroom) as (r & h' & E & Hfl' & Hr).
  run_step. eapply runs_lift; [exact E|]. cbv beta iota. run_step. run_step.
  destruct r as [st|[i off]].
  { run_step. eapply runs_lift; [apply heap_wf_AssertInvariants, Hfl'|]. run_step.
    rewrite app_nil_r. split; [by destruct Hi|done]. }
  destruct Hr as (c & res & Hic & Hres & Hoff & Hend & Hwc & Hcap & Hrm).
  run_step. rewrite Hic. eapply runs_lift; [done|]. run_step. rewrite u64_small by lia.
  run_step; [lia|]. run_step. rewrite Hres. eapply runs_lift; [done|]. run_step.
  assert (make off size None None (Some res) = Ok (mk None None (Some res) off size (Some res))) as Emk.
  { apply make_ok; try done; try lia. simpl. apply Z.eqb_refl. }
  eapply runs_lift; [exact Emk|]. run_step.
  eapply runs_lift; [apply (Subregion_ok src f 0 size Hwf Hff); lia|].
  destruct (Z.eqb_spec size 0); [lia|]. rewrite Z.add_0_r.
  set (region := mk None None (Some res) off size (Some res)).
  set (sub := mk _ _ _ (offset_ src) size (Some f)).
  destruct (rec_copy_law region sub _ (ri_valid _ _ _ Hi)) as (e & x' & Ec & Hv' & Hfe & Hve & Hfx & Hcx & Hst);
    [apply Z.le_refl|].
  run_step. eapply runs_lift; [exact Ec|]. cbv beta iota. do 6 run_step.
  set (c0 := mk_done_callback dst size (res_id res) off (next_completion_event (current_completion_event_ s))).
  assert (fence_value (cb_event c0) = Z.of_nat (length rs) + 1) as Hval.
  { simpl. rewrite (ri_event _ _ _ Hi), u64_small by lia. done. }
  assert (0 < size) as Hpos by lia.
  assert (Z.of_nat (length rs) <= fence_value (cb_event c0)) as Hlater by lia.
  pose proof (flight_push _ _ _ _ _ _ _ _ _ _ (cb_event c0) Hfl' Hic Hres Hpos Hrm eq_refl Hlater)
    as Hpush.
  destruct (rb_inv_request s rs h' _ x' e c0 Hi Hv' Hfx Hcx Hst Hfe Hve eq_refl ltac:(unfold c0; simpl; lia) Hdst Hcount Hpush)
    as (q & Eq & Hfq & Hi').
  run_step. eapply runs_lift; [exact Eq|]. run_step. eapply runs_mono; [by apply update_queue_quiet|].
  intros _ s' ->. run_step. run_step. run_step.
  eapply runs_lift; [apply heap_wf_AssertInvariants, Hpush|]. run_step. by split.
Qed.

Lemma map_set_data {A} (f : request -> A) rs i r data :
  rs !! i = Some r -> f (set_data data r) = f r -> map f (<[i := set_data data r]> rs) = map f rs.
Proof.
  intros Hr Hf. change (f <$> <[i := set_data data r]> rs = f <$> rs).
  rewrite list_fmap_insert, Hf. apply list_insert_id. by rewrite list_lookup_fmap, Hr.
Qed.

(** The GPU executes the copy of a request that it has not signaled yet. *)
Lemma rb_inv_copy s rs j i r data :
  rb_inv s rs j -> rs !! i = Some r -> rq_data r = None ->
  Z.of_nat (length data) = cb_size (rq_callback r) ->
  rb_inv (set_memory (write_bytes (cb_resource (rq_callback r)) (cb_offset (rq_callback r)) data (rb_memory s)) s)
    (<[i := set_data data r]> rs) j.
Proof.
  intros Hi Hr Hnone Hlen.
  assert (rb_completed s <= Z.of_nat i) as Hfly.
  { destruct (Z.le_gt_cases (rb_completed s) (Z.of_nat i)) as [|Hlt]; [done|].
    pose proof (ri_cpu _ _ _ Hi i r Hr Hlt). congruence. }
  assert (forall k r', <[i := set_data data r]> rs !! k = Some r' ->
    (k = i /\ r' = set_data data r) \/ (k <> i /\ rs !! k = Some r')) as Hlk.
  { intros k r' Hk. destruct (decide (k = i)) as [->|Hne].
    - rewrite list_lookup_insert_eq in Hk by (by eapply lookup_lt_Some). left. by injection Hk as <-.
    - right. by rewrite list_lookup_insert_ne in Hk. }
  assert (forall P : request -> Prop, P (set_data data r) -> (forall r', r' ∈ rs -> P r') ->
    forall r', r' ∈ <[i := set_data data r]> rs -> P r') as Hall.
  { intros P Hp Hps r' [k [[_ ->]|[_ Hk]]%Hlk]%list_elem_of_lookup_1; [done|]. by eapply Hps, list_elem_of_lookup_2. }
  assert (r ∈ rs) as Hin by by eapply list_elem_of_lookup_2.
  pose proof Hi as [? ? ? Hor ? Hg Hev Hnum Hfl Hs Hd Hm Hnd Hc ? ? ?].
  split; simpl; rewrite ?(map_set_data _ _ _ _ _ Hr), ?length_insert by done; try done.
  - apply Hall; [by apply (Hg r)|done].
  - intros k r' [[-> ->]|[_ Hk]]%Hlk; [apply (Hnum i r Hr)|by apply Hnum].
  - apply Hall; [by apply (Hs r)|done].
  - apply (Hall (fun r => fence_value (rq_gpu r) <= completed (event_queue_ s) -> is_Some (rq_data r))); [by eexists|exact Hd].
  - intros k r' data' [[-> ->]|[Hne Hk]]%Hlk Hd' Hle; simpl in *.
    + injection Hd' as <-. rewrite <- Hlen, Nat2Z.id. apply read_write_same.
    + rewrite read_write_apart; [by apply (Hm k)|]. rewrite Hlen.
      rewrite Z2Nat.id by (apply Hs; by eapply list_elem_of_lookup_2).
      apply (fi_apart _ _ _ _ _ Hfl k i (request_placement r') (request_placement r));
        [done|by rewrite list_lookup_fmap, Hk|by rewrite list_lookup_fmap, Hr| |];
        unfold in_flight; simpl; [rewrite (Hnum _ _ Hk)|rewrite (Hnum _ _ Hr)]; simpl; lia.
  - intros k r' [[-> ->]|[Hne Hk]]%Hlk Hlt; [lia|by apply (Hc k)].
Qed.

Lemma rb_inv_signal s rs j v :
  rb_inv s rs j -> completed (event_queue_ s) <= v < rec_clock (execution_context_ s) ->
  (forall r, r ∈ rs -> fence_value (rq_gpu r) <= v -> is_Some (rq_data r)) ->
  rb_inv (set_queue (signal v (event_queue_ s)) s) rs j.
Proof.
  intros Hi Hv Hdata. pose proof (rec_valid_law _ (ri_valid _ _ _ Hi)).
  pose proof (EventQueue.queue_inv_step _ _ LOther _ (ri_queue _ _ _ Hi)
    (EventQueue.step_signal (event_queue_ s) v ltac:(lia))) as Hq. rewrite app_nil_r in Hq.
  destruct Hi. split; simpl; try done; lia.
Qed.

(** A step of the thread of the event queue, with the callbacks it fires. *)
Lemma rb_inv_thread s rs q hr_map :
  rb_inv s rs (length (fired (event_queue_ s))) -> EventQueue.step (event_queue_ s) LOther q ->
  completed q = completed (event_queue_ s) -> FAILED hr_map = false ->
  runs (update_queue hr_map q) s (fun _ s' => rb_inv s' rs (length (fired (event_queue_ s'))) /\
    event_queue_ s' = q).
Proof.
  intros Hi Hstep Hcq Hhr. destruct (step_other_fired _ _ Hstep) as (new & Hf & Hev).
  pose proof (EventQueue.queue_inv_step _ _ LOther _ (ri_queue _ _ _ Hi) Hstep) as Hq.
  rewrite app_nil_r in Hq.
  unfold update_queue. run_step. run_step. run_step. run_step.
  assert (rb_inv (set_queue q s) rs (length (fired (event_queue_ s)))) as Hi'.
  { pose proof (EventQueue.step_fence _ _ _ Hstep) as Hfq. destruct Hi. split; simpl; try done.
    - congruence.
    - rewrite Hf, <- app_assoc, Hev. done.
    - by rewrite Hcq.
    - by rewrite Hcq.
    - rewrite Hf, length_app. lia. }
  eapply runs_mono; [eapply run_callbacks_spec; [exact Hi'|done|done]|]. by intros _ s' [? ?].
Qed.

Lemma readback_reach_inv x c0 fence0 m cpu s rs :
  rec_valid x -> 0 <= c0 < rec_clock x ->
  readback_reach (make_DmlReadbackHeap x (make_SharedState (rec_fence x) c0) fence0 m cpu) s rs ->
  rb_inv s rs (length (fired (event_queue_ s))).
Proof.
  intros Hv Hc0 Hr. pose proof (rec_valid_law _ Hv).
  induction Hr as [|s rs env hr dst size src r s' _ IH Hok E|s rs i r data _ IH Hr Hn Hlen|
    s rs v _ IH Hvs Hd|s rs q hr s' _ IH Hstep Hcq Hhr E|s rs x' _ IH Hstep|s rs env h _ IH Hgcv E].
  - split; simpl; try done; try lia; try by intros; set_solver.
    + apply (EventQueue.queue_reach_inv (rec_fence x) _ _ c0); [lia|constructor].
    + apply new_flight_inv.
    + constructor.
  - destruct (readback_spec _ _ _ _ _ _ _ IH Hok) as (r' & s1 & E' & Hi & _).
    rewrite E in E'. by injection E' as <- <-.
  - by apply rb_inv_copy.
  - by apply rb_inv_signal.
  - destruct (rb_inv_thread _ _ _ _ IH Hstep Hcq Hhr) as ([] & s1 & E' & Hi & _).
    rewrite E in E'. by injection E' as <-.
  - destruct (rec_step_law _ _ (ri_valid _ _ _ IH) Hstep) as (Hv' & Hf & Hc & Hst).
    destruct IH. split; simpl; try done; try lia; try congruence; auto.
    intros r Hr. specialize (ri_gpu0 r Hr). lia.
  - destruct (flight_trim _ _ _ _ _ _ Hgcv (ri_flight _ _ _ IH)) as (h' & E' & Hfl).
    rewrite E in E'. injection E' as <-. by destruct IH.
Qed.

(** C10: a readback is complete when its event is signaled: whatever else goes
    on, a readback whose event the heap's fence has reached has the data that
    the GPU copied in its CPU buffer; the places of the readbacks still under
    way do not overlap; and a readback or a step of the thread of the event
    queue never trips a check or an assertion. *)
Theorem readback_complete_when_signaled x c0 fence0 m cpu s rs :
  rec_valid x -> 0 <= c0 < rec_clock x ->
  readback_reach (make_DmlReadbackHeap x (make_SharedState (rec_fence x) c0) fence0 m cpu) s rs ->
  (forall r, r ∈ rs -> fence_value (cb_event (rq_callback r)) <= rb_completed s ->
     rq_data r = Some (rb_cpu s (cb_dst (rq_callback r)))) /\
  (forall i j r r', i <> j -> rs !! i = Some r -> rs !! j = Some r' ->
     rb_completed s < fence_value (cb_event (rq_callback r)) ->
     rb_completed s < fence_value (cb_event (rq_callback r')) ->
     apart (request_placement r) (request_placement r')) /\
  (forall env hr_map dst size src, readback_ok env hr_map dst size src s rs ->
     exists e s', ReadbackFromGpu env hr_map dst size src s = Ok (e, s')) /\
  (forall q hr_map, EventQueue.step (event_queue_ s) LOther q -> completed q = completed (event_queue_ s) ->
     FAILED hr_map = false -> exists s', update_queue hr_map q s = Ok (tt, s')).
Proof.
  intros Hv Hc0 Hr. pose proof (readback_reach_inv _ _ _ _ _ _ _ Hv Hc0 Hr) as Hi. split_and!.
  - intros r [i Hl]%list_elem_of_lookup_1 Hle. apply (ri_cpu _ _ _ Hi i); [done|].
    rewrite (ri_numbers _ _ _ Hi _ _ Hl) in Hle. simpl in Hle. lia.
  - intros i j r r' Hij Hl Hl'.
    apply (fi_apart _ _ _ _ _ (ri_flight _ _ _ Hi) i j (request_placement r) (request_placement r'));
      [done| |]; rewrite list_lookup_fmap; [by rewrite Hl|by rewrite Hl'].
  - intros env hr dst size src Hok. destruct (readback_spec _ _ _ _ _ _ _ Hi Hok) as (r & s' & E & _).
    unfold ReadbackFromGpu, mbind, ST_bind. rewrite E. by do 2 eexists.
  - intros q hr Hstep Hcq Hhr. destruct (rb_inv_thread _ _ _ _ Hi Hstep Hcq Hhr) as ([] & s' & E & _). eauto.
Qed.

End readback_proofs.

(** ** An example: a readback of three bytes into CPU buffer 7 *)

Definition run_state {S A} (m : ST S A) (s : S) : S := match m s with Ok (_, s') => s' | Fault _ => s end.

Definition example_start : DmlReadbackHeap ExecContext.context :=
  make_DmlReadbackHeap ExecContext.example_context (make_SharedState 1 0) 2 (fun _ _ => 0) (fun _ => []).

Definition example_requested : DmlReadbackHeap ExecContext.context :=
  run_state (readback example_gpu 0 7 3 example_region) example_start.

Definition example_callback : done_callback := mk_done_callback 7 3 9 0 (mk_event 1 2).

Definition example_copied : DmlReadbackHeap ExecContext.context :=
  set_memory (write_bytes 9 0 [4; 5; 6] (rb_memory example_requested)) example_requested.

(** The execution thread takes the batch with the copy: its event is past. *)
Definition example_flushed : DmlReadbackHeap ExecContext.context :=
  set_context (ExecContext.thread_check 0 (execution_context_ example_copied)) example_copied.

Definition example_signaled : DmlReadbackHeap ExecContext.context :=
  set_queue (signal 1 (event_queue_ example_flushed)) example_flushed.

Definition example_delivered : DmlReadbackHeap ExecContext.context :=
  run_state (update_queue 0 (thread_pass (event_queue_ example_signaled))) example_signaled.

Lemma example_ok : readback_ok example_gpu 0 7 3 example_region example_start [].
Proof.
  split; try done; try apply not_elem_of_nil.
  - split; [|by intros size|by intros size ?%elem_of_nil].
    intros size hr r [= <- <-] _. by eexists.
  - split; [apply example_region_wf|by eexists].
Qed.

Lemma example_reach :
  readback_reach example_start example_delivered
    [mk_request example_callback (mk_event 1 1) (Some [4; 5; 6])].
Proof.
  eapply (readback_thread _ example_signaled _ (thread_pass (event_queue_ example_signaled)) 0);
    [|by apply EventQueue.step_pass|done|done|vm_compute; reflexivity].
  eapply (readback_signal _ example_flushed);
    [|split; vm_compute; done|by intros r ->%list_elem_of_singleton _; eexists].
  eapply (readback_context _ example_copied).
  2:{ exists ExecContext.LThread. split; [by apply ExecContext.step_check|vm_compute; reflexivity]. }
  eapply (readback_copy _ example_requested [mk_request example_callback (mk_event 1 1) None] 0
    (mk_request example_callback (mk_event 1 1) None) [4; 5; 6]); [|done|done|done].
  apply (readback_begin _ example_start [] example_gpu 0 7 3 example_region
    (inr (mk_event 1 2, (mk_event 1 1, example_callback)))); [apply readback_new|apply example_ok|].
  vm_compute. reflexivity.
Qed.

Lemma readback_complete_when_signaled_witness : rb_cpu example_delivered 7 = [4; 5; 6].
Proof.
  assert (rec_valid ExecContext.example_context) as Hv by by split.
  destruct (readback_complete_when_signaled _ 0 2 _ _ _ _ Hv ltac:(vm_compute; split; [discriminate|reflexivity])
    example_reach) as (H & _).
  specialize (H (mk_request example_callback (mk_event 1 1) (Some [4; 5; 6])) ltac:(by left)
    ltac:(vm_compute; discriminate)).
  exact (eq_sym (f_equal (default []) H)).
Defined.
