(* ===== verification/Text.v ===== *)
(** * Text: characters, prefixes and decimal numbers

    What the parsers of names use of strings: the classes of characters, the
    removal of a literal prefix ([absl::ConsumePrefix]), the decimal text of a
    number ([absl::StrCat]) and [ConsumeLeadingDigits]
    (optimizer/device_name_utils.cc), with the round trip of the last two. *)

From Stdlib Require Import Ascii.
From S2P Require Import Prelude.
#[local] Open Scope string_scope.
#[local] Open Scope Z_scope.

Definition char_between (lo hi c : ascii) : bool :=
  ((N_of_ascii lo <=? N_of_ascii c) && (N_of_ascii c <=? N_of_ascii hi))%N.

Definition is_digit : ascii -> bool := char_between "0" "9".
Definition digit_value (c : ascii) : Z := Z.of_N (N_of_ascii c - N_of_ascii "0").

Definition IsAlpha (c : ascii) : bool := char_between "a" "z" c || char_between "A" "Z" c.
Definition IsAlphaNumOrUnderscore (c : ascii) : bool :=
  IsAlpha c || is_digit c || Ascii.eqb c "_".

Fixpoint all_of (p : ascii -> bool) (s : string) : bool :=
  match s with
  | EmptyString => true
  | String c s => p c && all_of p s
  end.

(** [absl::ConsumePrefix]: the rest of [s] after the literal. *)
Fixpoint strip_prefix (prefix s : string) : option string :=
  match prefix, s with
  | EmptyString, _ => Some s
  | String c prefix, String d s => if Ascii.eqb c d then strip_prefix prefix s else None
  | String _ _, EmptyString => None
  end.

(** [s] up to the first character of [terminators], and the rest. *)
Fixpoint split_at (terminators : ascii -> bool) (s : string) : string * string :=
  match s with
  | EmptyString => ("", "")
  | String c s' => if terminators c then ("", s) else let '(a, b) := split_at terminators s' in (String c a, b)
  end.

(** The loop of [ConsumeLeadingDigits]: the value and the rest, [None] on overflow. *)
Fixpoint digits_loop (s : string) (v : Z) : option (Z * string) :=
  match s with
  | String c s' =>
      if is_digit c then
        let new_v := u64 (v * 10 + digit_value c) in
        if new_v / 8 <? v then None else digits_loop s' new_v
      else Some (v, s)
  | EmptyString => Some (v, s)
  end.

Definition starts_with_digit (s : string) : bool :=
  match s with String c _ => is_digit c | EmptyString => false end.

Definition ConsumeLeadingDigits (s : string) : option (Z * string) :=
  match digits_loop s 0 with
  | Some (v, rest) => if starts_with_digit s then Some (v, rest) else None
  | None => None
  end.

(** ** The value of a decimal text, without bounds *)

Fixpoint decimal (s : string) (v : Z) : Z * string :=
  match s with
  | String c s' => if is_digit c then decimal s' (v * 10 + digit_value c) else (v, s)
  | EmptyString => (v, s)
  end.

Lemma digit_value_range c : is_digit c = true -> 0 <= digit_value c <= 9.
Proof.
  unfold is_digit, char_between, digit_value. intros [H1%N.leb_le H2%N.leb_le]%andb_true_iff.
  change (N_of_ascii "0") with 48%N in *. change (N_of_ascii "9") with 57%N in *. lia.
Qed.

Lemma decimal_ge s : forall v, 0 <= v -> v <= (decimal s v).1.
Proof.
  induction s as [|c s IH]; intros v Hv; simpl; [lia|]. destruct (is_digit c) eqn:Ec; [|simpl; lia].
  pose proof (digit_value_range c Ec). specialize (IH (v * 10 + digit_value c) ltac:(lia)). lia.
Qed.

(** The test for overflow: the quotient by 8 is smaller than the old value
    exactly when the product wrapped. *)
Lemma overflow_test v d : 0 <= v < 2 ^ 64 -> 0 <= d <= 9 ->
  (u64 (v * 10 + d) / 8 <? v) = negb (v * 10 + d <? 2 ^ 64).
Proof.
  intros Hv Hd. unfold u64. destruct (Z.ltb_spec (v * 10 + d) (2 ^ 64)) as [Hlt|Hge]; simpl.
  - rewrite Z.mod_small by lia. apply Z.ltb_ge. apply Z.div_le_lower_bound; lia.
  - apply Z.ltb_lt. apply Z.div_lt_upper_bound; [lia|].
    pose proof (Z.div_mod (v * 10 + d) (2 ^ 64) ltac:(lia)).
    pose proof (Z.mod_pos_bound (v * 10 + d) (2 ^ 64) ltac:(lia)).
    assert (1 <= (v * 10 + d) / 2 ^ 64) by (apply Z.div_le_lower_bound; lia).
    lia.
Qed.

Lemma digits_loop_spec s : forall v, 0 <= v < 2 ^ 64 ->
  digits_loop s v = if (decimal s v).1 <? 2 ^ 64 then Some (decimal s v) else None.
Proof.
  induction s as [|c s IH]; intros v Hv; cbn [digits_loop decimal].
  { cbn [fst]. by destruct (Z.ltb_spec v (2 ^ 64)); [|lia]. }
  destruct (is_digit c) eqn:Ec.
  2:{ cbn [fst]. by destruct (Z.ltb_spec v (2 ^ 64)); [|lia]. }
  pose proof (digit_value_range c Ec) as Hd. cbv zeta. rewrite overflow_test by done.
  destruct (Z.ltb_spec (v * 10 + digit_value c) (2 ^ 64)) as [Hlt|Hge]; cbn [negb].
  - rewrite u64_small by lia. apply IH. lia.
  - pose proof (decimal_ge s (v * 10 + digit_value c) ltac:(lia)).
    by destruct (Z.ltb_spec (decimal s (v * 10 + digit_value c)).1 (2 ^ 64)); [lia|].
Qed.

(** ** The decimal text of a number *)

Lemma is_digit_pretty x : (x < 10)%N -> is_digit (pretty_N_char x) = true /\
  digit_value (pretty_N_char x) = Z.of_N x.
Proof.
  intros Hx. assert (x = 0 \/ x = 1 \/ x = 2 \/ x = 3 \/ x = 4 \/ x = 5 \/ x = 6 \/ x = 7 \/ x = 8 \/ x = 9)%N
    as H by lia.
  by repeat destruct H as [->|H]; [..|subst].
Qed.

Lemma decimal_pretty_go x s : decimal (pretty_N_go x s) 0 = decimal s (Z.of_N x).
Proof.
  revert s. induction x as [x IH] using (well_founded_induction N.lt_wf_0). intros s.
  destruct (decide (x = 0)%N) as [->|Hx]; [by rewrite pretty_N_go_0|].
  rewrite pretty_N_go_step by lia. rewrite IH by (apply N.div_lt; lia). cbn [decimal].
  destruct (is_digit_pretty (x mod 10)) as [-> ->]; [by apply N.mod_lt|].
  f_equal. pose proof (N.div_mod x 10 ltac:(lia)). lia.
Qed.

Lemma pretty_go_app x s t : pretty_N_go x s +:+ t = pretty_N_go x (s +:+ t).
Proof.
  revert s. induction x as [x IH] using (well_founded_induction N.lt_wf_0). intros s.
  destruct (decide (x = 0)%N) as [->|Hx]; [by rewrite !pretty_N_go_0|].
  rewrite !(pretty_N_go_step x) by lia. rewrite IH by (apply N.div_lt; lia). done.
Qed.

Lemma pretty_go_digit x s : (0 < x)%N -> starts_with_digit (pretty_N_go x s) = true.
Proof.
  revert s. induction x as [x IH] using (well_founded_induction N.lt_wf_0). intros s Hx.
  rewrite pretty_N_go_step by lia. destruct (decide (x `div` 10 = 0)%N) as [->|].
  - rewrite pretty_N_go_0. simpl. apply is_digit_pretty. by apply N.mod_lt.
  - apply IH; [apply N.div_lt; lia|by apply N.neq_0_lt_0].
Qed.

Lemma decimal_stop s v : starts_with_digit s = false -> decimal s v = (v, s).
Proof. destruct s as [|c s]; simpl; [done|]. by intros ->. Qed.

Lemma decimal_pretty (z : Z) s : 0 <= z -> starts_with_digit s = false ->
  decimal (pretty z +:+ s) 0 = (z, s) /\ starts_with_digit (pretty z +:+ s) = true.
Proof.
  intros Hz Hs. destruct z as [|p|p]; [| |lia].
  - split; [|done]. transitivity (decimal s 0); [reflexivity|by apply decimal_stop].
  - change (pretty (Z.pos p)) with (pretty_N_go (N.pos p) ""). rewrite pretty_go_app. simpl.
    split; [|by apply pretty_go_digit]. rewrite decimal_pretty_go. simpl. by apply decimal_stop.
Qed.

Lemma ConsumeLeadingDigits_pretty (z : Z) s : 0 <= z < 2 ^ 64 -> starts_with_digit s = false ->
  ConsumeLeadingDigits (pretty z +:+ s) = Some (z, s).
Proof.
  intros Hz Hs. unfold ConsumeLeadingDigits. rewrite digits_loop_spec by lia.
  destruct (decimal_pretty z s ltac:(lia) Hs) as [-> ->]. cbn [fst].
  by destruct (Z.ltb_spec z (2 ^ 64)); [|lia].
Qed.

(** [ConsumeLeadingDigits] reads exactly the number that the text starts
    with: its test for overflow fires if and only if the number does not fit
    in 64 bits, at whatever digit it wraps. *)
Theorem ConsumeLeadingDigits_exact s :
  ConsumeLeadingDigits s =
    if starts_with_digit s && ((decimal s 0).1 <? 2 ^ 64) then Some (decimal s 0) else None.
Proof.
  unfold ConsumeLeadingDigits. rewrite digits_loop_spec by lia.
  destruct ((decimal s 0).1 <? 2 ^ 64), (starts_with_digit s); try done;
    by destruct (decimal s 0).
Qed.

(** ** Splitting at a terminator *)

Lemma split_at_app t a b :
  all_of (fun c => negb (t c)) a = true ->
  (match b with String c _ => t c | EmptyString => true end = true) ->
  split_at t (a +:+ b) = (a, b).
Proof.
  intros Ha Hb. induction a as [|c a IH]; simpl in *.
  - destruct b as [|c b]; simpl; [done|]. by rewrite Hb.
  - apply andb_true_iff in Ha as [Hc Ha]. apply negb_true_iff in Hc. rewrite Hc, IH by done. done.
Qed.

Lemma strip_prefix_app a b : strip_prefix a (a +:+ b) = Some b.
Proof. induction a as [|c a IH]; simpl; [done|]. by rewrite Ascii.eqb_refl. Qed.

Lemma all_of_impl (p q : ascii -> bool) s :
  (forall c, p c = true -> q c = true) -> all_of p s = true -> all_of q s = true.
Proof.
  intros Hpq. induction s as [|c s IH]; simpl; [done|]. intros [Hc Hs]%andb_true_iff.
  by rewrite (Hpq c Hc), IH.
Qed.
