(* ===== verification/DeviceName.v ===== *)
(** * Device names

    [DeviceNameUtils] (optimizer/device_name_utils.{h,cc}): the parser and
    printer of device names such as
    "/job:worker/replica:0/task:1/device:GPU:0", and the operations on parsed
    names.  A [ParsedName*] that a function fills in is a result of the
    function; what a failed parse leaves in it is modelled as well. *)

From Stdlib Require Import Ascii.
From S2P Require Import Prelude Text.
#[local] Open Scope string_scope.
#[local] Open Scope Z_scope.

Record ParsedName := mk_ParsedName {
  has_job : bool; job : string;
  has_replica : bool; replica : Z;
  has_task : bool; task : Z;
  has_type : bool; type : string;
  has_id : bool; id : Z }.

#[export] Instance ParsedName_eq_dec : EqDecision ParsedName.
Proof. solve_decision. Defined.

Definition Clear : ParsedName := mk_ParsedName false "" false 0 false 0 false "" false 0.

Definition set_has_job b p := mk_ParsedName b (job p) (has_replica p) (replica p) (has_task p)
  (task p) (has_type p) (type p) (has_id p) (id p).
Definition set_job j p := mk_ParsedName (has_job p) j (has_replica p) (replica p) (has_task p)
  (task p) (has_type p) (type p) (has_id p) (id p).
Definition set_has_replica b p := mk_ParsedName (has_job p) (job p) b (replica p) (has_task p)
  (task p) (has_type p) (type p) (has_id p) (id p).
Definition set_replica r p := mk_ParsedName (has_job p) (job p) (has_replica p) r (has_task p)
  (task p) (has_type p) (type p) (has_id p) (id p).
Definition set_has_task b p := mk_ParsedName (has_job p) (job p) (has_replica p) (replica p) b
  (task p) (has_type p) (type p) (has_id p) (id p).
Definition set_task t p := mk_ParsedName (has_job p) (job p) (has_replica p) (replica p) (has_task p)
  t (has_type p) (type p) (has_id p) (id p).
Definition set_has_type b p := mk_ParsedName (has_job p) (job p) (has_replica p) (replica p) (has_task p)
  (task p) b (type p) (has_id p) (id p).
Definition set_type t p := mk_ParsedName (has_job p) (job p) (has_replica p) (replica p) (has_task p)
  (task p) (has_type p) t (has_id p) (id p).
Definition set_has_id b p := mk_ParsedName (has_job p) (job p) (has_replica p) (replica p) (has_task p)
  (task p) (has_type p) (type p) b (id p).
Definition set_id i p := mk_ParsedName (has_job p) (job p) (has_replica p) (replica p) (has_task p)
  (task p) (has_type p) (type p) (has_id p) i.

(** [operator==] *)
Definition ParsedName_eqb (a b : ParsedName) : bool :=
  (if has_job a then has_job b && String.eqb (job a) (job b) else negb (has_job b)) &&
  (if has_replica a then has_replica b && (replica a =? replica b) else negb (has_replica b)) &&
  (if has_task a then has_task b && (task a =? task b) else negb (has_task b)) &&
  (if has_type a then has_type b && String.eqb (type a) (type b) else negb (has_type b)) &&
  (if has_id a then has_id b && (id a =? id b) else negb (has_id b)).

Definition HasSomeDetails (name : ParsedName) : bool :=
  has_job name || has_replica name || has_task name || has_type name || has_id name.

Definition IsJobName (s : string) : bool :=
  match s with String c _ => IsAlpha c && all_of IsAlphaNumOrUnderscore s | EmptyString => false end.

(** The value consumed and the rest of the text. *)
Definition ConsumePrefix (terminators : ascii -> bool) (s : string) : option (string * string) :=
  match s with
  | String c _ =>
      if IsAlpha c then
        let '(out, rest) := split_at terminators s in
        if all_of IsAlphaNumOrUnderscore out then Some (out, rest) else None
      else None
  | EmptyString => None
  end.

Definition ConsumeJobName : string -> option (string * string) :=
  ConsumePrefix (fun c => Ascii.eqb c "/").
Definition ConsumeDeviceType : string -> option (string * string) :=
  ConsumePrefix (fun c => Ascii.eqb c "/" || Ascii.eqb c ":").

(** [*val = tmp] converts to [int]. *)
Definition ConsumeNumber (s : string) : option (Z * string) :=
  match ConsumeLeadingDigits s with Some (tmp, rest) => Some (i32 tmp, rest) | None => None end.

(** ** Names from their parts *)

Definition DeviceName (job : string) (replica task : Z) (device_prefix device_type : string) (id : Z) :
    result string :=
  CHECK (IsJobName job);;
  CHECK (0 <=? replica);;
  CHECK (0 <=? task);;
  CHECK (negb (String.eqb device_type ""));;
  CHECK (0 <=? id);;
  mret ("/job:" +:+ job +:+ "/replica:" +:+ pretty replica +:+ "/task:" +:+ pretty task +:+
        device_prefix +:+ device_type +:+ ":" +:+ pretty id).

Definition FullName (job : string) (replica task : Z) (type : string) (id : Z) : result string :=
  DeviceName job replica task "/device:" type id.

Definition AsciiToLower (c : ascii) : ascii :=
  if char_between "A" "Z" c then ascii_of_N (N_of_ascii c + 32) else c.

Fixpoint AsciiStrToLower (s : string) : string :=
  match s with String c s => String (AsciiToLower c) (AsciiStrToLower s) | EmptyString => "" end.

Definition LegacyName (job : string) (replica task : Z) (type : string) (id : Z) : result string :=
  DeviceName job replica task "/" (AsciiStrToLower type) id.

Definition LocalName (type : string) (id : Z) : string := "/device:" +:+ type +:+ ":" +:+ pretty id.
Definition LegacyLocalName (type : string) (id : Z) : string := type +:+ ":" +:+ pretty id.

(** ** The parser *)

(** Inside the loop of [ParseFullName]: [progress], the text left and the name;
    [inl p] is [return false] with [p] as it is then. *)
Definition parse_state : Type := bool * string * ParsedName.

#[export] Instance sum_bind {E} : MBind (sum E) := fun A B f x =>
  match x with inl e => inl e | inr a => f a end.

(** A value or "*". *)
Definition parse_value {A} (consume : string -> option (A * string)) (set_has : bool -> ParsedName -> ParsedName)
    (set : A -> ParsedName -> ParsedName) (fullname : string) (p : ParsedName) : ParsedName + parse_state :=
  match strip_prefix "*" fullname with
  | Some fullname => inr (true, fullname, set_has false p)
  | None =>
      let p := set_has true p in
      match consume fullname with
      | Some (v, fullname) => inr (true, fullname, set v p)
      | None => inl p
      end
  end.

Definition parse_job (st : parse_state) : ParsedName + parse_state :=
  let '(progress, fullname, p) := st in
  match strip_prefix "/job:" fullname with
  | Some fullname => parse_value ConsumeJobName set_has_job set_job fullname p
  | None => inr st
  end.

Definition parse_replica (st : parse_state) : ParsedName + parse_state :=
  let '(progress, fullname, p) := st in
  match strip_prefix "/replica:" fullname with
  | Some fullname => parse_value ConsumeNumber set_has_replica set_replica fullname p
  | None => inr st
  end.

Definition parse_task (st : parse_state) : ParsedName + parse_state :=
  let '(progress, fullname, p) := st in
  match strip_prefix "/task:" fullname with
  | Some fullname => parse_value ConsumeNumber set_has_task set_task fullname p
  | None => inr st
  end.

Definition parse_device (st : parse_state) : ParsedName + parse_state :=
  let '(progress, fullname, p) := st in
  match strip_prefix "/device:" fullname with
  | Some fullname =>
      '(_, fullname, p) ← parse_value ConsumeDeviceType set_has_type set_type fullname p;
      match strip_prefix ":" fullname with
      | None => inr (true, fullname, set_has_id false p)
      | Some fullname => parse_value ConsumeNumber set_has_id set_id fullname p
      end
  | None => inr st
  end.

(** The legacy names of one device type, in lower or upper case. *)
Definition parse_legacy (lower upper device_type : string) (st : parse_state) : ParsedName + parse_state :=
  let '(progress, fullname, p) := st in
  match (match strip_prefix lower fullname with
         | Some fullname => Some fullname
         | None => strip_prefix upper fullname
         end) with
  | Some fullname =>
      parse_value ConsumeNumber set_has_id set_id fullname (set_type device_type (set_has_type true p))
  | None => inr st
  end.

Definition parse_pass (fullname : string) (p : ParsedName) : ParsedName + parse_state :=
  st ← parse_job (false, fullname, p);
  st ← parse_replica st;
  st ← parse_task st;
  st ← parse_device st;
  st ← parse_legacy "/cpu:" "/CPU:" "CPU" st;
  parse_legacy "/gpu:" "/GPU:" "GPU" st.

Fixpoint parse_loop (fuel : nat) (fullname : string) (p : ParsedName) : result (bool * ParsedName) :=
  match fullname with
  | EmptyString => Ok (true, p)
  | _ =>
      match fuel with
      | O => Fault NoFuel
      | Datatypes.S fuel =>
          match parse_pass fullname p with
          | inl p => Ok (false, p)
          | inr (progress, fullname, p) =>
              if negb progress then Ok (false, p) else parse_loop fuel fullname p
          end
      end
  end.

Definition ParseFullName (fullname : string) : result (bool * ParsedName) :=
  if String.eqb fullname "/" then Ok (true, Clear)
  else parse_loop (String.length fullname) fullname Clear.

Definition ParseLocalName (name : string) (p : ParsedName) : bool * ParsedName :=
  match ConsumeDeviceType name with
  | None => (false, p)
  | Some (t, name) =>
      let p := set_has_type true (set_type t p) in
      match strip_prefix ":" name with
      | None => (false, p)
      | Some name =>
          match ConsumeNumber name with
          | None => (false, p)
          | Some (i, name) => (String.eqb name "", set_has_id true (set_id i p))
          end
      end
  end.

Definition ParseFullOrLocalName (fullname : string) : result (bool * ParsedName) :=
  '(ok, p) ← ParseFullName fullname;
  mret (if (ok : bool) then (true, p) else ParseLocalName fullname p).

Definition ParsedNameToString (pn : ParsedName) : string :=
  (if has_job pn then "/job:" +:+ job pn else "") +:+
  (if has_replica pn then "/replica:" +:+ pretty (replica pn) else "") +:+
  (if has_task pn then "/task:" +:+ pretty (task pn) else "") +:+
  (if has_type pn then "/device:" +:+ type pn +:+ ":" +:+ (if has_id pn then pretty (id pn) else "*")
   else "").

Definition CompleteName (parsed_basename p : ParsedName) : ParsedName :=
  let p := if negb (has_job p) then set_has_job true (set_job (job parsed_basename) p) else p in
  let p := if negb (has_replica p)
           then set_has_replica true (set_replica (replica parsed_basename) p) else p in
  let p := if negb (has_task p) then set_has_task true (set_task (task parsed_basename) p) else p in
  let p := if negb (has_type p) then set_has_type true (set_type (type parsed_basename) p) else p in
  if negb (has_id p) then set_has_id true (set_id (id parsed_basename) p) else p.

Definition fully_specified (p : ParsedName) : bool :=
  has_job p && has_replica p && has_task p && has_type p && has_id p.

(** The status and [*canonical_name]. *)
Definition CanonicalizeDeviceName (fullname basename : string) : result (Status * string) :=
  '(ok, parsed_basename) ← ParseFullName basename;
  if negb ok then
    mret (InvalidArgument ("Could not parse basename: " +:+ basename +:+ " into a device specification."), "")
  else if negb (fully_specified parsed_basename) then
    mret (InvalidArgument ("Basename: " +:+ basename +:+ " should be fully specified."), "")
  else
    let '(ok, parsed_name) := ParseLocalName fullname Clear in
    if (ok : bool) then mret (Status_OK, ParsedNameToString (CompleteName parsed_basename parsed_name))
    else
      '(ok, parsed_name) ← ParseFullName fullname;
      if (ok : bool) then mret (Status_OK, ParsedNameToString (CompleteName parsed_basename parsed_name))
      else mret (InvalidArgument ("Could not parse " +:+ fullname +:+ " into a device specification."), "").

(** ** Relations on names *)

Definition IsSpecification (less_specific more_specific : ParsedName) : bool :=
  if has_job less_specific
     && (negb (has_job more_specific) || negb (String.eqb (job less_specific) (job more_specific)))
  then false
  else if has_replica less_specific
     && (negb (has_replica more_specific) || negb (replica less_specific =? replica more_specific))
  then false
  else if has_task less_specific
     && (negb (has_task more_specific) || negb (task less_specific =? task more_specific))
  then false
  else if has_type less_specific
     && (negb (has_type more_specific) || negb (String.eqb (type less_specific) (type more_specific)))
  then false
  else if has_id less_specific
     && (negb (has_id more_specific) || negb (id less_specific =? id more_specific))
  then false
  else true.

Definition AreCompatibleDevNames (a b : ParsedName) : bool :=
  if has_job a && has_job b && negb (String.eqb (job a) (job b)) then false
  else if has_replica a && has_replica b && negb (replica a =? replica b) then false
  else if has_task a && has_task b && negb (task a =? task b) then false
  else if has_type a && has_type b && negb (String.eqb (type a) (type b)) then false
  else if has_id a && has_id b && negb (id a =? id b) then false
  else true.

(** The new value of [*more_specific]. *)
Definition EnsureSpecification (more_specific less_specific : ParsedName) : ParsedName :=
  let p := more_specific in
  let p := if has_job less_specific then set_job (job less_specific) (set_has_job true p) else p in
  let p := if has_replica less_specific
           then set_replica (replica less_specific) (set_has_replica true p) else p in
  let p := if has_task less_specific then set_task (task less_specific) (set_has_task true p) else p in
  let p := if has_type less_specific then set_type (type less_specific) (set_has_type true p) else p in
  if has_id less_specific then set_id (id less_specific) (set_has_id true p) else p.

Definition IsCompleteSpecification (pattern name : ParsedName) : result bool :=
  CHECK (has_job name && has_replica name && has_task name && has_type name && has_id name);;
  mret (if has_job pattern && negb (String.eqb (job pattern) (job name)) then false
        else if has_replica pattern && negb (replica pattern =? replica name) then false
        else if has_task pattern && negb (task pattern =? task name) then false
        else if has_type pattern && negb (String.eqb (type pattern) (type name)) then false
        else if has_id pattern && negb (id pattern =? id name) then false
        else true).

(** ** Merging: the status and the new value of [*target] *)

Definition incompatible (what : string) (target other : ParsedName) : Status :=
  InvalidArgument ("Cannot merge devices with incompatible " +:+ what +:+ ": '" +:+
    ParsedNameToString target +:+ "' and '" +:+ ParsedNameToString other +:+ "'").

Definition merge_job (target other : ParsedName) : (Status * ParsedName) + ParsedName :=
  if has_job other then
    if has_job target && negb (String.eqb (job target) (job other))
    then inl (incompatible "jobs" target other, target)
    else inr (set_job (job other) (set_has_job (has_job other) target))
  else inr target.

Definition merge_replica (target other : ParsedName) : (Status * ParsedName) + ParsedName :=
  if has_replica other then
    if has_replica target && negb (replica target =? replica other)
    then inl (incompatible "replicas" target other, target)
    else inr (set_replica (replica other) (set_has_replica (has_replica other) target))
  else inr target.

Definition merge_task (target other : ParsedName) : (Status * ParsedName) + ParsedName :=
  if has_task other then
    if has_task target && negb (task target =? task other)
    then inl (incompatible "tasks" target other, target)
    else inr (set_task (task other) (set_has_task (has_task other) target))
  else inr target.

Definition merge_type (allow_soft_placement override_conflicts : bool) (target other : ParsedName) :
    (Status * ParsedName) + ParsedName :=
  if has_type other then
    if has_type target && negb (String.eqb (type target) (type other)) then
      if negb allow_soft_placement then inl (incompatible "types" target other, target)
      else if override_conflicts then inr (set_type (type other) target)
      else inl (Status_OK, set_has_type false (set_has_id false target))
    else inr (set_type (type other) (set_has_type (has_type other) target))
  else inr target.

Definition merge_id (allow_soft_placement override_conflicts : bool) (target other : ParsedName) :
    (Status * ParsedName) + ParsedName :=
  if has_id other then
    if has_id target && negb (id target =? id other) then
      if negb allow_soft_placement then inl (incompatible "ids" target other, target)
      else if override_conflicts then inr (set_id (id other) target)
      else inl (Status_OK, set_has_id false target)
    else inr (set_id (id other) (set_has_id (has_id other) target))
  else inr target.

Definition MergeDevNamesImpl (target other : ParsedName) (allow_soft_placement override_conflicts : bool) :
    Status * ParsedName :=
  match (target ← merge_job target other;
         target ← merge_replica target other;
         target ← merge_task target other;
         target ← merge_type allow_soft_placement override_conflicts target other;
         merge_id allow_soft_placement override_conflicts target other) with
  | inl returned => returned
  | inr target => (Status_OK, target)
  end.

Definition MergeDevNames (target other : ParsedName) (allow_soft_placement : bool) : Status * ParsedName :=
  MergeDevNamesImpl target other allow_soft_placement false.

Definition MergeOverrideDevNames (target other : ParsedName) : Status * ParsedName :=
  MergeDevNamesImpl target other true true.

Definition MergeUnsetDevNames (target other : ParsedName) : ParsedName :=
  let p := target in
  let p := if has_job other && negb (has_job p)
           then set_job (job other) (set_has_job (has_job other) p) else p in
  let p := if has_replica other && negb (has_replica p)
           then set_replica (replica other) (set_has_replica (has_replica other) p) else p in
  let p := if has_task other && negb (has_task p)
           then set_task (task other) (set_has_task (has_task other) p) else p in
  let p := if has_type other && negb (has_type p)
           then set_type (type other) (set_has_type (has_type other) p) else p in
  if has_id other && negb (has_id p) then set_id (id other) (set_has_id (has_id other) p) else p.

(** ** Address spaces *)

Definition IsSameAddressSpace (a b : ParsedName) : bool :=
  (has_job a && has_job b && String.eqb (job a) (job b)) &&
  (has_replica a && has_replica b && (replica a =? replica b)) &&
  (has_task a && has_task b && (task a =? task b)).

Definition IsSameAddressSpace_names (src dst : string) : result bool :=
  '(ok, x) ← ParseFullName src;
  if negb ok then mret false
  else
    '(ok, y) ← ParseFullName dst;
    mret (if (ok : bool) then IsSameAddressSpace x y else false).

Definition IsDifferentAddressSpace (a b : ParsedName) : bool :=
  (has_job a && has_job b && negb (String.eqb (job a) (job b))) ||
  (has_replica a && has_replica b && negb (replica a =? replica b)) ||
  (has_task a && has_task b && negb (task a =? task b)).

Definition AddressSpace (name : ParsedName) : ParsedName :=
  mk_ParsedName (has_job name) (job name) (has_replica name) (replica name) (has_task name) (task name)
    false "" false 0.

(** ** Other names of a device *)

Definition LocalName_of (fullname : string) : result string :=
  '(ok, x) ← ParseFullName fullname;
  CHECK ok;;
  mret (LocalName (type x) (id x)).

Definition task_name (pn : ParsedName) : string :=
  (if has_job pn then "/job:" +:+ job pn else "") +:+
  (if has_replica pn then "/replica:" +:+ pretty (replica pn) else "") +:+
  (if has_task pn then "/task:" +:+ pretty (task pn) else "").

(** The task and the device where the result of the source is true. *)
Definition SplitDeviceName (name : string) : result (option (string * string)) :=
  '(ok, pn) ← ParseFullName name;
  mret (if (ok : bool) && has_type pn && has_id pn
        then Some (task_name pn, type pn +:+ ":" +:+ pretty (id pn)) else None).

Definition GetTaskName (pn : ParsedName) : option string :=
  if has_job pn && has_replica pn && has_task pn then
    Some ("/job:" +:+ job pn +:+ "/replica:" +:+ pretty (replica pn) +:+ "/task:" +:+ pretty (task pn))
  else None.

Definition GetNamesForDeviceMappings (pn : ParsedName) : result (list string) :=
  if has_job pn && has_replica pn && has_task pn && has_type pn && has_id pn then
    full ← FullName (job pn) (replica pn) (task pn) (type pn) (id pn);
    legacy ← LegacyName (job pn) (replica pn) (task pn) (type pn) (id pn);
    mret [full; legacy]
  else mret [].

Definition GetLocalNamesForDeviceMappings (pn : ParsedName) : list string :=
  if has_type pn && has_id pn then [LocalName (type pn) (id pn); LegacyLocalName (type pn) (id pn)] else [].

(** The status and [*host_device_name], where it is assigned. *)
Definition DeviceNameToCpuDeviceName (device_name : string) : result (Status * option string) :=
  '(ok, device) ← ParseFullName device_name;
  mret (if negb ok then (mk_Status TF_INTERNAL ("Could not parse device name " +:+ device_name), None)
        else (Status_OK, Some (ParsedNameToString
                (set_has_id true (set_id 0 (set_has_type true (set_type "CPU" device))))))).
