(* ===== verification/DeviceNameProofs.v ===== *)
(** * Theorems on device names

    The parser terminates on every text; the names that survive printing and
    parsing are characterised; names are ordered by specification, and merging
    is the least upper bound. *)

From Stdlib Require Import Ascii.
From S2P Require Import Prelude Text DeviceName.
#[local] Open Scope string_scope.
#[local] Open Scope Z_scope.

(** ** The parser terminates *)

Lemma strip_prefix_length p s r : strip_prefix p s = Some r ->
  String.length s = (String.length p + String.length r)%nat.
Proof.
  revert s. induction p as [|c p IH]; intros [|d s]; simpl; try by intros [= <-].
  destruct (Ascii.eqb c d); [|done]. intros H. by rewrite (IH _ H).
Qed.

Lemma split_at_length t s : (String.length (split_at t s).2 <= String.length s)%nat.
Proof.
  induction s as [|c s IH]; simpl; [lia|]. destruct (t c); simpl; [lia|].
  destruct (split_at t s). simpl in *. lia.
Qed.

Lemma ConsumePrefix_length t s v r :
  ConsumePrefix t s = Some (v, r) -> (String.length r <= String.length s)%nat.
Proof.
  unfold ConsumePrefix. destruct s as [|c s]; [done|]. destruct (IsAlpha c); [|done].
  pose proof (split_at_length t (String c s)). destruct (split_at t (String c s)) as [a b].
  destruct (all_of _ a); [|done]. by intros [= _ <-].
Qed.

Lemma decimal_length s v : (String.length (decimal s v).2 <= String.length s)%nat.
Proof.
  revert v. induction s as [|c s IH]; intros v; simpl; [lia|]. destruct (is_digit c); [|done].
  specialize (IH (v * 10 + digit_value c)). lia.
Qed.

Lemma ConsumeNumber_length s v r : ConsumeNumber s = Some (v, r) -> (String.length r <= String.length s)%nat.
Proof.
  unfold ConsumeNumber, ConsumeLeadingDigits. rewrite digits_loop_spec by lia.
  pose proof (decimal_length s 0). destruct (decimal s 0) as [w rest]. simpl in *.
  destruct (w <? 2 ^ 64); [|done]. destruct (starts_with_digit s); [|done]. by intros [= _ <-].
Qed.

(** A section leaves the state alone or makes progress on a shorter text. *)
Definition advances (st st' : parse_state) : Prop :=
  st' = st \/ (st'.1.1 = true /\ (String.length st'.1.2 < String.length st.1.2)%nat).

Lemma advances_trans a b c : advances a b -> advances b c -> advances a c.
Proof.
  intros [->|[Hb Hab]]; [done|]. intros [->|[Hc Hbc]]; right; [done|]. split; [done|lia].
Qed.

Lemma parse_value_length {A} (consume : string -> option (A * string)) set_has set s p st :
  (forall s v r, consume s = Some (v, r) -> (String.length r <= String.length s)%nat) ->
  parse_value consume set_has set s p = inr st ->
  st.1.1 = true /\ (String.length st.1.2 <= String.length s)%nat.
Proof.
  intros Hc. unfold parse_value. destruct (strip_prefix "*" s) as [r|] eqn:E.
  - intros [= <-]. apply strip_prefix_length in E. simpl in *. split; [done|lia].
  - destruct (consume s) as [[v r]|] eqn:Ec; [|done]. intros [= <-]. simpl. eauto.
Qed.

Lemma field_advances {A} prefix (consume : string -> option (A * string)) set_has set pr s p0 p st :
  prefix <> "" ->
  (forall s v r, consume s = Some (v, r) -> (String.length r <= String.length s)%nat) ->
  match strip_prefix prefix s with
  | Some r => parse_value consume set_has set r p
  | None => inr (pr, s, p0)
  end = inr st -> advances (pr, s, p0) st.
Proof.
  intros Hp Hc. destruct (strip_prefix prefix s) as [r|] eqn:E; [|intros [= <-]; by left].
  intros [H1 H2]%parse_value_length; [|done]. apply strip_prefix_length in E.
  right. simpl. split; [done|]. destruct prefix; [done|simpl in *; lia].
Qed.

Lemma parse_job_advances st st' : parse_job st = inr st' -> advances st st'.
Proof. destruct st as [[pr s] p]. apply field_advances; [done|apply ConsumePrefix_length]. Qed.

Lemma parse_replica_advances st st' : parse_replica st = inr st' -> advances st st'.
Proof. destruct st as [[pr s] p]. apply field_advances; [done|apply ConsumeNumber_length]. Qed.

Lemma parse_task_advances st st' : parse_task st = inr st' -> advances st st'.
Proof. destruct st as [[pr s] p]. apply field_advances; [done|apply ConsumeNumber_length]. Qed.

Lemma parse_device_advances st st' : parse_device st = inr st' -> advances st st'.
Proof.
  destruct st as [[pr s] p]. unfold parse_device. destruct (strip_prefix "/device:" s) as [r|] eqn:E.
  2:{ intros [= <-]. by left. }
  apply strip_prefix_length in E. unfold mbind, sum_bind.
  destruct (parse_value ConsumeDeviceType _ _ r p) as [|[[pr1 s1] p1]] eqn:E1; [done|].
  apply parse_value_length in E1 as [_ H1]; [|apply ConsumePrefix_length].
  destruct (strip_prefix ":" s1) as [s2|] eqn:E2.
  - intros H. apply parse_value_length in H as [H2 H3]; [|apply ConsumeNumber_length].
    apply strip_prefix_length in E2. right. simpl in *. split; [done|lia].
  - intros [= <-]. right. simpl in *. split; [done|lia].
Qed.

Lemma parse_legacy_advances lower upper t st st' :
  lower <> "" -> upper <> "" -> parse_legacy lower upper t st = inr st' -> advances st st'.
Proof.
  intros Hl Hu. destruct st as [[pr s] p]. unfold parse_legacy. destruct (strip_prefix lower s) eqn:E.
  - intros H. apply (field_advances lower ConsumeNumber set_has_id set_id pr s p
      (set_type t (set_has_type true p))); [done|apply ConsumeNumber_length|by rewrite E].
  - destruct (strip_prefix upper s) as [r|] eqn:E'.
    + intros H. apply (field_advances upper ConsumeNumber set_has_id set_id pr s p
        (set_type t (set_has_type true p))); [done|apply ConsumeNumber_length|by rewrite E'].
    + intros [= <-]. by left.
Qed.

Lemma parse_pass_advances s p pr s' p' :
  parse_pass s p = inr (pr, s', p') -> pr = true -> (String.length s' < String.length s)%nat.
Proof.
  unfold parse_pass, mbind, sum_bind. intros H Hpr.
  destruct (parse_job _) as [|st1] eqn:E1; [done|]. apply parse_job_advances in E1.
  destruct (parse_replica _) as [|st2] eqn:E2; [done|]. apply parse_replica_advances in E2.
  destruct (parse_task _) as [|st3] eqn:E3; [done|]. apply parse_task_advances in E3.
  destruct (parse_device _) as [|st4] eqn:E4; [done|]. apply parse_device_advances in E4.
  destruct (parse_legacy "/cpu:" _ _ _) as [|st5] eqn:E5; [done|].
  apply parse_legacy_advances in E5; [|done|done]. apply parse_legacy_advances in H; [|done|done].
  assert (advances (false, s, p) (pr, s', p')) as [Heq|[_ Hlt]].
  { do 5 (eapply advances_trans; [eassumption|]). exact H. }
  - congruence.
  - done.
Qed.

Lemma parse_loop_total fuel s p :
  (String.length s <= fuel)%nat -> exists r, parse_loop fuel s p = Ok r.
Proof.
  revert s p. induction fuel as [|fuel IH]; intros [|c s] p Hf; cbn [parse_loop]; try (by eexists).
  { simpl in Hf. lia. }
  destruct (parse_pass (String c s) p) as [|[[[] s'] p']] eqn:E; cbn [negb]; [by eexists| |by eexists].
  apply parse_pass_advances in E; [|done]. apply IH. simpl in *. lia.
Qed.

(** the parser of full names terminates on every text: each pass of its
    loop but the last consumes some of it. *)
Theorem ParseFullName_total s : exists ok p, ParseFullName s = Ok (ok, p).
Proof.
  unfold ParseFullName. destruct (String.eqb s "/"); [by do 2 eexists|].
  destruct (parse_loop_total (String.length s) s Clear) as [[ok p] E]; [lia|]. eauto.
Qed.

(** ** The parser inverts the printer *)

(** The end of the text or the next field. *)
Definition next_field (s : string) : Prop :=
  match s with EmptyString => True | String c _ => c = "/"%char end.

Lemma next_field_digit s : next_field s -> starts_with_digit s = false.
Proof. destruct s as [|c s]; [done|]. by intros ->. Qed.

Lemma alnum_not_special c :
  IsAlphaNumOrUnderscore c = true -> negb (Ascii.eqb c "/" || Ascii.eqb c ":") = true.
Proof. destruct c as [[] [] [] [] [] [] [] []]; done. Qed.

Lemma alpha_not_star c : IsAlpha c = true -> Ascii.eqb "*" c = false.
Proof. destruct c as [[] [] [] [] [] [] [] []]; done. Qed.

Lemma digit_not_star c : is_digit c = true -> Ascii.eqb "*" c = false.
Proof. destruct c as [[] [] [] [] [] [] [] []]; done. Qed.

Lemma strip_star c s : Ascii.eqb "*" c = false -> strip_prefix "*" (String c s) = None.
Proof.
  intros H. change (strip_prefix "*" (String c s)) with (if Ascii.eqb "*" c then strip_prefix "" s else None).
  by rewrite H.
Qed.

Lemma ConsumePrefix_name t a b :
  (forall c, IsAlphaNumOrUnderscore c = true -> negb (t c) = true) ->
  IsJobName a = true -> match b with String c _ => t c | EmptyString => true end = true ->
  strip_prefix "*" (a +:+ b) = None /\ ConsumePrefix t (a +:+ b) = Some (a, b).
Proof.
  intros Ht Ha Hb. destruct a as [|c a]; [done|].
  assert (IsAlpha c = true /\ all_of IsAlphaNumOrUnderscore (String c a) = true) as [Hc Hall]
    by by apply andb_true_iff in Ha.
  split; [by apply strip_star; rewrite alpha_not_star|].
  unfold ConsumePrefix. change (String c a +:+ b) with (String c (a +:+ b)). cbv iota beta.
  rewrite Hc. change (String c (a +:+ b)) with (String c a +:+ b).
  rewrite (split_at_app t (String c a) b), Hall; [done| |done].
  by eapply all_of_impl; [|exact Hall].
Qed.

Lemma ConsumeNumber_pretty z s : 0 <= z < 2 ^ 31 -> starts_with_digit s = false ->
  strip_prefix "*" (pretty z +:+ s) = None /\ ConsumeNumber (pretty z +:+ s) = Some (z, s).
Proof.
  intros Hz Hs. unfold ConsumeNumber. rewrite ConsumeLeadingDigits_pretty by (done || lia).
  rewrite i32_small by lia. split; [|done].
  destruct (decimal_pretty z s ltac:(lia) Hs) as [_ Hd].
  destruct (pretty z +:+ s) as [|c r]; [done|]. by apply strip_star, digit_not_star.
Qed.

Lemma parse_name_value t set_has set a b p :
  (forall c, IsAlphaNumOrUnderscore c = true -> negb (t c) = true) ->
  IsJobName a = true -> match b with String c _ => t c | EmptyString => true end = true ->
  parse_value (ConsumePrefix t) set_has set (a +:+ b) p = inr (true, b, set a (set_has true p)).
Proof.
  intros Ht Ha Hb. unfold parse_value. destruct (ConsumePrefix_name t a b Ht Ha Hb) as [-> ->]. done.
Qed.

Lemma parse_number_value set_has set z s p : 0 <= z < 2 ^ 31 -> next_field s ->
  parse_value ConsumeNumber set_has set (pretty z +:+ s) p = inr (true, s, set z (set_has true p)).
Proof.
  intros Hz Hs%next_field_digit. unfold parse_value.
  by destruct (ConsumeNumber_pretty z s Hz Hs) as [-> ->].
Qed.

Lemma alnum_not_slash c : IsAlphaNumOrUnderscore c = true -> negb (Ascii.eqb c "/") = true.
Proof. intros H%alnum_not_special. by destruct (Ascii.eqb c "/"). Qed.

Lemma parse_job_field pr j s p : IsJobName j = true -> next_field s ->
  parse_job (pr, "/job:" +:+ (j +:+ s), p) = inr (true, s, set_job j (set_has_job true p)).
Proof.
  intros Hj Hs. unfold parse_job. rewrite strip_prefix_app. apply parse_name_value; [|done|].
  - apply alnum_not_slash.
  - destruct s as [|c s]; [done|]. by rewrite Hs.
Qed.

Lemma parse_replica_field pr z s p : 0 <= z < 2 ^ 31 -> next_field s ->
  parse_replica (pr, "/replica:" +:+ (pretty z +:+ s), p) =
    inr (true, s, set_replica z (set_has_replica true p)).
Proof. intros Hz Hs. unfold parse_replica. rewrite strip_prefix_app. by apply parse_number_value. Qed.

Lemma parse_task_field pr z s p : 0 <= z < 2 ^ 31 -> next_field s ->
  parse_task (pr, "/task:" +:+ (pretty z +:+ s), p) = inr (true, s, set_task z (set_has_task true p)).
Proof. intros Hz Hs. unfold parse_task. rewrite strip_prefix_app. by apply parse_number_value. Qed.

Lemma string_app_nil s : s +:+ "" = s.
Proof. induction s as [|c s IH]; [done|]. change (String c (s +:+ "") = String c s). by rewrite IH. Qed.

Lemma parse_device_field pr t hid z p : IsJobName t = true -> (hid = true -> 0 <= z < 2 ^ 31) ->
  parse_device (pr, "/device:" +:+ (t +:+ (":" +:+ (if hid then pretty z else "*"))), p) =
    inr (true, "", let p := set_type t (set_has_type true p) in
                   if hid then set_id z (set_has_id true p) else set_has_id false p).
Proof.
  intros Ht Hz. unfold parse_device, ConsumeDeviceType. rewrite strip_prefix_app.
  rewrite parse_name_value; [|apply alnum_not_special|done|done].
  cbn [mbind sum_bind]. rewrite strip_prefix_app. destruct hid; [|done].
  rewrite <- (string_app_nil (pretty z)). by apply parse_number_value; [apply Hz|].
Qed.

(** A name that the printer keeps: valid parts, an id only with a type, and
    nothing in the parts that are not there. *)
Record name_wf (p : ParsedName) : Prop := {
  nw_job : if has_job p then IsJobName (job p) = true else job p = "";
  nw_replica : if has_replica p then 0 <= replica p < 2 ^ 31 else replica p = 0;
  nw_task : if has_task p then 0 <= task p < 2 ^ 31 else task p = 0;
  nw_type : if has_type p then IsJobName (type p) = true else type p = "" /\ has_id p = false;
  nw_id : if has_id p then 0 <= id p < 2 ^ 31 else id p = 0 }.

(** The parts of the printed name. *)
Definition job_part (p : ParsedName) : string := if has_job p then "/job:" +:+ job p else "".
Definition replica_part (p : ParsedName) : string :=
  if has_replica p then "/replica:" +:+ pretty (replica p) else "".
Definition task_part (p : ParsedName) : string := if has_task p then "/task:" +:+ pretty (task p) else "".
Definition device_part (p : ParsedName) : string :=
  if has_type p then "/device:" +:+ type p +:+ ":" +:+ (if has_id p then pretty (id p) else "*") else "".

Lemma parse_job_part p s q : (has_job p = true -> IsJobName (job p) = true) ->
  next_field s -> strip_prefix "/job:" s = None ->
  parse_job (false, job_part p +:+ s, q) =
    inr (has_job p, s, if has_job p then set_job (job p) (set_has_job true q) else q).
Proof.
  intros Hj Hs Hskip. unfold job_part. destruct (has_job p).
  - apply (parse_job_field false (job p) s q); auto.
  - unfold parse_job. change ("" +:+ s) with s. by rewrite Hskip.
Qed.

Lemma parse_replica_part p pr s q : (has_replica p = true -> 0 <= replica p < 2 ^ 31) ->
  next_field s -> strip_prefix "/replica:" s = None ->
  parse_replica (pr, replica_part p +:+ s, q) =
    inr (pr || has_replica p, s, if has_replica p then set_replica (replica p) (set_has_replica true q) else q).
Proof.
  intros Hr Hs Hskip. unfold replica_part. destruct (has_replica p).
  - rewrite orb_true_r. apply (parse_replica_field pr (replica p) s q); auto.
  - unfold parse_replica. change ("" +:+ s) with s. by rewrite Hskip, orb_false_r.
Qed.

Lemma parse_task_part p pr s q : (has_task p = true -> 0 <= task p < 2 ^ 31) ->
  next_field s -> strip_prefix "/task:" s = None ->
  parse_task (pr, task_part p +:+ s, q) =
    inr (pr || has_task p, s, if has_task p then set_task (task p) (set_has_task true q) else q).
Proof.
  intros Ht Hs Hskip. unfold task_part. destruct (has_task p).
  - rewrite orb_true_r. apply (parse_task_field pr (task p) s q); auto.
  - unfold parse_task. change ("" +:+ s) with s. by rewrite Hskip, orb_false_r.
Qed.

Lemma parse_device_part p pr q : (has_type p = true -> IsJobName (type p) = true) ->
  (has_type p = true -> has_id p = true -> 0 <= id p < 2 ^ 31) ->
  parse_device (pr, device_part p, q) =
    inr (pr || has_type p, "",
         if has_type p then
           let q := set_type (type p) (set_has_type true q) in
           if has_id p then set_id (id p) (set_has_id true q) else set_has_id false q
         else q).
Proof.
  intros Ht Hi. unfold device_part. destruct (has_type p).
  - rewrite orb_true_r. apply (parse_device_field pr (type p) (has_id p) (id p) q); auto.
  - simpl. by rewrite orb_false_r.
Qed.

(** What a successful parse leaves: valid texts, and numbers that fit in [int]
    and may have wrapped to a negative one. *)
Record valid_parts (p : ParsedName) : Prop := {
  vp_job : has_job p = true -> IsJobName (job p) = true;
  vp_replica : has_replica p = true -> - 2 ^ 31 <= replica p < 2 ^ 31;
  vp_task : has_task p = true -> - 2 ^ 31 <= task p < 2 ^ 31;
  vp_type : has_type p = true -> IsJobName (type p) = true;
  vp_id : has_id p = true -> - 2 ^ 31 <= id p < 2 ^ 31 }.

(** The numbers are not negative, and an id comes with a type. *)
Definition printable (p : ParsedName) : bool :=
  (negb (has_replica p) || (0 <=? replica p)) && (negb (has_task p) || (0 <=? task p)) &&
  (negb (has_id p) || has_type p && (0 <=? id p)).

(** The parts that are printed; the others are as [Clear] leaves them. *)
Definition blank (p : ParsedName) : ParsedName :=
  mk_ParsedName
    (has_job p) (if has_job p then job p else "")
    (has_replica p) (if has_replica p then replica p else 0)
    (has_task p) (if has_task p then task p else 0)
    (has_type p) (if has_type p then type p else "")
    (has_type p && has_id p) (if has_type p && has_id p then id p else 0).

Lemma print_blank p : ParsedNameToString (blank p) = ParsedNameToString p.
Proof. unfold ParsedNameToString, blank. simpl. by destruct p as [[] ? [] ? [] ? [] ? [] ?]. Qed.

(** No number that is printed is negative. *)
Definition prints_naturals (p : ParsedName) : Prop :=
  (has_replica p = true -> 0 <= replica p) /\ (has_task p = true -> 0 <= task p) /\
  (has_type p = true -> has_id p = true -> 0 <= id p).

Lemma blank_wf p : valid_parts p -> prints_naturals p -> name_wf (blank p).
Proof.
  intros [Hj Hr Ht Hty Hi] (Nr & Nt & Ni). destruct p as [[] j [] r [] t [] ty [] i]; simpl in *;
    split; simpl; try specialize (Hr eq_refl); try specialize (Ht eq_refl);
    try specialize (Hi eq_refl); try specialize (Nr eq_refl); try specialize (Nt eq_refl);
    try specialize (Ni eq_refl eq_refl); auto; lia.
Qed.

Lemma parse_pass_print p : name_wf p ->
  parse_pass (ParsedNameToString p) Clear = inr (HasSomeDetails p, "", p).
Proof.
  intros [Hj Hr Ht Hty Hi]. unfold parse_pass, ParsedNameToString.
  fold (job_part p) (replica_part p) (task_part p) (device_part p).
  rewrite parse_job_part; [cbn [mbind sum_bind]|by intros E; rewrite E in Hj|..];
    [|by unfold replica_part, task_part, device_part; destruct (has_replica p), (has_task p), (has_type p)..].
  rewrite parse_replica_part; [cbn [mbind sum_bind]|by intros E; rewrite E in Hr|..];
    [|by unfold task_part, device_part; destruct (has_task p), (has_type p)..].
  rewrite parse_task_part; [cbn [mbind sum_bind]|by intros E; rewrite E in Ht|..];
    [|by unfold device_part; destruct (has_type p)..].
  rewrite parse_device_part; [cbn [mbind sum_bind]|by intros E; rewrite E in Hty|by intros _ E; rewrite E in Hi].
  destruct p as [[] j [] r [] t [] ty [] i]; simpl in *;
    repeat match goal with H : _ /\ _ |- _ => destruct H end; by subst.
Qed.

Lemma parse_print p : name_wf p -> ParseFullName (ParsedNameToString p) = Ok (true, p).
Proof.
  intros Hwf. pose proof (parse_pass_print p Hwf) as E. unfold ParseFullName.
  destruct (HasSomeDetails p) eqn:Hd.
  - destruct (ParsedNameToString p) as [|c s] eqn:Es.
    + by injection E as E1 E2.
    + destruct (String.eqb_spec (String c s) "/") as [Heq|_]; [by rewrite Heq in E|].
      cbn [String.length parse_loop]. rewrite E. cbn [negb]. by destruct (String.length s).
  - destruct p as [[] j [] r [] t [] ty [] i]; try done.
    destruct Hwf as [Hj Hr Ht Hty Hi]. simpl in *. destruct Hty as [-> _]. by subst.
Qed.

(** A negative number is printed with its sign and does not parse. *)
Lemma parse_negative_value set_has set z s p : z < 0 ->
  parse_value ConsumeNumber set_has set (pretty z +:+ s) p = inl (set_has true p).
Proof. intros Hz. destruct z as [| |z]; [lia..|]. done. Qed.

Lemma int_natural (b : bool) z :
  (b = true -> - 2 ^ 31 <= z < 2 ^ 31) -> ~ (b = true /\ z < 0) -> b = true -> 0 <= z < 2 ^ 31.
Proof. intros Hz Hn E. specialize (Hz E). split; [apply Z.nlt_ge; auto|lia]. Qed.

Lemma parse_pass_negative p : valid_parts p -> ~ prints_naturals p ->
  exists q, parse_pass (ParsedNameToString p) Clear = inl q.
Proof.
  intros [Hj Hr Ht Hty Hi] Hn. unfold parse_pass, ParsedNameToString.
  fold (job_part p) (replica_part p) (task_part p) (device_part p).
  rewrite parse_job_part; [cbn [mbind sum_bind]|done|..];
    [|by unfold replica_part, task_part, device_part; destruct (has_replica p), (has_task p), (has_type p)..].
  destruct (decide (has_replica p = true /\ replica p < 0)) as [[E Hneg]|Hr'].
  { unfold replica_part at 1. rewrite E. unfold parse_replica.
    change (("/replica:" +:+ pretty (replica p)) +:+ (task_part p +:+ device_part p))
      with ("/replica:" +:+ (pretty (replica p) +:+ (task_part p +:+ device_part p))).
    rewrite strip_prefix_app, parse_negative_value by done. by eexists. }
  rewrite parse_replica_part; [cbn [mbind sum_bind]|by apply int_natural|..];
    [|by unfold task_part, device_part; destruct (has_task p), (has_type p)..].
  destruct (decide (has_task p = true /\ task p < 0)) as [[E Hneg]|Ht'].
  { unfold task_part at 1. rewrite E. unfold parse_task.
    change (("/task:" +:+ pretty (task p)) +:+ device_part p)
      with ("/task:" +:+ (pretty (task p) +:+ device_part p)).
    rewrite strip_prefix_app, parse_negative_value by done. by eexists. }
  rewrite parse_task_part; [cbn [mbind sum_bind]|by apply int_natural|..];
    [|by unfold device_part; destruct (has_type p)..].
  destruct (decide (has_type p = true /\ has_id p = true /\ id p < 0)) as [(E & E' & Hneg)|Hi'].
  2:{ exfalso. apply Hn. split_and!; intros; apply Z.nlt_ge; naive_solver. }
  unfold device_part. rewrite E, E'. unfold parse_device, ConsumeDeviceType.
  change ("/device:" +:+ type p +:+ ":" +:+ pretty (id p))
    with ("/device:" +:+ (type p +:+ (":" +:+ pretty (id p)))).
  rewrite strip_prefix_app, parse_name_value; [|apply alnum_not_special|auto|done].
  cbn [mbind sum_bind]. rewrite strip_prefix_app, <- (string_app_nil (pretty (id p))).
  rewrite parse_negative_value by done. by eexists.
Qed.

Lemma parse_negative p : valid_parts p -> ~ prints_naturals p ->
  exists q, ParseFullName (ParsedNameToString p) = Ok (false, q).
Proof.
  intros Hv Hn. destruct (parse_pass_negative p Hv Hn) as [q E]. unfold ParseFullName.
  destruct (String.eqb_spec (ParsedNameToString p) "/") as [Heq|_]; [by rewrite Heq in E|].
  destruct (ParsedNameToString p) as [|c s]; [done|].
  cbn [String.length parse_loop]. rewrite E. by eexists.
Qed.

(** *** What a parse leaves *)

Lemma ConsumePrefix_valid t s v r :
  (forall c, IsAlpha c = true -> t c = false) -> ConsumePrefix t s = Some (v, r) -> IsJobName v = true.
Proof.
  intros Ht. unfold ConsumePrefix. destruct s as [|c s]; [done|]. destruct (IsAlpha c) eqn:Hc; [|done].
  cbn [split_at]. rewrite Ht by done. destruct (split_at t s) as [a b].
  destruct (all_of _ _) eqn:Ha; [|done]. intros [= <- <-]. unfold IsJobName. by rewrite Hc, Ha.
Qed.

Lemma ConsumeJobName_valid s v r : ConsumeJobName s = Some (v, r) -> IsJobName v = true.
Proof. apply ConsumePrefix_valid. intros c. by destruct c as [[] [] [] [] [] [] [] []]. Qed.

Lemma ConsumeDeviceType_valid s v r : ConsumeDeviceType s = Some (v, r) -> IsJobName v = true.
Proof. apply ConsumePrefix_valid. intros c. by destruct c as [[] [] [] [] [] [] [] []]. Qed.

Lemma ConsumeNumber_int s v r : ConsumeNumber s = Some (v, r) -> - 2 ^ 31 <= v < 2 ^ 31.
Proof.
  unfold ConsumeNumber. destruct (ConsumeLeadingDigits s) as [[tmp rest]|]; [|done].
  intros [= <- <-]. unfold i32, to_signed. change (32 - 1) with 31.
  pose proof (Z.mod_pos_bound tmp (2 ^ 32) eq_refl).
  destruct (Z.ltb_spec (tmp `mod` 2 ^ 32) (2 ^ 31)); lia.
Qed.

(** Each field keeps the parts valid. *)
Lemma parse_value_valid {A} consume (set_has : bool -> ParsedName -> ParsedName)
    (set : A -> ParsedName -> ParsedName) s p pr r p' :
  valid_parts (set_has false p) ->
  (forall v s' r', consume s' = Some (v, r') -> valid_parts (set v (set_has true p))) ->
  parse_value consume set_has set s p = inr (pr, r, p') -> valid_parts p'.
Proof.
  intros Hf Hv. unfold parse_value. destruct (strip_prefix "*" s); [by intros [= _ _ <-]|].
  destruct (consume s) as [[v r0]|] eqn:E; [|done]. intros [= _ _ <-]. eauto.
Qed.

Ltac valid_part :=
  intros; constructor; simpl; intros; try done;
  eauto using ConsumeJobName_valid, ConsumeDeviceType_valid, ConsumeNumber_int.

Lemma parse_fields_valid st pr r p' : valid_parts st.2 ->
  parse_job st = inr (pr, r, p') \/ parse_replica st = inr (pr, r, p') \/
  parse_task st = inr (pr, r, p') \/ parse_device st = inr (pr, r, p') -> valid_parts p'.
Proof.
  destruct st as [[pr0 s] p]. cbn [snd]. intros Hp H. pose proof Hp as [? ? ? ? ?].
  unfold parse_job, parse_replica, parse_task, parse_device in H.
  destruct H as [H|[H|[H|H]]]; (destruct (strip_prefix _ s); [|by injection H as _ _ <-]).
  1-3: by eapply parse_value_valid; [..|exact H]; valid_part.
  unfold mbind, sum_bind in H.
  destruct (parse_value ConsumeDeviceType _ _ _ _) as [|[[pr1 s1] p1]] eqn:E; [done|].
  assert (valid_parts p1) as [? ? ? ? ?] by (eapply parse_value_valid; [..|exact E]; valid_part).
  destruct (strip_prefix ":" s1); [|injection H as _ _ <-; valid_part].
  eapply parse_value_valid; [..|exact H]; valid_part.
Qed.

Lemma parse_legacy_valid lower upper t st pr r p' : valid_parts st.2 -> IsJobName t = true ->
  parse_legacy lower upper t st = inr (pr, r, p') -> valid_parts p'.
Proof.
  destruct st as [[pr0 s] p]. cbn [snd]. intros Hp Ht. pose proof Hp as [? ? ? ? ?].
  unfold parse_legacy. destruct (match strip_prefix lower s with Some _ => _ | None => _ end);
    [|by intros [= _ _ <-]].
  intros H. eapply parse_value_valid; [..|exact H]; valid_part.
Qed.

Lemma parse_pass_valid s p pr r p' : valid_parts p -> parse_pass s p = inr (pr, r, p') -> valid_parts p'.
Proof.
  unfold parse_pass, mbind, sum_bind. intros Hp H.
  destruct (parse_job _) as [|[[? ?] p1]] eqn:E1; [done|].
  assert (valid_parts p1) as H1 by (eapply (parse_fields_valid (false, s, p)); eauto).
  destruct (parse_replica _) as [|[[? ?] p2]] eqn:E2; [done|].
  assert (valid_parts p2) as H2 by (eapply (parse_fields_valid (_, _, p1)); eauto).
  destruct (parse_task _) as [|[[? ?] p3]] eqn:E3; [done|].
  assert (valid_parts p3) as H3 by (eapply (parse_fields_valid (_, _, p2)); eauto).
  destruct (parse_device _) as [|[[? ?] p4]] eqn:E4; [done|].
  assert (valid_parts p4) as H4 by (eapply (parse_fields_valid (_, _, p3)); eauto 6).
  destruct (parse_legacy "/cpu:" _ _ _) as [|[[? ?] p5]] eqn:E5; [done|].
  apply parse_legacy_valid in E5; [|done..]. by eapply parse_legacy_valid; [..|exact H].
Qed.

Lemma parse_loop_valid fuel : forall s p p',
  valid_parts p -> parse_loop fuel s p = Ok (true, p') -> valid_parts p'.
Proof.
  induction fuel as [|fuel IH]; intros [|c s] p p' Hp H; cbn [parse_loop] in H; try (done || by injection H as <-).
  destruct (parse_pass (String c s) p) as [|[[pr r] p1]] eqn:E; [done|].
  destruct pr; [|done]. cbn [negb] in H. eapply IH; [|exact H]. by eapply parse_pass_valid.
Qed.

Lemma ParseFullName_valid s p : ParseFullName s = Ok (true, p) -> valid_parts p.
Proof.
  assert (valid_parts Clear) by by split.
  unfold ParseFullName. destruct (String.eqb s "/"); [by intros [= <-]|]. by apply parse_loop_valid.
Qed.

(** *** Which names survive *)

Lemma printable_spec p : printable p = true <-> prints_naturals p /\ (has_id p = true -> has_type p = true).
Proof.
  unfold printable, prints_naturals. destruct p as [[] j [] r [] t [] ty [] i]; simpl;
    rewrite ?andb_true_iff, ?orb_true_iff, ?Z.leb_le; naive_solver.
Qed.

Lemma eqb_blank p : (has_id p = true -> has_type p = true) -> ParsedName_eqb (blank p) p = true.
Proof.
  destruct p as [[] j [] r [] t [] ty [] i]; intros H; unfold ParsedName_eqb; simpl in *;
    rewrite ?String.eqb_refl, ?Z.eqb_refl; try done; by specialize (H eq_refl).
Qed.

(** Printing a parsed name and parsing the text again. *)
Lemma parse_print_valid p : valid_parts p ->
  (prints_naturals p /\ ParseFullName (ParsedNameToString p) = Ok (true, blank p)) \/
  (~ prints_naturals p /\ exists q, ParseFullName (ParsedNameToString p) = Ok (false, q)).
Proof.
  intros Hv. assert (prints_naturals p \/ ~ prints_naturals p) as [H|H].
  { destruct (decide (has_replica p = true -> 0 <= replica p));
      [|right; by intros (? & _)].
    destruct (decide (has_task p = true -> 0 <= task p)); [|right; by intros (_ & ? & _)].
    destruct (decide (has_type p = true -> has_id p = true -> 0 <= id p));
      [by left|right; by intros (_ & _ & ?)]. }
  - left. split; [done|]. rewrite <- print_blank. by apply parse_print, blank_wf.
  - right. split; [done|]. by apply parse_negative.
Qed.

(** C36: which device names survive being printed and parsed again.  A name is
    parsed back to itself, field by field, exactly when it is [name_wf]: its
    job and its type are an ASCII letter followed by letters, digits or
    underscores, its numbers lie in [0, 2^31), there is an id only with a type,
    and the parts that are not there are blank.  And a name that [ParseFullName]
    accepted is parsed back to an equal name ([operator==]) exactly when it is
    [printable]: its numbers are not negative and it has no id without a type.
    The other accepted texts do not survive (examples [id_without_type] and
    [task_wraps]). *)
Theorem ParseFullName_ParsedNameToString :
  (forall p, ParseFullName (ParsedNameToString p) = Ok (true, p) <-> name_wf p) /\
  (forall s p, ParseFullName s = Ok (true, p) ->
     ((exists p', ParseFullName (ParsedNameToString p) = Ok (true, p') /\ ParsedName_eqb p' p = true)
      <-> printable p = true)).
Proof.
  split.
  - intros p. split; [|apply parse_print]. intros Hp. pose proof (ParseFullName_valid _ _ Hp) as Hv.
    destruct (parse_print_valid p Hv) as [[Hn E]|[_ [q E]]]; rewrite E in Hp; [|done].
    injection Hp as Hp. rewrite <- Hp. by apply blank_wf.
  - intros s p Hs%ParseFullName_valid. rewrite printable_spec.
    destruct (parse_print_valid p Hs) as [[Hn E]|[Hn [q E]]].
    + split; [|intros [_ Hid]; exists (blank p); split; [done|by apply eqb_blank]].
      intros (p' & Hp' & Heq). split; [done|]. rewrite E in Hp'. injection Hp' as <-.
      intros Hid. destruct (has_type p) eqn:Ht; [done|].
      unfold ParsedName_eqb in Heq. apply andb_true_iff in Heq as [_ Heq].
      unfold blank in Heq. simpl in Heq. by rewrite Ht, Hid in Heq.
    + split; [|by intros [? _]]. intros (p' & Hp' & _). by rewrite E in Hp'.
Qed.

Definition example_name : ParsedName :=
  mk_ParsedName true "worker" true 0 true 12 true "GPU" false 0.

Lemma ParseFullName_ParsedNameToString_witness :
  ParsedNameToString example_name = "/job:worker/replica:0/task:12/device:GPU:*" /\
  ParseFullName (ParsedNameToString example_name) = Ok (true, example_name).
Proof.
  split; [reflexivity|]. apply (proj1 ParseFullName_ParsedNameToString). split; simpl; done || lia.
Defined.

(** An id may be given without a type; the printer drops it. *)
Example id_without_type :
  ParseFullName "/device:*:3" = Ok (true, mk_ParsedName false "" false 0 false 0 false "" true 3) /\
  ParsedNameToString (mk_ParsedName false "" false 0 false 0 false "" true 3) = "".
Proof. done. Qed.

(** A number that does not fit in [int] wraps, and its text does not parse. *)
Example task_wraps :
  ParseFullName "/task:3000000000" = Ok (true, mk_ParsedName false "" false 0 true (-1294967296) false "" false 0) /\
  ParsedNameToString (mk_ParsedName false "" false 0 true (-1294967296) false "" false 0) = "/task:-1294967296" /\
  (ParseFullName "/task:-1294967296" = Ok (false, mk_ParsedName false "" false 0 true 0 false "" false 0)).
Proof. done. Qed.

(** ** The order on names, and merging *)

(** One part of a name: the less specific value, if there is one, is the value
    of the more specific name. *)
Definition part_le {A} (h : bool) (v : A) (h' : bool) (v' : A) : Prop := h = true -> h' = true /\ v = v'.

Record name_le (a b : ParsedName) : Prop := {
  nl_job : part_le (has_job a) (job a) (has_job b) (job b);
  nl_replica : part_le (has_replica a) (replica a) (has_replica b) (replica b);
  nl_task : part_le (has_task a) (task a) (has_task b) (task b);
  nl_type : part_le (has_type a) (type a) (has_type b) (type b);
  nl_id : part_le (has_id a) (id a) (has_id b) (id b) }.

Lemma part_test {A} h (v : A) h' v' (e : bool) :
  (e = true <-> v = v') -> (h && (negb h' || negb e) = false <-> part_le h v h' v').
Proof. unfold part_le. destruct h, h', e; naive_solver. Qed.

Lemma five_tests (c1 c2 c3 c4 c5 : bool) :
  (if c1 then false else if c2 then false else if c3 then false else if c4 then false
   else if c5 then false else true) = true <->
  c1 = false /\ c2 = false /\ c3 = false /\ c4 = false /\ c5 = false.
Proof. destruct c1, c2, c3, c4, c5; split; intros H; try done; repeat (destruct H as [? H]; try done). Qed.

Lemma IsSpecification_iff a b : IsSpecification a b = true <-> name_le a b.
Proof.
  unfold IsSpecification. rewrite five_tests.
  rewrite !(part_test _ _ _ _ _ (String.eqb_eq _ _)), !(part_test _ _ _ _ _ (Z.eqb_eq _ _)).
  split; [intros (? & ? & ? & ? & ?); by split|by intros []].
Qed.

(** Two values of a part that are both there and differ. *)
Definition conflict (h1 h2 e : bool) : bool := h1 && h2 && negb e.

Lemma AreCompatible_iff a b : AreCompatibleDevNames a b = true <->
  conflict (has_job a) (has_job b) (String.eqb (job a) (job b)) = false /\
  conflict (has_replica a) (has_replica b) (replica a =? replica b) = false /\
  conflict (has_task a) (has_task b) (task a =? task b) = false /\
  conflict (has_type a) (has_type b) (String.eqb (type a) (type b)) = false /\
  conflict (has_id a) (has_id b) (id a =? id b) = false.
Proof.
  unfold AreCompatibleDevNames, conflict. apply five_tests.
Qed.

(** The parts of [other], then those of [target]. *)
Definition merged (target other : ParsedName) : ParsedName :=
  mk_ParsedName
    (has_job target || has_job other) (if has_job other then job other else job target)
    (has_replica target || has_replica other)
    (if has_replica other then replica other else replica target)
    (has_task target || has_task other) (if has_task other then task other else task target)
    (has_type target || has_type other) (if has_type other then type other else type target)
    (has_id target || has_id other) (if has_id other then id other else id target).

(** [m] makes the step of one part: an error on a conflict, else [t]. *)
Definition merge_step (c : bool) (m : (Status * ParsedName) + ParsedName) (t : ParsedName) : Prop :=
  if c then exists st p, m = inl (st, p) /\ code st = TF_INVALID_ARGUMENT else m = inr t.

Lemma merge_job_step t o : merge_step (conflict (has_job t) (has_job o) (String.eqb (job t) (job o)))
  (merge_job t o)
  (mk_ParsedName (has_job t || has_job o) (if has_job o then job o else job t) (has_replica t) (replica t)
     (has_task t) (task t) (has_type t) (type t) (has_id t) (id t)).
Proof.
  unfold merge_step, conflict, merge_job. destruct t as [[]], (has_job o); simpl;
    try destruct (String.eqb _ _); simpl; try done; by do 2 eexists.
Qed.

Lemma merge_replica_step t o : merge_step (conflict (has_replica t) (has_replica o) (replica t =? replica o))
  (merge_replica t o)
  (mk_ParsedName (has_job t) (job t) (has_replica t || has_replica o)
     (if has_replica o then replica o else replica t)
     (has_task t) (task t) (has_type t) (type t) (has_id t) (id t)).
Proof.
  unfold merge_step, conflict, merge_replica. destruct t as [? ? []], (has_replica o); simpl;
    try destruct (_ =? _); simpl; try done; by do 2 eexists.
Qed.

Lemma merge_task_step t o : merge_step (conflict (has_task t) (has_task o) (task t =? task o))
  (merge_task t o)
  (mk_ParsedName (has_job t) (job t) (has_replica t) (replica t) (has_task t || has_task o)
     (if has_task o then task o else task t) (has_type t) (type t) (has_id t) (id t)).
Proof.
  unfold merge_step, conflict, merge_task. destruct t as [? ? ? ? []], (has_task o); simpl;
    try destruct (_ =? _); simpl; try done; by do 2 eexists.
Qed.

Lemma merge_type_step t o : merge_step (conflict (has_type t) (has_type o) (String.eqb (type t) (type o)))
  (merge_type false false t o)
  (mk_ParsedName (has_job t) (job t) (has_replica t) (replica t) (has_task t) (task t)
     (has_type t || has_type o) (if has_type o then type o else type t) (has_id t) (id t)).
Proof.
  unfold merge_step, conflict, merge_type. destruct t as [? ? ? ? ? ? []], (has_type o); simpl;
    try destruct (String.eqb _ _); simpl; try done; by do 2 eexists.
Qed.

Lemma merge_id_step t o : merge_step (conflict (has_id t) (has_id o) (id t =? id o))
  (merge_id false false t o)
  (mk_ParsedName (has_job t) (job t) (has_replica t) (replica t) (has_task t) (task t)
     (has_type t) (type t) (has_id t || has_id o) (if has_id o then id o else id t)).
Proof.
  unfold merge_step, conflict, merge_id. destruct t as [? ? ? ? ? ? ? ? []], (has_id o); simpl;
    try destruct (_ =? _); simpl; try done; by do 2 eexists.
Qed.

Lemma MergeDevNames_spec t o :
  if AreCompatibleDevNames t o then MergeDevNames t o false = (Status_OK, merged t o)
  else exists st p, MergeDevNames t o false = (st, p) /\ code st = TF_INVALID_ARGUMENT.
Proof.
  unfold MergeDevNames, MergeDevNamesImpl, AreCompatibleDevNames.
  pose proof (merge_job_step t o) as H. unfold merge_step, conflict in H.
  destruct (has_job t && _ && _); [destruct H as (st & p & -> & ?); by do 2 eexists|rewrite H; clear H].
  cbn [mbind sum_bind]. set (t1 := mk_ParsedName _ _ _ _ _ _ _ _ _ _).
  pose proof (merge_replica_step t1 o) as H. unfold merge_step, conflict in H.
  change (has_replica t1) with (has_replica t) in H. change (replica t1) with (replica t) in H.
  destruct (has_replica t && _ && _); [destruct H as (st & p & -> & ?); by do 2 eexists|rewrite H; clear H].
  cbn [mbind sum_bind]. set (t2 := mk_ParsedName _ _ _ _ _ _ _ _ _ _).
  pose proof (merge_task_step t2 o) as H. unfold merge_step, conflict in H.
  change (has_task t2) with (has_task t) in H. change (task t2) with (task t) in H.
  destruct (has_task t && _ && _); [destruct H as (st & p & -> & ?); by do 2 eexists|rewrite H; clear H].
  cbn [mbind sum_bind]. set (t3 := mk_ParsedName _ _ _ _ _ _ _ _ _ _).
  pose proof (merge_type_step t3 o) as H. unfold merge_step, conflict in H.
  change (has_type t3) with (has_type t) in H. change (type t3) with (type t) in H.
  destruct (has_type t && _ && _); [destruct H as (st & p & -> & ?); by do 2 eexists|rewrite H; clear H].
  cbn [mbind sum_bind]. set (t4 := mk_ParsedName _ _ _ _ _ _ _ _ _ _).
  pose proof (merge_id_step t4 o) as H. unfold merge_step, conflict in H.
  change (has_id t4) with (has_id t) in H. change (id t4) with (id t) in H.
  destruct (has_id t && _ && _); [destruct H as (st & p & -> & ?); by do 2 eexists|rewrite H; clear H].
  done.
Qed.

Lemma part_lub {A} h1 h2 (e : bool) (v1 v2 : A) :
  (e = true <-> v1 = v2) -> conflict h1 h2 e = false ->
  part_le h1 v1 (h1 || h2) (if h2 then v2 else v1) /\ part_le h2 v2 (h1 || h2) (if h2 then v2 else v1) /\
  forall h v, part_le h1 v1 h v -> part_le h2 v2 h v -> part_le (h1 || h2) (if h2 then v2 else v1) h v.
Proof. unfold conflict, part_le. destruct h1, h2, e; naive_solver. Qed.

Lemma part_upper {A} h1 h2 (e : bool) (v1 v2 : A) h v :
  (e = true <-> v1 = v2) -> part_le h1 v1 h v -> part_le h2 v2 h v -> conflict h1 h2 e = false.
Proof. unfold conflict, part_le. destruct h1, h2, e; naive_solver. Qed.

(** C37: merging two names gives their least upper bound in the order of
    specification, and fails exactly when no name is a specification of both,
    which is what [AreCompatibleDevNames] tests. *)
Theorem MergeDevNames_lub target other :
  (AreCompatibleDevNames target other = true <->
   exists z, IsSpecification target z = true /\ IsSpecification other z = true) /\
  if AreCompatibleDevNames target other then
    exists t, MergeDevNames target other false = (Status_OK, t) /\
      IsSpecification target t = true /\ IsSpecification other t = true /\
      forall z, IsSpecification target z = true -> IsSpecification other z = true ->
        IsSpecification t z = true
  else exists st t, MergeDevNames target other false = (st, t) /\ code st = TF_INVALID_ARGUMENT.
Proof.
  assert (AreCompatibleDevNames target other = true -> name_le target (merged target other) /\
    name_le other (merged target other) /\
    forall z, name_le target z -> name_le other z -> name_le (merged target other) z) as Hlub.
  { intros (H1 & H2 & H3 & H4 & H5)%AreCompatible_iff.
    apply (part_lub _ _ _ _ _ (String.eqb_eq _ _)) in H1, H4.
    apply (part_lub _ _ _ _ _ (Z.eqb_eq _ _)) in H2, H3, H5.
    split_and!; [split; simpl; naive_solver..|]. intros z [] []. split; simpl; naive_solver. }
  split.
  - split; intros H.
    + exists (merged target other). rewrite !IsSpecification_iff. split; by apply Hlub.
    + destruct H as (z & [A1 A2 A3 A4 A5]%IsSpecification_iff & [B1 B2 B3 B4 B5]%IsSpecification_iff).
      apply AreCompatible_iff. split_and!;
        first [by eapply (part_upper _ _ _ _ _ _ _ (String.eqb_eq _ _))
              |by eapply (part_upper _ _ _ _ _ _ _ (Z.eqb_eq _ _))].
  - pose proof (MergeDevNames_spec target other) as Hm.
    destruct (AreCompatibleDevNames target other) eqn:Hc; [|done].
    destruct (Hlub eq_refl) as (H1 & H2 & H3). exists (merged target other).
    rewrite !IsSpecification_iff. split_and!; [done..|]. intros z. rewrite !IsSpecification_iff. auto.
Qed.
