(* ===== verification/KernelKey.v ===== *)
(** * Keys of DirectML kernels

    [DmlKernelKey] and [DmlInputTensorKey] (core/dml_kernel_key.{h,cc}) and
    [CreateKernelKey] (core/dml_kernel_wrapper.cc).  The value of an attribute
    is an element of a type with decidable equality; the float attributes that
    are not equal to themselves are outside the model.  [absl::get] of the
    alternative a variant does not hold is a fault. *)

From S2P Require Import Prelude.

(** A tensor of TensorFlow as the program sees it. *)
Record Tensor := mk_Tensor { shape : list Z; dtype : Z; tensor_data : list Z }.

#[export] Instance Tensor_eq_dec : EqDecision Tensor.
Proof. solve_decision. Defined.

#[export] Instance Tensor_countable : Countable Tensor.
Proof.
  apply (inj_countable' (fun t => (shape t, dtype t, tensor_data t))
    (fun x => mk_Tensor x.1.1 x.1.2 x.2)). by intros [].
Defined.

Record TensorShapeAndType := mk_TensorShapeAndType { st_shape : list Z; st_dtype : Z }.

#[export] Instance TensorShapeAndType_eq_dec : EqDecision TensorShapeAndType.
Proof. solve_decision. Defined.

Record DmlInputTensorKey := mk_DmlInputTensorKey {
  tensor : Tensor + TensorShapeAndType;
  is_constant_cpu_input : bool }.

#[export] Instance DmlInputTensorKey_eq_dec : EqDecision DmlInputTensorKey.
Proof. solve_decision. Defined.

#[export] Instance DmlInputTensorKey_countable : Countable DmlInputTensorKey.
Proof.
  apply (inj_countable'
    (fun k => (match tensor k with inl t => inl t | inr s => inr (st_shape s, st_dtype s) end,
               is_constant_cpu_input k))
    (fun x => mk_DmlInputTensorKey
       (match x.1 with inl t => inl t | inr s => inr (mk_TensorShapeAndType s.1 s.2) end) x.2)).
  by intros [[t|[s d]] b].
Defined.

(** [absl::get<Tensor>] and [absl::get<TensorShapeAndType>] *)
Definition get_Tensor (v : Tensor + TensorShapeAndType) : result Tensor :=
  match v with inl t => Ok t | inr _ => Fault OutOfRange end.
Definition get_TensorShapeAndType (v : Tensor + TensorShapeAndType) : result TensorShapeAndType :=
  match v with inr s => Ok s | inl _ => Fault OutOfRange end.

(** [DeepCopy] allocates a tensor with the same contents. *)
Definition DeepCopy (t : Tensor) : Tensor := mk_Tensor (shape t) (dtype t) (tensor_data t).

Definition DmlInputTensorKey_Clone (k : DmlInputTensorKey) : result DmlInputTensorKey :=
  if is_constant_cpu_input k then
    t ← get_Tensor (tensor k);
    mret (mk_DmlInputTensorKey (inl (DeepCopy t)) (is_constant_cpu_input k))
  else
    s ← get_TensorShapeAndType (tensor k);
    mret (mk_DmlInputTensorKey (inr s) (is_constant_cpu_input k)).

Definition DmlInputTensorKey_eqb (k other : DmlInputTensorKey) : result bool :=
  if negb (Bool.eqb (is_constant_cpu_input k) (is_constant_cpu_input other)) then mret false
  else if is_constant_cpu_input k then
    tensor0 ← get_Tensor (tensor k);
    tensor1 ← get_Tensor (tensor other);
    if negb (bool_decide (shape tensor0 = shape tensor1)) then mret false
    else if negb (dtype tensor0 =? dtype tensor1) then mret false
    else if negb (Nat.eqb (length (tensor_data tensor0)) (length (tensor_data tensor1))) then mret false
    else mret (bool_decide (tensor_data tensor0 = tensor_data tensor1))
  else
    tensor0 ← get_TensorShapeAndType (tensor k);
    tensor1 ← get_TensorShapeAndType (tensor other);
    if negb (bool_decide (st_shape tensor0 = st_shape tensor1)) then mret false
    else mret (st_dtype tensor0 =? st_dtype tensor1).

(** The equality of two vectors of keys: their sizes, then element by element
    up to the first difference. *)
Fixpoint equal_elements (l l' : list DmlInputTensorKey) : result bool :=
  match l, l' with
  | k :: l, k' :: l' =>
      b ← DmlInputTensorKey_eqb k k';
      if (b : bool) then equal_elements l l' else mret false
  | _, _ => mret true
  end.

Definition equal_vectors (l l' : list DmlInputTensorKey) : result bool :=
  if Nat.eqb (length l) (length l') then equal_elements l l' else mret false.

Fixpoint clone_all (l : list DmlInputTensorKey) : result (list DmlInputTensorKey) :=
  match l with
  | [] => mret []
  | k :: l => k ← DmlInputTensorKey_Clone k; l ← clone_all l; mret (k :: l)
  end.

Definition TF_RESOURCE : Z := 20.

Inductive MemoryType := DEVICE_MEMORY | HOST_MEMORY.

Definition is_host (m : MemoryType) : bool := match m with HOST_MEMORY => true | DEVICE_MEMORY => false end.

(** An input of a kernel: its tensor and where the kernel wants it. *)
Record kernel_input := mk_kernel_input { input_tensor : Tensor; input_memory_type : MemoryType }.

Section key.
Context {attribute_value : Type} `{EqDecision attribute_value, !Countable attribute_value}.

(** [attribute_values] are those of [node_def]. *)
Record DmlKernelKey := mk_DmlKernelKey {
  op_type_name : string;
  attribute_values : list attribute_value;
  input_tensors : list DmlInputTensorKey }.

#[export] Instance DmlKernelKey_eq_dec : EqDecision DmlKernelKey.
Proof. solve_decision. Defined.

#[export] Instance DmlKernelKey_countable : Countable DmlKernelKey.
Proof.
  apply (inj_countable' (fun k => (op_type_name k, attribute_values k, input_tensors k))
    (fun x => mk_DmlKernelKey x.1.1 x.1.2 x.2)). by intros [].
Defined.

Definition DmlKernelKey_Clone (k : DmlKernelKey) : result DmlKernelKey :=
  inputs ← clone_all (input_tensors k);
  mret (mk_DmlKernelKey (op_type_name k) (attribute_values k) inputs).

Definition DmlKernelKey_eqb (k other : DmlKernelKey) : result bool :=
  if negb (String.eqb (op_type_name k) (op_type_name other)) then mret false
  else if negb (bool_decide (attribute_values k = attribute_values other)) then mret false
  else
    same ← equal_vectors (input_tensors k) (input_tensors other);
    mret (if negb same then false else true).

Definition input_key (i : kernel_input) : DmlInputTensorKey :=
  let is_resource_type := dtype (input_tensor i) =? TF_RESOURCE in
  let is_constant := is_host (input_memory_type i) && negb is_resource_type in
  mk_DmlInputTensorKey
    (if is_constant then inl (input_tensor i)
     else inr (mk_TensorShapeAndType (shape (input_tensor i)) (dtype (input_tensor i))))
    is_constant.

Definition CreateKernelKey (type_string : string) (node_def : list attribute_value)
    (inputs : list kernel_input) : DmlKernelKey :=
  mk_DmlKernelKey type_string node_def (map input_key inputs).

(** ** Keys made by the program *)

(** The alternative that a variant holds is the one its flag announces. *)
Definition input_key_wf (k : DmlInputTensorKey) : Prop :=
  match tensor k with
  | inl _ => is_constant_cpu_input k = true
  | inr _ => is_constant_cpu_input k = false
  end.

Definition key_wf (k : DmlKernelKey) : Prop := Forall input_key_wf (input_tensors k).

Lemma CreateKernelKey_wf t n inputs : key_wf (CreateKernelKey t n inputs).
Proof.
  apply Forall_map, Forall_true. intros i. unfold input_key, input_key_wf. simpl.
  by destruct (is_host _ && _).
Qed.

(** The first difference of two keys decides. *)
Ltac differ H :=
  rewrite (bool_decide_eq_false_2 _ H); simpl; rewrite bool_decide_eq_false_2 by congruence; reflexivity.

Lemma input_key_eqb_wf k k' : input_key_wf k -> input_key_wf k' ->
  DmlInputTensorKey_eqb k k' = Ok (bool_decide (k = k')).
Proof.
  destruct k as [[t|s] b], k' as [[t'|s'] b']; unfold input_key_wf; simpl; intros -> ->;
    unfold DmlInputTensorKey_eqb; simpl; try reflexivity.
  - destruct t as [sh d l], t' as [sh' d' l']; simpl.
    destruct (decide (sh = sh')) as [->|Hne]; [rewrite bool_decide_eq_true_2 by done; simpl|differ Hne].
    destruct (Z.eqb_spec d d') as [->|]; simpl; [|rewrite bool_decide_eq_false_2 by congruence; reflexivity].
    destruct (Nat.eqb_spec (length l) (length l')); simpl.
    + unfold mret, result_ret. f_equal. apply bool_decide_ext. naive_solver.
    + rewrite bool_decide_eq_false_2 by congruence. reflexivity.
  - destruct s as [sh d], s' as [sh' d']; simpl.
    destruct (decide (sh = sh')) as [->|Hne]; [rewrite bool_decide_eq_true_2 by done; simpl|differ Hne].
    destruct (Z.eqb_spec d d') as [->|]; [by rewrite bool_decide_eq_true_2|].
    rewrite bool_decide_eq_false_2 by congruence. reflexivity.
Qed.

Lemma equal_elements_wf l l' : Forall input_key_wf l -> Forall input_key_wf l' ->
  length l = length l' -> equal_elements l l' = Ok (bool_decide (l = l')).
Proof.
  intros Hl. revert l'. induction Hl as [|k l Hk Hl IH]; intros l' Hl' Hlen; destruct l' as [|k' l']; try done.
  apply Forall_cons in Hl' as [Hk' Hl']. simpl. rewrite input_key_eqb_wf by done. cbn [mbind result_bind].
  destruct (decide (k = k')) as [->|Hne]; [|differ Hne].
  rewrite bool_decide_eq_true_2 by done. rewrite IH by auto. f_equal. apply bool_decide_ext. naive_solver.
Qed.

Lemma DmlKernelKey_eqb_wf k k' : key_wf k -> key_wf k' ->
  DmlKernelKey_eqb k k' = Ok (bool_decide (k = k')).
Proof.
  destruct k as [t a l], k' as [t' a' l']. unfold key_wf, DmlKernelKey_eqb, equal_vectors. simpl. intros Hl Hl'.
  destruct (String.eqb_spec t t') as [->|]; simpl; [|rewrite bool_decide_eq_false_2 by congruence; reflexivity].
  destruct (decide (a = a')) as [->|Hne]; [rewrite bool_decide_eq_true_2 by done; simpl|differ Hne].
  destruct (Nat.eqb_spec (length l) (length l')).
  2:{ cbn. rewrite bool_decide_eq_false_2 by congruence. reflexivity. }
  rewrite equal_elements_wf by done. cbn. unfold mret, result_ret. f_equal.
  destruct (decide (l = l')) as [->|]; [by rewrite !bool_decide_eq_true_2|].
  by rewrite !bool_decide_eq_false_2 by congruence.
Qed.

Lemma DmlKernelKey_Clone_wf k : key_wf k -> DmlKernelKey_Clone k = Ok k.
Proof.
  destruct k as [t a l]. unfold key_wf, DmlKernelKey_Clone. simpl. intros Hl.
  enough (clone_all l = Ok l) as -> by done. induction Hl as [|k l Hk Hl IH]; [done|]. simpl.
  destruct k as [[[sh d l']|s] b]; unfold input_key_wf in Hk; simpl in Hk; subst b;
    unfold DmlInputTensorKey_Clone; cbn; unfold mbind, result_bind in IH |- *; by rewrite IH.
Qed.

Lemma cons_eq {A} (x y : A) l k : x :: l = y :: k <-> x = y /\ l = k.
Proof. naive_solver. Qed.

(** What a key keeps of an input: the data only of a constant input on the host. *)
Definition same_input (i j : kernel_input) : Prop :=
  shape (input_tensor i) = shape (input_tensor j) /\ dtype (input_tensor i) = dtype (input_tensor j) /\
  (dtype (input_tensor i) <> TF_RESOURCE ->
   is_host (input_memory_type i) = is_host (input_memory_type j) /\
   (input_memory_type i = HOST_MEMORY -> tensor_data (input_tensor i) = tensor_data (input_tensor j))).

Lemma input_key_eq i j : input_key i = input_key j <-> same_input i j.
Proof.
  destruct i as [[sh d l] m], j as [[sh' d' l'] m']. unfold input_key, same_input. simpl.
  destruct (Z.eqb_spec d TF_RESOURCE) as [->|], (Z.eqb_spec d' TF_RESOURCE) as [->|], m, m'; simpl;
    (split; [intros E; simplify_eq; naive_solver|intros (-> & ? & ?); naive_solver]).
Qed.

(** C32: two computations have equal keys exactly when they run the same
    operator with the same attributes on inputs of the same shapes and types,
    whose constant host inputs hold the same data; the comparison and the deep
    copy of such keys never fail, and a copy is equal to its original. *)
Theorem kernel_key_identifies t n inputs t' n' inputs' :
  DmlKernelKey_Clone (CreateKernelKey t n inputs) = Ok (CreateKernelKey t n inputs) /\
  exists b, DmlKernelKey_eqb (CreateKernelKey t n inputs) (CreateKernelKey t' n' inputs') = Ok b /\
    (b = true <-> t = t' /\ n = n' /\ Forall2 same_input inputs inputs').
Proof.
  split; [apply DmlKernelKey_Clone_wf, CreateKernelKey_wf|].
  eexists. split; [apply DmlKernelKey_eqb_wf; apply CreateKernelKey_wf|].
  rewrite bool_decide_eq_true. unfold CreateKernelKey.
  assert (map input_key inputs = map input_key inputs' <-> Forall2 same_input inputs inputs') as Hmap.
  { revert inputs'. induction inputs as [|i inputs IH]; intros [|j inputs']; simpl; try by split.
    - by split; intros H; inversion H.
    - by split; intros H; inversion H.
    - rewrite Forall2_cons, <- IH, <- input_key_eq. apply cons_eq. }
  rewrite <- Hmap. split; [intros [= -> -> ->]; done|intros (-> & -> & ->); done].
Qed.

End key.
Arguments DmlKernelKey : clear implicits.
