(* ===== verification/KernelManager.v ===== *)
(** * The kernel manager: a least-recently-used cache

    [DmlKernelManager] (core/dml_kernel_manager.{h,cc}): the cache of compiled
    kernels, its list of keys ordered by use, and the references held until a
    GPU event is signaled.  A node of the [std::list] is its identity and its
    key, so that an iterator is an identity; pointers to the keys of
    [kernel_cache_] are the keys.  The mutex is taken by each operation for its
    whole body; the construction of a kernel happens before it.  A kernel is an
    element of an abstract type. *)

From S2P Require Import Prelude Gpu.

Definition kDefaultMaxCacheSize : Z := 1536.

(** [env_var]: the status and the value that [ReadInt64FromEnvVar] gives. *)
Definition GetMaxCacheSize (ReadInt64FromEnvVar : Status * Z) : Z :=
  let '(s, env_var) := ReadInt64FromEnvVar in
  if status_ok s && (0 <=? env_var) then env_var else kDefaultMaxCacheSize.

Section manager.
Context {key : Type} `{EqDecision key, !Countable key} {kernel : Type}.

Record CacheEntry := mk_CacheEntry { entry_kernel : kernel; lru_iter : Z }.

Record QueuedReference := mk_QueuedReference { ref_kernel : kernel; gpu_event : DmlGpuEvent }.

Record DmlKernelManager := mk_manager {
  max_cache_size_ : Z;
  kernel_cache_ : gmap key CacheEntry;
  lru_list_ : list (Z * key);
  next_node : Z;                           (* the identity of the next list node *)
  queued_references_ : list QueuedReference }.

Notation M := (ST DmlKernelManager).

Definition make_DmlKernelManager (max_cache_size : Z) : DmlKernelManager :=
  mk_manager max_cache_size ∅ [] 1 [].

Definition set_cache (c : gmap key CacheEntry) (s : DmlKernelManager) : DmlKernelManager :=
  mk_manager (max_cache_size_ s) c (lru_list_ s) (next_node s) (queued_references_ s).
Definition set_lru (l : list (Z * key)) (s : DmlKernelManager) : DmlKernelManager :=
  mk_manager (max_cache_size_ s) (kernel_cache_ s) l (next_node s) (queued_references_ s).
Definition set_next_node (n : Z) (s : DmlKernelManager) : DmlKernelManager :=
  mk_manager (max_cache_size_ s) (kernel_cache_ s) (lru_list_ s) n (queued_references_ s).
Definition set_references (l : list QueuedReference) (s : DmlKernelManager) : DmlKernelManager :=
  mk_manager (max_cache_size_ s) (kernel_cache_ s) (lru_list_ s) (next_node s) l.

(** [push_front], then [begin()]. *)
Definition lru_push_front (k : key) : M Z :=
  s ← get;
  modify (fun s => set_next_node (next_node s + 1) (set_lru ((next_node s, k) :: lru_list_ s) s));;
  mret (next_node s).

(** [erase] of an iterator of the list. *)
Fixpoint erase_node (i : Z) (l : list (Z * key)) : option (list (Z * key)) :=
  match l with
  | [] => None
  | n :: l => if n.1 =? i then Some l else (n ::.) <$> erase_node i l
  end.

Definition set_lru_iter (k : key) (i : Z) : M unit :=
  modify (fun s => set_cache (alter (fun e => mk_CacheEntry (entry_kernel e) i) k (kernel_cache_ s)) s).

Definition TrimCache : M unit :=
  s ← get;
  lift (ASSERT (Nat.eqb (length (lru_list_ s)) (size (kernel_cache_ s))));;
  if Z.of_nat (size (kernel_cache_ s)) <=? max_cache_size_ s then mret tt
  else
    lru_key ← lift (in_range (snd <$> last (lru_list_ s)));
    modify (fun s => set_lru (removelast (lru_list_ s)) s);;
    s ← get;
    let elements_removed := match kernel_cache_ s !! lru_key with Some _ => 1 | None => 0 end in
    modify (fun s => set_cache (delete lru_key (kernel_cache_ s)) s);;
    lift (ASSERT (elements_removed =? 1)).

(** [key] and [entry] are those of an element of [kernel_cache_]. *)
Definition OnRecentlyUsed (k : key) : M unit :=
  s ← get;
  entry ← lift (in_range (kernel_cache_ s !! k));
  if bool_decide (fst <$> head (lru_list_ s) = Some (lru_iter entry)) then mret tt
  else
    l ← lift (in_range (erase_node (lru_iter entry) (lru_list_ s)));
    modify (set_lru l);;
    i ← lru_push_front k;
    set_lru_iter k i.

(** [new_kernel] is the kernel constructed before the mutex is taken. *)
Definition CreateCachedKernel (k : key) (new_kernel : kernel) : M kernel :=
  s ← get;
  let insertion_succeeded := negb (bool_decide (is_Some (kernel_cache_ s !! k))) in
  (if insertion_succeeded then
     modify (fun s => set_cache (<[k := mk_CacheEntry new_kernel 0]> (kernel_cache_ s)) s);;
     i ← lru_push_front k;
     set_lru_iter k i
   else mret tt);;
  OnRecentlyUsed k;;
  (if insertion_succeeded then TrimCache else mret tt);;
  mret new_kernel.

Definition TryGetCachedKernel (k : key) : M (option kernel) :=
  s ← get;
  match kernel_cache_ s !! k with
  | None => mret None
  | Some _ =>
      OnRecentlyUsed k;;
      s ← get;
      it ← lift (in_range (kernel_cache_ s !! k));
      mret (Some (entry_kernel it))
  end.

Definition QueueReference (k : kernel) (e : DmlGpuEvent) : M unit :=
  modify (fun s => set_references (queued_references_ s ++ [mk_QueuedReference k e]) s).

(** The loop of [ReleaseCompletedReferences] over the positions [it], [it + 1], ...;
    a moved-from element of the vector is [None]. *)
Fixpoint compact_loop (IsSignaled : DmlGpuEvent -> bool) (n it dst : nat)
    (v : list (option QueuedReference)) (to_free : list QueuedReference) :
    result (list (option QueuedReference) * nat * list QueuedReference) :=
  match n with
  | O => mret (v, dst, to_free)
  | Datatypes.S n =>
      r ← in_range (mjoin (v !! it));
      if IsSignaled (gpu_event r) then
        compact_loop IsSignaled n (Datatypes.S it) dst (<[it := None]> v) (to_free ++ [r])
      else
        let v := if Nat.eqb it dst then v else <[it := None]> (<[dst := Some r]> v) in
        compact_loop IsSignaled n (Datatypes.S it) (Datatypes.S dst) v to_free
  end.

(** The elements of a vector none of which is moved from. *)
Fixpoint all_present (v : list (option QueuedReference)) : result (list QueuedReference) :=
  match v with
  | [] => mret []
  | o :: v => r ← in_range o; l ← all_present v; mret (r :: l)
  end.

(** The references released, in the order of their release. *)
Definition ReleaseCompletedReferences (IsSignaled : DmlGpuEvent -> bool) : M (list QueuedReference) :=
  s ← get;
  '(v, dst, references_to_free) ← lift (compact_loop IsSignaled (length (queued_references_ s)) 0 0
                                        (map Some (queued_references_ s)) []);
  l ← lift (all_present (take dst v));
  modify (set_references l);;
  mret references_to_free.

Definition GetCacheSize : M Z := gets (fun s => Z.of_nat (size (kernel_cache_ s))).

Definition ClearCache : M unit := modify (fun s => set_cache ∅ (set_lru [] s)).

(** ** Calls of the clients *)

Inductive op :=
  | Create (k : key) (new_kernel : kernel)
  | TryGet (k : key)
  | Queue (k : kernel) (e : DmlGpuEvent)
  | Release (completed : Z -> Z)            (* the completed values of the fences then *)
  | CacheSize
  | ClearOp.

Inductive answer :=
  | Kernel (k : kernel)
  | Found (k : option kernel)
  | Done
  | Released (l : list QueuedReference)
  | Size (n : Z).

Definition run_op (o : op) : M answer :=
  match o with
  | Create k v => v ← CreateCachedKernel k v; mret (Kernel v)
  | TryGet k => r ← TryGetCachedKernel k; mret (Found r)
  | Queue k e => QueueReference k e;; mret Done
  | Release completed => l ← ReleaseCompletedReferences (IsSignaled completed); mret (Released l)
  | CacheSize => n ← GetCacheSize; mret (Size n)
  | ClearOp => ClearCache;; mret Done
  end.

Fixpoint run_ops (os : list op) : M (list answer) :=
  match os with
  | [] => mret []
  | o :: os => a ← run_op o; l ← run_ops os; mret (a :: l)
  end.

(** ** What the manager promises

    A cache of at most [max] entries in order of use, the most recent first,
    and the references that are held. *)

Record spec := mk_spec { cached : list (key * kernel); held : list QueuedReference }.

Definition has_key (k : key) (e : key * kernel) : bool := bool_decide (e.1 = k).
Definition other_keys (k : key) (l : list (key * kernel)) : list (key * kernel) :=
  List.filter (fun e => negb (has_key k e)) l.

Definition spec_op (max : Z) (o : op) (a : spec) : answer * spec :=
  match o with
  | Create k v =>
      (Kernel v,
       mk_spec (match List.find (has_key k) (cached a) with
                | Some e => e :: other_keys k (cached a)
                | None => take (Z.to_nat max) ((k, v) :: cached a)
                end) (held a))
  | TryGet k =>
      match List.find (has_key k) (cached a) with
      | Some e => (Found (Some e.2), mk_spec (e :: other_keys k (cached a)) (held a))
      | None => (Found None, a)
      end
  | Queue k e => (Done, mk_spec (cached a) (held a ++ [mk_QueuedReference k e]))
  | Release completed =>
      (Released (List.filter (fun r => IsSignaled completed (gpu_event r)) (held a)),
       mk_spec (cached a) (List.filter (fun r => negb (IsSignaled completed (gpu_event r))) (held a)))
  | CacheSize => (Size (Z.of_nat (length (cached a))), a)
  | ClearOp => (Done, mk_spec [] (held a))
  end.

Fixpoint spec_ops (max : Z) (os : list op) (a : spec) : list answer * spec :=
  match os with
  | [] => ([], a)
  | o :: os =>
      let '(x, a) := spec_op max o a in
      let '(xs, a) := spec_ops max os a in (x :: xs, a)
  end.

(** ** The representation

    One list of triples stands for the list of the keys and for the map. *)

Definition node : Type := Z * key * kernel.
Definition n_id (t : node) : Z := t.1.1.
Definition n_key (t : node) : key := t.1.2.
Definition n_lru (t : node) : Z * key := t.1.
Definition n_pair (t : node) : key * kernel := (t.1.2, t.2).
Definition n_entry (t : node) : key * CacheEntry := (t.1.2, mk_CacheEntry t.2 t.1.1).

Definition cache (L : list node) : gmap key CacheEntry := list_to_map (map n_entry L).

Record rep (s : DmlKernelManager) (max : Z) (L : list node) (refs : list QueuedReference) : Prop := mk_rep {
  rep_max : max_cache_size_ s = max;
  rep_lru : lru_list_ s = map n_lru L;
  rep_cache : kernel_cache_ s = cache L;
  rep_refs : queued_references_ s = refs;
  rep_ids : NoDup (map n_id L);
  rep_keys : NoDup (map n_key L);
  rep_next : Forall (fun t => n_id t < next_node s) L }.

Lemma entry_keys L : (map n_entry L).*1 = map n_key L.
Proof. induction L; simpl; [done|]. by f_equal. Qed.

Lemma cache_size L : NoDup (map n_key L) -> size (cache L) = length L.
Proof. intros H. unfold cache. rewrite map_size_list_to_map, length_map; [done|]. by rewrite entry_keys. Qed.

Lemma cache_None L k : k ∉ map n_key L -> cache L !! k = None.
Proof. intros H. apply not_elem_of_list_to_map_1. by rewrite entry_keys. Qed.

Lemma cache_middle L1 t L2 : NoDup (map n_key (L1 ++ t :: L2)) ->
  cache (L1 ++ t :: L2) = <[n_key t := mk_CacheEntry t.2 (n_id t)]> (cache (L1 ++ L2)).
Proof.
  intros H. unfold cache. change (<[n_key t := _]> ?m) with (list_to_map (M := gmap key CacheEntry) (map n_entry (t :: L1 ++ L2))).
  apply list_to_map_proper; [by rewrite entry_keys|]. apply Permutation_map. symmetry. apply Permutation_middle.
Qed.

Lemma not_elem_middle {A B} (f : A -> B) L1 t L2 : NoDup (map f (L1 ++ t :: L2)) -> f t ∉ map f (L1 ++ L2).
Proof.
  rewrite !map_app. simpl. intros (H1 & H2 & H3)%NoDup_app.
  apply NoDup_cons in H3 as [H3 _]. rewrite elem_of_app. intros [H|H]; [|done].
  apply (H2 _ H). apply elem_of_cons. by left.
Qed.

Lemma NoDup_middle {A B} (f : A -> B) L1 t L2 : NoDup (map f (L1 ++ t :: L2)) -> NoDup (map f (L1 ++ L2)).
Proof.
  intros H. assert (Permutation (map f (L1 ++ t :: L2)) (f t :: map f (L1 ++ L2))) as HP.
  { change (f t :: map f (L1 ++ L2)) with (map f (t :: L1 ++ L2)).
    apply Permutation_map. symmetry. apply Permutation_middle. }
  rewrite HP in H. by apply NoDup_cons in H as [_ H].
Qed.

(** A key of the map is the key of one node. *)
Lemma cache_split L k : NoDup (map n_key L) -> is_Some (cache L !! k) ->
  exists L1 t L2, L = L1 ++ t :: L2 /\ n_key t = k /\ k ∉ map n_key (L1 ++ L2).
Proof.
  intros Hnd Hk. destruct (decide (k ∈ map n_key L)) as [Hin|Hin].
  2:{ rewrite cache_None in Hk by done. by destruct Hk. }
  apply list_elem_of_fmap in Hin as (t & -> & Ht). apply list_elem_of_split in Ht as (L1 & L2 & ->).
  exists L1, t, L2. split_and!; [done..|]. by apply not_elem_middle.
Qed.

Lemma erase_node_middle L1 t L2 : NoDup (map n_id (L1 ++ t :: L2)) ->
  erase_node (n_id t) (map n_lru (L1 ++ t :: L2)) = Some (map n_lru (L1 ++ L2)).
Proof.
  induction L1 as [|t' L1 IH]; simpl; intros H.
  - by rewrite Z.eqb_refl.
  - apply NoDup_cons in H as [Hn H]. change ((n_lru t').1) with (n_id t').
    destruct (Z.eqb_spec (n_id t') (n_id t)) as [E|_]; [|by rewrite IH].
    destruct Hn. rewrite E, map_app. apply elem_of_app. right. simpl. apply elem_of_cons. by left.
Qed.

(** A new node at the front. *)
Lemma rep_push_front s max L refs k v i0 : rep s max L refs -> k ∉ map n_key L ->
  runs (i ← lru_push_front k; set_lru_iter k i)
    (set_cache (<[k := mk_CacheEntry v i0]> (kernel_cache_ s)) s)
    (fun _ s' => rep s' max ((next_node s, k, v) :: L) refs).
Proof.
  intros [] Hk. do 2 eexists. split; [reflexivity|]. cbn. constructor; simpl; [done|by f_equal| |done| | |].
  - rewrite alter_insert_eq. simpl. by rewrite rep_cache0.
  - apply NoDup_cons. split; [|done]. intros (t & Ht & Hin)%list_elem_of_fmap.
    rewrite Forall_forall in rep_next0. specialize (rep_next0 _ Hin). cbn in Ht. lia.
  - by apply NoDup_cons.
  - constructor; [cbn; lia|]. eapply Forall_impl; [done|]. simpl. lia.
Qed.

(** The list without one node. *)
Lemma rep_without s max L1 t L2 refs : rep s max (L1 ++ t :: L2) refs ->
  rep (set_cache (cache (L1 ++ L2)) (set_lru (map n_lru (L1 ++ L2)) s)) max (L1 ++ L2) refs.
Proof.
  intros []. constructor; simpl; [done..| | |].
  - by eapply NoDup_middle.
  - by eapply NoDup_middle.
  - apply Forall_app in rep_next0 as [? H]. inversion H; subst. by apply Forall_app.
Qed.

Lemma OnRecentlyUsed_spec s max L1 t L2 refs : rep s max (L1 ++ t :: L2) refs ->
  runs (OnRecentlyUsed (n_key t)) s (fun _ s' => exists i, rep s' max ((i, n_key t, t.2) :: L1 ++ L2) refs).
Proof.
  intros Hrep. pose proof Hrep as []. unfold OnRecentlyUsed.
  apply runs_bind, runs_get, runs_bind. eapply runs_lift.
  { rewrite rep_cache0, cache_middle, lookup_insert_eq by done. reflexivity. }
  cbn [lru_iter]. case_bool_decide as Hhd.
  - apply runs_ret. exists (n_id t). destruct L1 as [|t' L1]; [by destruct t as [[? ?] ?]|].
    exfalso. rewrite rep_lru0 in Hhd. simpl in Hhd. simplify_eq.
    simpl in rep_ids0. apply NoDup_cons in rep_ids0 as [Hn _]. destruct Hn.
    change (n_id t') with ((n_lru t').1). rewrite Hhd, map_app. apply elem_of_app. right. apply elem_of_cons. by left.
  - apply runs_bind. eapply runs_lift.
    { rewrite rep_lru0. rewrite erase_node_middle by done. reflexivity. }
    apply runs_bind, runs_modify.
    pose proof (rep_without _ _ _ _ _ _ Hrep) as Hrep'.
    pose proof (rep_push_front _ _ _ _ (n_key t) t.2 (n_id t) Hrep' (not_elem_middle _ _ _ _ rep_keys0)) as HR.
    eapply runs_mono.
    + replace (set_lru (map n_lru (L1 ++ L2)) s)
        with (set_cache (<[n_key t := mk_CacheEntry t.2 (n_id t)]>
           (kernel_cache_ (set_cache (cache (L1 ++ L2)) (set_lru (map n_lru (L1 ++ L2)) s))))
           (set_cache (cache (L1 ++ L2)) (set_lru (map n_lru (L1 ++ L2)) s))); [exact HR|].
      unfold set_cache, set_lru. simpl. by rewrite rep_cache0, cache_middle.
    + intros ? s' H. eexists; exact H.
Qed.

Lemma TrimCache_spec s max L refs : 0 <= max -> rep s max L refs -> Z.of_nat (length L) <= max + 1 ->
  runs TrimCache s (fun _ s' => rep s' max (take (Z.to_nat max) L) refs).
Proof.
  intros Hmax Hrep Hlen. pose proof Hrep as []. unfold TrimCache.
  apply runs_bind, runs_get, runs_bind, runs_ASSERT.
  { rewrite rep_lru0, rep_cache0, cache_size, length_map by done. apply Nat.eqb_refl. }
  rewrite rep_cache0, cache_size, rep_max0 by done.
  destruct (Z.leb_spec (Z.of_nat (length L)) max) as [Hle|Hgt].
  { apply runs_ret. by rewrite take_ge by lia. }
  destruct L as [|t L _] using rev_ind; [simpl in Hgt; lia|]. rewrite length_app in *. simpl in Hgt, Hlen.
  apply runs_bind. eapply runs_lift.
  { rewrite rep_lru0, map_app. simpl. rewrite last_snoc. reflexivity. }
  apply runs_bind, runs_modify, runs_bind, runs_get.
  replace (kernel_cache_ _ !! _) with (Some (mk_CacheEntry t.2 (n_id t))).
  2:{ simpl. rewrite rep_cache0, cache_middle by done. by rewrite lookup_insert_eq. }
  apply runs_bind, runs_modify. apply runs_ASSERT; [done|].
  rewrite take_app_length' by lia. pose proof (rep_without _ _ _ _ _ _ Hrep) as H. rewrite app_nil_r in H.
  replace (set_cache (delete _ _) _)
    with (set_cache (cache L) (set_lru (map n_lru L) s)); [done|].
  unfold set_cache, set_lru. simpl. rewrite rep_cache0, cache_middle, app_nil_r by done.
  rewrite rep_lru0, map_app. cbn [map]. rewrite removelast_last. f_equal.
  rewrite delete_insert_id; [done|]. apply cache_None.
  pose proof (not_elem_middle _ _ _ _ rep_keys0) as Hn. by rewrite app_nil_r in Hn.
Qed.

(** ** Releasing references *)

Lemma replicate_shift {A} n (x : A) l : replicate n x ++ x :: l = x :: replicate n x ++ l.
Proof. induction n as [|n IH]; [done|]. cbn. by rewrite IH. Qed.

Lemma compact_loop_spec sig rest : forall K m to_free, exists m',
  compact_loop sig (length rest) (length K + m) (length K) (map Some K ++ replicate m None ++ map Some rest) to_free =
  Ok (map Some (K ++ List.filter (fun r => negb (sig (gpu_event r))) rest) ++ replicate m' None,
      length (K ++ List.filter (fun r => negb (sig (gpu_event r))) rest),
      to_free ++ List.filter (fun r => sig (gpu_event r)) rest).
Proof.
  induction rest as [|r rest IH]; intros K m to_free.
  { exists m. simpl. by rewrite !app_nil_r. }
  cbn [length compact_loop List.filter map].
  assert ((map Some K ++ replicate m None ++ Some r :: map Some rest) !! (length K + m)%nat = Some (Some r)) as Hr.
  { rewrite lookup_app_r, length_map by (rewrite length_map; lia).
    replace (length K + m - length K)%nat with (length (replicate m (@None QueuedReference)) + 0)%nat
      by (rewrite length_replicate; lia).
    by rewrite lookup_app_r, Nat.add_0_r, Nat.sub_diag by lia. }
  rewrite Hr. cbn [mjoin option_join in_range mbind result_bind].
  destruct (sig (gpu_event r)); cbn [negb].
  - destruct (IH K (S m) (to_free ++ [r])) as [m' E]. exists m'.
    rewrite <- Nat.add_succ_r, <- app_assoc in *. cbn [app] in *. rewrite <- E. f_equal.
    rewrite !insert_app_r_alt by (rewrite ?length_map, ?length_replicate; lia).
    rewrite length_map, length_replicate. replace (length K + m - length K - m)%nat with 0%nat by lia.
    cbn [insert list_insert]. by rewrite replicate_shift.
  - destruct (IH (K ++ [r]) m to_free) as [m' E]. exists m'.
    rewrite length_app, <- !app_assoc in E. cbn [length app] in E.
    replace (length K + 1)%nat with (S (length K)) in E by lia. cbn [plus Nat.add] in E. rewrite <- E. f_equal.
    destruct (Nat.eqb_spec (length K + m) (length K)) as [Em|Em].
    + assert (m = 0%nat) as -> by lia. simpl. by rewrite map_app, <- app_assoc.
    + destruct m as [|m]; [lia|]. rewrite (insert_app_r_alt (map Some K)) by (rewrite length_map; lia).
      rewrite length_map, Nat.sub_diag. cbn [replicate app insert list_insert].
      rewrite insert_app_r_alt by (rewrite length_map; lia). rewrite length_map.
      replace (length K + S m - length K)%nat with (S m) by lia.
      change (<[S m := None]> (Some r :: ?X)) with (Some r :: <[m := @None QueuedReference]> X).
      rewrite insert_app_r_alt by (rewrite length_replicate; lia).
      rewrite length_replicate, Nat.sub_diag. cbn [insert list_insert].
      rewrite map_app, <- app_assoc. cbn [map app].
      by rewrite replicate_shift.
Qed.

Lemma all_present_Some l : all_present (map Some l) = Ok l.
Proof. induction l as [|r l IH]; [done|]. cbn [map all_present in_range]. cbn. by rewrite IH. Qed.

Lemma ReleaseCompletedReferences_eq sig s : ReleaseCompletedReferences sig s =
  Ok (List.filter (fun r => sig (gpu_event r)) (queued_references_ s),
      set_references (List.filter (fun r => negb (sig (gpu_event r))) (queued_references_ s)) s).
Proof.
  destruct (compact_loop_spec sig (queued_references_ s) [] 0 []) as [m' E]. cbn [length replicate app map Nat.add] in E.
  unfold ReleaseCompletedReferences, get, lift, mbind, ST_bind. rewrite E. cbn. rewrite take_app_length' by (by rewrite length_map). by rewrite all_present_Some.
Qed.

(** ** Every operation follows the specification *)

Lemma has_key_ne k t : k <> n_key t -> has_key k (n_pair t) = false.
Proof. intros H. apply bool_decide_eq_false_2. cbn. unfold n_key in H. congruence. Qed.

Lemma has_key_eq t : has_key (n_key t) (n_pair t) = true.
Proof. by apply bool_decide_eq_true_2. Qed.

Lemma find_middle L1 t L2 : NoDup (map n_key (L1 ++ t :: L2)) ->
  List.find (has_key (n_key t)) (map n_pair (L1 ++ t :: L2)) = Some (n_pair t) /\
  other_keys (n_key t) (map n_pair (L1 ++ t :: L2)) = map n_pair (L1 ++ L2).
Proof.
  intros Hnd. pose proof (not_elem_middle _ _ _ _ Hnd) as Hn. clear Hnd.
  assert (forall L, n_key t ∉ map n_key L -> other_keys (n_key t) (map n_pair L) = map n_pair L) as Hid.
  { induction L as [|t' L IH]; simpl; [done|]. intros [Ht HL]%not_elem_of_cons.
    rewrite has_key_ne by done. simpl. by rewrite IH. }
  induction L1 as [|t' L1 IH]; simpl in *.
  - rewrite has_key_eq. simpl. by rewrite Hid.
  - apply not_elem_of_cons in Hn as [Ht Hn]. rewrite has_key_ne by done. simpl.
    destruct (IH Hn) as [-> ->]. done.
Qed.

Lemma find_none L k : k ∉ map n_key L -> List.find (has_key k) (map n_pair L) = None.
Proof.
  induction L as [|t L IH]; simpl; [done|]. intros [Ht HL]%not_elem_of_cons.
  rewrite has_key_ne by done. auto.
Qed.

(** The state [s] implements the abstract state [a]. *)
Definition implements (s : DmlKernelManager) (max : Z) (a : spec) : Prop :=
  exists L, rep s max L (held a) /\ cached a = map n_pair L /\ Z.of_nat (length L) <= max.

Lemma CreateCachedKernel_spec s max a k v : 0 <= max -> implements s max a ->
  runs (CreateCachedKernel k v) s (fun x s' => x = v /\ implements s' max (spec_op max (Create k v) a).2).
Proof.
  intros Hmax (L & Hrep & Ha & Hlen). unfold CreateCachedKernel. cbn [spec_op snd]. rewrite Ha.
  apply runs_bind, runs_get. rewrite (rep_cache _ _ _ _ Hrep). case_bool_decide as Hk; cbn [negb].
  - apply cache_split in Hk as (L1 & t & L2 & -> & <- & Hn); [|apply Hrep].
    apply runs_bind, runs_ret, runs_bind. eapply runs_mono; [by apply OnRecentlyUsed_spec|].
    intros ? s' [i Hs']. apply runs_bind, runs_ret, runs_ret. split; [done|].
    destruct (find_middle L1 t L2 (rep_keys _ _ _ _ Hrep)) as [-> ->].
    eexists. split; [exact Hs'|]. split; [done|]. rewrite length_app in Hlen. simpl in *. rewrite length_app. lia.
  - assert (k ∉ map n_key L) as Hn.
    { intros Hin. apply Hk. apply list_elem_of_fmap in Hin as (t & -> & Ht).
      apply list_elem_of_split in Ht as (L1 & L2 & ->). rewrite cache_middle by apply Hrep.
      rewrite lookup_insert_eq. by eexists. }
    rewrite find_none by done. apply runs_bind, runs_bind, runs_modify.
    eapply runs_mono; [exact (rep_push_front s max L (held a) k v 0 Hrep Hn)|].
    intros ? s1 H1. apply runs_bind.
    eapply runs_mono; [exact (OnRecentlyUsed_spec s1 max [] (next_node s, k, v) L _ H1)|].
    intros ? s2 [i H2]. apply runs_bind. eapply runs_mono; [apply (TrimCache_spec s2 max _ _ Hmax H2); simpl; lia|].
    intros ? s3 H3. apply runs_ret. split; [done|]. eexists. split; [exact H3|].
    split; [by rewrite fmap_take|]. rewrite length_take. lia.
Qed.

Lemma TryGetCachedKernel_spec s max a k : implements s max a ->
  runs (TryGetCachedKernel k) s (fun x s' => Found x = (spec_op max (TryGet k) a).1 /\
    implements s' max (spec_op max (TryGet k) a).2).
Proof.
  intros (L & Hrep & Ha & Hlen). unfold TryGetCachedKernel. cbn [spec_op]. rewrite Ha.
  apply runs_bind, runs_get. rewrite (rep_cache _ _ _ _ Hrep). destruct (cache L !! k) as [e|] eqn:Ek.
  - apply mk_is_Some, cache_split in Ek as (L1 & t & L2 & -> & <- & Hn); [|apply Hrep].
    apply runs_bind. eapply runs_mono; [by apply OnRecentlyUsed_spec|]. intros ? s' [i Hs'].
    apply runs_bind, runs_get, runs_bind. eapply runs_lift.
    { rewrite (rep_cache _ _ _ _ Hs'). cbn. by rewrite lookup_insert_eq. }
    apply runs_ret. destruct (find_middle L1 t L2 (rep_keys _ _ _ _ Hrep)) as [-> ->]. cbn [fst snd]. split; [done|].
    eexists. split; [exact Hs'|]. split; [done|]. rewrite length_app in Hlen. simpl in *. rewrite length_app. lia.
  - apply runs_ret. rewrite find_none; [split; [done|]; by exists L|].
    intros (t & -> & Ht)%list_elem_of_fmap. apply list_elem_of_split in Ht as (L1 & L2 & ->).
    rewrite cache_middle, lookup_insert_eq in Ek by apply Hrep. done.
Qed.

Lemma run_op_spec s max a o : 0 <= max -> implements s max a ->
  runs (run_op o) s (fun x s' => x = (spec_op max o a).1 /\ implements s' max (spec_op max o a).2).
Proof.
  intros Hmax Himp. destruct o as [k v|k|k e|completed| |].
  - apply runs_bind. eapply runs_mono; [by apply CreateCachedKernel_spec|].
    intros x s' [-> H]. by apply runs_ret.
  - apply runs_bind. eapply runs_mono; [by apply TryGetCachedKernel_spec|].
    intros x s' [-> H]. by apply runs_ret.
  - destruct Himp as (L & [] & Ha & Hlen). do 2 eexists. split; [reflexivity|]. split; [done|].
    exists L. split; [|done]. constructor; try done. cbn. by rewrite rep_refs0.
  - destruct Himp as (L & [] & Ha & Hlen). do 2 eexists. cbn.
    unfold mbind, ST_bind. rewrite ReleaseCompletedReferences_eq. split; [reflexivity|].
    rewrite rep_refs0. split; [done|]. exists L. split; [|done]. by constructor.
  - destruct Himp as (L & [] & Ha & Hlen). do 2 eexists. split; [reflexivity|]. simpl.
    rewrite rep_cache0, cache_size by done. rewrite Ha, length_map. split; [done|]. exists L. split; [|done]. by constructor.
  - destruct Himp as (L & [] & Ha & Hlen). do 2 eexists. split; [reflexivity|]. split; [done|].
    exists []. split; [|split; [done|simpl; lia]]. constructor; try done; constructor.
Qed.

(** C13: whatever sequence of calls the threads make, a new manager answers
    like a cache of at most [max] kernels that evicts the least recently used
    one, releases exactly the references whose event is signaled, in the order
    they were queued, and never fails an assertion. *)
Theorem manager_is_lru_cache max os : 0 <= max ->
  exists s', run_ops os (make_DmlKernelManager max) = Ok ((spec_ops max os (mk_spec [] [])).1, s') /\
    let a := (spec_ops max os (mk_spec [] [])).2 in
    implements s' max a /\ Z.of_nat (length (cached a)) <= max.
Proof.
  intros Hmax.
  assert (forall s a, implements s max a -> runs (run_ops os) s (fun xs s' =>
    xs = (spec_ops max os a).1 /\ implements s' max (spec_ops max os a).2)) as Hall.
  { induction os as [|o os IH]; intros s a Ha; [by apply runs_ret|]. simpl.
    apply runs_bind. eapply runs_mono; [by apply run_op_spec|]. intros x s' [-> Hs'].
    apply runs_bind. eapply runs_mono; [by apply IH|]. intros xs s'' [-> Hs''].
    destruct (spec_op max o a) as [y b]. simpl in *. destruct (spec_ops max os b) as [ys c]. by apply runs_ret. }
  destruct (Hall (make_DmlKernelManager max) (mk_spec [] [])) as (xs & s' & Hrun & -> & Himp).
  { exists []. split; [|split; [done|simpl; lia]]. constructor; try done; constructor. }
  exists s'. split; [done|]. split; [done|]. destruct Himp as (L & _ & -> & Hlen). by rewrite length_map.
Qed.
End manager.

Arguments DmlKernelManager : clear implicits.
Arguments DmlKernelManager key {_ _} kernel.

Definition example_ops : list (op (key := string) (kernel := Z)) :=
  [Create "a" 1; Create "b" 2; TryGet "a"; Create "c" 3; TryGet "b"; Create "a" 4; TryGet "a";
   Queue 1 (mk_event 5 1); Queue 2 (mk_event 7 1); Release (fun _ => 5); CacheSize].

Definition example_answers : list (answer (kernel := Z)) :=
  [Kernel 1; Kernel 2; Found (Some 1); Kernel 3; Found None; Kernel 4; Found (Some 1);
   Done; Done; Released [mk_QueuedReference 1 (mk_event 5 1)]; Size 2].

Lemma manager_is_lru_cache_witness :
  (spec_ops 2 example_ops (mk_spec [] [])).1 = example_answers /\
  exists s', run_ops example_ops (make_DmlKernelManager 2) = Ok (example_answers, s').
Proof.
  split; [reflexivity|].
  destruct (manager_is_lru_cache 2 example_ops ltac:(lia)) as (s' & Hrun & _). exists s'. exact Hrun.
Defined.
