(* ===== verification/Philox.v ===== *)
(** * The random number generator

    [PhiloxRandom] (runtime_adapter/philox_random.h), the counter-based
    generator; [GuardedPhiloxRandom]
    (runtime_adapter/guarded_philox_random.{h,cc}), which hands out disjoint
    parts of its stream; [GenerateKey] (runtime_adapter/stateless_random_ops.cc)
    and the conversions of runtime_adapter/random_ops_util.h.  A [uint32_t] is
    a number below 2^32. *)

From S2P Require Import Prelude.

(** ** PhiloxRandom *)

Record ResultType := mk_result { c0 : Z; c1 : Z; c2 : Z; c3 : Z }.
Record Key := mk_key { k0 : Z; k1 : Z }.

#[export] Instance ResultType_eq_dec : EqDecision ResultType.
Proof. solve_decision. Defined.

#[export] Instance Key_eq_dec : EqDecision Key.
Proof. solve_decision. Defined.

Record PhiloxRandom := mk_philox { counter_ : ResultType; key_ : Key }.

Definition PhiloxRandom_seed (seed : Z) : PhiloxRandom :=
  mk_philox (mk_result 0 0 0 0) (mk_key (u32 seed) (u32 (Z.shiftr (u64 seed) 32))).

Definition PhiloxRandom_seeds (seed_lo seed_hi : Z) : PhiloxRandom :=
  mk_philox (mk_result 0 0 (u32 seed_hi) (u32 (Z.shiftr (u64 seed_hi) 32)))
    (mk_key (u32 seed_lo) (u32 (Z.shiftr (u64 seed_lo) 32))).

Definition kPhiloxW32A : Z := 0x9E3779B9.
Definition kPhiloxW32B : Z := 0xBB67AE85.
Definition kPhiloxM4x32A : Z := 0xD2511F53.
Definition kPhiloxM4x32B : Z := 0xCD9E8D57.

Definition Skip_counter (count : Z) (c : ResultType) : ResultType :=
  let count_lo := u32 count in
  let count_hi := u32 (Z.shiftr count 32) in
  let d0 := u32 (c0 c + count_lo) in
  let count_hi := if d0 <? count_lo then u32 (count_hi + 1) else count_hi in
  let d1 := u32 (c1 c + count_hi) in
  if d1 <? count_hi then
    let d2 := u32 (c2 c + 1) in
    if d2 =? 0 then mk_result d0 d1 d2 (u32 (c3 c + 1)) else mk_result d0 d1 d2 (c3 c)
  else mk_result d0 d1 (c2 c) (c3 c).

Definition Skip (count : Z) (g : PhiloxRandom) : PhiloxRandom :=
  mk_philox (Skip_counter count (counter_ g)) (key_ g).

Definition SkipOne_counter (c : ResultType) : ResultType :=
  let d0 := u32 (c0 c + 1) in
  if d0 =? 0 then
    let d1 := u32 (c1 c + 1) in
    if d1 =? 0 then
      let d2 := u32 (c2 c + 1) in
      if d2 =? 0 then mk_result d0 d1 d2 (u32 (c3 c + 1)) else mk_result d0 d1 d2 (c3 c)
    else mk_result d0 d1 (c2 c) (c3 c)
  else mk_result d0 (c1 c) (c2 c) (c3 c).

Definition SkipOne (g : PhiloxRandom) : PhiloxRandom := mk_philox (SkipOne_counter (counter_ g)) (key_ g).

(** The low and the high half of the product. *)
Definition MultiplyHighLow (a b : Z) : Z * Z :=
  let product := u64 (a * b) in (u32 product, u32 (Z.shiftr product 32)).

Definition ComputeSingleRound (counter : ResultType) (key : Key) : ResultType :=
  let '(lo0, hi0) := MultiplyHighLow kPhiloxM4x32A (c0 counter) in
  let '(lo1, hi1) := MultiplyHighLow kPhiloxM4x32B (c2 counter) in
  mk_result (Z.lxor (Z.lxor hi1 (c1 counter)) (k0 key)) lo1
            (Z.lxor (Z.lxor hi0 (c3 counter)) (k1 key)) lo0.

Definition RaiseKey (key : Key) : Key := mk_key (u32 (k0 key + kPhiloxW32A)) (u32 (k1 key + kPhiloxW32B)).

(** One round and the next key. *)
Definition round_and_raise (ck : ResultType * Key) : ResultType * Key :=
  (ComputeSingleRound ck.1 ck.2, RaiseKey ck.2).

(** [operator()]: ten rounds, the key raised between them. *)
Definition generate (g : PhiloxRandom) : ResultType * PhiloxRandom :=
  let ck := (counter_ g, key_ g) in
  let ck := round_and_raise ck in
  let ck := round_and_raise ck in
  let ck := round_and_raise ck in
  let ck := round_and_raise ck in
  let ck := round_and_raise ck in
  let ck := round_and_raise ck in
  let ck := round_and_raise ck in
  let ck := round_and_raise ck in
  let ck := round_and_raise ck in
  (ComputeSingleRound ck.1 ck.2, SkipOne g).

(** ** GuardedPhiloxRandom *)

Record GuardedPhiloxRandom := mk_guarded { generator_ : PhiloxRandom; initialized_ : bool }.

Definition make_GuardedPhiloxRandom : GuardedPhiloxRandom :=
  mk_guarded (mk_philox (mk_result 0 0 0 0) (mk_key 0 0)) false.

(** What [Init] reads: the attributes "seed" and "seed2" with the status of
    reading them, and the two random seeds it may draw. *)
Record seed_source := mk_seed_source {
  attr_seed : Status * Z;
  attr_seed2 : Status * Z;
  OpDeterminismRequired : bool;
  New64 : Z * Z }.

Definition Init (ctx : seed_source) : ST GuardedPhiloxRandom Status :=
  s ← get;
  lift (CHECK (negb (initialized_ s)));;
  let '(status, seed) := attr_seed ctx in
  if negb (status_ok status) then mret status
  else
    let '(status, seed2) := attr_seed2 ctx in
    if negb (status_ok status) then mret status
    else if (seed =? 0) && (seed2 =? 0) && OpDeterminismRequired ctx then
      mret (InvalidArgument "When determinism is enabled, random ops must have a seed specified.")
    else
      let '(seed, seed2) := if (seed =? 0) && (seed2 =? 0) then New64 ctx else (seed, seed2) in
      put (mk_guarded (PhiloxRandom_seeds (u64 seed) (u64 seed2)) true);;
      mret Status_OK.

Definition ReserveSamples128 (samples : Z) : ST GuardedPhiloxRandom PhiloxRandom :=
  s ← get;
  lift (CHECK (initialized_ s));;
  put (mk_guarded (Skip (u64 samples) (generator_ s)) (initialized_ s));;
  mret (generator_ s).

Definition ReserveRandomOutputs (output_count multiplier : Z) : ST GuardedPhiloxRandom PhiloxRandom :=
  ReserveSamples128 (i64 (output_count * multiplier)).

(** ** Conversions *)

Definition Uint64ToUint32s (input : Z) : Z * Z := (u32 input, u32 (Z.shiftr input 32)).
Definition Uint32sToUint64 (input1 input2 : Z) : Z := Z.lor input1 (u64 (Z.shiftl input2 32)).

(** Two words of memory. *)
Definition GetCounterFromMem (ptr : Z * Z) : ResultType :=
  let '(x0, x1) := Uint64ToUint32s ptr.1 in
  let '(x2, x3) := Uint64ToUint32s ptr.2 in mk_result x0 x1 x2 x3.

Definition WriteCounterToMem (counter : ResultType) : Z * Z :=
  (Uint32sToUint64 (c0 counter) (c1 counter), Uint32sToUint64 (c2 counter) (c3 counter)).

Definition GetKeyFromMem (ptr : Z) : Key := let '(x0, x1) := Uint64ToUint32s ptr in mk_key x0 x1.
Definition WriteKeyToMem (key : Key) : Z := Uint32sToUint64 (k0 key) (k1 key).

Definition GetPhiloxRandomFromCounterKeyMem (counter_ptr : Z * Z) (key_ptr : Z) : PhiloxRandom :=
  mk_philox (GetCounterFromMem counter_ptr) (GetKeyFromMem key_ptr).

(** ** GenerateKey

    The seed tensor is the type and the values of its elements. *)

Inductive seed_dtype := TF_INT32 | TF_INT64 | TF_OTHER (name : string).

Definition GenerateKey (dtype : seed_dtype) (seed_vals : Z * Z) : Status + (Key * ResultType) :=
  match dtype with
  | TF_OTHER name => inl (InvalidArgument ("Invalid seed type: " +:+ name))
  | TF_INT32 | TF_INT64 =>
      let seed0 := u64 seed_vals.1 in
      let seed1 := u64 seed_vals.2 in
      let out_key := mk_key 0x3ec8f720 0x02461e29 in
      let out_counter := mk_result (u32 seed0) (u32 (Z.shiftr seed0 32))
                           (u32 seed1) (u32 (Z.shiftr seed1 32)) in
      let mix := (generate (mk_philox out_counter out_key)).1 in
      inr (mk_key (c0 mix) (c1 mix), mk_result 0 0 (c2 mix) (c3 mix))
  end.
