(* ===== verification/PhiloxProofs.v ===== *)
(** * Theorems on the random number generator

    The counter is a 128-bit number that [SkipOne] and [Skip] add to; the ten
    rounds are a bijection of it, so that the samples of a stream, whoever
    draws them, never repeat. *)

From S2P Require Import Prelude Philox.

(** ** The counter as a 128-bit number *)

Definition is_u32 (x : Z) : Prop := 0 <= x < 2 ^ 32.

Record counter_wf (c : ResultType) : Prop := mk_counter_wf {
  wf0 : is_u32 (c0 c); wf1 : is_u32 (c1 c); wf2 : is_u32 (c2 c); wf3 : is_u32 (c3 c) }.

Definition key_wf (k : Key) : Prop := is_u32 (k0 k) /\ is_u32 (k1 k).

Definition counter_value (c : ResultType) : Z :=
  c0 c + 2 ^ 32 * c1 c + 2 ^ 64 * c2 c + 2 ^ 96 * c3 c.

Lemma u32_is_u32 x : is_u32 (u32 x).
Proof. apply u32_range. Qed.
#[local] Hint Resolve u32_is_u32 : core.

Ltac counter_wf := constructor; cbn [c0 c1 c2 c3]; auto.
(** The value of a counter whose words are known. *)
Ltac value := unfold counter_value in *; cbn [c0 c1 c2 c3].

(** Addition of words: its result, its carry and the test for the carry. *)
Lemma u32_add_carry x y : is_u32 x -> is_u32 y ->
  (u32 (x + y) = x + y /\ x + y < 2 ^ 32 /\ (u32 (x + y) <? y) = false) \/
  (u32 (x + y) = x + y - 2 ^ 32 /\ 2 ^ 32 <= x + y /\ (u32 (x + y) <? y) = true).
Proof.
  unfold is_u32. intros Hx Hy. destruct (decide (x + y < 2 ^ 32)) as [H|H].
  - left. rewrite u32_small by lia. split_and!; [done|done|]. apply Z.ltb_ge. lia.
  - right. unfold u32. rewrite <- (Z_mod_plus_full _ (-1)), Z.mod_small by lia.
    split_and!; [lia|lia|]. apply Z.ltb_lt. lia.
Qed.

Lemma u32_succ x : is_u32 x ->
  (u32 (x + 1) = x + 1 /\ x + 1 < 2 ^ 32 /\ (u32 (x + 1) =? 0) = false) \/
  (u32 (x + 1) = 0 /\ x = 2 ^ 32 - 1 /\ (u32 (x + 1) =? 0) = true).
Proof.
  unfold is_u32. intros Hx. destruct (decide (x + 1 < 2 ^ 32)) as [H|H].
  - left. rewrite u32_small by lia. split_and!; [done|done|]. apply Z.eqb_neq. lia.
  - right. assert (x = 2 ^ 32 - 1) as -> by lia. done.
Qed.

Lemma counter_value_range c : counter_wf c -> 0 <= counter_value c < 2 ^ 128.
Proof. intros [[] [] [] []]. unfold counter_value. lia. Qed.

Lemma counter_value_inj c d : counter_wf c -> counter_wf d ->
  counter_value c = counter_value d -> c = d.
Proof.
  intros [[] [] [] []] [[] [] [] []] E. unfold counter_value in E. destruct c, d; simpl in *. f_equal; lia.
Qed.

Lemma SkipOne_counter_spec c : counter_wf c ->
  counter_wf (SkipOne_counter c) /\
  counter_value (SkipOne_counter c) = (counter_value c + 1) `mod` 2 ^ 128.
Proof.
  intros Hc. pose proof (counter_value_range c Hc) as Hr. destruct Hc as [H0 H1 H2 H3].
  unfold SkipOne_counter. cbv zeta. unfold is_u32 in H0, H1, H2, H3.
  destruct (u32_succ _ H0) as [(E0 & L0 & ->)|(E0 & L0 & ->)].
  { split; [counter_wf|]. value. rewrite E0, Z.mod_small; lia. }
  destruct (u32_succ _ H1) as [(E1 & L1 & ->)|(E1 & L1 & ->)].
  { split; [counter_wf|]. value. rewrite E0, E1, Z.mod_small; lia. }
  destruct (u32_succ _ H2) as [(E2 & L2 & ->)|(E2 & L2 & ->)].
  { split; [counter_wf|]. value. rewrite E0, E1, E2, Z.mod_small; lia. }
  split; [counter_wf|]. value. rewrite E0, E1, E2.
  destruct (u32_succ _ H3) as [(E3 & L3 & _)|(E3 & L3 & _)]; rewrite E3.
  - rewrite Z.mod_small; lia.
  - rewrite L0, L1, L2, L3. reflexivity.
Qed.

(** The counts for which the carry into the high word does not wrap. *)
Definition skippable (count : Z) : Prop := 0 <= count < 2 ^ 64 - 2 ^ 32.

Lemma mod_once x m : m <= x < 2 * m -> x `mod` m = x - m.
Proof. intros H. rewrite <- (Z_mod_plus_full x (-1) m), Z.mod_small; lia. Qed.

(** Adding to the words above the lowest. *)
Lemma add_high_spec d0 hi c : is_u32 d0 -> is_u32 hi -> counter_wf c ->
  let r := (let d1 := u32 (c1 c + hi) in
            if d1 <? hi then
              let d2 := u32 (c2 c + 1) in
              if d2 =? 0 then mk_result d0 d1 d2 (u32 (c3 c + 1)) else mk_result d0 d1 d2 (c3 c)
            else mk_result d0 d1 (c2 c) (c3 c)) in
  counter_wf r /\ counter_value r = (counter_value c - c0 c + d0 + 2 ^ 32 * hi) `mod` 2 ^ 128.
Proof.
  intros Hd Hhi [H0 H1 H2 H3]. cbv zeta. unfold is_u32 in H0, H1, H2, H3, Hd, Hhi.
  destruct (u32_add_carry _ _ H1 Hhi) as [(E1 & L1 & ->)|(E1 & L1 & ->)].
  { split; [counter_wf|]. value. rewrite E1, Z.mod_small; lia. }
  destruct (u32_succ _ H2) as [(E2 & L2 & ->)|(E2 & L2 & ->)].
  { split; [counter_wf|]. value. rewrite E1, E2, Z.mod_small; lia. }
  split; [counter_wf|]. value. rewrite E1, E2.
  destruct (u32_succ _ H3) as [(E3 & L3 & _)|(E3 & L3 & _)]; rewrite E3; [rewrite Z.mod_small; lia|].
  rewrite mod_once; lia.
Qed.

Lemma Skip_counter_spec count c : skippable count -> counter_wf c ->
  counter_wf (Skip_counter count c) /\
  counter_value (Skip_counter count c) = (counter_value c + count) `mod` 2 ^ 128.
Proof.
  intros Hcount Hc. unfold Skip_counter, skippable in *. rewrite Z.shiftr_div_pow2 by lia. cbv zeta.
  pose proof (Z.div_mod count (2 ^ 32) ltac:(lia)) as Hdm. fold (u32 count) in Hdm.
  assert (0 <= count / 2 ^ 32 < 2 ^ 32 - 1) as Hhi.
  { split; [apply Z.div_pos; lia|apply Z.div_lt_upper_bound; lia]. }
  rewrite (u32_small (count / 2 ^ 32)) by lia.
  destruct (u32_add_carry _ _ (wf0 _ Hc) (u32_is_u32 count)) as [(E0 & L0 & ->)|(E0 & L0 & ->)].
  - destruct (add_high_spec (u32 (c0 c + u32 count)) (count / 2 ^ 32) c) as [Hwf Hv]; [auto|unfold is_u32; lia|done|].
    split; [exact Hwf|]. etransitivity; [exact Hv|]. f_equal. lia.
  - rewrite (u32_small (count / 2 ^ 32 + 1)) by lia.
    destruct (add_high_spec (u32 (c0 c + u32 count)) (count / 2 ^ 32 + 1) c) as [Hwf Hv]; [auto|unfold is_u32; lia|done|].
    split; [exact Hwf|]. etransitivity; [exact Hv|]. f_equal. lia.
Qed.

(** Beyond these counts the carry is lost: the code adds one to a [count_hi]
    of all ones. *)
Lemma Skip_loses_carry :
  counter_value (Skip_counter (2 ^ 64 - 1) (mk_result 1 0 0 0)) = 0.
Proof. reflexivity. Qed.

(** ** A round is a bijection of the counter *)

Lemma lxor_u32 x y : is_u32 x -> is_u32 y -> is_u32 (Z.lxor x y).
Proof.
  unfold is_u32. intros Hx Hy. split; [apply Z.lxor_nonneg; lia|].
  destruct (decide (Z.lxor x y = 0)) as [->|]; [lia|].
  assert (0 < Z.lxor x y) by (pose proof (proj2 (Z.lxor_nonneg x y)); lia).
  apply Z.log2_lt_pow2; [done|]. eapply Z.le_lt_trans; [apply Z.log2_lxor; lia|].
  apply Z.max_lub_lt.
  - destruct (decide (x = 0)) as [->|]; [done|]. apply Z.log2_lt_pow2; lia.
  - destruct (decide (y = 0)) as [->|]; [done|]. apply Z.log2_lt_pow2; lia.
Qed.

Lemma MultiplyHighLow_spec a b : is_u32 a -> is_u32 b ->
  MultiplyHighLow a b = (u32 (a * b), (a * b) / 2 ^ 32) /\ is_u32 ((a * b) / 2 ^ 32).
Proof.
  unfold is_u32. intros Ha Hb. unfold MultiplyHighLow. rewrite u64_small by nia.
  rewrite Z.shiftr_div_pow2 by lia.
  assert (0 <= a * b / 2 ^ 32 < 2 ^ 32) as H; [|by rewrite (u32_small (_ / _))].
  split; [apply Z.div_pos; nia|]. apply Z.div_lt_upper_bound; nia.
Qed.

Lemma ComputeSingleRound_wf c k : counter_wf c -> key_wf k -> counter_wf (ComputeSingleRound c k).
Proof.
  intros [] []. unfold ComputeSingleRound.
  destruct (MultiplyHighLow_spec kPhiloxM4x32A (c0 c)) as [-> ?]; [done..|].
  destruct (MultiplyHighLow_spec kPhiloxM4x32B (c2 c)) as [-> ?]; [done..|].
  counter_wf; repeat apply lxor_u32; done.
Qed.

Lemma RaiseKey_wf k : key_wf (RaiseKey k).
Proof. split; apply u32_is_u32. Qed.

(** The inverses modulo 2^32 of the two odd multipliers. *)
Definition inverse_A : Z := 2568649947.
Definition inverse_B : Z := 1836887655.

Definition undo_round (r : ResultType) (key : Key) : ResultType :=
  let d0 := u32 (inverse_A * c3 r) in
  let d2 := u32 (inverse_B * c1 r) in
  mk_result d0 (Z.lxor (Z.lxor (c0 r) (k0 key)) ((kPhiloxM4x32B * d2) / 2 ^ 32))
            d2 (Z.lxor (Z.lxor (c2 r) (k1 key)) ((kPhiloxM4x32A * d0) / 2 ^ 32)).

Lemma u32_inverse m i x q : is_u32 x -> i * m = 1 + 2 ^ 32 * q -> u32 (i * u32 (m * x)) = x.
Proof.
  intros Hx Hm. unfold u32. rewrite Zmult_mod_idemp_r, Z.mul_assoc, Hm.
  replace ((1 + 2 ^ 32 * q) * x) with (x + q * x * 2 ^ 32) by lia.
  rewrite Z_mod_plus_full. apply Z.mod_small. exact Hx.
Qed.

Lemma lxor_undo h c k : Z.lxor (Z.lxor (Z.lxor (Z.lxor h c) k) k) h = c.
Proof. by rewrite (Z.lxor_assoc (Z.lxor h c)), Z.lxor_nilpotent, Z.lxor_0_r, (Z.lxor_comm h), Z.lxor_assoc,
  Z.lxor_nilpotent, Z.lxor_0_r. Qed.

Lemma undo_round_spec c k : counter_wf c -> undo_round (ComputeSingleRound c k) k = c.
Proof.
  intros []. unfold ComputeSingleRound, undo_round.
  destruct (MultiplyHighLow_spec kPhiloxM4x32A (c0 c)) as [-> _]; [done..|].
  destruct (MultiplyHighLow_spec kPhiloxM4x32B (c2 c)) as [-> _]; [done..|]. cbv [Philox.c0 Philox.c1 Philox.c2 Philox.c3].
  rewrite (u32_inverse _ _ (c0 c) 2110275209), (u32_inverse _ _ (c2 c) 1475389199), !lxor_undo by done.
  by destruct c.
Qed.

(** ** The samples of a stream *)

Definition sample (g : PhiloxRandom) : ResultType := (generate g).1.

Lemma generate_iter g :
  sample g = ComputeSingleRound (Nat.iter 9 round_and_raise (counter_ g, key_ g)).1
               (Nat.iter 9 round_and_raise (counter_ g, key_ g)).2.
Proof. reflexivity. Qed.

Lemma rounds_wf n c k : counter_wf c -> key_wf k ->
  counter_wf (Nat.iter n round_and_raise (c, k)).1 /\ key_wf (Nat.iter n round_and_raise (c, k)).2.
Proof.
  intros Hc Hk. induction n as [|n [IHc IHk]]; [done|]. simpl. split; [by apply ComputeSingleRound_wf|apply RaiseKey_wf].
Qed.

Lemma rounds_inj n c d k : counter_wf c -> counter_wf d -> key_wf k ->
  (Nat.iter n round_and_raise (c, k)).2 = (Nat.iter n round_and_raise (d, k)).2 /\
  ((Nat.iter n round_and_raise (c, k)).1 = (Nat.iter n round_and_raise (d, k)).1 -> c = d).
Proof.
  intros Hc Hd Hk. induction n as [|n [IHk IHc]]; [done|]. simpl. rewrite IHk. split; [done|].
  intros E. apply IHc. destruct (rounds_wf n c k Hc Hk) as [Hc' _]. destruct (rounds_wf n d k Hd Hk) as [Hd' _].
  apply (f_equal (fun r => undo_round r (Nat.iter n round_and_raise (d, k)).2)) in E.
  by rewrite !undo_round_spec in E.
Qed.

Lemma sample_inj c d k : counter_wf c -> counter_wf d -> key_wf k ->
  sample (mk_philox c k) = sample (mk_philox d k) -> c = d.
Proof.
  intros Hc Hd Hk. rewrite !generate_iter. cbn [counter_ key_].
  destruct (rounds_inj 9 c d k Hc Hd Hk) as [<- Hinj]. intros E. apply Hinj.
  destruct (rounds_wf 9 c k Hc Hk) as [Hc' _]. destruct (rounds_wf 9 d k Hd Hk) as [Hd' _].
  apply (f_equal (fun r => undo_round r (Nat.iter 9 round_and_raise (c, k)).2)) in E.
  rewrite !undo_round_spec in E by done. exact E.
Qed.

Definition philox_wf (g : PhiloxRandom) : Prop := counter_wf (counter_ g) /\ key_wf (key_ g).

(** [n] calls of [operator()]. *)
Fixpoint draw (n : nat) (g : PhiloxRandom) : list ResultType :=
  match n with
  | O => []
  | S n => let '(r, g) := generate g in r :: draw n g
  end.

Lemma draw_S n g : draw (S n) g = sample g :: draw n (SkipOne g).
Proof. reflexivity. Qed.

Definition advance (n : nat) (g : PhiloxRandom) : PhiloxRandom := Nat.iter n SkipOne g.

Lemma advance_S n g : advance (S n) g = advance n (SkipOne g).
Proof. unfold advance. rewrite Nat.iter_succ_r. done. Qed.

Lemma draw_app n m g : draw (n + m) g = draw n g ++ draw m (advance n g).
Proof.
  revert g. induction n as [|n IH]; intros g; [done|].
  rewrite Nat.add_succ_l, !draw_S, IH, advance_S. done.
Qed.

Lemma draw_seq n g : draw n g = map (fun i => sample (advance i g)) (seq 0 n).
Proof.
  revert g. induction n as [|n IH]; intros g; [done|].
  rewrite draw_S, IH, <- cons_seq, <- seq_shift. cbn [map]. f_equal. rewrite map_map.
  apply map_ext. intros i. by rewrite advance_S.
Qed.

Lemma advance_spec n g : philox_wf g ->
  philox_wf (advance n g) /\ key_ (advance n g) = key_ g /\
  counter_value (counter_ (advance n g)) = (counter_value (counter_ g) + Z.of_nat n) `mod` 2 ^ 128.
Proof.
  intros [Hc Hk]. induction n as [|n ([IHc IHk] & IHkey & IHv)].
  - simpl. split_and!; [by split|done|]. pose proof (counter_value_range _ Hc). rewrite Z.mod_small; lia.
  - change (advance (S n) g) with (SkipOne (advance n g)).
    destruct (SkipOne_counter_spec _ IHc) as [Hwf Hv]. split_and!; [by split|done|].
    change (counter_ (SkipOne ?h)) with (SkipOne_counter (counter_ h)). rewrite Hv, IHv, Zplus_mod_idemp_l. f_equal. lia.
Qed.

Lemma Skip_advance count g : skippable count -> philox_wf g -> Skip count g = advance (Z.to_nat count) g.
Proof.
  intros Hcount Hg. destruct (advance_spec (Z.to_nat count) g Hg) as ([Hc Hk] & Hkey & Hv).
  destruct Hg as [Hcg Hkg]. destruct (Skip_counter_spec count _ Hcount Hcg) as [Hwf Hval].
  destruct (advance (Z.to_nat count) g) as [ac ak]. unfold Skip. simpl in *. subst ak. f_equal.
  apply counter_value_inj; [done..|]. rewrite Hval, Hv. unfold skippable in Hcount. f_equal. lia.
Qed.

Lemma draw_NoDup n g : philox_wf g -> Z.of_nat n <= 2 ^ 128 -> NoDup (draw n g).
Proof.
  intros Hg Hn. rewrite draw_seq. apply NoDup_fmap_2_strong; [|apply NoDup_seq].
  intros i j Hi%elem_of_seq Hj%elem_of_seq E.
  destruct (advance_spec i g Hg) as ([Hci Hki] & Hkeyi & Hvi).
  destruct (advance_spec j g Hg) as ([Hcj Hkj] & Hkeyj & Hvj).
  destruct (advance i g) as [ci ki], (advance j g) as [cj kj]. simpl in *. subst ki kj.
  apply sample_inj in E; [|done..]. subst cj. rewrite Hvi in Hvj. destruct Hg as [Hc _].
  pose proof (counter_value_range _ Hc). assert (Z.of_nat i = Z.of_nat j); [|lia].
  assert (forall a, 0 <= a < 2 ^ 128 -> ((counter_value (counter_ g) + a) `mod` 2 ^ 128 - counter_value (counter_ g)) `mod` 2 ^ 128 = a)
    as Hback.
  { intros a Ha. rewrite Zminus_mod_idemp_l. replace (_ + a - _) with a by lia. by apply Z.mod_small. }
  rewrite <- (Hback (Z.of_nat i)), <- (Hback (Z.of_nat j)) by lia. by rewrite Hvj.
Qed.

(** ** Clients of one guarded generator *)

(** Clients reserve their samples one after the other, in any order of threads;
    each is given a number of samples and a generator of its own. *)
Fixpoint reserve_all (rs : list (Z * Z)) : ST GuardedPhiloxRandom (list (nat * PhiloxRandom)) :=
  match rs with
  | [] => mret []
  | (output_count, multiplier) :: rs =>
      g ← ReserveRandomOutputs output_count multiplier;
      l ← reserve_all rs;
      mret ((Z.to_nat (output_count * multiplier), g) :: l)
  end.

(** The conversion of the product to [int64_t] does not overflow. *)
Definition valid_request (r : Z * Z) : Prop := 0 <= r.1 /\ 0 <= r.2 /\ r.1 * r.2 < 2 ^ 63.

Lemma ReserveRandomOutputs_eq oc m s : valid_request (oc, m) -> initialized_ s = true -> philox_wf (generator_ s) ->
  ReserveRandomOutputs oc m s =
    Ok (generator_ s, mk_guarded (advance (Z.to_nat (oc * m)) (generator_ s)) true).
Proof.
  intros (H1 & H2 & H3) Hi Hg. cbn [fst snd] in *.
  unfold ReserveRandomOutputs, ReserveSamples128. unfold mbind, ST_bind, get, lift. rewrite Hi. cbn.
  rewrite i64_small, u64_small, Skip_advance by (unfold skippable; (done || nia)). done.
Qed.

Lemma reserve_all_spec rs : forall s,
  initialized_ s = true -> philox_wf (generator_ s) -> Forall valid_request rs ->
  exists l s', reserve_all rs s = Ok (l, s') /\
    concat (map (fun x => draw x.1 x.2) l) = draw (Z.to_nat (Zsum (fun r => r.1 * r.2) rs)) (generator_ s).
Proof.
  induction rs as [|[oc m] rs IH]; intros s Hi Hg Hrs; [by do 2 eexists|].
  apply Forall_cons in Hrs as [Hr Hrs].
  destruct (IH (mk_guarded (advance (Z.to_nat (oc * m)) (generator_ s)) true)) as (l & s' & E & Hl);
    [done|by apply advance_spec|done|].
  cbn [reserve_all]. unfold mbind, ST_bind. rewrite ReserveRandomOutputs_eq by done. rewrite E.
  do 2 eexists. split; [reflexivity|]. cbn [map concat fst snd]. rewrite Hl. cbn [generator_].
  rewrite <- draw_app. f_equal. cbn [Zsum foldr fst snd]. destruct Hr as (? & ? & ?). cbn [fst snd] in *.
  assert (0 <= Zsum (fun r : Z * Z => r.1 * r.2) rs).
  { apply Zsum_nonneg. eapply Forall_impl; [done|]. intros r (? & ? & ?). nia. }
  unfold Zsum in *. rewrite Z2Nat.inj_add; [done|nia|done].
Qed.

Lemma Init_wf ctx s st : Init ctx make_GuardedPhiloxRandom = Ok (st, s) -> status_ok st = true ->
  initialized_ s = true /\ philox_wf (generator_ s).
Proof.
  unfold Init. cbn. destruct (attr_seed ctx) as [st1 x1], (attr_seed2 ctx) as [st2 x2].
  destruct (status_ok st1) eqn:E1; cbn; [|intros [= <- <-]; congruence]. destruct (status_ok st2) eqn:E2; cbn; [|intros [= <- <-]; congruence].
  destruct (_ && OpDeterminismRequired ctx); cbn; [intros [= <- <-]; done|].
  destruct (if _ && _ then New64 ctx else _) as [y1 y2]; cbn. intros [= <- <-] _. split; [done|].
  split; [constructor; cbn [generator_ counter_ PhiloxRandom_seeds c0 c1 c2 c3]; auto; unfold is_u32; lia|].
  split; apply u32_is_u32.
Qed.

(** C24: the samples that the clients of a guarded generator draw, each from the
    generator it was given, are together exactly the stream of the seeded
    generator, and no sample of 128 bits occurs twice, within or across clients. *)
Theorem reserved_samples_distinct ctx st s rs :
  Init ctx make_GuardedPhiloxRandom = Ok (st, s) -> status_ok st = true ->
  Forall valid_request rs -> Zsum (fun r => r.1 * r.2) rs <= 2 ^ 128 ->
  exists l s', reserve_all rs s = Ok (l, s') /\
    concat (map (fun x => draw x.1 x.2) l) = draw (Z.to_nat (Zsum (fun r => r.1 * r.2) rs)) (generator_ s) /\
    NoDup (concat (map (fun x => draw x.1 x.2) l)).
Proof.
  intros Hinit Hst Hrs Hsum. destruct (Init_wf _ _ _ Hinit Hst) as [Hi Hg].
  destruct (reserve_all_spec rs s Hi Hg Hrs) as (l & s' & E & Hl). exists l, s'. split_and!; [done..|].
  rewrite Hl. apply draw_NoDup; [done|]. assert (0 <= Zsum (fun r : Z * Z => r.1 * r.2) rs); [|lia].
  apply Zsum_nonneg. eapply Forall_impl; [done|]. intros r (? & ? & ?). nia.
Qed.

Definition example_source : seed_source := mk_seed_source (Status_OK, 87654321) (Status_OK, 12345) false (0, 0).

Lemma reserved_samples_distinct_witness :
  exists l s', reserve_all [(2, 1); (1, 3)] (mk_guarded (PhiloxRandom_seeds 87654321 12345) true) = Ok (l, s') /\
    concat (map (fun x => draw x.1 x.2) l) = draw 5 (PhiloxRandom_seeds 87654321 12345) /\
    NoDup (concat (map (fun x => draw x.1 x.2) l)).
Proof.
  apply (reserved_samples_distinct example_source Status_OK
    (mk_guarded (PhiloxRandom_seeds 87654321 12345) true) [(2, 1); (1, 3)]); [reflexivity|reflexivity| |].
  - repeat constructor; simpl; lia.
  - simpl. lia.
Defined.
