(* ===== verification/TensorShape.v ===== *)
(** * Tensor shapes

    [TensorShape] (runtime_adapter/tensor_shape.{h,cc}) and the functions of
    runtime_adapter/tensor_shape_utils.{h,cc}: the dimensions of a tensor with
    their product, kept up to date in [num_elements_], and the construction of a
    shape from a tensor that gives it.  [int64_t] arithmetic wraps in the model;
    the theorems say when it does not. *)

From S2P Require Import Prelude.
#[local] Open Scope string_scope.
#[local] Open Scope Z_scope.

Record TensorShape := mk_TensorShape { dim_sizes_ : list Z; num_elements_ : Z }.

#[export] Instance TensorShape_eq_dec : EqDecision TensorShape.
Proof. solve_decision. Defined.

Definition MaxDimensions : Z := 254.

Definition product (l : list Z) : Z := foldl (fun a d => i64 (a * d)) 1 l.

Definition UpdateNumElements (s : TensorShape) : TensorShape :=
  mk_TensorShape (dim_sizes_ s) (product (dim_sizes_ s)).

Definition make_TensorShape : TensorShape := mk_TensorShape [] 1.
Definition TensorShape_of (dim_sizes : list Z) : TensorShape :=
  UpdateNumElements (mk_TensorShape dim_sizes 0).

Definition TensorShape_eqb (a b : TensorShape) : bool := bool_decide (dim_sizes_ a = dim_sizes_ b).

Definition AddDim (dim_size : Z) (s : TensorShape) : TensorShape :=
  mk_TensorShape (dim_sizes_ s ++ [dim_size]) (i64 (num_elements_ s * dim_size)).

Definition dims (s : TensorShape) : Z := Z.of_nat (length (dim_sizes_ s)).

(** An [int] compared with a [size_t] is converted to it. *)
Definition InsertDim (index dim_size : Z) (s : TensorShape) : result TensorShape :=
  ASSERT (u64 index <=? dims s);;
  mret (mk_TensorShape (take (Z.to_nat index) (dim_sizes_ s) ++ dim_size :: drop (Z.to_nat index) (dim_sizes_ s))
          (i64 (num_elements_ s * dim_size))).

Definition RemoveLastDims (num_dims : Z) (s : TensorShape) : result TensorShape :=
  ASSERT (u64 num_dims <=? dims s);;
  mret (UpdateNumElements
    (mk_TensorShape (take (Z.to_nat (dims s - num_dims)) (dim_sizes_ s)) (num_elements_ s))).

(** The second assertion admits [index = dims], where [erase(end())] is undefined. *)
Definition RemoveDim (index : Z) (s : TensorShape) : result TensorShape :=
  ASSERT (0 <=? index);;
  ASSERT (index <=? dims s);;
  in_range (dim_sizes_ s !! Z.to_nat index);;
  mret (UpdateNumElements
    (mk_TensorShape (take (Z.to_nat index) (dim_sizes_ s) ++ drop (S (Z.to_nat index)) (dim_sizes_ s))
       (num_elements_ s))).

Definition Clear (s : TensorShape) : TensorShape := mk_TensorShape [] 1.

Definition dim_size (dim_index : Z) (s : TensorShape) : result Z :=
  ASSERT (u64 dim_index <? dims s);;
  in_range (dim_sizes_ s !! Z.to_nat dim_index).

Definition set_dim (dim_index dim : Z) (s : TensorShape) : result TensorShape :=
  ASSERT (u64 dim_index <? dims s);;
  old ← in_range (dim_sizes_ s !! Z.to_nat dim_index);
  if old =? dim then mret s
  else
    let dim_sizes := <[Z.to_nat dim_index := dim]> (dim_sizes_ s) in
    if old =? 0 then mret (UpdateNumElements (mk_TensorShape dim_sizes (num_elements_ s)))
    else mret (mk_TensorShape dim_sizes (i64 (Z.quot (num_elements_ s) old * dim))).

Fixpoint debug_dims (first : bool) (l : list Z) : string :=
  match l with
  | [] => ""
  | d :: l => (if first then "" else ",") +:+ (if d <? 0 then "?" else pretty d) +:+ debug_dims false l
  end.

Definition DebugString (s : TensorShape) : string := "[" +:+ debug_dims true (dim_sizes_ s) +:+ "]".

Fixpoint same_dims (l l' : list Z) : bool :=
  match l, l' with
  | d :: l, d' :: l' => if negb (d =? d') then false else same_dims l l'
  | _, _ => true
  end.

Definition IsSameSize (other s : TensorShape) : bool :=
  if negb (dims other =? dims s) then false else same_dims (dim_sizes_ s) (dim_sizes_ other).

(** ** Utilities *)

Definition MultiplyWithoutOverflow (x y : Z) : Z :=
  if x <? 0 then -1
  else if y <? 0 then -1
  else if x =? 0 then 0
  else
    let uxy := u64 (x * y) in
    if negb (Z.shiftr (Z.lor x y) 32 =? 0) && negb (uxy / x =? y) then -1
    else i64 uxy.

(** The status and the new value of the shape. *)
Definition AddDimWithStatus (size : Z) (s : TensorShape) : Status * TensorShape :=
  if size <? 0 then
    (InvalidArgument ("Expected a non-negative size, got " +:+ pretty size), s)
  else if MaxDimensions <=? dims s then (InvalidArgument "Too many dimensions in tensor", s)
  else
    let new_num_elements := MultiplyWithoutOverflow (num_elements_ s) size in
    if new_num_elements <? 0 then
      (InvalidArgument ("Encountered overflow when multiplying " +:+ pretty (num_elements_ s) +:+
         " with " +:+ pretty size +:+ ", result: " +:+ pretty new_num_elements), s)
    else (Status_OK, AddDim size s).

Definition IsScalar (s : TensorShape) : bool := dims s =? 0.
Definition IsVector (s : TensorShape) : bool := dims s =? 1.
Definition IsVectorOrHigher (s : TensorShape) : bool := 1 <=? dims s.
Definition IsMatrix (s : TensorShape) : bool := dims s =? 2.
Definition IsMatrixOrHigher (s : TensorShape) : bool := 2 <=? dims s.

Fixpoint dims_start_with (l prefix : list Z) : bool :=
  match prefix, l with
  | p :: prefix, d :: l => if negb (d =? p) then false else dims_start_with l prefix
  | _, _ => true
  end.

Definition StartsWith (shape prefix : TensorShape) : bool :=
  if dims shape <? dims prefix then false else dims_start_with (dim_sizes_ shape) (dim_sizes_ prefix).

(** A tensor of integers: its shape, its type and the values of its elements. *)
Inductive int_dtype := DT_INT32 | DT_INT64 | DT_OTHER.

Record int_tensor := mk_int_tensor { t_shape : TensorShape; t_dtype : int_dtype; t_values : list Z }.

(** The first overload of [MakeShape]. *)
Definition MakeShape_unchecked (tensor : int_tensor) : result TensorShape :=
  match t_dtype tensor with
  | DT_INT32 => mret (TensorShape_of (t_values tensor))
  | DT_INT64 => mret (TensorShape_of (t_values tensor))
  | DT_OTHER => Fault CheckFailed
  end.

(** The loop over the values: the status and the shape. *)
Fixpoint MakeShape_loop (all : list Z) (values : list Z) (out : TensorShape) : Status * TensorShape :=
  match values with
  | [] => (Status_OK, out)
  | dim :: values =>
      if dim <? 0 then (InvalidArgument ("Dimension " +:+ pretty dim +:+ " must be >= 0"), out)
      else if num_elements_ out <? 0 then MakeShape_loop all values (AddDim dim out)
      else if MultiplyWithoutOverflow (num_elements_ out) dim <? 0 then
        let bad_shape := foldl (fun s d => AddDim d s) make_TensorShape all in
        (InvalidArgument ("Shape " +:+ DebugString bad_shape +:+
           " would have more than 2**63 - 1 elements"), out)
      else MakeShape_loop all values (AddDim dim out)
  end.

Definition MakeShape (tensor : int_tensor) (out : TensorShape) : Status * TensorShape :=
  if negb (IsVector (t_shape tensor)) then
    (InvalidArgument ("shape must be a vector of {int32,int64}, got shape " +:+ DebugString (t_shape tensor)), out)
  else if (match t_dtype tensor with DT_OTHER => true | _ => false end) then
    (InvalidArgument "shape must be a vector of {int32,int64}.", out)
  else
    let num_dims := num_elements_ (t_shape tensor) in
    if MaxDimensions <? num_dims then (InvalidArgument "Too many dimensions", out)
    else if num_dims <? 0 then
      (InvalidArgument ("Negative number of dimensions " +:+ pretty num_dims), out)
    else MakeShape_loop (t_values tensor) (t_values tensor) out.

(** ** Multiplication *)

(** The product of two numbers below 2^63 that wraps does not divide back. *)
Lemma wrapped_product x y : 0 < x -> 0 <= y -> u64 (x * y) / x = y -> x * y < 2 ^ 64.
Proof.
  intros Hx Hy E. destruct (decide (x * y < 2 ^ 64)) as [|Hge]; [done|exfalso].
  pose proof (u64_range (x * y)). pose proof (Z.div_mod (u64 (x * y)) x ltac:(lia)) as Hd.
  pose proof (Z.mod_pos_bound (u64 (x * y)) x Hx). rewrite E in Hd. lia.
Qed.

Lemma MultiplyWithoutOverflow_spec x y : x < 2 ^ 63 -> y < 2 ^ 63 ->
  if (0 <=? x) && (0 <=? y) && (x * y <? 2 ^ 63)
  then MultiplyWithoutOverflow x y = x * y else MultiplyWithoutOverflow x y < 0.
Proof.
  intros Hx Hy. unfold MultiplyWithoutOverflow. rewrite !Z.leb_antisym.
  destruct (Z.ltb_spec x 0); cbn [negb andb]; [lia|]. destruct (Z.ltb_spec y 0); cbn [negb andb]; [lia|].
  destruct (Z.eqb_spec x 0) as [->|Hx0]; [by destruct (Z.ltb_spec (0 * y) (2 ^ 63)); lia|].
  destruct (Z.ltb_spec (x * y) (2 ^ 63)) as [Hlt|Hge].
  - rewrite u64_small by nia. rewrite Z.mul_comm, Z.div_mul, Z.eqb_refl, andb_false_r by lia.
    apply i64_small. lia.
  - destruct (Z.eqb_spec (u64 (x * y) / x) y) as [E|E].
    + rewrite andb_false_r. apply wrapped_product in E; [|lia..].
      rewrite u64_small by lia. apply i64_high. lia.
    + destruct (Z.eqb_spec (Z.shiftr (Z.lor x y) 32) 0) as [Es|Es]; cbn [negb andb]; [|lia].
      assert (Z.lor x y < 2 ^ 32) as Hlor.
      { rewrite Z.shiftr_div_pow2 in Es by lia. apply Z.div_small_iff in Es; [|lia]. lia. }
      assert (x < 2 ^ 32 /\ y < 2 ^ 32) as [? ?].
      { assert (0 <= Z.lor x y) by (apply Z.lor_nonneg; lia).
        assert (x <= Z.lor x y /\ y <= Z.lor x y); [|lia].
        split; [apply Z.ldiff_le|apply Z.ldiff_le]; try lia; apply Z.bits_inj_0; intros n;
          rewrite Z.ldiff_spec, Z.lor_spec; destruct (Z.testbit x n), (Z.testbit y n); done. }
      rewrite u64_small by nia. apply i64_high. nia.
Qed.

(** ** Shapes whose products do not overflow *)

(** Every partial product is below 2^63, whatever dimensions are zero. *)
Definition small (l : list Z) : Prop := Forall (fun d => 0 <= d) l /\ Zprod (map (Z.max 1) l) < 2 ^ 63.

Lemma max_ones l : Forall (fun d => 1 <= d) (map (Z.max 1) l).
Proof. apply Forall_map, Forall_true. intros. simpl. lia. Qed.

Lemma Zprod_le_max l : Forall (fun d => 0 <= d) l -> 0 <= Zprod l <= Zprod (map (Z.max 1) l).
Proof.
  induction 1 as [|d l Hd Hl IH]; rewrite ?map_cons, ?Zprod_cons; [done|].
  split; [nia|]. apply Z.mul_le_mono_nonneg; lia.
Qed.

Lemma small_prod l : small l -> 0 <= Zprod l < 2 ^ 63.
Proof. intros [H1 H2]. pose proof (Zprod_le_max l H1). lia. Qed.

(** The product is the exact one up to the wrapping of [int64_t]. *)
Lemma product_i64 l : product l = i64 (Zprod l).
Proof.
  unfold product. induction l as [|d l IH] using rev_ind; [done|].
  rewrite foldl_app. cbn [foldl]. by rewrite IH, Zprod_snoc, i64_mul_l.
Qed.

Lemma product_spec l : small l -> product l = Zprod l.
Proof. intros Hs%small_prod. rewrite product_i64. apply i64_small. lia. Qed.

(** The elements are counted. *)
Record shape_wf (s : TensorShape) : Prop := mk_shape_wf {
  wf_small : small (dim_sizes_ s);
  wf_num : num_elements_ s = Zprod (dim_sizes_ s) }.

(** The operations that change a shape. *)
Inductive shape_op :=
  | OpAddDim (d : Z)
  | OpInsertDim (index d : Z)
  | OpRemoveLastDims (n : Z)
  | OpRemoveDim (index : Z)
  | OpClear
  | OpSetDim (index d : Z).

Definition run_shape_op (o : shape_op) (s : TensorShape) : result TensorShape :=
  match o with
  | OpAddDim d => Ok (AddDim d s)
  | OpInsertDim i d => InsertDim i d s
  | OpRemoveLastDims n => RemoveLastDims n s
  | OpRemoveDim i => RemoveDim i s
  | OpClear => Ok (Clear s)
  | OpSetDim i d => set_dim i d s
  end.

Lemma UpdateNumElements_wf s : small (dim_sizes_ s) -> shape_wf (UpdateNumElements s).
Proof. intros H. constructor; [done|]. by apply product_spec. Qed.

(** What [num_elements_] holds whatever the dimensions are: their product, as
    far as [int64_t] goes. *)
Definition counts_elements (s : TensorShape) : Prop := num_elements_ s = i64 (Zprod (dim_sizes_ s)).

Lemma UpdateNumElements_counts s : counts_elements (UpdateNumElements s).
Proof. apply product_i64. Qed.

(** Dividing one factor out of an exact product and putting another in. *)
Lemma replace_factor l i old d : l !! i = Some old -> old <> 0 ->
  Z.quot (Zprod l) old * d = Zprod (<[i := d]> l).
Proof.
  intros Hi Hold. apply list_elem_of_split_length in Hi as (l1 & l2 & -> & ->).
  rewrite insert_middle. rewrite !Zprod_app, !Zprod_cons.
  replace (Zprod l1 * (old * Zprod l2)) with (Zprod l1 * Zprod l2 * old) by lia.
  rewrite Z.quot_mul by done. lia.
Qed.

(** [set_dim] divides the old dimension out of the count when it is not zero
    and changes: then the product before must fit in [int64_t]. *)
Definition divides_exactly (o : shape_op) (s : TensorShape) : Prop :=
  match o with
  | OpSetDim i d =>
      dim_sizes_ s !! Z.to_nat i = Some 0 \/ dim_sizes_ s !! Z.to_nat i = Some d \/
      - 2 ^ 63 <= Zprod (dim_sizes_ s) < 2 ^ 63
  | _ => True
  end.

(** C35: every operation on a shape keeps [num_elements_] equal to the product
    of the dimensions modulo 2^64 (overflow, which C++ leaves undefined, wraps
    in the model), so that the count is exact whenever the product fits in
    [int64_t], also after one that did not.  The one condition
    is on [set_dim] of a dimension that is not zero to another value, which
    divides the old dimension out of the count: the product must fit before
    (example [set_dim_after_overflow]).  The constructors establish the
    equation for all dimensions. *)
Theorem shape_operations_keep_product :
  (forall l, counts_elements (TensorShape_of l)) /\ counts_elements make_TensorShape /\
  forall o s s',
    counts_elements s -> divides_exactly o s -> run_shape_op o s = Ok s' ->
    counts_elements s' /\
    (- 2 ^ 63 <= Zprod (dim_sizes_ s') < 2 ^ 63 -> num_elements_ s' = Zprod (dim_sizes_ s')).
Proof.
  split; [intros l; apply UpdateNumElements_counts|]. split; [done|]. intros o s s' Hn Hd Hrun.
  enough (counts_elements s') as Hs' by (split; [done|]; intros Hp; rewrite Hs'; by apply i64_small).
  unfold counts_elements in Hn. destruct o as [d|i d|n|i| |i d]; simpl in Hrun.
  - injection Hrun as <-. unfold counts_elements. cbn [dim_sizes_ num_elements_ AddDim].
    by rewrite Hn, Zprod_snoc, i64_mul_l.
  - unfold InsertDim in Hrun. inv_ok. unfold counts_elements. cbn [dim_sizes_ num_elements_].
    rewrite Hn, i64_mul_l. rewrite <- (take_drop (Z.to_nat i) (dim_sizes_ s)) at 1.
    rewrite !Zprod_app, !Zprod_cons. f_equal. lia.
  - unfold RemoveLastDims in Hrun. inv_ok. apply UpdateNumElements_counts.
  - unfold RemoveDim in Hrun. inv_ok. apply UpdateNumElements_counts.
  - by injection Hrun as <-.
  - unfold set_dim in Hrun. inv_ok; [done|apply UpdateNumElements_counts|].
    destruct (dim_sizes_ s !! Z.to_nat i) as [old|] eqn:Ei; simplify_eq/=.
    unfold counts_elements. simpl. rewrite Hn.
    destruct Hd as [[= ->]|[[= ->]|Hd]]; [lia..|].
    rewrite (i64_small (Zprod _)) by done. f_equal. apply replace_factor; [done|lia].
Qed.

Lemma shape_operations_keep_product_witness :
  run_shape_op (OpSetDim 1 0) (TensorShape_of [2; 3; 4]) = Ok (mk_TensorShape [2; 0; 4] 0) /\
  counts_elements (mk_TensorShape [2; 0; 4] 0).
Proof.
  split; [reflexivity|].
  refine (proj1 (proj2 (proj2 shape_operations_keep_product) (OpSetDim 1 0) (TensorShape_of [2; 3; 4])
            _ eq_refl _ eq_refl)).
  right; right; simpl; lia.
Defined.

(** Removing the zero of an acceptable shape leaves a product that wraps to 0. *)
Example RemoveDim_overflow :
  run_shape_op (OpRemoveDim 0) (TensorShape_of [0; 2 ^ 40; 2 ^ 40]) =
    Ok (mk_TensorShape [2 ^ 40; 2 ^ 40] 0).
Proof. reflexivity. Qed.

(** Once the count has wrapped, dividing the old dimension out of it is wrong:
    here 2^62 elements are counted as none. *)
Example set_dim_after_overflow :
  run_shape_op (OpSetDim 1 1) (TensorShape_of [2 ^ 62; 4]) = Ok (mk_TensorShape [2 ^ 62; 1] 0).
Proof. reflexivity. Qed.

(** ** Making a shape *)

(** The running products, from [acc] on, are below 2^63. *)
Fixpoint fits (acc : Z) (l : list Z) : Prop :=
  match l with
  | [] => True
  | d :: l => 0 <= d /\ acc * d < 2 ^ 63 /\ fits (acc * d) l
  end.

#[export] Instance fits_dec acc l : Decision (fits acc l).
Proof. revert acc. induction l; intros acc; simpl; apply _. Defined.

Lemma MakeShape_loop_spec all l : forall out, 0 <= num_elements_ out < 2 ^ 63 -> Forall (fun d => d < 2 ^ 63) l ->
  if decide (fits (num_elements_ out) l)
  then MakeShape_loop all l out =
         (Status_OK, mk_TensorShape (dim_sizes_ out ++ l) (num_elements_ out * Zprod l)) /\
       0 <= num_elements_ out * Zprod l < 2 ^ 63
  else code (MakeShape_loop all l out).1 = TF_INVALID_ARGUMENT.
Proof.
  induction l as [|d l IH]; intros out Hout Hl.
  { rewrite decide_True by exact I. simpl. rewrite app_nil_r, Z.mul_1_r. by destruct out. }
  apply Forall_cons in Hl as [Hd Hl]. cbn [MakeShape_loop].
  destruct (Z.ltb_spec d 0) as [Hneg|Hpos].
  { rewrite decide_False; [done|]. intros (? & _). lia. }
  destruct (Z.ltb_spec (num_elements_ out) 0) as [|_]; [lia|].
  pose proof (MultiplyWithoutOverflow_spec (num_elements_ out) d ltac:(lia) Hd) as Hm.
  rewrite (proj2 (Z.leb_le 0 (num_elements_ out))), (proj2 (Z.leb_le 0 d)) in Hm by lia. cbn [andb] in Hm.
  destruct (Z.ltb_spec (num_elements_ out * d) (2 ^ 63)) as [Hlt|Hge].
  - rewrite Hm. destruct (Z.ltb_spec (num_elements_ out * d) 0) as [|_]; [nia|].
    assert (num_elements_ (AddDim d out) = num_elements_ out * d) as Hadd by (simpl; rewrite i64_small; nia).
    assert (0 <= num_elements_ out * d) by nia. specialize (IH (AddDim d out)). rewrite Hadd in IH.
    specialize (IH ltac:(lia) Hl). destruct (decide (fits (num_elements_ out * d) l)) as [Hf|Hf].
    + rewrite decide_True by done. destruct IH as [-> IH]. rewrite Zprod_cons, Z.mul_assoc. split; [|done]. simpl. by rewrite <- app_assoc.
    + rewrite decide_False; [done|]. by intros (_ & _ & ?).
  - destruct (Z.ltb_spec (MultiplyWithoutOverflow (num_elements_ out) d) 0) as [_|]; [|lia].
    rewrite decide_False; [done|]. intros (_ & ? & _). lia.
Qed.

(** A vector has as many values as its one dimension says. *)
Definition tensor_wf (t : int_tensor) : Prop :=
  IsVector (t_shape t) = true -> num_elements_ (t_shape t) = Z.of_nat (length (t_values t)).

(** What a tensor must be to give a shape. *)
Definition gives_shape (t : int_tensor) : Prop :=
  IsVector (t_shape t) = true /\ t_dtype t <> DT_OTHER /\
  Z.of_nat (length (t_values t)) <= MaxDimensions /\ fits 1 (t_values t).

(** C34: a tensor gives a shape exactly when it is a vector of at most 254
    integers, none of them negative, whose running products stay below 2^63;
    the shape has these dimensions and counts its elements exactly, and in
    every other case the status is an error. *)
Theorem MakeShape_exact t : tensor_wf t -> Forall (fun d => d < 2 ^ 63) (t_values t) ->
  (gives_shape t /\ MakeShape t make_TensorShape =
     (Status_OK, mk_TensorShape (t_values t) (Zprod (t_values t))) /\ 0 <= Zprod (t_values t) < 2 ^ 63) \/
  (~ gives_shape t /\ code (MakeShape t make_TensorShape).1 = TF_INVALID_ARGUMENT).
Proof.
  intros Hwf Hv. unfold gives_shape, MakeShape, tensor_wf in *.
  destruct (IsVector (t_shape t)); [|right; split; [by intros [? _]|done]]. specialize (Hwf eq_refl). cbn [negb].
  destruct (t_dtype t); [| |right; split; [by intros (_ & ? & _)|done]].
  all: rewrite Hwf; destruct (Z.ltb_spec MaxDimensions (Z.of_nat (length (t_values t))));
    [right; split; [intros (_ & _ & ? & _); lia|done]|].
  all: destruct (Z.ltb_spec (Z.of_nat (length (t_values t))) 0); [lia|].
  all: pose proof (MakeShape_loop_spec (t_values t) (t_values t) make_TensorShape ltac:(done) Hv) as Hl;
    cbn [num_elements_ make_TensorShape dim_sizes_ app] in Hl; rewrite !Z.mul_1_l in Hl.
  all: destruct (decide (fits 1 (t_values t))); [left|right];
    [destruct Hl as [E ?]; rewrite E; split_and!; (done || lia)|].
  all: by split; [intros (_ & _ & _ & ?)|].
Qed.

Lemma MakeShape_exact_witness :
  MakeShape (mk_int_tensor (TensorShape_of [3]) DT_INT32 [5; 0; 7]) make_TensorShape =
    (Status_OK, mk_TensorShape [5; 0; 7] 0) /\
  ~ gives_shape (mk_int_tensor (TensorShape_of [3]) DT_INT64 [2 ^ 40; 2 ^ 40; 0]).
Proof.
  split.
  - destruct (MakeShape_exact (mk_int_tensor (TensorShape_of [3]) DT_INT32 [5; 0; 7])) as [(_ & H & _)|[H _]];
      [done|repeat constructor; simpl; lia|exact H|].
    destruct H. unfold gives_shape. simpl. unfold MaxDimensions. repeat split; try done; lia.
  - intros (_ & _ & _ & H). simpl in H. lia.
Defined.
