(* ===== verification/Bcast.v ===== *)
(** * Broadcasting

    [BCast] and [ComputeBatchIndices] (runtime_adapter/bcast.{h,cc}) and
    [MatMulBCast] (runtime_adapter/matmul_bcast.h).  A [Vec] is a list of
    dimensions, the outermost first.  Products of dimensions are [int64_t]
    arithmetic, which wraps in the model. *)

From S2P Require Import Prelude TensorShape.

Notation Vec := (list Z) (only parsing).

Record BCast := mk_BCast {
  valid_ : bool;
  x_reshape_ : Vec; x_bcast_ : Vec;
  y_reshape_ : Vec; y_bcast_ : Vec;
  result_ : Vec; output_ : Vec;
  grad_x_reduce_idx_ : Vec; grad_y_reduce_idx_ : Vec }.

Definition empty_BCast : BCast := mk_BCast true [] [] [] [] [] [] [] [].

Inductive State := UNKNOWN | SAME | X_ONE | Y_ONE.

#[export] Instance State_eq_dec : EqDecision State.
Proof. solve_decision. Defined.

(** [v.back() *= d] *)
Definition mul_back (v : Vec) (d : Z) : result Vec :=
  y ← in_range (last v);
  mret (removelast v ++ [i64 (y * d)]).

Definition set_valid (v : bool) (b : BCast) : BCast :=
  mk_BCast v (x_reshape_ b) (x_bcast_ b) (y_reshape_ b) (y_bcast_ b) (result_ b) (output_ b)
    (grad_x_reduce_idx_ b) (grad_y_reduce_idx_ b).

Definition push_output (o_i : Z) (b : BCast) : BCast :=
  mk_BCast (valid_ b) (x_reshape_ b) (x_bcast_ b) (y_reshape_ b) (y_bcast_ b) (result_ b) (output_ b ++ [o_i])
    (grad_x_reduce_idx_ b) (grad_y_reduce_idx_ b).

Definition push_grad_x (i : Z) (b : BCast) : BCast :=
  mk_BCast (valid_ b) (x_reshape_ b) (x_bcast_ b) (y_reshape_ b) (y_bcast_ b) (result_ b) (output_ b)
    (grad_x_reduce_idx_ b ++ [i]) (grad_y_reduce_idx_ b).

Definition push_grad_y (i : Z) (b : BCast) : BCast :=
  mk_BCast (valid_ b) (x_reshape_ b) (x_bcast_ b) (y_reshape_ b) (y_bcast_ b) (result_ b) (output_ b)
    (grad_x_reduce_idx_ b) (grad_y_reduce_idx_ b ++ [i]).

(** A new dimension of the intermediate shapes. *)
Definition push_dim (o_i x_i bx_i y_i by_i : Z) (b : BCast) : BCast :=
  mk_BCast (valid_ b) (x_reshape_ b ++ [x_i]) (x_bcast_ b ++ [bx_i]) (y_reshape_ b ++ [y_i]) (y_bcast_ b ++ [by_i])
    (result_ b ++ [o_i]) (output_ b) (grad_x_reduce_idx_ b) (grad_y_reduce_idx_ b).

(** The last dimension of the intermediate shapes grows. *)
Definition grow_dim (o_i x_i bx_i y_i by_i : Z) (b : BCast) : result BCast :=
  res ← mul_back (result_ b) o_i;
  xr ← mul_back (x_reshape_ b) x_i;
  xb ← mul_back (x_bcast_ b) bx_i;
  yr ← mul_back (y_reshape_ b) y_i;
  yb ← mul_back (y_bcast_ b) by_i;
  mret (mk_BCast (valid_ b) xr xb yr yb res (output_ b) (grad_x_reduce_idx_ b) (grad_y_reduce_idx_ b)).

(** The comparison of two dimensions: the dimension of the output, the
    broadcasts of x and y and the case; [None] where they are incompatible. *)
Definition compare_dims (x_i y_i : Z) : option (Z * Z * Z * State) :=
  if x_i =? y_i then Some (x_i, 1, 1, SAME)
  else if x_i =? 1 then Some (y_i, y_i, 1, X_ONE)
  else if y_i =? 1 then Some (x_i, 1, x_i, Y_ONE)
  else None.

(** The loop over the dimensions, the innermost first, from the [i]-th on. *)
Fixpoint bcast_loop (fewer_dims_optimization : bool) (n i : Z) (xy : list (Z * Z)) (prev : State) (b : BCast) :
    result BCast :=
  match xy with
  | [] => mret b
  | (x_i, y_i) :: xy =>
      match compare_dims x_i y_i with
      | None => mret (set_valid false b)
      | Some (o_i, bx_i, by_i, curr) =>
          let b := match curr with
                   | X_ONE => push_grad_x (n - 1 - i) b
                   | Y_ONE => push_grad_y (n - 1 - i) b
                   | _ => b
                   end in
          let b := push_output o_i b in
          if bool_decide (curr = SAME) && (x_i =? 1) then
            let b := push_grad_y (n - 1 - i) (push_grad_x (n - 1 - i) b) in
            let b := if negb fewer_dims_optimization then push_dim o_i x_i bx_i y_i by_i b else b in
            bcast_loop fewer_dims_optimization n (i + 1) xy prev b
          else if fewer_dims_optimization && bool_decide (prev = curr) then
            b ← grow_dim o_i x_i bx_i y_i by_i b;
            bcast_loop fewer_dims_optimization n (i + 1) xy curr b
          else
            bcast_loop fewer_dims_optimization n (i + 1) xy curr (push_dim o_i x_i bx_i y_i by_i b)
      end
  end.

Definition reverse_all (b : BCast) : BCast :=
  mk_BCast (valid_ b) (rev (x_reshape_ b)) (rev (x_bcast_ b)) (rev (y_reshape_ b)) (rev (y_bcast_ b))
    (rev (result_ b)) (rev (output_ b)) (rev (grad_x_reduce_idx_ b)) (rev (grad_y_reduce_idx_ b)).

(** [v.resize(n, 1)] for a vector that is not longer. *)
Definition resize_ones (v : Vec) (n : nat) : Vec := v ++ replicate (n - length v) 1.

Definition make_BCast (sx sy : Vec) (fewer_dims_optimization : bool) : result BCast :=
  if bool_decide (sx = sy) && fewer_dims_optimization then
    let elements := product sx in
    mret (mk_BCast true [elements] [1] [elements] [1] [elements] sx [] [])
  else
    let x := rev sx in
    let y := rev sy in
    let y' := if Nat.ltb (length y) (length x) then resize_ones y (length x) else y in
    let x' := if Nat.ltb (length y) (length x) then x else resize_ones x (length y) in
    b ← bcast_loop fewer_dims_optimization (Z.of_nat (length x')) 0 (zip x' y') UNKNOWN empty_BCast;
    if negb (valid_ b) then mret b
    else
      let b := match result_ b with [] => push_dim 1 1 1 1 1 b | _ => b end in
      mret (reverse_all b).

Definition FromShape (shape : TensorShape) : Vec := dim_sizes_ shape.
Definition ToShape (vec : Vec) : TensorShape := TensorShape_of vec.

(** ** Batch indices *)

Definition vec_get (v : Vec) (i : Z) : result Z :=
  if i <? 0 then Fault OutOfRange else in_range (v !! Z.to_nat i).

Definition vec_set (v : Vec) (i x : Z) : result Vec :=
  vec_get v i;; mret (<[Z.to_nat i := x]> v).

(** The inner loop: [k], [k + 1], ..., [k + count - 1]. *)
Fixpoint replicate_loop (num_output_elements incr : Z) (count : nat) (k : Z) (out_indices : Vec) : result Vec :=
  match count with
  | O => mret out_indices
  | S count =>
      v ← vec_get out_indices k;
      out_indices ← vec_set out_indices (num_output_elements + k) (i64 (v + incr));
      replicate_loop num_output_elements incr count (k + 1) out_indices
  end.

(** The outer loop, over the dimensions from the innermost on. *)
Fixpoint batch_loop (dims : list (Z * Z)) (num_output_elements num_input_elements : Z) (out_indices : Vec) :
    result Vec :=
  match dims with
  | [] => mret out_indices
  | (reshape_i, bcast_i) :: dims =>
      let dim := Z.max reshape_i bcast_i in
      let incr := if 1 <? bcast_i then 0 else num_input_elements in
      out_indices ← replicate_loop num_output_elements incr
                      (Z.to_nat (i64 ((dim - 1) * num_output_elements))) 0 out_indices;
      batch_loop dims (i64 (num_output_elements * dim)) (i64 (num_input_elements * reshape_i)) out_indices
  end.

Definition ComputeBatchIndices (output_batch_size : Z) (reshape bcast : Vec) : result Vec :=
  batch_loop (zip (rev reshape) (rev bcast)) 1 1 (replicate (Z.to_nat output_batch_size) 0).

(** ** MatMulBCast *)

Record MatMulBCast := mk_MatMulBCast {
  batch_bcast_ : option BCast;
  broadcasting_required_ : bool;
  x_batch_size_ : Z; y_batch_size_ : Z;
  output_batch_shape_ : TensorShape;
  output_batch_size_ : Z;
  x_batch_indices_ : Vec; y_batch_indices_ : Vec }.

(** The range [begin(), end() - 2]. *)
Definition without_last_two (v : Vec) : result Vec :=
  if Nat.ltb (length v) 2 then Fault OutOfRange else mret (take (length v - 2) v).

Definition make_MatMulBCast (x y : Vec) : result MatMulBCast :=
  if Nat.eqb (Nat.max (length x) (length y)) 2 then
    mret (mk_MatMulBCast None false 1 1 make_TensorShape 1 [] [])
  else
    x_resized ← without_last_two x;
    y_resized ← without_last_two y;
    b ← make_BCast x_resized y_resized true;
    if negb (valid_ b) then
      mret (mk_MatMulBCast (Some b) true 1 1 make_TensorShape 1 [] [])
    else
      let x_batch_size := num_elements_ (TensorShape_of (x_reshape_ b)) in
      let y_batch_size := num_elements_ (TensorShape_of (y_reshape_ b)) in
      let output_batch_shape := TensorShape_of (output_ b) in
      let output_batch_size := num_elements_ output_batch_shape in
      if negb (Z.min x_batch_size y_batch_size =? output_batch_size) then
        x_batch_indices ← ComputeBatchIndices output_batch_size (x_reshape_ b) (x_bcast_ b);
        y_batch_indices ← ComputeBatchIndices output_batch_size (y_reshape_ b) (y_bcast_ b);
        mret (mk_MatMulBCast (Some b) true x_batch_size y_batch_size output_batch_shape output_batch_size
                x_batch_indices y_batch_indices)
      else
        mret (mk_MatMulBCast (Some b) false x_batch_size y_batch_size output_batch_shape output_batch_size [] []).

Definition IsValid (m : MatMulBCast) : bool :=
  negb (broadcasting_required_ m) || match batch_bcast_ m with Some b => valid_ b | None => false end.
