(* ===== verification/BcastProofs.v ===== *)
(** * Theorems on broadcasting

    [BCast] accepts exactly the shapes that numpy accepts, and its intermediate
    shapes, whatever dimensions it merges, read the same element of each operand
    as the definition of broadcasting; [MatMulBCast] numbers the batches so. *)

From S2P Require Import Prelude TensorShape Bcast.

(** ** Broadcasting by definition

    Shapes are aligned at their last dimension. *)

Definition aligned (n : nat) (s : Vec) : Vec := replicate (n - length s) 1 ++ s.

Definition rank (sx sy : Vec) : nat := Nat.max (length sx) (length sy).

Definition compatible (p : Z * Z) : bool := (p.1 =? p.2) || (p.1 =? 1) || (p.2 =? 1).
Definition out_dim (p : Z * Z) : Z := if p.1 =? 1 then p.2 else p.1.

Definition aligned_pairs (sx sy : Vec) : list (Z * Z) :=
  zip (aligned (rank sx sy) sx) (aligned (rank sx sy) sy).

Definition broadcast_shape (sx sy : Vec) : Vec := map out_dim (aligned_pairs sx sy).

(** The index of each dimension of the [k]-th element in row-major order. *)
Fixpoint unravel (s : Vec) (k : Z) : list Z :=
  match s with
  | [] => []
  | d :: s => (k / Zprod s) `mod` d :: unravel s k
  end.

Fixpoint row_major (s : Vec) (idx : list Z) : Z :=
  match s, idx with
  | d :: s, i :: idx => i * Zprod s + row_major s idx
  | _, _ => 0
  end.

(** The element of an operand of shape [s] for the [k]-th element of the output. *)
Definition broadcast_index (s o : Vec) (k : Z) : Z :=
  row_major s (zip_with (fun d i => if d =? 1 then 0 else i) s (unravel o k)).

(** The element that [x.reshape(reshape).broadcast(bcast)] has at [k]. *)
Definition reshape_broadcast_index (reshape bcast : Vec) (k : Z) : Z :=
  row_major reshape (zip_with Z.modulo (unravel (zip_with Z.mul reshape bcast) k) reshape).

(** ** Tilings

    A list of pairs of a dimension and its repetition, the innermost first. *)

Fixpoint tile (E : list (Z * Z)) (k : Z) : Z :=
  match E with
  | [] => 0
  | (r, b) :: E => k `mod` r + r * tile E (k / (r * b))
  end.

Definition e_size (e : Z * Z) : Z := e.1 * e.2.
Definition e_pos (e : Z * Z) : Prop := 1 <= e.1 /\ 1 <= e.2.
Definition tile_sizes (E : list (Z * Z)) : Z := Zprod (map e_size E).
Definition tile_dims (E : list (Z * Z)) : Z := Zprod (map fst E).

(** Tilings that can replace each other. *)
Definition same_tile (E E' : list (Z * Z)) : Prop := forall L k, tile (E ++ L) k = tile (E' ++ L) k.

#[export] Instance same_tile_equivalence : Equivalence same_tile.
Proof.
  split.
  - by intros E L k.
  - intros E E' H L k. by rewrite H.
  - intros E1 E2 E3 H1 H2 L k. by rewrite H1, H2.
Qed.

#[export] Instance app_same_tile : Proper (same_tile ==> same_tile ==> same_tile) (@app (Z * Z)).
Proof.
  intros E1 E1' H1 E2 E2' H2 L k. rewrite <- !app_assoc, H1. clear E1 H1. revert k.
  induction E1' as [|[r b] E IH]; intros k; [apply H2|]. cbn [app tile]. by rewrite IH.
Qed.

Lemma same_tile_eq E E' k : same_tile E E' -> tile E k = tile E' k.
Proof. intros H. specialize (H [] k). by rewrite !app_nil_r in H. Qed.

Lemma merge_dims r1 r2 : 1 <= r1 -> 1 <= r2 -> same_tile [(r1, 1); (r2, 1)] [(r1 * r2, 1)].
Proof.
  intros H1 H2 L k. cbn [app tile]. rewrite !Z.mul_1_r, Z.rem_mul_r, Z.div_div by lia. lia.
Qed.

Lemma merge_repetitions b1 b2 : 1 <= b1 -> 1 <= b2 -> same_tile [(1, b1); (1, b2)] [(1, b1 * b2)].
Proof. intros H1 H2 L k. cbn [app tile]. rewrite !Z.mod_1_r, !Z.mul_1_l, Z.div_div by lia. lia. Qed.

Lemma drop_one : same_tile [(1, 1)] [].
Proof. intros L k. cbn [app tile]. rewrite Z.mod_1_r, Z.div_1_r. lia. Qed.

Lemma tile_sizes_pos E : Forall e_pos E -> 1 <= tile_sizes E.
Proof.
  intros H. apply Zprod_pos, Forall_map. eapply Forall_impl; [done|]. intros [r b] [? ?]. unfold e_size. simpl in *. nia.
Qed.

Lemma tile_dims_pos E : Forall e_pos E -> 1 <= tile_dims E.
Proof. intros H. apply Zprod_pos, Forall_map. eapply Forall_impl; [done|]. by intros [r b] [? ?]. Qed.

Lemma tile_app E1 E2 k : Forall e_pos E1 ->
  tile (E1 ++ E2) k = tile E1 k + tile_dims E1 * tile E2 (k / tile_sizes E1).
Proof.
  intros H. revert k. induction H as [|[r b] E1 [Hr Hb] H IH]; intros k.
  - unfold tile_dims, tile_sizes. simpl. by rewrite Z.div_1_r, Z.mul_1_l.
  - cbn [app tile]. rewrite IH. unfold tile_dims, tile_sizes. cbn [map]. rewrite !Zprod_cons.
    fold (tile_dims E1) (tile_sizes E1). unfold e_size at 1. cbn [fst snd] in *.
    pose proof (tile_sizes_pos E1 H). rewrite Z.div_div by nia. lia.
Qed.

(** Only the position within the tiling matters. *)
Lemma tile_mod E k : Forall e_pos E -> tile E k = tile E (k `mod` tile_sizes E).
Proof.
  intros H. revert k. induction H as [|[r b] E [Hr Hb] H IH]; intros k; [done|].
  unfold tile_sizes. cbn [map tile fst snd] in *. rewrite Zprod_cons. fold (tile_sizes E).
  unfold e_size. cbn [fst snd]. pose proof (tile_sizes_pos E H). f_equal.
  - apply Znumtheory.Zmod_div_mod; [lia|nia|]. exists (b * tile_sizes E). lia.
  - rewrite (IH (k / _)), (IH (k `mod` _ / _)). do 2 f_equal.
    rewrite Z.rem_mul_r by nia.
    rewrite (Z.mul_comm (r * b)), Z.div_add, (Z.div_small (k `mod` (r * b))) by (try apply Z.mod_pos_bound; nia).
    by rewrite Z.add_0_l, Z.mod_mod by nia.
Qed.

Lemma tile_range E k : Forall e_pos E -> 0 <= tile E k < tile_dims E.
Proof.
  intros H. revert k. induction H as [|[r b] E [Hr Hb] H IH]; intros k; [done|].
  unfold tile_dims. cbn [map tile fst snd] in *. rewrite Zprod_cons. fold (tile_dims E).
  specialize (IH (k / (r * b))). pose proof (Z.mod_pos_bound k r ltac:(lia)). nia.
Qed.

Lemma row_major_tile rs bs k : length rs = length bs -> Forall e_pos (zip rs bs) ->
  reshape_broadcast_index rs bs k = tile (rev (zip rs bs)) k /\
  Zprod (zip_with Z.mul rs bs) = tile_sizes (rev (zip rs bs)) /\ Zprod rs = tile_dims (rev (zip rs bs)).
Proof.
  unfold reshape_broadcast_index.
  revert bs. induction rs as [|r rs IH]; intros [|b bs] Hlen Hpos; try done. cbn [zip zip_with rev] in *.
  apply Forall_cons in Hpos as [[Hr Hb] Hpos]. cbn [fst snd] in *. destruct (IH bs) as (E & Es & Ed); [by injection Hlen|done|].
  assert (Forall e_pos (rev (zip rs bs))) as Hrev by (apply Forall_rev, Hpos).
  rewrite tile_app by done. cbn [unravel zip_with row_major tile]. rewrite E, Es, Ed.
  unfold tile_sizes, tile_dims. rewrite !map_app, !Zprod_app, !Zprod_cons. cbn [map Zprod foldr].
  fold (tile_sizes (rev (zip rs bs))) (tile_dims (rev (zip rs bs))). unfold e_size at 1. cbn [fst snd].
  rewrite <- Es, <- Ed. split_and!; [|lia..].
  rewrite <- (Znumtheory.Zmod_div_mod r (r * b)); [lia|lia|nia|]. exists b. lia.
Qed.

(** A dimension is kept or repeated, not both. *)
Definition e_kind (e : Z * Z) : Prop := e.1 = 1 \/ e.2 = 1.

Lemma broadcast_index_tile E k : Forall e_pos E -> Forall e_kind E ->
  broadcast_index (map fst E) (map e_size E) k = tile (rev E) k.
Proof.
  intros Hpos Hkind. destruct (row_major_tile (map fst E) (map snd E) k) as (H & _ & _).
  { by rewrite !length_map. }
  { by rewrite <- zip_fst_snd in Hpos. }
  replace (zip (map fst E) (map snd E)) with E in H by (symmetry; apply zip_fst_snd). rewrite <- H. clear H.
  unfold broadcast_index, reshape_broadcast_index. revert Hpos Hkind.
  induction E as [|[r b] E IH]; intros Hpos Hkind; [done|].
  apply Forall_cons in Hpos as [[Hr Hb] Hpos]. apply Forall_cons in Hkind as [Hk Hkind].
  cbn [map fst snd zip_with unravel row_major] in *. rewrite (IH Hpos Hkind). f_equal. f_equal.
  assert (Zprod (map e_size E) = Zprod (zip_with Z.mul (map fst E) (map snd E))) as ->.
  { clear. f_equal. induction E as [|[r b] E IH]; simpl; [done|]. by rewrite IH. }
  unfold e_size. cbn [fst snd]. destruct Hk as [Hk|Hk]; cbn [fst snd] in Hk; subst.
  - by rewrite Z.mod_1_r.
  - rewrite Z.mul_1_r, Z.mod_mod by lia. destruct (Z.eqb_spec r 1) as [->|]; [by rewrite Z.mod_1_r|done].
Qed.

(** ** The operands as tilings of the output *)

Definition raw_x (p : Z * Z) : Z * Z := (p.1, if p.1 =? 1 then p.2 else 1).
Definition raw_y (p : Z * Z) : Z * Z := (p.2, if p.2 =? 1 then p.1 else 1).

Definition dims_pos (p : Z * Z) : Prop := 1 <= p.1 /\ 1 <= p.2.

Lemma raw_spec p : dims_pos p -> compatible p = true ->
  (e_pos (raw_x p) /\ e_kind (raw_x p) /\ e_size (raw_x p) = out_dim p) /\
  (e_pos (raw_y p) /\ e_kind (raw_y p) /\ e_size (raw_y p) = out_dim p).
Proof.
  destruct p as [x y]. unfold dims_pos, compatible, e_pos, e_kind, e_size, raw_x, raw_y, out_dim. cbn [fst snd].
  intros [Hx Hy] Hc. destruct (Z.eqb_spec x 1), (Z.eqb_spec y 1), (Z.eqb_spec x y); simpl in Hc; try done; lia.
Qed.

Lemma raw_all ps : Forall dims_pos ps -> Forall (fun p => compatible p = true) ps ->
  (Forall e_pos (map raw_x ps) /\ Forall e_kind (map raw_x ps) /\ map e_size (map raw_x ps) = map out_dim ps) /\
  (Forall e_pos (map raw_y ps) /\ Forall e_kind (map raw_y ps) /\ map e_size (map raw_y ps) = map out_dim ps).
Proof.
  intros Hpos. induction Hpos as [|p ps Hp Hpos IH]; intros Hc; [by repeat split; constructor|].
  apply Forall_cons in Hc as [Hc1 Hc]. destruct (raw_spec p Hp Hc1) as [(? & ? & ?) (? & ? & ?)].
  destruct (IH Hc) as [(? & ? & Ex) (? & ? & Ey)]. cbn [map]. rewrite Ex, Ey.
  split; (split_and!; [by constructor|by constructor|by f_equal]).
Qed.

(** ** The loop: validity

    On all dimensions, without conditions. *)

Fixpoint reduce_idx (p : Z * Z -> bool) (n i : Z) (ps : list (Z * Z)) : list Z :=
  match ps with
  | [] => []
  | q :: ps => (if p q then [n - 1 - i] else []) ++ reduce_idx p n (i + 1) ps
  end.

Definition x_is_one (p : Z * Z) : bool := p.1 =? 1.
Definition y_is_one (p : Z * Z) : bool := p.2 =? 1.

(** Where a dimension can be merged into the last one, there is one. *)
Definition can_grow (prev : State) (b : BCast) : Prop :=
  prev <> UNKNOWN -> result_ b <> [] /\ x_reshape_ b <> [] /\ x_bcast_ b <> [] /\ y_reshape_ b <> [] /\ y_bcast_ b <> [].

Lemma mul_back_total v d : v <> [] -> exists w, mul_back v d = Ok w /\ w <> [].
Proof.
  intros Hv. destruct v as [|z v _] using rev_ind; [done|]. unfold mul_back. rewrite last_snoc. eexists.
  split; [reflexivity|]. by destruct (removelast _).
Qed.

Lemma push_dim_can_grow curr o x bx y by' b : can_grow curr (push_dim o x bx y by' b).
Proof. intros _. unfold push_dim. cbn. by rewrite !app_nil; naive_solver. Qed.

Lemma grow_dim_total o x bx y by' prev b : prev <> UNKNOWN -> can_grow prev b ->
  exists b', grow_dim o x bx y by' b = Ok b' /\ can_grow prev b' /\ valid_ b' = valid_ b /\ output_ b' = output_ b /\
    grad_x_reduce_idx_ b' = grad_x_reduce_idx_ b /\ grad_y_reduce_idx_ b' = grad_y_reduce_idx_ b.
Proof.
  intros Hne Hg. destruct (Hg Hne) as (H1 & H2 & H3 & H4 & H5). unfold grow_dim.
  destruct (mul_back_total _ o H1) as (? & -> & ?), (mul_back_total _ x H2) as (? & -> & ?),
    (mul_back_total _ bx H3) as (? & -> & ?), (mul_back_total _ y H4) as (? & -> & ?),
    (mul_back_total _ by' H5) as (? & -> & ?).
  eexists. split; [reflexivity|]. split_and!; [|done..]. by intros _.
Qed.

Lemma compare_dims_spec x y : match compare_dims x y with
  | Some (o, bx, by', curr) => compatible (x, y) = true /\ o = out_dim (x, y) /\ curr <> UNKNOWN /\
      bx = (raw_x (x, y)).2 /\ by' = (raw_y (x, y)).2 /\
      (curr = SAME -> x = y) /\ (curr = X_ONE -> x = 1 /\ y <> 1) /\ (curr = Y_ONE -> y = 1 /\ x <> 1)
  | None => compatible (x, y) = false
  end.
Proof.
  unfold compare_dims, compatible, out_dim, raw_x, raw_y. cbn [fst snd].
  destruct (Z.eqb_spec x y) as [->|Hxy].
  - destruct (Z.eqb_spec y 1) as [->|]; by split_and!.
  - destruct (Z.eqb_spec x 1) as [->|Hx]; [|destruct (Z.eqb_spec y 1) as [->|Hy]; [|done]].
    + destruct (Z.eqb_spec y 1) as [->|]; [done|]. by split_and!.
    + by split_and!.
Qed.

Lemma bcast_loop_total fewer n ps : forall i prev b, valid_ b = true -> can_grow prev b ->
  exists b', bcast_loop fewer n i ps prev b = Ok b' /\ valid_ b' = forallb compatible ps /\
    (valid_ b' = true -> output_ b' = output_ b ++ map out_dim ps /\
       grad_x_reduce_idx_ b' = grad_x_reduce_idx_ b ++ reduce_idx x_is_one n i ps /\
       grad_y_reduce_idx_ b' = grad_y_reduce_idx_ b ++ reduce_idx y_is_one n i ps).
Proof.
  induction ps as [|[x y] ps IH]; intros i prev b Hv Hg.
  { exists b. rewrite !app_nil_r. done. }
  cbn [bcast_loop forallb map reduce_idx]. pose proof (compare_dims_spec x y) as Hc.
  destruct (compare_dims x y) as [[[[o bx] by'] curr]|]; [|exists (set_valid false b); by rewrite Hc].
  destruct Hc as (-> & -> & Hcurr & _ & _ & Hsame & Hx & Hy). cbn [andb]. unfold x_is_one, y_is_one. cbn [fst snd].
  set (b1 := push_output _ _).
  assert (valid_ b1 = true /\ can_grow prev b1 /\ output_ b1 = output_ b ++ [out_dim (x, y)] /\
    grad_x_reduce_idx_ b1 = grad_x_reduce_idx_ b ++ (if bool_decide (curr = X_ONE) then [n - 1 - i] else []) /\
    grad_y_reduce_idx_ b1 = grad_y_reduce_idx_ b ++ (if bool_decide (curr = Y_ONE) then [n - 1 - i] else []))
    as (Hv1 & Hg1 & Ho1 & Hgx1 & Hgy1).
  { subst b1. destruct curr; cbn; rewrite ?app_nil_r; by split_and!. }
  clearbody b1.
  destruct (bool_decide (curr = SAME) && (x =? 1)) eqn:Eone.
  - apply andb_true_iff in Eone as [->%bool_decide_eq_true ->%Z.eqb_eq]. specialize (Hsame eq_refl) as <-.
    rewrite !bool_decide_eq_false_2 in Hgx1, Hgy1 by done.
    set (b2 := if negb fewer then _ else _).
    destruct (IH (i + 1) prev b2) as (b' & Hrun & Hval & Hall).
    { subst b2. by destruct fewer. }
    { subst b2. destruct fewer; [exact Hg1|]. intros _. by apply (push_dim_can_grow SAME). }
    exists b'. split_and!; [done..|]. intros Hb'. destruct (Hall Hb') as (-> & -> & ->).
    subst b2. destruct fewer; cbn [negb push_grad_y push_grad_x push_dim output_ grad_x_reduce_idx_ grad_y_reduce_idx_];
      rewrite Ho1, Hgx1, Hgy1, !app_nil_r, <- !app_assoc; done.
  - assert ((if bool_decide (curr = X_ONE) then [n - 1 - i] else []) = (if x =? 1 then [n - 1 - i] else []) /\
      (if bool_decide (curr = Y_ONE) then [n - 1 - i] else []) = (if y =? 1 then [n - 1 - i] else [])) as [Ex Ey].
    { destruct curr; [done| | |].
      - specialize (Hsame eq_refl) as <-. change (bool_decide (SAME = SAME)) with true in Eone.
        cbn [andb] in Eone. by rewrite Eone.
      - destruct (Hx eq_refl) as [-> Hne]. by rewrite (proj2 (Z.eqb_neq _ _) Hne).
      - destruct (Hy eq_refl) as [-> Hne]. by rewrite (proj2 (Z.eqb_neq _ _) Hne). }
    rewrite Ex in Hgx1. rewrite Ey in Hgy1.
    destruct (fewer && bool_decide (prev = curr)) eqn:Egrow.
    + apply andb_true_iff in Egrow as [_ ->%bool_decide_eq_true].
      destruct (grow_dim_total (out_dim (x, y)) x bx y by' curr b1 Hcurr Hg1) as (b2 & -> & Hg2 & Hv2 & Ho2 & Hgx2 & Hgy2).
      destruct (IH (i + 1) curr b2) as (b' & Hrun & Hval & Hall); [congruence|done|].
      exists b'. split_and!; [done..|]. intros Hb'. destruct (Hall Hb') as (-> & -> & ->).
      rewrite Ho2, Hgx2, Hgy2, Ho1, Hgx1, Hgy1, <- !app_assoc. done.
    + destruct (IH (i + 1) curr (push_dim (out_dim (x, y)) x bx y by' b1)) as (b' & Hrun & Hval & Hall);
        [done|apply push_dim_can_grow|].
      exists b'. split_and!; [done..|]. intros Hb'. destruct (Hall Hb') as (-> & -> & ->).
      cbn [push_dim output_ grad_x_reduce_idx_ grad_y_reduce_idx_]. rewrite Ho1, Hgx1, Hgy1, <- !app_assoc. done.
Qed.

Lemma zip_rev {A B} (l : list A) (k : list B) : length l = length k -> zip (rev l) (rev k) = rev (zip l k).
Proof.
  revert k. induction l as [|x l IH]; intros [|y k] Hlen; try done. cbn [rev zip zip_with].
  injection Hlen as Hlen. rewrite zip_with_app by (by rewrite !length_rev). by rewrite IH.
Qed.

Lemma aligned_length n s : (length s <= n)%nat -> length (aligned n s) = n.
Proof. intros H. unfold aligned. rewrite length_app, length_replicate. lia. Qed.

Lemma aligned_pairs_lengths sx sy :
  length (aligned (rank sx sy) sx) = rank sx sy /\ length (aligned (rank sx sy) sy) = rank sx sy /\
  length (aligned_pairs sx sy) = rank sx sy.
Proof.
  unfold aligned_pairs, rank. rewrite length_zip, !aligned_length by lia. lia.
Qed.

Lemma replicate_rev {A} n (x : A) : rev (replicate n x) = replicate n x.
Proof. induction n as [|n IH]; [done|]. cbn [rev replicate]. by rewrite IH, <- replicate_cons_app. Qed.

(** The loop runs over the aligned dimensions, the innermost first. *)
Lemma loop_pairs sx sy :
  let x := rev sx in
  let y := rev sy in
  let y' := if Nat.ltb (length y) (length x) then resize_ones y (length x) else y in
  let x' := if Nat.ltb (length y) (length x) then x else resize_ones x (length y) in
  zip x' y' = rev (aligned_pairs sx sy) /\ length x' = rank sx sy.
Proof.
  cbv zeta. destruct (aligned_pairs_lengths sx sy) as (Hx & Hy & _).
  unfold aligned_pairs. rewrite <- zip_rev by congruence. unfold resize_ones, aligned, rank in *.
  rewrite !rev_app_distr, !replicate_rev, !length_rev. destruct (Nat.ltb_spec (length sy) (length sx)).
  - rewrite !Nat.max_l by lia. replace (length sx - length sx)%nat with 0%nat by lia. rewrite app_nil_r, length_rev. done.
  - rewrite !Nat.max_r by lia. replace (length sy - length sy)%nat with 0%nat by lia. rewrite app_nil_r.
    rewrite length_app, length_rev, length_replicate. split; [done|lia].
Qed.

Fixpoint positions (p : Z * Z -> bool) (i : Z) (ps : list (Z * Z)) : list Z :=
  match ps with
  | [] => []
  | q :: ps => (if p q then [i] else []) ++ positions p (i + 1) ps
  end.

Lemma reduce_idx_app p n l l' : forall i,
  reduce_idx p n i (l ++ l') = reduce_idx p n i l ++ reduce_idx p n (i + Z.of_nat (length l)) l'.
Proof.
  induction l as [|q l IH]; intros i; cbn [app reduce_idx length]; [by rewrite Z.add_0_r|].
  rewrite IH, <- app_assoc. do 2 f_equal. f_equal. lia.
Qed.

Lemma reduce_idx_rev p n ps : rev (reduce_idx p n 0 (rev ps)) = positions p (n - Z.of_nat (length ps)) ps.
Proof.
  induction ps as [|q ps IH]; [done|]. cbn [rev positions]. rewrite reduce_idx_app, rev_app_distr, IH.
  cbn [reduce_idx]. rewrite app_nil_r, length_rev. cbn [length].
  replace (n - 1 - (0 + Z.of_nat (length ps))) with (n - Z.of_nat (S (length ps))) by lia.
  replace (n - Z.of_nat (S (length ps)) + 1) with (n - Z.of_nat (length ps)) by lia.
  by destruct (p q).
Qed.

Lemma aligned_pairs_same sx : aligned_pairs sx sx = zip sx sx.
Proof. unfold aligned_pairs, rank, aligned. by rewrite Nat.max_id, Nat.sub_diag. Qed.

Lemma same_compatible sx : forallb compatible (zip sx sx) = true /\ map out_dim (zip sx sx) = sx.
Proof.
  induction sx as [|d sx [IH1 IH2]]; [done|]. change (zip (d :: sx) (d :: sx)) with ((d, d) :: zip sx sx).
  cbn [forallb map]. rewrite IH1, IH2. unfold compatible, out_dim. cbn [fst snd]. rewrite Z.eqb_refl. split; [done|].
  by destruct (d =? 1).
Qed.

Lemma make_BCast_total sx sy fewer :
  exists b, make_BCast sx sy fewer = Ok b /\
    valid_ b = forallb compatible (aligned_pairs sx sy) /\
    (valid_ b = true -> output_ b = broadcast_shape sx sy /\
       let fast := bool_decide (sx = sy) && fewer in
       grad_x_reduce_idx_ b = (if fast then [] else positions x_is_one 0 (aligned_pairs sx sy)) /\
       grad_y_reduce_idx_ b = (if fast then [] else positions y_is_one 0 (aligned_pairs sx sy))).
Proof.
  unfold make_BCast, broadcast_shape. destruct (bool_decide (sx = sy) && fewer) eqn:Efast.
  - apply andb_true_iff in Efast as [->%bool_decide_eq_true _]. eexists. split; [reflexivity|].
    rewrite aligned_pairs_same. destruct (same_compatible sy) as [-> ->]. done.
  - destruct (loop_pairs sx sy) as [Hzip Hlen]. cbv zeta in *. rewrite Hzip, Hlen.
    destruct (aligned_pairs_lengths sx sy) as (_ & _ & Hn).
    destruct (bcast_loop_total fewer (Z.of_nat (rank sx sy)) (rev (aligned_pairs sx sy)) 0 UNKNOWN empty_BCast)
      as (b & -> & Hv & Hall); [done|by intros []|].
    assert (valid_ b = forallb compatible (aligned_pairs sx sy)) as Hv'.
    { rewrite Hv. apply Bool.eq_true_iff_eq. rewrite !forallb_forall. by setoid_rewrite <- in_rev. }
    cbn [mbind result_bind]. destruct (valid_ b) eqn:Evalid; cbn [negb].
    + destruct (Hall eq_refl) as (Ho & Hx & Hy). eexists. split; [reflexivity|].
      set (b1 := match result_ b with [] => _ | _ => _ end).
      assert (valid_ b1 = true /\ output_ b1 = output_ b /\ grad_x_reduce_idx_ b1 = grad_x_reduce_idx_ b /\
        grad_y_reduce_idx_ b1 = grad_y_reduce_idx_ b) as (E1 & E2 & E3 & E4) by (subst b1; by destruct (result_ b)).
      cbn [reverse_all valid_ output_ grad_x_reduce_idx_ grad_y_reduce_idx_]. rewrite E1, E2, E3, E4, Ho, Hx, Hy.
      cbn [empty_BCast output_ grad_x_reduce_idx_ grad_y_reduce_idx_ app].
      rewrite map_rev, rev_involutive, !reduce_idx_rev, Hn, Z.sub_diag. done.
    + exists b. rewrite Evalid. done.
Qed.

(** C33: for any two shapes the constructor runs without a fault, accepts them
    exactly when numpy does (aligned at the last dimension, dimensions are equal
    or one of them is 1), and then gives numpy's output shape; the dimensions to
    sum a gradient over are those where the operand has size 1, unless equal
    shapes took the fast path. *)
Theorem make_BCast_validity sx sy fewer :
  exists b, make_BCast sx sy fewer = Ok b /\
    valid_ b = forallb compatible (aligned_pairs sx sy) /\
    (valid_ b = true -> output_ b = broadcast_shape sx sy /\
       let fast := bool_decide (sx = sy) && fewer in
       grad_x_reduce_idx_ b = (if fast then [] else positions x_is_one 0 (aligned_pairs sx sy)) /\
       grad_y_reduce_idx_ b = (if fast then [] else positions y_is_one 0 (aligned_pairs sx sy))).
Proof. apply make_BCast_total. Qed.
