(* ===== verification/BcastMerge.v ===== *)
(** * Theorems on broadcasting: merged dimensions and batch indices

    The intermediate shapes of [BCast] read the same elements as the definition
    of broadcasting, with and without the merging of dimensions, and
    [ComputeBatchIndices] tabulates these elements. *)

From S2P Require Import Prelude TensorShape Bcast BcastProofs.

(** ** The intermediate dimensions

    One dimension of the five vectors. *)

Record entry := mk_entry { e_o : Z; e_xr : Z; e_xb : Z; e_yr : Z; e_yb : Z }.

Definition e_x (e : entry) : Z * Z := (e_xr e, e_xb e).
Definition e_y (e : entry) : Z * Z := (e_yr e, e_yb e).

(** What the cases of the loop say of an entry. *)
Definition kind_ok (c : State) (e : entry) : Prop :=
  match c with
  | UNKNOWN => False
  | SAME => e_xb e = 1 /\ e_yb e = 1
  | X_ONE => e_xr e = 1 /\ e_yb e = 1
  | Y_ONE => e_yr e = 1 /\ e_xb e = 1
  end.

Record entry_ok (e : entry) : Prop := mk_entry_ok {
  ok_x : e_pos (e_x e); ok_y : e_pos (e_y e);
  ok_ox : e_o e = e_size (e_x e); ok_oy : e_o e = e_size (e_y e);
  ok_kind : exists c, kind_ok c e }.

Lemma kind_e_kind c e : kind_ok c e -> e_kind (e_x e) /\ e_kind (e_y e).
Proof. unfold e_kind, e_x, e_y. destruct c; simpl; tauto. Qed.

(** The vectors of [b] are the columns of [E]. *)
Record columns (b : BCast) (E : list entry) : Prop := mk_columns {
  col_o : result_ b = map e_o E;
  col_xr : x_reshape_ b = map e_xr E; col_xb : x_bcast_ b = map e_xb E;
  col_yr : y_reshape_ b = map e_yr E; col_yb : y_bcast_ b = map e_yb E }.

Record merged (fewer : bool) (ps : list (Z * Z)) (prev : State) (b : BCast) (E : list entry) : Prop := mk_merged {
  m_columns : columns b E;
  m_ok : Forall entry_ok E;
  m_x : same_tile (map e_x E) (map raw_x ps);
  m_y : same_tile (map e_y E) (map raw_y ps);
  m_size : Zprod (map e_o E) = Zprod (map out_dim ps);
  m_dims : Zprod (map e_xr E) = Zprod (map fst ps) /\ Zprod (map e_yr E) = Zprod (map snd ps);
  m_last : fewer = true -> prev <> UNKNOWN -> exists E' e, E = E' ++ [e] /\ kind_ok prev e;
  m_len : fewer = false -> length E = length ps }.

(** The entry that one pair of dimensions contributes. *)
Definition raw (p : Z * Z) : entry := mk_entry (out_dim p) (raw_x p).1 (raw_x p).2 (raw_y p).1 (raw_y p).2.

Lemma raw_ok p c : dims_pos p -> compatible p = true -> kind_ok c (raw p) -> entry_ok (raw p).
Proof.
  intros Hp Hc Hk. destruct (raw_spec p Hp Hc) as [(? & ? & Ex) (? & ? & Ey)].
  constructor; [done|done|by symmetry|by symmetry|by exists c].
Qed.

(** Two entries of one kind become one. *)
Definition join (e e' : entry) : entry :=
  mk_entry (e_o e * e_o e') (e_xr e * e_xr e') (e_xb e * e_xb e') (e_yr e * e_yr e') (e_yb e * e_yb e').

Lemma join_spec c e e' : entry_ok e -> entry_ok e' -> kind_ok c e -> kind_ok c e' ->
  entry_ok (join e e') /\ kind_ok c (join e e') /\
  same_tile [e_x e; e_x e'] [e_x (join e e')] /\ same_tile [e_y e; e_y e'] [e_y (join e e')].
Proof.
  destruct e as [o xr xb yr yb], e' as [o' xr' xb' yr' yb'].
  intros [[? ?] [? ?] Hx Hy _] [[? ?] [? ?] Hx' Hy' _] Hk Hk'.
  unfold e_x, e_y, e_size in *. cbn in *.
  assert (kind_ok c (join (mk_entry o xr xb yr yb) (mk_entry o' xr' xb' yr' yb'))) as Hj.
  { destruct c; cbn in *; lia. }
  split_and!; [|done| |].
  - constructor; [split; cbn; nia|split; cbn; nia| | |by exists c]; unfold e_size; cbn;
      [rewrite Hx, Hx'|rewrite Hy, Hy']; lia.
  - destruct c; cbn in Hk, Hk'; [done|destruct Hk as [-> ->], Hk' as [-> ->]..].
    + by apply merge_dims.
    + by apply merge_repetitions.
    + by apply merge_dims.
  - destruct c; cbn in Hk, Hk'; [done|destruct Hk as [-> ->], Hk' as [-> ->]..].
    + by apply merge_dims.
    + by apply merge_dims.
    + by apply merge_repetitions.
Qed.

Lemma merged_push fewer ps prev b E p c : merged fewer ps prev b E -> entry_ok (raw p) -> kind_ok c (raw p) ->
  merged fewer (ps ++ [p]) c (push_dim (out_dim p) p.1 (raw_x p).2 p.2 (raw_y p).2 b) (E ++ [raw p]).
Proof.
  intros [[] Hok Hx Hy Hsize [Hdx Hdy] Hlast Hlen] Hp Hc. constructor.
  - constructor; cbn [push_dim result_ x_reshape_ x_bcast_ y_reshape_ y_bcast_]; rewrite map_app; by f_equal.
  - by apply Forall_snoc.
  - rewrite !map_app, Hx. done.
  - rewrite !map_app, Hy. done.
  - rewrite !map_app, !Zprod_app, Hsize. done.
  - rewrite !map_app, !Zprod_app, Hdx, Hdy. done.
  - intros _ _. by exists E, (raw p).
  - intros Hf. rewrite !length_app, Hlen by done. done.
Qed.

(** A pair of ones can be left out. *)
Lemma merged_skip ps prev b E p : merged true ps prev b E -> p.1 = 1 -> p.2 = 1 -> merged true (ps ++ [p]) prev b E.
Proof.
  destruct p as [x y]. cbn. intros [] -> ->. constructor; try done.
  - rewrite map_app, m_x0. change (map raw_x [(1, 1)]) with [(1, 1)]. by rewrite drop_one, app_nil_r.
  - rewrite map_app, m_y0. change (map raw_y [(1, 1)]) with [(1, 1)]. by rewrite drop_one, app_nil_r.
  - rewrite map_app, Zprod_app, m_size0. cbn. lia.
  - destruct m_dims0 as [-> ->]. rewrite !map_app, !Zprod_app. cbn. lia.
Qed.

Lemma mul_back_snoc {A} (f : A -> Z) E e d : -2 ^ 63 <= f e * d < 2 ^ 63 ->
  mul_back (map f (E ++ [e])) d = Ok (map f E ++ [f e * d]).
Proof.
  intros H. unfold mul_back. rewrite map_app. cbn [map]. rewrite last_snoc, removelast_last. cbn. by rewrite i64_small.
Qed.

Lemma entries_pos E : Forall entry_ok E -> 1 <= Zprod (map e_o E).
Proof.
  intros H. apply Zprod_pos, Forall_map. eapply Forall_impl; [done|]. intros e [[? ?] _ -> _ _].
  unfold e_size. cbn in *. nia.
Qed.

(** No column of an entry is larger than its output dimension. *)
Lemma entry_bounds e : entry_ok e ->
  1 <= e_o e /\ 1 <= e_xr e <= e_o e /\ 1 <= e_xb e <= e_o e /\ 1 <= e_yr e <= e_o e /\ 1 <= e_yb e <= e_o e.
Proof.
  intros [[? ?] [? ?] Hx Hy _]. unfold e_size, e_x, e_y in *. cbn in *.
  split_and!; try lia; nia.
Qed.

Lemma merged_grow ps c b E p : merged true ps c b E -> c <> UNKNOWN -> entry_ok (raw p) -> kind_ok c (raw p) ->
  Zprod (map out_dim (ps ++ [p])) < 2 ^ 63 ->
  exists b' E', grow_dim (out_dim p) p.1 (raw_x p).2 p.2 (raw_y p).2 b = Ok b' /\
    merged true (ps ++ [p]) c b' E' /\ valid_ b' = valid_ b.
Proof.
  intros [[Co Cxr Cxb Cyr Cyb] Hok Hx Hy Hsize [Hdx Hdy] Hlast Hlen] Hne Hp Hc Hfit.
  destruct (Hlast eq_refl Hne) as (E' & e & -> & Hke).
  apply Forall_app in Hok as [Hok He]. apply Forall_cons in He as [He _].
  destruct (join_spec c e (raw p) He Hp Hke Hc) as (Hj & Hjk & Hjx & Hjy).
  assert (Zprod (map e_o E') * (e_o e * out_dim p) < 2 ^ 63) as Hbound.
  { rewrite map_app in Hfit. cbn [map] in Hfit. rewrite Zprod_snoc, <- Hsize, map_app in Hfit.
    cbn [map] in Hfit. rewrite Zprod_snoc in Hfit. lia. }
  pose proof (entries_pos E' Hok). pose proof (entry_bounds _ Hj) as (B0 & B1 & B2 & B3 & B4).
  cbn [e_o e_xr e_xb e_yr e_yb join raw raw_x raw_y fst snd] in *.
  assert (e_o e * out_dim p < 2 ^ 63) by nia.
  exists (mk_BCast (valid_ b) (map e_xr E' ++ [e_xr e * p.1]) (map e_xb E' ++ [e_xb e * (raw_x p).2])
    (map e_yr E' ++ [e_yr e * p.2]) (map e_yb E' ++ [e_yb e * (raw_y p).2]) (map e_o E' ++ [e_o e * out_dim p])
    (output_ b) (grad_x_reduce_idx_ b) (grad_y_reduce_idx_ b)), (E' ++ [join e (raw p)]).
  split_and!; [| |done].
  - unfold grow_dim. rewrite Co, Cxr, Cxb, Cyr, Cyb. rewrite !mul_back_snoc by (cbn [raw_x raw_y snd]; lia). done.
  - constructor.
    + constructor; cbn [result_ x_reshape_ x_bcast_ y_reshape_ y_bcast_]; by rewrite map_app.
    + by apply Forall_snoc.
    + rewrite !map_app, <- Hx, map_app, <- app_assoc. cbn [map app]. by rewrite <- Hjx.
    + rewrite !map_app, <- Hy, map_app, <- app_assoc. cbn [map app]. by rewrite <- Hjy.
    + rewrite !map_app in *. cbn [map] in *. rewrite !Zprod_snoc in *. rewrite <- Hsize. cbn [join raw e_o]. lia.
    + rewrite !map_app in *. cbn [map] in *. rewrite !Zprod_snoc in *. rewrite <- Hdx, <- Hdy.
      cbn [join raw e_xr e_yr raw_x raw_y fst]. lia.
    + intros _ _. by exists E', (join e (raw p)).
    + done.
Qed.

Lemma merged_columns fewer ps prev b b' E : merged fewer ps prev b E -> columns b' E -> merged fewer ps prev b' E.
Proof. intros [] ?. by constructor. Qed.

Lemma fits_prefix ps p rest : Forall dims_pos (p :: rest) -> Forall (fun q => compatible q = true) (p :: rest) ->
  1 <= Zprod (map out_dim ps) -> Zprod (map out_dim (ps ++ p :: rest)) < 2 ^ 63 ->
  Zprod (map out_dim (ps ++ [p])) < 2 ^ 63 /\ 1 <= Zprod (map out_dim (ps ++ [p])).
Proof.
  intros Hpos Hc Hps Hfit. destruct (raw_all _ Hpos Hc) as [(Hx & _ & Ex) _].
  pose proof (tile_sizes_pos _ Hx) as H1. unfold tile_sizes in H1. rewrite Ex in H1.
  apply Forall_cons in Hpos as [Hp Hpos]. apply Forall_cons in Hc as [Hcp Hc].
  destruct (raw_all _ Hpos Hc) as [(Hx' & _ & Ex') _]. pose proof (tile_sizes_pos _ Hx') as H2.
  unfold tile_sizes in H2. rewrite Ex' in H2. rewrite !map_app, !Zprod_app in *. cbn [map] in *.
  rewrite !Zprod_cons in *. cbn [Zprod foldr]. nia.
Qed.

Lemma bcast_loop_merged fewer n rest : forall i ps prev b E,
  merged fewer ps prev b E -> valid_ b = true -> Forall dims_pos rest ->
  Forall (fun p => compatible p = true) rest -> 1 <= Zprod (map out_dim ps) ->
  Zprod (map out_dim (ps ++ rest)) < 2 ^ 63 ->
  exists b' E' prev', bcast_loop fewer n i rest prev b = Ok b' /\ valid_ b' = true /\
    merged fewer (ps ++ rest) prev' b' E'.
Proof.
  induction rest as [|[x y] rest IH]; intros i ps prev b E Hm Hv Hpos Hcomp Hps Hfit.
  { exists b, E, prev. by rewrite app_nil_r. }
  destruct (fits_prefix ps (x, y) rest Hpos Hcomp Hps Hfit) as [Hfit1 Hps1].
  apply Forall_cons in Hpos as [Hp Hpos]. apply Forall_cons in Hcomp as [Hc Hcomp].
  rewrite cons_middle, app_assoc in Hfit |- *. cbn [bcast_loop].
  pose proof (compare_dims_spec x y) as Hcmp. destruct (compare_dims x y) as [[[[o bx] by'] curr]|]; [|congruence].
  destruct Hcmp as (_ & -> & Hcurr & -> & -> & Hsame & Hx & Hy).
  assert (kind_ok curr (raw (x, y))) as Hk.
  { destruct curr; [done| | |]; cbn.
    - specialize (Hsame eq_refl) as <-. destruct (Z.eqb_spec x 1) as [->|]; done.
    - destruct (Hx eq_refl) as [-> Hne]. by rewrite (proj2 (Z.eqb_neq _ _) Hne).
    - destruct (Hy eq_refl) as [-> Hne]. by rewrite (proj2 (Z.eqb_neq _ _) Hne). }
  pose proof (raw_ok _ _ Hp Hc Hk) as Hok.
  set (b1 := push_output _ _).
  assert (merged fewer ps prev b1 E /\ valid_ b1 = true) as [Hm1 Hv1].
  { subst b1. pose proof (m_columns _ _ _ _ _ Hm) as []. split; [|by destruct curr].
    eapply merged_columns; [exact Hm|]. by destruct curr; constructor. }
  clearbody b1. clear b Hm Hv.
  destruct (bool_decide (curr = SAME) && (x =? 1)) eqn:Eone.
  - apply andb_true_iff in Eone as [->%bool_decide_eq_true ->%Z.eqb_eq]. specialize (Hsame eq_refl) as <-.
    set (b2 := push_grad_y _ (push_grad_x _ b1)).
    assert (merged fewer ps prev b2 E) as Hm2.
    { eapply merged_columns; [exact Hm1|]. pose proof (m_columns _ _ _ _ _ Hm1) as []. by constructor. }
    destruct fewer; cbn [negb].
    + by apply (IH _ _ _ _ E); [apply merged_skip| | | | |].
    + eapply IH; [|done..]. eapply (merged_push _ _ _ _ _ _ SAME) in Hm2; [|done..].
      destruct Hm2. constructor; try done.
  - destruct (fewer && bool_decide (prev = curr)) eqn:Egrow.
    + apply andb_true_iff in Egrow as [-> ->%bool_decide_eq_true].
      destruct (merged_grow ps curr b1 E (x, y) Hm1 Hcurr Hok Hk Hfit1) as (b2 & E2 & Eg & Hm2 & Hv2).
      cbn [fst snd] in Eg. rewrite Eg. cbn [mbind result_bind]. eapply IH; [exact Hm2|congruence|done..].
    + pose proof (merged_push _ _ prev _ _ (x, y) curr Hm1 Hok Hk) as Hm2. cbn [fst snd] in Hm2.
      by eapply IH; [exact Hm2|..].
Qed.

Lemma ones_merge l : Forall (fun d => 1 <= d) l -> same_tile (map (fun d => (d, 1)) l) [(Zprod l, 1)].
Proof.
  induction 1 as [|d l Hd Hl IH]; [symmetry; apply drop_one|].
  change (map (fun d => (d, 1)) (d :: l)) with ([(d, 1)] ++ map (fun d => (d, 1)) l). rewrite IH.
  apply merge_dims; [done|by apply Zprod_pos].
Qed.

(** ** The intermediate shapes of [BCast] *)

(** [E] lists the intermediate dimensions, the outermost first. *)
Record intermediate (sx sy : Vec) (b : BCast) (E : list entry) : Prop := mk_intermediate {
  i_valid : valid_ b = true;
  i_columns : columns b E;
  i_ok : Forall entry_ok E;
  i_x : forall k, tile (rev (map e_x E)) k = tile (rev (map raw_x (aligned_pairs sx sy))) k;
  i_y : forall k, tile (rev (map e_y E)) k = tile (rev (map raw_y (aligned_pairs sx sy))) k;
  i_size : Zprod (map e_o E) = Zprod (broadcast_shape sx sy);
  i_dims : Zprod (map e_xr E) = Zprod sx /\ Zprod (map e_yr E) = Zprod sy }.

Definition positive (s : Vec) : Prop := Forall (fun d => 1 <= d) s.

Lemma Zprod_ones n : Zprod (replicate n 1) = 1.
Proof. induction n as [|n IH]; [done|]. cbn [replicate]. by rewrite Zprod_cons, IH. Qed.

Lemma aligned_product n s : Zprod (aligned n s) = Zprod s.
Proof. unfold aligned. by rewrite Zprod_app, Zprod_ones, Z.mul_1_l. Qed.

Lemma aligned_fst sx sy : map fst (aligned_pairs sx sy) = aligned (rank sx sy) sx.
Proof.
  destruct (aligned_pairs_lengths sx sy) as (Hx & Hy & _). unfold aligned_pairs. apply fst_zip. lia.
Qed.

Lemma aligned_snd sx sy : map snd (aligned_pairs sx sy) = aligned (rank sx sy) sy.
Proof.
  destruct (aligned_pairs_lengths sx sy) as (Hx & Hy & _). unfold aligned_pairs. apply snd_zip. lia.
Qed.

Lemma aligned_positive sx sy : positive sx -> positive sy -> Forall dims_pos (aligned_pairs sx sy).
Proof.
  intros Hx Hy. assert (forall n s, positive s -> positive (aligned n s)) as Ha.
  { intros n s Hs. apply Forall_app. split; [|done]. by apply Forall_replicate. }
  apply Forall_forall. intros [x y] Hin. split; cbn.
  - assert (x ∈ map fst (aligned_pairs sx sy)) as Hm by (by apply (list_elem_of_fmap_2 fst) in Hin).
    rewrite aligned_fst in Hm. eapply Forall_forall in Hm; [|by apply Ha]. done.
  - assert (y ∈ map snd (aligned_pairs sx sy)) as Hm by (by apply (list_elem_of_fmap_2 snd) in Hin).
    rewrite aligned_snd in Hm. eapply Forall_forall in Hm; [|by apply Ha]. done.
Qed.

Lemma forallb_compatible ps : forallb compatible ps = true -> Forall (fun p => compatible p = true) ps.
Proof. rewrite forallb_forall, Forall_forall. intros H p Hp. by apply H, list_elem_of_In. Qed.

Lemma positive_small s : positive s -> Zprod s < 2 ^ 63 -> small s.
Proof.
  intros Hs Hp. split; [eapply Forall_impl; [done|]; simpl; lia|].
  replace (map (Z.max 1) s) with s; [done|]. clear Hp. induction Hs as [|d s Hd Hs IH]; [done|].
  cbn [map]. rewrite <- IH. f_equal. lia.
Qed.

Lemma columns_rev b E : columns b E -> columns (reverse_all b) (rev E).
Proof. intros []. constructor; cbn; rewrite map_rev; by f_equal. Qed.

Lemma intermediate_merged sx sy fewer prev b E : merged fewer (rev (aligned_pairs sx sy)) prev b E ->
  valid_ b = true -> intermediate sx sy (reverse_all b) (rev E).
Proof.
  intros [Hcol Hok Hx Hy Hsize [Hdx Hdy] _ _] Hv. constructor.
  - done.
  - by apply columns_rev.
  - by apply Forall_rev.
  - intros k. rewrite map_rev, rev_involutive, <- map_rev. by apply same_tile_eq.
  - intros k. rewrite map_rev, rev_involutive, <- map_rev. by apply same_tile_eq.
  - rewrite map_rev, Zprod_rev, Hsize. unfold broadcast_shape. by rewrite map_rev, Zprod_rev.
  - rewrite !map_rev, !Zprod_rev, Hdx, Hdy, !map_rev, !Zprod_rev, aligned_fst, aligned_snd, !aligned_product. done.
Qed.

Lemma make_BCast_intermediate sx sy fewer : positive sx -> positive sy ->
  forallb compatible (aligned_pairs sx sy) = true -> Zprod (broadcast_shape sx sy) < 2 ^ 63 ->
  exists b E, make_BCast sx sy fewer = Ok b /\ intermediate sx sy b E.
Proof.
  intros Hsx Hsy Hc Hfit. unfold make_BCast. destruct (bool_decide (sx = sy) && fewer) eqn:Efast.
  - apply andb_true_iff in Efast as [->%bool_decide_eq_true _].
    assert (broadcast_shape sy sy = sy) as Hb.
    { unfold broadcast_shape. rewrite aligned_pairs_same. apply same_compatible. }
    rewrite Hb in Hfit. rewrite (product_spec sy) by (by apply positive_small).
    pose proof (Zprod_pos _ Hsy) as Hp.
    exists (mk_BCast true [Zprod sy] [1] [Zprod sy] [1] [Zprod sy] sy [] []), [mk_entry (Zprod sy) (Zprod sy) 1 (Zprod sy) 1].
    assert (same_tile [(Zprod sy, 1)] (rev (map raw_x (zip sy sy))) /\
      map raw_x (zip sy sy) = map (fun d => (d, 1)) sy /\ map raw_y (zip sy sy) = map (fun d => (d, 1)) sy) as (Hs & Ex & Ey).
    { assert (map raw_x (zip sy sy) = map (fun d => (d, 1)) sy) as Ex.
      { clear. induction sy as [|d sy IH]; [done|]. change (zip (d :: sy) (d :: sy)) with ((d, d) :: zip sy sy).
        cbn [map]. rewrite IH. unfold raw_x. cbn. by destruct (Z.eqb_spec d 1) as [->|]. }
      assert (map raw_y (zip sy sy) = map raw_x (zip sy sy)) as Ey.
      { clear. induction sy as [|d sy IH]; [done|]. change (zip (d :: sy) (d :: sy)) with ((d, d) :: zip sy sy).
        cbn [map]. by rewrite IH. }
      split_and!; [|done|by rewrite Ey]. rewrite Ex, <- map_rev, <- (Zprod_rev sy). symmetry.
      apply ones_merge. by apply Forall_rev. }
    split; [done|]. constructor; rewrite ?aligned_pairs_same, ?Hb; cbn; try done.
    + apply Forall_cons. split; [|done]. constructor; [by split|by split|unfold e_size; cbn; lia..|by exists SAME].
    + intros k. by apply (same_tile_eq [(Zprod sy, 1)]).
    + intros k. rewrite Ey, <- Ex. by apply (same_tile_eq [(Zprod sy, 1)]).
    + lia.
    + lia.
  - destruct (loop_pairs sx sy) as [Hzip Hlen]. cbv zeta in *. rewrite Hzip, Hlen.
    destruct (bcast_loop_merged fewer (Z.of_nat (rank sx sy)) (rev (aligned_pairs sx sy)) 0 [] UNKNOWN empty_BCast [])
      as (b & E & prev & -> & Hv & Hm).
    + by constructor.
    + done.
    + by apply Forall_rev, aligned_positive.
    + by apply Forall_rev, forallb_compatible.
    + done.
    + cbn [app]. by rewrite map_rev, Zprod_rev.
    + cbn [mbind result_bind app] in *. rewrite Hv. cbn [negb].
      destruct E as [|e E].
      * destruct (m_columns _ _ _ _ _ Hm) as []. rewrite col_o0. eexists _, [mk_entry 1 1 1 1 1]. split; [reflexivity|].
        apply (intermediate_merged sx sy true SAME _ [mk_entry 1 1 1 1 1]); [|done].
        destruct Hm as [_ _ Hx Hy Hsize Hdims _ _].
        constructor; try done.
        -- constructor; cbn; by rewrite ?col_o0, ?col_xr0, ?col_xb0, ?col_yr0, ?col_yb0.
        -- apply Forall_cons. split; [|done]. constructor; [by split|by split|done|done|by exists SAME].
        -- etransitivity; [apply drop_one|done].
        -- etransitivity; [apply drop_one|done].
        -- intros _ _. by exists [], (mk_entry 1 1 1 1 1).
      * pose proof (m_columns _ _ _ _ _ Hm) as Hcol. rewrite (col_o _ _ Hcol). cbn [map].
        eexists _, _. split; [reflexivity|]. by eapply intermediate_merged.
Qed.

Lemma zip_columns {A} (f g : A -> Z) E : zip (map f E) (map g E) = map (fun e => (f e, g e)) E.
Proof. induction E as [|e E IH]; [done|]. cbn [map]. by rewrite <- IH. Qed.

Lemma entries_x E : Forall entry_ok E -> Forall e_pos (map e_x E) /\ Forall e_kind (map e_x E).
Proof.
  intros H. split; apply Forall_map; (eapply Forall_impl; [done|]); intros e []; [done|].
  destruct ok_kind0 as [c Hc]. by apply kind_e_kind in Hc as [? ?].
Qed.

Lemma entries_y E : Forall entry_ok E -> Forall e_pos (map e_y E) /\ Forall e_kind (map e_y E).
Proof.
  intros H. split; apply Forall_map; (eapply Forall_impl; [done|]); intros e []; [done|].
  destruct ok_kind0 as [c Hc]. by apply kind_e_kind in Hc as [? ?].
Qed.

(** An operand read through its intermediate shape and by definition. *)
Lemma intermediate_x sx sy b E k : positive sx -> positive sy -> forallb compatible (aligned_pairs sx sy) = true ->
  intermediate sx sy b E ->
  tile (rev (map e_x E)) k = broadcast_index (aligned (rank sx sy) sx) (broadcast_shape sx sy) k.
Proof.
  intros Hsx Hsy Hc HI. rewrite (i_x _ _ _ _ HI).
  destruct (raw_all _ (aligned_positive _ _ Hsx Hsy) (forallb_compatible _ Hc)) as [(Hp & Hk & Es) _].
  rewrite <- broadcast_index_tile by done. unfold broadcast_shape. rewrite Es. f_equal.
  by rewrite map_map, <- aligned_fst.
Qed.

Lemma intermediate_y sx sy b E k : positive sx -> positive sy -> forallb compatible (aligned_pairs sx sy) = true ->
  intermediate sx sy b E ->
  tile (rev (map e_y E)) k = broadcast_index (aligned (rank sx sy) sy) (broadcast_shape sx sy) k.
Proof.
  intros Hsx Hsy Hc HI. rewrite (i_y _ _ _ _ HI).
  destruct (raw_all _ (aligned_positive _ _ Hsx Hsy) (forallb_compatible _ Hc)) as [_ (Hp & Hk & Es)].
  rewrite <- broadcast_index_tile by done. unfold broadcast_shape. rewrite Es. f_equal.
  by rewrite map_map, <- aligned_snd.
Qed.

(** C18: for compatible shapes without empty dimensions, the element of either
    operand that the caller reads at any position after [reshape] and
    [broadcast] with the shapes computed is the one that the definition of
    broadcasting gives, whether or not dimensions are merged; the reshapes keep
    the number of elements, and both operands reach the intermediate shape
    [result_], which has as many elements as the output. *)
Theorem BCast_reads_right_elements sx sy fewer : positive sx -> positive sy ->
  forallb compatible (aligned_pairs sx sy) = true -> Zprod (broadcast_shape sx sy) < 2 ^ 63 ->
  exists b, make_BCast sx sy fewer = Ok b /\
    Zprod (x_reshape_ b) = Zprod sx /\ Zprod (y_reshape_ b) = Zprod sy /\
    zip_with Z.mul (x_reshape_ b) (x_bcast_ b) = result_ b /\ zip_with Z.mul (y_reshape_ b) (y_bcast_ b) = result_ b /\
    Zprod (result_ b) = Zprod (broadcast_shape sx sy) /\
    forall k,
      reshape_broadcast_index (x_reshape_ b) (x_bcast_ b) k =
        broadcast_index (aligned (rank sx sy) sx) (broadcast_shape sx sy) k /\
      reshape_broadcast_index (y_reshape_ b) (y_bcast_ b) k =
        broadcast_index (aligned (rank sx sy) sy) (broadcast_shape sx sy) k.
Proof.
  intros Hsx Hsy Hc Hfit. destruct (make_BCast_intermediate sx sy fewer Hsx Hsy Hc Hfit) as (b & E & Hb & HI).
  exists b. pose proof HI as [_ [Co Cxr Cxb Cyr Cyb] Hok _ _ Hsize [Hdx Hdy]]. rewrite Co, Cxr, Cxb, Cyr, Cyb.
  destruct (entries_x E Hok) as [Hpx _]. destruct (entries_y E Hok) as [Hpy _]. split_and!; try done.
  - clear -Hok. induction Hok as [|e E He Hok IH]; [done|]. cbn [map zip_with]. rewrite IH. f_equal. symmetry. apply He.
  - clear -Hok. induction Hok as [|e E He Hok IH]; [done|]. cbn [map zip_with]. rewrite IH. f_equal. symmetry. apply He.
  - intros k. rewrite <- (intermediate_x sx sy b E), <- (intermediate_y sx sy b E) by done.
    destruct (row_major_tile (map e_xr E) (map e_xb E) k) as (Ex & _ & _);
      [by rewrite !length_map|by rewrite zip_columns|].
    destruct (row_major_tile (map e_yr E) (map e_yb E) k) as (Ey & _ & _);
      [by rewrite !length_map|by rewrite zip_columns|].
    rewrite Ex, Ey, !zip_columns. done.
Qed.

Lemma BCast_reads_right_elements_witness :
  broadcast_shape [2; 3; 1; 1] [3; 4; 5] = [2; 3; 4; 5] /\
  exists b, make_BCast [2; 3; 1; 1] [3; 4; 5] true = Ok b /\
    reshape_broadcast_index (x_reshape_ b) (x_bcast_ b) 67 = 3.
Proof.
  split; [reflexivity|].
  destruct (BCast_reads_right_elements [2; 3; 1; 1] [3; 4; 5] true) as (b & Hb & _ & _ & _ & _ & _ & H);
    [repeat constructor; lia|repeat constructor; lia|reflexivity|reflexivity|].
  exists b. split; [exact Hb|]. exact (proj1 (H 67)).
Defined.
