(* ===== verification/BatchIndices.v ===== *)
(** * Batch indices of matrix products

    [ComputeBatchIndices] tabulates the tiling of an operand, and
    [MatMulBCast] gives every batch of the output the batches of the operands
    that broadcasting prescribes. *)

From S2P Require Import Prelude TensorShape Bcast BcastProofs BcastMerge.

(** ** The inner loop *)

Lemma vec_get_ok (v : Vec) i : 0 <= i < Z.of_nat (length v) -> exists x, vec_get v i = Ok x /\ v !! Z.to_nat i = Some x.
Proof.
  intros H. unfold vec_get. destruct (Z.ltb_spec i 0); [lia|].
  destruct (lookup_lt_is_Some_2 v (Z.to_nat i)) as [x Hx]; [lia|]. exists x. by rewrite Hx.
Qed.

Lemma vec_set_ok (v : Vec) i x : 0 <= i < Z.of_nat (length v) -> vec_set v i x = Ok (<[Z.to_nat i := x]> v).
Proof. intros H. unfold vec_set. destruct (vec_get_ok v i H) as (y & -> & _). done. Qed.

(** The first [n] elements tabulate [g]. *)
Definition tabulates (v : Vec) (n : Z) (g : Z -> Z) : Prop :=
  forall j, 0 <= j < n -> v !! Z.to_nat j = Some (g j).

(** Copying the first [n] elements behind themselves, [incr] higher. *)
Lemma replicate_loop_spec n incr g count : forall k v,
  0 < n -> 0 <= k -> n + k + Z.of_nat count <= Z.of_nat (length v) ->
  (forall j, 0 <= j < k + Z.of_nat count -> g (n + j) = g j + incr /\ -2 ^ 63 <= g (n + j) < 2 ^ 63) ->
  tabulates v (n + k) g ->
  exists w, replicate_loop n incr count k v = Ok w /\ length w = length v /\
    tabulates w (n + k + Z.of_nat count) g.
Proof.
  induction count as [|count IH]; intros k v Hn Hk Hlen Hg Hv.
  { exists v. split_and!; [done|done|]. by rewrite Z.add_0_r. }
  cbn [replicate_loop]. destruct (vec_get_ok v k) as (x & -> & Hx); [lia|]. cbn [mbind result_bind].
  assert (x = g k) as -> by (rewrite Hv in Hx by lia; congruence).
  rewrite vec_set_ok by lia. cbn [mbind result_bind].
  destruct (Hg k) as [Hgk Hr]; [lia|]. rewrite <- Hgk, i64_small by done.
  destruct (IH (k + 1) (<[Z.to_nat (n + k) := g (n + k)]> v)) as (w & Hw & Hwl & Hwt).
  - done.
  - lia.
  - rewrite length_insert. lia.
  - intros j Hj. apply Hg. lia.
  - intros j Hj. destruct (decide (j = n + k)) as [->|].
    + rewrite list_lookup_insert_eq by lia. done.
    + rewrite list_lookup_insert_ne by lia. apply Hv. lia.
  - exists w. split; [done|]. rewrite length_insert in Hwl. split; [done|].
    replace (n + k + Z.of_nat (S count)) with (n + (k + 1) + Z.of_nat count) by lia. done.
Qed.

(** ** The outer loop *)

Lemma tile_snoc E e k : Forall e_pos E -> e_pos e ->
  tile (E ++ [e]) k = tile E k + tile_dims E * ((k / tile_sizes E) `mod` e.1).
Proof. intros HE He. rewrite tile_app by done. destruct e as [r b]. cbn [tile fst]. lia. Qed.

Lemma tile_sizes_snoc E e : tile_sizes (E ++ [e]) = tile_sizes E * e_size e.
Proof. unfold tile_sizes. rewrite map_app. apply Zprod_snoc. Qed.

Lemma tile_dims_snoc E e : tile_dims (E ++ [e]) = tile_dims E * e.1.
Proof. unfold tile_dims. rewrite map_app. apply Zprod_snoc. Qed.

Lemma tile_dims_le E : Forall e_pos E -> tile_dims E <= tile_sizes E.
Proof.
  induction 1 as [|[r b] E [Hr Hb] HE IH]; [done|]. unfold tile_dims, tile_sizes in *. cbn [map fst snd] in *.
  rewrite !Zprod_cons. unfold e_size at 1. cbn [fst snd]. pose proof (tile_dims_pos E HE) as Hd. unfold tile_dims in Hd.
  transitivity (r * Zprod (map e_size E)); [apply Z.mul_le_mono_nonneg_l; lia|]. apply Z.mul_le_mono_nonneg_r; nia.
Qed.

(** One more dimension continues the table. *)
Lemma tile_step E r b j : Forall e_pos E -> e_pos (r, b) -> e_kind (r, b) ->
  0 <= j -> j + tile_sizes E < tile_sizes E * (r * b) ->
  tile (E ++ [(r, b)]) (tile_sizes E + j) =
    tile (E ++ [(r, b)]) j + (if 1 <? b then 0 else tile_dims E).
Proof.
  intros HE [Hr Hb] Hk Hj Hlt. cbn [fst snd] in *. pose proof (tile_sizes_pos E HE) as Hs.
  rewrite !tile_snoc by done. cbn [fst].
  rewrite (tile_mod E (tile_sizes E + j)), (tile_mod E j) by done.
  replace (tile_sizes E + j) with (j + 1 * tile_sizes E) by lia. rewrite Z_mod_plus_full, Z.div_add by lia.
  assert (0 <= j / tile_sizes E) by (apply Z.div_pos; lia).
  destruct Hk as [Hk|Hk]; cbn [fst snd] in Hk; subst.
  - rewrite !Z.mod_1_r. destruct (Z.ltb_spec 1 b) as [|Hb1]; [lia|]. assert (b = 1) as -> by lia. lia.
  - change (1 <? 1) with false. cbn match.
    assert (j / tile_sizes E + 1 < r).
    { enough (j / tile_sizes E < r - 1) by lia. apply Z.div_lt_upper_bound; nia. }
    rewrite (Z.mod_small (j / tile_sizes E + 1)), (Z.mod_small (j / tile_sizes E)) by lia. lia.
Qed.

Lemma max_is_size r b : e_pos (r, b) -> e_kind (r, b) -> Z.max r b = r * b.
Proof. intros [Hr Hb] [Hk|Hk]; cbn [fst snd] in *; subst; lia. Qed.

Lemma batch_loop_spec rest : forall E v,
  Forall e_pos (E ++ rest) -> Forall e_kind (E ++ rest) ->
  tile_sizes (E ++ rest) <= Z.of_nat (length v) -> tile_sizes (E ++ rest) < 2 ^ 63 ->
  tabulates v (tile_sizes E) (tile E) ->
  exists w, batch_loop rest (tile_sizes E) (tile_dims E) v = Ok w /\ length w = length v /\
    tabulates w (tile_sizes (E ++ rest)) (tile (E ++ rest)).
Proof.
  induction rest as [|[r b] rest IH]; intros E v Hpos Hkind Hlen Hfit Hv.
  { exists v. by rewrite app_nil_r. }
  rewrite cons_middle, app_assoc in *.
  pose proof (proj1 (proj1 (Forall_app _ _ _) Hpos)) as HposE'. pose proof (proj2 (proj1 (Forall_app _ _ _) Hpos)) as Hposr.
  pose proof (proj1 (proj1 (Forall_app _ _ _) HposE')) as HposE.
  pose proof (proj1 (proj1 (Forall_app _ _ _) Hkind)) as HkindE'.
  assert (e_pos (r, b) /\ e_kind (r, b)) as [He Hk].
  { apply Forall_app in HposE' as [_ He]. apply Forall_app in HkindE' as [_ Hk].
    apply Forall_cons in He as [He _]. by apply Forall_cons in Hk as [Hk _]. }
  assert (tile_sizes (E ++ [(r, b)]) <= tile_sizes ((E ++ [(r, b)]) ++ rest)) as Hle.
  { unfold tile_sizes. rewrite (map_app _ (E ++ _)), Zprod_app. fold (tile_sizes (E ++ [(r, b)])) (tile_sizes rest).
    pose proof (tile_sizes_pos _ HposE'). pose proof (tile_sizes_pos _ Hposr). nia. }
  pose proof (tile_sizes_snoc E (r, b)) as Es. pose proof (tile_dims_snoc E (r, b)) as Ed. cbn [fst] in Ed.
  unfold e_size in Es. cbn [fst snd] in Es.
  cbn [batch_loop]. rewrite max_is_size by done.
  pose proof (tile_sizes_pos E HposE) as H1. pose proof (tile_dims_pos E HposE) as H2.
  pose proof (tile_dims_le _ HposE') as Hdle.
  destruct He as [Hr Hb]. cbn [fst snd] in *.
  assert (1 <= r * b) by nia. assert (0 <= (r * b - 1) * tile_sizes E) by nia.
  assert ((r * b - 1) * tile_sizes E = tile_sizes E * (r * b) - tile_sizes E) as Ecount by lia.
  assert (1 <= tile_dims E * r) by nia.
  rewrite (i64_small ((r * b - 1) * tile_sizes E)), (i64_small (tile_sizes E * (r * b))), (i64_small (tile_dims E * r)) by lia.
  destruct (replicate_loop_spec (tile_sizes E) (if 1 <? b then 0 else tile_dims E) (tile (E ++ [(r, b)]))
    (Z.to_nat ((r * b - 1) * tile_sizes E)) 0 v) as (w & Hw & Hwl & Hwt).
  - lia.
  - lia.
  - rewrite Z2Nat.id by lia. lia.
  - rewrite Z2Nat.id by lia. intros j Hj. split; [apply tile_step; [done|done|done|lia|lia]|].
    pose proof (tile_range (E ++ [(r, b)]) (tile_sizes E + j) HposE'). lia.
  - intros j Hj. rewrite Hv by lia. f_equal. rewrite tile_snoc by (done || by split). cbn [fst].
    rewrite (Z.div_small j), Z.mod_0_l by lia. lia.
  - rewrite Hw. cbn [mbind result_bind]. rewrite <- Es, <- Ed. rewrite <- Hwl.
    apply IH; [done|done|lia|lia|]. intros j Hj. apply Hwt. rewrite Z2Nat.id by lia. lia.
Qed.

Lemma ComputeBatchIndices_spec E : Forall e_pos E -> Forall e_kind E -> tile_sizes E < 2 ^ 63 ->
  exists v, ComputeBatchIndices (tile_sizes E) (map fst E) (map snd E) = Ok v /\
    Z.of_nat (length v) = tile_sizes E /\ tabulates v (tile_sizes E) (tile (rev E)).
Proof.
  intros Hpos Hkind Hfit. unfold ComputeBatchIndices.
  assert (zip (rev (map fst E)) (rev (map snd E)) = rev E) as ->.
  { rewrite zip_rev by (by rewrite !length_map). f_equal. apply zip_fst_snd. }
  assert (tile_sizes (rev E) = tile_sizes E) as Es by (unfold tile_sizes; by rewrite map_rev, Zprod_rev).
  pose proof (tile_sizes_pos E Hpos) as H1.
  destruct (batch_loop_spec (rev E) [] (replicate (Z.to_nat (tile_sizes E)) 0)) as (v & Hv & Hl & Ht).
  - by apply Forall_rev.
  - by apply Forall_rev.
  - cbn [app]. rewrite Es, length_replicate. lia.
  - cbn [app]. by rewrite Es.
  - intros j Hj. assert (j = 0) as -> by (change (tile_sizes []) with 1 in Hj; lia).
    rewrite lookup_replicate_2 by lia. done.
  - exists v. rewrite length_replicate in Hl. cbn [app] in Ht. rewrite Es in Ht. split_and!; [exact Hv|lia|exact Ht].
Qed.

(** ** Matrix products *)

Lemma tile_id E : Forall e_pos E -> tile_dims E = tile_sizes E -> forall k, 0 <= k < tile_sizes E -> tile E k = k.
Proof.
  induction 1 as [|[r b] E [Hr Hb] HE IH]; intros Heq k Hk.
  { change (tile_sizes []) with 1 in Hk. simpl. lia. }
  pose proof (tile_dims_le E HE) as Hle. pose proof (tile_dims_pos E HE) as Hd.
  change (r * tile_dims E = r * b * tile_sizes E) in Heq. change (0 <= k < r * b * tile_sizes E) in Hk.
  cbn [fst snd] in *.
  assert (tile_dims E = b * tile_sizes E) as Hb' by (apply (Z.mul_reg_l _ _ r); lia).
  assert (b = 1) as -> by nia. rewrite Z.mul_1_l in Hb'.
  cbn [tile]. rewrite IH; [|done|rewrite Z.mul_1_r in *; split; [apply Z.div_pos; lia|apply Z.div_lt_upper_bound; lia]].
  rewrite Z.mul_1_r. pose proof (Z.div_mod k r ltac:(lia)). lia.
Qed.

(** The batch dimensions of an operand. *)
Definition batch_dims (v : Vec) : Vec := take (length v - 2) v.

Definition batch_index (s o : Vec) (n : nat) (k : Z) : Z := broadcast_index (aligned n s) o k.

(** What is computed for one operand. *)
Lemma operand_spec (E : list (Z * Z)) o : Forall e_pos E -> Forall e_kind E -> tile_sizes E = o -> o < 2 ^ 63 ->
  num_elements_ (TensorShape_of (map fst E)) = tile_dims E /\ 1 <= tile_dims E <= o /\
  exists v, ComputeBatchIndices o (map fst E) (map snd E) = Ok v /\
    forall k, 0 <= k < o -> v !! Z.to_nat k = Some (tile (rev E) k) /\ 0 <= tile (rev E) k < tile_dims E.
Proof.
  intros Hpos Hkind <- Hfit. pose proof (tile_dims_le E Hpos). pose proof (tile_dims_pos E Hpos).
  split_and!; [|done..|].
  - cbn. apply product_spec, positive_small; [|fold (tile_dims E); lia].
    apply Forall_map. eapply Forall_impl; [exact Hpos|]. by intros e [? ?].
  - destruct (ComputeBatchIndices_spec E Hpos Hkind Hfit) as (v & Hv & _ & Ht). exists v. split; [done|].
    intros k Hk. split; [by apply Ht|].
    assert (tile_dims (rev E) = tile_dims E) as <- by (unfold tile_dims; by rewrite map_rev, Zprod_rev).
    by apply tile_range, Forall_rev.
Qed.

Lemma make_MatMulBCast_bcast x y : (2 <= length x)%nat -> (2 <= length y)%nat ->
  make_MatMulBCast x y =
    if Nat.eqb (Nat.max (length x) (length y)) 2 then
      mret (mk_MatMulBCast None false 1 1 make_TensorShape 1 [] [])
    else
      b ← make_BCast (batch_dims x) (batch_dims y) true;
      if negb (valid_ b) then mret (mk_MatMulBCast (Some b) true 1 1 make_TensorShape 1 [] [])
      else
        let xs := num_elements_ (TensorShape_of (x_reshape_ b)) in
        let ys := num_elements_ (TensorShape_of (y_reshape_ b)) in
        let os := num_elements_ (TensorShape_of (output_ b)) in
        if negb (Z.min xs ys =? os) then
          xi ← ComputeBatchIndices os (x_reshape_ b) (x_bcast_ b);
          yi ← ComputeBatchIndices os (y_reshape_ b) (y_bcast_ b);
          mret (mk_MatMulBCast (Some b) true xs ys (TensorShape_of (output_ b)) os xi yi)
        else mret (mk_MatMulBCast (Some b) false xs ys (TensorShape_of (output_ b)) os [] []).
Proof.
  intros Hx Hy. unfold make_MatMulBCast, without_last_two.
  destruct (Nat.eqb _ 2); [done|]. rewrite !(proj2 (Nat.ltb_ge _ _)) by done. done.
Qed.

Lemma broadcast_shape_positive sx sy : positive sx -> positive sy ->
  forallb compatible (aligned_pairs sx sy) = true -> positive (broadcast_shape sx sy).
Proof.
  intros Hsx Hsy Hc. apply Forall_map. pose proof (aligned_positive sx sy Hsx Hsy) as Hp.
  eapply Forall_impl; [exact Hp|]. intros p [? ?]. unfold out_dim. by destruct (p.1 =? 1).
Qed.

(** C19: for operands of rank 2 or more without empty batch dimensions the object
    is valid exactly when the batch dimensions are compatible; then the [k]-th
    batch of the output is paired with the batches of the operands that the
    definition of broadcasting gives, each index within the operand, and where
    no broadcasting is required with the [k]-th batch of both. *)
Theorem MatMulBCast_pairs_batches x y : (2 <= length x)%nat -> (2 <= length y)%nat ->
  let sx := batch_dims x in
  let sy := batch_dims y in
  let o := broadcast_shape sx sy in
  positive sx -> positive sy -> (forallb compatible (aligned_pairs sx sy) = true -> Zprod o < 2 ^ 63) ->
  exists m, make_MatMulBCast x y = Ok m /\ IsValid m = forallb compatible (aligned_pairs sx sy) /\
    (IsValid m = true ->
       output_batch_size_ m = Zprod o /\ x_batch_size_ m = Zprod sx /\ y_batch_size_ m = Zprod sy /\
       forall k, 0 <= k < Zprod o ->
         let ix := batch_index sx o (rank sx sy) k in
         let iy := batch_index sy o (rank sx sy) k in
         if broadcasting_required_ m then
           x_batch_indices_ m !! Z.to_nat k = Some ix /\ 0 <= ix < Zprod sx /\
           y_batch_indices_ m !! Z.to_nat k = Some iy /\ 0 <= iy < Zprod sy
         else ix = k /\ iy = k).
Proof.
  intros Hx Hy sx sy o Hsx Hsy Hfit. rewrite make_MatMulBCast_bcast by done. fold sx sy.
  destruct (Nat.eqb_spec (Nat.max (length x) (length y)) 2) as [Hmax|Hmax].
  { assert (sx = [] /\ sy = []) as [Ex Ey].
    { subst sx sy. unfold batch_dims. split; [replace (length x - 2)%nat with 0%nat by lia|
        replace (length y - 2)%nat with 0%nat by lia]; done. }
    subst o. rewrite Ex, Ey. eexists. split; [reflexivity|]. split; [done|]. intros _. split_and!; [done..|].
    intros k Hk. change (Zprod (broadcast_shape [] [])) with 1 in Hk. assert (k = 0) as -> by lia. done. }
  destruct (make_BCast_total sx sy true) as (b & Hb & Hv & Hall). rewrite Hb. cbn [mbind result_bind].
  destruct (valid_ b) eqn:Evalid; cbn [negb].
  2:{ eexists. split; [reflexivity|]. unfold IsValid. cbn. rewrite Evalid, <- Hv. done. }
  symmetry in Hv. specialize (Hfit Hv). destruct (Hall eq_refl) as [Ho _]. fold o in Ho.
  destruct (make_BCast_intermediate sx sy true Hsx Hsy Hv Hfit) as (b' & E & Hb' & HI).
  rewrite Hb in Hb'. injection Hb' as <-. pose proof HI as [_ [Co Cxr Cxb Cyr Cyb] Hok _ _ Hsize [Hdx Hdy]].
  destruct (entries_x E Hok) as [Hpx Hkx]. destruct (entries_y E Hok) as [Hpy Hky].
  assert (tile_sizes (map e_x E) = Zprod o /\ tile_sizes (map e_y E) = Zprod o) as [Hsx' Hsy'].
  { unfold o. rewrite <- Hsize. unfold tile_sizes. rewrite !map_map. clear -Hok.
    split; f_equal; induction Hok as [|e E He Hok IH]; [done| |done|]; cbn [map]; rewrite IH; f_equal; symmetry; apply He. }
  destruct (operand_spec _ _ Hpx Hkx Hsx' Hfit) as (Nx & Bx & vx & Hvx & Htx).
  destruct (operand_spec _ _ Hpy Hky Hsy' Hfit) as (Ny & By & vy & Hvy & Hty).
  assert (map fst (map e_x E) = map e_xr E /\ map snd (map e_x E) = map e_xb E /\
    map fst (map e_y E) = map e_yr E /\ map snd (map e_y E) = map e_yb E) as (F1 & F2 & F3 & F4)
    by (by rewrite !map_map).
  rewrite F1 in Nx. rewrite F3 in Ny. rewrite F1, F2 in Hvx. rewrite F3, F4 in Hvy.
  assert (tile_dims (map e_x E) = Zprod sx /\ tile_dims (map e_y E) = Zprod sy) as [Dx Dy].
  { rewrite <- Hdx, <- Hdy. unfold tile_dims. by rewrite !map_map. }
  assert (num_elements_ (TensorShape_of o) = Zprod o) as No.
  { apply product_spec, positive_small; [|done]. by apply broadcast_shape_positive. }
  rewrite Cxr, Cxb, Cyr, Cyb, Ho, Nx, Ny, No, Dx, Dy. rewrite Dx, Dy in *.
  assert (forall k, batch_index sx o (rank sx sy) k = tile (rev (map e_x E)) k /\
    batch_index sy o (rank sx sy) k = tile (rev (map e_y E)) k) as Hidx.
  { intros k. unfold batch_index, o. by rewrite (intermediate_x sx sy b E), (intermediate_y sx sy b E) by done. }
  destruct (Z.eqb_spec (Z.min (Zprod sx) (Zprod sy)) (Zprod o)) as [Emin|Emin]; cbn [negb].
  - eexists. split; [reflexivity|]. unfold IsValid. cbn. rewrite Hv. split; [done|]. intros _. split_and!; [done..|].
    intros k Hk. destruct (Hidx k) as [-> ->].
    split; apply tile_id; try by apply Forall_rev.
    1,3: unfold tile_dims, tile_sizes; rewrite !map_rev, !Zprod_rev; fold (tile_dims (map e_x E)) (tile_sizes (map e_x E))
      (tile_dims (map e_y E)) (tile_sizes (map e_y E)); lia.
    all: unfold tile_sizes; rewrite map_rev, Zprod_rev; fold (tile_sizes (map e_x E)) (tile_sizes (map e_y E)); lia.
  - rewrite Hvx, Hvy. cbn [mbind result_bind]. eexists. split; [reflexivity|]. unfold IsValid. cbn.
    rewrite Evalid, Hv. split; [done|]. intros _. split_and!; [done..|].
    intros k Hk. destruct (Hidx k) as [-> ->]. destruct (Htx k Hk), (Hty k Hk). done.
Qed.

Lemma MatMulBCast_pairs_batches_witness :
  exists m, make_MatMulBCast [2; 1; 3; 8; 9] [4; 1; 9; 7] = Ok m /\ IsValid m = true /\
    broadcasting_required_ m = true /\ x_batch_indices_ m !! 22%nat = Some 4 /\ y_batch_indices_ m !! 22%nat = Some 3.
Proof.
  destruct (MatMulBCast_pairs_batches [2; 1; 3; 8; 9] [4; 1; 9; 7]) as (m & Hm & Hv & H);
    [simpl; lia|simpl; lia|repeat constructor; lia|repeat constructor; lia|reflexivity|].
  exists m. split; [exact Hm|]. split; [exact Hv|].
  destruct (H Hv) as (_ & _ & _ & Hk). specialize (Hk 22 ltac:(split; [lia|reflexivity])).
  assert (broadcasting_required_ m = true) as E by (vm_compute in Hm; injection Hm as <-; reflexivity).
  rewrite E in Hk. destruct Hk as (Hx & _ & Hy & _). split; [exact E|]. split; [exact Hx|exact Hy].
Defined.
