(* ===== verification/TensorName.v ===== *)
(** * TensorName: the names of tensors (optimizer/tensor_id, graph.h)

    A fanin of a node is written as a text: [^node] for a control edge, [node]
    or [node:port] for an output.  The parser walks back from the end of the
    text; the model walks over the reversed characters. *)

From Stdlib Require Import Ascii.
From S2P Require Import Prelude Text.
#[local] Open Scope string_scope.
#[local] Open Scope Z_scope.

(** [kControlSlot] *)
Definition kControlSlot : Z := -1.

(** [TensorId] and [SafeTensorId], which owns its text. *)
Record TensorId := mk_TensorId { node : string; index : Z }.

#[export] Instance TensorId_eq_dec : EqDecision TensorId.
Proof. solve_decision. Defined.

Definition IsTensorIdControl (t : TensorId) : bool := index t =? kControlSlot.

(** [TensorId::ToString] *)
Definition ToString (t : TensorId) : string :=
  if index t =? kControlSlot then "^" +:+ node t else node t +:+ ":" +:+ pretty (index t).

(** The loop of [ParseTensorName].  [r] is the text from [p] back to [base]; the
    condition [p > base] asks for a character before [p].  [index] and [mul] are
    32-bit unsigned. *)
Fixpoint digits_back (r : list ascii) (index mul : Z) : list ascii * Z * Z :=
  match r with
  | c :: (_ :: _) as r' =>
      if is_digit c then digits_back r' (u32 (index + u32 (digit_value c * mul))) (u32 (mul * 10))
      else (r, index, mul)
  | _ => (r, index, mul)
  end.

(** [absl::string_view] of a pointer: the text up to its terminator. *)
Fixpoint c_str (l : list ascii) : list ascii :=
  match l with
  | c :: l' => if Ascii.eqb c Ascii.zero then [] else c :: c_str l'
  | [] => []
  end.

(** [ParseTensorName(const std::string &)] *)
Definition ParseTensorName (name : string) : TensorId :=
  let '(r, index, mul) := digits_back (rev (String.list_ascii_of_string name)) 0 1 in
  let unported :=
    match String.list_ascii_of_string name with
    | c :: l => if Ascii.eqb c "^" then mk_TensorId (String.string_of_list_ascii (c_str l)) kControlSlot
                else mk_TensorId name 0
    | [] => mk_TensorId name 0
    end in
  match r with
  | c :: (_ :: _) as r' =>
      if Ascii.eqb c ":" && (1 <? mul) then mk_TensorId (String.string_of_list_ascii (rev r')) (i32 index)
      else unported
  | _ => unported
  end.

(** [SafeTensorIdToString] and [AsControlDependency] (optimizer/graph_view.cc) *)
Definition SafeTensorIdToString (t : TensorId) : string :=
  if index t =? 0 then node t else ToString t.

Definition AsControlDependency (node_name : string) : result string :=
  match node_name with
  | EmptyString => Fault CheckFailed
  | String c _ => Ok (if Ascii.eqb c "^" then node_name else "^" +:+ node_name)
  end.

(** The names of nodes that can be told apart from ports and control edges:
    not empty, no colon and no terminator, not starting with a caret. *)
Definition valid_node_name (s : string) : bool :=
  match s with
  | EmptyString => false
  | String c _ => negb (Ascii.eqb c "^")
  end && all_of (fun c => negb (Ascii.eqb c ":") && negb (Ascii.eqb c Ascii.zero)) s.

(** ** The text of a port, read backwards *)

Lemma digits_back_stop c r index mul : is_digit c = false ->
  digits_back (c :: r) index mul = (c :: r, index, mul).
Proof. intros Hc. simpl. rewrite Hc. by destruct r. Qed.

Lemma digits_back_digit c r index mul : is_digit c = true -> r <> [] ->
  digits_back (c :: r) index mul =
    digits_back r (u32 (index + u32 (digit_value c * mul))) (u32 (mul * 10)).
Proof. intros Hc Hr. simpl. rewrite Hc. by destruct r. Qed.

Lemma list_ascii_app a b :
  String.list_ascii_of_string (a +:+ b) = (String.list_ascii_of_string a ++ String.list_ascii_of_string b)%list.
Proof. induction a as [|c a IH]; simpl; [done|]. by rewrite IH. Qed.

Lemma pretty_go_nil x s : pretty_N_go x "" +:+ s = pretty_N_go x s.
Proof. by rewrite pretty_go_app. Qed.

(** Reading the digits of [x] backwards adds [x] times the multiplier, and
    multiplies that by ten for every digit. *)
Lemma digits_back_pretty x : forall rest i m, rest <> [] -> 0 <= i < 2 ^ 32 -> 0 <= m < 2 ^ 32 ->
  exists k, digits_back (rev (String.list_ascii_of_string (pretty_N_go x "")) ++ rest)%list i m =
      digits_back rest (u32 (i + Z.of_N x * m)) (u32 (m * 10 ^ k)) /\
    0 <= k /\ Z.of_N x < 10 ^ k /\ 10 ^ k <= 10 * Z.of_N x + (if (x =? 0)%N then 1 else 0).
Proof.
  induction x as [x IH] using (well_founded_induction N.lt_wf_0). intros rest i m Hr Hi Hm.
  destruct (N.eqb_spec x 0) as [->|Hx].
  { exists 0. rewrite pretty_N_go_0. simpl. rewrite Z.add_0_r, Z.mul_1_r, !u32_small by lia. done. }
  rewrite pretty_N_go_step, <- pretty_go_nil by lia. rewrite list_ascii_app, rev_app_distr.
  cbn [String.list_ascii_of_string rev app].
  destruct (is_digit_pretty (x mod 10)) as [Hd Hv]; [by apply N.mod_lt|].
  rewrite digits_back_digit; [|done|by destruct (rev _), rest].
  destruct (IH (x / 10)%N (ltac:(apply N.div_lt; lia)) rest (u32 (i + u32 (Z.of_N (x mod 10) * m)))
    (u32 (m * 10)) Hr (u32_range _) (u32_range _)) as (k & Hk & Hk0 & Hlt & Hge).
  rewrite Hv, Hk. exists (k + 1). rewrite Z.pow_add_r, Z.pow_1_r by lia.
  pose proof (N.div_mod x 10 ltac:(lia)). pose proof (N.mod_lt x 10 ltac:(lia)).
  clear Hk Hv Hd IH. generalize dependent (x / 10)%N. intros q Hlt Hge Hq.
  generalize dependent (x mod 10)%N. intros d Hq Hd.
  split; [|destruct (N.eqb_spec q 0); lia].
  f_equal; unfold u32.
  - rewrite Z.add_mod_idemp_l by lia.
    rewrite (Z.add_comm (i + _)), <- Z.add_mod_idemp_l by lia. rewrite Zmult_mod_idemp_r.
    rewrite Z.add_mod_idemp_l, Z.add_assoc, Z.add_mod_idemp_r by lia. f_equal. lia.
  - rewrite Zmult_mod_idemp_l. f_equal. lia.
Qed.

Lemma powers_of_ten k : 1 <= k <= 10 -> 1 < u32 (10 ^ k).
Proof.
  intros Hk. assert (k = 1 \/ k = 2 \/ k = 3 \/ k = 4 \/ k = 5 \/ k = 6 \/ k = 7 \/ k = 8 \/ k = 9 \/ k = 10)
    as H by lia.
  by repeat destruct H as [->|H]; [..|subst].
Qed.

(** The port of a tensor name: whatever precedes it has a character at least,
    so the walk stops at the colon. *)
Lemma digits_back_port i rest : 0 <= i < 2 ^ 31 -> rest <> [] ->
  exists m, digits_back (rev (String.list_ascii_of_string (":" +:+ pretty i)) ++ rest)%list 0 1 =
    (":"%char :: rest, i, m) /\ 1 < m.
Proof.
  intros Hi Hr. rewrite list_ascii_app, rev_app_distr, <- app_assoc.
  change (rev (String.list_ascii_of_string ":")) with [":"%char].
  destruct i as [|p|p]; [| |lia].
  - exists 10. split; [|lia]. change (pretty 0) with "0".
    cbn [String.list_ascii_of_string rev app]. rewrite digits_back_digit by done.
    by rewrite digits_back_stop.
  - change (pretty (Z.pos p)) with (pretty_N_go (N.pos p) "").
    destruct (digits_back_pretty (N.pos p) ([":"%char] ++ rest)%list 0 1) as (k & -> & Hk0 & Hlt & Hge);
      [done|lia|lia|].
    exists (u32 (1 * 10 ^ k)). cbn [app]. rewrite digits_back_stop by done.
    rewrite Z.mul_1_r, Z.mul_1_l. rewrite (u32_small (0 + _)) by lia.
    split; [done|]. apply powers_of_ten.
    change (N.pos p =? 0)%N with false in Hge. split.
    + destruct (Z.eq_dec k 0) as [->|]; lia.
    + destruct (Z.le_gt_cases k 10) as [|H]; [done|].
      assert (10 ^ 11 <= 10 ^ k) by (apply Z.pow_le_mono_r; lia). lia.
Qed.

(** Without a colon no text is read as a port. *)
Lemma digits_back_no_colon r : ":"%char ∉ r -> forall i m,
  exists c r' i' m', r = [] \/ (digits_back r i m = (c :: r', i', m') /\ c <> ":"%char).
Proof.
  induction r as [|c r IH]; intros Hr i m; [exists ":"%char, [], 0, 0; by left|].
  apply not_elem_of_cons in Hr as [Hc Hr].
  destruct r as [|d r]; [exists c, [], i, m; right; by split; [|congruence]|].
  cbn [digits_back]. destruct (is_digit c); [|exists c, (d :: r), i, m; right; by split; [|congruence]].
  destruct (IH Hr (u32 (i + u32 (digit_value c * m))) (u32 (m * 10))) as (c' & r' & i' & m' & [?|H]); [done|].
  exists c', r', i', m'. by right.
Qed.

Lemma ParseTensorName_port n i : n <> "" -> 0 <= i < 2 ^ 31 ->
  ParseTensorName (n +:+ ":" +:+ pretty i) = mk_TensorId n i.
Proof.
  intros Hn Hi. unfold ParseTensorName. rewrite (list_ascii_app n), rev_app_distr.
  assert (rev (String.list_ascii_of_string n) <> []) as Hr.
  { destruct n as [|c n]; [done|]. cbn [String.list_ascii_of_string rev]. by destruct (rev _). }
  destruct (digits_back_port i _ Hi Hr) as (m & -> & Hm).
  destruct (rev (String.list_ascii_of_string n)) as [|d r] eqn:Er; [done|]. rewrite <- Er.
  rewrite Ascii.eqb_refl, rev_involutive, String.string_of_list_ascii_of_string, i32_small by lia.
  by destruct (Z.ltb_spec 1 m); [|lia].
Qed.

Lemma ParseTensorName_no_colon s : ":"%char ∉ String.list_ascii_of_string s ->
  ParseTensorName s =
    match String.list_ascii_of_string s with
    | c :: l => if Ascii.eqb c "^" then mk_TensorId (String.string_of_list_ascii (c_str l)) kControlSlot
                else mk_TensorId s 0
    | [] => mk_TensorId s 0
    end.
Proof.
  intros Hs. unfold ParseTensorName.
  assert (":"%char ∉ rev (String.list_ascii_of_string s)) as Hr.
  { rewrite list_elem_of_In, <- in_rev, <- list_elem_of_In. done. }
  destruct (digits_back_no_colon _ Hr 0 1) as (c & r & i & m & [H|[-> Hc]]); [by rewrite H|].
  destruct (Ascii.eqb_spec c ":"); [done|]. by destruct r.
Qed.

Lemma all_of_elem p s c : all_of p s = true -> c ∈ String.list_ascii_of_string s -> p c = true.
Proof.
  induction s as [|d s IH]; simpl; [by intros _ ?%elem_of_nil|].
  intros [Hd Hs]%andb_true_iff [->|Hc]%elem_of_cons; auto.
Qed.

Lemma c_str_id l : Ascii.zero ∉ l -> c_str l = l.
Proof.
  induction l as [|c l IH]; simpl; [done|]. intros [Hc Hl]%not_elem_of_cons.
  destruct (Ascii.eqb_spec c Ascii.zero); [congruence|]. by rewrite IH.
Qed.

Lemma valid_node_name_spec s : valid_node_name s = true ->
  s <> "" /\ ":"%char ∉ String.list_ascii_of_string s /\ Ascii.zero ∉ String.list_ascii_of_string s.
Proof.
  unfold valid_node_name. intros [Hs Ha]%andb_true_iff. split; [by intros ->|].
  by split; intros Hc; pose proof (all_of_elem _ _ _ Ha Hc).
Qed.

Lemma parse_printed t : valid_node_name (node t) = true -> -1 <= index t < 2 ^ 31 ->
  ParseTensorName (SafeTensorIdToString t) = t.
Proof.
  destruct t as [n i]; cbn [node index]; unfold SafeTensorIdToString, ToString, kControlSlot; cbn [node index].
  intros Hv Hi. destruct (valid_node_name_spec n Hv) as (Hn & Hc & Hz).
  destruct (Z.eqb_spec i 0) as [->|Hi0]; [|destruct (Z.eqb_spec i (-1)) as [->|Hi1]].
  - rewrite ParseTensorName_no_colon by done. unfold valid_node_name in Hv.
    destruct n as [|c n]; [done|]. cbn [String.list_ascii_of_string]. apply andb_true_iff in Hv as [Hv _].
    apply negb_true_iff in Hv. by rewrite Hv.
  - change ("^" +:+ n) with (String "^" n). rewrite ParseTensorName_no_colon.
    2:{ cbn [String.list_ascii_of_string]. by apply not_elem_of_cons. }
    cbn [String.list_ascii_of_string]. rewrite Ascii.eqb_refl, c_str_id by done.
    by rewrite String.string_of_list_ascii_of_string.
  - apply ParseTensorName_port; [done|lia].
Qed.

(** A control input of a node is written so that it is read back. *)
Lemma control_printed s : valid_node_name s = true ->
  AsControlDependency s = Ok (SafeTensorIdToString (mk_TensorId s kControlSlot)).
Proof.
  destruct s as [|c s]; [done|]. unfold valid_node_name. intros [Hc _]%andb_true_iff. cbn [AsControlDependency].
  apply negb_true_iff in Hc. by rewrite Hc.
Qed.

(** C31: A fanin survives being written into a node and parsed again: for every
    node name that can be told apart from ports and control edges, every port
    below 2^31 and the control slot, [ParseTensorName] inverts
    [SafeTensorIdToString] (which drops port 0); with an explicit port the name
    may even contain colons and carets. *)
Theorem ParseTensorName_ToString :
  (forall t, valid_node_name (node t) = true -> -1 <= index t < 2 ^ 31 ->
    ParseTensorName (SafeTensorIdToString t) = t) /\
  (forall t, node t <> "" -> 0 <= index t < 2 ^ 31 -> ParseTensorName (ToString t) = t).
Proof.
  split; [intros t; apply parse_printed|]. intros [n i]; cbn [node index]; unfold ToString, kControlSlot; cbn [node index].
  intros Hn Hi. destruct (Z.eqb_spec i (-1)); [lia|]. by apply ParseTensorName_port.
Qed.

Lemma ParseTensorName_ToString_witness :
  ParseTensorName (SafeTensorIdToString (mk_TensorId "layer_1/conv" 12)) = mk_TensorId "layer_1/conv" 12 /\
  ParseTensorName (SafeTensorIdToString (mk_TensorId "layer_1/conv" (-1))) = mk_TensorId "layer_1/conv" (-1) /\
  ParseTensorName (ToString (mk_TensorId "^a:1" 0)) = mk_TensorId "^a:1" 0.
Proof.
  split; [|split].
  - apply (proj1 ParseTensorName_ToString); [reflexivity|simpl; lia].
  - apply (proj1 ParseTensorName_ToString); [reflexivity|simpl; lia].
  - apply (proj2 ParseTensorName_ToString); [discriminate|simpl; lia].
Defined.

(** The port is accumulated in 32 unsigned bits and stored as an [int]: a name
    with the port 2^32 - 1 is read as a control edge, and 32 digits make the
    multiplier zero, so that the text is no port at all. *)
Lemma ParseTensorName_wraps :
  IsTensorIdControl (ParseTensorName "a:4294967295") = true /\
  ParseTensorName "a:4294967296" = mk_TensorId "a" 0 /\
  ParseTensorName "a:00000000000000000000000000000007" =
    mk_TensorId "a:00000000000000000000000000000007" 0.
Proof. by vm_compute. Qed.
