(* ===== verification/Vec.v ===== *)
(** * Vec: vectors indexed by machine integers

    A [std::vector] is a list; an access takes an [int], so that a negative
    index is out of range as well.  [vget] is the partial access, [at_] the
    access of the code (a fault when out of range), [vset] the update of one
    element and [swap_elements] the exchange of two. *)

From S2P Require Import Prelude.

Section vec.
  Context {A : Type}.
  Implicit Types (l : list A) (i j : Z) (x : A).

Definition size_ (l : list A) : Z := Z.of_nat (length l).
Definition vget (l : list A) (i : Z) : option A := if i <? 0 then None else l !! Z.to_nat i.
Definition at_ (l : list A) (i : Z) : result A := in_range (vget l i).
Definition vset (l : list A) (i : Z) (x : A) : list A := if i <? 0 then l else <[Z.to_nat i := x]> l.

(** [std::swap(v[i], v[j])], [RepeatedPtrField::SwapElements] *)
Definition swap_elements (l : list A) (i j : Z) : result (list A) :=
  x ← at_ l i; y ← at_ l j; mret (vset (vset l i y) j x).

(** [pop_back], [back] *)
Definition pop_back (l : list A) : result (list A) :=
  match l with [] => Fault OutOfRange | _ :: _ => Ok (removelast l) end.
Definition back (l : list A) : result A := at_ l (size_ l - 1).

Lemma vget_Some l i x : vget l i = Some x -> 0 <= i < size_ l.
Proof.
  unfold vget, size_. destruct (Z.ltb_spec i 0); [done|]. intros ?%lookup_lt_Some. lia.
Qed.

Lemma vget_ex l i : 0 <= i < size_ l -> exists x, vget l i = Some x.
Proof.
  unfold vget, size_. intros Hi. destruct (Z.ltb_spec i 0); [lia|]. apply lookup_lt_is_Some. lia.
Qed.

Lemma vget_None l i : i < 0 \/ size_ l <= i -> vget l i = None.
Proof.
  intros Hi. destruct (vget l i) as [x|] eqn:E; [|done]. apply vget_Some in E. lia.
Qed.

Lemma vget_nat l (n : nat) : vget l (Z.of_nat n) = l !! n.
Proof. unfold vget. destruct (Z.ltb_spec (Z.of_nat n) 0); [lia|]. by rewrite Nat2Z.id. Qed.

Lemma at_Some l i x : vget l i = Some x -> at_ l i = Ok x.
Proof. unfold at_. by intros ->. Qed.

Lemma size_nonneg l : 0 <= size_ l.
Proof. unfold size_. lia. Qed.

Lemma size_vset l i x : size_ (vset l i x) = size_ l.
Proof. unfold size_, vset. destruct (i <? 0); [done|]. by rewrite length_insert. Qed.

Lemma vget_vset_eq l i x : 0 <= i < size_ l -> vget (vset l i x) i = Some x.
Proof.
  unfold vget, vset, size_. intros Hi. destruct (Z.ltb_spec i 0); [lia|].
  apply list_lookup_insert_eq. lia.
Qed.

Lemma vget_vset_ne l i j x : i <> j -> vget (vset l i x) j = vget l j.
Proof.
  unfold vget, vset. intros Hij. destruct (Z.ltb_spec i 0), (Z.ltb_spec j 0); try done.
  apply list_lookup_insert_ne. lia.
Qed.

Lemma vget_vset l i j x : 0 <= i < size_ l ->
  vget (vset l i x) j = if bool_decide (i = j) then Some x else vget l j.
Proof.
  intros Hi. case_bool_decide as E; [subst; by apply vget_vset_eq|by apply vget_vset_ne].
Qed.

Lemma size_snoc l x : size_ (l ++ [x]) = size_ l + 1.
Proof. unfold size_. rewrite length_app. simpl. lia. Qed.

Lemma vget_snoc l x j : vget (l ++ [x]) j = if bool_decide (size_ l = j) then Some x else vget l j.
Proof.
  unfold vget, size_. case_bool_decide as E.
  - destruct (Z.ltb_spec j 0); [lia|]. subst. rewrite Nat2Z.id. apply list_lookup_middle; done.
  - destruct (Z.ltb_spec j 0); [done|].
    destruct (decide (Z.to_nat j < length l)%nat) as [Hj|Hj]; [by rewrite lookup_app_l|].
    rewrite lookup_app_r by lia. rewrite (lookup_ge_None_2 l) by lia.
    apply lookup_ge_None_2. simpl. lia.
Qed.

Lemma vget_snoc_size l x : vget (l ++ [x]) (size_ l) = Some x.
Proof. rewrite vget_snoc. by rewrite bool_decide_true. Qed.

Lemma vget_snoc_Some l x j y : vget l j = Some y -> vget (l ++ [x]) j = Some y.
Proof. intros Hj. rewrite vget_snoc, bool_decide_false; [done|]. apply vget_Some in Hj. lia. Qed.

Lemma vget_app_l l1 l2 i : i < size_ l1 -> vget (l1 ++ l2) i = vget l1 i.
Proof.
  unfold vget, size_. intros Hi. destruct (Z.ltb_spec i 0); [done|]. apply lookup_app_l. lia.
Qed.

Lemma vget_app_r l1 l2 i : size_ l1 <= i -> vget (l1 ++ l2) i = vget l2 (i - size_ l1).
Proof.
  unfold vget, size_. intros Hi. destruct (Z.ltb_spec i 0); [lia|].
  destruct (Z.ltb_spec (i - Z.of_nat (length l1)) 0); [lia|]. rewrite lookup_app_r by lia. f_equal. lia.
Qed.

Lemma swap_elements_spec l i j x y : vget l i = Some x -> vget l j = Some y ->
  swap_elements l i j = Ok (vset (vset l i y) j x).
Proof. intros Hi Hj. unfold swap_elements. by rewrite (at_Some _ _ _ Hi), (at_Some _ _ _ Hj). Qed.

Lemma pop_back_snoc l x : pop_back (l ++ [x]) = Ok l.
Proof. unfold pop_back. rewrite removelast_last. by destruct l. Qed.

Lemma snoc_cases l : l = [] \/ exists l' x, l = l' ++ [x].
Proof. induction l as [|x l _] using rev_ind; [by left|right; eauto]. Qed.

Lemma vget_ext l1 l2 : (forall i, vget l1 i = vget l2 i) -> l1 = l2.
Proof. intros H. apply list_eq. intros n. rewrite <- !vget_nat. apply H. Qed.

Lemma vset_id l i x : vget l i = Some x -> vset l i x = l.
Proof.
  intros Hi. apply vget_ext. intros j. rewrite vget_vset by (by eapply vget_Some).
  case_bool_decide; by subst.
Qed.

Lemma elem_of_vget x l : x ∈ l <-> exists i, vget l i = Some x.
Proof.
  rewrite list_elem_of_lookup. split; [intros [n Hn]; exists (Z.of_nat n); by rewrite vget_nat|].
  intros [i Hi]. pose proof (vget_Some _ _ _ Hi). exists (Z.to_nat i).
  unfold vget in Hi. destruct (Z.ltb_spec i 0); [lia|done].
Qed.

(** The numbers below [n], in descending order as the code counts down. *)
Definition count_down (n : Z) : list Z := rev (map Z.of_nat (seq 0 (Z.to_nat n))).
Definition count_up (n : Z) : list Z := map Z.of_nat (seq 0 (Z.to_nat n)).

Lemma elem_of_count_up n i : i ∈ count_up n <-> 0 <= i < n.
Proof.
  unfold count_up. rewrite list_elem_of_fmap. setoid_rewrite elem_of_seq. split.
  - intros (k & -> & Hk). lia.
  - intros Hi. exists (Z.to_nat i). lia.
Qed.

Lemma elem_of_count_down n i : i ∈ count_down n <-> 0 <= i < n.
Proof.
  unfold count_down. rewrite list_elem_of_In, <- in_rev, <- list_elem_of_In. apply elem_of_count_up.
Qed.
End vec.

Lemma vget_map {A B} (f : A -> B) l i : vget (map f l) i = f <$> vget l i.
Proof. unfold vget. destruct (i <? 0); [done|]. by rewrite list_lookup_fmap. Qed.

Lemma size_map {A B} (f : A -> B) l : size_ (map f l) = size_ l.
Proof. unfold size_. by rewrite length_map. Qed.

Lemma vget_nil {A} i : vget (A := A) [] i = None.
Proof. by apply vget_None; unfold size_; simpl; lia. Qed.

Lemma size_count_up n : 0 <= n -> size_ (count_up n) = n.
Proof. intros Hn. unfold size_, count_up. rewrite length_map, length_seq. lia. Qed.

Lemma vget_count_up n i j : vget (count_up n) i = Some j -> j = i /\ 0 <= i < n.
Proof.
  unfold count_up. rewrite vget_map. intros Hi. apply fmap_Some in Hi as (k & Hk & ->).
  unfold vget in Hk. destruct (Z.ltb_spec i 0); [done|]. apply lookup_seq in Hk as [-> Hk]. lia.
Qed.

Lemma NoDup_vget {A} (l : list A) : NoDup l -> forall i j x, vget l i = Some x -> vget l j = Some x -> i = j.
Proof.
  intros Hl i j x Hi Hj. unfold vget in *. destruct (Z.ltb_spec i 0), (Z.ltb_spec j 0); try done.
  pose proof (NoDup_lookup _ _ _ _ Hl Hi Hj). lia.
Qed.

(** ** The last element in place of another *)

Definition swap_remove {A} (k : Z) (l : list A) : list A :=
  match vget l (size_ l - 1) with Some x => take (length l - 1) (vset l k x) | None => l end.

Lemma vget_swap_remove {A} (l : list A) k x c : 0 <= k < size_ l -> vget l (size_ l - 1) = Some x ->
  vget (swap_remove k l) c = if bool_decide (c = size_ l - 1) then None else if bool_decide (c = k) then Some x else vget l c.
Proof.
  intros Hk Hx. unfold swap_remove. rewrite Hx.
  assert (vget (take (length l - 1) (vset l k x)) c = if bool_decide (c < size_ l - 1) then vget (vset l k x) c else None) as ->.
  { unfold vget, size_ in *. destruct (Z.ltb_spec c 0); [by case_bool_decide|]. case_bool_decide.
    - rewrite lookup_take_lt by lia. done.
    - apply lookup_take_ge. lia. }
  rewrite vget_vset by done. rewrite (bool_decide_ext (k = c) (c = k)) by done.
  destruct (bool_decide (c = size_ l - 1)) eqn:E1; [apply bool_decide_eq_true in E1; by rewrite bool_decide_false by lia|].
  apply bool_decide_eq_false in E1. destruct (decide (c < size_ l - 1)) as [|Hc].
  - by rewrite bool_decide_true by done.
  - rewrite bool_decide_false by done. rewrite (bool_decide_false (c = k)), vget_None by lia. done.
Qed.

Lemma swap_remove_unique {A} (l l' : list A) k x : 0 <= k < size_ l -> vget l (size_ l - 1) = Some x ->
  (forall c, vget l' c = if bool_decide (c = size_ l - 1) then None else if bool_decide (c = k) then Some x else vget l c) ->
  l' = swap_remove k l.
Proof. intros Hk Hx Hl. apply vget_ext. intros c. by rewrite Hl, (vget_swap_remove l k x). Qed.

Lemma map_swap_remove {A B} (f : A -> B) k l : map f (swap_remove k l) = swap_remove k (map f l).
Proof.
  unfold swap_remove. rewrite size_map, vget_map. destruct (vget l (size_ l - 1)) as [x|]; [|done]. cbn [fmap option_fmap option_map].
  rewrite length_map, <- firstn_map. f_equal. unfold vset. destruct (k <? 0); [done|]. apply list_fmap_insert.
Qed.

Lemma swap_remove_app {A} (l1 l2 : list A) k : 0 <= k < size_ l2 ->
  swap_remove (size_ l1 + k) (l1 ++ l2) = l1 ++ swap_remove k l2.
Proof.
  intros Hk. destruct (vget_ex l2 (size_ l2 - 1)) as [x Hx]; [lia|].
  assert (size_ (l1 ++ l2) = size_ l1 + size_ l2) as Hs by (unfold size_; rewrite length_app; lia).
  pose proof (size_nonneg l1). symmetry. apply (swap_remove_unique _ _ _ x).
  - lia.
  - rewrite vget_app_r by lia. rewrite <- Hx. f_equal. lia.
  - intros c. destruct (decide (c < size_ l1)) as [Hc|Hc].
    + rewrite !vget_app_l by done. by rewrite !bool_decide_false by lia.
    + rewrite !vget_app_r by lia. rewrite (vget_swap_remove _ _ x) by done.
      rewrite (bool_decide_ext (c - size_ l1 = size_ l2 - 1) (c = size_ (l1 ++ l2) - 1)) by lia.
      by rewrite (bool_decide_ext (c - size_ l1 = k) (c = size_ l1 + k)) by lia.
Qed.

Lemma swap_remove_Permutation {A} (l : list A) k x : vget l k = Some x -> l ≡ₚ x :: swap_remove k l.
Proof.
  intros Hk. pose proof (vget_Some _ _ _ Hk) as Hr. assert (l = [] \/ exists l' y, l = l' ++ [y]) as [->|(l' & y & ->)] by apply snoc_cases.
  { unfold size_ in Hr. simpl in Hr. lia. }
  unfold swap_remove. rewrite size_snoc in *. replace (size_ l' + 1 - 1) with (size_ l') by lia. rewrite vget_snoc_size.
  rewrite length_app. cbn [length]. replace (length l' + 1 - 1)%nat with (length l') by lia.
  rewrite vget_snoc in Hk. case_bool_decide as E.
  - injection Hk as ->. subst k. unfold vset. destruct (Z.ltb_spec (size_ l') 0); [lia|].
    rewrite insert_app_r_alt by (unfold size_; lia). rewrite take_app_le, take_ge by lia. by rewrite Permutation_app_comm.
  - assert (0 <= k < size_ l') as Hk' by lia. unfold vset, vget in *. destruct (Z.ltb_spec k 0); [lia|].
    rewrite insert_app_l by (unfold size_ in Hk'; lia). rewrite take_app_le, take_ge by (rewrite length_insert; lia).
    rewrite <- (take_drop_middle l' (Z.to_nat k) x Hk) at 1. rewrite insert_take_drop by (by eapply lookup_lt_Some).
    rewrite <- app_assoc. cbn [app]. rewrite <- Permutation_middle. constructor.
    apply Permutation_app_head. by rewrite <- Permutation_cons_append.
Qed.

(** What the code does to take out element [k]: exchange with the last, and pop. *)
Lemma pop_swapped {A} (l : list A) k x y : vget l k = Some x -> vget l (size_ l - 1) = Some y ->
  k < size_ l - 1 -> pop_back (vset (vset l k y) (size_ l - 1) x) = Ok (swap_remove k l).
Proof.
  intros Hk Hy Hlt. pose proof (vget_Some _ _ _ Hk). pose proof (vget_Some _ _ _ Hy).
  destruct (snoc_cases (vset (vset l k y) (size_ l - 1) x)) as [E|(l' & z & E)].
  { apply (f_equal size_) in E. rewrite !size_vset in E. unfold size_ in *. simpl in E. lia. }
  rewrite E, pop_back_snoc. f_equal. apply (swap_remove_unique _ _ _ y); [lia|done|]. intros c.
  pose proof (f_equal size_ E) as Es. rewrite !size_vset, size_snoc in Es.
  case_bool_decide as E1; [apply vget_None; lia|]. pose proof (f_equal (fun l => vget l c) E) as Ec. cbv beta in Ec.
  rewrite vget_snoc, bool_decide_false in Ec by lia. rewrite <- Ec. rewrite vget_vset_ne by done.
  rewrite vget_vset by lia. by rewrite (bool_decide_ext (k = c) (c = k)) by done.
Qed.

Lemma pop_last {A} (l : list A) : 0 < size_ l -> pop_back l = Ok (swap_remove (size_ l - 1) l).
Proof.
  destruct (snoc_cases l) as [->|(l' & x & ->)]; [done|]. intros _. rewrite pop_back_snoc. f_equal.
  unfold swap_remove. rewrite size_snoc. replace (size_ l' + 1 - 1) with (size_ l') by lia. rewrite vget_snoc_size.
  rewrite vset_id by apply vget_snoc_size. rewrite length_app. cbn [length].
  by rewrite take_app_le, take_ge by lia.
Qed.

Lemma size_swap_remove {A} (l : list A) k x : vget l k = Some x -> size_ (swap_remove k l) = size_ l - 1.
Proof.
  intros Hk. pose proof (swap_remove_Permutation l k x Hk) as Hp. apply Permutation_length in Hp.
  unfold size_. simpl in Hp. lia.
Qed.

Lemma vset_vset {A} (l : list A) i x y : vset (vset l i x) i y = vset l i y.
Proof. unfold vset. destruct (i <? 0); [done|]. apply list_insert_insert_eq. Qed.

Lemma vset_comm {A} (l : list A) i j x y : i <> j -> vset (vset l i x) j y = vset (vset l j y) i x.
Proof.
  intros Hij. unfold vset. destruct (Z.ltb_spec i 0), (Z.ltb_spec j 0); try done.
  apply list_insert_insert_ne. lia.
Qed.

Lemma NoDup_count_up n : NoDup (count_up n).
Proof. unfold count_up. apply NoDup_fmap_2; [intros x y ?; lia|apply NoDup_seq]. Qed.

Lemma size_replicate {A} (x : A) n : size_ (replicate n x) = Z.of_nat n.
Proof. unfold size_. by rewrite length_replicate. Qed.

Lemma vget_replicate {A} (x : A) m i : 0 <= i < Z.of_nat m -> vget (replicate m x) i = Some x.
Proof. intros Hi. unfold vget. destruct (Z.ltb_spec i 0); [lia|]. apply lookup_replicate_2. lia. Qed.

Lemma size_app {A} (l1 l2 : list A) : size_ (l1 ++ l2) = size_ l1 + size_ l2.
Proof. unfold size_. rewrite length_app. lia. Qed.

Lemma size_cons {A} (x : A) l : size_ (x :: l) = size_ l + 1.
Proof. unfold size_. cbn [length]. lia. Qed.

Lemma vset_app_l {A} (l1 l2 : list A) k x : k < size_ l1 -> vset (l1 ++ l2) k x = vset l1 k x ++ l2.
Proof. unfold vset, size_. intros Hk. destruct (Z.ltb_spec k 0); [done|]. apply insert_app_l. lia. Qed.

Lemma vget_middle {A} (l1 l2 : list A) x : vget (l1 ++ x :: l2) (size_ l1) = Some x.
Proof. rewrite vget_app_r by lia. by rewrite Z.sub_diag. Qed.

Lemma vset_middle {A} (l1 l2 : list A) x y : vset (l1 ++ x :: l2) (size_ l1) y = l1 ++ y :: l2.
Proof. unfold vset, size_. destruct (Z.ltb_spec (Z.of_nat (length l1)) 0); [lia|]. rewrite Nat2Z.id. apply insert_middle. Qed.

(** Exchanging an entry with the last one. *)
Lemma swap_with_last {A} (l m : list A) x y :
  swap_elements (l ++ x :: m ++ [y]) (size_ l) (size_ l + size_ m + 1) = Ok (l ++ y :: m ++ [x]).
Proof.
  assert (forall z, l ++ z :: m ++ [y] = (l ++ z :: m) ++ y :: []) as E by (intros z; by rewrite <- app_assoc).
  assert (forall z, size_ l + size_ m + 1 = size_ (l ++ z :: m)) as Es by (intros z; rewrite size_app, size_cons; lia).
  rewrite (swap_elements_spec _ _ _ x y); [|apply vget_middle|].
  - rewrite vset_middle, E, (Es y), vset_middle. by rewrite <- app_assoc.
  - rewrite E, (Es x). apply vget_middle.
Qed.
