(* ===== verification/TensorFormat.v ===== *)
(** * Tensor formats and padding

    runtime_adapter/tensor_format.{h,cc} and padding.{h,cc}: the order of the
    batch, feature and spatial dimensions of a tensor or a filter, the position
    of each dimension, and the shapes built from them.  The templates on the
    number of spatial dimensions take it as an argument; the overloads on spans,
    shapes and tensors are those on lists of dimensions. *)

From Stdlib Require Import Ascii.
From stdpp Require Import pretty.
From S2P Require Import Prelude Vec TensorShape.
#[local] Open Scope string_scope.
#[local] Open Scope list_scope.
#[local] Open Scope Z_scope.

Inductive TensorFormat :=
  | FORMAT_NHWC | FORMAT_NCHW | FORMAT_NCHW_VECT_C | FORMAT_NHWC_VECT_W | FORMAT_HWNC | FORMAT_HWCN.
Inductive FilterTensorFormat := FORMAT_HWIO | FORMAT_OIHW | FORMAT_OHWI | FORMAT_OIHW_VECT_I.

#[export] Instance TensorFormat_eq_dec : EqDecision TensorFormat.
Proof. solve_decision. Defined.
#[export] Instance FilterTensorFormat_eq_dec : EqDecision FilterTensorFormat.
Proof. solve_decision. Defined.

(** ** Names *)

Definition FormatToString (format : TensorFormat) : string :=
  match format with
  | FORMAT_NHWC => "NHWC"
  | FORMAT_NCHW => "NCHW"
  | FORMAT_NCHW_VECT_C => "NCHW_VECT_C"
  | FORMAT_NHWC_VECT_W => "NHWC_VECT_W"
  | FORMAT_HWNC => "HWNC"
  | FORMAT_HWCN => "HWCN"
  end.

Definition FilterFormatToString (format : FilterTensorFormat) : string :=
  match format with
  | FORMAT_HWIO => "HWIO"
  | FORMAT_OIHW => "OIHW"
  | FORMAT_OHWI => "OHWI"
  | FORMAT_OIHW_VECT_I => "OIHW_VECT_I"
  end.

Definition FormatFromString (format_str : string) : option TensorFormat :=
  if (format_str =? "NHWC")%string || (format_str =? "NDHWC")%string then Some FORMAT_NHWC
  else if (format_str =? "NCHW")%string || (format_str =? "NCDHW")%string then Some FORMAT_NCHW
  else if (format_str =? "NCHW_VECT_C")%string then Some FORMAT_NCHW_VECT_C
  else if (format_str =? "NHWC_VECT_W")%string then Some FORMAT_NHWC_VECT_W
  else if (format_str =? "HWNC")%string then Some FORMAT_HWNC
  else if (format_str =? "HWCN")%string then Some FORMAT_HWCN
  else None.

Definition FilterFormatFromString (format_str : string) : option FilterTensorFormat :=
  if (format_str =? "HWIO")%string || (format_str =? "DHWIO")%string then Some FORMAT_HWIO
  else if (format_str =? "OIHW")%string || (format_str =? "OIDHW")%string then Some FORMAT_OIHW
  else if (format_str =? "OIHW_VECT_I")%string then Some FORMAT_OIHW_VECT_I
  else None.

(** ** Ranks *)

Definition GetTensorSpatialDims (num_dims : Z) (format : TensorFormat) : Z :=
  match format with
  | FORMAT_NHWC | FORMAT_NCHW | FORMAT_HWNC | FORMAT_HWCN => num_dims - 2
  | FORMAT_NCHW_VECT_C | FORMAT_NHWC_VECT_W => num_dims - 3
  end.

Definition GetFilterTensorSpatialDims (num_dims : Z) (format : FilterTensorFormat) : Z :=
  match format with FORMAT_OIHW_VECT_I => num_dims - 3 | _ => num_dims - 2 end.

Definition GetTensorDimsFromSpatialDims (num_spatial_dims : Z) (format : TensorFormat) : Z :=
  match format with
  | FORMAT_NHWC | FORMAT_NCHW | FORMAT_HWNC | FORMAT_HWCN => num_spatial_dims + 2
  | FORMAT_NCHW_VECT_C | FORMAT_NHWC_VECT_W => num_spatial_dims + 3
  end.

Definition GetFilterTensorDimsFromSpatialDims (num_spatial_dims : Z) (format : FilterTensorFormat) : Z :=
  match format with FORMAT_OIHW_VECT_I => num_spatial_dims + 3 | _ => num_spatial_dims + 2 end.

(** ** Positions *)

Definition GetTensorBatchDimIndex (num_dims : Z) (format : TensorFormat) : Z :=
  match format with
  | FORMAT_NHWC | FORMAT_NCHW | FORMAT_NCHW_VECT_C | FORMAT_NHWC_VECT_W => 0
  | FORMAT_HWNC => num_dims - 2
  | FORMAT_HWCN => num_dims - 1
  end.

Definition GetTensorFeatureDimIndex (num_dims : Z) (format : TensorFormat) : Z :=
  match format with
  | FORMAT_NHWC | FORMAT_HWNC => num_dims - 1
  | FORMAT_NHWC_VECT_W | FORMAT_HWCN => num_dims - 2
  | FORMAT_NCHW | FORMAT_NCHW_VECT_C => 1
  end.

Definition GetTensorInnerFeatureDimIndex (num_dims : Z) (format : TensorFormat) : result Z :=
  ASSERT (bool_decide (format = FORMAT_NCHW_VECT_C));; mret (num_dims - 1).
Definition GetTensorInnerWidthDimIndex (num_dims : Z) (format : TensorFormat) : result Z :=
  ASSERT (bool_decide (format = FORMAT_NHWC_VECT_W));; mret (num_dims - 1).

Definition GetTensorSpatialDimIndex (num_dims : Z) (format : TensorFormat) (spatial_dim : Z) : result Z :=
  CHECK ((0 <=? spatial_dim) && (spatial_dim <? GetTensorSpatialDims num_dims format));;
  mret (match format with
        | FORMAT_NHWC | FORMAT_NHWC_VECT_W => spatial_dim + 1
        | FORMAT_NCHW | FORMAT_NCHW_VECT_C => spatial_dim + 2
        | FORMAT_HWNC | FORMAT_HWCN => spatial_dim
        end).

Definition GetFilterTensorSpatialDimIndex (num_dims : Z) (format : FilterTensorFormat) (dim : Z) : result Z :=
  CHECK ((0 <=? dim) && (dim <? GetFilterTensorSpatialDims num_dims format));;
  match format with
  | FORMAT_HWIO => mret dim
  | FORMAT_OIHW | FORMAT_OIHW_VECT_I => mret (dim + 2)
  | FORMAT_OHWI => Fault FatalLog
  end.

Definition GetFilterTensorInnerInputChannelsDimIndex (num_dims : Z) (format : FilterTensorFormat) : result Z :=
  ASSERT (bool_decide (format = FORMAT_OIHW_VECT_I));; mret (num_dims - 1).

Definition GetFilterTensorInputChannelsDimIndex (num_dims : Z) (format : FilterTensorFormat) : result Z :=
  match format with
  | FORMAT_HWIO => mret (num_dims - 2)
  | FORMAT_OIHW | FORMAT_OIHW_VECT_I => mret 1
  | FORMAT_OHWI => Fault FatalLog
  end.

Definition GetFilterTensorOutputChannelsDimIndex (num_dims : Z) (format : FilterTensorFormat) : result Z :=
  match format with
  | FORMAT_HWIO => mret (num_dims - 1)
  | FORMAT_OIHW | FORMAT_OIHW_VECT_I => mret 0
  | FORMAT_OHWI => Fault FatalLog
  end.

(** [switch (dimension)], with a fatal log as its default. *)
Fixpoint switch (dimension : ascii) (cases : list (ascii * Z)) : result Z :=
  match cases with
  | [] => Fault FatalLog
  | (c, i) :: cases => if Ascii.eqb dimension c then mret i else switch dimension cases
  end.

Definition GetTensorDimIndex_of (NUM_SPATIAL_DIMS : Z) (format : TensorFormat) (dimension : ascii) : result Z :=
  let n := NUM_SPATIAL_DIMS in
  switch dimension
    match format with
    | FORMAT_NHWC | FORMAT_NHWC_VECT_W =>
        [("N", 0); ("0", 1); ("1", 2); ("2", 3); ("H", n - 1); ("W", n); ("C", n + 1)]%char
    | FORMAT_NCHW | FORMAT_NCHW_VECT_C =>
        [("N", 0); ("C", 1); ("0", 2); ("1", 3); ("2", 4); ("H", n); ("W", n + 1)]%char
    | FORMAT_HWNC => [("0", 0); ("1", 1); ("2", 2); ("H", n - 2); ("W", n - 1); ("N", n); ("C", n + 1)]%char
    | FORMAT_HWCN => [("0", 0); ("1", 1); ("2", 2); ("H", n - 2); ("W", n - 1); ("C", n); ("N", n + 1)]%char
    end.

Definition GetFilterDimIndex_of (NUM_SPATIAL_DIMS : Z) (filter_tensor_format : FilterTensorFormat) (dimension : ascii)
    : result Z :=
  let n := NUM_SPATIAL_DIMS in
  match filter_tensor_format with
  | FORMAT_HWIO => switch dimension [("0", 0); ("1", 1); ("2", 2); ("H", n - 2); ("W", n - 1); ("I", n); ("O", n + 1)]%char
  | FORMAT_OIHW | FORMAT_OIHW_VECT_I =>
      switch dimension [("O", 0); ("I", 1); ("0", 2); ("1", 3); ("2", 4); ("H", n); ("W", n + 1)]%char
  | FORMAT_OHWI => Fault FatalLog
  end.

Definition GetTensorDimIndex (format : TensorFormat) (dimension : ascii) (num_total_dims : Z) : result Z :=
  index ← (if GetTensorSpatialDims num_total_dims format =? 3 then GetTensorDimIndex_of 3 format dimension
           else GetTensorDimIndex_of 2 format dimension);
  CHECK ((0 <=? index) && (index <? num_total_dims));;
  mret index.

Definition GetTensorDim {T} (dimension_attributes : list T) (tensor_format : TensorFormat) (dimension : ascii) : result T :=
  index ← GetTensorDimIndex tensor_format dimension (size_ dimension_attributes);
  at_ dimension_attributes index.

Definition GetFilterDim {T} (dimension_attribute : list T) (filter_tensor_format : FilterTensorFormat) (dimension : ascii)
    : result T :=
  index ← (if GetFilterTensorSpatialDims (size_ dimension_attribute) filter_tensor_format =? 3
           then GetFilterDimIndex_of 3 filter_tensor_format dimension
           else GetFilterDimIndex_of 2 filter_tensor_format dimension);
  CHECK ((0 <=? index) && (index <? size_ dimension_attribute));;
  at_ dimension_attribute index.

Definition GetExplicitPaddingForDim (explicit_paddings : list Z) (tensor_format : TensorFormat) (dimension : ascii)
    : result (Z * Z) :=
  index ← GetTensorDimIndex tensor_format dimension (size_ explicit_paddings / 2);
  padding_before ← at_ explicit_paddings (2 * index);
  padding_after ← at_ explicit_paddings (2 * index + 1);
  mret (padding_before, padding_after).

(** ** Shapes *)

(** [dim_sizes[i] = x] *)
Definition store (dim_sizes : list Z) (i x : Z) : result (list Z) := at_ dim_sizes i;; mret (vset dim_sizes i x).

Fixpoint store_spatial (format : TensorFormat) (dims : Z) (spatial : list Z) (dim : Z) (dim_sizes : list Z) : result (list Z) :=
  match spatial with
  | [] => mret dim_sizes
  | dim_size :: spatial =>
      '(dim_sizes, dim_size) ← (if bool_decide (format = FORMAT_NHWC_VECT_W) && bool_decide (spatial = []) then
          CHECK (Z.rem dim_size 4 =? 0);;
          i ← GetTensorInnerWidthDimIndex dims format;
          dim_sizes ← store dim_sizes i 4;
          mret (dim_sizes, Z.quot dim_size 4)
        else mret (dim_sizes, dim_size));
      i ← GetTensorSpatialDimIndex dims format dim;
      dim_sizes ← store dim_sizes i dim_size;
      store_spatial format dims spatial (dim + 1) dim_sizes
  end.

Definition ShapeFromFormat (format : TensorFormat) (N : Z) (spatial : list Z) (C : Z) : result TensorShape :=
  let dims := GetTensorDimsFromSpatialDims (size_ spatial) format in
  let dim_sizes := replicate (Z.to_nat dims) 0 in
  dim_sizes ← store dim_sizes (GetTensorBatchDimIndex dims format) N;
  dim_sizes ← store_spatial format dims spatial 0 dim_sizes;
  let feature_index := GetTensorFeatureDimIndex dims format in
  '(dim_sizes, C) ← (if bool_decide (format = FORMAT_NCHW_VECT_C) then
      CHECK (Z.rem C 4 =? 0);;
      i ← GetTensorInnerFeatureDimIndex dims format;
      dim_sizes ← store dim_sizes i 4;
      mret (dim_sizes, Z.quot C 4)
    else mret (dim_sizes, C));
  dim_sizes ← store dim_sizes feature_index C;
  mret (TensorShape_of dim_sizes).

Fixpoint store_filter_spatial (format : FilterTensorFormat) (dims : Z) (spatial : list Z) (dim : Z) (dim_sizes : list Z)
    : result (list Z) :=
  match spatial with
  | [] => mret dim_sizes
  | dim_size :: spatial =>
      i ← GetFilterTensorSpatialDimIndex dims format dim;
      dim_sizes ← store dim_sizes i dim_size;
      store_filter_spatial format dims spatial (dim + 1) dim_sizes
  end.

Definition ShapeFromFilterTensorFormat (format : FilterTensorFormat) (spatial : list Z) (I O : Z) : result TensorShape :=
  let dims := GetFilterTensorDimsFromSpatialDims (size_ spatial) format in
  let dim_sizes := replicate (Z.to_nat dims) 0 in
  i ← GetFilterTensorOutputChannelsDimIndex dims format;
  dim_sizes ← store dim_sizes i O;
  dim_sizes ← store_filter_spatial format dims spatial 0 dim_sizes;
  '(dim_sizes, I) ← (if bool_decide (format = FORMAT_OIHW_VECT_I) then
      CHECK (Z.rem I 4 =? 0);;
      i ← GetFilterTensorInnerInputChannelsDimIndex dims format;
      dim_sizes ← store dim_sizes i 4;
      mret (dim_sizes, Z.quot I 4)
    else mret (dim_sizes, I));
  i ← GetFilterTensorInputChannelsDimIndex dims format;
  dim_sizes ← store dim_sizes i I;
  mret (TensorShape_of dim_sizes).

(** The spatial dimensions of a shape, one after the other. *)
Fixpoint load_spatial (src_shape : TensorShape) (src_format : TensorFormat) (count : nat) (spatial_dim : Z) : result (list Z) :=
  match count with
  | O => mret []
  | S count =>
      i ← GetTensorSpatialDimIndex (dims src_shape) src_format spatial_dim;
      d ← at_ (dim_sizes_ src_shape) i;
      rest ← load_spatial src_shape src_format count (spatial_dim + 1);
      mret (d :: rest)
  end.

(** [ShapeFromFormat(dst_format, src_shape, src_format)] *)
Definition ConvertShape (dst_format : TensorFormat) (src_shape : TensorShape) (src_format : TensorFormat) : result TensorShape :=
  if bool_decide (src_format = dst_format) then mret src_shape
  else
    batch ← GetTensorDim (dim_sizes_ src_shape) src_format "N"%char;
    c ← GetTensorDim (dim_sizes_ src_shape) src_format "C"%char;
    let channels := i64 (c * (if bool_decide (src_format = FORMAT_NCHW_VECT_C) then 4 else 1)) in
    let num_src_spatial_dims := GetTensorSpatialDims (dims src_shape) src_format in
    spatial_dims ← load_spatial src_shape src_format (Z.to_nat num_src_spatial_dims) 0;
    spatial_dims ← (if bool_decide (src_format = FORMAT_NHWC_VECT_W) then
        w ← at_ spatial_dims (num_src_spatial_dims - 1);
        mret (vset spatial_dims (num_src_spatial_dims - 1) (i64 (w * 4)))
      else mret spatial_dims);
    ShapeFromFormat dst_format batch spatial_dims channels.

(** [ShapeFromFilterFormat] *)
Definition ConvertFilterShape (dst_filter_format : FilterTensorFormat) (src_shape : TensorShape)
    (src_filter_format : FilterTensorFormat) : result TensorShape :=
  if bool_decide (src_filter_format = dst_filter_format) then mret src_shape
  else
    let dim := GetFilterDim (dim_sizes_ src_shape) src_filter_format in
    output_channels ← dim "O"%char;
    i ← dim "I"%char;
    let input_channels := i64 (i * (if bool_decide (src_filter_format = FORMAT_OIHW_VECT_I) then 4 else 1)) in
    if GetFilterTensorSpatialDims (dims src_shape) src_filter_format =? 3 then
      d0 ← dim "0"%char; d1 ← dim "1"%char; d2 ← dim "2"%char;
      ShapeFromFilterTensorFormat dst_filter_format [d0; d1; d2] input_channels output_channels
    else
      h ← dim "H"%char; w ← dim "W"%char;
      ShapeFromFilterTensorFormat dst_filter_format [h; w] input_channels output_channels.

(** ** Padding *)

Inductive Padding := VALID | SAME | EXPLICIT.

#[export] Instance Padding_eq_dec : EqDecision Padding.
Proof. solve_decision. Defined.

Definition NotFound (msg : string) : Status := mk_Status TF_NOT_FOUND msg.
Definition Internal (msg : string) : Status := mk_Status TF_INTERNAL msg.

Definition GetPaddingFromString (str_value : string) : Status + Padding :=
  if (str_value =? "SAME")%string then inr SAME
  else if (str_value =? "VALID")%string then inr VALID
  else if (str_value =? "EXPLICIT")%string then inr EXPLICIT
  else inl (NotFound (str_value +:+ " is not an allowed padding type")).

(** [l[i] != 0 || ...] for the indices in turn, up to the first that holds. *)
Fixpoint any_nonzero (l : list Z) (indices : list Z) : result bool :=
  match indices with
  | [] => mret false
  | i :: indices => x ← at_ l i; if negb (x =? 0) then mret true else any_nonzero l indices
  end.

(** The size is compared as a [size_t], the [int] on the right converted to it. *)
Definition CheckValidPadding (padding_type : Padding) (explicit_paddings : list Z) (num_dims : Z) (data_format : TensorFormat)
    : result Status :=
  if bool_decide (padding_type = EXPLICIT) then
    if negb (size_ explicit_paddings =? u64 (i32 (2 * num_dims))) then
      mret (InvalidArgument ("explicit_paddings attribute must contain " +:+ pretty (2 * num_dims) +:+ " values, but got: " +:+
        pretty (size_ explicit_paddings)))
    else if existsb (fun padding_value => padding_value <? 0) explicit_paddings then
      mret (InvalidArgument "All elements of explicit_paddings must be nonnegative")
    else
      let batch_index := GetTensorBatchDimIndex num_dims data_format in
      let depth_index := GetTensorFeatureDimIndex num_dims data_format in
      nonzero ← any_nonzero explicit_paddings [2 * batch_index; 2 * batch_index + 1; 2 * depth_index; 2 * depth_index + 1];
      if nonzero : bool then
        mret (InvalidArgument "Nonzero explicit padding in the batch or depth dimensions is not supported")
      else mret Status_OK
  else if negb (bool_decide (explicit_paddings = [])) then
    mret (InvalidArgument "explicit_paddings attribute must be empty if the padding attribute is not EXPLICIT")
  else mret Status_OK.

(** ** Round trips of the names *)

Lemma FormatFromString_ToString format : FormatFromString (FormatToString format) = Some format.
Proof. by destruct format. Qed.

(** [FORMAT_OHWI] is printed, but not parsed. *)
Lemma FilterFormatFromString_ToString format :
  FilterFormatFromString (FilterFormatToString format) = if bool_decide (format = FORMAT_OHWI) then None else Some format.
Proof. by destruct format. Qed.

Lemma spatial_dims_roundtrip n format : GetTensorSpatialDims (GetTensorDimsFromSpatialDims n format) format = n.
Proof. destruct format; cbn; lia. Qed.

(** ** What the shapes are

    The documented order of the dimensions, for two or three spatial ones. *)

Definition quarter_last (spatial : list Z) : list Z :=
  match rev spatial with [] => [] | w :: l => rev l ++ [Z.quot w 4] end.

Definition layout (format : TensorFormat) (N : Z) (spatial : list Z) (C : Z) : list Z :=
  match format with
  | FORMAT_NHWC => N :: spatial ++ [C]
  | FORMAT_NCHW => N :: C :: spatial
  | FORMAT_NCHW_VECT_C => N :: Z.quot C 4 :: spatial ++ [4]
  | FORMAT_NHWC_VECT_W => N :: quarter_last spatial ++ [C; 4]
  | FORMAT_HWNC => spatial ++ [N; C]
  | FORMAT_HWCN => spatial ++ [C; N]
  end.

(** A dimension that is stored by groups of four is a multiple of it. *)
Definition groups (format : TensorFormat) (spatial : list Z) (C : Z) : bool :=
  match format with
  | FORMAT_NCHW_VECT_C => Z.rem C 4 =? 0
  | FORMAT_NHWC_VECT_W => Z.rem (default 0 (last spatial)) 4 =? 0
  | _ => true
  end.

Definition filter_layout (format : FilterTensorFormat) (spatial : list Z) (I O : Z) : list Z :=
  match format with
  | FORMAT_HWIO => spatial ++ [I; O]
  | FORMAT_OIHW => O :: I :: spatial
  | FORMAT_OHWI => []
  | FORMAT_OIHW_VECT_I => O :: Z.quot I 4 :: spatial ++ [4]
  end.

Definition spatial_2d_3d (spatial : list Z) : Prop := length spatial = 2%nat \/ length spatial = 3%nat.

Lemma spatial_cases spatial : spatial_2d_3d spatial ->
  (exists h w, spatial = [h; w]) \/ (exists d h w, spatial = [d; h; w]).
Proof.
  intros [H|H]; [left|right]; repeat (destruct spatial as [|? spatial]; try done); eauto.
Qed.

Ltac compute_shape := cbn -[Z.rem Z.quot i64 TensorShape_of].

Lemma ShapeFromFormat_layout format N spatial C : spatial_2d_3d spatial ->
  ShapeFromFormat format N spatial C =
    if groups format spatial C then Ok (TensorShape_of (layout format N spatial C)) else Fault CheckFailed.
Proof.
  intros [(h & w & ->)|(d & h & w & ->)]%spatial_cases; destruct format; unfold ShapeFromFormat; compute_shape; try done.
  all: match goal with |- context [Z.rem ?x 4 =? 0] => by destruct (Z.rem x 4 =? 0) end.
Qed.

Lemma ShapeFromFilterTensorFormat_layout format spatial I O : spatial_2d_3d spatial ->
  ShapeFromFilterTensorFormat format spatial I O =
    match format with
    | FORMAT_OHWI => Fault FatalLog
    | FORMAT_OIHW_VECT_I =>
        if Z.rem I 4 =? 0 then Ok (TensorShape_of (filter_layout format spatial I O)) else Fault CheckFailed
    | _ => Ok (TensorShape_of (filter_layout format spatial I O))
    end.
Proof.
  intros [(h & w & ->)|(d & h & w & ->)]%spatial_cases; destruct format; unfold ShapeFromFilterTensorFormat; compute_shape; try done.
  all: by destruct (Z.rem I 4 =? 0).
Qed.

Lemma quot_back x : 0 <= x < 2 ^ 63 -> (Z.rem x 4 =? 0) = true -> i64 (Z.quot x 4 * 4) = x.
Proof.
  intros Hx Hr%Z.eqb_eq. pose proof (Z.quot_rem x 4 ltac:(lia)). rewrite i64_small by lia. lia.
Qed.

Lemma dims_of l : dims (TensorShape_of l) = size_ l.
Proof. done. Qed.

Definition dim_ok (d : Z) : Prop := 0 <= d < 2 ^ 63.

(** C23: A shape that is built in one tensor format and converted to another is the
    shape built in the other one: the conversion reads the batch, the channels
    and each spatial dimension back from where they were put, whichever of the six
    formats are involved and whether dimensions are stored by groups of four.
    Where the other format cannot have the shape both fail in the same way. *)
Theorem ShapeFromFormat_converts format dst N spatial C s :
  spatial_2d_3d spatial -> dim_ok C -> Forall dim_ok spatial ->
  ShapeFromFormat format N spatial C = Ok s -> ConvertShape dst s format = ShapeFromFormat dst N spatial C.
Proof.
  intros Hsp HC Hd Hs. rewrite ShapeFromFormat_layout in Hs by done. destruct (groups format spatial C) eqn:Hg; [|done]. injection Hs as <-.
  unfold ConvertShape. case_bool_decide as E; [subst dst; by rewrite ShapeFromFormat_layout, Hg|]. clear E.
  rewrite dims_of. change (dim_sizes_ (TensorShape_of ?l)) with l.
  apply spatial_cases in Hsp as [(h & w & ->)|(d & h & w & ->)]; rewrite ?Forall_cons in Hd; destruct Hd as (H1 & H2 & H3);
    destruct format; cbn [groups default last option_fmap option_map from_option id] in Hg;
    lazy -[Z.rem Z.quot i64 ShapeFromFormat Z.mul]; rewrite ?Z.mul_1_r, ?quot_back by (done || apply H3);
    rewrite ?i64_small by (unfold dim_ok in *; lia); done.
Qed.

(** The same for filters. *)
Theorem ShapeFromFilterFormat_converts format dst spatial I O s :
  spatial_2d_3d spatial -> dim_ok I ->
  ShapeFromFilterTensorFormat format spatial I O = Ok s ->
  ConvertFilterShape dst s format = ShapeFromFilterTensorFormat dst spatial I O.
Proof.
  intros Hsp HI Hs. unfold ConvertFilterShape. case_bool_decide as E; [by subst dst|]. clear E.
  rewrite ShapeFromFilterTensorFormat_layout in Hs by done. apply spatial_cases in Hsp as [(h & w & ->)|(d & h & w & ->)];
    destruct format; try done; try (destruct (Z.rem I 4 =? 0) eqn:Hg; [|done]); injection Hs as <-;
    lazy -[Z.rem Z.quot i64 ShapeFromFilterTensorFormat Z.mul]; rewrite ?Z.mul_1_r, ?quot_back by done;
    rewrite ?i64_small by (unfold dim_ok in *; lia); done.
Qed.

(** ** Explicit padding *)

Definition padding_ok (explicit_paddings : list Z) (num_dims : Z) (data_format : TensorFormat) : Prop :=
  size_ explicit_paddings = 2 * num_dims /\ Forall (fun p => 0 <= p) explicit_paddings /\
  forall d, d = GetTensorBatchDimIndex num_dims data_format \/ d = GetTensorFeatureDimIndex num_dims data_format ->
    vget explicit_paddings (2 * d) = Some 0 /\ vget explicit_paddings (2 * d + 1) = Some 0.

Lemma any_nonzero_spec l indices : Forall (fun i => 0 <= i < size_ l) indices ->
  exists b, any_nonzero l indices = Ok b /\ (b = false <-> Forall (fun i => vget l i = Some 0) indices).
Proof.
  induction indices as [|i indices IH]; intros Hi; cbn [any_nonzero]; [by exists false|].
  apply Forall_cons in Hi as [[x Hx]%vget_ex Hi]. rewrite (at_Some _ _ _ Hx). cbn [mbind result_bind].
  destruct (Z.eqb_spec x 0) as [->|Hne]; cbn [negb].
  - destruct (IH Hi) as (b & -> & Hb). exists b. split; [done|]. rewrite Forall_cons, Hb, Hx. naive_solver.
  - exists true. split; [done|]. split; [done|]. rewrite Forall_cons, Hx. intros [[= ?] _]. done.
Qed.

(** [CheckValidPadding] returns, and with OK exactly when explicit padding has two
    entries per dimension, none negative and none on the batch or the features,
    and when other padding has no entries. *)
Theorem CheckValidPadding_decides padding_type explicit_paddings num_dims data_format :
  2 <= num_dims < 2 ^ 30 ->
  exists st, CheckValidPadding padding_type explicit_paddings num_dims data_format = Ok st /\
    (status_ok st = true <->
      if bool_decide (padding_type = EXPLICIT) then padding_ok explicit_paddings num_dims data_format else explicit_paddings = []).
Proof.
  intros Hn. unfold CheckValidPadding. case_bool_decide; [|case_bool_decide; cbn [negb]; eexists; (split; [reflexivity|]); done].
  assert (u64 (i32 (2 * num_dims)) = 2 * num_dims) as -> by (rewrite i32_small, u64_small; lia).
  destruct (Z.eqb_spec (size_ explicit_paddings) (2 * num_dims)) as [Hs|Hs]; cbn [negb].
  2:{ eexists. split; [reflexivity|]. split; [done|]. by intros [? _]. }
  destruct (existsb _ _) eqn:Hneg.
  { eexists. split; [reflexivity|]. split; [done|]. intros (_ & Hp & _). apply existsb_exists in Hneg as (p & Hin & Hlt%Z.ltb_lt).
    rewrite Forall_forall in Hp. apply list_elem_of_In in Hin. specialize (Hp p Hin). lia. }
  assert (Forall (fun p => 0 <= p) explicit_paddings) as Hpos.
  { apply Forall_forall. intros p Hp%list_elem_of_In. destruct (Z.ltb_spec p 0); [|done]. exfalso.
    apply Bool.not_true_iff_false in Hneg. apply Hneg, existsb_exists. exists p. split; [done|]. by apply Z.ltb_lt. }
  match goal with |- context [any_nonzero _ ?indices] => destruct (any_nonzero_spec explicit_paddings indices) as (b & -> & Hb) end.
  { rewrite Hs, !Forall_cons. destruct data_format; cbn; split_and!; try done; lia. }
  cbn [mbind result_bind]. rewrite !Forall_cons in Hb. unfold padding_ok. destruct b; eexists; (split; [reflexivity|]).
  - split; [done|]. intros (_ & _ & Hz). assert (true = false); [|done]. apply Hb. pose proof (Hz _ (or_introl eq_refl)). pose proof (Hz _ (or_intror eq_refl)). naive_solver.
  - split; [|done]. intros _. split; [done|]. split; [done|]. destruct (proj1 Hb eq_refl) as (H1 & H2 & H3 & H4 & _). by intros d [->| ->].
Qed.

Lemma ShapeFromFormat_converts_witness :
  exists s, ShapeFromFormat FORMAT_NCHW_VECT_C 2 [5; 8] 12 = Ok s /\ dim_sizes_ s = [2; 3; 5; 8; 4] /\
    ConvertShape FORMAT_NHWC_VECT_W s FORMAT_NCHW_VECT_C = Ok (TensorShape_of [2; 5; 2; 12; 4]).
Proof.
  eexists. split; [reflexivity|]. split; [reflexivity|].
  rewrite (ShapeFromFormat_converts FORMAT_NCHW_VECT_C FORMAT_NHWC_VECT_W 2 [5; 8] 12); [reflexivity|by left|by split|by repeat constructor|reflexivity].
Defined.
