(* ===== verification/WindowedOutput.v ===== *)
(** * Output sizes of convolutions and pooling

    runtime_adapter/kernel_shape_util.{h,cc}: how many windows a filter has along
    one dimension, and the padding that goes with them.  The out parameters are a
    record that a call takes and gives back; [int64_t] arithmetic wraps in the
    model, and the theorems say when it does not. *)

From stdpp Require Import pretty.
From S2P Require Import Prelude Vec TensorShape TensorFormat.
#[local] Open Scope string_scope.
#[local] Open Scope list_scope.
#[local] Open Scope Z_scope.

Record windowed := mk_windowed { output_size : Z; padding_before : Z; padding_after : Z }.

Definition negative_output (output_size input_size effective_filter_size stride : Z) : Status :=
  InvalidArgument ("Computed output size would be negative: " +:+ pretty output_size +:+ " [input_size: " +:+ pretty input_size +:+
    ", effective_filter_size: " +:+ pretty effective_filter_size +:+ ", stride: " +:+ pretty stride +:+ "]").

Definition GetWindowedOutputSizeVerboseV2 (input_size filter_size dilation_rate stride : Z) (padding_type : Padding) (out : windowed)
    : Status * windowed :=
  if stride <=? 0 then (InvalidArgument ("Stride must be > 0, but got " +:+ pretty stride), out)
  else if dilation_rate <? 1 then (InvalidArgument ("Dilation rate must be >= 1, but got " +:+ pretty dilation_rate), out)
  else
    let effective_filter_size := i64 (i64 (i64 (filter_size - 1) * dilation_rate) + 1) in
    let out :=
      match padding_type with
      | VALID => mk_windowed (Z.quot (i64 (i64 (input_size - effective_filter_size) + stride)) stride) 0 0
      | EXPLICIT =>
          mk_windowed
            (Z.quot (i64 (i64 (i64 (i64 (input_size + padding_before out) + padding_after out) - effective_filter_size) + stride)) stride)
            (padding_before out) (padding_after out)
      | SAME =>
          let output_size := Z.quot (i64 (i64 (input_size + stride) - 1)) stride in
          let padding_needed :=
            Z.max 0 (i64 (i64 (i64 (i64 (output_size - 1) * stride) + effective_filter_size) - input_size)) in
          let padding_before := Z.quot padding_needed 2 in
          mk_windowed output_size padding_before (i64 (padding_needed - padding_before))
      end in
    if output_size out <? 0 then (negative_output (output_size out) input_size effective_filter_size stride, out) else (Status_OK, out).

Definition GetWindowedOutputSizeVerbose (input_size filter_size stride : Z) (padding_type : Padding) (out : windowed) : Status * windowed :=
  GetWindowedOutputSizeVerboseV2 input_size filter_size 1 stride padding_type out.

(** The entry points that give back the padding before only.  The local variable
    for the padding after is not initialised; it is not read, since explicit
    padding is refused. *)
Definition GetWindowedOutputSize (input_size filter_size stride : Z) (padding_type : Padding) (out : Z * Z) : Status * (Z * Z) :=
  if bool_decide (padding_type = EXPLICIT) then (Internal "GetWindowedOutputSize does not handle EXPLICIT padding; call GetWindowedOutputSizeVerbose instead", out)
  else
    let '(status, w) := GetWindowedOutputSizeVerbose input_size filter_size stride padding_type (mk_windowed out.1 out.2 0) in
    (status, (output_size w, padding_before w)).

Definition GetWindowedOutputSizeV2 (input_size filter_size dilation_rate stride : Z) (padding_type : Padding) (out : Z * Z)
    : Status * (Z * Z) :=
  if bool_decide (padding_type = EXPLICIT) then (Internal "GetWindowedOutputSizeV2 does not handle EXPLICIT padding; call GetWindowedOutputSizeVerboseV2 instead", out)
  else
    let '(status, w) :=
      GetWindowedOutputSizeVerboseV2 input_size filter_size dilation_rate stride padding_type (mk_windowed out.1 out.2 0) in
    (status, (output_size w, padding_before w)).

(** The loops over the three dimensions stop at the first error. *)
Fixpoint each_dimension {A} (f : A -> Z * Z -> Status * (Z * Z)) (l : list A) (out : list (Z * Z)) : Status * list (Z * Z) :=
  match l, out with
  | x :: l, o :: out =>
      let '(status, o) := f x o in
      if status_ok status then let '(status, out) := each_dimension f l out in (status, o :: out) else (status, o :: out)
  | _, _ => (Status_OK, out)
  end.

Definition Get3dOutputSize (input window strides : Z * Z * Z) (padding_type : Padding) (out : list (Z * Z)) : Status * list (Z * Z) :=
  let '(i0, i1, i2) := input in let '(w0, w1, w2) := window in let '(s0, s1, s2) := strides in
  each_dimension (fun '(i, w, s) => GetWindowedOutputSize i w s padding_type) [(i0, w0, s0); (i1, w1, s1); (i2, w2, s2)] out.

Definition Get3dOutputSizeV2 (input window dilations strides : Z * Z * Z) (padding_type : Padding) (out : list (Z * Z))
    : Status * list (Z * Z) :=
  let '(i0, i1, i2) := input in let '(w0, w1, w2) := window in
  let '(d0, d1, d2) := dilations in let '(s0, s1, s2) := strides in
  each_dimension (fun '(i, w, d, s) => GetWindowedOutputSizeV2 i w d s padding_type)
    [(i0, w0, d0, s0); (i1, w1, d1, s1); (i2, w2, d2, s2)] out.

(** ** What the sizes are *)

(** The cells that a dilated filter spans. *)
Definition span (filter_size dilation_rate : Z) : Z := (filter_size - 1) * dilation_rate + 1.

(** [n] windows of [span] cells, [stride] apart, fit into [room] cells. *)
Definition fit (span stride room n : Z) : Prop := (n - 1) * stride + span <= room.

Record window_ok (input_size filter_size dilation_rate stride before after : Z) : Prop := {
  wo_input : 0 <= input_size;
  wo_filter : 1 <= filter_size;
  wo_dilation : 1 <= dilation_rate;
  wo_stride : 1 <= stride;
  wo_before : 0 <= before;
  wo_after : 0 <= after;
  wo_small : input_size + before + after + span filter_size dilation_rate + stride < 2 ^ 62
}.

(** [(room - span + stride) / stride] counts the windows. *)
Lemma count_windows room sp stride : 1 <= stride -> - stride < room - sp + stride ->
  0 <= Z.quot (room - sp + stride) stride /\ forall n, 1 <= n -> n <= Z.quot (room - sp + stride) stride <-> fit sp stride room n.
Proof.
  intros Hs Hr. unfold fit. destruct (Z.le_gt_cases 0 (room - sp + stride)) as [Hp|Hn].
  - rewrite Z.quot_div_nonneg by lia. split; [apply Z.div_pos; lia|]. intros n Hn.
    split; intros H; [pose proof (Z.mul_div_le (room - sp + stride) stride ltac:(lia)); nia|]. apply Z.div_le_lower_bound; nia.
  - assert (Z.quot (room - sp + stride) stride = 0) as ->.
    { rewrite <- (Z.opp_involutive (room - sp + stride)), Z.quot_opp_l, Z.quot_small by lia. done. }
    split; [done|]. intros n Hn1. nia.
Qed.

Lemma negative_windows x stride : 1 <= stride -> x <= - stride -> Z.quot x stride < 0.
Proof.
  intros Hs Hx. rewrite <- (Z.opp_involutive x), Z.quot_opp_l by lia. rewrite Z.quot_div_nonneg by lia.
  assert (1 <= (- x) / stride); [|lia]. apply Z.div_le_lower_bound; lia.
Qed.

Lemma span_range f d : 1 <= f -> 1 <= d -> 1 <= span f d /\ f <= span f d.
Proof. unfold span. nia. Qed.

Lemma effective_span f d : 1 <= f -> 1 <= d -> span f d < 2 ^ 62 -> i64 (i64 (i64 (f - 1) * d) + 1) = span f d.
Proof.
  intros Hf Hd Hs. pose proof (span_range f d Hf Hd). unfold span in *.
  rewrite (i64_small (f - 1)) by nia. rewrite (i64_small ((f - 1) * d)) by nia. apply i64_small. nia.
Qed.

(** The padding that lets [n] windows start at every [stride]-th cell. *)
Definition needed (input_size sp stride n : Z) : Z := Z.max 0 ((n - 1) * stride + sp - input_size).

Lemma same_size input stride : 0 <= input -> 1 <= stride -> let n := Z.quot (input + stride - 1) stride in
  stride * (n - 1) < input <= stride * n \/ (input = 0 /\ n = 0).
Proof.
  intros Hi Hs n. unfold n. rewrite Z.quot_div_nonneg by lia. destruct (decide (input = 0)) as [->|Hne].
  - right. split; [done|]. apply Z.div_small. lia.
  - left. pose proof (Z.mul_div_le (input + stride - 1) stride ltac:(lia)).
    pose proof (Z.mul_succ_div_gt (input + stride - 1) stride ltac:(lia)). lia.
Qed.

Lemma same_windows input sp stride : 0 <= input -> 1 <= sp -> 1 <= stride ->
  let n := Z.quot (input + stride - 1) stride in 0 <= n <= input /\ (n - 1) * stride < Z.max 1 input /\
  forall m, 1 <= m -> m <= n <-> fit sp stride (input + needed input sp stride n) m.
Proof.
  intros Hi Hsp Hs n. assert (0 <= n) as Hn by (unfold n; rewrite Z.quot_div_nonneg by lia; apply Z.div_pos; lia).
  unfold fit, needed. destruct (same_size input stride Hi Hs) as [H|[-> H]]; fold n in H.
  - split; [nia|]. split; [nia|]. intros m Hm. split; nia.
  - rewrite H. split; [lia|]. split; [lia|]. intros m Hm. split; nia.
Qed.

Definition padded (input_size : Z) (w : windowed) : Z := input_size + padding_before w + padding_after w.

Lemma decided room sp stride w bad : status_ok bad = false -> 1 <= stride -> output_size w = Z.quot (room - sp + stride) stride ->
  exists st, (if output_size w <? 0 then (bad, w) else (Status_OK, w)) = (st, w) /\
    (status_ok st = true <-> sp < room + 2 * stride) /\
    (status_ok st = true -> 0 <= output_size w /\ forall n, 1 <= n -> n <= output_size w <-> fit sp stride room n).
Proof.
  intros Hb Hs E. destruct (Z.lt_ge_cases (- stride) (room - sp + stride)) as [H|H].
  - destruct (count_windows room sp stride Hs H) as [H1 H2]. rewrite <- E in H1, H2. rewrite (proj2 (Z.ltb_ge _ _)) by done.
    exists Status_OK. split; [done|]. split; [|done]. split; [lia|done].
  - pose proof (negative_windows _ _ Hs H) as Hn. rewrite <- E in Hn. rewrite (proj2 (Z.ltb_lt _ _)) by done.
    exists bad. rewrite Hb. split; [done|]. split; [|done]. split; [done|lia].
Qed.

(** The output size of a convolution or pooling is the number of windows that
    fit: for arguments whose sums stay below 2^62, [GetWindowedOutputSize] and its
    variants return OK with the number of dilated filters, [stride] cells apart,
    that fit into the padded input.  [VALID] adds no padding and [EXPLICIT] the one
    given, and both fail exactly when the filter spans two strides or more than
    the padded input beyond it.  [SAME] never fails: the output is the input
    divided by the stride, rounded up, with the least padding that makes it so,
    the odd cell after the input. *)
Theorem windowed_output_counts input_size filter_size dilation_rate stride padding_type out :
  window_ok input_size filter_size dilation_rate stride (padding_before out) (padding_after out) ->
  exists st w, GetWindowedOutputSizeVerboseV2 input_size filter_size dilation_rate stride padding_type out = (st, w) /\
    let sp := span filter_size dilation_rate in
    (status_ok st = true -> 0 <= output_size w /\
       forall n, 1 <= n -> n <= output_size w <-> fit sp stride (padded input_size w) n) /\
    match padding_type with
    | SAME => st = Status_OK /\ output_size w = Z.quot (input_size + stride - 1) stride /\
        padding_before w <= padding_after w <= padding_before w + 1 /\
        padding_before w + padding_after w = needed input_size sp stride (output_size w)
    | VALID => padding_before w = 0 /\ padding_after w = 0 /\ (status_ok st = true <-> sp < padded input_size w + 2 * stride)
    | EXPLICIT => padding_before w = padding_before out /\ padding_after w = padding_after out /\
        (status_ok st = true <-> sp < padded input_size w + 2 * stride)
    end.
Proof.
  intros [H1 H2 H3 H4 H5 H6 H7]. pose proof (span_range _ _ H2 H3) as [Hsp _].
  unfold GetWindowedOutputSizeVerboseV2. destruct (Z.leb_spec stride 0), (Z.ltb_spec dilation_rate 1); try lia.
  rewrite effective_span by lia. set (sp := span filter_size dilation_rate) in *.
  destruct padding_type.
  - rewrite (i64_small (input_size - sp)), i64_small by lia. set (w := mk_windowed _ 0 0).
    destruct (decided input_size sp stride w (negative_output (output_size w) input_size sp stride) eq_refl H4 eq_refl) as (st & Hst & H8 & H9). exists st, w. split; [exact Hst|].
    unfold padded. cbn [padding_before padding_after w]. rewrite !Z.add_0_r. done.
  - assert (0 <= Z.quot (input_size + stride - 1) stride <= input_size) as Hq by (by destruct (same_windows input_size sp stride)).
    rewrite (i64_small (input_size + stride)), (i64_small (input_size + stride - 1)) by lia. set (n := Z.quot _ stride) in *.
    destruct (same_windows input_size sp stride H1 Hsp H4) as (_ & Hlt & Hfit). fold n in Hlt, Hfit.
    assert (- stride <= (n - 1) * stride) as Hlow by nia.
    rewrite (i64_small (n - 1)), (i64_small ((n - 1) * stride)) by lia. rewrite (i64_small ((n - 1) * stride + sp)) by lia.
    rewrite (i64_small (_ - input_size)) by lia. fold (needed input_size sp stride n). set (p := needed _ _ _ n) in *.
    assert (0 <= p < 2 ^ 62) as Hp by (unfold p, needed; lia).
    assert (2 * Z.quot p 2 <= p <= 2 * Z.quot p 2 + 1) as Hh by (rewrite Z.quot_div_nonneg by lia; pose proof (Z_div_mod_eq_full p 2); pose proof (Z.mod_pos_bound p 2); lia).
    rewrite i64_small by lia. cbn [output_size]. rewrite (proj2 (Z.ltb_ge n 0)) by lia.
    eexists _, _. split; [reflexivity|]. unfold padded. cbn [output_size padding_before padding_after].
    replace (input_size + Z.quot p 2 + (p - Z.quot p 2)) with (input_size + p) by lia. split; [by intros _; split; [lia|]|]. split_and!; lia || done.
  - rewrite (i64_small (input_size + padding_before out)), (i64_small (input_size + padding_before out + padding_after out)) by lia.
    rewrite (i64_small (_ - sp)), i64_small by lia. set (w := mk_windowed _ (padding_before out) (padding_after out)).
    destruct (decided (input_size + padding_before out + padding_after out) sp stride w (negative_output (output_size w) input_size sp stride) eq_refl H4 eq_refl) as (st & Hst & H8 & H9).
    exists st, w. split; [exact Hst|]. unfold padded. cbn [padding_before padding_after w]. done.
Qed.

Lemma windowed_output_counts_witness :
  exists w, GetWindowedOutputSizeVerboseV2 10 3 2 3 SAME (mk_windowed 0 0 0) = (Status_OK, w) /\
    output_size w = 4 /\ (forall n, 1 <= n -> n <= 4 <-> fit 5 3 (10 + 2 + 2) n).
Proof.
  destruct (windowed_output_counts 10 3 2 3 SAME (mk_windowed 0 0 0)) as (st & w & Hr & H & Hst & Ho & _); [by split|].
  injection Hr as <- <-. eexists. split; [reflexivity|]. split; [reflexivity|]. by apply H.
Defined.
