(* ===== verification/Kernel.v ===== *)
(** * Kernel: what the initialization of every kernel shares

    Errors that end a computation early ([TF_RETURN_IF_ERROR], [OP_REQUIRES],
    [OP_REQUIRES_OK]), and the attributes of a node as a kernel reads them
    (runtime_adapter/op_kernel_construction.h).  The C API that holds the
    attributes is the record [OpKernelConstruction]. *)

From S2P Require Import Prelude TensorFormat.
#[local] Open Scope string_scope.
#[local] Open Scope list_scope.
#[local] Open Scope Z_scope.

Definition Unimplemented (msg : string) : Status := mk_Status TF_UNIMPLEMENTED msg.

(** ** Statuses that end a computation *)

Definition fails {A} (status : Status) : result (StatusOr A) := mret (inl status).
Definition gives {A} (a : A) : result (StatusOr A) := mret (inr a).

Definition attempt {A B} (m : result (StatusOr A)) (k : A -> result (StatusOr B)) : result (StatusOr B) :=
  r ← m; match r with inl status => fails status | inr a => k a end.

(** [OP_REQUIRES(ctx, b, status)], or a test that returns the status. *)
Definition op_requires {B} (b : bool) (status : Status) (k : result (StatusOr B)) : result (StatusOr B) :=
  if b then k else fails status.

(** [TF_RETURN_IF_ERROR] of a call that only has a status. *)
Definition op_requires_ok {B} (m : result Status) (k : result (StatusOr B)) : result (StatusOr B) :=
  status ← m; if status_ok status then k else fails status.

Declare Scope kernel_scope.
Notation "x <-? m ; k" := (attempt m (fun x => k)) (at level 100, m at level 99, k at level 200, right associativity) : kernel_scope.
Notation "'OP_REQUIRES' b 'else' status ; k" := (op_requires b status k)
  (at level 100, b at level 99, status at level 99, k at level 200, right associativity) : kernel_scope.
Notation "'OP_REQUIRES_OK' m ; k" := (op_requires_ok m k) (at level 100, m at level 99, k at level 200, right associativity) : kernel_scope.

Lemma attempt_gives {A B} (m : result (StatusOr A)) (k : A -> result (StatusOr B)) b :
  attempt m k = Ok (inr b) <-> exists a, m = Ok (inr a) /\ k a = Ok (inr b).
Proof.
  unfold attempt. split.
  - destruct m as [[st|a]|]; [done| |done]. cbn. eauto.
  - by intros (a & -> & H).
Qed.

Lemma bind_gives {A B} (m : result A) (k : A -> result B) b : (a ← m; k a) = Ok b <-> exists a, m = Ok a /\ k a = Ok b.
Proof. destruct m; cbn; naive_solver. Qed.

Lemma op_requires_gives {B} (b : bool) status (k : result (StatusOr B)) x : op_requires b status k = Ok (inr x) <-> b = true /\ k = Ok (inr x).
Proof. destruct b; cbn; naive_solver. Qed.

Lemma op_requires_ok_gives {B} m (k : result (StatusOr B)) x : op_requires_ok m k = Ok (inr x) <-> exists st, m = Ok st /\ status_ok st = true /\ k = Ok (inr x).
Proof.
  unfold op_requires_ok. split.
  - destruct m as [st|]; [|done]. cbn. destruct (status_ok st) eqn:E; [eauto|done].
  - by intros (st & -> & H1 & H2); cbn; rewrite H1.
Qed.

(** One step of a computation that gives a result. *)
Ltac take_step H :=
  first [apply attempt_gives in H as (? & ? & H) | apply op_requires_gives in H as (? & H) | apply op_requires_ok_gives in H as (? & ? & ? & H)
        |apply bind_gives in H as (? & ? & H)].

(** [m] returns: a result that satisfies [Q] where [P] holds, an error where it does
    not. *)
Definition decides {A} (m : result (StatusOr A)) (P : Prop) (Q : A -> Prop) : Prop :=
  (P /\ exists a, m = Ok (inr a) /\ Q a) \/ (~ P /\ exists status, m = Ok (inl status) /\ status_ok status = false).

Section decides.
  Context {A : Type} (P : Prop) (Q : A -> Prop).

Lemma decides_gives a : P -> Q a -> decides (gives a) P Q.
Proof. intros HP HQ. left. eauto. Qed.

Lemma decides_requires (b : bool) status k : status_ok status = false -> (P -> b = true) -> (b = true -> decides k P Q) -> decides (op_requires b status k) P Q.
Proof. intros Hs Hb Hk. destruct b; [by apply Hk|]. right. split; [by intros ?%Hb|]. by exists status. Qed.

Lemma decides_attempt {B} (m : result (StatusOr B)) k P1 Q1 : decides m P1 Q1 -> (P -> P1) -> (forall b, P1 -> Q1 b -> decides (k b) P Q) ->
  decides (attempt m k) P Q.
Proof. intros [(HP & b & -> & HQ)|(HP & st & -> & Hst)] Hi Hk; [by apply Hk|]. right. split; [tauto|]. by exists st. Qed.

Lemma decides_ok m k st : m = Ok st -> (P -> status_ok st = true) -> (status_ok st = true -> decides k P Q) -> decides (op_requires_ok m k) P Q.
Proof. intros -> Hst Hk. cbn. destruct (status_ok st) eqn:E; [by apply Hk|]. right. split; [by intros ?%Hst|]. by exists st. Qed.

Lemma decides_iff m P' : (P <-> P') -> decides m P' Q -> decides m P Q.
Proof. intros E [(HP & H)|(HP & H)]; [left|right]; (split; [tauto|exact H]). Qed.
End decides.

Lemma decides_gives_iff {A} m P (Q : A -> Prop) a : decides m P Q -> m = Ok (inr a) -> P /\ Q a.
Proof. intros [(HP & a' & -> & HQ)|(HP & st & -> & _)] E; [|done]. by injection E as ->. Qed.

(** ** Attributes *)

(** The attributes of the node of a kernel: each read has a status. *)
Record OpKernelConstruction := mk_OpKernelConstruction {
  GetAttr_string : string -> StatusOr string;
  GetAttr_int32 : string -> StatusOr Z;
  GetAttr_bool : string -> StatusOr bool;
  GetAttr_int32s : string -> StatusOr (list Z);
  GetAttr_int64s : string -> StatusOr (list Z);
  HasAttr : string -> bool
}.

Definition GetAttr_Padding (context : OpKernelConstruction) (attr_name : string) : StatusOr Padding :=
  match GetAttr_string context attr_name with
  | inl status => inl status
  | inr padding_string => GetPaddingFromString padding_string
  end.
