(* ===== verification/ConvDims.v ===== *)
(** * ConvDims: the parameters and dimensions of convolutions

    kernels/dml_conv_ops.cc: what the kernels of two-dimensional convolutions and
    their gradients compute before they call DirectML.  An out parameter is the
    result of its function; what it holds after an error is not read. *)

From stdpp Require Import pretty.
From Stdlib Require Import Ascii.
From S2P Require Import Prelude Vec TensorShape TensorFormat WindowedOutput Kernel.
#[local] Open Scope string_scope.
#[local] Open Scope list_scope.
#[local] Open Scope Z_scope.
#[local] Open Scope kernel_scope.

Definition int_max : Z := 2 ^ 31 - 1.

Record Conv2DParameters := mk_Conv2DParameters {
  dilations : list Z;
  strides : list Z;
  padding : Padding;
  data_format : TensorFormat;
  explicit_paddings : list Z
}.

(** [Conv2DDimensions]; the output sizes and paddings of rows and columns are
    what [GetWindowedOutputSizeVerboseV2] gives. *)
Record Conv2DDimensions := mk_Conv2DDimensions {
  batch : Z;
  input_rows : Z;
  input_cols : Z;
  in_depth : Z;
  filter_rows : Z;
  filter_cols : Z;
  patch_depth : Z;
  out_depth : Z;
  stride_rows : Z;
  stride_cols : Z;
  dilation_rows : Z;
  dilation_cols : Z;
  rows : windowed;
  cols : windowed
}.

(** ** Parameters *)

Definition InitConv2DParameters (context : OpKernelConstruction) : result (StatusOr Conv2DParameters) :=
  dilations <-? mret (GetAttr_int32s context "dilations");
  strides <-? mret (GetAttr_int32s context "strides");
  padding <-? mret (GetAttr_Padding context "padding");
  explicit_paddings <-? (if HasAttr context "explicit_paddings" then mret (GetAttr_int64s context "explicit_paddings") else gives []);
  data_format_string <-? mret (GetAttr_string context "data_format");
  match FormatFromString data_format_string with
  | None => fails (InvalidArgument "Invalid data format")
  | Some data_format =>
      OP_REQUIRES (size_ dilations =? 4) else (InvalidArgument "Sliding window dilations field must specify 4 dimensions");
      OP_REQUIRES (size_ strides =? 4) else (InvalidArgument "Sliding window strides field must specify 4 dimensions");
      stride_n ← GetTensorDim strides data_format "N";
      stride_c ← GetTensorDim strides data_format "C";
      stride_h ← GetTensorDim strides data_format "H";
      stride_w ← GetTensorDim strides data_format "W";
      OP_REQUIRES (negb (negb (stride_n =? 1) || negb (stride_c =? 1)))
        else (Unimplemented "Current implementation does not yet support strides in the batch and depth dimensions.");
      OP_REQUIRES (negb ((stride_h <=? 0) || (stride_w <=? 0))) else (InvalidArgument "Row and column strides should be larger than 0.");
      dilation_n ← GetTensorDim dilations data_format "N";
      dilation_c ← GetTensorDim dilations data_format "C";
      dilation_h ← GetTensorDim dilations data_format "H";
      dilation_w ← GetTensorDim dilations data_format "W";
      OP_REQUIRES (negb (negb (dilation_n =? 1) || negb (dilation_c =? 1)))
        else (Unimplemented "Current implementation does not yet support dilations in the batch and depth dimensions.");
      OP_REQUIRES (negb ((dilation_h <=? 0) || (dilation_w <=? 0))) else (InvalidArgument "Dilated rates should be larger than 0.");
      OP_REQUIRES_OK CheckValidPadding padding explicit_paddings 4 data_format;
      gives (mk_Conv2DParameters dilations strides padding data_format explicit_paddings)
  end.

(** ** Dimensions *)

(** The loop over the first three dimensions of the filter. *)
Fixpoint filter_fits (filter_shape : TensorShape) (l : list Z) : result bool :=
  match l with
  | [] => mret true
  | i :: l => d ← dim_size i filter_shape; if int_max <=? d then mret false else filter_fits filter_shape l
  end.

(** The paddings of a dimension before its windows are counted. *)
Definition initial_padding (params : Conv2DParameters) (dimension : ascii) : result windowed :=
  if bool_decide (padding params = EXPLICIT) then
    '(before, after) ← GetExplicitPaddingForDim (explicit_paddings params) (data_format params) dimension;
    mret (mk_windowed 0 before after)
  else mret (mk_windowed 0 0 0).

Definition windowed_or (r : Status * windowed) : result (StatusOr windowed) :=
  let '(status, w) := r in if status_ok status then gives w else fails status.

Definition ComputeConv2DDimension (params : Conv2DParameters) (input_shape filter_shape : TensorShape) : result (StatusOr Conv2DDimensions) :=
  OP_REQUIRES (dims input_shape =? 4) else (InvalidArgument ("input must be 4-dimensional" +:+ DebugString input_shape));
  OP_REQUIRES (dims filter_shape =? 4) else (InvalidArgument ("filter must be 4-dimensional: " +:+ DebugString filter_shape));
  small ← filter_fits filter_shape [0; 1; 2];
  OP_REQUIRES (small) else (InvalidArgument "filter too large");
  in_depth_raw ← GetTensorDim (dim_sizes_ input_shape) (data_format params) "C";
  patch_depth_raw ← dim_size 2 filter_shape;
  OP_REQUIRES (negb (int_max <=? in_depth_raw)) else (InvalidArgument "Input depth too large");
  OP_REQUIRES (negb (int_max <=? patch_depth_raw)) else (InvalidArgument "Patch depth too large");
  let in_depth := i32 in_depth_raw in
  let patch_depth := i32 patch_depth_raw in
  OP_REQUIRES (negb (patch_depth <=? 0)) else (InvalidArgument ("filter depth must be stricly positive, got " +:+ pretty patch_depth));
  OP_REQUIRES (Z.rem in_depth patch_depth =? 0)
    else (InvalidArgument ("input depth must be evenly divisible by filter depth: " +:+ pretty in_depth +:+ " vs " +:+ pretty patch_depth));
  OP_REQUIRES (negb (num_elements_ filter_shape <=? 0))
    else (InvalidArgument "filter must not have zero elements (i.e. all dimensions must be non-zero)");
  let num_groups := Z.quot in_depth patch_depth in
  OP_REQUIRES (negb (num_groups <=? 0)) else (InvalidArgument ("number of groups must be stricly positive, got " +:+ pretty num_groups));
  out_depth_raw ← dim_size 3 filter_shape;
  let out_depth := i32 out_depth_raw in
  OP_REQUIRES (negb (negb (Z.rem out_depth num_groups =? 0) || (out_depth <? num_groups)))
    else (InvalidArgument ("output depth must be evenly divisible by number of groups: " +:+ pretty out_depth +:+ " vs " +:+ pretty num_groups));
  input_rows_raw ← GetTensorDim (dim_sizes_ input_shape) (data_format params) "H";
  OP_REQUIRES (negb (int_max <=? input_rows_raw)) else (InvalidArgument "Input rows too large");
  let input_rows := i32 input_rows_raw in
  filter_rows_raw ← dim_size 0 filter_shape;
  let filter_rows := i32 filter_rows_raw in
  input_cols_raw ← GetTensorDim (dim_sizes_ input_shape) (data_format params) "W";
  OP_REQUIRES (negb (int_max <=? input_cols_raw)) else (InvalidArgument "Input cols too large");
  let input_cols := i32 input_cols_raw in
  filter_cols_raw ← dim_size 1 filter_shape;
  let filter_cols := i32 filter_cols_raw in
  batch_raw ← GetTensorDim (dim_sizes_ input_shape) (data_format params) "N";
  OP_REQUIRES (negb (int_max <=? batch_raw)) else (InvalidArgument "batch is too large");
  stride_rows ← GetTensorDim (strides params) (data_format params) "H";
  stride_cols ← GetTensorDim (strides params) (data_format params) "W";
  dilation_rows ← GetTensorDim (dilations params) (data_format params) "H";
  dilation_cols ← GetTensorDim (dilations params) (data_format params) "W";
  pad_rows ← initial_padding params "H";
  pad_cols ← initial_padding params "W";
  rows <-? windowed_or (GetWindowedOutputSizeVerboseV2 input_rows filter_rows dilation_rows stride_rows (padding params) pad_rows);
  cols <-? windowed_or (GetWindowedOutputSizeVerboseV2 input_cols filter_cols dilation_cols stride_cols (padding params) pad_cols);
  gives (mk_Conv2DDimensions (i32 batch_raw) input_rows input_cols in_depth filter_rows filter_cols patch_depth out_depth
           stride_rows stride_cols dilation_rows dilation_cols rows cols).

(** The shape of the output ([ConvShapeHelper::GetOutputShapes]). *)
Definition conv_output_shape (params : Conv2DParameters) (d : Conv2DDimensions) : result TensorShape :=
  ShapeFromFormat (data_format params) (batch d) [output_size (rows d); output_size (cols d)] (out_depth d).

(** ** Gradients *)

Record ConvBackpropSpatialDimension := mk_ConvBackpropSpatialDimension {
  input_size : Z;
  filter_size : Z;
  sd_output_size : Z;
  stride : Z;
  dilation : Z;
  expanded_output_size : Z;
  pad_before : Z;
  pad_after : Z
}.

Record ConvBackpropDimensions := mk_ConvBackpropDimensions {
  spatial_dims : list ConvBackpropSpatialDimension;
  batch_size : Z;
  bp_in_depth : Z;
  bp_out_depth : Z
}.

(** [ConvBackpropDimensions::SpatialPadding], truncated to an [int]. *)
Definition SpatialPadding (dims : ConvBackpropDimensions) (padding : Padding) (dim : Z) : result Z :=
  d ← at_ (spatial_dims dims) dim;
  mret (if bool_decide (padding = VALID) then 0
        else Z.max 0 (i32 (i64 (i64 (i64 (i64 (i64 (sd_output_size d - 1) * stride d) + i64 (i64 (filter_size d - 1) * dilation d)) + 1) - input_size d)))).

Definition ConvBackpropExtractAndVerifyDimension (label : string) (input_shape filter_shape output_shape : TensorShape) (dilations strides : list Z)
    (padding : Padding) (padding_before padding_after spatial_dim filter_spatial_dim : Z) : result (StatusOr ConvBackpropSpatialDimension) :=
  input_size ← dim_size spatial_dim input_shape;
  filter_size ← dim_size filter_spatial_dim filter_shape;
  output_size ← dim_size spatial_dim output_shape;
  stride ← at_ strides spatial_dim;
  dilation ← at_ dilations spatial_dim;
  w <-? windowed_or (GetWindowedOutputSizeVerboseV2 input_size filter_size dilation stride padding (mk_windowed 0 padding_before padding_after));
  let out_size := WindowedOutput.output_size w in
  let padding_before := WindowedOutput.padding_before w in
  OP_REQUIRES (output_size =? out_size)
    else (InvalidArgument (label +:+ ": Size of out_backprop doesn't match computed: actual = " +:+ pretty output_size +:+ ", computed = " +:+ pretty out_size +:+
       " spatial_dim: " +:+ pretty spatial_dim +:+ " input: " +:+ pretty input_size +:+ " filter: " +:+ pretty filter_size +:+
       " output: " +:+ pretty output_size +:+ " stride: " +:+ pretty stride +:+ " dilation: " +:+ pretty dilation));
  let effective_filter_size := i64 (i64 (i64 (filter_size - 1) * dilation) + 1) in
  let expanded_output_size := i64 (i64 (i64 (output_size - 1) * stride) + 1) in
  let padded_out_size := i64 (i64 (input_size + effective_filter_size) - 1) in
  let pad_before := i64 (i64 (effective_filter_size - 1) - padding_before) in
  gives (mk_ConvBackpropSpatialDimension input_size filter_size output_size stride dilation expanded_output_size pad_before
           (i64 (i64 (padded_out_size - expanded_output_size) - pad_before))).

(** The loop over the spatial dimensions. *)
Fixpoint backprop_dims (label : string) (num_dims : Z) (input_shape filter_shape out_backprop_shape : TensorShape) (dilations strides : list Z)
    (padding : Padding) (explicit_paddings : list Z) (data_format : TensorFormat) (l : list Z) : result (StatusOr (list ConvBackpropSpatialDimension)) :=
  match l with
  | [] => gives []
  | i :: l =>
      image_dim ← GetTensorSpatialDimIndex num_dims data_format i;
      '(padding_before, padding_after) ← (if bool_decide (padding = EXPLICIT) then
          before ← at_ explicit_paddings (2 * image_dim); after ← at_ explicit_paddings (2 * image_dim + 1); mret (before, after)
        else mret (-1, -1));
      d <-? ConvBackpropExtractAndVerifyDimension label input_shape filter_shape out_backprop_shape dilations strides padding
              padding_before padding_after image_dim i;
      ds <-? backprop_dims label num_dims input_shape filter_shape out_backprop_shape dilations strides padding explicit_paddings data_format l;
      gives (d :: ds)
  end.

Definition ConvBackpropComputeDimensionsV2 (label : string) (num_spatial_dims : Z) (input_shape filter_shape out_backprop_shape : TensorShape)
    (dilations strides : list Z) (padding : Padding) (explicit_paddings : list Z) (data_format : TensorFormat) : result (StatusOr ConvBackpropDimensions) :=
  let num_dims := num_spatial_dims + 2 in
  OP_REQUIRES (dims input_shape =? num_dims) else (InvalidArgument (label +:+ ": input must be " +:+ pretty num_dims +:+ "-dimensional"));
  OP_REQUIRES (dims filter_shape =? num_dims) else (InvalidArgument (label +:+ ": filter must be " +:+ pretty num_dims +:+ "-dimensional"));
  OP_REQUIRES (dims out_backprop_shape =? num_dims) else (InvalidArgument (label +:+ ": out_backprop must be " +:+ pretty num_dims +:+ "-dimensional"));
  let batch_dim := GetTensorBatchDimIndex num_dims data_format in
  batch_size ← dim_size batch_dim input_shape;
  out_batch_size ← dim_size batch_dim out_backprop_shape;
  OP_REQUIRES (batch_size =? out_batch_size)
    else (InvalidArgument (label +:+ ": input and out_backprop must have the same batch size. Input batch: " +:+ pretty batch_size +:+
       ", outbackprop batch: " +:+ pretty out_batch_size +:+ ", batch_dim: " +:+ pretty batch_dim));
  let feature_dim := GetTensorFeatureDimIndex num_dims data_format in
  in_depth ← dim_size feature_dim input_shape;
  filter_depth ← dim_size (num_dims - 2) filter_shape;
  OP_REQUIRES (negb (filter_depth <=? 0)) else (InvalidArgument (label +:+ ": filter depth must be strictly greated than zero"));
  OP_REQUIRES (Z.rem in_depth filter_depth =? 0) else (InvalidArgument (label +:+ ": input depth must be evenly divisible by filter depth"));
  out_depth ← dim_size (num_dims - 1) filter_shape;
  out_backprop_depth ← dim_size feature_dim out_backprop_shape;
  OP_REQUIRES (out_depth =? out_backprop_depth) else (InvalidArgument (label +:+ ": filter and out_backprop must have the same out_depth"));
  spatial_dims <-? backprop_dims label num_dims input_shape filter_shape out_backprop_shape dilations strides padding explicit_paddings data_format
                     (count_up num_spatial_dims);
  gives (mk_ConvBackpropDimensions spatial_dims batch_size in_depth out_depth).
