(* ===== verification/ConvInit.v ===== *)
(** * ConvInit: the initialization helpers of the convolution kernels

    kernels/dml_conv_ops.cc: depthwise and three-dimensional convolutions, the
    gradients, and what the kernels hand to DirectML as the descriptions of their
    convolutions.  Tensors are given by their shapes, those in host memory by
    their values as well. *)

From stdpp Require Import pretty.
From Stdlib Require Import Ascii.
From S2P Require Import Prelude Vec TensorShape TensorFormat WindowedOutput Kernel ConvDims.
#[local] Open Scope string_scope.
#[local] Open Scope list_scope.
#[local] Open Scope Z_scope.
#[local] Open Scope kernel_scope.

Definition uint_max : Z := 2 ^ 32 - 1.

(** ** Descriptions for DirectML

    The fields of DML_CONVOLUTION_OPERATOR_DESC that the kernels compute. *)
Record convolution_desc := mk_convolution_desc {
  Strides : list Z;
  Dilations : list Z;
  StartPadding : list Z;
  EndPadding : list Z;
  GroupCount : Z
}.

(** [DmlConv2DKernel] *)
Definition conv2d_desc (d : Conv2DDimensions) : convolution_desc :=
  mk_convolution_desc [u32 (stride_rows d); u32 (stride_cols d)] [u32 (dilation_rows d); u32 (dilation_cols d)]
    [u32 (padding_before (rows d)); u32 (padding_before (cols d))] [u32 (padding_after (rows d)); u32 (padding_after (cols d))]
    (u32 (Z.quot (in_depth d) (patch_depth d))).

(** [DmlConv2DBackpropFilterKernel]: the gradient of the output takes the place
    of the filter, so that strides and dilations change roles. *)
Definition conv2d_filter_gradient_desc (d : Conv2DDimensions) : convolution_desc :=
  let c := conv2d_desc d in mk_convolution_desc (Dilations c) (Strides c) (StartPadding c) (EndPadding c) (GroupCount c).

(** The channels of the input that this kernel joins for the [i]-th channel of
    each group. *)
Definition grouped_channels (group_count i : Z) : list Z := map (fun j => u32 (i + u32 (group_count * j))) (count_up group_count).

(** ** The gradient of the input *)

Definition Conv2DBackpropComputeInputShape (input_sizes : int_tensor) (filter_shape out_backprop_shape : TensorShape) (data_format : TensorFormat)
    : result (StatusOr TensorShape) :=
  OP_REQUIRES (IsVector (t_shape input_sizes))
    else (InvalidArgument ("Conv2DBackpropInput: input_sizes input must be 1-dim, not " +:+ pretty (dims (t_shape input_sizes))));
  n ← dim_size 0 (t_shape input_sizes);
  if n =? 4 then
    let '(status, input_shape) := MakeShape input_sizes make_TensorShape in
    if status_ok status then gives input_shape else fails status
  else if n =? 2 then
    batch_size ← GetTensorDim (dim_sizes_ out_backprop_shape) data_format "N";
    output_height ← at_ (t_values input_sizes) 0;
    output_width ← at_ (t_values input_sizes) 1;
    output_depth ← dim_size 2 filter_shape;
    shape ← ShapeFromFormat data_format (i32 batch_size) [i32 output_height; i32 output_width] (i32 output_depth);
    gives shape
  else fails (InvalidArgument ("Conv2DBackpropInput requires input_sizes to contain 4 values or 2 values, but got: " +:+ pretty n)).

(** [Conv2DGradInputInitHelper]; its numbers are [uint32_t]. *)
Record Conv2DGradInput := mk_Conv2DGradInput {
  gi_output_shape : TensorShape;
  gi_strides : list Z;
  gi_dilations : list Z;
  gi_start_padding : list Z;
  gi_end_padding : list Z;
  gi_input_depth : Z;
  gi_patch_depth : Z
}.

Definition Conv2DGradInputInitHelper (params : Conv2DParameters) (input_sizes : int_tensor) (filter_shape out_backprop_shape : TensorShape)
    : result (StatusOr Conv2DGradInput) :=
  output_shape <-? Conv2DBackpropComputeInputShape input_sizes filter_shape out_backprop_shape (data_format params);
  dims <-? ConvBackpropComputeDimensionsV2 "Conv2DBackpropInput" 2 output_shape filter_shape out_backprop_shape
             (dilations params) (strides params) (padding params) (explicit_paddings params) (data_format params);
  pad_rows ← initial_padding params "H";
  pad_cols ← initial_padding params "W";
  stride_rows ← GetTensorDim (strides params) (data_format params) "H";
  stride_cols ← GetTensorDim (strides params) (data_format params) "W";
  dilation_rows ← GetTensorDim (dilations params) (data_format params) "H";
  dilation_cols ← GetTensorDim (dilations params) (data_format params) "W";
  d0 ← at_ (spatial_dims dims) 0;
  rows <-? windowed_or (GetWindowedOutputSizeVerboseV2 (input_size d0) (filter_size d0) dilation_rows stride_rows (padding params) pad_rows);
  ASSERT (sd_output_size d0 =? output_size rows);;
  d1 ← at_ (spatial_dims dims) 1;
  cols <-? windowed_or (GetWindowedOutputSizeVerboseV2 (input_size d1) (filter_size d1) dilation_cols stride_cols (padding params) pad_cols);
  ASSERT (sd_output_size d1 =? output_size cols);;
  patch_depth ← dim_size 2 filter_shape;
  gives (mk_Conv2DGradInput output_shape [u32 stride_rows; u32 stride_cols] [u32 dilation_rows; u32 dilation_cols]
           [u32 (padding_before rows); u32 (padding_before cols)] [u32 (padding_after rows); u32 (padding_after cols)]
           (u32 (bp_in_depth dims)) (u32 patch_depth)).

(** [DmlConv2DBackpropInputKernel]: a convolution backwards. *)
Definition conv2d_input_gradient_desc (h : Conv2DGradInput) : result convolution_desc :=
  if gi_patch_depth h =? 0 then Fault DivByZero
  else mret (mk_convolution_desc (gi_strides h) (gi_dilations h) (gi_start_padding h) (gi_end_padding h) (gi_input_depth h / gi_patch_depth h)).

(** ** Depthwise convolutions *)

(** [DepthwiseConv2DNativeInitHelper::Attributes]; rows first. *)
Record DepthwiseAttributes := mk_DepthwiseAttributes {
  dw_data_format : TensorFormat;
  dw_padding : Padding;
  dw_strides : Z * Z;
  dw_dilations : Z * Z;
  dw_explicit_paddings : list Z
}.

(** The dilations of batch and depth are read from the strides. *)
Definition make_DepthwiseAttributes (ctx : OpKernelConstruction) : result (StatusOr DepthwiseAttributes) :=
  strides <-? mret (GetAttr_int32s ctx "strides");
  dilations <-? mret (GetAttr_int32s ctx "dilations");
  data_format_attr <-? mret (GetAttr_string ctx "data_format");
  match FormatFromString data_format_attr with
  | None => fails (InvalidArgument "Invalid data format")
  | Some data_format =>
      OP_REQUIRES (size_ strides =? 4) else (InvalidArgument "Sliding window strides field must specify 4 dimensions");
      OP_REQUIRES (size_ dilations =? 4) else (InvalidArgument "Sliding window dilations field must specify 4 dimensions");
      stride_h ← GetTensorDim strides data_format "H";
      stride_w ← GetTensorDim strides data_format "W";
      stride_n ← GetTensorDim strides data_format "N";
      stride_c ← GetTensorDim strides data_format "C";
      OP_REQUIRES ((stride_n =? 1) && (stride_c =? 1))
        else (InvalidArgument "Current implementation does not yet support strides in the batch and depth dimensions.");
      dilation_h ← GetTensorDim dilations data_format "H";
      dilation_w ← GetTensorDim dilations data_format "W";
      dilation_n ← GetTensorDim strides data_format "N";
      dilation_c ← GetTensorDim strides data_format "C";
      OP_REQUIRES ((dilation_n =? 1) && (dilation_c =? 1))
        else (InvalidArgument "Current implementation does not yet support strides in the batch and depth dimensions.");
      padding <-? mret (GetAttr_Padding ctx "padding");
      explicit_paddings <-? mret (GetAttr_int64s ctx "explicit_paddings");
      OP_REQUIRES_OK CheckValidPadding padding explicit_paddings 4 data_format;
      gives (mk_DepthwiseAttributes data_format padding (stride_h, stride_w) (dilation_h, dilation_w) explicit_paddings)
  end.

Definition depthwise_padding (attr : DepthwiseAttributes) (dimension : ascii) : result windowed :=
  if bool_decide (dw_padding attr = EXPLICIT) then
    '(before, after) ← GetExplicitPaddingForDim (dw_explicit_paddings attr) (dw_data_format attr) dimension;
    mret (mk_windowed 0 before after)
  else mret (mk_windowed 0 0 0).

(** [DepthwiseConv2DNativeInitHelper] *)
Record DepthwiseInit := mk_DepthwiseInit {
  di_batch : Z;
  di_in_depth : Z;
  di_out_depth : Z;
  di_group_count : Z;
  di_filter_rows : Z;
  di_filter_cols : Z;
  di_rows : windowed;
  di_cols : windowed
}.

Definition DepthwiseConv2DNativeInitHelper (attr : DepthwiseAttributes) (input filter : TensorShape) : result (StatusOr DepthwiseInit) :=
  OP_REQUIRES (dims input =? 4) else (InvalidArgument ("input must be 4-dimensional" +:+ DebugString input));
  OP_REQUIRES (dims filter =? 4) else (InvalidArgument ("filter must be 4-dimensional: " +:+ DebugString filter));
  in_depth ← GetTensorDim (dim_sizes_ input) (dw_data_format attr) "C";
  filter_depth ← dim_size 2 filter;
  OP_REQUIRES (in_depth =? filter_depth)
    else (InvalidArgument ("input and filter must have the same depth: " +:+ pretty in_depth +:+ " vs " +:+ pretty filter_depth));
  depth_multiplier ← dim_size 3 filter;
  input_rows_raw ← GetTensorDim (dim_sizes_ input) (dw_data_format attr) "H";
  OP_REQUIRES (input_rows_raw <? int_max) else (InvalidArgument "Input rows too large");
  filter_rows ← dim_size 0 filter;
  input_cols_raw ← GetTensorDim (dim_sizes_ input) (dw_data_format attr) "W";
  OP_REQUIRES (input_cols_raw <? int_max) else (InvalidArgument "Input cols too large");
  filter_cols ← dim_size 1 filter;
  batch ← dim_size 0 input;
  pad_rows ← depthwise_padding attr "H";
  pad_cols ← depthwise_padding attr "W";
  rows <-? windowed_or (GetWindowedOutputSizeVerboseV2 (i32 input_rows_raw) (i32 filter_rows) (dw_dilations attr).1 (dw_strides attr).1 (dw_padding attr) pad_rows);
  cols <-? windowed_or (GetWindowedOutputSizeVerboseV2 (i32 input_cols_raw) (i32 filter_cols) (dw_dilations attr).2 (dw_strides attr).2 (dw_padding attr) pad_cols);
  gives (mk_DepthwiseInit batch in_depth (i64 (in_depth * i32 depth_multiplier)) (i32 filter_depth) (i32 filter_rows) (i32 filter_cols) rows cols).

(** The loop over the sizes of the tensor whose gradient is asked for. *)
Fixpoint add_dims (backprop_sizes_name : string) (i : Z) (sizes : list Z) (shape : TensorShape) : StatusOr TensorShape :=
  match sizes with
  | [] => inr shape
  | d :: sizes =>
      if 0 <=? d then add_dims backprop_sizes_name (i + 1) sizes (AddDim d shape)
      else inl (InvalidArgument ("Dimension " +:+ pretty i +:+ " of " +:+ backprop_sizes_name +:+ " must be >= 0"))
  end.

(** [DepthwiseConv2DBackpropInitHelper]: heights before widths; rows and columns
    have their paddings as [uint32_t]. *)
Record DepthwiseBackprop := mk_DepthwiseBackprop {
  db_batch_size : Z;
  db_in_channels : Z;
  db_in : Z * Z;
  db_filter : Z * Z;
  db_out_channels : Z;
  db_out : Z * Z;
  db_pad_before : Z * Z;
  db_pad_after : Z * Z
}.

(** [backprop_input] is [BackpropTensorIndex == 0]. *)
Definition DepthwiseConv2DBackpropInitHelper (backprop_input : bool) (attr : DepthwiseAttributes) (backprop_sizes : int_tensor)
    (non_backprop_tensor_shape out_backprop : TensorShape) : result (StatusOr DepthwiseBackprop) :=
  let label := if backprop_input then "Conv2DBackpropInput" else "Conv2DBackpropFilter" in
  let backprop_sizes_name := if backprop_input then "input_sizes" else "filter_sizes" in
  OP_REQUIRES (IsVector (t_shape backprop_sizes))
    else (InvalidArgument (label +:+ ":" +:+ backprop_sizes_name +:+ " input must be 1-dim, not " +:+ pretty (dims (t_shape backprop_sizes))));
  backprop_tensor_shape <-? mret (add_dims backprop_sizes_name 0 (t_values backprop_sizes) make_TensorShape);
  let input_shape := if backprop_input then backprop_tensor_shape else non_backprop_tensor_shape in
  let filter_shape := if backprop_input then non_backprop_tensor_shape else backprop_tensor_shape in
  OP_REQUIRES (dims input_shape =? 4) else (InvalidArgument (label +:+ ": input must be 4-dimensional"));
  OP_REQUIRES (dims filter_shape =? 4) else (InvalidArgument (label +:+ ": filter must be 4-dimensional"));
  OP_REQUIRES (dims out_backprop =? 4) else (InvalidArgument (label +:+ ": out_backprop must be 4-dimensional"));
  batch_size_raw ← dim_size 0 input_shape;
  OP_REQUIRES (batch_size_raw <? uint_max) else (InvalidArgument "Batch size too large");
  out_batch_size ← dim_size 0 out_backprop;
  OP_REQUIRES (batch_size_raw =? out_batch_size) else (InvalidArgument (label +:+ ": input and out_backprop must have the same batch size"));
  input_depth_raw ← GetTensorDim (dim_sizes_ input_shape) (dw_data_format attr) "C";
  OP_REQUIRES (input_depth_raw <? uint_max) else (InvalidArgument "Input depth too large");
  let in_channels := u32 input_depth_raw in
  input_rows_raw ← GetTensorDim (dim_sizes_ input_shape) (dw_data_format attr) "H";
  OP_REQUIRES (input_rows_raw <? uint_max) else (InvalidArgument "Input rows too large");
  input_cols_raw ← GetTensorDim (dim_sizes_ input_shape) (dw_data_format attr) "W";
  OP_REQUIRES (input_cols_raw <? uint_max) else (InvalidArgument "Input cols too large");
  filter_rows_raw ← dim_size 0 filter_shape;
  OP_REQUIRES (filter_rows_raw <? uint_max) else (InvalidArgument "Filter rows too large");
  filter_cols_raw ← dim_size 1 filter_shape;
  OP_REQUIRES (filter_cols_raw <? uint_max) else (InvalidArgument "Filter cols too large");
  filter_depth ← dim_size 2 filter_shape;
  OP_REQUIRES (in_channels =? filter_depth) else (InvalidArgument (label +:+ ": input and filter must have the same in_depth"));
  depth_multiplier ← dim_size 3 filter_shape;
  out_channels_raw ← GetTensorDim (dim_sizes_ out_backprop) (dw_data_format attr) "C";
  OP_REQUIRES (out_channels_raw <? uint_max) else (InvalidArgument "Output depth too large");
  OP_REQUIRES (i64 (depth_multiplier * in_channels) =? out_channels_raw)
    else (InvalidArgument (label +:+ ": depth_multiplier * in_depth not equal to out_depth"));
  output_rows_raw ← GetTensorDim (dim_sizes_ out_backprop) (dw_data_format attr) "H";
  OP_REQUIRES (output_rows_raw <? uint_max) else (InvalidArgument "Output rows too large");
  output_cols_raw ← GetTensorDim (dim_sizes_ out_backprop) (dw_data_format attr) "W";
  OP_REQUIRES (output_cols_raw <? uint_max) else (InvalidArgument "Output cols too large");
  pad_rows ← depthwise_padding attr "H";
  rows <-? windowed_or (GetWindowedOutputSizeVerboseV2 (u32 input_rows_raw) (i32 filter_rows_raw) (dw_dilations attr).1 (dw_strides attr).1 (dw_padding attr) pad_rows);
  OP_REQUIRES (output_size rows =? u32 output_rows_raw)
    else (InvalidArgument (label +:+ ": Number of rows of out_backprop doesn't match computed: actual = " +:+ pretty (u32 output_rows_raw) +:+
       ", computed = " +:+ pretty (output_size rows)));
  pad_cols ← depthwise_padding attr "W";
  cols <-? windowed_or (GetWindowedOutputSizeVerboseV2 (u32 input_cols_raw) (i32 filter_cols_raw) (dw_dilations attr).2 (dw_strides attr).2 (dw_padding attr) pad_cols);
  OP_REQUIRES (output_size cols =? u32 output_cols_raw)
    else (InvalidArgument (label +:+ ": Number of cols of out_backprop doesn't match computed: actual = " +:+ pretty (u32 output_cols_raw) +:+
       ", computed = " +:+ pretty (output_size cols)));
  gives (mk_DepthwiseBackprop (u32 batch_size_raw) in_channels (u32 input_rows_raw, u32 input_cols_raw) (i32 filter_rows_raw, i32 filter_cols_raw)
           (u32 out_channels_raw) (u32 output_rows_raw, u32 output_cols_raw)
           (u32 (padding_before rows), u32 (padding_before cols)) (u32 (padding_after rows), u32 (padding_after cols))).

(** ** Three-dimensional convolutions *)

(** [Conv3DAttributes]: depth, height, width. *)
Record Conv3DAttributes := mk_Conv3DAttributes {
  c3_data_format : TensorFormat;
  c3_padding : Padding;
  c3_strides : Z * Z * Z;
  c3_dilations : Z * Z * Z
}.

Definition make_Conv3DAttributes (has_data_format : bool) (context : OpKernelConstruction) : result (StatusOr Conv3DAttributes) :=
  data_format <-? (if has_data_format then
      data_format_str <-? mret (GetAttr_string context "data_format");
      match FormatFromString data_format_str with
      | None => fails (InvalidArgument "Invalid data format")
      | Some data_format => gives data_format
      end
    else gives FORMAT_NHWC);
  strides <-? mret (GetAttr_int32s context "strides");
  OP_REQUIRES (size_ strides =? 5) else (InvalidArgument "Sliding window strides field must specify 5 dimensions");
  stride_n ← GetTensorDim strides data_format "N";
  stride_c ← GetTensorDim strides data_format "C";
  stride_d ← GetTensorDim strides data_format "0";
  stride_h ← GetTensorDim strides data_format "1";
  stride_w ← GetTensorDim strides data_format "2";
  OP_REQUIRES ((stride_n =? 1) && (stride_c =? 1))
    else (InvalidArgument "Current implementation does not yet support strides in the batch and depth dimensions.");
  OP_REQUIRES ((0 <? stride_d) && (0 <? stride_h) && (0 <? stride_w)) else (InvalidArgument "Spatial strides should be larger than 0.");
  dilations <-? mret (GetAttr_int32s context "dilations");
  OP_REQUIRES (size_ dilations =? 5) else (InvalidArgument "Dilation rates field must specify 5 dimensions");
  dilation_n ← GetTensorDim dilations data_format "N";
  dilation_c ← GetTensorDim dilations data_format "C";
  dilation_d ← GetTensorDim dilations data_format "0";
  dilation_h ← GetTensorDim dilations data_format "1";
  dilation_w ← GetTensorDim dilations data_format "2";
  OP_REQUIRES ((dilation_n =? 1) && (dilation_c =? 1))
    else (InvalidArgument "Current implementation does not yet support dilation rates in the batch and depth dimensions.");
  OP_REQUIRES ((0 <? dilation_d) && (0 <? dilation_h) && (0 <? dilation_w)) else (InvalidArgument "Dilated rates should be larger than 0.");
  padding <-? mret (GetAttr_Padding context "padding");
  gives (mk_Conv3DAttributes data_format padding (stride_d, stride_h, stride_w) (dilation_d, dilation_h, dilation_w)).

(** [Conv3DInitHelper] and [Conv3DGradInitHelper] keep the same numbers, as
    [uint32_t]: the batch, the channels, the depth, height and width of input,
    filter and output, and what they pass on to DirectML. *)
Record Conv3DInit := mk_Conv3DInit {
  i3_batch_size : Z;
  i3_in_channels : Z;
  i3_in : list Z;
  i3_filter_channels : Z;
  i3_filter : list Z;
  i3_out_channels : Z;
  i3_out : list Z;
  i3_strides : list Z;
  i3_dilations : list Z;
  i3_start_padding : list Z;
  i3_end_padding : list Z
}.

Definition triple (t : Z * Z * Z) : list Z := let '(a, b, c) := t in [a; b; c].

(** The remainder by the channels of the filter is taken before the filter is
    known to have any.  The end padding is never set. *)
Definition Conv3DInitHelper (attr : Conv3DAttributes) (input filter : TensorShape) : result (StatusOr Conv3DInit) :=
  OP_REQUIRES (dims input =? 5) else (InvalidArgument "input must be 5-dimensional");
  OP_REQUIRES (dims filter =? 5) else (InvalidArgument "filter must be 5-dimensional");
  in_batch ← GetTensorDim (dim_sizes_ input) (c3_data_format attr) "N";
  in_channels ← GetTensorDim (dim_sizes_ input) (c3_data_format attr) "C";
  in_depth ← GetTensorDim (dim_sizes_ input) (c3_data_format attr) "0";
  in_height ← GetTensorDim (dim_sizes_ input) (c3_data_format attr) "1";
  in_width ← GetTensorDim (dim_sizes_ input) (c3_data_format attr) "2";
  filter_depth ← dim_size 0 filter;
  filter_height ← dim_size 1 filter;
  filter_width ← dim_size 2 filter;
  filter_channels ← dim_size 3 filter;
  out_channels ← dim_size 4 filter;
  OP_REQUIRES (negb (filter_depth =? 0)) else (InvalidArgument "filter_depth must be non-zero");
  if filter_channels =? 0 then Fault DivByZero else
  OP_REQUIRES (Z.rem in_channels filter_channels =? 0)
    else (InvalidArgument ("Input depth must be evenly divisible by filter depth: " +:+ pretty in_channels +:+ " vs " +:+ pretty filter_channels));
  OP_REQUIRES (0 <? num_elements_ filter)
    else (InvalidArgument "filter must not have zero elements (i.e. all dimensions must be non-zero)");
  let '(status, out) := Get3dOutputSizeV2 (in_depth, in_height, in_width) (filter_depth, filter_height, filter_width)
    (c3_dilations attr) (c3_strides attr) (c3_padding attr) [(0, 0); (0, 0); (0, 0)] in
  OP_REQUIRES (status_ok status) else status;
  gives (mk_Conv3DInit (u32 in_batch) (u32 in_channels) (map u32 [in_depth; in_height; in_width]) (u32 filter_channels)
           (map u32 [filter_depth; filter_height; filter_width]) (u32 out_channels) (map (fun o => u32 o.1) out)
           (map u32 (triple (c3_strides attr))) (map u32 (triple (c3_dilations attr))) (map (fun o => u32 o.2) out) [0; 0; 0]).

(** [Conv3DShapeHelper::GetOutputShapes] *)
Definition conv3d_output_shape (attr : Conv3DAttributes) (h : Conv3DInit) : result TensorShape :=
  ShapeFromFormat (c3_data_format attr) (i3_batch_size h) (i3_out h) (i3_out_channels h).

(** [backprop_input]: the gradient of the input is asked for, and [sizes] are the
    sizes of the input; otherwise those of the filter. *)
Definition Conv3DGradInitHelper (backprop_input : bool) (attr : Conv3DAttributes) (sizes : int_tensor) (other out_backprop_shape : TensorShape)
    : result (StatusOr Conv3DInit) :=
  let label := if backprop_input then "Conv3DBackpropInputOp" else "Conv3DBackpropFilterOp" in
  let '(status, shape) := MakeShape sizes make_TensorShape in
  OP_REQUIRES (status_ok status) else status;
  let input_shape := if backprop_input then shape else other in
  let filter_shape := if backprop_input then other else shape in
  let strides := if bool_decide (c3_data_format attr = FORMAT_NCHW) then [1; 1] ++ triple (c3_strides attr) else [1] ++ triple (c3_strides attr) ++ [1] in
  let dilations := if bool_decide (c3_data_format attr = FORMAT_NCHW) then [1; 1] ++ triple (c3_dilations attr) else [1] ++ triple (c3_dilations attr) ++ [1] in
  dims <-? ConvBackpropComputeDimensionsV2 label 3 input_shape filter_shape out_backprop_shape dilations strides (c3_padding attr) [] (c3_data_format attr);
  pads ← mapM (SpatialPadding dims (c3_padding attr)) [0; 1; 2];
  filter_channels ← dim_size 3 filter_shape;
  gives (mk_Conv3DInit (u32 (batch_size dims)) (u32 (bp_in_depth dims)) (map (fun d => u32 (input_size d)) (spatial_dims dims)) (u32 filter_channels)
           (map (fun d => u32 (filter_size d)) (spatial_dims dims)) (u32 (bp_out_depth dims)) (map (fun d => u32 (sd_output_size d)) (spatial_dims dims))
           (map u32 (triple (c3_strides attr))) (map u32 (triple (c3_dilations attr)))
           (map (fun p => u32 p / 2) pads) (map (fun p => u32 p / 2 + u32 p mod 2) pads)).

(** [DmlConv3DKernel], [DmlConv3DBackpropInputKernel] *)
Definition conv3d_desc (h : Conv3DInit) : result convolution_desc :=
  if i3_filter_channels h =? 0 then Fault DivByZero
  else mret (mk_convolution_desc (i3_strides h) (i3_dilations h) (i3_start_padding h) (i3_end_padding h) (i3_in_channels h / i3_filter_channels h)).
