(* ===== verification/ConvTheorems.v ===== *)
(** * ConvTheorems: convolutions accept what they can compute

    The parameters and dimensions of two-dimensional convolutions
    (kernels/dml_conv_ops.cc) against the documented meaning of formats, windows
    and groups; and the gradient of the input against the convolution itself. *)

From stdpp Require Import pretty.
From Stdlib Require Import Ascii.
From S2P Require Import Prelude Vec TensorShape TensorFormat WindowedOutput Kernel ConvDims ConvInit.
#[local] Open Scope string_scope.
#[local] Open Scope list_scope.
#[local] Open Scope Z_scope.
#[local] Open Scope kernel_scope.

(** ** Formats without grouped dimensions *)

Definition plain_format (format : TensorFormat) : Prop := GetTensorSpatialDims 4 format = 2.

(** Before and after for every dimension of [layout]. *)
Definition pads_layout (format : TensorFormat) (top bottom left right : Z) : list Z :=
  concat (zip_with (fun x y => [x; y]) (layout format 0 [top; left] 0) (layout format 0 [bottom; right] 0)).

Lemma layout_ex format l : plain_format format -> size_ l = 4 -> exists n h w c, l = layout format n [h; w] c.
Proof.
  intros Hf Hl. do 4 (destruct l as [|? l]; [done|]). destruct l; [|unfold size_ in Hl; cbn in Hl; lia].
  destruct format; try done; cbn; eauto 10.
Qed.

Lemma layout_of format l n h w c : plain_format format -> size_ l = 4 -> GetTensorDim l format "N" = Ok n -> GetTensorDim l format "C" = Ok c ->
  GetTensorDim l format "H" = Ok h -> GetTensorDim l format "W" = Ok w -> l = layout format n [h; w] c.
Proof.
  intros Hf Hl. destruct (layout_ex format l Hf Hl) as (n' & h' & w' & c' & ->). destruct format; try done; vm_compute; intros; by simplify_eq.
Qed.

Section dimensions.
  Context (format : TensorFormat) (Hf : plain_format format) (n h w c : Z).
  #[local] Notation l := (layout format n [h; w] c).

Lemma layout_size : size_ l = 4.
Proof. by destruct format. Qed.
Lemma layout_N : GetTensorDim l format "N" = Ok n.
Proof. by destruct format. Qed.
Lemma layout_C : GetTensorDim l format "C" = Ok c.
Proof. by destruct format. Qed.
Lemma layout_H : GetTensorDim l format "H" = Ok h.
Proof. by destruct format. Qed.
Lemma layout_W : GetTensorDim l format "W" = Ok w.
Proof. by destruct format. Qed.
Lemma layout_batch s : dim_sizes_ s = l -> dim_size (GetTensorBatchDimIndex 4 format) s = Ok n.
Proof. unfold dim_size, dims. intros ->. by destruct format. Qed.
Lemma layout_feature s : dim_sizes_ s = l -> dim_size (GetTensorFeatureDimIndex 4 format) s = Ok c.
Proof. unfold dim_size, dims. intros ->. by destruct format. Qed.
Lemma layout_groups : groups format [h; w] c = true.
Proof. by destruct format. Qed.
End dimensions.

Lemma layout_spatial format : plain_format format -> exists i j, GetTensorSpatialDimIndex 4 format 0 = Ok i /\ GetTensorSpatialDimIndex 4 format 1 = Ok j /\
  (forall n h w c, at_ (layout format n [h; w] c) i = Ok h /\ at_ (layout format n [h; w] c) j = Ok w) /\
  (forall s n h w c, dim_sizes_ s = layout format n [h; w] c -> dim_size i s = Ok h /\ dim_size j s = Ok w) /\
  (forall t b l r, let p := pads_layout format t b l r in
     at_ p (2 * i) = Ok t /\ at_ p (2 * i + 1) = Ok b /\ at_ p (2 * j) = Ok l /\ at_ p (2 * j + 1) = Ok r).
Proof.
  intros Hf. destruct format; try done; (eexists _, _; do 2 (split; [done|]); split; [done|]; split; [|done]);
    intros s n h w c E; unfold dim_size, dims; by rewrite E.
Qed.

Lemma pads_H format t b l r : plain_format format -> GetExplicitPaddingForDim (pads_layout format t b l r) format "H" = Ok (t, b).
Proof. by destruct format. Qed.
Lemma pads_W format t b l r : plain_format format -> GetExplicitPaddingForDim (pads_layout format t b l r) format "W" = Ok (l, r).
Proof. by destruct format. Qed.

(** ** Attributes *)

(** What the attributes of a convolution say. *)
Record conv_attrs := mk_conv_attrs {
  stride_h : Z;
  stride_w : Z;
  dilation_h : Z;
  dilation_w : Z;
  pad_h : Z * Z;
  pad_w : Z * Z
}.

Definition is_int32 (x : Z) : Prop := - 2 ^ 31 <= x < 2 ^ 31.
Definition is_pad (p : Z * Z) : Prop := 0 <= p.1 < 2 ^ 31 /\ 0 <= p.2 < 2 ^ 31.

Record has_attrs (params : Conv2DParameters) (a : conv_attrs) : Prop := {
  ha_format : plain_format (data_format params);
  ha_strides : strides params = layout (data_format params) 1 [stride_h a; stride_w a] 1;
  ha_dilations : dilations params = layout (data_format params) 1 [dilation_h a; dilation_w a] 1;
  ha_stride_h : 1 <= stride_h a < 2 ^ 31;
  ha_stride_w : 1 <= stride_w a < 2 ^ 31;
  ha_dilation_h : 1 <= dilation_h a < 2 ^ 31;
  ha_dilation_w : 1 <= dilation_w a < 2 ^ 31;
  ha_pad_h : is_pad (pad_h a);
  ha_pad_w : is_pad (pad_w a);
  ha_pads : explicit_paddings params =
    if bool_decide (padding params = EXPLICIT) then pads_layout (data_format params) (pad_h a).1 (pad_h a).2 (pad_w a).1 (pad_w a).2 else []
}.

(** Attributes have the types that the operators declare for them, and explicit
    paddings are below 2^31. *)
Record typed (context : OpKernelConstruction) : Prop := {
  ty_int32s : forall name l, GetAttr_int32s context name = inr l -> Forall is_int32 l;
  ty_int64s : forall name l, GetAttr_int64s context name = inr l -> Forall (fun x => - 2 ^ 63 <= x < 2 ^ 31) l;
  ty_errors : forall name st,
    GetAttr_string context name = inl st \/ GetAttr_int32s context name = inl st \/ GetAttr_int64s context name = inl st -> status_ok st = false
}.

Lemma is_int32_elem l x : Forall is_int32 l -> x ∈ l -> is_int32 x.
Proof. rewrite Forall_forall. auto. Qed.

Lemma padding_ok_layout l format : plain_format format -> padding_ok l 4 format -> Forall (fun x => x < 2 ^ 31) l ->
  exists ph pw, is_pad ph /\ is_pad pw /\ l = pads_layout format ph.1 ph.2 pw.1 pw.2.
Proof.
  intros Hf (Hs & Hp & Hz) Hl. do 8 (destruct l as [|? l]; [done|]). destruct l; [|unfold size_ in Hs; cbn in Hs; lia].
  rewrite !Forall_cons in Hp, Hl. pose proof (Hz _ (or_introl eq_refl)) as Hb. pose proof (Hz _ (or_intror eq_refl)) as Hc.
  destruct format; try done; vm_compute in Hb, Hc; destruct_and!; simplify_eq.
  - exists (z1, z2), (z3, z4). unfold is_pad; cbn. split_and!; lia || done.
  - exists (z3, z4), (z5, z6). unfold is_pad; cbn. split_and!; lia || done.
  - exists (z, z0), (z1, z2). unfold is_pad; cbn. split_and!; lia || done.
  - exists (z, z0), (z1, z2). unfold is_pad; cbn. split_and!; lia || done.
Qed.

Lemma InitConv2DParameters_attrs context params : typed context -> InitConv2DParameters context = Ok (inr params) -> plain_format (data_format params) ->
  exists a, has_attrs params a.
Proof.
  intros [Ht1 Ht2 _] H Hf. unfold InitConv2DParameters in H. do 5 take_step H.
  destruct (FormatFromString _) as [format|]; [|done]. repeat take_step H. injection H as <-. cbn [data_format] in Hf.
  bool_to_prop. subst.
  assert (x0 = layout format 1 [x6; x7] 1) as Es by (by apply layout_of). assert (x = layout format 1 [x10; x11] 1) as Ed by (by apply layout_of).
  injection H0 as Hd. injection H1 as Hs. apply Ht1 in Hd, Hs.
  assert (is_int32 x6 /\ is_int32 x7) as [[_ ?] [_ ?]] by (rewrite Es in Hs; split; (eapply is_int32_elem; [exact Hs|]); destruct format; set_solver).
  assert (is_int32 x10 /\ is_int32 x11) as [[_ ?] [_ ?]] by (rewrite Ed in Hd; split; (eapply is_int32_elem; [exact Hd|]); destruct format; set_solver).
  assert (Forall (fun x => x < 2 ^ 31) x2) as Hx2.
  { destruct (HasAttr _ _); [|injection H3 as <-; constructor]. injection H3 as H3. eapply Forall_impl; [by eapply Ht2|]. cbn. lia. }
  destruct (CheckValidPadding_decides x1 x2 4 format ltac:(lia)) as (st & E & Hst). rewrite H19 in E. injection E as <-. apply Hst in H20.
  assert (exists ph pw, is_pad ph /\ is_pad pw /\ x2 = if bool_decide (x1 = EXPLICIT) then pads_layout format ph.1 ph.2 pw.1 pw.2 else []) as (ph & pw & Hph & Hpw & Ep).
  { case_bool_decide; [by apply padding_ok_layout|]. by exists (0, 0), (0, 0). }
  exists (mk_conv_attrs x6 x7 x10 x11 ph pw). split; cbn; lia || done.
Qed.

Lemma GetTensorDim_returns {T} (l : list T) format c : size_ l = 4 -> c ∈ ["N"; "C"; "H"; "W"]%char -> exists x, GetTensorDim l format c = Ok x.
Proof.
  intros Hl Hc. do 4 (destruct l as [|? l]; [done|]). destruct l; [|unfold size_ in Hl; cbn in Hl; lia].
  rewrite !elem_of_cons in Hc. destruct Hc as [->|[->|[->|[->|[]%elem_of_nil]]]]; destruct format; eexists; vm_compute; reflexivity.
Qed.

Lemma InitConv2DParameters_returns context : exists r, InitConv2DParameters context = Ok r.
Proof.
  unfold InitConv2DParameters, attempt, op_requires, op_requires_ok, fails, gives. cbn [mbind result_bind mret result_ret].
  destruct (GetAttr_int32s _ "dilations") as [?|d]; [by eexists|]. destruct (GetAttr_int32s _ "strides") as [?|s]; [by eexists|].
  destruct (GetAttr_Padding _ _) as [?|p]; [by eexists|].
  assert (exists r, (if HasAttr context "explicit_paddings" then mret (GetAttr_int64s context "explicit_paddings") else mret (inr [])) = Ok r) as [[?|e] ->]
    by (destruct (HasAttr _ _); by eexists); [by eexists|].
  destruct (GetAttr_string _ _) as [?|f]; [by eexists|]. destruct (FormatFromString f) as [format|]; [|by eexists].
  destruct (Z.eqb_spec (size_ d) 4) as [Hd|]; [|by eexists]. destruct (Z.eqb_spec (size_ s) 4) as [Hs|]; [|by eexists].
  assert (forall l c, size_ l = 4 -> c ∈ ["N"; "C"; "H"; "W"]%char -> exists x : Z, GetTensorDim l format c = Ok x) as Hg by (intros; by apply GetTensorDim_returns).
  repeat match goal with
  | |- context [GetTensorDim ?l format ?c] => destruct (Hg l c) as [? ->]; [done|set_solver|]; cbn [mbind result_bind]
  | |- context [if ?b then _ else _] => destruct b; [|by eexists]
  end.
  destruct (CheckValidPadding_decides p e 4 format ltac:(lia)) as (st & -> & _). cbn. destruct (status_ok st); by eexists.
Qed.

(** ** Windows of one dimension *)

Definition padding_given (padding : Padding) (pad : Z * Z) : Z * Z := match padding with EXPLICIT => pad | _ => (0, 0) end.

(** The filter spans less than two strides more than the padded input. *)
Definition windows_fit (padding : Padding) (input filter dilation stride : Z) (pad : Z * Z) : Prop :=
  padding = SAME \/ let p := padding_given padding pad in span filter dilation < input + p.1 + p.2 + 2 * stride.

(** [w] counts the windows, with the padding that [padding] stands for. *)
Record window_spec (padding : Padding) (input filter dilation stride : Z) (pad : Z * Z) (w : windowed) : Prop := {
  ws_nonneg : 0 <= output_size w;
  ws_count : forall n, 1 <= n -> n <= output_size w <-> fit (span filter dilation) stride (padded input w) n;
  ws_padding : match padding with
    | SAME => output_size w = Z.quot (input + stride - 1) stride /\ padding_before w <= padding_after w <= padding_before w + 1 /\
        padding_before w + padding_after w = needed input (span filter dilation) stride (output_size w)
    | _ => (padding_before w, padding_after w) = padding_given padding pad
    end
}.

Definition window_ok_for (input filter dilation stride : Z) (pad : Z * Z) : Prop := window_ok input filter dilation stride pad.1 pad.2.

(** Only explicit padding is read from the record that is given. *)
Lemma windowed_reads_explicit input filter dilation stride padding pad out :
  padding_given padding pad = padding_given padding (padding_before out, padding_after out) ->
  windowed_or (GetWindowedOutputSizeVerboseV2 input filter dilation stride padding out) =
  windowed_or (GetWindowedOutputSizeVerboseV2 input filter dilation stride padding
    (mk_windowed 0 (padding_given padding pad).1 (padding_given padding pad).2)).
Proof.
  unfold GetWindowedOutputSizeVerboseV2, padding_given. intros E. destruct (Z.leb_spec stride 0); [done|]. destruct (Z.ltb_spec dilation 1); [done|].
  destruct padding; cbn in E |- *; [done|done|]. by rewrite E.
Qed.

Lemma window_decides padding input filter dilation stride pad : window_ok_for input filter dilation stride pad ->
  let m := windowed_or (GetWindowedOutputSizeVerboseV2 input filter dilation stride padding (mk_windowed 0 (padding_given padding pad).1 (padding_given padding pad).2)) in
  decides m (windows_fit padding input filter dilation stride pad) (fun w => window_spec padding input filter dilation stride pad w /\ m = Ok (inr w)).
Proof.
  intros H m. subst m. set (p := padding_given padding pad). set (out := mk_windowed 0 p.1 p.2).
  assert (window_ok input filter dilation stride (padding_before out) (padding_after out)) as Hw.
  { unfold out, p, padding_given, window_ok_for in *. destruct H. destruct padding; split; cbn; lia. }
  destruct (windowed_output_counts input filter dilation stride padding out Hw) as (st & w & -> & Hc & Hp). cbn [windowed_or].
  assert (status_ok st = true <-> windows_fit padding input filter dilation stride pad) as Hst.
  { unfold windows_fit. destruct padding; cbn in Hp |- *.
    - destruct Hp as (H1 & H2 & ->). unfold padded. rewrite H1, H2. cbn. naive_solver lia.
    - destruct Hp as (-> & _). naive_solver.
    - destruct Hp as (H1 & H2 & ->). unfold padded. rewrite H1, H2. cbn. unfold p. cbn. naive_solver. }
  unfold decides. destruct (status_ok st) eqn:E; [left|right].
  - split; [by apply Hst|]. exists w. destruct (Hc eq_refl) as [Hn Hf]. split; [done|]. split; [|done]. split; [done|done|].
    destruct padding; cbn in *; [by destruct Hp as (-> & -> & _)|by destruct Hp as (_ & Hp)|]. destruct Hp as (-> & -> & _). by destruct pad.
  - split; [by intros ?%Hst|]. by exists st.
Qed.

(** ** Two-dimensional convolutions *)

(** The sizes of the input and the filter. *)
Record conv_sizes := mk_conv_sizes {
  s_batch : Z;
  s_height : Z;
  s_width : Z;
  s_channels : Z;
  f_height : Z;
  f_width : Z;
  f_channels : Z;
  f_outputs : Z
}.

Definition has_sizes (format : TensorFormat) (input filter : TensorShape) (s : conv_sizes) : Prop :=
  dim_sizes_ input = layout format (s_batch s) [s_height s; s_width s] (s_channels s) /\
  dim_sizes_ filter = [f_height s; f_width s; f_channels s; f_outputs s].

(** What is accepted: a filter that is not empty, groups of channels of the size
    of the filter, outputs for each of them, and windows that fit. *)
Record conv_accepts (params : Conv2DParameters) (a : conv_attrs) (s : conv_sizes) : Prop := {
  ca_input : s_batch s < int_max /\ s_height s < int_max /\ s_width s < int_max /\ s_channels s < int_max;
  ca_filter : 1 <= f_height s < int_max /\ 1 <= f_width s < int_max /\ 1 <= f_channels s < int_max /\ 1 <= f_outputs s;
  ca_groups : exists g, 1 <= g /\ s_channels s = g * f_channels s /\ (g | f_outputs s);
  ca_rows : windows_fit (padding params) (s_height s) (f_height s) (dilation_h a) (stride_h a) (pad_h a);
  ca_cols : windows_fit (padding params) (s_width s) (f_width s) (dilation_w a) (stride_w a) (pad_w a)
}.

Definition windowed_call (padding : Padding) (input filter dilation stride : Z) (pad : Z * Z) : result (StatusOr windowed) :=
  windowed_or (GetWindowedOutputSizeVerboseV2 input filter dilation stride padding (mk_windowed 0 (padding_given padding pad).1 (padding_given padding pad).2)).

(** The dimensions that come out. *)
Definition conv_dims (a : conv_attrs) (s : conv_sizes) (r c : windowed) : Conv2DDimensions :=
  mk_Conv2DDimensions (s_batch s) (s_height s) (s_width s) (s_channels s) (f_height s) (f_width s) (f_channels s) (f_outputs s)
    (stride_h a) (stride_w a) (dilation_h a) (dilation_w a) r c.

Lemma initial_padding_given params a : has_attrs params a ->
  exists wh ww, initial_padding params "H" = Ok wh /\ initial_padding params "W" = Ok ww /\
    padding_given (padding params) (pad_h a) = padding_given (padding params) (padding_before wh, padding_after wh) /\
    padding_given (padding params) (pad_w a) = padding_given (padding params) (padding_before ww, padding_after ww).
Proof.
  intros H. unfold initial_padding. rewrite (ha_pads _ _ H). case_bool_decide as E.
  - rewrite pads_H, pads_W by apply H. eexists _, _. split; [done|]. split; [done|]. rewrite E. destruct (pad_h a), (pad_w a). done.
  - eexists _, _. split; [done|]. split; [done|]. by destruct (padding params).
Qed.

Lemma filter_window_ok padding input filter dilation stride pad : 0 <= input < int_max -> 1 <= filter < int_max -> 1 <= dilation < 2 ^ 31 ->
  1 <= stride < 2 ^ 31 -> is_pad pad -> window_ok_for input filter dilation stride (padding_given padding pad) /\ window_ok_for input filter dilation stride pad.
Proof.
  unfold int_max, is_pad, window_ok_for. intros Hi Hf Hd Hs [Hb Ha]. assert (span filter dilation <= (2 ^ 31 - 3) * (2 ^ 31 - 1) + 1) as Hsp by (unfold span; nia).
  split; [|split; lia]. destruct padding; cbn; split; cbn; lia.
Qed.

Lemma filter_dims filter a b c d : dim_sizes_ filter = [a; b; c; d] ->
  dim_size 0 filter = Ok a /\ dim_size 1 filter = Ok b /\ dim_size 2 filter = Ok c /\ dim_size 3 filter = Ok d.
Proof. unfold dim_size, dims. by intros ->. Qed.

Lemma filter_fits_spec filter a b c d : dim_sizes_ filter = [a; b; c; d] ->
  exists small, filter_fits filter [0; 1; 2] = Ok small /\ (small = true <-> a < int_max /\ b < int_max /\ c < int_max).
Proof.
  intros E. destruct (filter_dims _ _ _ _ _ E) as (Ha & Hb & Hc & _). unfold filter_fits. rewrite Ha, Hb, Hc. cbn.
  destruct (Z.leb_spec int_max a), (Z.leb_spec int_max b), (Z.leb_spec int_max c); eexists; (split; [reflexivity|]); naive_solver lia.
Qed.

Lemma has_sizes_ex format input filter : plain_format format -> dims input = 4 -> dims filter = 4 -> exists s, has_sizes format input filter s.
Proof.
  intros Hf Hi Hd. destruct (layout_ex format (dim_sizes_ input) Hf Hi) as (n & h & w & c & Ei).
  unfold dims in Hd. destruct (dim_sizes_ filter) as [|a [|b [|x [|y []]]]] eqn:E; cbn in Hd; try lia. by exists (mk_conv_sizes n h w c a b x y).
Qed.

Lemma has_sizes_unique format input filter s s' : plain_format format -> has_sizes format input filter s -> has_sizes format input filter s' -> s = s'.
Proof.
  intros Hf [Hi Hd] [Hi' Hd']. rewrite Hi in Hi'. rewrite Hd in Hd'. destruct s, s'. cbn in *. injection Hd' as -> -> -> ->.
  destruct format; try done; cbn in Hi'; by injection Hi' as -> -> -> ->.
Qed.

Lemma has_sizes_dims format input filter s : plain_format format -> has_sizes format input filter s -> dims input = 4 /\ dims filter = 4.
Proof. unfold dims. intros Hf [-> ->]. by destruct format. Qed.

Lemma conv_groups c fc fo : 0 <= c -> 1 <= fc -> 1 <= fo ->
  (exists g, 1 <= g /\ c = g * fc /\ (g | fo)) <-> Z.rem c fc = 0 /\ 1 <= Z.quot c fc /\ Z.rem fo (Z.quot c fc) = 0.
Proof.
  intros Hc Hfc Hfo. split.
  - intros (g & Hg & -> & k & ->). rewrite Z.rem_mul, Z.quot_mul by lia. split; [done|]. split; [done|]. apply Z.rem_mul. lia.
  - intros (Hr & Hq & Ho). exists (Z.quot c fc). pose proof (Z.quot_rem c fc ltac:(lia)). split; [lia|]. split; [lia|]. apply Z.rem_divide; lia.
Qed.

Lemma Forall_layout P format n h w c : plain_format format -> Forall P (layout format n [h; w] c) <-> P n /\ P h /\ P w /\ P c.
Proof. intros Hf. destruct format; try done; cbn; rewrite !Forall_cons, Forall_nil; tauto. Qed.

Lemma shape_nonneg s : shape_wf s -> Forall (fun d => 0 <= d) (dim_sizes_ s).
Proof. by intros [[H _] _]. Qed.

Ltac ilia := unfold int_max in *; lia.

Lemma ComputeConv2DDimension_decides params a input filter : has_attrs params a -> shape_wf input -> shape_wf filter ->
  (forall fo, vget (dim_sizes_ filter) 3 = Some fo -> fo < 2 ^ 31) ->
  decides (ComputeConv2DDimension params input filter)
    (exists s, has_sizes (data_format params) input filter s /\ conv_accepts params a s)
    (fun d => exists s r c, has_sizes (data_format params) input filter s /\ d = conv_dims a s r c /\
       window_spec (padding params) (s_height s) (f_height s) (dilation_h a) (stride_h a) (pad_h a) r /\
       window_spec (padding params) (s_width s) (f_width s) (dilation_w a) (stride_w a) (pad_w a) c /\
       windowed_call (padding params) (s_height s) (f_height s) (dilation_h a) (stride_h a) (pad_h a) = Ok (inr r) /\
       windowed_call (padding params) (s_width s) (f_width s) (dilation_w a) (stride_w a) (pad_w a) = Ok (inr c)).
Proof.
  intros Ha Hin Hfi Hfo. pose proof (ha_format _ _ Ha) as Hf. unfold ComputeConv2DDimension.
  apply decides_requires; [done|intros (s & Hs & _); apply has_sizes_dims in Hs as [-> _]; done|intros Hd1%Z.eqb_eq].
  apply decides_requires; [done|intros (s & Hs & _); apply has_sizes_dims in Hs as [_ ->]; done|intros Hd2%Z.eqb_eq].
  destruct (has_sizes_ex _ _ _ Hf Hd1 Hd2) as [s Hs].
  apply (decides_iff _ _ _ (conv_accepts params a s)).
  { split; [intros (s' & Hs' & Hc); by rewrite (has_sizes_unique _ _ _ _ _ Hf Hs Hs')|]. intros Hc. by exists s. }
  pose proof Hs as [Hi Hd].
  destruct (filter_dims _ _ _ _ _ Hd) as (E0 & E1 & E2 & E3). destruct (filter_fits_spec _ _ _ _ _ Hd) as (small & -> & Hsm). rewrite E0, E1, E2, E3, Hi.
  rewrite layout_C, layout_H, layout_W, layout_N by done. cbn [mbind result_bind].
  pose proof (shape_nonneg _ Hin) as Hni. pose proof (shape_nonneg _ Hfi) as Hnf. rewrite Hi in Hni. rewrite Hd in Hnf, Hfo.
  apply Forall_layout in Hni as (Hn & Hh & Hw & Hc); [|done]. rewrite !Forall_cons in Hnf. destruct Hnf as (Hfh & Hfw & Hfc & Hf0 & _). specialize (Hfo _ eq_refl).
  assert (num_elements_ filter = f_height s * (f_width s * (f_channels s * (f_outputs s * 1)))) as Hnum by (rewrite (wf_num _ Hfi), Hd; done).
  unfold int_max in *. rewrite (i32_small (f_outputs s)) by ilia.
  apply decides_requires; [done|intros [? ? _ _ _]; apply Hsm; ilia|intros (? & ? & ?)%Hsm].
  apply decides_requires; [done|intros [? ? _ _ _]; apply negb_true_iff, Z.leb_gt; ilia|intros ?%negb_true_iff%Z.leb_gt].
  apply decides_requires; [done|intros [? ? _ _ _]; apply negb_true_iff, Z.leb_gt; ilia|intros ?%negb_true_iff%Z.leb_gt].
  rewrite !(i32_small (s_channels s)), !(i32_small (f_channels s)) by ilia.
  apply decides_requires; [done|intros [? ? _ _ _]; apply negb_true_iff, Z.leb_gt; ilia|intros ?%negb_true_iff%Z.leb_gt].
  apply decides_requires; [done|intros [_ ? Hg _ _]; apply Z.eqb_eq; apply conv_groups in Hg; ilia|intros ?%Z.eqb_eq].
  apply decides_requires; [done|intros [_ ? _ _ _]; rewrite Hnum; apply negb_true_iff, Z.leb_gt; nia|intros Hpos%negb_true_iff%Z.leb_gt; rewrite Hnum in Hpos].
  assert (1 <= f_height s /\ 1 <= f_width s /\ 1 <= f_outputs s) as (Hf1 & Hf2 & Hf3) by nia.
  apply decides_requires; [done|intros [_ ? Hg _ _]; apply negb_true_iff, Z.leb_gt; apply conv_groups in Hg; ilia|intros ?%negb_true_iff%Z.leb_gt].
  set (g := Z.quot (s_channels s) (f_channels s)) in *.
  apply decides_requires; [done| |].
  { intros [_ ? Hg _ _]. apply conv_groups in Hg as (_ & Hg1 & Hg2); [|ilia..]. fold g in Hg1, Hg2. rewrite Hg2. cbn. apply negb_true_iff, Z.ltb_ge.
    apply Z.divide_pos_le; [ilia|]. apply Z.rem_divide; ilia. }
  intros [Hg2%negb_false_iff%Z.eqb_eq _]%negb_true_iff%orb_false_iff.
  assert (exists g, 1 <= g /\ s_channels s = g * f_channels s /\ (g | f_outputs s)) as Hg by (apply conv_groups; [ilia..|]; split_and!; (ilia || done)).
  do 3 (apply decides_requires; [done|intros [? ? _ _ _]; apply negb_true_iff, Z.leb_gt; ilia|intros ?%negb_true_iff%Z.leb_gt]).
  rewrite !(i32_small (s_height s)), !(i32_small (s_width s)), !(i32_small (s_batch s)), !(i32_small (f_height s)), !(i32_small (f_width s)) by ilia.
  rewrite (ha_strides _ _ Ha), (ha_dilations _ _ Ha), !layout_H, !layout_W by done. cbn [mbind result_bind].
  destruct (initial_padding_given _ _ Ha) as (wh & ww & -> & -> & Hwh & Hww). cbn [mbind result_bind].
  rewrite (windowed_reads_explicit _ _ _ _ _ _ _ Hwh), (windowed_reads_explicit _ _ _ _ _ _ _ Hww).
  destruct (filter_window_ok (padding params) (s_height s) (f_height s) (dilation_h a) (stride_h a) (pad_h a)) as [_ Hwr]; [ilia|ilia|apply Ha..|].
  destruct (filter_window_ok (padding params) (s_width s) (f_width s) (dilation_w a) (stride_w a) (pad_w a)) as [_ Hwc]; [ilia|ilia|apply Ha..|].
  eapply decides_attempt; [by apply window_decides|by intros []|]. intros r Hr1 [Hr2 Hr3].
  eapply decides_attempt; [by apply window_decides|by intros []|]. intros k Hk1 [Hk2 Hk3].
  apply decides_gives; [split; (ilia || done)|]. by exists s, r, k.
Qed.

(** ** The gradient of the input *)

Lemma small_fits l : forall acc, 0 <= acc -> Forall (fun d => 0 <= d) l -> acc * Zprod (map (Z.max 1) l) < 2 ^ 63 -> TensorShape.fits acc l.
Proof.
  induction l as [|d l IH]; intros acc Ha Hl Hp; cbn [TensorShape.fits]; [done|]. apply Forall_cons in Hl as [Hd Hl].
  cbn [map] in Hp. rewrite Zprod_cons in Hp. pose proof (Zprod_pos _ (max_ones l)) as Hp1. set (P := Zprod _) in *.
  assert (acc * d * P <= acc * (1 `max` d * P)) as H1 by (rewrite <- Z.mul_assoc; apply Z.mul_le_mono_nonneg_l; nia).
  assert (0 <= acc * d) as H0 by nia. split; [done|]. split; [nia|]. apply IH; [nia|done|]. fold P. lia.
Qed.

Lemma small_bound l : small l -> Forall (fun d => d < 2 ^ 63) l.
Proof.
  intros [Hl Hp]. revert Hp. induction Hl as [|d l Hd Hl IH]; intros Hp; [constructor|]. cbn [map] in Hp. rewrite Zprod_cons in Hp.
  pose proof (Zprod_pos _ (max_ones l)) as Hp1. pose proof (Z.le_max_l 1 d). pose proof (Z.le_max_r 1 d).
  set (M := 1 `max` d) in *. set (P := Zprod _) in *. assert (M <= M * P /\ P <= M * P) as [? ?] by nia. constructor; [lia|]. apply IH. lia.
Qed.

Lemma shape_eta s : shape_wf s -> TensorShape_of (dim_sizes_ s) = s.
Proof. intros [Hs Hn]. unfold TensorShape_of, UpdateNumElements. cbn [dim_sizes_]. rewrite product_spec, <- Hn by done. by destruct s. Qed.

(** The sizes of a shape, as a tensor. *)
Lemma MakeShape_sizes s t : shape_wf s -> t_shape t = TensorShape_of [dims s] -> t_dtype t <> DT_OTHER -> t_values t = dim_sizes_ s ->
  dims s <= 254 -> MakeShape t make_TensorShape = (Status_OK, s).
Proof.
  intros [[Hn Hs] Hnum] Ht Hd Hv Hm. unfold MakeShape. rewrite Ht. change (IsVector _) with true. cbn [negb].
  assert (0 <= dims s) as H0 by (unfold dims; lia). assert (num_elements_ (TensorShape_of [dims s]) = dims s) as -> by (cbn -[i64 dims]; rewrite Z.mul_1_l, i64_small; lia).
  rewrite (proj2 (Z.ltb_ge _ _)) by (unfold MaxDimensions; lia). rewrite (proj2 (Z.ltb_ge _ _)) by done. rewrite Hv.
  pose proof (MakeShape_loop_spec (dim_sizes_ s) (dim_sizes_ s) make_TensorShape ltac:(done) (small_bound _ (conj Hn Hs))) as H.
  rewrite decide_True in H by (apply small_fits; [done|done|by rewrite Z.mul_1_l]). destruct H as [-> _]. cbn [dim_sizes_ num_elements_ make_TensorShape app].
  rewrite Z.mul_1_l, <- Hnum. destruct (t_dtype t), s; done.
Qed.

(** [input_sizes] names the sizes of [input], all of them or, without groups, height and width. *)
Definition names_input (format : TensorFormat) (input_sizes : int_tensor) (input : TensorShape) (s : conv_sizes) : Prop :=
  (t_shape input_sizes = TensorShape_of [4] /\ t_dtype input_sizes <> DT_OTHER /\ t_values input_sizes = dim_sizes_ input) \/
  (t_shape input_sizes = TensorShape_of [2] /\ t_values input_sizes = [s_height s; s_width s] /\ f_channels s = s_channels s).

Lemma Conv2DBackpropComputeInputShape_names params input_sizes input filter out s or oc : plain_format (data_format params) -> shape_wf input ->
  has_sizes (data_format params) input filter s -> s_batch s < int_max -> s_height s < int_max -> s_width s < int_max -> s_channels s < int_max ->
  dim_sizes_ out = layout (data_format params) (s_batch s) [or; oc] (f_outputs s) -> names_input (data_format params) input_sizes input s ->
  Conv2DBackpropComputeInputShape input_sizes filter out (data_format params) = Ok (inr input).
Proof.
  intros Hf Hin Hs Hb Hh Hw Hc Ho Hn. pose proof Hs as [Hi Hfi]. pose proof (shape_nonneg _ Hin) as Hni. rewrite Hi, Forall_layout in Hni by done.
  unfold Conv2DBackpropComputeInputShape. destruct Hn as [(Ht & Hd & Hv)|(Ht & Hv & Hg)]; rewrite Ht.
  - rewrite (MakeShape_sizes input input_sizes); try done; rewrite (proj1 (has_sizes_dims _ _ _ _ Hf Hs)); done.
  - change (IsVector _) with true. change (dim_size 0 _) with (Ok 2). cbn [op_requires mbind result_bind Z.eqb Pos.eqb].
    rewrite Ho, layout_N, Hv by done. cbn [mbind result_bind]. destruct (filter_dims _ _ _ _ _ Hfi) as (_ & _ & -> & _).
    change (at_ _ 0) with (Ok (s_height s)). change (at_ _ 1) with (Ok (s_width s)). cbn [mbind result_bind].
    rewrite ShapeFromFormat_layout, layout_groups by (done || by left). cbn [mbind result_bind]. rewrite Hg.
    rewrite !i32_small by ilia. by rewrite <- Hi, shape_eta.
Qed.

Lemma ConvBackpropExtract_ok label input filter out dil str padding pb pa i k x f o st dl pad w :
  dim_size i input = Ok x -> dim_size k filter = Ok f -> dim_size i out = Ok (output_size w) -> at_ str i = Ok st -> at_ dil i = Ok dl ->
  padding_given padding pad = padding_given padding (pb, pa) -> windowed_call padding x f dl st pad = Ok (inr w) -> o = output_size w ->
  exists d, ConvBackpropExtractAndVerifyDimension label input filter out dil str padding pb pa i k = Ok (inr d) /\
    input_size d = x /\ filter_size d = f /\ sd_output_size d = o.
Proof.
  intros H1 H2 H3 H4 H5 Hp Hw ->. unfold ConvBackpropExtractAndVerifyDimension. rewrite H1, H2, H3, H4, H5. cbn [mbind result_bind].
  rewrite (windowed_reads_explicit _ _ _ _ _ pad (mk_windowed 0 pb pa)) by exact Hp. unfold windowed_call in Hw. rewrite Hw. cbn [attempt mbind result_bind].
  rewrite Z.eqb_refl. cbn [op_requires]. by eexists.
Qed.

Lemma backprop_dims_ok label params a s input filter out r c : has_attrs params a -> has_sizes (data_format params) input filter s ->
  dim_sizes_ out = layout (data_format params) (s_batch s) [output_size r; output_size c] (f_outputs s) ->
  windowed_call (padding params) (s_height s) (f_height s) (dilation_h a) (stride_h a) (pad_h a) = Ok (inr r) ->
  windowed_call (padding params) (s_width s) (f_width s) (dilation_w a) (stride_w a) (pad_w a) = Ok (inr c) ->
  exists d0 d1, backprop_dims label 4 input filter out (dilations params) (strides params) (padding params) (explicit_paddings params) (data_format params) [0; 1] = Ok (inr [d0; d1]) /\
    (input_size d0 = s_height s /\ filter_size d0 = f_height s /\ sd_output_size d0 = output_size r) /\
    (input_size d1 = s_width s /\ filter_size d1 = f_width s /\ sd_output_size d1 = output_size c).
Proof.
  intros Ha [Hi Hfi] Ho Hr Hc. pose proof (ha_format _ _ Ha) as Hf. destruct (layout_spatial _ Hf) as (i & j & Ei & Ej & Hat & Hdim & Hpads).
  destruct (Hdim _ _ _ _ _ Hi) as [Hi1 Hi2], (Hdim _ _ _ _ _ Ho) as [Ho1 Ho2], (filter_dims _ _ _ _ _ Hfi) as (F0 & F1 & _ & _).
  destruct (Hat 1 (stride_h a) (stride_w a) 1) as [S1 S2], (Hat 1 (dilation_h a) (dilation_w a) 1) as [D1 D2].
  rewrite <- (ha_strides _ _ Ha) in S1, S2. rewrite <- (ha_dilations _ _ Ha) in D1, D2.
  assert (exists t b l r, (if bool_decide (padding params = EXPLICIT) then
            before ← at_ (explicit_paddings params) (2 * i); after ← at_ (explicit_paddings params) (2 * i + 1); mret (before, after) else mret (-1, -1)) = Ok (t, b) /\
      (if bool_decide (padding params = EXPLICIT) then
            before ← at_ (explicit_paddings params) (2 * j); after ← at_ (explicit_paddings params) (2 * j + 1); mret (before, after) else mret (-1, -1)) = Ok (l, r) /\
      padding_given (padding params) (pad_h a) = padding_given (padding params) (t, b) /\ padding_given (padding params) (pad_w a) = padding_given (padding params) (l, r))
    as (t & b & l & r' & P1 & P2 & G1 & G2).
  { pose proof (ha_pads _ _ Ha) as Hp. case_bool_decide as E.
    - destruct (Hpads (pad_h a).1 (pad_h a).2 (pad_w a).1 (pad_w a).2) as (Q1 & Q2 & Q3 & Q4). rewrite <- Hp in Q1, Q2, Q3, Q4.
      rewrite Q1, Q2, Q3, Q4. eexists _, _, _, _. do 2 (split; [reflexivity|]). by destruct (pad_h a), (pad_w a).
    - exists (-1), (-1), (-1), (-1). do 2 (split; [done|]). by destruct (padding params). }
  destruct (ConvBackpropExtract_ok label input filter out (dilations params) (strides params) (padding params) t b i 0 _ _ _ _ _ _ r Hi1 F0 Ho1 S1 D1 G1 Hr eq_refl) as (d0 & E0 & Hd0).
  destruct (ConvBackpropExtract_ok label input filter out (dilations params) (strides params) (padding params) l r' j 1 _ _ _ _ _ _ c Hi2 F1 Ho2 S2 D2 G2 Hc eq_refl) as (d1 & E1 & Hd1).
  exists d0, d1. split; [|done]. cbn [backprop_dims]. rewrite Ei, Ej. cbn [mbind result_bind]. rewrite P1. cbn [mbind result_bind]. rewrite E0. cbn [attempt mbind result_bind].
  rewrite P2. cbn [mbind result_bind]. by rewrite E1.
Qed.

Lemma conv_output_shape_layout params a s r c : plain_format (data_format params) ->
  conv_output_shape params (conv_dims a s r c) = Ok (TensorShape_of (layout (data_format params) (s_batch s) [output_size r; output_size c] (f_outputs s))).
Proof. intros Hf. unfold conv_output_shape. rewrite ShapeFromFormat_layout, layout_groups by (done || by left). done. Qed.

Lemma ConvBackpropComputeDimensionsV2_ok label params a s input filter out r c : has_attrs params a -> has_sizes (data_format params) input filter s -> conv_accepts params a s ->
  0 <= s_channels s -> dim_sizes_ out = layout (data_format params) (s_batch s) [output_size r; output_size c] (f_outputs s) ->
  windowed_call (padding params) (s_height s) (f_height s) (dilation_h a) (stride_h a) (pad_h a) = Ok (inr r) ->
  windowed_call (padding params) (s_width s) (f_width s) (dilation_w a) (stride_w a) (pad_w a) = Ok (inr c) ->
  exists d0 d1, ConvBackpropComputeDimensionsV2 label 2 input filter out (dilations params) (strides params) (padding params) (explicit_paddings params) (data_format params) =
      Ok (inr (mk_ConvBackpropDimensions [d0; d1] (s_batch s) (s_channels s) (f_outputs s))) /\
    (input_size d0 = s_height s /\ filter_size d0 = f_height s /\ sd_output_size d0 = output_size r) /\
    (input_size d1 = s_width s /\ filter_size d1 = f_width s /\ sd_output_size d1 = output_size c).
Proof.
  intros Ha Hs Hacc Hc0 Ho Hr Hc. pose proof (ha_format _ _ Ha) as Hf. pose proof Hs as [Hi Hfi].
  destruct (backprop_dims_ok label _ _ _ _ _ _ _ _ Ha Hs Ho Hr Hc) as (d0 & d1 & E & Hd). exists d0, d1. split; [|exact Hd].
  destruct (has_sizes_dims _ _ _ _ Hf Hs) as [D1 D2]. assert (dims out = 4) as D3 by (change (dims out) with (size_ (dim_sizes_ out)); by rewrite Ho, layout_size).
  destruct (filter_dims _ _ _ _ _ Hfi) as (F0 & F1 & F2 & F3).
  unfold ConvBackpropComputeDimensionsV2. change (2 + 2) with 4. rewrite D1, D2, D3. cbn [op_requires Z.eqb Pos.eqb].
  rewrite (layout_batch _ Hf _ _ _ _ _ Hi), (layout_batch _ Hf _ _ _ _ _ Ho). cbn [mbind result_bind]. rewrite Z.eqb_refl. cbn [op_requires].
  rewrite (layout_feature _ Hf _ _ _ _ _ Hi), (layout_feature _ Hf _ _ _ _ _ Ho). change (4 - 2) with 2. change (4 - 1) with 3. rewrite F2, F3. cbn [mbind result_bind].
  pose proof (ca_filter _ _ _ Hacc) as Hfl. pose proof (ca_groups _ _ _ Hacc) as Hg. apply conv_groups in Hg as (Hrem & _ & _); [|ilia..].
  rewrite (proj2 (Z.leb_gt _ _)) by ilia. cbn [negb op_requires]. rewrite Hrem. cbn [op_requires Z.eqb].
  rewrite Z.eqb_refl. cbn [op_requires]. change (count_up 2) with [0; 1]. by rewrite E.
Qed.



(** ** Examples *)

(** The attributes of an operator, by their names. *)
Definition example_context (strs : list (string * string)) (ints : list (string * list Z)) : OpKernelConstruction :=
  let find {T} (l : list (string * T)) name := match List.find (fun '(n, _) => (n =? name)%string) l with Some (_, x) => inr x | None => inl (NotFound name) end in
  mk_OpKernelConstruction (find strs) (fun name => inl (NotFound name)) (fun name => inl (NotFound name)) (find ints) (find ints)
    (fun name => existsb (fun '(n, _) => (n =? name)%string) ints).

Definition example_conv : OpKernelConstruction :=
  example_context [("padding", "SAME"); ("data_format", "NHWC")] [("strides", [1; 2; 1; 1]); ("dilations", [1; 1; 2; 1]); ("explicit_paddings", [])].
Definition example_params : Conv2DParameters := mk_Conv2DParameters [1; 1; 2; 1] [1; 2; 1; 1] SAME FORMAT_NHWC [].

Lemma example_conv_typed : typed example_conv.
Proof.
  assert (forall name l, GetAttr_int32s example_conv name = inr l -> l ∈ [[1; 2; 1; 1]; [1; 1; 2; 1]; []]) as H.
  { intros name l. cbn -[String.eqb]. repeat (destruct (String.eqb _ name); [intros [= <-]; set_solver|]). done. }
  split.
  - intros name l Hl%H. rewrite !elem_of_cons in Hl. destruct Hl as [->|[->|[->|[]%elem_of_nil]]]; repeat constructor; unfold is_int32; lia.
  - intros name l Hl%H. rewrite !elem_of_cons in Hl. destruct Hl as [->|[->|[->|[]%elem_of_nil]]]; repeat constructor; lia.
  - intros name st. cbn -[String.eqb]. intros [E|[E|E]]; repeat (destruct (String.eqb _ name); [done|]); by injection E as <-.
Qed.


Definition example_attrs : conv_attrs := mk_conv_attrs 2 1 1 2 (0, 0) (0, 0).


(** Channels of the [i]-th place of every group: six channels in three groups of
    two have no seventh channel to read, and in two groups of three the second
    group is read from its neighbour.  Only as many groups as channels in each
    read the right ones. *)
Example grouped_channels_out_of_range : grouped_channels 3 0 = [0; 3; 6].
Proof. reflexivity. Qed.

Lemma grouped_channels_right group_count group_size i : 2 <= group_count -> 0 <= i < group_size -> group_count * group_size < 2 ^ 32 ->
  group_count * group_count < 2 ^ 31 -> group_size < 2 ^ 31 ->
  grouped_channels group_count i = map (fun j => j * group_size + i) (count_up group_count) <-> group_count = group_size.
Proof.
  intros Hg Hi H1 H2 H3. unfold grouped_channels.
  assert (forall j, 0 <= j < group_count -> u32 (i + u32 (group_count * j)) = i + group_count * j) as Hj.
  { intros j Hj. rewrite (u32_small (group_count * j)) by nia. apply u32_small. nia. }
  split.
  - intros E. apply (f_equal (fun l => vget l 1)) in E. rewrite !vget_map in E.
    destruct (vget_ex (count_up group_count) 1) as [x Hx]; [rewrite size_count_up; lia|]. apply vget_count_up in Hx as Hx1. destruct Hx1 as [-> _].
    rewrite Hx in E. cbn [fmap option_fmap option_map] in E. injection E as E. rewrite Hj in E by lia. lia.
  - intros ->. apply map_ext_in. intros j Hin%list_elem_of_In%elem_of_count_up. rewrite Hj by lia. lia.
Qed.

(** A three-dimensional convolution with SAME padding and stride 1 has an output of
    the size of its input, but is described to DirectML without the padding after
    the input, with which three windows of three cells fit, and not four. *)
Example Conv3D_end_padding :
  let attr := mk_Conv3DAttributes FORMAT_NHWC SAME (1, 1, 1) (1, 1, 1) in
  exists h, Conv3DInitHelper attr (TensorShape_of [1; 4; 4; 4; 1]) (TensorShape_of [3; 3; 3; 1; 1]) = Ok (inr h) /\
    conv3d_output_shape attr h = Ok (TensorShape_of [1; 4; 4; 4; 1]) /\
    conv3d_desc h = Ok (mk_convolution_desc [1; 1; 1] [1; 1; 1] [1; 1; 1] [0; 0; 0] 1) /\ ~ fit 3 1 (4 + 1 + 0) 4.
Proof. eexists. split; [reflexivity|]. split; [reflexivity|]. split; [reflexivity|]. unfold fit. lia. Qed.

(** A filter without input channels. *)
Example Conv3D_divides_by_zero :
  Conv3DInitHelper (mk_Conv3DAttributes FORMAT_NHWC SAME (1, 1, 1) (1, 1, 1)) (TensorShape_of [1; 4; 4; 4; 1]) (TensorShape_of [3; 3; 3; 0; 1]) = Fault DivByZero.
Proof. reflexivity. Qed.

(** Dilations of batch and depth are not refused. *)
Example depthwise_dilation_unchecked :
  exists attr, make_DepthwiseAttributes (example_context [("padding", "VALID"); ("data_format", "NHWC")]
    [("strides", [1; 1; 1; 1]); ("dilations", [7; 1; 1; 5]); ("explicit_paddings", [])]) = Ok (inr attr).
Proof. eexists. reflexivity. Qed.
