(* ===== verification/TensorDesc.v ===== *)
(** * Descriptions of tensors for DirectML

    core/dml_tensor_desc.{h,cc} and the layouts and conversions of
    core/dml_util.{h,cc}: the sizes and strides by which DirectML reads a tensor
    that is broadcast to another shape, with its dimensions in the order that
    DirectML wants.  [uint32_t] arithmetic wraps.  The size of the buffer is
    computed by a function of DirectMLX, a parameter. *)

From S2P Require Import Prelude Vec TensorShape TensorFormat Bcast BcastProofs BcastMerge.
#[local] Open Scope list_scope.
#[local] Open Scope Z_scope.

(** ** Data types

    The enumerators that the conversions name; all others are treated alike. *)

Inductive TF_DataType :=
  | TF_FLOAT | TF_HALF | TF_UINT64 | TF_UINT32 | TF_UINT16 | TF_UINT8 | TF_INT64 | TF_INT32 | TF_INT16 | TF_INT8 | TF_BOOL
  | TF_other_type (value : Z).

Inductive DML_TENSOR_DATA_TYPE :=
  | DML_TENSOR_DATA_TYPE_FLOAT32 | DML_TENSOR_DATA_TYPE_FLOAT16
  | DML_TENSOR_DATA_TYPE_UINT64 | DML_TENSOR_DATA_TYPE_UINT32 | DML_TENSOR_DATA_TYPE_UINT16 | DML_TENSOR_DATA_TYPE_UINT8
  | DML_TENSOR_DATA_TYPE_INT64 | DML_TENSOR_DATA_TYPE_INT32 | DML_TENSOR_DATA_TYPE_INT16 | DML_TENSOR_DATA_TYPE_INT8
  | DML_TENSOR_DATA_TYPE_other (value : Z).

Definition GetTfDataTypeFromDmlDataType (type : DML_TENSOR_DATA_TYPE) : result TF_DataType :=
  match type with
  | DML_TENSOR_DATA_TYPE_FLOAT32 => mret TF_FLOAT
  | DML_TENSOR_DATA_TYPE_FLOAT16 => mret TF_HALF
  | DML_TENSOR_DATA_TYPE_UINT64 => mret TF_UINT64
  | DML_TENSOR_DATA_TYPE_UINT32 => mret TF_UINT32
  | DML_TENSOR_DATA_TYPE_UINT16 => mret TF_UINT16
  | DML_TENSOR_DATA_TYPE_UINT8 => mret TF_UINT8
  | DML_TENSOR_DATA_TYPE_INT64 => mret TF_INT64
  | DML_TENSOR_DATA_TYPE_INT32 => mret TF_INT32
  | DML_TENSOR_DATA_TYPE_INT16 => mret TF_INT16
  | DML_TENSOR_DATA_TYPE_INT8 => mret TF_INT8
  | DML_TENSOR_DATA_TYPE_other _ => Fault FatalLog
  end.

Definition GetDmlDataTypeFromTfDataType (type : TF_DataType) : result DML_TENSOR_DATA_TYPE :=
  match type with
  | TF_UINT64 => mret DML_TENSOR_DATA_TYPE_UINT64
  | TF_INT64 => mret DML_TENSOR_DATA_TYPE_INT64
  | TF_FLOAT => mret DML_TENSOR_DATA_TYPE_FLOAT32
  | TF_HALF => mret DML_TENSOR_DATA_TYPE_FLOAT16
  | TF_UINT32 => mret DML_TENSOR_DATA_TYPE_UINT32
  | TF_UINT16 => mret DML_TENSOR_DATA_TYPE_UINT16
  | TF_UINT8 | TF_BOOL => mret DML_TENSOR_DATA_TYPE_UINT8
  | TF_INT32 => mret DML_TENSOR_DATA_TYPE_INT32
  | TF_INT16 => mret DML_TENSOR_DATA_TYPE_INT16
  | TF_INT8 => mret DML_TENSOR_DATA_TYPE_INT8
  | TF_other_type _ => Fault FatalLog
  end.

(** ** Axes and layouts *)

Inductive DmlTensorAxis := axis_N | axis_C | axis_D | axis_H | axis_W.

#[export] Instance DmlTensorAxis_eq_dec : EqDecision DmlTensorAxis.
Proof. solve_decision. Defined.

Definition DmlTensorLayout : Type := list DmlTensorAxis.

Definition kNchwDimensionCount : Z := 4.
Definition kNcdhwDimensionCount : Z := 5.
Definition DML_TENSOR_DIMENSION_COUNT_MAX : Z := 5.
Definition DML_TENSOR_DIMENSION_COUNT_MAX1 : Z := 8.

Definition GetDmlDimensionIndex (axis : DmlTensorAxis) (dml_dimension_count : Z) : result Z :=
  if dml_dimension_count =? kNchwDimensionCount then
    match axis with
    | axis_N => mret 0 | axis_C => mret 1 | axis_H => mret 2 | axis_W => mret 3
    | axis_D => Fault AssertFailed
    end
  else
    ASSERT (dml_dimension_count =? kNcdhwDimensionCount);;
    match axis with axis_N => mret 0 | axis_C => mret 1 | axis_D => mret 2 | axis_H => mret 3 | axis_W => mret 4 end.

Definition GetDmlTensorLayout (format : TensorFormat) (rank : Z) : result DmlTensorLayout :=
  CHECK (rank <=? DML_TENSOR_DIMENSION_COUNT_MAX);;
  let axis_if (b : bool) axis := if b then [axis] else [] in
  match format with
  | FORMAT_NHWC =>
      mret (axis_if (4 <=? rank) axis_N ++ axis_if (5 <=? rank) axis_D ++ axis_if (3 <=? rank) axis_H ++
        axis_if (2 <=? rank) axis_W ++ axis_if (1 <=? rank) axis_C)
  | FORMAT_NCHW =>
      mret (axis_if (4 <=? rank) axis_N ++ axis_if (3 <=? rank) axis_C ++ axis_if (5 <=? rank) axis_D ++
        axis_if (2 <=? rank) axis_H ++ axis_if (1 <=? rank) axis_W)
  | _ => Fault FatalLog
  end.

(** The loop of [ComputePackedStrides] from the last dimension down. *)
Fixpoint packed_loop (sizes : list Z) (count : nat) (stride : Z) (strides : list Z) : result (list Z) :=
  match count with
  | O => mret strides
  | S count =>
      let i := Z.of_nat count in
      size ← at_ sizes i;
      packed_loop sizes count (u32 (stride * size)) (vset strides i stride)
  end.

Definition ComputePackedStrides (sizes : list Z) : result (list Z) :=
  packed_loop sizes (length sizes) 1 (replicate (length sizes) 0).

Fixpoint narrow_dims (l : list Z) : result (list Z) :=
  match l with
  | [] => mret []
  | dim :: l => CHECK ((0 <=? dim) && (dim <=? 2 ^ 32 - 1));; rest ← narrow_dims l; mret (dim :: rest)
  end.

Definition NarrowTensorShape (shape : TensorShape) : result (list Z) := narrow_dims (dim_sizes_ shape).

(** ** Strides of a broadcast tensor *)

Fixpoint strides_loop (dimensions non_broadcast_dimensions : list Z) (count : nat) (i current_stride : Z) (strides : list Z)
    : result (list Z) :=
  match count with
  | O => mret strides
  | S count =>
      let dim_index := size_ dimensions - i - 1 in
      let non_broadcast_dim_index := size_ non_broadcast_dimensions - i - 1 in
      dim_size ← at_ dimensions dim_index;
      non_broadcast_dim_size ←
        (if 0 <=? non_broadcast_dim_index then at_ non_broadcast_dimensions non_broadcast_dim_index else mret 1);
      let is_dim_broadcast := negb (dim_size =? non_broadcast_dim_size) in
      CHECK (negb is_dim_broadcast || (non_broadcast_dim_size =? 1));;
      if is_dim_broadcast then
        strides_loop dimensions non_broadcast_dimensions count (i + 1) current_stride (vset strides dim_index 0)
      else
        strides_loop dimensions non_broadcast_dimensions count (i + 1) (u32 (current_stride * dim_size))
          (vset strides dim_index current_stride)
  end.

Definition ComputeStrides (dimensions non_broadcast_dimensions : list Z) : result (list Z) :=
  strides_loop dimensions non_broadcast_dimensions (length dimensions) 0 1 (replicate (length dimensions) 0).

(** ** Descriptions *)

Class DirectMLX := {
  DMLCalcBufferTensorSize : DML_TENSOR_DATA_TYPE -> list Z -> option (list Z) -> Z
}.

Inductive DML_TENSOR_TYPE := DML_TENSOR_TYPE_INVALID | DML_TENSOR_TYPE_BUFFER.

Record DmlTensorDesc := mk_TensorDesc {
  tensor_type_ : DML_TENSOR_TYPE;
  DataType : DML_TENSOR_DATA_TYPE;
  tf_tensor_type_ : TF_DataType;
  sizes_ : list Z;
  strides_ : option (list Z);
  GuaranteedBaseOffsetAlignment : Z;
  TotalTensorSizeInBytes : Z
}.

Section desc.
  Context {DX : DirectMLX}.

Definition make_DmlTensorDesc (data_type : DML_TENSOR_DATA_TYPE) (sizes : list Z) (strides : option (list Z))
    (guaranteed_base_offset_alignment end_padding_in_bytes : Z) : result DmlTensorDesc :=
  tf_type ← GetTfDataTypeFromDmlDataType data_type;
  CHECK (size_ sizes <=? DML_TENSOR_DIMENSION_COUNT_MAX1);;
  CHECK (match strides with Some strides => size_ strides =? size_ sizes | None => true end);;
  mret (mk_TensorDesc DML_TENSOR_TYPE_BUFFER data_type tf_type sizes strides guaranteed_base_offset_alignment
    (u64 (DMLCalcBufferTensorSize data_type sizes strides + end_padding_in_bytes))).

(** [Create] without a layout. *)
Definition Create (data_type : TF_DataType) (dimensions non_broadcast_dimensions : list Z)
    (guaranteed_base_offset_alignment : Z) (add_leading_dimensions : bool) : result DmlTensorDesc :=
  CHECK (size_ non_broadcast_dimensions <=? size_ dimensions);;
  let rank := size_ dimensions in
  CHECK (rank <=? DML_TENSOR_DIMENSION_COUNT_MAX1);;
  strides ← ComputeStrides dimensions non_broadcast_dimensions;
  let leading := if add_leading_dimensions && (rank <? kNchwDimensionCount) then Z.to_nat (kNchwDimensionCount - rank) else 0%nat in
  dml_data_type ← GetDmlDataTypeFromTfDataType data_type;
  make_DmlTensorDesc dml_data_type (replicate leading 1 ++ dimensions) (Some (replicate leading 0 ++ strides))
    guaranteed_base_offset_alignment 0.

(** The dimensions and strides, each to the place of its axis. *)
Fixpoint swizzle (tensor_layout : DmlTensorLayout) (dml_dimension_count : Z) (dimensions strides dml_sizes dml_strides : list Z)
    : result (list Z * list Z) :=
  match tensor_layout, dimensions, strides with
  | axis :: tensor_layout, dim_size :: dimensions, dim_stride :: strides =>
      dml_dim_index ← GetDmlDimensionIndex axis dml_dimension_count;
      dml_sizes ← store dml_sizes dml_dim_index dim_size;
      dml_strides ← store dml_strides dml_dim_index dim_stride;
      swizzle tensor_layout dml_dimension_count dimensions strides dml_sizes dml_strides
  | _, _, _ => mret (dml_sizes, dml_strides)
  end.

(** [Create] with a layout. *)
Definition CreateWithLayout (data_type : TF_DataType) (dimensions non_broadcast_dimensions : list Z)
    (tensor_layout : DmlTensorLayout) (guaranteed_base_offset_alignment : Z) : result DmlTensorDesc :=
  CHECK (size_ non_broadcast_dimensions <=? size_ dimensions);;
  let rank := size_ dimensions in
  CHECK (rank <=? DML_TENSOR_DIMENSION_COUNT_MAX);;
  CHECK (negb (bool_decide (tensor_layout = [])));;
  CHECK (size_ tensor_layout =? size_ dimensions);;
  ASSERT (bool_decide (NoDup tensor_layout));;
  strides ← ComputeStrides dimensions non_broadcast_dimensions;
  let has_depth_dim := bool_decide (axis_D ∈ tensor_layout) in
  let dml_dimension_count := if has_depth_dim then kNcdhwDimensionCount else kNchwDimensionCount in
  '(dml_sizes, dml_strides) ← swizzle tensor_layout dml_dimension_count dimensions strides
    (replicate (Z.to_nat dml_dimension_count) 1) (replicate (Z.to_nat dml_dimension_count) 0);
  dml_data_type ← GetDmlDataTypeFromTfDataType data_type;
  make_DmlTensorDesc dml_data_type dml_sizes (Some dml_strides) guaranteed_base_offset_alignment 0.

(** The overloads that take shapes. *)
Definition CreateFromShapes (data_type : TF_DataType) (shape non_broadcast_shape : TensorShape)
    (guaranteed_base_offset_alignment : Z) (add_leading_dimensions : bool) : result DmlTensorDesc :=
  dimensions ← NarrowTensorShape shape;
  non_broadcast_dimensions ← NarrowTensorShape non_broadcast_shape;
  Create data_type dimensions non_broadcast_dimensions guaranteed_base_offset_alignment add_leading_dimensions.

Definition CreateFromShapesWithLayout (data_type : TF_DataType) (shape non_broadcast_shape : TensorShape)
    (tensor_layout : DmlTensorLayout) (guaranteed_base_offset_alignment : Z) : result DmlTensorDesc :=
  dimensions ← NarrowTensorShape shape;
  non_broadcast_dimensions ← NarrowTensorShape non_broadcast_shape;
  CreateWithLayout data_type dimensions non_broadcast_dimensions tensor_layout guaranteed_base_offset_alignment.
End desc.

Definition ForceUnsignedDataType (d : DmlTensorDesc) : result DmlTensorDesc :=
  let set type := mret (mk_TensorDesc (tensor_type_ d) type (tf_tensor_type_ d) (sizes_ d) (strides_ d)
    (GuaranteedBaseOffsetAlignment d) (TotalTensorSizeInBytes d)) in
  match DataType d with
  | DML_TENSOR_DATA_TYPE_INT64 => set DML_TENSOR_DATA_TYPE_UINT64
  | DML_TENSOR_DATA_TYPE_INT32 => set DML_TENSOR_DATA_TYPE_UINT32
  | DML_TENSOR_DATA_TYPE_INT16 => set DML_TENSOR_DATA_TYPE_UINT16
  | DML_TENSOR_DATA_TYPE_INT8 => set DML_TENSOR_DATA_TYPE_UINT8
  | DML_TENSOR_DATA_TYPE_UINT64 | DML_TENSOR_DATA_TYPE_UINT32 | DML_TENSOR_DATA_TYPE_UINT16 | DML_TENSOR_DATA_TYPE_UINT8 => mret d
  | _ => Fault FatalLog
  end.

Definition IsValid (d : DmlTensorDesc) : bool := match tensor_type_ d with DML_TENSOR_TYPE_INVALID => false | _ => true end.
Definition GetDimensionCount (d : DmlTensorDesc) : Z := size_ (sizes_ d).
Definition GetStrides (d : DmlTensorDesc) : list Z := default [] (strides_ d).
Definition GetBufferSizeInBytes (d : DmlTensorDesc) : result Z := ASSERT (IsValid d);; mret (TotalTensorSizeInBytes d).

(** ** Offsets

    The offset of an element is the sum of its coordinates times the strides. *)

Fixpoint dot (strides idx : list Z) : Z :=
  match strides, idx with
  | s :: strides, i :: idx => s * i + dot strides idx
  | _, _ => 0
  end.

(** The strides of a tensor of shape [ns] read as one of shape [ds]. *)
Fixpoint broadcast_strides (ds ns : list Z) : list Z :=
  match ds, ns with
  | d :: ds, n :: ns => (if d =? n then Zprod ns else 0) :: broadcast_strides ds ns
  | _, _ => []
  end.

Definition stretches (d n : Z) : Prop := d = n \/ n = 1.
Definition dims_positive (ds : list Z) : Prop := Forall (fun d => 1 <= d) ds.

Lemma length_broadcast_strides ds : forall ns, length ns = length ds -> length (broadcast_strides ds ns) = length ds.
Proof. induction ds as [|d ds IH]; intros [|n ns]; cbn; try done. intros [= H]. by rewrite IH. Qed.

(** They read the element that broadcasting defines. *)
Lemma dot_broadcast_strides ds : forall ns k, Forall2 stretches ds ns -> dims_positive ds ->
  dot (broadcast_strides ds ns) (unravel ds k) =
    row_major ns (zip_with (fun d i => if d =? 1 then 0 else i) ns (unravel ds k)).
Proof.
  induction ds as [|d ds IH]; intros ns k Hst Hpos; inversion Hst as [|? n ? ns' Hd Hst']; subst; [done|].
  apply Forall_cons in Hpos as [Hd1 Hpos]. cbn. rewrite (IH ns' k Hst' Hpos). f_equal.
  destruct (Z.eqb_spec n 1) as [->|Hn].
  - destruct (Z.eqb_spec d 1) as [->|]; [|lia]. rewrite Z.mod_1_r. lia.
  - destruct Hd as [->|]; [|done]. rewrite Z.eqb_refl. lia.
Qed.

Lemma vset_zeros n l x : vset (replicate (S n) 0 ++ l) (Z.of_nat n) x = replicate n 0 ++ x :: l.
Proof.
  unfold vset. rewrite (proj2 (Z.ltb_ge _ _)), Nat2Z.id, replicate_S_end, <- app_assoc by lia. cbn [app].
  pose proof (insert_middle (replicate n 0) l 0 x) as H. by rewrite length_replicate in H.
Qed.

(** ** [ComputeStrides] *)

Definition fits_u32 (l : list Z) : Prop := dims_positive l /\ Zprod l < 2 ^ 32.

Lemma fits_suffix l1 l2 : fits_u32 (l1 ++ l2) -> fits_u32 l2.
Proof.
  intros [Hp Hs]. unfold dims_positive in *. apply Forall_app in Hp as [Hp1 Hp2]. split; [done|]. rewrite Zprod_app in Hs.
  pose proof (Zprod_pos _ Hp1). pose proof (Zprod_pos _ Hp2). nia.
Qed.

Section compute.
Context (ds nb : list Z) (Hle : (length nb <= length ds)%nat).
#[local] Notation ns := (aligned (length ds) nb).

Lemma length_ns : length ns = length ds.
Proof. by apply aligned_length. Qed.

(** The dimension that the loop reads of the physical shape. *)
Lemma non_broadcast_dim j n : ns !! j = Some n -> let i := Z.of_nat (length ds) - 1 - Z.of_nat j in
  (if 0 <=? size_ nb - i - 1 then at_ nb (size_ nb - i - 1) else mret 1) = Ok n.
Proof.
  intros Hj i. pose proof (lookup_lt_Some _ _ _ Hj) as Hlt. rewrite length_ns in Hlt. unfold aligned in Hj. unfold size_, i.
  destruct (Z.leb_spec 0 (Z.of_nat (length nb) - (Z.of_nat (length ds) - 1 - Z.of_nat j) - 1)) as [H|H].
  - rewrite lookup_app_r in Hj by (rewrite length_replicate; lia). rewrite length_replicate in Hj. apply at_Some.
    replace (_ - _) with (Z.of_nat (j - (length ds - length nb))) by lia. by rewrite vget_nat.
  - rewrite lookup_app_l in Hj by (rewrite length_replicate; lia). by apply lookup_replicate in Hj as [-> _].
Qed.

(** [ds1] is still to be done. *)
Lemma strides_loop_spec ds1 : forall ds2 ns1 ns2, ds = ds1 ++ ds2 -> ns = ns1 ++ ns2 -> length ns1 = length ds1 ->
  fits_u32 ns ->
  let r := strides_loop ds nb (length ds1) (size_ ds2) (Zprod ns2) (replicate (length ds1) 0 ++ broadcast_strides ds2 ns2) in
  (Forall2 stretches ds1 ns1 -> r = Ok (broadcast_strides ds ns)) /\ (~ Forall2 stretches ds1 ns1 -> r = Fault CheckFailed).
Proof.
  induction ds1 as [|d ds1 IH] using rev_ind; intros ds2 ns1 ns2 Ed En Hl Hf; cbv zeta.
  { destruct ns1; [|done]. cbn [app] in Ed, En. cbn [strides_loop length replicate app]. split; [intros _; by rewrite Ed at 1; rewrite En at 1|].
    intros Hn. exfalso. apply Hn. constructor. }
  destruct (snoc_cases ns1) as [->|(ns0 & n & ->)]; [rewrite length_app in Hl; cbn in Hl; lia|].
  rewrite !length_app, !Nat.add_1_r in Hl. injection Hl as Hl.
  rewrite <- app_assoc in Ed, En. cbn [app] in Ed, En.
  assert (ds !! length ds1 = Some d) as Hd by (rewrite Ed; by apply list_lookup_middle).
  assert (ns !! length ds1 = Some n) as Hn by (rewrite En; by apply list_lookup_middle).
  assert (length ds = length ds1 + S (length ds2))%nat as Hlen by (rewrite Ed, length_app; done).
  pose proof (non_broadcast_dim _ _ Hn) as Hnb. cbv zeta in Hnb. replace (Z.of_nat (length ds) - 1 - Z.of_nat (length ds1)) with (size_ ds2) in Hnb by (unfold size_; lia).
  rewrite length_app, Nat.add_1_r. cbn [strides_loop].
  replace (size_ ds - size_ ds2 - 1) with (Z.of_nat (length ds1)) by (unfold size_; lia).
  rewrite (at_Some ds (Z.of_nat (length ds1)) d) by (by rewrite vget_nat). cbn [mbind result_bind]. rewrite Hnb. cbn [mbind result_bind].
  replace (size_ ds2 + 1) with (size_ (d :: ds2)) by apply size_cons. rewrite !vset_zeros.
  assert (Forall2 stretches (ds1 ++ [d]) (ns0 ++ [n]) <-> Forall2 stretches ds1 ns0 /\ stretches d n) as ->.
  { split; [intros H; apply Forall2_app_inv in H as [H1 H2]; [|by symmetry]; by apply Forall2_cons_1 in H2 as [H2 _]|]. intros [H1 H2]. apply Forall2_app; [done|]. constructor; [done|constructor]. }
  assert (fits_u32 (n :: ns2)) as [_ Hsm] by (apply (fits_suffix ns0); by rewrite <- En).
  pose proof (IH (d :: ds2) ns0 (n :: ns2) Ed En Hl Hf) as Hstep. cbv zeta in Hstep. cbn [broadcast_strides] in Hstep.
  destruct (Z.eqb_spec d n) as [<-|Hne]; cbn [negb orb].
  - cbn [CHECK mbind result_bind]. assert (u32 (Zprod ns2 * d) = Zprod (d :: ns2)) as ->.
    2:{ unfold stretches. split; intros H; apply Hstep; tauto. } rewrite Zprod_cons, Z.mul_comm in Hsm. rewrite Zprod_cons, (Z.mul_comm d).
    apply u32_small. split; [|done]. assert (fits_u32 (d :: ns2)) as [Hp _] by (apply (fits_suffix ns0); by rewrite <- En).
    apply Forall_cons in Hp as [Hp1 Hp2]. pose proof (Zprod_pos _ Hp2). nia.
  - unfold stretches. destruct (Z.eqb_spec n 1) as [->|H1]; cbn [CHECK mbind result_bind].
    + rewrite Zprod_cons, Z.mul_1_l in Hstep. split; intros H; apply Hstep; tauto.
    + split; [tauto|done].
Qed.
End compute.

Lemma fits_aligned n nb : fits_u32 nb -> fits_u32 (aligned n nb).
Proof.
  intros [Hp Hs]. split; [|by rewrite aligned_product]. unfold aligned, dims_positive. apply Forall_app. split; [|done].
  by apply Forall_replicate.
Qed.

Lemma ComputeStrides_spec ds nb : (length nb <= length ds)%nat -> fits_u32 nb -> let ns := aligned (length ds) nb in
  (Forall2 stretches ds ns -> ComputeStrides ds nb = Ok (broadcast_strides ds ns)) /\
  (~ Forall2 stretches ds ns -> ComputeStrides ds nb = Fault CheckFailed).
Proof.
  intros Hle Hf ns. pose proof (strides_loop_spec ds nb Hle ds [] ns []) as H. cbv zeta in H. rewrite !app_nil_r in H.
  unfold ComputeStrides. apply H; [done|done|by apply aligned_length|by apply fits_aligned].
Qed.

(** The strides address, for each element of the broadcast shape, the element that
    broadcasting defines. *)
Lemma strides_read ds ns k : Forall2 stretches ds ns -> dims_positive ds ->
  dot (broadcast_strides ds ns) (unravel ds k) = broadcast_index ns ds k.
Proof. apply dot_broadcast_strides. Qed.

(** ** Dimensions in their places *)

Fixpoint scatter (ps : list Z) (xs l : list Z) : list Z :=
  match ps, xs with
  | p :: ps, x :: xs => scatter ps xs (vset l p x)
  | _, _ => l
  end.

Lemma size_scatter ps : forall xs l, size_ (scatter ps xs l) = size_ l.
Proof. induction ps as [|p ps IH]; intros [|x xs] l; cbn; try done. by rewrite IH, size_vset. Qed.

Lemma dot_insert a : forall b (p : nat) x y s i, a !! p = Some s -> b !! p = Some i ->
  dot (<[p := x]> a) (<[p := y]> b) = dot a b - s * i + x * y.
Proof.
  induction a as [|s0 a IH]; intros [|i0 b] [|p] x y s i Ha Hb; cbn in *; try done.
  - injection Ha as ->. injection Hb as ->. lia.
  - pose proof (IH b p x y s i Ha Hb) as H. unfold insert in *. lia.
Qed.

Lemma dot_vset a b p x y s i : vget a p = Some s -> vget b p = Some i -> dot (vset a p x) (vset b p y) = dot a b - s * i + x * y.
Proof. unfold vget, vset. destruct (p <? 0); [done|]. apply dot_insert. Qed.

Lemma dot_scatter ps : NoDup ps -> forall a b xs ys, length xs = length ps -> length ys = length ps ->
  (forall p, p ∈ ps -> vget a p = Some 0 /\ is_Some (vget b p)) ->
  dot (scatter ps xs a) (scatter ps ys b) = dot a b + dot xs ys.
Proof.
  induction 1 as [|p ps Hp _ IH]; intros a b [|x xs] [|y ys] Hx Hy Hps; try done; cbn [scatter dot]; [lia|].
  injection Hx as Hx. injection Hy as Hy. destruct (Hps p ltac:(left)) as [Ha [i Hb]].
  rewrite IH; [rewrite (dot_vset _ _ _ _ _ _ _ Ha Hb); lia|done|done|]. intros q Hq. assert (p <> q) by (intros ->; done).
  rewrite !vget_vset_ne by done. apply Hps. by right.
Qed.

Lemma dot_zeros n : forall idx, dot (replicate n 0) idx = 0.
Proof. induction n as [|n IH]; intros [|i idx]; cbn [dot replicate]; try done. by rewrite IH. Qed.

Lemma dot_leading n strides idx : dot (replicate n 0 ++ strides) (replicate n 0 ++ idx) = dot strides idx.
Proof. induction n as [|n IH]; cbn; [done|]. by rewrite IH. Qed.

Lemma vget_scatter_ne ps : forall xs l q, q ∉ ps -> vget (scatter ps xs l) q = vget l q.
Proof.
  induction ps as [|p ps IH]; intros [|x xs] l q Hq; cbn; try done. apply not_elem_of_cons in Hq as [Hq1 Hq2].
  by rewrite IH, vget_vset_ne.
Qed.

Lemma vget_scatter ps : NoDup ps -> forall xs l i p x, (forall p, p ∈ ps -> 0 <= p < size_ l) ->
  ps !! i = Some p -> xs !! i = Some x -> vget (scatter ps xs l) p = Some x.
Proof.
  induction 1 as [|p0 ps Hp _ IH]; intros [|x0 xs] l [|i] p x Hr Hpi Hxi; cbn in *; try done.
  - injection Hpi as ->. injection Hxi as ->. rewrite vget_scatter_ne by done. apply vget_vset_eq, Hr. left.
  - apply (IH xs _ i p x); [|done|done]. intros q Hq. rewrite size_vset. apply Hr. by right.
Qed.

(** The place of each axis, and how many dimensions there are. *)
Definition dimension_count (layout : DmlTensorLayout) : Z :=
  if bool_decide (axis_D ∈ layout) then kNcdhwDimensionCount else kNchwDimensionCount.

Definition place (count : Z) (axis : DmlTensorAxis) : Z :=
  match axis with
  | axis_N => 0
  | axis_C => 1
  | axis_D => 2
  | axis_H => if count =? kNchwDimensionCount then 2 else 3
  | axis_W => if count =? kNchwDimensionCount then 3 else 4
  end.

Definition places (layout : DmlTensorLayout) : list Z := map (place (dimension_count layout)) layout.

(** The value of each axis of the layout at its place, [x] at the others. *)
Definition at_places (layout : DmlTensorLayout) (x : Z) (values : list Z) : list Z :=
  scatter (places layout) values (replicate (Z.to_nat (dimension_count layout)) x).

Lemma place_ok layout axis : axis ∈ layout -> let n := dimension_count layout in
  GetDmlDimensionIndex axis n = Ok (place n axis) /\ 0 <= place n axis < n.
Proof.
  unfold dimension_count. case_bool_decide as E; cbv zeta; [by destruct axis|]. intros Ha. destruct axis; done.
Qed.

Lemma place_inj layout a b : a ∈ layout -> b ∈ layout ->
  place (dimension_count layout) a = place (dimension_count layout) b -> a = b.
Proof. unfold dimension_count. case_bool_decide as E; destruct a, b; try done. Qed.

Lemma places_NoDup layout : NoDup layout -> NoDup (places layout).
Proof.
  intros Hnd. unfold places. assert (forall l, (forall a, a ∈ l -> a ∈ layout) -> NoDup l -> NoDup (map (place (dimension_count layout)) l)) as H; [|by apply H].
  induction l as [|a l IH]; intros Hl Hn; [constructor|]. apply NoDup_cons in Hn as [Ha Hn]. cbn. constructor.
  - intros (b & Hb & Hin)%list_elem_of_fmap. apply place_inj in Hb as ->; [done|apply Hl; left|apply Hl; by right].
  - apply IH; [|done]. intros b Hb. apply Hl. by right.
Qed.

Lemma places_range layout p : p ∈ places layout -> 0 <= p < dimension_count layout.
Proof. intros (a & -> & Ha)%list_elem_of_fmap. by apply place_ok. Qed.

Lemma swizzle_spec layout l : (forall a, a ∈ l -> a ∈ layout) -> forall ds ss dml_sizes dml_strides,
  length ds = length l -> length ss = length l ->
  size_ dml_sizes = dimension_count layout -> size_ dml_strides = dimension_count layout ->
  let ps := map (place (dimension_count layout)) l in
  swizzle l (dimension_count layout) ds ss dml_sizes dml_strides = Ok (scatter ps ds dml_sizes, scatter ps ss dml_strides).
Proof.
  induction l as [|a l IH]; intros Hl [|d ds] [|s ss] zs ts Hd Hs Hz Ht ps; try done.
  destruct (place_ok layout a) as [Hi Hr]; [apply Hl; left|]. cbn [swizzle]. rewrite Hi. cbn [mbind result_bind]. unfold store.
  destruct (vget_ex zs (place (dimension_count layout) a)) as [z0 Hz0]; [lia|]. destruct (vget_ex ts (place (dimension_count layout) a)) as [t0 Ht0]; [lia|].
  rewrite (at_Some _ _ _ Hz0), (at_Some _ _ _ Ht0). cbn [mbind result_bind mret result_ret]. injection Hd as Hd. injection Hs as Hs.
  apply IH; rewrite ?size_vset; try done. intros b Hb. apply Hl. by right.
Qed.

Lemma length_at_places layout x values : length (at_places layout x values) = Z.to_nat (dimension_count layout).
Proof.
  unfold at_places. pose proof (size_scatter (places layout) values (replicate (Z.to_nat (dimension_count layout)) x)) as H.
  rewrite size_replicate in H. unfold size_ in H. lia.
Qed.

Lemma size_at_places layout x values : size_ (at_places layout x values) = dimension_count layout.
Proof. unfold size_. rewrite length_at_places. unfold dimension_count. by case_bool_decide. Qed.

Lemma layout_short (layout : list DmlTensorAxis) : NoDup layout -> size_ layout <= 5.
Proof.
  intros Hn. pose proof (submseteq_length layout [axis_N; axis_C; axis_D; axis_H; axis_W]) as H. unfold size_. cbn in H.
  assert (layout ⊆+ [axis_N; axis_C; axis_D; axis_H; axis_W]) as Hs; [|specialize (H Hs); lia].
  apply NoDup_submseteq; [done|]. intros [] _; set_solver.
Qed.

(** A data type that DirectML has. *)
Definition supported (t : TF_DataType) : Prop := match t with TF_other_type _ => False | _ => True end.

Lemma supported_types t : supported t ->
  exists dt t', GetDmlDataTypeFromTfDataType t = Ok dt /\ GetTfDataTypeFromDmlDataType dt = Ok t' /\ (t <> TF_BOOL -> t' = t).
Proof. destruct t; [..|done]; intros _; eexists _, _; (split; [reflexivity|]); (split; [reflexivity|]); done. Qed.

Section create.
Context {DX : DirectMLX} (type : TF_DataType) (ds nb : list Z) (alignment : Z).
Context (Htype : supported type) (Hds : dims_positive ds) (Hnb : fits_u32 nb) (Hle : (length nb <= length ds)%nat).
#[local] Notation ns := (aligned (length ds) nb).

(** What is said of a description [d] whose coordinates are those of the shape put
    to their places by [f]. *)
Definition describes (d : DmlTensorDesc) (sizes : list Z) (f : list Z -> list Z) : Prop :=
  IsValid d = true /\ sizes_ d = sizes /\ length (GetStrides d) = length sizes /\
  forall k, 0 <= k < Zprod ds -> dot (GetStrides d) (f (unravel ds k)) = broadcast_index ns ds k.

Lemma length_unravel s k : length (unravel s k) = length s.
Proof. induction s; cbn; congruence. Qed.

Lemma make_desc_ok dt t' sizes strides : GetTfDataTypeFromDmlDataType dt = Ok t' ->
  size_ sizes <= DML_TENSOR_DIMENSION_COUNT_MAX1 -> length strides = length sizes ->
  exists d, make_DmlTensorDesc dt sizes (Some strides) alignment 0 = Ok d /\ IsValid d = true /\ sizes_ d = sizes /\ GetStrides d = strides.
Proof.
  intros Ht Hs Hl. unfold make_DmlTensorDesc. rewrite Ht. cbn [mbind result_bind].
  rewrite (proj2 (Z.leb_le _ _) Hs). cbn [CHECK mbind result_bind]. assert (size_ strides =? size_ sizes = true) as -> by (apply Z.eqb_eq; unfold size_; lia).
  eexists. split; [reflexivity|done].
Qed.

Lemma CreateWithLayout_reads (layout : DmlTensorLayout) : NoDup layout -> layout <> [] -> length layout = length ds ->
  (Forall2 stretches ds ns -> exists d, CreateWithLayout type ds nb layout alignment = Ok d /\
     describes d (at_places layout 1 ds) (at_places layout 0)) /\
  (~ Forall2 stretches ds ns -> CreateWithLayout type ds nb layout alignment = Fault CheckFailed).
Proof.
  intros Hnd Hne Hl. pose proof (layout_short _ Hnd) as Hsh. unfold size_ in Hsh.
  assert (size_ nb <=? size_ ds = true) as E1 by (apply Z.leb_le; unfold size_; lia).
  assert (size_ ds <=? DML_TENSOR_DIMENSION_COUNT_MAX = true) as E2 by (apply Z.leb_le; unfold size_, DML_TENSOR_DIMENSION_COUNT_MAX; lia).
  assert (size_ layout =? size_ ds = true) as E3 by (apply Z.eqb_eq; unfold size_; lia).
  unfold CreateWithLayout. rewrite E1, E2, E3, (bool_decide_false (layout = [])), (bool_decide_true (NoDup layout)) by done. cbn [CHECK ASSERT negb mbind result_bind].
  destruct (ComputeStrides_spec ds nb Hle Hnb) as [Hok Hbad]. split; intros Hc; [|by rewrite (Hbad Hc)]. rewrite (Hok Hc). cbn [mbind result_bind].
  fold (dimension_count layout). pose proof (length_broadcast_strides ds ns (length_ns ds nb Hle)) as Hbs.
  assert (0 <= dimension_count layout <= 8) as Hdc by (unfold dimension_count; by case_bool_decide).
  rewrite (swizzle_spec layout layout) by (try done; try congruence; rewrite size_replicate; lia). cbn [mbind result_bind].
  destruct (supported_types type Htype) as (dt & t' & -> & Ht' & _). cbn [mbind result_bind].
  destruct (make_desc_ok dt t' (at_places layout 1 ds) (at_places layout 0 (broadcast_strides ds ns)) Ht') as (d & Hd & H1 & H2 & H3).
  { rewrite size_at_places. unfold DML_TENSOR_DIMENSION_COUNT_MAX1. lia. }
  { by rewrite !length_at_places. }
  exists d. split; [exact Hd|]. split; [done|]. split; [done|]. rewrite H3. split.
  { by rewrite !length_at_places. }
  intros k Hk. unfold at_places. rewrite dot_scatter.
  - rewrite dot_zeros. by apply strides_read.
  - by apply places_NoDup.
  - unfold places. rewrite length_map. congruence.
  - unfold places. rewrite length_map, length_unravel. done.
  - intros p Hp%places_range. rewrite vget_replicate by lia. eauto.
Qed.
Lemma Create_reads (add_leading_dimensions : bool) : (length ds <= 8)%nat ->
  let m := if add_leading_dimensions then (4 - length ds)%nat else 0%nat in
  (Forall2 stretches ds ns -> exists d, Create type ds nb alignment add_leading_dimensions = Ok d /\
     describes d (replicate m 1 ++ ds) (fun idx => replicate m 0 ++ idx)) /\
  (~ Forall2 stretches ds ns -> Create type ds nb alignment add_leading_dimensions = Fault CheckFailed).
Proof.
  intros H8 m. assert (size_ nb <=? size_ ds = true) as E1 by (apply Z.leb_le; unfold size_; lia).
  assert (size_ ds <=? DML_TENSOR_DIMENSION_COUNT_MAX1 = true) as E2 by (apply Z.leb_le; unfold size_, DML_TENSOR_DIMENSION_COUNT_MAX1; lia).
  unfold Create. rewrite E1, E2. cbn [CHECK mbind result_bind].
  destruct (ComputeStrides_spec ds nb Hle Hnb) as [Hok Hbad]. split; intros Hc; [|by rewrite (Hbad Hc)]. rewrite (Hok Hc). cbn [mbind result_bind].
  assert ((if add_leading_dimensions && (size_ ds <? kNchwDimensionCount) then Z.to_nat (kNchwDimensionCount - size_ ds) else 0%nat) = m) as ->.
  { unfold m, kNchwDimensionCount, size_. destruct add_leading_dimensions; cbn [andb]; [|done]. destruct (Z.ltb_spec (Z.of_nat (length ds)) 4); lia. }
  destruct (supported_types type Htype) as (dt & t' & -> & Ht' & _). cbn [mbind result_bind].
  pose proof (length_broadcast_strides ds ns (length_ns ds nb Hle)) as Hbs.
  destruct (make_desc_ok dt t' (replicate m 1 ++ ds) (replicate m 0 ++ broadcast_strides ds ns) Ht') as (d & Hd & H1 & H2 & H3).
  { unfold size_, DML_TENSOR_DIMENSION_COUNT_MAX1. rewrite length_app, length_replicate. unfold m. destruct add_leading_dimensions; lia. }
  { rewrite !length_app, !length_replicate. lia. }
  exists d. split; [exact Hd|]. split; [done|]. split; [done|]. rewrite H3. split; [rewrite !length_app, !length_replicate; lia|].
  intros k Hk. rewrite dot_leading. by apply strides_read.
Qed.
End create.

(** C20: A tensor description that [DmlTensorDesc::Create] makes reads a tensor as
    broadcast to the shape asked for.  With a layout the sizes stand at the places
    of their axes in NCHW or NCDHW order, the missing ones being 1, without one
    they are padded in front to four; in either case the strides lead every
    element of the broadcast shape to the element of the physical tensor that
    broadcasting defines.  When the shapes do not broadcast the CHECK fails. *)
Theorem tensor_descriptions_read_broadcast {DX : DirectMLX} type ds nb alignment :
  supported type -> dims_positive ds -> fits_u32 nb -> (length nb <= length ds)%nat ->
  let broadcasts := Forall2 stretches ds (aligned (length ds) nb) in
  (forall layout : DmlTensorLayout, NoDup layout -> layout <> [] -> length layout = length ds ->
     (broadcasts -> exists d, CreateWithLayout type ds nb layout alignment = Ok d /\
        describes ds nb d (at_places layout 1 ds) (at_places layout 0)) /\
     (~ broadcasts -> CreateWithLayout type ds nb layout alignment = Fault CheckFailed)) /\
  (forall add_leading_dimensions : bool, (length ds <= 8)%nat ->
     let m := if add_leading_dimensions then (4 - length ds)%nat else 0%nat in
     (broadcasts -> exists d, Create type ds nb alignment add_leading_dimensions = Ok d /\
        describes ds nb d (replicate m 1 ++ ds) (fun idx => replicate m 0 ++ idx)) /\
     (~ broadcasts -> Create type ds nb alignment add_leading_dimensions = Fault CheckFailed)).
Proof.
  intros Ht Hd Hn Hl broadcasts. split; [intros layout H1 H2 H3; by apply CreateWithLayout_reads|intros leading H8; by apply Create_reads].
Qed.

(** ** Layouts of formats, packed strides, narrowed shapes *)

(** The layouts that [CreateWithLayout] is called with satisfy its conditions. *)
Lemma GetDmlTensorLayout_ok format rank : format = FORMAT_NHWC \/ format = FORMAT_NCHW -> 1 <= rank <= 5 ->
  exists layout : list DmlTensorAxis, GetDmlTensorLayout format rank = Ok layout /\ NoDup layout /\ layout <> [] /\ size_ layout = rank.
Proof.
  intros Hf Hr. assert (rank = 1 \/ rank = 2 \/ rank = 3 \/ rank = 4 \/ rank = 5) as Hc by lia.
  destruct Hf as [->| ->], Hc as [->|[->|[->|[->| ->]]]]; (eexists; split; [reflexivity|]);
    (split; [apply (bool_decide_unpack _); exact I|done]).
Qed.

Lemma packed_loop_spec s s1 : forall s2, s = s1 ++ s2 -> fits_u32 s ->
  packed_loop s (length s1) (Zprod s2) (replicate (length s1) 0 ++ broadcast_strides s2 s2) = Ok (broadcast_strides s s).
Proof.
  induction s1 as [|d s1 IH] using rev_ind; intros s2 Es Hf; [by rewrite Es|]. rewrite <- app_assoc in Es. cbn [app] in Es.
  assert (s !! length s1 = Some d) as Hd by (rewrite Es; by apply list_lookup_middle).
  rewrite length_app, Nat.add_1_r. cbn [packed_loop]. rewrite (at_Some s _ d) by (by rewrite vget_nat). cbn [mbind result_bind].
  rewrite vset_zeros. pose proof (IH (d :: s2) Es Hf) as H. cbn [broadcast_strides] in H. rewrite Z.eqb_refl in H. rewrite <- H.
  f_equal. assert (fits_u32 (d :: s2)) as [Hp Hs] by (apply (fits_suffix s1); by rewrite <- Es). apply Forall_cons in Hp as [H1 Hp].
  pose proof (Zprod_pos _ Hp). rewrite Zprod_cons in *. rewrite Z.mul_comm. apply u32_small. nia.
Qed.

(** The packed strides are those of a tensor that is not broadcast: the offset of
    an element is its number in row-major order. *)
Lemma ComputePackedStrides_row_major sizes : fits_u32 sizes ->
  exists strides, ComputePackedStrides sizes = Ok strides /\
    forall k, dot strides (unravel sizes k) = broadcast_index sizes sizes k.
Proof.
  intros Hf. exists (broadcast_strides sizes sizes). pose proof (packed_loop_spec sizes sizes [] ltac:(by rewrite app_nil_r) Hf) as H.
  rewrite app_nil_r in H. split; [exact H|]. intros k. apply strides_read; [|apply Hf]. clear. induction sizes; constructor; [by left|done].
Qed.

Lemma NarrowTensorShape_decides s : Forall (fun d => 0 <= d < 2 ^ 32) (dim_sizes_ s) -> NarrowTensorShape s = Ok (dim_sizes_ s).
Proof.
  unfold NarrowTensorShape. induction 1 as [|d l Hd _ IH]; [done|]. cbn [narrow_dims].
  rewrite (proj2 (Z.leb_le 0 d)), (proj2 (Z.leb_le d _)) by lia. cbn [andb CHECK mbind result_bind]. by rewrite IH.
Qed.

#[local] Instance no_size : DirectMLX := {| DMLCalcBufferTensorSize _ _ _ := 0 |}.

(** A tensor of shape [2,1,4] read as [2,3,4], as in the comment of the code, and
    in the layout NHC. *)
Lemma tensor_descriptions_read_broadcast_witness :
  exists d, CreateWithLayout TF_FLOAT [2; 3; 4] [2; 1; 4] [axis_N; axis_H; axis_C] 0 = Ok d /\
    sizes_ d = [2; 4; 3; 1] /\ GetStrides d = [4; 1; 0; 0] /\
    describes [2; 3; 4] [2; 1; 4] d (at_places [axis_N; axis_H; axis_C] 1 [2; 3; 4]) (at_places [axis_N; axis_H; axis_C] 0).
Proof.
  destruct (tensor_descriptions_read_broadcast TF_FLOAT [2; 3; 4] [2; 1; 4] 0) as [H _]; [done|by repeat constructor|split; [by repeat constructor|done]|cbn; lia|].
  destruct (H [axis_N; axis_H; axis_C]) as [Hd _]; [apply (bool_decide_unpack _); exact I|done|done|].
  destruct Hd as (d & Hd & Hr); [constructor; [by left|constructor; [by right|constructor; [by left|constructor]]]|].
  exists d. split; [exact Hd|]. injection Hd as <-. split; [reflexivity|]. split; [reflexivity|exact Hr].
Defined.
