(* ===== verification/GraphView.v ===== *)
(** * GraphView: the mutable view of a graph (optimizer/graph_view,
    graph_view_internal.h)

    The data of [MutableGraphView], its lookups and its construction from a
    GraphDef.  A NodeDef carries the address by which [fanins_count_] is keyed:
    the protobuf containers exchange pointers, so a node keeps its address when
    it moves.  The pointer of a view to its graph is left out: all the views
    of the containers have the same. *)

From S2P Require Import Prelude Vec TensorName.
#[local] Open Scope string_scope.
#[local] Open Scope list_scope.
#[local] Open Scope Z_scope.

Definition kMissingSlot : Z := -2.
Definition kMissingIndex : Z := -1.
Definition kNodeNamePresent : Z := -1.

(** [tensorflow::NodeDef]; the values of attributes are opaque. *)
Record NodeDef {AttrValue : Type} := mk_NodeDef {
  address : Z;
  name : string;
  op : string;
  device : string;
  input : list string;
  attr : gmap string AttrValue
}.
Arguments NodeDef : clear implicits.
Arguments mk_NodeDef {_} _ _ _ _ _ _.

(** An entry of the fanouts of a node: the input [fanin_port_index] of the node
    [fanin_node_index]; [fanin_index_] is the position of the matching entry in
    the fanins of that node. *)
Record MutableFaninView := mk_FaninView {
  fanin_node_index : Z;
  fanin_port_index : Z;
  fanin_index_ : Z
}.

(** An entry of the fanins of a node: the output [fanout_port_index] of the node
    [fanout_node_index]; [fanout_index_] is the position of the matching entry
    in the fanouts of that output. *)
Record MutableFanoutView := mk_FanoutView {
  fanout_node_index : Z;
  fanout_port_index : Z;
  fanout_index_ : Z
}.

#[export] Instance FaninView_eq_dec : EqDecision MutableFaninView.
Proof. solve_decision. Defined.
#[export] Instance FanoutView_eq_dec : EqDecision MutableFanoutView.
Proof. solve_decision. Defined.

Record MutableNodeView := mk_NodeView {
  regular_fanins_ : list MutableFanoutView;
  controlling_fanins_ : list MutableFanoutView;
  regular_fanouts_by_port_ : list (list MutableFaninView);
  num_regular_fanouts_ : Z;
  controlled_fanouts_ : list MutableFaninView;
  node_index_ : Z;
  fanins_count_ : gmap (Z * Z) Z;
  controlling_fanins_index_ : gmap string Z;
  update_index_ : Z
}.

(** [MutableNodeView(graph_view, node_index)] *)
Definition make_NodeView (node_index : Z) : MutableNodeView :=
  mk_NodeView [] [] [] 0 [] node_index ∅ ∅ kMissingIndex.

Definition set_regular_fanins l v := mk_NodeView l (controlling_fanins_ v)
  (regular_fanouts_by_port_ v) (num_regular_fanouts_ v) (controlled_fanouts_ v)
  (node_index_ v) (fanins_count_ v) (controlling_fanins_index_ v) (update_index_ v).
Definition set_controlling_fanins l v := mk_NodeView (regular_fanins_ v) l
  (regular_fanouts_by_port_ v) (num_regular_fanouts_ v) (controlled_fanouts_ v)
  (node_index_ v) (fanins_count_ v) (controlling_fanins_index_ v) (update_index_ v).
Definition set_regular_fanouts l n v := mk_NodeView (regular_fanins_ v) (controlling_fanins_ v)
  l n (controlled_fanouts_ v)
  (node_index_ v) (fanins_count_ v) (controlling_fanins_index_ v) (update_index_ v).
Definition set_controlled_fanouts l v := mk_NodeView (regular_fanins_ v) (controlling_fanins_ v)
  (regular_fanouts_by_port_ v) (num_regular_fanouts_ v) l
  (node_index_ v) (fanins_count_ v) (controlling_fanins_index_ v) (update_index_ v).
Definition set_fanins_count m v := mk_NodeView (regular_fanins_ v) (controlling_fanins_ v)
  (regular_fanouts_by_port_ v) (num_regular_fanouts_ v) (controlled_fanouts_ v)
  (node_index_ v) m (controlling_fanins_index_ v) (update_index_ v).
Definition set_controlling_fanins_index m v := mk_NodeView (regular_fanins_ v) (controlling_fanins_ v)
  (regular_fanouts_by_port_ v) (num_regular_fanouts_ v) (controlled_fanouts_ v)
  (node_index_ v) (fanins_count_ v) m (update_index_ v).
Definition set_update_index i v := mk_NodeView (regular_fanins_ v) (controlling_fanins_ v)
  (regular_fanouts_by_port_ v) (num_regular_fanouts_ v) (controlled_fanouts_ v)
  (node_index_ v) (fanins_count_ v) (controlling_fanins_index_ v) i.

(** [NodeViewDiff] *)
Record NodeViewDiff {AttrValue : Type} := mk_Diff {
  diff_node_index : Z;
  diff_name : string;
  update_name : bool;
  diff_op : string;
  update_op : bool;
  diff_device : string;
  update_device : bool;
  regular_inputs_to_add : list TensorId;
  num_regular_inputs_to_add : Z;
  regular_inputs_to_update : gmap Z TensorId;
  regular_inputs_to_remove : list bool;
  num_regular_inputs_to_remove : Z;
  controlling_inputs_to_add : gset string;
  controlling_inputs_to_remove : gset Z;
  attrs_to_add : gmap string AttrValue;
  attrs_to_remove : gset string;
  processed_attrs : option (gmap string AttrValue)
}.
Arguments NodeViewDiff : clear implicits.
Arguments mk_Diff {_} _ _ _ _ _ _ _ _ _ _ _ _ _ _ _ _ _.

(** [NewNode] *)
Record NewNode {AttrValue : Type} := mk_NewNode {
  new_node : NodeDef AttrValue;
  new_regular_fanins : list TensorId;
  num_regular_fanins : Z;
  new_controlling_fanins : gset string
}.
Arguments NewNode : clear implicits.
Arguments mk_NewNode {_} _ _ _ _.

(** [Mutation] *)
Record Mutation {AttrValue : Type} := mk_Mutation {
  mutation_counter_ : Z;
  updated_nodes_ : list (NodeViewDiff AttrValue);
  removed_nodes_ : gset Z;
  new_nodes_ : list (NewNode AttrValue)
}.
Arguments Mutation : clear implicits.
Arguments mk_Mutation {_} _ _ _ _.

Record MutableGraphView {AttrValue : Type} := mk_GraphView {
  graph : list (NodeDef AttrValue);
  nodes_ : list MutableNodeView;
  node_index_by_name_ : gmap string Z;
  mutation_ : Mutation AttrValue
}.
Arguments MutableGraphView : clear implicits.
Arguments mk_GraphView {_} _ _ _ _.

Section graph_view.
  Context {AttrValue : Type}.
  #[local] Notation G := (MutableGraphView AttrValue).
  #[local] Notation M := (ST G).

Definition set_graph (l : list (NodeDef AttrValue)) (g : G) : G :=
  mk_GraphView l (nodes_ g) (node_index_by_name_ g) (mutation_ g).
Definition set_nodes (l : list MutableNodeView) (g : G) : G :=
  mk_GraphView (graph g) l (node_index_by_name_ g) (mutation_ g).
Definition set_node_index_by_name (m : gmap string Z) (g : G) : G :=
  mk_GraphView (graph g) (nodes_ g) m (mutation_ g).
Definition set_mutation (m : Mutation AttrValue) (g : G) : G :=
  mk_GraphView (graph g) (nodes_ g) (node_index_by_name_ g) m.

(** Accesses to [nodes_[i]] and [graph_->node(i)]. *)
Definition node_at (i : Z) : M MutableNodeView := g ← get; lift (at_ (nodes_ g) i).
Definition node_def_at (i : Z) : M (NodeDef AttrValue) := g ← get; lift (at_ (graph g) i).
Definition update_node (i : Z) (f : MutableNodeView -> MutableNodeView) : M unit :=
  v ← node_at i; modify (fun g => set_nodes (vset (nodes_ g) i (f v)) g).
Definition update_node_def (i : Z) (f : NodeDef AttrValue -> NodeDef AttrValue) : M unit :=
  d ← node_def_at i; modify (fun g => set_graph (vset (graph g) i (f d)) g).

Definition set_input (l : list string) (d : NodeDef AttrValue) : NodeDef AttrValue :=
  mk_NodeDef (address d) (name d) (op d) (device d) l (attr d).

(** ** Lookups *)

(** [GetNode(int)] and [GetNode(string_view)]: the index of the node found. *)
Definition GetNode_by_index (g : G) (node_index : Z) : option MutableNodeView :=
  if (node_index <? 0) || (size_ (nodes_ g) <=? node_index) then None else vget (nodes_ g) node_index.
Definition GetNode_by_name (g : G) (node_name : string) : option Z := node_index_by_name_ g !! node_name.
Definition HasNode (g : G) (node_name : string) : bool := bool_decide (is_Some (node_index_by_name_ g !! node_name)).
Definition NumNodes (g : G) : Z := size_ (nodes_ g).
Definition NumRegularFanins (v : MutableNodeView) : Z := size_ (regular_fanins_ v).
Definition NumControllingFanins (v : MutableNodeView) : Z := size_ (controlling_fanins_ v).
Definition NumControlledFanouts (v : MutableNodeView) : Z := size_ (controlled_fanouts_ v).

Definition missing_fanin_ : MutableFanoutView := mk_FanoutView kMissingIndex kMissingSlot kMissingIndex.

Definition GetRegularFanin (v : MutableNodeView) (i : Z) : MutableFanoutView :=
  if (i <? 0) || (NumRegularFanins v <=? i) then missing_fanin_
  else default missing_fanin_ (vget (regular_fanins_ v) i).
Definition GetRegularFanout (v : MutableNodeView) (i : Z) : list MutableFaninView :=
  if (i <? 0) || (size_ (regular_fanouts_by_port_ v) <=? i) then []
  else default [] (vget (regular_fanouts_by_port_ v) i).

(** [HasFanin]: the count is keyed by the address of the fanin's NodeDef. *)
Definition HasFanin (g : G) (v : MutableNodeView) (fanin : MutableFanoutView) : result bool :=
  if fanout_port_index fanin <? kControlSlot then mret false
  else d ← at_ (graph g) (fanout_node_index fanin);
       mret (bool_decide (is_Some (fanins_count_ v !! (address d, fanout_port_index fanin)))).

Definition HasFanout (g : G) (v : MutableNodeView) (fanout : MutableFaninView) : result bool :=
  if fanin_port_index fanout <? kControlSlot then mret false
  else match GetNode_by_index g (fanin_node_index fanout) with
       | None => mret false
       | Some view =>
           if fanin_port_index fanout =? kControlSlot then
             d ← at_ (graph g) (node_index_ v);
             mret (bool_decide (is_Some (fanins_count_ view !! (address d, kControlSlot))))
           else if size_ (regular_fanins_ view) <=? fanin_port_index fanout then mret false
           else w ← at_ (regular_fanins_ view) (fanin_port_index fanout);
                mret (fanout_node_index w =? node_index_ v)
       end.

(** ** Fanin counts *)

Definition IncrementFaninCount (m : gmap (Z * Z) Z) (k : Z * Z) : gmap (Z * Z) Z :=
  <[k := default 0 (m !! k) + 1]> m.
Definition DecrementFaninCount (m : gmap (Z * Z) Z) (k : Z * Z) : gmap (Z * Z) Z :=
  match m !! k with
  | Some c => if c <=? 1 then delete k m else <[k := c - 1]> m
  | None => m
  end.

(** ** Construction *)

(** [AddUniqueNodeInternal]; [node] is the next node of the graph. *)
Definition AddUniqueNodeInternal (node : NodeDef AttrValue) : M bool :=
  g ← get;
  let node_index := Z.of_nat (size (node_index_by_name_ g)) in
  match node_index_by_name_ g !! name node with
  | Some _ => mret false
  | None =>
      put (set_nodes (nodes_ g ++ [make_NodeView node_index])
             (set_node_index_by_name (<[name node := node_index]> (node_index_by_name_ g)) g));;
      mret true
  end.

Fixpoint add_unique_nodes (l : list (NodeDef AttrValue)) : M (option string) :=
  match l with
  | [] => mret None
  | node :: l => b ← AddUniqueNodeInternal node; if b : bool then add_unique_nodes l else mret (Some (name node))
  end.

Definition kMutableGraphViewError : string := "MutableGraphView::MutableGraphView error: ".

(** The loop of [CheckFaninsInternal] over the inputs of one node. *)
Fixpoint check_inputs (g : G) (node_name : string) (inputs : list string) (has_observed_control : bool)
    : Status + list TensorId :=
  match inputs with
  | [] => inr []
  | input :: inputs =>
      let fanin_id := ParseTensorName input in
      if bool_decide (TensorName.node fanin_id = node_name) then
        inl (InvalidArgument (kMutableGraphViewError +:+ "node '" +:+ node_name +:+ "' has self cycle fanin '" +:+ input +:+ "'."))
      else
        let is_control := IsTensorIdControl fanin_id in
        if negb is_control && has_observed_control then
          inl (InvalidArgument (kMutableGraphViewError +:+ "node '" +:+ node_name +:+ "' has regular fanin '" +:+ input +:+ "' after controlling fanins."))
        else if negb (HasNode g (TensorName.node fanin_id)) then
          inl (InvalidArgument (kMutableGraphViewError +:+ "node '" +:+ node_name +:+ "' has missing fanin '" +:+ input +:+ "'."))
        else match check_inputs g node_name inputs (has_observed_control || is_control) with
             | inr node_fanins => inr (fanin_id :: node_fanins)
             | inl s => inl s
             end
  end.

Fixpoint check_nodes (g : G) (l : list (NodeDef AttrValue)) : Status + list (list TensorId) :=
  match l with
  | [] => inr []
  | node :: l =>
      match check_inputs g (name node) (input node) false with
      | inl s => inl s
      | inr node_fanins =>
          match check_nodes g l with inr fanins => inr (node_fanins :: fanins) | inl s => inl s end
      end
  end.

Definition CheckFaninsInternal : M (Status + list (list TensorId)) :=
  g ← get; mret (check_nodes g (graph g)).

(** *** Edges

    The statements that enter an edge into both its ends, shared by the
    construction and by the mutations.  [push_regular_fanout] adds the input [k]
    of node [i] to the fanouts of the output [port] of node [j], making room for
    the port, and gives its position; [connect_regular] adds the fanin as well. *)

Definition emplace {V} (m : gmap string V) (k : string) (v : V) : gmap string V :=
  match m !! k with Some _ => m | None => <[k := v]> m end.

Definition resize_ports (ports : list (list MutableFaninView)) (n : Z) : list (list MutableFaninView) :=
  if size_ ports <? n then (ports ++ replicate (Z.to_nat (n - size_ ports)) [])%list else ports.

Definition push_regular_fanout (j port i k : Z) : M Z :=
  w ← node_at j;
  let ports := resize_ports (regular_fanouts_by_port_ w) (port + 1) in
  fanouts ← lift (at_ ports port);
  update_node j (set_regular_fanouts (vset ports port (fanouts ++ [mk_FaninView i k k])) (num_regular_fanouts_ w + 1));;
  mret (size_ fanouts).

Definition increment_fanin_count (i j port : Z) : M unit :=
  d ← node_def_at j;
  update_node i (fun v => set_fanins_count (IncrementFaninCount (fanins_count_ v) (address d, port)) v).

Definition connect_regular (i j port : Z) : M unit :=
  v ← node_at i;
  f ← push_regular_fanout j port i (size_ (regular_fanins_ v));
  update_node i (fun v => set_regular_fanins (regular_fanins_ v ++ [mk_FanoutView j port f]) v);;
  increment_fanin_count i j port.

Definition connect_control (i j : Z) : M unit :=
  v ← node_at i;
  update_node j (fun w => set_controlled_fanouts
    (controlled_fanouts_ w ++ [mk_FaninView i kControlSlot (size_ (controlling_fanins_ v))]) w);;
  w ← node_at j;
  update_node i (fun v => set_controlling_fanins
    (controlling_fanins_ v ++ [mk_FanoutView j kControlSlot (size_ (controlled_fanouts_ w) - 1)]) v);;
  increment_fanin_count i j kControlSlot.

(** The loop of [AddFaninsInternal] over the fanins of node [i]: a repeated
    control edge is exchanged with the last fanin that is not settled yet. *)
Fixpoint add_fanins_loop (fuel : nat) (i pos last_pos : Z) (node_fanins : list TensorId)
    (observed_controls : gset string) : M Z :=
  match fuel with
  | O => lift (Fault NoFuel)
  | S fuel =>
      if last_pos <? pos then mret last_pos else
      fanin_id ← lift (at_ node_fanins pos);
      g ← get;
      let fanin_node_index := default 0 (node_index_by_name_ g !! TensorName.node fanin_id) in
      if IsTensorIdControl fanin_id then
        if bool_decide (TensorName.node fanin_id ∈ observed_controls) then
          d ← node_def_at i;
          l ← lift (swap_elements (input d) pos last_pos);
          update_node_def i (set_input l);;
          node_fanins' ← lift (swap_elements node_fanins pos last_pos);
          add_fanins_loop fuel i pos (last_pos - 1) node_fanins' observed_controls
        else
          connect_control i fanin_node_index;;
          update_node i (fun v => set_controlling_fanins_index
            (emplace (controlling_fanins_index_ v) (TensorName.node fanin_id) (pos - NumRegularFanins v)) v);;
          add_fanins_loop fuel i (pos + 1) last_pos node_fanins ({[TensorName.node fanin_id]} ∪ observed_controls)
      else
        connect_regular i fanin_node_index (TensorName.index fanin_id);;
        add_fanins_loop fuel i (pos + 1) last_pos node_fanins observed_controls
  end.

(** [DeleteSubrange(first, n)] of a range that ends at the end. *)
Definition truncate (l : list string) (n : Z) : list string := take (Z.to_nat n) l.

Definition add_node_fanins (i : Z) (node_fanins : list TensorId) : M unit :=
  let last_idx := size_ node_fanins - 1 in
  last_pos ← add_fanins_loop (S (length node_fanins)) i 0 last_idx node_fanins ∅;
  if last_pos <? last_idx then
    d ← node_def_at i; update_node_def i (set_input (truncate (input d) (last_pos + 1)))
  else mret tt.

Fixpoint AddFaninsInternal (i : Z) (fanins : list (list TensorId)) : M unit :=
  match fanins with
  | [] => mret tt
  | node_fanins :: fanins => add_node_fanins i node_fanins;; AddFaninsInternal (i + 1) fanins
  end.

Definition empty_mutation : Mutation AttrValue := mk_Mutation 0 [] ∅ [].

(** [Reset] of a view whose construction failed. *)
Definition Reset : M unit := modify (fun g => set_nodes [] (set_node_index_by_name ∅ g)).

(** The constructor [MutableGraphView(graph, status)]. *)
Definition construct : M Status :=
  g ← get;
  conflict ← add_unique_nodes (graph g);
  match conflict with
  | Some node_name =>
      Reset;;
      mret (InvalidArgument (kMutableGraphViewError +:+ "graph has multiple nodes with the name '" +:+ node_name +:+ "'."))
  | None =>
      r ← CheckFaninsInternal;
      match r with
      | inl s => Reset;; mret s
      | inr fanins =>
          AddFaninsInternal 0 fanins;;
          modify (set_mutation empty_mutation);;
          mret Status_OK
      end
  end.

Definition make_MutableGraphView (graph : list (NodeDef AttrValue)) : result (Status * G) :=
  construct (mk_GraphView graph [] ∅ empty_mutation).
End graph_view.
