(* ===== verification/GraphInv.v ===== *)
(** * GraphInv: when a view of a graph is consistent

    The invariant of [MutableGraphView]: views and NodeDefs stand at the same
    index, names give indices, every fanin has its entry among the fanouts of
    the node it comes from and the other way round, with the positions that each
    stores of the other, and the inputs of a NodeDef are the texts of the fanins
    of its view.  Fanins in [holes] have lost their entry (they are about to be
    replaced or removed). *)

From S2P Require Import Prelude Vec TensorName GraphView.
#[local] Open Scope string_scope.
#[local] Open Scope list_scope.
#[local] Open Scope Z_scope.

Section inv.
  Context {AttrValue : Type}.
  #[local] Notation G := (MutableGraphView AttrValue).
  Implicit Type g : G.

(** ** Edges as they are stored *)

Definition fanin_at g (i k : Z) : option MutableFanoutView :=
  v ← vget (nodes_ g) i; vget (regular_fanins_ v) k.
Definition fanout_at g (j p f : Z) : option MutableFaninView :=
  v ← vget (nodes_ g) j; l ← vget (regular_fanouts_by_port_ v) p; vget l f.
Definition control_fanin_at g (i k : Z) : option MutableFanoutView :=
  v ← vget (nodes_ g) i; vget (controlling_fanins_ v) k.
Definition control_fanout_at g (j f : Z) : option MutableFaninView :=
  v ← vget (nodes_ g) j; vget (controlled_fanouts_ v) f.

Definition name_of g (i : Z) : string := default "" (name <$> vget (graph g) i).
Definition address_of g (i : Z) : Z := default 0 (address <$> vget (graph g) i).

(** The tensor that a fanin names. *)
Definition fanin_id g (w : MutableFanoutView) : TensorId :=
  mk_TensorId (name_of g (fanout_node_index w)) (fanout_port_index w).

(** How often a fanin occurs in a list. *)
Definition occurrences (j p : Z) (l : list MutableFanoutView) : Z :=
  size_ (filter (fun w => fanout_node_index w = j /\ fanout_port_index w = p) l).

(** The fanins of node [i] that are no holes; [k] is the index of the first. *)
Fixpoint live (holes : gset (Z * Z)) (i k : Z) (l : list MutableFanoutView) : list MutableFanoutView :=
  match l with
  | [] => []
  | w :: l => if bool_decide ((i, k) ∈ holes) then live holes i (k + 1) l else w :: live holes i (k + 1) l
  end.

Record names_ok g : Prop := {
  ok_length : size_ (nodes_ g) = size_ (graph g);
  ok_index : forall i v, vget (nodes_ g) i = Some v -> node_index_ v = i;
  ok_names : forall s i, node_index_by_name_ g !! s = Some i <-> exists d, vget (graph g) i = Some d /\ name d = s;
  ok_address : forall i j d e, vget (graph g) i = Some d -> vget (graph g) j = Some e ->
    address d = address e -> i = j
}.

(** Fanins and fanouts that refer to each other: [FI i k] is fanin [k] of node
    [i], [FO j p f] fanout [f] of output [p] of node [j]; a fanout entry for the
    fanin [k] carries the input port [port k]. *)
Record matching (valid_port : Z -> Prop) (port : Z -> Z) (holes : gset (Z * Z))
    (FI : Z -> Z -> option MutableFanoutView) (FO : Z -> Z -> Z -> option MutableFaninView) : Prop := {
  m_fanin : forall i k w, FI i k = Some w ->
    valid_port (fanout_port_index w) /\
    ((i, k) ∉ holes ->
     FO (fanout_node_index w) (fanout_port_index w) (fanout_index_ w) = Some (mk_FaninView i (port k) k));
  m_fanout : forall j p f w, FO j p f = Some w ->
    fanin_port_index w = port (fanin_index_ w) /\ (fanin_node_index w, fanin_index_ w) ∉ holes /\
    FI (fanin_node_index w) (fanin_index_ w) = Some (mk_FanoutView j p f)
}.

Definition regular_matching holes g : Prop :=
  matching (fun p => 0 <= p) (fun k => k) holes (fanin_at g) (fanout_at g).
Record edges_ok (holes : gset (Z * Z)) g : Prop := {
  ok_regular : regular_matching holes g;
  ok_num_fanouts : forall j v, vget (nodes_ g) j = Some v ->
    num_regular_fanouts_ v = Zsum size_ (regular_fanouts_by_port_ v)
}.

Definition control_fanout_by_port g (j p f : Z) : option MutableFaninView :=
  if p =? kControlSlot then control_fanout_at g j f else None.
Definition controls_ok (holes : gset (Z * Z)) g : Prop :=
  matching (fun p => p = kControlSlot) (fun _ => kControlSlot) holes (control_fanin_at g) (control_fanout_by_port g).

(** The maps of a view that only repeat its fanins, as far as they are live. *)
Record index_ok (holes control_holes : gset (Z * Z)) g (i : Z) (v : MutableNodeView) : Prop := {
  ok_count : forall j p, 0 <= j < size_ (graph g) ->
    fanins_count_ v !! (address_of g j, p) =
      (let c := occurrences j p (live holes i 0 (regular_fanins_ v) ++ live control_holes i 0 (controlling_fanins_ v)) in
       if c =? 0 then None else Some c);
  ok_control_index : forall s k, controlling_fanins_index_ v !! s = Some k <->
    exists w, vget (controlling_fanins_ v) k = Some w /\ (i, k) ∉ control_holes /\
      name_of g (fanout_node_index w) = s;
  ok_fanin_range : forall w, w ∈ regular_fanins_ v ++ controlling_fanins_ v ->
    0 <= fanout_node_index w < size_ (graph g) /\ fanout_node_index w <> i;
  ok_count_known : forall a p, is_Some (fanins_count_ v !! (a, p)) -> a ∈ map address (graph g)
}.

(** The inputs of the NodeDef. *)
Definition inputs_ok g (d : NodeDef AttrValue) (v : MutableNodeView) : Prop :=
  map ParseTensorName (input d) = map (fanin_id g) (regular_fanins_ v ++ controlling_fanins_ v).

(** The view, whatever the inputs of the NodeDefs say. *)
Record core_ok (holes control_holes : gset (Z * Z)) g : Prop := {
  ok_names_ok : names_ok g;
  ok_edges : edges_ok holes g;
  ok_controls : controls_ok control_holes g;
  ok_index_ok : forall i v, vget (nodes_ g) i = Some v -> index_ok holes control_holes g i v
}.

Record view_ok g : Prop := {
  ok_core :> core_ok ∅ ∅ g;
  ok_inputs : forall i d v, vget (graph g) i = Some d -> vget (nodes_ g) i = Some v -> inputs_ok g d v
}.

Lemma ok_fanin holes g : edges_ok holes g -> forall i k w, fanin_at g i k = Some w ->
  0 <= fanout_port_index w /\
  ((i, k) ∉ holes ->
   fanout_at g (fanout_node_index w) (fanout_port_index w) (fanout_index_ w) = Some (mk_FaninView i k k)).
Proof. intros [He _]. apply He. Qed.

Lemma ok_fanout holes g : edges_ok holes g -> forall j p f w, fanout_at g j p f = Some w ->
  fanin_port_index w = fanin_index_ w /\
  fanin_at g (fanin_node_index w) (fanin_port_index w) = Some (mk_FanoutView j p f).
Proof.
  intros [He _] j p f w Hw. destruct (m_fanout _ _ _ _ _ He _ _ _ _ Hw) as (Hp & _ & Hf).
  split; [done|]. by rewrite Hp.
Qed.

Lemma ok_control_fanin holes g : controls_ok holes g -> forall i k w, control_fanin_at g i k = Some w ->
  fanout_port_index w = kControlSlot /\
  ((i, k) ∉ holes ->
   control_fanout_at g (fanout_node_index w) (fanout_index_ w) = Some (mk_FaninView i kControlSlot k)).
Proof.
  intros He i k w Hw. destruct (m_fanin _ _ _ _ _ He _ _ _ Hw) as [Hp Hf]. split; [done|].
  intros Hk. specialize (Hf Hk). by rewrite Hp in Hf.
Qed.

Lemma ok_control_fanout holes g : controls_ok holes g -> forall j f w, control_fanout_at g j f = Some w ->
  fanin_port_index w = kControlSlot /\
  control_fanin_at g (fanin_node_index w) (fanin_index_ w) = Some (mk_FanoutView j kControlSlot f).
Proof.
  intros He j f w Hw. destruct (m_fanout _ _ _ _ _ He j kControlSlot f w Hw) as (Hp & _ & Hf). done.
Qed.

(** Without holes. *)
Lemma regular_matching_full g :
  (forall i k w, fanin_at g i k = Some w ->
    0 <= fanout_port_index w /\
    fanout_at g (fanout_node_index w) (fanout_port_index w) (fanout_index_ w) = Some (mk_FaninView i k k)) ->
  (forall j p f w, fanout_at g j p f = Some w ->
    fanin_port_index w = fanin_index_ w /\
    fanin_at g (fanin_node_index w) (fanin_port_index w) = Some (mk_FanoutView j p f)) ->
  regular_matching ∅ g.
Proof.
  intros H1 H2. split; [intros i k w Hw; by destruct (H1 i k w Hw)|].
  intros j p f w Hw. destruct (H2 j p f w Hw) as [Hp Hf]. split; [done|]. split; [set_solver|]. by rewrite <- Hp.
Qed.

Lemma controls_ok_full g :
  (forall i k w, control_fanin_at g i k = Some w ->
    fanout_port_index w = kControlSlot /\
    control_fanout_at g (fanout_node_index w) (fanout_index_ w) = Some (mk_FaninView i kControlSlot k)) ->
  (forall j f w, control_fanout_at g j f = Some w ->
    fanin_port_index w = kControlSlot /\
    control_fanin_at g (fanin_node_index w) (fanin_index_ w) = Some (mk_FanoutView j kControlSlot f)) ->
  controls_ok ∅ g.
Proof.
  intros H1 H2. split.
  - intros i k w Hw. destruct (H1 i k w Hw) as [Hp Hf]. split; [done|]. intros _. by rewrite Hp.
  - intros j p f w. unfold control_fanout_by_port. destruct (Z.eqb_spec p kControlSlot) as [->|]; [|done].
    intros Hw. destruct (H2 j f w Hw) as [Hp Hf]. split; [done|]. split; [set_solver|done].
Qed.

Lemma fanin_at_Some g i k w : fanin_at g i k = Some w <->
  exists v, vget (nodes_ g) i = Some v /\ vget (regular_fanins_ v) k = Some w.
Proof. unfold fanin_at. rewrite bind_Some. done. Qed.
Lemma fanout_at_Some g j p f w : fanout_at g j p f = Some w <->
  exists v l, vget (nodes_ g) j = Some v /\ vget (regular_fanouts_by_port_ v) p = Some l /\ vget l f = Some w.
Proof. unfold fanout_at. rewrite bind_Some. setoid_rewrite bind_Some. naive_solver. Qed.
Lemma control_fanin_at_Some g i k w : control_fanin_at g i k = Some w <->
  exists v, vget (nodes_ g) i = Some v /\ vget (controlling_fanins_ v) k = Some w.
Proof. unfold control_fanin_at. rewrite bind_Some. done. Qed.
Lemma control_fanout_at_Some g j f w : control_fanout_at g j f = Some w <->
  exists v, vget (nodes_ g) j = Some v /\ vget (controlled_fanouts_ v) f = Some w.
Proof. unfold control_fanout_at. rewrite bind_Some. done. Qed.

(** ** The edges of the graph *)

(** Node [v] has a fanin from node [u]. *)
Definition has_edge g (u v : Z) : Prop :=
  exists nv w, vget (nodes_ g) v = Some nv /\ w ∈ regular_fanins_ nv ++ controlling_fanins_ nv /\
    fanout_node_index w = u.

Lemma has_edge_at g u v : has_edge g u v <->
  (exists k w, fanin_at g v k = Some w /\ fanout_node_index w = u) \/
  (exists k w, control_fanin_at g v k = Some w /\ fanout_node_index w = u).
Proof.
  unfold has_edge. setoid_rewrite fanin_at_Some. setoid_rewrite control_fanin_at_Some.
  setoid_rewrite elem_of_app. setoid_rewrite elem_of_vget. naive_solver.
Qed.

Lemma live_empty i l : forall k, live ∅ i k l = l.
Proof. induction l as [|w l IH]; intros k; cbn [live]; [done|]. by rewrite bool_decide_false, IH by set_solver. Qed.

Lemma view_ok_node H Hc g i d : core_ok H Hc g -> vget (graph g) i = Some d -> exists v, vget (nodes_ g) i = Some v.
Proof.
  intros Hg Hd. apply vget_ex. rewrite (ok_length _ (ok_names_ok _ _ _ Hg)). by eapply vget_Some.
Qed.

Lemma view_ok_def H Hc g i v : core_ok H Hc g -> vget (nodes_ g) i = Some v -> exists d, vget (graph g) i = Some d.
Proof.
  intros Hg Hd. apply vget_ex. rewrite <- (ok_length _ (ok_names_ok _ _ _ Hg)). by eapply vget_Some.
Qed.

Lemma has_edge_range H Hc g u v : core_ok H Hc g -> has_edge g u v ->
  0 <= u < size_ (nodes_ g) /\ 0 <= v < size_ (nodes_ g) /\ u <> v.
Proof.
  intros Hg (nv & w & Hv & Hw & <-). split.
  - rewrite (ok_length _ (ok_names_ok _ _ _ Hg)).
    by apply (ok_fanin_range _ _ _ _ _ (ok_index_ok _ _ _ Hg v nv Hv)).
  - split; [by eapply vget_Some|]. by apply (ok_fanin_range _ _ _ _ _ (ok_index_ok _ _ _ Hg v nv Hv)).
Qed.

(** In terms of the GraphDef alone: an edge is an input that parses to the name
    of a node. *)
Lemma has_edge_input g u v d e : view_ok g -> vget (graph g) v = Some d -> vget (graph g) u = Some e ->
  has_edge g u v <-> exists s, s ∈ input d /\ node (ParseTensorName s) = name e.
Proof.
  intros Hg Hd He. destruct (view_ok_node _ _ g v d Hg Hd) as [nv Hv].
  pose proof (ok_inputs _ Hg v d nv Hd Hv) as Hin. unfold inputs_ok in Hin.
  pose proof (ok_names _ (ok_names_ok _ _ _ Hg)) as Hnames. split.
  - intros (nv' & w & Hv' & Hw & <-). simplify_eq.
    assert (fanin_id g w ∈ map ParseTensorName (input d)) as Hs.
    { rewrite Hin. apply list_elem_of_fmap. eauto. }
    apply list_elem_of_fmap in Hs as (s & Hs & Hsi). exists s. split; [done|]. rewrite <- Hs.
    cbn [fanin_id node]. unfold name_of. by rewrite He.
  - intros (s & Hs & Hn). assert (ParseTensorName s ∈ map (fanin_id g) (regular_fanins_ nv ++ controlling_fanins_ nv)) as Hw.
    { rewrite <- Hin. apply list_elem_of_fmap. eauto. }
    apply list_elem_of_fmap in Hw as (w & Hw & Hwi). exists nv, w. split; [done|]. split; [done|].
    rewrite Hw in Hn. cbn [fanin_id node] in Hn.
    pose proof (proj1 (ok_fanin_range _ _ _ _ _ (ok_index_ok _ _ _ Hg v nv Hv) w Hwi)) as Hr.
    destruct (vget_ex _ _ Hr) as [d' Hd']. unfold name_of in Hn. rewrite Hd' in Hn. cbn in Hn.
    assert (node_index_by_name_ g !! name e = Some (fanout_node_index w)) as H1 by (apply Hnames; eauto).
    assert (node_index_by_name_ g !! name e = Some u) as H2 by (apply Hnames; eauto). congruence.
Qed.
End inv.
