(* ===== verification/TopoSort.v ===== *)
(** * TopoSort: sorting a graph topologically
    ([MutableGraphView::SortTopologically], optimizer/graph_view.cc)

    A depth-first traversal with an explicit stack assigns each node its
    position in the reversed post-order; the views and the NodeDefs are then
    permuted and every index is replaced. *)

From S2P Require Import Prelude Vec TensorName GraphView.
#[local] Open Scope string_scope.
#[local] Open Scope list_scope.
#[local] Open Scope Z_scope.

(** [IsMerge] and [IsNextIteration] (optimizer/op_types.cc) *)
Definition IsMerge {A} (node : NodeDef A) : bool :=
  bool_decide (op node = "Merge") || bool_decide (op node = "RefMerge") || bool_decide (op node = "_XlaMerge").
Definition IsNextIteration {A} (node : NodeDef A) : bool :=
  bool_decide (op node = "NextIteration") || bool_decide (op node = "RefNextIteration").

Inductive TraversalState := PENDING | PROCESSING | PROCESSED.
Inductive RecursionStackState := ENTER | EXIT.
#[export] Instance TraversalState_eq_dec : EqDecision TraversalState.
Proof. solve_decision. Defined.
#[export] Instance RecursionStackState_eq_dec : EqDecision RecursionStackState.
Proof. solve_decision. Defined.

Record RecursionStackEntry := mk_Entry { entry_node : Z; recursion_state : RecursionStackState }.
Record Edge := mk_Edge { from : Z; to : Z }.

#[export] Instance Entry_eq_dec : EqDecision RecursionStackEntry.
Proof. solve_decision. Defined.
#[export] Instance Edge_eq_dec : EqDecision Edge.
Proof. solve_decision. Defined.

(** The variables that the lambdas of [SortTopologically] share; the back of the
    recursion stack is the head of its list. *)
Record Dfs := mk_Dfs {
  traversal_state : list TraversalState;
  curr_pos : Z;
  order : list Z;
  edges_in_cycle : list Edge
}.

Section dfs.
  (** The fanouts of a node in the order of [process_fanouts], and the edges
      that break control flow cycles. *)
  Context (fanouts_of : Z -> result (list Z)) (ignored : Z -> Z -> result bool).

Definition push_onto_stack (curr_index fanout_index : Z) (st : list RecursionStackEntry * Dfs)
    : result (list RecursionStackEntry * Dfs) :=
  let '(recursion_stack, d) := st in
  skip ← ignored curr_index fanout_index;
  if skip : bool then mret (recursion_stack, d) else
  fanout_traversal_state ← at_ (traversal_state d) fanout_index;
  match fanout_traversal_state with
  | PROCESSING => mret (recursion_stack, mk_Dfs (traversal_state d) (curr_pos d) (order d)
                                  (edges_in_cycle d ++ [mk_Edge curr_index fanout_index]))
  | PENDING => mret (mk_Entry fanout_index ENTER :: recursion_stack, d)
  | PROCESSED => mret (recursion_stack, d)
  end.

Fixpoint push_all (curr_index : Z) (fanouts : list Z) (st : list RecursionStackEntry * Dfs)
    : result (list RecursionStackEntry * Dfs) :=
  match fanouts with
  | [] => mret st
  | f :: fanouts => st' ← push_onto_stack curr_index f st; push_all curr_index fanouts st'
  end.

Definition process_fanouts (curr_index : Z) (st : list RecursionStackEntry * Dfs)
    : result (list RecursionStackEntry * Dfs) :=
  fanouts ← fanouts_of curr_index; push_all curr_index fanouts st.

Definition set_state (d : Dfs) (i : Z) (t : TraversalState) : Dfs :=
  mk_Dfs (vset (traversal_state d) i t) (curr_pos d) (order d) (edges_in_cycle d).

(** One turn of the loop of [reversed_postorder_dfs]: [e] is the entry popped. *)
Definition dfs_step (e : RecursionStackEntry) (recursion_stack : list RecursionStackEntry) (d : Dfs)
    : result (list RecursionStackEntry * Dfs) :=
  let curr_index := entry_node e in
  curr_traversal_state ← at_ (traversal_state d) curr_index;
  if bool_decide (curr_traversal_state = PROCESSED) then mret (recursion_stack, d)
  else if bool_decide (recursion_state e = EXIT) then
    at_ (order d) curr_index;;
    let d := mk_Dfs (traversal_state d) (curr_pos d) (vset (order d) curr_index (curr_pos d)) (edges_in_cycle d) in
    let d := set_state d curr_index PROCESSED in
    mret (recursion_stack, mk_Dfs (traversal_state d) (curr_pos d - 1) (order d) (edges_in_cycle d))
  else
    process_fanouts curr_index (mk_Entry curr_index EXIT :: recursion_stack, set_state d curr_index PROCESSING).

Fixpoint dfs_loop (fuel : nat) (recursion_stack : list RecursionStackEntry) (d : Dfs) : result Dfs :=
  match recursion_stack with
  | [] => mret d
  | e :: recursion_stack =>
      match fuel with
      | O => Fault NoFuel
      | S fuel => '(recursion_stack', d') ← dfs_step e recursion_stack d; dfs_loop fuel recursion_stack' d'
      end
  end.

Definition reversed_postorder_dfs (fuel : nat) (root_index : Z) (d : Dfs) : result Dfs :=
  root_traversal_state ← at_ (traversal_state d) root_index;
  dfs_loop fuel (if bool_decide (root_traversal_state = PENDING) then [mk_Entry root_index ENTER] else []) d.

Fixpoint dfs_from (fuel : nat) (roots : list Z) (d : Dfs) : result Dfs :=
  match roots with
  | [] => mret d
  | r :: roots => d' ← reversed_postorder_dfs fuel r d; dfs_from fuel roots d'
  end.
End dfs.

(** ** PermuteNodesInPlace *)

(** [inv_perm[permutation[n]] = n] for every [n]. *)
Fixpoint invert_loop (permutation : list Z) (n : Z) (inv_perm : list Z) : result (list Z) :=
  match permutation with
  | [] => mret inv_perm
  | p :: permutation => at_ inv_perm p;; invert_loop permutation (n + 1) (vset inv_perm p n)
  end.

Section permute.
  Context {A : Type}.

(** The [while] loop at position [n]: one swap puts the node at [n] in its place. *)
Fixpoint cycle_loop (fuel : nat) (n : Z) (graph : list A) (permutation : list Z) : result (list A * list Z) :=
  r ← at_ permutation n;
  if n =? r then mret (graph, permutation) else
  match fuel with
  | O => Fault NoFuel
  | S fuel =>
      graph' ← swap_elements graph n r;
      permutation' ← swap_elements permutation n r;
      cycle_loop fuel n graph' permutation'
  end.

Fixpoint permute_loop (fuel : nat) (ns : list Z) (graph : list A) (permutation : list Z) : result (list A * list Z) :=
  match ns with
  | [] => mret (graph, permutation)
  | n :: ns => '(graph', permutation') ← cycle_loop fuel n graph permutation; permute_loop fuel ns graph' permutation'
  end.

Definition PermuteNodesInPlace (graph : list A) (permutation : list Z) (invert_permutation : bool) : result (list A) :=
  CHECK (size_ graph =? size_ permutation);;
  permutation ← (if invert_permutation then invert_loop permutation 0 (map (fun _ => 0) permutation) else mret permutation);
  '(graph', _) ← permute_loop (length permutation) (count_up (size_ permutation - 1)) graph permutation;
  mret graph'.
End permute.

(** [permuted_nodes[order[i]] = std::move(nodes_[i])] for every [i]. *)
Fixpoint permute_nodes (order : list Z) (nodes permuted_nodes : list MutableNodeView) : result (list MutableNodeView) :=
  match order, nodes with
  | o :: order, v :: nodes => at_ permuted_nodes o;; permute_nodes order nodes (vset permuted_nodes o v)
  | _, _ => mret permuted_nodes
  end.

Definition default_NodeView : MutableNodeView := mk_NodeView [] [] [] 0 [] kMissingIndex ∅ ∅ kMissingIndex.

(** ** SortTopologically *)

Section sort.
  Context {AttrValue : Type}.
  #[local] Notation G := (MutableGraphView AttrValue).

(** [TopologicalDependency]; a dependency on nodes of another graph view has no
    graph view and the index -1 at both ends. *)
Definition TopologicalDependency : Type := Z * Z.

Definition valid_dependency (num_nodes : Z) (d : TopologicalDependency) : bool :=
  negb ((d.1 =? d.2) || (d.1 <? 0) || (num_nodes <=? d.1) || (d.2 <? 0) || (num_nodes <=? d.2)).

(** [extra_dependencies_by_parent[i]] *)
Definition extra_fanouts (extra_dependencies : list TopologicalDependency) (i : Z) : list Z :=
  map snd (filter (fun d => d.1 = i) extra_dependencies).

Definition fanouts_of (g : G) (extra_dependencies : list TopologicalDependency) (i : Z) : result (list Z) :=
  node_view ← at_ (nodes_ g) i;
  mret (map fanin_node_index (concat (regular_fanouts_by_port_ node_view))
        ++ map fanin_node_index (controlled_fanouts_ node_view)
        ++ extra_fanouts extra_dependencies i).

Definition ignored (g : G) (curr_index fanout_index : Z) : result bool :=
  d ← at_ (graph g) curr_index;
  if IsNextIteration d then e ← at_ (graph g) fanout_index; mret (IsMerge e) else mret false.

(** A number of turns that every traversal stays below. *)
Definition num_fanouts (g : G) (extra_dependencies : list TopologicalDependency) (i : Z) : nat :=
  match fanouts_of g extra_dependencies i with Ok l => length l | Fault _ => 0%nat end.
Definition dfs_fuel (g : G) (extra_dependencies : list TopologicalDependency) : nat :=
  S (sum_list_with (fun i => S (S (num_fanouts g extra_dependencies i))) (count_up (size_ (nodes_ g)))).

Definition is_source (v : MutableNodeView) : bool := NumRegularFanins v + NumControllingFanins v =? 0.
Definition sources (g : G) : list Z :=
  List.filter (fun i => match vget (nodes_ g) i with Some v => is_source v | None => false end)
    (count_down (size_ (nodes_ g))).

(** The new index in every view. *)
Definition renumber_fanin (o : Z -> Z) (w : MutableFanoutView) : MutableFanoutView :=
  mk_FanoutView (o (fanout_node_index w)) (fanout_port_index w) (fanout_index_ w).
Definition renumber_fanout (o : Z -> Z) (w : MutableFaninView) : MutableFaninView :=
  mk_FaninView (o (fanin_node_index w)) (fanin_port_index w) (fanin_index_ w).
Definition renumber_node (o : Z -> Z) (v : MutableNodeView) : MutableNodeView :=
  mk_NodeView (map (renumber_fanin o) (regular_fanins_ v)) (map (renumber_fanin o) (controlling_fanins_ v))
    (map (map (renumber_fanout o)) (regular_fanouts_by_port_ v)) (num_regular_fanouts_ v)
    (map (renumber_fanout o) (controlled_fanouts_ v)) (o (node_index_ v))
    (fanins_count_ v) (controlling_fanins_index_ v) (update_index_ v).
Definition order_of (order : list Z) (i : Z) : Z := default i (vget order i).

(** The loop that fixes the indices: [graph] still has its old order. *)
Fixpoint fix_indices (order : list Z) (l : list MutableNodeView) : ST G (list MutableNodeView) :=
  match l with
  | [] => mret []
  | v :: l =>
      let prev_node_index := node_index_ v in
      o ← lift (at_ order prev_node_index);
      (if negb (prev_node_index =? o) then
         d ← node_def_at prev_node_index;
         g ← get;
         match node_index_by_name_ g !! name d with
         | Some _ => modify (set_node_index_by_name (<[name d := o]> (node_index_by_name_ g)))
         | None => lift (Fault OutOfRange)
         end
       else mret tt);;
      l' ← fix_indices order l;
      mret (renumber_node (order_of order) v :: l')
  end.

Definition kSortTopologicallyError : string := "MutableGraphView::SortTopologically error: ".
Definition kTopologicalSortDone : Z := -1.

Fixpoint edges_str (g : G) (l : list Edge) : result string :=
  match l with
  | [] => mret ""
  | e :: l =>
      d1 ← at_ (graph g) (from e); d2 ← at_ (graph g) (to e);
      let s := "'" +:+ name d1 +:+ "' -> '" +:+ name d2 +:+ "'" in
      rest ← edges_str g l;
      mret (match l with [] => s | _ => s +:+ ", " +:+ rest end)
  end.

(** What follows the traversal: the permutation of views and NodeDefs. *)
Definition apply_order (order : list Z) : ST G unit :=
  g ← get;
  permuted_nodes ← lift (permute_nodes order (nodes_ g) (map (fun _ => default_NodeView) (nodes_ g)));
  modify (set_nodes permuted_nodes);;
  fixed ← fix_indices order permuted_nodes;
  modify (set_nodes fixed);;
  graph' ← lift (PermuteNodesInPlace (graph g) order false);
  modify (set_graph graph').

Definition SortTopologically (ignore_cycles : bool) (extra_dependencies : list TopologicalDependency) : ST G Status :=
  g ← get;
  if negb (bool_decide (updated_nodes_ (mutation_ g) = [])) || negb (bool_decide (new_nodes_ (mutation_ g) = [])) then
    mret (InvalidArgument (kSortTopologicallyError +:+ "active mutation exists."))
  else
  let num_nodes := size_ (nodes_ g) in
  if negb (forallb (valid_dependency num_nodes) extra_dependencies) then
    mret (InvalidArgument (kSortTopologicallyError +:+ "invalid extra dependencies."))
  else
  let fuel := dfs_fuel g extra_dependencies in
  let d := mk_Dfs (map (fun _ => PENDING) (nodes_ g)) (num_nodes - 1) (map (fun _ => 0) (nodes_ g)) [] in
  d ← lift (dfs_from (fanouts_of g extra_dependencies) (ignored g) fuel (sources g) d);
  if negb ignore_cycles && negb (bool_decide (edges_in_cycle d = [])) then
    s ← lift (edges_str g (edges_in_cycle d));
    mret (InvalidArgument (kSortTopologicallyError +:+ "detected edge(s) creating cycle(s) {" +:+ s +:+ "}."))
  else if negb (curr_pos d =? kTopologicalSortDone) && negb ignore_cycles then
    mret (InvalidArgument (kSortTopologicallyError +:+ "was not able to sort all nodes topologically."))
  else
    d ← lift (if negb (curr_pos d =? kTopologicalSortDone)
              then dfs_from (fanouts_of g extra_dependencies) (ignored g) fuel (count_up num_nodes) d
              else mret d);
    apply_order (order d);;
    mret Status_OK.
End sort.
