(* ===== verification/TopoSortProofs.v ===== *)
(** * TopoSortProofs: the depth-first traversal

    The invariant of the traversal with an explicit stack: which entries of the
    stack answer for a node that is being processed, where its successors are,
    and what the positions given out so far mean. *)

From S2P Require Import Prelude Vec TensorName GraphView TopoSort.

(** ** Counting the states of nodes *)

Definition num_processed (l : list TraversalState) : nat := length (filter (fun t => t = PROCESSED) l).

Lemma num_processed_le l : (num_processed l <= length l)%nat.
Proof. apply length_filter. Qed.

Lemma num_processed_vset l i t t' : vget l i = Some t ->
  (num_processed (vset l i t') + (if decide (t = PROCESSED) then 1 else 0) =
   num_processed l + (if decide (t' = PROCESSED) then 1 else 0))%nat.
Proof.
  intros Hi. pose proof (vget_Some _ _ _ Hi) as Hr. unfold vget in Hi. unfold vset.
  destruct (Z.ltb_spec i 0); [lia|].
  rewrite <- (take_drop_middle _ _ _ Hi) at 2.
  rewrite insert_take_drop by (by eapply lookup_lt_Some).
  unfold num_processed. rewrite !filter_app, !filter_cons, !length_app.
  destruct (decide (t' = PROCESSED)), (decide (t = PROCESSED)); simpl; lia.
Qed.

Lemma num_processed_all l : num_processed l = length l -> forall i t, vget l i = Some t -> t = PROCESSED.
Proof.
  intros Hl i t Hi. assert (t ∈ l) as Ht by (apply elem_of_vget; eauto). clear Hi.
  induction l as [|a l IH]; [by apply elem_of_nil in Ht|].
  unfold num_processed in *. rewrite filter_cons in Hl. pose proof (num_processed_le l). unfold num_processed in *.
  destruct (decide (a = PROCESSED)) as [->|]; simpl in Hl; [|lia].
  apply elem_of_cons in Ht as [->|Ht]; [done|]. apply IH; [lia|done].
Qed.

Lemma num_processed_full l : (forall i t, vget l i = Some t -> t = PROCESSED) -> num_processed l = length l.
Proof.
  intros H. assert (Forall (fun t => t = PROCESSED) l) as Hf.
  { apply Forall_forall. intros t [i Hi]%elem_of_vget. eauto. }
  clear H. unfold num_processed. induction Hf as [|t l Ht Hl IH]; [done|].
  rewrite filter_cons_True by done. simpl. by rewrite IH.
Qed.

Lemma sum_list_with_change (f g : Z -> nat) l u :
  NoDup l -> u ∈ l -> (forall v, v <> u -> f v = g v) ->
  (sum_list_with f l + g u = sum_list_with g l + f u)%nat.
Proof.
  intros Hl Hu H. induction Hl as [|v l Hv Hl IH]; [by apply elem_of_nil in Hu|]. simpl.
  apply elem_of_cons in Hu as [->|Hu].
  - assert (sum_list_with f l = sum_list_with g l) as ->; [|lia].
    clear -Hv H. induction l as [|w l IH]; [done|]. simpl. apply not_elem_of_cons in Hv as [Hw Hv].
    rewrite IH, H by done. done.
  - assert (v <> u) by (by intros ->). rewrite (H v) by done. specialize (IH Hu). lia.
Qed.

Section dfs.
  Context (n : Z) (fanouts_of : Z -> result (list Z)) (ignored : Z -> Z -> result bool).
  Context (fo : Z -> list Z) (ig : Z -> Z -> bool).
  Hypothesis fanouts_ok : forall u, 0 <= u < n -> fanouts_of u = Ok (fo u).
  Hypothesis fanouts_range : forall u v, 0 <= u < n -> v ∈ fo u -> 0 <= v < n.
  Hypothesis ignored_ok : forall u v, 0 <= u < n -> 0 <= v < n -> ignored u v = Ok (ig u v).

(** The edges that the traversal follows. *)
Definition succ (u : Z) : list Z := List.filter (fun v => negb (ig u v)) (fo u).
Definition edge (u v : Z) : Prop := v ∈ succ u.

Lemma succ_fo u v : v ∈ succ u <-> v ∈ fo u /\ ig u v = false.
Proof.
  unfold succ. rewrite list_elem_of_In, filter_In, <- list_elem_of_In, negb_true_iff. done.
Qed.

Lemma edge_range u v : 0 <= u < n -> edge u v -> 0 <= v < n.
Proof. intros Hu [Hv _]%succ_fo. by eapply fanouts_range. Qed.

Definition node_state (d : Dfs) (u : Z) : option TraversalState := vget (traversal_state d) u.

Definition has_state (d : Dfs) (t : TraversalState) (v : Z) : bool := bool_decide (node_state d v = Some t).

Lemma push_all_spec u l st d : 0 <= u < n -> size_ (traversal_state d) = n -> Forall (fun v => 0 <= v < n) l ->
  push_all ignored u l (st, d) =
    let l' := List.filter (fun v => negb (ig u v)) l in
    Ok (map (fun v => mk_Entry v ENTER) (rev (List.filter (has_state d PENDING) l')) ++ st,
        mk_Dfs (traversal_state d) (curr_pos d) (order d)
          (edges_in_cycle d ++ map (mk_Edge u) (List.filter (has_state d PROCESSING) l'))).
Proof.
  intros Hu Hn Hl. revert st d Hn. induction Hl as [|v l Hv Hl IH]; intros st d Hn; cbn [push_all].
  { simpl. rewrite app_nil_r. by destruct d. }
  unfold push_onto_stack. rewrite ignored_ok by done. cbn -[vget].
  destruct (ig u v) eqn:Eig; cbn -[vget]; [by apply IH|].
  destruct (vget_ex (traversal_state d) v ltac:(lia)) as [t Ht].
  assert (forall t', has_state d t' v = bool_decide (t = t')) as Hs.
  { intros t'. unfold has_state, node_state. rewrite Ht. by apply bool_decide_ext; split; [intros [=]|intros ->]. }
  rewrite (at_Some _ _ _ Ht), !Hs.
  destruct t; cbn -[vget has_state]; rewrite IH by done;
    repeat (case_bool_decide as E; try discriminate E; try congruence); cbn -[vget has_state].
  - by rewrite map_app, <- app_assoc.
  - by rewrite <- app_assoc.
  - done.
Qed.

(** The node of the topmost [EXIT] entry: the one whose fanouts are on top. *)
Fixpoint next_exit (st : list RecursionStackEntry) : option Z :=
  match st with
  | [] => None
  | e :: st => if decide (recursion_state e = EXIT) then Some (entry_node e) else next_exit st
  end.

(** What each entry of the stack stands for; [above] are the entries over it. *)
Fixpoint stack_ok (d : Dfs) (above st : list RecursionStackEntry) : Prop :=
  match st with
  | [] => True
  | e :: st =>
      0 <= entry_node e < n /\
      (forall p, next_exit st = Some p -> edge p (entry_node e)) /\
      match recursion_state e with
      | ENTER => node_state d (entry_node e) = Some PROCESSING -> mk_Entry (entry_node e) EXIT ∈ above
      | EXIT =>
          node_state d (entry_node e) = Some PROCESSING /\ e ∉ above /\
          (forall v, edge (entry_node e) v -> mk_Edge (entry_node e) v ∈ edges_in_cycle d \/
             node_state d v = Some PROCESSED \/ v ∈ map entry_node above)
      end /\
      stack_ok d (e :: above) st
  end.

Lemma stack_ok_mono d d' st : forall above above',
  stack_ok d above st ->
  (forall w, mk_Entry w EXIT ∈ above -> mk_Entry w EXIT ∈ above' \/ node_state d' w <> Some PROCESSING) ->
  (forall w, mk_Entry w EXIT ∈ above' -> mk_Entry w EXIT ∈ above \/ node_state d w <> Some PROCESSING) ->
  (forall w, node_state d' w = Some PROCESSING -> node_state d w = Some PROCESSING \/ mk_Entry w EXIT ∈ above') ->
  (forall w, w ∈ map entry_node above -> w ∈ map entry_node above' \/ node_state d' w = Some PROCESSED) ->
  (forall w, node_state d w = Some PROCESSED -> node_state d' w = Some PROCESSED) ->
  (forall w, mk_Entry w EXIT ∈ st -> node_state d w = Some PROCESSING -> node_state d' w = Some PROCESSING) ->
  edges_in_cycle d ⊆ edges_in_cycle d' ->
  stack_ok d' above' st.
Proof.
  induction st as [|[x s] st IH]; intros above above' Hok H1 H2 H3 H4 H5 H6 H7; [done|].
  cbn [stack_ok entry_node recursion_state] in *. destruct Hok as (Hx & Hl & He & Hok).
  split; [done|]. split; [done|]. split.
  - destruct s.
    + intros Hp. destruct (H3 x Hp) as [Hp'|]; [|done]. destruct (H1 x (He Hp')); [done|congruence].
    + destruct He as (Hp & Hn & Hs). split; [|split].
      * apply H6; [left|done].
      * intros Ha. by destruct (H2 x Ha).
      * intros v Hv. destruct (Hs v Hv) as [?|[?|Hv']]; [left; by apply H7|right; left; by apply H5|].
        destruct (H4 v Hv'); auto.
  - apply (IH _ _ Hok); [..|done].
    + intros w [->|Hw]%elem_of_cons; [left; left|]. destruct (H1 w Hw); [left; by right|by right].
    + intros w [->|Hw]%elem_of_cons; [left; left|]. destruct (H2 w Hw); [left; by right|by right].
    + intros w Hw. destruct (H3 w Hw); [by left|right; by right].
    + intros w. cbn [map]. intros [->|Hw]%elem_of_cons; [left; left|].
      destruct (H4 w Hw); [left; by right|by right].
    + done.
    + intros w Hw. apply H6. by right.
Qed.

(** Everything being processed below leads to the node on top. *)
Lemma stack_path d st : forall above, stack_ok d above st ->
  forall w p, mk_Entry w EXIT ∈ st -> next_exit st = Some p -> rtc edge w p.
Proof.
  induction st as [|[x s] st IH]; intros above Hok w p Hw Hp; [by apply elem_of_nil in Hw|].
  cbn [stack_ok entry_node recursion_state next_exit] in *. destruct Hok as (Hx & Hl & He & Hok).
  destruct (decide (s = EXIT)) as [->|Hs].
  - injection Hp as <-. apply elem_of_cons in Hw as [Hw|Hw]; [injection Hw as ->; done|].
    destruct (next_exit st) as [q|] eqn:Eq.
    + eapply rtc_r; [by eapply IH|by apply Hl].
    + exfalso. clear -Hw Eq. induction st as [|[y t] st IH]; [by apply elem_of_nil in Hw|].
      cbn [next_exit recursion_state entry_node] in Eq. destruct (decide (t = EXIT)); [done|].
      apply elem_of_cons in Hw as [Hw|Hw]; [congruence|auto].
  - apply elem_of_cons in Hw as [Hw|Hw]; [congruence|]. by eapply IH.
Qed.

(** ** The invariant *)

  (** Where the traversals start and what they reach from there. *)
  Context (P : Z -> Prop).
  Hypothesis P_edge : forall u v, P u -> edge u v -> P v.

Record dfs_inv (st : list RecursionStackEntry) (d : Dfs) : Prop := {
  inv_states : size_ (traversal_state d) = n;
  inv_order : size_ (order d) = n;
  inv_pos : curr_pos d = n - 1 - Z.of_nat (num_processed (traversal_state d));
  inv_given : forall u, node_state d u = Some PROCESSED ->
    exists p, vget (order d) u = Some p /\ curr_pos d < p <= n - 1;
  inv_inj : forall u v p, node_state d u = Some PROCESSED -> node_state d v = Some PROCESSED ->
    vget (order d) u = Some p -> vget (order d) v = Some p -> u = v;
  inv_edges : forall u v, node_state d u = Some PROCESSED -> edge u v ->
    mk_Edge u v ∈ edges_in_cycle d \/
    (node_state d v = Some PROCESSED /\
     exists pu pv, vget (order d) u = Some pu /\ vget (order d) v = Some pv /\ pu < pv);
  inv_stack : stack_ok d [] st;
  inv_exit : forall u, node_state d u = Some PROCESSING -> mk_Entry u EXIT ∈ st;
  inv_cycles : forall u v, mk_Edge u v ∈ edges_in_cycle d ->
    0 <= u < n /\ edge u v /\ rtc edge v u /\ node_state d v <> Some PENDING;
  inv_reach : forall u, node_state d u = Some PROCESSING \/ node_state d u = Some PROCESSED -> P u;
  inv_reach_stack : forall e, e ∈ st -> P (entry_node e)
}.

Lemma node_state_set d i t u : 0 <= i < size_ (traversal_state d) ->
  node_state (set_state d i t) u = if bool_decide (i = u) then Some t else node_state d u.
Proof. intros Hi. unfold node_state, set_state. cbn [traversal_state]. by rewrite vget_vset. Qed.

Definition weight (d : Dfs) (u : Z) : nat := if has_state d PENDING u then S (S (length (fo u))) else 0.
Definition measure (st : list RecursionStackEntry) (d : Dfs) : nat :=
  (length st + sum_list_with (weight d) (count_up n))%nat.

(** A node whose state changes. *)
Lemma weights_set d d' i : 0 <= i < n ->
  (forall u, u <> i -> node_state d' u = node_state d u) ->
  (sum_list_with (weight d') (count_up n) + weight d i = sum_list_with (weight d) (count_up n) + weight d' i)%nat.
Proof.
  intros Hi H. apply sum_list_with_change; [apply NoDup_count_up|by apply elem_of_count_up|].
  intros v Hv. unfold weight, has_state. by rewrite H.
Qed.

(** What a turn keeps: nodes do not go back to pending. *)
Definition advances (d d' : Dfs) : Prop := forall u,
  (node_state d u = Some PROCESSED -> node_state d' u = Some PROCESSED) /\
  (node_state d u = Some PROCESSING -> node_state d' u = Some PROCESSING \/ node_state d' u = Some PROCESSED).

(** *** Leaving a node *)
Definition leave (d : Dfs) (v : Z) : Dfs :=
  mk_Dfs (vset (traversal_state d) v PROCESSED) (curr_pos d - 1) (vset (order d) v (curr_pos d)) (edges_in_cycle d).

Lemma leave_inv v st d : dfs_inv (mk_Entry v EXIT :: st) d -> dfs_inv st (leave d v).
Proof.
  intros I. destruct (inv_stack _ _ I) as (Hv & _ & (Hp & _ & Hs) & Hst). cbn [entry_node recursion_state] in *.
  assert (forall u, node_state (leave d v) u = if bool_decide (v = u) then Some PROCESSED else node_state d u) as Hset.
  { intros u. unfold node_state, leave. cbn [traversal_state]. apply vget_vset. by rewrite (inv_states _ _ I). }
  assert (forall u, vget (order (leave d v)) u = if bool_decide (v = u) then Some (curr_pos d) else vget (order d) u) as Hord.
  { intros u. unfold leave. cbn [order]. apply vget_vset. by rewrite (inv_order _ _ I). }
  pose proof (num_processed_vset _ _ _ PROCESSED Hp) as Hnum.
  rewrite decide_False, decide_True in Hnum by done.
  assert (0 <= Z.of_nat (num_processed (traversal_state d))) by lia.
  pose proof (inv_pos _ _ I) as Hpos.
  split; cbn [leave curr_pos edges_in_cycle].
  - unfold leave. cbn [traversal_state]. rewrite size_vset. apply (inv_states _ _ I).
  - unfold leave. cbn [order]. rewrite size_vset. apply (inv_order _ _ I).
  - unfold leave. cbn [traversal_state]. lia.
  - intros u. rewrite Hset, Hord. case_bool_decide; [intros _; eexists; split; [done|lia]|].
    intros Hu. destruct (inv_given _ _ I u Hu) as (p & ? & ?). exists p. split; [done|lia].
  - intros u w p. rewrite !Hset, !Hord. repeat case_bool_decide; subst; [done|..|apply (inv_inj _ _ I)].
    + intros _ Hw [= <-] Hpw. destruct (inv_given _ _ I w Hw) as (q & ? & ?). simplify_eq. lia.
    + intros Hw _ Hpw [= <-]. destruct (inv_given _ _ I u Hw) as (q & ? & ?). simplify_eq. lia.
  - intros u w. rewrite !Hset, !Hord. case_bool_decide as Eu.
    + subst u. intros _ Hw. destruct (Hs w Hw) as [?|[Hw'|Hw']]; [by left| |by apply elem_of_nil in Hw'].
      right. rewrite bool_decide_false by (intros ->; congruence). split; [done|].
      destruct (inv_given _ _ I w Hw') as (q & ? & ?). eexists _, q. split_and!; [done..|lia].
    + intros Hu Hw. destruct (inv_edges _ _ I u w Hu Hw) as [?|(Hw' & Hq)]; [by left|].
      right. rewrite bool_decide_false by (intros ->; congruence). done.
  - eapply stack_ok_mono; [exact Hst|..].
    + intros w [[= ->]|Hw]%elem_of_cons; [|by apply elem_of_nil in Hw].
      right. rewrite Hset, bool_decide_true by done. done.
    + intros w Hw. by apply elem_of_nil in Hw.
    + intros w. rewrite Hset. case_bool_decide; [done|by left].
    + intros w. cbn. intros [->|Hw]%elem_of_cons; [|by apply elem_of_nil in Hw].
      right. by rewrite Hset, bool_decide_true.
    + intros w Hw. rewrite Hset. by case_bool_decide.
    + intros w Hw Hpw. rewrite Hset. case_bool_decide as E; [|done]. subst w. exfalso.
      clear -Hst Hw Hp. revert Hst. assert (mk_Entry v EXIT ∈ [mk_Entry v EXIT]) as Ha by left.
      revert Ha. generalize [mk_Entry v EXIT]. induction st as [|e st IH]; intros above Ha Hst; [by apply elem_of_nil in Hw|].
      destruct Hst as (_ & _ & He & Hst). apply elem_of_cons in Hw as [<-|Hw].
      * by destruct He as (_ & He & _).
      * apply (IH Hw (e :: above)); [by right|done].
    + done.
  - intros u. rewrite Hset. case_bool_decide; [done|]. intros Hu.
    destruct (proj1 (elem_of_cons _ _ _) (inv_exit _ _ I u Hu)) as [?|?]; [congruence|done].
  - intros u w Huw. destruct (inv_cycles _ _ I u w Huw) as (? & ? & ? & ?). split_and!; try done; try lia.
    rewrite Hset. by case_bool_decide.
  - intros u. rewrite Hset. case_bool_decide; [subst; intros _; apply (inv_reach _ _ I); by left|apply (inv_reach _ _ I)].
  - intros e He. apply (inv_reach_stack _ _ I). by right.
Qed.

(** *** Entering a node *)
Definition enter (d : Dfs) (v : Z) : Dfs :=
  let d1 := set_state d v PROCESSING in
  mk_Dfs (traversal_state d1) (curr_pos d1) (order d1)
    (edges_in_cycle d1 ++ map (mk_Edge v) (List.filter (has_state d1 PROCESSING) (succ v))).
Definition pushed (d : Dfs) (v : Z) : list RecursionStackEntry :=
  map (fun w => mk_Entry w ENTER) (rev (List.filter (has_state (set_state d v PROCESSING) PENDING) (succ v))).

Lemma next_exit_pushed ws v st : next_exit (map (fun w => mk_Entry w ENTER) ws ++ mk_Entry v EXIT :: st) = Some v.
Proof. by induction ws as [|w ws IH]. Qed.

Lemma stack_ok_pushed d v st ws : forall above,
  Forall (fun w => 0 <= w < n /\ edge v w /\ node_state d w = Some PENDING) ws ->
  stack_ok d (rev (map (fun w => mk_Entry w ENTER) ws) ++ above) (mk_Entry v EXIT :: st) ->
  stack_ok d above (map (fun w => mk_Entry w ENTER) ws ++ mk_Entry v EXIT :: st).
Proof.
  induction ws as [|w ws IH]; intros above Hws Hok; [exact Hok|].
  apply Forall_cons in Hws as [(Hw & He & Hp) Hws].
  cbn [map app stack_ok entry_node recursion_state].
  split; [done|]. split; [intros p; rewrite next_exit_pushed; by intros [= <-]|].
  split; [congruence|]. apply IH; [done|]. cbn [map rev] in Hok. by rewrite <- app_assoc in Hok.
Qed.

Lemma pushed_Forall d v : 0 <= v < n ->
  Forall (fun w => 0 <= w < n /\ edge v w /\ node_state (enter d v) w = Some PENDING)
    (rev (List.filter (has_state (set_state d v PROCESSING) PENDING) (succ v))).
Proof.
  intros Hv. apply Forall_forall. intros w. rewrite list_elem_of_In, <- in_rev, filter_In, <- list_elem_of_In.
  intros [Hw Hp%bool_decide_eq_true]. split; [by eapply edge_range|done].
Qed.

Lemma elem_of_pushed d v w : w ∈ map entry_node (pushed d v) <->
  edge v w /\ node_state (set_state d v PROCESSING) w = Some PENDING.
Proof.
  unfold pushed. rewrite map_map. cbn [entry_node]. rewrite map_id.
  rewrite list_elem_of_In, <- in_rev, filter_In, <- list_elem_of_In.
  unfold has_state. by rewrite bool_decide_eq_true.
Qed.

Lemma EXIT_pushed d v w : mk_Entry w EXIT ∉ pushed d v.
Proof. unfold pushed. intros (x & [=] & _)%list_elem_of_fmap. Qed.

Lemma enter_cycles d v u w : mk_Edge u w ∈ edges_in_cycle (enter d v) <->
  mk_Edge u w ∈ edges_in_cycle d \/ (u = v /\ edge v w /\ node_state (set_state d v PROCESSING) w = Some PROCESSING).
Proof.
  unfold enter. cbn [edges_in_cycle set_state]. rewrite elem_of_app, list_elem_of_fmap.
  split.
  - intros [?|(x & [= -> ->] & Hx)]; [by left|right].
    apply list_elem_of_In, filter_In in Hx as [Hx%list_elem_of_In Hs%bool_decide_eq_true]. done.
  - intros [?|(-> & Hw & Hs)]; [by left|right; exists w; split; [done|]].
    apply list_elem_of_In, filter_In. split; [by apply list_elem_of_In|by apply bool_decide_eq_true].
Qed.

Lemma enter_inv v st d : dfs_inv (mk_Entry v ENTER :: st) d -> node_state d v = Some PENDING ->
  dfs_inv (pushed d v ++ mk_Entry v EXIT :: st) (enter d v).
Proof.
  intros I Hp. destruct (inv_stack _ _ I) as (Hv & Hl & _ & Hst). cbn [entry_node recursion_state] in *.
  assert (0 <= v < size_ (traversal_state d)) as Hv' by (by rewrite (inv_states _ _ I)).
  assert (forall u, node_state (enter d v) u = if bool_decide (v = u) then Some PROCESSING else node_state d u) as Hset.
  { intros u. rewrite <- (node_state_set d v PROCESSING u) by done. done. }
  assert (forall u, node_state (enter d v) u = Some PROCESSED <-> node_state d u = Some PROCESSED) as Hdone.
  { intros u. rewrite Hset. case_bool_decide; [subst; by split; congruence|done]. }
  assert (P v) as HPv by (apply (inv_reach_stack _ _ I (mk_Entry v ENTER)); left).
  pose proof (num_processed_vset _ _ _ PROCESSING Hp) as Hnum. rewrite !decide_False in Hnum by done.
  assert (forall u w, mk_Edge u w ∈ edges_in_cycle d -> mk_Edge u w ∈ edges_in_cycle (enter d v)) as Hcyc.
  { intros u w ?. apply enter_cycles. by left. }
  assert (forall w, edge v w -> mk_Edge v w ∈ edges_in_cycle (enter d v) \/
    node_state (enter d v) w = Some PROCESSED \/ w ∈ map entry_node (pushed d v)) as Hsucc.
  { intros w Hw. destruct (vget_ex (traversal_state (enter d v)) w) as [t Ht].
    { unfold enter. cbn [traversal_state set_state]. rewrite size_vset, (inv_states _ _ I). by eapply edge_range. }
    destruct t; [right; right; by apply elem_of_pushed|left; apply enter_cycles; auto|by right; left]. }
  split.
  - unfold enter. cbn [traversal_state set_state]. rewrite size_vset. apply (inv_states _ _ I).
  - apply (inv_order _ _ I).
  - pose proof (inv_pos _ _ I). unfold enter. cbn [traversal_state set_state curr_pos]. lia.
  - intros u Hu%Hdone. by apply (inv_given _ _ I).
  - intros u w p Hu%Hdone Hw%Hdone. by apply (inv_inj _ _ I).
  - intros u w Hu%Hdone Hw. destruct (inv_edges _ _ I u w Hu Hw) as [?|[? ?]]; [left; auto|].
    right. by rewrite Hdone.
  - apply stack_ok_pushed; [by apply pushed_Forall|]. cbn [stack_ok entry_node recursion_state].
    split; [done|]. split; [done|]. split.
    + split; [by rewrite Hset, bool_decide_true|]. rewrite app_nil_r.
      split; [intros H%list_elem_of_In%in_rev%list_elem_of_In; by apply (EXIT_pushed d v v)|].
      intros w Hw. destruct (Hsucc w Hw) as [?|[?|H]]; auto. right; right.
      rewrite map_rev, list_elem_of_In, <- in_rev, <- list_elem_of_In. exact H.
    + rewrite app_nil_r. eapply stack_ok_mono; [exact Hst|..].
      * intros w Hw. apply elem_of_cons in Hw as [?|Hw]; [congruence|by apply elem_of_nil in Hw].
      * intros w [[= ->]|H]%elem_of_cons; [right; congruence|].
        apply list_elem_of_In, in_rev, list_elem_of_In in H. by apply EXIT_pushed in H.
      * intros w. rewrite Hset. case_bool_decide; [subst; intros _; right; left|by left].
      * intros w [->|H]%elem_of_cons; [left; left|by apply elem_of_nil in H].
      * intros w. by rewrite Hdone.
      * intros w _ Hw. rewrite Hset. by case_bool_decide.
      * unfold enter. cbn [edges_in_cycle set_state]. intros e He. apply elem_of_app. by left.
  - intros u. rewrite Hset. case_bool_decide; [subst; intros _|intros Hu]; apply elem_of_app; right; [left|].
    destruct (proj1 (elem_of_cons _ _ _) (inv_exit _ _ I u Hu)); [congruence|by right].
  - intros u w [Huw|(-> & Hw & Hs)]%enter_cycles.
    { destruct (inv_cycles _ _ I u w Huw) as (? & ? & ? & ?). split_and!; try done; try lia.
      rewrite Hset. by case_bool_decide. }
    split; [done|]. split; [done|]. cut (rtc edge w v).
    { intros Hr. split; [exact Hr|]. change (node_state (set_state d v PROCESSING) w <> Some PENDING). congruence. }
    rewrite node_state_set in Hs by done. case_bool_decide as E; [by subst|].
    assert (mk_Entry w EXIT ∈ st) as Hin.
    { destruct (proj1 (elem_of_cons _ _ _) (inv_exit _ _ I w Hs)); [congruence|done]. }
    destruct (next_exit st) as [p|] eqn:Ep.
    + eapply rtc_r; [by eapply stack_path|by apply Hl].
    + exfalso. clear -Hin Ep. induction st as [|[y t] st IH]; [by apply elem_of_nil in Hin|].
      cbn [next_exit recursion_state entry_node] in Ep. destruct (decide (t = EXIT)); [done|].
      apply elem_of_cons in Hin as [Hin|Hin]; [congruence|auto].
  - intros u. rewrite Hset. case_bool_decide; [by subst|]. apply (inv_reach _ _ I).
  - intros e [He|[->|He]%elem_of_cons]%elem_of_app.
    + assert (entry_node e ∈ map entry_node (pushed d v)) as [Hw _]%elem_of_pushed
        by (apply list_elem_of_fmap; eauto). by eapply P_edge.
    + done.
    + apply (inv_reach_stack _ _ I). by right.
Qed.

(** A turn of the loop. *)
Lemma dfs_step_spec e st d : dfs_inv (e :: st) d ->
  exists st' d', dfs_step fanouts_of ignored e st d = Ok (st', d') /\ dfs_inv st' d' /\
    (measure st' d' < measure (e :: st) d)%nat /\ advances d d' /\
    node_state d' (entry_node e) <> Some PENDING /\ (forall w, w ∈ st -> w ∈ st').
Proof.
  intros I. destruct e as [v [|]]; cbn [entry_node].
  - destruct (inv_stack _ _ I) as (Hv & _ & He & _). cbn [entry_node recursion_state] in *.
    destruct (vget_ex (traversal_state d) v) as [t Ht]; [by rewrite (inv_states _ _ I)|].
    unfold dfs_step. cbn [entry_node recursion_state]. rewrite (at_Some _ _ _ Ht). cbn [mbind result_bind].
    destruct t.
    + rewrite !bool_decide_false by done. unfold process_fanouts. rewrite fanouts_ok by done. cbn [mbind result_bind].
      rewrite push_all_spec; [|done|cbn [set_state traversal_state]; by rewrite size_vset, (inv_states _ _ I)|
        apply Forall_forall; intros w; by apply fanouts_range].
      exists (pushed d v ++ mk_Entry v EXIT :: st), (enter d v). split; [done|].
      split; [by apply enter_inv|].
      assert (forall u, node_state (enter d v) u = if bool_decide (v = u) then Some PROCESSING else node_state d u) as Hset.
      { intros u. rewrite <- (node_state_set d v PROCESSING u); [done|by rewrite (inv_states _ _ I)]. }
      split; [|split; [|split]].
      * pose proof (weights_set d (enter d v) v Hv) as Hw. unfold measure.
        assert (weight d v = S (S (length (fo v)))) as E1.
        { unfold weight, has_state. by rewrite bool_decide_true. }
        assert (weight (enter d v) v = 0%nat) as E2.
        { unfold weight, has_state. rewrite Hset, (bool_decide_true (v = v)) by done. by rewrite bool_decide_false. }
        assert (length (pushed d v) <= length (fo v))%nat as E3.
        { unfold pushed. rewrite length_map, length_rev.
          etrans; [apply List.filter_length_le|]. apply List.filter_length_le. }
        rewrite length_app. cbn [length]. rewrite E1, E2 in Hw.
        specialize (Hw ltac:(intros u Hu; by rewrite Hset, bool_decide_false by congruence)). lia.
      * intros u. rewrite !Hset. case_bool_decide; [subst u; split; [intros; unfold node_state in *; congruence|by left]|auto].
      * by rewrite Hset, bool_decide_true.
      * intros w Hw. apply elem_of_app. right. by right.
    + exfalso. apply (elem_of_nil (A := RecursionStackEntry) (mk_Entry v EXIT)). by apply He.
    + rewrite bool_decide_true by done. exists st, d. split; [done|].
      split; [|split; [|split; [|split; [by unfold node_state; rewrite Ht|done]]]].
      * split; try apply I.
        -- destruct (inv_stack _ _ I) as (_ & _ & _ & Hst). eapply stack_ok_mono; [exact Hst|..]; try done.
           ++ intros w [?|Hw]%elem_of_cons; [congruence|by apply elem_of_nil in Hw].
           ++ intros w Hw. by apply elem_of_nil in Hw.
           ++ by left.
           ++ intros w [->|Hw]%elem_of_cons; [by right|by apply elem_of_nil in Hw].
        -- intros u Hu. destruct (proj1 (elem_of_cons _ _ _) (inv_exit _ _ I u Hu)); [congruence|done].
        -- intros e He'. apply (inv_reach_stack _ _ I). by right.
      * unfold measure. simpl. lia.
      * intros u. auto.
  - destruct (inv_stack _ _ I) as (Hv & _ & (Hp & _) & _). cbn [entry_node recursion_state] in *.
    unfold dfs_step. cbn [entry_node recursion_state]. rewrite (at_Some _ _ _ Hp). cbn [mbind result_bind].
    rewrite bool_decide_false, bool_decide_true by done.
    destruct (vget_ex (order d) v) as [o Ho]; [by rewrite (inv_order _ _ I)|].
    rewrite (at_Some _ _ _ Ho). cbn [mbind result_bind].
    exists st, (leave d v). split; [done|]. split; [by apply leave_inv|].
    assert (forall u, node_state (leave d v) u = if bool_decide (v = u) then Some PROCESSED else node_state d u) as Hset.
    { intros u. unfold node_state, leave. cbn [traversal_state]. apply vget_vset. by rewrite (inv_states _ _ I). }
    split; [|split; [|split]].
    + pose proof (weights_set d (leave d v) v Hv) as Hw. unfold measure.
      assert (weight d v = 0%nat) as E1.
      { unfold weight, has_state. rewrite Hp. by rewrite bool_decide_false. }
      assert (weight (leave d v) v = 0%nat) as E2.
      { unfold weight, has_state. rewrite Hset, (bool_decide_true (v = v)) by done. by rewrite bool_decide_false. }
      rewrite E1, E2 in Hw. specialize (Hw ltac:(intros u Hu; by rewrite Hset, bool_decide_false by congruence)).
      cbn [length]. lia.
    + intros u. rewrite !Hset. case_bool_decide; auto.
    + by rewrite Hset, bool_decide_true.
    + done.
Qed.

(** *** The loops *)
Definition all_settled (d : Dfs) : Prop := forall u, node_state d u <> Some PROCESSING.

Lemma dfs_loop_spec fuel : forall st d, dfs_inv st d -> (measure st d <= fuel)%nat ->
  exists d', dfs_loop fanouts_of ignored fuel st d = Ok d' /\ dfs_inv [] d' /\
    (forall u, node_state d u = Some PROCESSED \/ node_state d u = Some PROCESSING \/ u ∈ map entry_node st ->
       node_state d' u = Some PROCESSED).
Proof.
  induction fuel as [|fuel IH]; intros st d I Hm; (destruct st as [|e st]; [exists d; split; [by destruct d|]|]).
  1, 3: split; [done|]; intros u [?|[Hu|Hu%elem_of_nil]]; try done;
    by apply (inv_exit _ _ I), elem_of_nil in Hu.
  - exfalso. unfold measure in Hm. simpl in Hm. lia.
  - cbn [dfs_loop]. destruct (dfs_step_spec e st d I) as (st' & d1 & -> & I1 & Hm1 & Hadv & He & Hst).
    cbn [mbind result_bind]. destruct (IH st' d1 I1 ltac:(lia)) as (d' & -> & I' & H').
    exists d'. split; [done|]. split; [done|]. intros u [Hu|[Hu|Hu]].
    + apply H'. left. by apply (Hadv u).
    + apply H'. destruct (proj2 (Hadv u) Hu); auto.
    + cbn [map] in Hu. apply elem_of_cons in Hu as [->|Hu].
      * apply H'. destruct (inv_stack _ _ I) as (Hv & _).
        destruct (vget_ex (traversal_state d1) (entry_node e)) as [t Ht]; [by rewrite (inv_states _ _ I1)|].
        unfold node_state in *. rewrite Ht in *. destruct t; [by destruct He|auto|auto].
      * apply H'. right; right. apply list_elem_of_fmap in Hu as (w & -> & Hw).
        apply list_elem_of_fmap. eauto.
Qed.

Lemma reversed_postorder_dfs_spec fuel root d : dfs_inv [] d -> (S (sum_list_with (fun u => S (S (length (fo u)))) (count_up n)) <= fuel)%nat ->
  0 <= root < n -> P root ->
  exists d', reversed_postorder_dfs fanouts_of ignored fuel root d = Ok d' /\ dfs_inv [] d' /\
    node_state d' root = Some PROCESSED /\ (forall u, node_state d u = Some PROCESSED -> node_state d' u = Some PROCESSED).
Proof.
  intros I Hf Hr HP. unfold reversed_postorder_dfs.
  destruct (vget_ex (traversal_state d) root) as [t Ht]; [by rewrite (inv_states _ _ I)|].
  rewrite (at_Some _ _ _ Ht). cbn [mbind result_bind].
  assert (sum_list_with (weight d) (count_up n) <= sum_list_with (fun u => S (S (length (fo u)))) (count_up n))%nat as Hle.
  { generalize (count_up n). intros l. induction l as [|u l IHl]; simpl; [lia|].
    unfold weight at 1. destruct (has_state d PENDING u); lia. }
  destruct (decide (t = PENDING)) as [->|Hne].
  - rewrite bool_decide_true by done.
    assert (dfs_inv [mk_Entry root ENTER] d) as I1.
    { split; try apply I.
      - cbn. split; [done|]. split; [done|]. split; [|done]. intros Hp. unfold node_state in Hp. congruence.
      - intros u Hu. by apply (inv_exit _ _ I), elem_of_nil in Hu.
      - intros e ->%list_elem_of_singleton. done. }
    destruct (dfs_loop_spec fuel _ d I1) as (d' & -> & I' & H'); [unfold measure; simpl; lia|].
    exists d'. split; [done|]. split; [done|]. split; [|intros u Hu; apply H'; by left].
    apply H'. right; right. left.
  - rewrite bool_decide_false by done.
    destruct (dfs_loop_spec fuel _ d I) as (d' & -> & I' & H'); [unfold measure; simpl; lia|].
    exists d'. split; [done|]. split; [done|]. split; [|intros u Hu; apply H'; by left].
    apply H'. destruct t; [done|right; by left|by left].
Qed.

Lemma dfs_from_spec fuel roots : forall d, dfs_inv [] d ->
  (S (sum_list_with (fun u => S (S (length (fo u)))) (count_up n)) <= fuel)%nat ->
  Forall (fun r => 0 <= r < n /\ P r) roots ->
  exists d', dfs_from fanouts_of ignored fuel roots d = Ok d' /\ dfs_inv [] d' /\
    (forall u, node_state d u = Some PROCESSED \/ u ∈ roots -> node_state d' u = Some PROCESSED).
Proof.
  induction roots as [|r roots IH]; intros d I Hf Hr.
  - exists d. split; [done|]. split; [done|]. intros u [?|Hu%elem_of_nil]; done.
  - apply Forall_cons in Hr as [[Hr HP] Hrs]. cbn [dfs_from].
    destruct (reversed_postorder_dfs_spec fuel r d I Hf Hr HP) as (d1 & -> & I1 & H1 & H1').
    cbn [mbind result_bind]. destruct (IH d1 I1 Hf Hrs) as (d' & -> & I' & H').
    exists d'. split; [done|]. split; [done|]. intros u [Hu|[->|Hu]%elem_of_cons]; apply H'; auto.
Qed.
End dfs.
