(* ===== verification/Renumber.v ===== *)
(** * Renumber: a consistent view stays consistent when its nodes move

    [renumbered o g g'] says that [g'] is [g] with every node [i] at [o i] and
    every index replaced; the invariant of the view is kept.  The loop of
    [SortTopologically] that fixes the indices does this. *)

From S2P Require Import Prelude TensorName Vec GraphView GraphInv TopoSort TopoSortProofs.


(** ** Permutations as vectors

    [PermuteNodesInPlace] and the permutation of the views against their
    definition: the element at index [i] goes to the index that the permutation
    has at [i]. *)

(** [p] is a permutation of the indices below its size. *)
Record is_perm (p : list Z) : Prop := {
  perm_range : forall i x, vget p i = Some x -> 0 <= x < size_ p;
  perm_inj : forall i j x, vget p i = Some x -> vget p j = Some x -> i = j
}.

Lemma is_perm_NoDup p : is_perm p -> NoDup p.
Proof.
  intros Hp. apply NoDup_alt. intros i j x Hi Hj. rewrite <- !vget_nat in *.
  pose proof (perm_inj _ Hp _ _ _ Hi Hj). lia.
Qed.

(** Every index is hit. *)
Lemma perm_surj p x : is_perm p -> 0 <= x < size_ p -> exists i, vget p i = Some x.
Proof.
  intros Hp Hx. apply elem_of_vget.
  assert (p ≡ₚ count_up (size_ p)) as ->; [|by apply elem_of_count_up].
  apply submseteq_length_Permutation; [|unfold count_up, size_; rewrite length_map, length_seq; lia].
  apply NoDup_submseteq; [by apply is_perm_NoDup|].
  intros y [i Hi]%elem_of_vget. apply elem_of_count_up. by eapply perm_range.
Qed.

Section permute.
  Context {A : Type}.
  Implicit Types (graph : list A).

(** The element at [i] is to go to [p !! i]; [F] gives what is to be where. *)
Definition targets (F : Z -> option A) (graph : list A) (p : list Z) : Prop :=
  forall i x, vget p i = Some x -> vget graph i = F x.

Definition unfixed (p : list Z) (i : Z) : nat := if decide (vget p i = Some i) then 0 else 1.
Definition num_unfixed (p : list Z) : nat := sum_list_with (unfixed p) (count_up (size_ p)).

Lemma sum_list_with_lt (f g : Z -> nat) l u :
  u ∈ l -> (forall v, v ∈ l -> f v <= g v)%nat -> (f u < g u)%nat ->
  (sum_list_with f l < sum_list_with g l)%nat.
Proof.
  intros Hu Hle Hlt. induction l as [|v l IH]; [by apply elem_of_nil in Hu|]. simpl.
  assert (sum_list_with f l <= sum_list_with g l)%nat as Hl.
  { assert (forall v, v ∈ l -> f v <= g v)%nat as H by (intros w Hw; apply Hle; by right).
    clear -H. induction l as [|w l IH]; simpl; [lia|].
    pose proof (H w ltac:(left)). specialize (IH ltac:(intros x Hx; apply H; by right)). lia. }
  apply elem_of_cons in Hu as [->|Hu]; [lia|].
  pose proof (Hle v ltac:(left)). specialize (IH Hu ltac:(intros w Hw; apply Hle; by right)). lia.
Qed.

Lemma swap_step F graph p n r : is_perm p -> targets F graph p -> size_ graph = size_ p ->
  vget p n = Some r -> n <> r ->
  exists graph' p', swap_elements graph n r = Ok graph' /\ swap_elements p n r = Ok p' /\
    is_perm p' /\ targets F graph' p' /\ size_ p' = size_ p /\ size_ graph' = size_ graph /\
    (num_unfixed p' < num_unfixed p)%nat /\
    (forall i, vget p i = Some i -> vget p' i = Some i).
Proof.
  intros Hp Ht Hs Hn Hne.
  pose proof (perm_range _ Hp _ _ Hn) as Hr. pose proof (vget_Some _ _ _ Hn) as Hn'.
  destruct (vget_ex p r Hr) as [q Hq].
  destruct (vget_ex graph n) as [x Hx]; [lia|]. destruct (vget_ex graph r) as [y Hy]; [lia|].
  rewrite (swap_elements_spec _ _ _ _ _ Hx Hy), (swap_elements_spec _ _ _ _ _ Hn Hq).
  set (p' := vset (vset p n q) r r).
  assert (forall i, vget p' i = if bool_decide (r = i) then Some r else if bool_decide (n = i) then Some q else vget p i) as Hget.
  { intros i. unfold p'. rewrite !vget_vset by (rewrite ?size_vset; lia). done. }
  assert (size_ p' = size_ p) as Hs' by (unfold p'; by rewrite !size_vset).
  assert (forall i, vget p i = Some i -> vget p' i = Some i) as Hfix.
  { intros i Hi. rewrite Hget. case_bool_decide; [by subst|]. case_bool_decide; [subst; congruence|done]. }
  eexists _, p'. split; [done|]. split; [done|]. split; [|split; [|split; [done|split; [by rewrite !size_vset|split; [|done]]]]].
  - split.
    + intros i z. rewrite Hget, Hs'. repeat case_bool_decide; intros [= <-] || intros Hz; try lia;
        eauto using perm_range.
    + intros i j z. rewrite !Hget. pose proof (perm_inj _ Hp) as Hinj.
      repeat case_bool_decide; intros Hiz Hjz; subst; simplify_eq; try done;
        match goal with
        | Ha : vget p ?i = Some ?z, Hb : vget p ?j = Some ?z |- _ =>
            pose proof (Hinj _ _ _ Ha Hb); congruence
        end.
  - intros i z. rewrite Hget. rewrite !vget_vset by (rewrite ?size_vset; lia).
    repeat case_bool_decide; subst; intros Hz; simplify_eq.
    + rewrite <- Hx. by apply Ht.
    + rewrite <- Hy. by apply Ht.
    + by apply Ht.
  - unfold num_unfixed. rewrite Hs'. apply (sum_list_with_lt _ _ _ r).
    + by apply elem_of_count_up.
    + intros i _. unfold unfixed. destruct (decide (vget p i = Some i)) as [Hi|]; [|destruct (decide _); lia].
      by rewrite decide_True by auto.
    + unfold unfixed. rewrite decide_True, decide_False; [lia|..].
      * intros Hqr. pose proof (perm_inj _ Hp _ _ _ Hn Hqr). done.
      * rewrite Hget. by rewrite bool_decide_true.
Qed.

Lemma cycle_loop_spec F n fuel : forall graph p, is_perm p -> targets F graph p -> size_ graph = size_ p ->
  0 <= n < size_ p -> (num_unfixed p <= fuel)%nat ->
  exists graph' p', cycle_loop fuel n graph p = Ok (graph', p') /\
    is_perm p' /\ targets F graph' p' /\ size_ p' = size_ p /\ size_ graph' = size_ graph /\
    vget p' n = Some n /\ (num_unfixed p' <= num_unfixed p)%nat /\
    (forall i, vget p i = Some i -> vget p' i = Some i).
Proof.
  induction fuel as [|fuel IH]; intros graph p Hp Ht Hs Hn Hf;
    destruct (vget_ex p n Hn) as [r Hr]; cbn [cycle_loop]; rewrite (at_Some _ _ _ Hr); cbn [mbind result_bind];
    destruct (Z.eqb_spec n r) as [->|Hne].
  - exists graph, p. split_and!; done || lia.
  - destruct (swap_step F graph p n r) as (? & ? & _ & _ & _ & _ & _ & _ & Hlt & _); [done..|lia].
  - exists graph, p. split_and!; done || lia.
  - destruct (swap_step F graph p n r) as (graph1 & p1 & -> & -> & Hp1 & Ht1 & Hs1 & Hg1 & Hlt & Hfix); [done..|].
    cbn [mbind result_bind].
    destruct (IH graph1 p1) as (graph' & p' & -> & Hp' & Ht' & Hs' & Hg' & Hn' & Hle & Hfix'); [done|done|lia|lia|lia|].
    exists graph', p'. split_and!; try done; [lia..|]. auto.
Qed.

Lemma num_unfixed_le p : (num_unfixed p <= length p)%nat.
Proof.
  unfold num_unfixed, count_up, size_. rewrite Nat2Z.id. rewrite <- (length_seq (length p) 0) at 2.
  generalize (seq 0 (length p)). intros l. induction l as [|i l IH]; simpl; [lia|].
  unfold unfixed at 1. destruct (decide _); lia.
Qed.

Lemma permute_loop_spec F fuel ns : forall graph p, is_perm p -> targets F graph p -> size_ graph = size_ p ->
  (forall n, n ∈ ns -> 0 <= n < size_ p) -> (num_unfixed p <= fuel)%nat ->
  exists graph' p', permute_loop fuel ns graph p = Ok (graph', p') /\
    is_perm p' /\ targets F graph' p' /\ size_ p' = size_ p /\ size_ graph' = size_ graph /\
    (forall i, i ∈ ns \/ vget p i = Some i -> vget p' i = Some i).
Proof.
  induction ns as [|n ns IH]; intros graph p Hp Ht Hs Hns Hf; cbn [permute_loop].
  - exists graph, p. split_and!; try done. intros i [?%elem_of_nil|]; done.
  - destruct (cycle_loop_spec F n fuel graph p) as (graph1 & p1 & -> & Hp1 & Ht1 & Hs1 & Hg1 & Hn1 & Hle & Hfix);
      [done..|apply Hns; left|done|]. cbn [mbind result_bind].
    destruct (IH graph1 p1) as (graph' & p' & -> & Hp' & Ht' & Hs' & Hg' & Hfix');
      [done|done|lia|intros m Hm; rewrite Hs1; apply Hns; by right|lia|].
    exists graph', p'. split_and!; try done; [lia..|].
    intros i [[->|Hi]%elem_of_cons|Hi]; auto.
Qed.

Lemma PermuteNodesInPlace_spec graph p : is_perm p -> size_ graph = size_ p ->
  exists graph', PermuteNodesInPlace graph p false = Ok graph' /\ size_ graph' = size_ graph /\
    forall i x, vget p i = Some x -> vget graph' x = vget graph i.
Proof.
  intros Hp Hs. unfold PermuteNodesInPlace. rewrite (proj2 (Z.eqb_eq _ _) Hs). cbn [CHECK mbind result_bind mret result_ret].
  set (F := fun x => match list_find (fun y => y = x) p with Some (i, _) => graph !! i | None => None end).
  assert (targets F graph p) as Ht.
  { intros i x Hi. unfold F. destruct (list_find _ p) as [[j y]|] eqn:E.
    - apply list_find_Some in E as (Hj & -> & _). rewrite <- vget_nat. rewrite <- vget_nat in Hj.
      by rewrite (perm_inj _ Hp _ _ _ Hi Hj).
    - exfalso. apply list_find_None in E. rewrite Forall_forall in E. apply (E x); [|done].
      apply elem_of_vget. eauto. }
  destruct (permute_loop_spec F (length p) (count_up (size_ p - 1)) graph p)
    as (graph' & p' & -> & Hp' & Ht' & Hs' & Hg' & Hfix); [done..| |apply num_unfixed_le|].
  { intros n Hn%elem_of_count_up. lia. }
  cbn [mbind result_bind]. exists graph'. split; [done|]. split; [done|].
  assert (forall i, 0 <= i < size_ p' -> vget p' i = Some i) as Hall.
  { intros i Hi. destruct (decide (i < size_ p - 1)); [apply Hfix; left; apply elem_of_count_up; lia|].
    destruct (vget_ex p' i Hi) as [x Hx]. pose proof (perm_range _ Hp' _ _ Hx).
    destruct (decide (x = i)) as [->|]; [done|].
    assert (vget p' x = Some x) as Hxx by (apply Hfix; left; apply elem_of_count_up; lia).
    pose proof (perm_inj _ Hp' _ _ _ Hx Hxx). lia. }
  intros i x Hi. rewrite (Ht i x Hi). apply Ht', Hall. rewrite Hs'. by eapply perm_range.
Qed.
End permute.

(** ** The views *)

Lemma permute_nodes_spec o : forall k p nodes acc, is_perm p -> size_ acc = size_ p -> size_ nodes = size_ p ->
  0 <= k -> o = drop (Z.to_nat k) p ->
  (forall i x, i < k -> vget p i = Some x -> vget acc x = vget nodes i) ->
  exists acc', permute_nodes o (drop (Z.to_nat k) nodes) acc = Ok acc' /\ size_ acc' = size_ p /\
    forall i x, vget p i = Some x -> vget acc' x = vget nodes i.
Proof.
  induction o as [|x o IH]; intros k p nodes acc Hp Ha Hn Hk Ho Hacc.
  - exists acc. split; [done|]. split; [done|]. intros i x Hi. apply Hacc; [|done].
    apply vget_Some in Hi. symmetry in Ho. apply (f_equal length) in Ho. rewrite length_drop in Ho.
    simpl in Ho. unfold size_ in *. lia.
  - assert (vget p k = Some x) as Hx.
    { rewrite <- (Z2Nat.id k), vget_nat by done. rewrite <- (Nat.add_0_r (Z.to_nat k)), <- lookup_drop, <- Ho. done. }
    destruct (vget_ex nodes k) as [v Hv]; [rewrite Hn; by eapply vget_Some|].
    assert (drop (Z.to_nat k) nodes = v :: drop (Z.to_nat (k + 1)) nodes) as ->.
    { rewrite Z2Nat.inj_add, Nat.add_1_r by lia. apply drop_S.
      rewrite <- (Z2Nat.id k), vget_nat in Hv by done. done. }
    assert (o = drop (Z.to_nat (k + 1)) p) as Ho'.
    { rewrite Z2Nat.inj_add, <- drop_drop, <- Ho by lia. done. }
    pose proof (perm_range _ Hp _ _ Hx) as Hxr. cbn [permute_nodes].
    destruct (vget_ex acc x) as [y Hy]; [lia|]. rewrite (at_Some _ _ _ Hy). cbn [mbind result_bind].
    apply IH; [done|by rewrite size_vset|done|lia|done|].
    intros i z Hi Hz. rewrite vget_vset by lia. case_bool_decide as E.
    + subst. by rewrite (perm_inj _ Hp _ _ _ Hz Hx).
    + apply Hacc; [|done]. destruct (decide (i = k)) as [->|]; [congruence|lia].
Qed.

(** ** A consistent view stays consistent when its nodes move *)

Section renumber.
  Context {AttrValue : Type}.
  #[local] Notation G := (MutableGraphView AttrValue).
  Implicit Type g : G.

Record renumbered (o : Z -> Z) g g' : Prop := {
  re_size : size_ (nodes_ g') = size_ (nodes_ g) /\ size_ (graph g') = size_ (graph g);
  re_range : forall i, 0 <= i < size_ (nodes_ g) -> 0 <= o i < size_ (nodes_ g);
  re_inj : forall i j, 0 <= i < size_ (nodes_ g) -> 0 <= j < size_ (nodes_ g) -> o i = o j -> i = j;
  re_surj : forall x, 0 <= x < size_ (nodes_ g) -> exists i, 0 <= i < size_ (nodes_ g) /\ o i = x;
  re_nodes : forall i, 0 <= i < size_ (nodes_ g) -> vget (nodes_ g') (o i) = renumber_node o <$> vget (nodes_ g) i;
  re_graph : forall i, 0 <= i < size_ (nodes_ g) -> vget (graph g') (o i) = vget (graph g) i;
  re_names : forall s, node_index_by_name_ g' !! s = o <$> node_index_by_name_ g !! s
}.

Context (o : Z -> Z) (g g' : G) (Hre : renumbered o g g') (Hg : core_ok ∅ ∅ g).
#[local] Notation n := (size_ (nodes_ g)).

Lemma re_len : size_ (graph g) = n.
Proof. symmetry. apply Hg. Qed.

Lemma re_node x v' : vget (nodes_ g') x = Some v' ->
  exists i v, 0 <= i < n /\ x = o i /\ vget (nodes_ g) i = Some v /\ v' = renumber_node o v.
Proof.
  intros Hx. pose proof (vget_Some _ _ _ Hx) as Hr. rewrite (proj1 (re_size _ _ _ Hre)) in Hr.
  destruct (re_surj _ _ _ Hre x Hr) as (i & Hi & <-). rewrite (re_nodes _ _ _ Hre i Hi) in Hx.
  destruct (vget (nodes_ g) i) as [v|] eqn:Ev; [|done]. injection Hx as <-. by exists i, v.
Qed.

Lemma re_def x d : vget (graph g') x = Some d -> exists i, 0 <= i < n /\ x = o i /\ vget (graph g) i = Some d.
Proof.
  intros Hx. pose proof (vget_Some _ _ _ Hx) as Hr. rewrite (proj2 (re_size _ _ _ Hre)), re_len in Hr.
  destruct (re_surj _ _ _ Hre x Hr) as (i & Hi & <-). rewrite (re_graph _ _ _ Hre i Hi) in Hx. by exists i.
Qed.

Lemma re_name_of i : 0 <= i < n -> name_of g' (o i) = name_of g i.
Proof. intros Hi. unfold name_of. by rewrite (re_graph _ _ _ Hre i Hi). Qed.

Lemma re_fanin_at i k : 0 <= i < n -> fanin_at g' (o i) k = renumber_fanin o <$> fanin_at g i k.
Proof.
  intros Hi. unfold fanin_at. rewrite (re_nodes _ _ _ Hre i Hi).
  destruct (vget (nodes_ g) i) as [v|]; [|done]. cbn [fmap option_fmap option_map mbind option_bind renumber_node regular_fanins_].
  apply vget_map.
Qed.

Lemma re_control_fanin_at i k : 0 <= i < n -> control_fanin_at g' (o i) k = renumber_fanin o <$> control_fanin_at g i k.
Proof.
  intros Hi. unfold control_fanin_at. rewrite (re_nodes _ _ _ Hre i Hi).
  destruct (vget (nodes_ g) i) as [v|]; [|done]. cbn [fmap option_fmap option_map mbind option_bind renumber_node controlling_fanins_].
  apply vget_map.
Qed.

Lemma re_fanout_at j p f : 0 <= j < n -> fanout_at g' (o j) p f = renumber_fanout o <$> fanout_at g j p f.
Proof.
  intros Hj. unfold fanout_at. rewrite (re_nodes _ _ _ Hre j Hj).
  destruct (vget (nodes_ g) j) as [v|]; [|done].
  cbn [fmap option_fmap option_map mbind option_bind renumber_node regular_fanouts_by_port_].
  rewrite vget_map. destruct (vget _ p) as [l|]; [|done].
  cbn [fmap option_fmap option_map mbind option_bind]. apply vget_map.
Qed.

Lemma re_control_fanout_at j f : 0 <= j < n -> control_fanout_at g' (o j) f = renumber_fanout o <$> control_fanout_at g j f.
Proof.
  intros Hj. unfold control_fanout_at. rewrite (re_nodes _ _ _ Hre j Hj).
  destruct (vget (nodes_ g) j) as [v|]; [|done].
  cbn [fmap option_fmap option_map mbind option_bind renumber_node controlled_fanouts_]. apply vget_map.
Qed.

Lemma fanin_range i k w : fanin_at g i k = Some w -> 0 <= i < n /\ 0 <= fanout_node_index w < n.
Proof.
  intros (v & Hv & Hw)%fanin_at_Some. split; [by eapply vget_Some|]. rewrite <- re_len.
  apply (ok_fanin_range _ _ _ _ _ (ok_index_ok _ _ _ Hg i v Hv)). apply elem_of_app. left. apply elem_of_vget. eauto.
Qed.

Lemma control_fanin_range i k w : control_fanin_at g i k = Some w -> 0 <= i < n /\ 0 <= fanout_node_index w < n.
Proof.
  intros (v & Hv & Hw)%control_fanin_at_Some. split; [by eapply vget_Some|]. rewrite <- re_len.
  apply (ok_fanin_range _ _ _ _ _ (ok_index_ok _ _ _ Hg i v Hv)). apply elem_of_app. right. apply elem_of_vget. eauto.
Qed.

Lemma fanout_range j p f w : fanout_at g j p f = Some w -> 0 <= j < n /\ 0 <= fanin_node_index w < n.
Proof.
  intros Hw. destruct (ok_fanout _ _ (ok_edges _ _ _ Hg) _ _ _ _ Hw) as [_ Hf].
  apply fanin_range in Hf as [? ?]. done.
Qed.

Lemma control_fanout_range j f w : control_fanout_at g j f = Some w -> 0 <= j < n /\ 0 <= fanin_node_index w < n.
Proof.
  intros Hw. destruct (ok_control_fanout _ _ (ok_controls _ _ _ Hg) _ _ _ Hw) as [_ Hf].
  apply control_fanin_range in Hf as [? ?]. done.
Qed.

(** An index of [g'] is the image of an index of [g]. *)
Lemma re_at_index {A} x (a : A) (h : MutableNodeView -> option A) :
  (v ← vget (nodes_ g') x; h v) = Some a -> exists i, 0 <= i < n /\ x = o i.
Proof. intros (v & Hv & _)%bind_Some. apply re_node in Hv as (i & _ & ? & ? & _). eauto. Qed.

Lemma renumbered_names : names_ok g'.
Proof.
  pose proof (ok_names_ok _ _ _ Hg) as Hn. pose proof re_len as Hl. split.
  - destruct (re_size _ _ _ Hre) as [-> ->]. apply Hn.
  - intros x v' (i & v & Hi & -> & Hv & ->)%re_node. cbn. by rewrite (ok_index _ Hn _ _ Hv).
  - intros s x. rewrite (re_names _ _ _ Hre), fmap_Some. split.
    + intros (i & (d & Hd & Hs)%(ok_names _ Hn) & ->). exists d. split; [|done].
      rewrite (re_graph _ _ _ Hre); [done|]. rewrite <- Hl. by eapply vget_Some.
    + intros (d & (i & Hi & -> & Hd)%re_def & Hs). exists i. split; [|done]. apply (ok_names _ Hn). eauto.
  - intros x y d e (i & Hi & -> & Hd)%re_def (j & Hj & -> & He)%re_def Ha.
    by rewrite (ok_address _ Hn _ _ _ _ Hd He Ha).
Qed.

Lemma renumbered_edges : edges_ok ∅ g'.
Proof.
  pose proof (ok_edges _ _ _ Hg) as He. split; [apply regular_matching_full|].
  - intros x k w' Hw. destruct (re_at_index _ _ _ Hw) as (i & Hi & ->).
    rewrite re_fanin_at in Hw by done. apply fmap_Some in Hw as (w & Hw & ->).
    destruct (ok_fanin _ _ He _ _ _ Hw) as [Hp Hf]. cbn [renumber_fanin fanout_port_index fanout_node_index fanout_index_].
    split; [done|]. rewrite re_fanout_at by (exact (proj2 (fanin_range _ _ _ Hw))). rewrite Hf by set_solver. done.
  - intros x p f w' Hw. destruct (re_at_index _ _ _ Hw) as (j & Hj & ->).
    rewrite re_fanout_at in Hw by done. apply fmap_Some in Hw as (w & Hw & ->).
    destruct (ok_fanout _ _ He _ _ _ _ Hw) as [Hp Hf]. cbn [renumber_fanout fanin_port_index fanin_node_index fanin_index_].
    split; [done|]. rewrite re_fanin_at by (exact (proj2 (fanout_range _ _ _ _ Hw))). by rewrite Hf.
  - intros x v' (i & v & Hi & -> & Hv & ->)%re_node. cbn.
    rewrite (ok_num_fanouts _ _ He _ _ Hv). induction (regular_fanouts_by_port_ v) as [|l ls IH]; [done|].
    simpl. by rewrite IH, size_map.
Qed.

Lemma renumbered_controls : controls_ok ∅ g'.
Proof.
  pose proof (ok_controls _ _ _ Hg) as He. apply controls_ok_full.
  - intros x k w' Hw. destruct (re_at_index _ _ _ Hw) as (i & Hi & ->).
    rewrite re_control_fanin_at in Hw by done. apply fmap_Some in Hw as (w & Hw & ->).
    destruct (ok_control_fanin _ _ He _ _ _ Hw) as [Hp Hf]. cbn [renumber_fanin fanout_port_index fanout_node_index fanout_index_].
    split; [done|]. rewrite re_control_fanout_at by (exact (proj2 (control_fanin_range _ _ _ Hw))).
    rewrite Hf by set_solver. done.
  - intros x f w' Hw. destruct (re_at_index _ _ _ Hw) as (j & Hj & ->).
    rewrite re_control_fanout_at in Hw by done. apply fmap_Some in Hw as (w & Hw & ->).
    destruct (ok_control_fanout _ _ He _ _ _ Hw) as [Hp Hf]. cbn [renumber_fanout fanin_port_index fanin_node_index fanin_index_].
    split; [done|]. rewrite re_control_fanin_at by (exact (proj2 (control_fanout_range _ _ _ Hw))). by rewrite Hf.
Qed.

Lemma re_fanins v : regular_fanins_ (renumber_node o v) ++ controlling_fanins_ (renumber_node o v) =
  map (renumber_fanin o) (regular_fanins_ v ++ controlling_fanins_ v).
Proof. cbn. by rewrite map_app. Qed.

Lemma renumbered_count l j p : 0 <= j < n -> (forall w, w ∈ l -> 0 <= fanout_node_index w < n) ->
  occurrences (o j) p (map (renumber_fanin o) l) = occurrences j p l.
Proof.
  intros Hj Hr. unfold occurrences. induction l as [|w l IH]; [done|]. cbn [map].
  rewrite !filter_cons. specialize (IH ltac:(intros u Hu; apply Hr; by right)).
  pose proof (Hr w ltac:(left)) as Hw. destruct (decide (_ /\ _)) as [[H1 H2]|H1], (decide (_ /\ _)) as [[H3 H4]|H3]; cbn in *.
  - unfold size_ in *. cbn [length]. lia.
  - exfalso. apply H3. split; [|done]. by eapply re_inj.
  - exfalso. apply H1. by rewrite H3.
  - exact IH.
Qed.

Lemma renumbered_core : core_ok ∅ ∅ g'.
Proof.
  pose proof re_len as Hl. split.
  - apply renumbered_names.
  - apply renumbered_edges.
  - apply renumbered_controls.
  - intros x v' (i & v & Hi & -> & Hv & ->)%re_node. pose proof (ok_index_ok _ _ _ Hg i v Hv) as Hix.
    assert (forall w, w ∈ regular_fanins_ v ++ controlling_fanins_ v -> 0 <= fanout_node_index w < n) as Hr.
    { intros w Hw. rewrite <- Hl. by apply (ok_fanin_range _ _ _ _ _ Hix). }
    split.
    + intros y p Hy. rewrite (proj2 (re_size _ _ _ Hre)), Hl in Hy.
      destruct (re_surj _ _ _ Hre y Hy) as (j & Hj & <-).
      rewrite !live_empty, re_fanins, renumbered_count by done. pose proof (ok_count _ _ _ _ _ Hix j p ltac:(lia)) as Hc.
      rewrite !live_empty in Hc. rewrite <- Hc. cbn. f_equal. f_equal. unfold address_of.
      by rewrite (re_graph _ _ _ Hre j Hj).
    + intros s k. cbn [renumber_node controlling_fanins_index_ controlling_fanins_].
      rewrite (ok_control_index _ _ _ _ _ Hix s k). rewrite vget_map. split.
      * intros (w & Hw & _ & Hs). exists (renumber_fanin o w). rewrite Hw. split; [done|]. split; [set_solver|]. cbn.
        rewrite re_name_of; [done|]. apply Hr, elem_of_app. right. apply elem_of_vget. eauto.
      * intros (w' & Hw & _ & Hs). apply fmap_Some in Hw as (w & Hw & ->). exists w. split; [done|].
        split; [set_solver|]. cbn in Hs.
        rewrite re_name_of in Hs; [done|]. apply Hr, elem_of_app. right. apply elem_of_vget. eauto.
    + intros w'. rewrite re_fanins. intros (w & -> & Hw)%list_elem_of_fmap. cbn.
      destruct (ok_fanin_range _ _ _ _ _ Hix w Hw) as [H1 H2]. rewrite (proj2 (re_size _ _ _ Hre)), Hl.
      split; [apply (re_range _ _ _ Hre); lia|]. intros H3. apply H2. eapply re_inj; [done|lia|done|done].
    + intros a p Ha. destruct (proj1 (list_elem_of_fmap _ _ _) (ok_count_known _ _ _ _ _ Hix a p Ha)) as (d & -> & [j Hd]%elem_of_vget).
      apply list_elem_of_fmap. exists d. split; [done|]. apply elem_of_vget. exists (o j). rewrite (re_graph _ _ _ Hre j); [done|].
      rewrite <- Hl. by eapply vget_Some.
Qed.

Lemma renumbered_fanin_id i v w : vget (nodes_ g) i = Some v -> w ∈ regular_fanins_ v ++ controlling_fanins_ v ->
  fanin_id g' (renumber_fanin o w) = fanin_id g w.
Proof.
  intros Hv Hw. unfold fanin_id. cbn. rewrite re_name_of; [done|]. rewrite <- re_len.
  by apply (ok_fanin_range _ _ _ _ _ (ok_index_ok _ _ _ Hg i v Hv)).
Qed.

Lemma renumbered_inputs i d v : vget (nodes_ g) i = Some v -> inputs_ok g d v -> inputs_ok g' d (renumber_node o v).
Proof.
  intros Hv Hin. unfold inputs_ok in *. rewrite re_fanins, map_map, Hin. apply map_ext_in. intros w Hw%list_elem_of_In.
  symmetry. by apply (renumbered_fanin_id i v).
Qed.

(** The edges move along. *)
Lemma renumbered_edge i j : 0 <= i < n -> 0 <= j < n -> has_edge g' (o i) (o j) <-> has_edge g i j.
Proof.
  intros Hi Hj. unfold has_edge. rewrite (re_nodes _ _ _ Hre j Hj). split.
  - intros (v' & w' & Hv & Hw & Hx). apply fmap_Some in Hv as (v & Hv & ->). rewrite re_fanins in Hw.
    apply list_elem_of_fmap in Hw as (w & -> & Hw). exists v, w. split_and!; try done.
    apply (re_inj _ _ _ Hre); [|done|done]. rewrite <- re_len.
    by apply (ok_fanin_range _ _ _ _ _ (ok_index_ok _ _ _ Hg j v Hv)).
  - intros (v & w & Hv & Hw & <-). exists (renumber_node o v), (renumber_fanin o w). rewrite Hv. split; [done|].
    rewrite re_fanins. split; [|done]. apply list_elem_of_fmap. eauto.
Qed.
End renumber.

Lemma renumbered_ok {AttrValue} o (g g' : MutableGraphView AttrValue) : renumbered o g g' -> view_ok g -> view_ok g'.
Proof.
  intros Hre Hg. split; [exact (renumbered_core o g g' Hre Hg)|]. intros x d v' (i & Hi & -> & Hd)%(re_def o g _ Hre Hg) Hv.
  rewrite (re_nodes _ _ _ Hre i Hi) in Hv. apply fmap_Some in Hv as (v & Hv & ->).
  apply (renumbered_inputs o g g' Hre Hg i d v Hv). by apply (ok_inputs _ Hg i).
Qed.
