(* ===== verification/TopoTheorems.v ===== *)
(** * TopoTheorems: what [SortTopologically] guarantees

    The traversal on a consistent view, the permutation it gives, and the
    status. *)

From S2P Require Import Prelude Vec TensorName GraphView GraphInv TopoSort TopoSortProofs Renumber.
#[local] Open Scope list_scope.

(** ** The loop that fixes the indices *)

Section fix_indices.
  Context {AttrValue : Type}.
  #[local] Notation G := (MutableGraphView AttrValue).

Lemma fix_indices_spec (p : list Z) l : forall g : G,
  NoDup (map node_index_ l) ->
  (forall v, v ∈ l -> exists d o, vget (graph g) (node_index_ v) = Some d /\ vget p (node_index_ v) = Some o /\
     node_index_by_name_ g !! name d = Some (node_index_ v)) ->
  exists m', fix_indices p l g = Ok (map (renumber_node (order_of p)) l, set_node_index_by_name m' g) /\
    (forall v d, v ∈ l -> vget (graph g) (node_index_ v) = Some d -> m' !! name d = Some (order_of p (node_index_ v))) /\
    (forall s, (forall v d, v ∈ l -> vget (graph g) (node_index_ v) = Some d -> name d <> s) ->
       m' !! s = node_index_by_name_ g !! s).
Proof.
  induction l as [|v l IH]; intros g Hnd Hl.
  - exists (node_index_by_name_ g). split; [by destruct g|]. split; [|done]. intros v d Hv. by apply elem_of_nil in Hv.
  - apply NoDup_cons in Hnd as [Hv Hnd].
    destruct (Hl v ltac:(left)) as (d & o & Hd & Ho & Hm). cbn [fix_indices].
    unfold mbind, ST_bind. unfold lift at 1. rewrite (at_Some _ _ _ Ho).
    set (g1 := if negb (node_index_ v =? o) then set_node_index_by_name (<[name d := o]> (node_index_by_name_ g)) g else g).
    assert (graph g1 = graph g) as Hg1 by (unfold g1; by destruct (negb _)).
    assert (node_index_by_name_ g1 !! name d = Some o) as Hd1.
    { unfold g1. destruct (Z.eqb_spec (node_index_ v) o); simpl; [congruence|apply lookup_insert_eq]. }
    assert (forall s, s <> name d -> node_index_by_name_ g1 !! s = node_index_by_name_ g !! s) as Hne.
    { intros s Hs. unfold g1. destruct (negb _); [|done]. simpl. by apply lookup_insert_ne. }
    assert (forall u e, u ∈ l -> vget (graph g) (node_index_ u) = Some e -> name e <> name d) as Hdiff.
    { intros u e Hu He Hnm. destruct (Hl u ltac:(by right)) as (e' & o' & He' & _ & Hme). simplify_eq.
      rewrite Hnm, Hm in Hme. injection Hme as Hme. apply Hv. rewrite Hme. apply list_elem_of_fmap. eauto. }
    destruct (IH g1) as (m' & Hfix & Hin & Hout); [done|..].
    { intros u Hu. destruct (Hl u ltac:(by right)) as (e & o' & He & Ho' & Hme). exists e, o'.
      rewrite Hg1. split_and!; try done. rewrite Hne; [done|]. by eapply Hdiff. }
    exists m'. split; [|split].
    + transitivity (match fix_indices p l g1 with Ok (a, s') => Ok (renumber_node (order_of p) v :: a, s') | Fault e => Fault e end).
      * unfold g1. destruct (negb _); [|done].
        unfold node_def_at, get, lift, modify, mbind, ST_bind. by rewrite (at_Some _ _ _ Hd), Hm.
      * rewrite Hfix. unfold g1. by destruct (negb _).
    + intros u e [->|Hu]%elem_of_cons He.
      * simplify_eq. rewrite Hout; [rewrite Hd1; unfold order_of; by rewrite Ho|].
        intros u' e' Hu' He'. rewrite Hg1 in He'. by eapply Hdiff.
      * apply Hin; [done|by rewrite Hg1].
    + intros s Hs. rewrite Hout.
      * apply Hne. intros ->. by apply (Hs v d ltac:(left) Hd).
      * intros u e Hu. rewrite Hg1. apply Hs. by right.
Qed.

(** [apply_order] permutes a consistent view. *)
Lemma apply_order_spec (p : list Z) (g : G) : view_ok g -> is_perm p -> size_ p = size_ (nodes_ g) ->
  exists g', apply_order p g = Ok (tt, g') /\ renumbered (order_of p) g g' /\ mutation_ g' = mutation_ g.
Proof.
  intros Hg Hp Hs. pose proof (ok_names_ok _ _ _ Hg) as Hn. pose proof (ok_length _ Hn) as Hlen.
  assert (forall i, 0 <= i < size_ (nodes_ g) -> exists x, vget p i = Some x /\ order_of p i = x /\ 0 <= x < size_ (nodes_ g)) as Ho.
  { intros i Hi. destruct (vget_ex p i) as [x Hx]; [lia|]. exists x. split; [done|].
    unfold order_of. rewrite Hx. split; [done|]. rewrite <- Hs. by eapply perm_range. }
  destruct (permute_nodes_spec p 0 p (nodes_ g) (map (fun _ => default_NodeView) (nodes_ g)))
    as (acc & Hacc & Hsz & Hget); [done|by rewrite size_map|done|done|done| |].
  { intros i x Hi Hx. apply vget_Some in Hx. lia. }
  rewrite drop_0 in Hacc.
  assert (forall x v, vget acc x = Some v -> vget p (node_index_ v) = Some x /\ vget (nodes_ g) (node_index_ v) = Some v) as Hback.
  { intros x v Hv. destruct (perm_surj p x Hp) as [i Hi]; [rewrite <- Hsz; by eapply vget_Some|].
    rewrite (Hget _ _ Hi) in Hv. by rewrite (ok_index _ Hn _ _ Hv). }
  assert (NoDup (map node_index_ acc)) as Hnd.
  { apply NoDup_alt. intros x y z Hx Hy. rewrite list_lookup_fmap in Hx, Hy.
    apply fmap_Some in Hx as (v & Hx & ->). apply fmap_Some in Hy as (w & Hy & Hvw).
    rewrite <- vget_nat in Hx, Hy. apply Hback in Hx as [Hx _]. apply Hback in Hy as [Hy _].
    rewrite Hvw in Hx. simplify_eq. lia. }
  destruct (fix_indices_spec p acc (set_nodes acc g)) as (m' & Hfix & Hin & Hout); [done|..].
  { intros v [x Hx]%elem_of_vget. destruct (Hback _ _ Hx) as [Hx1 Hx2].
    destruct (view_ok_def _ _ _ _ _ Hg Hx2) as [d Hd]. exists d, x. split_and!; try done.
    apply (ok_names _ Hn). eauto. }
  destruct (PermuteNodesInPlace_spec (graph g) p) as (graph' & Hgr & Hgsz & Hgget); [done|lia|].
  eexists. split; [|split].
  - unfold apply_order. unfold mbind, ST_bind, get, lift, modify. rewrite Hacc, Hfix, Hgr. reflexivity.
  - split; cbn [nodes_ graph node_index_by_name_ set_nodes set_graph set_node_index_by_name].
    + rewrite size_map. lia.
    + intros i Hi. by destruct (Ho i Hi) as (x & _ & -> & ?).
    + intros i j Hi Hj. destruct (Ho i Hi) as (x & Hx & -> & _). destruct (Ho j Hj) as (y & Hy & -> & _).
      intros ->. by eapply perm_inj.
    + intros x Hx. rewrite <- Hs in Hx. destruct (perm_surj p x Hp Hx) as [i Hi]. exists i.
      split; [rewrite <- Hs; by eapply vget_Some|]. unfold order_of. by rewrite Hi.
    + intros i Hi. destruct (Ho i Hi) as (x & Hx & -> & _). by rewrite vget_map, (Hget _ _ Hx).
    + intros i Hi. destruct (Ho i Hi) as (x & Hx & -> & _). by apply Hgget.
    + intros s. destruct (node_index_by_name_ g !! s) as [i|] eqn:Es; simpl.
      * apply (ok_names _ Hn) in Es as (d & Hd & <-).
        destruct (view_ok_node _ _ _ _ _ Hg Hd) as [v Hv].
        assert (v ∈ acc) as Hva.
        { destruct (Ho i) as (x & Hx & _); [by eapply vget_Some|]. apply elem_of_vget. exists x.
          by rewrite (Hget _ _ Hx). }
        rewrite <- (ok_index _ Hn _ _ Hv). apply Hin; [done|]. cbn. by rewrite (ok_index _ Hn _ _ Hv).
      * rewrite Hout; [done|]. cbn [graph set_nodes node_index_by_name_]. intros v d [x Hx]%elem_of_vget Hd <-.
        assert (node_index_by_name_ g !! name d = Some (node_index_ v)) as H by (apply (ok_names _ Hn); eauto).
        congruence.
  - done.
Qed.
End fix_indices.

(** ** The traversal of a consistent view *)

Section traversal.
  Context {AttrValue : Type}.
  #[local] Notation G := (MutableGraphView AttrValue).
  Context (g : G) (deps : list TopologicalDependency).
  #[local] Notation n := (size_ (nodes_ g)).

(** The edges that order the nodes: fanins and extra dependencies, except from
    [NextIteration] to [Merge]. *)
Definition breaks_loop (u v : Z) : Prop :=
  exists d e, vget (graph g) u = Some d /\ IsNextIteration d = true /\ vget (graph g) v = Some e /\ IsMerge e = true.
Definition follows (u v : Z) : Prop := (has_edge g u v \/ (u, v) ∈ deps) /\ ~ breaks_loop u v.

Definition is_root (u : Z) : Prop := 0 <= u < n /\ forall v, ~ has_edge g v u.
Definition reachable (u : Z) : Prop := exists r, is_root r /\ rtc follows r u.

(** When the graph can be sorted: valid dependencies, every node reachable from
    a node without fanins, no cycle. *)
Definition sortable : Prop :=
  Forall (fun d => d.1 <> d.2 /\ 0 <= d.1 < n /\ 0 <= d.2 < n) deps /\
  (forall u, 0 <= u < n -> reachable u) /\ (forall u, ~ tc follows u u).

Definition fo (u : Z) : list Z := match fanouts_of g deps u with Ok l => l | Fault _ => [] end.
Definition ig (u v : Z) : bool := match ignored g u v with Ok b => b | Fault _ => false end.

  Hypothesis Hg : view_ok g.
  Hypothesis Hdeps : forallb (valid_dependency n) deps = true.

Lemma valid_dependency_spec d : valid_dependency n d = true <-> d.1 <> d.2 /\ 0 <= d.1 < n /\ 0 <= d.2 < n.
Proof.
  unfold valid_dependency. rewrite negb_true_iff, !orb_false_iff, !Z.leb_gt, !Z.ltb_ge, Z.eqb_neq. lia.
Qed.

Lemma deps_valid d : d ∈ deps -> d.1 <> d.2 /\ 0 <= d.1 < n /\ 0 <= d.2 < n.
Proof. intros Hd. apply valid_dependency_spec. rewrite forallb_forall in Hdeps. by apply Hdeps, list_elem_of_In. Qed.

Lemma fanouts_of_ok u : 0 <= u < n -> fanouts_of g deps u = Ok (fo u).
Proof.
  intros Hu. unfold fo, fanouts_of. destruct (vget_ex _ _ Hu) as [v Hv]. by rewrite (at_Some _ _ _ Hv).
Qed.

Lemma ignored_ok u v : 0 <= u < n -> 0 <= v < n -> ignored g u v = Ok (ig u v).
Proof.
  rewrite (ok_length _ (ok_names_ok _ _ _ Hg)). intros [d Hd]%vget_ex [e He]%vget_ex.
  unfold ig, ignored. rewrite (at_Some _ _ _ Hd), (at_Some _ _ _ He). cbn [mbind result_bind].
  by destruct (IsNextIteration d).
Qed.

Lemma ig_spec u v : 0 <= u < n -> 0 <= v < n -> ig u v = false <-> ~ breaks_loop u v.
Proof.
  rewrite (ok_length _ (ok_names_ok _ _ _ Hg)). intros [d Hd]%vget_ex [e He]%vget_ex.
  unfold ig, ignored, breaks_loop. rewrite (at_Some _ _ _ Hd), (at_Some _ _ _ He). cbn [mbind result_bind mret result_ret].
  destruct (IsNextIteration d) eqn:E1; cbn.
  - destruct (IsMerge e) eqn:E2; split; [done|intros H; destruct H; eauto 10| |done].
    intros _ (d' & e' & Hd' & _ & He' & Hm). congruence.
  - split; [|done]. intros _ (d' & e' & Hd' & Hn & _). congruence.
Qed.

Lemma elem_of_fo u v : 0 <= u < n -> v ∈ fo u <-> has_edge g u v \/ (u, v) ∈ deps.
Proof.
  intros Hu. destruct (vget_ex _ _ Hu) as [nu Hnu]. unfold fo, fanouts_of. rewrite (at_Some _ _ _ Hnu).
  cbn [mbind result_bind mret result_ret].
  rewrite !elem_of_app, !list_elem_of_fmap. setoid_rewrite elem_of_concat. rewrite has_edge_at.
  pose proof (ok_edges _ _ _ Hg) as He. pose proof (ok_controls _ _ _ Hg) as Hc. split.
  - intros [(w & -> & l & Hw & Hl)|[(w & -> & Hw)|Hw]].
    + left. left. apply elem_of_vget in Hw as [f Hf]. apply elem_of_vget in Hl as [p Hp].
      assert (fanout_at g u p f = Some w) as Hout by (apply fanout_at_Some; eauto).
      destruct (ok_fanout _ _ He _ _ _ _ Hout) as [_ Hin]. by eexists _, _.
    + left. right. apply elem_of_vget in Hw as [f Hf].
      assert (control_fanout_at g u f = Some w) as Hout by (apply control_fanout_at_Some; eauto).
      destruct (ok_control_fanout _ _ Hc _ _ _ Hout) as [_ Hin]. by eexists _, _.
    + right. unfold extra_fanouts in Hw. apply list_elem_of_fmap in Hw as ([a b] & -> & Hw).
      apply list_elem_of_filter in Hw as [Ha Hw]. simpl in *. by subst.
  - intros [[(k & w & Hw & <-)|(k & w & Hw & <-)]|Hd].
    + left. destruct (ok_fanin _ _ He _ _ _ Hw) as [_ Hout]. specialize (Hout ltac:(set_solver)).
      apply fanout_at_Some in Hout as (nu' & l & Hnu' & Hl & Hf). simplify_eq.
      exists (mk_FaninView v k k). split; [done|]. exists l. split; apply elem_of_vget; eauto.
    + right. left. destruct (ok_control_fanin _ _ Hc _ _ _ Hw) as [_ Hout]. specialize (Hout ltac:(set_solver)).
      apply control_fanout_at_Some in Hout as (nu' & Hnu' & Hf). simplify_eq.
      exists (mk_FaninView v kControlSlot k). split; [done|]. apply elem_of_vget; eauto.
    + right. right. unfold extra_fanouts. apply list_elem_of_fmap. exists (u, v). split; [done|].
      apply list_elem_of_filter. done.
Qed.

Lemma fo_range u v : 0 <= u < n -> v ∈ fo u -> 0 <= v < n.
Proof.
  intros Hu [He|Hd]%elem_of_fo; [by apply (has_edge_range _ _ _ _ _ Hg He)| |done]. by apply (deps_valid _ Hd).
Qed.

Lemma follows_range u v : follows u v -> 0 <= u < n /\ 0 <= v < n.
Proof.
  intros [[He|Hd] _].
  - destruct (has_edge_range _ _ _ _ _ Hg He) as (? & ? & _). done.
  - destruct (deps_valid _ Hd) as (_ & ? & ?). done.
Qed.

Lemma edge_follows u v : 0 <= u < n -> edge fo ig u v <-> follows u v.
Proof.
  intros Hu. unfold edge. rewrite succ_fo, elem_of_fo by done. unfold follows.
  split; intros [H1 H2]; (split; [done|]).
  - apply ig_spec; [done| |done]. apply (fo_range u); [done|]. by apply elem_of_fo.
  - apply ig_spec; [done| |done]. apply (fo_range u); [done|]. by apply elem_of_fo.
Qed.

Lemma rtc_follows u v : 0 <= u < n -> rtc (edge fo ig) u v -> rtc follows u v.
Proof.
  intros Hu Hr. induction Hr as [|u w v Huw Hwv IH]; [done|].
  apply edge_follows in Huw; [|done]. eapply rtc_l; [done|]. apply IH. by apply (follows_range u).
Qed.

Lemma elem_of_sources r : r ∈ sources g <-> is_root r.
Proof.
  unfold sources, is_root. rewrite list_elem_of_In, filter_In, <- list_elem_of_In, elem_of_count_down.
  split; intros [Hr H]; (split; [done|]); destruct (vget_ex _ _ Hr) as [v Hv]; rewrite ?Hv in *.
  - intros u (v' & w & Hv' & Hw & _). simplify_eq. unfold is_source, NumRegularFanins, NumControllingFanins, size_ in H.
    apply Z.eqb_eq in H. destruct (regular_fanins_ v), (controlling_fanins_ v); simpl in *; try lia.
    by apply elem_of_nil in Hw.
  - unfold is_source, NumRegularFanins, NumControllingFanins, size_. apply Z.eqb_eq.
    destruct (regular_fanins_ v ++ controlling_fanins_ v) as [|w l] eqn:E.
    + apply app_eq_nil in E as [-> ->]. done.
    + exfalso. apply (H (fanout_node_index w)). exists v, w. rewrite E. split; [done|]. split; [left|done].
Qed.

Definition initial_dfs : Dfs :=
  mk_Dfs (map (fun _ => PENDING) (nodes_ g)) (n - 1) (map (fun _ => 0) (nodes_ g)) [].

Lemma initial_state u t : node_state initial_dfs u = Some t -> t = PENDING.
Proof.
  unfold node_state, initial_dfs. cbn [traversal_state]. rewrite vget_map.
  intros (v & _ & ->)%fmap_Some. done.
Qed.

Lemma initial_inv P : dfs_inv n fo ig P [] initial_dfs.
Proof.
  assert (num_processed (traversal_state initial_dfs) = 0%nat) as Hnum.
  { unfold initial_dfs, num_processed. cbn [traversal_state]. clear. induction (nodes_ g) as [|v l IH]; [done|].
    simpl. rewrite filter_cons_False by done. exact IH. }
  split.
  - apply size_map.
  - apply size_map.
  - rewrite Hnum. cbn [initial_dfs curr_pos]. lia.
  - intros u Hu%initial_state. done.
  - intros u v p Hu%initial_state. done.
  - intros u v Hu%initial_state. done.
  - done.
  - intros u Hu%initial_state. done.
  - intros u v Huv. by apply elem_of_nil in Huv.
  - intros u [Hu%initial_state|Hu%initial_state]; done.
  - intros e He. by apply elem_of_nil in He.
Qed.

Lemma fuel_enough : (S (sum_list_with (fun u => S (S (length (fo u)))) (count_up n)) <= dfs_fuel g deps)%nat.
Proof.
  unfold dfs_fuel. apply le_n_S. generalize (count_up n). intros l. induction l as [|u l IH]; [done|].
  simpl. unfold num_fanouts at 1. unfold fo at 1.
  destruct (fanouts_of g deps u); simpl in *; lia.
Qed.

Lemma all_processed P d : dfs_inv n fo ig P [] d ->
  curr_pos d = -1 <-> forall u, 0 <= u < n -> node_state d u = Some PROCESSED.
Proof.
  intros I. pose proof (inv_pos _ _ _ _ _ _ I) as Hpos. pose proof (inv_states _ _ _ _ _ _ I) as Hst.
  pose proof (num_processed_le (traversal_state d)) as Hle. unfold size_ in *. split.
  - intros Hc u Hu. destruct (vget_ex (traversal_state d) u) as [t Ht]; [unfold size_; lia|].
    unfold node_state. rewrite Ht. f_equal. eapply num_processed_all; [|done]. lia.
  - intros H. rewrite (num_processed_full (traversal_state d)) in Hpos; [lia|].
    intros u t Ht. pose proof (vget_Some _ _ _ Ht). unfold size_ in *.
    specialize (H u ltac:(lia)). unfold node_state in H. congruence.
Qed.

Lemma order_perm P d : dfs_inv n fo ig P [] d -> curr_pos d = -1 -> is_perm (order d) /\ size_ (order d) = n.
Proof.
  intros I Hc. pose proof (proj1 (all_processed P d I) Hc) as Hall.
  pose proof (inv_order _ _ _ _ _ _ I) as Hs. split; [|done]. split.
  - intros i x Hi. pose proof (vget_Some _ _ _ Hi).
    destruct (inv_given _ _ _ _ _ _ I i (Hall i ltac:(lia))) as (y & ? & ?). simplify_eq. lia.
  - intros i j x Hi Hj. pose proof (vget_Some _ _ _ Hi). pose proof (vget_Some _ _ _ Hj).
    apply (inv_inj _ _ _ _ _ _ I i j x); auto; apply Hall; lia.
Qed.

(** The first traversal, from the nodes without fanins. *)
Lemma first_traversal : exists d,
  dfs_from (fanouts_of g deps) (ignored g) (dfs_fuel g deps) (sources g) initial_dfs = Ok d /\
  dfs_inv n fo ig reachable [] d /\
  (forall u, 0 <= u < n -> node_state d u = Some PROCESSED <-> reachable u) /\
  (edges_in_cycle d = [] <-> forall u, reachable u -> ~ tc follows u u).
Proof.
  assert (forall u v, reachable u -> edge fo ig u v -> reachable v) as Hclosed.
  { intros u v (r & Hr & Hru) Huv. exists r. split; [done|]. eapply rtc_r; [done|].
    apply edge_follows; [|done]. destruct Hr as [Hr _]. clear -Hr Hru Hg Hdeps.
    induction Hru as [|r w u Hrw _ IH]; [done|]. apply IH. by apply (follows_range r). }
  destruct (dfs_from_spec n (fanouts_of g deps) (ignored g) fo ig fanouts_of_ok fo_range ignored_ok
    reachable Hclosed (dfs_fuel g deps) (sources g) initial_dfs) as (d & Hd & I & Hin).
  { apply initial_inv. }
  { apply fuel_enough. }
  { apply Forall_forall. intros r Hr%elem_of_sources. split; [apply Hr|]. by exists r. }
  exists d. split; [done|]. split; [done|].
  assert (forall u, 0 <= u < n -> node_state d u = Some PROCESSED <-> reachable u) as Hreach.
  { intros u Hu. split; [intros H; apply (inv_reach _ _ _ _ _ _ I); by right|].
    intros (r & Hr & Hru). assert (node_state d r = Some PROCESSED) as Hs.
    { apply Hin. right. by apply elem_of_sources. }
    clear Hr Hu. induction Hru as [|r w u Hrw _ IH]; [done|]. apply IH.
    destruct (follows_range _ _ Hrw) as [Hr Hw].
    destruct (inv_edges _ _ _ _ _ _ I r w Hs) as [Hc|[? _]]; [by apply edge_follows| |done].
    destruct (inv_cycles _ _ _ _ _ _ I _ _ Hc) as (_ & _ & _ & Hne).
    destruct (vget_ex (traversal_state d) w) as [t Ht]; [by rewrite (inv_states _ _ _ _ _ _ I)|].
    unfold node_state in *. rewrite Ht in *. destruct t; [done| |done].
    by apply (inv_exit _ _ _ _ _ _ I), elem_of_nil in Ht. }
  split; [done|]. split.
  - intros Hc u Hu Hcyc.
    assert (forall v, tc follows u v -> exists pu pv, vget (order d) u = Some pu /\ vget (order d) v = Some pv /\ pu < pv) as Hlt.
    { intros v Huv. assert (reachable u -> 0 <= u < n -> exists pu pv, vget (order d) u = Some pu /\ vget (order d) v = Some pv /\ pu < pv) as H.
      { clear Hu Hcyc. induction Huv as [u v Huv|u w v Huw Hwv IH]; intros Hu Hur.
        - destruct (inv_edges _ _ _ _ _ _ I u v) as [He|[_ H]]; [by apply Hreach|by apply edge_follows| |done].
          rewrite Hc in He. by apply elem_of_nil in He.
        - destruct (follows_range _ _ Huw) as [_ Hw].
          assert (reachable w) as Hrw by (eapply Hclosed; [done|by apply edge_follows]).
          destruct (IH Hrw Hw) as (pw & pv & Hpw & Hpv & Hlt).
          destruct (inv_edges _ _ _ _ _ _ I u w) as [He|[_ (pu & pw' & Hpu & Hpw' & Hlt')]];
            [by apply Hreach|by apply edge_follows| |].
          + rewrite Hc in He. by apply elem_of_nil in He.
          + simplify_eq. exists pu, pv. split_and!; try done. lia. }
      apply H; [done|]. inversion Hcyc; subst;
        match goal with H : follows u _ |- _ => exact (proj1 (follows_range _ _ H)) end. }
    destruct (Hlt u Hcyc) as (pu & pv & ? & ? & ?). simplify_eq. lia.
  - intros Hac. destruct (edges_in_cycle d) as [|[u v] l] eqn:E; [done|]. exfalso.
    destruct (inv_cycles _ _ _ _ _ _ I u v) as (Hu & Huv & Hvu & _); [rewrite E; left|].
    pose proof (proj1 (edge_follows u v Hu) Huv) as Hf. destruct (follows_range _ _ Hf) as [_ Hv].
    assert (tc follows u u) as Hcyc.
    { eapply tc_rtc_r; [by apply tc_once|]. by apply rtc_follows. }
    assert (tc follows v v) as Hcyc'.
    { eapply tc_rtc_l; [by apply rtc_follows|by apply tc_once]. }
    apply (Hac v); [|done]. apply Hreach; [done|].
    destruct (inv_cycles _ _ _ _ _ _ I u v) as (_ & _ & _ & Hne); [rewrite E; left|].
    destruct (vget_ex (traversal_state d) v) as [t Ht]; [by rewrite (inv_states _ _ _ _ _ _ I)|].
    unfold node_state in *. rewrite Ht in *. destruct t; [done| |done].
    by apply (inv_exit _ _ _ _ _ _ I), elem_of_nil in Ht.
Qed.
End traversal.

(** ** The two modes of [SortTopologically] *)

Section theorems.
  Context {AttrValue : Type}.
  #[local] Notation G := (MutableGraphView AttrValue).
  Implicit Type g : G.

Lemma edges_str_ok g l :
  Forall (fun e => 0 <= from e < size_ (graph g) /\ 0 <= to e < size_ (graph g)) l -> exists s, edges_str g l = Ok s.
Proof.
  induction 1 as [|[u v] l [[d Hd]%vget_ex [e He]%vget_ex] _ [s Hs]]; [by eexists|]. cbn [edges_str from to] in *.
  rewrite (at_Some _ _ _ Hd), (at_Some _ _ _ He). cbn [mbind result_bind]. rewrite Hs. by eexists.
Qed.

Lemma cycle_edges_str g deps P d : view_ok g -> forallb (valid_dependency (size_ (nodes_ g))) deps = true ->
  dfs_inv (size_ (nodes_ g)) (fo g deps) (ig g) P [] d -> exists s, edges_str g (edges_in_cycle d) = Ok s.
Proof.
  intros Hg Hd I. apply edges_str_ok, Forall_forall. intros [u v] Huv. cbn [from to].
  rewrite <- (ok_length _ (ok_names_ok _ _ _ Hg)).
  destruct (inv_cycles _ _ _ _ _ _ I _ _ Huv) as (Hu & He & _). split; [done|].
  apply edge_follows in He; [|done..]. by apply (follows_range g deps Hg Hd u).
Qed.

Lemma dfs_inv_weaken n f i P st d : dfs_inv n f i P st d -> dfs_inv n f i (fun _ => True) st d.
Proof. intros I. split; try apply I; done. Qed.

Lemma sortable_deps g deps : sortable g deps -> forallb (valid_dependency (size_ (nodes_ g))) deps = true.
Proof.
  intros [Hd _]. apply forallb_Forall_true. eapply Forall_impl; [exact Hd|].
  intros d. by apply valid_dependency_spec.
Qed.

Lemma valid_deps_Forall g deps : forallb (valid_dependency (size_ (nodes_ g))) deps = true ->
  Forall (fun d => d.1 <> d.2 /\ 0 <= d.1 < size_ (nodes_ g) /\ 0 <= d.2 < size_ (nodes_ g)) deps.
Proof.
  intros Hd. apply Forall_forall. intros d Hin. apply valid_dependency_spec.
  rewrite forallb_forall in Hd. by apply Hd, list_elem_of_In.
Qed.

(** The head of [SortTopologically]: without an active mutation and with valid
    dependencies the traversal decides. *)
Lemma SortTopologically_inactive ignore_cycles deps g :
  updated_nodes_ (mutation_ g) = [] -> new_nodes_ (mutation_ g) = [] ->
  forallb (valid_dependency (size_ (nodes_ g))) deps = false ->
  exists st, SortTopologically ignore_cycles deps g = Ok (st, g) /\ status_ok st = false.
Proof.
  intros Hu Hn Hd. eexists. unfold SortTopologically, get, mbind, ST_bind.
  rewrite Hu, Hn, Hd. split; reflexivity.
Qed.

Lemma SortTopologically_result g deps :
  view_ok g -> updated_nodes_ (mutation_ g) = [] -> new_nodes_ (mutation_ g) = [] ->
  exists st g', SortTopologically false deps g = Ok (st, g') /\
    (status_ok st = true <-> sortable g deps) /\
    (status_ok st = false -> g' = g) /\
    (status_ok st = true -> st = Status_OK /\ mutation_ g' = mutation_ g /\ view_ok g' /\
       exists o, renumbered o g g' /\ forall u v, follows g deps u v -> o u < o v).
Proof.
  intros Hg Hu Hn. destruct (forallb (valid_dependency (size_ (nodes_ g))) deps) eqn:Hd.
  2:{ destruct (SortTopologically_inactive false deps g Hu Hn Hd) as (st & Hs & Hst). exists st, g.
      split; [done|]. rewrite Hst. split; [|by split]. split; [done|].
      intros Hso%sortable_deps. congruence. }
  destruct (first_traversal g deps Hg Hd) as (d & Hrun & I & Hreach & Hcyc).
  unfold SortTopologically, get, lift, mbind, ST_bind. rewrite Hu, Hn, Hd.
  change (mk_Dfs _ _ _ []) with (initial_dfs g). rewrite Hrun.
  cbn [bool_decide negb orb andb].
  destruct (decide (edges_in_cycle d = [])) as [Hc|Hc].
  - rewrite (bool_decide_true (edges_in_cycle d = [])) by done. cbn [negb andb].
    destruct (Z.eqb_spec (curr_pos d) kTopologicalSortDone) as [Hp|Hp]; cbn [negb andb].
    + destruct (order_perm g deps _ d I Hp) as [Hperm Hsize].
      destruct (apply_order_spec (order d) g Hg Hperm Hsize) as (g' & Hap & Hre & Hmu).
      exists Status_OK, g'. split.
      { transitivity (match apply_order (order d) g with Ok (_, s) => Ok (Status_OK, s) | Fault e => Fault e end);
          [reflexivity|by rewrite Hap]. } split; [|split; [done|]].
      * split; [intros _|done]. split; [by apply valid_deps_Forall|].
        pose proof (proj1 (all_processed g deps _ d I) Hp) as Hall. split.
        -- intros u Hu'. apply Hreach; [done|]. by apply Hall.
        -- intros u Huu. assert (0 <= u < size_ (nodes_ g)) as Hr.
           { inversion Huu; subst; match goal with H : follows _ _ u _ |- _ =>
               exact (proj1 (follows_range g deps Hg Hd _ _ H)) end. }
           apply (proj1 Hcyc Hc u); [|done]. apply Hreach; [done|]. by apply Hall.
      * intros _. split; [done|]. split; [done|]. split; [by eapply renumbered_ok|]. exists (order_of (order d)). split; [done|].
        intros u v Huv. destruct (follows_range g deps Hg Hd _ _ Huv) as [Hur Hvr].
        pose proof (proj1 (all_processed g deps _ d I) Hp) as Hall.
        destruct (inv_edges _ _ _ _ _ _ I u v (Hall u Hur)) as [He|(_ & pu & pv & Hpu & Hpv & Hlt)].
        -- by apply edge_follows.
        -- rewrite Hc in He. by apply elem_of_nil in He.
        -- unfold order_of. by rewrite Hpu, Hpv.
    + eexists _, g. split; [reflexivity|]. split; [|by split]. split; [done|].
      intros (_ & Hall & _). destruct Hp. apply (all_processed g deps _ d I). intros u Hur. apply Hreach; auto.
  - rewrite (bool_decide_false (edges_in_cycle d = [])) by done. cbn [negb andb].
    destruct (cycle_edges_str g deps _ d Hg Hd I) as [s ->].
    eexists _, g. split; [reflexivity|]. split; [|by split]. split; [done|].
    intros (_ & _ & Hac). destruct Hc. apply Hcyc. auto.
Qed.

(** C14: Topological sorting is decided exactly.  On a consistent view without an
    active mutation, [SortTopologically(false, extra_dependencies)] returns
    without a fault; the status is OK if and only if the dependencies are valid,
    every node is reachable from a node without fanins and no edges (fanins and
    extra dependencies, except from NextIteration to Merge) form a cycle; then
    the nodes are permuted so that every edge goes forward, and the view of the
    permuted graph is consistent; otherwise the graph is left as it was. *)
Theorem SortTopologically_decides g deps :
  view_ok g -> updated_nodes_ (mutation_ g) = [] -> new_nodes_ (mutation_ g) = [] ->
  exists st g', SortTopologically false deps g = Ok (st, g') /\
    (status_ok st = true <-> sortable g deps) /\
    (status_ok st = false -> g' = g) /\
    (status_ok st = true -> view_ok g' /\
       exists o, renumbered o g g' /\ forall u v, follows g deps u v -> o u < o v).
Proof.
  intros Hg Hu Hn. destruct (SortTopologically_result g deps Hg Hu Hn) as (st & g' & Hr & H1 & H2 & H3). exists st, g'.
  split; [exact Hr|]. split; [exact H1|]. split; [exact H2|]. intros Hst. by destruct (H3 Hst) as (_ & _ & H4).
Qed.

(** C30: With [ignore_cycles] the sort never fails on valid dependencies: whatever
    cycles there are, it returns OK after finitely many turns, the nodes are
    permuted and the view is consistent. *)
Theorem SortTopologically_ignoring_cycles g deps :
  view_ok g -> updated_nodes_ (mutation_ g) = [] -> new_nodes_ (mutation_ g) = [] ->
  forallb (valid_dependency (size_ (nodes_ g))) deps = true ->
  exists g' o, SortTopologically true deps g = Ok (Status_OK, g') /\ renumbered o g g' /\ view_ok g'.
Proof.
  intros Hg Hu Hn Hd.
  destruct (first_traversal g deps Hg Hd) as (d & Hrun & I & _ & _).
  assert (exists d', (if negb (curr_pos d =? kTopologicalSortDone)
      then dfs_from (fanouts_of g deps) (ignored g) (dfs_fuel g deps) (count_up (size_ (nodes_ g))) d
      else mret d) = Ok d' /\ curr_pos d' = -1 /\ exists P, dfs_inv (size_ (nodes_ g)) (fo g deps) (ig g) P [] d')
    as (d' & Hrun' & Hp & P & I').
  { destruct (Z.eqb_spec (curr_pos d) kTopologicalSortDone) as [Hp|Hp]; cbn [negb]; [by exists d; eauto|].
    destruct (dfs_from_spec (size_ (nodes_ g)) (fanouts_of g deps) (ignored g) (fo g deps) (ig g)
      (fanouts_of_ok g deps) (fo_range g deps Hg Hd) (ignored_ok g Hg)
      (fun _ => True) (fun _ _ _ _ => Logic.I) (dfs_fuel g deps) (count_up (size_ (nodes_ g))) d)
      as (d' & -> & I' & Hin).
    - by eapply dfs_inv_weaken.
    - apply fuel_enough.
    - apply Forall_forall. intros u Hur%elem_of_count_up. done.
    - exists d'. split; [done|]. split; [|by eexists]. apply (all_processed g deps _ d' I').
      intros u Hur. apply Hin. right. by apply elem_of_count_up. }
  destruct (order_perm g deps _ d' I' Hp) as [Hperm Hsize].
  destruct (apply_order_spec (order d') g Hg Hperm Hsize) as (g' & Hap & Hre & _).
  exists g', (order_of (order d')). split; [|split; [done|by eapply renumbered_ok]].
  unfold SortTopologically, get, lift, mbind, ST_bind. rewrite Hu, Hn, Hd.
  change (mk_Dfs _ _ _ []) with (initial_dfs g). rewrite Hrun.
  cbn [bool_decide negb orb andb]. rewrite andb_false_r. rewrite Hrun'.
  transitivity (match apply_order (order d') g with Ok (_, s) => Ok (Status_OK, s) | Fault e => Fault e end);
    [reflexivity|by rewrite Hap].
Qed.
End theorems.
