(* ===== verification/GraphEdit.v ===== *)
(** * GraphEdit: single edges of the mutable view (optimizer/graph_view.cc)

    The internal operations that enter and remove single fanins, and the stages
    of a mutation that are made of them. *)

From S2P Require Import Prelude Vec TensorName GraphView.
#[local] Open Scope string_scope.
#[local] Open Scope list_scope.
#[local] Open Scope Z_scope.

Section edit.
  Context {AttrValue : Type}.
  #[local] Notation G := (MutableGraphView AttrValue).
  #[local] Notation M := (ST G).

(** [last_fanout_index]: the loop from the last port down to a port that has
    fanouts; [r] are the ports in reverse. *)
Fixpoint last_fanout_loop (r : list (list MutableFaninView)) (last_fanout_index : Z) : Z :=
  match r with
  | [] :: r => last_fanout_loop r (last_fanout_index - 1)
  | _ => last_fanout_index
  end.
Definition trim_ports (ports : list (list MutableFaninView)) : list (list MutableFaninView) :=
  take (Z.to_nat (last_fanout_loop (rev ports) (size_ ports))) ports.

(** Exchanges the fanout [f] of a port with the last one, whose fanin learns its
    new position, and removes it. *)
Definition drop_regular_fanout (fanouts : list MutableFaninView) (f : Z) : M (list MutableFaninView) :=
  fanouts ← (if f <? size_ fanouts - 1 then
    last_fanout ← lift (back fanouts);
    v ← node_at (fanin_node_index last_fanout);
    w ← lift (at_ (regular_fanins_ v) (fanin_port_index last_fanout));
    update_node (fanin_node_index last_fanout) (fun v => set_regular_fanins
      (vset (regular_fanins_ v) (fanin_port_index last_fanout)
         (mk_FanoutView (fanout_node_index w) (fanout_port_index w) f)) v);;
    lift (swap_elements fanouts (size_ fanouts - 1) f)
  else mret fanouts);
  lift (pop_back fanouts).

Definition RemoveRegularFaninFanoutInternal (i k : Z) : M unit :=
  v ← node_at i;
  fanin ← lift (at_ (regular_fanins_ v) k);
  if fanout_index_ fanin =? kMissingIndex then mret tt else
  d ← node_def_at (fanout_node_index fanin);
  update_node i (fun v => set_fanins_count
    (DecrementFaninCount (fanins_count_ v) (address d, fanout_port_index fanin)) v);;
  w ← node_at (fanout_node_index fanin);
  fanouts ← lift (at_ (regular_fanouts_by_port_ w) (fanout_port_index fanin));
  fanouts' ← drop_regular_fanout fanouts (fanout_index_ fanin);
  update_node (fanout_node_index fanin) (fun w => set_regular_fanouts
    (trim_ports (vset (regular_fanouts_by_port_ w) (fanout_port_index fanin) fanouts'))
    (num_regular_fanouts_ w - 1) w).

(** [GetNode(name)], dereferenced. *)
Definition get_node (node_name : string) : M Z :=
  g ← get; lift (in_range (GetNode_by_name g node_name)).

Definition AddRegularFaninInternal (i : Z) (fanin_id : TensorId) : M unit :=
  j ← get_node (TensorName.node fanin_id);
  connect_regular i j (TensorName.index fanin_id).

Definition UpdateRegularFaninInternal (i k : Z) (fanin_id : TensorId) : M unit :=
  RemoveRegularFaninFanoutInternal i k;;
  j ← get_node (TensorName.node fanin_id);
  f ← push_regular_fanout j (TensorName.index fanin_id) i k;
  v ← node_at i;
  lift (at_ (regular_fanins_ v) k);;
  update_node i (fun v => set_regular_fanins
    (vset (regular_fanins_ v) k (mk_FanoutView j (TensorName.index fanin_id) f)) v);;
  increment_fanin_count i j (TensorName.index fanin_id).

Definition drop_controlled_fanout (fanouts : list MutableFaninView) (f : Z) : M (list MutableFaninView) :=
  fanouts ← (if f <? size_ fanouts - 1 then
    last_control ← lift (back fanouts);
    v ← node_at (fanin_node_index last_control);
    w ← lift (at_ (controlling_fanins_ v) (fanin_index_ last_control));
    update_node (fanin_node_index last_control) (fun v => set_controlling_fanins
      (vset (controlling_fanins_ v) (fanin_index_ last_control)
         (mk_FanoutView (fanout_node_index w) (fanout_port_index w) f)) v);;
    lift (swap_elements fanouts (size_ fanouts - 1) f)
  else mret fanouts);
  lift (pop_back fanouts).

Definition RemoveControllingFaninFanoutInternal (i k : Z) : M unit :=
  v ← node_at i;
  control_to_remove ← lift (at_ (controlling_fanins_ v) k);
  if fanout_index_ control_to_remove =? kMissingIndex then mret tt else
  d ← node_def_at (fanout_node_index control_to_remove);
  update_node i (fun v => set_controlling_fanins_index (delete (name d) (controlling_fanins_index_ v))
    (set_fanins_count (delete (address d, kControlSlot) (fanins_count_ v)) v));;
  w ← node_at (fanout_node_index control_to_remove);
  fanouts ← drop_controlled_fanout (controlled_fanouts_ w) (fanout_index_ control_to_remove);
  update_node (fanout_node_index control_to_remove) (set_controlled_fanouts fanouts).

(** The last controlling fanin takes the place of fanin [k], whose entry is
    gone, in the view and in the inputs. *)
Definition fill_control_hole (i k num_regular_fanins last : Z) : M unit :=
  (if k <? last then
     v ← node_at i;
     last_control ← lift (at_ (controlling_fanins_ v) last);
     w ← node_at (fanout_node_index last_control);
     fo ← lift (at_ (controlled_fanouts_ w) (fanout_index_ last_control));
     update_node (fanout_node_index last_control) (fun w => set_controlled_fanouts
       (vset (controlled_fanouts_ w) (fanout_index_ last_control)
          (mk_FaninView (fanin_node_index fo) (fanin_port_index fo) k)) w);;
     d ← node_def_at (fanout_node_index last_control);
     lift (in_range (controlling_fanins_index_ v !! name d));;
     update_node i (fun v => set_controlling_fanins_index
       (<[name d := k]> (controlling_fanins_index_ v)) v);;
     nd ← node_def_at i;
     input' ← lift (swap_elements (input nd) (num_regular_fanins + k) (num_regular_fanins + last));
     update_node_def i (set_input input');;
     v ← node_at i;
     controls ← lift (swap_elements (controlling_fanins_ v) last k);
     update_node i (set_controlling_fanins controls)
   else mret tt);;
  nd ← node_def_at i;
  input' ← lift (pop_back (input nd));
  update_node_def i (set_input input');;
  v ← node_at i;
  controls ← lift (pop_back (controlling_fanins_ v));
  update_node i (set_controlling_fanins controls).

(** One turn of the loop of [RemoveControllingFaninInternal]. *)
Definition remove_control (i control_index : Z) : M unit :=
  v ← node_at i;
  RemoveControllingFaninFanoutInternal i control_index;;
  v' ← node_at i;
  fill_control_hole i control_index (NumRegularFanins v) (NumControllingFanins v' - 1).

(** [indices_to_remove] in descending order. *)
Fixpoint RemoveControllingFaninInternal (i : Z) (indices_to_remove : list Z) : M unit :=
  match indices_to_remove with
  | [] => mret tt
  | k :: ks => remove_control i k;; RemoveControllingFaninInternal i ks
  end.

Definition AddControllingFaninInternal (i : Z) (fanin_node_name : string) : M unit :=
  text ← lift (AsControlDependency fanin_node_name);
  nd ← node_def_at i;
  update_node_def i (set_input (input nd ++ [text]));;
  j ← get_node fanin_node_name;
  v ← node_at i;
  let index := NumControllingFanins v in
  connect_control i j;;
  update_node i (fun v => set_controlling_fanins_index
    (emplace (controlling_fanins_index_ v) (TensorName.node (ParseTensorName text)) index) v).

Fixpoint remove_regular_fanouts (i : Z) (ks : list Z) : M unit :=
  match ks with
  | [] => mret tt
  | k :: ks => RemoveRegularFaninFanoutInternal i k;; remove_regular_fanouts i ks
  end.
Fixpoint remove_controlling_fanouts (i : Z) (ks : list Z) : M unit :=
  match ks with
  | [] => mret tt
  | k :: ks => RemoveControllingFaninFanoutInternal i k;; remove_controlling_fanouts i ks
  end.

Definition RemoveAllFaninFanoutInternal (i : Z) : M unit :=
  v ← node_at i;
  remove_regular_fanouts i (count_up (NumRegularFanins v));;
  update_node i (set_regular_fanins []);;
  v ← node_at i;
  remove_controlling_fanouts i (count_up (NumControllingFanins v));;
  update_node i (set_controlling_fanins []).
End edit.
