(* ===== verification/GraphEditProofs.v ===== *)
(** * GraphEditProofs: the operations on single edges keep the view consistent

    Each operation of GraphEdit and each [connect] of GraphView returns on a
    consistent view, keeps it consistent up to the holes it makes or fills, and
    changes the fanins of one node in the way stated ([ends_step]). *)

From S2P Require Import Prelude TensorName Vec GraphView GraphInv GraphEdit.
#[local] Open Scope list_scope.

(** ** Adding, removing and moving edges of a matching

    The four ways in which the mutations change fanins and fanouts, on the
    lookup functions alone; they serve regular and control edges alike. *)

Section matching.
  Context (V : Z -> Prop) (port : Z -> Z).
  Implicit Types (H : gset (Z * Z)) (FI : Z -> Z -> option MutableFanoutView)
    (FO : Z -> Z -> Z -> option MutableFaninView).

Lemma matching_ext H FI FO FI' FO' : matching V port H FI FO ->
  (forall i k, FI' i k = FI i k) -> (forall j p f, FO' j p f = FO j p f) -> matching V port H FI' FO'.
Proof.
  intros [H1 H2] Hi Ho. split.
  - intros i k w. rewrite Hi. intros Hw. destruct (H1 i k w Hw). split; [done|]. intros. rewrite Ho. auto.
  - intros j p f w. rewrite Ho. intros Hw. rewrite Hi. auto.
Qed.

(** A fanin at a new index, or in place of a hole. *)
Lemma matching_add H FI FO FI' FO' i k j p f : matching V port H FI FO -> V p ->
  FO j p f = None -> (FI i k = None \/ (i, k) ∈ H) ->
  (forall x y, FI' x y = if bool_decide ((x, y) = (i, k)) then Some (mk_FanoutView j p f) else FI x y) ->
  (forall y q c, FO' y q c = if bool_decide ((y, q, c) = (j, p, f)) then Some (mk_FaninView i (port k) k) else FO y q c) ->
  matching V port (H ∖ {[(i, k)]}) FI' FO'.
Proof.
  intros [H1 H2] Hp Hnone Hhole HI HO. split.
  - intros x y w. rewrite HI. case_bool_decide as E.
    + injection E as -> ->. intros [= <-]. split; [done|]. intros _. cbn. by rewrite HO, bool_decide_true.
    + intros Hw. destruct (H1 x y w Hw) as [Hv Hf]. split; [done|]. intros Hxy.
      specialize (Hf ltac:(set_solver)). rewrite HO, bool_decide_false; [done|].
      intros [= <- <- <-]. congruence.
  - intros y q c w. rewrite HO. case_bool_decide as E.
    + injection E as -> -> ->. intros [= <-]. cbn. split; [done|]. split; [set_solver|].
      by rewrite HI, bool_decide_true.
    + intros Hw. destruct (H2 y q c w Hw) as (Hq & Hn & Hf). split; [done|]. split; [set_solver|].
      rewrite HI, bool_decide_false; [done|]. intros [= E1 E2]. rewrite E1, E2 in *.
      destruct Hhole; [congruence|done].
Qed.

(** The fanout of a fanin is exchanged with the last of its output and removed. *)
Lemma matching_remove H FI FO FI' FO' i k j p f L wl : matching V port H FI FO ->
  FI i k = Some (mk_FanoutView j p f) -> (i, k) ∉ H -> FO j p L = Some wl ->
  (forall x y, FI' x y = if bool_decide (f <> L /\ (x, y) = (fanin_node_index wl, fanin_index_ wl))
     then Some (mk_FanoutView j p f) else FI x y) ->
  (forall y q c, FO' y q c =
     if bool_decide ((y, q, c) = (j, p, L)) then None
     else if bool_decide ((y, q, c) = (j, p, f)) then Some wl else FO y q c) ->
  matching V port ({[(i, k)]} ∪ H) FI' FO'.
Proof.
  intros [H1 H2] Hik Hlive HL HI HO.
  destruct (H1 i k _ Hik) as [Hp Hfo]. specialize (Hfo Hlive). cbn in Hfo.
  destruct (H2 j p L wl HL) as (Hpl & Hnl & Hfl).
  assert (f <> L -> (fanin_node_index wl, fanin_index_ wl) <> (i, k)) as Hne.
  { intros HfL [= E1 E2]. rewrite E1, E2 in Hfl. congruence. }
  split.
  - intros x y w. rewrite HI. case_bool_decide as E.
    + destruct E as [HfL [= -> ->]]. intros [= <-]. split; [done|]. intros _. cbn.
      rewrite HO, bool_decide_false, bool_decide_true by congruence. rewrite <- Hpl. by destruct wl.
    + intros Hw. destruct (H1 x y w Hw) as [Hv Hf]. split; [done|]. intros Hxy.
      specialize (Hf ltac:(set_solver)). rewrite HO. case_bool_decide as E'; [|case_bool_decide as E''].
      * exfalso. injection E' as E1 E2 E3. rewrite E1, E2, E3, HL in Hf. injection Hf as ->. cbn in *.
        destruct (decide (f = L)) as [->|HfL]; [|by apply E].
        rewrite HL in Hfo. injection Hfo as -> _ ->. set_solver.
      * exfalso. injection E'' as E1 E2 E3. rewrite E1, E2, E3, Hfo in Hf. injection Hf as -> _ ->. set_solver.
      * done.
  - intros y q c w. rewrite HO. case_bool_decide as E'; [done|]. case_bool_decide as E''.
    + injection E'' as -> -> ->. intros [= <-]. split; [done|].
      assert (f <> L) as HfL by congruence. split; [specialize (Hne HfL); set_solver|].
      by rewrite HI, bool_decide_true.
    + intros Hw. destruct (H2 y q c w Hw) as (Hq & Hn & Hf). split; [done|]. split.
      * apply not_elem_of_union. split; [|done]. intros E%elem_of_singleton. injection E as E1 E2.
        rewrite E1, E2, Hik in Hf. congruence.
      * rewrite HI, bool_decide_false; [done|]. intros [HfL [= E1 E2]]. rewrite E1, E2, Hfl in Hf. congruence.
Qed.

(** Holes are dropped. *)
Lemma matching_drop H D FI FO FI' : matching V port H FI FO -> D ⊆ H ->
  (forall x y, FI' x y = if bool_decide ((x, y) ∈ D) then None else FI x y) ->
  matching V port (H ∖ D) FI' FO.
Proof.
  intros [H1 H2] HD HI. split.
  - intros x y w. rewrite HI. case_bool_decide as E; [done|]. intros Hw.
    destruct (H1 x y w Hw) as [Hv Hf]. split; [done|]. set_solver.
  - intros y q c w Hw. destruct (H2 y q c w Hw) as (Hq & Hn & Hf). split; [done|]. split; [set_solver|].
    rewrite HI, bool_decide_false; [done|]. set_solver.
Qed.

(** A live fanin moves into a hole of the same node. *)
Lemma matching_move H FI FO FI' FO' i k L j p f : matching V port H FI FO ->
  (i, k) ∈ H -> (i, L) ∉ H -> k <> L -> FI i L = Some (mk_FanoutView j p f) ->
  (forall x y, FI' x y = if bool_decide ((x, y) = (i, k)) then Some (mk_FanoutView j p f)
     else if bool_decide ((x, y) = (i, L)) then None else FI x y) ->
  (forall y q c, FO' y q c = if bool_decide ((y, q, c) = (j, p, f)) then Some (mk_FaninView i (port k) k) else FO y q c) ->
  matching V port (H ∖ {[(i, k)]}) FI' FO'.
Proof.
  intros [H1 H2] Hk HL HkL Hw HI HO.
  destruct (H1 i L _ Hw) as [Hp Hfo]. specialize (Hfo HL). cbn in Hfo. split.
  - intros x y w. rewrite HI. case_bool_decide as E; [|case_bool_decide as E''; [done|]].
    + injection E as -> ->. intros [= <-]. split; [done|]. intros _. cbn. by rewrite HO, bool_decide_true.
    + intros Hxy. destruct (H1 x y w Hxy) as [Hv Hf]. split; [done|]. intros Hn.
      specialize (Hf ltac:(set_solver)). rewrite HO, bool_decide_false; [done|].
      intros E1. injection E1 as E1 E2 E3. rewrite E1, E2, E3, Hfo in Hf. injection Hf as -> _ ->. done.
  - intros y q c w. rewrite HO. case_bool_decide as E.
    + injection E as -> -> ->. intros [= <-]. cbn. split; [done|]. split; [set_solver|].
      by rewrite HI, bool_decide_true.
    + intros Hyw. destruct (H2 y q c w Hyw) as (Hq & Hn & Hf). split; [done|]. split; [set_solver|].
      rewrite HI, !bool_decide_false; [done|..].
      * intros E1. injection E1 as E1 E2. rewrite E1, E2, Hw in Hf. injection Hf as -> -> ->. done.
      * intros E1. injection E1 as E1 E2. rewrite E1, E2 in Hn. done.
Qed.
End matching.

(** ** The operations on single edges keep the view consistent *)

(** ** Ports *)

Lemma Zsum_vset {A} (f : A -> Z) l i x y : vget l i = Some x -> Zsum f (vset l i y) = Zsum f l - f x + f y.
Proof.
  intros Hi. pose proof (vget_Some _ _ _ Hi). unfold vget in Hi. unfold vset.
  destruct (Z.ltb_spec i 0); [lia|]. rewrite <- (take_drop_middle _ _ _ Hi) at 2.
  rewrite insert_take_drop by (by eapply lookup_lt_Some). rewrite !Zsum_app. simpl. lia.
Qed.

Definition port_at (ports : list (list MutableFaninView)) (q c : Z) : option MutableFaninView :=
  l ← vget ports q; vget l c.

Lemma port_at_resize ports m q c : port_at (resize_ports ports m) q c = port_at ports q c.
Proof.
  unfold resize_ports, port_at. destruct (Z.ltb_spec (size_ ports) m) as [Hlt|]; [|done].
  destruct (decide (q < size_ ports)) as [Hq|Hq].
  - by rewrite vget_app_l.
  - rewrite vget_app_r, (vget_None ports) by lia. cbn [mbind option_bind].
    destruct (vget (replicate _ _) _) as [l|] eqn:E; [|done]. cbn [mbind option_bind].
    assert (l ∈ replicate (Z.to_nat (m - size_ ports)) (@nil MutableFaninView)) as Hl by (apply elem_of_vget; eauto).
    apply elem_of_replicate in Hl as [-> _]. cbn. unfold vget. by destruct (c <? 0).
Qed.

Lemma size_resize ports m : m <= size_ (resize_ports ports m).
Proof.
  unfold resize_ports, size_. destruct (Z.ltb_spec (Z.of_nat (length ports)) m); [|lia].
  rewrite length_app, length_replicate. lia.
Qed.

Lemma Zsum_resize ports m : Zsum size_ (resize_ports ports m) = Zsum size_ ports.
Proof.
  unfold resize_ports. destruct (_ <? _); [|done]. rewrite Zsum_app.
  assert (Zsum size_ (replicate (Z.to_nat (m - size_ ports)) (@nil MutableFaninView)) = 0); [|lia].
  induction (Z.to_nat (m - size_ ports)); [done|]. simpl. rewrite IHn. done.
Qed.

Lemma port_at_vset ports p l l' q c : vget ports p = Some l ->
  port_at (vset ports p l') q c = if bool_decide (q = p) then vget l' c else port_at ports q c.
Proof.
  intros Hp. unfold port_at. rewrite vget_vset by (by eapply vget_Some).
  rewrite (bool_decide_ext (p = q) (q = p)) by done. by case_bool_decide.
Qed.

(** ** Lookups in an updated view *)

Section edit.
  Context {AttrValue : Type}.
  #[local] Notation G := (MutableGraphView AttrValue).
  Implicit Type g : G.

Lemma runs_node_at i v g Q : vget (nodes_ g) i = Some v -> Q v g -> runs (node_at i) g Q.
Proof. intros Hv HQ. unfold node_at. run_step. run_step. by eapply runs_lift; [apply at_Some|]. Qed.

Lemma runs_node_def_at i d g Q : vget (graph g) i = Some d -> Q d g -> runs (node_def_at i) g Q.
Proof. intros Hv HQ. unfold node_def_at. run_step. run_step. by eapply runs_lift; [apply at_Some|]. Qed.

Lemma runs_update_node i f v g Q : vget (nodes_ g) i = Some v ->
  Q tt (set_nodes (vset (nodes_ g) i (f v)) g) -> runs (update_node i f) g Q.
Proof. intros Hv HQ. unfold update_node. run_step. eapply runs_node_at; [done|]. by run_step. Qed.

Lemma runs_update_node_def i f d g Q : vget (graph g) i = Some d ->
  Q tt (set_graph (vset (graph g) i (f d)) g) -> runs (update_node_def i f) g Q.
Proof. intros Hv HQ. unfold update_node_def. run_step. eapply runs_node_def_at; [done|]. by run_step. Qed.

Lemma runs_at {A} (l : list A) i x g Q : vget l i = Some x -> Q x g -> runs (lift (at_ l i)) g Q.
Proof. intros Hx HQ. by eapply runs_lift; [apply at_Some|]. Qed.

(** The two ends of a fanin; where its entry stands is left out. *)
Definition ends (w : MutableFanoutView) : Z * Z := (fanout_node_index w, fanout_port_index w).

(** [g'] differs from [g] in the views only; the ends of the fanins of node [i]
    change by [FR] and [FC], the others stay. *)
Record ends_step (g g' : G) (i : Z) (FR FC : list (Z * Z) -> list (Z * Z)) : Prop := {
  es_graph : graph g' = graph g;
  es_names : node_index_by_name_ g' = node_index_by_name_ g;
  es_mutation : mutation_ g' = mutation_ g;
  es_size : size_ (nodes_ g') = size_ (nodes_ g);
  es_node : forall x v, vget (nodes_ g) x = Some v -> exists v', vget (nodes_ g') x = Some v' /\
    node_index_ v' = node_index_ v /\ update_index_ v' = update_index_ v /\
    map ends (regular_fanins_ v') = (if bool_decide (x = i) then FR else id) (map ends (regular_fanins_ v)) /\
    map ends (controlling_fanins_ v') = (if bool_decide (x = i) then FC else id) (map ends (controlling_fanins_ v))
}.

Lemma names_ok_step g g' i FR FC : names_ok g -> ends_step g g' i FR FC -> names_ok g'.
Proof.
  intros Hn Hs. pose proof (es_graph _ _ _ _ _ Hs) as Eg. split.
  - rewrite (es_size _ _ _ _ _ Hs), Eg. apply Hn.
  - intros x v' Hv'. destruct (vget_ex (nodes_ g) x) as [v Hv].
    { rewrite <- (es_size _ _ _ _ _ Hs). by eapply vget_Some. }
    destruct (es_node _ _ _ _ _ Hs x v Hv) as (v'' & Hv'' & Hi & _). simplify_eq.
    rewrite Hi. by apply Hn.
  - intros s x. rewrite (es_names _ _ _ _ _ Hs), Eg. apply Hn.
  - intros x y d e. rewrite Eg. apply Hn.
Qed.

(** ** The maps of a view under a change of its fanins *)

Lemma map_ends_vget l l' k w : map ends l' = map ends l -> vget l k = Some w ->
  exists w', vget l' k = Some w' /\ ends w' = ends w.
Proof.
  intros Hl Hw. assert (vget (map ends l') k = Some (ends w)) as H by (by rewrite Hl, vget_map, Hw).
  rewrite vget_map in H. apply fmap_Some in H as (w' & ? & ?). eauto.
Qed.

Lemma occurrences_ends j p l l' : map ends l' = map ends l -> occurrences j p l' = occurrences j p l.
Proof.
  unfold occurrences, size_. revert l'. induction l as [|w l IH]; intros [|w' l'] Hl; try done.
  injection Hl as H1 H2 Hl. rewrite !filter_cons. specialize (IH _ Hl).
  destruct (decide (fanout_node_index w' = j /\ _)), (decide (fanout_node_index w = j /\ _)); cbn [length]; try lia;
    exfalso; intuition congruence.
Qed.

Lemma live_ends H i l : forall k l', map ends l' = map ends l -> map ends (live H i k l') = map ends (live H i k l).
Proof.
  induction l as [|w l IH]; intros k [|w' l'] Hl; try done. injection Hl as H1 H2 Hl. cbn [live].
  case_bool_decide; [by apply IH|]. cbn [map]. f_equal; [by unfold ends; rewrite H1, H2|by apply IH].
Qed.

Lemma live_snoc H i l w : forall k, live H i k (l ++ [w]) =
  live H i k l ++ (if bool_decide ((i, k + size_ l) ∈ H) then [] else [w]).
Proof.
  induction l as [|u l IH]; intros k; cbn [live app].
  - rewrite Z.add_0_r. by case_bool_decide.
  - rewrite IH. replace (k + 1 + size_ l) with (k + size_ (u :: l)) by (unfold size_; simpl; lia).
    case_bool_decide; [done|]. done.
Qed.

Lemma occurrences_app j p l l' : occurrences j p (l ++ l') = occurrences j p l + occurrences j p l'.
Proof. unfold occurrences, size_. rewrite filter_app, length_app. lia. Qed.

Lemma occurrences_cons j p w l :
  occurrences j p (w :: l) = (if bool_decide (ends w = (j, p)) then 1 else 0) + occurrences j p l.
Proof.
  unfold occurrences, size_. rewrite filter_cons. destruct (decide (_ /\ _)) as [[H1 H2]|Hn].
  - rewrite bool_decide_true by (unfold ends; congruence). cbn [length]. lia.
  - rewrite bool_decide_false; [lia|]. intros E. injection E as E1 E2. by apply Hn.
Qed.

Lemma occurrences_nonneg j p l : 0 <= occurrences j p l.
Proof. apply size_nonneg. Qed.

Lemma live_hole H i k0 l : forall k, k0 < k \/ k + size_ l <= k0 -> live ({[(i, k0)]} ∪ H) i k l = live H i k l.
Proof.
  induction l as [|u l IH]; intros k Hk; cbn [live]; [done|].
  assert (size_ (u :: l) = size_ l + 1) as Hsz by (unfold size_; simpl; lia). pose proof (size_nonneg l).
  rewrite IH by lia.
  rewrite (bool_decide_ext ((i, k) ∈ {[(i, k0)]} ∪ H) ((i, k) ∈ H)); [done|].
  rewrite elem_of_union, elem_of_singleton. split; [intros [E|?]; [injection E; lia|done]|by right].
Qed.

(** A new hole hides one live fanin. *)
Lemma occurrences_live_hole H i k0 w j p l : forall k, vget l (k0 - k) = Some w -> (i, k0) ∉ H ->
  occurrences j p (live H i k l) =
    (if bool_decide (ends w = (j, p)) then 1 else 0) + occurrences j p (live ({[(i, k0)]} ∪ H) i k l).
Proof.
  induction l as [|u l IH]; intros k Hw Hn; [apply vget_Some in Hw; unfold size_ in Hw; simpl in Hw; lia|].
  pose proof (vget_Some _ _ _ Hw) as Hr. cbn [live].
  destruct (decide (k0 = k)) as [->|Hne].
  - rewrite Z.sub_diag in Hw. injection Hw as ->.
    rewrite (bool_decide_false ((i, k) ∈ H)) by done.
    rewrite (bool_decide_true ((i, k) ∈ {[(i, k)]} ∪ H)) by set_solver.
    rewrite live_hole by lia. apply occurrences_cons.
  - assert (vget l (k0 - (k + 1)) = Some w) as Hw'.
    { change (u :: l) with ([u] ++ l) in Hw. rewrite vget_app_r in Hw by (unfold size_; simpl; lia).
      rewrite <- Hw. f_equal. unfold size_. simpl. lia. }
    specialize (IH (k + 1) Hw' Hn).
    rewrite (bool_decide_ext ((i, k) ∈ {[(i, k0)]} ∪ H) ((i, k) ∈ H)).
    2:{ rewrite elem_of_union, elem_of_singleton. split; [intros [E|?]; [injection E; lia|done]|by right]. }
    destruct (bool_decide ((i, k) ∈ H)); [exact IH|]. rewrite !occurrences_cons, IH. lia.
Qed.

Lemma live_other H H' i l : (forall k, (i, k) ∈ H' <-> (i, k) ∈ H) -> forall k, live H' i k l = live H i k l.
Proof.
  intros HH. induction l as [|u l IH]; intros k; cbn [live]; [done|].
  rewrite (bool_decide_ext _ _ (HH k)), IH. done.
Qed.

(** A view whose own maps and ends stay. *)
Lemma index_ok_ext H Hc H' Hc' g g' i v v' : index_ok H Hc g i v -> graph g' = graph g ->
  (forall k, (i, k) ∈ H' <-> (i, k) ∈ H) -> (forall k, (i, k) ∈ Hc' <-> (i, k) ∈ Hc) ->
  fanins_count_ v' = fanins_count_ v -> controlling_fanins_index_ v' = controlling_fanins_index_ v ->
  map ends (regular_fanins_ v') = map ends (regular_fanins_ v) ->
  map ends (controlling_fanins_ v') = map ends (controlling_fanins_ v) ->
  index_ok H' Hc' g' i v'.
Proof.
  intros Hok Eg HH HHc Ec Ex Er El. split.
  - intros j p Hj. replace (address_of g' j) with (address_of g j) by (unfold address_of; by rewrite Eg). rewrite Eg in Hj. rewrite Ec. rewrite (ok_count _ _ _ _ _ Hok j p Hj).
    rewrite (live_other H H'), (live_other Hc Hc') by done.
    rewrite (occurrences_ends j p (live H i 0 (regular_fanins_ v) ++ live Hc i 0 (controlling_fanins_ v))
      (live H i 0 (regular_fanins_ v') ++ live Hc i 0 (controlling_fanins_ v'))); [done|].
    rewrite !map_app. f_equal; by apply live_ends.
  - intros s k. rewrite Ex, (ok_control_index _ _ _ _ _ Hok s k). setoid_rewrite (HHc k). unfold name_of. rewrite Eg.
    split; intros (w & Hw & Hk & Hs).
    + destruct (map_ends_vget _ _ _ _ El Hw) as (w' & Hw' & [= Hn _]). exists w'. by rewrite Hn.
    + destruct (map_ends_vget _ _ _ _ (eq_sym El) Hw) as (w' & Hw' & [= Hn _]). exists w'. by rewrite Hn.
  - intros w Hw. assert (ends w ∈ map ends (regular_fanins_ v ++ controlling_fanins_ v)) as Hin.
    { rewrite map_app, <- Er, <- El, <- map_app. apply list_elem_of_fmap. eauto. }
    apply list_elem_of_fmap in Hin as (w' & [= Hn _] & Hin). rewrite Eg, Hn.
    by apply (ok_fanin_range _ _ _ _ _ Hok).
  - intros a p. rewrite Ec, Eg. apply (ok_count_known _ _ _ _ _ Hok).
Qed.

(** ** A fanin is set *)

Lemma increment_count (m : gmap (Z * Z) Z) k k' :
  IncrementFaninCount m k !! k' = if bool_decide (k = k') then Some (default 0 (m !! k) + 1) else m !! k'.
Proof.
  unfold IncrementFaninCount. case_bool_decide as E; [subst; apply lookup_insert_eq|by apply lookup_insert_ne].
Qed.

Lemma decrement_count (m : gmap (Z * Z) Z) k c k' : m !! k = Some c ->
  DecrementFaninCount m k !! k' =
    if bool_decide (k = k') then (if c <=? 1 then None else Some (c - 1)) else m !! k'.
Proof.
  intros Hc. unfold DecrementFaninCount. rewrite Hc. case_bool_decide as E.
  - subst. destruct (c <=? 1); [apply lookup_delete_eq|apply lookup_insert_eq].
  - destruct (c <=? 1); [by apply lookup_delete_ne|by apply lookup_insert_ne].
Qed.

Lemma count_known_increment (A : list Z) (m : gmap (Z * Z) Z) b q : b ∈ A -> (forall a p, is_Some (m !! (a, p)) -> a ∈ A) ->
  forall a p, is_Some (IncrementFaninCount m (b, q) !! (a, p)) -> a ∈ A.
Proof.
  intros Hb Hm a p. rewrite increment_count. case_bool_decide as E; [by injection E as <- _|apply Hm].
Qed.

Lemma count_known_decrement (A : list Z) (m : gmap (Z * Z) Z) k : (forall a p, is_Some (m !! (a, p)) -> a ∈ A) ->
  forall a p, is_Some (DecrementFaninCount m k !! (a, p)) -> a ∈ A.
Proof.
  intros Hm a p Hs. apply (Hm a p). unfold DecrementFaninCount in Hs. destruct (m !! k) as [c|] eqn:E; [|done].
  destruct (decide (k = (a, p))) as [->|Hk]; [by rewrite E|]. destruct (_ <=? _).
  - by rewrite lookup_delete_ne in Hs.
  - by rewrite lookup_insert_ne in Hs.
Qed.

Lemma count_known_delete (A : list Z) (m : gmap (Z * Z) Z) k : (forall a p, is_Some (m !! (a, p)) -> a ∈ A) ->
  forall a p, is_Some (delete k m !! (a, p)) -> a ∈ A.
Proof. intros Hm a p [c Hc]. apply (Hm a p). apply lookup_delete_Some in Hc as [_ Hc]. eauto. Qed.

Lemma address_of_known g j : 0 <= j < size_ (graph g) -> address_of g j ∈ map address (graph g).
Proof.
  intros [d Hd]%vget_ex. unfold address_of. rewrite Hd. apply list_elem_of_fmap. exists d. split; [done|]. apply elem_of_vget. eauto.
Qed.

Lemma address_inj g i j : names_ok g -> 0 <= i < size_ (graph g) -> 0 <= j < size_ (graph g) ->
  address_of g i = address_of g j <-> i = j.
Proof.
  intros Hn [d Hd]%vget_ex [e He]%vget_ex. unfold address_of. rewrite Hd, He. cbn.
  split; [intros Ha; by eapply (ok_address _ Hn)|intros ->; congruence].
Qed.

Lemma fanin_at_node g i v k : vget (nodes_ g) i = Some v -> fanin_at g i k = vget (regular_fanins_ v) k.
Proof. intros Hv. unfold fanin_at. by rewrite Hv. Qed.
Lemma fanout_at_node g j v p f : vget (nodes_ g) j = Some v ->
  fanout_at g j p f = port_at (regular_fanouts_by_port_ v) p f.
Proof. intros Hv. unfold fanout_at. by rewrite Hv. Qed.
Lemma control_fanin_at_node g i v k : vget (nodes_ g) i = Some v ->
  control_fanin_at g i k = vget (controlling_fanins_ v) k.
Proof. intros Hv. unfold control_fanin_at. by rewrite Hv. Qed.
Lemma control_fanout_at_node g j v f : vget (nodes_ g) j = Some v ->
  control_fanout_at g j f = vget (controlled_fanouts_ v) f.
Proof. intros Hv. unfold control_fanout_at. by rewrite Hv. Qed.

(** What stays of a node when regular edges change, and when controls change. *)
Definition same_but_regular (v v' : MutableNodeView) : Prop :=
  node_index_ v' = node_index_ v /\ update_index_ v' = update_index_ v /\
  controlling_fanins_ v' = controlling_fanins_ v /\ controlled_fanouts_ v' = controlled_fanouts_ v /\
  controlling_fanins_index_ v' = controlling_fanins_index_ v.
Definition same_but_control (v v' : MutableNodeView) : Prop :=
  node_index_ v' = node_index_ v /\ update_index_ v' = update_index_ v /\
  regular_fanins_ v' = regular_fanins_ v /\ regular_fanouts_by_port_ v' = regular_fanouts_by_port_ v /\
  num_regular_fanouts_ v' = num_regular_fanouts_ v.

Definition frame g g' : Prop :=
  graph g' = graph g /\ node_index_by_name_ g' = node_index_by_name_ g /\ mutation_ g' = mutation_ g /\
  size_ (nodes_ g') = size_ (nodes_ g).

(** The nodes of [g'] are those of [g], each related by [R]. *)
Definition nodes_rel g g' (R : Z -> MutableNodeView -> MutableNodeView -> Prop) : Prop :=
  forall x v, vget (nodes_ g) x = Some v -> exists v', vget (nodes_ g') x = Some v' /\ R x v v'.

Lemma frame_None g g' x : frame g g' -> vget (nodes_ g) x = None -> vget (nodes_ g') x = None.
Proof.
  intros (_ & _ & _ & Hs) Hx. destruct (vget (nodes_ g') x) as [v|] eqn:E; [|done].
  apply vget_Some in E. rewrite Hs in E. destruct (vget_ex _ _ E). congruence.
Qed.

Lemma frame_node g g' R x v' : frame g g' -> nodes_rel g g' R -> vget (nodes_ g') x = Some v' ->
  exists v, vget (nodes_ g) x = Some v /\ R x v v'.
Proof.
  intros Hf Hn Hv'. destruct (vget (nodes_ g) x) as [v|] eqn:E.
  - destruct (Hn x v E) as (v'' & ? & ?). simplify_eq. eauto.
  - rewrite (frame_None g g') in Hv'; done.
Qed.

(** Control edges of a view in which only regular edges changed. *)
Lemma controls_ok_frame Hc g g' R : controls_ok Hc g -> frame g g' -> nodes_rel g g' R ->
  (forall x v v', R x v v' -> same_but_regular v v') -> controls_ok Hc g'.
Proof.
  intros Hok Hf Hn HR. eapply matching_ext; [exact Hok|..].
  - intros i k. unfold control_fanin_at. destruct (vget (nodes_ g) i) as [v|] eqn:E.
    + destruct (Hn i v E) as (v' & -> & (_ & _ & Hv & _)%HR). cbn. by rewrite Hv.
    + by rewrite (frame_None g g').
  - intros j p f. unfold control_fanout_by_port, control_fanout_at. destruct (p =? kControlSlot); [|done].
    destruct (vget (nodes_ g) j) as [v|] eqn:E.
    + destruct (Hn j v E) as (v' & -> & (_ & _ & _ & Hv & _)%HR). cbn. by rewrite Hv.
    + by rewrite (frame_None g g').
Qed.

Lemma edges_ok_frame H g g' R : edges_ok H g -> frame g g' -> nodes_rel g g' R ->
  (forall x v v', R x v v' -> same_but_control v v') -> edges_ok H g'.
Proof.
  intros [Hok Hnum] Hf Hn HR. split.
  - eapply matching_ext; [exact Hok|..].
    + intros i k. unfold fanin_at. destruct (vget (nodes_ g) i) as [v|] eqn:E.
      * destruct (Hn i v E) as (v' & -> & (_ & _ & Hv & _)%HR). cbn. by rewrite Hv.
      * by rewrite (frame_None g g').
    + intros j p f. unfold fanout_at. destruct (vget (nodes_ g) j) as [v|] eqn:E.
      * destruct (Hn j v E) as (v' & -> & (_ & _ & _ & Hv & _)%HR). cbn. by rewrite Hv.
      * by rewrite (frame_None g g').
  - intros x v' Hv'. destruct (frame_node _ _ _ _ _ Hf Hn Hv') as (v & Hv & (_ & _ & _ & Hp & Hnm)%HR).
    rewrite Hp, Hnm. by apply (Hnum x).
Qed.

Lemma names_ok_frame g g' R : names_ok g -> frame g g' -> nodes_rel g g' R ->
  (forall x v v', R x v v' -> node_index_ v' = node_index_ v) -> names_ok g'.
Proof.
  intros Hok Hf Hn HR. destruct Hf as (Eg & En & Em & Es). split.
  - rewrite Es, Eg. apply Hok.
  - intros x v' Hv'. destruct (frame_node g g' R x v') as (v & Hv & Hi%HR); [done..|].
    rewrite Hi. by apply Hok.
  - intros t x. rewrite En, Eg. apply Hok.
  - intros x y d e. rewrite Eg. apply Hok.
Qed.

(** Fanin [k] of node [i] becomes output [p] of node [j], entered at [f]. *)
Definition set_fanin_rel (H : gset (Z * Z)) g (i k j p f : Z) (x : Z) (v v' : MutableNodeView) : Prop :=
  same_but_regular v v' /\
  (forall y, vget (regular_fanins_ v') y =
     if bool_decide ((x, y) = (i, k)) then Some (mk_FanoutView j p f) else vget (regular_fanins_ v) y) /\
  (forall q c, port_at (regular_fanouts_by_port_ v') q c =
     if bool_decide ((x, q, c) = (j, p, f)) then Some (mk_FaninView i k k)
     else port_at (regular_fanouts_by_port_ v) q c) /\
  num_regular_fanouts_ v' - Zsum size_ (regular_fanouts_by_port_ v') =
    num_regular_fanouts_ v - Zsum size_ (regular_fanouts_by_port_ v) /\
  fanins_count_ v' = (if bool_decide (x = i) then IncrementFaninCount (fanins_count_ v) (address_of g j, p)
                      else fanins_count_ v) /\
  (x = i -> forall a b, occurrences a b (live (H ∖ {[(i, k)]}) i 0 (regular_fanins_ v')) =
     (if bool_decide ((j, p) = (a, b)) then 1 else 0) + occurrences a b (live H i 0 (regular_fanins_ v))).

Lemma core_set_fanin H Hc g g' i k j p f : core_ok H Hc g -> frame g g' ->
  nodes_rel g g' (set_fanin_rel H g i k j p f) -> i <> j -> 0 <= j < size_ (nodes_ g) -> 0 <= p ->
  0 <= i < size_ (nodes_ g) -> fanout_at g j p f = None -> (fanin_at g i k = None \/ (i, k) ∈ H) ->
  core_ok (H ∖ {[(i, k)]}) Hc g'.
Proof.
  intros Hok Hf Hn Hij Hj Hp Hi Hnone Hk. pose proof Hf as (Eg & En & Em & Es).
  pose proof (ok_names_ok _ _ _ Hok) as Hnames. split.
  - eapply names_ok_frame; [done..|]. intros x v v' (Hs & _). apply Hs.
  - split.
    + apply (matching_add _ _ _ (fanin_at g) (fanout_at g) _ _ i k j p f); [apply Hok|done|done|done|..].
      * intros x y. destruct (vget (nodes_ g) x) as [v|] eqn:E.
        -- destruct (Hn x v E) as (v' & Hv' & _ & Hr & _).
           by rewrite (fanin_at_node _ _ _ _ E), (fanin_at_node _ _ _ _ Hv').
        -- unfold fanin_at. rewrite (frame_None g g'), E by done. cbn.
           rewrite bool_decide_false; [done|]. intros E1. injection E1 as -> ->.
           destruct (vget_ex (nodes_ g) i Hi). congruence.
      * intros y q c. destruct (vget (nodes_ g) y) as [v|] eqn:E.
        -- destruct (Hn y v E) as (v' & Hv' & _ & _ & Hr & _).
           by rewrite (fanout_at_node _ _ _ _ _ E), (fanout_at_node _ _ _ _ _ Hv').
        -- unfold fanout_at. rewrite (frame_None g g'), E by done. cbn.
           rewrite bool_decide_false; [done|]. intros E1. injection E1 as -> -> ->.
           destruct (vget_ex (nodes_ g) j Hj). congruence.
    + intros x v' Hv'. destruct (frame_node _ _ _ _ _ Hf Hn Hv') as (v & Hv & _ & _ & _ & Hnum & _).
      pose proof (ok_num_fanouts _ _ (ok_edges _ _ _ Hok) x v Hv). lia.
  - eapply controls_ok_frame; [apply Hok|done|done|]. by intros x v v' (Hs & _).
  - intros x v' Hv'. destruct (frame_node _ _ _ _ _ Hf Hn Hv') as (v & Hv & Hs & Hr & _ & _ & Hcnt & Hlive).
    pose proof (ok_index_ok _ _ _ Hok x v Hv) as Hix. destruct Hs as (_ & _ & Hctl & _ & Hctlx).
    destruct (decide (x = i)) as [->|Hx].
    + rewrite bool_decide_true in Hcnt by done. specialize (Hlive eq_refl). split.
      * intros a b Ha. rewrite Eg in Ha. replace (address_of g' a) with (address_of g a) by (unfold address_of; by rewrite Eg).
        rewrite Hcnt, increment_count, Hctl. cbv zeta. rewrite occurrences_app, Hlive.
        pose proof (ok_count _ _ _ _ _ Hix a b Ha) as Hab. cbv zeta in Hab. rewrite occurrences_app in Hab.
        pose proof (occurrences_nonneg a b (live H i 0 (regular_fanins_ v))).
        pose proof (occurrences_nonneg a b (live Hc i 0 (controlling_fanins_ v))).
        assert ((address_of g j, p) = (address_of g a, b) <-> (j, p) = (a, b)) as Hiff.
        { rewrite (ok_length _ Hnames) in Hj. pose proof (address_inj g j a Hnames Hj Ha).
          split; intros [= Ha1 Ha2]; f_equal; intuition congruence. }
        rewrite (bool_decide_ext _ _ Hiff). case_bool_decide as E.
        -- injection E as -> ->. rewrite Hab. destruct (Z.eqb_spec (1 + occurrences a b (live H i 0 (regular_fanins_ v)) + occurrences a b (live Hc i 0 (controlling_fanins_ v))) 0); [lia|].
           destruct (Z.eqb_spec (occurrences a b (live H i 0 (regular_fanins_ v)) + occurrences a b (live Hc i 0 (controlling_fanins_ v))) 0); cbn; f_equal; lia.
        -- rewrite Hab. done.
      * intros s y. rewrite Hctlx, Hctl, (ok_control_index _ _ _ _ _ Hix s y). unfold name_of. by rewrite Eg.
      * intros w. rewrite Hctl. intros [Hw|Hw]%elem_of_app.
        -- apply elem_of_vget in Hw as [y Hw]. rewrite Hr in Hw. case_bool_decide.
           ++ injection Hw as <-. cbn. rewrite Eg, <- (ok_length _ Hnames). by split; [|congruence].
           ++ rewrite Eg. apply (ok_fanin_range _ _ _ _ _ Hix), elem_of_app. left. apply elem_of_vget. eauto.
        -- rewrite Eg. apply (ok_fanin_range _ _ _ _ _ Hix), elem_of_app. by right.
      * rewrite Hcnt, Eg. apply count_known_increment; [apply address_of_known; by rewrite <- (ok_length _ Hnames)|apply Hix].
    + rewrite bool_decide_false in Hcnt by done.
      assert (regular_fanins_ v' = regular_fanins_ v) as Hreg.
      { apply vget_ext. intros y. rewrite Hr, bool_decide_false; [done|congruence]. }
      eapply index_ok_ext; [exact Hix|done|..]; try done; [|by rewrite Hreg|by rewrite Hctl].
      intros y. rewrite elem_of_difference, elem_of_singleton. split; [by intros [? _]|].
      intros ?. split; [done|]. congruence.
Qed.

Lemma fanin_past g i v : vget (nodes_ g) i = Some v -> fanin_at g i (size_ (regular_fanins_ v)) = None.
Proof. intros Hv. rewrite (fanin_at_node _ _ _ _ Hv). apply vget_None. lia. Qed.

(** [push_regular_fanout]: the state it leaves, whatever the fanins are. *)
Lemma push_regular_fanout_spec g i j p k w Q : vget (nodes_ g) j = Some w -> 0 <= p ->
  (forall ports f, port_at (regular_fanouts_by_port_ w) p f = None ->
     (forall q c, port_at ports q c = if bool_decide ((q, c) = (p, f)) then Some (mk_FaninView i k k)
        else port_at (regular_fanouts_by_port_ w) q c) ->
     Zsum size_ ports = Zsum size_ (regular_fanouts_by_port_ w) + 1 ->
     Q f (set_nodes (vset (nodes_ g) j (set_regular_fanouts ports (num_regular_fanouts_ w + 1) w)) g)) ->
  runs (push_regular_fanout j p i k) g Q.
Proof.
  intros Hw Hp HQ. unfold push_regular_fanout. run_step. eapply runs_node_at; [done|]. cbv zeta.
  set (ports := resize_ports (regular_fanouts_by_port_ w) (p + 1)).
  destruct (vget_ex ports p) as [l Hl]; [pose proof (size_resize (regular_fanouts_by_port_ w) (p + 1)); unfold ports; lia|].
  assert (forall c, port_at (regular_fanouts_by_port_ w) p c = vget l c) as Hpl.
  { intros c. rewrite <- (port_at_resize _ (p + 1)). fold ports. unfold port_at. by rewrite Hl. }
  run_step. eapply runs_at; [done|]. run_step. eapply runs_update_node; [done|]. run_step. apply HQ.
  - rewrite Hpl. apply vget_None. lia.
  - intros q c. rewrite (port_at_vset _ _ l) by done. case_bool_decide as E.
    + subst q. rewrite vget_snoc, Hpl.
      rewrite (bool_decide_ext (size_ l = c) ((p, c) = (p, size_ l))); [done|split; congruence].
    + rewrite bool_decide_false by congruence. apply port_at_resize.
  - erewrite Zsum_vset by done. rewrite size_snoc. unfold ports. rewrite Zsum_resize. lia.
Qed.

Lemma runs_increment_fanin_count g i j p v Q : vget (nodes_ g) i = Some v -> 0 <= j < size_ (graph g) ->
  Q tt (set_nodes (vset (nodes_ g) i (set_fanins_count (IncrementFaninCount (fanins_count_ v) (address_of g j, p)) v)) g) ->
  runs (increment_fanin_count i j p) g Q.
Proof.
  intros Hv [d Hd]%vget_ex HQ. unfold increment_fanin_count. run_step. eapply runs_node_def_at; [done|].
  eapply runs_update_node; [done|]. replace (address d) with (address_of g j); [done|].
  unfold address_of. by rewrite Hd.
Qed.

Lemma holes_minus (H : gset (Z * Z)) (i k : Z) : (i, k) ∉ H -> H ∖ {[(i, k)]} = H.
Proof. set_solver. Qed.

Lemma connect_regular_spec H Hc g i j p v : core_ok H Hc g -> vget (nodes_ g) i = Some v ->
  0 <= j < size_ (nodes_ g) -> i <> j -> 0 <= p -> (i, size_ (regular_fanins_ v)) ∉ H ->
  runs (connect_regular i j p) g (fun _ g' => core_ok H Hc g' /\ ends_step g g' i (fun l => l ++ [(j, p)]) id).
Proof.
  intros Hok Hv Hj Hij Hp Hhole. destruct (vget_ex _ _ Hj) as [w Hw].
  pose proof (vget_Some _ _ _ Hv) as Hi. pose proof (ok_length _ (ok_names_ok _ _ _ Hok)) as Hlen.
  unfold connect_regular. run_step. eapply runs_node_at; [done|]. run_step.
  apply (push_regular_fanout_spec _ _ _ _ _ w); [done|done|]. intros ports f Hnone Hports Hsum.
  set (w1 := set_regular_fanouts ports (num_regular_fanouts_ w + 1) w).
  run_step. eapply runs_update_node; [cbn [nodes_ set_nodes]; rewrite vget_vset_ne by congruence; exact Hv|].
  set (v1 := set_regular_fanins (regular_fanins_ v ++ [mk_FanoutView j p f]) v).
  eapply runs_increment_fanin_count.
  { cbn [nodes_ set_nodes]. apply vget_vset_eq. by rewrite size_vset. }
  { cbn [graph set_nodes]. lia. }
  set (v2 := set_fanins_count _ v1). cbn [nodes_ set_nodes graph].
  match goal with |- core_ok _ _ ?gg /\ _ => set (g' := gg) end.
  assert (frame g g') as Hf by (split_and!; cbn; rewrite ?size_vset; done).
  assert (forall x u, vget (nodes_ g) x = Some u -> vget (nodes_ g') x =
    Some (if bool_decide (x = i) then v2 else if bool_decide (x = j) then w1 else u)) as Hget.
  { intros x u Hu. unfold g'. cbn [nodes_ set_nodes].
    rewrite vget_vset by (by rewrite !size_vset). rewrite (bool_decide_ext (i = x) (x = i)) by done.
    case_bool_decide as E1; [done|]. rewrite vget_vset_ne, vget_vset by done.
    rewrite (bool_decide_ext (j = x) (x = j)) by done. case_bool_decide; done. }
  assert (core_ok (H ∖ {[(i, size_ (regular_fanins_ v))]}) Hc g') as Hok'.
  { apply (core_set_fanin H Hc g g' i (size_ (regular_fanins_ v)) j p f); try done.
    - intros x u Hu. eexists. split; [by apply Hget|]. case_bool_decide as E1; [|case_bool_decide as E2].
      + subst x. simplify_eq. split_and!; try done.
        * intros y. unfold v2, v1. cbn [regular_fanins_ set_fanins_count set_regular_fanins].
          rewrite vget_snoc. rewrite (bool_decide_ext (_ = y) ((i, y) = (i, size_ (regular_fanins_ v)))); [done|].
          split; congruence.
        * intros q c. rewrite bool_decide_false by congruence. done.
        * rewrite bool_decide_true by done. done.
        * intros _ a b. rewrite holes_minus by done. unfold v2, v1. cbn [regular_fanins_ set_fanins_count set_regular_fanins].
          rewrite live_snoc, Z.add_0_l, bool_decide_false by done.
          rewrite occurrences_app, occurrences_cons. unfold ends. cbn [fanout_node_index fanout_port_index].
          change (occurrences a b []) with 0. lia.
      + subst x. simplify_eq. split_and!; try done.
        * intros y. rewrite bool_decide_false by congruence. done.
        * intros q c. unfold w1. cbn [regular_fanouts_by_port_ set_regular_fanouts]. rewrite Hports.
          rewrite (bool_decide_ext ((q, c) = (p, f)) ((j, q, c) = (j, p, f))); [done|]. split; congruence.
        * unfold w1. cbn [regular_fanouts_by_port_ set_regular_fanouts num_regular_fanouts_]. lia.
        * rewrite bool_decide_false by done. done.
      + split_and!; try done.
        * intros y. rewrite bool_decide_false by congruence. done.
        * intros q c. rewrite bool_decide_false by congruence. done.
        * rewrite bool_decide_false by done. done.
    - by rewrite (fanout_at_node _ _ _ _ _ Hw).
    - left. by apply fanin_past. }
  rewrite holes_minus in Hok' by done. split; [done|]. split; try apply Hf.
  intros x u Hu. eexists. split; [by apply Hget|]. case_bool_decide as E1; [|case_bool_decide as E2]; [|by subst; simplify_eq|done].
  subst x. simplify_eq. split_and!; try done. unfold v2, v1. cbn. by rewrite map_app.
Qed.

(** ** A control edge is added *)

Definition set_control_rel (Hc : gset (Z * Z)) g (i k j f : Z) (x : Z) (v v' : MutableNodeView) : Prop :=
  same_but_control v v' /\
  (forall y, vget (controlling_fanins_ v') y =
     if bool_decide ((x, y) = (i, k)) then Some (mk_FanoutView j kControlSlot f) else vget (controlling_fanins_ v) y) /\
  (forall c, vget (controlled_fanouts_ v') c =
     if bool_decide ((x, c) = (j, f)) then Some (mk_FaninView i kControlSlot k) else vget (controlled_fanouts_ v) c) /\
  fanins_count_ v' = (if bool_decide (x = i) then IncrementFaninCount (fanins_count_ v) (address_of g j, kControlSlot)
                      else fanins_count_ v) /\
  controlling_fanins_index_ v' = (if bool_decide (x = i) then <[name_of g j := k]> (controlling_fanins_index_ v)
                                  else controlling_fanins_index_ v) /\
  (x = i -> forall a b, occurrences a b (live Hc i 0 (controlling_fanins_ v')) =
     (if bool_decide ((j, kControlSlot) = (a, b)) then 1 else 0) + occurrences a b (live Hc i 0 (controlling_fanins_ v))).

Lemma core_set_control H Hc g g' i k j f v0 : core_ok H Hc g -> frame g g' ->
  nodes_rel g g' (set_control_rel Hc g i k j f) -> i <> j -> 0 <= j < size_ (nodes_ g) ->
  vget (nodes_ g) i = Some v0 -> control_fanout_at g j f = None -> (i, k) ∉ Hc ->
  vget (controlling_fanins_ v0) k = None -> controlling_fanins_index_ v0 !! name_of g j = None ->
  core_ok H Hc g'.
Proof.
  intros Hok Hf Hn Hij Hj Hv0 Hnone Hhole Hk Hnew. pose proof Hf as (Eg & En & Em & Es).
  pose proof (ok_names_ok _ _ _ Hok) as Hnames. pose proof (vget_Some _ _ _ Hv0) as Hi. split.
  - eapply names_ok_frame; [done..|]. intros x v v' (Hs & _). apply Hs.
  - eapply edges_ok_frame; [apply Hok|done|done|]. by intros x v v' (Hs & _).
  - rewrite <- (holes_minus Hc i k) by done.
    apply (matching_add _ _ _ (control_fanin_at g) (control_fanout_by_port g) _ _ i k j kControlSlot f);
      [apply Hok|done|exact Hnone|left; by rewrite (control_fanin_at_node _ _ _ _ Hv0)|..].
    + intros x y. destruct (vget (nodes_ g) x) as [v|] eqn:E.
      * destruct (Hn x v E) as (v' & Hv' & _ & Hr & _).
        by rewrite (control_fanin_at_node _ _ _ _ E), (control_fanin_at_node _ _ _ _ Hv').
      * unfold control_fanin_at. rewrite (frame_None g g'), E by done. cbn.
        rewrite bool_decide_false; [done|]. intros E1. injection E1 as -> ->. congruence.
    + intros y q c. unfold control_fanout_by_port. destruct (Z.eqb_spec q kControlSlot) as [->|Hq].
      2:{ rewrite bool_decide_false by congruence. done. }
      destruct (vget (nodes_ g) y) as [v|] eqn:E.
      * destruct (Hn y v E) as (v' & Hv' & _ & _ & Hr & _).
        rewrite (control_fanout_at_node _ _ _ _ E), (control_fanout_at_node _ _ _ _ Hv'), Hr.
        rewrite (bool_decide_ext ((y, c) = (j, f)) ((y, kControlSlot, c) = (j, kControlSlot, f))); [done|].
        split; congruence.
      * unfold control_fanout_at. rewrite (frame_None g g'), E by done. cbn.
        rewrite bool_decide_false; [done|]. intros E1. injection E1 as -> ->.
        destruct (vget_ex (nodes_ g) j Hj). congruence.
  - intros x v' Hv'. destruct (frame_node _ _ _ _ _ Hf Hn Hv') as (v & Hv & Hs & Hr & _ & Hcnt & Hcx & Hlive).
    pose proof (ok_index_ok _ _ _ Hok x v Hv) as Hix. destruct Hs as (_ & _ & Hreg & _).
    destruct (decide (x = i)) as [->|Hx].
    + assert (v0 = v) as -> by congruence. rewrite bool_decide_true in Hcnt, Hcx by done. specialize (Hlive eq_refl). split.
      * intros a b Ha. rewrite Eg in Ha. replace (address_of g' a) with (address_of g a) by (unfold address_of; by rewrite Eg).
        rewrite Hcnt, increment_count, Hreg. cbv zeta. rewrite occurrences_app, Hlive.
        pose proof (ok_count _ _ _ _ _ Hix a b Ha) as Hab. cbv zeta in Hab. rewrite occurrences_app in Hab.
        pose proof (occurrences_nonneg a b (live H i 0 (regular_fanins_ v))).
        pose proof (occurrences_nonneg a b (live Hc i 0 (controlling_fanins_ v))).
        assert ((address_of g j, kControlSlot) = (address_of g a, b) <-> (j, kControlSlot) = (a, b)) as Hiff.
        { rewrite (ok_length _ Hnames) in Hj. pose proof (address_inj g j a Hnames Hj Ha).
          split; intros [= Ha1 Ha2]; f_equal; intuition congruence. }
        rewrite (bool_decide_ext _ _ Hiff). case_bool_decide as E.
        -- injection E as -> <-. rewrite Hab. case_cmp; cbn; try lia; f_equal; lia.
        -- rewrite Hab. done.
      * intros s y. rewrite Hcx. rewrite lookup_insert_Some. setoid_rewrite Hr. unfold name_of at 3.
        rewrite Eg. fold (name_of g). rewrite (ok_control_index _ _ _ _ _ Hix s y). split.
        -- intros [[<- <-]|[Hs (w & Hw & Hyc & Hws)]].
           ++ exists (mk_FanoutView j kControlSlot f). rewrite bool_decide_true by done. done.
           ++ exists w. rewrite bool_decide_false; [done|]. congruence.
        -- intros (w & Hw & Hyc & Hws). case_bool_decide as E.
           ++ injection E as ->. injection Hw as <-. left. done.
           ++ right. split; [|eauto]. intros <-.
              assert (controlling_fanins_index_ v !! name_of g j = Some y); [|congruence].
              apply (ok_control_index _ _ _ _ _ Hix). eauto.
      * intros w. rewrite Hreg. intros [Hw|Hw]%elem_of_app.
        -- rewrite Eg. apply (ok_fanin_range _ _ _ _ _ Hix), elem_of_app. by left.
        -- apply elem_of_vget in Hw as [y Hw]. rewrite Hr in Hw. case_bool_decide.
           ++ injection Hw as <-. cbn. rewrite Eg, <- (ok_length _ Hnames). by split; [|congruence].
           ++ rewrite Eg. apply (ok_fanin_range _ _ _ _ _ Hix), elem_of_app. right. apply elem_of_vget. eauto.
      * rewrite Hcnt, Eg. apply count_known_increment; [apply address_of_known; by rewrite <- (ok_length _ Hnames)|apply Hix].
    + rewrite bool_decide_false in Hcnt, Hcx by done.
      assert (controlling_fanins_ v' = controlling_fanins_ v) as Hctl.
      { apply vget_ext. intros y. rewrite Hr, bool_decide_false; [done|congruence]. }
      eapply index_ok_ext; [exact Hix|done|..]; try done; [by rewrite Hreg|by rewrite Hctl].
Qed.

(** The statements of the two places that add a control edge: the edge, then
    its index under the name [s] of the node it comes from. *)
Definition connect_control_indexed (i j : Z) (s : string) (k : MutableNodeView -> Z) : ST G unit :=
  connect_control i j;;
  update_node i (fun v => set_controlling_fanins_index (emplace (controlling_fanins_index_ v) s (k v)) v).

Lemma connect_control_spec H Hc g i j s k v : core_ok H Hc g -> vget (nodes_ g) i = Some v ->
  0 <= j < size_ (nodes_ g) -> i <> j -> (i, size_ (controlling_fanins_ v)) ∉ Hc ->
  s = name_of g j -> controlling_fanins_index_ v !! s = None ->
  (forall v', regular_fanins_ v' = regular_fanins_ v -> k v' = size_ (controlling_fanins_ v)) ->
  runs (connect_control_indexed i j s k) g
    (fun _ g' => core_ok H Hc g' /\ ends_step g g' i id (fun l => l ++ [(j, kControlSlot)])).
Proof.
  intros Hok Hv Hj Hij Hhole -> Hnew Hk. destruct (vget_ex _ _ Hj) as [w Hw].
  pose proof (vget_Some _ _ _ Hv) as Hi. pose proof (ok_length _ (ok_names_ok _ _ _ Hok)) as Hlen.
  unfold connect_control_indexed, connect_control. run_step. run_step. eapply runs_node_at; [done|].
  run_step. eapply runs_update_node; [done|].
  set (w1 := set_controlled_fanouts _ w). run_step.
  eapply runs_node_at; [cbn [nodes_ set_nodes]; by apply vget_vset_eq|].
  run_step. eapply runs_update_node; [cbn [nodes_ set_nodes]; rewrite vget_vset_ne by congruence; exact Hv|].
  set (v1 := set_controlling_fanins _ v).
  eapply runs_increment_fanin_count.
  { cbn [nodes_ set_nodes]. apply vget_vset_eq. by rewrite size_vset. }
  { cbn [graph set_nodes]. lia. }
  set (v2 := set_fanins_count _ v1).
  eapply runs_update_node.
  { cbn [nodes_ set_nodes]. apply vget_vset_eq. by rewrite !size_vset. }
  set (v3 := set_controlling_fanins_index _ v2). cbn [nodes_ set_nodes graph].
  match goal with |- core_ok _ _ ?gg /\ _ => set (g' := gg) end.
  assert (size_ (controlled_fanouts_ w1) - 1 = size_ (controlled_fanouts_ w)) as Hsz.
  { unfold w1. cbn [controlled_fanouts_ set_controlled_fanouts]. rewrite size_snoc. lia. }
  assert (controlling_fanins_index_ v3 = <[name_of g j := size_ (controlling_fanins_ v)]> (controlling_fanins_index_ v)) as Hidx.
  { unfold v3, v2, v1, emplace. cbn [controlling_fanins_index_ set_controlling_fanins_index set_fanins_count set_controlling_fanins].
    rewrite Hnew. f_equal. by apply Hk. }
  assert (frame g g') as Hf by (split_and!; cbn; rewrite ?size_vset; done).
  assert (forall x u, vget (nodes_ g) x = Some u -> vget (nodes_ g') x =
    Some (if bool_decide (x = i) then v3 else if bool_decide (x = j) then w1 else u)) as Hget.
  { intros x u Hu. unfold g'. cbn [nodes_ set_nodes].
    rewrite vget_vset by (by rewrite !size_vset). rewrite (bool_decide_ext (i = x) (x = i)) by done.
    case_bool_decide as E1; [done|]. rewrite !vget_vset_ne by done. rewrite vget_vset by done.
    rewrite (bool_decide_ext (j = x) (x = j)) by done. case_bool_decide; done. }
  split.
  - apply (core_set_control H Hc g g' i (size_ (controlling_fanins_ v)) j (size_ (controlled_fanouts_ w)) v); try done.
    + intros x u Hu. eexists. split; [by apply Hget|]. case_bool_decide as E1; [|case_bool_decide as E2].
      * subst x. simplify_eq. split_and!; try done.
        -- intros y. unfold v3, v2, v1. cbn [controlling_fanins_ set_fanins_count set_controlling_fanins set_controlling_fanins_index].
           rewrite vget_snoc, Hsz. rewrite (bool_decide_ext (_ = y) ((i, y) = (i, size_ (controlling_fanins_ v)))); [done|].
           split; congruence.
        -- intros c. rewrite bool_decide_false by congruence. done.
        -- rewrite bool_decide_true by done. done.
        -- rewrite bool_decide_true by done. done.
        -- intros _ a b. unfold v3, v2, v1. cbn [controlling_fanins_ set_fanins_count set_controlling_fanins set_controlling_fanins_index].
           rewrite live_snoc, Z.add_0_l, bool_decide_false by done.
           rewrite occurrences_app, occurrences_cons. unfold ends. cbn [fanout_node_index fanout_port_index].
           change (occurrences a b []) with 0. lia.
      * subst x. simplify_eq. split_and!; try done.
        -- intros y. rewrite bool_decide_false by congruence. done.
        -- intros c. unfold w1. cbn [controlled_fanouts_ set_controlled_fanouts]. rewrite vget_snoc.
           rewrite (bool_decide_ext (_ = c) ((j, c) = (j, size_ (controlled_fanouts_ w)))); [done|]. split; congruence.
        -- rewrite bool_decide_false by done. done.
        -- rewrite bool_decide_false by done. done.
      * split_and!; try done.
        -- intros y. rewrite bool_decide_false by congruence. done.
        -- intros c. rewrite bool_decide_false by congruence. done.
        -- rewrite bool_decide_false by done. done.
        -- rewrite bool_decide_false by done. done.
    + rewrite (control_fanout_at_node _ _ _ _ Hw). apply vget_None. lia.
    + apply vget_None. lia.
  - split; try apply Hf.
    intros x u Hu. eexists. split; [by apply Hget|]. case_bool_decide as E1; [|case_bool_decide as E2]; [|by subst; simplify_eq|done].
    subst x. simplify_eq. split_and!; try done. unfold v3, v2, v1. cbn. by rewrite map_app.
Qed.

(** ** The NodeDefs *)

(** The graphs agree on what the view keeps of the NodeDefs. *)
Definition same_keys g g' : Prop :=
  nodes_ g' = nodes_ g /\ node_index_by_name_ g' = node_index_by_name_ g /\
  map name (graph g') = map name (graph g) /\ map address (graph g') = map address (graph g).

Lemma same_keys_name g g' i : same_keys g g' -> name_of g' i = name_of g i.
Proof. intros (_ & _ & H & _). unfold name_of. by rewrite <- !vget_map, H. Qed.
Lemma same_keys_address g g' i : same_keys g g' -> address_of g' i = address_of g i.
Proof. intros (_ & _ & _ & H). unfold address_of. by rewrite <- !vget_map, H. Qed.
Lemma same_keys_size g g' : same_keys g g' -> size_ (graph g') = size_ (graph g).
Proof. intros (_ & _ & H & _). by rewrite <- (size_map name), H, size_map. Qed.
Lemma same_keys_def g g' i d' : same_keys g g' -> vget (graph g') i = Some d' ->
  exists d, vget (graph g) i = Some d /\ name d' = name d /\ address d' = address d.
Proof.
  intros Hk Hd. destruct (vget_ex (graph g) i) as [d Hd0].
  { rewrite <- (same_keys_size _ _ Hk). by eapply vget_Some. }
  destruct Hk as (_ & _ & H1 & H2). exists d. split; [done|].
  apply (f_equal (fun l => vget l i)) in H1, H2. rewrite !vget_map, Hd, Hd0 in H1. rewrite !vget_map, Hd, Hd0 in H2. cbn in *. by simplify_eq.
Qed.
Lemma same_keys_sym g g' : same_keys g g' -> same_keys g' g.
Proof. intros (? & ? & ? & ?). by split_and!. Qed.

Lemma core_ok_keys H Hc g g' : core_ok H Hc g -> same_keys g g' -> core_ok H Hc g'.
Proof.
  intros Hok Hk. pose proof Hk as (En & Em & _ & _). pose proof (ok_names_ok _ _ _ Hok) as Hnames. split.
  - split.
    + rewrite En, (same_keys_size _ _ Hk). apply Hnames.
    + rewrite En. apply Hnames.
    + intros s i. rewrite Em, (ok_names _ Hnames). split; intros (d & Hd & <-).
      * destruct (same_keys_def _ _ _ _ (same_keys_sym _ _ Hk) Hd) as (e & ? & ? & _). eauto.
      * destruct (same_keys_def _ _ _ _ Hk Hd) as (e & ? & ? & _). eauto.
    + intros i j d e Hd He Ha. destruct (same_keys_def _ _ _ _ Hk Hd) as (d0 & Hd0 & _ & H1).
      destruct (same_keys_def _ _ _ _ Hk He) as (e0 & He0 & _ & H2).
      apply (ok_address _ Hnames i j d0 e0); congruence.
  - destruct (ok_edges _ _ _ Hok) as [Hm Hnum]. split; [|by rewrite En].
    unfold regular_matching in *. eapply matching_ext; [exact Hm|..]; intros; unfold fanin_at, fanout_at; by rewrite En.
  - eapply matching_ext; [apply (ok_controls _ _ _ Hok)|..]; intros;
      unfold control_fanin_at, control_fanout_by_port, control_fanout_at; by rewrite En.
  - intros i v. rewrite En. intros Hv. pose proof (ok_index_ok _ _ _ Hok i v Hv) as Hix. split.
    + intros j p. rewrite (same_keys_size _ _ Hk), (same_keys_address _ _ _ Hk). apply Hix.
    + intros s k. rewrite (ok_control_index _ _ _ _ _ Hix). by setoid_rewrite (same_keys_name _ _ _ Hk).
    + intros w Hw. rewrite (same_keys_size _ _ Hk). by apply Hix.
    + destruct Hk as (_ & _ & _ & ->). apply Hix.
Qed.

Lemma map_vset {A B} (f : A -> B) l i x : map f (vset l i x) = vset (map f l) i (f x).
Proof. unfold vset. destruct (i <? 0); [done|]. apply list_fmap_insert. Qed.

Lemma same_keys_set_input g i d l : vget (graph g) i = Some d ->
  same_keys g (set_graph (vset (graph g) i (set_input l d)) g).
Proof.
  intros Hd. split; [done|]. split; [done|]. cbn [graph set_graph].
  split; rewrite map_vset; apply vset_id; by rewrite vget_map, Hd.
Qed.

(** Fanins as tensors, from their ends. *)
Definition id_of_ends g (e : Z * Z) : TensorId := mk_TensorId (name_of g e.1) e.2.

Lemma fanin_ids_ends g l : map (fanin_id g) l = map (id_of_ends g) (map ends l).
Proof. by rewrite map_map. Qed.
End edit.
