(* ===== verification/GraphBuild.v ===== *)
(** * GraphBuild: the constructor of the mutable view

    [MutableGraphView(graph, status)] builds a consistent view, or reports the
    first defect of the graph: a name used twice, a node that is its own fanin,
    a regular fanin after a controlling one, or a fanin that does not exist. *)

From S2P Require Import Prelude Vec TensorName GraphView GraphInv GraphEditProofs GraphEdit.
#[local] Open Scope string_scope.
#[local] Open Scope list_scope.
#[local] Open Scope Z_scope.

Section build.
  Context {AttrValue : Type}.
  #[local] Notation G := (MutableGraphView AttrValue).
  #[local] Notation Def := (NodeDef AttrValue).
  Implicit Types (g : G) (d : Def).

(** ** What a well-formed graph is *)

(** No regular fanin after a controlling one. *)
Fixpoint controls_last (ids : list TensorId) : Prop :=
  match ids with
  | [] => True
  | t :: ids => (IsTensorIdControl t = true -> Forall (fun u => IsTensorIdControl u = true) ids) /\ controls_last ids
  end.

Definition fanins_well_formed (names : list string) d : Prop :=
  Forall (fun s => node (ParseTensorName s) <> name d /\ node (ParseTensorName s) ∈ names) (input d) /\
  controls_last (map ParseTensorName (input d)).

Definition graph_well_formed (l : list Def) : Prop :=
  NoDup (map name l) /\ Forall (fanins_well_formed (map name l)) l.

(** What the constructor makes of the inputs: the repeated control edges go. *)
Definition inputs_deduplicated d d' : Prop :=
  let ids := map ParseTensorName (input d) in
  exists controls, map ParseTensorName (input d') = List.filter (fun t => negb (IsTensorIdControl t)) ids ++ controls /\
    NoDup (map node controls) /\ (forall t, t ∈ controls <-> t ∈ List.filter IsTensorIdControl ids).

Definition same_but_input d d' : Prop :=
  name d' = name d /\ op d' = op d /\ device d' = device d /\ attr d' = attr d /\ address d' = address d.

(** ** The nodes *)

(** The view of the first nodes [l] of the graph, without edges. *)
Record nodes_added (l : list Def) g : Prop := {
  na_nodes : nodes_ g = map make_NodeView (count_up (size_ l));
  na_names : forall s i, node_index_by_name_ g !! s = Some i <-> exists d, vget l i = Some d /\ name d = s;
  na_size : size (node_index_by_name_ g) = length l
}.

Lemma count_up_snoc m : 0 <= m -> count_up (m + 1) = count_up m ++ [m].
Proof.
  intros Hm. unfold count_up. replace (Z.to_nat (m + 1)) with (Z.to_nat m + 1)%nat by lia.
  rewrite seq_app, map_app. simpl. by rewrite Z2Nat.id.
Qed.

Lemma add_unique_nodes_spec l : forall done g, nodes_added done g ->
  runs (add_unique_nodes l) g (fun r g' => graph g' = graph g /\ mutation_ g' = mutation_ g /\
    match r with
    | None => nodes_added (done ++ l) g' /\ (NoDup (map name done) -> NoDup (map name (done ++ l)))
    | Some _ => ~ NoDup (map name (done ++ l))
    end).
Proof.
  induction l as [|d l IH]; intros done g Hg; cbn [add_unique_nodes].
  { apply runs_ret. by rewrite app_nil_r. }
  run_step. unfold AddUniqueNodeInternal. run_step. run_step. destruct (node_index_by_name_ g !! name d) as [i|] eqn:E.
  - apply runs_ret, runs_ret. split; [done|]. split; [done|].
    apply (na_names _ _ Hg) in E as (e & He & Hn). rewrite map_app, NoDup_app. cbn [map]. intros (_ & H & _).
    apply (H (name d)); [|left]. rewrite <- Hn. apply list_elem_of_fmap. exists e. split; [done|]. apply elem_of_vget. eauto.
  - run_step. exists tt, (set_nodes (nodes_ g ++ [make_NodeView (Z.of_nat (size (node_index_by_name_ g)))])
      (set_node_index_by_name (<[name d:=Z.of_nat (size (node_index_by_name_ g))]> (node_index_by_name_ g)) g)).
    split; [done|]. apply runs_ret.
    replace (done ++ d :: l) with ((done ++ [d]) ++ l) by (by rewrite <- app_assoc).
    eapply runs_mono; [apply (IH (done ++ [d]))|].
    + rewrite (na_size _ _ Hg). split; cbn [nodes_ set_nodes node_index_by_name_ set_node_index_by_name].
      * rewrite size_snoc, count_up_snoc, map_app by apply size_nonneg. by rewrite (na_nodes _ _ Hg).
      * intros s i. rewrite lookup_insert_Some, vget_snoc. unfold size_. case_bool_decide as Ei.
        -- subst i. split.
           ++ intros [[<- _]|[Hne Hs]]; [eauto|]. apply (na_names _ _ Hg) in Hs as (e & He & _).
              apply vget_Some in He. unfold size_ in He. lia.
           ++ intros (e & [= <-] & <-). by left.
        -- rewrite (na_names _ _ Hg). split; [intros [[_ ?]|[_ ?]]; [done|naive_solver]|].
           intros (e & He & <-). right. split; [|eauto]. intros Hn.
           assert (node_index_by_name_ g !! name d = Some i); [|congruence]. apply (na_names _ _ Hg). eauto.
      * rewrite map_size_insert_None, length_app by done. rewrite (na_size _ _ Hg). simpl. lia.
    + intros [s|] g' (Hgr & Hmu & H); (split; [done|]; split; [done|]); [done|]. destruct H as [H1 H2].
      split; [done|]. intros Hnd. apply H2. rewrite map_app. apply NoDup_app. split; [done|]. split.
      * intros s Hs ->%list_elem_of_singleton. apply list_elem_of_fmap in Hs as (e & Hn & [i He]%elem_of_vget).
        assert (node_index_by_name_ g !! name d = Some i); [|congruence]. apply (na_names _ _ Hg). eauto.
      * apply NoDup_singleton.
Qed.

(** ** The checks *)

Lemma check_inputs_spec g d inputs : forall obs,
  match check_inputs g (name d) inputs obs with
  | inr ids => ids = map ParseTensorName inputs /\
      Forall (fun s => node (ParseTensorName s) <> name d /\ HasNode g (node (ParseTensorName s)) = true) inputs /\
      controls_last ids /\ (obs = true -> Forall (fun u => IsTensorIdControl u = true) ids)
  | inl s => status_ok s = false /\
      ~ (Forall (fun s => node (ParseTensorName s) <> name d /\ HasNode g (node (ParseTensorName s)) = true) inputs /\
         controls_last (map ParseTensorName inputs) /\
         (obs = true -> Forall (fun u => IsTensorIdControl u = true) (map ParseTensorName inputs)))
  end.
Proof.
  induction inputs as [|s inputs IH]; intros obs; cbn [check_inputs]; [done|].
  case_bool_decide as E1.
  { split; [done|]. intros (Hf & _). apply Forall_cons in Hf as [[Hf _] _]. done. }
  destruct (negb (IsTensorIdControl (ParseTensorName s)) && obs) eqn:E2.
  { split; [done|]. intros (_ & _ & Ho). apply andb_true_iff in E2 as [Ec ->]. specialize (Ho eq_refl).
    cbn [map] in Ho. apply Forall_cons in Ho as [Ho _]. by rewrite Ho in Ec. }
  destruct (HasNode g (node (ParseTensorName s))) eqn:E3; cbn [negb].
  2:{ split; [done|]. intros (Hf & _). apply Forall_cons in Hf as [[_ Hf] _]. congruence. }
  specialize (IH (obs || IsTensorIdControl (ParseTensorName s))).
  destruct (check_inputs g (name d) inputs _) as [st|ids].
  - destruct IH as [Hs Hn]. split; [done|]. intros (Hf & Hc & Ho). apply Hn. cbn [map controls_last] in *.
    apply Forall_cons in Hf as [_ Hf]. destruct Hc as [Hc Hcl]. split; [done|]. split; [done|].
    intros [->|Hsc]%orb_true_iff; [specialize (Ho eq_refl); by apply Forall_cons in Ho as [_ Ho]|auto].
  - destruct IH as (-> & Hf & Hc & Ho). split; [done|]. split; [by constructor|]. cbn [controls_last]. split.
    + split; [|done]. intros Hs. apply Ho. by rewrite Hs, orb_true_r.
    + intros ->. apply Forall_cons. split; [|by apply Ho].
      rewrite andb_true_r in E2. by apply negb_false_iff in E2.
Qed.

Lemma check_nodes_spec g names l :
  (forall s, HasNode g s = true <-> s ∈ names) ->
  match check_nodes g l with
  | inr fanins => fanins = map (fun d => map ParseTensorName (input d)) l /\ Forall (fanins_well_formed names) l
  | inl s => status_ok s = false /\ ~ Forall (fanins_well_formed names) l
  end.
Proof.
  intros Hn. induction l as [|d l IH]; cbn [check_nodes]; [done|].
  assert (forall inputs, Forall (fun s => node (ParseTensorName s) <> name d /\ HasNode g (node (ParseTensorName s)) = true) inputs <->
    Forall (fun s => node (ParseTensorName s) <> name d /\ node (ParseTensorName s) ∈ names) inputs) as Hiff.
  { intros inputs. split; intros Hf; (eapply Forall_impl; [exact Hf|]); intros s [? ?]; (split; [done|]); by apply Hn. }
  pose proof (check_inputs_spec g d (input d) false) as Hd. destruct (check_inputs g (name d) (input d) false) as [st|ids].
  - destruct Hd as [Hs Hd]. split; [done|]. intros [[H1 H2] _]%Forall_cons. apply Hd. rewrite Hiff. done.
  - destruct Hd as (-> & H1 & H2 & _). rewrite Hiff in H1. destruct (check_nodes g l) as [st|fanins].
    + destruct IH as [Hs Hl]. split; [done|]. by intros [_ ?]%Forall_cons.
    + destruct IH as [-> Hl]. split; [done|]. by constructor.
Qed.

(** ** The fanins of one node *)

Lemma controls_last_vget ids : controls_last ids <->
  forall a b t u, vget ids a = Some t -> vget ids b = Some u -> a <= b ->
    IsTensorIdControl t = true -> IsTensorIdControl u = true.
Proof.
  induction ids as [|x ids IH]; cbn [controls_last].
  { split; [|done]. intros _ a b t u Ha. apply vget_Some in Ha. unfold size_ in Ha. simpl in Ha. lia. }
  assert (forall a (t : TensorId), 1 <= a -> vget (x :: ids) a = vget ids (a - 1)) as Hcons.
  { intros a t Ha. change (x :: ids) with ([x] ++ ids). by rewrite vget_app_r. }
  rewrite IH. split.
  - intros [Hx Hids] a b t u Ha Hb Hab Ht. pose proof (vget_Some _ _ _ Ha) as [Ha0 _].
    destruct (decide (b = 0)) as [->|Hb0].
    + assert (a = 0) as -> by lia. congruence.
    + rewrite (Hcons b u) in Hb by lia. destruct (decide (a = 0)) as [->|Ha1].
      * injection Ha as ->. specialize (Hx Ht). rewrite Forall_forall in Hx. apply Hx, elem_of_vget. eauto.
      * rewrite (Hcons a t) in Ha by lia. eapply (Hids (a - 1) (b - 1)); [done..|lia|done].
  - intros H. split.
    + intros Hx. apply Forall_forall. intros u [b Hb]%elem_of_vget. pose proof (vget_Some _ _ _ Hb).
      eapply (H 0 (b + 1) x u); [done| |lia|done]. rewrite (Hcons _ u) by lia. by replace (b + 1 - 1) with b by lia.
    + intros a b t u Ha Hb Hab. pose proof (vget_Some _ _ _ Ha). eapply (H (a + 1) (b + 1)); [| |lia].
      * rewrite (Hcons _ t) by lia. by replace (a + 1 - 1) with a by lia.
      * rewrite (Hcons _ u) by lia. by replace (b + 1 - 1) with b by lia.
Qed.

Lemma vget_take {A} (l : list A) m i x : vget (take m l) i = Some x -> vget l i = Some x /\ i < Z.of_nat m.
Proof.
  unfold vget. destruct (Z.ltb_spec i 0); [done|]. rewrite lookup_take_Some. intros [? ?]. split; [done|lia].
Qed.

Lemma take_snoc {A} (l : list A) i x : vget l i = Some x ->
  take (Z.to_nat (i + 1)) l = take (Z.to_nat i) l ++ [x].
Proof.
  intros Hi. pose proof (vget_Some _ _ _ Hi). rewrite Z2Nat.inj_add, Nat.add_1_r by lia. apply take_S_r.
  unfold vget in Hi. by destruct (Z.ltb_spec i 0); [lia|].
Qed.

Lemma take_vset {A} (l : list A) m i x : Z.of_nat m <= i -> take m (vset l i x) = take m l.
Proof. intros Hi. unfold vset. destruct (Z.ltb_spec i 0); [lia|]. apply take_insert_ge. lia. Qed.

Lemma filter_vset {A} (p : A -> bool) l i x y : vget l i = Some x -> p x = false -> p y = false ->
  List.filter p (vset l i y) = List.filter p l.
Proof.
  intros Hi Hx Hy. pose proof (vget_Some _ _ _ Hi). unfold vget in Hi. unfold vset.
  destruct (Z.ltb_spec i 0); [lia|]. rewrite <- (take_drop_middle _ _ _ Hi) at 2.
  rewrite insert_take_drop by (by eapply lookup_lt_Some). rewrite !List.filter_app. simpl. by rewrite Hx, Hy.
Qed.

Lemma swap_Permutation {A} (l : list A) i j x y : vget l i = Some x -> vget l j = Some y ->
  vset (vset l i y) j x ≡ₚ l.
Proof.
  intros Hi Hj. destruct (decide (i = j)) as [->|Hij].
  - assert (x = y) as -> by congruence. rewrite (vset_id l j y) by done. by rewrite vset_id.
  - pose proof (vget_Some _ _ _ Hi). pose proof (vget_Some _ _ _ Hj).
    unfold vget in Hi, Hj. unfold vset. destruct (Z.ltb_spec i 0), (Z.ltb_spec j 0); try lia.
    apply Permutation_inj. rewrite !length_insert. split; [done|].
    exists (fun k => if decide (k = Z.to_nat i) then Z.to_nat j else if decide (k = Z.to_nat j) then Z.to_nat i else k).
    unfold size_ in *. split.
    + intros a b. repeat destruct (decide _); lia.
    + intros k. repeat destruct (decide _); subst.
      * rewrite list_lookup_insert_ne by lia. rewrite list_lookup_insert_eq by lia. done.
      * rewrite list_lookup_insert_eq by (rewrite length_insert; lia). done.
      * by rewrite !list_lookup_insert_ne by done.
Qed.

(** What is true of every fanin of the node. *)
Definition fanin_known g (i : Z) (t : TensorId) : Prop :=
  -1 <= index t /\ node t <> name_of g i /\ is_Some (node_index_by_name_ g !! node t).

(** The state of the loop: [node_fanins] are settled up to [pos], repeated
    control edges stand after [last]. *)
Record fan_inv (g0 : G) (i : Z) (ids : list TensorId) g (pos last : Z) (node_fanins : list TensorId)
    (observed : gset string) : Prop := {
  fi_core : core_ok ∅ ∅ g;
  fi_mutation : mutation_ g = mutation_ g0;
  fi_keys : map name (graph g) = map name (graph g0) /\ map address (graph g) = map address (graph g0) /\
    node_index_by_name_ g = node_index_by_name_ g0 /\ size_ (nodes_ g) = size_ (nodes_ g0);
  fi_graph : forall x, x <> i -> vget (graph g) x = vget (graph g0) x;
  fi_nodes : forall x v0, x <> i -> vget (nodes_ g0) x = Some v0 -> exists v, vget (nodes_ g) x = Some v /\
    map ends (regular_fanins_ v) = map ends (regular_fanins_ v0) /\
    map ends (controlling_fanins_ v) = map ends (controlling_fanins_ v0);
  fi_def : exists d0 d, vget (graph g0) i = Some d0 /\ vget (graph g) i = Some d /\ same_but_input d0 d /\
    map ParseTensorName (input d) = node_fanins;
  fi_perm : node_fanins ≡ₚ ids;
  fi_last : controls_last node_fanins;
  fi_regular : List.filter (fun t => negb (IsTensorIdControl t)) node_fanins =
    List.filter (fun t => negb (IsTensorIdControl t)) ids;
  fi_node : exists v, vget (nodes_ g) i = Some v /\
    map (fanin_id g) (regular_fanins_ v ++ controlling_fanins_ v) = take (Z.to_nat pos) node_fanins /\
    (forall s, s ∈ observed <-> s ∈ map (fun w => name_of g (fanout_node_index w)) (controlling_fanins_ v));
  fi_tail : forall b t, last < b -> vget node_fanins b = Some t -> IsTensorIdControl t = true /\ node t ∈ observed;
  fi_pos : 0 <= pos <= last + 1 /\ last < size_ node_fanins
}.

Section loop.
  Context (g0 : G) (i : Z) (ids : list TensorId).
  Hypothesis ids_known : Forall (fanin_known g0 i) ids.

Lemma fi_name g pos last nf obs x : fan_inv g0 i ids g pos last nf obs -> name_of g x = name_of g0 x.
Proof. intros I. destruct (fi_keys _ _ _ _ _ _ _ _ I) as (H & _). unfold name_of. by rewrite <- !vget_map, H. Qed.

(** The fanin at [pos] comes from another node of the graph. *)
Lemma fi_target g pos last nf obs t : fan_inv g0 i ids g pos last nf obs -> vget nf pos = Some t ->
  exists j, node_index_by_name_ g !! node t = Some j /\ 0 <= j < size_ (nodes_ g) /\ i <> j /\
    name_of g j = node t /\ -1 <= index t.
Proof.
  intros I Ht. assert (t ∈ ids) as Hin.
  { rewrite <- (fi_perm _ _ _ _ _ _ _ _ I). apply elem_of_vget. eauto. }
  rewrite Forall_forall in ids_known. destruct (ids_known t Hin) as (Hi & Hne & j & Hj).
  destruct (fi_keys _ _ _ _ _ _ _ _ I) as (_ & _ & Hm & Hs). rewrite <- Hm in Hj.
  pose proof (ok_names_ok _ _ _ (fi_core _ _ _ _ _ _ _ _ I)) as Hn.
  destruct (proj1 (ok_names _ Hn _ _) Hj) as (d & Hd & Hdn).
  assert (name_of g j = node t) as Hname by (unfold name_of; by rewrite Hd).
  exists j. split; [done|]. split; [rewrite (ok_length _ Hn); by eapply vget_Some|].
  split; [|done]. intros Eij. apply Hne. rewrite Eij. by rewrite <- (fi_name _ _ _ _ _ _ I).
Qed.

(** A control fanin of the view stands before [pos]. *)
Lemma fi_no_controls g pos last nf obs t v : fan_inv g0 i ids g pos last nf obs -> vget nf pos = Some t ->
  IsTensorIdControl t = false -> vget (nodes_ g) i = Some v -> controlling_fanins_ v = [].
Proof.
  intros I Ht Hr Hv. destruct (controlling_fanins_ v) as [|w l] eqn:E; [done|]. exfalso.
  destruct (fi_node _ _ _ _ _ _ _ _ I) as (v' & Hv' & Hfan & _). simplify_eq.
  assert (fanin_id g w ∈ take (Z.to_nat pos) nf) as Hw.
  { rewrite <- Hfan, E. apply list_elem_of_fmap. exists w. split; [done|]. apply elem_of_app. right. left. }
  apply elem_of_vget in Hw as [a Ha]. apply vget_take in Ha as [Ha Hap].
  assert (IsTensorIdControl (fanin_id g w) = true) as Hc.
  { unfold IsTensorIdControl, fanin_id. cbn. apply Z.eqb_eq.
    assert (control_fanin_at g i 0 = Some w) as Hat by (rewrite (control_fanin_at_node _ _ _ _ Hv), E; done).
    by apply (ok_control_fanin _ _ (ok_controls _ _ _ (fi_core _ _ _ _ _ _ _ _ I)) _ _ _ Hat). }
  destruct (fi_pos _ _ _ _ _ _ _ _ I) as [? _].
  pose proof (proj1 (controls_last_vget nf) (fi_last _ _ _ _ _ _ _ _ I) a pos _ _ Ha Ht ltac:(lia) Hc). congruence.
Qed.

Lemma fi_settled g pos last nf obs v : fan_inv g0 i ids g pos last nf obs -> vget (nodes_ g) i = Some v ->
  pos <= size_ nf -> size_ (regular_fanins_ v) + size_ (controlling_fanins_ v) = pos.
Proof.
  intros I Hv Hp. destruct (fi_node _ _ _ _ _ _ _ _ I) as (v' & Hv' & Hfan & _). simplify_eq.
  apply (f_equal length) in Hfan. rewrite length_map, length_app, length_take in Hfan.
  destruct (fi_pos _ _ _ _ _ _ _ _ I). unfold size_ in *. lia.
Qed.

(** An edge was added to node [i]: what stays of the invariant. *)
Lemma fi_step g g' pos last nf obs obs' FR FC v t : fan_inv g0 i ids g pos last nf obs -> vget nf pos = Some t ->
  pos <= last -> core_ok ∅ ∅ g' -> ends_step g g' i FR FC -> vget (nodes_ g) i = Some v ->
  map (id_of_ends g) (FR (map ends (regular_fanins_ v)) ++ FC (map ends (controlling_fanins_ v))) =
    map (fanin_id g) (regular_fanins_ v ++ controlling_fanins_ v) ++ [t] ->
  (forall s, s ∈ obs' <-> s ∈ map (fun e => name_of g e.1) (FC (map ends (controlling_fanins_ v)))) ->
  obs ⊆ obs' -> fan_inv g0 i ids g' (pos + 1) last nf obs'.
Proof.
  intros I Ht Hpl Hcore Hs Hv Hids Hobs Hsub.
  assert (graph g' = graph g) as Eg by apply Hs.
  assert (forall e, id_of_ends g' e = id_of_ends g e) as Hid by (intros e; unfold id_of_ends, name_of; by rewrite Eg).
  destruct (es_node _ _ _ _ _ Hs i v Hv) as (v' & Hv' & _ & _ & Hr & Hc).
  rewrite bool_decide_true in Hr, Hc by done. split.
  - done.
  - rewrite (es_mutation _ _ _ _ _ Hs). apply I.
  - rewrite Eg, (es_names _ _ _ _ _ Hs), (es_size _ _ _ _ _ Hs). apply I.
  - rewrite Eg. apply I.
  - intros x v0 Hx Hv0. destruct (fi_nodes _ _ _ _ _ _ _ _ I x v0 Hx Hv0) as (u & Hu & H1 & H2).
    destruct (es_node _ _ _ _ _ Hs x u Hu) as (u' & Hu' & _ & _ & H3 & H4). exists u'. split; [done|].
    rewrite bool_decide_false in H3, H4 by done. cbn in *. by rewrite H3, H4.
  - rewrite Eg. apply I.
  - apply I.
  - apply I.
  - apply I.
  - exists v'. split; [done|]. split.
    + rewrite fanin_ids_ends, map_app, Hr, Hc, (map_ext _ _ Hid), Hids, (take_snoc _ _ t) by done. f_equal.
      destruct (fi_node _ _ _ _ _ _ _ _ I) as (u & Hu & Hfan & _). by simplify_eq.
    + intros s. rewrite Hobs.
      assert (map (fun w => name_of g' (fanout_node_index w)) (controlling_fanins_ v') =
        map (fun e : Z * Z => name_of g e.1) (FC (map ends (controlling_fanins_ v)))) as ->; [|done].
      rewrite <- Hc, map_map. apply map_ext. intros w. unfold name_of. by rewrite Eg.
  - intros b u Hb Hu. destruct (fi_tail _ _ _ _ _ _ _ _ I b u Hb Hu). auto.
  - destruct (fi_pos _ _ _ _ _ _ _ _ I). lia.
Qed.

(** A repeated control edge is exchanged with the fanin at [last]. *)
Lemma fi_swap g pos last nf obs t u d l : fan_inv g0 i ids g pos last nf obs -> pos <= last ->
  vget nf pos = Some t -> vget nf last = Some u -> IsTensorIdControl t = true -> node t ∈ obs ->
  vget (graph g) i = Some d -> map ParseTensorName l = vset (vset nf pos u) last t ->
  fan_inv g0 i ids (set_graph (vset (graph g) i (set_input l d)) g) pos (last - 1) (vset (vset nf pos u) last t) obs.
Proof.
  intros I Hpl Ht Hu Hc Hobs Hd Hl. pose proof (same_keys_set_input g i d l Hd) as Hk.
  set (g' := set_graph _ g) in *. destruct (fi_pos _ _ _ _ _ _ _ _ I) as [Hp Hlast].
  pose proof (vget_Some _ _ _ Ht) as Hpr. pose proof (vget_Some _ _ _ Hu) as Hlr.
  pose proof (proj1 (controls_last_vget nf) (fi_last _ _ _ _ _ _ _ _ I)) as Hcl.
  assert (forall b w, vget (vset (vset nf pos u) last t) b = Some w -> exists w', vget nf b = Some w' /\
    IsTensorIdControl w' = IsTensorIdControl w) as Hsame.
  { intros b w. rewrite vget_vset by (by rewrite size_vset). rewrite vget_vset by done.
    case_bool_decide as E1; [|case_bool_decide as E2; [|eauto]].
    - subst b. intros [= <-]. exists u. split; [done|]. rewrite Hc. by eapply (Hcl pos last).
    - subst b. intros [= <-]. exists t. split; [done|]. rewrite Hc. symmetry. by eapply (Hcl pos last). }
  split.
  - eapply core_ok_keys; [apply I|done].
  - apply I.
  - destruct Hk as (_ & _ & H1 & H2). rewrite H1, H2. apply I.
  - intros x Hx. unfold g'. cbn [graph set_graph]. rewrite vget_vset_ne by done. by apply I.
  - apply I.
  - destruct (fi_def _ _ _ _ _ _ _ _ I) as (d0 & d' & Hd0 & Hd' & Hsbi & _). simplify_eq.
    exists d0, (set_input l d). split; [done|]. split; [|done].
    unfold g'. cbn [graph set_graph]. apply vget_vset_eq. by eapply vget_Some.
  - rewrite swap_Permutation by done. apply I.
  - apply controls_last_vget. intros a b w1 w2 H1 H2 Hab Hw1.
    destruct (Hsame a w1 H1) as (w1' & H1' & E1). destruct (Hsame b w2 H2) as (w2' & H2' & E2).
    rewrite <- E2. eapply (Hcl a b); [done..|]. by rewrite E1.
  - assert (IsTensorIdControl u = true) as Hcu by (by eapply (Hcl pos last)).
    assert (vget (vset nf pos u) last = Some u) as Hlu.
    { rewrite vget_vset by done. by case_bool_decide. }
    rewrite (filter_vset _ _ _ u), (filter_vset _ _ _ t); try done; [apply I|by cbn; rewrite ?Hcu, ?Hc..].
  - destruct (fi_node _ _ _ _ _ _ _ _ I) as (v & Hv & Hfan & Hob). exists v. split; [done|]. split.
    + rewrite !take_vset by lia. rewrite <- Hfan. apply map_ext. intros w. unfold fanin_id.
      by rewrite (same_keys_name g g').
    + intros s. rewrite Hob.
      assert (map (fun w => name_of g' (fanout_node_index w)) (controlling_fanins_ v) =
        map (fun w => name_of g (fanout_node_index w)) (controlling_fanins_ v)) as ->; [|done].
      apply map_ext. intros w. by rewrite (same_keys_name g g').
  - intros b w Hb. rewrite vget_vset by (by rewrite size_vset). rewrite vget_vset by done.
    case_bool_decide as E1; [intros [= <-]; done|]. case_bool_decide as E2; [lia|].
    intros Hw. apply (fi_tail _ _ _ _ _ _ _ _ I b); [lia|done].
  - rewrite !size_vset. lia.
Qed.

Lemma add_fanins_loop_spec fuel : forall g pos last nf obs, fan_inv g0 i ids g pos last nf obs ->
  last + 2 - pos <= Z.of_nat fuel ->
  runs (add_fanins_loop fuel i pos last nf obs) g (fun last' g' =>
    exists nf' obs', fan_inv g0 i ids g' (last' + 1) last' nf' obs').
Proof.
  induction fuel as [|fuel IH]; intros g pos last nf obs I Hf; cbn [add_fanins_loop].
  { destruct (fi_pos _ _ _ _ _ _ _ _ I). lia. }
  destruct (fi_pos _ _ _ _ _ _ _ _ I) as [Hp Hlast].
  destruct (Z.ltb_spec last pos) as [Hlt|Hge].
  { apply runs_ret. exists nf, obs. by replace (last + 1) with pos by lia. }
  destruct (vget_ex nf pos) as [t Ht]; [lia|]. run_step. eapply runs_at; [done|]. run_step. run_step. cbv zeta.
  destruct (fi_target _ _ _ _ _ _ I Ht) as (j & Hj & Hjr & Hij & Hjn & Hti). rewrite Hj. cbn [default].
  destruct (fi_node _ _ _ _ _ _ _ _ I) as (v & Hv & Hfan & Hobs).
  destruct (IsTensorIdControl t) eqn:Hc.
  - case_bool_decide as Ho.
    + destruct (fi_def _ _ _ _ _ _ _ _ I) as (d0 & d & Hd0 & Hd & Hsbi & Hparse).
      destruct (vget_ex nf last) as [u Hu]; [lia|].
      assert (size_ (input d) = size_ nf) as Hsz by (by rewrite <- Hparse, size_map).
      destruct (vget_ex (input d) pos) as [a Ha]; [lia|]. destruct (vget_ex (input d) last) as [b Hb]; [lia|].
      run_step. eapply runs_node_def_at; [done|].
      run_step. eapply runs_lift; [by apply swap_elements_spec|].
      run_step. eapply runs_update_node_def; [done|].
      run_step. eapply runs_lift; [by apply swap_elements_spec|].
      apply IH; [|lia]. apply fi_swap; try done. rewrite !map_vset, Hparse. f_equal; [f_equal|].
      * rewrite <- Hparse, vget_map, Hb in Hu. by injection Hu.
      * rewrite <- Hparse, vget_map, Ha in Ht. by injection Ht.
    + assert (controlling_fanins_index_ v !! node t = None) as Hnew.
      { apply eq_None_not_Some. intros [k Hk]. apply Ho. apply Hobs.
        apply (ok_control_index _ _ _ _ _ (ok_index_ok _ _ _ (fi_core _ _ _ _ _ _ _ _ I) i v Hv)) in Hk as (w & Hw & _ & Hn).
        apply list_elem_of_fmap. exists w. split; [done|]. apply elem_of_vget. eauto. }
      apply runs_assoc. run_step.
      eapply runs_mono; [apply (connect_control_spec ∅ ∅ g i j (node t) (fun v => pos - NumRegularFanins v) v)|]; try done.
      * apply I.
      * intros v' Hv'. unfold NumRegularFanins. rewrite Hv'. pose proof (fi_settled _ _ _ _ _ _ I Hv). lia.
      * intros _ g' [Hcore Hs]. apply IH; [|lia].
        eapply (fi_step g g' pos last nf obs); try done.
        -- unfold id. rewrite fanin_ids_ends, (map_app ends), app_assoc, (map_app (id_of_ends g) (_ ++ _)). f_equal. cbn. f_equal.
           unfold id_of_ends. cbn. rewrite Hjn. destruct t. unfold IsTensorIdControl in Hc. cbn in *.
           apply Z.eqb_eq in Hc. by rewrite Hc.
        -- intros s. rewrite elem_of_union, elem_of_singleton, map_app, elem_of_app, Hobs, map_map. cbn.
           rewrite Hjn, list_elem_of_singleton. tauto.
        -- set_solver.
  - run_step. eapply runs_mono; [apply (connect_regular_spec ∅ ∅ g i j (index t) v)|]; try done.
    + apply I.
    + unfold IsTensorIdControl, kControlSlot in Hc. apply Z.eqb_neq in Hc. lia.
    + intros _ g' [Hcore Hs]. apply IH; [|lia].
      pose proof (fi_no_controls _ _ _ _ _ _ v I Ht Hc Hv) as Hnil.
      eapply (fi_step g g' pos last nf obs obs); try done.
      * cbn [id]. rewrite Hnil. cbn [map]. rewrite !app_nil_r, fanin_ids_ends, map_app. f_equal. cbn. f_equal.
        unfold id_of_ends. cbn. rewrite Hjn. by destruct t.
      * intros s. cbn [id]. rewrite Hobs, map_map. done.
Qed.
End loop.

(** ** All the nodes *)

Lemma controls_last_split ids : controls_last ids ->
  ids = List.filter (fun t => negb (IsTensorIdControl t)) ids ++ List.filter IsTensorIdControl ids.
Proof.
  induction ids as [|t ids IH]; cbn [controls_last]; [done|]. intros [Ht Hids]. simpl.
  destruct (IsTensorIdControl t) eqn:E; simpl; [|f_equal; auto].
  specialize (Ht eq_refl). clear -Ht.
  assert (List.filter (fun t => negb (IsTensorIdControl t)) ids = [] /\ List.filter IsTensorIdControl ids = ids) as [-> ->]; [|done].
  induction Ht as [|u ids Hu Hids [IH1 IH2]]; [done|]. simpl. rewrite Hu. simpl. by rewrite IH2.
Qed.

Lemma controls_last_take ids m : controls_last ids -> controls_last (take m ids).
Proof.
  rewrite !controls_last_vget. intros H a b t u Ha Hb. apply vget_take in Ha as [Ha _], Hb as [Hb _]. eauto.
Qed.

(** The controlling fanins of a consistent view come from different nodes. *)
Lemma controls_NoDup H Hc g i v : core_ok H Hc g -> (forall k, (i, k) ∉ Hc) -> vget (nodes_ g) i = Some v ->
  NoDup (map (fun w => name_of g (fanout_node_index w)) (controlling_fanins_ v)).
Proof.
  intros Hok Hh Hv. apply NoDup_alt. intros a b s Ha Hb. rewrite list_lookup_fmap in Ha, Hb.
  apply fmap_Some in Ha as (w & Ha & ->). apply fmap_Some in Hb as (w' & Hb & Hs).
  rewrite <- vget_nat in Ha, Hb. pose proof (ok_control_index _ _ _ _ _ (ok_index_ok _ _ _ Hok i v Hv)) as Hix.
  assert (controlling_fanins_index_ v !! name_of g (fanout_node_index w) = Some (Z.of_nat a)) by (apply Hix; eauto).
  assert (controlling_fanins_index_ v !! name_of g (fanout_node_index w) = Some (Z.of_nat b)) by (apply Hix; eauto).
  simplify_eq. lia.
Qed.

Lemma fi_done g0 i ids g last nf obs d0 d v : fan_inv g0 i ids g (last + 1) last nf obs ->
  vget (nodes_ g) i = Some v -> map ParseTensorName (input d0) = ids ->
  map ParseTensorName (input d) = take (Z.to_nat (last + 1)) nf -> inputs_deduplicated d0 d /\ inputs_ok g d v.
Proof.
  intros I Hv Hids Hd. destruct (fi_node _ _ _ _ _ _ _ _ I) as (v' & Hv' & Hfan & Hobs).
  assert (v' = v) as -> by congruence. destruct (fi_pos _ _ _ _ _ _ _ _ I) as [[Hl0 _] Hl].
  pose proof (fi_core _ _ _ _ _ _ _ _ I) as Hcore.
  split; [|unfold inputs_ok; by rewrite Hd, Hfan].
  set (tk := take (Z.to_nat (last + 1)) nf) in *. set (dr := drop (Z.to_nat (last + 1)) nf).
  assert (nf = tk ++ dr) as Hsplit by (symmetry; apply take_drop).
  assert (forall t, t ∈ dr -> IsTensorIdControl t = true /\ node t ∈ obs) as Hdr.
  { intros t [b Hb]%elem_of_vget. apply (fi_tail _ _ _ _ _ _ _ _ I (b + (last + 1))).
    - pose proof (vget_Some _ _ _ Hb). lia.
    - pose proof (vget_Some _ _ _ Hb). unfold vget, dr in *. destruct (Z.ltb_spec b 0); [done|].
      rewrite lookup_drop in Hb. destruct (Z.ltb_spec (b + (last + 1)) 0); [lia|]. rewrite <- Hb. f_equal. lia. }
  assert (List.filter (fun t => negb (IsTensorIdControl t)) dr = []) as Hdr0.
  { clear -Hdr. induction dr as [|t l IH]; [done|]. simpl. rewrite (proj1 (Hdr t ltac:(left))). simpl.
    apply IH. intros u Hu. apply Hdr. by right. }
  assert (forall w, w ∈ controlling_fanins_ v -> fanout_port_index w = kControlSlot) as Hport.
  { intros w [k Hk]%elem_of_vget. assert (control_fanin_at g i k = Some w) as Hat by (by rewrite (control_fanin_at_node _ _ _ _ Hv)).
    by apply (ok_control_fanin _ _ (ok_controls _ _ _ Hcore) _ _ _ Hat). }
  assert (List.filter IsTensorIdControl tk = map (fanin_id g) (controlling_fanins_ v)) as Hctl.
  { rewrite <- Hfan, map_app, List.filter_app.
    assert (List.filter IsTensorIdControl (map (fanin_id g) (regular_fanins_ v)) = []) as ->.
    { assert (forall w, w ∈ regular_fanins_ v -> 0 <= fanout_port_index w) as Hr.
      { intros w [k Hk]%elem_of_vget. assert (fanin_at g i k = Some w) as Hat by (by rewrite (fanin_at_node _ _ _ _ Hv)).
        by apply (ok_fanin _ _ (ok_edges _ _ _ Hcore) _ _ _ Hat). }
      clear -Hr. induction (regular_fanins_ v) as [|w l IH]; [done|]. cbn [map List.filter].
      assert (IsTensorIdControl (fanin_id g w) = false) as ->.
      { unfold IsTensorIdControl, fanin_id, kControlSlot. cbn. apply Z.eqb_neq. specialize (Hr w ltac:(left)). lia. }
      apply IH. intros u Hu. apply Hr. by right. }
    cbn [app]. clear -Hport. induction (controlling_fanins_ v) as [|w l IH]; [done|]. cbn [map List.filter].
    assert (IsTensorIdControl (fanin_id g w) = true) as ->.
    { unfold IsTensorIdControl, fanin_id. cbn. apply Z.eqb_eq. apply Hport. left. }
    f_equal. apply IH. intros u Hu. apply Hport. by right. }
  exists (List.filter IsTensorIdControl tk). split; [|split].
  - rewrite Hd, Hids, <- (fi_regular _ _ _ _ _ _ _ _ I), Hsplit, List.filter_app, Hdr0, app_nil_r.
    apply controls_last_split. apply controls_last_take. apply I.
  - rewrite Hctl, map_map. cbn. apply (controls_NoDup ∅ ∅ g i v Hcore); [set_solver|done].
  - intros t. rewrite !list_elem_of_In, !filter_In, <- !list_elem_of_In. split.
    + intros [Ht Hc]. split; [|done]. rewrite Hids, <- (fi_perm _ _ _ _ _ _ _ _ I), Hsplit. apply elem_of_app. by left.
    + intros [Ht Hc]. split; [|done]. rewrite Hids, <- (fi_perm _ _ _ _ _ _ _ _ I), Hsplit in Ht.
      apply elem_of_app in Ht as [Ht|Ht]; [done|]. destruct (Hdr t Ht) as [_ Ho]. apply Hobs in Ho.
      apply list_elem_of_fmap in Ho as (w & Hn & Hw).
      assert (fanin_id g w = t) as <-.
      { unfold fanin_id. rewrite (Hport w Hw), <- Hn. destruct t. unfold IsTensorIdControl in Hc. cbn in *.
        apply Z.eqb_eq in Hc. by rewrite Hc. }
      assert (fanin_id g w ∈ List.filter IsTensorIdControl tk) as Hin by (rewrite Hctl; apply list_elem_of_fmap; eauto).
      apply list_elem_of_In, filter_In in Hin as [Hin _]. by apply list_elem_of_In.
Qed.

(** The view when the fanins of the first [m] nodes of [l] are entered. *)
Record built (l : list Def) (m : Z) g : Prop := {
  b_core : core_ok ∅ ∅ g;
  b_size : size_ (graph g) = size_ l;
  b_node : forall x d0, vget l x = Some d0 -> exists d v,
    vget (graph g) x = Some d /\ vget (nodes_ g) x = Some v /\ same_but_input d0 d /\
    (if bool_decide (x < m) then inputs_deduplicated d0 d /\ inputs_ok g d v
     else input d = input d0 /\ regular_fanins_ v = [] /\ controlling_fanins_ v = [])
}.

Lemma inputs_ok_ends g g' d v v' : inputs_ok g d v -> (forall x, name_of g' x = name_of g x) ->
  map ends (regular_fanins_ v') = map ends (regular_fanins_ v) ->
  map ends (controlling_fanins_ v') = map ends (controlling_fanins_ v) -> inputs_ok g' d v'.
Proof.
  unfold inputs_ok. intros -> Hn Hr Hc. rewrite !fanin_ids_ends, !map_app, Hr, Hc.
  f_equal; apply map_ext; intros e; unfold id_of_ends; by rewrite Hn.
Qed.

Lemma add_node_fanins_spec l m g d0 : built l m g -> vget l m = Some d0 ->
  Forall (fun t => -1 <= index t) (map ParseTensorName (input d0)) ->
  fanins_well_formed (map name l) d0 ->
  runs (add_node_fanins m (map ParseTensorName (input d0))) g (fun _ g' => built l (m + 1) g' /\ mutation_ g' = mutation_ g).
Proof.
  intros B Hd0 Hports [Hwf Hlast]. destruct (b_node _ _ _ B m d0 Hd0) as (d & v & Hd & Hv & Hsbi & Hnew).
  rewrite bool_decide_false in Hnew by lia. destruct Hnew as (Hin & Hr & Hc).
  pose proof (b_core _ _ _ B) as Hcore. pose proof (ok_names_ok _ _ _ Hcore) as Hnames.
  set (ids := map ParseTensorName (input d0)) in *.
  assert (forall x, name_of g x = default "" (name <$> vget l x)) as Hname.
  { intros x. unfold name_of. destruct (vget l x) as [e|] eqn:E.
    - destruct (b_node _ _ _ B x e E) as (e' & _ & -> & _ & Hs & _). cbn. apply Hs.
    - rewrite vget_None; [done|]. destruct (decide (0 <= x < size_ l)) as [Hx|Hx].
      + destruct (vget_ex l x Hx). congruence.
      + rewrite (b_size _ _ _ B). lia. }
  assert (Forall (fanin_known g m) ids) as Hknown.
  { apply Forall_forall. intros t Ht. rewrite Forall_forall in Hports. split; [by apply Hports|].
    apply list_elem_of_fmap in Ht as (s & -> & Hs). rewrite Forall_forall in Hwf. destruct (Hwf s Hs) as [Hne Hex].
    split; [by rewrite Hname, Hd0|]. apply list_elem_of_fmap in Hex as (e & -> & [x He]%elem_of_vget).
    destruct (b_node _ _ _ B x e He) as (e' & _ & He' & _ & Hse & _). exists x. apply (ok_names _ Hnames).
    exists e'. split; [done|]. apply Hse. }
  assert (fan_inv g m ids g 0 (size_ ids - 1) ids ∅) as I.
  { split; try done.
    - intros x v0 _ Hv0. exists v0. done.
    - exists d, d. split_and!; try done. by rewrite Hin.
    - exists v. rewrite Hr, Hc. split; [done|]. split; [by rewrite take_0|]. intros s. split; [set_solver|].
      intros Hs. by apply elem_of_nil in Hs.
    - intros b t Hb Ht. apply vget_Some in Ht. lia.
    - pose proof (size_nonneg ids). lia. }
  unfold add_node_fanins. cbv zeta. run_step.
  eapply runs_mono; [apply (add_fanins_loop_spec g m ids Hknown _ _ _ _ _ _ I)|].
  { unfold size_. lia. }
  intros last g1 (nf & obs & I1).
  destruct (fi_def _ _ _ _ _ _ _ _ I1) as (dd & d1 & Hdd & Hd1 & Hsbi1 & Hparse).
  assert (dd = d) as -> by congruence. destruct (fi_node _ _ _ _ _ _ _ _ I1) as (v1 & Hv1 & _).
  destruct (fi_pos _ _ _ _ _ _ _ _ I1) as [[Hl0 _] Hl1].
  assert (size_ nf = size_ ids) as Hsz.
  { unfold size_. by rewrite (fi_perm _ _ _ _ _ _ _ _ I1). }
  destruct (fi_keys _ _ _ _ _ _ _ _ I1) as (Hk1 & Hk2 & Hk3 & Hk4).
  assert (forall x, name_of g1 x = name_of g x) as Hname1 by (intros x; by eapply fi_name).
  (* the inputs that are left *)
  assert (forall g' d', core_ok ∅ ∅ g' -> graph g' = vset (graph g1) m d' -> nodes_ g' = nodes_ g1 ->
    (forall x, name_of g' x = name_of g x) -> same_but_input d d' ->
    map ParseTensorName (input d') = take (Z.to_nat (last + 1)) nf -> built l (m + 1) g') as Hfinish.
  { intros g' d' Hcore' Hg' Hn' Hname' Hsd Hp'.
    assert (0 <= m < size_ (graph g1)) as Hm by (by eapply vget_Some). split.
    - done.
    - rewrite Hg', size_vset, <- (b_size _ _ _ B), <- (size_map name (graph g1)), Hk1, size_map. done.
    - intros x e He. destruct (decide (x = m)) as [->|Hx].
      + assert (e = d0) as -> by congruence. exists d', v1. rewrite Hg', Hn', vget_vset_eq by done.
        split; [done|]. split; [done|]. split.
        * destruct Hsbi as (?&?&?&?&?), Hsd as (?&?&?&?&?). split_and!; congruence.
        * rewrite bool_decide_true by lia. destruct (fi_done g m ids g1 last nf obs d0 d' v1 I1 Hv1 eq_refl Hp') as [H1 H2].
          split; [done|]. eapply inputs_ok_ends; [exact H2| |done|done]. intros y. by rewrite Hname', Hname1.
      + destruct (b_node _ _ _ B x e He) as (e1 & u & He1 & Hu & Hse & Hrest).
        destruct (fi_nodes _ _ _ _ _ _ _ _ I1 x u Hx Hu) as (u' & Hu' & Hur & Huc).
        exists e1, u'. rewrite Hg', Hn', vget_vset_ne, (fi_graph _ _ _ _ _ _ _ _ I1 x Hx) by done.
        split; [done|]. split; [done|]. split; [done|].
        rewrite (bool_decide_ext (x < m + 1) (x < m)) by lia. case_bool_decide.
        * destruct Hrest as [H1 H2]. split; [done|]. by eapply inputs_ok_ends.
        * destruct Hrest as (H1 & H2 & H3). split; [done|].
          rewrite H2 in Hur. rewrite H3 in Huc. by destruct (regular_fanins_ u'), (controlling_fanins_ u'). }
  destruct (Z.ltb_spec last (size_ ids - 1)) as [Hlt|Hge].
  - run_step. eapply runs_node_def_at; [done|]. eapply runs_update_node_def; [done|].
    pose proof (same_keys_set_input g1 m d1 (truncate (input d1) (last + 1)) Hd1) as Hk.
    split; [|cbn; by apply I1]. eapply Hfinish; [|done|done|..].
    + eapply core_ok_keys; [apply I1|done].
    + intros x. rewrite (same_keys_name g1) by done. done.
    + done.
    + cbn [input set_input]. unfold truncate. by rewrite <- firstn_map, Hparse.
  - apply runs_ret. split; [|apply I1]. apply (Hfinish g1 d1); try done.
    + apply I1.
    + by rewrite vset_id.
    + rewrite Hparse, take_ge; [done|]. unfold size_ in *. lia.
Qed.

Lemma AddFaninsInternal_spec l rest : forall m g, built l m g -> rest = drop (Z.to_nat m) l -> 0 <= m ->
  Forall (fun d => Forall (fun t => -1 <= index t) (map ParseTensorName (input d))) l ->
  Forall (fanins_well_formed (map name l)) l ->
  runs (AddFaninsInternal m (map (fun d => map ParseTensorName (input d)) rest)) g
    (fun _ g' => built l (size_ l) g' /\ mutation_ g' = mutation_ g).
Proof.
  induction rest as [|d rest IH]; intros m g B Hrest Hm Hports Hwf; cbn [map AddFaninsInternal].
  - apply runs_ret. split; [|done]. assert (size_ l <= m) as Hle.
    { symmetry in Hrest. apply (f_equal length) in Hrest. rewrite length_drop in Hrest. simpl in Hrest. unfold size_. lia. }
    split; try apply B. intros x d0 Hd0. destruct (b_node _ _ _ B x d0 Hd0) as (d & v & ? & ? & ? & Hx).
    exists d, v. split_and!; try done. apply vget_Some in Hd0. rewrite bool_decide_true in Hx by lia.
    by rewrite bool_decide_true by lia.
  - assert (vget l m = Some d) as Hd.
    { unfold vget. destruct (Z.ltb_spec m 0); [lia|].
      rewrite <- (Nat.add_0_r (Z.to_nat m)), <- lookup_drop, <- Hrest. done. }
    pose proof (proj1 (Forall_forall _ _) Hports) as Hp. pose proof (proj1 (Forall_forall _ _) Hwf) as Hw.
    assert (d ∈ l) as Hdl by (apply elem_of_vget; eauto).
    run_step. eapply runs_mono; [apply (add_node_fanins_spec l m g d); auto|]. intros _ g' [B' Hmu].
    eapply runs_mono; [apply (IH (m + 1)); try done|].
    + rewrite Z2Nat.inj_add, <- drop_drop, <- Hrest by lia. done.
    + lia.
    + intros _ g'' [B'' Hmu']. split; [done|]. congruence.
Qed.

(** ** The constructor *)

(** The ports of the inputs are no less than that of a controlling fanin. *)
Definition ports_in_range d : Prop := Forall (fun s => -1 <= index (ParseTensorName s)) (input d).

Lemma unconnected_core l g : nodes_added l g -> graph g = l -> NoDup (map name l) -> NoDup (map address l) ->
  core_ok ∅ ∅ g.
Proof.
  intros Hg Hl Hnames Haddr.
  assert (forall i v, vget (nodes_ g) i = Some v -> v = make_NodeView i) as Hnode.
  { intros i v. rewrite (na_nodes _ _ Hg), vget_map. destruct (vget (count_up _) i) as [j|] eqn:E; [|done].
    apply vget_count_up in E as [-> _]. by intros [= <-]. }
  assert (forall i k, fanin_at g i k = None) as Hfi.
  { intros i k. unfold fanin_at. destruct (vget (nodes_ g) i) as [v|] eqn:E; [|done].
    rewrite (Hnode _ _ E). apply vget_nil. }
  assert (forall i k, control_fanin_at g i k = None) as Hci.
  { intros i k. unfold control_fanin_at. destruct (vget (nodes_ g) i) as [v|] eqn:E; [|done].
    rewrite (Hnode _ _ E). apply vget_nil. }
  split.
  - split.
    + by rewrite (na_nodes _ _ Hg), Hl, size_map, size_count_up by apply size_nonneg.
    + intros i v Hv. by rewrite (Hnode _ _ Hv).
    + rewrite Hl. apply Hg.
    + rewrite Hl. intros i j d e Hi Hj Hde. eapply (NoDup_vget _ Haddr); rewrite vget_map.
      * by rewrite Hi.
      * by rewrite Hj, Hde.
  - split.
    + split; [by intros ??? H; rewrite Hfi in H|]. intros j p f w. unfold fanout_at.
      destruct (vget (nodes_ g) j) as [v|] eqn:E; [|done]. rewrite (Hnode _ _ E). cbn -[vget]. by rewrite vget_nil.
    + intros j v Hv. by rewrite (Hnode _ _ Hv).
  - split; [by intros ??? H; rewrite Hci in H|]. intros j p f w. unfold control_fanout_by_port, control_fanout_at.
    destruct (p =? kControlSlot); [|done].
    destruct (vget (nodes_ g) j) as [v|] eqn:E; [|done]. rewrite (Hnode _ _ E). cbn -[vget]. by rewrite vget_nil.
  - intros i v Hv. rewrite (Hnode _ _ Hv). split; cbn.
    + intros j q _. done.
    + intros s k. split; [done|]. intros (w & Hw & _). by rewrite vget_nil in Hw.
    + intros w Hw. by apply elem_of_nil in Hw.
    + intros a p [c Hc]. by rewrite lookup_empty in Hc.
Qed.

Lemma HasNode_names l g : nodes_added l g -> forall s, HasNode g s = true <-> s ∈ map name l.
Proof.
  intros Hg s. unfold HasNode. rewrite bool_decide_eq_true. split.
  - intros [i (d & Hd & <-)%(na_names _ _ Hg)]. apply list_elem_of_fmap. exists d. split; [done|]. apply elem_of_vget. eauto.
  - intros (d & -> & [i Hd]%elem_of_vget)%list_elem_of_fmap. exists i. apply (na_names _ _ Hg). eauto.
Qed.

Lemma construct_spec l : NoDup (map address l) -> Forall ports_in_range l ->
  runs (construct (AttrValue := AttrValue)) (mk_GraphView l [] ∅ empty_mutation) (fun st g =>
    (status_ok st = true <-> graph_well_formed l) /\
    (status_ok st = false -> g = mk_GraphView l [] ∅ empty_mutation) /\
    (status_ok st = true -> view_ok g /\ mutation_ g = empty_mutation /\
       Forall2 (fun d0 d => same_but_input d0 d /\ inputs_deduplicated d0 d) l (graph g))).
Proof.
  intros Haddr Hports. unfold construct. run_step. run_step. run_step.
  eapply runs_mono; [apply (add_unique_nodes_spec l [])|].
  { split; [done| |done]. intros s i. cbn [node_index_by_name_]. rewrite lookup_empty. split; [done|].
    intros (d & Hd & _). by rewrite vget_nil in Hd. }
  intros [n|] g (Hgr & Hmu & Hg); cbn [app graph] in *.
  - run_step. apply runs_modify, runs_ret. split; [split; [done|intros [H _]; done]|]. split; [|done].
    intros _. destruct g. cbn in *. by subst.
  - destruct Hg as [Hg Hnd]. specialize (Hnd (NoDup_nil_2 (A := string))). unfold CheckFaninsInternal. run_step. run_step. run_step.
    pose proof (check_nodes_spec g (map name l) l (HasNode_names l g Hg)) as Hc. rewrite Hgr.
    destruct (check_nodes g l) as [s|fanins]; apply runs_ret.
    + destruct Hc as [Hs Hn]. run_step. apply runs_modify, runs_ret. split; [split; [congruence|intros [_ H]; done]|].
      split; [|congruence]. intros _. destruct g. cbn in *. by subst.
    + destruct Hc as [-> Hwf]. run_step.
      assert (built l 0 g) as B.
      { split; [by eapply unconnected_core|by rewrite Hgr|]. intros x d Hd. exists d, (make_NodeView x).
        rewrite Hgr. pose proof (vget_Some _ _ _ Hd) as Hx. split; [done|]. split; [|split; [done|]].
        - rewrite (na_nodes _ _ Hg), vget_map. destruct (vget_ex (count_up (size_ l)) x) as [y Hy].
          { rewrite size_count_up; [done|apply size_nonneg]. }
          rewrite Hy. by apply vget_count_up in Hy as [-> _].
        - by rewrite bool_decide_false by lia. }
      eapply runs_mono; [apply (AddFaninsInternal_spec l l 0 g); try done|].
      { eapply Forall_impl; [exact Hports|]. intros d Hd. by apply Forall_map. }
      intros _ g' [B' Hmu']. run_step. run_step. apply runs_ret. split; [done|]. split; [done|]. intros _.
      assert (core_ok ∅ ∅ (set_mutation empty_mutation g')) as Hcore'.
      { eapply core_ok_keys; [apply (b_core _ _ _ B')|done]. }
      assert (forall x d, vget (graph g') x = Some d -> exists d0 v, vget l x = Some d0 /\ vget (nodes_ g') x = Some v /\
        same_but_input d0 d /\ inputs_deduplicated d0 d /\ inputs_ok g' d v) as Hnode.
      { intros x d Hd. pose proof (vget_Some _ _ _ Hd) as Hx. rewrite (b_size _ _ _ B') in Hx.
        destruct (vget_ex l x Hx) as [d0 Hd0]. destruct (b_node _ _ _ B' x d0 Hd0) as (d' & v & Hd' & Hv & Hs & Hrest).
        assert (d' = d) as -> by congruence. rewrite bool_decide_true in Hrest by lia. destruct Hrest. exists d0, v. done. }
      split; [split; [done|]|split; [done|]].
      * intros x d v Hd Hv. destruct (Hnode x d Hd) as (d0 & v' & _ & Hv' & _ & _ & Hin).
        assert (v' = v) as -> by (cbn in Hv; congruence). done.
      * apply Forall2_same_length_lookup_2; [pose proof (b_size _ _ _ B') as Hs; unfold size_ in Hs; cbn; lia|].
        intros x d0 d Hd0 Hd. rewrite <- vget_nat in Hd0, Hd. destruct (Hnode _ d Hd) as (d1 & v & Hd1 & _ & H1 & H2 & _).
        assert (d1 = d0) as -> by congruence. done.
Qed.
End build.
