(* ===== verification/GraphTheorems.v ===== *)
(** * GraphTheorems: what the mutable view of a graph guarantees

    The constructor decides whether a graph is well formed and then gives a
    consistent view; the lookups of a consistent view answer for the graph.
    The instances at the end build a small graph and sort it. *)

From S2P Require Import Prelude Vec TensorName GraphView GraphInv GraphBuild TopoSort TopoTheorems.
#[local] Open Scope string_scope.
#[local] Open Scope list_scope.
#[local] Open Scope Z_scope.

(** ** Construction *)

(** C15: The constructor of [MutableGraphView] returns on every graph whose
    inputs name no port below that of a control edge.  The status is OK if and
    only if the graph is well formed: no name is used twice, every input names
    another node of the graph and no regular input follows a controlling one.
    Then the view is consistent (names, indices, the two ends of every edge,
    fanin counts, the positions of controlling fanins and the inputs agree), and
    each node is what it was except that every control edge is kept once.  On an
    error the view is empty and the graph is as before. *)
Theorem make_MutableGraphView_correct {AttrValue} (l : list (NodeDef AttrValue)) :
  NoDup (map address l) -> Forall ports_in_range l ->
  exists st g, make_MutableGraphView l = Ok (st, g) /\
    (status_ok st = true <-> graph_well_formed l) /\
    (status_ok st = false -> g = mk_GraphView l [] ∅ empty_mutation) /\
    (status_ok st = true -> view_ok g /\ mutation_ g = empty_mutation /\
       Forall2 (fun d0 d => same_but_input d0 d /\ inputs_deduplicated d0 d) l (graph g)).
Proof. intros Ha Hp. exact (construct_spec l Ha Hp). Qed.

(** The view that a construction without error gives is consistent. *)
Lemma constructed_ok {AttrValue} (l : list (NodeDef AttrValue)) g :
  NoDup (map address l) -> Forall ports_in_range l -> make_MutableGraphView l = Ok (Status_OK, g) ->
  view_ok g /\ mutation_ g = empty_mutation.
Proof.
  intros Ha Hp Hg. destruct (construct_spec l Ha Hp) as (st & g' & Hg' & _ & _ & H).
  unfold make_MutableGraphView in Hg. rewrite Hg in Hg'. injection Hg' as <- <-. by destruct (H eq_refl) as (? & ? & _).
Qed.

(** ** Instances

    A graph whose nodes stand in the reverse of a topological order; node [c]
    depends twice on [a] by a control edge. *)

Definition example_nodes : list (NodeDef unit) := [
  mk_NodeDef 100 "c" "AddV2" "" ["b:1"; "a"; "^a"; "^b"; "^a"] ∅;
  mk_NodeDef 101 "b" "Split" "" ["a"] ∅;
  mk_NodeDef 102 "a" "Const" "" [] ∅ ].

(** A cycle of two nodes. *)
Definition cyclic_nodes : list (NodeDef unit) := [
  mk_NodeDef 100 "x" "Identity" "" ["y"] ∅;
  mk_NodeDef 101 "y" "Identity" "" ["x"] ∅ ].

Definition built_view (l : list (NodeDef unit)) : MutableGraphView unit :=
  match make_MutableGraphView l with Ok (_, g) => g | Fault _ => mk_GraphView [] [] ∅ empty_mutation end.

(** The assumptions of the theorems on a concrete graph. *)
Ltac check_graph :=
  lazymatch goal with
  | |- NoDup _ => apply (bool_decide_unpack _); vm_compute; exact I
  | |- Forall ports_in_range _ => repeat constructor; vm_compute; congruence
  | |- _ => vm_compute; reflexivity
  end.

Lemma example_view_ok : view_ok (built_view example_nodes) /\ mutation_ (built_view example_nodes) = empty_mutation.
Proof. apply (constructed_ok example_nodes); check_graph. Qed.

Lemma cyclic_view_ok : view_ok (built_view cyclic_nodes) /\ mutation_ (built_view cyclic_nodes) = empty_mutation.
Proof. apply (constructed_ok cyclic_nodes); check_graph. Qed.

Lemma make_MutableGraphView_correct_witness :
  (exists g, make_MutableGraphView example_nodes = Ok (Status_OK, g) /\ view_ok g /\
     map input (graph g) = [["b:1"; "a"; "^a"; "^b"]; ["a"]; []]) /\
  graph_well_formed example_nodes.
Proof.
  destruct (make_MutableGraphView_correct example_nodes ltac:(check_graph) ltac:(check_graph)) as (st & g & Hg & Hwf & _ & H).
  assert (st = Status_OK) as -> by (apply (f_equal (fun r => match r with Ok (s, _) => s | Fault _ => st end)) in Hg; by vm_compute in Hg).
  split; [|by apply Hwf]. exists g. split; [done|]. split; [by apply H|].
  apply (f_equal (fun r => match r with Ok (_, g) => map input (graph g) | Fault _ => [] end)) in Hg. by vm_compute in Hg.
Defined.

Lemma SortTopologically_decides_witness :
  (exists st g', SortTopologically false [] (built_view example_nodes) = Ok (st, g') /\ status_ok st = true /\
     view_ok g' /\ map name (graph g') = ["a"; "b"; "c"]) /\
  ~ sortable (built_view cyclic_nodes) [].
Proof.
  split.
  - destruct (SortTopologically_decides (built_view example_nodes) []) as (st & g' & Hr & _ & _ & H);
      [apply example_view_ok|vm_compute; reflexivity..|]. exists st, g'. split; [done|].
    assert (status_ok st = true /\ map name (graph g') = ["a"; "b"; "c"]) as [Hst Hn].
    { apply (f_equal (fun r => match r with Ok (s, g) => (s, map name (graph g)) | Fault _ => (st, []) end)) in Hr.
      set (names := map name (graph g')) in *. clearbody names. vm_compute in Hr. by injection Hr as <- <-. }
    split; [done|]. split; [by apply H|done].
  - destruct (SortTopologically_decides (built_view cyclic_nodes) []) as (st & g' & Hr & H & _);
      [apply cyclic_view_ok|vm_compute; reflexivity..|]. intros Hs%H.
    apply (f_equal (fun r => match r with Ok (s, g) => status_ok s | Fault _ => true end)) in Hr.
    vm_compute in Hr. vm_compute in Hs. congruence.
Defined.

Lemma SortTopologically_ignoring_cycles_witness :
  exists g', SortTopologically true [] (built_view cyclic_nodes) = Ok (Status_OK, g') /\ view_ok g'.
Proof.
  destruct (SortTopologically_ignoring_cycles (built_view cyclic_nodes) []) as (g' & o & Hr & _ & Hv);
    [apply cyclic_view_ok|vm_compute; reflexivity..|]. eauto.
Defined.
