(* ===== verification/GraphBulk.v ===== *)
(** * GraphBulk: removing many fanins of a node

    The loops over [RemoveRegularFaninFanoutInternal] and
    [RemoveControllingFaninFanoutInternal] and the truncation that follows them;
    [RemoveAllFaninFanoutInternal] leaves a node without fanins. *)

From S2P Require Import Prelude TensorName Vec GraphView GraphInv GraphEdit GraphEditProofs.
#[local] Open Scope list_scope.

(** ** Controlling fanins of a consistent view

    The removal of controlling fanins: [RemoveControllingFaninFanoutInternal],
    [RemoveControllingFaninInternal] with its exchange of the last fanin, and the
    addition through [AddControllingFaninInternal]. *)

(** ** Taking single edges out of a consistent view

    [RemoveRegularFaninFanoutInternal] and [RemoveControllingFaninFanoutInternal]
    leave a hole where the fanin was; [UpdateRegularFaninInternal] fills it, and
    [RemoveControllingFaninInternal] moves the last fanin into it. *)

(** ** Vectors and ports *)

Lemma pop_back_spec {A} (l : list A) : 0 < size_ l -> exists l', pop_back l = Ok l' /\ size_ l' = size_ l - 1 /\
  forall c, vget l' c = if bool_decide (c = size_ l - 1) then None else vget l c.
Proof.
  destruct (snoc_cases l) as [->|(l' & x & ->)]; [done|]. intros _. exists l'. rewrite size_snoc.
  split; [apply pop_back_snoc|]. split; [lia|]. intros c. rewrite vget_snoc. replace (size_ l' + 1 - 1) with (size_ l') by lia.
  rewrite (bool_decide_ext (size_ l' = c) (c = size_ l')) by done. case_bool_decide; [|done].
  apply vget_None. lia.
Qed.

(** An element is exchanged with the last and removed. *)
Definition dropped {A} (l : list A) (f : Z) (wl : A) (l' : list A) : Prop :=
  size_ l' = size_ l - 1 /\
  forall c, vget l' c = if bool_decide (c = size_ l - 1) then None else if bool_decide (c = f) then Some wl else vget l c.

Lemma drop_last_spec {A} (l : list A) f wl : 0 <= f < size_ l -> vget l (size_ l - 1) = Some wl ->
  exists l1 l', (if f <? size_ l - 1 then swap_elements l (size_ l - 1) f else mret l) = Ok l1 /\ pop_back l1 = Ok l' /\
    dropped l f wl l'.
Proof.
  intros Hf Hl. destruct (vget_ex l f Hf) as [x Hx]. destruct (Z.ltb_spec f (size_ l - 1)) as [Hlt|Hge].
  - rewrite (swap_elements_spec _ _ _ _ _ Hl Hx). eexists. destruct (pop_back_spec (vset (vset l (size_ l - 1) x) f wl)) as (l' & Hp & Hs & Hv).
    { rewrite !size_vset. lia. }
    rewrite !size_vset in Hs, Hv. exists l'. split; [done|]. split; [done|]. split; [done|]. intros c. rewrite Hv.
    case_bool_decide as E; [done|]. rewrite vget_vset by (by rewrite size_vset). rewrite vget_vset_ne by done.
    rewrite (bool_decide_ext (f = c) (c = f)) by done. done.
  - exists l. destruct (pop_back_spec l) as (l' & Hp & Hs & Hv); [lia|]. exists l'. split; [done|]. split; [done|].
    split; [done|]. intros c. rewrite Hv. case_bool_decide; [done|]. rewrite bool_decide_false by lia. done.
Qed.

Lemma last_fanout_loop_spec r : exists n, forall len, last_fanout_loop r len = len - Z.of_nat n /\
  take n r = replicate n [] /\ (n <= length r)%nat.
Proof.
  induction r as [|[|w l] r [n IH]].
  - exists 0%nat. intros len. simpl. split; [lia|done].
  - exists (S n). intros len. destruct (IH (len - 1)) as (H1 & H2 & H3). cbn [last_fanout_loop take replicate length].
    split; [lia|]. split; [by rewrite H2|lia].
  - exists 0%nat. intros len. simpl. split; [lia|]. split; [done|lia].
Qed.

(** Only empty ports are cut off. *)
Lemma trim_ports_split ports : exists n, ports = trim_ports ports ++ replicate n [].
Proof.
  destruct (last_fanout_loop_spec (rev ports)) as [n Hn]. exists n. unfold trim_ports, size_.
  destruct (Hn (Z.of_nat (length ports))) as (-> & H & Hl). rewrite length_rev in Hl.
  replace (Z.to_nat (Z.of_nat (length ports) - Z.of_nat n)) with (length ports - n)%nat by lia.
  rewrite <- (take_drop (length ports - n) ports) at 1. f_equal.
  rewrite firstn_rev in H. apply (f_equal (@rev _)) in H. rewrite rev_involutive in H. rewrite H.
  clear. induction n as [|n IH]; [done|]. simpl. rewrite IH. by rewrite <- replicate_cons_app.
Qed.

Lemma port_at_trim ports q c : port_at (trim_ports ports) q c = port_at ports q c.
Proof.
  destruct (trim_ports_split ports) as [n Hn]. rewrite Hn at 2. unfold port_at.
  destruct (decide (q < size_ (trim_ports ports))) as [Hq|Hq]; [by rewrite vget_app_l|].
  rewrite vget_app_r, (vget_None (trim_ports ports)) by lia. cbn [mbind option_bind].
  destruct (vget (replicate n _) _) as [l|] eqn:E; [|done]. cbn [mbind option_bind].
  assert (l ∈ replicate n (@nil MutableFaninView)) as Hl by (apply elem_of_vget; eauto).
  apply elem_of_replicate in Hl as [-> _]. by rewrite vget_nil.
Qed.

Lemma Zsum_trim ports : Zsum size_ (trim_ports ports) = Zsum size_ ports.
Proof.
  destruct (trim_ports_split ports) as [n Hn]. rewrite Hn at 2. rewrite Zsum_app.
  assert (Zsum size_ (replicate n (@nil MutableFaninView)) = 0); [|lia].
  clear Hn. induction n as [|n IH]; [done|]. simpl. rewrite IH. done.
Qed.

Section remove.
  Context {AttrValue : Type}.
  #[local] Notation G := (MutableGraphView AttrValue).
  Implicit Type g : G.

(** ** A regular fanin loses its entry *)

(** Fanin [k] of node [i], output [p] of node [j] entered at [f], is taken out;
    [wl], at [L], is the last entry of that output. *)
Definition drop_fanin_rel (H : gset (Z * Z)) g (i k j p f L : Z) (wl : MutableFaninView)
    (x : Z) (v v' : MutableNodeView) : Prop :=
  same_but_regular v v' /\
  (forall y, vget (regular_fanins_ v') y =
     if bool_decide (f <> L /\ (x, y) = (fanin_node_index wl, fanin_index_ wl)) then Some (mk_FanoutView j p f)
     else vget (regular_fanins_ v) y) /\
  (forall q c, port_at (regular_fanouts_by_port_ v') q c =
     if bool_decide ((x, q, c) = (j, p, L)) then None
     else if bool_decide ((x, q, c) = (j, p, f)) then Some wl else port_at (regular_fanouts_by_port_ v) q c) /\
  num_regular_fanouts_ v' - Zsum size_ (regular_fanouts_by_port_ v') =
    num_regular_fanouts_ v - Zsum size_ (regular_fanouts_by_port_ v) /\
  fanins_count_ v' = (if bool_decide (x = i) then DecrementFaninCount (fanins_count_ v) (address_of g j, p)
                      else fanins_count_ v).

(** Only positions of entries change. *)
Lemma ends_pointwise l l' : (forall y, ends <$> vget l' y = ends <$> vget l y) -> map ends l' = map ends l.
Proof. intros Hl. apply vget_ext. intros y. by rewrite !vget_map. Qed.

Lemma core_drop_fanin H Hc g g' i k j p f L wl : core_ok H Hc g -> frame g g' ->
  nodes_rel g g' (drop_fanin_rel H g i k j p f L wl) -> fanin_at g i k = Some (mk_FanoutView j p f) ->
  (i, k) ∉ H -> fanout_at g j p L = Some wl ->
  core_ok ({[(i, k)]} ∪ H) Hc g' /\ ends_step g g' i id id.
Proof.
  intros Hok Hf Hn Hk Hlive HL. pose proof Hf as (Eg & En & Em & Es). pose proof (ok_names_ok _ _ _ Hok) as Hnames.
  destruct (ok_fanout _ _ (ok_edges _ _ _ Hok) _ _ _ _ HL) as [Hpl Hfl]. rewrite Hpl in Hfl.
  assert (forall x v v', vget (nodes_ g) x = Some v -> drop_fanin_rel H g i k j p f L wl x v v' ->
    map ends (regular_fanins_ v') = map ends (regular_fanins_ v)) as Hends.
  { intros x v v' Hv (_ & Hr & _). apply ends_pointwise. intros y. rewrite Hr. case_bool_decide as E; [|done].
    destruct E as [_ E]. injection E as -> ->. rewrite (fanin_at_node _ _ _ _ Hv) in Hfl. by rewrite Hfl. }
  split; [split|].
  - eapply names_ok_frame; [done..|]. intros x v v' (Hs & _). apply Hs.
  - split.
    + apply (matching_remove _ _ _ (fanin_at g) (fanout_at g) _ _ i k j p f L wl); [apply Hok|done|done|done|..].
      * intros x y. destruct (vget (nodes_ g) x) as [v|] eqn:E.
        -- destruct (Hn x v E) as (v' & Hv' & _ & Hr & _).
           by rewrite (fanin_at_node _ _ _ _ E), (fanin_at_node _ _ _ _ Hv').
        -- unfold fanin_at in *. rewrite (frame_None g g'), E by done. cbn.
           rewrite bool_decide_false; [done|]. intros [_ E1]. injection E1 as -> ->. by rewrite E in Hfl.
      * intros y q c. destruct (vget (nodes_ g) y) as [v|] eqn:E.
        -- destruct (Hn y v E) as (v' & Hv' & _ & _ & Hr & _).
           by rewrite (fanout_at_node _ _ _ _ _ E), (fanout_at_node _ _ _ _ _ Hv').
        -- unfold fanout_at in *. rewrite (frame_None g g'), E by done. cbn.
           case_bool_decide; [done|]. rewrite bool_decide_false; [done|]. intros E1. injection E1 as -> -> ->.
           by rewrite E in HL.
    + intros x v' Hv'. destruct (frame_node _ _ _ _ _ Hf Hn Hv') as (v & Hv & _ & _ & _ & Hnum & _).
      pose proof (ok_num_fanouts _ _ (ok_edges _ _ _ Hok) x v Hv). lia.
  - eapply controls_ok_frame; [apply Hok|done|done|]. by intros x v v' (Hs & _).
  - intros x v' Hv'. destruct (frame_node _ _ _ _ _ Hf Hn Hv') as (v & Hv & Hrel).
    pose proof (Hends x v v' Hv Hrel) as He. destruct Hrel as (Hs & _ & _ & _ & Hcnt).
    pose proof (ok_index_ok _ _ _ Hok x v Hv) as Hix. destruct Hs as (_ & _ & Hctl & _ & Hctlx).
    destruct (decide (x = i)) as [->|Hx].
    2:{ rewrite bool_decide_false in Hcnt by done. eapply index_ok_ext; [exact Hix|done|..]; try done; [|by rewrite Hctl].
        intros y. rewrite elem_of_union, elem_of_singleton. split; [intros [E|?]; [congruence|done]|by right]. }
    rewrite bool_decide_true in Hcnt by done. rewrite (fanin_at_node _ _ _ _ Hv) in Hk.
    assert (forall a b, occurrences a b (live ({[(i, k)]} ∪ H) i 0 (regular_fanins_ v')) =
      occurrences a b (live H i 0 (regular_fanins_ v)) - (if bool_decide ((j, p) = (a, b)) then 1 else 0)) as Hocc.
    { intros a b. rewrite (occurrences_live_hole H i k (mk_FanoutView j p f) a b (regular_fanins_ v) 0)
        by (rewrite ?Z.sub_0_r; done).
      rewrite (occurrences_ends a b (live ({[(i, k)]} ∪ H) i 0 (regular_fanins_ v)) (live ({[(i, k)]} ∪ H) i 0 (regular_fanins_ v')))
        by (by apply live_ends).
      unfold ends. cbn [fanout_node_index fanout_port_index]. lia. }
    assert (0 <= j < size_ (graph g)) as Hj.
    { apply (ok_fanin_range _ _ _ _ _ Hix (mk_FanoutView j p f)). apply elem_of_app. left. apply elem_of_vget. eauto. }
    split.
    + intros a b Ha. rewrite Eg in Ha. replace (address_of g' a) with (address_of g a) by (unfold address_of; by rewrite Eg).
      pose proof (ok_count _ _ _ _ _ Hix j p Hj) as Hjp. cbv zeta in Hjp. rewrite occurrences_app in Hjp.
      pose proof (Hocc j p) as Hocc1. rewrite bool_decide_true in Hocc1 by done.
      pose proof (occurrences_nonneg j p (live ({[(i, k)]} ∪ H) i 0 (regular_fanins_ v'))).
      pose proof (occurrences_nonneg j p (live Hc i 0 (controlling_fanins_ v))).
      destruct (Z.eqb_spec (occurrences j p (live H i 0 (regular_fanins_ v)) + occurrences j p (live Hc i 0 (controlling_fanins_ v))) 0); [lia|].
      rewrite Hcnt, (decrement_count _ _ _ _ Hjp), Hctl. cbv zeta. rewrite occurrences_app, Hocc.
      pose proof (ok_count _ _ _ _ _ Hix a b Ha) as Hab. cbv zeta in Hab. rewrite occurrences_app in Hab.
      assert ((address_of g j, p) = (address_of g a, b) <-> (j, p) = (a, b)) as Hiff.
      { pose proof (address_inj g j a Hnames Hj Ha). split; intros [= Ha1 Ha2]; f_equal; intuition congruence. }
      rewrite (bool_decide_ext _ _ Hiff). case_bool_decide as E.
      * injection E as <- <-. case_cmp; cbn; try lia; f_equal; lia.
      * rewrite Hab, Z.sub_0_r. done.
    + intros s y. rewrite Hctlx, Hctl, (ok_control_index _ _ _ _ _ Hix s y). unfold name_of. by rewrite Eg.
    + intros w. rewrite Eg, Hctl. intros Hw. assert (ends w ∈ map ends (regular_fanins_ v ++ controlling_fanins_ v)) as Hin.
      { rewrite map_app, <- He, <- map_app. apply list_elem_of_fmap. eauto. }
      apply list_elem_of_fmap in Hin as (w' & [= Hnw _] & Hin). rewrite Hnw. by apply (ok_fanin_range _ _ _ _ _ Hix).
    + rewrite Hcnt, Eg. apply count_known_decrement, Hix.
  - split; try apply Hf. intros x v Hv. destruct (Hn x v Hv) as (v' & Hv' & Hrel). exists v'. split; [done|].
    pose proof (Hends x v v' Hv Hrel) as He. destruct Hrel as ((? & ? & Hctl & _) & _).
    split; [done|]. split; [done|]. rewrite He, Hctl. by case_bool_decide.
Qed.

(** What [drop_regular_fanout] leaves: the fanin of the last entry knows its new
    position. *)
Lemma drop_regular_fanout_spec g l f wl j p vl (Q : list MutableFaninView -> G -> Prop) :
  0 <= f < size_ l -> vget l (size_ l - 1) = Some wl -> vget (nodes_ g) (fanin_node_index wl) = Some vl ->
  vget (regular_fanins_ vl) (fanin_port_index wl) = Some (mk_FanoutView j p (size_ l - 1)) ->
  (forall l' g2, dropped l f wl l' -> frame g g2 ->
    (forall x u, vget (nodes_ g) x = Some u -> vget (nodes_ g2) x = Some
      (if bool_decide (f <> size_ l - 1 /\ x = fanin_node_index wl)
       then set_regular_fanins (vset (regular_fanins_ u) (fanin_port_index wl) (mk_FanoutView j p f)) u else u)) -> Q l' g2) ->
  runs (drop_regular_fanout l f) g Q.
Proof.
  intros Hf Hwl Hvl Hw HQ. destruct (drop_last_spec l f wl Hf Hwl) as (l1 & l' & Hl1 & Hl' & Hd).
  pose proof (vget_Some _ _ _ Hvl) as Hr. unfold drop_regular_fanout.
  destruct (Z.ltb_spec f (size_ l - 1)) as [Hlt|Hge].
  - run_step. run_step. eapply runs_at; [exact Hwl|]. run_step. eapply runs_node_at; [exact Hvl|].
    run_step. eapply runs_at; [exact Hw|]. run_step. eapply runs_update_node; [exact Hvl|].
    eapply runs_lift; [exact Hl1|]. eapply runs_lift; [exact Hl'|]. apply HQ; [done|split_and!; cbn; rewrite ?size_vset; done|].
    intros x u Hu. cbn [nodes_ set_nodes fanout_node_index fanout_port_index]. rewrite vget_vset by done.
    case_bool_decide as E.
    + subst x. simplify_eq. by rewrite bool_decide_true by (split; [lia|done]).
    + rewrite bool_decide_false by (intros [_ ?]; congruence). done.
  - injection Hl1 as <-. run_step. apply runs_ret. eapply runs_lift; [exact Hl'|]. apply HQ; [done|done|].
    intros x u Hu. by rewrite bool_decide_false by lia.
Qed.

(** No node is its own fanin. *)
Lemma fanin_not_self H Hc g i k w : core_ok H Hc g -> fanin_at g i k = Some w -> fanout_node_index w <> i.
Proof.
  intros Hok (v & Hv & Hw)%fanin_at_Some. apply (ok_fanin_range _ _ _ _ _ (ok_index_ok _ _ _ Hok i v Hv)).
  apply elem_of_app. left. apply elem_of_vget. eauto.
Qed.

(** The three updates of a node: the count of [i], the position at the node of
    the last entry, the entries of [j]. *)
Definition drop_fanin_node (i j p f : Z) (d : NodeDef AttrValue) (l l' : list MutableFaninView) (wl : MutableFaninView)
    (x : Z) (u : MutableNodeView) : MutableNodeView :=
  let u := if bool_decide (x = i)
    then set_fanins_count (DecrementFaninCount (fanins_count_ u) (address d, p)) u else u in
  let u := if bool_decide (f <> size_ l - 1 /\ x = fanin_node_index wl)
    then set_regular_fanins (vset (regular_fanins_ u) (fanin_port_index wl) (mk_FanoutView j p f)) u else u in
  if bool_decide (x = j)
  then set_regular_fanouts (trim_ports (vset (regular_fanouts_by_port_ u) p l')) (num_regular_fanouts_ u - 1) u else u.

Lemma drop_fanin_node_rel H g i k j p f d l l' wl nj x u :
  vget (nodes_ g) x = Some u -> vget (nodes_ g) j = Some nj -> vget (regular_fanouts_by_port_ nj) p = Some l ->
  vget (graph g) j = Some d -> dropped l f wl l' -> fanin_port_index wl = fanin_index_ wl ->
  fanin_at g (fanin_node_index wl) (fanin_port_index wl) = Some (mk_FanoutView j p (size_ l - 1)) ->
  drop_fanin_rel H g i k j p f (size_ l - 1) wl x u (drop_fanin_node i j p f d l l' wl x u).
Proof.
  intros Hu Hj Hl Hd [Hsz Hget] Hpl Hfl. unfold drop_fanin_node. cbv zeta. split; [|split; [|split; [|split]]].
  - repeat case_bool_decide; done.
  - intros y. assert (forall y, vget (regular_fanins_ (if bool_decide (f <> size_ l - 1 /\ x = fanin_node_index wl)
      then set_regular_fanins (vset (regular_fanins_ u) (fanin_port_index wl) (mk_FanoutView j p f)) u else u)) y =
      if bool_decide (f <> size_ l - 1 /\ (x, y) = (fanin_node_index wl, fanin_index_ wl))
      then Some (mk_FanoutView j p f) else vget (regular_fanins_ u) y) as Hy.
    { intros z. case_bool_decide as E.
      - destruct E as [HfL ->]. rewrite (fanin_at_node _ _ _ _ Hu) in Hfl. cbn [regular_fanins_ set_regular_fanins].
        rewrite vget_vset by (by eapply vget_Some). rewrite <- Hpl.
        rewrite (bool_decide_ext (fanin_port_index wl = z) (f <> size_ l - 1 /\ (fanin_node_index wl, z) = (fanin_node_index wl, fanin_port_index wl)));
          [done|]. split; [intros <-; done|intros [_ E]; congruence].
      - rewrite bool_decide_false; [done|]. intros [HfL E']. apply E. split; [done|congruence]. }
    rewrite <- Hy. repeat case_bool_decide; done.
  - intros q c. case_bool_decide as E1.
    + subst x. simplify_eq. cbn [regular_fanouts_by_port_ set_regular_fanouts]. rewrite port_at_trim.
      rewrite (port_at_vset _ _ l) by (repeat case_bool_decide; done). case_bool_decide as E.
      * subst q. rewrite Hget. unfold port_at. rewrite Hl. cbn [mbind option_bind].
        rewrite (bool_decide_ext ((j, p, c) = (j, p, size_ l - 1)) (c = size_ l - 1)) by (split; congruence).
        rewrite (bool_decide_ext ((j, p, c) = (j, p, f)) (c = f)) by (split; congruence). done.
      * rewrite (bool_decide_false ((j, q, c) = (j, p, size_ l - 1))), (bool_decide_false ((j, q, c) = (j, p, f))) by congruence.
        repeat case_bool_decide; done.
    + rewrite (bool_decide_false ((x, q, c) = (j, p, size_ l - 1))), (bool_decide_false ((x, q, c) = (j, p, f))) by congruence.
      repeat case_bool_decide; done.
  - case_bool_decide as E1; [|repeat case_bool_decide; done]. subst x. simplify_eq.
    cbn [regular_fanouts_by_port_ set_regular_fanouts num_regular_fanouts_]. rewrite Zsum_trim.
    repeat case_bool_decide; cbn [regular_fanouts_by_port_ num_regular_fanouts_ set_regular_fanins set_fanins_count];
      rewrite (Zsum_vset _ _ _ _ _ Hl); lia.
  - unfold address_of. rewrite Hd. repeat case_bool_decide; done.
Qed.

Lemma RemoveRegularFaninFanoutInternal_spec H Hc g i k v w : core_ok H Hc g -> vget (nodes_ g) i = Some v ->
  vget (regular_fanins_ v) k = Some w -> (i, k) ∉ H ->
  runs (RemoveRegularFaninFanoutInternal i k) g
    (fun _ g' => core_ok ({[(i, k)]} ∪ H) Hc g' /\ ends_step g g' i id id).
Proof.
  intros Hok Hv Hw Hlive. assert (fanin_at g i k = Some w) as Hk by (by rewrite (fanin_at_node _ _ _ _ Hv)).
  destruct (ok_fanin _ _ (ok_edges _ _ _ Hok) _ _ _ Hk) as [Hp Hfo]. specialize (Hfo Hlive).
  destruct w as [j p f]. cbn [fanout_node_index fanout_port_index fanout_index_] in *.
  apply fanout_at_Some in Hfo as (nj & l & Hj & Hl & Hf). pose proof (vget_Some _ _ _ Hf) as Hfr.
  pose proof (fanin_not_self _ _ _ _ _ _ Hok Hk) as Hji. cbn in Hji.
  destruct (vget_ex l (size_ l - 1)) as [wl Hwl]; [lia|].
  assert (fanout_at g j p (size_ l - 1) = Some wl) as HL by (apply fanout_at_Some; eauto).
  destruct (ok_fanout _ _ (ok_edges _ _ _ Hok) _ _ _ _ HL) as [Hpl Hfl].
  pose proof (fanin_not_self _ _ _ _ _ _ Hok Hfl) as Hlj. cbn in Hlj. apply fanin_at_Some in Hfl as (vl & Hvl & Hfl).
  pose proof (vget_Some _ _ _ Hv) as Hir. pose proof (vget_Some _ _ _ Hj) as Hjr.
  destruct (vget_ex (graph g) j) as [d Hd]; [by rewrite <- (ok_length _ (ok_names_ok _ _ _ Hok))|].
  unfold RemoveRegularFaninFanoutInternal. run_step. eapply runs_node_at; [done|]. run_step. eapply runs_at; [done|].
  cbn [fanout_node_index fanout_port_index fanout_index_]. unfold kMissingIndex. destruct (Z.eqb_spec f (-1)); [lia|].
  run_step. eapply runs_node_def_at; [done|]. run_step. eapply runs_update_node; [done|].
  set (v1 := set_fanins_count _ v). run_step.
  eapply runs_node_at; [cbn [nodes_ set_nodes]; by rewrite vget_vset_ne by done|].
  run_step. eapply runs_at; [done|]. run_step.
  assert (forall x u, vget (nodes_ g) x = Some u ->
    vget (vset (nodes_ g) i v1) x = Some (if bool_decide (x = i) then v1 else u)) as Hget1.
  { intros x u Hu. rewrite vget_vset by done. rewrite (bool_decide_ext (i = x) (x = i)) by done. by case_bool_decide. }
  apply (drop_regular_fanout_spec _ l f wl j p (if bool_decide (fanin_node_index wl = i) then v1 else vl));
    [done|done|by apply Hget1| |].
  { case_bool_decide as E; [|done]. rewrite E in Hvl. by simplify_eq. }
  intros l' g2 Hdrop Hf2 Hget2. cbn [nodes_ set_nodes] in Hget2.
  pose proof (Hget2 j nj) as Hj2. rewrite (Hget1 j nj Hj), !bool_decide_false in Hj2 by (try intros [_ ?]; congruence).
  eapply runs_update_node; [by apply Hj2|]. match goal with |- core_ok _ _ ?gg /\ _ => set (g' := gg) end.
  apply (core_drop_fanin H Hc g g' i k j p f (size_ l - 1) wl); try done.
  { destruct Hf2 as (? & ? & ? & Hs). split_and!; try done. cbn. by rewrite size_vset, Hs; cbn; rewrite size_vset. }
  intros x u Hu. exists (drop_fanin_node i j p f d l l' wl x u).
  split; [|eapply drop_fanin_node_rel; try done; apply fanin_at_Some; eauto].
  unfold g'. cbn [nodes_ set_nodes]. rewrite vget_vset by (eapply vget_Some, Hget2, Hget1, Hj).
  rewrite (Hget2 _ _ (Hget1 x u Hu)), (bool_decide_ext (j = x) (x = j)) by done.
  unfold drop_fanin_node. cbv zeta. case_bool_decide as E1.
  - subst x. simplify_eq. rewrite !bool_decide_false by (try intros [_ ?]; congruence). done.
  - assert ((if bool_decide (x = i) then v1 else u) = if bool_decide (x = i)
      then set_fanins_count (DecrementFaninCount (fanins_count_ u) (address d, p)) u else u) as ->; [|done].
    case_bool_decide; [|done]. subst x. by simplify_eq.
Qed.

(** ** A hole is filled *)

Lemma ends_step_trans g g1 g2 i FR FC FR' FC' : ends_step g g1 i FR FC -> ends_step g1 g2 i FR' FC' ->
  ends_step g g2 i (fun l => FR' (FR l)) (fun l => FC' (FC l)).
Proof.
  intros [E1 E2 E3 E4 E5] [F1 F2 F3 F4 F5]. split; try congruence.
  intros x v Hv. destruct (E5 x v Hv) as (v1 & Hv1 & ? & ? & Hr & Hc). destruct (F5 x v1 Hv1) as (v2 & Hv2 & ? & ? & Hr' & Hc').
  exists v2. split; [done|]. rewrite Hr', Hc', Hr, Hc. split; [congruence|]. split; [congruence|].
  by case_bool_decide.
Qed.

Lemma ends_step_ext g g' i FR FC FR' FC' : ends_step g g' i FR FC ->
  (forall v, vget (nodes_ g) i = Some v -> FR' (map ends (regular_fanins_ v)) = FR (map ends (regular_fanins_ v)) /\
     FC' (map ends (controlling_fanins_ v)) = FC (map ends (controlling_fanins_ v))) -> ends_step g g' i FR' FC'.
Proof.
  intros [E1 E2 E3 E4 E5] HF. split; try done. intros x v Hv. destruct (E5 x v Hv) as (v1 & Hv1 & ? & ? & Hr & Hc).
  exists v1. split_and!; try done; rewrite ?Hr, ?Hc; case_bool_decide; try done; subst x; symmetry; by apply HF.
Qed.

Lemma live_vset_hole H i l x k : forall k0, (i, k0 + k) ∈ H -> live H i k0 (vset l k x) = live H i k0 l.
Proof.
  destruct (decide (0 <= k < size_ l)) as [Hk|Hk].
  2:{ intros k0 _. f_equal. apply vget_ext. intros y. unfold vset. destruct (Z.ltb_spec k 0); [done|].
      rewrite list_insert_ge; [done|]. unfold size_ in Hk. lia. }
  revert k Hk. induction l as [|u l IH]; intros k Hk k0 Hh; [unfold size_ in Hk; simpl in Hk; lia|].
  assert (size_ (u :: l) = size_ l + 1) as Hsz by (unfold size_; simpl; lia).
  unfold vset. destruct (Z.ltb_spec k 0); [lia|]. destruct (Z.to_nat k) as [|n] eqn:En.
  - assert (k = 0) as -> by lia. rewrite Z.add_0_r in Hh. cbn [insert list_insert live]. by rewrite bool_decide_true.
  - change (<[S n:=x]> (u :: l)) with (u :: <[n:=x]> l). cbn [live]. specialize (IH (k - 1) ltac:(lia) (k0 + 1)).
    replace (k0 + 1 + (k - 1)) with (k0 + k) in IH by lia. specialize (IH Hh). unfold vset in IH.
    destruct (Z.ltb_spec (k - 1) 0); [lia|]. replace (Z.to_nat (k - 1)) with n in IH by lia. by rewrite IH.
Qed.

(** The part of [UpdateRegularFaninInternal] that follows the removal. *)
Lemma fill_hole_spec H Hc g i k j p v w : core_ok H Hc g -> vget (nodes_ g) i = Some v ->
  vget (regular_fanins_ v) k = Some w -> (i, k) ∈ H -> 0 <= j < size_ (nodes_ g) -> i <> j -> 0 <= p ->
  runs (f ← push_regular_fanout j p i k;
        v ← node_at i;
        lift (at_ (regular_fanins_ v) k);;
        update_node i (fun v => set_regular_fanins (vset (regular_fanins_ v) k (mk_FanoutView j p f)) v);;
        increment_fanin_count i j p) g
    (fun _ g' => core_ok (H ∖ {[(i, k)]}) Hc g' /\ ends_step g g' i (fun l => vset l k (j, p)) id).
Proof.
  intros Hok Hv Hw Hhole Hj Hij Hp. destruct (vget_ex _ _ Hj) as [nj Hnj]. pose proof (vget_Some _ _ _ Hw) as Hk.
  pose proof (vget_Some _ _ _ Hv) as Hi. pose proof (ok_length _ (ok_names_ok _ _ _ Hok)) as Hlen.
  run_step. apply (push_regular_fanout_spec _ _ _ _ _ nj); [done|done|]. intros ports f Hnone Hports Hsum.
  set (w1 := set_regular_fanouts ports (num_regular_fanouts_ nj + 1) nj).
  assert (vget (vset (nodes_ g) j w1) i = Some v) as Hv1 by (by rewrite vget_vset_ne by congruence).
  run_step. eapply runs_node_at; [exact Hv1|]. run_step. eapply runs_at; [done|].
  run_step. eapply runs_update_node; [exact Hv1|].
  eapply runs_increment_fanin_count.
  { cbn [nodes_ set_nodes]. apply vget_vset_eq. by rewrite size_vset. }
  { cbn [graph set_nodes]. lia. }
  set (v2 := set_fanins_count _ _). cbn [nodes_ set_nodes graph].
  match goal with |- core_ok _ _ ?gg /\ _ => set (g' := gg) end.
  assert (frame g g') as Hf by (split_and!; cbn; rewrite ?size_vset; done).
  assert (forall x u, vget (nodes_ g) x = Some u -> vget (nodes_ g') x =
    Some (if bool_decide (x = i) then v2 else if bool_decide (x = j) then w1 else u)) as Hget.
  { intros x u Hu. unfold g'. cbn [nodes_ set_nodes].
    rewrite vget_vset by (by rewrite !size_vset). rewrite (bool_decide_ext (i = x) (x = i)) by done.
    case_bool_decide as E1; [done|]. rewrite vget_vset_ne, vget_vset by done.
    rewrite (bool_decide_ext (j = x) (x = j)) by done. case_bool_decide; done. }
  split.
  - apply (core_set_fanin H Hc g g' i k j p f); try done.
    2:{ by rewrite (fanout_at_node _ _ _ _ _ Hnj). }
    2:{ by right. }
    intros x u Hu. eexists. split; [by apply Hget|]. case_bool_decide as E1; [|case_bool_decide as E2].
    + subst x. simplify_eq. split_and!; try done.
      * intros y. unfold v2. cbn [regular_fanins_ set_fanins_count set_regular_fanins]. rewrite vget_vset by done.
        rewrite (bool_decide_ext (k = y) ((i, y) = (i, k))); [done|]. split; congruence.
      * intros q c. rewrite bool_decide_false by congruence. done.
      * by rewrite bool_decide_true by done.
      * intros _ a b. unfold v2. cbn [regular_fanins_ set_fanins_count set_regular_fanins].
        rewrite (occurrences_live_hole (H ∖ {[(i, k)]}) i k (mk_FanoutView j p f) a b _ 0);
          [|by rewrite Z.sub_0_r, vget_vset_eq|set_solver].
        replace ({[(i, k)]} ∪ H ∖ {[(i, k)]}) with H.
        2:{ apply set_eq. intros y. rewrite elem_of_union, elem_of_difference, elem_of_singleton.
            destruct (decide (y = (i, k))) as [->|]; tauto. }
        by rewrite live_vset_hole.
    + subst x. simplify_eq. split_and!; try done.
      * intros y. rewrite bool_decide_false by congruence. done.
      * intros q c. unfold w1. cbn [regular_fanouts_by_port_ set_regular_fanouts]. rewrite Hports.
        rewrite (bool_decide_ext ((q, c) = (p, f)) ((j, q, c) = (j, p, f))); [done|]. split; congruence.
      * unfold w1. cbn [regular_fanouts_by_port_ set_regular_fanouts num_regular_fanouts_]. lia.
      * by rewrite bool_decide_false by done.
    + split_and!; try done.
      * intros y. rewrite bool_decide_false by congruence. done.
      * intros q c. rewrite bool_decide_false by congruence. done.
      * by rewrite bool_decide_false by done.
  - split; try apply Hf. intros x u Hu. eexists. split; [by apply Hget|].
    case_bool_decide as E1; [|case_bool_decide as E2]; [|by subst; simplify_eq|done].
    subst x. simplify_eq. split_and!; try done. unfold v2. cbn [regular_fanins_ set_fanins_count set_regular_fanins].
    by rewrite map_vset.
Qed.

Lemma UpdateRegularFaninInternal_spec H Hc g i k t j v w : core_ok H Hc g -> vget (nodes_ g) i = Some v ->
  vget (regular_fanins_ v) k = Some w -> (i, k) ∉ H -> node_index_by_name_ g !! node t = Some j -> i <> j -> 0 <= index t ->
  runs (UpdateRegularFaninInternal i k t) g
    (fun _ g' => core_ok H Hc g' /\ ends_step g g' i (fun l => vset l k (j, index t)) id).
Proof.
  intros Hok Hv Hw Hlive Hj Hij Hp. unfold UpdateRegularFaninInternal. run_step.
  eapply runs_mono; [by eapply RemoveRegularFaninFanoutInternal_spec|]. intros _ g1 [Hok1 Hs1].
  destruct (es_node _ _ _ _ _ Hs1 i v Hv) as (v1 & Hv1 & _ & _ & Hr1 & _). rewrite bool_decide_true in Hr1 by done.
  destruct (map_ends_vget _ _ _ _ Hr1 Hw) as (w1 & Hw1 & _).
  run_step. unfold get_node. run_step. run_step. eapply runs_lift.
  { unfold GetNode_by_name. by rewrite (es_names _ _ _ _ _ Hs1), Hj. }
  assert (0 <= j < size_ (nodes_ g1)) as Hjr.
  { rewrite (ok_length _ (ok_names_ok _ _ _ Hok1)), (es_graph _ _ _ _ _ Hs1).
    apply (ok_names _ (ok_names_ok _ _ _ Hok)) in Hj as (d & Hd & _). by eapply vget_Some. }
  eapply runs_mono; [eapply (fill_hole_spec ({[(i, k)]} ∪ H) Hc g1 i k j (index t)); try done; set_solver|].
  intros _ g2 [Hok2 Hs2]. split.
  - by replace (({[(i, k)]} ∪ H) ∖ {[(i, k)]}) with H in Hok2 by set_solver.
  - exact (ends_step_trans _ _ _ _ _ _ _ _ Hs1 Hs2).
Qed.
End remove.

(** ** Controlling fanins of a consistent view *)

Section controls.
  Context {AttrValue : Type}.
  #[local] Notation G := (MutableGraphView AttrValue).
  Implicit Type g : G.

(** ** A controlling fanin loses its entry *)

Definition drop_control_rel g (i j f L : Z) (wl : MutableFaninView) (x : Z) (v v' : MutableNodeView) : Prop :=
  same_but_control v v' /\
  (forall y, vget (controlling_fanins_ v') y =
     if bool_decide (f <> L /\ (x, y) = (fanin_node_index wl, fanin_index_ wl)) then Some (mk_FanoutView j kControlSlot f)
     else vget (controlling_fanins_ v) y) /\
  (forall c, vget (controlled_fanouts_ v') c =
     if bool_decide ((x, c) = (j, L)) then None
     else if bool_decide ((x, c) = (j, f)) then Some wl else vget (controlled_fanouts_ v) c) /\
  fanins_count_ v' = (if bool_decide (x = i) then delete (address_of g j, kControlSlot) (fanins_count_ v)
                      else fanins_count_ v) /\
  controlling_fanins_index_ v' = (if bool_decide (x = i) then delete (name_of g j) (controlling_fanins_index_ v)
                                  else controlling_fanins_index_ v).

Lemma elem_of_live H i w l : forall k0, w ∈ live H i k0 l -> exists y, vget l y = Some w /\ (i, k0 + y) ∉ H.
Proof.
  induction l as [|u l IH]; intros k0; cbn [live]; [by intros ?%elem_of_nil|].
  assert (w ∈ live H i (k0 + 1) l -> exists y, vget (u :: l) y = Some w /\ (i, k0 + y) ∉ H) as Hl.
  { intros (y & Hy & Hn)%IH. pose proof (vget_Some _ _ _ Hy). exists (y + 1).
    change (u :: l) with ([u] ++ l). rewrite vget_app_r by (unfold size_; simpl; lia).
    unfold size_. cbn [length]. replace (y + 1 - Z.of_nat 1) with y by lia.
    replace (k0 + (y + 1)) with (k0 + 1 + y) by lia. done. }
  case_bool_decide; [done|]. intros [->|Hw]%elem_of_cons; [|by apply Hl].
  exists 0. by rewrite Z.add_0_r.
Qed.

Lemma occurrences_zero j p l : (forall w, w ∈ l -> ends w <> (j, p)) -> occurrences j p l = 0.
Proof.
  induction l as [|w l IH]; intros Hl; [done|]. rewrite occurrences_cons, bool_decide_false by (apply Hl; left).
  rewrite IH; [done|]. intros u Hu. apply Hl. by right.
Qed.

Lemma occurrences_Permutation j p l l' : l ≡ₚ l' -> occurrences j p l = occurrences j p l'.
Proof. induction 1; rewrite ?occurrences_cons; [done|lia|lia|lia]. Qed.

(** Regular fanins never count as controlling ones. *)
Lemma regular_not_control H Hc g i v j : core_ok H Hc g -> vget (nodes_ g) i = Some v ->
  occurrences j kControlSlot (live H i 0 (regular_fanins_ v)) = 0.
Proof.
  intros Hok Hv. apply occurrences_zero. intros w (y & Hy & _)%elem_of_live E.
  destruct (ok_fanin _ _ (ok_edges _ _ _ Hok) i y w) as [Hp _]; [by rewrite (fanin_at_node _ _ _ _ Hv)|].
  injection E as _ E. rewrite E in Hp. unfold kControlSlot in Hp. lia.
Qed.

(** A controlling fanin is the only one from its node. *)
Lemma control_unique H Hc g i v j k f : core_ok H Hc g -> vget (nodes_ g) i = Some v ->
  vget (controlling_fanins_ v) k = Some (mk_FanoutView j kControlSlot f) -> (i, k) ∉ Hc ->
  occurrences j kControlSlot (live ({[(i, k)]} ∪ Hc) i 0 (controlling_fanins_ v)) = 0.
Proof.
  intros Hok Hv Hk Hlive. pose proof (ok_index_ok _ _ _ Hok i v Hv) as Hix.
  apply occurrences_zero. intros w (y & Hy & Hn)%elem_of_live E. rewrite Z.add_0_l in Hn. injection E as E _.
  assert (controlling_fanins_index_ v !! name_of g j = Some k) as H1.
  { apply (ok_control_index _ _ _ _ _ Hix). eauto. }
  assert (controlling_fanins_index_ v !! name_of g j = Some y) as H2.
  { apply (ok_control_index _ _ _ _ _ Hix). exists w. split; [done|]. rewrite E. set_solver. }
  assert (y = k) as -> by congruence. set_solver.
Qed.

Lemma core_drop_control H Hc g g' i k j f L wl : core_ok H Hc g -> frame g g' ->
  nodes_rel g g' (drop_control_rel g i j f L wl) -> control_fanin_at g i k = Some (mk_FanoutView j kControlSlot f) ->
  (i, k) ∉ Hc -> control_fanout_at g j L = Some wl ->
  core_ok H ({[(i, k)]} ∪ Hc) g' /\ ends_step g g' i id id.
Proof.
  intros Hok Hf Hn Hk Hlive HL. pose proof Hf as (Eg & En & Em & Es). pose proof (ok_names_ok _ _ _ Hok) as Hnames.
  destruct (ok_control_fanout _ _ (ok_controls _ _ _ Hok) _ _ _ HL) as [Hpl Hfl].
  assert (forall x v v', vget (nodes_ g) x = Some v -> drop_control_rel g i j f L wl x v v' ->
    map ends (controlling_fanins_ v') = map ends (controlling_fanins_ v)) as Hends.
  { intros x v v' Hv (_ & Hr & _). apply ends_pointwise. intros y. rewrite Hr. case_bool_decide as E; [|done].
    destruct E as [_ E]. injection E as -> ->. rewrite (control_fanin_at_node _ _ _ _ Hv) in Hfl. by rewrite Hfl. }
  split; [split|].
  - eapply names_ok_frame; [done..|]. intros x v v' (Hs & _). apply Hs.
  - eapply edges_ok_frame; [apply Hok|done|done|]. by intros x v v' (Hs & _).
  - apply (matching_remove _ _ _ (control_fanin_at g) (control_fanout_by_port g) _ _ i k j kControlSlot f L wl);
      [apply Hok|done|done|done|..].
    + intros x y. destruct (vget (nodes_ g) x) as [v|] eqn:E.
      * destruct (Hn x v E) as (v' & Hv' & _ & Hr & _).
        by rewrite (control_fanin_at_node _ _ _ _ E), (control_fanin_at_node _ _ _ _ Hv').
      * unfold control_fanin_at in *. rewrite (frame_None g g'), E by done. cbn.
        rewrite bool_decide_false; [done|]. intros [_ E1]. injection E1 as -> ->. by rewrite E in Hfl.
    + intros y q c. unfold control_fanout_by_port. destruct (Z.eqb_spec q kControlSlot) as [->|Hq].
      2:{ rewrite !bool_decide_false by congruence. done. }
      rewrite (bool_decide_ext ((y, kControlSlot, c) = (j, kControlSlot, L)) ((y, c) = (j, L))) by (split; congruence).
      rewrite (bool_decide_ext ((y, kControlSlot, c) = (j, kControlSlot, f)) ((y, c) = (j, f))) by (split; congruence).
      destruct (vget (nodes_ g) y) as [v|] eqn:E.
      * destruct (Hn y v E) as (v' & Hv' & _ & _ & Hr & _).
        by rewrite (control_fanout_at_node _ _ _ _ E), (control_fanout_at_node _ _ _ _ Hv').
      * unfold control_fanout_at in *. rewrite (frame_None g g'), E by done. cbn.
        case_bool_decide; [done|]. rewrite bool_decide_false; [done|]. intros E1. injection E1 as -> ->. by rewrite E in HL.
  - intros x v' Hv'. destruct (frame_node _ _ _ _ _ Hf Hn Hv') as (v & Hv & Hrel).
    pose proof (Hends x v v' Hv Hrel) as He. destruct Hrel as (Hs & _ & _ & Hcnt & Hcx).
    pose proof (ok_index_ok _ _ _ Hok x v Hv) as Hix. destruct Hs as (_ & _ & Hreg & _).
    destruct (decide (x = i)) as [->|Hx].
    2:{ rewrite bool_decide_false in Hcnt, Hcx by done. eapply index_ok_ext; [exact Hix|done|..]; try done; [|by rewrite Hreg].
        intros y. rewrite elem_of_union, elem_of_singleton. split; [intros [E|?]; [congruence|done]|by right]. }
    rewrite bool_decide_true in Hcnt, Hcx by done. rewrite (control_fanin_at_node _ _ _ _ Hv) in Hk.
    assert (forall a b, occurrences a b (live ({[(i, k)]} ∪ Hc) i 0 (controlling_fanins_ v')) =
      occurrences a b (live ({[(i, k)]} ∪ Hc) i 0 (controlling_fanins_ v))) as Hocc'.
    { intros a b. apply occurrences_ends. by apply live_ends. }
    assert (0 <= j < size_ (graph g)) as Hj.
    { apply (ok_fanin_range _ _ _ _ _ Hix (mk_FanoutView j kControlSlot f)). apply elem_of_app. right. apply elem_of_vget. eauto. }
    split.
    + intros a b Ha. rewrite Eg in Ha. replace (address_of g' a) with (address_of g a) by (unfold address_of; by rewrite Eg).
      pose proof (ok_count _ _ _ _ _ Hix a b Ha) as Hab. cbv zeta in Hab. rewrite occurrences_app in Hab.
      rewrite (occurrences_live_hole Hc i k (mk_FanoutView j kControlSlot f) a b (controlling_fanins_ v) 0) in Hab
        by (rewrite ?Z.sub_0_r; done).
      rewrite Hcnt, Hreg. cbv zeta. rewrite occurrences_app, Hocc'.
      assert ((address_of g j, kControlSlot) = (address_of g a, b) <-> ends (mk_FanoutView j kControlSlot f) = (a, b)) as Hiff.
      { unfold ends. cbn. pose proof (address_inj g j a Hnames Hj Ha). split; intros [= Ha1 Ha2]; f_equal; intuition congruence. }
      rewrite <- (bool_decide_ext _ _ Hiff) in Hab. rewrite lookup_delete. destruct (decide _) as [E|E].
      * injection E as E1 E2. apply address_inj in E1 as <-; [|done..]. subst b.
        by rewrite (regular_not_control H Hc g i v j Hok Hv), (control_unique H Hc g i v j k f Hok Hv Hk Hlive).
      * rewrite bool_decide_false in Hab by done. by rewrite Hab.
    + intros s y. rewrite Hcx, lookup_delete_Some, (ok_control_index _ _ _ _ _ Hix s y).
      setoid_rewrite elem_of_union. setoid_rewrite elem_of_singleton.
      split.
      * intros [Hs (w & Hw & Hyc & Hws)]. destruct (map_ends_vget _ _ _ _ He Hw) as (w' & Hw' & [= Hn' _]).
        exists w'. split; [done|]. split; [|unfold name_of; by rewrite Eg, Hn'].
        intros [E|]; [|done]. injection E as ->. assert (w = mk_FanoutView j kControlSlot f) as -> by congruence. done.
      * intros (w' & Hw' & Hyc & Hws). destruct (map_ends_vget _ _ _ _ (eq_sym He) Hw') as (w & Hw & [= Hn' _]).
        unfold name_of in Hws. rewrite Eg, <- Hn' in Hws. fold (name_of g (fanout_node_index w)) in Hws.
        assert (controlling_fanins_index_ v !! s = Some y) as H1.
        { apply (ok_control_index _ _ _ _ _ Hix). exists w. tauto. }
        split; [|exists w; tauto]. intros <-.
        assert (controlling_fanins_index_ v !! name_of g j = Some k) as H2 by (apply (ok_control_index _ _ _ _ _ Hix); eauto).
        apply Hyc. left. congruence.
    + intros w. rewrite Eg, Hreg. intros Hw. assert (ends w ∈ map ends (regular_fanins_ v ++ controlling_fanins_ v)) as Hin.
      { rewrite map_app, <- He, <- map_app. apply list_elem_of_fmap. eauto. }
      apply list_elem_of_fmap in Hin as (w' & [= Hnw _] & Hin). rewrite Hnw. by apply (ok_fanin_range _ _ _ _ _ Hix).
    + rewrite Hcnt, Eg. apply count_known_delete, Hix.
  - split; try apply Hf. intros x v Hv. destruct (Hn x v Hv) as (v' & Hv' & Hrel). exists v'. split; [done|].
    pose proof (Hends x v v' Hv Hrel) as He. destruct Hrel as ((? & ? & Hreg & _) & _).
    split; [done|]. split; [done|]. rewrite He, Hreg. by case_bool_decide.
Qed.

Lemma drop_controlled_fanout_spec g l f wl j p vl (Q : list MutableFaninView -> G -> Prop) :
  0 <= f < size_ l -> vget l (size_ l - 1) = Some wl -> vget (nodes_ g) (fanin_node_index wl) = Some vl ->
  vget (controlling_fanins_ vl) (fanin_index_ wl) = Some (mk_FanoutView j p (size_ l - 1)) ->
  (forall l' g2, dropped l f wl l' -> frame g g2 ->
    (forall x u, vget (nodes_ g) x = Some u -> vget (nodes_ g2) x = Some
      (if bool_decide (f <> size_ l - 1 /\ x = fanin_node_index wl)
       then set_controlling_fanins (vset (controlling_fanins_ u) (fanin_index_ wl) (mk_FanoutView j p f)) u else u)) -> Q l' g2) ->
  runs (drop_controlled_fanout l f) g Q.
Proof.
  intros Hf Hwl Hvl Hw HQ. destruct (drop_last_spec l f wl Hf Hwl) as (l1 & l' & Hl1 & Hl' & Hd).
  pose proof (vget_Some _ _ _ Hvl) as Hr. unfold drop_controlled_fanout.
  destruct (Z.ltb_spec f (size_ l - 1)) as [Hlt|Hge].
  - run_step. run_step. eapply runs_at; [exact Hwl|]. run_step. eapply runs_node_at; [exact Hvl|].
    run_step. eapply runs_at; [exact Hw|]. run_step. eapply runs_update_node; [exact Hvl|].
    eapply runs_lift; [exact Hl1|]. eapply runs_lift; [exact Hl'|]. apply HQ; [done|split_and!; cbn; rewrite ?size_vset; done|].
    intros x u Hu. cbn [nodes_ set_nodes fanout_node_index fanout_port_index]. rewrite vget_vset by done.
    case_bool_decide as E.
    + subst x. simplify_eq. by rewrite bool_decide_true by (split; [lia|done]).
    + rewrite bool_decide_false by (intros [_ ?]; congruence). done.
  - injection Hl1 as <-. run_step. apply runs_ret. eapply runs_lift; [exact Hl'|]. apply HQ; [done|done|].
    intros x u Hu. by rewrite bool_decide_false by lia.
Qed.

Lemma control_not_self H Hc g i k w : core_ok H Hc g -> control_fanin_at g i k = Some w -> fanout_node_index w <> i.
Proof.
  intros Hok (v & Hv & Hw)%control_fanin_at_Some. apply (ok_fanin_range _ _ _ _ _ (ok_index_ok _ _ _ Hok i v Hv)).
  apply elem_of_app. right. apply elem_of_vget. eauto.
Qed.

Definition drop_control_node (i j f : Z) (d : NodeDef AttrValue) (l l' : list MutableFaninView) (wl : MutableFaninView)
    (x : Z) (u : MutableNodeView) : MutableNodeView :=
  let u := if bool_decide (x = i)
    then set_controlling_fanins_index (delete (name d) (controlling_fanins_index_ u))
           (set_fanins_count (delete (address d, kControlSlot) (fanins_count_ u)) u) else u in
  let u := if bool_decide (f <> size_ l - 1 /\ x = fanin_node_index wl)
    then set_controlling_fanins (vset (controlling_fanins_ u) (fanin_index_ wl) (mk_FanoutView j kControlSlot f)) u else u in
  if bool_decide (x = j) then set_controlled_fanouts l' u else u.

Lemma drop_control_node_rel g i j f d l l' wl nj x u :
  vget (nodes_ g) x = Some u -> vget (nodes_ g) j = Some nj -> controlled_fanouts_ nj = l ->
  vget (graph g) j = Some d -> dropped l f wl l' ->
  control_fanin_at g (fanin_node_index wl) (fanin_index_ wl) = Some (mk_FanoutView j kControlSlot (size_ l - 1)) ->
  drop_control_rel g i j f (size_ l - 1) wl x u (drop_control_node i j f d l l' wl x u).
Proof.
  intros Hu Hj Hl Hd [Hsz Hget] Hfl. unfold drop_control_node. cbv zeta. split; [|split; [|split; [|split]]].
  - repeat case_bool_decide; done.
  - intros y. assert (forall y, vget (controlling_fanins_ (if bool_decide (f <> size_ l - 1 /\ x = fanin_node_index wl)
      then set_controlling_fanins (vset (controlling_fanins_ u) (fanin_index_ wl) (mk_FanoutView j kControlSlot f)) u else u)) y =
      if bool_decide (f <> size_ l - 1 /\ (x, y) = (fanin_node_index wl, fanin_index_ wl))
      then Some (mk_FanoutView j kControlSlot f) else vget (controlling_fanins_ u) y) as Hy.
    { intros z. case_bool_decide as E.
      - destruct E as [HfL ->]. rewrite (control_fanin_at_node _ _ _ _ Hu) in Hfl.
        cbn [controlling_fanins_ set_controlling_fanins]. rewrite vget_vset by (by eapply vget_Some).
        rewrite (bool_decide_ext (fanin_index_ wl = z) (f <> size_ l - 1 /\ (fanin_node_index wl, z) = (fanin_node_index wl, fanin_index_ wl)));
          [done|]. split; [intros <-; done|intros [_ E]; congruence].
      - rewrite bool_decide_false; [done|]. intros [HfL E']. apply E. split; [done|congruence]. }
    rewrite <- Hy. repeat case_bool_decide; done.
  - intros c. case_bool_decide as E1.
    + subst x. simplify_eq. cbn [controlled_fanouts_ set_controlled_fanouts]. rewrite Hget.
      rewrite (bool_decide_ext ((j, c) = (j, _)) (c = size_ (controlled_fanouts_ u) - 1)) by (split; congruence).
      rewrite (bool_decide_ext ((j, c) = (j, f)) (c = f)) by (split; congruence). done.
    + rewrite (bool_decide_false ((x, c) = (j, size_ l - 1))), (bool_decide_false ((x, c) = (j, f))) by congruence.
      repeat case_bool_decide; done.
  - unfold address_of. rewrite Hd. repeat case_bool_decide; done.
  - unfold name_of. rewrite Hd. repeat case_bool_decide; done.
Qed.

Lemma RemoveControllingFaninFanoutInternal_spec H Hc g i k v w : core_ok H Hc g -> vget (nodes_ g) i = Some v ->
  vget (controlling_fanins_ v) k = Some w -> (i, k) ∉ Hc ->
  runs (RemoveControllingFaninFanoutInternal i k) g
    (fun _ g' => core_ok H ({[(i, k)]} ∪ Hc) g' /\ ends_step g g' i id id).
Proof.
  intros Hok Hv Hw Hlive. assert (control_fanin_at g i k = Some w) as Hk by (by rewrite (control_fanin_at_node _ _ _ _ Hv)).
  destruct (ok_control_fanin _ _ (ok_controls _ _ _ Hok) _ _ _ Hk) as [Hp Hfo]. specialize (Hfo Hlive).
  destruct w as [j p f]. cbn [fanout_node_index fanout_port_index fanout_index_] in *. subst p.
  apply control_fanout_at_Some in Hfo as (nj & Hj & Hf). pose proof (vget_Some _ _ _ Hf) as Hfr.
  pose proof (control_not_self _ _ _ _ _ _ Hok Hk) as Hji. cbn in Hji.
  destruct (vget_ex (controlled_fanouts_ nj) (size_ (controlled_fanouts_ nj) - 1)) as [wl Hwl]; [lia|].
  assert (control_fanout_at g j (size_ (controlled_fanouts_ nj) - 1) = Some wl) as HL by (apply control_fanout_at_Some; eauto).
  destruct (ok_control_fanout _ _ (ok_controls _ _ _ Hok) _ _ _ HL) as [_ Hfl].
  pose proof (control_not_self _ _ _ _ _ _ Hok Hfl) as Hlj. cbn in Hlj. apply control_fanin_at_Some in Hfl as Hfl'.
  destruct Hfl' as (vl & Hvl & Hwl'). pose proof (vget_Some _ _ _ Hv) as Hir. pose proof (vget_Some _ _ _ Hj) as Hjr.
  destruct (vget_ex (graph g) j) as [d Hd]; [by rewrite <- (ok_length _ (ok_names_ok _ _ _ Hok))|].
  unfold RemoveControllingFaninFanoutInternal. run_step. eapply runs_node_at; [done|]. run_step. eapply runs_at; [done|].
  cbn [fanout_node_index fanout_port_index fanout_index_]. unfold kMissingIndex. destruct (Z.eqb_spec f (-1)); [lia|].
  run_step. eapply runs_node_def_at; [done|]. run_step. eapply runs_update_node; [done|].
  set (v1 := set_controlling_fanins_index _ _). run_step.
  eapply runs_node_at; [cbn [nodes_ set_nodes]; by rewrite vget_vset_ne by done|]. run_step.
  assert (forall x u, vget (nodes_ g) x = Some u ->
    vget (vset (nodes_ g) i v1) x = Some (if bool_decide (x = i) then v1 else u)) as Hget1.
  { intros x u Hu. rewrite vget_vset by done. rewrite (bool_decide_ext (i = x) (x = i)) by done. by case_bool_decide. }
  set (l := controlled_fanouts_ nj) in *.
  apply (drop_controlled_fanout_spec _ l f wl j kControlSlot (if bool_decide (fanin_node_index wl = i) then v1 else vl));
    [done|done|by apply Hget1| |].
  { case_bool_decide as E; [|done]. rewrite E in Hvl. by simplify_eq. }
  intros l' g2 Hdrop Hf2 Hget2. cbn [nodes_ set_nodes] in Hget2.
  pose proof (Hget2 j nj) as Hj2. rewrite (Hget1 j nj Hj), !bool_decide_false in Hj2 by (try intros [_ ?]; congruence).
  eapply runs_update_node; [by apply Hj2|]. match goal with |- core_ok _ _ ?gg /\ _ => set (g' := gg) end.
  apply (core_drop_control H Hc g g' i k j f (size_ l - 1) wl); try done.
  { destruct Hf2 as (? & ? & ? & Hs). split_and!; try done. cbn. by rewrite size_vset, Hs; cbn; rewrite size_vset. }
  intros x u Hu. exists (drop_control_node i j f d l l' wl x u). split; [|by eapply drop_control_node_rel].
  unfold g'. cbn [nodes_ set_nodes]. rewrite vget_vset by (eapply vget_Some, Hget2, Hget1, Hj).
  rewrite (Hget2 _ _ (Hget1 x u Hu)), (bool_decide_ext (j = x) (x = j)) by done.
  unfold drop_control_node. cbv zeta. case_bool_decide as E1.
  - subst x. simplify_eq. rewrite !bool_decide_false by (try intros [_ ?]; congruence). done.
  - assert ((if bool_decide (x = i) then v1 else u) = if bool_decide (x = i)
      then set_controlling_fanins_index (delete (name d) (controlling_fanins_index_ u))
        (set_fanins_count (delete (address d, kControlSlot) (fanins_count_ u)) u) else u) as ->; [|done].
    case_bool_decide; [|done]. subst x. by simplify_eq.
Qed.

(** ** The last controlling fanin takes its place *)

(** Controlling fanin [k] of node [i], a hole, is removed: the last one, at [lc],
    from node [j] and entered there at [f], takes its place. *)
Definition shrink_rel g (i k lc j f : Z) (x : Z) (v v' : MutableNodeView) : Prop :=
  same_but_control v v' /\
  controlling_fanins_ v' = (if bool_decide (x = i) then swap_remove k (controlling_fanins_ v) else controlling_fanins_ v) /\
  (forall c, vget (controlled_fanouts_ v') c =
     if bool_decide (k <> lc /\ (x, c) = (j, f)) then Some (mk_FaninView i kControlSlot k)
     else vget (controlled_fanouts_ v) c) /\
  fanins_count_ v' = fanins_count_ v /\
  controlling_fanins_index_ v' = (if bool_decide (x = i /\ k <> lc) then <[name_of g j := k]> (controlling_fanins_index_ v)
                                  else controlling_fanins_index_ v).

(** The controlling edges still match. *)
Lemma shrink_matching Hc g g' i k lc j f v : controls_ok ({[(i, k)]} ∪ Hc) g -> frame g g' ->
  nodes_rel g g' (shrink_rel g i k lc j f) -> vget (nodes_ g) i = Some v -> lc = size_ (controlling_fanins_ v) - 1 ->
  vget (controlling_fanins_ v) lc = Some (mk_FanoutView j kControlSlot f) -> 0 <= k <= lc -> (forall y, (i, y) ∉ Hc) ->
  controls_ok Hc g'.
Proof.
  intros Hok Hf Hn Hv Hlc Hlast Hk Hholes.
  assert (forall x y, control_fanin_at g' x y = if bool_decide (x = i)
    then vget (swap_remove k (controlling_fanins_ v)) y else control_fanin_at g x y) as HI.
  { intros x y. destruct (vget (nodes_ g) x) as [u|] eqn:E.
    - destruct (Hn x u E) as (u' & Hu' & _ & Hr & _). rewrite (control_fanin_at_node _ _ _ _ Hu'), Hr.
      case_bool_decide; [subst x; by simplify_eq|]. by rewrite (control_fanin_at_node _ _ _ _ E).
    - unfold control_fanin_at. rewrite (frame_None g g'), E by done. cbn. rewrite bool_decide_false by congruence. done. }
  assert (forall y q c, control_fanout_by_port g' y q c =
    if bool_decide (k <> lc /\ (y, q, c) = (j, kControlSlot, f)) then Some (mk_FaninView i kControlSlot k)
    else control_fanout_by_port g y q c) as HO.
  { destruct (m_fanin _ _ _ _ _ Hok i lc (mk_FanoutView j kControlSlot f)) as [_ Hfo];
      [by rewrite (control_fanin_at_node _ _ _ _ Hv)|].
    intros y q c. unfold control_fanout_by_port. destruct (Z.eqb_spec q kControlSlot) as [->|Hq].
    2:{ rewrite bool_decide_false by (intros [_ ?]; congruence). done. }
    rewrite (bool_decide_ext (k <> lc /\ _) (k <> lc /\ (y, c) = (j, f))) by (split; intros [? ?]; split; congruence).
    destruct (vget (nodes_ g) y) as [u|] eqn:E.
    - destruct (Hn y u E) as (u' & Hu' & _ & _ & Hr & _).
      by rewrite (control_fanout_at_node _ _ _ _ Hu'), (control_fanout_at_node _ _ _ _ E), Hr.
    - unfold control_fanout_at. rewrite (frame_None g g'), E by done. cbn. rewrite bool_decide_false; [done|].
      intros [Hne E1]. injection E1 as -> ->. assert ((i, lc) ∉ {[(i, k)]} ∪ Hc) as Hll by set_solver.
      apply Hfo in Hll. unfold control_fanout_by_port, control_fanout_at in Hll. cbn in Hll. by rewrite E in Hll. }
  assert (({[(i, k)]} ∪ Hc) ∖ {[(i, k)]} = Hc) as EH by (specialize (Hholes k); set_solver).
  rewrite <- EH. destruct (decide (k = lc)) as [->|Hne].
  - apply (matching_drop _ _ _ _ (control_fanin_at g) (control_fanout_by_port g')); [|set_solver|].
    + eapply matching_ext; [exact Hok|done|]. intros y q c. rewrite HO, bool_decide_false; [done|tauto].
    + intros x y. rewrite HI. case_bool_decide as E.
      * subst x. rewrite (vget_swap_remove _ _ (mk_FanoutView j kControlSlot f)) by (rewrite <- ?Hlc; done || lia).
        rewrite <- Hlc, (control_fanin_at_node _ _ _ _ Hv).
        rewrite (bool_decide_ext ((i, y) ∈ _) (y = lc)) by (rewrite elem_of_singleton; split; congruence).
        by case_bool_decide.
      * rewrite bool_decide_false; [done|]. rewrite elem_of_singleton. congruence.
  - apply (matching_move _ _ _ (control_fanin_at g) (control_fanout_by_port g) _ _ i k lc j kControlSlot f);
      [exact Hok|set_solver| |done|by rewrite (control_fanin_at_node _ _ _ _ Hv)|..].
    + specialize (Hholes lc). set_solver.
    + intros x y. rewrite HI. case_bool_decide as E.
      * subst x. rewrite (vget_swap_remove _ _ (mk_FanoutView j kControlSlot f)) by (rewrite <- ?Hlc; done || lia).
        rewrite <- Hlc, (control_fanin_at_node _ _ _ _ Hv).
        rewrite (bool_decide_ext ((i, y) = (i, k)) (y = k)), (bool_decide_ext ((i, y) = (i, lc)) (y = lc)) by (split; congruence).
        destruct (decide (y = lc)) as [->|]; [by rewrite bool_decide_true, (bool_decide_false (lc = k)) by done|].
        by rewrite !(bool_decide_false (y = lc)) by done.
      * rewrite !bool_decide_false by congruence. done.
    + intros y q c. rewrite HO. rewrite (bool_decide_ext (k <> lc /\ _) ((y, q, c) = (j, kControlSlot, f))); [done|tauto].
Qed.

Lemma core_shrink H Hc g g' i k lc j f v : core_ok H ({[(i, k)]} ∪ Hc) g -> frame g g' ->
  nodes_rel g g' (shrink_rel g i k lc j f) -> vget (nodes_ g) i = Some v -> lc = size_ (controlling_fanins_ v) - 1 ->
  vget (controlling_fanins_ v) lc = Some (mk_FanoutView j kControlSlot f) -> 0 <= k <= lc -> (forall y, (i, y) ∉ Hc) ->
  core_ok H Hc g' /\ ends_step g g' i id (swap_remove k).
Proof.
  intros Hok Hf Hn Hv Hlc Hlast Hk Hholes. pose proof Hf as (Eg & En & Em & Es).
  assert (controls_ok Hc g') as Hctl by (eapply shrink_matching; try done; apply Hok).
  split; [split|].
  - eapply names_ok_frame; [apply Hok|done..|]. intros x u u' (Hs & _). apply Hs.
  - eapply edges_ok_frame; [apply Hok|done|done|]. by intros x u u' (Hs & _).
  - done.
  - intros x v' Hv'. destruct (frame_node _ _ _ _ _ Hf Hn Hv') as (u & Hu & Hs & Hr & _ & Hcnt & Hcx).
    pose proof (ok_index_ok _ _ _ Hok x u Hu) as Hix. destruct Hs as (_ & _ & Hreg & _).
    destruct (decide (x = i)) as [->|Hx].
    2:{ rewrite bool_decide_false in Hr by done. rewrite bool_decide_false in Hcx by tauto.
        eapply index_ok_ext; [exact Hix|done|..]; try done; [|by rewrite Hreg|by rewrite Hr].
        intros y. rewrite elem_of_union, elem_of_singleton. split; [by right|intros [E|?]; [congruence|done]]. }
    assert (v = u) as <- by congruence. rewrite bool_decide_true in Hr by done.
    destruct (vget_ex (controlling_fanins_ v) k) as [wk Hwk]; [lia|].
    assert (forall a b, occurrences a b (live Hc i 0 (controlling_fanins_ v')) =
      occurrences a b (live ({[(i, k)]} ∪ Hc) i 0 (controlling_fanins_ v))) as Hocc.
    { intros a b. rewrite !(live_other ∅ Hc), live_empty, Hr by set_solver.
      rewrite (live_other ({[(i, k)]} ∪ ∅) ({[(i, k)]} ∪ Hc)) by set_solver.
      pose proof (occurrences_live_hole ∅ i k wk a b (controlling_fanins_ v) 0) as H1.
      rewrite Z.sub_0_r, live_empty in H1. specialize (H1 Hwk ltac:(set_solver)).
      pose proof (swap_remove_Permutation _ _ _ Hwk) as Hp.
      assert (occurrences a b (controlling_fanins_ v) = occurrences a b (wk :: swap_remove k (controlling_fanins_ v))) as H2.
      { by apply occurrences_Permutation. }
      rewrite occurrences_cons in H2. lia. }
    split.
    + intros a b Ha. rewrite Eg in Ha. replace (address_of g' a) with (address_of g a) by (unfold address_of; by rewrite Eg).
      rewrite Hcnt, Hreg. cbv zeta. rewrite occurrences_app, Hocc, <- occurrences_app. by apply Hix.
    + intros s y. rewrite Hcx, Hr. setoid_rewrite (vget_swap_remove _ _ (mk_FanoutView j kControlSlot f)); [|lia|by rewrite <- Hlc].
      rewrite <- Hlc. assert (forall n, name_of g' n = name_of g n) as Hnm by (intros n; unfold name_of; by rewrite Eg).
      setoid_rewrite Hnm. pose proof (ok_control_index _ _ _ _ _ Hix) as Hold.
      assert (forall y, (i, y) ∉ {[(i, k)]} ∪ Hc <-> y <> k) as Hno.
      { intros z. specialize (Hholes z). rewrite elem_of_union, elem_of_singleton. split; [naive_solver|].
        intros Hz [E|]; [congruence|done]. }
      setoid_rewrite Hno in Hold. destruct (decide (k = lc)) as [->|Hne].
      * rewrite bool_decide_false by tauto. rewrite Hold. split.
        -- intros (w & Hw & Hy & Hs). exists w. by rewrite !bool_decide_false by done.
        -- intros (w & Hw & _ & Hs). case_bool_decide; [done|]. eauto.
      * rewrite bool_decide_true by done. rewrite lookup_insert_Some.
        assert (controlling_fanins_index_ v !! name_of g j = Some lc) as Hjl by (apply Hold; eauto).
        split.
        -- intros [[<- <-]|[Hs Hy]].
           ++ exists (mk_FanoutView j kControlSlot f). by rewrite bool_decide_false, bool_decide_true by done.
           ++ apply Hold in Hy as (w & Hw & Hyk & Hws). exists w. rewrite !bool_decide_false; [done|done|].
              intros ->. rewrite Hlast in Hw. by injection Hw as <-.
        -- intros (w & Hw & _ & Hs). case_bool_decide as E1; [done|]. case_bool_decide as E2.
           ++ injection Hw as <-. cbn in Hs. by left.
           ++ right. assert (controlling_fanins_index_ v !! s = Some y) as Hsy by (apply Hold; eauto).
              split; [|done]. intros <-. congruence.
    + intros w. rewrite Eg, Hreg, Hr. intros [Hw|Hw]%elem_of_app; apply (ok_fanin_range _ _ _ _ _ Hix), elem_of_app; [by left|right].
      rewrite (swap_remove_Permutation _ _ _ Hwk). by right.
    + rewrite Hcnt, Eg. apply Hix.
  - split; try apply Hf. intros x u Hu. destruct (Hn x u Hu) as (u' & Hu' & (? & ? & Hreg & _) & Hr & _). exists u'.
    split; [done|]. split; [done|]. split; [done|]. rewrite Hreg, Hr. split; case_bool_decide; try done. apply map_swap_remove.
Qed.

(** ** Edits of a node and its inputs *)

(** [g'] differs from [g] in node [i]: the ends of its fanins change by [FR] and
    [FC], its inputs by [FI]; the other nodes keep theirs. *)
Record edit_step g g' (i : Z) (FR FC : list (Z * Z) -> list (Z * Z)) (FI : list string -> list string) : Prop := {
  ed_names : node_index_by_name_ g' = node_index_by_name_ g;
  ed_mutation : mutation_ g' = mutation_ g;
  ed_size : size_ (nodes_ g') = size_ (nodes_ g);
  ed_graph_size : size_ (graph g') = size_ (graph g);
  ed_node : forall x v, vget (nodes_ g) x = Some v -> exists v', vget (nodes_ g') x = Some v' /\
    node_index_ v' = node_index_ v /\ update_index_ v' = update_index_ v /\
    map ends (regular_fanins_ v') = (if bool_decide (x = i) then FR else id) (map ends (regular_fanins_ v)) /\
    map ends (controlling_fanins_ v') = (if bool_decide (x = i) then FC else id) (map ends (controlling_fanins_ v));
  ed_def : forall x d, vget (graph g) x = Some d ->
    vget (graph g') x = Some (if bool_decide (x = i) then set_input (FI (input d)) d else d)
}.

Lemma ends_size l l' : map ends l' = map ends l -> size_ l' = size_ l.
Proof. intros Hl. by rewrite <- (size_map ends l'), Hl, size_map. Qed.

Lemma ends_step_edit g g' i FR FC : ends_step g g' i FR FC -> edit_step g g' i FR FC id.
Proof.
  intros [E1 E2 E3 E4 E5]. split; try done; [by rewrite E1|]. intros x d Hd. rewrite E1, Hd. case_bool_decide; [|done]. by destruct d.
Qed.

Lemma edit_step_trans g g1 g2 i FR FC FI FR' FC' FI' : edit_step g g1 i FR FC FI -> edit_step g1 g2 i FR' FC' FI' ->
  edit_step g g2 i (fun l => FR' (FR l)) (fun l => FC' (FC l)) (fun l => FI' (FI l)).
Proof.
  intros [E1 E2 E3 E4 E5 E6] [F1 F2 F3 F4 F5 F6]. split; try congruence.
  - intros x v Hv. destruct (E5 x v Hv) as (v1 & Hv1 & ? & ? & Hr & Hc). destruct (F5 x v1 Hv1) as (v2 & Hv2 & ? & ? & Hr' & Hc').
    exists v2. split; [done|]. rewrite Hr', Hc', Hr, Hc. split; [congruence|]. split; [congruence|]. by case_bool_decide.
  - intros x d Hd. rewrite (F6 _ _ (E6 x d Hd)). by case_bool_decide.
Qed.

Lemma edit_step_ext g g' i FR FC FI FR' FC' FI' : edit_step g g' i FR FC FI ->
  (forall v, vget (nodes_ g) i = Some v -> FR' (map ends (regular_fanins_ v)) = FR (map ends (regular_fanins_ v)) /\
     FC' (map ends (controlling_fanins_ v)) = FC (map ends (controlling_fanins_ v))) ->
  (forall d, vget (graph g) i = Some d -> FI' (input d) = FI (input d)) -> edit_step g g' i FR' FC' FI'.
Proof.
  intros [E1 E2 E3 E4 E5 E6] HF HI. split; try done.
  - intros x v Hv. destruct (E5 x v Hv) as (v1 & Hv1 & ? & ? & Hr & Hc).
    exists v1. split_and!; try done; rewrite ?Hr, ?Hc; case_bool_decide; try done; subst x; symmetry; by apply HF.
  - intros x d Hd. rewrite (E6 x d Hd). case_bool_decide; [subst x; by rewrite HI|done].
Qed.

Lemma edit_set_input H Hc g i d l : core_ok H Hc g -> vget (graph g) i = Some d ->
  core_ok H Hc (set_graph (vset (graph g) i (set_input l d)) g) /\
  edit_step g (set_graph (vset (graph g) i (set_input l d)) g) i id id (fun _ => l).
Proof.
  intros Hok Hd. split; [eapply core_ok_keys; [done|by apply same_keys_set_input]|]. split; try done.
  - cbn. by rewrite size_vset.
  - intros x v Hv. exists v. split_and!; try done; by case_bool_decide.
  - intros x e He. cbn [graph set_graph]. rewrite vget_vset by (by eapply vget_Some).
    rewrite (bool_decide_ext (i = x) (x = i)) by done. case_bool_decide; [subst x; by simplify_eq|done].
Qed.

Lemma edit_same_names g g' i FR FC FI : edit_step g g' i FR FC FI -> forall x, name_of g' x = name_of g x.
Proof.
  intros Hs x. unfold name_of. destruct (vget (graph g) x) as [d|] eqn:E.
  - rewrite (ed_def _ _ _ _ _ _ Hs x d E). by case_bool_decide.
  - rewrite vget_None; [done|]. rewrite (ed_graph_size _ _ _ _ _ _ Hs).
    destruct (decide (0 <= x < size_ (graph g))) as [Hx|]; [|lia]. destruct (vget_ex _ _ Hx). congruence.
Qed.

(** ** RemoveControllingFaninInternal *)

(** The node [i], the node [j] of the last controlling fanin, and the inputs, as
    these statements leave them. *)
Lemma fill_control_hole_runs g i k nr j f v nd wj d fo (Q : unit -> G -> Prop) :
  vget (nodes_ g) i = Some v -> vget (nodes_ g) j = Some wj -> i <> j -> vget (graph g) i = Some nd ->
  vget (graph g) j = Some d -> 0 <= k < size_ (controlling_fanins_ v) ->
  size_ (input nd) = nr + size_ (controlling_fanins_ v) -> 0 <= nr ->
  vget (controlling_fanins_ v) (size_ (controlling_fanins_ v) - 1) = Some (mk_FanoutView j kControlSlot f) ->
  (k <> size_ (controlling_fanins_ v) - 1 ->
   vget (controlled_fanouts_ wj) f = Some fo /\ is_Some (controlling_fanins_index_ v !! name d)) ->
  (forall g2, frame g g2 -> (forall x u, vget (nodes_ g) x = Some u -> vget (nodes_ g2) x = Some
     (if bool_decide (x = i)
      then set_controlling_fanins (swap_remove k (controlling_fanins_ u))
             (if bool_decide (k <> size_ (controlling_fanins_ v) - 1)
              then set_controlling_fanins_index (<[name d := k]> (controlling_fanins_index_ u)) u else u)
      else if bool_decide (k <> size_ (controlling_fanins_ v) - 1 /\ x = j)
      then set_controlled_fanouts (vset (controlled_fanouts_ u) f
             (mk_FaninView (fanin_node_index fo) (fanin_port_index fo) k)) u else u)) ->
   Q tt (set_graph (vset (graph g) i (set_input (swap_remove (nr + k) (input nd)) nd)) g2)) ->
  runs (fill_control_hole i k nr (size_ (controlling_fanins_ v) - 1)) g Q.
Proof.
  intros Hv Hwj Hij Hnd Hd Hk Hin Hnr Hlast Hfo HQ. set (lc := size_ (controlling_fanins_ v) - 1) in *.
  destruct (vget_ex (controlling_fanins_ v) k Hk) as [wk Hwk].
  destruct (vget_ex (input nd) (nr + k)) as [ik Hik]; [lia|]. destruct (vget_ex (input nd) (nr + lc)) as [il Hil]; [lia|].
  pose proof (vget_Some _ _ _ Hv) as Hir. pose proof (vget_Some _ _ _ Hwj) as Hjr. pose proof (vget_Some _ _ _ Hnd) as Hgr.
  assert (size_ (input nd) - 1 = nr + lc) as Hil' by lia. pose proof Hil as Hil2. rewrite <- Hil' in Hil2.
  unfold fill_control_hole. run_step. destruct (Z.ltb_spec k lc) as [Hlt|Hge].
  - destruct (Hfo ltac:(lia)) as [Hfo' [y Hy]]. run_step. eapply runs_node_at; [done|]. run_step. eapply runs_at; [done|].
    cbn [fanout_node_index fanout_index_].
    run_step. eapply runs_node_at; [done|]. run_step. eapply runs_at; [done|]. run_step.
    eapply runs_update_node; [done|]. run_step. eapply runs_node_def_at; [done|]. run_step.
    eapply runs_lift; [by rewrite Hy|]. run_step.
    eapply runs_update_node; [cbn [nodes_ set_nodes]; by rewrite vget_vset_ne by congruence|].
    run_step. eapply runs_node_def_at; [done|]. run_step. eapply runs_lift; [by eapply swap_elements_spec|]. run_step.
    eapply runs_update_node_def; [done|]. run_step.
    eapply runs_node_at; [cbn [nodes_ set_nodes set_graph]; by rewrite vget_vset_eq by (by rewrite size_vset)|].
    run_step. eapply runs_lift; [by eapply swap_elements_spec|].
    eapply runs_update_node; [cbn [nodes_ set_nodes set_graph]; by rewrite vget_vset_eq by (by rewrite size_vset)|].
    run_step. eapply runs_node_def_at; [cbn [graph set_nodes set_graph]; by rewrite vget_vset_eq|]. run_step.
    eapply runs_lift; [cbn [input set_input]; rewrite <- Hil'; apply pop_swapped; [done|done|lia]|].
    run_step. eapply runs_update_node_def; [cbn [graph set_nodes set_graph]; by rewrite vget_vset_eq|]. run_step.
    eapply runs_node_at; [cbn [nodes_ set_nodes set_graph]; by rewrite vget_vset_eq by (by rewrite !size_vset)|].
    run_step. eapply runs_lift.
    { cbn [controlling_fanins_ set_controlling_fanins set_controlling_fanins_index]. fold lc.
      rewrite (vset_comm _ lc k) by lia. apply pop_swapped; [done|done|lia]. }
    eapply runs_update_node; [cbn [nodes_ set_nodes set_graph]; by rewrite vget_vset_eq by (by rewrite !size_vset)|].
    cbn [graph nodes_ set_nodes set_graph]. rewrite !vset_vset.
    specialize (HQ (set_nodes (vset (vset (nodes_ g) j (set_controlled_fanouts (vset (controlled_fanouts_ wj) f
        (mk_FaninView (fanin_node_index fo) (fanin_port_index fo) k)) wj)) i
      (set_controlling_fanins (swap_remove k (controlling_fanins_ v)) (set_controlling_fanins_index (<[name d := k]> (controlling_fanins_index_ v)) v))) g)).
    apply HQ; [split_and!; cbn; by rewrite ?size_vset|]. intros x u Hu. cbn [nodes_ set_nodes].
    rewrite vget_vset by (by rewrite size_vset). rewrite (bool_decide_ext (i = x) (x = i)) by done.
    destruct (decide (x = i)) as [->|Hx].
    { rewrite !(bool_decide_true (i = i)), bool_decide_true by (done || lia). by simplify_eq. }
    rewrite !(bool_decide_false (x = i)) by done. rewrite vget_vset by done.
    rewrite (bool_decide_ext (j = x) (k <> lc /\ x = j)) by (split; [intros <-; split; [lia|done]|by intros [_ ->]]).
    destruct (decide (k <> lc /\ x = j)) as [[Hkl ->]|E].
    { rewrite !(bool_decide_true (k <> lc /\ j = j)) by done. by simplify_eq. }
    by rewrite !(bool_decide_false (k <> lc /\ x = j)).
  - assert (k = lc) as -> by lia. apply runs_ret. run_step. eapply runs_node_def_at; [done|]. run_step.
    eapply runs_lift; [apply pop_last; lia|]. run_step. eapply runs_update_node_def; [done|]. run_step.
    eapply runs_node_at; [done|]. run_step. eapply runs_lift; [apply pop_last; lia|].
    eapply runs_update_node; [done|]. fold lc. rewrite Hil'.
    specialize (HQ (set_nodes (vset (nodes_ g) i (set_controlling_fanins (swap_remove lc (controlling_fanins_ v)) v)) g)).
    apply HQ; [split_and!; cbn; by rewrite ?size_vset|]. intros x u Hu. cbn [nodes_ set_nodes].
    rewrite vget_vset by done. rewrite (bool_decide_ext (i = x) (x = i)) by done.
    destruct (decide (x = i)) as [->|Hx].
    { rewrite !(bool_decide_true (i = i)), bool_decide_false by tauto. by simplify_eq. }
    by rewrite !(bool_decide_false (x = i)), bool_decide_false by tauto.
Qed.

Lemma remove_control_spec H Hc g i k v nd : core_ok H Hc g -> vget (nodes_ g) i = Some v ->
  0 <= k < size_ (controlling_fanins_ v) -> (forall y, (i, y) ∉ Hc) -> vget (graph g) i = Some nd ->
  size_ (input nd) = size_ (regular_fanins_ v) + size_ (controlling_fanins_ v) ->
  runs (remove_control i k) g (fun _ g' => core_ok H Hc g' /\
    edit_step g g' i id (swap_remove k) (swap_remove (size_ (regular_fanins_ v) + k))).
Proof.
  intros Hok Hv Hk Hholes Hnd Hsz. destruct (vget_ex _ _ Hk) as [wk Hwk]. unfold remove_control.
  run_step. eapply runs_node_at; [done|]. run_step.
  eapply runs_mono; [by eapply RemoveControllingFaninFanoutInternal_spec|]. intros _ g1 [Hok1 Hs1].
  destruct (es_node _ _ _ _ _ Hs1 i v Hv) as (v1 & Hv1 & _ & _ & _ & Hc1). rewrite bool_decide_true in Hc1 by done.
  assert (size_ (controlling_fanins_ v1) = size_ (controlling_fanins_ v)) as Hsz1.
  { by apply ends_size. }
  destruct (vget_ex (controlling_fanins_ v1) (size_ (controlling_fanins_ v1) - 1)) as [[j p f] Hlast]; [lia|].
  assert (control_fanin_at g1 i (size_ (controlling_fanins_ v1) - 1) = Some (mk_FanoutView j p f)) as Hat
    by (by rewrite (control_fanin_at_node _ _ _ _ Hv1)).
  destruct (ok_control_fanin _ _ (ok_controls _ _ _ Hok1) _ _ _ Hat) as [Hp Hfo]. cbn in Hp, Hfo. subst p.
  pose proof (control_not_self _ _ _ _ _ _ Hok1 Hat) as Hji. cbn in Hji.
  pose proof (ok_index_ok _ _ _ Hok1 i v1 Hv1) as Hix.
  assert (0 <= j < size_ (graph g1)) as Hj.
  { apply (ok_fanin_range _ _ _ _ _ Hix (mk_FanoutView j kControlSlot f)). apply elem_of_app. right. apply elem_of_vget. eauto. }
  destruct (vget_ex _ _ Hj) as [d Hd]. rewrite <- (ok_length _ (ok_names_ok _ _ _ Hok1)) in Hj.
  destruct (vget_ex _ _ Hj) as [wj Hwj].
  set (lc := size_ (controlling_fanins_ v1) - 1) in *.
  run_step. eapply runs_node_at; [done|]. unfold NumRegularFanins, NumControllingFanins. fold lc.
  assert (k <> lc -> vget (controlled_fanouts_ wj) f = Some (mk_FaninView i kControlSlot lc) /\
    controlling_fanins_index_ v1 !! name d = Some lc) as Hne.
  { intros Hkl. assert ((i, lc) ∉ {[(i, k)]} ∪ Hc) as Hl by (specialize (Hholes lc); set_solver).
    split; [specialize (Hfo Hl); by rewrite (control_fanout_at_node _ _ _ _ Hwj) in Hfo|].
    apply (ok_control_index _ _ _ _ _ Hix). exists (mk_FanoutView j kControlSlot f). split; [done|]. split; [done|].
    unfold name_of. cbn. by rewrite Hd. }
  rewrite <- (es_graph _ _ _ _ _ Hs1) in Hnd.
  eapply (fill_control_hole_runs g1 i k (size_ (regular_fanins_ v)) j f v1 nd wj d (mk_FaninView i kControlSlot lc)); try done;
    try lia; [by apply size_nonneg|by intros Hkl; destruct (Hne Hkl) as [? ->]|].
  fold lc. intros g2 Hf2 Hget2. pose proof Hf2 as (Eg & _).
  destruct (core_shrink H Hc g1 g2 i k lc j f v1) as [Hok2 Hs2]; try done; [|lia|].
  { intros x u Hu. eexists. split; [by apply Hget2|]. destruct (decide (x = i)) as [->|Hx].
    - rewrite (bool_decide_true (i = i)) by done. assert (u = v1) as -> by congruence.
      split; [|split; [|split; [|split]]].
      + by case_bool_decide.
      + rewrite (bool_decide_true (i = i)) by done. by case_bool_decide.
      + intros c. rewrite (bool_decide_false (k <> lc /\ (i, c) = (j, f))) by (intros [_ ?]; congruence). by case_bool_decide.
      + by case_bool_decide.
      + unfold name_of. rewrite Hd. cbn. destruct (decide (k = lc)) as [->|].
        * by rewrite (bool_decide_false (lc <> lc)), (bool_decide_false (i = i /\ lc <> lc)) by tauto.
        * by rewrite (bool_decide_true (k <> lc)), (bool_decide_true (i = i /\ k <> lc)) by done.
    - rewrite (bool_decide_false (x = i)) by done. split; [|split; [|split; [|split]]].
      + destruct (bool_decide (k <> lc /\ x = j)); done.
      + rewrite (bool_decide_false (x = i)) by done. by destruct (bool_decide (k <> lc /\ x = j)).
      + intros c. destruct (decide (k <> lc /\ x = j)) as [[Hkl ->]|E].
        * rewrite (bool_decide_true (k <> lc /\ j = j)) by done. assert (u = wj) as -> by congruence. cbn [controlled_fanouts_ set_controlled_fanouts].
          destruct (Hne Hkl) as [Hfo' _]. rewrite vget_vset by (by eapply vget_Some).
          rewrite (bool_decide_ext (f = c) (k <> lc /\ (j, c) = (j, f))) by (split; [by intros <-|intros [_ ?]; congruence]). done.
        * rewrite (bool_decide_false (k <> lc /\ x = j)), (bool_decide_false (k <> lc /\ (x, c) = (j, f)));
            [done|intros [? ?]; apply E; split; [done|congruence]|done].
      + by destruct (bool_decide (k <> lc /\ x = j)).
      + rewrite (bool_decide_false (x = i /\ _)) by tauto. by destruct (bool_decide (k <> lc /\ x = j)). }
  rewrite <- Eg in Hnd. destruct (edit_set_input H Hc g2 i nd (swap_remove (size_ (regular_fanins_ v) + k) (input nd)) Hok2 Hnd) as [Hok3 Hs3].
  rewrite <- Eg. split; [done|].
  pose proof (edit_step_trans _ _ _ _ _ _ _ _ _ _ (ends_step_edit _ _ _ _ _ (ends_step_trans _ _ _ _ _ _ _ _ Hs1 Hs2)) Hs3) as Hs.
  eapply edit_step_ext; [exact Hs|done|]. intros d' Hd'. rewrite <- (es_graph _ _ _ _ _ Hs1), <- Eg in Hd'. by simplify_eq.
Qed.

(** Descending indices are taken out one after the other. *)
Definition remove_indices {A} (ks : list Z) (l : list A) : list A := fold_left (fun l k => swap_remove k l) ks l.

Lemma map_remove_indices {A B} (f : A -> B) ks : forall l, map f (remove_indices ks l) = remove_indices ks (map f l).
Proof.
  induction ks as [|k ks IH]; intros l; [done|]. unfold remove_indices in *. cbn [fold_left].
  by rewrite IH, map_swap_remove.
Qed.

Lemma descending_below {A} (l : list A) k ks x : StronglySorted Z.gt (k :: ks) -> vget l k = Some x ->
  Forall (fun k => 0 <= k < size_ l) (k :: ks) -> Forall (fun k' => 0 <= k' < size_ (swap_remove k l)) ks.
Proof.
  intros Hs Hx Hks. rewrite (size_swap_remove l k x Hx). apply Forall_cons in Hks as [Hk Hks].
  inversion_clear Hs. rewrite Forall_forall in *. intros y Hy. specialize (Hks y Hy). specialize (H0 y Hy). lia.
Qed.

Lemma remove_indices_app {A} ks : forall l1 l2 : list A, StronglySorted Z.gt ks -> Forall (fun k => 0 <= k < size_ l2) ks ->
  remove_indices (map (Z.add (size_ l1)) ks) (l1 ++ l2) = l1 ++ remove_indices ks l2.
Proof.
  induction ks as [|k ks IH]; intros l1 l2 Hs Hks; [done|]. cbn [remove_indices map fold_left].
  pose proof (proj1 (Forall_cons _ _ _) Hks) as [Hk _]. destruct (vget_ex l2 k Hk) as [x Hx].
  rewrite swap_remove_app by done. apply IH; [by inversion Hs|]. by eapply descending_below.
Qed.

(** What is left is what stands at the other indices. *)
Lemma elem_of_remove_indices {A} ks : forall (l : list A) x, StronglySorted Z.gt ks ->
  Forall (fun k => 0 <= k < size_ l) ks -> x ∈ remove_indices ks l <-> exists y, vget l y = Some x /\ y ∉ ks.
Proof.
  induction ks as [|k ks IH]; intros l x Hs Hks; cbn [remove_indices fold_left].
  { rewrite elem_of_vget. split; intros [y Hy]; exists y; [|by apply Hy]. split; [done|]. by intros ?%elem_of_nil. }
  pose proof (proj1 (Forall_cons _ _ _) Hks) as [Hk _]. destruct (vget_ex l k Hk) as [xk Hxk].
  destruct (vget_ex l (size_ l - 1)) as [xl Hxl]; [lia|]. inversion Hs as [|? ? Hss Hlt]; subst.
  rewrite Forall_forall in Hlt. change (x ∈ remove_indices ks (swap_remove k l) <-> exists y, vget l y = Some x /\ y ∉ k :: ks).
  rewrite IH; [|done|by eapply descending_below]. setoid_rewrite (vget_swap_remove l k xl); [|done|done]. split.
  - intros (y & Hy & Hn). case_bool_decide as E1; [done|]. case_bool_decide as E2.
    + injection Hy as <-. subst y. exists (size_ l - 1). split; [done|]. apply not_elem_of_cons. split; [done|].
      intros Hin. apply Hlt in Hin. lia.
    + exists y. split; [done|]. by apply not_elem_of_cons.
  - intros (y & Hy & [Hyk Hn]%not_elem_of_cons). destruct (decide (y = size_ l - 1)) as [->|Hyl].
    + exists k. rewrite bool_decide_false, bool_decide_true by congruence. split; [congruence|].
      intros Hin. apply Hlt in Hin. lia.
    + exists y. by rewrite !bool_decide_false by done.
Qed.

Lemma RemoveControllingFaninInternal_spec H Hc i ks : forall g v nd, core_ok H Hc g -> vget (nodes_ g) i = Some v ->
  (forall y, (i, y) ∉ Hc) -> vget (graph g) i = Some nd -> StronglySorted Z.gt ks ->
  Forall (fun k => 0 <= k < size_ (controlling_fanins_ v)) ks ->
  size_ (input nd) = size_ (regular_fanins_ v) + size_ (controlling_fanins_ v) ->
  runs (RemoveControllingFaninInternal i ks) g (fun _ g' => core_ok H Hc g' /\
    edit_step g g' i id (remove_indices ks) (remove_indices (map (Z.add (size_ (regular_fanins_ v))) ks))).
Proof.
  induction ks as [|k ks IH]; intros g v nd Hok Hv Hholes Hnd Hs Hks Hsz; cbn [RemoveControllingFaninInternal].
  { apply runs_ret. split; [done|]. split; try done.
    - intros x u Hu. exists u. by case_bool_decide.
    - intros x d Hd. rewrite Hd. case_bool_decide; [|done]. by destruct d. }
  pose proof (proj1 (Forall_cons _ _ _) Hks) as [Hk _]. run_step.
  eapply runs_mono; [by eapply remove_control_spec|]. intros _ g1 [Hok1 Hs1].
  destruct (ed_node _ _ _ _ _ _ Hs1 i v Hv) as (v1 & Hv1 & _ & _ & Hr1 & Hc1). rewrite bool_decide_true in Hr1, Hc1 by done.
  pose proof (ed_def _ _ _ _ _ _ Hs1 i nd Hnd) as Hnd1. rewrite bool_decide_true in Hnd1 by done.
  destruct (vget_ex _ _ Hk) as [wk Hwk]. destruct (vget_ex (input nd) (size_ (regular_fanins_ v) + k)) as [ik Hik].
  { pose proof (size_nonneg (regular_fanins_ v)). lia. }
  assert (size_ (regular_fanins_ v1) = size_ (regular_fanins_ v)) as Hsr by (by apply ends_size).
  assert (size_ (controlling_fanins_ v1) = size_ (controlling_fanins_ v) - 1) as Hsc.
  { rewrite <- (size_map ends), Hc1, <- map_swap_remove, size_map. by eapply size_swap_remove. }
  eapply runs_mono; [apply (IH g1 v1 _ Hok1 Hv1 Hholes Hnd1)|].
  - by inversion Hs.
  - pose proof (descending_below _ _ _ _ Hs Hwk Hks) as Hd. rewrite (size_swap_remove _ _ _ Hwk) in Hd. by rewrite Hsc.
  - cbn [input set_input]. rewrite (size_swap_remove _ _ _ Hik), Hsr, Hsc. lia.
  - intros _ g2 [Hok2 Hs2]. split; [done|]. rewrite Hsr in Hs2. exact (edit_step_trans _ _ _ _ _ _ _ _ _ _ Hs1 Hs2).
Qed.

(** ** Additions *)

Lemma runs_get_node g s j (Q : Z -> G -> Prop) : node_index_by_name_ g !! s = Some j -> Q j g -> runs (get_node s) g Q.
Proof. intros Hj HQ. unfold get_node. run_step. run_step. eapply runs_lift; [by unfold GetNode_by_name; rewrite Hj|done]. Qed.

Lemma name_index_range H Hc g s j : core_ok H Hc g -> node_index_by_name_ g !! s = Some j ->
  0 <= j < size_ (nodes_ g) /\ name_of g j = s.
Proof.
  intros Hok (d & Hd & <-)%(ok_names _ (ok_names_ok _ _ _ Hok)). rewrite (ok_length _ (ok_names_ok _ _ _ Hok)).
  split; [by eapply vget_Some|]. unfold name_of. by rewrite Hd.
Qed.

Lemma AddRegularFaninInternal_spec H Hc g i t j v : core_ok H Hc g -> vget (nodes_ g) i = Some v ->
  node_index_by_name_ g !! node t = Some j -> i <> j -> 0 <= index t -> (i, size_ (regular_fanins_ v)) ∉ H ->
  runs (AddRegularFaninInternal i t) g
    (fun _ g' => core_ok H Hc g' /\ ends_step g g' i (fun l => l ++ [(j, index t)]) id).
Proof.
  intros Hok Hv Hj Hij Hp Hh. unfold AddRegularFaninInternal. run_step. eapply runs_get_node; [done|].
  eapply connect_regular_spec; try done. by apply (name_index_range _ _ _ _ _ Hok Hj).
Qed.

Lemma AddControllingFaninInternal_spec H Hc g i s text j v nd : core_ok H Hc g -> vget (nodes_ g) i = Some v ->
  vget (graph g) i = Some nd -> AsControlDependency s = Ok text -> ParseTensorName text = mk_TensorId s kControlSlot ->
  node_index_by_name_ g !! s = Some j -> i <> j -> (i, size_ (controlling_fanins_ v)) ∉ Hc ->
  controlling_fanins_index_ v !! s = None ->
  runs (AddControllingFaninInternal i s) g (fun _ g' => core_ok H Hc g' /\
    edit_step g g' i id (fun l => l ++ [(j, kControlSlot)]) (fun l => l ++ [text])).
Proof.
  intros Hok Hv Hnd Htext Hparse Hj Hij Hh Hnew. unfold AddControllingFaninInternal.
  run_step. eapply runs_lift; [done|]. run_step. eapply runs_node_def_at; [done|]. run_step.
  eapply runs_update_node_def; [done|].
  destruct (edit_set_input H Hc g i nd (input nd ++ [text]) Hok Hnd) as [Hok1 Hs1].
  set (g1 := set_graph _ g) in *. run_step. eapply runs_get_node; [done|]. run_step. eapply runs_node_at; [done|].
  destruct (name_index_range _ _ _ _ _ Hok Hj) as [Hjr Hjn].
  rewrite Hparse. cbn [node].
  eapply runs_mono; [apply (connect_control_spec H Hc g1 i j s (fun _ => NumControllingFanins v) v); try done|].
  { by rewrite (edit_same_names _ _ _ _ _ _ Hs1). }
  intros _ g2 [Hok2 Hs2]. split; [done|].
  pose proof (edit_step_trans _ _ _ _ _ _ _ _ _ _ Hs1 (ends_step_edit _ _ _ _ _ Hs2)) as Hs.
  eapply edit_step_ext; [exact Hs|done|]. intros d Hd. by simplify_eq.
Qed.
End controls.

(** ** Removing many fanins of a node *)

Section bulk.
  Context {AttrValue : Type}.
  #[local] Notation G := (MutableGraphView AttrValue).
  Implicit Type g : G.

Definition holes_of (i : Z) (ks : list Z) : gset (Z * Z) := list_to_set (map (pair i) ks).

Lemma elem_of_holes i ks x y : (x, y) ∈ holes_of i ks <-> x = i /\ y ∈ ks.
Proof.
  unfold holes_of. rewrite elem_of_list_to_set, list_elem_of_fmap. split.
  - intros (k & [= -> ->] & Hk). done.
  - intros [-> Hy]. eauto.
Qed.

Lemma remove_regular_fanouts_spec Hc i ks : forall H g v, core_ok H Hc g -> vget (nodes_ g) i = Some v -> NoDup ks ->
  Forall (fun k => 0 <= k < size_ (regular_fanins_ v) /\ (i, k) ∉ H) ks ->
  runs (remove_regular_fanouts i ks) g (fun _ g' => core_ok (holes_of i ks ∪ H) Hc g' /\ ends_step g g' i id id).
Proof.
  induction ks as [|k ks IH]; intros H g v Hok Hv Hnd Hks; cbn [remove_regular_fanouts].
  - apply runs_ret. replace (holes_of i [] ∪ H) with H by (unfold holes_of; set_solver). split; [done|]. split; try done.
    intros x u Hu. exists u. by case_bool_decide.
  - apply Forall_cons in Hks as [[Hk Hkh] Hks]. apply NoDup_cons in Hnd as [Hkn Hnd].
    destruct (vget_ex _ _ Hk) as [w Hw]. run_step.
    eapply runs_mono; [by eapply RemoveRegularFaninFanoutInternal_spec|]. intros _ g1 [Hok1 Hs1].
    destruct (es_node _ _ _ _ _ Hs1 i v Hv) as (v1 & Hv1 & _ & _ & Hr1 & _). rewrite bool_decide_true in Hr1 by done.
    eapply runs_mono; [apply (IH _ g1 v1 Hok1 Hv1 Hnd)|].
    + rewrite Forall_forall in *. intros y Hy. destruct (Hks y Hy) as [Hyr Hyh].
      rewrite (ends_size (regular_fanins_ v) (regular_fanins_ v1) Hr1). split; [done|].
      apply not_elem_of_union. split; [|done]. intros [= ->]%elem_of_singleton. done.
    + intros _ g2 [Hok2 Hs2]. split; [|exact (ends_step_trans _ _ _ _ _ _ _ _ Hs1 Hs2)].
      replace (holes_of i (k :: ks) ∪ H) with (holes_of i ks ∪ ({[(i, k)]} ∪ H)); [done|].
      unfold holes_of. cbn [map list_to_set foldr]. set_solver.
Qed.

Lemma remove_controlling_fanouts_spec H i ks : forall Hc g v, core_ok H Hc g -> vget (nodes_ g) i = Some v -> NoDup ks ->
  Forall (fun k => 0 <= k < size_ (controlling_fanins_ v) /\ (i, k) ∉ Hc) ks ->
  runs (remove_controlling_fanouts i ks) g (fun _ g' => core_ok H (holes_of i ks ∪ Hc) g' /\ ends_step g g' i id id).
Proof.
  induction ks as [|k ks IH]; intros Hc g v Hok Hv Hnd Hks; cbn [remove_controlling_fanouts].
  - apply runs_ret. replace (holes_of i [] ∪ Hc) with Hc by (unfold holes_of; set_solver). split; [done|]. split; try done.
    intros x u Hu. exists u. by case_bool_decide.
  - apply Forall_cons in Hks as [[Hk Hkh] Hks]. apply NoDup_cons in Hnd as [Hkn Hnd].
    destruct (vget_ex _ _ Hk) as [w Hw]. run_step.
    eapply runs_mono; [by eapply RemoveControllingFaninFanoutInternal_spec|]. intros _ g1 [Hok1 Hs1].
    destruct (es_node _ _ _ _ _ Hs1 i v Hv) as (v1 & Hv1 & _ & _ & _ & Hc1). rewrite bool_decide_true in Hc1 by done.
    eapply runs_mono; [apply (IH _ g1 v1 Hok1 Hv1 Hnd)|].
    + rewrite Forall_forall in *. intros y Hy. destruct (Hks y Hy) as [Hyr Hyh].
      rewrite (ends_size (controlling_fanins_ v) (controlling_fanins_ v1) Hc1). split; [done|].
      apply not_elem_of_union. split; [|done]. intros [= ->]%elem_of_singleton. done.
    + intros _ g2 [Hok2 Hs2]. split; [|exact (ends_step_trans _ _ _ _ _ _ _ _ Hs1 Hs2)].
      replace (holes_of i (k :: ks) ∪ Hc) with (holes_of i ks ∪ ({[(i, k)]} ∪ Hc)); [done|].
      unfold holes_of. cbn [map list_to_set foldr]. set_solver.
Qed.

(** ** Trailing holes are cut off *)

Lemma live_truncate H H' i n : forall l k0, (forall k, k0 <= k < k0 + Z.of_nat n -> (i, k) ∈ H' <-> (i, k) ∈ H) ->
  (forall k, k0 + Z.of_nat n <= k < k0 + size_ l -> (i, k) ∈ H) -> live H' i k0 (take n l) = live H i k0 l.
Proof.
  induction n as [|n IH]; intros l k0 Hsame Hholes.
  - cbn [take live]. revert k0 Hsame Hholes. induction l as [|w l IHl]; intros k0 Hsame Hholes; [done|].
    assert (size_ (w :: l) = size_ l + 1) as Hsz by (unfold size_; simpl; lia). pose proof (size_nonneg l).
    cbn [live]. rewrite bool_decide_true by (apply Hholes; lia). apply (IHl (k0 + 1)); [intros k Hk; exfalso; lia|].
    intros k Hk. apply Hholes. lia.
  - destruct l as [|w l]; [done|]. assert (size_ (w :: l) = size_ l + 1) as Hsz by (unfold size_; simpl; lia).
    cbn [take live]. rewrite (bool_decide_ext ((i, k0) ∈ H') ((i, k0) ∈ H)) by (apply Hsame; lia).
    rewrite (IH l (k0 + 1)); [done|intros k Hk; apply Hsame; lia|intros k Hk; apply Hholes; lia].
Qed.

(** The holes [H'] that stay are those of [H] but for node [i] from [n] on. *)
Definition holes_below (i n : Z) (H H' : gset (Z * Z)) : Prop :=
  forall x y, (x, y) ∈ H' <-> (x, y) ∈ H /\ (x <> i \/ y < n).

Lemma vget_take_if {A} (l : list A) n c : 0 <= n ->
  vget (take (Z.to_nat n) l) c = if bool_decide (c < n) then vget l c else None.
Proof.
  intros Hn. unfold vget. destruct (Z.ltb_spec c 0); [by case_bool_decide|]. case_bool_decide.
  - apply lookup_take_lt. lia.
  - apply lookup_take_ge. lia.
Qed.

Lemma core_truncate_regular H H' Hc g i v n : core_ok H Hc g -> vget (nodes_ g) i = Some v -> 0 <= n ->
  (forall k, n <= k < size_ (regular_fanins_ v) -> (i, k) ∈ H) -> holes_below i n H H' ->
  core_ok H' Hc (set_nodes (vset (nodes_ g) i (set_regular_fanins (take (Z.to_nat n) (regular_fanins_ v)) v)) g) /\
  ends_step g (set_nodes (vset (nodes_ g) i (set_regular_fanins (take (Z.to_nat n) (regular_fanins_ v)) v)) g) i (take (Z.to_nat n)) id.
Proof.
  intros Hok Hv Hn Hcut HH. pose proof (vget_Some _ _ _ Hv) as Hi. set (v' := set_regular_fanins _ v).
  set (g' := set_nodes _ g). assert (frame g g') as Hf by (split_and!; cbn; by rewrite ?size_vset).
  assert (forall x u, vget (nodes_ g) x = Some u -> vget (nodes_ g') x = Some (if bool_decide (x = i) then v' else u)) as Hget.
  { intros x u Hu. unfold g'. cbn [nodes_ set_nodes]. rewrite vget_vset by done.
    rewrite (bool_decide_ext (i = x) (x = i)) by done. by case_bool_decide. }
  set (R := fun x (u u' : MutableNodeView) => u' = if bool_decide (x = i) then set_regular_fanins (take (Z.to_nat n) (regular_fanins_ u)) u else u).
  assert (nodes_rel g g' R) as Hrel.
  { intros x u Hu. eexists. split; [by apply Hget|]. unfold R. case_bool_decide; [subst x; by simplify_eq|done]. }
  assert (forall x u u', R x u u' -> same_but_regular u u') as Hsame by (intros x u u' ->; by case_bool_decide).
  assert (forall x y, fanin_at g' x y = if bool_decide ((x, y) ∈ H ∖ H') then None else fanin_at g x y) as HI.
  { intros x y. destruct (vget (nodes_ g) x) as [u|] eqn:E.
    - rewrite (fanin_at_node _ _ _ _ (Hget x u E)), (fanin_at_node _ _ _ _ E). destruct (decide (x = i)) as [->|Hx].
      + rewrite (bool_decide_true (i = i)) by done. simplify_eq. cbn [regular_fanins_ set_regular_fanins v'].
        rewrite vget_take_if by done. destruct (decide (y < n)) as [Hy|Hy].
        * rewrite bool_decide_true, bool_decide_false; [done|intros [H1 H2]%elem_of_difference; apply H2, HH; tauto|done].
        * rewrite bool_decide_false by done. case_bool_decide as E1; [done|]. symmetry. apply vget_None.
          destruct (decide (y < size_ (regular_fanins_ v))) as [Hys|]; [|lia]. exfalso. apply E1, elem_of_difference.
          split; [apply Hcut; lia|]. intros [_ [?|?]]%HH; done.
      + rewrite bool_decide_false by done. rewrite bool_decide_false; [done|].
        intros [H1 H2]%elem_of_difference. apply H2, HH. tauto.
    - unfold fanin_at. rewrite (frame_None g g'), E by done. cbn. by case_bool_decide. }
  split; [split|].
  - eapply names_ok_frame; [apply Hok|done..|]. intros x u u' Hr. apply (Hsame x u u' Hr).
  - split.
    + assert (regular_matching (H ∖ (H ∖ H')) g') as Hm.
      { apply (matching_drop _ _ H (H ∖ H') (fanin_at g) (fanout_at g')); [|set_solver|done].
        eapply matching_ext; [apply (ok_regular _ _ (ok_edges _ _ _ Hok))|done|]. intros j p f. unfold fanout_at.
        destruct (vget (nodes_ g) j) as [u|] eqn:E; [|by rewrite (frame_None g g')].
        rewrite (Hget j u E). case_bool_decide; [|done]. subst j. by simplify_eq. }
      replace (H ∖ (H ∖ H')) with H' in Hm; [done|]. apply set_eq. intros [x y].
      pose proof (HH x y). rewrite !elem_of_difference. destruct (decide ((x, y) ∈ H')); tauto.
    + intros x u' Hu'. destruct (frame_node _ _ _ _ _ Hf Hrel Hu') as (u & Hu & ->).
      pose proof (ok_num_fanouts _ _ (ok_edges _ _ _ Hok) x u Hu). by case_bool_decide.
  - eapply controls_ok_frame; [apply Hok|done|done|]. done.
  - intros x u' Hu'. destruct (frame_node _ _ _ _ _ Hf Hrel Hu') as (u & Hu & ->).
    pose proof (ok_index_ok _ _ _ Hok x u Hu) as Hix. destruct (decide (x = i)) as [->|Hx].
    + rewrite bool_decide_true by done. simplify_eq. split.
      * intros j p Hj. cbn [fanins_count_ regular_fanins_ controlling_fanins_ set_regular_fanins].
        rewrite (live_truncate H H'); [by apply Hix| |].
        -- intros k Hk. pose proof (HH i k). assert (k < n) by lia. tauto.
        -- intros k Hk. apply Hcut. lia.
      * apply Hix.
      * intros w Hw. apply (ok_fanin_range _ _ _ _ _ Hix). apply elem_of_app in Hw as [Hw|Hw]; apply elem_of_app; [left|by right].
        cbn in Hw. eapply elem_of_take in Hw as (y & Hy & _). by eapply list_elem_of_lookup_2.
      * apply Hix.
    + rewrite bool_decide_false by done. eapply index_ok_ext; [exact Hix|done|..]; try done.
      intros k. pose proof (HH x k). tauto.
  - split; try apply Hf. intros x u Hu. eexists. split; [by apply Hget|]. case_bool_decide; [subst x; simplify_eq|done].
    split_and!; try done. cbn. by rewrite firstn_map.
Qed.

Lemma core_clear_controls H Hc Hc' g i v : core_ok H Hc g -> vget (nodes_ g) i = Some v ->
  (forall k, 0 <= k < size_ (controlling_fanins_ v) -> (i, k) ∈ Hc) -> holes_below i 0 Hc Hc' ->
  core_ok H Hc' (set_nodes (vset (nodes_ g) i (set_controlling_fanins [] v)) g) /\
  ends_step g (set_nodes (vset (nodes_ g) i (set_controlling_fanins [] v)) g) i id (fun _ => []).
Proof.
  intros Hok Hv Hcut HH. pose proof (vget_Some _ _ _ Hv) as Hi. set (v' := set_controlling_fanins [] v).
  set (g' := set_nodes _ g). assert (frame g g') as Hf by (split_and!; cbn; by rewrite ?size_vset).
  assert (forall x u, vget (nodes_ g) x = Some u -> vget (nodes_ g') x = Some (if bool_decide (x = i) then v' else u)) as Hget.
  { intros x u Hu. unfold g'. cbn [nodes_ set_nodes]. rewrite vget_vset by done.
    rewrite (bool_decide_ext (i = x) (x = i)) by done. by case_bool_decide. }
  set (R := fun x (u u' : MutableNodeView) => u' = if bool_decide (x = i) then set_controlling_fanins [] u else u).
  assert (nodes_rel g g' R) as Hrel.
  { intros x u Hu. eexists. split; [by apply Hget|]. unfold R. case_bool_decide; [subst x; by simplify_eq|done]. }
  assert (forall x u u', R x u u' -> same_but_control u u') as Hsame by (intros x u u' ->; by case_bool_decide).
  assert (forall x y, control_fanin_at g' x y = if bool_decide ((x, y) ∈ Hc ∖ Hc') then None else control_fanin_at g x y) as HI.
  { intros x y. destruct (vget (nodes_ g) x) as [u|] eqn:E.
    - rewrite (control_fanin_at_node _ _ _ _ (Hget x u E)), (control_fanin_at_node _ _ _ _ E). destruct (decide (x = i)) as [->|Hx].
      + rewrite (bool_decide_true (i = i)) by done. simplify_eq. cbn [controlling_fanins_ set_controlling_fanins v'].
        rewrite vget_nil. case_bool_decide as E1; [done|]. symmetry. apply vget_None.
        destruct (decide (0 <= y < size_ (controlling_fanins_ v))) as [Hys|]; [|lia]. exfalso. apply E1, elem_of_difference.
        pose proof (HH i y). split; [apply Hcut; lia|]. assert (~ y < 0) by lia. tauto.
      + rewrite bool_decide_false by done. rewrite bool_decide_false; [done|].
        intros [H1 H2]%elem_of_difference. pose proof (HH x y). tauto.
    - unfold control_fanin_at. rewrite (frame_None g g'), E by done. cbn. by case_bool_decide. }
  split; [split|].
  - eapply names_ok_frame; [apply Hok|done..|]. intros x u u' Hr. apply (Hsame x u u' Hr).
  - eapply edges_ok_frame; [apply Hok|done|done|]. done.
  - assert (controls_ok (Hc ∖ (Hc ∖ Hc')) g') as Hm.
    { apply (matching_drop _ _ Hc (Hc ∖ Hc') (control_fanin_at g) (control_fanout_by_port g')); [|set_solver|done].
      eapply matching_ext; [apply (ok_controls _ _ _ Hok)|done|]. intros j p f. unfold control_fanout_by_port, control_fanout_at.
      destruct (vget (nodes_ g) j) as [u|] eqn:E; [|by rewrite (frame_None g g')].
      rewrite (Hget j u E). case_bool_decide; [|done]. subst j. by simplify_eq. }
    replace (Hc ∖ (Hc ∖ Hc')) with Hc' in Hm; [done|]. apply set_eq. intros [x y].
    pose proof (HH x y). rewrite !elem_of_difference. destruct (decide ((x, y) ∈ Hc')); tauto.
  - intros x u' Hu'. destruct (frame_node _ _ _ _ _ Hf Hrel Hu') as (u & Hu & ->).
    pose proof (ok_index_ok _ _ _ Hok x u Hu) as Hix. destruct (decide (x = i)) as [->|Hx].
    + rewrite bool_decide_true by done. simplify_eq. split.
      * intros j p Hj. cbn [fanins_count_ regular_fanins_ controlling_fanins_ set_controlling_fanins].
        assert (live Hc' i 0 [] = live Hc i 0 (controlling_fanins_ v)) as ->; [|by apply Hix].
        change (@nil MutableFanoutView) with (take 0 (controlling_fanins_ v)). apply live_truncate.
        -- intros k Hk. exfalso. lia.
        -- intros k Hk. apply Hcut. lia.
      * intros s k. cbn [controlling_fanins_ controlling_fanins_index_ set_controlling_fanins]. rewrite (ok_control_index _ _ _ _ _ Hix).
        split; intros (w & Hw & Hk & _); [|by rewrite vget_nil in Hw]. exfalso. apply Hk, Hcut. by eapply vget_Some.
      * intros w Hw. apply (ok_fanin_range _ _ _ _ _ Hix). cbn in Hw. rewrite app_nil_r in Hw. apply elem_of_app. by left.
      * apply Hix.
    + rewrite bool_decide_false by done. eapply index_ok_ext; [exact Hix|done|..]; try done.
      intros k. pose proof (HH x k). tauto.
  - split; try apply Hf. intros x u Hu. eexists. split; [by apply Hget|]. case_bool_decide; [subst x; by simplify_eq|done].
Qed.

Lemma RemoveAllFaninFanoutInternal_spec H Hc g i v : core_ok H Hc g -> vget (nodes_ g) i = Some v ->
  (forall k, (i, k) ∉ H) -> (forall k, (i, k) ∉ Hc) ->
  runs (RemoveAllFaninFanoutInternal i) g
    (fun _ g' => core_ok H Hc g' /\ ends_step g g' i (fun _ => []) (fun _ => [])).
Proof.
  intros Hok Hv HH HHc. unfold RemoveAllFaninFanoutInternal. run_step. eapply runs_node_at; [done|]. run_step.
  assert (forall n, Forall (fun k => 0 <= k < n) (count_up n)) as Hup.
  { intros n. apply Forall_forall. intros k. apply elem_of_count_up. }
  eapply runs_mono; [eapply (remove_regular_fanouts_spec Hc i _ H g v Hok Hv (NoDup_count_up _))|].
  { eapply Forall_impl; [apply Hup|]. intros k Hk. split; [exact Hk|apply HH]. }
  intros _ g1 [Hok1 Hs1]. destruct (es_node _ _ _ _ _ Hs1 i v Hv) as (v1 & Hv1 & _ & _ & Hr1 & Hc1).
  rewrite bool_decide_true in Hr1, Hc1 by done.
  run_step. eapply runs_update_node; [done|].
  destruct (core_truncate_regular (holes_of i (count_up (NumRegularFanins v)) ∪ H) H Hc g1 i v1 0 Hok1 Hv1) as [Hok2 Hs2]; [lia| | |].
  { intros k Hk. apply elem_of_union_l, elem_of_holes. split; [done|]. apply elem_of_count_up. unfold NumRegularFanins.
    by rewrite (ends_size (regular_fanins_ v) (regular_fanins_ v1) Hr1) in Hk. }
  { intros x y. rewrite elem_of_union, elem_of_holes, elem_of_count_up. split.
    - intros Hxy. split; [by right|]. left. intros ->. by apply (HH y).
    - intros [[[-> Hy]|]  [?|?]]; [done|lia|done|done]. }
  change (take (Z.to_nat 0) ?l) with (@nil MutableFanoutView) in *. cbn [Z.to_nat take] in Hok2, Hs2.
  set (g2 := set_nodes _ g1) in *.
  destruct (es_node _ _ _ _ _ Hs2 i v1 Hv1) as (v2 & Hv2 & _ & _ & _ & Hc2). rewrite bool_decide_true in Hc2 by done.
  run_step. eapply runs_node_at; [exact Hv2|]. run_step.
  eapply runs_mono; [eapply (remove_controlling_fanouts_spec H i _ Hc g2 v2 Hok2 Hv2 (NoDup_count_up _))|].
  { eapply Forall_impl; [apply Hup|]. intros k Hk. split; [exact Hk|apply HHc]. }
  intros _ g3 [Hok3 Hs3]. destruct (es_node _ _ _ _ _ Hs3 i v2 Hv2) as (v3 & Hv3 & _ & _ & _ & Hc3).
  rewrite bool_decide_true in Hc3 by done. eapply runs_update_node; [done|].
  destruct (core_clear_controls H (holes_of i (count_up (NumControllingFanins v2)) ∪ Hc) Hc g3 i v3 Hok3 Hv3) as [Hok4 Hs4].
  { intros k Hk. apply elem_of_union_l, elem_of_holes. split; [done|]. apply elem_of_count_up. unfold NumControllingFanins.
    by rewrite (ends_size (controlling_fanins_ v2) (controlling_fanins_ v3) Hc3) in Hk. }
  { intros x y. rewrite elem_of_union, elem_of_holes, elem_of_count_up. split.
    - intros Hxy. split; [by right|]. left. intros ->. by apply (HHc y).
    - intros [[[-> Hy]|]  [?|?]]; [done|lia|done|done]. }
  split; [done|].
  exact (ends_step_trans _ _ _ _ _ _ _ _ Hs1 (ends_step_trans _ _ _ _ _ _ _ _ Hs2 (ends_step_trans _ _ _ _ _ _ _ _ Hs3 Hs4))).
Qed.
End bulk.
