(* ===== verification/HashOrder.v ===== *)
(** * HashOrder: the order in which containers are traversed

    The ordered containers of the standard library are traversed by increasing
    key.  The hash containers of Abseil have an order of their own, which is a
    parameter: all that is known of it is that every element comes once. *)

From stdpp Require Import sorting.
From S2P Require Import Prelude Vec.

Class HashOrder := {
  names_in_order : gset string -> list string;
  indices_in_order : gset Z -> list Z;
  names_in_order_Permutation s : names_in_order s ≡ₚ elements s;
  indices_in_order_Permutation s : indices_in_order s ≡ₚ elements s
}.

(** Increasing order, as one possible order. *)
#[export] Instance Z_le_dec' : RelDecision Z.le := Z.le_dec.

Definition sorted_indices (s : gset Z) : list Z := merge_sort Z.le (elements s).

Lemma sorted_indices_Permutation s : sorted_indices s ≡ₚ elements s.
Proof. apply merge_sort_Permutation. Qed.

Lemma sorted_indices_sorted s : StronglySorted Z.lt (sorted_indices s).
Proof.
  assert (StronglySorted Z.le (sorted_indices s)) as Hs.
  { apply StronglySorted_merge_sort; [intros x y z; lia|intros x y; lia]. }
  assert (NoDup (sorted_indices s)) as Hnd by (rewrite sorted_indices_Permutation; apply NoDup_elements).
  induction Hs as [|x l Hl IH Hx]; [constructor|]. apply NoDup_cons in Hnd as [Hn Hnd].
  constructor; [by apply IH|]. rewrite Forall_forall in *. intros y Hy. specialize (Hx y Hy).
  assert (x <> y); [|lia]. intros ->. by apply Hn.
Qed.

Lemma elem_of_sorted_indices s i : i ∈ sorted_indices s <-> i ∈ s.
Proof. by rewrite sorted_indices_Permutation, elem_of_elements. Qed.

Section order.
  Context {HO : HashOrder}.

(** The entries of a map keyed by names. *)
Definition entries_in_order {A} (m : gmap string A) : list (string * A) :=
  omap (fun k => pair k <$> m !! k) (names_in_order (dom m)).

(** The entries of a [std::map] with integer keys. *)
Definition sorted_entries {A} (m : gmap Z A) : list (Z * A) :=
  omap (fun k => pair k <$> m !! k) (sorted_indices (dom m)).

Lemma elem_of_names_in_order s n : n ∈ names_in_order s <-> n ∈ s.
Proof. by rewrite names_in_order_Permutation, elem_of_elements. Qed.

Lemma elem_of_indices_in_order s i : i ∈ indices_in_order s <-> i ∈ s.
Proof. by rewrite indices_in_order_Permutation, elem_of_elements. Qed.

Lemma NoDup_names_in_order s : NoDup (names_in_order s).
Proof. rewrite names_in_order_Permutation. apply NoDup_elements. Qed.

Lemma NoDup_indices_in_order s : NoDup (indices_in_order s).
Proof. rewrite indices_in_order_Permutation. apply NoDup_elements. Qed.

Lemma elem_of_entries_in_order {A} (m : gmap string A) k x : (k, x) ∈ entries_in_order m <-> m !! k = Some x.
Proof.
  unfold entries_in_order. rewrite list_elem_of_omap. split.
  - intros (k' & _ & (y & Hy & [= -> ->])%fmap_Some). done.
  - intros Hk. exists k. split; [|by rewrite Hk]. rewrite elem_of_names_in_order. by apply elem_of_dom_2 in Hk.
Qed.

Lemma elem_of_sorted_entries {A} (m : gmap Z A) k x : (k, x) ∈ sorted_entries m <-> m !! k = Some x.
Proof.
  unfold sorted_entries. rewrite list_elem_of_omap. split.
  - intros (k' & _ & (y & Hy & [= -> ->])%fmap_Some). done.
  - intros Hk. exists k. split; [|by rewrite Hk]. rewrite elem_of_sorted_indices. by apply elem_of_dom_2 in Hk.
Qed.
End order.

(** An order for concrete runs. *)
Definition elements_order : HashOrder.
Proof. refine {| names_in_order := elements; indices_in_order := elements |}; done. Defined.
