(* ===== verification/GraphDiff.v ===== *)
(** * GraphDiff: pending changes of single nodes (optimizer/graph_view_internal.h)

    [NodeViewDiff] holds changes of a node of the graph, [NewNode] a node that is
    to be added.  The operations on both; those on a diff read the node that the
    diff is of. *)

From S2P Require Import Prelude Vec TensorName GraphView HashOrder.
#[local] Open Scope string_scope.
#[local] Open Scope list_scope.
#[local] Open Scope Z_scope.

(** [EmptyTensorId] and [IsEmptyTensorId] *)
Definition EmptyTensorId : TensorId := mk_TensorId "" kMissingSlot.
Definition IsEmptyTensorId (t : TensorId) : bool :=
  bool_decide (TensorName.node t = "") && (TensorName.index t =? kMissingSlot).

(** Adds or updates a value of a vector, which grows by [default_value]s. *)
Definition AddOrUpdateAtIndex {T} `{!EqDecision T} (v : list T) (i : Z) (value default_value : T) : result (bool * list T) :=
  if size_ v <? i then mret (true, v ++ replicate (Z.to_nat (i - size_ v)) default_value ++ [value])
  else if i =? size_ v then mret (true, v ++ [value])
  else x ← at_ v i; mret (bool_decide (x = default_value), vset v i value).

(** The loop from the end of the vector; [r] is the vector in reverse. *)
Fixpoint trimmed_size {T} `{!EqDecision T} (value : T) (r : list T) (curr_index : Z) : Z :=
  match r with
  | x :: r => if bool_decide (x = value) then trimmed_size value r (curr_index - 1) else curr_index
  | [] => curr_index
  end.
Definition ResizeByTrimmingEndForValue {T} `{!EqDecision T} (v : list T) (value : T) : list T :=
  take (Z.to_nat (trimmed_size value (rev v) (size_ v))) v.

(** An iterator over increasing keys, moved on when it is before [i], and what it
    stands at when that is [i]. *)
Definition advance {A} (key : A -> Z) (i : Z) (l : list A) : list A :=
  match l with a :: r => if key a <? i then r else l | [] => [] end.
Definition head_at {A} (key : A -> Z) (i : Z) (l : list A) : option A :=
  match l with a :: _ => if key a =? i then Some a else None | [] => None end.

Section names.
  Context {AttrValue : Type}.
  #[local] Notation G := (MutableGraphView AttrValue).

(** Whether a node of that name will exist when the mutation has been applied. *)
Definition CheckNodeNameExists (node_name : string) (updated_node_names : gmap string Z) (g : G) : bool :=
  match updated_node_names !! node_name with
  | Some i => i =? kNodeNamePresent
  | None => HasNode g node_name
  end.

Definition invalid_node_name (node_name : string) (updated_node_names : gmap string Z) (g : G)
    (fanin_node_name : string) : bool :=
  bool_decide (fanin_node_name = node_name) || negb (CheckNodeNameExists fanin_node_name updated_node_names g).
End names.

(** ** Changes of a node *)

Module Diff.
Section diff.
  Context {AttrValue : Type}.
  #[local] Notation G := (MutableGraphView AttrValue).
  #[local] Notation D := (NodeViewDiff AttrValue).

Definition set_name (n : string) (b : bool) (x : D) : D :=
  mk_Diff (diff_node_index x) n b (diff_op x) (update_op x) (diff_device x) (update_device x)
    (regular_inputs_to_add x) (num_regular_inputs_to_add x) (regular_inputs_to_update x)
    (regular_inputs_to_remove x) (num_regular_inputs_to_remove x) (controlling_inputs_to_add x)
    (controlling_inputs_to_remove x) (attrs_to_add x) (attrs_to_remove x) (processed_attrs x).
Definition set_op (o : string) (b : bool) (x : D) : D :=
  mk_Diff (diff_node_index x) (diff_name x) (update_name x) o b (diff_device x) (update_device x)
    (regular_inputs_to_add x) (num_regular_inputs_to_add x) (regular_inputs_to_update x)
    (regular_inputs_to_remove x) (num_regular_inputs_to_remove x) (controlling_inputs_to_add x)
    (controlling_inputs_to_remove x) (attrs_to_add x) (attrs_to_remove x) (processed_attrs x).
Definition set_device (d : string) (b : bool) (x : D) : D :=
  mk_Diff (diff_node_index x) (diff_name x) (update_name x) (diff_op x) (update_op x) d b
    (regular_inputs_to_add x) (num_regular_inputs_to_add x) (regular_inputs_to_update x)
    (regular_inputs_to_remove x) (num_regular_inputs_to_remove x) (controlling_inputs_to_add x)
    (controlling_inputs_to_remove x) (attrs_to_add x) (attrs_to_remove x) (processed_attrs x).
Definition set_regular_add (l : list TensorId) (n : Z) (x : D) : D :=
  mk_Diff (diff_node_index x) (diff_name x) (update_name x) (diff_op x) (update_op x) (diff_device x) (update_device x)
    l n (regular_inputs_to_update x)
    (regular_inputs_to_remove x) (num_regular_inputs_to_remove x) (controlling_inputs_to_add x)
    (controlling_inputs_to_remove x) (attrs_to_add x) (attrs_to_remove x) (processed_attrs x).
Definition set_regular_update (m : gmap Z TensorId) (x : D) : D :=
  mk_Diff (diff_node_index x) (diff_name x) (update_name x) (diff_op x) (update_op x) (diff_device x) (update_device x)
    (regular_inputs_to_add x) (num_regular_inputs_to_add x) m
    (regular_inputs_to_remove x) (num_regular_inputs_to_remove x) (controlling_inputs_to_add x)
    (controlling_inputs_to_remove x) (attrs_to_add x) (attrs_to_remove x) (processed_attrs x).
Definition set_regular_remove (l : list bool) (n : Z) (x : D) : D :=
  mk_Diff (diff_node_index x) (diff_name x) (update_name x) (diff_op x) (update_op x) (diff_device x) (update_device x)
    (regular_inputs_to_add x) (num_regular_inputs_to_add x) (regular_inputs_to_update x)
    l n (controlling_inputs_to_add x)
    (controlling_inputs_to_remove x) (attrs_to_add x) (attrs_to_remove x) (processed_attrs x).
Definition set_controls (a : gset string) (r : gset Z) (x : D) : D :=
  mk_Diff (diff_node_index x) (diff_name x) (update_name x) (diff_op x) (update_op x) (diff_device x) (update_device x)
    (regular_inputs_to_add x) (num_regular_inputs_to_add x) (regular_inputs_to_update x)
    (regular_inputs_to_remove x) (num_regular_inputs_to_remove x) a r
    (attrs_to_add x) (attrs_to_remove x) (processed_attrs x).
Definition set_attrs (a : gmap string AttrValue) (r : gset string) (x : D) : D :=
  mk_Diff (diff_node_index x) (diff_name x) (update_name x) (diff_op x) (update_op x) (diff_device x) (update_device x)
    (regular_inputs_to_add x) (num_regular_inputs_to_add x) (regular_inputs_to_update x)
    (regular_inputs_to_remove x) (num_regular_inputs_to_remove x) (controlling_inputs_to_add x)
    (controlling_inputs_to_remove x) a r (processed_attrs x).
Definition set_processed (p : option (gmap string AttrValue)) (x : D) : D :=
  mk_Diff (diff_node_index x) (diff_name x) (update_name x) (diff_op x) (update_op x) (diff_device x) (update_device x)
    (regular_inputs_to_add x) (num_regular_inputs_to_add x) (regular_inputs_to_update x)
    (regular_inputs_to_remove x) (num_regular_inputs_to_remove x) (controlling_inputs_to_add x)
    (controlling_inputs_to_remove x) (attrs_to_add x) (attrs_to_remove x) p.
Definition set_node_index (i : Z) (x : D) : D :=
  mk_Diff i (diff_name x) (update_name x) (diff_op x) (update_op x) (diff_device x) (update_device x)
    (regular_inputs_to_add x) (num_regular_inputs_to_add x) (regular_inputs_to_update x)
    (regular_inputs_to_remove x) (num_regular_inputs_to_remove x) (controlling_inputs_to_add x)
    (controlling_inputs_to_remove x) (attrs_to_add x) (attrs_to_remove x) (processed_attrs x).

(** [NodeViewDiff(graph_view, node_index)] *)
Definition make (node_index : Z) : D :=
  mk_Diff node_index "" false "" false "" false [] 0 ∅ [] 0 ∅ ∅ ∅ ∅ None.

(** [diff->graph_view->GetNode(diff->node_index)] and its NodeDef. *)
Definition node_of (g : G) (x : D) : result MutableNodeView := in_range (GetNode_by_index g (diff_node_index x)).
Definition def_of (g : G) (x : D) : result (NodeDef AttrValue) := v ← node_of g x; at_ (graph g) (node_index_ v).

Definition UpdateName (g : G) (n : string) (x : D) : result (bool * D) :=
  d ← def_of g x;
  mret (true, if bool_decide (name d = n) then set_name "" false x else set_name n true x).
Definition UpdateOp (g : G) (o : string) (x : D) : result (bool * D) :=
  d ← def_of g x;
  mret (true, if bool_decide (op d = o) then set_op "" false x else set_op o true x).
Definition UpdateDevice (g : G) (dev : string) (x : D) : result (bool * D) :=
  d ← def_of g x;
  mret (true, if bool_decide (device d = dev) then set_device "" false x else set_device dev true x).

Definition AddOrUpdateRegularFanin (g : G) (index : Z) (fanin : TensorId) (x : D) : result (bool * D) :=
  if index <? 0 then mret (false, x) else
  node_view ← node_of g x;
  let num_regular_fanins := NumRegularFanins node_view in
  if index <? num_regular_fanins then
    let relative_removal_index := num_regular_fanins - index - 1 in
    marked ← (if relative_removal_index <? size_ (regular_inputs_to_remove x)
              then at_ (regular_inputs_to_remove x) relative_removal_index else mret false);
    let x := if marked : bool
      then set_regular_remove (vset (regular_inputs_to_remove x) relative_removal_index false)
             (num_regular_inputs_to_remove x - 1) x
      else x in
    let existing_fanin := GetRegularFanin node_view index in
    differs ← (if negb (fanout_port_index existing_fanin =? TensorName.index fanin) then mret true
               else d ← at_ (graph g) (fanout_node_index existing_fanin);
                    mret (negb (bool_decide (name d = TensorName.node fanin))));
    mret (true, if differs : bool then set_regular_update (<[index := fanin]> (regular_inputs_to_update x)) x else x)
  else
    '(added, l) ← AddOrUpdateAtIndex (regular_inputs_to_add x) (index - num_regular_fanins) fanin EmptyTensorId;
    mret (true, set_regular_add l (num_regular_inputs_to_add x + (if added : bool then 1 else 0)) x).

Definition RemoveRegularFanin (g : G) (index : Z) (x : D) : result (bool * D) :=
  if index <? 0 then mret (false, x) else
  node_view ← node_of g x;
  let num_regular_fanins := NumRegularFanins node_view in
  if index <? num_regular_fanins then
    let x := set_regular_update (delete index (regular_inputs_to_update x)) x in
    '(marked, l) ← AddOrUpdateAtIndex (regular_inputs_to_remove x) (num_regular_fanins - index - 1) true false;
    mret (true, set_regular_remove l (num_regular_inputs_to_remove x + (if marked : bool then 1 else 0)) x)
  else
    let relative_add_index := index - num_regular_fanins in
    missing ← (if size_ (regular_inputs_to_add x) <=? relative_add_index then mret true
               else t ← at_ (regular_inputs_to_add x) relative_add_index; mret (IsEmptyTensorId t));
    if missing : bool then mret (false, x)
    else mret (true, set_regular_add (vset (regular_inputs_to_add x) relative_add_index EmptyTensorId)
                       (num_regular_inputs_to_add x - 1) x).

Definition AddControllingFanin (control_index : Z) (fanin_node_name : string) (x : D) : bool * D :=
  (true, if control_index =? kMissingIndex
         then set_controls ({[fanin_node_name]} ∪ controlling_inputs_to_add x) (controlling_inputs_to_remove x) x
         else set_controls (controlling_inputs_to_add x) (controlling_inputs_to_remove x ∖ {[control_index]}) x).

Definition RemoveControllingFanin (control_index : Z) (fanin_node_name : string) (x : D) : bool * D :=
  (true, if control_index =? kMissingIndex
         then set_controls (controlling_inputs_to_add x ∖ {[fanin_node_name]}) (controlling_inputs_to_remove x) x
         else set_controls (controlling_inputs_to_add x) ({[control_index]} ∪ controlling_inputs_to_remove x) x).

Definition AddOrUpdateAttribute (attr_name : string) (attr_value : AttrValue) (x : D) : bool * D :=
  let x := if bool_decide (attrs_to_add x = ∅) then x
           else set_attrs (attrs_to_add x) (attrs_to_remove x ∖ {[attr_name]}) x in
  (true, set_attrs (<[attr_name := attr_value]> (attrs_to_add x)) (attrs_to_remove x) x).

Definition RemoveAttribute (g : G) (attr_name : string) (x : D) : result (bool * D) :=
  let erased := bool_decide (is_Some (attrs_to_add x !! attr_name)) in
  let x := set_attrs (delete attr_name (attrs_to_add x)) (attrs_to_remove x) x in
  d ← def_of g x;
  if bool_decide (is_Some (attr d !! attr_name))
  then mret (true, set_attrs (attrs_to_add x) ({[attr_name]} ∪ attrs_to_remove x) x)
  else mret (erased, x).

(** The vectors lose the values at their ends that say nothing. *)
Definition trim (x : D) : D :=
  set_regular_remove (ResizeByTrimmingEndForValue (regular_inputs_to_remove x) false) (num_regular_inputs_to_remove x)
    (set_regular_add (ResizeByTrimmingEndForValue (regular_inputs_to_add x) EmptyTensorId) (num_regular_inputs_to_add x) x).

Definition IsEmpty (x : D) : bool * D :=
  let x := trim x in
  (negb (update_name x) && negb (update_op x) && negb (update_device x) &&
   bool_decide (regular_inputs_to_add x = []) && bool_decide (regular_inputs_to_update x = ∅) &&
   bool_decide (regular_inputs_to_remove x = []) && bool_decide (controlling_inputs_to_add x = ∅) &&
   bool_decide (controlling_inputs_to_remove x = ∅) && bool_decide (attrs_to_add x = ∅) &&
   bool_decide (attrs_to_remove x = ∅), x).

Definition Reset (x : D) : D := 
  mk_Diff (diff_node_index x) "" false "" false "" false [] 0 ∅ [] 0 ∅ ∅ ∅ ∅ (processed_attrs x).

(** *** Whether the changed node is valid *)

(** The walk over the fanins [i], [i + 1], ... of a renamed node, along with the
    updates in increasing order. *)
Fixpoint renamed_regular_ok (invalid : string -> bool) (node_name : string) (g : G) (node_view : MutableNodeView)
    (todo : nat) (i : Z) (regular_to_update : list (Z * TensorId)) : result bool :=
  match todo with
  | O => mret true
  | S todo =>
      let regular_to_update := advance fst i regular_to_update in
      bad ← match head_at fst i regular_to_update with
            | Some (_, t) => mret (invalid (TensorName.node t))
            | None =>
                d ← at_ (graph g) (fanout_node_index (GetRegularFanin node_view i));
                mret (bool_decide (name d = node_name))
            end;
      if bad : bool then mret false
      else renamed_regular_ok invalid node_name g node_view todo (i + 1) regular_to_update
  end.

Fixpoint renamed_controls_ok (node_name : string) (g : G) (controls : list MutableFanoutView) (i : Z)
    (control_to_remove : list Z) : result bool :=
  match controls with
  | [] => mret true
  | control :: controls =>
      let control_to_remove := advance id i control_to_remove in
      bad ← match head_at id i control_to_remove with
            | Some _ => mret false
            | None => d ← at_ (graph g) (fanout_node_index control); mret (bool_decide (name d = node_name))
            end;
      if bad : bool then mret false
      else renamed_controls_ok node_name g controls (i + 1) control_to_remove
  end.

Context {HO : HashOrder}.

(** The appended regular fanins and the new controlling ones. *)
Definition new_fanins_ok (invalid : string -> bool) (x : D) : bool :=
  forallb (fun t => negb (invalid (TensorName.node t))) (regular_inputs_to_add x) &&
  forallb (fun s => negb (invalid s)) (names_in_order (controlling_inputs_to_add x)).

Definition IsWellFormed (g : G) (updated_node_names : gmap string Z) (x : D) : result (bool * D) :=
  let x := trim x in
  if negb (size_ (regular_inputs_to_add x) =? num_regular_inputs_to_add x) then mret (false, x)
  else if (0 <? num_regular_inputs_to_add x) && negb (bool_decide (regular_inputs_to_remove x = [])) then mret (false, x)
  else if negb (size_ (regular_inputs_to_remove x) =? num_regular_inputs_to_remove x) then mret (false, x)
  else
    node_view ← node_of g x;
    d ← def_of g x;
    let node_name := if update_name x then diff_name x else name d in
    let invalid := invalid_node_name node_name updated_node_names g in
    ok ← (if update_name x then
            r ← renamed_regular_ok invalid node_name g node_view
                  (Z.to_nat (NumRegularFanins node_view - num_regular_inputs_to_remove x)) 0
                  (sorted_entries (regular_inputs_to_update x));
            if r : bool then renamed_controls_ok node_name g (controlling_fanins_ node_view) 0
                               (sorted_indices (controlling_inputs_to_remove x))
            else mret false
          else mret (forallb (fun e => negb (invalid (TensorName.node e.2))) (sorted_entries (regular_inputs_to_update x))));
    mret ((ok : bool) && new_fanins_ok invalid x, x).
End diff.
End Diff.

(** ** Nodes that are to be added *)

Module New.
Section new.
  Context {AttrValue : Type}.
  #[local] Notation G := (MutableGraphView AttrValue).
  #[local] Notation N := (NewNode AttrValue).

Definition set_node (d : NodeDef AttrValue) (n : N) : N :=
  mk_NewNode d (new_regular_fanins n) (num_regular_fanins n) (new_controlling_fanins n).
Definition set_regular (l : list TensorId) (k : Z) (n : N) : N :=
  mk_NewNode (new_node n) l k (new_controlling_fanins n).
Definition set_controls (s : gset string) (n : N) : N :=
  mk_NewNode (new_node n) (new_regular_fanins n) (num_regular_fanins n) s.

(** An empty name, op or device clears the field, which then is empty. *)
Definition UpdateName (s : string) (n : N) : N :=
  let d := new_node n in set_node (mk_NodeDef (address d) s (op d) (device d) (input d) (attr d)) n.
Definition UpdateOp (s : string) (n : N) : N :=
  let d := new_node n in set_node (mk_NodeDef (address d) (name d) s (device d) (input d) (attr d)) n.
Definition UpdateDevice (s : string) (n : N) : N :=
  let d := new_node n in set_node (mk_NodeDef (address d) (name d) (op d) s (input d) (attr d)) n.

Definition AddOrUpdateRegularFanin (index : Z) (fanin : TensorId) (n : N) : result N :=
  if index <? 0 then mret n
  else '(added, l) ← AddOrUpdateAtIndex (new_regular_fanins n) index fanin EmptyTensorId;
       mret (set_regular l (num_regular_fanins n + (if added : bool then 1 else 0)) n).

Definition RemoveRegularFanin (index : Z) (n : N) : result N :=
  if (index <? 0) || (size_ (new_regular_fanins n) <=? index) then mret n
  else t ← at_ (new_regular_fanins n) index;
       if IsEmptyTensorId t then mret n
       else mret (set_regular (vset (new_regular_fanins n) index EmptyTensorId) (num_regular_fanins n - 1) n).

Definition AddControllingFanin (fanin_node_name : string) (n : N) : N :=
  set_controls ({[fanin_node_name]} ∪ new_controlling_fanins n) n.
Definition RemoveControllingFanin (fanin_node_name : string) (n : N) : N :=
  set_controls (new_controlling_fanins n ∖ {[fanin_node_name]}) n.

Definition set_attr (m : gmap string AttrValue) (n : N) : N :=
  let d := new_node n in set_node (mk_NodeDef (address d) (name d) (op d) (device d) (input d) m) n.
Definition AddOrUpdateAttribute (attr_name : string) (attr_value : AttrValue) (n : N) : N :=
  set_attr (<[attr_name := attr_value]> (attr (new_node n))) n.
Definition RemoveAttribute (attr_name : string) (n : N) : N :=
  set_attr (delete attr_name (attr (new_node n))) n.

Context {HO : HashOrder}.

Definition IsWellFormed (g : G) (updated_node_names : gmap string Z) (n : N) : bool * N :=
  let n := set_regular (ResizeByTrimmingEndForValue (new_regular_fanins n) EmptyTensorId) (num_regular_fanins n) n in
  if negb (size_ (new_regular_fanins n) =? num_regular_fanins n) then (false, n)
  else
    let invalid := invalid_node_name (name (new_node n)) updated_node_names g in
    (forallb (fun t => negb (invalid (TensorName.node t))) (new_regular_fanins n) &&
     forallb (fun s => negb (invalid s)) (names_in_order (new_controlling_fanins n)), n).
End new.
End New.
