(* ===== verification/GraphContent.v ===== *)
(** * GraphContent: what a node of a graph says

    The content of a node, whatever the indices of the view: its name, op and
    device, the tensors of its regular inputs by position, its control inputs
    and its attributes.  [edit] are the changes that a mutation can ask of a
    node, [edit_content] is what each of them means. *)

From S2P Require Import Prelude Vec TensorName GraphView GraphInv.
#[local] Open Scope string_scope.
#[local] Open Scope list_scope.
#[local] Open Scope Z_scope.

Section content.
  Context {AttrValue : Type}.

(** While a node is being changed there may be gaps between its regular inputs. *)
Record content := mk_content {
  c_name : string;
  c_op : string;
  c_device : string;
  c_regular : Z -> option TensorId;
  c_controls : gset string;
  c_attr : gmap string AttrValue
}.

Inductive edit :=
  | SetName (s : string)
  | SetOp (s : string)
  | SetDevice (s : string)
  | SetFanin (k : Z) (t : TensorId)
  | UnsetFanin (k : Z)
  | AddControl (s : string)
  | DropControl (s : string)
  | SetAttr (s : string) (a : AttrValue)
  | DropAttr (s : string).

Definition set_slot (k : Z) (o : option TensorId) (f : Z -> option TensorId) : Z -> option TensorId :=
  fun i => if bool_decide (i = k) then o else f i.

Definition edit_content (e : edit) (c : content) : content :=
  match c with mk_content n o dev r cs a =>
    match e with
    | SetName s => mk_content s o dev r cs a
    | SetOp s => mk_content n s dev r cs a
    | SetDevice s => mk_content n o s r cs a
    | SetFanin k t => mk_content n o dev (set_slot k (Some t) r) cs a
    | UnsetFanin k => mk_content n o dev (set_slot k None r) cs a
    | AddControl s => mk_content n o dev r ({[s]} ∪ cs) a
    | DropControl s => mk_content n o dev r (cs ∖ {[s]}) a
    | SetAttr s v => mk_content n o dev r cs (<[s := v]> a)
    | DropAttr s => mk_content n o dev r cs (delete s a)
    end
  end.

(** Two contents are the same when they have the same inputs at every position. *)
#[export] Instance content_equiv : Equiv content := fun c c' =>
  c_name c = c_name c' /\ c_op c = c_op c' /\ c_device c = c_device c' /\
  (forall k, c_regular c k = c_regular c' k) /\ c_controls c = c_controls c' /\ c_attr c = c_attr c'.

#[export] Instance content_equivalence : Equivalence (≡@{content}).
Proof.
  split.
  - intros c. done.
  - intros c c' (? & ? & ? & ? & ? & ?). by split_and!.
  - intros c1 c2 c3 (? & ? & ? & Hr & ? & ?) (? & ? & ? & Hr' & ? & ?).
    unfold equiv, content_equiv. split_and!; congruence.
Qed.

#[export] Instance edit_content_proper e : Proper ((≡) ==> (≡)) (edit_content e).
Proof.
  intros [] [] (? & ? & ? & Hr & ? & ?). cbn in *. subst.
  destruct e; split_and!; cbn; try done; intros i; unfold set_slot; by case_bool_decide.
Qed.

(** The inputs without gaps, as a list. *)
Definition regular_inputs (c : content) (l : list TensorId) : Prop := forall k, c_regular c k = vget l k.

#[local] Notation G := (MutableGraphView AttrValue).

Definition control_names (g : G) (v : MutableNodeView) : gset string :=
  list_to_set (map (fun w => name_of g (fanout_node_index w)) (controlling_fanins_ v)).

Definition node_content (g : G) (d : NodeDef AttrValue) (v : MutableNodeView) : content :=
  mk_content (name d) (op d) (device d) (fun k => fanin_id g <$> vget (regular_fanins_ v) k)
    (control_names g v) (attr d).

Lemma elem_of_control_names g v s : s ∈ control_names g v <->
  exists k w, vget (controlling_fanins_ v) k = Some w /\ name_of g (fanout_node_index w) = s.
Proof.
  unfold control_names. rewrite elem_of_list_to_set, list_elem_of_fmap. setoid_rewrite elem_of_vget. naive_solver.
Qed.
End content.
Arguments content : clear implicits.
Arguments edit : clear implicits.
