(* ===== verification/GraphWellFormed.v ===== *)
(** * GraphWellFormed: when a changed node is valid

    [IsWellFormed] of a diff and of a new node, against what the node is to be:
    no gaps between the regular inputs, and no input that is missing or the node
    itself. *)

From S2P Require Import Prelude TensorName Vec GraphView GraphInv GraphEditProofs HashOrder GraphDiff GraphContent.
#[local] Open Scope string_scope.
#[local] Open Scope list_scope.
#[local] Open Scope Z_scope.

(** ** A diff denotes the changes that were asked for

    [target] is the content that a node will have once its diff is applied.
    Every operation on a diff changes the target by the edit that it stands for,
    and keeps the counters of the diff right. *)

(** ** Vectors with a default value *)

Section padded.
  Context {T : Type} `{!EqDecision T} (dflt : T).
  Implicit Type l : list T.

Definition padded l (c : Z) : T := default dflt (vget l c).
Definition proper_count l : Z := Zsum (fun x => if bool_decide (x = dflt) then 0 else 1) l.

Lemma AddOrUpdateAtIndex_spec l i value : 0 <= i -> value <> dflt ->
  exists b l', AddOrUpdateAtIndex l i value dflt = Ok (b, l') /\
    (forall c, padded l' c = if bool_decide (c = i) then value else padded l c) /\
    proper_count l' = proper_count l + (if b : bool then 1 else 0) /\
    size_ l' = Z.max (size_ l) (i + 1).
Proof.
  intros Hi Hv. unfold AddOrUpdateAtIndex. pose proof (size_nonneg l). destruct (Z.ltb_spec (size_ l) i) as [Hlt|Hge].
  - exists true. eexists. split; [reflexivity|]. set (m := Z.to_nat (i - size_ l)).
    assert (size_ (replicate m dflt) = i - size_ l) as Hm by (unfold size_ at 1; rewrite length_replicate; lia).
    assert (size_ (l ++ replicate m dflt) = i) as Hs by (unfold size_ in *; rewrite length_app; lia).
    assert (proper_count (replicate m dflt) = 0) as Hc.
    { clear. unfold proper_count. induction m as [|m IH]; [done|]. cbn [replicate Zsum foldr]. fold (Zsum (fun x => if bool_decide (x = dflt) then 0 else 1) (replicate m dflt)).
      rewrite IH, bool_decide_true by done. done. }
    rewrite app_assoc. split_and!.
    + intros c. unfold padded. rewrite vget_snoc, Hs, (bool_decide_ext (i = c) (c = i)) by done.
      case_bool_decide; [done|]. destruct (decide (c < size_ l)); [by rewrite vget_app_l|].
      rewrite vget_app_r by lia. rewrite (vget_None l) by lia.
      destruct (vget (replicate m dflt) (c - size_ l)) as [x|] eqn:E; [|done].
      assert (x ∈ replicate m dflt) as Hx by (apply elem_of_vget; eauto). by apply elem_of_replicate in Hx as [-> _].
    + unfold proper_count in *. rewrite !Zsum_app, Hc. cbn [Zsum foldr]. rewrite bool_decide_false by done. lia.
    + rewrite size_snoc. lia.
  - destruct (Z.eqb_spec i (size_ l)) as [->|Hne].
    + exists true. eexists. split; [reflexivity|]. split_and!.
      * intros c. unfold padded. rewrite vget_snoc, (bool_decide_ext (size_ l = c) (c = size_ l)) by done.
        by case_bool_decide.
      * unfold proper_count. rewrite Zsum_app. cbn [Zsum foldr]. rewrite bool_decide_false by done. lia.
      * rewrite size_snoc. lia.
    + destruct (vget_ex l i) as [x Hx]; [lia|]. rewrite (at_Some _ _ _ Hx). eexists _, _. split; [reflexivity|]. split_and!.
      * intros c. unfold padded. rewrite vget_vset by lia. rewrite (bool_decide_ext (i = c) (c = i)) by done.
        by case_bool_decide.
      * unfold proper_count. rewrite (Zsum_vset _ _ _ _ _ Hx). rewrite (bool_decide_false (value = dflt)) by done.
        case_bool_decide; lia.
      * rewrite size_vset. lia.
Qed.

(** Setting an entry back to the default. *)
Lemma padded_clear l i x : vget l i = Some x -> x <> dflt ->
  (forall c, padded (vset l i dflt) c = if bool_decide (c = i) then dflt else padded l c) /\
  proper_count (vset l i dflt) = proper_count l - 1.
Proof.
  intros Hx Hd. pose proof (vget_Some _ _ _ Hx). split.
  - intros c. unfold padded. rewrite vget_vset by done. rewrite (bool_decide_ext (i = c) (c = i)) by done.
    by case_bool_decide.
  - unfold proper_count. rewrite (Zsum_vset _ _ _ _ _ Hx). rewrite (bool_decide_true (dflt = dflt)), bool_decide_false by done. lia.
Qed.

(** No other values come in. *)
Lemma padded_elem l l' i y x : (forall c, padded l' c = if bool_decide (c = i) then y else padded l c) ->
  x ∈ l' -> x = y \/ x = dflt \/ x ∈ l.
Proof.
  intros Hp [c Hc]%elem_of_vget. specialize (Hp c). unfold padded in Hp. rewrite Hc in Hp. cbn in Hp.
  case_bool_decide; [by left|]. right. destruct (vget l c) as [z|] eqn:E; cbn in Hp; [|by left].
  right. subst x. apply elem_of_vget. eauto.
Qed.

(** Trimming removes default values at the end, all of them. *)
Lemma trimmed_size_spec r : forall n, n = size_ r -> exists m : nat,
  trimmed_size dflt r n = n - Z.of_nat m /\ take m r = replicate m dflt /\ (m <= length r)%nat /\
  (forall x, r !! m = Some x -> x <> dflt).
Proof.
  induction r as [|y r IH]; intros n Hn; cbn [trimmed_size].
  - exists 0%nat. split_and!; [lia|done|simpl; lia|done].
  - case_bool_decide as E.
    + subst y. destruct (IH (n - 1)) as (m & -> & Ht & Hl & Hx); [unfold size_ in *; simpl in Hn; lia|].
      exists (S m). cbn [take replicate length]. rewrite Ht. split_and!; [lia|done|lia|exact Hx].
    + exists 0%nat. split_and!; [lia|done|simpl; lia|]. by intros x [= <-].
Qed.

Lemma trimming_split l : exists m, l = ResizeByTrimmingEndForValue l dflt ++ replicate m dflt /\
  (forall x, vget (ResizeByTrimmingEndForValue l dflt) (size_ (ResizeByTrimmingEndForValue l dflt) - 1) = Some x -> x <> dflt).
Proof.
  destruct (trimmed_size_spec (rev l) (size_ l)) as (m & Hm & Ht & Hl & Hx).
  { unfold size_. by rewrite length_rev. }
  rewrite length_rev in Hl. unfold ResizeByTrimmingEndForValue. rewrite Hm.
  replace (Z.to_nat (size_ l - Z.of_nat m)) with (length l - m)%nat by (unfold size_; lia).
  assert (l = take (length l - m) l ++ replicate m dflt) as Hsplit.
  { rewrite <- (take_drop (length l - m) l) at 1. f_equal.
    rewrite firstn_rev in Ht. apply (f_equal (@rev T)) in Ht. rewrite rev_involutive in Ht. rewrite Ht.
    clear. induction m as [|m IH]; [done|]. simpl. rewrite IH. by rewrite <- replicate_cons_app. }
  exists m. split; [done|]. intros x Hv.
  set (l' := take (length l - m) l) in *. assert (size_ l' = size_ l - Z.of_nat m) as Hlen.
  { unfold size_, l'. rewrite length_take. lia. }
  pose proof (vget_Some _ _ _ Hv). apply (Hx x). assert (vget l (size_ l' - 1) = Some x) as Hv'.
  { rewrite Hsplit. rewrite vget_app_l by lia. done. }
  rewrite Hlen in Hv'. replace (size_ l - Z.of_nat m - 1) with (Z.of_nat (length l - S m)) in Hv' by (unfold size_ in *; lia).
  rewrite vget_nat in Hv'. pose proof (reverse_lookup l m ltac:(unfold size_ in *; lia)) as Hr.
  unfold reverse in Hr. rewrite <- rev_alt in Hr. by rewrite Hr.
Qed.
End padded.

Lemma IsEmptyTensorId_spec t : IsEmptyTensorId t = bool_decide (t = EmptyTensorId).
Proof.
  destruct t as [s i]. unfold IsEmptyTensorId, EmptyTensorId. cbn. apply eq_true_iff_eq.
  rewrite andb_true_iff, !bool_decide_eq_true, Z.eqb_eq. split; [intros [-> ->]; done|by intros [= -> ->]].
Qed.

Lemma GetRegularFanin_Some v k w : vget (regular_fanins_ v) k = Some w -> GetRegularFanin v k = w.
Proof.
  intros Hw. pose proof (vget_Some _ _ _ Hw). unfold GetRegularFanin, NumRegularFanins.
  destruct (Z.ltb_spec k 0); [lia|]. destruct (Z.leb_spec (size_ (regular_fanins_ v)) k); [lia|]. by rewrite Hw.
Qed.

(** ** The target of a diff *)

Section target.
  Context {AttrValue : Type}.
  #[local] Notation G := (MutableGraphView AttrValue).
  #[local] Notation D := (NodeViewDiff AttrValue).

(** Fanin [k] of the node is marked for removal; the marks count from the end. *)
Definition marked (v : MutableNodeView) (x : D) (k : Z) : bool :=
  padded false (regular_inputs_to_remove x) (NumRegularFanins v - k - 1).

Definition slots (g : G) (v : MutableNodeView) (x : D) (k : Z) : option TensorId :=
  if k <? NumRegularFanins v then
    if marked v x k then None
    else match regular_inputs_to_update x !! k with
         | Some t => Some t
         | None => fanin_id g <$> vget (regular_fanins_ v) k
         end
  else
    let t := padded EmptyTensorId (regular_inputs_to_add x) (k - NumRegularFanins v) in
    if bool_decide (t = EmptyTensorId) then None else Some t.

Definition kept_controls (g : G) (v : MutableNodeView) (x : D) : gset string :=
  list_to_set (omap (fun k => if bool_decide (k ∈ controlling_inputs_to_remove x) then None
                              else (fun w => name_of g (fanout_node_index w)) <$> vget (controlling_fanins_ v) k)
                 (count_up (NumControllingFanins v))).

Definition kept_attrs (d : NodeDef AttrValue) (x : D) : gmap string AttrValue :=
  base.filter (fun e => e.1 ∉ attrs_to_remove x) (attr d).

Definition target (g : G) (d : NodeDef AttrValue) (v : MutableNodeView) (x : D) : content AttrValue :=
  mk_content (if update_name x then diff_name x else name d)
    (if update_op x then diff_op x else op d)
    (if update_device x then diff_device x else device d)
    (slots g v x)
    (controlling_inputs_to_add x ∪ kept_controls g v x)
    (attrs_to_add x ∪ kept_attrs d x).

(** The output ports that a fanin may have: those of an int that are no control
    slot; a gap has none. *)
Definition port_ok (t : TensorId) : Prop := 0 <= TensorName.index t < 2 ^ 31.
Definition slot_ok (t : TensorId) : Prop := t = EmptyTensorId \/ port_ok t.

(** The diff is one of the node: the counters count, the marks are within the
    node, and no fanin is both updated and removed. *)
Record diff_ok (v : MutableNodeView) (x : D) : Prop := {
  ok_num_add : num_regular_inputs_to_add x = proper_count EmptyTensorId (regular_inputs_to_add x);
  ok_num_remove : num_regular_inputs_to_remove x = proper_count false (regular_inputs_to_remove x);
  ok_remove_size : size_ (regular_inputs_to_remove x) <= NumRegularFanins v;
  ok_update : forall k t, regular_inputs_to_update x !! k = Some t ->
    0 <= k < NumRegularFanins v /\ marked v x k = false;
  ok_controls_add : forall s, s ∈ controlling_inputs_to_add x -> controlling_fanins_index_ v !! s = None;
  ok_controls_remove : forall k, k ∈ controlling_inputs_to_remove x -> 0 <= k < NumControllingFanins v;
  ok_ports_update : forall k t, regular_inputs_to_update x !! k = Some t -> port_ok t;
  ok_ports_add : forall t, t ∈ regular_inputs_to_add x -> slot_ok t
}.

Lemma elem_of_kept_controls g v x s : s ∈ kept_controls g v x <->
  exists k w, vget (controlling_fanins_ v) k = Some w /\ k ∉ controlling_inputs_to_remove x /\
    name_of g (fanout_node_index w) = s.
Proof.
  unfold kept_controls. rewrite elem_of_list_to_set, list_elem_of_omap. split.
  - intros (k & _ & Hk). case_bool_decide; [done|]. apply fmap_Some in Hk as (w & Hw & ->). eauto.
  - intros (k & w & Hw & Hk & <-). exists k. split; [apply elem_of_count_up; by eapply vget_Some|].
    rewrite bool_decide_false, Hw by done. done.
Qed.

(** A fresh diff asks for nothing. *)
Lemma diff_ok_make v i : diff_ok v (Diff.make i).
Proof.
  split; try done; cbn; try (intros; set_solver). apply size_nonneg.
Qed.

Lemma target_make g d v i : target g d v (Diff.make i) ≡ node_content g d v.
Proof.
  split_and!; cbn; try done.
  - intros k. unfold slots. cbn [Diff.make regular_inputs_to_update regular_inputs_to_remove regular_inputs_to_add].
    destruct (Z.ltb_spec k (NumRegularFanins v)).
    + unfold marked, padded. cbn. rewrite vget_nil. done.
    + unfold padded. rewrite vget_nil. cbn. rewrite vget_None by (unfold NumRegularFanins in *; lia). done.
  - apply set_eq. intros s. rewrite elem_of_union, elem_of_kept_controls, elem_of_control_names. cbn. set_solver.
  - unfold kept_attrs. cbn. rewrite (left_id_L ∅ (∪)). apply map_filter_id. cbn. set_solver.
Qed.
End target.

(** ** Edits *)

(** The fields of a changed diff. *)
Ltac simpl_diff := cbn [diff_node_index diff_name update_name diff_op update_op diff_device update_device
  regular_inputs_to_add num_regular_inputs_to_add regular_inputs_to_update regular_inputs_to_remove
  num_regular_inputs_to_remove controlling_inputs_to_add controlling_inputs_to_remove attrs_to_add attrs_to_remove
  processed_attrs Diff.set_name Diff.set_op Diff.set_device Diff.set_regular_add Diff.set_regular_update
  Diff.set_regular_remove Diff.set_controls Diff.set_attrs Diff.set_processed Diff.set_node_index].

Section edits.
  Context {AttrValue : Type}.
  #[local] Notation G := (MutableGraphView AttrValue).
  #[local] Notation D := (NodeViewDiff AttrValue).

(** Where a controlling fanin stands among those of the node, if it does. *)
Definition control_index (v : MutableNodeView) (fanin_node_name : string) : Z :=
  default kMissingIndex (controlling_fanins_index_ v !! fanin_node_name).

Definition diff_edit (g : G) (v : MutableNodeView) (e : edit AttrValue) (x : D) : result (bool * D) :=
  match e with
  | SetName s => Diff.UpdateName g s x
  | SetOp s => Diff.UpdateOp g s x
  | SetDevice s => Diff.UpdateDevice g s x
  | SetFanin k t => Diff.AddOrUpdateRegularFanin g k t x
  | UnsetFanin k => Diff.RemoveRegularFanin g k x
  | AddControl s => mret (Diff.AddControllingFanin (control_index v s) s x)
  | DropControl s => mret (Diff.RemoveControllingFanin (control_index v s) s x)
  | SetAttr s a => mret (Diff.AddOrUpdateAttribute s a x)
  | DropAttr s => Diff.RemoveAttribute g s x
  end.

Context (g : G) (v : MutableNodeView) (d : NodeDef AttrValue) (x : D).
Context (Hg : view_ok g) (Hv : vget (nodes_ g) (diff_node_index x) = Some v)
  (Hd : vget (graph g) (diff_node_index x) = Some d) (Hx : diff_ok v x).

(** A fanin is set at a valid position, to an output of a node.  A position that
    has a pending update is not set back to its fanin: the update would stay. *)
Definition edit_ok (e : edit AttrValue) : Prop :=
  match e with
  | SetFanin k t => 0 <= k /\ port_ok t /\
      (fanin_id g <$> vget (regular_fanins_ v) k = Some t -> regular_inputs_to_update x !! k = None)
  | _ => True
  end.

(** What an edit makes of the diff. *)
Definition edited (e : edit AttrValue) (r : result (bool * D)) : Prop :=
  exists b x', r = Ok (b, x') /\ (b = false -> x' = x) /\ diff_node_index x' = diff_node_index x /\
    diff_ok v x' /\ target g d v x' ≡ edit_content e (target g d v x).

Lemma node_of_diff : Diff.node_of g x = Ok v /\ Diff.def_of g x = Ok d.
Proof.
  pose proof (vget_Some _ _ _ Hv). assert (Diff.node_of g x = Ok v) as Hn.
  { unfold Diff.node_of, GetNode_by_index. destruct (Z.ltb_spec (diff_node_index x) 0); [lia|].
    destruct (Z.leb_spec (size_ (nodes_ g)) (diff_node_index x)); [lia|]. by rewrite Hv. }
  split; [done|]. unfold Diff.def_of. rewrite Hn. cbn.
  rewrite (ok_index _ (ok_names_ok _ _ _ Hg) _ _ Hv). by apply at_Some.
Qed.

Lemma edit_SetName s : edited (SetName s) (Diff.UpdateName g s x).
Proof.
  unfold edited, Diff.UpdateName. rewrite (proj2 node_of_diff). eexists _, _. split; [reflexivity|]. split; [done|].
  split; [by case_bool_decide|]. split; [case_bool_decide; split; try apply Hx; done|].
  case_bool_decide; subst; split_and!; cbn; done.
Qed.

Lemma edit_SetOp s : edited (SetOp s) (Diff.UpdateOp g s x).
Proof.
  unfold edited, Diff.UpdateOp. rewrite (proj2 node_of_diff). eexists _, _. split; [reflexivity|]. split; [done|].
  split; [by case_bool_decide|]. split; [case_bool_decide; split; try apply Hx; done|].
  case_bool_decide; subst; split_and!; cbn; done.
Qed.

Lemma edit_SetDevice s : edited (SetDevice s) (Diff.UpdateDevice g s x).
Proof.
  unfold edited, Diff.UpdateDevice. rewrite (proj2 node_of_diff). eexists _, _. split; [reflexivity|]. split; [done|].
  split; [by case_bool_decide|]. split; [case_bool_decide; split; try apply Hx; done|].
  case_bool_decide; subst; split_and!; cbn; done.
Qed.

Lemma edit_SetAttr s a : edited (SetAttr s a) (mret (Diff.AddOrUpdateAttribute s a x)).
Proof.
  unfold edited, Diff.AddOrUpdateAttribute. eexists _, _. split; [reflexivity|]. split; [done|].
  split; [by case_bool_decide|]. split; [case_bool_decide; split; try apply Hx; done|].
  split_and!; try (case_bool_decide; done).
  cbn [c_attr target edit_content]. rewrite insert_union_l. apply map_eq. intros i.
  destruct (decide (i = s)) as [->|Hi].
  - assert (forall m, (<[s:=a]> (attrs_to_add x) ∪ m) !! s = Some a) as H; [|by case_bool_decide; cbn; rewrite !H].
    intros m. apply lookup_union_Some_l, lookup_insert_eq.
  - assert (kept_attrs d (if bool_decide (attrs_to_add x = ∅) then x
      else Diff.set_attrs (attrs_to_add x) (attrs_to_remove x ∖ {[s]}) x) !! i = kept_attrs d x !! i) as Hk.
    { unfold kept_attrs. case_bool_decide; [done|]. rewrite !map_lookup_filter. cbn.
      destruct (attr d !! i) as [y|]; [|done]. cbn. case_guard as H1; case_guard as H2; cbn; try done; set_solver. }
    case_bool_decide; cbn; cbn in Hk; rewrite !lookup_union; f_equal; done.
Qed.

Lemma edit_DropAttr s : edited (DropAttr s) (Diff.RemoveAttribute g s x).
Proof.
  unfold edited, Diff.RemoveAttribute.
  assert (Diff.def_of g (Diff.set_attrs (delete s (attrs_to_add x)) (attrs_to_remove x) x) = Ok d) as -> by apply node_of_diff.
  cbn [mbind result_bind]. case_bool_decide as E.
  - eexists _, _. split; [reflexivity|]. split; [done|]. split; [done|]. split; [split; apply Hx|].
    split_and!; try done. cbn. rewrite delete_union. f_equal. unfold kept_attrs. cbn.
    apply map_eq. intros i. rewrite lookup_delete, !map_lookup_filter.
    destruct (decide (s = i)) as [->|Hi]; destruct (attr d !! i); cbn; try done.
    + case_guard as H1; [|done]. set_solver.
    + case_guard as H1; case_guard as H2; cbn; try done; set_solver.
  - eexists _, _. split; [reflexivity|]. split.
    { intros Hn%bool_decide_eq_false. rewrite delete_id; [by destruct x|]. by apply eq_None_not_Some. }
    split; [done|]. split; [split; apply Hx|]. split_and!; try done. cbn. rewrite delete_union. f_equal.
    symmetry. apply delete_id. unfold kept_attrs. cbn. rewrite map_lookup_filter.
    apply eq_None_not_Some in E. by rewrite E.
Qed.

Lemma control_index_spec s k : controlling_fanins_index_ v !! s = Some k <->
  exists w, vget (controlling_fanins_ v) k = Some w /\ name_of g (fanout_node_index w) = s.
Proof.
  rewrite (ok_control_index _ _ _ _ _ (ok_index_ok _ _ _ Hg _ _ Hv)).
  split; [naive_solver|]. intros (w & ? & ?). exists w. split_and!; [done|set_solver|done].
Qed.

Lemma edit_AddControl s : edited (AddControl s) (mret (Diff.AddControllingFanin (control_index v s) s x)).
Proof.
  unfold edited, Diff.AddControllingFanin, control_index. eexists _, _. split; [reflexivity|]. split; [done|].
  destruct (controlling_fanins_index_ v !! s) as [k|] eqn:E; cbn [default from_option id].
  - pose proof (proj1 (control_index_spec s k) E) as (w & Hw & Hs). pose proof (vget_Some _ _ _ Hw).
    destruct (Z.eqb_spec k kMissingIndex); [unfold kMissingIndex in *; lia|].
    split; [done|]. split; [split; try apply Hx; cbn|split_and!; try done; cbn].
    + intros j Hj. apply (ok_controls_remove _ _ Hx). set_solver.
    + apply set_eq. intros t. rewrite !elem_of_union, !elem_of_kept_controls, elem_of_singleton. cbn.
      setoid_rewrite not_elem_of_difference. setoid_rewrite elem_of_singleton. split.
      * intros [?|(j & u & Hu & [Hj| ->] & <-)]; [tauto|right; right; eauto 10|]. left. congruence.
      * intros [->|[?|(j & u & Hu & Hj & <-)]]; [right; eauto 10|tauto|right; eauto 10].
  - destruct (Z.eqb_spec kMissingIndex kMissingIndex); [|done].
    split; [done|]. split; [split; try apply Hx; cbn|split_and!; try done; cbn].
    + intros t [->%elem_of_singleton|Ht]%elem_of_union; [done|]. by apply (ok_controls_add _ _ Hx).
    + unfold kept_controls. cbn. by rewrite (assoc_L (∪)).
Qed.

Lemma edit_DropControl s : edited (DropControl s) (mret (Diff.RemoveControllingFanin (control_index v s) s x)).
Proof.
  unfold edited, Diff.RemoveControllingFanin, control_index. eexists _, _. split; [reflexivity|]. split; [done|].
  destruct (controlling_fanins_index_ v !! s) as [k|] eqn:E; cbn [default from_option id].
  - pose proof (proj1 (control_index_spec s k) E) as (w & Hw & Hs). pose proof (vget_Some _ _ _ Hw) as Hk.
    destruct (Z.eqb_spec k kMissingIndex); [unfold kMissingIndex in *; lia|].
    split; [done|]. split; [split; try apply Hx; cbn|split_and!; try done; cbn].
    + intros j [->%elem_of_singleton|Hj]%elem_of_union; [exact Hk|by apply (ok_controls_remove _ _ Hx)].
    + apply set_eq. intros t. rewrite elem_of_difference, !elem_of_union, !elem_of_kept_controls, elem_of_singleton. cbn.
      split.
      * intros [Ht|(j & u & Hu & Hj & <-)].
        -- split; [tauto|]. intros ->. rewrite (ok_controls_add _ _ Hx s Ht) in E. done.
        -- split; [right; exists j, u; set_solver|]. intros Hn. apply Hj.
           assert (controlling_fanins_index_ v !! s = Some j) as E' by (apply control_index_spec; eauto). set_solver.
      * intros [[?|(j & u & Hu & Hj & <-)] Hn]; [tauto|]. right. exists j, u. split; [done|]. split; [|done].
        rewrite not_elem_of_union, not_elem_of_singleton. split; [|done]. congruence.
  - destruct (Z.eqb_spec kMissingIndex kMissingIndex); [|done].
    split; [done|]. split; [split; try apply Hx; cbn|split_and!; try done; cbn].
    + intros t Ht. apply (ok_controls_add _ _ Hx). set_solver.
    + apply set_eq. intros t. rewrite elem_of_difference, !elem_of_union, elem_of_difference, !elem_of_kept_controls, elem_of_singleton. cbn.
      split; [|tauto]. intros [?|(j & u & Hu & Hj & <-)]; [tauto|]. split; [eauto 10|]. intros Hn.
      assert (controlling_fanins_index_ v !! s = Some j) as E' by (apply control_index_spec; eauto). congruence.
Qed.

Lemma edited_slots k o b x' r : r = Ok (b, x') -> (b = false -> x' = x) -> diff_ok v x' ->
  diff_node_index x' = diff_node_index x ->
  (update_name x', diff_name x', update_op x', diff_op x', update_device x', diff_device x') =
    (update_name x, diff_name x, update_op x, diff_op x, update_device x, diff_device x) ->
  controlling_inputs_to_add x' = controlling_inputs_to_add x -> controlling_inputs_to_remove x' = controlling_inputs_to_remove x ->
  attrs_to_add x' = attrs_to_add x -> attrs_to_remove x' = attrs_to_remove x ->
  (forall i, slots g v x' i = if bool_decide (i = k) then o else slots g v x i) ->
  edited (match o with Some t => SetFanin k t | None => UnsetFanin k end) r.
Proof.
  intros Hr Hb Hok Hi Hn Hca Hcr Haa Har Hs. exists b, x'. split; [done|]. split; [done|]. split; [done|]. split; [done|].
  injection Hn as H1 H2 H3 H4 H5 H6.
  unfold target, kept_controls, kept_attrs. rewrite H1, H2, H3, H4, H5, H6, Hca, Hcr, Haa, Har.
  destruct o; split_and!; cbn; try done; intros i; apply Hs.
Qed.

#[local] Notation n := (NumRegularFanins v).

(** The mark of fanin [k], cleared. *)
Lemma unmark k : k < n ->
  exists x1, (marked_k ← (if n - k - 1 <? size_ (regular_inputs_to_remove x)
                          then at_ (regular_inputs_to_remove x) (n - k - 1) else mret false);
              mret (if marked_k : bool
                    then Diff.set_regular_remove (vset (regular_inputs_to_remove x) (n - k - 1) false)
                           (num_regular_inputs_to_remove x - 1) x
                    else x)) = Ok x1 /\
    (forall i, marked v x1 i = if bool_decide (i = k) then false else marked v x i) /\
    num_regular_inputs_to_remove x1 = proper_count false (regular_inputs_to_remove x1) /\
    size_ (regular_inputs_to_remove x1) = size_ (regular_inputs_to_remove x) /\
    x1 = Diff.set_regular_remove (regular_inputs_to_remove x1) (num_regular_inputs_to_remove x1) x.
Proof.
  intros Hk. assert (marked v x k = false -> exists x1, Ok x = Ok x1 /\
    (forall i, marked v x1 i = if bool_decide (i = k) then false else marked v x i) /\
    num_regular_inputs_to_remove x1 = proper_count false (regular_inputs_to_remove x1) /\
    size_ (regular_inputs_to_remove x1) = size_ (regular_inputs_to_remove x) /\
    x1 = Diff.set_regular_remove (regular_inputs_to_remove x1) (num_regular_inputs_to_remove x1) x) as Hno.
  { intros Hm. exists x. split; [done|]. split; [intros i; case_bool_decide; by subst|]. split; [apply Hx|]. split; [done|].
    by destruct x. }
  destruct (Z.ltb_spec (n - k - 1) (size_ (regular_inputs_to_remove x))) as [Hs|Hs].
  2:{ apply Hno. unfold marked, padded. by rewrite vget_None by lia. }
  destruct (vget_ex (regular_inputs_to_remove x) (n - k - 1)) as [b Hb]; [lia|]. rewrite (at_Some _ _ _ Hb).
  cbn [mbind result_bind]. destruct b; [|apply Hno; unfold marked, padded; by rewrite Hb].
  destruct (padded_clear false _ _ true Hb) as [Hp Hc]; [done|]. eexists. split; [reflexivity|]. split_and!.
  - intros i. unfold marked. cbn. rewrite Hp. rewrite (bool_decide_ext (n - i - 1 = n - k - 1) (i = k)) by lia. done.
  - simpl_diff. rewrite Hc. by rewrite (ok_num_remove _ _ Hx).
  - simpl_diff. apply size_vset.
  - by destruct x.
Qed.

Lemma edit_SetFanin k t : edit_ok (SetFanin k t) -> edited (SetFanin k t) (Diff.AddOrUpdateRegularFanin g k t x).
Proof.
  intros (Hk & Ht & Hpending). unfold Diff.AddOrUpdateRegularFanin. destruct (Z.ltb_spec k 0); [lia|].
  rewrite (proj1 node_of_diff). cbn [mbind result_bind]. destruct (Z.ltb_spec k n) as [Hkn|Hkn].
  - destruct (unmark k Hkn) as (x1 & Hx1 & Hm & Hc & Hs & Heq). unfold mbind, result_bind in Hx1.
    match type of Hx1 with match ?m with _ => _ end = _ => destruct m as [b|] eqn:Eb; [|done] end.
    cbv [mret result_ret] in Hx1. injection Hx1 as Hx1. unfold mbind at 1, result_bind at 1. cbv zeta. rewrite Hx1.
    destruct (vget_ex (regular_fanins_ v) k) as [w Hw]; [unfold NumRegularFanins in *; lia|].
    rewrite (GetRegularFanin_Some _ _ _ Hw).
    destruct (vget_ex (graph g) (fanout_node_index w)) as [e He].
    { apply (ok_fanin_range _ _ _ _ _ (ok_index_ok _ _ _ Hg _ _ Hv)). apply elem_of_app. left. apply elem_of_vget. eauto. }
    rewrite (at_Some _ _ _ He). set (differs := negb (bool_decide (fanin_id g w = t))).
    assert ((if negb (fanout_port_index w =? TensorName.index t) then mret true
             else d ← Ok e; mret (negb (bool_decide (name d = TensorName.node t)))) = Ok differs) as ->.
    { unfold differs, fanin_id, name_of. rewrite He. destruct t as [ts ti]. cbn.
      destruct (Z.eqb_spec (fanout_port_index w) ti) as [->|Hp]; cbn.
      - do 2 f_equal. apply bool_decide_ext. split; [by intros ->|by intros [= ->]].
      - rewrite bool_decide_false; [done|]. congruence. }
    cbn [mbind result_bind]. clear Hx1 Eb b.
    assert (differs = false -> regular_inputs_to_update x !! k = None) as Hnone.
    { intros Hd'%negb_false_iff%bool_decide_eq_true. apply Hpending. by rewrite Hw, <- Hd'. }
    eapply (edited_slots k (Some t) true _ _ eq_refl).
    + done.
    + assert (forall k' t', regular_inputs_to_update x !! k' = Some t' -> 0 <= k' < n /\ marked v x1 k' = false) as Hup.
      { intros k' t' Hk'. destruct (ok_update _ _ Hx _ _ Hk') as [Hr Hmk]. split; [done|]. rewrite Hm. by case_bool_decide. }
      rewrite Heq. destruct differs; split; cbn; try apply Hx; try done; try (rewrite Hs; apply Hx).
      * intros k' t'. rewrite lookup_insert_Some. intros [[<- <-]|[_ Hk']].
        -- split; [lia|]. change (marked v x1 k = false). rewrite Hm, bool_decide_true by done. done.
        -- by apply (Hup k' t').
      * intros k' t'. rewrite lookup_insert_Some. intros [[_ <-]|[_ Hk']]; [done|by apply (ok_ports_update _ _ Hx k')].
    + rewrite Heq. by destruct differs.
    + rewrite Heq. by destruct differs.
    + rewrite Heq. by destruct differs.
    + rewrite Heq. by destruct differs.
    + rewrite Heq. by destruct differs.
    + rewrite Heq. by destruct differs.
    + intros i. unfold slots. change (marked v (if differs then Diff.set_regular_update _ x1 else x1) i) with
        (marked v (if differs then Diff.set_regular_update (<[k := t]> (regular_inputs_to_update x1)) x1 else x1) i).
      assert (marked v (if differs then Diff.set_regular_update (<[k := t]> (regular_inputs_to_update x1)) x1 else x1) i =
              marked v x1 i) as -> by (by destruct differs).
      rewrite Hm. destruct (Z.ltb_spec i n) as [Hi|Hi].
      * case_bool_decide as E.
        -- subst i. rewrite Heq. destruct differs eqn:Ed; cbn; [by rewrite lookup_insert_eq|].
           rewrite Hnone by done. rewrite Hw. cbn. by apply negb_false_iff, bool_decide_eq_true in Ed as ->.
        -- rewrite Heq. destruct differs; cbn; [|done]. by rewrite lookup_insert_ne by done.
      * rewrite (bool_decide_false (i = k)) by lia. rewrite Heq. by destruct differs.
  - assert (t <> EmptyTensorId) as Hne by (intros ->; unfold port_ok in Ht; cbn in Ht; unfold kMissingSlot in Ht; lia).
    destruct (AddOrUpdateAtIndex_spec EmptyTensorId (regular_inputs_to_add x) (k - n) t) as (b & l & -> & Hp & Hc & _);
      [lia|done|]. cbn [mbind result_bind].
    eapply (edited_slots k (Some t) true _ _ eq_refl); try done.
    + split; simpl_diff; try apply Hx; [by rewrite Hc, (ok_num_add _ _ Hx)|].
      intros u [->|[->|Hu]]%(padded_elem _ _ _ _ _ _ Hp); [by right|by left|by apply (ok_ports_add _ _ Hx)].
    + intros i. unfold slots. change (marked v (Diff.set_regular_add _ _ x) i) with (marked v x i).
      destruct (Z.ltb_spec i n) as [Hi|Hi]; [by rewrite (bool_decide_false (i = k)) by lia|]. simpl_diff. rewrite Hp.
      destruct (decide (i = k)) as [->|Hik].
      * rewrite !(bool_decide_true (k - n = k - n)), (bool_decide_true (k = k)), bool_decide_false by done. done.
      * rewrite !(bool_decide_false (i - n = k - n)), (bool_decide_false (i = k)) by lia. done.
Qed.

Lemma edit_UnsetFanin k : edited (UnsetFanin k) (Diff.RemoveRegularFanin g k x).
Proof.
  unfold Diff.RemoveRegularFanin. destruct (Z.ltb_spec k 0) as [Hk|Hk].
  { eapply (edited_slots k None false x _ eq_refl); try done. intros i. case_bool_decide; [|done]. subst i.
    pose proof (size_nonneg (regular_fanins_ v)). pose proof (ok_remove_size _ _ Hx). unfold slots, marked, padded.
    destruct (Z.ltb_spec k n); [|unfold NumRegularFanins in *; lia]. rewrite (vget_None (regular_inputs_to_remove x)) by lia.
    cbn. destruct (_ !! k) as [t|] eqn:E; [|by rewrite vget_None by lia].
    pose proof (ok_update _ _ Hx _ _ E). exfalso. lia. }
  rewrite (proj1 node_of_diff). cbn [mbind result_bind]. destruct (Z.ltb_spec k n) as [Hkn|Hkn].
  - destruct (AddOrUpdateAtIndex_spec false (regular_inputs_to_remove x) (n - k - 1) true) as (b & l & Hl & Hp & Hc & Hs);
      [lia|done|]. cbn [regular_inputs_to_remove Diff.set_regular_update]. rewrite Hl. cbn [mbind result_bind].
    assert (forall i, marked v (Diff.set_regular_remove l (num_regular_inputs_to_remove x + (if b then 1 else 0))
      (Diff.set_regular_update (delete k (regular_inputs_to_update x)) x)) i = if bool_decide (i = k) then true else marked v x i) as Hm.
    { intros i. unfold marked. cbn. rewrite Hp. by rewrite (bool_decide_ext (n - i - 1 = n - k - 1) (i = k)) by lia. }
    eapply (edited_slots k None true _ _ eq_refl); try done.
    + pose proof (ok_remove_size _ _ Hx). split; try apply Hx.
      * simpl_diff. rewrite Hc, (ok_num_remove _ _ Hx). done.
      * simpl_diff. lia.
      * intros k' t'. rewrite Hm. cbn. rewrite lookup_delete_Some. intros [Hne Hk'].
        destruct (ok_update _ _ Hx _ _ Hk'). rewrite bool_decide_false by done. done.
      * intros k' t'. simpl_diff. rewrite lookup_delete_Some. intros [_ Hk']. by apply (ok_ports_update _ _ Hx k').
    + intros i. unfold slots. rewrite Hm. destruct (Z.ltb_spec i n) as [Hi|Hi].
      * case_bool_decide; [done|]. cbn. by rewrite lookup_delete_ne.
      * by rewrite (bool_decide_false (i = k)) by lia.
  - destruct (Z.leb_spec (size_ (regular_inputs_to_add x)) (k - n)) as [Hs|Hs]; cbn [mbind result_bind mret result_ret].
    + eapply (edited_slots k None false x _ eq_refl); try done. intros i. case_bool_decide; [|done]. subst i.
      unfold slots, padded. destruct (Z.ltb_spec k n); [lia|]. rewrite vget_None by lia. done.
    + destruct (vget_ex (regular_inputs_to_add x) (k - n)) as [t Ht]; [lia|]. rewrite (at_Some _ _ _ Ht).
      cbn [mbind result_bind]. rewrite IsEmptyTensorId_spec. case_bool_decide as E.
      * eapply (edited_slots k None false x _ eq_refl); try done. intros i. case_bool_decide; [|done]. subst i.
        unfold slots, padded. destruct (Z.ltb_spec k n); [lia|]. rewrite Ht. cbn. by rewrite bool_decide_true.
      * destruct (padded_clear EmptyTensorId _ _ t Ht E) as [Hp Hc].
        eapply (edited_slots k None true _ _ eq_refl); try done.
        -- split; simpl_diff; try apply Hx; [by rewrite Hc, (ok_num_add _ _ Hx)|].
           intros u [->|[->|Hu]]%(padded_elem _ _ _ _ _ _ Hp); [by left..|by apply (ok_ports_add _ _ Hx)].
        -- intros i. unfold slots. change (marked v (Diff.set_regular_add _ _ x) i) with (marked v x i).
           destruct (Z.ltb_spec i n) as [Hi|Hi]; [by rewrite (bool_decide_false (i = k)) by lia|]. simpl_diff. rewrite Hp.
           destruct (decide (i = k)) as [->|Hik].
           ++ rewrite !(bool_decide_true (k - n = k - n)), (bool_decide_true (k = k)), bool_decide_true by done. done.
           ++ rewrite !(bool_decide_false (i - n = k - n)), (bool_decide_false (i = k)) by lia. done.
Qed.

(** Every operation on a diff does its edit to the target. *)
Lemma diff_edit_spec e : edit_ok e -> edited e (diff_edit g v e x).
Proof.
  destruct e; intros He; cbn [diff_edit].
  - apply edit_SetName.
  - apply edit_SetOp.
  - apply edit_SetDevice.
  - by apply edit_SetFanin.
  - apply edit_UnsetFanin.
  - apply edit_AddControl.
  - apply edit_DropControl.
  - apply edit_SetAttr.
  - apply edit_DropAttr.
Qed.
End edits.

(** ** When a changed node is valid *)

(** ** Trimmed vectors *)

Section padded.
  Context {T : Type} `{!EqDecision T} (dflt : T).
  Implicit Type l : list T.

Lemma padded_replicate m c : padded dflt (replicate m dflt) c = dflt.
Proof.
  unfold padded. destruct (vget _ c) as [x|] eqn:E; [|done].
  assert (x ∈ replicate m dflt) as Hx by (apply elem_of_vget; eauto). by apply elem_of_replicate in Hx as [-> _].
Qed.

Lemma count_replicate m : proper_count dflt (replicate m dflt) = 0.
Proof. unfold proper_count. induction m as [|m IH]; [done|]. simpl. rewrite IH. by rewrite bool_decide_true. Qed.

Lemma padded_trimmed l c : padded dflt (ResizeByTrimmingEndForValue l dflt) c = padded dflt l c.
Proof.
  destruct (trimming_split dflt l) as (m & Hl & _). set (l' := ResizeByTrimmingEndForValue l dflt) in *. rewrite Hl.
  destruct (decide (c < size_ l')); [unfold padded; by rewrite vget_app_l|].
  unfold padded at 2. rewrite vget_app_r by lia. fold (padded dflt (replicate m dflt) (c - size_ l')).
  rewrite padded_replicate. unfold padded. by rewrite vget_None by lia.
Qed.

Lemma count_trimmed l : proper_count dflt (ResizeByTrimmingEndForValue l dflt) = proper_count dflt l.
Proof.
  destruct (trimming_split dflt l) as (m & Hl & _). rewrite Hl at 2. unfold proper_count. rewrite Zsum_app.
  pose proof (count_replicate m) as Hc. unfold proper_count in Hc. rewrite Hc. lia.
Qed.

Lemma size_trimmed l : size_ (ResizeByTrimmingEndForValue l dflt) <= size_ l.
Proof. destruct (trimming_split dflt l) as (m & Hl & _). rewrite Hl at 2. unfold size_. rewrite length_app. lia. Qed.

Lemma trimmed_last l : ResizeByTrimmingEndForValue l dflt <> [] ->
  padded dflt (ResizeByTrimmingEndForValue l dflt) (size_ (ResizeByTrimmingEndForValue l dflt) - 1) <> dflt.
Proof.
  destruct (trimming_split dflt l) as (m & _ & Hx). set (l' := ResizeByTrimmingEndForValue l dflt) in *. intros Hne.
  destruct (vget_ex l' (size_ l' - 1)) as [x E]; [destruct l'; [done|unfold size_; simpl; lia]|].
  unfold padded. rewrite E. by apply Hx.
Qed.

Lemma trimmed_idemp l : ResizeByTrimmingEndForValue (ResizeByTrimmingEndForValue l dflt) dflt = ResizeByTrimmingEndForValue l dflt.
Proof.
  pose proof (trimmed_last l) as Hl. set (l' := ResizeByTrimmingEndForValue l dflt) in *.
  destruct (trimming_split dflt l') as (m & Hs & _). destruct m as [|m]; [by rewrite app_nil_r in Hs|]. exfalso.
  set (l2 := ResizeByTrimmingEndForValue l' dflt) in *. apply Hl; [rewrite Hs; by destruct l2|].
  rewrite Hs. unfold padded. rewrite vget_app_r by (unfold size_; rewrite length_app; simpl; lia).
  apply padded_replicate.
Qed.

(** The count is the size exactly when no entry is the default. *)
Lemma count_full l : proper_count dflt l = size_ l <-> forall c, 0 <= c < size_ l -> padded dflt l c <> dflt.
Proof.
  assert (forall l, proper_count dflt l <= size_ l) as Hle.
  { intros k. unfold proper_count, size_. induction k as [|x k IH]; simpl; [lia|]. case_bool_decide; lia. }
  induction l as [|x l IH].
  - split; [|done]. intros _ c Hc. unfold size_ in Hc. simpl in Hc. lia.
  - assert (size_ (x :: l) = size_ l + 1) as Hs by (unfold size_; simpl; lia). rewrite Hs.
    assert (padded dflt (x :: l) 0 = x) as H0 by done.
    assert (forall c, 0 <= c -> padded dflt (x :: l) (c + 1) = padded dflt l c) as Hsucc.
    { intros c Hc. unfold padded. change (x :: l) with ([x] ++ l). rewrite vget_app_r by (unfold size_; simpl; lia).
      unfold size_. simpl. do 2 f_equal. lia. }
    unfold proper_count in *. cbn [Zsum foldr]. fold (Zsum (fun x => if bool_decide (x = dflt) then 0 else 1) l).
    pose proof (Hle l). pose proof (size_nonneg l). case_bool_decide as E.
    + split; [intros; exfalso; lia|]. intros Hp. exfalso. apply (Hp 0); [lia|]. by rewrite H0.
    + split.
      * intros Hc c Hcr. destruct (decide (c = 0)) as [->|Hc0]; [by rewrite H0|].
        replace c with (c - 1 + 1) by lia. rewrite Hsucc by lia. apply IH; lia.
      * intros Hp. rewrite (proj2 IH); [lia|]. intros c Hc. rewrite <- Hsucc by lia. apply Hp. lia.
Qed.
End padded.

(** ** Walking along increasing keys *)

Section walk.
  Context {A : Type} (key : A -> Z).
  Implicit Type l : list A.

Definition ascending l : Prop := StronglySorted (fun a b => key a < key b) l.

Lemma advance_ascending i l : ascending l -> (forall a, a ∈ l -> i - 1 <= key a) ->
  ascending (advance key i l) /\ (forall a, a ∈ advance key i l <-> a ∈ l /\ i <= key a).
Proof.
  intros Hs Hk. destruct l as [|a l]; cbn [advance]; [split; [done|]; intros; set_solver|].
  inversion_clear Hs as [|? ? Hs' Ha]. rewrite Forall_forall in Ha. destruct (Z.ltb_spec (key a) i).
  - split; [done|]. intros b. rewrite elem_of_cons. split.
    + intros Hb. specialize (Ha b Hb). specialize (Hk a ltac:(left)). split; [by right|lia].
    + intros [[->|?] ?]; [lia|done].
  - split; [by constructor; [|rewrite Forall_forall]|]. intros b. split; [|tauto]. intros Hb. split; [done|].
    apply elem_of_cons in Hb as [->|Hb]; [done|]. specialize (Ha b Hb). lia.
Qed.

Lemma head_at_spec i l : ascending l -> (forall a, a ∈ l -> i <= key a) ->
  match head_at key i l with Some a => a ∈ l /\ key a = i | None => forall a, a ∈ l -> key a <> i end.
Proof.
  intros Hs Hk. destruct l as [|a l]; cbn [head_at]; [intros; set_solver|].
  inversion_clear Hs as [|? ? Hs' Ha]. rewrite Forall_forall in Ha. destruct (Z.eqb_spec (key a) i); [split; [left|done]|].
  specialize (Hk a ltac:(left)). intros b [->|Hb]%elem_of_cons; [done|]. specialize (Ha b Hb). lia.
Qed.
End walk.

Lemma sorted_entries_ascending {A} (m : gmap Z A) : ascending fst (sorted_entries m).
Proof.
  unfold sorted_entries. pose proof (sorted_indices_sorted (dom m)) as Hs.
  induction Hs as [|k l Hl IH Hk]; [constructor|]. cbn [omap list_omap]. destruct (m !! k) as [x|] eqn:E; [|exact IH].
  cbn. constructor; [exact IH|]. rewrite Forall_forall in Hk. apply Forall_forall.
  intros [k' x'] (j & Hj & (y & _ & [= -> ->])%fmap_Some)%list_elem_of_omap. exact (Hk j Hj).
Qed.

(** ** A diff *)

Section well_formed.
  Context {AttrValue : Type} {HO : HashOrder}.
  #[local] Notation G := (MutableGraphView AttrValue).
  #[local] Notation D := (NodeViewDiff AttrValue).

(** Trimming says nothing new. *)
Lemma marked_trim v (x : D) k : marked v (Diff.trim x) k = marked v x k.
Proof. unfold marked. simpl_diff. apply padded_trimmed. Qed.

Lemma diff_ok_trim v (x : D) : diff_ok v x -> diff_ok v (Diff.trim x).
Proof.
  intros Hx. split; unfold Diff.trim; simpl_diff; try apply Hx.
  - by rewrite count_trimmed, (ok_num_add _ _ Hx).
  - by rewrite count_trimmed, (ok_num_remove _ _ Hx).
  - pose proof (ok_remove_size _ _ Hx). pose proof (size_trimmed false (regular_inputs_to_remove x)). lia.
  - intros k t Hk. change (0 <= k < NumRegularFanins v /\ marked v (Diff.trim x) k = false). rewrite marked_trim. by apply (ok_update _ _ Hx k t).
  - intros t Ht. apply (ok_ports_add _ _ Hx). unfold ResizeByTrimmingEndForValue in Ht.
    eapply elem_of_take in Ht as (c & Hc & _). by eapply list_elem_of_lookup_2.
Qed.

Lemma slots_trim g v (x : D) k : slots g v (Diff.trim x) k = slots g v x k.
Proof.
  unfold slots. rewrite marked_trim. unfold Diff.trim. simpl_diff. by rewrite padded_trimmed.
Qed.

Lemma target_trim g d v (x : D) : target g d v (Diff.trim x) ≡ target g d v x.
Proof. split_and!; cbn; try done. intros k. apply slots_trim. Qed.

(** The tests of [IsWellFormed] on the two vectors. *)
Definition gapless (x : D) : Prop :=
  size_ (regular_inputs_to_add x) = num_regular_inputs_to_add x /\
  (0 < num_regular_inputs_to_add x -> regular_inputs_to_remove x = []) /\
  size_ (regular_inputs_to_remove x) = num_regular_inputs_to_remove x.

(** The fanins of the changed node, when there are no gaps. *)
Definition kept_fanin (g : G) (v : MutableNodeView) (x : D) (k : Z) : TensorId :=
  match regular_inputs_to_update x !! k with
  | Some t => t
  | None => fanin_id g (default missing_fanin_ (vget (regular_fanins_ v) k))
  end.
Definition new_regular (g : G) (v : MutableNodeView) (x : D) : list TensorId :=
  map (kept_fanin g v x) (count_up (NumRegularFanins v - num_regular_inputs_to_remove x)) ++ regular_inputs_to_add x.

Lemma vget_map_count_up {A} (f : Z -> A) m k : vget (map f (count_up m)) k = if bool_decide (0 <= k < m) then Some (f k) else None.
Proof.
  rewrite vget_map. case_bool_decide as E.
  - destruct (vget_ex (count_up m) k) as [j Hj]; [rewrite size_count_up by lia; lia|]. rewrite Hj.
    apply vget_count_up in Hj as [-> _]. done.
  - destruct (vget (count_up m) k) as [j|] eqn:Hj; [|done]. apply vget_count_up in Hj as [_ Hj]. done.
Qed.

Lemma gapless_slots g v (x : D) : diff_ok v x -> gapless x -> forall k, slots g v x k = vget (new_regular g v x) k.
Proof.
  intros Hx (Ha & Har & Hr) k. unfold slots, new_regular. set (n := NumRegularFanins v).
  pose proof (proj1 (count_full EmptyTensorId (regular_inputs_to_add x)) ltac:(rewrite <- (ok_num_add _ _ Hx); lia)) as Hadd.
  pose proof (proj1 (count_full false (regular_inputs_to_remove x)) ltac:(rewrite <- (ok_num_remove _ _ Hx); lia)) as Hrem.
  pose proof (ok_remove_size _ _ Hx) as Hrs. rewrite Hr in Hrs, Hrem. fold n in Hrs. pose proof (size_nonneg (regular_inputs_to_remove x)).
  pose proof (size_nonneg (regular_fanins_ v)) as Hn0. fold (NumRegularFanins v) in Hn0. fold n in Hn0.
  set (m := n - num_regular_inputs_to_remove x). assert (size_ (map (kept_fanin g v x) (count_up m)) = m) as Hsz.
  { rewrite size_map. apply size_count_up. lia. }
  destruct (Z.ltb_spec k n) as [Hk|Hk].
  - assert (marked v x k = bool_decide (m <= k)) as ->.
    { unfold marked. fold n. case_bool_decide as E.
      - specialize (Hrem (n - k - 1) ltac:(lia)). by destruct (padded _ _ _).
      - unfold padded. by rewrite vget_None by lia. }
    case_bool_decide as E.
    + rewrite vget_app_r by lia. assert (regular_inputs_to_add x = []) as ->; [|by rewrite vget_nil].
      pose proof (size_nonneg (regular_inputs_to_add x)). destruct (decide (0 < num_regular_inputs_to_add x)) as [Hp|Hp].
      * rewrite (Har Hp) in Hr. unfold size_ in Hr. simpl in Hr. lia.
      * destruct (regular_inputs_to_add x); [done|]. unfold size_ in *. simpl in *. lia.
    + rewrite vget_app_l by lia. rewrite vget_map_count_up. destruct (decide (0 <= k)) as [Hk0|Hk0].
      * rewrite bool_decide_true by lia. unfold kept_fanin. destruct (_ !! k); [done|].
        destruct (vget_ex (regular_fanins_ v) k) as [w ->]; [unfold n, NumRegularFanins in *; lia|]. done.
      * rewrite bool_decide_false by lia. destruct (_ !! k) as [t|] eqn:Et; [|by rewrite vget_None by lia].
        pose proof (ok_update _ _ Hx _ _ Et). lia.
  - destruct (decide (size_ (regular_inputs_to_add x) = 0)) as [He|He].
    + assert (regular_inputs_to_add x = []) as -> by (by destruct (regular_inputs_to_add x); [|unfold size_ in He; simpl in He; lia]).
      rewrite app_nil_r, (vget_None (map _ _)) by lia. unfold padded. rewrite vget_nil. done.
    + pose proof (size_nonneg (regular_inputs_to_add x)). assert (num_regular_inputs_to_remove x = 0) as Hnr.
      { rewrite Har in Hr by lia. done. }
      rewrite vget_app_r by lia. rewrite Hsz. unfold m. rewrite Hnr, Z.sub_0_r.
      unfold padded. destruct (vget _ (k - n)) as [t|] eqn:Et; cbn; [|done].
      pose proof (vget_Some _ _ _ Et). specialize (Hadd (k - n) ltac:(lia)). unfold padded in Hadd. rewrite Et in Hadd.
      by rewrite bool_decide_false.
Qed.

(** A trimmed diff passes the tests exactly when its target has no gaps. *)
Lemma gapless_iff g v (x : D) : diff_ok v x -> Diff.trim x = x ->
  gapless x <-> exists l, forall k, slots g v x k = vget l k.
Proof.
  intros Hx Ht. split; [intros Hg; eexists; by apply gapless_slots|]. intros [l Hl]. set (n := NumRegularFanins v).
  assert (ResizeByTrimmingEndForValue (regular_inputs_to_remove x) false = regular_inputs_to_remove x) as Htr by (by rewrite <- Ht at 2).
  assert (ResizeByTrimmingEndForValue (regular_inputs_to_add x) EmptyTensorId = regular_inputs_to_add x) as Hta by (by rewrite <- Ht at 2).
  pose proof (trimmed_last false (regular_inputs_to_remove x)) as Hlr. rewrite Htr in Hlr.
  pose proof (trimmed_last EmptyTensorId (regular_inputs_to_add x)) as Hla. rewrite Hta in Hla.
  pose proof (ok_remove_size _ _ Hx) as Hrs. fold n in Hrs.
  assert (forall c, padded false (regular_inputs_to_remove x) c <> false -> size_ l <= n - c - 1) as Hcut.
  { intros c Hc. destruct (decide (n - c - 1 < size_ l)) as [Hlt|]; [|lia]. exfalso.
    assert (0 <= c < size_ (regular_inputs_to_remove x)) as Hcr.
    { unfold padded in Hc. destruct (vget _ c) eqn:E; [by eapply vget_Some|done]. }
    destruct (vget_ex l (n - c - 1)) as [t E]; [lia|]. rewrite <- Hl in E. unfold slots, marked in E. fold n in E.
    destruct (Z.ltb_spec (n - c - 1) n); [|lia]. replace (n - (n - c - 1) - 1) with c in E by lia.
    by destruct (padded false _ c). }
  assert (forall c, 0 <= c -> padded EmptyTensorId (regular_inputs_to_add x) c <> EmptyTensorId -> n + c < size_ l) as Hadd.
  { intros c Hc0 Hc. assert (slots g v x (n + c) <> None) as Hs.
    { unfold slots. fold n. destruct (Z.ltb_spec (n + c) n); [lia|]. replace (n + c - n) with c by lia.
      by rewrite bool_decide_false. }
    rewrite Hl in Hs. destruct (vget l (n + c)) eqn:E; [apply vget_Some in E; lia|done]. }
  assert (forall {T} (l : list T), l <> [] -> 0 < size_ l) as Hpos by (by intros T [|? ?] ?; [|unfold size_; simpl; lia]).
  split_and!.
  - rewrite (ok_num_add _ _ Hx). symmetry. apply count_full. intros c Hc E.
    assert (regular_inputs_to_add x <> []) as Hne by (intros E'; rewrite E' in Hc; unfold size_ in Hc; simpl in Hc; lia).
    specialize (Hadd (size_ (regular_inputs_to_add x) - 1) ltac:(lia) (Hla Hne)). 
    destruct (vget_ex l (n + c)) as [t Ev]; [pose proof (size_nonneg (regular_fanins_ v)); unfold n, NumRegularFanins in *; lia|].
    rewrite <- Hl in Ev. unfold slots in Ev. fold n in Ev. destruct (Z.ltb_spec (n + c) n); [lia|].
    replace (n + c - n) with c in Ev by lia. by rewrite bool_decide_true in Ev.
  - intros Hn. destruct (decide (regular_inputs_to_remove x = [])) as [|Hne]; [done|]. exfalso.
    specialize (Hcut _ (Hlr Hne)). pose proof (Hpos _ _ Hne). rewrite (ok_num_add _ _ Hx) in Hn.
    assert (regular_inputs_to_add x <> []) as Hna by (intros E; rewrite E in Hn; unfold proper_count in Hn; simpl in Hn; lia).
    pose proof (Hpos _ _ Hna). specialize (Hadd (size_ (regular_inputs_to_add x) - 1) ltac:(lia) (Hla Hna)). lia.
  - rewrite (ok_num_remove _ _ Hx). symmetry. apply count_full. intros c Hc E.
    assert (regular_inputs_to_remove x <> []) as Hne by (intros E'; rewrite E' in Hc; unfold size_ in Hc; simpl in Hc; lia).
    specialize (Hcut _ (Hlr Hne)). assert (slots g v x (n - c - 1) <> None) as Hs.
    { unfold slots, marked. fold n. destruct (Z.ltb_spec (n - c - 1) n); [|lia]. replace (n - (n - c - 1) - 1) with c by lia.
      rewrite E. destruct (_ !! _); [done|]. destruct (vget_ex (regular_fanins_ v) (n - c - 1)) as [w ->]; [unfold n, NumRegularFanins in *; lia|done]. }
    rewrite Hl in Hs. destruct (vget l (n - c - 1)) eqn:E'; [apply vget_Some in E'|done]. lia.
Qed.

(** The name of the node that fanin [k] comes from. *)
Definition fanin_name (g : G) (v : MutableNodeView) (k : Z) : string :=
  name_of g (fanout_node_index (default missing_fanin_ (vget (regular_fanins_ v) k))).

Section renamed.
Context (g : G) (i0 : Z) (v : MutableNodeView) (Hg : view_ok g) (Hv : vget (nodes_ g) i0 = Some v).
#[local] Notation n := (NumRegularFanins v).

Lemma fanin_def w : w ∈ regular_fanins_ v ++ controlling_fanins_ v ->
  exists d, at_ (graph g) (fanout_node_index w) = Ok d /\ name d = name_of g (fanout_node_index w).
Proof.
  intros Hw. destruct (ok_fanin_range _ _ _ _ _ (ok_index_ok _ _ _ Hg _ _ Hv) w Hw) as [Hr _].
  destruct (vget_ex _ _ Hr) as [d Hd]. exists d. split; [by apply at_Some|]. unfold name_of. by rewrite Hd.
Qed.

Lemma renamed_regular_ok_spec invalid nn (m : gmap Z TensorId) todo : forall i l, ascending fst l ->
  (forall a, a ∈ l -> i - 1 <= a.1) -> (forall k t, (k, t) ∈ l -> m !! k = Some t) ->
  (forall k t, i <= k -> m !! k = Some t -> (k, t) ∈ l) -> 0 <= i -> i + Z.of_nat todo <= n ->
  exists b, Diff.renamed_regular_ok invalid nn g v todo i l = Ok b /\
    (b = true <-> forall k, i <= k < i + Z.of_nat todo ->
       match m !! k with Some t => invalid (TensorName.node t) = false | None => fanin_name g v k <> nn end).
Proof.
  induction todo as [|todo IH]; intros i l Hs Hl Hlm Hml Hi Hn; cbn [Diff.renamed_regular_ok].
  { exists true. split; [done|]. split; [lia|done]. }
  destruct (advance_ascending fst i l Hs Hl) as [Hs' Hl']. set (l' := advance fst i l) in *.
  pose proof (head_at_spec fst i l' Hs' (fun a Ha => proj2 (proj1 (Hl' a) Ha))) as Hh.
  assert (exists bad, match head_at fst i l' with
      | Some (_, t) => mret (invalid (TensorName.node t))
      | None => d ← at_ (graph g) (fanout_node_index (GetRegularFanin v i)); mret (bool_decide (name d = nn))
      end = Ok bad /\ (bad = false <-> match m !! i with Some t => invalid (TensorName.node t) = false | None => fanin_name g v i <> nn end))
    as (bad & Hbad & Hiff).
  { destruct (head_at fst i l') as [[k t]|].
    - destruct Hh as [[Hin _]%Hl' Hki]. cbn in Hki. subst k. rewrite (Hlm _ _ Hin). eexists. split; [reflexivity|done].
    - destruct (m !! i) as [t|] eqn:Em.
      { exfalso. apply (Hh (i, t)); [|done]. apply Hl'. split; [|cbn; lia]. apply Hml; [lia|done]. }
      destruct (vget_ex (regular_fanins_ v) i) as [w Hw]; [unfold NumRegularFanins in Hn; lia|].
      rewrite (GetRegularFanin_Some _ _ _ Hw). unfold fanin_name. rewrite Hw.
      destruct (fanin_def w) as (d & Hd & Hnm); [apply elem_of_app; left; apply elem_of_vget; eauto|].
      rewrite Hd. eexists. split; [reflexivity|]. rewrite bool_decide_eq_false, Hnm. done. }
  rewrite Hbad. cbn [mbind result_bind]. destruct bad.
  - exists false. split; [done|]. split; [done|]. intros Hall. specialize (Hall i ltac:(lia)).
    destruct Hiff as [_ Hiff]. by specialize (Hiff Hall).
  - destruct (IH (i + 1) l') as (b & Hb & Hbi).
    + exact Hs'.
    + intros a [_ Ha]%Hl'. lia.
    + intros k t [Hin _]%Hl'. by apply Hlm.
    + intros k t Hk Hm. apply Hl'. split; [apply Hml; [lia|done]|cbn; lia].
    + lia.
    + lia.
    + exists b. split; [exact Hb|]. rewrite Hbi. split; intros Hall k Hk; [|apply Hall; lia].
      destruct (decide (k = i)) as [->|]; [by apply Hiff|apply Hall; lia].
Qed.

Lemma renamed_controls_ok_spec nn (r : gset Z) : forall controls i l, ascending id l ->
  (forall k, k ∈ l -> i - 1 <= k) -> (forall k, k ∈ l -> k ∈ r) -> (forall k, i <= k -> k ∈ r -> k ∈ l) ->
  (forall w, w ∈ controls -> w ∈ controlling_fanins_ v) ->
  exists b, Diff.renamed_controls_ok nn g controls i l = Ok b /\
    (b = true <-> forall c w, vget controls c = Some w -> i + c ∉ r -> name_of g (fanout_node_index w) <> nn).
Proof.
  induction controls as [|w controls IH]; intros i l Hs Hl Hlr Hrl Hc; cbn [Diff.renamed_controls_ok].
  { exists true. split; [done|]. split; [|done]. intros _ c w Hw. by rewrite vget_nil in Hw. }
  destruct (advance_ascending id i l Hs Hl) as [Hs' Hl']. set (l' := advance id i l) in *. unfold id in Hl'.
  pose proof (head_at_spec id i l' Hs' (fun a Ha => proj2 (proj1 (Hl' a) Ha))) as Hh.
  assert (exists bad, match head_at id i l' with
      | Some _ => mret false
      | None => d ← at_ (graph g) (fanout_node_index w); mret (bool_decide (name d = nn))
      end = Ok bad /\ (bad = false <-> (i ∉ r -> name_of g (fanout_node_index w) <> nn))) as (bad & Hbad & Hiff).
  { destruct (head_at id i l') as [k|].
    - destruct Hh as [[Hin _]%Hl' Hki]. unfold id in Hki. subst k. apply Hlr in Hin. eexists. split; [reflexivity|].
      split; [|done]. by intros _ ?.
    - assert (i ∉ r) as Hni.
      { intros Hin. apply (Hh i); [|done]. apply Hl'. split; [|lia]. apply Hrl; [lia|done]. }
      destruct (fanin_def w) as (d & Hd & Hnm); [apply elem_of_app; right; apply Hc; left|].
      rewrite Hd. eexists. split; [reflexivity|]. rewrite bool_decide_eq_false, Hnm. tauto. }
  assert (forall c u, vget (w :: controls) c = Some u <-> (c = 0 /\ u = w) \/ (0 < c /\ vget controls (c - 1) = Some u)) as Hcons.
  { intros c u. change (w :: controls) with ([w] ++ controls). destruct (decide (c < 1)) as [Hc1|Hc1].
    - rewrite vget_app_l by (unfold size_; simpl; lia). unfold vget. destruct (Z.ltb_spec c 0); [split; [done|lia]|].
      replace c with 0 by lia. cbn. split; [intros [= <-]; by left|]. intros [[_ ->]|[? _]]; [done|lia].
    - rewrite vget_app_r by (unfold size_; simpl; lia). replace (c - size_ [w]) with (c - 1) by (unfold size_; simpl; lia).
      split; [right; split; [lia|done]|]. intros [[-> _]|[_ ?]]; [lia|done]. }
  rewrite Hbad. cbn [mbind result_bind]. destruct bad.
  - exists false. split; [done|]. split; [done|]. intros Hall. destruct Hiff as [_ Hiff]. rewrite Hiff; [done|].
    intros Hi. apply (Hall 0 w); [apply Hcons; by left|by rewrite Z.add_0_r].
  - destruct (IH (i + 1) l') as (b & Hb & Hbi).
    + exact Hs'.
    + intros k [_ Hk]%Hl'. lia.
    + intros k [Hin _]%Hl'. by apply Hlr.
    + intros k Hk Hm. apply Hl'. split; [apply Hrl; [lia|done]|lia].
    + intros u Hu. apply Hc. by right.
    + exists b. split; [exact Hb|]. rewrite Hbi. split.
      * intros Hall c u [[-> ->]|[Hc0 Hu]]%Hcons Hr; [apply Hiff; [done|by rewrite Z.add_0_r in Hr]|].
        apply (Hall (c - 1) u Hu). by replace (i + 1 + (c - 1)) with (i + c) by lia.
      * intros Hall c u Hu Hr. pose proof (vget_Some _ _ _ Hu). apply (Hall (c + 1) u); [apply Hcons; right; split; [lia|]|].
        -- by replace (c + 1 - 1) with c by lia.
        -- by replace (i + (c + 1)) with (i + 1 + c) by lia.
Qed.
End renamed.

(** A name that a fanin of the node [node_name] may have. *)
Definition fanin_name_ok (g : G) (names : gmap string Z) (node_name s : string) : Prop :=
  s <> node_name /\ CheckNodeNameExists s names g = true.

Lemma invalid_node_name_spec g names node_name s :
  invalid_node_name node_name names g s = false <-> fanin_name_ok g names node_name s.
Proof.
  unfold invalid_node_name, fanin_name_ok. rewrite orb_false_iff, bool_decide_eq_false, negb_false_iff. done.
Qed.

(** What is asked of the fanins of the changed node: those that are set name
    another node that will exist; a renamed node does not take the name of a
    fanin that it keeps. *)
Record fanins_valid (g : G) (names : gmap string Z) (d : NodeDef AttrValue) (v : MutableNodeView) (x : D) : Prop := {
  fv_regular : forall k t, slots g v x k = Some t ->
    is_Some (regular_inputs_to_update x !! k) \/ NumRegularFanins v <= k ->
    fanin_name_ok g names (c_name (target g d v x)) (TensorName.node t);
  fv_controls : forall s, s ∈ controlling_inputs_to_add x -> fanin_name_ok g names (c_name (target g d v x)) s;
  fv_renamed : update_name x = true ->
    (forall k t, slots g v x k = Some t -> TensorName.node t <> diff_name x) /\
    (forall s, s ∈ kept_controls g v x -> s <> diff_name x)
}.

Lemma fanins_valid_trim g names d v x : fanins_valid g names d v (Diff.trim x) <-> fanins_valid g names d v x.
Proof.
  split; intros [H1 H2 H3]; split.
  - intros k t Hk. rewrite <- slots_trim in Hk. by apply H1.
  - apply H2.
  - intros Hu. destruct (H3 Hu) as [H4 H5]. split; [|exact H5]. intros k t Hk. rewrite <- slots_trim in Hk. by apply (H4 k).
  - intros k t Hk. rewrite slots_trim in Hk. by apply H1.
  - apply H2.
  - intros Hu. destruct (H3 Hu) as [H4 H5]. split; [|exact H5]. intros k t Hk. rewrite slots_trim in Hk. by apply (H4 k).
Qed.

Lemma trim_idemp (x : D) : Diff.trim (Diff.trim x) = Diff.trim x.
Proof. unfold Diff.trim. simpl_diff. by rewrite !trimmed_idemp. Qed.

Section check.
Context (g : G) (names : gmap string Z) (d : NodeDef AttrValue) (v : MutableNodeView) (x : D).
Context (Hg : view_ok g) (Hv : vget (nodes_ g) (diff_node_index x) = Some v)
  (Hd : vget (graph g) (diff_node_index x) = Some d) (Hx : diff_ok v x) (Hgap : gapless x).
#[local] Notation n := (NumRegularFanins v).
#[local] Notation new_name := (if update_name x then diff_name x else name d).
#[local] Notation invalid := (invalid_node_name new_name names g).

(** The regular fanins of the changed node below those appended. *)
Lemma slots_kept k : 0 <= k < n - num_regular_inputs_to_remove x ->
  slots g v x k = Some (kept_fanin g v x k) /\
  match regular_inputs_to_update x !! k with
  | Some t => kept_fanin g v x k = t
  | None => TensorName.node (kept_fanin g v x k) = fanin_name g v k
  end.
Proof.
  intros Hk. pose proof (size_nonneg (regular_fanins_ v)) as Hn0. fold n in Hn0. split.
  - rewrite (gapless_slots _ _ _ Hx Hgap). unfold new_regular.
    rewrite vget_app_l by (rewrite size_map, size_count_up; lia). rewrite vget_map_count_up. by rewrite bool_decide_true.
  - unfold kept_fanin. destruct (_ !! k) as [t|] eqn:E; done.
Qed.

Lemma slots_below k t : slots g v x k = Some t -> k < n -> 0 <= k < n - num_regular_inputs_to_remove x.
Proof.
  intros Hs Hk. rewrite (gapless_slots _ _ _ Hx Hgap) in Hs. pose proof (vget_Some _ _ _ Hs) as Hr.
  destruct (decide (k < n - num_regular_inputs_to_remove x)); [lia|]. exfalso. destruct Hgap as (H1 & H2 & H3).
  unfold new_regular, size_ in Hr. rewrite length_app in Hr. fold (size_ (regular_inputs_to_add x)) in *.
  pose proof (size_nonneg (regular_inputs_to_add x)). pose proof (size_nonneg (regular_inputs_to_remove x)).
  pose proof (ok_remove_size _ _ Hx). rewrite length_map in Hr. unfold count_up in Hr. rewrite length_map, length_seq in Hr.
  unfold size_ in *. destruct (decide (0 < num_regular_inputs_to_add x)) as [Hp|Hp]; [|lia].
  rewrite (H2 Hp) in H3. simpl in H3. lia.
Qed.

Lemma slots_added t : t ∈ regular_inputs_to_add x <-> exists k, n <= k /\ slots g v x k = Some t.
Proof.
  pose proof (proj1 (count_full EmptyTensorId (regular_inputs_to_add x)) ltac:(rewrite <- (ok_num_add _ _ Hx); destruct Hgap; lia)) as Hadd.
  rewrite elem_of_vget. split.
  - intros [c Hc]. pose proof (vget_Some _ _ _ Hc). exists (n + c). split; [lia|]. unfold slots.
    destruct (Z.ltb_spec (n + c) n); [lia|]. replace (n + c - n) with c by lia. specialize (Hadd c ltac:(done)).
    unfold padded in *. rewrite Hc in *. by rewrite bool_decide_false.
  - intros (k & Hk & Hs). unfold slots in Hs. destruct (Z.ltb_spec k n); [lia|]. exists (k - n). unfold padded in Hs.
    destruct (vget _ (k - n)) as [u|]; cbn in Hs; [|done]. by case_bool_decide; simplify_eq.
Qed.

(** The checks on what is set. *)
Lemma new_fanins_ok_spec : Diff.new_fanins_ok invalid x = true <->
  (forall k t, slots g v x k = Some t -> n <= k -> fanin_name_ok g names new_name (TensorName.node t)) /\
  (forall s, s ∈ controlling_inputs_to_add x -> fanin_name_ok g names new_name s).
Proof.
  unfold Diff.new_fanins_ok. rewrite andb_true_iff, !forallb_forall.
  setoid_rewrite negb_true_iff. setoid_rewrite invalid_node_name_spec. setoid_rewrite <- list_elem_of_In.
  setoid_rewrite elem_of_names_in_order. split; intros [H1 H2]; (split; [|exact H2]).
  - intros k t Hs Hk. apply H1, slots_added. eauto.
  - intros t (k & Hk & Hs)%slots_added. by apply (H1 k).
Qed.

Lemma inplace_ok_spec : forallb (fun e => negb (invalid (TensorName.node e.2))) (sorted_entries (regular_inputs_to_update x)) = true <->
  forall k t, slots g v x k = Some t -> is_Some (regular_inputs_to_update x !! k) -> fanin_name_ok g names new_name (TensorName.node t).
Proof.
  rewrite forallb_forall. setoid_rewrite negb_true_iff. setoid_rewrite invalid_node_name_spec.
  setoid_rewrite <- list_elem_of_In. split.
  - intros H k t Hs [u Hu]. assert (t = u) as ->; [|by apply (H (k, u)), elem_of_sorted_entries].
    pose proof (ok_update _ _ Hx _ _ Hu) as [Hr Hm]. unfold slots in Hs. destruct (Z.ltb_spec k n); [|lia].
    rewrite Hm, Hu in Hs. by simplify_eq.
  - intros H [k t] Hk%elem_of_sorted_entries. cbn. apply (H k); [|eauto].
    pose proof (ok_update _ _ Hx _ _ Hk) as [Hr Hm]. unfold slots. destruct (Z.ltb_spec k n); [|lia]. by rewrite Hm, Hk.
Qed.

Lemma renamed_ok_spec : update_name x = true ->
  exists b, (r ← Diff.renamed_regular_ok invalid new_name g v (Z.to_nat (n - num_regular_inputs_to_remove x)) 0
                  (sorted_entries (regular_inputs_to_update x));
             if r : bool then Diff.renamed_controls_ok new_name g (controlling_fanins_ v) 0
                                (sorted_indices (controlling_inputs_to_remove x))
             else mret false) = Ok b /\
    (b = true <->
      (forall k t, slots g v x k = Some t -> is_Some (regular_inputs_to_update x !! k) -> fanin_name_ok g names new_name (TensorName.node t)) /\
      (forall k t, slots g v x k = Some t -> k < n -> TensorName.node t <> new_name) /\
      (forall s, s ∈ kept_controls g v x -> s <> new_name)).
Proof.
  intros Hu. pose proof (ok_remove_size _ _ Hx) as Hrs. destruct Hgap as (_ & _ & Hrem). pose proof (size_nonneg (regular_inputs_to_remove x)).
  destruct (renamed_regular_ok_spec g _ v Hg Hv invalid new_name (regular_inputs_to_update x)
    (Z.to_nat (n - num_regular_inputs_to_remove x)) 0 (sorted_entries (regular_inputs_to_update x)))
    as (r & Hr & Hri).
  { apply sorted_entries_ascending. }
  { intros [k t] Hk%elem_of_sorted_entries. pose proof (ok_update _ _ Hx _ _ Hk). cbn. lia. }
  { intros k t Hk. by apply elem_of_sorted_entries. }
  { intros k t _ Hk. by apply elem_of_sorted_entries. }
  { lia. }
  { lia. }
  destruct (renamed_controls_ok_spec g _ v Hg Hv new_name (controlling_inputs_to_remove x) (controlling_fanins_ v) 0
    (sorted_indices (controlling_inputs_to_remove x))) as (b & Hb & Hbi).
  { apply sorted_indices_sorted. }
  { intros k Hk%elem_of_sorted_indices. pose proof (ok_controls_remove _ _ Hx _ Hk). lia. }
  { intros k. apply elem_of_sorted_indices. }
  { intros k _. apply elem_of_sorted_indices. }
  { done. }
  rewrite Hr. cbn [mbind result_bind]. rewrite Hb. exists (r && b). split; [by destruct r|]. rewrite andb_true_iff, Hri, Hbi.
  assert (forall k, 0 <= k < 0 + Z.of_nat (Z.to_nat (n - num_regular_inputs_to_remove x)) <-> 0 <= k < n - num_regular_inputs_to_remove x) as Hrange by lia.
  setoid_rewrite Hrange. rewrite (and_assoc (forall k t, _)). apply Morphisms_Prop.and_iff_morphism.
  - split.
    + intros Hall. split.
      * intros k t Hs Hsome. assert (k < n) as Hk by (destruct Hsome as [u Hku]; apply (ok_update _ _ Hx _ _ Hku)).
        pose proof (slots_below _ _ Hs Hk) as Hkr. destruct (slots_kept k Hkr) as [Hsk Hkk]. specialize (Hall k Hkr).
        destruct Hsome as [u Hku]. rewrite Hku in *. apply invalid_node_name_spec. congruence.
      * intros k t Hs Hk. pose proof (slots_below _ _ Hs Hk) as Hkr. destruct (slots_kept k Hkr) as [Hsk Hkk]. specialize (Hall k Hkr).
        assert (t = kept_fanin g v x k) as -> by congruence. destruct (_ !! k) as [u|]; [rewrite Hkk|by rewrite Hkk].
        apply invalid_node_name_spec in Hall. apply Hall.
    + intros [H1 H2] k Hkr. destruct (slots_kept k Hkr) as [Hsk Hkk].
      destruct (_ !! k) as [u|] eqn:E.
      * apply invalid_node_name_spec. rewrite Hkk in Hsk. apply (H1 k); [done|by rewrite E].
      * rewrite <- Hkk. apply (H2 k); [done|lia].
  - setoid_rewrite elem_of_kept_controls. setoid_rewrite Z.add_0_l. naive_solver.
Qed.
End check.

Lemma IsWellFormed_ok g names d v x : view_ok g -> vget (nodes_ g) (diff_node_index x) = Some v ->
  vget (graph g) (diff_node_index x) = Some d -> diff_ok v x ->
  exists b, Diff.IsWellFormed g names x = Ok (b, Diff.trim x) /\
    (b = true <-> gapless (Diff.trim x) /\ fanins_valid g names d v x).
Proof.
  intros Hg Hv Hd Hx. unfold Diff.IsWellFormed. set (y := Diff.trim x).
  pose proof (diff_ok_trim _ _ Hx) as Hy. setoid_rewrite <- fanins_valid_trim. fold y in Hy |- *.
  assert (diff_node_index y = diff_node_index x) as Hyi by done. rewrite <- Hyi in Hv, Hd. clear Hx Hyi. clearbody y. clear x.
  destruct (Z.eqb_spec (size_ (regular_inputs_to_add y)) (num_regular_inputs_to_add y)) as [H1|H1]; cbn [negb].
  2:{ exists false. split; [done|]. split; [done|]. intros [[? _] _]. done. }
  destruct ((0 <? num_regular_inputs_to_add y) && negb (bool_decide (regular_inputs_to_remove y = []))) eqn:E2.
  { exists false. split; [done|]. split; [done|]. intros [(_ & H & _) _].
    apply andb_true_iff in E2 as [E2%Z.ltb_lt E3%negb_true_iff%bool_decide_eq_false]. by apply H in E2. }
  destruct (Z.eqb_spec (size_ (regular_inputs_to_remove y)) (num_regular_inputs_to_remove y)) as [H3|H3]; cbn [negb].
  2:{ exists false. split; [done|]. split; [done|]. intros [(_ & _ & ?) _]. done. }
  assert (gapless y) as Hgap.
  { split; [done|]. split; [|done]. intros Hn%Z.ltb_lt. rewrite Hn in E2. cbn in E2.
    by apply negb_false_iff, bool_decide_eq_true in E2. }
  destruct (node_of_diff g v d y Hg Hv Hd) as [-> ->]. cbn [mbind result_bind].
  assert (exists b, (if update_name y then
      r ← Diff.renamed_regular_ok (invalid_node_name (if update_name y then diff_name y else name d) names g)
            (if update_name y then diff_name y else name d) g v (Z.to_nat (NumRegularFanins v - num_regular_inputs_to_remove y)) 0
            (sorted_entries (regular_inputs_to_update y));
      if r : bool then Diff.renamed_controls_ok (if update_name y then diff_name y else name d) g (controlling_fanins_ v) 0
                         (sorted_indices (controlling_inputs_to_remove y)) else mret false
    else mret (forallb (fun e => negb (invalid_node_name (if update_name y then diff_name y else name d) names g (TensorName.node e.2)))
                 (sorted_entries (regular_inputs_to_update y)))) = Ok b /\
    (b && Diff.new_fanins_ok (invalid_node_name (if update_name y then diff_name y else name d) names g) y = true <->
     fanins_valid g names d v y)) as (b & -> & Hb).
  2:{ eexists. split; [reflexivity|]. rewrite Hb. tauto. }
  pose proof (inplace_ok_spec g names d v y Hy) as Hin. pose proof (new_fanins_ok_spec g names d v y Hy Hgap) as Hnew.
  destruct (update_name y) eqn:Eu.
  - destruct (renamed_ok_spec g names d v y Hg Hv Hy Hgap Eu) as (b & Hr & Hb). rewrite Eu in Hr, Hb. exists b. split; [exact Hr|].
    rewrite andb_true_iff, Hb, Hnew. split.
    + intros ((B1 & B2 & B3) & N1 & N2). split.
      * intros k t Hs [Hk|Hk]; cbn; rewrite Eu; eauto.
      * intros s Hs. cbn. rewrite Eu. eauto.
      * intros _. split; [|eauto]. intros k t Hs. destruct (decide (k < NumRegularFanins v)); [by eapply B2|].
        apply (N1 k t Hs). lia.
    + intros [F1 F2 F3]. cbn in F1, F2. rewrite Eu in F1, F2. destruct (F3 Eu) as [F4 F5].
      split_and!; eauto.
  - eexists. split; [reflexivity|]. rewrite andb_true_iff, Hin, Hnew. split.
    + intros (B1 & N1 & N2). split; [|cbn; rewrite Eu; eauto|by rewrite Eu].
      intros k t Hs [Hk|Hk]; cbn; rewrite Eu; eauto.
    + intros [F1 F2 F3]. cbn in F1, F2. rewrite Eu in F1, F2. split_and!; eauto.
Qed.
End well_formed.
