(* ===== verification/GraphMutation.v ===== *)
(** * GraphMutation: collecting changes of a graph (optimizer/graph_view, Mutation)

    [Mutation] holds the diffs of nodes, the nodes to remove and the nodes to
    add, until it is applied.  A pointer to a node view is its index in
    [nodes_]; a pointer to the mutation is left out, a view has one.  The
    operations on nodes of the graph are in [Mut], those on nodes that are to be
    added in [MutNew]. *)

From S2P Require Import Prelude Vec TensorName GraphView HashOrder GraphDiff.
#[local] Open Scope string_scope.
#[local] Open Scope list_scope.
#[local] Open Scope Z_scope.

(** [MutationNewNode] *)
Record MutationNewNode := mk_MutationNewNode { mnn_mutation_counter : Z; mnn_index : Z }.

Definition kMutationAddNodeError : string := "Mutation::AddNode error: ".
Definition IsTensorIdRegular (tensor_id : TensorId) : bool := 0 <=? TensorName.index tensor_id.

Section mutation.
  Context {AttrValue : Type}.
  #[local] Notation G := (MutableGraphView AttrValue).
  #[local] Notation D := (NodeViewDiff AttrValue).
  #[local] Notation N := (NewNode AttrValue).
  #[local] Notation M := (ST G).

Definition set_updated_nodes (l : list D) (m : Mutation AttrValue) : Mutation AttrValue :=
  mk_Mutation (mutation_counter_ m) l (removed_nodes_ m) (new_nodes_ m).
Definition set_removed_nodes (s : gset Z) (m : Mutation AttrValue) : Mutation AttrValue :=
  mk_Mutation (mutation_counter_ m) (updated_nodes_ m) s (new_nodes_ m).
Definition set_new_nodes (l : list N) (m : Mutation AttrValue) : Mutation AttrValue :=
  mk_Mutation (mutation_counter_ m) (updated_nodes_ m) (removed_nodes_ m) l.
Definition modify_mutation (f : Mutation AttrValue -> Mutation AttrValue) : M unit :=
  modify (fun g => set_mutation (f (mutation_ g)) g).

(** The loop of [AddNode] over the inputs of the node. *)
Fixpoint add_node_inputs (node_name : string) (inputs : list string) (has_observed_control : bool)
    (regular_fanins : list TensorId) (controlling_fanins : gset string) : Status + list TensorId * gset string :=
  match inputs with
  | [] => inr (regular_fanins, controlling_fanins)
  | input :: inputs =>
      let fanin_id := ParseTensorName input in
      if bool_decide (TensorName.node fanin_id = node_name) then
        inl (InvalidArgument (kMutationAddNodeError +:+ "node '" +:+ node_name +:+ "' has self cycle fanin '" +:+ input +:+ "'."))
      else if IsTensorIdControl fanin_id then
        add_node_inputs node_name inputs true regular_fanins ({[TensorName.node fanin_id]} ∪ controlling_fanins)
      else if has_observed_control then
        inl (InvalidArgument (kMutationAddNodeError +:+ "node '" +:+ node_name +:+ "' has regular fanin '" +:+ input +:+ "' after controlling fanins."))
      else add_node_inputs node_name inputs false (regular_fanins ++ [fanin_id]) controlling_fanins
  end.

Definition AddNode (node : NodeDef AttrValue) : M (Status * MutationNewNode) :=
  g ← get;
  match add_node_inputs (name node) (input node) false [] ∅ with
  | inl status => mret (status, mk_MutationNewNode (mutation_counter_ (mutation_ g)) kMissingIndex)
  | inr (regular_fanins, controlling_fanins) =>
      modify_mutation (fun m => set_new_nodes
        (new_nodes_ m ++ [mk_NewNode (set_input [] node) regular_fanins (size_ regular_fanins) controlling_fanins]) m);;
      mret (Status_OK, mk_MutationNewNode (mutation_counter_ (mutation_ g)) (size_ (new_nodes_ (mutation_ g))))
  end.

Definition AddMutation (node : Z) (mutate_fn : G -> D -> result (bool * D)) : M unit :=
  v ← node_at node;
  g ← get;
  let updated := updated_nodes_ (mutation_ g) in
  if update_index_ v =? kMissingIndex then
    '(changed, diff) ← lift (mutate_fn g (Diff.make (node_index_ v)));
    if changed : bool then
      update_node node (set_update_index (size_ updated));;
      modify_mutation (set_updated_nodes (updated ++ [diff]))
    else mret tt
  else if bool_decide (node_index_ v ∈ removed_nodes_ (mutation_ g)) then mret tt
  else
    diff ← lift (at_ updated (update_index_ v));
    '(_, diff') ← lift (mutate_fn g diff);
    modify_mutation (set_updated_nodes (vset updated (update_index_ v) diff')).

(** The diff of a removed node goes; the last diff takes its place. *)
Definition drop_diff (node update_index : Z) : M unit :=
  g ← get;
  let updated := updated_nodes_ (mutation_ g) in
  updated ← (if update_index <? size_ updated - 1 then
    last ← lift (back updated);
    update_node (diff_node_index last) (set_update_index update_index);;
    lift (swap_elements updated update_index (size_ updated - 1))
  else mret updated);
  updated ← lift (pop_back updated);
  modify_mutation (set_updated_nodes updated);;
  update_node node (set_update_index kMissingIndex).

Definition RemoveNode (node : Z) : M unit :=
  v ← node_at node;
  (if update_index_ v =? kMissingIndex then mret tt else drop_diff node (update_index_ v));;
  modify_mutation (fun m => set_removed_nodes ({[node_index_ v]} ∪ removed_nodes_ m) m).

Definition ResetInternal : M unit := modify_mutation (fun m => mk_Mutation (mutation_counter_ m) [] ∅ []).

Fixpoint clear_update_indices (l : list Z) : M unit :=
  match l with
  | [] => mret tt
  | i :: l => update_node i (set_update_index kMissingIndex);; clear_update_indices l
  end.

(** [Mutation::Reset] *)
Definition ResetMutation : M unit :=
  g ← get;
  clear_update_indices (map diff_node_index (updated_nodes_ (mutation_ g)));;
  ResetInternal.

(** The index of a controlling fanin, looked up when the mutation is recorded. *)
Definition with_control_index (node : Z) (f : Z -> D -> bool * D) (fanin_node_name : string) (g : G) (diff : D) : result (bool * D) :=
  v ← at_ (nodes_ g) node;
  let control_index := default kMissingIndex (controlling_fanins_index_ v !! fanin_node_name) in
  mret (f control_index diff).

(** A new node, checked to be one of this mutation. *)
Definition update_new_node (node : MutationNewNode) (f : N -> result N) : M unit :=
  g ← get;
  lift (ASSERT (mnn_mutation_counter node =? mutation_counter_ (mutation_ g)));;
  n ← lift (at_ (new_nodes_ (mutation_ g)) (mnn_index node));
  n' ← lift (f n);
  modify_mutation (set_new_nodes (vset (new_nodes_ (mutation_ g)) (mnn_index node) n')).
End mutation.

(** ** Changes of nodes of the graph *)

Module Mut.
Section mut.
  Context {AttrValue : Type}.
  #[local] Notation M := (ST (MutableGraphView AttrValue)).

Definition UpdateNodeName (node : Z) (name : string) : M unit :=
  AddMutation node (fun g diff => Diff.UpdateName g name diff).
Definition UpdateNodeOp (node : Z) (op : string) : M unit :=
  AddMutation node (fun g diff => Diff.UpdateOp g op diff).
Definition UpdateNodeDevice (node : Z) (device : string) : M unit :=
  AddMutation node (fun g diff => Diff.UpdateDevice g device diff).
Definition AddOrUpdateRegularFanin (node index : Z) (fanin : TensorId) : M unit :=
  AddMutation node (fun g diff => Diff.AddOrUpdateRegularFanin g index fanin diff).
Definition RemoveRegularFanin (node index : Z) : M unit :=
  AddMutation node (fun g diff => Diff.RemoveRegularFanin g index diff).
Definition AddControllingFanin (node : Z) (fanin_node_name : string) : M unit :=
  AddMutation node (with_control_index node (fun control_index =>
    Diff.AddControllingFanin control_index fanin_node_name) fanin_node_name).
Definition RemoveControllingFanin (node : Z) (fanin_node_name : string) : M unit :=
  AddMutation node (with_control_index node (fun control_index =>
    Diff.RemoveControllingFanin control_index fanin_node_name) fanin_node_name).
Definition AddOrUpdateNodeAttr (node : Z) (attr_name : string) (attr_value : AttrValue) : M unit :=
  AddMutation node (fun _ diff => mret (Diff.AddOrUpdateAttribute attr_name attr_value diff)).
Definition RemoveNodeAttr (node : Z) (attr_name : string) : M unit :=
  AddMutation node (fun g diff => Diff.RemoveAttribute g attr_name diff).
End mut.
End Mut.

(** ** Changes of nodes that are to be added *)

Module MutNew.
Section mut_new.
  Context {AttrValue : Type}.
  #[local] Notation M := (ST (MutableGraphView AttrValue)).

Definition UpdateNodeName (node : MutationNewNode) (name : string) : M unit :=
  update_new_node node (fun n => mret (New.UpdateName name n)).
Definition UpdateNodeOp (node : MutationNewNode) (op : string) : M unit :=
  update_new_node node (fun n => mret (New.UpdateOp op n)).
Definition UpdateNodeDevice (node : MutationNewNode) (device : string) : M unit :=
  update_new_node node (fun n => mret (New.UpdateDevice device n)).
Definition AddOrUpdateRegularFanin (node : MutationNewNode) (index : Z) (fanin : TensorId) : M unit :=
  lift (ASSERT ((0 <=? index) && IsTensorIdRegular fanin));;
  update_new_node node (New.AddOrUpdateRegularFanin index fanin).
Definition RemoveRegularFanin (node : MutationNewNode) (index : Z) : M unit :=
  lift (ASSERT (0 <=? index));;
  update_new_node node (New.RemoveRegularFanin index).
Definition AddControllingFanin (node : MutationNewNode) (fanin_node_name : string) : M unit :=
  update_new_node node (fun n => mret (New.AddControllingFanin fanin_node_name n)).
Definition RemoveControllingFanin (node : MutationNewNode) (fanin_node_name : string) : M unit :=
  update_new_node node (fun n => mret (New.RemoveControllingFanin fanin_node_name n)).
Definition AddOrUpdateNodeAttr (node : MutationNewNode) (attr_name : string) (attr_value : AttrValue) : M unit :=
  update_new_node node (fun n => mret (New.AddOrUpdateAttribute attr_name attr_value n)).
Definition RemoveNodeAttr (node : MutationNewNode) (attr_name : string) : M unit :=
  update_new_node node (fun n => mret (New.RemoveAttribute attr_name n)).
End mut_new.
End MutNew.
