(* ===== verification/GraphMutationProofs.v ===== *)
(** * GraphMutationProofs: recording changes

    The invariant of a mutation: diffs and nodes refer to each other, diffs are
    of nodes that stay, and count right.  [pending] is the content that a node
    will have; each operation does its edit to it and leaves the graph and the
    other nodes alone. *)

From S2P Require Import Prelude Vec TensorName GraphView GraphInv GraphEditProofs HashOrder GraphDiff GraphContent GraphBuild GraphWellFormed GraphMutation.
#[local] Open Scope string_scope.
#[local] Open Scope list_scope.
#[local] Open Scope Z_scope.

Section mutation.
  Context {AttrValue : Type}.
  #[local] Notation G := (MutableGraphView AttrValue).
  #[local] Notation D := (NodeViewDiff AttrValue).
  #[local] Notation N := (NewNode AttrValue).
  Implicit Type g : G.

(** ** The view, whatever is recorded *)

Record same_view g g' : Prop := {
  sv_graph : graph g' = graph g;
  sv_names : node_index_by_name_ g' = node_index_by_name_ g;
  sv_size : size_ (nodes_ g') = size_ (nodes_ g);
  sv_node : forall i v, vget (nodes_ g) i = Some v -> exists u, vget (nodes_ g') i = Some (set_update_index u v)
}.

Lemma set_update_index_id v : set_update_index (update_index_ v) v = v.
Proof. by destruct v. Qed.

#[export] Instance same_view_preorder : PreOrder same_view.
Proof.
  split.
  - intros g. split; try done. intros i v Hv. exists (update_index_ v). by rewrite set_update_index_id.
  - intros g1 g2 g3 [H1 H2 H3 H4] [H1' H2' H3' H4']. split; try congruence.
    intros i v Hv. destruct (H4 _ _ Hv) as [u Hu]. destruct (H4' _ _ Hu) as [u' Hu']. by exists u'.
Qed.

Lemma sv_node_back g g' i v' : same_view g g' -> vget (nodes_ g') i = Some v' ->
  exists v, vget (nodes_ g) i = Some v /\ v' = set_update_index (update_index_ v') v.
Proof.
  intros Hs Hv'. pose proof (vget_Some _ _ _ Hv') as Hr. rewrite (sv_size _ _ Hs) in Hr.
  destruct (vget_ex _ _ Hr) as [v Hv]. exists v. split; [done|]. destruct (sv_node _ _ Hs _ _ Hv) as [u Hu].
  rewrite Hv' in Hu. by injection Hu as ->.
Qed.

Lemma sv_at {A} g g' i (h : MutableNodeView -> option A) : same_view g g' ->
  (forall u v, h (set_update_index u v) = h v) -> (v ← vget (nodes_ g') i; h v) = (v ← vget (nodes_ g) i; h v).
Proof.
  intros Hs Hh. destruct (vget (nodes_ g) i) as [v|] eqn:E.
  - destruct (sv_node _ _ Hs _ _ E) as [u ->]. cbn. apply Hh.
  - destruct (vget (nodes_ g') i) as [v'|] eqn:E'; [|done].
    destruct (sv_node_back _ _ _ _ Hs E') as (v & Hv & _). congruence.
Qed.

Lemma view_ok_same g g' : same_view g g' -> view_ok g -> view_ok g'.
Proof.
  intros Hs Hg. assert (forall i, name_of g' i = name_of g i) as Hn by (intros i; unfold name_of; by rewrite (sv_graph _ _ Hs)).
  split; [split|].
  - split.
    + rewrite (sv_size _ _ Hs), (sv_graph _ _ Hs). apply Hg.
    + intros i v' (v & Hv & ->)%(sv_node_back _ _ _ _ Hs). cbn. by apply (ok_index _ (ok_names_ok _ _ _ Hg)).
    + intros s i. rewrite (sv_names _ _ Hs), (sv_graph _ _ Hs). apply Hg.
    + intros i j d e. rewrite (sv_graph _ _ Hs). apply Hg.
  - split.
    + eapply matching_ext; [apply Hg|intros; by apply sv_at|intros; by apply sv_at].
    + intros j v' (v & Hv & ->)%(sv_node_back _ _ _ _ Hs). cbn. by apply (ok_num_fanouts _ _ (ok_edges _ _ _ Hg) j).
  - eapply matching_ext; [apply Hg|intros; by apply sv_at|]. intros j p f. unfold control_fanout_by_port.
    destruct (p =? kControlSlot); [by apply sv_at|done].
  - intros i v' (v & Hv & ->)%(sv_node_back _ _ _ _ Hs).
    eapply index_ok_ext; [apply (ok_index_ok _ _ _ Hg i v Hv)|apply Hs|done..].
  - intros i d v' Hd (v & Hv & ->)%(sv_node_back _ _ _ _ Hs). rewrite (sv_graph _ _ Hs) in Hd.
    pose proof (ok_inputs _ Hg i d v Hd Hv) as Hi. unfold inputs_ok in *. rewrite Hi. apply map_ext. intros w.
    unfold fanin_id. by rewrite Hn.
Qed.

Lemma target_same_view g g' d u v (x : D) : graph g' = graph g -> target g' d (set_update_index u v) x = target g d v x.
Proof. intros E. destruct g, g'. cbn in E. by subst. Qed.
Lemma node_content_same_view g g' d u v : graph g' = graph g -> node_content g' d (set_update_index u v) = node_content g d v.
Proof. intros E. destruct g, g'. cbn in E. by subst. Qed.

(** ** What is recorded *)

Definition pending_diff g (i : Z) : option D :=
  v ← vget (nodes_ g) i; vget (updated_nodes_ (mutation_ g)) (update_index_ v).

Definition pending g (i : Z) : option (content AttrValue) :=
  v ← vget (nodes_ g) i; d ← vget (graph g) i;
  Some (match pending_diff g i with Some x => target g d v x | None => node_content g d v end).

Record new_ok (n : N) : Prop := {
  no_num : num_regular_fanins n = proper_count EmptyTensorId (new_regular_fanins n);
  no_ports : forall t, t ∈ new_regular_fanins n -> slot_ok t;
  no_inputs : input (new_node n) = []
}.

Record mutation_ok g : Prop := {
  mo_node : forall i v, vget (nodes_ g) i = Some v -> update_index_ v <> kMissingIndex ->
    exists x, vget (updated_nodes_ (mutation_ g)) (update_index_ v) = Some x /\ diff_node_index x = i;
  mo_diff : forall u x, vget (updated_nodes_ (mutation_ g)) u = Some x ->
    exists v, vget (nodes_ g) (diff_node_index x) = Some v /\ update_index_ v = u /\ diff_ok v x /\
      diff_node_index x ∉ removed_nodes_ (mutation_ g);
  mo_removed : forall i, i ∈ removed_nodes_ (mutation_ g) -> 0 <= i < size_ (nodes_ g);
  mo_new : forall n, n ∈ new_nodes_ (mutation_ g) -> new_ok n
}.

(** A node has at most one diff. *)
Lemma diff_unique g u u' x x' : mutation_ok g -> vget (updated_nodes_ (mutation_ g)) u = Some x ->
  vget (updated_nodes_ (mutation_ g)) u' = Some x' -> diff_node_index x = diff_node_index x' -> u = u'.
Proof.
  intros Hm Hx Hx' He. destruct (mo_diff _ Hm _ _ Hx) as (v & Hv & <- & _).
  destruct (mo_diff _ Hm _ _ Hx') as (v' & Hv' & <- & _). congruence.
Qed.

Lemma diff_ok_update v u (x : D) : diff_ok v x -> diff_ok (set_update_index u v) x.
Proof. intros [H1 H2 H3 H4 H5 H6 H7 H8]. by split. Qed.

Lemma diff_ok_update_back v u (x : D) : diff_ok (set_update_index u v) x -> diff_ok v x.
Proof. intros [H1 H2 H3 H4 H5 H6 H7 H8]. by split. Qed.

(** What an edit needs, given what is recorded of the node already. *)
Definition edit_allowed g (i : Z) (e : edit AttrValue) : Prop :=
  exists v, vget (nodes_ g) i = Some v /\ i ∉ removed_nodes_ (mutation_ g) /\
    edit_ok g v (default (Diff.make i) (pending_diff g i)) e.

(** The effect of recording one edit. *)
Record recorded g (i : Z) (e : edit AttrValue) g' : Prop := {
  rec_view : same_view g g';
  rec_ok : mutation_ok g';
  rec_pending : pending g' i ≡ edit_content e <$> pending g i;
  rec_other : forall j, j <> i -> pending g' j = pending g j;
  rec_removed : removed_nodes_ (mutation_ g') = removed_nodes_ (mutation_ g);
  rec_new : new_nodes_ (mutation_ g') = new_nodes_ (mutation_ g);
  rec_counter : mutation_counter_ (mutation_ g') = mutation_counter_ (mutation_ g)
}.

Definition implements (f : G -> D -> result (bool * D)) g (i : Z) (v : MutableNodeView) (e : edit AttrValue) : Prop :=
  forall x, f g x = diff_edit g v e x.

Lemma pending_diff_index g i x : mutation_ok g -> pending_diff g i = Some x -> diff_node_index x = i.
Proof.
  intros Hm (v & Hv & Hx)%bind_Some. destruct (decide (update_index_ v = kMissingIndex)) as [E|E].
  - rewrite E in Hx. by rewrite vget_None in Hx by (unfold kMissingIndex; lia).
  - destruct (mo_node _ Hm _ _ Hv E) as (x' & Hx' & <-). congruence.
Qed.

(** A first diff of node [i]. *)
Lemma record_first g i e v d x : view_ok g -> mutation_ok g -> vget (nodes_ g) i = Some v -> vget (graph g) i = Some d ->
  i ∉ removed_nodes_ (mutation_ g) -> update_index_ v = kMissingIndex -> diff_node_index x = i -> diff_ok v x ->
  target g d v x ≡ edit_content e (node_content g d v) ->
  recorded g i e (set_mutation (set_updated_nodes (updated_nodes_ (mutation_ g) ++ [x]) (mutation_ g))
    (set_nodes (vset (nodes_ g) i (set_update_index (size_ (updated_nodes_ (mutation_ g))) v)) g)).
Proof.
  intros Hg Hm Hv Hd Hi Hu Hxi Hx Ht. set (n := size_ (updated_nodes_ (mutation_ g))). set (g' := set_mutation _ _).
  pose proof (vget_Some _ _ _ Hv) as Hir. pose proof (size_nonneg (updated_nodes_ (mutation_ g))) as Hn0. fold n in Hn0.
  assert (forall j u, vget (nodes_ g) j = Some u -> vget (nodes_ g') j = Some (if bool_decide (i = j) then set_update_index n v else u)) as Hget.
  { intros j u Hj. cbn. rewrite vget_vset by done. by case_bool_decide. }
  assert (same_view g g') as Hsv.
  { split; try done; [cbn; by rewrite size_vset|]. intros j u Hj. rewrite (Hget _ _ Hj). case_bool_decide; [|exists (update_index_ u); by rewrite set_update_index_id].
    subst j. exists n. congruence. }
  assert (forall j u, vget (nodes_ g) j = Some u -> i <> j -> update_index_ u <> n) as Hother.
  { intros j u Hj Hne E. destruct (decide (update_index_ u = kMissingIndex)) as [E'|E']; [unfold kMissingIndex in *; lia|].
    destruct (mo_node _ Hm _ _ Hj E') as (y & Hy & _). apply vget_Some in Hy. lia. }
  split; try done.
  - split; cbn [mutation_ g' set_mutation set_nodes updated_nodes_ set_updated_nodes removed_nodes_ new_nodes_].
    + intros j u' Hu' Hne. destruct (sv_node_back _ _ _ _ Hsv Hu') as (u & Hj & _). rewrite (Hget _ _ Hj) in Hu'.
      injection Hu' as <-. case_bool_decide as E.
      * subst j. cbn. exists x. split; [apply vget_snoc_size|done].
      * destruct (mo_node _ Hm _ _ Hj Hne) as (y & Hy & Hyj). exists y. split; [by apply vget_snoc_Some|done].
    + intros u y Hy. rewrite vget_snoc in Hy. case_bool_decide as E.
      * injection Hy as <-. subst u. rewrite Hxi. exists (set_update_index n v). rewrite (Hget _ _ Hv), bool_decide_true by done.
        split_and!; try done. by apply diff_ok_update.
      * destruct (mo_diff _ Hm _ _ Hy) as (w & Hw & Hwu & Hwo & Hwr). exists w. rewrite (Hget _ _ Hw), bool_decide_false; [done|].
        intros Hne. rewrite <- Hne, Hv in Hw. injection Hw as <-. rewrite Hu in Hwu. apply vget_Some in Hy. unfold kMissingIndex in *. lia.
    + intros j Hj. rewrite (sv_size _ _ Hsv). by apply (mo_removed _ Hm).
    + apply (mo_new _ Hm).
  - unfold pending, pending_diff. rewrite (Hget _ _ Hv), bool_decide_true, Hv by done. cbn [mbind option_bind]. change (graph g') with (graph g).
    rewrite Hd. cbn [update_index_ set_update_index updated_nodes_ mutation_ g' set_mutation set_updated_nodes].
    unfold n at 1. rewrite vget_snoc_size, Hu. rewrite (vget_None (updated_nodes_ _) kMissingIndex) by (unfold kMissingIndex; lia). cbn.
    constructor. by rewrite (target_same_view g).
  - intros j Hj. unfold pending, pending_diff. destruct (vget (nodes_ g) j) as [u|] eqn:E.
    2:{ destruct (vget (nodes_ g') j) as [u'|] eqn:E'; [|done]. destruct (sv_node_back _ _ _ _ Hsv E') as (? & ? & _). congruence. }
    rewrite (Hget _ _ E), bool_decide_false by done. cbn [mbind option_bind]. change (graph g') with (graph g).
    destruct (vget (graph g) j) as [e'|]; [|done]. cbn [mbind option_bind].
    cbn [updated_nodes_ mutation_ g' set_mutation set_updated_nodes]. rewrite vget_snoc, bool_decide_false by (fold n; by apply not_eq_sym, Hother with j).
    done.
Qed.

(** A further change of node [i]. *)
Lemma record_next g i e v d x x' : view_ok g -> mutation_ok g -> vget (nodes_ g) i = Some v -> vget (graph g) i = Some d ->
  vget (updated_nodes_ (mutation_ g)) (update_index_ v) = Some x -> diff_node_index x = i ->
  diff_node_index x' = i -> diff_ok v x' -> target g d v x' ≡ edit_content e (target g d v x) ->
  recorded g i e (set_mutation (set_updated_nodes (vset (updated_nodes_ (mutation_ g)) (update_index_ v) x') (mutation_ g)) g).
Proof.
  intros Hg Hm Hv Hd Hx Hxi Hxi' Hx' Ht. set (g' := set_mutation _ _). pose proof (vget_Some _ _ _ Hx) as Hr.
  assert (same_view g g') as Hsv.
  { split; try done. intros j u Hj. exists (update_index_ u). by rewrite set_update_index_id. }
  split; try done.
  - split; cbn [nodes_ mutation_ g' set_mutation updated_nodes_ set_updated_nodes removed_nodes_ new_nodes_]; try apply Hm.
    + intros j u Hj Hne. rewrite vget_vset by done. destruct (mo_node _ Hm _ _ Hj Hne) as (y & Hy & Hyj).
      case_bool_decide as E; [|eauto]. exists x'. split; [done|]. rewrite <- E, Hx in Hy. congruence.
    + intros u y. rewrite vget_vset by done. case_bool_decide as E; [|apply (mo_diff _ Hm)].
      intros [= <-]. subst u. rewrite Hxi'. exists v. split_and!; try done.
      destruct (mo_diff _ Hm _ _ Hx) as (_ & _ & _ & _ & Hn). by rewrite Hxi in Hn.
  - unfold pending, pending_diff. cbn [nodes_ graph mutation_ g' set_mutation updated_nodes_ set_updated_nodes]. rewrite Hv. cbn [mbind option_bind].
    rewrite Hd, vget_vset, bool_decide_true, Hx by done. cbn. by constructor.
  - intros j Hj. unfold pending, pending_diff. cbn [nodes_ graph mutation_ g' set_mutation updated_nodes_ set_updated_nodes].
    destruct (vget (nodes_ g) j) as [u|] eqn:E; [|done]. cbn [mbind option_bind]. rewrite vget_vset by done.
    case_bool_decide as E'; [|done]. exfalso. apply Hj. rewrite E' in Hx.
    destruct (decide (update_index_ u = kMissingIndex)) as [E2|E2].
    + rewrite E2 in Hx. by rewrite vget_None in Hx by (unfold kMissingIndex; lia).
    + destruct (mo_node _ Hm _ _ E E2) as (y & Hy & <-). congruence.
Qed.

Lemma recorded_nothing g i e : view_ok g -> mutation_ok g -> pending g i ≡ edit_content e <$> pending g i -> recorded g i e g.
Proof. intros Hg Hm Hp. split; try done. Qed.

Lemma AddMutation_spec g i e f v : view_ok g -> mutation_ok g -> edit_allowed g i e -> vget (nodes_ g) i = Some v ->
  implements f g i v e -> runs (AddMutation i f) g (fun _ => recorded g i e).
Proof.
  intros Hg Hm (v' & Hv' & Hi & He) Hv Hf. assert (v' = v) as -> by congruence.
  destruct (view_ok_def _ _ _ _ _ Hg Hv) as [d Hd]. pose proof (ok_index _ (ok_names_ok _ _ _ Hg) _ _ Hv) as Hni.
  unfold AddMutation. run_step. eapply runs_node_at; [done|]. run_step. run_step. rewrite Hni.
  unfold pending_diff in He. rewrite Hv in He. cbn [mbind option_bind] in He.
  destruct (Z.eqb_spec (update_index_ v) kMissingIndex) as [E|E].
  - rewrite E, vget_None in He by (unfold kMissingIndex; lia). cbn in He.
    destruct (diff_edit_spec g v d (Diff.make i) Hg Hv Hd (diff_ok_make v i) e He) as (b & x & Hr & Hb & Hxi & Hx & Ht).
    rewrite target_make in Ht. cbn in Hxi. run_step. eapply runs_lift; [by rewrite Hf|]. destruct b.
    + run_step. eapply runs_update_node; [done|]. unfold modify_mutation. run_step. by apply (record_first g i e v d x).
    + run_step. apply recorded_nothing; [done..|]. rewrite (Hb eq_refl), target_make in Ht.
      unfold pending, pending_diff. rewrite Hv. cbn [mbind option_bind]. rewrite Hd. cbn [mbind option_bind].
      rewrite E, vget_None by (unfold kMissingIndex; lia). by constructor.
  - rewrite bool_decide_false by done. destruct (mo_node _ Hm _ _ Hv E) as (x & Hx & Hxi). rewrite Hx in He. cbn in He.
    assert (vget (nodes_ g) (diff_node_index x) = Some v) as Hv2 by (by rewrite Hxi).
    assert (vget (graph g) (diff_node_index x) = Some d) as Hd2 by (by rewrite Hxi).
    destruct (mo_diff _ Hm _ _ Hx) as (w & Hw & _ & Hxo & _). rewrite Hxi in Hw. assert (w = v) as -> by congruence.
    destruct (diff_edit_spec g v d x Hg Hv2 Hd2 Hxo e He) as (b & x' & Hr & _ & Hxi' & Hx' & Ht).
    run_step. eapply runs_at; [exact Hx|]. run_step. eapply runs_lift; [by rewrite Hf|]. unfold modify_mutation. run_step.
    apply (record_next g i e v d x x'); try done. congruence.
Qed.

(** ** Removal *)

(** The views when the diff [u] of node [i] goes and the last one moves to [u]. *)
Definition without_diff g (i u : Z) (j : Z) (w : MutableNodeView) : MutableNodeView :=
  if bool_decide (j = i) then set_update_index kMissingIndex w
  else if bool_decide (update_index_ w = size_ (updated_nodes_ (mutation_ g)) - 1) then set_update_index u w else w.

Lemma drop_diff_spec g i u x v : mutation_ok g -> vget (nodes_ g) i = Some v -> update_index_ v = u ->
  vget (updated_nodes_ (mutation_ g)) u = Some x -> diff_node_index x = i ->
  runs (drop_diff i u) g (fun _ g' => graph g' = graph g /\ node_index_by_name_ g' = node_index_by_name_ g /\
    size_ (nodes_ g') = size_ (nodes_ g) /\
    mutation_ g' = set_updated_nodes (swap_remove u (updated_nodes_ (mutation_ g))) (mutation_ g) /\
    forall j w, vget (nodes_ g) j = Some w -> vget (nodes_ g') j = Some (without_diff g i u j w)).
Proof.
  intros Hm Hv Hu Hx Hxi. set (l := updated_nodes_ (mutation_ g)) in *. pose proof (vget_Some _ _ _ Hx) as Hr.
  pose proof (vget_Some _ _ _ Hv) as Hir.
  destruct (vget_ex l (size_ l - 1)) as [y Hy]; [lia|]. destruct (mo_diff _ Hm _ _ Hy) as (vy & Hvy & Huy & _ & _).
  assert (forall j w, vget (nodes_ g) j = Some w -> update_index_ w = size_ l - 1 -> j = diff_node_index y) as Hlast.
  { intros j w Hw E. destruct (mo_node _ Hm _ _ Hw) as (z & Hz & <-); [unfold kMissingIndex; lia|]. fold l in Hz. congruence. }
  unfold drop_diff, modify_mutation. run_step. run_step. fold l. run_step. destruct (Z.ltb_spec u (size_ l - 1)) as [Hlt|Hge].
  - run_step. eapply runs_at; [exact Hy|]. run_step. eapply runs_update_node; [exact Hvy|].
    eapply runs_lift; [by apply (swap_elements_spec l u (size_ l - 1) x y)|]. run_step.
    eapply runs_lift; [by apply pop_swapped|]. run_step. run_step.
    assert (i <> diff_node_index y) as Hne by (intros ->; rewrite Hv in Hvy; injection Hvy as <-; lia).
    eapply runs_update_node; [cbn; by rewrite vget_vset_ne by done|].
    cbn [graph node_index_by_name_ nodes_ set_nodes set_mutation mutation_]. split_and!; try done.
    + by rewrite !size_vset.
    + intros j w Hw. rewrite vget_vset by (by rewrite size_vset). unfold without_diff. fold l.
      rewrite (bool_decide_ext (i = j) (j = i)) by done. case_bool_decide as E; [subst; congruence|].
      rewrite vget_vset by (by eapply vget_Some). case_bool_decide as E2.
      * subst j. rewrite bool_decide_true by congruence. congruence.
      * rewrite bool_decide_false; [done|]. intros E3. apply E2. symmetry. by eapply Hlast.
  - assert (u = size_ l - 1) as E by lia. run_step. run_step. eapply runs_lift; [apply pop_last; lia|]. run_step. run_step.
    eapply runs_update_node; [exact Hv|]. cbn [graph node_index_by_name_ nodes_ set_nodes set_mutation mutation_].
    split_and!; try done.
    + by rewrite size_vset.
    + by rewrite E.
    + intros j w Hw. rewrite vget_vset by done. unfold without_diff. fold l.
      rewrite (bool_decide_ext (i = j) (j = i)) by done. case_bool_decide as E'; [subst; congruence|].
      rewrite bool_decide_false; [done|]. intros E3. apply E'. rewrite (Hlast j w Hw E3). rewrite <- Hxi. congruence.
Qed.

Record removal g (i : Z) g' : Prop := {
  rm_view : same_view g g';
  rm_ok : mutation_ok g';
  rm_pending : pending_diff g' i = None;
  rm_other : forall j, j <> i -> pending g' j = pending g j;
  rm_removed : removed_nodes_ (mutation_ g') = {[i]} ∪ removed_nodes_ (mutation_ g);
  rm_new : new_nodes_ (mutation_ g') = new_nodes_ (mutation_ g);
  rm_counter : mutation_counter_ (mutation_ g') = mutation_counter_ (mutation_ g)
}.

(** [g'] is [g] without node [i] and its diff [u]; [y] was the last diff. *)
Section without.
Context (g g' : G) (i u : Z) (x y : D) (v : MutableNodeView) (Hm : mutation_ok g) (Hv : vget (nodes_ g) i = Some v).
#[local] Notation l := (updated_nodes_ (mutation_ g)).
Context (Hx : vget l u = Some x) (Hxi : diff_node_index x = i) (Hy : vget l (size_ l - 1) = Some y)
  (Hget : forall j w, vget (nodes_ g) j = Some w -> vget (nodes_ g') j = Some (without_diff g i u j w)) (Hsv : same_view g g')
  (Hupd : updated_nodes_ (mutation_ g') = swap_remove u l)
  (Hrem : removed_nodes_ (mutation_ g') = {[i]} ∪ removed_nodes_ (mutation_ g))
  (Hnew : new_nodes_ (mutation_ g') = new_nodes_ (mutation_ g)).

(** The other nodes keep their diffs. *)
Lemma without_diff_same j w : vget (nodes_ g) j = Some w -> j <> i ->
  vget (swap_remove u l) (update_index_ (without_diff g i u j w)) = vget l (update_index_ w).
Proof.
  intros Hw Hne. pose proof (vget_Some _ _ _ Hx) as Hur. rewrite (vget_swap_remove _ _ y) by done.
  unfold without_diff. rewrite (bool_decide_false (j = i)) by done. assert (update_index_ w <> u) as Hneu.
  { intros E'. destruct (mo_node _ Hm _ _ Hw) as (z & Hz & Hzj); [rewrite E'; unfold kMissingIndex; lia|].
    rewrite E' in Hz. congruence. }
  destruct (decide (update_index_ w = size_ l - 1)) as [E'|E'].
  - rewrite (bool_decide_true (update_index_ w = _)) by done. cbn [update_index_ set_update_index].
    rewrite (bool_decide_false (u = size_ l - 1)), (bool_decide_true (u = u)) by congruence. congruence.
  - rewrite (bool_decide_false (update_index_ w = size_ l - 1)) by done.
    rewrite (bool_decide_false (update_index_ w = size_ l - 1)), (bool_decide_false (update_index_ w = u)) by done. done.
Qed.

Lemma without_mutation_ok : mutation_ok g'.
Proof.
  pose proof (vget_Some _ _ _ Hx) as Hur. split; rewrite ?Hupd, ?Hrem, ?Hnew, ?(sv_size _ _ Hsv).
  - intros j w' Hw' Hne. destruct (sv_node_back _ _ _ _ Hsv Hw') as (w & Hw & _). rewrite (Hget _ _ Hw) in Hw'.
    injection Hw' as <-. destruct (decide (j = i)) as [->|Hj].
    { exfalso. apply Hne. unfold without_diff. by rewrite bool_decide_true. }
    rewrite (without_diff_same _ _ Hw Hj). apply (mo_node _ Hm _ _ Hw). intros E'. apply Hne. unfold without_diff.
    rewrite bool_decide_false by done. rewrite bool_decide_false; [done|]. unfold kMissingIndex in *. lia.
  - intros c z Hz. rewrite (vget_swap_remove _ _ y) in Hz by done. case_bool_decide as E1; [done|].
    assert (exists c0, vget l c0 = Some z /\ c0 <> u /\ c = if bool_decide (c0 = size_ l - 1) then u else c0) as (c0 & Hc0 & Hcu & Hc).
    { case_bool_decide as E2; [injection Hz as <-|].
      - exists (size_ l - 1). split; [done|]. rewrite bool_decide_true by done. split; [congruence|done].
      - exists c. rewrite bool_decide_false by done. done. }
    destruct (mo_diff _ Hm _ _ Hc0) as (w & Hw & Hwu & Hwo & Hwr).
    assert (diff_node_index z <> i) as Hzi.
    { intros E'. apply Hcu. eapply (diff_unique g c0 u z x); [done..|congruence]. }
    exists (without_diff g i u (diff_node_index z) w). rewrite (Hget _ _ Hw). split; [done|].
    unfold without_diff. rewrite (bool_decide_false (diff_node_index z = i)), Hwu by done. split_and!.
    + rewrite Hc. by case_bool_decide.
    + case_bool_decide; [by apply diff_ok_update|done].
    + set_solver.
  - intros j [->%elem_of_singleton|Hj]%elem_of_union; [by eapply vget_Some|by apply (mo_removed _ Hm)].
  - apply (mo_new _ Hm).
Qed.

Lemma without_pending j : j <> i -> pending g' j = pending g j.
Proof.
  intros Hj. unfold pending, pending_diff. rewrite Hupd, (sv_graph _ _ Hsv). destruct (vget (nodes_ g) j) as [w|] eqn:Ew.
  2:{ destruct (vget (nodes_ g') j) as [w'|] eqn:E'; [|done]. destruct (sv_node_back _ _ _ _ Hsv E') as (? & ? & _). congruence. }
  rewrite (Hget _ _ Ew). cbn [mbind option_bind]. rewrite (without_diff_same _ _ Ew Hj).
  destruct (vget (graph g) j) as [d|]; [|done]. cbn [mbind option_bind]. f_equal.
  assert (exists c, without_diff g i u j w = set_update_index c w) as [c ->].
  { unfold without_diff. repeat case_bool_decide; eauto. exists (update_index_ w). by rewrite set_update_index_id. }
  destruct (vget _ (update_index_ w)); [apply target_same_view|apply node_content_same_view]; apply Hsv.
Qed.
End without.

Lemma RemoveNode_spec g i v : view_ok g -> mutation_ok g -> vget (nodes_ g) i = Some v ->
  runs (RemoveNode i) g (fun _ => removal g i).
Proof.
  intros Hg Hm Hv. pose proof (ok_index _ (ok_names_ok _ _ _ Hg) _ _ Hv) as Hni. unfold RemoveNode, modify_mutation.
  run_step. eapply runs_node_at; [done|]. rewrite Hni. run_step.
  destruct (Z.eqb_spec (update_index_ v) kMissingIndex) as [E|E].
  - run_step. run_step. split; try done.
    + split; try done. intros j u Hj. exists (update_index_ u). by rewrite set_update_index_id.
    + split; cbn [nodes_ set_mutation mutation_ set_removed_nodes updated_nodes_ removed_nodes_ new_nodes_]; try apply Hm.
      * intros u x Hx. destruct (mo_diff _ Hm _ _ Hx) as (w & Hw & Hwu & Hwo & Hwr). exists w. split_and!; try done.
        apply not_elem_of_union. split; [|done]. apply not_elem_of_singleton. intros Heq. rewrite Heq in Hw.
        rewrite Hv in Hw. injection Hw as <-. apply vget_Some in Hx. unfold kMissingIndex in *. lia.
      * intros j [->%elem_of_singleton|Hj]%elem_of_union; [by eapply vget_Some|by apply (mo_removed _ Hm)].
    + unfold pending_diff. cbn. rewrite Hv. cbn. rewrite E. apply vget_None. unfold kMissingIndex. lia.
  - destruct (mo_node _ Hm _ _ Hv E) as (x & Hx & Hxi). set (u := update_index_ v) in *. pose proof (vget_Some _ _ _ Hx) as Hur.
    eapply runs_mono; [by apply (drop_diff_spec g i u x v)|]. intros _ g1 (Hgr & Hnm & Hsz & Hmu & Hget). run_step.
    set (l := updated_nodes_ (mutation_ g)) in *. destruct (vget_ex l (size_ l - 1)) as [y Hy]; [lia|].
    set (g' := set_mutation _ g1). assert (same_view g g') as Hsv.
    { split; try done. intros j w Hw. cbn. rewrite (Hget _ _ Hw). unfold without_diff.
      repeat case_bool_decide; eauto. exists (update_index_ w). by rewrite set_update_index_id. }
    assert (updated_nodes_ (mutation_ g') = swap_remove u l) as Hupd by (cbn; by rewrite Hmu).
    assert (removed_nodes_ (mutation_ g') = {[i]} ∪ removed_nodes_ (mutation_ g)) as Hrem by (cbn; by rewrite Hmu).
    assert (new_nodes_ (mutation_ g') = new_nodes_ (mutation_ g)) as Hnew by (cbn; by rewrite Hmu).
    split; try done.
    + by apply (without_mutation_ok g g' i u x y v).
    + unfold pending_diff. rewrite Hupd. cbn. rewrite (Hget _ _ Hv). unfold without_diff. by rewrite bool_decide_true.
    + intros j Hj. by apply (without_pending g g' i u x y).
    + cbn. by rewrite Hmu.
Qed.

(** ** The operations on nodes of the graph *)

Definition apply_edit (i : Z) (e : edit AttrValue) : ST G unit :=
  match e with
  | SetName s => Mut.UpdateNodeName i s
  | SetOp s => Mut.UpdateNodeOp i s
  | SetDevice s => Mut.UpdateNodeDevice i s
  | SetFanin k t => Mut.AddOrUpdateRegularFanin i k t
  | UnsetFanin k => Mut.RemoveRegularFanin i k
  | AddControl s => Mut.AddControllingFanin i s
  | DropControl s => Mut.RemoveControllingFanin i s
  | SetAttr s a => Mut.AddOrUpdateNodeAttr i s a
  | DropAttr s => Mut.RemoveNodeAttr i s
  end.

Lemma apply_edit_spec g i e : view_ok g -> mutation_ok g -> edit_allowed g i e ->
  runs (apply_edit i e) g (fun _ => recorded g i e).
Proof.
  intros Hg Hm He. pose proof He as (v & Hv & _).
  destruct e; cbn [apply_edit]; unfold Mut.UpdateNodeName, Mut.UpdateNodeOp, Mut.UpdateNodeDevice, Mut.AddOrUpdateRegularFanin,
    Mut.RemoveRegularFanin, Mut.AddControllingFanin, Mut.RemoveControllingFanin, Mut.AddOrUpdateNodeAttr, Mut.RemoveNodeAttr;
    (eapply AddMutation_spec; [done..|]); intros x; try done;
    unfold with_control_index; by rewrite (at_Some _ _ _ Hv).
Qed.

(** ** Nodes that are to be added *)

Definition new_target (n : N) : content AttrValue :=
  mk_content (name (new_node n)) (op (new_node n)) (device (new_node n))
    (fun k => let t := padded EmptyTensorId (new_regular_fanins n) k in
              if bool_decide (t = EmptyTensorId) then None else Some t)
    (new_controlling_fanins n) (attr (new_node n)).

Definition new_edit (e : edit AttrValue) (n : N) : result N :=
  match e with
  | SetName s => mret (New.UpdateName s n)
  | SetOp s => mret (New.UpdateOp s n)
  | SetDevice s => mret (New.UpdateDevice s n)
  | SetFanin k t => New.AddOrUpdateRegularFanin k t n
  | UnsetFanin k => New.RemoveRegularFanin k n
  | AddControl s => mret (New.AddControllingFanin s n)
  | DropControl s => mret (New.RemoveControllingFanin s n)
  | SetAttr s a => mret (New.AddOrUpdateAttribute s a n)
  | DropAttr s => mret (New.RemoveAttribute s n)
  end.

Definition new_edit_ok (e : edit AttrValue) : Prop :=
  match e with
  | SetFanin k t => 0 <= k /\ port_ok t
  | UnsetFanin k => 0 <= k
  | _ => True
  end.

Lemma new_slots k o (n n' : N) : new_node n' = new_node n -> new_controlling_fanins n' = new_controlling_fanins n ->
  (forall c, padded EmptyTensorId (new_regular_fanins n') c =
     if bool_decide (c = k) then default EmptyTensorId o else padded EmptyTensorId (new_regular_fanins n) c) ->
  o <> Some EmptyTensorId ->
  new_target n' ≡ edit_content (match o with Some t => SetFanin k t | None => UnsetFanin k end) (new_target n).
Proof.
  intros Hn Hc Hp Ho. unfold new_target. rewrite Hn, Hc. assert (forall c,
    (let t := padded EmptyTensorId (new_regular_fanins n') c in if bool_decide (t = EmptyTensorId) then None else Some t) =
    set_slot k o (fun c => let t := padded EmptyTensorId (new_regular_fanins n) c in if bool_decide (t = EmptyTensorId) then None else Some t) c) as H.
  { intros c. cbv zeta. rewrite Hp. unfold set_slot. destruct (decide (c = k)) as [->|Hck].
    - rewrite !(bool_decide_true (k = k)) by done. destruct o as [t|]; cbn; [|by rewrite bool_decide_true].
      rewrite bool_decide_false; [done|]. congruence.
    - by rewrite !(bool_decide_false (c = k)) by done. }
  destruct o; split_and!; cbn [c_name c_op c_device c_regular c_controls c_attr edit_content]; done.
Qed.

Lemma new_edit_spec e (n : N) : new_ok n -> new_edit_ok e ->
  exists n', new_edit e n = Ok n' /\ new_ok n' /\ new_target n' ≡ edit_content e (new_target n).
Proof.
  intros Hn He. destruct e as [s|s|s|k t|k|s|s|s a|s]; cbn [new_edit];
    try (eexists; split; [reflexivity|]; split; [by destruct Hn; split|]; split_and!; done).
  - destruct He as [Hk Ht]. unfold New.AddOrUpdateRegularFanin. destruct (Z.ltb_spec k 0); [lia|].
    assert (t <> EmptyTensorId) as Hne by (intros ->; unfold port_ok in Ht; cbn in Ht; unfold kMissingSlot in Ht; lia).
    destruct (AddOrUpdateAtIndex_spec EmptyTensorId (new_regular_fanins n) k t Hk Hne) as (b & l & -> & Hp & Hc & _).
    cbn [mbind result_bind]. eexists. split; [reflexivity|]. split.
    + split; cbn [num_regular_fanins new_regular_fanins New.set_regular new_node]; [by rewrite Hc, (no_num _ Hn)| |apply Hn].
      intros u [->|[->|Hu]]%(padded_elem _ _ _ _ _ _ Hp); [by right|by left|by apply (no_ports _ Hn)].
    + apply (new_slots k (Some t)); [done..|congruence].
  - cbn in He. unfold New.RemoveRegularFanin. destruct (Z.ltb_spec k 0); [lia|]. cbn [orb].
    assert (padded EmptyTensorId (new_regular_fanins n) k = EmptyTensorId -> new_target n ≡ edit_content (UnsetFanin k) (new_target n)) as Hsame.
    { intros Hp. apply (new_slots k None); [done..| |done]. intros c. case_bool_decide; [by subst|done]. }
    destruct (Z.leb_spec (size_ (new_regular_fanins n)) k).
    + eexists. split; [reflexivity|]. split; [done|]. apply Hsame. unfold padded. by rewrite vget_None by lia.
    + destruct (vget_ex (new_regular_fanins n) k) as [t Ht]; [lia|]. rewrite (at_Some _ _ _ Ht). cbn [mbind result_bind].
      rewrite IsEmptyTensorId_spec. case_bool_decide as E.
      * eexists. split; [reflexivity|]. split; [done|]. apply Hsame. unfold padded. by rewrite Ht.
      * destruct (padded_clear EmptyTensorId _ _ t Ht E) as [Hp Hc]. eexists. split; [reflexivity|]. split.
        -- split; cbn [num_regular_fanins new_regular_fanins New.set_regular new_node]; [by rewrite Hc, (no_num _ Hn)| |apply Hn].
           intros u [->|[->|Hu]]%(padded_elem _ _ _ _ _ _ Hp); [by left..|by apply (no_ports _ Hn)].
        -- apply (new_slots k None); done.
Qed.

(** Recording an edit of a new node. *)
Definition apply_new_edit (node : MutationNewNode) (e : edit AttrValue) : ST G unit :=
  match e with
  | SetName s => MutNew.UpdateNodeName node s
  | SetOp s => MutNew.UpdateNodeOp node s
  | SetDevice s => MutNew.UpdateNodeDevice node s
  | SetFanin k t => MutNew.AddOrUpdateRegularFanin node k t
  | UnsetFanin k => MutNew.RemoveRegularFanin node k
  | AddControl s => MutNew.AddControllingFanin node s
  | DropControl s => MutNew.RemoveControllingFanin node s
  | SetAttr s a => MutNew.AddOrUpdateNodeAttr node s a
  | DropAttr s => MutNew.RemoveNodeAttr node s
  end.

(** The graph and its nodes as they were, and the mutation with other new nodes. *)
Definition only_new_nodes g g' : Prop :=
  graph g' = graph g /\ nodes_ g' = nodes_ g /\ node_index_by_name_ g' = node_index_by_name_ g /\
  mutation_ g' = set_new_nodes (new_nodes_ (mutation_ g')) (mutation_ g).

Lemma mutation_ok_new g g' : mutation_ok g -> only_new_nodes g g' ->
  (forall n, n ∈ new_nodes_ (mutation_ g') -> new_ok n) -> mutation_ok g'.
Proof.
  intros Hm (_ & Hn & _ & Hmu) Hnew. split; [..|done]; rewrite Hmu, ?Hn; apply Hm.
Qed.

Lemma update_new_node_spec g node f n n' : mutation_ok g -> mnn_mutation_counter node = mutation_counter_ (mutation_ g) ->
  vget (new_nodes_ (mutation_ g)) (mnn_index node) = Some n -> f n = Ok n' -> new_ok n' ->
  runs (update_new_node node f) g (fun _ g' => mutation_ok g' /\ only_new_nodes g g' /\
    new_nodes_ (mutation_ g') = vset (new_nodes_ (mutation_ g)) (mnn_index node) n').
Proof.
  intros Hm Hc Hn Hf Hn'. unfold update_new_node, modify_mutation. run_step. run_step. run_step. run_step; [by apply Z.eqb_eq|].
  run_step. eapply runs_at; [exact Hn|]. run_step. eapply runs_lift; [exact Hf|]. run_step.
  assert (only_new_nodes g (set_mutation (set_new_nodes (vset (new_nodes_ (mutation_ g)) (mnn_index node) n') (mutation_ g)) g)) as Ho by done.
  split; [|done]. eapply mutation_ok_new; [exact Hm|exact Ho|]. cbn [new_nodes_ mutation_ set_mutation set_new_nodes].
  intros y [c Hy]%elem_of_vget. rewrite vget_vset in Hy by (by eapply vget_Some). case_bool_decide; [by simplify_eq|].
  apply (mo_new _ Hm), elem_of_vget. eauto.
Qed.

Lemma apply_new_edit_spec g node e n : mutation_ok g -> mnn_mutation_counter node = mutation_counter_ (mutation_ g) ->
  vget (new_nodes_ (mutation_ g)) (mnn_index node) = Some n -> new_edit_ok e ->
  runs (apply_new_edit node e) g (fun _ g' => mutation_ok g' /\ only_new_nodes g g' /\
    exists n', new_nodes_ (mutation_ g') = vset (new_nodes_ (mutation_ g)) (mnn_index node) n' /\
      new_target n' ≡ edit_content e (new_target n)).
Proof.
  intros Hm Hc Hn He. assert (new_ok n) as Hok by (apply (mo_new _ Hm), elem_of_vget; eauto).
  destruct (new_edit_spec e n Hok He) as (n' & Hr & Hok' & Ht).
  assert (forall f, f n = Ok n' -> runs (update_new_node node f) g (fun _ g' => mutation_ok g' /\ only_new_nodes g g' /\
    exists n', new_nodes_ (mutation_ g') = vset (new_nodes_ (mutation_ g)) (mnn_index node) n' /\
      new_target n' ≡ edit_content e (new_target n))) as Hrun.
  { intros f Hf. eapply runs_mono; [by apply (update_new_node_spec g node f n n')|]. intros _ g' (H1 & H2 & H3). eauto. }
  destruct e; cbn [apply_new_edit new_edit new_edit_ok] in *;
    unfold MutNew.UpdateNodeName, MutNew.UpdateNodeOp, MutNew.UpdateNodeDevice, MutNew.AddOrUpdateRegularFanin,
      MutNew.RemoveRegularFanin, MutNew.AddControllingFanin, MutNew.RemoveControllingFanin, MutNew.AddOrUpdateNodeAttr,
      MutNew.RemoveNodeAttr; try (by apply Hrun).
  - run_step. run_step; [|by apply Hrun]. apply andb_true_iff. unfold IsTensorIdRegular. rewrite !Z.leb_le. destruct He as [? [? _]]. done.
  - run_step. run_step; [by apply Z.leb_le|by apply Hrun].
Qed.

(** *** [AddNode] *)

Lemma ParseTensorName_not_empty s : ParseTensorName s <> EmptyTensorId.
Proof.
  unfold ParseTensorName. destruct (digits_back _ 0 1) as [[r i] m].
  set (u := match String.list_ascii_of_string s with [] => _ | _ => _ end).
  assert (u <> EmptyTensorId) as Hu.
  { unfold u, EmptyTensorId, kMissingSlot, kControlSlot. destruct (String.list_ascii_of_string s) as [|c l]; [done|]. by destruct (Ascii.eqb c _). }
  destruct r as [|c [|c' r]]; [done..|]. destruct (_ && _); [|done]. intros [= E _]. cbn [rev] in E.
  destruct (rev r) as [|a r']; cbn in E; [done|]. by destruct (r' ++ [c'])%list.
Qed.

Lemma ParseTensorName_index s : TensorName.index (ParseTensorName s) < 2 ^ 31.
Proof.
  unfold ParseTensorName. destruct (digits_back _ 0 1) as [[r i] m].
  assert (i32 i < 2 ^ 31) as Hi.
  { unfold i32, to_signed. change (32 - 1) with 31. pose proof (Z.mod_pos_bound i (2 ^ 32) ltac:(lia)).
    destruct (Z.ltb_spec (i `mod` 2 ^ 32) (2 ^ 31)); lia. }
  set (u := match String.list_ascii_of_string s with [] => _ | _ => _ end).
  assert (TensorName.index u < 2 ^ 31) as Hu.
  { unfold u, kControlSlot. destruct (String.list_ascii_of_string s) as [|c l]; cbn; [lia|]. destruct (Ascii.eqb c _); cbn; lia. }
  destruct r as [|c [|c' r]]; [done..|]. by destruct (_ && _).
Qed.

Lemma proper_count_parsed l : Forall (fun t => t <> EmptyTensorId) l -> size_ l = proper_count EmptyTensorId l.
Proof.
  intros Hl. symmetry. apply count_full. intros c Hc. destruct (vget_ex _ _ Hc) as [t Ht]. unfold padded. rewrite Ht.
  rewrite Forall_forall in Hl. apply Hl, elem_of_vget. eauto.
Qed.

Lemma add_node_inputs_spec nm inputs : forall obs regs ctrls,
  let ids := map ParseTensorName inputs in
  let good := Forall (fun t => TensorName.node t <> nm) ids /\ controls_last ids /\
    (obs = true -> Forall (fun t => IsTensorIdControl t = true) ids) in
  match add_node_inputs nm inputs obs regs ctrls with
  | inl st => status_ok st = false /\ ~ good
  | inr (regs', ctrls') => good /\ regs' = regs ++ List.filter (fun t => negb (IsTensorIdControl t)) ids /\
      ctrls' = ctrls ∪ list_to_set (map TensorName.node (List.filter IsTensorIdControl ids))
  end.
Proof.
  induction inputs as [|s inputs IH]; intros obs regs ctrls ids good; cbn [add_node_inputs].
  { split; [repeat split; try constructor|]. cbn. split; [by rewrite app_nil_r|set_solver]. }
  set (t := ParseTensorName s). set (ids' := map ParseTensorName inputs).
  assert (good <-> (TensorName.node t <> nm /\ Forall (fun t => TensorName.node t <> nm) ids') /\
    ((IsTensorIdControl t = true -> Forall (fun t => IsTensorIdControl t = true) ids') /\ controls_last ids') /\
    (obs = true -> IsTensorIdControl t = true /\ Forall (fun t => IsTensorIdControl t = true) ids')) as Hgood.
  { unfold good. change ids with (t :: ids'). by rewrite !Forall_cons. }
  change ids with (t :: ids'). cbn [List.filter]. clearbody good.
  case_bool_decide as Es; [rewrite Hgood; split; [done|tauto]|]. destruct (IsTensorIdControl t) eqn:Ec.
  - specialize (IH true regs ({[TensorName.node t]} ∪ ctrls)). cbv zeta in IH. fold ids' in IH.
    destruct (add_node_inputs _ _ _ _ _) as [st|[regs' ctrls']]; rewrite Hgood.
    + destruct IH as [Hst Hn]. split; [done|]. intros ((_ & H1) & (H2 & H3) & _). apply Hn. split; [done|]. split; [done|]. intros _. by apply H2.
    + destruct IH as ((H1 & H2 & H3) & -> & ->). specialize (H3 eq_refl). split; [by auto|]. split; [done|]. cbn. set_solver.
  - destruct obs; [rewrite Hgood; split; [done|]; intros (_ & _ & H); by destruct (H eq_refl)|].
    specialize (IH false (regs ++ [t]) ctrls). cbv zeta in IH. fold ids' in IH.
    destruct (add_node_inputs _ _ _ _ _) as [st|[regs' ctrls']]; rewrite Hgood.
    + destruct IH as [Hst Hn]. split; [done|]. intros ((_ & H1) & (H2 & H3) & _). by apply Hn.
    + destruct IH as ((H1 & H2 & H3) & -> & ->). split; [by auto|]. split; [|done]. cbn [negb]. by rewrite <- app_assoc.
Qed.

(** Whether the inputs of a node to be added are acceptable on their own. *)
Definition addable (node : NodeDef AttrValue) : Prop :=
  Forall (fun t => TensorName.node t <> name node) (map ParseTensorName (input node)) /\
  controls_last (map ParseTensorName (input node)).

Lemma AddNode_spec g node : mutation_ok g -> ports_in_range node ->
  runs (AddNode node) g (fun '(st, mn) g' => mutation_ok g' /\ only_new_nodes g g' /\
    (status_ok st = true <-> addable node) /\ (status_ok st = false -> g' = g) /\
    mnn_mutation_counter mn = mutation_counter_ (mutation_ g) /\
    (status_ok st = true -> exists n, new_nodes_ (mutation_ g') = new_nodes_ (mutation_ g) ++ [n] /\
       mnn_index mn = size_ (new_nodes_ (mutation_ g)) /\
       new_target n ≡ mk_content (name node) (op node) (device node)
         (vget (List.filter (fun t => negb (IsTensorIdControl t)) (map ParseTensorName (input node))))
         (list_to_set (map TensorName.node (List.filter IsTensorIdControl (map ParseTensorName (input node))))) (attr node))).
Proof.
  intros Hm Hports. unfold AddNode, modify_mutation. run_step. run_step.
  pose proof (add_node_inputs_spec (name node) (input node) false [] ∅) as Hs. cbv zeta in Hs.
  destruct (add_node_inputs _ _ _ _ _) as [st|[regs ctrls]].
  - run_step. destruct Hs as [Hst Hn]. rewrite Hst. split; [done|]. split; [split_and!; try done; by destruct (mutation_ g)|].
    split; [split; [done|]; intros [H1 H2]; exfalso; by apply Hn|]. done.
  - destruct Hs as ((H1 & H2 & _) & -> & ->). cbn [app]. set (regs := List.filter _ _).
    assert (Forall (fun t => t <> EmptyTensorId) regs) as Hne.
    { apply Forall_forall. intros t [Ht _]%list_elem_of_In%filter_In. apply list_elem_of_In, list_elem_of_fmap in Ht as (s & -> & _).
      apply ParseTensorName_not_empty. }
    assert (forall t, t ∈ regs -> port_ok t) as Hpo.
    { intros t [Ht Htc]%list_elem_of_In%filter_In. apply list_elem_of_In, list_elem_of_fmap in Ht as (s & -> & Hs).
      unfold ports_in_range in Hports. rewrite Forall_forall in Hports. specialize (Hports s Hs).
      pose proof (ParseTensorName_index s). unfold IsTensorIdControl, kControlSlot in Htc. apply negb_true_iff, Z.eqb_neq in Htc.
      unfold port_ok. lia. }
    run_step. run_step. run_step. set (g' := set_mutation _ g). assert (only_new_nodes g g') as Ho by done. split.
    { eapply mutation_ok_new; [exact Hm|exact Ho|]. intros n. cbn [g' mutation_ set_mutation set_new_nodes new_nodes_].
      intros [Hn| ->%list_elem_of_singleton]%elem_of_app; [by apply (mo_new _ Hm)|].
      split; [by apply proper_count_parsed| |done]. intros t Ht. right. by apply Hpo. }
    split; [done|]. split; [done|]. split; [done|]. split; [done|]. intros _. eexists. split; [reflexivity|].
    split; [done|]. split_and!; try done; cbn.
    + intros k. unfold padded. destruct (vget regs k) as [t|] eqn:E; cbn; [|done]. rewrite bool_decide_false; [done|].
      rewrite Forall_forall in Hne. apply Hne, elem_of_vget. eauto.
    + set_solver.
Qed.
End mutation.
