(* ===== verification/GraphValidate.v ===== *)
(** * GraphValidate: whether a mutation can be applied (optimizer/graph_view.cc)

    The checks that [Mutation::Apply] makes before it changes anything: names are
    used once, removed nodes have no fanouts left, changed and new nodes are well
    formed.  They also trim the diffs and prepare their attributes. *)

From S2P Require Import Prelude Vec TensorName GraphView HashOrder GraphDiff GraphMutation.
#[local] Open Scope string_scope.
#[local] Open Scope list_scope.
#[local] Open Scope Z_scope.

Record RenamedOrOverwrittenNode := mk_Renamed { renamed_update_index_ : Z; overwritten_node_index_ : Z }.

Definition kMutableGraphViewApplyError : string := "Mutation::Apply error: ".

Section validate.
  Context {AttrValue : Type} {HO : HashOrder}.
  #[local] Notation G := (MutableGraphView AttrValue).
  #[local] Notation D := (NodeViewDiff AttrValue).
  #[local] Notation N := (NewNode AttrValue).
  #[local] Notation M := (ST G).

Definition diff_at (u : Z) : M D := g ← get; lift (at_ (updated_nodes_ (mutation_ g)) u).
Definition set_diff (u : Z) (x : D) : M unit :=
  modify_mutation (fun m => set_updated_nodes (vset (updated_nodes_ m) u x) m).

(** [nodes_[i].GetName()] *)
Definition get_name (i : Z) : M string := v ← node_at i; d ← node_def_at (node_index_ v); mret (name d).

(** ** Validation *)

Definition name_conflict (node_name : string) : Status :=
  InvalidArgument (kMutableGraphViewApplyError +:+ "multiple nodes with the name: '" +:+ node_name +:+ "' exists in Mutation.").

(** A node of the mutation takes a name: [None] when another one has it. *)
Definition take_name (node_names : gmap string Z) (node_name : string) : option (gmap string Z) :=
  match node_names !! node_name with
  | Some i => if i =? kNodeNamePresent then None else Some (<[node_name := kNodeNamePresent]> node_names)
  | None => Some (<[node_name := kNodeNamePresent]> node_names)
  end.

Fixpoint renamed_names (l : list D) (node_names : gmap string Z) : M (gmap string Z) :=
  match l with
  | [] => mret node_names
  | diff :: l =>
      if update_name diff then
        node_name ← get_name (diff_node_index diff);
        renamed_names l (emplace node_names node_name (diff_node_index diff))
      else renamed_names l node_names
  end.

Fixpoint removed_names (l : list Z) (node_names : gmap string Z) : M (gmap string Z) :=
  match l with
  | [] => mret node_names
  | node_index :: l => node_name ← get_name node_index; removed_names l (emplace node_names node_name node_index)
  end.

(** The names and the partition of the diffs. *)
Record partition := mk_partition {
  p_node_names : gmap string Z;
  p_renamed_nodes : list RenamedOrOverwrittenNode;
  p_inplace_nodes : list Z;
  p_empty_diff_node_indices : list Z
}.

Fixpoint partition_updated (l : list Z) (p : partition) : M (Status + partition) :=
  match l with
  | [] => mret (inr p)
  | i :: l =>
      diff ← diff_at i;
      let '(empty, diff) := Diff.IsEmpty diff in
      set_diff i diff;;
      if empty : bool then
        partition_updated l (mk_partition (p_node_names p) (p_renamed_nodes p) (p_inplace_nodes p)
          (p_empty_diff_node_indices p ++ [diff_node_index diff]))
      else
        node_name ← (if update_name diff then mret (diff_name diff) else get_name (diff_node_index diff));
        match take_name (p_node_names p) node_name with
        | None => mret (inl (name_conflict node_name))
        | Some node_names =>
            g ← get;
            partition_updated l
              (if update_name diff
               then mk_partition node_names
                      (p_renamed_nodes p ++ [mk_Renamed i (default kMissingIndex (node_index_by_name_ g !! node_name))])
                      (p_inplace_nodes p) (p_empty_diff_node_indices p)
               else mk_partition node_names (p_renamed_nodes p) (p_inplace_nodes p ++ [i]) (p_empty_diff_node_indices p))
        end
  end.

Fixpoint new_names (l : list N) (node_names : gmap string Z) : Status + gmap string Z :=
  match l with
  | [] => inr node_names
  | n :: l =>
      match take_name node_names (name (new_node n)) with
      | None => inl (name_conflict (name (new_node n)))
      | Some node_names => new_names l node_names
      end
  end.

Definition GetNodeNamesAndPartitionUpdatedNodes : M (Status + partition) :=
  g ← get;
  node_names ← renamed_names (updated_nodes_ (mutation_ g)) ∅;
  node_names ← removed_names (indices_in_order (removed_nodes_ (mutation_ g))) node_names;
  r ← partition_updated (count_up (size_ (updated_nodes_ (mutation_ g)))) (mk_partition node_names [] [] []);
  match r with
  | inl status => mret (inl status)
  | inr p =>
      match new_names (new_nodes_ (mutation_ g)) (p_node_names p) with
      | inl status => mret (inl status)
      | inr node_names =>
          mret (inr (mk_partition node_names (p_renamed_nodes p) (p_inplace_nodes p) (p_empty_diff_node_indices p)))
      end
  end.

Definition bad_fanout (fanout_node_name node_name : string) : Status :=
  InvalidArgument (kMutableGraphViewApplyError +:+ "fanout '" +:+ fanout_node_name +:+ "' exist for missing node '" +:+ node_name +:+ "'.").

(** What becomes of a fanout of a node that will be missing: whether it may stay. *)
Definition regular_fanout_ok (overwritten_nodes : list bool) (regular_fanout : MutableFaninView) : M bool :=
  fanout_view ← node_at (fanin_node_index regular_fanout);
  g ← get;
  if update_index_ fanout_view =? kMissingIndex then
    if bool_decide (node_index_ fanout_view ∈ removed_nodes_ (mutation_ g)) then mret true
    else lift (at_ overwritten_nodes (node_index_ fanout_view))
  else
    diff ← diff_at (update_index_ fanout_view);
    let last_index := NumRegularFanins fanout_view - num_regular_inputs_to_remove diff - 1 in
    if last_index <? fanin_port_index regular_fanout then mret true
    else mret (bool_decide (is_Some (regular_inputs_to_update diff !! fanin_port_index regular_fanout))).

Definition controlled_fanout_ok (overwritten_nodes : list bool) (controlled_fanout : MutableFaninView) : M bool :=
  fanout_view ← node_at (fanin_node_index controlled_fanout);
  g ← get;
  if update_index_ fanout_view =? kMissingIndex then
    if bool_decide (node_index_ fanout_view ∈ removed_nodes_ (mutation_ g)) then mret true
    else lift (at_ overwritten_nodes (node_index_ fanout_view))
  else
    diff ← diff_at (update_index_ fanout_view);
    mret (bool_decide (fanin_index_ controlled_fanout ∈ controlling_inputs_to_remove diff)).

Fixpoint fanouts_ok (ok : MutableFaninView -> M bool) (node_name : string) (l : list MutableFaninView) : M (option Status) :=
  match l with
  | [] => mret None
  | fanout :: l =>
      b ← ok fanout;
      if b : bool then fanouts_ok ok node_name l
      else fanout_name ← get_name (fanin_node_index fanout); mret (Some (bad_fanout fanout_name node_name))
  end.

Fixpoint missing_fanouts_ok (overwritten_nodes : list bool) (l : list (string * Z)) : M (option Status) :=
  match l with
  | [] => mret None
  | (node_name, i) :: l =>
      if i =? kNodeNamePresent then missing_fanouts_ok overwritten_nodes l
      else
        node_view ← node_at i;
        r ← fanouts_ok (regular_fanout_ok overwritten_nodes) node_name (concat (regular_fanouts_by_port_ node_view));
        match r with
        | Some status => mret (Some status)
        | None =>
            r ← fanouts_ok (controlled_fanout_ok overwritten_nodes) node_name (controlled_fanouts_ node_view);
            match r with
            | Some status => mret (Some status)
            | None => missing_fanouts_ok overwritten_nodes l
            end
        end
  end.

Fixpoint mark_overwritten (renamed_nodes : list RenamedOrOverwrittenNode) (overwritten_nodes : list bool) : result (list bool) :=
  match renamed_nodes with
  | [] => mret overwritten_nodes
  | renamed_node :: renamed_nodes =>
      if overwritten_node_index_ renamed_node =? kMissingIndex then mark_overwritten renamed_nodes overwritten_nodes
      else at_ overwritten_nodes (overwritten_node_index_ renamed_node);;
           mark_overwritten renamed_nodes (vset overwritten_nodes (overwritten_node_index_ renamed_node) true)
  end.

Definition RemovedOrMissingNodeFanoutsWellFormed (node_names : gmap string Z)
    (renamed_nodes : list RenamedOrOverwrittenNode) : M (option Status) :=
  g ← get;
  overwritten_nodes ← lift (mark_overwritten renamed_nodes (replicate (length (nodes_ g)) false));
  missing_fanouts_ok overwritten_nodes (entries_in_order node_names).

(** The checks of the diffs [l]; [describe] is what an error calls the node. *)
Fixpoint check_diffs (node_names : gmap string Z) (describe : D -> M string) (l : list Z) : M (option Status) :=
  match l with
  | [] => mret None
  | u :: l =>
      diff ← diff_at u;
      g ← get;
      '(ok, diff) ← lift (Diff.IsWellFormed g node_names diff);
      set_diff u diff;;
      if ok : bool then check_diffs node_names describe l
      else text ← describe diff; mret (Some (InvalidArgument (kMutableGraphViewApplyError +:+ text +:+ " is ill-formed.")))
  end.

Definition describe_inplace (diff : D) : M string :=
  n ← get_name (diff_node_index diff); mret ("inplace updated node '" +:+ n +:+ "'").
Definition describe_renamed (diff : D) : M string :=
  n ← get_name (diff_node_index diff); mret ("renamed updated node '" +:+ diff_name diff +:+ "' ('" +:+ n +:+ "')").

Fixpoint check_new_nodes (node_names : gmap string Z) (l : list Z) : M (option Status) :=
  match l with
  | [] => mret None
  | k :: l =>
      g ← get;
      n ← lift (at_ (new_nodes_ (mutation_ g)) k);
      let '(ok, n) := New.IsWellFormed g node_names n in
      modify_mutation (fun m => set_new_nodes (vset (new_nodes_ m) k n) m);;
      if ok : bool then check_new_nodes node_names l
      else mret (Some (InvalidArgument (kMutableGraphViewApplyError +:+ "new node '" +:+ name (new_node n) +:+ "' is ill-formed.")))
  end.

Definition CheckNodeNamesAndFanins (p : partition) : M (option Status) :=
  r ← RemovedOrMissingNodeFanoutsWellFormed (p_node_names p) (p_renamed_nodes p);
  match r with
  | Some status => mret (Some status)
  | None =>
      r ← check_diffs (p_node_names p) describe_inplace (p_inplace_nodes p);
      match r with
      | Some status => mret (Some status)
      | None =>
          r ← check_diffs (p_node_names p) describe_renamed (map renamed_update_index_ (p_renamed_nodes p));
          match r with
          | Some status => mret (Some status)
          | None => g ← get; check_new_nodes (p_node_names p) (count_up (size_ (new_nodes_ (mutation_ g))))
          end
      end
  end.

(** The attributes of the updated node. *)
Definition process_attrs (attrs : gmap string AttrValue) (diff : D) : gmap string AttrValue :=
  fold_left (fun m e => <[e.1 := e.2]> m) (entries_in_order (attrs_to_add diff))
    (fold_left (fun m s => delete s m) (names_in_order (attrs_to_remove diff)) attrs).

Fixpoint check_kernels (l : list Z) : M unit :=
  match l with
  | [] => mret tt
  | u :: l =>
      diff ← diff_at u;
      let '(empty, diff) := Diff.IsEmpty diff in
      set_diff u diff;;
      (if empty : bool then mret tt
       else v ← node_at (diff_node_index diff);
            d ← node_def_at (node_index_ v);
            set_diff u (Diff.set_processed (Some (process_attrs (attr d) diff)) diff));;
      check_kernels l
  end.

(** Prepares the attributes; the parsed device names that the code computes are
    not used, and no error is given. *)
Definition CheckKernelRegisteredForNodes : M (option Status) :=
  g ← get;
  check_kernels (count_up (size_ (updated_nodes_ (mutation_ g))));;
  mret None.

Definition ValidateInternal : M (Status + partition) :=
  r ← GetNodeNamesAndPartitionUpdatedNodes;
  match r with
  | inl status => mret (inl status)
  | inr p =>
      r ← CheckNodeNamesAndFanins p;
      match r with
      | Some status => mret (inl status)
      | None =>
          r ← CheckKernelRegisteredForNodes;
          match r with Some status => mret (inl status) | None => mret (inr p) end
      end
  end.
End validate.
