(* ===== verification/GraphValidateProofs.v ===== *)
(** * GraphValidateProofs: what validation decides

    Validation leaves the graph and its view as they are; of the mutation it
    trims vectors and prepares attributes.  It succeeds exactly when the names of
    the mutation are distinct, nothing that stays depends on what goes, and the
    changed and new nodes are well formed. *)

From S2P Require Import Prelude Vec TensorName GraphView GraphInv GraphEditProofs HashOrder GraphDiff GraphContent GraphWellFormed GraphMutation GraphMutationProofs GraphValidate.
#[local] Open Scope string_scope.
#[local] Open Scope list_scope.
#[local] Open Scope Z_scope.

Section validate.
  Context {AttrValue : Type} {HO : HashOrder}.
  #[local] Notation G := (MutableGraphView AttrValue).
  #[local] Notation D := (NodeViewDiff AttrValue).
  #[local] Notation N := (NewNode AttrValue).
  Implicit Type g : G.

(** ** What validation may change *)

Definition is_empty (x : D) : bool := (Diff.IsEmpty x).1.
Definition trim_new (n : N) : N :=
  New.set_regular (ResizeByTrimmingEndForValue (new_regular_fanins n) EmptyTensorId) (num_regular_fanins n) n.

Definition revises (x x' : D) : Prop := exists p, x' = Diff.set_processed p x \/ x' = Diff.set_processed p (Diff.trim x).
Definition new_revises (n n' : N) : Prop := n' = n \/ n' = trim_new n.

Lemma IsEmpty_eq (x : D) : Diff.IsEmpty x = (is_empty x, Diff.trim x).
Proof. done. Qed.

Lemma trim_processed p (x : D) : Diff.trim (Diff.set_processed p x) = Diff.set_processed p (Diff.trim x).
Proof. done. Qed.

Lemma revises_refl x : revises x x.
Proof. exists (processed_attrs x). left. by destruct x. Qed.

Lemma revises_trim x x' : revises x x' -> revises x (Diff.trim x').
Proof.
  intros [p [->| ->]]; exists p; right; rewrite trim_processed; [done|]. by rewrite trim_idemp.
Qed.

Lemma revises_processed x x' p : revises x x' -> revises x (Diff.set_processed p x').
Proof. intros [q [->| ->]]; exists p; [by left|by right]. Qed.

Lemma revises_trans x y z : revises x y -> revises y z -> revises x z.
Proof.
  intros Hxy [p [->| ->]]; [by apply revises_processed|]. by apply revises_processed, revises_trim.
Qed.

Lemma revises_trimmed x x' : revises x x' -> exists p, Diff.trim x' = Diff.set_processed p (Diff.trim x).
Proof. intros [p [->| ->]]; exists p; rewrite trim_processed; [done|]. by rewrite trim_idemp. Qed.

Lemma revises_empty x x' : revises x x' -> is_empty x' = is_empty x.
Proof. intros Hr. destruct (revises_trimmed _ _ Hr) as [p Hp]. unfold is_empty, Diff.IsEmpty. cbv zeta. by rewrite Hp. Qed.

Lemma revises_fields x x' : revises x x' -> diff_node_index x' = diff_node_index x /\ update_name x' = update_name x /\
  diff_name x' = diff_name x.
Proof. by intros [p [->| ->]]. Qed.

Lemma revises_ok v x x' : revises x x' -> diff_ok v x -> diff_ok v x'.
Proof.
  intros [p [->| ->]] Hx; [by destruct Hx; split|]. apply diff_ok_trim in Hx. by destruct Hx; split.
Qed.

Lemma revises_target g d v x x' : revises x x' -> target g d v x' ≡ target g d v x.
Proof.
  intros [p [->| ->]]; [done|]. change (target g d v (Diff.set_processed p (Diff.trim x))) with (target g d v (Diff.trim x)).
  apply target_trim.
Qed.

Lemma new_revises_refl n : new_revises n n.
Proof. by left. Qed.

Lemma new_revises_trans n1 n2 n3 : new_revises n1 n2 -> new_revises n2 n3 -> new_revises n1 n3.
Proof.
  intros [->| ->] [->| ->]; try (by left); try (by right). right. unfold trim_new.
  cbn [new_regular_fanins num_regular_fanins New.set_regular]. rewrite trimmed_idemp. done.
Qed.

Lemma new_revises_ok n n' : new_revises n n' -> new_ok n -> new_ok n'.
Proof.
  intros [->| ->] Hn; [done|]. split; [| |apply Hn].
  - cbn [num_regular_fanins new_regular_fanins trim_new New.set_regular]. by rewrite count_trimmed, (no_num _ Hn).
  - intros t Ht. apply (no_ports _ Hn). cbn in Ht. unfold ResizeByTrimmingEndForValue in Ht.
    eapply elem_of_take in Ht as (c & Hc & _). by eapply list_elem_of_lookup_2.
Qed.

Lemma new_revises_target n n' : new_revises n n' -> new_target n' ≡ new_target n.
Proof.
  intros [->| ->]; [done|]. split_and!; try done. intros k. cbn. by rewrite padded_trimmed.
Qed.

Record revised g g' : Prop := {
  rv_graph : graph g' = graph g;
  rv_nodes : nodes_ g' = nodes_ g;
  rv_names : node_index_by_name_ g' = node_index_by_name_ g;
  rv_removed : removed_nodes_ (mutation_ g') = removed_nodes_ (mutation_ g);
  rv_counter : mutation_counter_ (mutation_ g') = mutation_counter_ (mutation_ g);
  rv_size : size_ (updated_nodes_ (mutation_ g')) = size_ (updated_nodes_ (mutation_ g));
  rv_updated : forall u x, vget (updated_nodes_ (mutation_ g)) u = Some x ->
    exists x', vget (updated_nodes_ (mutation_ g')) u = Some x' /\ revises x x';
  rv_new_size : size_ (new_nodes_ (mutation_ g')) = size_ (new_nodes_ (mutation_ g));
  rv_new : forall k n, vget (new_nodes_ (mutation_ g)) k = Some n ->
    exists n', vget (new_nodes_ (mutation_ g')) k = Some n' /\ new_revises n n'
}.

#[export] Instance revised_preorder : PreOrder revised.
Proof.
  split.
  - intros g. split; try done; eauto using revises_refl, new_revises_refl.
  - intros g1 g2 g3 H H'. destruct H, H'. split; try congruence.
    + intros u x Hx. destruct (rv_updated0 u x Hx) as (y & Hy & Hxy). destruct (rv_updated1 u y Hy) as (z & Hz & Hyz).
      exists z. split; [done|]. by eapply revises_trans.
    + intros u x Hx. destruct (rv_new0 u x Hx) as (y & Hy & Hxy). destruct (rv_new1 u y Hy) as (z & Hz & Hyz).
      exists z. split; [done|]. by eapply new_revises_trans.
Qed.

Lemma rv_updated_back g g' u x' : revised g g' -> vget (updated_nodes_ (mutation_ g')) u = Some x' ->
  exists x, vget (updated_nodes_ (mutation_ g)) u = Some x /\ revises x x'.
Proof.
  intros Hr Hx'. pose proof (vget_Some _ _ _ Hx') as Hu. rewrite (rv_size _ _ Hr) in Hu.
  destruct (vget_ex _ _ Hu) as [x Hx]. exists x. split; [done|]. destruct (rv_updated _ _ Hr _ _ Hx) as (y & Hy & Hxy). congruence.
Qed.

Lemma rv_new_back g g' k n' : revised g g' -> vget (new_nodes_ (mutation_ g')) k = Some n' ->
  exists n, vget (new_nodes_ (mutation_ g)) k = Some n /\ new_revises n n'.
Proof.
  intros Hr Hn'. pose proof (vget_Some _ _ _ Hn') as Hu. rewrite (rv_new_size _ _ Hr) in Hu.
  destruct (vget_ex _ _ Hu) as [x Hx]. exists x. split; [done|]. destruct (rv_new _ _ Hr _ _ Hx) as (y & Hy & Hxy). congruence.
Qed.

Lemma revised_same_view g g' : revised g g' -> same_view g g'.
Proof.
  intros Hr. split; try apply Hr; rewrite (rv_nodes _ _ Hr); [done|]. intros i v Hv. exists (update_index_ v).
  by rewrite set_update_index_id.
Qed.

Lemma mutation_ok_revised g g' : revised g g' -> mutation_ok g -> mutation_ok g'.
Proof.
  intros Hr Hm. split; rewrite ?(rv_nodes _ _ Hr), ?(rv_removed _ _ Hr); try apply Hm.
  - intros i v Hv Hne. destruct (mo_node _ Hm _ _ Hv Hne) as (x & Hx & Hxi). destruct (rv_updated _ _ Hr _ _ Hx) as (x' & Hx' & Hrev).
    exists x'. split; [done|]. by rewrite (proj1 (revises_fields _ _ Hrev)).
  - intros u x' Hx'. destruct (rv_updated_back _ _ _ _ Hr Hx') as (x & Hx & Hrev).
    destruct (mo_diff _ Hm _ _ Hx) as (v & Hv & Hu & Ho & Hn). rewrite (proj1 (revises_fields _ _ Hrev)). exists v.
    split_and!; try done. by eapply revises_ok.
  - intros n' [k Hk]%elem_of_vget. destruct (rv_new_back _ _ _ _ Hr Hk) as (n & Hn & Hrev). eapply new_revises_ok; [done|].
    apply (mo_new _ Hm), elem_of_vget. eauto.
Qed.

Lemma pending_revised g g' i : revised g g' -> pending g' i ≡ pending g i.
Proof.
  intros Hr. unfold pending, pending_diff. rewrite (rv_nodes _ _ Hr), (rv_graph _ _ Hr).
  destruct (vget (nodes_ g) i) as [v|]; [|done]. cbn [mbind option_bind]. destruct (vget (graph g) i) as [d|]; [|done].
  cbn [mbind option_bind]. constructor. assert (forall x, target g' d v x = target g d v x) as Ht.
  { intros x. rewrite <- (set_update_index_id v) at 1. rewrite (target_same_view g) by apply Hr. done. }
  assert (node_content g' d v = node_content g d v) as Hc.
  { rewrite <- (set_update_index_id v) at 1. rewrite (node_content_same_view g) by apply Hr. done. }
  destruct (vget (updated_nodes_ (mutation_ g)) (update_index_ v)) as [x|] eqn:E.
  - destruct (rv_updated _ _ Hr _ _ E) as (x' & -> & Hrev). rewrite Ht. by apply revises_target.
  - destruct (vget (updated_nodes_ (mutation_ g')) (update_index_ v)) as [x'|] eqn:E'; [|by rewrite Hc].
    destruct (rv_updated_back _ _ _ _ Hr E') as (x & Hx & _). congruence.
Qed.

(** ** Names *)

Lemma status_InvalidArgument msg : status_ok (InvalidArgument msg) = false.
Proof. done. Qed.

Lemma name_of_inj g i j : view_ok g -> 0 <= i < size_ (nodes_ g) -> 0 <= j < size_ (nodes_ g) -> name_of g i = name_of g j -> i = j.
Proof.
  intros Hg Hi Hj He. pose proof (ok_names_ok _ _ _ Hg) as Hn. rewrite (ok_length _ Hn) in Hi, Hj.
  destruct (vget_ex _ _ Hi) as [d Hd]. destruct (vget_ex _ _ Hj) as [e He']. unfold name_of in He. rewrite Hd, He' in He. cbn in He.
  assert (node_index_by_name_ g !! name d = Some i) as H1 by (apply (ok_names _ Hn); eauto).
  assert (node_index_by_name_ g !! name d = Some j) as H2 by (apply (ok_names _ Hn); eauto). congruence.
Qed.

Lemma runs_get_name g i Q : view_ok g -> 0 <= i < size_ (nodes_ g) -> Q (name_of g i) g -> runs (get_name i) g Q.
Proof.
  intros Hg Hi HQ. destruct (vget_ex _ _ Hi) as [v Hv]. destruct (view_ok_def _ _ _ _ _ Hg Hv) as [d Hd].
  unfold get_name. run_step. eapply runs_node_at; [done|]. rewrite (ok_index _ (ok_names_ok _ _ _ Hg) _ _ Hv).
  run_step. eapply runs_node_def_at; [done|]. run_step. unfold name_of in HQ. by rewrite Hd in HQ.
Qed.

Lemma runs_diff_at g u x Q : vget (updated_nodes_ (mutation_ g)) u = Some x -> Q x g -> runs (diff_at u) g Q.
Proof. intros Hx HQ. unfold diff_at. run_step. run_step. by eapply runs_at. Qed.

Definition with_diff g (u : Z) (x : D) : G := set_mutation (set_updated_nodes (vset (updated_nodes_ (mutation_ g)) u x) (mutation_ g)) g.

Lemma runs_set_diff g u x (Q : unit -> G -> Prop) : Q tt (with_diff g u x) -> runs (set_diff u x) g Q.
Proof. intros HQ. unfold set_diff, modify_mutation. run_step. exact HQ. Qed.

Lemma revised_set_diff g u x x' : vget (updated_nodes_ (mutation_ g)) u = Some x -> revises x x' -> revised g (with_diff g u x').
Proof.
  intros Hx Hr. pose proof (vget_Some _ _ _ Hx). split; try done; cbn [with_diff mutation_ set_mutation set_updated_nodes updated_nodes_ new_nodes_].
  - apply size_vset.
  - intros c y Hy. rewrite vget_vset by done. case_bool_decide; [subst; simplify_eq; eauto|eauto using revises_refl].
  - eauto using new_revises_refl.
Qed.

(** A map from the names of the nodes in [P] to their indices. *)
Definition names_of_set g (P : Z -> Prop) (M : gmap string Z) : Prop :=
  (forall s i, M !! s = Some i -> P i /\ name_of g i = s) /\ (forall i, P i -> M !! name_of g i = Some i).

Lemma names_of_set_emplace g P M i : view_ok g -> (forall j, P j -> 0 <= j < size_ (nodes_ g)) -> 0 <= i < size_ (nodes_ g) ->
  names_of_set g P M -> names_of_set g (fun j => P j \/ j = i) (emplace M (name_of g i) i).
Proof.
  intros Hg HP Hi [H1 H2]. unfold emplace. destruct (M !! name_of g i) as [j|] eqn:E.
  - assert (j = i) as ->. { destruct (H1 _ _ E) as [Hj He]. apply (name_of_inj g); auto. }
    split; [intros s k Hk; destruct (H1 s k Hk); auto|]. intros k [Hk| ->]; auto.
  - split.
    + intros s k. rewrite lookup_insert_Some. intros [[<- <-]|[_ Hk]]; [by auto|]. destruct (H1 _ _ Hk). auto.
    + intros k [Hk| ->]; [|apply lookup_insert_eq]. rewrite lookup_insert_ne; [auto|]. intros He.
      rewrite He in E. rewrite (H2 _ Hk) in E. done.
Qed.

Lemma names_of_set_ext g P P' M : (forall i, P i <-> P' i) -> names_of_set g P M -> names_of_set g P' M.
Proof. intros HP [H1 H2]. split; [intros s i Hi; rewrite <- HP; auto|]. intros i Hi%HP. auto. Qed.

Lemma renamed_names_spec g l : view_ok g -> (forall x, x ∈ l -> 0 <= diff_node_index x < size_ (nodes_ g)) ->
  forall P M, (forall j, P j -> 0 <= j < size_ (nodes_ g)) -> names_of_set g P M ->
  runs (renamed_names l M) g (fun M' g' => g' = g /\
    names_of_set g (fun i => P i \/ exists x, x ∈ l /\ update_name x = true /\ diff_node_index x = i) M').
Proof.
  intros Hg. induction l as [|x l IH]; intros Hl P M HP HM; cbn [renamed_names].
  - run_step. split; [done|]. eapply names_of_set_ext; [|exact HM]. intros i. split; [by left|]. intros [?|(x & Hx & _)]; [done|]. by apply elem_of_nil in Hx.
  - assert (forall y, y ∈ l -> 0 <= diff_node_index y < size_ (nodes_ g)) as Hl' by (intros; apply Hl; by right).
    assert (0 <= diff_node_index x < size_ (nodes_ g)) as Hx by (apply Hl; left). destruct (update_name x) eqn:E.
    + run_step. apply runs_get_name; [done..|]. eapply runs_mono; [apply (IH Hl' (fun j => P j \/ j = diff_node_index x))|].
      * intros j [?| ->]; auto.
      * by apply names_of_set_emplace.
      * intros M' g' [-> HM']. split; [done|]. eapply names_of_set_ext; [|exact HM']. intros i. setoid_rewrite elem_of_cons. naive_solver.
    + eapply runs_mono; [by apply (IH Hl' P)|]. intros M' g' [-> HM']. split; [done|]. eapply names_of_set_ext; [|exact HM'].
      intros i. setoid_rewrite elem_of_cons. naive_solver congruence.
Qed.

Lemma removed_names_spec g l : view_ok g -> (forall i, i ∈ l -> 0 <= i < size_ (nodes_ g)) ->
  forall P M, (forall j, P j -> 0 <= j < size_ (nodes_ g)) -> names_of_set g P M ->
  runs (removed_names l M) g (fun M' g' => g' = g /\ names_of_set g (fun i => P i \/ i ∈ l) M').
Proof.
  intros Hg. induction l as [|i l IH]; intros Hl P M HP HM; cbn [removed_names].
  - run_step. split; [done|]. eapply names_of_set_ext; [|exact HM]. set_solver.
  - run_step. apply runs_get_name; [done|apply Hl; left|]. eapply runs_mono; [apply (IH ltac:(intros; apply Hl; by right) (fun j => P j \/ j = i))|].
    + intros j [?| ->]; [auto|]. apply Hl. left.
    + apply names_of_set_emplace; [done|auto|apply Hl; left|done].
    + intros M' g' [-> HM']. split; [done|]. eapply names_of_set_ext; [|exact HM']. set_solver.
Qed.

(** Taking names one after the other. *)
Fixpoint take_names (M : gmap string Z) (l : list string) : option (gmap string Z) :=
  match l with [] => Some M | s :: l => M' ← take_name M s; take_names M' l end.

Lemma take_names_app M l1 l2 : take_names M (l1 ++ l2) = M' ← take_names M l1; take_names M' l2.
Proof.
  revert M. induction l1 as [|s l1 IH]; intros M; [done|]. cbn [app take_names]. destruct (take_name M s); [apply IH|done].
Qed.

Lemma take_name_spec M s : M !! s <> Some kNodeNamePresent ->
  take_name M s = Some (<[s := kNodeNamePresent]> M).
Proof. intros Hs. unfold take_name. destruct (M !! s) as [i|] eqn:E; [|done]. destruct (Z.eqb_spec i kNodeNamePresent); [congruence|done]. Qed.

Lemma take_name_None M s : M !! s = Some kNodeNamePresent -> take_name M s = None.
Proof. intros Hs. unfold take_name. by rewrite Hs. Qed.

Lemma take_names_spec l : forall M,
  match take_names M l with
  | Some M' => NoDup l /\ (forall s, s ∈ l -> M !! s <> Some kNodeNamePresent) /\
      (forall s, M' !! s = if bool_decide (s ∈ l) then Some kNodeNamePresent else M !! s)
  | None => ~ (NoDup l /\ forall s, s ∈ l -> M !! s <> Some kNodeNamePresent)
  end.
Proof.
  induction l as [|s l IH]; intros M; cbn [take_names].
  - split; [constructor|]. split; [set_solver|]. intros s. by rewrite bool_decide_false by set_solver.
  - destruct (decide (M !! s = Some kNodeNamePresent)) as [E|E].
    + rewrite take_name_None by done. cbn. intros [_ H]. apply (H s); [left|done].
    + rewrite take_name_spec by done. cbn [mbind option_bind]. specialize (IH (<[s:=kNodeNamePresent]> M)).
      destruct (take_names _ l) as [M'|].
      * destruct IH as (Hnd & Hne & Hl). split; [|split].
        -- apply NoDup_cons. split; [|done]. intros Hs. apply (Hne s Hs), lookup_insert_eq.
        -- intros t [->|Ht]%elem_of_cons; [done|]. intros Hm. apply (Hne t Ht).
           destruct (decide (s = t)) as [->|]; [apply lookup_insert_eq|by rewrite lookup_insert_ne].
        -- intros t. rewrite Hl. destruct (decide (t = s)) as [->|Hts].
           ++ rewrite (bool_decide_true (s ∈ s :: l)) by left. case_bool_decide; [done|apply lookup_insert_eq].
           ++ rewrite (bool_decide_ext (t ∈ s :: l) (t ∈ l)) by (rewrite elem_of_cons; naive_solver).
              case_bool_decide; [done|by apply lookup_insert_ne].
      * intros [[Hs Hnd]%NoDup_cons Hne]. apply IH. split; [done|]. intros t Ht.
        rewrite lookup_insert_ne by (intros ->; done). apply Hne. by right.
Qed.

(** ** The partition of the diffs *)

Definition diff_of g (u : Z) : D := default (Diff.make 0) (vget (updated_nodes_ (mutation_ g)) u).
Definition new_name_of g (u : Z) : string :=
  if update_name (diff_of g u) then diff_name (diff_of g u) else name_of g (diff_node_index (diff_of g u)).
Definition all_diffs g : list Z := count_up (size_ (updated_nodes_ (mutation_ g))).
Definition changed g (l : list Z) : list Z := List.filter (fun u => negb (is_empty (diff_of g u))) l.
Definition unchanged g (l : list Z) : list Z := List.filter (fun u => is_empty (diff_of g u)) l.
Definition in_place g (l : list Z) : list Z := List.filter (fun u => negb (update_name (diff_of g u))) (changed g l).
Definition renamed g (l : list Z) : list Z := List.filter (fun u => update_name (diff_of g u)) (changed g l).
Definition renamed_node g (u : Z) : RenamedOrOverwrittenNode :=
  mk_Renamed u (default kMissingIndex (node_index_by_name_ g !! diff_name (diff_of g u))).

Lemma diff_of_Some g u x : vget (updated_nodes_ (mutation_ g)) u = Some x -> diff_of g u = x.
Proof. intros Hx. unfold diff_of. by rewrite Hx. Qed.

Lemma diff_of_revised g g' u : revised g g' -> 0 <= u < size_ (updated_nodes_ (mutation_ g)) ->
  vget (updated_nodes_ (mutation_ g')) u = Some (diff_of g' u) /\ revises (diff_of g u) (diff_of g' u).
Proof.
  intros Hr [x Hx]%vget_ex. destruct (rv_updated _ _ Hr _ _ Hx) as (x' & Hx' & Hrev).
  rewrite (diff_of_Some _ _ _ Hx), (diff_of_Some _ _ _ Hx'). done.
Qed.

Lemma diff_node_range g u : mutation_ok g -> 0 <= u < size_ (updated_nodes_ (mutation_ g)) ->
  0 <= diff_node_index (diff_of g u) < size_ (nodes_ g).
Proof.
  intros Hm [x Hx]%vget_ex. rewrite (diff_of_Some _ _ _ Hx). destruct (mo_diff _ Hm _ _ Hx) as (v & Hv & _).
  by eapply vget_Some.
Qed.

Lemma name_of_revised g g' i : revised g g' -> name_of g' i = name_of g i.
Proof. intros Hr. unfold name_of. by rewrite (rv_graph _ _ Hr). Qed.

Lemma view_ok_revised g g' : revised g g' -> view_ok g -> view_ok g'.
Proof. intros Hr. by apply view_ok_same, revised_same_view. Qed.

Lemma partition_updated_spec g l : view_ok g -> mutation_ok g ->
  (forall u, u ∈ l -> 0 <= u < size_ (updated_nodes_ (mutation_ g))) -> forall g1 p, revised g g1 ->
  runs (partition_updated l p) g1 (fun r g2 => revised g g2 /\
    match r with
    | inl st => status_ok st = false /\ take_names (p_node_names p) (map (new_name_of g) (changed g l)) = None
    | inr p' => take_names (p_node_names p) (map (new_name_of g) (changed g l)) = Some (p_node_names p') /\
        p_renamed_nodes p' = p_renamed_nodes p ++ map (renamed_node g) (renamed g l) /\
        p_inplace_nodes p' = p_inplace_nodes p ++ in_place g l /\
        p_empty_diff_node_indices p' = p_empty_diff_node_indices p ++ map (fun u => diff_node_index (diff_of g u)) (unchanged g l)
    end).
Proof.
  intros Hg Hm. induction l as [|u l IH]; intros Hl g1 p Hr; cbn [partition_updated].
  { run_step. split; [done|]. cbn. by rewrite !app_nil_r. }
  assert (0 <= u < size_ (updated_nodes_ (mutation_ g))) as Hu by (apply Hl; left).
  specialize (IH ltac:(intros; apply Hl; by right)).
  destruct (diff_of_revised _ _ _ Hr Hu) as [Hx1 Hrev]. set (x1 := diff_of g1 u) in *.
  destruct (revises_fields _ _ Hrev) as (Hi & Hun & Hnm).
  run_step. eapply runs_diff_at; [exact Hx1|]. rewrite IsEmpty_eq, (revises_empty _ _ Hrev). cbv beta iota. run_step. apply runs_set_diff.
  assert (revised g (with_diff g1 u (Diff.trim x1))) as Hr2.
  { etrans; [exact Hr|]. eapply revised_set_diff; [exact Hx1|]. apply revises_trim, revises_refl. }
  set (g2 := with_diff g1 u (Diff.trim x1)) in *.
  change (update_name (Diff.trim x1)) with (update_name x1). change (diff_name (Diff.trim x1)) with (diff_name x1).
  change (diff_node_index (Diff.trim x1)) with (diff_node_index x1). rewrite Hi, Hun, Hnm.
  unfold changed, unchanged, renamed, in_place, changed. cbn [List.filter]. destruct (is_empty (diff_of g u)) eqn:Ee; cbn [negb].
  - eapply runs_mono; [by apply IH|]. intros [st|p'] g3 [Hr3 H]; split; try done. cbn [p_node_names p_renamed_nodes p_inplace_nodes p_empty_diff_node_indices] in H.
    destruct H as (H1 & H2 & H3 & H4). split_and!; try done. rewrite H4. cbn [map]. by rewrite <- app_assoc.
  - cbn [map List.filter take_names]. run_step.
    assert (forall Q, Q (new_name_of g u) g2 -> runs (if update_name (diff_of g u) then mret (diff_name (diff_of g u))
      else get_name (diff_node_index (diff_of g u))) g2 Q) as Hname.
    { intros Q HQ. unfold new_name_of in HQ. destruct (update_name (diff_of g u)); [by run_step|].
      apply runs_get_name; [by eapply view_ok_revised| |by rewrite (name_of_revised _ _ _ Hr2)].
      rewrite (rv_nodes _ _ Hr2). by apply diff_node_range. }
    apply Hname. destruct (take_name (p_node_names p) (new_name_of g u)) as [M|] eqn:Et; [|by run_step].
    cbn [mbind option_bind]. run_step. run_step.
    destruct (update_name (diff_of g u)) eqn:Eu; cbn [negb map]; (eapply runs_mono; [by apply IH|]);
      intros [st|p'] g3 [Hr3 H]; split; try done;
      cbn [p_node_names p_renamed_nodes p_inplace_nodes p_empty_diff_node_indices] in H; destruct H as (H1 & H2 & H3 & H4); split_and!; try done.
    + rewrite H2, (rv_names _ _ Hr2), <- app_assoc. unfold renamed_node at 2, new_name_of. by rewrite Eu.
    + rewrite H3. by rewrite <- app_assoc.
Qed.

Lemma new_names_spec (l : list N) : forall M,
  match new_names l M with
  | inl st => status_ok st = false /\ take_names M (map (fun n => name (new_node n)) l) = None
  | inr M' => take_names M (map (fun n => name (new_node n)) l) = Some M'
  end.
Proof.
  induction l as [|n l IH]; intros M; cbn [new_names map take_names]; [done|].
  destruct (take_name M (name (new_node n))) as [M'|]; [apply IH|done].
Qed.

(** The nodes that lose their names, and the names that the mutation gives. *)
Definition leaving g (i : Z) : Prop :=
  i ∈ removed_nodes_ (mutation_ g) \/
  exists x, x ∈ updated_nodes_ (mutation_ g) /\ update_name x = true /\ diff_node_index x = i.
Definition claimed g : list string :=
  map (new_name_of g) (changed g (all_diffs g)) ++ map (fun n => name (new_node n)) (new_nodes_ (mutation_ g)).

(** The names of the graph after the mutation, as far as it changes them. *)
Record final_names g (M : gmap string Z) : Prop := {
  fn_present : forall s, s ∈ claimed g -> M !! s = Some kNodeNamePresent;
  fn_missing : forall s i, s ∉ claimed g -> M !! s = Some i <-> leaving g i /\ name_of g i = s
}.

Definition partitioned g (p : partition) : Prop :=
  NoDup (claimed g) /\ final_names g (p_node_names p) /\
  p_renamed_nodes p = map (renamed_node g) (renamed g (all_diffs g)) /\
  p_inplace_nodes p = in_place g (all_diffs g) /\
  p_empty_diff_node_indices p = map (fun u => diff_node_index (diff_of g u)) (unchanged g (all_diffs g)).

Lemma leaving_range g i : mutation_ok g -> leaving g i -> 0 <= i < size_ (nodes_ g).
Proof.
  intros Hm [Hi|(x & [u Hx]%elem_of_vget & _ & <-)]; [by apply (mo_removed _ Hm)|].
  destruct (mo_diff _ Hm _ _ Hx) as (v & Hv & _). by eapply vget_Some.
Qed.

Lemma initial_names_spec g : view_ok g -> mutation_ok g ->
  runs (M ← renamed_names (updated_nodes_ (mutation_ g)) ∅;
        removed_names (indices_in_order (removed_nodes_ (mutation_ g))) M) g
    (fun M g' => g' = g /\ names_of_set g (leaving g) M).
Proof.
  intros Hg Hm. run_step. eapply runs_mono; [apply (renamed_names_spec g _ Hg) with (P := fun _ => False)|].
  { intros x Hx%elem_of_vget. destruct Hx as [u Hx]. destruct (mo_diff _ Hm _ _ Hx) as (v & Hv & _). by eapply vget_Some. }
  { done. }
  { split; [intros s i Hs; by rewrite lookup_empty in Hs|done]. }
  intros M g' [-> HM]. eapply runs_mono; [eapply (removed_names_spec g _ Hg); [| |exact HM]|].
  - intros i Hi%elem_of_indices_in_order. by apply (mo_removed _ Hm).
  - intros j [[]|Hj]. apply (leaving_range _ _ Hm). by right.
  - intros M1 g' [-> HM1]. split; [done|]. eapply names_of_set_ext; [|exact HM1]. intros i. unfold leaving.
    rewrite elem_of_indices_in_order. tauto.
Qed.

Lemma GetNodeNames_spec g : view_ok g -> mutation_ok g ->
  runs GetNodeNamesAndPartitionUpdatedNodes g (fun r g' => revised g g' /\
    match r with inl st => status_ok st = false /\ ~ NoDup (claimed g) | inr p => partitioned g p end).
Proof.
  intros Hg Hm. unfold GetNodeNamesAndPartitionUpdatedNodes. run_step. run_step. apply runs_assoc. run_step.
  eapply runs_mono; [by apply initial_names_spec|]. intros M g' [-> HM]. run_step.
  eapply runs_mono; [apply (partition_updated_spec g _ Hg Hm); [|done]|].
  { intros u Hu%elem_of_count_up. done. }
  intros r g1 [Hr Hp]. cbn [p_node_names p_renamed_nodes p_inplace_nodes p_empty_diff_node_indices app] in Hp.
  assert (forall s, s ∈ claimed g -> M !! s <> Some kNodeNamePresent) as Hfree.
  { intros s _ Hs. apply (proj1 HM) in Hs as [Hl _]. apply (leaving_range _ _ Hm) in Hl. unfold kNodeNamePresent in Hl. lia. }
  destruct r as [st|p].
  - run_step. split; [done|]. destruct Hp as [Hst Ht]. split; [done|]. pose proof (take_names_spec (claimed g) M) as Hs.
    unfold claimed in Hs at 1. rewrite take_names_app in Hs. unfold all_diffs in *. rewrite Ht in Hs. cbn in Hs. tauto.
  - destruct Hp as (Ht & Hre & Hin & Hem). pose proof (take_names_spec (claimed g) M) as Hs.
    unfold claimed in Hs at 1. rewrite take_names_app in Hs. unfold all_diffs in Hs at 1. rewrite Ht in Hs. cbn [mbind option_bind] in Hs.
    pose proof (new_names_spec (new_nodes_ (mutation_ g)) (p_node_names p)) as Hn.
    destruct (new_names _ _) as [st|M'].
    + run_step. split; [done|]. destruct Hn as [Hst Hn]. split; [done|]. rewrite Hn in Hs. tauto.
    + run_step. split; [done|]. rewrite Hn in Hs. destruct Hs as (Hnd & _ & Hl). unfold partitioned.
      cbn [p_node_names p_renamed_nodes p_inplace_nodes p_empty_diff_node_indices]. split; [done|]. split; [|done]. split.
      * intros s Hs. rewrite Hl. by rewrite bool_decide_true.
      * intros s i Hs. rewrite Hl, bool_decide_false by done. split; [apply (proj1 HM)|]. intros [H1 <-]. by apply (proj2 HM).
Qed.

(** ** Fanouts of nodes that leave *)

(** The fanin of a fanout goes along with the node, or is replaced. *)
Definition regular_stays g (overwritten : Z -> Prop) (fo : MutableFaninView) : Prop :=
  exists v, vget (nodes_ g) (fanin_node_index fo) = Some v /\
    if bool_decide (update_index_ v = kMissingIndex)
    then fanin_node_index fo ∈ removed_nodes_ (mutation_ g) \/ overwritten (fanin_node_index fo)
    else let x := diff_of g (update_index_ v) in
         NumRegularFanins v - num_regular_inputs_to_remove x <= fanin_port_index fo \/
         is_Some (regular_inputs_to_update x !! fanin_port_index fo).
Definition controlled_stays g (overwritten : Z -> Prop) (fo : MutableFaninView) : Prop :=
  exists v, vget (nodes_ g) (fanin_node_index fo) = Some v /\
    if bool_decide (update_index_ v = kMissingIndex)
    then fanin_node_index fo ∈ removed_nodes_ (mutation_ g) \/ overwritten (fanin_node_index fo)
    else fanin_index_ fo ∈ controlling_inputs_to_remove (diff_of g (update_index_ v)).

Definition fanouts_stay g (overwritten : Z -> Prop) (i : Z) : Prop :=
  forall v, vget (nodes_ g) i = Some v ->
    (forall fo, fo ∈ concat (regular_fanouts_by_port_ v) -> regular_stays g overwritten fo) /\
    (forall fo, fo ∈ controlled_fanouts_ v -> controlled_stays g overwritten fo).

(** The vector of the overwritten nodes. *)
Definition marks (ow : list bool) (overwritten : Z -> Prop) : Prop :=
  forall i b, vget ow i = Some b -> (b = true <-> overwritten i).

Section stays.
Context (g : G) (ow : list bool) (overwritten : Z -> Prop) (Hg : view_ok g) (Hm : mutation_ok g)
  (How : marks ow overwritten) (Hsize : size_ ow = size_ (nodes_ g)).

Lemma stays_spec ok (stays : MutableFaninView -> Prop) nm l :
  (forall fo, fo ∈ l -> 0 <= fanin_node_index fo < size_ (nodes_ g) /\
     runs (ok fo) g (fun b g' => g' = g /\ (b = true <-> stays fo))) ->
  runs (fanouts_ok ok nm l) g (fun r g' => g' = g /\
    match r with None => forall fo, fo ∈ l -> stays fo | Some st => status_ok st = false /\ ~ (forall fo, fo ∈ l -> stays fo) end).
Proof.
  induction l as [|fo l IH]; intros Hl; cbn [fanouts_ok].
  - run_step. split; [done|]. intros fo Hfo. by apply elem_of_nil in Hfo.
  - destruct (Hl fo ltac:(left)) as [Hr Hok]. run_step. eapply runs_mono; [exact Hok|]. intros b g' [-> Hb]. destruct b.
    + eapply runs_mono; [apply IH; intros; apply Hl; by right|]. intros r g' [-> H]. split; [done|]. destruct r as [st|].
      * destruct H as [Hst H]. split; [done|]. intros Hall. apply H. intros fo' Hfo'. apply Hall. by right.
      * intros fo' [->|Hfo']%elem_of_cons; [by apply Hb|by apply H].
    + run_step. apply runs_get_name; [done..|]. run_step. split; [done|]. split; [done|]. intros Hall.
      by pose proof (proj2 Hb (Hall fo ltac:(left))).
Qed.

Lemma overwritten_spec i Q : 0 <= i < size_ (nodes_ g) ->
  (forall b, (b = true <-> overwritten i) -> Q b g) -> runs (lift (at_ ow i)) g Q.
Proof. intros Hi HQ. rewrite <- Hsize in Hi. destruct (vget_ex _ _ Hi) as [b Hb]. eapply runs_at; [exact Hb|]. apply HQ. by apply How. Qed.

Lemma regular_fanout_ok_spec fo v : vget (nodes_ g) (fanin_node_index fo) = Some v ->
  runs (regular_fanout_ok ow fo) g (fun b g' => g' = g /\ (b = true <-> regular_stays g overwritten fo)).
Proof.
  intros Hv. unfold regular_fanout_ok. run_step. eapply runs_node_at; [exact Hv|]. run_step. run_step.
  rewrite (ok_index _ (ok_names_ok _ _ _ Hg) _ _ Hv).
  assert (forall P, (if bool_decide (update_index_ v = kMissingIndex)
    then fanin_node_index fo ∈ removed_nodes_ (mutation_ g) \/ overwritten (fanin_node_index fo)
    else let x := diff_of g (update_index_ v) in
         NumRegularFanins v - num_regular_inputs_to_remove x <= fanin_port_index fo \/
         is_Some (regular_inputs_to_update x !! fanin_port_index fo)) <-> P -> regular_stays g overwritten fo <-> P) as Heq.
  { intros P <-. unfold regular_stays. rewrite Hv. split; [intros (v' & E & H); by simplify_eq|eauto]. }
  destruct (Z.eqb_spec (update_index_ v) kMissingIndex) as [E|E]; [rewrite bool_decide_true in Heq by done|rewrite bool_decide_false in Heq by done].
  - case_bool_decide as Er.
    + run_step. split; [done|]. symmetry. apply Heq. tauto.
    + apply overwritten_spec; [by eapply vget_Some|]. intros b Hb. split; [done|]. symmetry. apply Heq. tauto.
  - destruct (mo_node _ Hm _ _ Hv E) as (x & Hx & _). rewrite (diff_of_Some _ _ _ Hx) in Heq.
    run_step. eapply runs_diff_at; [exact Hx|].
    destruct (Z.ltb_spec (NumRegularFanins v - num_regular_inputs_to_remove x - 1) (fanin_port_index fo)).
    + run_step. split; [done|]. symmetry. apply Heq. cbv zeta. split; [done|]. left. lia.
    + run_step. split; [done|]. symmetry. apply Heq. cbv zeta. rewrite bool_decide_eq_true. split; [|by right]. intros [?|?]; [lia|done].
Qed.

Lemma controlled_fanout_ok_spec fo v : vget (nodes_ g) (fanin_node_index fo) = Some v ->
  runs (controlled_fanout_ok ow fo) g (fun b g' => g' = g /\ (b = true <-> controlled_stays g overwritten fo)).
Proof.
  intros Hv. unfold controlled_fanout_ok. run_step. eapply runs_node_at; [exact Hv|]. run_step. run_step.
  rewrite (ok_index _ (ok_names_ok _ _ _ Hg) _ _ Hv).
  assert (forall P, (if bool_decide (update_index_ v = kMissingIndex)
    then fanin_node_index fo ∈ removed_nodes_ (mutation_ g) \/ overwritten (fanin_node_index fo)
    else fanin_index_ fo ∈ controlling_inputs_to_remove (diff_of g (update_index_ v))) <-> P -> controlled_stays g overwritten fo <-> P) as Heq.
  { intros P <-. unfold controlled_stays. rewrite Hv. split; [intros (v' & E & H); by simplify_eq|eauto]. }
  destruct (Z.eqb_spec (update_index_ v) kMissingIndex) as [E|E]; [rewrite bool_decide_true in Heq by done|rewrite bool_decide_false in Heq by done].
  - case_bool_decide as Er.
    + run_step. split; [done|]. symmetry. apply Heq. tauto.
    + apply overwritten_spec; [by eapply vget_Some|]. intros b Hb. split; [done|]. symmetry. apply Heq. tauto.
  - destruct (mo_node _ Hm _ _ Hv E) as (x & Hx & _). rewrite (diff_of_Some _ _ _ Hx) in Heq.
    run_step. eapply runs_diff_at; [exact Hx|]. run_step. split; [done|]. symmetry. apply Heq. by rewrite bool_decide_eq_true.
Qed.

Lemma elem_of_ports (v : MutableNodeView) fo : fo ∈ concat (regular_fanouts_by_port_ v) ->
  exists p l f, vget (regular_fanouts_by_port_ v) p = Some l /\ vget l f = Some fo.
Proof.
  intros Hfo. apply list_elem_of_In, in_concat in Hfo as (l & Hl & Hfo). apply list_elem_of_In, elem_of_vget in Hl as [p Hp].
  apply list_elem_of_In, elem_of_vget in Hfo as [f Hf]. eauto 10.
Qed.

Lemma missing_fanouts_ok_spec l : (forall s i, (s, i) ∈ l -> i = kNodeNamePresent \/ 0 <= i < size_ (nodes_ g)) ->
  runs (missing_fanouts_ok ow l) g (fun r g' => g' = g /\
    let good := forall s i, (s, i) ∈ l -> i <> kNodeNamePresent -> fanouts_stay g overwritten i in
    match r with None => good | Some st => status_ok st = false /\ ~ good end).
Proof.
  induction l as [|[s i] l IH]; intros Hl; cbn [missing_fanouts_ok].
  { run_step. split; [done|]. intros s i Hi. by apply elem_of_nil in Hi. }
  specialize (IH ltac:(intros; eapply Hl; by right)).
  destruct (Z.eqb_spec i kNodeNamePresent) as [E|E].
  { eapply runs_mono; [exact IH|]. intros r g' [-> H]. split; [done|]. cbv zeta in *. destruct r as [st|].
    - destruct H as [Hst H]. split; [done|]. intros Hall. apply H. intros t j Hj. apply (Hall t j). by right.
    - intros t j [[= -> ->]|Hj]%elem_of_cons Hne; [done|by apply (H t j)]. }
  destruct (Hl s i ltac:(left)) as [|Hi]; [done|]. destruct (vget_ex _ _ Hi) as [v Hv].
  assert (forall fo, fo ∈ concat (regular_fanouts_by_port_ v) -> exists u, vget (nodes_ g) (fanin_node_index fo) = Some u) as Hreg.
  { intros fo (p & fos & f & Hp & Hf)%elem_of_ports.
    destruct (ok_fanout _ _ (ok_edges _ _ _ Hg) i p f fo) as [_ (u & Hu & _)%fanin_at_Some]; [|eauto].
    apply fanout_at_Some. eauto 10. }
  assert (forall fo, fo ∈ controlled_fanouts_ v -> exists u, vget (nodes_ g) (fanin_node_index fo) = Some u) as Hctl.
  { intros fo [f Hf]%elem_of_vget.
    destruct (ok_control_fanout _ _ (ok_controls _ _ _ Hg) i f fo) as [_ (u & Hu & _)%control_fanin_at_Some]; [|eauto].
    apply control_fanout_at_Some. eauto 10. }
  run_step. eapply runs_node_at; [exact Hv|]. run_step.
  eapply runs_mono; [apply (stays_spec _ (regular_stays g overwritten))|].
  { intros fo [u Hu]%Hreg. split; [by eapply vget_Some|by eapply regular_fanout_ok_spec]. }
  intros [st|] g' [-> H1].
  { run_step. split; [done|]. cbv zeta. destruct H1 as [Hst H1]. split; [done|]. intros Hall. apply H1.
    by apply (Hall s i ltac:(left) E). }
  run_step. eapply runs_mono; [apply (stays_spec _ (controlled_stays g overwritten))|].
  { intros fo [u Hu]%Hctl. split; [by eapply vget_Some|by eapply controlled_fanout_ok_spec]. }
  intros [st|] g' [-> H2].
  { run_step. split; [done|]. cbv zeta. destruct H2 as [Hst H2]. split; [done|]. intros Hall. apply H2.
    by apply (Hall s i ltac:(left) E). }
  eapply runs_mono; [exact IH|]. intros r g' [-> H]. split; [done|]. cbv zeta in *. destruct r as [st|].
  - destruct H as [Hst H]. split; [done|]. intros Hall. apply H. intros t j Hj. apply (Hall t j). by right.
  - intros t j [[= -> ->]|Hj]%elem_of_cons Hne; [|by apply (H t j)]. intros v' Hv'. by simplify_eq.
Qed.
End stays.

Lemma mark_overwritten_spec l : forall ow overwritten, marks ow overwritten ->
  (forall r, r ∈ l -> overwritten_node_index_ r = kMissingIndex \/ 0 <= overwritten_node_index_ r < size_ ow) ->
  exists ow', mark_overwritten l ow = Ok ow' /\ size_ ow' = size_ ow /\
    marks ow' (fun i => overwritten i \/ exists r, r ∈ l /\ overwritten_node_index_ r = i /\ i <> kMissingIndex).
Proof.
  induction l as [|r l IH]; intros ow P Hm Hl; cbn [mark_overwritten].
  - exists ow. split; [done|]. split; [done|]. intros i b Hb. rewrite (Hm i b Hb). split; [by left|]. intros [?|(r & Hr & _)]; [done|]. by apply elem_of_nil in Hr.
  - destruct (Z.eqb_spec (overwritten_node_index_ r) kMissingIndex) as [E|E].
    + destruct (IH ow P Hm) as (ow' & Ho & Hs & Hm'); [intros; apply Hl; by right|]. exists ow'. split; [done|]. split; [done|].
      intros i b Hb. rewrite (Hm' i b Hb). setoid_rewrite elem_of_cons. naive_solver.
    + destruct (Hl r ltac:(left)) as [|Hr]; [done|]. destruct (vget_ex _ _ Hr) as [b0 Hb0]. rewrite (at_Some _ _ _ Hb0). cbn [mbind result_bind].
      destruct (IH (vset ow (overwritten_node_index_ r) true) (fun i => P i \/ i = overwritten_node_index_ r)) as (ow' & Ho & Hs & Hm').
      * intros i b. rewrite vget_vset by done. case_bool_decide as Ei; [intros [= <-]; naive_solver|]. intros Hb. rewrite (Hm i b Hb). naive_solver.
      * intros r' Hr'. rewrite size_vset. apply Hl. by right.
      * rewrite size_vset in Hs. exists ow'. split; [done|]. split; [done|]. intros i b Hb. rewrite (Hm' i b Hb).
        setoid_rewrite elem_of_cons. split; [|naive_solver]. intros [[?| ->]|?]; [by left|right; eauto|naive_solver].
Qed.

(** The nodes whose names are taken over by renamed nodes. *)
Definition overwritten_by (l : list RenamedOrOverwrittenNode) (i : Z) : Prop :=
  exists r, r ∈ l /\ overwritten_node_index_ r = i /\ i <> kMissingIndex.

Lemma RemovedOrMissing_spec g M l : view_ok g -> mutation_ok g ->
  (forall s i, M !! s = Some i -> i = kNodeNamePresent \/ 0 <= i < size_ (nodes_ g)) ->
  (forall r, r ∈ l -> overwritten_node_index_ r = kMissingIndex \/ 0 <= overwritten_node_index_ r < size_ (nodes_ g)) ->
  runs (RemovedOrMissingNodeFanoutsWellFormed M l) g (fun r g' => g' = g /\
    let good := forall s i, M !! s = Some i -> i <> kNodeNamePresent -> fanouts_stay g (overwritten_by l) i in
    match r with None => good | Some st => status_ok st = false /\ ~ good end).
Proof.
  intros Hg Hm HM Hl. unfold RemovedOrMissingNodeFanoutsWellFormed. run_step. run_step.
  destruct (mark_overwritten_spec l (replicate (length (nodes_ g)) false) (fun _ => False)) as (ow & How & Hs & Hmk).
  { intros i b Hb. split; [|done]. intros ->. assert (true ∈ replicate (length (nodes_ g)) false) as H by (apply elem_of_vget; eauto).
    by apply elem_of_replicate in H as [? _]. }
  { intros r Hr. rewrite size_replicate. by apply Hl. }
  run_step. eapply runs_lift; [exact How|]. eapply runs_mono; [apply (missing_fanouts_ok_spec g ow (overwritten_by l)); try done|].
  - intros i b Hb. rewrite (Hmk i b Hb). unfold overwritten_by. tauto.
  - by rewrite Hs, size_replicate.
  - intros s i Hsi%elem_of_entries_in_order. by apply (HM s).
  - intros r g' [-> H]. split; [done|]. cbv zeta in *.
    destruct r as [st|]; setoid_rewrite elem_of_entries_in_order in H; exact H.
Qed.

(** ** Well-formedness of the nodes of the mutation *)

(** The changed node of diff [u] is valid. *)
Definition diff_valid g (M : gmap string Z) (u : Z) : Prop :=
  exists v d, vget (nodes_ g) (diff_node_index (diff_of g u)) = Some v /\
    vget (graph g) (diff_node_index (diff_of g u)) = Some d /\
    (exists l, forall k, slots g v (diff_of g u) k = vget l k) /\ fanins_valid g M d v (diff_of g u).

Lemma fanins_valid_revised g g' M d v x p : graph g' = graph g -> node_index_by_name_ g' = node_index_by_name_ g ->
  fanins_valid g' M d v (Diff.set_processed p x) <-> fanins_valid g M d v x.
Proof.
  destruct g, g'. cbn. intros -> ->. split; intros [H1 H2 H3]; split; [exact H1|exact H2|exact H3|exact H1|exact H2|exact H3].
Qed.

Lemma diff_valid_revised g g' M u v d : revised g g' -> 0 <= u < size_ (updated_nodes_ (mutation_ g)) ->
  vget (nodes_ g) (diff_node_index (diff_of g u)) = Some v -> vget (graph g) (diff_node_index (diff_of g u)) = Some d ->
  diff_ok v (diff_of g u) ->
  diff_valid g M u <-> gapless (Diff.trim (diff_of g' u)) /\ fanins_valid g' M d v (diff_of g' u).
Proof.
  intros Hr Hu Hv Hd Hx. destruct (diff_of_revised _ _ _ Hr Hu) as [_ Hrev].
  destruct (revises_trimmed _ _ Hrev) as [p Hp]. rewrite <- fanins_valid_trim, Hp, fanins_valid_revised by apply Hr.
  rewrite fanins_valid_trim. change (gapless (Diff.set_processed p (Diff.trim (diff_of g u)))) with (gapless (Diff.trim (diff_of g u))).
  rewrite (gapless_iff g v) by (first [by apply diff_ok_trim|apply trim_idemp]). setoid_rewrite slots_trim. split.
  - intros (v' & d' & Hv' & Hd' & Hl & Hf). by simplify_eq.
  - intros [Hl Hf]. exists v, d. done.
Qed.

Lemma check_diffs_spec g M describe l : view_ok g -> mutation_ok g ->
  (forall u, u ∈ l -> 0 <= u < size_ (updated_nodes_ (mutation_ g))) ->
  (forall g' x, view_ok g' -> 0 <= diff_node_index x < size_ (nodes_ g') -> runs (describe x) g' (fun _ g2 => g2 = g')) ->
  forall g1, revised g g1 ->
  runs (check_diffs M describe l) g1 (fun r g2 => revised g g2 /\
    match r with
    | None => forall u, u ∈ l -> diff_valid g M u
    | Some st => status_ok st = false /\ ~ (forall u, u ∈ l -> diff_valid g M u)
    end).
Proof.
  intros Hg Hm Hl Hdesc. induction l as [|u l IH]; intros g1 Hr; cbn [check_diffs].
  { run_step. split; [done|]. intros u Hu. by apply elem_of_nil in Hu. }
  specialize (IH ltac:(intros; apply Hl; by right)). assert (0 <= u < size_ (updated_nodes_ (mutation_ g))) as Hu by (apply Hl; left).
  destruct (diff_of_revised _ _ _ Hr Hu) as [Hx1 Hrev]. destruct (vget_ex _ _ Hu) as [x Hx].
  destruct (mo_diff _ Hm _ _ Hx) as (v & Hv & _ & Ho & _). destruct (view_ok_def _ _ _ _ _ Hg Hv) as [d Hd].
  rewrite <- (diff_of_Some _ _ _ Hx) in Hv, Hd, Ho. destruct (revises_fields _ _ Hrev) as (Hi & _ & _).
  pose proof (view_ok_revised _ _ Hr Hg) as Hg1.
  run_step. eapply runs_diff_at; [exact Hx1|]. run_step. run_step.
  destruct (IsWellFormed_ok g1 M d v (diff_of g1 u) Hg1) as (b & Hb & Hbi).
  { by rewrite Hi, (rv_nodes _ _ Hr). }
  { by rewrite Hi, (rv_graph _ _ Hr). }
  { by eapply revises_ok. }
  rewrite <- (diff_valid_revised _ _ _ _ _ _ Hr Hu Hv Hd Ho) in Hbi.
  run_step. eapply runs_lift; [exact Hb|]. cbv beta iota. run_step. apply runs_set_diff.
  assert (revised g (with_diff g1 u (Diff.trim (diff_of g1 u)))) as Hr2.
  { etrans; [exact Hr|]. eapply revised_set_diff; [exact Hx1|]. apply revises_trim, revises_refl. }
  destruct b.
  - eapply runs_mono; [by apply IH|]. intros [st|] g2 [Hr3 H]; (split; [done|]).
    + destruct H as [Hst H]. split; [done|]. intros Hall. apply H. intros u' Hu'. apply Hall. by right.
    + intros u' [->|Hu']%elem_of_cons; [by apply Hbi|by apply H].
  - run_step. eapply runs_mono; [apply Hdesc; [by eapply view_ok_revised|]|].
    { change (diff_node_index (Diff.trim (diff_of g1 u))) with (diff_node_index (diff_of g1 u)). rewrite Hi, (rv_nodes _ _ Hr2). by eapply vget_Some. }
    intros text g2 ->. run_step. split; [done|]. split; [done|]. intros Hall.
    by pose proof (proj2 Hbi (Hall u ltac:(left))).
Qed.

(** A new node is valid. *)
Record new_valid g (M : gmap string Z) (n : N) : Prop := {
  nv_regular : exists l, forall k, c_regular (new_target n) k = vget l k;
  nv_names : forall k t, c_regular (new_target n) k = Some t -> fanin_name_ok g M (name (new_node n)) (TensorName.node t);
  nv_controls : forall s, s ∈ new_controlling_fanins n -> fanin_name_ok g M (name (new_node n)) s
}.

Lemma new_gapless n : new_ok n ->
  size_ (new_regular_fanins (trim_new n)) = num_regular_fanins n <-> exists l, forall k, c_regular (new_target n) k = vget l k.
Proof.
  intros Hn. set (l' := new_regular_fanins (trim_new n)).
  assert (forall k, c_regular (new_target n) k = let t := padded EmptyTensorId l' k in if bool_decide (t = EmptyTensorId) then None else Some t) as Hs.
  { intros k. cbn. unfold l'. cbn. by rewrite padded_trimmed. }
  rewrite (no_num _ Hn), <- count_trimmed. fold l'. split.
  - intros Hsz. pose proof (proj1 (count_full EmptyTensorId l') (eq_sym Hsz)) as Hne. exists l'. intros k. rewrite Hs. cbv zeta.
    unfold padded. destruct (vget l' k) as [t|] eqn:E; cbn; [|done]. rewrite bool_decide_false; [done|].
    specialize (Hne k (vget_Some _ _ _ E)). unfold padded in Hne. by rewrite E in Hne.
  - intros [l Hl]. symmetry. apply count_full. intros c Hc E.
    assert (l' <> []) as Hne by (intros E'; rewrite E' in Hc; unfold size_ in Hc; simpl in Hc; lia).
    pose proof (trimmed_last EmptyTensorId (new_regular_fanins n) Hne) as Hlast. fold l' in Hlast.
    assert (size_ l' - 1 < size_ l) as Hsz.
    { assert (c_regular (new_target n) (size_ l' - 1) <> None) as Hn'; [rewrite Hs; cbv zeta; by rewrite bool_decide_false|].
      rewrite Hl in Hn'. destruct (vget l (size_ l' - 1)) eqn:E'; [apply vget_Some in E'; lia|done]. }
    destruct (vget_ex l c) as [t Ht]; [lia|]. rewrite <- Hl, Hs in Ht. cbv zeta in Ht. by rewrite bool_decide_true in Ht.
Qed.

Lemma new_IsWellFormed_ok g M n : new_ok n ->
  exists b, New.IsWellFormed g M n = (b, trim_new n) /\ (b = true <-> new_valid g M n).
Proof.
  intros Hn. unfold New.IsWellFormed. fold (trim_new n). change (num_regular_fanins (trim_new n)) with (num_regular_fanins n).
  destruct (Z.eqb_spec (size_ (new_regular_fanins (trim_new n))) (num_regular_fanins n)) as [E|E]; cbn [negb].
  2:{ exists false. split; [done|]. split; [done|]. intros [H _ _]. by apply new_gapless in H. }
  eexists. split; [reflexivity|]. change (new_node (trim_new n)) with (new_node n).
  change (new_controlling_fanins (trim_new n)) with (new_controlling_fanins n).
  rewrite andb_true_iff, !forallb_forall. setoid_rewrite negb_true_iff. setoid_rewrite invalid_node_name_spec.
  setoid_rewrite <- list_elem_of_In. setoid_rewrite elem_of_names_in_order.
  set (l' := new_regular_fanins (trim_new n)) in *.
  assert (forall k, c_regular (new_target n) k = vget l' k) as Hs.
  { pose proof E as E'. rewrite (no_num _ Hn), <- count_trimmed in E'. fold l' in E'. intros k. cbn.
    rewrite <- padded_trimmed. change (ResizeByTrimmingEndForValue (new_regular_fanins n) EmptyTensorId) with l'.
    pose proof (proj1 (count_full EmptyTensorId l') (eq_sym E')) as Hne. unfold padded in *.
    destruct (vget l' k) as [t|] eqn:Ek; cbn; [|done]. specialize (Hne k (vget_Some _ _ _ Ek)). rewrite Ek in Hne. by rewrite bool_decide_false. }
  split.
  - intros [H1 H2]. split; [by exists l'| |exact H2]. intros k t Hk. apply H1. rewrite Hs in Hk. apply elem_of_vget. eauto.
  - intros [_ H1 H2]. split; [|exact H2]. intros t [k Hk]%elem_of_vget. apply (H1 k). by rewrite Hs.
Qed.

Lemma new_valid_revised g g' M n n' : revised g g' -> new_revises n n' -> new_valid g' M n' <-> new_valid g M n.
Proof.
  intros Hr Hn. assert (forall k, c_regular (new_target n') k = c_regular (new_target n) k) as Hs by apply (new_revises_target _ _ Hn).
  assert (new_node n' = new_node n /\ new_controlling_fanins n' = new_controlling_fanins n) as [H1 H2] by (by destruct Hn as [->| ->]).
  assert (forall nm s, fanin_name_ok g' M nm s <-> fanin_name_ok g M nm s) as Hf.
  { intros nm s. unfold fanin_name_ok, CheckNodeNameExists, HasNode. by rewrite (rv_names _ _ Hr). }
  split; intros [A B C]; split.
  - destruct A as [l A]. exists l. intros k. by rewrite <- Hs.
  - intros k t Hk. rewrite <- H1. apply Hf. apply (B k). by rewrite Hs.
  - intros s. rewrite <- H2, <- H1. intros Hc. by apply Hf, C.
  - destruct A as [l A]. exists l. intros k. by rewrite Hs.
  - intros k t Hk. rewrite H1. apply Hf. apply (B k). by rewrite <- Hs.
  - intros s. rewrite H2, H1. intros Hc. by apply Hf, C.
Qed.

(** The new nodes of [l] have no gaps at the end. *)
Definition trimmed_new g (P : Z -> Prop) : Prop :=
  forall k n, P k -> vget (new_nodes_ (mutation_ g)) k = Some n -> trim_new n = n.

Lemma trim_new_idemp n : trim_new (trim_new n) = trim_new n.
Proof. unfold trim_new. cbn. by rewrite trimmed_idemp. Qed.

Lemma check_new_nodes_spec g M l : mutation_ok g ->
  (forall k, k ∈ l -> 0 <= k < size_ (new_nodes_ (mutation_ g))) -> forall g1 P, revised g g1 -> trimmed_new g1 P ->
  let good := forall k n, k ∈ l -> vget (new_nodes_ (mutation_ g)) k = Some n -> new_valid g M n in
  runs (check_new_nodes M l) g1 (fun r g2 => revised g g2 /\
    match r with None => good /\ trimmed_new g2 (fun k => P k \/ k ∈ l) | Some st => status_ok st = false /\ ~ good end).
Proof.
  intros Hm. induction l as [|k l IH]; intros Hl g1 P Hr HP good; cbn [check_new_nodes].
  { run_step. split; [done|]. split; [intros k n Hk; by apply elem_of_nil in Hk|]. intros k n [Hk|Hk]; [by apply HP|]. by apply elem_of_nil in Hk. }
  specialize (IH ltac:(intros; apply Hl; by right)). cbv zeta in IH.
  destruct (vget_ex (new_nodes_ (mutation_ g)) k) as [n Hn]; [apply Hl; left|].
  destruct (rv_new _ _ Hr _ _ Hn) as (n1 & Hn1 & Hrev). assert (new_ok n) as Hok by (apply (mo_new _ Hm), elem_of_vget; eauto).
  destruct (new_IsWellFormed_ok g1 M n1 (new_revises_ok _ _ Hrev Hok)) as (b & Hb & Hbi). rewrite (new_valid_revised _ _ _ _ _ Hr Hrev) in Hbi.
  run_step. run_step. run_step. eapply runs_at; [exact Hn1|]. rewrite Hb. cbv beta iota. unfold modify_mutation. run_step. run_step.
  set (g2 := set_mutation _ g1). assert (revised g g2) as Hr2.
  { etrans; [exact Hr|]. split; try done; cbn [g2 mutation_ set_mutation set_new_nodes new_nodes_ updated_nodes_].
    - eauto using revises_refl.
    - apply size_vset.
    - intros c y Hy. rewrite vget_vset by (by eapply vget_Some). case_bool_decide; [subst; simplify_eq; eexists; split; [done|by right]|eauto using new_revises_refl]. }
  destruct b.
  - eapply runs_mono; [apply (IH g2 (fun c => P c \/ c = k) Hr2)|].
    { intros c y Hc Hy. cbn in Hy. rewrite vget_vset in Hy by (by eapply vget_Some). case_bool_decide as E.
      - injection Hy as <-. apply trim_new_idemp.
      - destruct Hc as [Hc| ->]; [by apply (HP c)|done]. }
    intros [st|] g3 [Hr3 H]; (split; [done|]).
    + destruct H as [Hst H]. split; [done|]. intros Hall. apply H. intros c y Hc. apply Hall. by right.
    + destruct H as [H Htr]. split.
      * intros c y [->|Hc]%elem_of_cons Hy; [|by eapply H]. simplify_eq. by apply Hbi.
      * intros c y Hc. apply Htr. rewrite elem_of_cons in Hc. tauto.
  - run_step. split; [done|]. split; [done|]. intros Hall. by pose proof (proj2 Hbi (Hall k n ltac:(left) Hn)).
Qed.

(** ** Attributes *)

Lemma fold_delete (l : list string) : forall (m : gmap string AttrValue) s,
  fold_left (fun m s => delete s m) l m !! s = if bool_decide (s ∈ l) then None else m !! s.
Proof.
  induction l as [|t l IH]; intros m s; cbn [fold_left]; [by rewrite bool_decide_false by set_solver|]. rewrite IH.
  destruct (decide (s ∈ l)) as [Hs|Hs]; [rewrite !bool_decide_true by (by rewrite ?elem_of_cons; auto); done|].
  rewrite (bool_decide_false (s ∈ l)) by done. rewrite lookup_delete. destruct (decide (t = s)) as [->|Ht].
  - by rewrite bool_decide_true by left.
  - by rewrite bool_decide_false by (rewrite elem_of_cons; naive_solver).
Qed.

Lemma fold_insert (a : gmap string AttrValue) l : forall (m : gmap string AttrValue) s, (forall k x, (k, x) ∈ l -> a !! k = Some x) ->
  fold_left (fun m (e : string * AttrValue) => <[e.1 := e.2]> m) l m !! s = if bool_decide (s ∈ l.*1) then a !! s else m !! s.
Proof.
  induction l as [|[k x] l IH]; intros m s Hl; cbn [fold_left fst snd fmap list_fmap].
  { by rewrite bool_decide_false by set_solver. }
  rewrite IH by (intros; apply Hl; by right). destruct (decide (k = s)) as [->|Hk].
  - rewrite (bool_decide_true (s ∈ s :: l.*1)) by left. rewrite lookup_insert_eq.
    case_bool_decide; [done|]. symmetry. apply Hl. left.
  - rewrite lookup_insert_ne by done. by rewrite (bool_decide_ext (s ∈ k :: l.*1) (s ∈ l.*1)) by (rewrite elem_of_cons; naive_solver).
Qed.

Lemma process_attrs_spec d (x : D) : process_attrs (attr d) x = attrs_to_add x ∪ kept_attrs d x.
Proof.
  apply map_eq. intros s. unfold process_attrs. rewrite (fold_insert (attrs_to_add x)) by (intros; by apply elem_of_entries_in_order).
  rewrite fold_delete. unfold kept_attrs.
  assert (s ∈ (entries_in_order (attrs_to_add x)).*1 <-> is_Some (attrs_to_add x !! s)) as Hs.
  { rewrite list_elem_of_fmap. split; [intros ([k y] & -> & Hk%elem_of_entries_in_order); by exists y|].
    intros [y Hy]. exists (s, y). split; [done|]. by apply elem_of_entries_in_order. }
  rewrite (bool_decide_ext _ _ Hs).
  rewrite (bool_decide_ext (s ∈ names_in_order (attrs_to_remove x)) (s ∈ attrs_to_remove x)) by apply elem_of_names_in_order.
  rewrite lookup_union. destruct (attrs_to_add x !! s) as [a|] eqn:E.
  - rewrite (bool_decide_true (is_Some (Some a))) by eauto. by destruct (base.filter _ (attr d) !! s).
  - rewrite (bool_decide_false (is_Some None)) by naive_solver. rewrite (left_id_L None (∪)), map_lookup_filter.
    destruct (attr d !! s) as [a|]; cbn; [|by case_bool_decide]. case_bool_decide as E1; case_guard as E2; cbn in *; done.
Qed.

(** What the diffs look like once validation has succeeded. *)
Definition settled g (x : D) : Prop :=
  Diff.trim x = x /\
  (is_empty x = false -> exists d, vget (graph g) (diff_node_index x) = Some d /\ processed_attrs x = Some (process_attrs (attr d) x)).

Lemma check_kernels_spec g l : view_ok g -> mutation_ok g -> (forall u, u ∈ l -> 0 <= u < size_ (updated_nodes_ (mutation_ g))) ->
  forall g1 (done : Z -> Prop), revised g g1 ->
  (forall u x, done u -> vget (updated_nodes_ (mutation_ g1)) u = Some x -> settled g x) ->
  runs (check_kernels l) g1 (fun _ g2 => revised g g2 /\ new_nodes_ (mutation_ g2) = new_nodes_ (mutation_ g1) /\
    forall u x, done u \/ u ∈ l -> vget (updated_nodes_ (mutation_ g2)) u = Some x -> settled g x).
Proof.
  intros Hg Hm. induction l as [|u l IH]; intros Hl g1 P Hr HP; cbn [check_kernels].
  { run_step. split; [done|]. split; [done|]. intros u x [Hu|Hu]; [by apply HP|]. by apply elem_of_nil in Hu. }
  assert (0 <= u < size_ (updated_nodes_ (mutation_ g))) as Hu by (apply Hl; left).
  destruct (diff_of_revised _ _ _ Hr Hu) as [Hx1 Hrev]. set (x1 := diff_of g1 u) in *. destruct (revises_fields _ _ Hrev) as (Hi & _ & _).
  pose proof (diff_node_range _ _ Hm Hu) as Hir. destruct (vget_ex _ _ Hir) as [v Hv]. destruct (view_ok_def _ _ _ _ _ Hg Hv) as [d Hd].
  run_step. eapply runs_diff_at; [exact Hx1|]. rewrite IsEmpty_eq. cbv beta iota. run_step. apply runs_set_diff.
  set (g2 := with_diff g1 u (Diff.trim x1)). assert (revised g g2) as Hr2.
  { etrans; [exact Hr|]. eapply revised_set_diff; [exact Hx1|]. apply revises_trim, revises_refl. }
  assert (vget (updated_nodes_ (mutation_ g2)) u = Some (Diff.trim x1)) as Hx2.
  { cbn. rewrite vget_vset by (by eapply vget_Some). by rewrite bool_decide_true. }
  assert (forall x', revises (Diff.trim x1) x' -> settled g x' -> runs (check_kernels l) (with_diff g2 u x') (fun _ g3 => revised g g3 /\ new_nodes_ (mutation_ g3) = new_nodes_ (mutation_ g1) /\
    forall c x, P c \/ c ∈ u :: l -> vget (updated_nodes_ (mutation_ g3)) c = Some x -> settled g x)) as Hrest.
  { intros x' Hrev' Hst. eapply runs_mono; [apply (IH ltac:(intros; apply Hl; by right) _ (fun c => P c \/ c = u))|].
    - etrans; [exact Hr2|]. by eapply revised_set_diff.
    - intros c x Hc Hx. cbn in Hx. rewrite vget_vset in Hx by (rewrite size_vset; by eapply vget_Some). case_bool_decide; [by simplify_eq|].
      rewrite vget_vset_ne in Hx by done. destruct Hc as [Hc| ->]; [by apply (HP c)|done].
    - intros _ g3 (Hr3 & Hn3 & H). split; [done|]. split; [by rewrite Hn3|]. intros c x Hc. apply H. rewrite elem_of_cons in Hc. tauto. }
  run_step. destruct (is_empty x1) eqn:Ee.
  - run_step. assert (g2 = with_diff g2 u (Diff.trim x1)) as ->.
    { unfold g2, with_diff. cbn. by rewrite vset_vset. }
    apply Hrest; [apply revises_refl|]. split; [apply trim_idemp|]. intros Hne.
    rewrite (revises_empty x1) in Hne by apply revises_trim, revises_refl. congruence.
  - assert (diff_node_index (Diff.trim x1) = diff_node_index (diff_of g u)) as Hi2 by done.
    run_step. rewrite Hi2. eapply runs_node_at; [by rewrite (rv_nodes _ _ Hr2)|]. rewrite (ok_index _ (ok_names_ok _ _ _ Hg) _ _ Hv).
    run_step. eapply runs_node_def_at; [by rewrite (rv_graph _ _ Hr2)|]. apply runs_set_diff. apply Hrest.
    + exists (Some (process_attrs (attr d) (Diff.trim x1))). by left.
    + split; [by rewrite trim_processed, trim_idemp|]. intros _. exists d. split; [|done].
      change (vget (graph g) (diff_node_index x1) = Some d). by rewrite Hi.
Qed.

(** ** The decision *)

Record valid_mutation g (M : gmap string Z) : Prop := {
  vm_names : NoDup (claimed g);
  vm_final : final_names g M;
  vm_stays : forall i, leaving g i -> name_of g i ∉ claimed g ->
    fanouts_stay g (overwritten_by (map (renamed_node g) (renamed g (all_diffs g)))) i;
  vm_diffs : forall u, u ∈ changed g (all_diffs g) -> diff_valid g M u;
  vm_new : forall n, n ∈ new_nodes_ (mutation_ g) -> new_valid g M n
}.

Lemma final_names_unique g M M' : final_names g M -> final_names g M' -> M = M'.
Proof.
  intros [H1 H2] [H1' H2']. apply map_eq. intros s. destruct (decide (s ∈ claimed g)) as [Hs|Hs]; [by rewrite H1, H1'|].
  apply option_eq. intros i. by rewrite H2, H2'.
Qed.

Lemma fanouts_stay_revised g g' ow i : revised g g' -> mutation_ok g -> fanouts_stay g' ow i <-> fanouts_stay g ow i.
Proof.
  intros Hr Hm. assert (forall v w, vget (nodes_ g) w = Some v -> update_index_ v <> kMissingIndex ->
    NumRegularFanins v - num_regular_inputs_to_remove (diff_of g' (update_index_ v)) =
      NumRegularFanins v - num_regular_inputs_to_remove (diff_of g (update_index_ v)) /\
    regular_inputs_to_update (diff_of g' (update_index_ v)) = regular_inputs_to_update (diff_of g (update_index_ v)) /\
    controlling_inputs_to_remove (diff_of g' (update_index_ v)) = controlling_inputs_to_remove (diff_of g (update_index_ v))) as Hsame.
  { intros v w Hv Hne. destruct (mo_node _ Hm _ _ Hv Hne) as (x & Hx & _). destruct (rv_updated _ _ Hr _ _ Hx) as (x' & Hx' & [p [->| ->]]);
      rewrite (diff_of_Some _ _ _ Hx), (diff_of_Some _ _ _ Hx'); done. }
  assert (forall fo, regular_stays g' ow fo <-> regular_stays g ow fo) as H1.
  { intros fo. unfold regular_stays. rewrite (rv_nodes _ _ Hr), (rv_removed _ _ Hr). split; intros (v & Hv & H); exists v; (split; [done|]);
      case_bool_decide; try done; destruct (Hsame _ _ Hv) as (E1 & E2 & _); try done; cbv zeta in *; by rewrite ?E1, ?E2 in *. }
  assert (forall fo, controlled_stays g' ow fo <-> controlled_stays g ow fo) as H2.
  { intros fo. unfold controlled_stays. rewrite (rv_nodes _ _ Hr), (rv_removed _ _ Hr). split; intros (v & Hv & H); exists v; (split; [done|]);
      case_bool_decide; try done; destruct (Hsame _ _ Hv) as (_ & _ & E3); try done; by rewrite ?E3 in *. }
  unfold fanouts_stay. rewrite (rv_nodes _ _ Hr). setoid_rewrite H1. setoid_rewrite H2. done.
Qed.

Lemma elem_of_all_diffs g u : u ∈ all_diffs g <-> 0 <= u < size_ (updated_nodes_ (mutation_ g)).
Proof. apply elem_of_count_up. Qed.

Lemma elem_of_filter_bool {A} (f : A -> bool) (l : list A) x : x ∈ List.filter f l <-> x ∈ l /\ f x = true.
Proof. rewrite !list_elem_of_In, filter_In. done. Qed.

(** Every changed diff is either renamed or in place. *)
Lemma elem_of_partition g u : u ∈ changed g (all_diffs g) <-> u ∈ in_place g (all_diffs g) \/ u ∈ renamed g (all_diffs g).
Proof. unfold in_place, renamed. rewrite !elem_of_filter_bool, negb_true_iff. destruct (update_name _); naive_solver. Qed.

Lemma CheckNodeNamesAndFanins_spec g p : view_ok g -> mutation_ok g -> partitioned g p -> forall g1, revised g g1 ->
  runs (CheckNodeNamesAndFanins p) g1 (fun r g2 => revised g g2 /\
    match r with None => valid_mutation g (p_node_names p) /\ trimmed_new g2 (fun _ => True) | Some st => status_ok st = false /\ ~ valid_mutation g (p_node_names p) end).
Proof.
  intros Hg Hm (Hnd & Hfn & Hre & Hin & _) g1 Hr. unfold CheckNodeNamesAndFanins. rewrite Hre, Hin, map_map.
  pose proof (view_ok_revised _ _ Hr Hg) as Hg1. pose proof (mutation_ok_revised _ _ Hr Hm) as Hm1.
  assert (forall u, u ∈ changed g (all_diffs g) -> 0 <= u < size_ (updated_nodes_ (mutation_ g))) as Hch.
  { intros u [Hu _]%elem_of_filter_bool. by apply elem_of_all_diffs. }
  run_step. eapply runs_mono; [apply (RemovedOrMissing_spec g1 _ _ Hg1 Hm1)|].
  { intros s i Hs. rewrite (rv_nodes _ _ Hr). destruct (decide (s ∈ claimed g)) as [Hc|Hc].
    - rewrite (fn_present _ _ Hfn) in Hs by done. left. congruence.
    - right. apply (fn_missing _ _ Hfn) in Hs as [Hl _]; [|done]. by apply leaving_range. }
  { intros r (u & -> & _)%list_elem_of_fmap. cbn. rewrite (rv_nodes _ _ Hr), (ok_length _ (ok_names_ok _ _ _ Hg)).
    destruct (node_index_by_name_ g !! _) as [j|] eqn:E; [right|by left]. apply (ok_names _ (ok_names_ok _ _ _ Hg)) in E as (d & Hd & _).
    by eapply vget_Some. }
  intros r g2 [-> Hst]. assert ((forall s i, p_node_names p !! s = Some i -> i <> kNodeNamePresent ->
      fanouts_stay g1 (overwritten_by (map (renamed_node g) (renamed g (all_diffs g)))) i) <->
    (forall i, leaving g i -> name_of g i ∉ claimed g -> fanouts_stay g (overwritten_by (map (renamed_node g) (renamed g (all_diffs g)))) i)) as Hiff.
  { split.
    - intros H i Hl Hc. rewrite <- fanouts_stay_revised by done. apply (H (name_of g i)).
      + by apply (fn_missing _ _ Hfn).
      + apply (leaving_range _ _ Hm) in Hl. unfold kNodeNamePresent. lia.
    - intros H s i Hs Hne. rewrite fanouts_stay_revised by done. destruct (decide (s ∈ claimed g)) as [Hc|Hc].
      + rewrite (fn_present _ _ Hfn) in Hs by done. congruence.
      + apply (fn_missing _ _ Hfn) in Hs as [Hl <-]; [|done]. by apply H. }
  cbv zeta in Hst. destruct r as [st|].
  { run_step. split; [done|]. destruct Hst as [H1 H2]. split; [done|]. intros H. by apply H2, Hiff, H. }
  pose proof (proj1 Hiff Hst) as Hstays. run_step. eapply runs_mono; [apply (check_diffs_spec g _ _ _ Hg Hm); [| |exact Hr]|].
  { intros u Hu. apply Hch, elem_of_partition. by left. }
  { intros g' x Hg' Hx. unfold describe_inplace. run_step. apply runs_get_name; [done..|]. by run_step. }
  intros [st|] g2 [Hr2 H1].
  { run_step. split; [done|]. destruct H1 as [H1 H2]. split; [done|]. intros H. apply H2. intros u Hu. apply (vm_diffs _ _ H), elem_of_partition. by left. }
  run_step. rewrite (map_ext (fun u => renamed_update_index_ (renamed_node g u)) id), map_id by done.
  eapply runs_mono; [apply (check_diffs_spec g _ _ _ Hg Hm); [| |exact Hr2]|].
  { intros u Hu. apply Hch, elem_of_partition. by right. }
  { intros g' x Hg' Hx. unfold describe_renamed. run_step. apply runs_get_name; [done..|]. by run_step. }
  intros [st|] g3 [Hr3 H2].
  { run_step. split; [done|]. destruct H2 as [H2 H3]. split; [done|]. intros H. apply H3. intros u Hu. apply (vm_diffs _ _ H), elem_of_partition. by right. }
  run_step. run_step. eapply runs_mono; [apply (check_new_nodes_spec g _ _ Hm) with (P := fun _ => False); [|exact Hr3|by intros k n []]|].
  { intros k Hk%elem_of_count_up. by rewrite (rv_new_size _ _ Hr3) in Hk. }
  intros r g4 [Hr4 H3]. split; [done|]. destruct r as [st|].
  - destruct H3 as [H3 H4]. split; [done|]. intros H. apply H4. intros k n _ Hn. apply (vm_new _ _ H), elem_of_vget. eauto.
  - destruct H3 as [H3 Htr]. split.
    2:{ intros k n _ Hn. apply (Htr k n); [|done]. right. apply elem_of_count_up. rewrite (rv_new_size _ _ Hr3), <- (rv_new_size _ _ Hr4).
        by eapply vget_Some. }
    split; try done.
    + intros u [Hu|Hu]%elem_of_partition; auto.
    + intros n [k Hk]%elem_of_vget. apply (H3 k); [|done]. apply elem_of_count_up. rewrite (rv_new_size _ _ Hr3). by eapply vget_Some.
Qed.

Lemma ValidateInternal_spec g : view_ok g -> mutation_ok g ->
  runs ValidateInternal g (fun r g' => revised g g' /\
    match r with
    | inl st => status_ok st = false /\ ~ (exists M, valid_mutation g M)
    | inr p => partitioned g p /\ valid_mutation g (p_node_names p) /\ trimmed_new g' (fun _ => True) /\
        forall u x, vget (updated_nodes_ (mutation_ g')) u = Some x -> settled g x
    end).
Proof.
  intros Hg Hm. unfold ValidateInternal. run_step. eapply runs_mono; [by apply GetNodeNames_spec|]. intros [st|p] g1 [Hr1 H1].
  { run_step. split; [done|]. destruct H1 as [H1 H2]. split; [done|]. intros [M H]. apply H2, H. }
  run_step. eapply runs_mono; [by apply (CheckNodeNamesAndFanins_spec g p Hg Hm H1 g1)|]. intros [st|] g2 [Hr2 H2].
  { run_step. split; [done|]. destruct H2 as [H2 H3]. split; [done|]. intros [M H]. apply H3.
    rewrite (final_names_unique g (p_node_names p) M); [done|apply H1|apply H]. }
  run_step. unfold CheckKernelRegisteredForNodes. run_step. run_step. run_step.
  eapply runs_mono; [apply (check_kernels_spec g _ Hg Hm) with (done := fun _ => False); [|exact Hr2|done]|].
  { intros u Hu%elem_of_count_up. by rewrite (rv_size _ _ Hr2) in Hu. }
  intros _ g3 (Hr3 & Hn3 & H3). run_step. run_step. split; [done|]. split; [done|]. destruct H2 as [H2 Htr]. split; [done|].
  split; [intros k n; rewrite Hn3; apply Htr|]. intros u x Hx. apply (H3 u); [right|done].
  apply elem_of_count_up. rewrite (rv_size _ _ Hr2), <- (rv_size _ _ Hr3). by eapply vget_Some.
Qed.
End validate.
