(* ===== verification/GraphValidated.v ===== *)
(** * GraphValidated: what a validated mutation promises

    The facts that the later stages of [Apply] use, when no node is renamed: the
    diffs are settled and without gaps, and no content that a node will have
    mentions a node that goes. *)

From S2P Require Import Prelude Vec TensorName GraphView GraphInv GraphEditProofs GraphBuild HashOrder GraphDiff GraphContent GraphWellFormed GraphMutation GraphMutationProofs GraphValidate GraphValidateProofs.
#[local] Open Scope string_scope.
#[local] Open Scope list_scope.
#[local] Open Scope Z_scope.

Section validated.
  Context {AttrValue : Type} {HO : HashOrder}.
  #[local] Notation G := (MutableGraphView AttrValue).
  #[local] Notation D := (NodeViewDiff AttrValue).
  #[local] Notation N := (NewNode AttrValue).
  Implicit Type g : G.

(** No diff of the mutation gives a node another name. *)
Definition keeps_names g : Prop := forall x, x ∈ updated_nodes_ (mutation_ g) -> update_name x = false.

(** Node [i] goes: it is removed, and nothing takes its place. *)
Definition dead g (i : Z) : Prop := i ∈ removed_nodes_ (mutation_ g) /\ name_of g i ∉ claimed g.

Record validated g (M : gmap string Z) : Prop := {
  va_view : view_ok g;
  va_mutation : mutation_ok g;
  va_names : NoDup (claimed g);
  va_final : final_names g M;
  va_keeps : keeps_names g;
  va_stays : forall i, dead g i -> fanouts_stay g (fun _ => False) i;
  va_settled : forall x, x ∈ updated_nodes_ (mutation_ g) -> settled g x;
  va_diff : forall x v d, x ∈ updated_nodes_ (mutation_ g) -> is_empty x = false ->
    vget (nodes_ g) (diff_node_index x) = Some v -> vget (graph g) (diff_node_index x) = Some d ->
    gapless x /\ fanins_valid g M d v x;
  va_new : forall n, n ∈ new_nodes_ (mutation_ g) -> new_valid g M n /\ trim_new n = n
}.

(** ** From the result of validation *)

Section from.
Context (g g1 : G) (M : gmap string Z) (Hg : view_ok g) (Hm : mutation_ok g) (Hk : keeps_names g) (Hr : revised g g1).

Lemma changed_revised : changed g1 (all_diffs g1) = changed g (all_diffs g).
Proof.
  unfold changed, all_diffs. rewrite (rv_size _ _ Hr). apply filter_ext_in. intros u Hu%list_elem_of_In%elem_of_count_up.
  by rewrite (revises_empty _ _ (proj2 (diff_of_revised _ _ _ Hr Hu))).
Qed.

Lemma claimed_revised : claimed g1 = claimed g.
Proof.
  unfold claimed. rewrite changed_revised. f_equal.
  - apply map_ext_in. intros u [Hu _]%list_elem_of_In%elem_of_filter_bool. apply elem_of_all_diffs in Hu.
    destruct (revises_fields _ _ (proj2 (diff_of_revised _ _ _ Hr Hu))) as (H1 & H2 & H3). unfold new_name_of.
    by rewrite H1, H2, H3, (name_of_revised _ _ _ Hr).
  - apply vget_ext. intros k. rewrite !vget_map. destruct (vget (new_nodes_ (mutation_ g)) k) as [n|] eqn:E.
    + destruct (rv_new _ _ Hr _ _ E) as (n' & -> & [->| ->]); done.
    + destruct (vget (new_nodes_ (mutation_ g1)) k) as [n'|] eqn:E'; [|done]. destruct (rv_new_back _ _ _ _ Hr E') as (n & Hn & _). congruence.
Qed.

Lemma keeps_revised : keeps_names g1.
Proof.
  intros x' [u Hu]%elem_of_vget. destruct (rv_updated_back _ _ _ _ Hr Hu) as (x & Hx & Hrev).
  rewrite (proj1 (proj2 (revises_fields _ _ Hrev))). apply Hk, elem_of_vget. eauto.
Qed.

Lemma nothing_renamed : renamed g (all_diffs g) = [].
Proof.
  destruct (renamed g (all_diffs g)) as [|u l] eqn:E; [done|]. exfalso. assert (u ∈ renamed g (all_diffs g)) as Hu by (rewrite E; left).
  unfold renamed, changed in Hu. rewrite !elem_of_filter_bool in Hu. destruct Hu as [[Hu _] Hn]. apply elem_of_all_diffs, vget_ex in Hu as [x Hx].
  rewrite (diff_of_Some _ _ _ Hx), Hk in Hn; [done|]. apply elem_of_vget. eauto.
Qed.

Lemma leaving_removed g' i : keeps_names g' -> leaving g' i <-> i ∈ removed_nodes_ (mutation_ g').
Proof. intros Hk'. split; [|by left]. intros [?|(x & Hx & Hn & _)]; [done|]. rewrite (Hk' x Hx) in Hn. done. Qed.

Lemma validated_from : valid_mutation g M -> trimmed_new g1 (fun _ => True) ->
  (forall u x, vget (updated_nodes_ (mutation_ g1)) u = Some x -> settled g x) -> validated g1 M.
Proof.
  intros [Hnd Hfin Hst Hdi Hnw] Htr Hset. split.
  - by eapply view_ok_revised.
  - by eapply mutation_ok_revised.
  - by rewrite claimed_revised.
  - split; rewrite claimed_revised; [apply Hfin|]. intros s i Hs. rewrite (fn_missing _ _ Hfin s i Hs), !leaving_removed by (done || apply keeps_revised).
    by rewrite (rv_removed _ _ Hr), (name_of_revised _ _ _ Hr).
  - apply keeps_revised.
  - intros i [Hi Hc]. rewrite claimed_revised, (name_of_revised _ _ _ Hr) in Hc. rewrite (rv_removed _ _ Hr) in Hi.
    pose proof (Hst i ltac:(by left) Hc) as H. rewrite nothing_renamed in H. rewrite fanouts_stay_revised by done.
    assert (forall i, overwritten_by [] i -> False) as Hno by (intros j (r & Hx & _); by apply elem_of_nil in Hx).
    intros v Hv. destruct (H v Hv) as [H1 H2]. split.
    + intros fo Hfo. destruct (H1 fo Hfo) as (w & Hw & Hs). exists w. split; [done|]. case_bool_decide; [|done]. destruct Hs as [?|Hs]; [by left|by apply Hno in Hs].
    + intros fo Hfo. destruct (H2 fo Hfo) as (w & Hw & Hs). exists w. split; [done|]. case_bool_decide; [|done]. destruct Hs as [?|Hs]; [by left|by apply Hno in Hs].
  - intros x [u Hu]%elem_of_vget. destruct (Hset u x Hu) as [H1 H2]. split; [done|]. by rewrite (rv_graph _ _ Hr).
  - intros x' v d [u Hu]%elem_of_vget He Hv Hd. destruct (rv_updated_back _ _ _ _ Hr Hu) as (x & Hx & Hrev).
    assert (0 <= u < size_ (updated_nodes_ (mutation_ g))) as Hur by (by eapply vget_Some).
    destruct (revises_fields _ _ Hrev) as (Hi & _). rewrite Hi, (rv_nodes _ _ Hr) in Hv. rewrite Hi, (rv_graph _ _ Hr) in Hd.
    assert (diff_valid g M u) as Hdv.
    { apply Hdi, elem_of_filter_bool. rewrite elem_of_all_diffs. split; [done|]. rewrite (diff_of_Some _ _ _ Hx), negb_true_iff.
      by rewrite <- (revises_empty _ _ Hrev). }
    destruct (mo_diff _ Hm _ _ Hx) as (v0 & Hv0 & _ & Hok & _). rewrite Hv in Hv0. injection Hv0 as <-.
    apply (diff_valid_revised g g1 M u v d Hr Hur) in Hdv; rewrite ?(diff_of_Some _ _ _ Hx); try done.
    rewrite (diff_of_Some _ _ _ Hu), (proj1 (Hset u x' Hu)) in Hdv. exact Hdv.
  - intros n' [k Hn']%elem_of_vget. split; [|by apply (Htr k)]. destruct (rv_new_back _ _ _ _ Hr Hn') as (n & Hn & Hrev).
    apply (new_valid_revised g g1 M n n' Hr Hrev). apply Hnw, elem_of_vget. eauto.
Qed.
End from.

(** ** Nothing that stays mentions what goes *)

Definition mentions (c : content AttrValue) (s : string) : Prop :=
  (exists k t, c_regular c k = Some t /\ TensorName.node t = s) \/ s ∈ c_controls c.

Lemma mentions_equiv c c' s : c ≡ c' -> mentions c s -> mentions c' s.
Proof.
  intros (_ & _ & _ & Hr & Hc & _) [(k & t & Hk & Ht)|Hs]; [left; exists k, t; by rewrite <- Hr|right; by rewrite <- Hc].
Qed.

Lemma fanin_mentioned g d v w : w ∈ regular_fanins_ v ++ controlling_fanins_ v ->
  mentions (node_content g d v) (name_of g (fanout_node_index w)).
Proof.
  intros [Hw|Hw]%elem_of_app.
  - left. apply elem_of_vget in Hw as [k Hk]. exists k, (fanin_id g w). cbn [c_regular node_content]. by rewrite Hk.
  - right. apply elem_of_vget in Hw as [k Hk]. apply elem_of_control_names. eauto.
Qed.

Section mentions.
Context (g : G) (M : gmap string Z) (Hva : validated g M) (r : Z) (Hdead : dead g r).

Lemma dead_range : 0 <= r < size_ (nodes_ g).
Proof. apply (mo_removed _ (va_mutation _ _ Hva)), Hdead. Qed.

Lemma dead_name nm : ~ fanin_name_ok g M nm (name_of g r).
Proof.
  intros [_ H]. destruct Hdead as [Hr Hc]. unfold CheckNodeNameExists in H.
  assert (M !! name_of g r = Some r) as E by (apply (fn_missing _ _ (va_final _ _ Hva)); [done|]; split; [by left|done]).
  rewrite E in H. apply Z.eqb_eq in H. pose proof dead_range. unfold kNodeNamePresent in H. lia.
Qed.

Lemma dead_source w j v : vget (nodes_ g) j = Some v -> w ∈ regular_fanins_ v ++ controlling_fanins_ v ->
  name_of g (fanout_node_index w) = name_of g r -> fanout_node_index w = r.
Proof.
  intros Hv Hw. apply name_of_inj; [apply Hva| |apply dead_range].
  rewrite (ok_length _ (ok_names_ok _ _ _ (va_view _ _ Hva))).
  by apply (ok_fanin_range _ _ _ _ _ (ok_index_ok _ _ _ (va_view _ _ Hva) j v Hv)).
Qed.

(** Fanins from the node that goes. *)
Lemma dead_fanin j v k w : vget (nodes_ g) j = Some v -> vget (regular_fanins_ v) k = Some w ->
  name_of g (fanout_node_index w) = name_of g r -> regular_stays g (fun _ => False) (mk_FaninView j k k).
Proof.
  intros Hv Hw Hn. assert (fanout_node_index w = r) as <-.
  { eapply dead_source; [exact Hv| |done]. apply elem_of_app. left. apply elem_of_vget. eauto. }
  assert (fanin_at g j k = Some w) as Hf by (apply fanin_at_Some; eauto).
  destruct (ok_fanin _ _ (ok_edges _ _ _ (va_view _ _ Hva)) _ _ _ Hf) as [_ Hfo]. specialize (Hfo ltac:(set_solver)).
  apply fanout_at_Some in Hfo as (u & l & Hu & Hl & Hfo). apply (va_stays _ _ Hva _ Hdead u Hu). apply list_elem_of_In, in_concat.
  exists l. split; apply list_elem_of_In; apply elem_of_vget; eauto.
Qed.

Lemma dead_control j v k w : vget (nodes_ g) j = Some v -> vget (controlling_fanins_ v) k = Some w ->
  name_of g (fanout_node_index w) = name_of g r -> controlled_stays g (fun _ => False) (mk_FaninView j kControlSlot k).
Proof.
  intros Hv Hw Hn. assert (fanout_node_index w = r) as <-.
  { eapply dead_source; [exact Hv| |done]. apply elem_of_app. right. apply elem_of_vget. eauto. }
  assert (control_fanin_at g j k = Some w) as Hf by (apply control_fanin_at_Some; eauto).
  destruct (ok_control_fanin _ _ (ok_controls _ _ _ (va_view _ _ Hva)) _ _ _ Hf) as [_ Hfo]. specialize (Hfo ltac:(set_solver)).
  apply control_fanout_at_Some in Hfo as (u & Hu & Hfo). apply (va_stays _ _ Hva _ Hdead u Hu). apply elem_of_vget. eauto.
Qed.

Lemma updated_alive x v d : x ∈ updated_nodes_ (mutation_ g) -> is_empty x = false -> vget (nodes_ g) (diff_node_index x) = Some v ->
  vget (graph g) (diff_node_index x) = Some d -> ~ mentions (target g d v x) (name_of g r).
Proof.
  intros Hx He Hv Hd. destruct (va_diff _ _ Hva x v d Hx He Hv Hd) as [Hgl Hfv]. apply elem_of_vget in Hx as [u Hu].
  destruct (mo_diff _ (va_mutation _ _ Hva) _ _ Hu) as (v0 & Hv0 & Hui & Hok & _). rewrite Hv in Hv0. injection Hv0 as <-.
  assert (update_index_ v <> kMissingIndex) as Hui' by (apply vget_Some in Hu; unfold kMissingIndex; lia).
  intros [(k & t & Hk & Ht)|Hs].
  - cbn [c_regular target] in Hk. destruct (decide (is_Some (regular_inputs_to_update x !! k) \/ NumRegularFanins v <= k)) as [Hc|Hc].
    { apply (dead_name (c_name (target g d v x))). rewrite <- Ht. by apply (fv_regular _ _ _ _ _ Hfv k). }
    assert (k < NumRegularFanins v) as Hkn by (destruct (decide (k < NumRegularFanins v)); [done|exfalso; apply Hc; right; lia]).
    pose proof (slots_below g v x Hok Hgl k t Hk Hkn) as Hkr. unfold slots in Hk. rewrite (proj2 (Z.ltb_lt _ _)) in Hk by lia.
    destruct (marked v x k); [done|]. destruct (regular_inputs_to_update x !! k) as [t'|] eqn:E; [exfalso; apply Hc; left; eauto|].
    destruct (vget (regular_fanins_ v) k) as [w|] eqn:Hw; [|done]. injection Hk as <-.
    destruct (dead_fanin _ _ _ _ Hv Hw Ht) as (v0 & Hv0 & H). cbn [fanin_node_index fanin_port_index] in *. rewrite Hv in Hv0. injection Hv0 as <-.
    rewrite bool_decide_false in H by done. rewrite Hui, (diff_of_Some _ _ _ Hu) in H. cbv zeta in H. rewrite E in H. destruct H as [H|[? H]]; [lia|done].
  - cbn [c_controls target] in Hs. apply elem_of_union in Hs as [Hs|Hs].
    { apply (dead_name (c_name (target g d v x))). by apply (fv_controls _ _ _ _ _ Hfv). }
    apply elem_of_kept_controls in Hs as (k & w & Hw & Hk & Hn). destruct (dead_control _ _ _ _ Hv Hw Hn) as (v0 & Hv0 & H).
    cbn [fanin_node_index fanin_index_] in *. rewrite Hv in Hv0. injection Hv0 as <-. rewrite bool_decide_false in H by done.
    by rewrite Hui, (diff_of_Some _ _ _ Hu) in H.
Qed.

(** The diff of a node, if it has one, is empty. *)
Definition unchanged_node (v : MutableNodeView) : Prop :=
  update_index_ v = kMissingIndex \/ exists x, vget (updated_nodes_ (mutation_ g)) (update_index_ v) = Some x /\ is_empty x = true.

Lemma empty_diff (x : D) v : is_empty x = true -> Diff.trim x = x -> diff_ok v x -> num_regular_inputs_to_remove x = 0 /\
  regular_inputs_to_update x = ∅ /\ controlling_inputs_to_remove x = ∅.
Proof.
  intros He Ht Hx. unfold is_empty, Diff.IsEmpty in He. cbv zeta in He. cbn [fst] in He. rewrite Ht in He.
  rewrite !andb_true_iff, !bool_decide_eq_true in He. destruct He as [[[[[[[_ _] E1] E2] _] E3] _] _]. split_and!; try done.
  by rewrite (ok_num_remove _ _ Hx), E2.
Qed.

Lemma unchanged_alive j v d : j ∉ removed_nodes_ (mutation_ g) -> vget (nodes_ g) j = Some v -> unchanged_node v ->
  ~ mentions (node_content g d v) (name_of g r).
Proof.
  intros Hj Hv Hun. assert (update_index_ v <> kMissingIndex -> exists x, diff_of g (update_index_ v) = x /\
    num_regular_inputs_to_remove x = 0 /\ regular_inputs_to_update x = ∅ /\ controlling_inputs_to_remove x = ∅) as Hem.
  { intros Hne. destruct Hun as [?|(x & Hx & He)]; [done|]. exists x. split; [by apply diff_of_Some|].
    destruct (mo_diff _ (va_mutation _ _ Hva) _ _ Hx) as (v0 & _ & _ & Hok & _). eapply empty_diff; [done| |done].
    apply (va_settled _ _ Hva), elem_of_vget. eauto. }
  intros [(k & t & Hk & Ht)|Hs].
  - cbn [c_regular node_content] in Hk. destruct (vget (regular_fanins_ v) k) as [w|] eqn:Hw; [|done]. injection Hk as <-.
    destruct (dead_fanin _ _ _ _ Hv Hw Ht) as (v0 & Hv0 & H). cbn [fanin_node_index fanin_port_index] in *. rewrite Hv in Hv0. injection Hv0 as <-.
    case_bool_decide as Hu; [by destruct H|]. destruct (Hem Hu) as (x & E & E1 & E2 & _). cbv zeta in H. rewrite E, E1, E2, lookup_empty in H.
    apply vget_Some in Hw. unfold NumRegularFanins in H. destruct H as [H|[? H]]; [lia|done].
  - cbn [c_controls node_content] in Hs. apply elem_of_control_names in Hs as (k & w & Hw & Hn).
    destruct (dead_control _ _ _ _ Hv Hw Hn) as (v0 & Hv0 & H). cbn [fanin_node_index fanin_index_] in *. rewrite Hv in Hv0. injection Hv0 as <-.
    case_bool_decide as Hu; [by destruct H|]. destruct (Hem Hu) as (x & E & _ & _ & E3). rewrite E, E3 in H. set_solver.
Qed.

Lemma new_alive n : n ∈ new_nodes_ (mutation_ g) -> ~ mentions (new_target n) (name_of g r).
Proof.
  intros Hn. destruct (va_new _ _ Hva n Hn) as [Hv _]. intros [(k & t & Hk & Ht)|Hs]; apply (dead_name (name (new_node n))).
  - rewrite <- Ht. by apply (nv_names _ _ _ Hv k).
  - by apply (nv_controls _ _ _ Hv).
Qed.
End mentions.
End validated.
