(* ===== verification/GraphApply.v ===== *)
(** * GraphApply: applying a mutation (optimizer/graph_view.cc, Mutation::Apply)

    [ApplyMutationInternal] and its stages after validation: renames, new nodes,
    updates of nodes, fanins of new nodes, removal.  A vector that the code has
    moved from is empty.  What is left in [new_nodes_] after its nodes have been
    added is not read again and stays as it was. *)

From S2P Require Import Prelude Vec TensorName GraphView GraphEdit HashOrder GraphDiff GraphMutation GraphValidate.
#[local] Open Scope string_scope.
#[local] Open Scope list_scope.
#[local] Open Scope Z_scope.

(** The address of a NodeDef that is added to a graph is not that of another. *)
Class NodeAllocation := {
  new_address : list Z -> Z;
  new_address_fresh l : new_address l ∉ l
}.

(** [NodeViewFanouts] *)
Record NodeViewFanouts := mk_Fanouts {
  nf_regular_fanouts_by_port : list (list MutableFaninView);
  nf_num_regular_fanouts : Z;
  nf_controlled_fanouts : list MutableFaninView
}.

Definition set_view_node_index (i : Z) (v : MutableNodeView) : MutableNodeView :=
  mk_NodeView (regular_fanins_ v) (controlling_fanins_ v) (regular_fanouts_by_port_ v) (num_regular_fanouts_ v)
    (controlled_fanouts_ v) i (fanins_count_ v) (controlling_fanins_index_ v) (update_index_ v).
Definition set_fanin_node (j : Z) (w : MutableFanoutView) : MutableFanoutView :=
  mk_FanoutView j (fanout_port_index w) (fanout_index_ w).
Definition set_fanin_position (f : Z) (w : MutableFanoutView) : MutableFanoutView :=
  mk_FanoutView (fanout_node_index w) (fanout_port_index w) f.
Definition set_fanout_node (i : Z) (w : MutableFaninView) : MutableFaninView :=
  mk_FaninView i (fanin_port_index w) (fanin_index_ w).

Section apply.
  Context {AttrValue : Type} {HO : HashOrder} {NA : NodeAllocation}.
  #[local] Notation G := (MutableGraphView AttrValue).
  #[local] Notation D := (NodeViewDiff AttrValue).
  #[local] Notation N := (NewNode AttrValue).
  #[local] Notation M := (ST G).

(** Changes of single entries. *)
Definition update_regular_fanin (i k : Z) (f : MutableFanoutView -> MutableFanoutView) : M unit :=
  v ← node_at i;
  w ← lift (at_ (regular_fanins_ v) k);
  update_node i (fun v => set_regular_fanins (vset (regular_fanins_ v) k (f w)) v).
Definition update_controlling_fanin (i k : Z) (f : MutableFanoutView -> MutableFanoutView) : M unit :=
  v ← node_at i;
  w ← lift (at_ (controlling_fanins_ v) k);
  update_node i (fun v => set_controlling_fanins (vset (controlling_fanins_ v) k (f w)) v).
Definition update_regular_fanout (j p f : Z) (h : MutableFaninView -> MutableFaninView) : M unit :=
  v ← node_at j;
  l ← lift (at_ (regular_fanouts_by_port_ v) p);
  w ← lift (at_ l f);
  update_node j (fun v => set_regular_fanouts (vset (regular_fanouts_by_port_ v) p (vset l f (h w))) (num_regular_fanouts_ v) v).
Definition update_controlled_fanout (j f : Z) (h : MutableFaninView -> MutableFaninView) : M unit :=
  v ← node_at j;
  w ← lift (at_ (controlled_fanouts_ v) f);
  update_node j (fun v => set_controlled_fanouts (vset (controlled_fanouts_ v) f (h w)) v).

(** ** Renames *)

Definition decrement_fanin_count (i j port : Z) : M unit :=
  d ← node_def_at j;
  update_node i (fun v => set_fanins_count (DecrementFaninCount (fanins_count_ v) (address d, port)) v).

Fixpoint redirect_regular (node : Z) (l : list MutableFaninView) : M unit :=
  match l with
  | [] => mret tt
  | fanout :: l =>
      fanout_view ← node_at (fanin_node_index fanout);
      fanout_fanin ← lift (at_ (regular_fanins_ fanout_view) (fanin_port_index fanout));
      decrement_fanin_count (fanin_node_index fanout) (fanout_node_index fanout_fanin) (fanout_port_index fanout_fanin);;
      update_regular_fanin (fanin_node_index fanout) (fanin_port_index fanout) (set_fanin_node node);;
      increment_fanin_count (fanin_node_index fanout) node (fanout_port_index fanout_fanin);;
      redirect_regular node l
  end.

Fixpoint redirect_controlled (node i : Z) (l : list MutableFaninView) : M unit :=
  match l with
  | [] => mret tt
  | fanout :: l =>
      fanout_view ← node_at (fanin_node_index fanout);
      fanout_fanin ← lift (at_ (controlling_fanins_ fanout_view) (fanin_index_ fanout));
      decrement_fanin_count (fanin_node_index fanout) (fanout_node_index fanout_fanin) kControlSlot;;
      update_controlling_fanin (fanin_node_index fanout) (fanin_index_ fanout)
        (fun w => set_fanin_position i (set_fanin_node node w));;
      increment_fanin_count (fanin_node_index fanout) node kControlSlot;;
      redirect_controlled node (i + 1) l
  end.

Definition ReplaceNodeFanouts (node : Z) (fanouts : NodeViewFanouts) : M unit :=
  update_node node (set_regular_fanouts (nf_regular_fanouts_by_port fanouts) (nf_num_regular_fanouts fanouts));;
  redirect_regular node (concat (nf_regular_fanouts_by_port fanouts));;
  update_node node (set_controlled_fanouts (nf_controlled_fanouts fanouts));;
  redirect_controlled node 0 (nf_controlled_fanouts fanouts).

(** The fanouts of a node, moved out of it. *)
Definition take_fanouts (i : Z) : M NodeViewFanouts :=
  v ← node_at i;
  update_node i (fun v => set_controlled_fanouts [] (set_regular_fanouts [] (num_regular_fanouts_ v) v));;
  mret (mk_Fanouts (regular_fanouts_by_port_ v) (num_regular_fanouts_ v) (controlled_fanouts_ v)).

Definition set_def_name (s : string) (d : NodeDef AttrValue) : NodeDef AttrValue :=
  mk_NodeDef (address d) s (op d) (device d) (input d) (attr d).
Definition erase_name (s : string) : M unit :=
  modify (fun g => set_node_index_by_name (delete s (node_index_by_name_ g)) g).
Definition emplace_name (s : string) (i : Z) : M unit :=
  modify (fun g => set_node_index_by_name (emplace (node_index_by_name_ g) s i) g).

(** The first loop of [FixRenamedNodes]. *)
Fixpoint extract_fanouts (renamed_nodes : list RenamedOrOverwrittenNode) (renamed_fanouts : gmap string NodeViewFanouts)
    : M (gmap string NodeViewFanouts) :=
  match renamed_nodes with
  | [] => mret renamed_fanouts
  | renamed :: renamed_nodes =>
      diff ← diff_at (renamed_update_index_ renamed);
      node_name ← get_name (diff_node_index diff);
      erase_name node_name;;
      fanouts ← take_fanouts (diff_node_index diff);
      extract_fanouts renamed_nodes (emplace renamed_fanouts node_name fanouts)
  end.

(** The state of the second loop. *)
Record renaming := mk_renaming {
  rn_nodes : list RenamedOrOverwrittenNode;
  rn_fanouts : gmap string NodeViewFanouts;
  rn_overwritten : list bool
}.

Definition rename_node (renamed : RenamedOrOverwrittenNode) (r : renaming) : M renaming :=
  diff ← diff_at (renamed_update_index_ renamed);
  let i := diff_node_index diff in
  r ← (match rn_fanouts r !! diff_name diff with
       | Some fanouts =>
           ReplaceNodeFanouts i fanouts;;
           mret (mk_renaming (rn_nodes r ++ [mk_Renamed (renamed_update_index_ renamed) kMissingIndex])
                   (delete (diff_name diff) (rn_fanouts r)) (rn_overwritten r))
       | None =>
           let j := overwritten_node_index_ renamed in
           if j =? kMissingIndex then
             update_node i (fun v => set_regular_fanouts (regular_fanouts_by_port_ v) 0 v);;
             mret (mk_renaming (rn_nodes r ++ [renamed]) (rn_fanouts r) (rn_overwritten r))
           else
             fanouts ← take_fanouts j;
             ReplaceNodeFanouts i fanouts;;
             overwritten_name ← get_name j;
             erase_name overwritten_name;;
             v ← node_at j;
             g ← get;
             (if bool_decide (node_index_ v ∈ removed_nodes_ (mutation_ g)) then
                lift (at_ (rn_overwritten r) (node_index_ v));;
                mret (mk_renaming (rn_nodes r ++ [renamed]) (rn_fanouts r) (vset (rn_overwritten r) (node_index_ v) true))
              else mret (mk_renaming (rn_nodes r ++ [renamed]) (rn_fanouts r) (rn_overwritten r)))
       end);
  v ← node_at i;
  update_node_def (node_index_ v) (set_def_name (diff_name diff));;
  set_diff (renamed_update_index_ renamed) (Diff.set_name "" false diff);;
  node_name ← get_name i;
  emplace_name node_name i;;
  mret r.

Fixpoint rename_nodes (renamed_nodes : list RenamedOrOverwrittenNode) (r : renaming) : M renaming :=
  match renamed_nodes with
  | [] => mret r
  | renamed :: renamed_nodes => r ← rename_node renamed r; rename_nodes renamed_nodes r
  end.

Definition FixRenamedNodes (renamed_nodes : list RenamedOrOverwrittenNode) : M renaming :=
  g ← get;
  renamed_fanouts ← extract_fanouts renamed_nodes ∅;
  rename_nodes renamed_nodes (mk_renaming [] renamed_fanouts (replicate (length (nodes_ g)) false)).

Fixpoint abandon_regular (l : list MutableFaninView) : M unit :=
  match l with
  | [] => mret tt
  | fanout :: l =>
      let i := fanin_node_index fanout in
      v ← node_at i;
      fanin ← lift (at_ (regular_fanins_ v) (fanin_port_index fanout));
      d ← node_def_at (fanout_node_index fanin);
      update_node i (fun v => set_fanins_count (delete (address d, fanout_port_index fanin) (fanins_count_ v)) v);;
      update_regular_fanin i (fanin_port_index fanout) (set_fanin_position kMissingIndex);;
      abandon_regular l
  end.

Fixpoint abandon_controlled (node_name : string) (l : list MutableFaninView) : M unit :=
  match l with
  | [] => mret tt
  | fanout :: l =>
      let i := fanin_node_index fanout in
      v ← node_at i;
      fanin ← lift (at_ (controlling_fanins_ v) (fanin_index_ fanout));
      d ← node_def_at (fanout_node_index fanin);
      update_node i (fun v => set_controlling_fanins_index (delete node_name (controlling_fanins_index_ v))
        (set_fanins_count (delete (address d, kControlSlot) (fanins_count_ v)) v));;
      update_controlling_fanin i (fanin_index_ fanout) (set_fanin_position kMissingIndex);;
      abandon_controlled node_name l
  end.

Fixpoint FixRenamedFanouts (renamed_fanouts : list (string * NodeViewFanouts)) : M unit :=
  match renamed_fanouts with
  | [] => mret tt
  | (node_name, fanouts) :: renamed_fanouts =>
      abandon_regular (concat (nf_regular_fanouts_by_port fanouts));;
      abandon_controlled node_name (nf_controlled_fanouts fanouts);;
      FixRenamedFanouts renamed_fanouts
  end.

(** ** New nodes *)

Definition overwrite_def (n d : NodeDef AttrValue) : NodeDef AttrValue :=
  mk_NodeDef (address d) (name d) (op n) (device n) [] (attr n).

Definition set_address (a : Z) (d : NodeDef AttrValue) : NodeDef AttrValue :=
  mk_NodeDef a (name d) (op d) (device d) (input d) (attr d).

Definition add_new_node (n : N) (renamed_fanouts : gmap string NodeViewFanouts) : M (gmap string NodeViewFanouts * Z) :=
  g ← get;
  match node_index_by_name_ g !! name (new_node n) with
  | Some node_index =>
      RemoveAllFaninFanoutInternal node_index;;
      update_node_def node_index (overwrite_def (new_node n));;
      modify_mutation (fun m => set_removed_nodes (removed_nodes_ m ∖ {[node_index]}) m);;
      mret (renamed_fanouts, node_index)
  | None =>
      modify (fun g => set_graph (graph g ++ [set_address (new_address (map address (graph g))) (new_node n)]) g);;
      let node_index := size_ (nodes_ g) in
      modify (fun g => set_nodes (nodes_ g ++ [make_NodeView node_index]) g);;
      node_name ← get_name node_index;
      renamed_fanouts ← (match renamed_fanouts !! node_name with
        | Some fanouts => ReplaceNodeFanouts node_index fanouts;; mret (delete node_name renamed_fanouts)
        | None => mret renamed_fanouts
        end);
      emplace_name node_name node_index;;
      mret (renamed_fanouts, node_index)
  end.

Fixpoint AddNewNodes (l : list N) (renamed_fanouts : gmap string NodeViewFanouts) (new_node_indices : list Z)
    : M (gmap string NodeViewFanouts * list Z) :=
  match l with
  | [] => mret (renamed_fanouts, new_node_indices)
  | n :: l =>
      '(renamed_fanouts, node_index) ← add_new_node n renamed_fanouts;
      AddNewNodes l renamed_fanouts (new_node_indices ++ [node_index])
  end.

Fixpoint add_regular_inputs (i : Z) (l : list TensorId) : M unit :=
  match l with
  | [] => mret tt
  | fanin :: l =>
      AddRegularFaninInternal i fanin;;
      update_node_def i (fun d => set_input (input d ++ [SafeTensorIdToString fanin]) d);;
      add_regular_inputs i l
  end.

Fixpoint add_control_inputs (i : Z) (l : list string) : M unit :=
  match l with
  | [] => mret tt
  | control_to_add :: l => AddControllingFaninInternal i control_to_add;; add_control_inputs i l
  end.

Fixpoint SetNewNodesFanins (new_node_indices : list Z) (l : list N) : M unit :=
  match new_node_indices with
  | [] => mret tt
  | i :: new_node_indices =>
      match l with
      | [] => lift (Fault OutOfRange)
      | n :: l =>
          add_regular_inputs i (new_regular_fanins n);;
          add_control_inputs i (names_in_order (new_controlling_fanins n));;
          SetNewNodesFanins new_node_indices l
      end
  end.

(** ** Updates of nodes *)

(** Appends regular fanins: each input is exchanged with the first controlling
    one that is left at its place; [curr_control_start] follows the one that was
    first. *)
Fixpoint append_regular (i curr_index curr_control_start : Z) (l : list TensorId) : M Z :=
  match l with
  | [] => mret curr_control_start
  | fanin :: l =>
      AddRegularFaninInternal i fanin;;
      d ← node_def_at i;
      let input' := input d ++ [SafeTensorIdToString fanin] in
      input'' ← lift (swap_elements input' curr_index (size_ input' - 1));
      update_node_def i (set_input input'');;
      append_regular i (curr_index + 1)
        (if curr_control_start =? curr_index then size_ input' - 1 else curr_control_start) l
  end.

(** [std::rotate(first, middle, end)] *)
Definition rotate_from (first middle : Z) (l : list string) : list string :=
  take (Z.to_nat first) l ++ drop (Z.to_nat middle) l ++ drop (Z.to_nat first) (take (Z.to_nat middle) l).
Definition delete_subrange (first n : Z) (l : list string) : list string :=
  take (Z.to_nat first) l ++ drop (Z.to_nat (first + n)) l.

Definition update_fields (diff : D) (attrs : gmap string AttrValue) (d : NodeDef AttrValue) : NodeDef AttrValue :=
  mk_NodeDef (address d) (name d) (if update_op diff then diff_op diff else op d)
    (if update_device diff then diff_device diff else device d) (input d) attrs.

Definition trailing (first n : Z) : list Z := map (Z.add first) (count_up n).

Definition apply_regular (i : Z) (diff : D) : M unit :=
  if 0 <? num_regular_inputs_to_remove diff then
    v ← node_at i;
    let first_index := NumRegularFanins v - num_regular_inputs_to_remove diff in
    remove_regular_fanouts i (trailing first_index (num_regular_inputs_to_remove diff));;
    update_node i (fun v => set_regular_fanins (take (Z.to_nat first_index) (regular_fanins_ v)) v);;
    v ← node_at i;
    update_node_def i (fun d => set_input (delete_subrange (NumRegularFanins v) (num_regular_inputs_to_remove diff) (input d)) d)
  else if 0 <? num_regular_inputs_to_add diff then
    v ← node_at i;
    curr_control_start ← append_regular i (NumRegularFanins v) (NumRegularFanins v) (regular_inputs_to_add diff);
    v ← node_at i;
    if (1 <? NumControllingFanins v) && negb (curr_control_start =? NumRegularFanins v) then
      update_node_def i (fun d => set_input (rotate_from (NumRegularFanins v) curr_control_start (input d)) d)
    else mret tt
  else mret tt.

Fixpoint apply_regular_updates (i : Z) (l : list (Z * TensorId)) : M unit :=
  match l with
  | [] => mret tt
  | (k, fanin) :: l =>
      UpdateRegularFaninInternal i k fanin;;
      d ← node_def_at i;
      lift (at_ (input d) k);;
      update_node_def i (fun d => set_input (vset (input d) k (SafeTensorIdToString fanin)) d);;
      apply_regular_updates i l
  end.

Definition apply_diff (u : Z) : M unit :=
  diff ← diff_at u;
  let '(empty, diff) := Diff.IsEmpty diff in
  set_diff u diff;;
  if empty : bool then mret tt
  else
    let i := diff_node_index diff in
    update_node i (set_update_index kMissingIndex);;
    set_diff u (Diff.set_node_index kMissingIndex diff);;
    processed ← lift (in_range (processed_attrs diff));
    update_node_def i (update_fields diff processed);;
    apply_regular i diff;;
    apply_regular_updates i (sorted_entries (regular_inputs_to_update diff));;
    RemoveControllingFaninInternal i (rev (sorted_indices (controlling_inputs_to_remove diff)));;
    add_control_inputs i (names_in_order (controlling_inputs_to_add diff)).

Fixpoint apply_diffs (l : list Z) : M unit :=
  match l with [] => mret tt | u :: l => apply_diff u;; apply_diffs l end.

Definition ApplyNodeUpdates : M unit :=
  g ← get; apply_diffs (count_up (size_ (updated_nodes_ (mutation_ g)))).

(** ** Removal *)

Fixpoint disconnect_overwritten (renamed_nodes : list RenamedOrOverwrittenNode) : M (list Z) :=
  match renamed_nodes with
  | [] => mret []
  | renamed :: renamed_nodes =>
      if overwritten_node_index_ renamed =? kMissingIndex then disconnect_overwritten renamed_nodes
      else RemoveAllFaninFanoutInternal (overwritten_node_index_ renamed);;
           overwritten_nodes ← disconnect_overwritten renamed_nodes;
           mret (overwritten_node_index_ renamed :: overwritten_nodes)
  end.

Fixpoint disconnect_removed (overwritten_name_removed_nodes : list bool) (l : list Z) : M unit :=
  match l with
  | [] => mret tt
  | node_index :: l =>
      RemoveAllFaninFanoutInternal node_index;;
      overwritten ← lift (at_ overwritten_name_removed_nodes node_index);
      (if overwritten : bool then mret tt else node_name ← get_name node_index; erase_name node_name);;
      disconnect_removed overwritten_name_removed_nodes l
  end.

(** The loops over the entries of the last node: their other ends learn its new
    index. *)
Fixpoint move_regular_fanins (i : Z) (l : list MutableFanoutView) : M unit :=
  match l with
  | [] => mret tt
  | w :: l => update_regular_fanout (fanout_node_index w) (fanout_port_index w) (fanout_index_ w) (set_fanout_node i);; move_regular_fanins i l
  end.
Fixpoint move_controlling_fanins (i : Z) (l : list MutableFanoutView) : M unit :=
  match l with
  | [] => mret tt
  | w :: l => update_controlled_fanout (fanout_node_index w) (fanout_index_ w) (set_fanout_node i);; move_controlling_fanins i l
  end.
Fixpoint move_regular_fanouts (i : Z) (l : list MutableFaninView) : M unit :=
  match l with
  | [] => mret tt
  | w :: l => update_regular_fanin (fanin_node_index w) (fanin_index_ w) (set_fanin_node i);; move_regular_fanouts i l
  end.
Fixpoint move_controlled_fanouts (i : Z) (l : list MutableFaninView) : M unit :=
  match l with
  | [] => mret tt
  | w :: l => update_controlling_fanin (fanin_node_index w) (fanin_index_ w) (set_fanin_node i);; move_controlled_fanouts i l
  end.

Definition remove_node (removed_node_index : Z) : M unit :=
  g ← get;
  let last := size_ (nodes_ g) - 1 in
  last_node ← node_at last;
  (if removed_node_index <? node_index_ last_node then
     update_node last (set_view_node_index removed_node_index);;
     v ← node_at last;
     move_regular_fanins removed_node_index (regular_fanins_ v);;
     v ← node_at last;
     move_controlling_fanins removed_node_index (controlling_fanins_ v);;
     v ← node_at last;
     move_regular_fanouts removed_node_index (concat (regular_fanouts_by_port_ v));;
     v ← node_at last;
     move_controlled_fanouts removed_node_index (controlled_fanouts_ v);;
     g ← get;
     nodes' ← lift (swap_elements (nodes_ g) last removed_node_index);
     modify (set_nodes nodes');;
     graph' ← lift (swap_elements (graph g) last removed_node_index);
     modify (set_graph graph');;
     node_name ← get_name removed_node_index;
     g ← get;
     lift (in_range (node_index_by_name_ g !! node_name));;
     modify (set_node_index_by_name (<[node_name := removed_node_index]> (node_index_by_name_ g)))
   else mret tt);;
  g ← get;
  nodes' ← lift (pop_back (nodes_ g));
  modify (set_nodes nodes').

Fixpoint remove_nodes (l : list Z) : M unit :=
  match l with [] => mret tt | i :: l => remove_node i;; remove_nodes l end.

Definition RemoveNodesInternal (renamed_nodes : list RenamedOrOverwrittenNode) (overwritten_name_removed_nodes : list bool) : M unit :=
  overwritten_nodes ← disconnect_overwritten renamed_nodes;
  g ← get;
  let removed := removed_nodes_ (mutation_ g) in
  disconnect_removed overwritten_name_removed_nodes (indices_in_order removed);;
  let sorted_node_indices_to_remove := sorted_indices (removed ∪ list_to_set overwritten_nodes) in
  remove_nodes (rev sorted_node_indices_to_remove);;
  if bool_decide (sorted_node_indices_to_remove = []) then mret tt
  else modify (fun g => set_graph (take (Z.to_nat (size_ (graph g) - size_ sorted_node_indices_to_remove)) (graph g)) g).

(** ** The whole *)

Definition ApplyMutationInternal : M Status :=
  r ← ValidateInternal;
  match r with
  | inl status => mret status
  | inr p =>
      clear_update_indices (p_empty_diff_node_indices p);;
      r ← FixRenamedNodes (p_renamed_nodes p);
      g ← get;
      '(renamed_fanouts, new_node_indices) ← AddNewNodes (new_nodes_ (mutation_ g)) (rn_fanouts r) [];
      FixRenamedFanouts (entries_in_order renamed_fanouts);;
      ApplyNodeUpdates;;
      SetNewNodesFanins new_node_indices (new_nodes_ (mutation_ g));;
      RemoveNodesInternal (rn_nodes r) (rn_overwritten r);;
      ResetInternal;;
      modify_mutation (fun m => mk_Mutation (mutation_counter_ m + 1) (updated_nodes_ m) (removed_nodes_ m) (new_nodes_ m));;
      mret Status_OK
  end.

(** [Mutation::Apply] *)
Definition Apply : M Status := ApplyMutationInternal.
End apply.
