(* ===== verification/GraphUpdate.v ===== *)
(** * GraphUpdate: what [ApplyNodeUpdates] does to a node

    The diff of a node, once validated, gives the node the content that the diff
    denotes and leaves the other nodes alone. *)

From S2P Require Import Prelude TensorName Vec GraphView GraphInv GraphEdit GraphEditProofs GraphBuild GraphBulk HashOrder GraphDiff GraphContent GraphWellFormed GraphMutation GraphMutationProofs GraphValidate GraphValidateProofs GraphApply.
#[local] Open Scope string_scope.
#[local] Open Scope list_scope.
#[local] Open Scope Z_scope.

(** ** Changes of the fanins of one node

    The steps by which [Apply] changes a node keep the view consistent, inputs
    included, and change the fanins of that node in the intended way. *)

Section steps.
  Context {AttrValue : Type}.
  #[local] Notation G := (MutableGraphView AttrValue).
  Implicit Type g : G.

(** [g'] differs from [g] in the fanins of node [i], whose ends change by [FR] and
    [FC], and in the texts of its inputs. *)
Definition node_step g g' (i : Z) (FR FC : list (Z * Z) -> list (Z * Z)) : Prop :=
  exists FI, edit_step g g' i FR FC FI.

Lemma node_step_trans g g1 g2 i FR FC FR' FC' : node_step g g1 i FR FC -> node_step g1 g2 i FR' FC' ->
  node_step g g2 i (fun l => FR' (FR l)) (fun l => FC' (FC l)).
Proof. intros [FI H] [FI' H']. eexists. by eapply edit_step_trans. Qed.

Lemma node_step_ext g g' i v FR FC FR' FC' : node_step g g' i FR FC -> vget (nodes_ g) i = Some v ->
  FR' (map ends (regular_fanins_ v)) = FR (map ends (regular_fanins_ v)) ->
  FC' (map ends (controlling_fanins_ v)) = FC (map ends (controlling_fanins_ v)) -> node_step g g' i FR' FC'.
Proof.
  intros [FI H] Hv Hr Hc. exists FI. eapply edit_step_ext; [exact H| |done]. intros u Hu. by simplify_eq.
Qed.

Lemma edit_step_refl g i : edit_step g g i id id id.
Proof.
  split; try done.
  - intros x v Hv. exists v. split_and!; try done; by case_bool_decide.
  - intros x d Hd. rewrite Hd. case_bool_decide; [|done]. by destruct d.
Qed.

Lemma node_step_refl g i : node_step g g i id id.
Proof. exists id. apply edit_step_refl. Qed.

Lemma node_step_node g g' i FR FC v : node_step g g' i FR FC -> vget (nodes_ g) i = Some v ->
  exists v', vget (nodes_ g') i = Some v' /\ map ends (regular_fanins_ v') = FR (map ends (regular_fanins_ v)) /\
    map ends (controlling_fanins_ v') = FC (map ends (controlling_fanins_ v)).
Proof.
  intros [FI H] Hv. destruct (ed_node _ _ _ _ _ _ H i v Hv) as (v' & Hv' & _ & _ & Hr & Hc).
  rewrite bool_decide_true in Hr, Hc by done. eauto.
Qed.

Lemma node_step_names g g' i FR FC : node_step g g' i FR FC -> node_index_by_name_ g' = node_index_by_name_ g.
Proof. intros [FI H]. apply H. Qed.

Lemma edit_node_step g g' i FR FC FI : edit_step g g' i FR FC FI -> node_step g g' i FR FC.
Proof. by exists FI. Qed.

(** ** The texts of the inputs *)

Lemma inputs_split g i d v : view_ok g -> vget (graph g) i = Some d -> vget (nodes_ g) i = Some v ->
  exists TR TC, input d = TR ++ TC /\
    map ParseTensorName TR = map (id_of_ends g) (map ends (regular_fanins_ v)) /\
    map ParseTensorName TC = map (id_of_ends g) (map ends (controlling_fanins_ v)).
Proof.
  intros Hg Hd Hv. pose proof (ok_inputs _ Hg i d v Hd Hv) as Hi. unfold inputs_ok in Hi. rewrite map_app, !fanin_ids_ends in Hi.
  apply map_eq_app in Hi as (TR & TC & -> & Hr & Hc). by exists TR, TC.
Qed.

Lemma view_ok_edit g g' i FR FC FI : core_ok ∅ ∅ g' -> edit_step g g' i FR FC FI -> view_ok g ->
  (forall d v, vget (graph g) i = Some d -> vget (nodes_ g) i = Some v ->
     map ParseTensorName (FI (input d)) =
       map (id_of_ends g) (FR (map ends (regular_fanins_ v)) ++ FC (map ends (controlling_fanins_ v)))) ->
  view_ok g'.
Proof.
  intros Hc Hs Hg Hin. split; [done|]. intros x d' v' Hd' Hv'.
  destruct (vget_ex (nodes_ g) x) as [v Hv]; [rewrite <- (ed_size _ _ _ _ _ _ Hs); by eapply vget_Some|].
  destruct (vget_ex (graph g) x) as [d Hd]; [rewrite <- (ed_graph_size _ _ _ _ _ _ Hs); by eapply vget_Some|].
  destruct (ed_node _ _ _ _ _ _ Hs x v Hv) as (v2 & Hv2 & _ & _ & Hr & Hcc). pose proof (ed_def _ _ _ _ _ _ Hs x d Hd) as Hd2.
  pose proof (edit_same_names _ _ _ _ _ _ Hs) as Hn.
  assert (forall e, id_of_ends g' e = id_of_ends g e) as Hid by (intros e; unfold id_of_ends; by rewrite Hn).
  simplify_eq. unfold inputs_ok. rewrite fanin_ids_ends, map_app, Hr, Hcc, (map_ext _ _ Hid).
  destruct (decide (x = i)) as [->|Hx].
  - rewrite !(bool_decide_true (i = i)) by done. cbn [input set_input]. by apply Hin.
  - rewrite !(bool_decide_false (x = i)) by done. pose proof (ok_inputs _ Hg x d v Hd Hv) as Hi. unfold inputs_ok in Hi.
    rewrite Hi, fanin_ids_ends, map_app. done.
Qed.

(** ** Fanins by name *)

Definition resolve g (t : TensorId) : Z * Z := (default 0 (node_index_by_name_ g !! node t), index t).
(** [t] names another node than [i], by a text that is read back. *)
Definition resolves g (i : Z) (t : TensorId) : Prop :=
  valid_node_name (node t) = true /\ -1 <= index t < 2 ^ 31 /\ exists j, node_index_by_name_ g !! node t = Some j /\ i <> j.

Lemma resolve_id g i t : core_ok ∅ ∅ g -> resolves g i t -> id_of_ends g (resolve g t) = t.
Proof.
  intros Hg (_ & _ & j & Hj & _). unfold id_of_ends, resolve. rewrite Hj. cbn.
  destruct (name_index_range _ _ _ _ _ Hg Hj) as [_ ->]. by destruct t.
Qed.

Lemma printed_resolve g i t : core_ok ∅ ∅ g -> resolves g i t ->
  ParseTensorName (SafeTensorIdToString t) = id_of_ends g (resolve g t).
Proof. intros Hg Ht. rewrite (resolve_id g i t Hg Ht). destruct Ht as (Hv & Hp & _). by apply parse_printed. Qed.

Lemma resolve_step g g' i t FR FC : node_step g g' i FR FC -> resolve g' t = resolve g t.
Proof. intros Hs. unfold resolve. by rewrite (node_step_names _ _ _ _ _ Hs). Qed.
Lemma resolves_step g g' i t FR FC : node_step g g' i FR FC -> resolves g' i t <-> resolves g i t.
Proof. intros Hs. unfold resolves. by rewrite (node_step_names _ _ _ _ _ Hs). Qed.

(** The inputs of one node are written over. *)
Lemma write_input g g1 i FR FC FI d1 l : core_ok ∅ ∅ g1 -> edit_step g g1 i FR FC FI -> view_ok g -> vget (graph g1) i = Some d1 ->
  (forall d v, vget (graph g) i = Some d -> vget (nodes_ g) i = Some v -> input d1 = FI (input d) ->
     map ParseTensorName l = map (id_of_ends g) (FR (map ends (regular_fanins_ v)) ++ FC (map ends (controlling_fanins_ v)))) ->
  view_ok (set_graph (vset (graph g1) i (set_input l d1)) g1) /\
  node_step g (set_graph (vset (graph g1) i (set_input l d1)) g1) i FR FC.
Proof.
  intros Hc Hs Hg Hd1 Hl. destruct (edit_set_input _ _ _ _ _ l Hc Hd1) as [Hc2 Hs2].
  pose proof (edit_step_trans _ _ _ _ _ _ _ _ _ _ Hs Hs2) as Ht. split; [|by eapply edit_node_step].
  eapply view_ok_edit; [exact Hc2|exact Ht|done|]. cbn beta. intros d v Hd Hv. apply (Hl d v Hd Hv).
  pose proof (ed_def _ _ _ _ _ _ Hs i d Hd) as Hd'. rewrite bool_decide_true in Hd' by done. by simplify_eq.
Qed.

Lemma resolves_index g i t : resolves g i t -> node_index_by_name_ g !! node t = Some (resolve g t).1 /\ i <> (resolve g t).1.
Proof. intros (_ & _ & j & Hj & Hij). unfold resolve. by rewrite Hj. Qed.

Lemma add_regular_inputs_spec i l : forall g v, view_ok g -> vget (nodes_ g) i = Some v -> controlling_fanins_ v = [] ->
  Forall (fun t => resolves g i t /\ 0 <= index t) l ->
  runs (add_regular_inputs i l) g (fun _ g' => view_ok g' /\ node_step g g' i (fun r => r ++ map (resolve g) l) id).
Proof.
  induction l as [|t l IH]; intros g v Hg Hv Hnc Hl; cbn [add_regular_inputs].
  { run_step. split; [done|]. eapply node_step_ext; [apply node_step_refl|done| |done]. cbn. by rewrite app_nil_r. }
  apply Forall_cons in Hl as [[Ht Hp] Hl]. destruct (resolves_index _ _ _ Ht) as [Hj Hij].
  destruct (view_ok_def _ _ _ _ _ Hg Hv) as [d Hd].
  run_step. eapply runs_mono; [eapply (AddRegularFaninInternal_spec ∅ ∅ g i t _ v Hg Hv Hj Hij Hp); set_solver|].
  intros _ g1 [Hc1 Hs1%ends_step_edit]. pose proof (ed_def _ _ _ _ _ _ Hs1 i d Hd) as Hd1.
  rewrite bool_decide_true in Hd1 by done. run_step. eapply runs_update_node_def; [exact Hd1|].
  destruct (write_input g g1 i _ _ _ _ (input (set_input (id (input d)) d) ++ [SafeTensorIdToString t]) Hc1 Hs1 Hg Hd1) as [Hg2 Hs2].
  { intros d' v' Hd' Hv' _. simplify_eq. cbn [input set_input]. unfold id. rewrite map_app, <- app_assoc.
    destruct (inputs_split g i d v Hg Hd Hv) as (TR & TC & -> & Hr & Hc). rewrite Hnc in Hc. apply map_eq_nil in Hc as ->.
    rewrite app_nil_r, Hr, map_app, Hnc. cbn [map app]. f_equal. f_equal.
    exact (printed_resolve g i t Hg Ht). }
  set (g2 := set_graph _ g1) in *. destruct (node_step_node _ _ _ _ _ _ Hs2 Hv) as (v2 & Hv2 & _ & Hcc).
  eapply runs_mono; [apply (IH g2 v2 Hg2 Hv2)|].
  - rewrite Hnc in Hcc. by apply map_eq_nil in Hcc.
  - eapply Forall_impl; [exact Hl|]. intros t' [H1 H2]. split; [|done]. by rewrite (resolves_step _ _ _ _ _ _ Hs2).
  - intros _ g3 [Hg3 Hs3]. split; [done|]. eapply node_step_ext; [exact (node_step_trans _ _ _ _ _ _ _ _ Hs2 Hs3)|done| |done].
    cbn [map]. rewrite <- app_assoc. cbn [app]. f_equal. f_equal. apply map_ext. intros t'. symmetry. by apply (resolve_step _ _ _ _ _ _ Hs2).
Qed.

(** *** Control inputs *)

Definition control_id (s : string) : TensorId := mk_TensorId s kControlSlot.

Lemma node_step_name_of g g' i FR FC x : node_step g g' i FR FC -> name_of g' x = name_of g x.
Proof. intros [FI H]. by apply (edit_same_names _ _ _ _ _ _ H). Qed.

Lemma control_index_None g i v s : view_ok g -> vget (nodes_ g) i = Some v ->
  controlling_fanins_index_ v !! s = None <-> forall e, e ∈ map ends (controlling_fanins_ v) -> name_of g e.1 <> s.
Proof.
  intros Hg Hv. pose proof (ok_control_index _ _ _ _ _ (ok_index_ok _ _ _ Hg i v Hv) s) as Hi. split.
  - intros Hn e (w & -> & [k Hk]%elem_of_vget)%list_elem_of_fmap <-.
    assert (controlling_fanins_index_ v !! name_of g (ends w).1 = Some k) as E; [|congruence].
    apply Hi. exists w. split_and!; [done|set_solver|done].
  - intros H. destruct (controlling_fanins_index_ v !! s) as [k|] eqn:E; [|done]. exfalso.
    destruct (proj1 (Hi k) eq_refl) as (w & Hw & _ & Hn). apply (H (ends w)); [|done]. apply list_elem_of_fmap. exists w. split; [done|].
    apply elem_of_vget. eauto.
Qed.

Lemma add_control_inputs_spec i l : forall g v, view_ok g -> vget (nodes_ g) i = Some v -> NoDup l ->
  (forall s, s ∈ l -> resolves g i (control_id s)) ->
  (forall s e, s ∈ l -> e ∈ map ends (controlling_fanins_ v) -> name_of g e.1 <> s) ->
  runs (add_control_inputs i l) g (fun _ g' => view_ok g' /\
    node_step g g' i id (fun r => r ++ map (fun s => resolve g (control_id s)) l)).
Proof.
  induction l as [|s l IH]; intros g v Hg Hv Hnd Hl Hnew; cbn [add_control_inputs].
  { run_step. split; [done|]. eapply node_step_ext; [apply node_step_refl|done|done|]. cbn. by rewrite app_nil_r. }
  apply NoDup_cons in Hnd as [Hs Hnd]. assert (resolves g i (control_id s)) as Ht by (apply Hl; left).
  destruct (resolves_index _ _ _ Ht) as [Hj Hij]. destruct (view_ok_def _ _ _ _ _ Hg Hv) as [d Hd].
  pose proof (control_printed s ltac:(apply Ht)) as Htext. set (text := SafeTensorIdToString _) in *.
  assert (ParseTensorName text = mk_TensorId s kControlSlot) as Hparse by (apply parse_printed; apply Ht).
  run_step. eapply runs_mono; [eapply (AddControllingFaninInternal_spec ∅ ∅ g i s text _ v d Hg Hv Hd Htext Hparse Hj Hij)|].
  { set_solver. }
  { apply (control_index_None g i v s Hg Hv). intros e He. by apply Hnew; [left|]. }
  intros _ g1 [Hc1 Hs1]. assert (view_ok g1) as Hg1.
  { eapply view_ok_edit; [exact Hc1|exact Hs1|done|]. intros d' v' Hd' Hv'.
    destruct (inputs_split g i d' v' Hg Hd' Hv') as (TR & TC & -> & Hr & Hc). unfold id. rewrite !map_app, Hr, Hc, <- app_assoc.
    cbn [map]. do 3 f_equal. exact (printed_resolve g i _ Hg Ht). }
  apply edit_node_step in Hs1. destruct (node_step_node _ _ _ _ _ _ Hs1 Hv) as (v1 & Hv1 & _ & Hcc).
  eapply runs_mono; [apply (IH g1 v1 Hg1 Hv1 Hnd)|].
  - intros s' Hs'. apply (resolves_step _ _ _ _ _ _ Hs1). apply Hl. by right.
  - intros s' e Hs'. rewrite Hcc, (node_step_name_of _ _ _ _ _ _ Hs1), elem_of_app, list_elem_of_singleton. intros [He| ->].
    + apply (Hnew s' e); [by right|done].
    + cbn [fst]. rewrite (proj2 (name_index_range _ _ _ _ _ Hg Hj)). cbn. intros ->. done.
  - intros _ g3 [Hg3 Hs3]. split; [done|]. eapply node_step_ext; [exact (node_step_trans _ _ _ _ _ _ _ _ Hs1 Hs3)|done|done|].
    cbn [map]. rewrite <- app_assoc. cbn [app]. do 2 f_equal. apply map_ext. intros t'. symmetry. by apply (resolve_step _ _ _ _ _ _ Hs1).
Qed.

(** ** Updated and removed fanins *)

Lemma apply_regular_updates_spec i l : forall g v, view_ok g -> vget (nodes_ g) i = Some v ->
  Forall (fun e => 0 <= e.1 < size_ (regular_fanins_ v) /\ resolves g i e.2 /\ 0 <= index e.2) l ->
  runs (apply_regular_updates i l) g (fun _ g' => view_ok g' /\
    node_step g g' i (fun r => fold_left (fun r e => vset r e.1 (resolve g e.2)) l r) id).
Proof.
  induction l as [|[k t] l IH]; intros g v Hg Hv Hl; cbn [apply_regular_updates].
  { run_step. split; [done|]. apply node_step_refl. }
  apply Forall_cons in Hl as [(Hk & Ht & Hp) Hl]. cbn [fst snd] in *. destruct (resolves_index _ _ _ Ht) as [Hj Hij].
  destruct (view_ok_def _ _ _ _ _ Hg Hv) as [d Hd]. destruct (vget_ex _ _ Hk) as [w Hw].
  run_step. eapply runs_mono; [eapply (UpdateRegularFaninInternal_spec ∅ ∅ g i k t _ v w Hg Hv Hw ltac:(set_solver) Hj Hij Hp)|].
  intros _ g1 [Hc1 Hs1%ends_step_edit]. pose proof (ed_def _ _ _ _ _ _ Hs1 i d Hd) as Hd1.
  rewrite bool_decide_true in Hd1 by done. run_step. eapply runs_node_def_at; [exact Hd1|]. run_step.
  destruct (inputs_split g i d v Hg Hd Hv) as (TR & TC & Hin & Hr & Hc).
  assert (size_ TR = size_ (regular_fanins_ v)) as Hsz.
  { rewrite <- (size_map ParseTensorName), Hr, !size_map. done. }
  destruct (vget_ex (input (set_input (id (input d)) d)) k) as [ik Hik].
  { cbn. unfold id. rewrite Hin. pose proof (size_nonneg TC). unfold size_ in *. rewrite length_app. lia. }
  eapply runs_at; [exact Hik|]. run_step. eapply runs_update_node_def; [exact Hd1|].
  destruct (write_input g g1 i _ _ _ _ (vset (input (set_input (id (input d)) d)) k (SafeTensorIdToString t)) Hc1 Hs1 Hg Hd1) as [Hg2 Hs2].
  { intros d' v' Hd' Hv' _. simplify_eq. cbn [input set_input]. unfold id. rewrite Hin, vset_app_l by lia.
    rewrite !map_app, map_vset, Hr, Hc, map_vset. do 2 f_equal. exact (printed_resolve g i t Hg Ht). }
  set (g2 := set_graph _ g1) in *. destruct (node_step_node _ _ _ _ _ _ Hs2 Hv) as (v2 & Hv2 & Hrr & _).
  eapply runs_mono; [apply (IH g2 v2 Hg2 Hv2)|].
  - eapply Forall_impl; [exact Hl|]. intros [k' t'] (H1 & H2 & H3). split; [|by rewrite (resolves_step _ _ _ _ _ _ Hs2)].
    rewrite <- (size_map ends), Hrr, size_vset, size_map. done.
  - intros _ g3 [Hg3 Hs3]. split; [done|]. eapply node_step_ext; [exact (node_step_trans _ _ _ _ _ _ _ _ Hs2 Hs3)|done| |done].
    cbn [fold_left fst snd]. change (index t) with (resolve g t).2. rewrite <- surjective_pairing.
    generalize (vset (map ends (regular_fanins_ v)) k (resolve g t)). clear -Hs2.
    induction l as [|[k' t'] l IH]; intros r; cbn [fold_left]; [done|]. cbn [fst snd].
    rewrite (resolve_step _ _ _ _ _ _ Hs2). apply IH.
Qed.

Lemma elem_of_trailing first n k : k ∈ trailing first n <-> first <= k < first + n.
Proof.
  unfold trailing. rewrite list_elem_of_fmap. setoid_rewrite elem_of_count_up. split; [intros (c & -> & Hc); lia|].
  intros Hk. exists (k - first). lia.
Qed.

Lemma delete_trailing {A} (l1 l2 : list A) n : 0 <= n <= size_ l1 ->
  take (Z.to_nat (size_ l1 - n)) (l1 ++ l2) ++ drop (Z.to_nat (size_ l1 - n + n)) (l1 ++ l2) =
  take (Z.to_nat (size_ l1 - n)) l1 ++ l2.
Proof.
  unfold size_. intros Hn. rewrite take_app_le by lia. f_equal. rewrite drop_app_ge by lia.
  replace (Z.to_nat _ - length l1)%nat with 0%nat by lia. done.
Qed.

Lemma truncate_spec {D} (diff : NodeViewDiff D) g i v : view_ok g -> vget (nodes_ g) i = Some v ->
  let n := num_regular_inputs_to_remove diff in 0 < n <= size_ (regular_fanins_ v) ->
  let first_index := NumRegularFanins v - n in
  runs (remove_regular_fanouts i (trailing first_index n);;
        update_node i (fun v => set_regular_fanins (take (Z.to_nat first_index) (regular_fanins_ v)) v);;
        v ← node_at i;
        update_node_def i (fun d => set_input (delete_subrange (NumRegularFanins v) n (input d)) d))
    g (fun _ g' => view_ok g' /\ node_step g g' i (take (Z.to_nat (size_ (regular_fanins_ v) - n))) id).
Proof.
  intros Hg Hv n Hn first. assert (first = size_ (regular_fanins_ v) - n) as Hf by done.
  destruct (view_ok_def _ _ _ _ _ Hg Hv) as [d Hd].
  run_step. eapply runs_mono; [eapply (remove_regular_fanouts_spec ∅ i _ ∅ g v Hg Hv)|].
  { unfold trailing. apply NoDup_fmap_2; [intros ?? ?; lia|apply NoDup_count_up]. }
  { apply Forall_forall. intros k Hk%elem_of_trailing. split; [lia|set_solver]. }
  intros _ g1 [Hc1 Hs1]. destruct (es_node _ _ _ _ _ Hs1 i v Hv) as (v1 & Hv1 & _ & _ & Hr1 & _).
  rewrite bool_decide_true in Hr1 by done. pose proof (ends_size _ _ Hr1) as Hsz.
  run_step. eapply runs_update_node; [exact Hv1|].
  destruct (core_truncate_regular (holes_of i (trailing first n) ∪ ∅) ∅ ∅ g1 i v1 first Hc1 Hv1) as [Hc2 Hs2]; [lia| | |].
  { intros k Hk. apply elem_of_union. left. apply elem_of_holes. split; [done|]. apply elem_of_trailing. lia. }
  { intros x y. rewrite elem_of_union, elem_of_holes, elem_of_trailing. split; [set_solver|]. intros [[[-> Hy]|Hy] [H|H]]; [done|lia|done..]. }
  set (g2 := set_nodes _ g1) in *. pose proof (edit_step_trans _ _ _ _ _ _ _ _ _ _ (ends_step_edit _ _ _ _ _ Hs1) (ends_step_edit _ _ _ _ _ Hs2)) as Hs.
  assert (vget (nodes_ g2) i = Some (set_regular_fanins (take (Z.to_nat first) (regular_fanins_ v1)) v1)) as Hv2
    by (cbn; rewrite vget_vset_eq; [done|by eapply vget_Some]).
  run_step. eapply runs_node_at; [exact Hv2|].
  assert (NumRegularFanins (set_regular_fanins (take (Z.to_nat first) (regular_fanins_ v1)) v1) = first) as ->.
  { unfold NumRegularFanins. cbn. unfold size_ in *. rewrite length_take. lia. }
  pose proof (ed_def _ _ _ _ _ _ Hs i d Hd) as Hd2. rewrite bool_decide_true in Hd2 by done.
  eapply runs_update_node_def; [exact Hd2|].
  destruct (write_input g g2 i _ _ _ _ (delete_subrange first n (input (set_input (id (id (input d))) d))) Hc2 Hs Hg Hd2) as [Hg3 Hs3].
  { intros d' v' Hd' Hv' _. simplify_eq. cbn [input set_input]. unfold id.
    destruct (inputs_split g i d v Hg Hd Hv) as (TR & TC & -> & Hr & Hc).
    assert (size_ TR = size_ (regular_fanins_ v)) as Ht by (by rewrite <- (size_map ParseTensorName), Hr, !size_map).
    unfold delete_subrange, NumRegularFanins. rewrite <- Ht, delete_trailing by lia. rewrite !map_app, <- firstn_map, Hr, Hc, <- !firstn_map. done. }
  split; [exact Hg3|]. rewrite Hf in Hs3. exact Hs3.
Qed.

Lemma remove_controls_spec i ks g v : view_ok g -> vget (nodes_ g) i = Some v -> StronglySorted Z.gt ks ->
  Forall (fun k => 0 <= k < size_ (controlling_fanins_ v)) ks ->
  runs (RemoveControllingFaninInternal i ks) g (fun _ g' => view_ok g' /\ node_step g g' i id (remove_indices ks)).
Proof.
  intros Hg Hv Hs Hks. destruct (view_ok_def _ _ _ _ _ Hg Hv) as [d Hd].
  destruct (inputs_split g i d v Hg Hd Hv) as (TR & TC & Hin & Hr & Hc).
  assert (size_ TR = size_ (regular_fanins_ v)) as Htr by (by rewrite <- (size_map ParseTensorName), Hr, !size_map).
  assert (size_ TC = size_ (controlling_fanins_ v)) as Htc by (by rewrite <- (size_map ParseTensorName), Hc, !size_map).
  eapply runs_mono; [eapply (RemoveControllingFaninInternal_spec ∅ ∅ i ks g v d Hg Hv)|]; try done.
  { rewrite Hin. unfold size_ in *. rewrite length_app. lia. }
  intros _ g' [Hc' Hs']. split; [|by eapply edit_node_step].
  eapply view_ok_edit; [exact Hc'|exact Hs'|done|]. intros d' v' Hd' Hv'. simplify_eq. unfold id.
  rewrite Hin, <- Htr, remove_indices_app by (by rewrite ?Htc). by rewrite !map_app, !map_remove_indices, Hr, Hc.
Qed.

(** *** Appended fanins

    While regular fanins are appended, the controlling inputs [A ++ B] are a
    rotation of those that were there, [B ++ A]; the first of them stands at
    [curr_control_start]. *)

Definition rotated (start first : Z) (A B : list string) : Prop := A ++ B <> [] -> B <> [] /\ start = first + size_ A.

Lemma append_turn (TR A B : list string) x start : rotated start (size_ TR) A B ->
  let input' := TR ++ A ++ B ++ [x] in
  exists A' B', swap_elements input' (size_ TR) (size_ input' - 1) = Ok (TR ++ [x] ++ A' ++ B') /\ B' ++ A' = B ++ A /\
    rotated (if start =? size_ TR then size_ input' - 1 else start) (size_ TR + 1) A' B'.
Proof.
  intros Hrot input'. pose proof (size_nonneg TR) as Hr.
  assert (forall y (M : list string), A ++ B = y :: M -> swap_elements input' (size_ TR) (size_ input' - 1) = Ok (TR ++ [x] ++ M ++ [y])) as Hswap.
  { intros y M HM. assert (input' = TR ++ y :: M ++ [x]) as -> by (unfold input'; by rewrite (app_assoc A), HM).
    etrans; [|exact (swap_with_last TR M y x)]. f_equal. rewrite size_app, size_cons, size_snoc. lia. }
  destruct A as [|a A].
  - cbn [app] in *. destruct B as [|b B].
    + exists [], []. split; [|split; [done|by intros []]]. unfold input'. cbn [app]. rewrite size_snoc.
      replace (size_ TR + 1 - 1) with (size_ TR) by lia.
      rewrite (swap_elements_spec _ _ _ x x) by (apply vget_middle). f_equal. by rewrite !vset_middle.
    + exists B, [b]. split; [by apply Hswap|]. split; [by rewrite app_nil_r|]. intros _. split; [done|].
      destruct (Hrot ltac:(done)) as [_ ->]. rewrite (proj2 (Z.eqb_eq _ _)) by (unfold size_; cbn; lia).
      unfold input'. cbn [app]. rewrite size_app, size_cons, size_snoc. lia.
  - exists A, (B ++ [a]). split; [rewrite (Hswap a (A ++ B) eq_refl); by rewrite <- app_assoc|]. split; [by rewrite <- app_assoc|].
    intros _. split; [by destruct B|]. destruct (Hrot ltac:(done)) as [_ ->]. pose proof (size_nonneg A). rewrite size_cons.
    rewrite (proj2 (Z.eqb_neq _ _)) by lia. lia.
Qed.


Lemma rotate_back (P A B : list string) n : size_ P = n -> rotate_from n (n + size_ A) (P ++ A ++ B) = P ++ B ++ A.
Proof.
  intros <-. unfold rotate_from, size_. replace (Z.to_nat (Z.of_nat (length P) + Z.of_nat (length A))) with (length P + length A)%nat by lia.
  rewrite Nat2Z.id, take_app_length, drop_app_add, drop_app_length. do 2 f_equal.
  rewrite app_assoc, take_app_le by (rewrite length_app; lia). rewrite take_ge by (rewrite length_app; lia). apply drop_app_length.
Qed.

Lemma append_regular_spec i l : forall g v d TR A B start, core_ok ∅ ∅ g -> vget (nodes_ g) i = Some v -> vget (graph g) i = Some d ->
  input d = TR ++ A ++ B -> rotated start (size_ TR) A B ->
  Forall (fun t => resolves g i t /\ 0 <= index t) l ->
  runs (append_regular i (size_ TR) start l) g (fun start' g' => core_ok ∅ ∅ g' /\ exists A' B', B' ++ A' = B ++ A /\
    rotated start' (size_ TR + size_ l) A' B' /\
    edit_step g g' i (fun r => r ++ map (resolve g) l) id (fun _ => TR ++ map SafeTensorIdToString l ++ A' ++ B')).
Proof.
  induction l as [|t l IH]; intros g v d TR A B start Hg Hv Hd Hin Hrot Hl; cbn [append_regular].
  { run_step. split; [done|]. exists A, B. split; [done|]. split; [by rewrite Z.add_0_r|].
    eapply edit_step_ext; [apply edit_step_refl| |].
    - intros u Hu. cbn. by rewrite app_nil_r.
    - intros e He. simplify_eq. by rewrite Hin. }
  apply Forall_cons in Hl as [[Ht Hp] Hl]. destruct (resolves_index _ _ _ Ht) as [Hj Hij].
  run_step. eapply runs_mono; [eapply (AddRegularFaninInternal_spec ∅ ∅ g i t _ v Hg Hv Hj Hij Hp); set_solver|].
  intros _ g1 [Hc1 Hs1%ends_step_edit]. pose proof (ed_def _ _ _ _ _ _ Hs1 i d Hd) as Hd1.
  rewrite bool_decide_true in Hd1 by done. run_step. eapply runs_node_def_at; [exact Hd1|].
  cbn [input set_input]. unfold id at 1 2 3. rewrite Hin, <- !app_assoc.
  destruct (append_turn TR A B (SafeTensorIdToString t) start Hrot) as (A1 & B1 & Hswap & HAB & Hrot1).
  run_step. eapply runs_lift; [exact Hswap|]. run_step. eapply runs_update_node_def; [exact Hd1|].
  destruct (edit_set_input ∅ ∅ g1 i _ (TR ++ [SafeTensorIdToString t] ++ A1 ++ B1) Hc1 Hd1) as [Hc2 Hs2].
  set (g2 := set_graph _ g1) in *. pose proof (edit_step_trans _ _ _ _ _ _ _ _ _ _ Hs1 Hs2) as Hs.
  destruct (ed_node _ _ _ _ _ _ Hs i v Hv) as (v2 & Hv2 & _).
  pose proof (ed_def _ _ _ _ _ _ Hs i d Hd) as Hd2. rewrite bool_decide_true in Hd2 by done.
  assert (size_ (TR ++ [SafeTensorIdToString t]) = size_ TR + 1) as Hsz by apply size_snoc. rewrite <- Hsz in Hrot1 |- *.
  eapply runs_mono; [eapply (IH g2 v2 _ (TR ++ [SafeTensorIdToString t]) A1 B1 _ Hc2 Hv2 Hd2)|].
  - cbn [input set_input]. by rewrite <- app_assoc.
  - exact Hrot1.
  - eapply Forall_impl; [exact Hl|]. intros t' [H1 H2]. split; [|done]. by rewrite (resolves_step _ _ _ _ _ _ (edit_node_step _ _ _ _ _ _ Hs)).
  - intros start' g3 (Hc3 & A' & B' & HAB' & Hrot' & Hs3). split; [done|]. exists A', B'. split; [by rewrite HAB'|].
    rewrite Hsz in Hrot'. split; [by rewrite size_cons; replace (size_ TR + (size_ l + 1)) with (size_ TR + 1 + size_ l) by lia|].
    eapply edit_step_ext; [exact (edit_step_trans _ _ _ _ _ _ _ _ _ _ Hs Hs3)| |].
    + intros u Hu. split; [|done]. cbv beta. unfold id. cbn [map]. rewrite <- app_assoc. cbn [app]. do 2 f_equal. apply map_ext.
      intros t'. symmetry. by apply (resolve_step _ _ _ _ _ _ (edit_node_step _ _ _ _ _ _ Hs)).
    + intros e He. cbn [map]. by rewrite <- !app_assoc.
Qed.

(** The regular fanins are appended, whatever the order of the turns made of the
    controlling inputs: a last rotation brings them back. *)
Lemma append_spec (l : list TensorId) g i v : view_ok g -> vget (nodes_ g) i = Some v ->
  Forall (fun t => resolves g i t /\ 0 <= index t) l ->
  runs (v ← node_at i;
        curr_control_start ← append_regular i (NumRegularFanins v) (NumRegularFanins v) l;
        v ← node_at i;
        if (1 <? NumControllingFanins v) && negb (curr_control_start =? NumRegularFanins v) then
          update_node_def i (fun d => set_input (rotate_from (NumRegularFanins v) curr_control_start (input d)) d)
        else mret tt) g
    (fun _ g' => view_ok g' /\ node_step g g' i (fun r => r ++ map (resolve g) l) id).
Proof.
  intros Hg Hv Hl. destruct (view_ok_def _ _ _ _ _ Hg Hv) as [d Hd].
  destruct (inputs_split g i d v Hg Hd Hv) as (TR & TC & Hin & Hr & Hc).
  assert (size_ TR = NumRegularFanins v) as Htr by (unfold NumRegularFanins; by rewrite <- (size_map ParseTensorName), Hr, !size_map).
  assert (size_ TC = size_ (controlling_fanins_ v)) as Htc by (by rewrite <- (size_map ParseTensorName), Hc, !size_map).
  run_step. eapply runs_node_at; [done|]. rewrite <- Htr. run_step.
  eapply runs_mono; [apply (append_regular_spec i l g v d TR [] TC (size_ TR) Hg Hv Hd Hin)|]; [|done|].
  { intros HT. split; [done|]. unfold size_ at 3; cbn. lia. }
  intros start g1 (Hc1 & A & B & HAB & Hrot & Hs1). rewrite app_nil_r in HAB.
  destruct (ed_node _ _ _ _ _ _ Hs1 i v Hv) as (v1 & Hv1 & _ & _ & Hr1 & Hcc1). rewrite bool_decide_true in Hr1, Hcc1 by done.
  pose proof (ed_def _ _ _ _ _ _ Hs1 i d Hd) as Hd1. rewrite bool_decide_true in Hd1 by done.
  assert (NumRegularFanins v1 = size_ TR + size_ l) as Hn1.
  { unfold NumRegularFanins. rewrite <- (size_map ends), Hr1, size_app, !size_map. unfold NumRegularFanins in Htr. lia. }
  assert (NumControllingFanins v1 = size_ A + size_ B) as Hc1n.
  { unfold NumControllingFanins. rewrite <- (size_map ends), Hcc1. unfold id. rewrite size_map, <- Htc, <- HAB, size_app. lia. }
  assert (forall d' v' X, vget (graph g) i = Some d' -> vget (nodes_ g) i = Some v' -> X = TC ->
     map ParseTensorName (TR ++ map SafeTensorIdToString l ++ X) =
     map (id_of_ends g) ((map ends (regular_fanins_ v') ++ map (resolve g) l) ++ id (map ends (controlling_fanins_ v')))) as Htext.
  { intros d' v' X Hd' Hv' ->. rewrite Hv in Hv'. injection Hv' as <-. unfold id. rewrite !map_app, Hr, Hc, <- app_assoc. do 2 f_equal.
    rewrite !map_map. apply map_ext_in. intros t Ht%list_elem_of_In. rewrite Forall_forall in Hl. destruct (Hl t Ht) as [H1 _].
    exact (printed_resolve g i t Hg H1). }
  run_step. eapply runs_node_at; [exact Hv1|]. rewrite Hn1, Hc1n.
  pose proof (size_nonneg A). pose proof (size_nonneg B).
  destruct ((1 <? size_ A + size_ B) && negb (start =? size_ TR + size_ l)) eqn:E.
  - apply andb_true_iff in E as [E1%Z.ltb_lt E2%negb_true_iff%Z.eqb_neq]. eapply runs_update_node_def; [exact Hd1|].
    assert (A ++ B <> []) as Hne by (intros E0%(f_equal size_); rewrite size_app in E0; unfold size_ at 3 in E0; cbn in E0; lia).
    destruct (Hrot Hne) as [_ ->].
    assert (rotate_from (size_ TR + size_ l) (size_ TR + size_ l + size_ A) (TR ++ map SafeTensorIdToString l ++ A ++ B) =
            TR ++ map SafeTensorIdToString l ++ TC) as Hrf.
    { rewrite <- HAB, !(app_assoc TR). apply rotate_back. by rewrite size_app, size_map. }
    destruct (write_input g g1 i _ _ _ _ (TR ++ map SafeTensorIdToString l ++ TC) Hc1 Hs1 Hg Hd1) as [Hg2 Hs2].
    { intros d' v' Hd' Hv' _. by apply (Htext d' v' TC). }
    cbn [input set_input]. rewrite Hrf. by split.
  - run_step. split; [|by eapply edit_node_step]. eapply view_ok_edit; [exact Hc1|exact Hs1|done|].
    intros d' v' Hd' Hv'. apply (Htext d' v' _ Hd' Hv'). rewrite <- HAB.
    apply andb_false_iff in E as [E%Z.ltb_ge|E%negb_false_iff%Z.eqb_eq].
    + destruct A as [|a A]; [by rewrite app_nil_r|]. rewrite size_cons in E. destruct B as [|b B]; [by rewrite app_nil_r|].
      rewrite size_cons in E. pose proof (size_nonneg A). pose proof (size_nonneg B). lia.
    + destruct A as [|a A]; [by rewrite app_nil_r|]. destruct (Hrot ltac:(done)) as [_ Hst]. rewrite size_cons in Hst. pose proof (size_nonneg A). lia.
Qed.
End steps.

(** ** What [ApplyNodeUpdates] does to a node *)

Section update.
  Context {AttrValue : Type}.
  #[local] Notation G := (MutableGraphView AttrValue).
  #[local] Notation D := (NodeViewDiff AttrValue).
  Implicit Type g : G.

(** ** Nodes that stay as they are *)

Record same_node g g' (j : Z) : Prop := {
  sn_def : vget (graph g') j = vget (graph g) j;
  sn_node : forall v, vget (nodes_ g) j = Some v -> exists v', vget (nodes_ g') j = Some v' /\ update_index_ v' = update_index_ v /\
    map ends (regular_fanins_ v') = map ends (regular_fanins_ v) /\ map ends (controlling_fanins_ v') = map ends (controlling_fanins_ v)
}.

(** The same names at the same indices, and the same nodes but those of [P]. *)
Record same_but (P : Z -> Prop) g g' : Prop := {
  sb_names : node_index_by_name_ g' = node_index_by_name_ g;
  sb_size : size_ (nodes_ g') = size_ (nodes_ g);
  sb_name_of : forall j, name_of g' j = name_of g j;
  sb_same : forall j, ~ P j -> same_node g g' j
}.

Lemma same_node_refl g j : same_node g g j.
Proof. split; [done|]. eauto. Qed.
Lemma same_node_trans g1 g2 g3 j : same_node g1 g2 j -> same_node g2 g3 j -> same_node g1 g3 j.
Proof.
  intros [H1 H2] [H3 H4]. split; [congruence|]. intros v Hv. destruct (H2 v Hv) as (v2 & Hv2 & ? & ? & ?).
  destruct (H4 v2 Hv2) as (v3 & Hv3 & ? & ? & ?). exists v3. split_and!; congruence.
Qed.

Lemma same_but_refl P g : same_but P g g.
Proof. split; try done. intros j _. apply same_node_refl. Qed.
Lemma same_but_trans P g1 g2 g3 : same_but P g1 g2 -> same_but P g2 g3 -> same_but P g1 g3.
Proof.
  intros [] []. split; try congruence. intros j Hj. eapply same_node_trans; eauto.
Qed.
Lemma same_but_mono (P P' : Z -> Prop) g g' : same_but P g g' -> (forall j, P j -> P' j) -> same_but P' g g'.
Proof. intros [] H. split; try done. intros j Hj. auto. Qed.

Lemma node_step_same g g' i FR FC : node_step g g' i FR FC -> same_but (fun j => j = i) g g'.
Proof.
  intros Hs. pose proof Hs as [FI H]. split; [apply H|apply H|intros j; by eapply node_step_name_of|].
  intros j Hj. split.
  - destruct (vget (graph g) j) as [d|] eqn:Hd; [rewrite (ed_def _ _ _ _ _ _ H j d Hd); by rewrite bool_decide_false|].
    apply vget_None. rewrite (ed_graph_size _ _ _ _ _ _ H). destruct (decide (0 <= j < size_ (graph g))) as [Hr|]; [|lia].
    destruct (vget_ex _ _ Hr). congruence.
  - intros v Hv. destruct (ed_node _ _ _ _ _ _ H j v Hv) as (v' & Hv' & _ & Hu & Hr & Hc).
    rewrite !bool_decide_false in Hr, Hc by done. by exists v'.
Qed.

(** ** Contents, from the ends of the fanins *)

Lemma vget_fanin_ids g l k : fanin_id g <$> vget l k = id_of_ends g <$> vget (map ends l) k.
Proof. rewrite vget_map. by destruct (vget l k). Qed.

Lemma control_names_ends g v : control_names g v = list_to_set (map (fun e => name_of g e.1) (map ends (controlling_fanins_ v))).
Proof. unfold control_names. by rewrite map_map. Qed.

Section same.
Context (g g' : G) (v v' : MutableNodeView)
  (Hn : forall w, w ∈ regular_fanins_ v ++ controlling_fanins_ v -> name_of g' (fanout_node_index w) = name_of g (fanout_node_index w))
  (Hr : map ends (regular_fanins_ v') = map ends (regular_fanins_ v))
  (Hc : map ends (controlling_fanins_ v') = map ends (controlling_fanins_ v)).

Lemma same_name k w : vget (controlling_fanins_ v) k = Some w -> name_of g' (fanout_node_index w) = name_of g (fanout_node_index w).
Proof. intros Hw. apply Hn, elem_of_app. right. apply elem_of_vget. eauto. Qed.

Lemma same_fanin k : fanin_id g' <$> vget (regular_fanins_ v') k = fanin_id g <$> vget (regular_fanins_ v) k.
Proof.
  rewrite !vget_fanin_ids, Hr, vget_map. destruct (vget (regular_fanins_ v) k) as [w|] eqn:Hw; cbn; [|done].
  unfold id_of_ends. cbn. rewrite Hn; [done|]. apply elem_of_app. left. apply elem_of_vget. eauto.
Qed.

Lemma same_controls : control_names g' v' = control_names g v.
Proof.
  rewrite !control_names_ends, Hc, !map_map. f_equal. apply map_ext_in. intros w [k Hw]%list_elem_of_In%elem_of_vget. by apply (same_name k).
Qed.

Lemma node_content_same d : node_content g' d v' ≡ node_content g d v.
Proof.
  split_and!; try done; cbn.
  - intros k. apply same_fanin.
  - apply same_controls.
Qed.

Lemma same_sizes : NumRegularFanins v' = NumRegularFanins v /\ NumControllingFanins v' = NumControllingFanins v.
Proof. split; by apply ends_size. Qed.

Lemma target_same d (x : D) : target g' d v' x ≡ target g d v x.
Proof.
  destruct same_sizes as [Hs1 Hs2]. split_and!; try done; cbn.
  - intros k. unfold slots, marked. rewrite Hs1. by rewrite same_fanin.
  - f_equal. apply set_eq. intros s. rewrite !elem_of_kept_controls. split.
    + intros (k & w & Hw & Hk & <-). destruct (map_ends_vget _ _ _ _ (eq_sym Hc) Hw) as (w' & Hw' & He). exists k, w'.
      split; [done|]. split; [done|]. unfold ends in He. injection He as E _. rewrite <- E. symmetry. by apply (same_name k).
    + intros (k & w & Hw & Hk & <-). destruct (map_ends_vget _ _ _ _ Hc Hw) as (w' & Hw' & He). exists k, w'.
      split; [done|]. split; [done|]. unfold ends in He. injection He as -> _. by apply (same_name k).
Qed.

Lemma diff_ok_same i (x : D) : view_ok g -> view_ok g' -> vget (nodes_ g) i = Some v -> vget (nodes_ g') i = Some v' ->
  diff_ok v x -> diff_ok v' x.
Proof.
  destruct same_sizes as [Hs1 Hs2]. intros Hg Hg' Hv Hv' [H1 H2 H3 H4 H5 H6 H7 H8]. split; try done; rewrite ?Hs1, ?Hs2; try done.
  - intros k t Hk. unfold marked. rewrite Hs1. by apply (H4 k t).
  - intros s Hs. apply (control_index_None g' i v' s Hg' Hv'). rewrite Hc. intros e He.
    pose proof He as (w & -> & [k Hw]%elem_of_vget)%list_elem_of_fmap. cbn [fst ends]. rewrite (same_name k w Hw).
    exact (proj1 (control_index_None g i v s Hg Hv) (H5 s Hs) (ends w) He).
Qed.
End same.

(** ** The fanins that a diff leads to *)

Section fanins.
Context {HO : HashOrder}.

Lemma elem_of_rev {A} (l : list A) x : x ∈ rev l <-> x ∈ l.
Proof. by rewrite !list_elem_of_In, <- in_rev. Qed.

Lemma descending_sorted s : StronglySorted Z.gt (rev (sorted_indices s)).
Proof.
  pose proof (sorted_indices_sorted s) as H. induction H as [|k l Hs IH Hk]; cbn [rev]; [constructor|].
  apply StronglySorted_snoc; [done|]. apply Forall_forall. intros y Hy. apply (proj1 (elem_of_rev l y)) in Hy.
  rewrite Forall_forall in Hk. specialize (Hk y Hy). lia.
Qed.

Lemma vget_updates {A} (f : TensorId -> A) (m : gmap Z TensorId) (l : list (Z * TensorId)) : forall r,
  (forall e, e ∈ l -> 0 <= e.1 < size_ r /\ m !! e.1 = Some e.2) ->
  forall k, (exists t, (k, t) ∈ l /\ vget (fold_left (fun r e => vset r e.1 (f e.2)) l r) k = Some (f t)) \/
            (forall t, (k, t) ∉ l) /\ vget (fold_left (fun r e => vset r e.1 (f e.2)) l r) k = vget r k.
Proof.
  induction l as [|[k0 t0] l IH]; intros r Hl k; cbn [fold_left]; [right; split; [intros t; apply not_elem_of_nil|done]|].
  destruct (Hl (k0, t0) ltac:(left)) as [Hk0 Hm0]. cbn [fst snd] in *.
  destruct (IH (vset r k0 (f t0))) with (k := k) as [(t & Ht & Hv)|[Hn Hv]].
  { intros e He. rewrite size_vset. apply Hl. by right. }
  - left. exists t. split; [by right|done].
  - rewrite Hv, vget_vset by done. case_bool_decide as E.
    + subst k0. left. exists t0. split; [left|done].
    + right. split; [|done]. intros t [[= -> ->]|H]%elem_of_cons; [done|]. by apply (Hn t).
Qed.

(** The ends of the regular fanins after the three kinds of changes. *)
Definition new_ends g (v : MutableNodeView) (x : D) : list (Z * Z) :=
  fold_left (fun r e => vset r e.1 (resolve g e.2)) (sorted_entries (regular_inputs_to_update x))
    (take (Z.to_nat (NumRegularFanins v - num_regular_inputs_to_remove x)) (map ends (regular_fanins_ v)) ++
     map (resolve g) (regular_inputs_to_add x)).
Definition new_controls g (v : MutableNodeView) (x : D) : list (Z * Z) :=
  remove_indices (rev (sorted_indices (controlling_inputs_to_remove x))) (map ends (controlling_fanins_ v)) ++
  map (fun s => resolve g (control_id s)) (names_in_order (controlling_inputs_to_add x)).

(** The nodes that the diff of node [i] names exist. *)
Record diff_resolves g (i : Z) (x : D) : Prop := {
  dr_add : forall t, t ∈ regular_inputs_to_add x -> resolves g i t;
  dr_update : forall k t, regular_inputs_to_update x !! k = Some t -> resolves g i t;
  dr_controls : forall s, s ∈ controlling_inputs_to_add x -> resolves g i (control_id s)
}.

Section ends.
Context (g : G) (i : Z) (v : MutableNodeView) (d : NodeDef AttrValue) (x : D).
Context (Hg : view_ok g) (Hv : vget (nodes_ g) i = Some v) (Hd : vget (graph g) i = Some d).
Context (Hx : diff_ok v x) (Hgl : gapless x) (Hres : diff_resolves g i x).

Lemma remove_range : 0 <= num_regular_inputs_to_remove x <= NumRegularFanins v.
Proof.
  destruct Hgl as (_ & _ & H). rewrite <- H. split; [apply size_nonneg|]. apply Hx.
Qed.

Lemma update_below k t : regular_inputs_to_update x !! k = Some t ->
  0 <= k < NumRegularFanins v - num_regular_inputs_to_remove x.
Proof.
  intros Hk. destruct (ok_update _ _ Hx k t Hk) as [Hr Hm]. split; [lia|].
  destruct (decide (k < NumRegularFanins v - num_regular_inputs_to_remove x)) as [|Hge]; [done|]. exfalso.
  pose proof (gapless_slots g v x Hx Hgl k) as Hs. unfold slots in Hs. rewrite (proj2 (Z.ltb_lt _ _)), Hm, Hk in Hs by lia.
  unfold new_regular in Hs. pose proof remove_range as Hrr. destruct Hgl as (H1 & H2 & _).
  destruct (decide (0 < num_regular_inputs_to_add x)) as [Ha|Ha].
  - destruct Hgl as (_ & _ & H3). rewrite (H2 Ha) in H3. unfold size_ in H3. cbn in H3. lia.
  - pose proof (size_nonneg (regular_inputs_to_add x)). rewrite vget_None in Hs; [done|]. right. rewrite size_app, size_map, size_count_up by lia. lia.
Qed.

Lemma base_size : size_ (take (Z.to_nat (NumRegularFanins v - num_regular_inputs_to_remove x)) (map ends (regular_fanins_ v))) =
  NumRegularFanins v - num_regular_inputs_to_remove x.
Proof.
  pose proof remove_range. unfold NumRegularFanins, size_ in *. rewrite length_take, length_map. lia.
Qed.

Lemma new_ends_ids : map (id_of_ends g) (new_ends g v x) = new_regular g v x.
Proof.
  pose proof remove_range as Hrr. pose proof base_size as Hbs. apply vget_ext. intros k. rewrite vget_map. unfold new_ends.
  set (n := NumRegularFanins v - num_regular_inputs_to_remove x) in *.
  set (base := take _ _) in *.
  destruct (vget_updates (resolve g) (regular_inputs_to_update x) (sorted_entries (regular_inputs_to_update x))
    (base ++ map (resolve g) (regular_inputs_to_add x))) with (k := k) as [(t & Ht & ->)|[Hn ->]].
  - intros [k' t'] H%elem_of_sorted_entries. split; [|done]. cbn [fst]. rewrite size_app, Hbs.
    pose proof (update_below k' t' H). pose proof (size_nonneg (map (resolve g) (regular_inputs_to_add x))). lia.
  - apply elem_of_sorted_entries in Ht. pose proof (update_below k t Ht) as Hk. cbn [fmap option_fmap option_map].
    unfold new_regular. rewrite vget_app_l by (rewrite size_map, size_count_up by lia; lia).
    rewrite vget_map_count_up, bool_decide_true by done. unfold kept_fanin. rewrite Ht. f_equal.
    eapply (resolve_id g i); [apply Hg|by eapply (dr_update _ _ _ Hres)].
  - assert (regular_inputs_to_update x !! k = None) as Hk.
    { destruct (regular_inputs_to_update x !! k) as [t|] eqn:E; [|done]. exfalso. apply (Hn t). by apply elem_of_sorted_entries. }
    unfold new_regular. destruct (decide (k < n)) as [Hlt|Hge].
    + rewrite !vget_app_l by (rewrite ?size_map, ?size_count_up by lia; lia). rewrite vget_map_count_up.
      unfold base. rewrite vget_take_if by lia. rewrite bool_decide_true by done. case_bool_decide as E.
      * unfold kept_fanin. rewrite Hk, vget_map. destruct (vget_ex (regular_fanins_ v) k) as [w ->]; [unfold NumRegularFanins in *; lia|]. done.
      * rewrite vget_None by lia. done.
    + rewrite !vget_app_r by (rewrite ?size_map, ?size_count_up by lia; lia). rewrite Hbs, size_map, size_count_up by lia. fold n. rewrite vget_map.
      destruct (vget (regular_inputs_to_add x) (k - n)) as [t|] eqn:E; [|done]. cbn [fmap option_fmap option_map]. f_equal.
      eapply (resolve_id g i); [apply Hg|]. apply (dr_add _ _ _ Hres), elem_of_vget. eauto.
Qed.

Lemma new_controls_names : list_to_set (map (fun e => name_of g e.1) (new_controls g v x)) =@{gset string}
  controlling_inputs_to_add x ∪ kept_controls g v x.
Proof.
  apply set_eq. intros s. rewrite elem_of_list_to_set, elem_of_union, elem_of_kept_controls. unfold new_controls.
  rewrite map_app, elem_of_app, !list_elem_of_fmap.
  assert (forall s', s' ∈ controlling_inputs_to_add x -> name_of g (resolve g (control_id s')).1 = s') as Hnew.
  { intros s' Hs'. pose proof (resolve_id g i _ Hg (dr_controls _ _ _ Hres s' Hs')) as H. by injection H. }
  setoid_rewrite elem_of_remove_indices.
  - setoid_rewrite elem_of_rev. setoid_rewrite elem_of_sorted_indices. split.
    + intros [(e & -> & k & Hk & Hnk)|(e & -> & (s' & -> & Hs')%list_elem_of_fmap)].
      * right. rewrite vget_map in Hk. destruct (vget (controlling_fanins_ v) k) as [w|] eqn:Hw; [|done]. injection Hk as <-. exists k, w. done.
      * left. apply elem_of_names_in_order in Hs'. by rewrite Hnew.
    + intros [Hs|(k & w & Hw & Hk & <-)].
      * right. exists (resolve g (control_id s)). split; [by rewrite Hnew|]. apply list_elem_of_fmap. exists s. by rewrite elem_of_names_in_order.
      * left. exists (ends w). split; [done|]. exists k. by rewrite vget_map, Hw.
  - apply descending_sorted.
  - apply Forall_forall. intros k Hk%elem_of_rev%elem_of_sorted_indices. rewrite size_map. by apply (ok_controls_remove _ _ Hx).
Qed.

(** ** One diff *)

Lemma apply_regular_spec : runs (apply_regular i x) g (fun _ g' => view_ok g' /\
  node_step g g' i (fun r => take (Z.to_nat (NumRegularFanins v - num_regular_inputs_to_remove x)) r ++
                             map (resolve g) (regular_inputs_to_add x)) id).
Proof.
  pose proof remove_range as Hrr. pose proof Hgl as (H1 & H2 & H3). unfold apply_regular.
  destruct (Z.ltb_spec 0 (num_regular_inputs_to_remove x)) as [Hr|Hr].
  - run_step. eapply runs_node_at; [done|]. eapply runs_mono; [apply (truncate_spec x g i v Hg Hv); unfold NumRegularFanins in Hrr; lia|].
    intros _ g' [Hg' Hs]. split; [done|]. eapply node_step_ext; [exact Hs|done| |done].
    destruct (decide (0 < num_regular_inputs_to_add x)) as [Ha|Ha].
    + rewrite (H2 Ha) in H3. unfold size_ in H3. cbn in H3. lia.
    + assert (regular_inputs_to_add x = []) as ->; [|cbn [map]; by rewrite app_nil_r].
      destruct (regular_inputs_to_add x) as [|t l]; [done|]. rewrite size_cons in H1. pose proof (size_nonneg l). lia.
  - assert (take (Z.to_nat (NumRegularFanins v - num_regular_inputs_to_remove x)) (map ends (regular_fanins_ v)) = map ends (regular_fanins_ v)) as Htake.
    { apply take_ge. rewrite length_map. unfold NumRegularFanins, size_. lia. }
    assert (forall l, l = regular_inputs_to_add x -> forall g', node_step g g' i (fun r => r ++ map (resolve g) l) id ->
      node_step g g' i (fun r => take (Z.to_nat (NumRegularFanins v - num_regular_inputs_to_remove x)) r ++ map (resolve g) (regular_inputs_to_add x)) id) as Hfin.
    { intros l -> g' Hs. eapply node_step_ext; [exact Hs|done| |done]. cbv beta. by rewrite Htake. }
    destruct (Z.ltb_spec 0 (num_regular_inputs_to_add x)) as [Ha|Ha].
    + eapply runs_mono; [apply (append_spec (regular_inputs_to_add x) g i v Hg Hv)|].
      * apply Forall_forall. intros t Ht. split; [by apply Hres|].
        destruct (ok_ports_add _ _ Hx t Ht) as [->|Hp]; [|apply Hp]. exfalso.
        destruct (dr_add _ _ _ Hres _ Ht) as (Hval & _). done.
      * intros _ g' [Hg' Hs]. split; [done|]. by eapply Hfin.
    + assert (regular_inputs_to_add x = []) as E.
      { destruct (regular_inputs_to_add x) as [|t l]; [done|]. rewrite size_cons in H1. pose proof (size_nonneg l). lia. }
      run_step. split; [done|]. apply (Hfin []); [done|]. eapply node_step_ext; [apply node_step_refl|done| |done].
      cbn. by rewrite app_nil_r.
Qed.

(** The fanins of the changed node. *)
Lemma apply_fanins_spec : runs (apply_regular i x;;
    apply_regular_updates i (sorted_entries (regular_inputs_to_update x));;
    RemoveControllingFaninInternal i (rev (sorted_indices (controlling_inputs_to_remove x)));;
    add_control_inputs i (names_in_order (controlling_inputs_to_add x))) g
  (fun _ g' => view_ok g' /\ node_step g g' i (fun _ => new_ends g v x) (fun _ => new_controls g v x)).
Proof.
  run_step. eapply runs_mono; [apply apply_regular_spec|]. intros _ g1 [Hg1 Hs1].
  destruct (node_step_node _ _ _ _ _ _ Hs1 Hv) as (v1 & Hv1 & Hr1 & Hc1).
  run_step. eapply runs_mono; [apply (apply_regular_updates_spec i _ g1 v1 Hg1 Hv1)|].
  { apply Forall_forall. intros [k t] H%elem_of_sorted_entries. cbn [fst snd]. pose proof (update_below k t H) as Hk.
    split; [|split; [apply (resolves_step _ _ _ _ _ _ Hs1); by eapply (dr_update _ _ _ Hres)|by apply (ok_ports_update _ _ Hx k t H)]].
    rewrite <- (size_map ends), Hr1, size_app, base_size. pose proof (size_nonneg (map (resolve g) (regular_inputs_to_add x))). lia. }
  intros _ g2 [Hg2 Hs2]. pose proof (node_step_trans _ _ _ _ _ _ _ _ Hs1 Hs2) as Hs12.
  destruct (node_step_node _ _ _ _ _ _ Hs2 Hv1) as (v2 & Hv2 & _ & Hc2).
  assert (map ends (controlling_fanins_ v2) = map ends (controlling_fanins_ v)) as Hc by (by rewrite Hc2, Hc1).
  run_step. eapply runs_mono; [apply (remove_controls_spec i _ g2 v2 Hg2 Hv2 (descending_sorted _))|].
  { apply Forall_forall. intros k Hk%elem_of_rev%elem_of_sorted_indices. rewrite (ends_size _ _ Hc). by apply (ok_controls_remove _ _ Hx). }
  intros _ g3 [Hg3 Hs3]. pose proof (node_step_trans _ _ _ _ _ _ _ _ Hs12 Hs3) as Hs13.
  destruct (node_step_node _ _ _ _ _ _ Hs3 Hv2) as (v3 & Hv3 & _ & Hc3).
  eapply runs_mono; [apply (add_control_inputs_spec i _ g3 v3 Hg3 Hv3 (NoDup_names_in_order _))|].
  { intros s Hs%elem_of_names_in_order. apply (resolves_step _ _ _ _ _ _ Hs13). by apply (dr_controls _ _ _ Hres). }
  { intros s e Hs%elem_of_names_in_order He. rewrite (node_step_name_of _ _ _ _ _ _ Hs13).
    apply (proj1 (control_index_None g i v s Hg Hv) (ok_controls_add _ _ Hx s Hs)).
    rewrite Hc3, elem_of_remove_indices, Hc in He; [|apply descending_sorted|].
    - destruct He as (k & Hk & _). apply elem_of_vget. eauto.
    - apply Forall_forall. intros k Hk%elem_of_rev%elem_of_sorted_indices. rewrite Hc, size_map. by apply (ok_controls_remove _ _ Hx). }
  intros _ g4 [Hg4 Hs4]. split; [done|].
  eapply node_step_ext; [exact (node_step_trans _ _ _ _ _ _ _ _ Hs13 Hs4)|done|..]; cbv beta; unfold id.
  - unfold new_ends. assert (forall t, resolve g1 t = resolve g t) as Hrs by (intros t; by apply (resolve_step _ _ _ _ _ _ Hs1)).
    generalize (take (Z.to_nat (NumRegularFanins v - num_regular_inputs_to_remove x)) (map ends (regular_fanins_ v)) ++ map (resolve g) (regular_inputs_to_add x)).
    clear -Hrs. induction (sorted_entries _) as [|e l IH]; intros r; cbn [fold_left]; [done|]. rewrite Hrs. apply IH.
  - unfold new_controls. f_equal. apply map_ext. intros s. symmetry. apply (resolve_step _ _ _ _ _ _ Hs13).
Qed.
End ends.

Lemma view_ok_fields g i d d' : view_ok g -> vget (graph g) i = Some d -> name d' = name d -> address d' = address d ->
  input d' = input d -> view_ok (set_graph (vset (graph g) i d') g) /\ forall j, name_of (set_graph (vset (graph g) i d') g) j = name_of g j.
Proof.
  intros Hg Hd Hn Ha Hi. assert (same_keys g (set_graph (vset (graph g) i d') g)) as Hk.
  { split; [done|]. split; [done|]. cbn [graph set_graph]. split; rewrite map_vset; apply vset_id; rewrite vget_map, Hd; cbn; congruence. }
  assert (forall j, name_of (set_graph (vset (graph g) i d') g) j = name_of g j) as Hname by (intros j; by apply same_keys_name).
  split; [|done]. split; [eapply core_ok_keys; [apply Hg|done]|]. intros j e v. cbn [graph nodes_ set_graph].
  rewrite vget_vset by (by eapply vget_Some). case_bool_decide as E; intros He Hv.
  - injection He as <-. subst j. eapply inputs_ok_ends; [|exact Hname|done|done]. unfold inputs_ok. rewrite Hi. by apply (ok_inputs _ Hg i).
  - eapply inputs_ok_ends; [by apply (ok_inputs _ Hg _ _ _ He Hv)|exact Hname|done|done].
Qed.

Record diff_applied g g' (u : Z) (x : D) (c : content AttrValue) : Prop := {
  da_view : view_ok g';
  da_same : same_but (fun j => j = diff_node_index x) g g';
  da_mutation : mutation_ g' = set_updated_nodes (vset (updated_nodes_ (mutation_ g)) u (Diff.set_node_index kMissingIndex x)) (mutation_ g);
  da_node : exists v' d', vget (nodes_ g') (diff_node_index x) = Some v' /\ vget (graph g') (diff_node_index x) = Some d' /\
    update_index_ v' = kMissingIndex /\ node_content g' d' v' ≡ c
}.

Lemma apply_diff_spec g u x v d : view_ok g -> vget (updated_nodes_ (mutation_ g)) u = Some x ->
  vget (nodes_ g) (diff_node_index x) = Some v -> vget (graph g) (diff_node_index x) = Some d ->
  update_name x = false -> Diff.trim x = x -> is_empty x = false -> processed_attrs x = Some (process_attrs (attr d) x) ->
  diff_ok v x -> gapless x -> diff_resolves g (diff_node_index x) x ->
  runs (apply_diff u) g (fun _ g' => diff_applied g g' u x (target g d v x)).
Proof.
  set (i := diff_node_index x). intros Hg Hux Hv Hd Hname Htrim Hempty Hproc Hx Hgl Hres.
  unfold apply_diff. run_step. eapply runs_diff_at; [exact Hux|]. rewrite IsEmpty_eq, Hempty, Htrim.
  cbv beta iota. run_step. apply runs_set_diff. assert (with_diff g u x = g) as ->.
  { unfold with_diff. rewrite vset_id by done. by destruct g as [? ? ? []]. }
  fold i. run_step. eapply runs_update_node; [exact Hv|]. set (v1 := set_update_index kMissingIndex v).
  set (ga := set_nodes (vset (nodes_ g) i v1) g). assert (same_view g ga) as Hva.
  { split; try done; [by cbn; rewrite size_vset|]. intros j w Hw. cbn [nodes_ ga set_nodes]. rewrite vget_vset by (by eapply vget_Some).
    case_bool_decide; [exists kMissingIndex; subst; by simplify_eq|exists (update_index_ w); by rewrite set_update_index_id]. }
  run_step. apply runs_set_diff. set (gb := with_diff ga u (Diff.set_node_index kMissingIndex x)).
  assert (same_view g gb) as Hvb by (destruct Hva; by split).
  run_step. eapply runs_lift; [by rewrite Hproc|]. run_step. eapply runs_update_node_def; [exact Hd|].
  set (d1 := update_fields x (process_attrs (attr d) x) d).
  destruct (view_ok_fields gb i d d1 (view_ok_same _ _ Hvb Hg) Hd) as [Hgc Hnc]; [done..|].
  set (gc := set_graph (vset (graph gb) i d1) gb) in *.
  assert (vget (nodes_ gc) i = Some v1) as Hvc by (cbn; rewrite vget_vset_eq; [done|by eapply vget_Some]).
  assert (vget (graph gc) i = Some d1) as Hdc by (cbn; rewrite vget_vset_eq; [done|by eapply vget_Some]).
  assert (forall j, name_of gc j = name_of g j) as Hnamec by (intros j; rewrite Hnc; done).
  assert (diff_resolves gc i x) as Hresc by (destruct Hres; by split).
  eapply runs_mono; [apply (apply_fanins_spec gc i v1 x Hgc Hvc (diff_ok_update _ _ _ Hx) Hgl Hresc)|].
  intros _ g' [Hg' Hs]. pose proof Hs as [FI He]. split; [done|..].
  - eapply same_but_trans; [|by eapply node_step_same]. split; [done|by cbn; rewrite size_vset|done|]. intros j Hj. split.
    + cbn. rewrite vget_vset_ne by (by intros <-). done.
    + intros w Hw. exists w. cbn. rewrite vget_vset_ne by (by intros <-). done.
  - rewrite (ed_mutation _ _ _ _ _ _ He). done.
  - destruct (ed_node _ _ _ _ _ _ He i v1 Hvc) as (v' & Hv' & _ & Hu & Hr & Hc). rewrite !bool_decide_true in Hr, Hc by done.
    pose proof (ed_def _ _ _ _ _ _ He i d1 Hdc) as Hd'. rewrite bool_decide_true in Hd' by done.
    exists v', (set_input (FI (input d1)) d1). split; [done|]. split; [done|]. split; [by rewrite Hu|].
    assert (forall e, id_of_ends g' e = id_of_ends g e) as Hid.
    { intros e. unfold id_of_ends. by rewrite (node_step_name_of _ _ _ _ _ _ Hs), Hnamec. }
    assert (new_ends gc v1 x = new_ends g v x) as Er by done. assert (new_controls gc v1 x = new_controls g v x) as Ec by done.
    split_and!; try done.
    + cbn. by rewrite Hname.
    + intros k. cbn [c_regular node_content target]. rewrite (gapless_slots g v x Hx Hgl k), vget_fanin_ids, Hr, Er.
      rewrite <- (new_ends_ids g i v x Hg Hx Hgl Hres), vget_map. destruct (vget _ k); cbn; [by rewrite Hid|done].
    + cbn [c_controls node_content target]. rewrite control_names_ends, Hc, Ec, <- (new_controls_names g i v x Hg Hx Hres). f_equal.
      apply map_ext. intros e. by rewrite (node_step_name_of _ _ _ _ _ _ Hs), Hnamec.
    + cbn [c_attr node_content target]. cbn. apply process_attrs_spec.
Qed.

(** ** All diffs *)

(** A diff as validation leaves it. *)
Record ready g (x : D) : Prop := {
  rd_name : update_name x = false;
  rd_trim : Diff.trim x = x;
  rd_change : is_empty x = false -> exists v d, vget (nodes_ g) (diff_node_index x) = Some v /\
    vget (graph g) (diff_node_index x) = Some d /\ processed_attrs x = Some (process_attrs (attr d) x) /\
    diff_ok v x /\ gapless x /\ diff_resolves g (diff_node_index x) x
}.

Lemma ready_same P g g' x : view_ok g -> view_ok g' -> same_but P g g' -> (is_empty x = false -> ~ P (diff_node_index x)) ->
  ready g x -> ready g' x.
Proof.
  intros Hg Hg' Hs Hp [Hn Ht Hc]. split; [done|done|]. intros He. destruct (Hc He) as (v & d & Hv & Hd & Hpr & Hok & Hgl & Hres).
  destruct (sb_same _ _ _ Hs _ (Hp He)) as [Hsd Hsn]. destruct (Hsn v Hv) as (v' & Hv' & _ & Hr & Hcc).
  exists v', d. split; [done|]. split; [by rewrite Hsd|]. split; [done|]. split; [|split; [done|]].
  - eapply (diff_ok_same g g' v v' (fun w _ => sb_name_of _ _ _ Hs _) Hr Hcc (diff_node_index x)); done.
  - destruct Hres. unfold resolves in *. split; unfold resolves; by rewrite (sb_names _ _ _ Hs).
Qed.

Definition diff_in g (l : list Z) (u : Z) (x : D) : Prop := u ∈ l /\ vget (updated_nodes_ (mutation_ g)) u = Some x.
Definition changes g (l : list Z) (j : Z) : Prop := exists u x, diff_in g l u x /\ is_empty x = false /\ diff_node_index x = j.

Record updates_applied g g' (l : list Z) : Prop := {
  ua_view : view_ok g';
  ua_same : same_but (changes g l) g g';
  ua_removed : removed_nodes_ (mutation_ g') = removed_nodes_ (mutation_ g);
  ua_new : new_nodes_ (mutation_ g') = new_nodes_ (mutation_ g);
  ua_counter : mutation_counter_ (mutation_ g') = mutation_counter_ (mutation_ g);
  ua_node : forall u x v d, diff_in g l u x -> is_empty x = false -> vget (nodes_ g) (diff_node_index x) = Some v ->
    vget (graph g) (diff_node_index x) = Some d ->
    exists v' d', vget (nodes_ g') (diff_node_index x) = Some v' /\ vget (graph g') (diff_node_index x) = Some d' /\
      update_index_ v' = kMissingIndex /\ node_content g' d' v' ≡ target g d v x
}.

Lemma apply_empty_diff g u x : vget (updated_nodes_ (mutation_ g)) u = Some x -> Diff.trim x = x -> is_empty x = true ->
  runs (apply_diff u) g (fun _ g' => g' = g).
Proof.
  intros Hux Ht He. unfold apply_diff. run_step. eapply runs_diff_at; [exact Hux|]. rewrite IsEmpty_eq, He, Ht.
  cbv beta iota. run_step. apply runs_set_diff. run_step. unfold with_diff. rewrite vset_id by done. by destruct g as [? ? ? []].
Qed.

Lemma apply_diffs_spec l : forall g, view_ok g -> NoDup l -> (forall u, u ∈ l -> 0 <= u < size_ (updated_nodes_ (mutation_ g))) ->
  (forall u x, diff_in g l u x -> ready g x) ->
  (forall u u' x x', diff_in g l u x -> diff_in g l u' x' -> diff_node_index x = diff_node_index x' -> u = u') ->
  runs (apply_diffs l) g (fun _ g' => updates_applied g g' l).
Proof.
  induction l as [|u l IH]; intros g Hg Hnd Hl Hready Hinj; cbn [apply_diffs].
  { run_step. split; try done; [apply same_but_refl|]. intros u x v d [Hu _]. by apply elem_of_nil in Hu. }
  apply NoDup_cons in Hnd as [Hul Hnd]. destruct (vget_ex _ _ (Hl u ltac:(left))) as [x Hx].
  assert (diff_in g (u :: l) u x) as Hin by (split; [left|done]). destruct (Hready u x Hin) as [Hn Ht Hc].
  assert (forall u' x', diff_in g l u' x' -> diff_in g (u :: l) u' x') as Hmono by (intros u' x' [? ?]; split; [by right|done]).
  run_step. destruct (is_empty x) eqn:He.
  - eapply runs_mono; [by eapply (apply_empty_diff g u x)|]. intros _ g1 ->.
    eapply runs_mono; [apply (IH g Hg Hnd)|].
    + intros u' Hu'. apply Hl. by right.
    + intros u' x' H. apply (Hready u'). by apply Hmono.
    + intros u1 u2 x1 x2 H1 H2. apply Hinj; by apply Hmono.
    + intros _ g' [Hv Hs Hr Hne Hct Hnode]. split; try done.
      * eapply same_but_mono; [exact Hs|]. intros j (u' & x' & H & ? & ?). exists u', x'. split; [by apply Hmono|done].
      * intros u' x' v d [Hu' Hx'] He'. apply (Hnode u'); [|done]. split; [|done]. apply elem_of_cons in Hu' as [->|Hu']; [congruence|done].
  - destruct (Hc eq_refl) as (v & d & Hv & Hd & Hpr & Hok & Hgl & Hres).
    eapply runs_mono; [by eapply (apply_diff_spec g u x v d)|]. intros _ g1 [Hg1 Hs1 Hm1 Hnode1].
    assert (forall u' x', diff_in g1 l u' x' <-> diff_in g l u' x') as Hdi.
    { intros u' x'. unfold diff_in. rewrite Hm1. cbn. split; intros [Hu' Hx']; (split; [done|]).
      - by rewrite vget_vset_ne in Hx' by (by intros <-).
      - by rewrite vget_vset_ne by (by intros <-). }
    assert (forall u' x', diff_in g l u' x' -> diff_node_index x' <> diff_node_index x) as Hother.
    { intros u' x' H E. pose proof (Hinj u' u x' x (Hmono _ _ H) Hin E). subst u'. by destruct H. }
    eapply runs_mono; [apply (IH g1 Hg1 Hnd)|].
    + intros u' Hu'. rewrite Hm1. cbn. rewrite size_vset. apply Hl. by right.
    + intros u' x' H. pose proof (proj1 (Hdi u' x') H) as H'. eapply ready_same; [exact Hg|exact Hg1|exact Hs1| |].
      * intros _. cbv beta. by eapply Hother.
      * apply (Hready u'). by apply Hmono.
    + intros u1 u2 x1 x2 H1%Hdi H2%Hdi. apply Hinj; by apply Hmono.
    + intros _ g' [Hv' Hs' Hr' Hne' Hct' Hnode']. split; try done; try (rewrite ?Hr', ?Hne', ?Hct', Hm1; done).
      * eapply same_but_trans; eapply same_but_mono; [exact Hs1| |exact Hs'|].
        -- intros j ->. exists u, x. done.
        -- intros j (u' & x' & H%Hdi & ? & ?). exists u', x'. split; [by apply Hmono|done].
      * intros u' x' v0 d0 [Hu' Hx'] He' Hv0 Hd0. apply elem_of_cons in Hu' as [->|Hu'].
        -- simplify_eq. destruct Hnode1 as (v1 & d1 & Hv1 & Hd1 & Hu1 & Hc1).
           destruct (sb_same _ _ _ Hs' (diff_node_index x)) as [Hsd Hsn].
           { intros (u2 & x2 & H2%Hdi & _ & E). by apply (Hother u2 x2). }
           destruct (Hsn v1 Hv1) as (v2 & Hv2 & Hu2 & Hr2 & Hc2). exists v2, d1. split; [done|]. split; [by rewrite Hsd|].
           split; [congruence|]. rewrite <- Hc1. by eapply node_content_same; [intros w _; apply (sb_name_of _ _ _ Hs')|..].
        -- assert (diff_in g l u' x') as Hin' by done. pose proof (Hother _ _ Hin') as Hne.
           destruct (sb_same _ _ _ Hs1 (diff_node_index x') Hne) as [Hsd Hsn].
           destruct (Hsn v0 Hv0) as (v1 & Hv1 & _ & Hr1 & Hc1).
           destruct (Hnode' u' x' v1 d0 (proj2 (Hdi _ _) Hin') He' Hv1 ltac:(by rewrite Hsd)) as (v2 & d2 & ? & ? & ? & Hct2).
           exists v2, d2. split; [done|]. split; [done|]. split; [done|]. rewrite Hct2. eapply target_same; [intros w _; apply (sb_name_of _ _ _ Hs1)|done|done].
Qed.
End fanins.
End update.
