(* ===== verification/GraphNewNodes.v ===== *)
(** * GraphNewNodes: the new nodes of a mutation

    [AddNewNodes] puts the new nodes into the graph, at the place of a node of
    the same name or at the end, without any fanins; [SetNewNodesFanins] gives
    them theirs. *)

From S2P Require Import Prelude Vec TensorName GraphView GraphInv GraphEdit GraphEditProofs GraphBuild GraphBulk HashOrder GraphDiff GraphContent GraphWellFormed GraphMutation GraphMutationProofs GraphValidate GraphValidateProofs GraphApply GraphUpdate.
#[local] Open Scope string_scope.
#[local] Open Scope list_scope.
#[local] Open Scope Z_scope.

Section new_nodes.
  Context {AttrValue : Type}.
  #[local] Notation G := (MutableGraphView AttrValue).
  #[local] Notation N := (NewNode AttrValue).
  Implicit Type g : G.

(** ** A node without fanins at the end *)

Definition with_node g (d : NodeDef AttrValue) : G :=
  mk_GraphView (graph g ++ [d]) (nodes_ g ++ [make_NodeView (size_ (nodes_ g))])
    (<[name d := size_ (nodes_ g)]> (node_index_by_name_ g)) (mutation_ g).

Section with_node.
Context (g : G) (d : NodeDef AttrValue) (Hg : view_ok g) (Hname : node_index_by_name_ g !! name d = None)
  (Haddr : address d ∉ map address (graph g)) (Hin : input d = []).
#[local] Notation n := (size_ (nodes_ g)).
#[local] Notation g' := (with_node g d).

Lemma with_node_len : size_ (graph g) = n.
Proof. symmetry. apply Hg. Qed.

Lemma with_node_name_of j : 0 <= j < n -> name_of g' j = name_of g j.
Proof. intros Hj. unfold name_of. cbn [graph with_node]. by rewrite vget_app_l by (rewrite with_node_len; lia). Qed.

Lemma with_node_at {A} i (h : MutableNodeView -> option A) : h (make_NodeView n) = None ->
  (v ← vget (nodes_ g') i; h v) = (v ← vget (nodes_ g) i; h v).
Proof.
  intros Hh. cbn [nodes_ with_node]. rewrite vget_snoc. case_bool_decide as E; [|done]. subst i. rewrite vget_None by lia. done.
Qed.

Lemma with_node_names : names_ok g'.
Proof.
  pose proof (ok_names_ok _ _ _ Hg) as Hn. pose proof with_node_len as Hl. split; cbn [graph nodes_ node_index_by_name_ with_node].
  - rewrite !size_snoc. lia.
  - intros i v. rewrite vget_snoc. case_bool_decide as E; [intros [= <-]; done|by apply (ok_index _ Hn)].
  - intros s i. rewrite lookup_insert_Some, (ok_names _ Hn). split.
    + intros [[<- <-]|[_ (e & He & Hs)]]; [exists d; by rewrite <- Hl, vget_snoc_size|]. exists e. split; [by apply vget_snoc_Some|done].
    + intros (e & He & Hs). rewrite vget_snoc in He. case_bool_decide as E.
      * injection He as <-. left. split; [done|lia].
      * right. split; [|eauto]. intros <-. assert (node_index_by_name_ g !! name d = Some i) as H by (apply (ok_names _ Hn); eauto). congruence.
  - intros i j e e' He He' Ha. rewrite vget_snoc in He, He'.
    assert (forall k x, vget (graph g) k = Some x -> address x <> address d) as Hfresh.
    { intros k x Hx Hxa. apply Haddr. rewrite <- Hxa. apply list_elem_of_fmap. exists x. split; [done|]. apply elem_of_vget. eauto. }
    case_bool_decide; case_bool_decide; [lia| | |by eapply (ok_address _ Hn)].
    + injection He' as <-. exfalso. by apply (Hfresh _ _ He).
    + injection He as <-. exfalso. by apply (Hfresh _ _ He').
Qed.

Lemma with_node_index_ok i v : vget (nodes_ g) i = Some v -> index_ok ∅ ∅ g' i v.
Proof.
  intros Hv. pose proof (ok_index_ok _ _ _ Hg i v Hv) as Hix. pose proof with_node_len as Hl. split.
  - intros j p Hj. cbn [graph with_node] in Hj. rewrite size_snoc in Hj. rewrite !live_empty. destruct (decide (j < n)) as [Hlt|Hge].
    + pose proof (ok_count _ _ _ _ _ Hix j p ltac:(lia)) as Hc. rewrite !live_empty in Hc. rewrite <- Hc. unfold address_of. cbn [graph with_node].
      by rewrite vget_app_l by lia.
    + rewrite occurrences_zero.
      2:{ intros w Hw [= E _]. pose proof (ok_fanin_range _ _ _ _ _ Hix w Hw). lia. }
      cbn. apply eq_None_not_Some. intros Hs. apply Haddr. apply (ok_count_known _ _ _ _ _ Hix) in Hs.
      unfold address_of in Hs. cbn [graph with_node] in Hs. rewrite vget_snoc, bool_decide_true in Hs by lia. exact Hs.
  - intros s k. rewrite (ok_control_index _ _ _ _ _ Hix s k). split; intros (w & Hw & Hk & Hs); exists w; (split; [done|]; split; [done|]);
      rewrite <- Hs; [|symmetry]; (apply with_node_name_of; rewrite <- Hl; apply (ok_fanin_range _ _ _ _ _ Hix), elem_of_app; right; apply elem_of_vget; eauto).
  - intros w Hw. pose proof (ok_fanin_range _ _ _ _ _ Hix w Hw). cbn [graph with_node]. rewrite size_snoc. lia.
  - intros a p Ha. cbn [graph with_node]. rewrite map_app. apply elem_of_app. left. by apply (ok_count_known _ _ _ _ _ Hix a p).
Qed.

Lemma with_node_ok : view_ok g'.
Proof.
  pose proof with_node_len as Hl. split; [split|].
  - apply with_node_names.
  - split.
    + eapply matching_ext; [apply Hg|intros; by apply with_node_at, vget_nil|]. intros j p f. apply with_node_at. cbn -[vget]. by rewrite vget_nil.
    + intros j v. cbn [nodes_ with_node]. rewrite vget_snoc. case_bool_decide; [by intros [= <-]|]. apply (ok_num_fanouts _ _ (ok_edges _ _ _ Hg)).
  - eapply matching_ext; [apply Hg|intros; by apply with_node_at, vget_nil|]. intros j p f. unfold control_fanout_by_port.
    destruct (p =? kControlSlot); [by apply with_node_at, vget_nil|done].
  - intros i v. cbn [nodes_ with_node]. rewrite vget_snoc. case_bool_decide as E; [|by apply with_node_index_ok]. intros [= <-]. subst i. split; cbn.
    + intros j q _. done.
    + intros s k. split; [done|]. intros (w & Hw & _). by rewrite vget_nil in Hw.
    + intros w Hw. by apply elem_of_nil in Hw.
    + intros a p [c Hc]. by rewrite lookup_empty in Hc.
  - intros i e v. cbn [graph nodes_ with_node]. rewrite !vget_snoc, Hl. case_bool_decide as E.
    + intros [= <-] [= <-]. unfold inputs_ok. by rewrite Hin.
    + intros He Hv. pose proof (ok_inputs _ Hg i e v He Hv) as Hi. unfold inputs_ok in *. rewrite Hi. apply map_ext_in. intros w Hw%list_elem_of_In.
      unfold fanin_id. rewrite with_node_name_of; [done|]. rewrite <- Hl. by apply (ok_fanin_range _ _ _ _ _ (ok_index_ok _ _ _ Hg i v Hv)).
Qed.
End with_node.

(** ** A new node *)

Lemma name_index g i : view_ok g -> 0 <= i < size_ (nodes_ g) -> node_index_by_name_ g !! name_of g i = Some i.
Proof.
  intros Hg Hi. rewrite (ok_length _ (ok_names_ok _ _ _ Hg)) in Hi. destruct (vget_ex _ _ Hi) as [d Hd].
  apply (ok_names _ (ok_names_ok _ _ _ Hg)). exists d. split; [done|]. unfold name_of. by rewrite Hd.
Qed.

(** The node of [n], without its fanins. *)
Definition blank g (i : Z) (n : N) : Prop :=
  exists d v, vget (graph g) i = Some d /\ vget (nodes_ g) i = Some v /\ name d = name (new_node n) /\ op d = op (new_node n) /\
    device d = device (new_node n) /\ attr d = attr (new_node n) /\ regular_fanins_ v = [] /\ controlling_fanins_ v = [] /\
    update_index_ v = kMissingIndex.

Record added g g' (ns : list N) (idx : list Z) : Prop := {
  ad_view : view_ok g';
  ad_size : size_ (nodes_ g) <= size_ (nodes_ g');
  ad_names : forall j, 0 <= j < size_ (nodes_ g) -> name_of g' j = name_of g j;
  ad_same : forall j, j ∉ idx -> same_node g g' j;
  ad_removed : removed_nodes_ (mutation_ g') = removed_nodes_ (mutation_ g) ∖ list_to_set idx;
  ad_updated : updated_nodes_ (mutation_ g') = updated_nodes_ (mutation_ g);
  ad_new : new_nodes_ (mutation_ g') = new_nodes_ (mutation_ g);
  ad_counter : mutation_counter_ (mutation_ g') = mutation_counter_ (mutation_ g);
  ad_blank : Forall2 (blank g') idx ns
}.

Lemma blank_name_of g i n : blank g i n -> name_of g i = name (new_node n).
Proof. intros (d & v & Hd & _ & Hn & _). unfold name_of. by rewrite Hd. Qed.
Lemma blank_range g i n : blank g i n -> 0 <= i < size_ (nodes_ g).
Proof. intros (d & v & _ & Hv & _). by eapply vget_Some. Qed.

Lemma blank_same g g' i n : same_node g g' i -> blank g i n -> blank g' i n.
Proof.
  intros [Hd Hn] (d & v & Hd0 & Hv & H1 & H2 & H3 & H4 & Hr & Hc & Hu). destruct (Hn v Hv) as (v' & Hv' & Hu' & Hr' & Hc').
  rewrite Hr in Hr'. rewrite Hc in Hc'. apply map_eq_nil in Hr', Hc'. exists d, v'. rewrite Hd. split_and!; try done. congruence.
Qed.

(** Nodes of different names stand at different indices. *)
Lemma blank_apart g g' i n n' : (forall j, 0 <= j < size_ (nodes_ g) -> name_of g' j = name_of g j) ->
  blank g i n -> blank g' i n' -> name (new_node n) = name (new_node n').
Proof.
  intros Hn Hb Hb'. rewrite <- (blank_name_of _ _ _ Hb), <- (blank_name_of _ _ _ Hb'). symmetry. by eapply Hn, blank_range.
Qed.

Lemma Forall2_mono_in {A B} (P Q : A -> B -> Prop) l k :
  Forall2 P l k -> (forall x y, x ∈ l -> y ∈ k -> P x y -> Q x y) -> Forall2 Q l k.
Proof. induction 1 as [|x y l k Hxy _ IH]; intros H; constructor; [apply H; [left..|done]|]. apply IH. intros a b ? ?. apply H; by right. Qed.
Lemma Forall2_in_l {A B} (P : A -> B -> Prop) l k x : Forall2 P l k -> x ∈ l -> exists y, y ∈ k /\ P x y.
Proof.
  induction 1 as [|x' y l k Hxy _ IH]; [by intros ?%elem_of_nil|]. intros [->|Hx]%elem_of_cons; [exists y; by split; [left|]|].
  destruct (IH Hx) as (z & ? & ?). exists z. by split; [right|].
Qed.

Lemma added_trans g g1 g2 ns ns' idx idx' : added g g1 ns idx -> added g1 g2 ns' idx' ->
  (forall n n', n ∈ ns -> n' ∈ ns' -> name (new_node n) <> name (new_node n')) -> added g g2 (ns ++ ns') (idx ++ idx').
Proof.
  intros [] [] Hne. split; try congruence; try lia.
  - intros j Hj. rewrite ad_names1 by lia. by apply ad_names0.
  - intros j Hj. rewrite elem_of_app in Hj. eapply same_node_trans; [apply ad_same0|apply ad_same1]; tauto.
  - rewrite ad_removed1, ad_removed0, list_to_set_app_L. set_solver.
  - apply Forall2_app; [|done]. eapply Forall2_mono_in; [exact ad_blank0|]. intros i n Hi Hn Hb.
    eapply blank_same; [apply ad_same1|done]. intros Hi'. destruct (Forall2_in_l _ _ _ _ ad_blank1 Hi') as (n' & Hn' & Hb').
    apply (Hne n n' Hn Hn'). by apply (blank_apart g1 g2 i).
Qed.

(** A node that takes the name of a new one has nothing recorded. *)
Definition free_for g (n : N) : Prop := forall i v, node_index_by_name_ g !! name (new_node n) = Some i ->
  vget (nodes_ g) i = Some v -> update_index_ v = kMissingIndex.

Lemma added_free g g' ns idx n : view_ok g -> added g g' ns idx -> (forall n', n' ∈ ns -> name (new_node n') <> name (new_node n)) ->
  free_for g n -> free_for g' n.
Proof.
  intros Hg Ha Hne Hf i v' Hi Hv'. destruct (name_index_range _ _ _ _ _ (ad_view _ _ _ _ Ha) Hi) as [Hr Hn].
  assert (i ∉ idx) as Hni.
  { intros Hx. destruct (Forall2_in_l _ _ _ _ (ad_blank _ _ _ _ Ha) Hx) as (n' & Hn' & Hb). apply (Hne n' Hn').
    by rewrite <- (blank_name_of _ _ _ Hb). }
  destruct (ad_same _ _ _ _ Ha i Hni) as [Hsd Hsn]. destruct (view_ok_def _ _ _ _ _ (ad_view _ _ _ _ Ha) Hv') as [d Hd].
  rewrite Hsd in Hd. destruct (view_ok_node _ _ _ _ _ Hg Hd) as [v Hv]. destruct (Hsn v Hv) as (v2 & Hv2 & Hu & _).
  rewrite Hv' in Hv2. injection Hv2 as <-. rewrite Hu. apply (Hf i v); [|done].
  apply (ok_names _ (ok_names_ok _ _ _ Hg)). exists d. split; [done|]. unfold name_of in Hn. by rewrite Hsd, Hd in Hn.
Qed.
Section adding.
Context {HO : HashOrder} {NA : NodeAllocation}.

Definition removed_within g : Prop := forall i, i ∈ removed_nodes_ (mutation_ g) -> 0 <= i < size_ (nodes_ g).

(** The node of that name loses its fanins and its removal. *)
Lemma overwrite_spec {A} (r : A) g i (n : N) d v : view_ok g -> vget (graph g) i = Some d -> vget (nodes_ g) i = Some v ->
  name d = name (new_node n) -> update_index_ v = kMissingIndex ->
  runs (RemoveAllFaninFanoutInternal i;; update_node_def i (overwrite_def (new_node n));;
        modify_mutation (fun m => set_removed_nodes (removed_nodes_ m ∖ {[i]}) m);; mret r) g (fun r' g' => r' = r /\ added g g' [n] [i]).
Proof.
  intros Hg Hd Hv Hn Hu. run_step. eapply runs_mono; [apply (RemoveAllFaninFanoutInternal_spec ∅ ∅ g i v Hg Hv); set_solver|].
  intros _ g1 [Hc1 Hs1%ends_step_edit]. pose proof (ed_def _ _ _ _ _ _ Hs1 i d Hd) as Hd1. rewrite bool_decide_true in Hd1 by done.
  set (d1 := set_input (id (input d)) d) in *. run_step. eapply runs_update_node_def; [exact Hd1|]. unfold modify_mutation. run_step. run_step. run_step. split; [done|].
  destruct (write_input g g1 i _ _ _ _ [] Hc1 Hs1 Hg Hd1) as [Hga Hsa]; [by intros; cbn|].
  set (ga := set_graph (vset (graph g1) i (set_input [] d1)) g1) in *. set (d2 := overwrite_def (new_node n) d1).
  assert (vget (graph ga) i = Some (set_input [] d1)) as Hda by (cbn; rewrite vget_vset_eq; [done|by eapply vget_Some]).
  destruct (view_ok_fields ga i (set_input [] d1) d2 Hga Hda) as [Hgb Hnb]; [done..|].
  cbn [graph ga set_graph] in Hgb, Hnb. rewrite vset_vset in Hgb, Hnb. set (gb := set_graph _ ga) in *.
  match goal with |- added _ ?gg _ _ => set (g' := gg) end. assert (graph g' = graph gb) as Eg by done.
  assert (nodes_ g' = nodes_ gb) as En by done. assert (forall j, name_of g' j = name_of g j) as Hname.
  { intros j. unfold name_of at 1. rewrite Eg. fold (name_of gb j). rewrite Hnb. by apply (node_step_name_of _ _ _ _ _ _ Hsa). }
  destruct Hs1 as [Hs1n Hs1m Hs1s Hs1g Hs1v Hs1d]. destruct (Hs1v i v Hv) as (v1 & Hv1 & _ & Hu1 & Hr1 & Hcc1). rewrite bool_decide_true in Hr1, Hcc1 by done.
  split.
  - eapply view_ok_same; [|exact Hgb]. split; [done|done|by rewrite En|]. intros j w Hw. exists (update_index_ w).
    by rewrite En, set_update_index_id.
  - change (nodes_ g') with (nodes_ g1). lia.
  - intros j _. apply Hname.
  - intros j Hj%not_elem_of_cons. destruct Hj as [Hj _]. destruct (sb_same _ _ _ (node_step_same _ _ _ _ _ Hsa) j Hj) as [Hsd Hsn].
    split; [|exact Hsn]. rewrite Eg. cbn [graph gb set_graph]. rewrite vget_vset_ne by done. rewrite <- Hsd. cbn. by rewrite vget_vset_ne by done.
  - cbn. rewrite Hs1m, (right_id_L ∅ (∪)). done.
  - cbn. by rewrite Hs1m.
  - cbn. by rewrite Hs1m.
  - cbn. by rewrite Hs1m.
  - constructor; [|constructor]. exists d2, v1. split_and!; try done; [|by apply map_eq_nil in Hr1|by apply map_eq_nil in Hcc1|by rewrite Hu1].
    rewrite Eg. cbn [graph gb set_graph]. apply vget_vset_eq. by eapply vget_Some.
Qed.

Lemma add_new_node_spec g (n : N) : view_ok g -> new_ok n -> free_for g n -> removed_within g ->
  runs (add_new_node n ∅) g (fun r g' => r.1 = ∅ /\ added g g' [n] [r.2]).
Proof.
  intros Hg Hok Hf Hrem. unfold add_new_node. run_step. run_step. destruct (node_index_by_name_ g !! name (new_node n)) as [i|] eqn:E.
  - pose proof (proj1 (ok_names _ (ok_names_ok _ _ _ Hg) _ _) E) as (d & Hd & Hn). destruct (view_ok_node _ _ _ _ _ Hg Hd) as [v Hv].
    eapply runs_mono; [apply (overwrite_spec (∅, i) g i n d v Hg Hd Hv Hn (Hf i v E Hv))|]. by intros r g' [-> Ha].
  - set (d := set_address (new_address (map address (graph g))) (new_node n)).
    assert (address d ∉ map address (graph g)) as Ha by apply new_address_fresh.
    assert (input d = []) as Hin by apply (no_inputs _ Hok).
    pose proof (with_node_ok g d Hg E Ha Hin) as Hg'. pose proof (ok_length _ (ok_names_ok _ _ _ Hg)) as Hlen.
    run_step. run_step. run_step. run_step.
    set (g2 := set_nodes _ _). assert (vget (nodes_ g2) (size_ (nodes_ g)) = Some (make_NodeView (size_ (nodes_ g)))) as Hv2 by apply vget_snoc_size.
    assert (vget (graph g2) (size_ (nodes_ g)) = Some d) as Hd2 by (rewrite Hlen; apply vget_snoc_size).
    run_step. unfold get_name. run_step. eapply runs_node_at; [exact Hv2|]. run_step. eapply runs_node_def_at; [exact Hd2|]. run_step.
    rewrite lookup_empty. run_step. run_step. run_step. unfold emplace_name. run_step. run_step. split; [done|]. cbn [snd].
    assert (emplace (node_index_by_name_ g2) (name d) (size_ (nodes_ g)) = <[name d := size_ (nodes_ g)]> (node_index_by_name_ g)) as En.
    { unfold emplace. cbn. by rewrite E. }
    assert (set_node_index_by_name (emplace (node_index_by_name_ g2) (name d) (size_ (nodes_ g))) g2 = with_node g d) as ->.
    { rewrite En. done. }
    split; try done.
    + cbn. rewrite size_snoc. lia.
    + intros j Hj. by apply with_node_name_of.
    + intros j Hj. apply not_elem_of_cons in Hj as [Hj _]. split.
      * cbn. by rewrite vget_snoc, bool_decide_false by lia.
      * intros v Hv. exists v. cbn. split; [by apply vget_snoc_Some|done].
    + cbn. rewrite (right_id_L ∅ (∪)). apply set_eq. intros j. specialize (Hrem j). rewrite elem_of_difference, elem_of_singleton. split; [|tauto].
      intros Hj. split; [done|]. specialize (Hrem Hj). lia.
    + constructor; [|constructor]. exists d, (make_NodeView (size_ (nodes_ g))). split_and!; done.
Qed.

Lemma AddNewNodes_spec l : forall g idx0, view_ok g -> Forall new_ok l -> (forall n, n ∈ l -> free_for g n) -> removed_within g ->
  NoDup (map (fun n => name (new_node n)) l) ->
  runs (AddNewNodes l ∅ idx0) g (fun r g' => r.1 = ∅ /\ exists idx, r.2 = idx0 ++ idx /\ added g g' l idx).
Proof.
  induction l as [|n l IH]; intros g idx0 Hg Hok Hf Hrem Hnd; cbn [AddNewNodes].
  { run_step. split; [done|]. exists []. split; [by rewrite app_nil_r|]. split; try done; [intros j _; apply same_node_refl|]. cbn. set_solver. }
  apply Forall_cons in Hok as [Hn Hok]. cbn [map] in Hnd. apply NoDup_cons in Hnd as [Hn1 Hnd].
  run_step. eapply runs_mono; [apply (add_new_node_spec g n Hg Hn); [apply Hf; left|done]|].
  intros [rf i] g1 [E Ha]. cbn [fst snd] in *. subst rf.
  assert (forall n1 n2, n1 ∈ [n] -> n2 ∈ l -> name (new_node n1) <> name (new_node n2)) as Hne.
  { intros n1 n2 ->%list_elem_of_singleton Hn2 Ee. apply Hn1. rewrite Ee. apply list_elem_of_fmap. eauto. }
  eapply runs_mono; [apply (IH g1 (idx0 ++ [i]) (ad_view _ _ _ _ Ha) Hok)|].
  - intros n2 Hn2. eapply (added_free g g1); [done|exact Ha| |apply Hf; by right]. intros n' Hn'. by apply Hne.
  - intros j. rewrite (ad_removed _ _ _ _ Ha). intros [Hj _]%elem_of_difference. pose proof (Hrem j Hj). pose proof (ad_size _ _ _ _ Ha). lia.
  - done.
  - intros [rf idx'] g2 (E & idx & E' & Ha'). cbn [fst snd] in *. split; [done|]. exists (i :: idx). split; [by rewrite E', <- app_assoc|].
    apply (added_trans g g1 g2 [n] l [i] idx); done.
Qed.
(** ** Their fanins *)

Record new_resolves g (i : Z) (n : N) : Prop := {
  nr_regular : forall t, t ∈ new_regular_fanins n -> resolves g i t /\ 0 <= index t;
  nr_controls : forall s, s ∈ new_controlling_fanins n -> resolves g i (control_id s)
}.

(** Node [i] is the new node [n]. *)
Definition placed g (i : Z) (n : N) : Prop :=
  exists d v, vget (graph g) i = Some d /\ vget (nodes_ g) i = Some v /\ update_index_ v = kMissingIndex /\
    node_content g d v ≡ new_target n.

Lemma resolves_names g g' i t : node_index_by_name_ g' = node_index_by_name_ g -> resolves g' i t <-> resolves g i t.
Proof. intros E. unfold resolves. by rewrite E. Qed.

Lemma resolve_names g g' t : node_index_by_name_ g' = node_index_by_name_ g -> resolve g' t = resolve g t.
Proof. intros E. unfold resolve. by rewrite E. Qed.

Lemma placed_same g g' i n : (forall j, 0 <= j < size_ (nodes_ g) -> name_of g' j = name_of g j) -> view_ok g -> same_node g g' i ->
  placed g i n -> placed g' i n.
Proof.
  intros Hn Hg [Hsd Hsn] (d & v & Hd & Hv & Hu & Hc). destruct (Hsn v Hv) as (v' & Hv' & Hu' & Hr & Hcc).
  exists d, v'. split; [by rewrite Hsd|]. split; [done|]. split; [congruence|]. rewrite <- Hc.
  apply node_content_same; [|done|done]. intros w Hw. apply Hn. rewrite (ok_length _ (ok_names_ok _ _ _ Hg)).
  by apply (ok_fanin_range _ _ _ _ _ (ok_index_ok _ _ _ Hg i v Hv)).
Qed.

(** The converse of [runs_assoc]. *)
Lemma runs_group {S A B C} (m : ST S A) (k : A -> ST S B) (r : B -> ST S C) s Q :
  runs (y ← m; x ← k y; r x) s Q <-> runs (x ← (y ← m; k y); r x) s Q.
Proof. unfold runs, mbind, ST_bind. by destruct (m s) as [[y s1]|]. Qed.

(** The inputs of one new node. *)
Lemma set_fanins_spec g i (n : N) : view_ok g -> blank g i n -> new_resolves g i n ->
  runs (add_regular_inputs i (new_regular_fanins n);; add_control_inputs i (names_in_order (new_controlling_fanins n))) g
    (fun _ g' => view_ok g' /\ (exists FR FC, node_step g g' i FR FC) /\ mutation_ g' = mutation_ g /\ placed g' i n).
Proof.
  intros Hg (d & v & Hd & Hv & H1 & H2 & H3 & H4 & Hr & Hc & Hu) [Hnr Hnc]. run_step.
  eapply runs_mono; [apply (add_regular_inputs_spec i (new_regular_fanins n) g v Hg Hv Hc); by apply Forall_forall|].
  intros _ g1 [Hg1 Hs1]. destruct (node_step_node _ _ _ _ _ _ Hs1 Hv) as (v1 & Hv1 & Hr1 & Hc1). unfold id in Hc1. rewrite Hc in Hc1.
  eapply runs_mono; [apply (add_control_inputs_spec i _ g1 v1 Hg1 Hv1 (NoDup_names_in_order _))|].
  { intros s Hs%elem_of_names_in_order. apply (resolves_step _ _ _ _ _ _ Hs1). by apply Hnc. }
  { intros s e _ He. rewrite Hc1 in He. by apply elem_of_nil in He. }
  intros _ g2 [Hg2 Hs2]. pose proof (node_step_trans _ _ _ _ _ _ _ _ Hs1 Hs2) as Hs. split; [done|]. split; [eauto|].
  pose proof Hs as [FI He]. split; [apply He|]. destruct (ed_node _ _ _ _ _ _ He i v Hv) as (v' & Hv' & _ & Hu' & Hr' & Hc').
  rewrite bool_decide_true in Hr', Hc' by done. rewrite Hr in Hr'. rewrite Hc in Hc'. unfold id in Hr', Hc'. cbn [map app] in Hr', Hc'.
  pose proof (ed_def _ _ _ _ _ _ He i d Hd) as Hd'. rewrite bool_decide_true in Hd' by done.
  exists (set_input (FI (input d)) d), v'. split; [done|]. split; [done|]. split; [congruence|].
  assert (forall t, resolves g i t -> id_of_ends g2 (resolve g t) = t) as Hid.
  { intros t Ht. rewrite <- (resolve_id g i t Hg Ht) at 2. unfold id_of_ends. by rewrite (node_step_name_of _ _ _ _ _ _ Hs). }
  split_and!; try done.
  - intros k. cbn [c_regular node_content new_target]. rewrite vget_fanin_ids, Hr', vget_map. unfold padded.
    destruct (vget (new_regular_fanins n) k) as [t|] eqn:Ek; cbn; [|done].
    destruct (Hnr t ltac:(apply elem_of_vget; eauto)) as [Ht _]. rewrite Hid, bool_decide_false; [done| |done].
    intros ->. by destruct Ht.
  - cbn [c_controls node_content new_target]. rewrite control_names_ends, Hc', map_map. apply set_eq. intros s.
    rewrite elem_of_list_to_set, list_elem_of_fmap. setoid_rewrite elem_of_names_in_order.
    assert (forall s', s' ∈ new_controlling_fanins n -> name_of g2 (resolve g1 (control_id s')).1 = s') as Hcs.
    { intros s' Hs'. rewrite (resolve_step _ _ _ _ _ _ Hs1). pose proof (Hid _ (Hnc s' Hs')) as E. by injection E. }
    split; [intros (s' & -> & Hs'); by rewrite Hcs|]. intros Hs'. exists s. by rewrite Hcs.
Qed.

Record fanins_set g g' (idx : list Z) (l : list N) : Prop := {
  fs_view : view_ok g';
  fs_same : same_but (fun j => j ∈ idx) g g';
  fs_mutation : mutation_ g' = mutation_ g;
  fs_placed : Forall2 (placed g') idx l
}.

Lemma SetNewNodesFanins_spec l : forall idx g, view_ok g -> Forall2 (blank g) idx l -> NoDup idx ->
  Forall2 (new_resolves g) idx l -> runs (SetNewNodesFanins idx l) g (fun _ g' => fanins_set g g' idx l).
Proof.
  induction l as [|n l IH]; intros idx g Hg Hb Hnd Hr.
  { apply Forall2_nil_inv_r in Hb as ->. cbn [SetNewNodesFanins]. run_step. split; try done; apply same_but_refl. }
  apply Forall2_cons_inv_r in Hb as (i & idx' & Hbi & Hb & ->). apply Forall2_cons_1 in Hr as [Hri Hr]. apply NoDup_cons in Hnd as [Hi Hnd].
  cbn [SetNewNodesFanins]. apply runs_group. run_step. eapply runs_mono; [apply (set_fanins_spec g i n Hg Hbi Hri)|].
  intros _ g1 (Hg1 & (FR & FC & Hs1) & Hm1 & Hp1). pose proof (node_step_same _ _ _ _ _ Hs1) as Hsame.
  eapply runs_mono; [apply (IH idx' g1 Hg1)|].
  - eapply Forall2_mono_in; [exact Hb|]. intros j n' Hj _. apply blank_same, (sb_same _ _ _ Hsame). by intros ->.
  - done.
  - eapply Forall2_impl; [exact Hr|]. intros j n' [A B]. split; setoid_rewrite (resolves_names g g1 j); try done; by apply (node_step_names _ _ _ _ _ Hs1).
  - intros _ g2 [Hg2 Hsame2 Hm2 Hp2]. split; [done| |congruence|].
    + eapply same_but_trans; eapply same_but_mono; [exact Hsame| |exact Hsame2|]; cbv beta; intros j; [intros ->; left|by right].
    + constructor; [|done]. eapply placed_same; [intros j _; apply (sb_name_of _ _ _ Hsame2)|exact Hg1|by apply (sb_same _ _ _ Hsame2)|exact Hp1].
Qed.
End adding.
End new_nodes.
