(* ===== verification/GraphCommit.v ===== *)
(** * GraphCommit: new nodes and updates, put together

    From a validated mutation without renames to the graph in which every node
    that stays has its new content; only the removed nodes are still there. *)

From S2P Require Import Prelude Vec TensorName GraphView GraphInv GraphEdit GraphEditProofs GraphBuild GraphBulk HashOrder GraphDiff GraphContent GraphWellFormed GraphMutation GraphMutationProofs GraphValidate GraphValidateProofs GraphValidated GraphApply GraphUpdate GraphNewNodes.
#[local] Open Scope string_scope.
#[local] Open Scope list_scope.
#[local] Open Scope Z_scope.

Section commit.
  Context {AttrValue : Type} {HO : HashOrder}.
  #[local] Notation G := (MutableGraphView AttrValue).
  #[local] Notation D := (NodeViewDiff AttrValue).
  #[local] Notation N := (NewNode AttrValue).
  Implicit Type g : G.

(** ** The diffs that ask for nothing are taken out of their nodes *)

Record cleared g g' (l : list Z) : Prop := {
  cl_graph : graph g' = graph g;
  cl_names : node_index_by_name_ g' = node_index_by_name_ g;
  cl_mutation : mutation_ g' = mutation_ g;
  cl_size : size_ (nodes_ g') = size_ (nodes_ g);
  cl_node : forall i v, vget (nodes_ g) i = Some v ->
    vget (nodes_ g') i = Some (if bool_decide (i ∈ l) then set_update_index kMissingIndex v else v)
}.

Lemma clear_update_indices_spec l : forall g, Forall (fun i => 0 <= i < size_ (nodes_ g)) l ->
  runs (clear_update_indices l) g (fun _ g' => cleared g g' l).
Proof.
  induction l as [|i l IH]; intros g Hl; cbn [clear_update_indices].
  { run_step. by split. }
  apply Forall_cons in Hl as [[v Hv]%vget_ex Hl]. run_step. eapply runs_update_node; [exact Hv|].
  eapply runs_mono; [apply IH; cbn; by rewrite size_vset|]. intros _ g' [H1 H2 H3 H4 H5]. split; try done; [by rewrite H4; cbn; rewrite size_vset|].
  intros j w Hw. rewrite (bool_decide_ext (j ∈ i :: l) (i = j \/ j ∈ l)) by (rewrite elem_of_cons; naive_solver).
  cbn [nodes_ set_nodes] in H5. destruct (decide (i = j)) as [<-|Hij].
  - rewrite Hv in Hw. injection Hw as <-. rewrite (H5 i (set_update_index kMissingIndex v)) by (apply vget_vset_eq; by eapply vget_Some).
    rewrite (bool_decide_true (i = i \/ _)) by tauto. by case_bool_decide.
  - rewrite (H5 j w) by (by rewrite vget_vset_ne). rewrite (bool_decide_ext (i = j \/ j ∈ l) (j ∈ l)) by tauto. done.
Qed.

Lemma cleared_same_view g g' l : cleared g g' l -> same_view g g'.
Proof.
  intros []. split; try done. intros i v Hv. rewrite (cl_node0 i v Hv). case_bool_decide; eexists; [done|by rewrite set_update_index_id].
Qed.

(** The nodes of [l] are those of the empty diffs. *)
Definition of_empty_diffs g (l : list Z) : Prop :=
  forall i, i ∈ l <-> exists x, x ∈ updated_nodes_ (mutation_ g) /\ is_empty x = true /\ diff_node_index x = i.

Definition valid_names g : Prop :=
  (forall i, 0 <= i < size_ (nodes_ g) -> valid_node_name (name_of g i) = true) /\
  (forall n, n ∈ new_nodes_ (mutation_ g) -> valid_node_name (name (new_node n)) = true).

Lemma blank_distinct g idx (ks : list N) : Forall2 (blank g) idx ks -> NoDup (map (fun n => name (new_node n)) ks) -> NoDup idx.
Proof.
  induction 1 as [|i n js ks Hi Hb IH]; intros Hnd; [constructor|].
  cbn [map] in Hnd. apply NoDup_cons in Hnd as [Hn Hnd]. constructor; [|by apply IH]. intros Hx.
  destruct (Forall2_in_l _ _ _ _ Hb Hx) as (n' & Hn' & Hb'). apply Hn. rewrite <- (blank_name_of _ _ _ Hi), (blank_name_of _ _ _ Hb').
  apply list_elem_of_fmap. eauto.
Qed.

(** A diff that asks for nothing leaves the content of its node. *)
Lemma empty_target g d v (x : D) : is_empty x = true -> Diff.trim x = x -> target g d v x ≡ node_content g d v.
Proof.
  intros He Ht. unfold is_empty, Diff.IsEmpty in He. cbv zeta in He. cbn [fst] in He. rewrite Ht in He.
  rewrite !andb_true_iff, !bool_decide_eq_true, !negb_true_iff in He. destruct He as [[[[[[[[[E1 E2] E3] E4] E5] E6] E7] E8] E9] E10].
  rewrite <- (target_make g d v 0). unfold target, slots, marked, kept_controls, kept_attrs. rewrite E1, E2, E3, E4, E5, E6, E7, E8, E9, E10. done.
Qed.

(** ** The stages *)

Section stages.
Context (g : G) (M : gmap string Z) (Hva : validated g M) (Hvn : valid_names g).
Context (gA : G) (l : list Z) (Hl : of_empty_diffs g l) (HA : cleared g gA l).
#[local] Notation ns := (new_nodes_ (mutation_ g)).

Lemma view_A : view_ok gA.
Proof. eapply view_ok_same; [by eapply cleared_same_view|]. apply Hva. Qed.

Lemma name_of_A j : name_of gA j = name_of g j.
Proof. unfold name_of. by rewrite (cl_graph _ _ _ HA). Qed.

(** A node still has a diff when that asks for something. *)
Lemma update_A i v : vget (nodes_ gA) i = Some v -> update_index_ v <> kMissingIndex ->
  exists x, vget (updated_nodes_ (mutation_ g)) (update_index_ v) = Some x /\ diff_node_index x = i /\ is_empty x = false.
Proof.
  intros Hv Hne. destruct (vget_ex (nodes_ g) i) as [v0 Hv0]; [rewrite <- (cl_size _ _ _ HA); by eapply vget_Some|].
  rewrite (cl_node _ _ _ HA i v0 Hv0) in Hv. injection Hv as <-. case_bool_decide as E; [done|].
  destruct (mo_node _ (va_mutation _ _ Hva) i v0 Hv0 Hne) as (x & Hx & Hi). exists x. split; [done|]. split; [done|].
  destruct (is_empty x) eqn:He; [|done]. exfalso. apply E, Hl. exists x. split; [apply elem_of_vget; eauto|done].
Qed.

Lemma changed_claimed x : x ∈ updated_nodes_ (mutation_ g) -> is_empty x = false ->
  name_of g (diff_node_index x) ∈ map (new_name_of g) (changed g (all_diffs g)).
Proof.
  intros Hx He. pose proof (va_keeps _ _ Hva x Hx) as Hn. apply elem_of_vget in Hx as [u Hu]. apply list_elem_of_fmap. exists u.
  unfold new_name_of. rewrite (diff_of_Some _ _ _ Hu), Hn. split; [done|]. apply elem_of_filter_bool. rewrite elem_of_all_diffs.
  split; [by eapply vget_Some|]. by rewrite (diff_of_Some _ _ _ Hu), He.
Qed.

(** No new node has the name of a changed one. *)
Lemma changed_not_new x n : x ∈ updated_nodes_ (mutation_ g) -> is_empty x = false -> n ∈ ns ->
  name_of g (diff_node_index x) <> name (new_node n).
Proof.
  intros Hx He Hn E. pose proof (va_names _ _ Hva) as Hnd. unfold claimed in Hnd. apply NoDup_app in Hnd as (_ & Hnd & _).
  apply (Hnd (name_of g (diff_node_index x))); [by apply changed_claimed|]. rewrite E. apply list_elem_of_fmap. eauto.
Qed.

Lemma free_A n : n ∈ ns -> free_for gA n.
Proof.
  intros Hn i v Hi Hv. destruct (decide (update_index_ v = kMissingIndex)) as [|Hne]; [done|]. exfalso.
  destruct (update_A i v Hv Hne) as (x & Hx & Hxi & He). apply (changed_not_new x n); [apply elem_of_vget; eauto|done|done|].
  rewrite Hxi, <- name_of_A. by apply (name_index_range _ _ _ _ _ view_A Hi).
Qed.

Lemma new_names_distinct : NoDup (map (fun n => name (new_node n)) ns).
Proof. pose proof (va_names _ _ Hva) as Hnd. unfold claimed in Hnd. by apply NoDup_app in Hnd as (_ & _ & Hnd). Qed.

Context (gB : G) (idx : list Z) (HB : added gA gB ns idx).

Lemma name_of_B j : 0 <= j < size_ (nodes_ g) -> name_of gB j = name_of g j.
Proof. intros Hj. rewrite <- name_of_A. apply (ad_names _ _ _ _ HB). by rewrite (cl_size _ _ _ HA). Qed.

Lemma idx_name i : i ∈ idx -> exists n, n ∈ ns /\ name_of gB i = name (new_node n).
Proof.
  intros Hi. destruct (Forall2_in_l _ _ _ _ (ad_blank _ _ _ _ HB) Hi) as (n & Hn & Hb). exists n. split; [done|]. by eapply blank_name_of.
Qed.

Lemma idx_distinct : NoDup idx.
Proof. exact (blank_distinct _ _ _ (ad_blank _ _ _ _ HB) new_names_distinct). Qed.

Lemma changed_not_idx x : x ∈ updated_nodes_ (mutation_ g) -> is_empty x = false -> diff_node_index x ∉ idx.
Proof.
  intros Hx He Hi. destruct (idx_name _ Hi) as (n & Hn & E). apply (changed_not_new x n Hx He Hn). rewrite <- E. symmetry. apply name_of_B.
  apply elem_of_vget in Hx as [u Hu]. destruct (mo_diff _ (va_mutation _ _ Hva) _ _ Hu) as (v & Hv & _). by eapply vget_Some.
Qed.

(** A name that validation takes to exist does. *)
Lemma name_exists nm s : fanin_name_ok g M nm s -> exists j, node_index_by_name_ gB !! s = Some j /\ name_of gB j = s /\ valid_node_name s = true.
Proof.
  intros [_ H]. assert (forall j, 0 <= j < size_ (nodes_ g) -> name_of g j = s ->
    exists j, node_index_by_name_ gB !! s = Some j /\ name_of gB j = s /\ valid_node_name s = true) as Hold.
  { intros j Hj <-. exists j. rewrite <- (name_of_B j Hj). split.
    - apply name_index; [apply (ad_view _ _ _ _ HB)|]. pose proof (ad_size _ _ _ _ HB). rewrite (cl_size _ _ _ HA) in *. lia.
    - split; [done|]. rewrite (name_of_B j Hj). by apply Hvn. }
  unfold CheckNodeNameExists in H. destruct (M !! s) as [i|] eqn:E.
  - apply Z.eqb_eq in H. subst i. destruct (decide (s ∈ claimed g)) as [Hc|Hc].
    + apply elem_of_app in Hc as [(u & Hs & [Hu _]%elem_of_filter_bool)%list_elem_of_fmap|(n & -> & Hn)%list_elem_of_fmap].
      * apply elem_of_all_diffs in Hu. pose proof (diff_node_range g u (va_mutation _ _ Hva) Hu) as Hr. apply vget_ex in Hu as [x Hx].
        apply (Hold _ Hr). rewrite Hs. unfold new_name_of. rewrite (diff_of_Some _ _ _ Hx), (va_keeps _ _ Hva); [done|]. apply elem_of_vget. eauto.
      * pose proof (ad_blank _ _ _ _ HB) as Hb. apply Forall2_flip in Hb. destruct (Forall2_in_l _ _ _ _ Hb Hn) as (i & Hi & Hbi).
        cbv beta in Hbi. exists i. pose proof (blank_name_of _ _ _ Hbi) as Hni. rewrite <- Hni at 1. split; [apply name_index; [apply (ad_view _ _ _ _ HB)|by eapply blank_range]|].
        split; [done|]. by apply Hvn.
    + apply (fn_missing _ _ (va_final _ _ Hva)) in E as [E _]; [|done]. apply (leaving_range _ _ (va_mutation _ _ Hva)) in E.
      unfold kNodeNamePresent in E. lia.
  - apply bool_decide_eq_true in H as [j Hj]. destruct (name_index_range _ _ _ _ _ (va_view _ _ Hva) Hj) as [Hr Hn]. by apply (Hold j).
Qed.

Lemma name_resolves g' i t : node_index_by_name_ g' = node_index_by_name_ gB -> -1 <= index t < 2 ^ 31 ->
  fanin_name_ok g M (name_of gB i) (TensorName.node t) -> resolves g' i t.
Proof.
  intros E Hp Hok. destruct (name_exists _ _ Hok) as (j & Hj & Hn & Hv). split; [done|]. split; [done|]. exists j. rewrite E.
  split; [done|]. intros ->. by destruct Hok as [H _].
Qed.
(** *** The diffs *)

Lemma node_B x v0 d0 : x ∈ updated_nodes_ (mutation_ g) -> is_empty x = false -> vget (nodes_ g) (diff_node_index x) = Some v0 ->
  vget (graph g) (diff_node_index x) = Some d0 ->
  exists v, vget (nodes_ gB) (diff_node_index x) = Some v /\ vget (graph gB) (diff_node_index x) = Some d0 /\
    map ends (regular_fanins_ v) = map ends (regular_fanins_ v0) /\ map ends (controlling_fanins_ v) = map ends (controlling_fanins_ v0).
Proof.
  intros Hx He Hv0 Hd0. destruct (ad_same _ _ _ _ HB _ (changed_not_idx x Hx He)) as [Hsd Hsn].
  destruct (Hsn _ (cl_node _ _ _ HA _ _ Hv0)) as (v & Hv & _ & Hr & Hc). exists v. split; [done|].
  rewrite Hsd, (cl_graph _ _ _ HA). split; [done|]. rewrite Hr, Hc. by case_bool_decide.
Qed.

Lemma source_B j v w : vget (nodes_ g) j = Some v -> w ∈ regular_fanins_ v ++ controlling_fanins_ v ->
  name_of gB (fanout_node_index w) = name_of g (fanout_node_index w).
Proof.
  intros Hv Hw. apply name_of_B. rewrite (ok_length _ (ok_names_ok _ _ _ (va_view _ _ Hva))).
  by apply (ok_fanin_range _ _ _ _ _ (ok_index_ok _ _ _ (va_view _ _ Hva) j v Hv)).
Qed.

Lemma ready_B x : x ∈ updated_nodes_ (mutation_ g) -> ready gB x.
Proof.
  intros Hx. destruct (va_settled _ _ Hva x Hx) as [Ht Hpr]. split; [by apply (va_keeps _ _ Hva)|done|]. intros He.
  pose proof Hx as [u Hu]%elem_of_vget. destruct (mo_diff _ (va_mutation _ _ Hva) _ _ Hu) as (v0 & Hv0 & _ & Hok & _).
  destruct (Hpr He) as (d & Hd & Hp). destruct (node_B x v0 d Hx He Hv0 Hd) as (v & Hv & HdB & Hr & Hc).
  destruct (va_diff _ _ Hva x v0 d Hx He Hv0 Hd) as [Hgl Hfv]. exists v, d. split; [done|]. split; [done|]. split; [done|].
  split; [|split; [done|]].
  - eapply (diff_ok_same g gB v0 v (fun w => source_B _ _ _ Hv0) Hr Hc (diff_node_index x)); try done; [apply Hva|apply (ad_view _ _ _ _ HB)].
  - assert (c_name (target g d v0 x) = name_of gB (diff_node_index x)) as Hnm.
    { cbn [c_name target]. rewrite (va_keeps _ _ Hva x Hx), name_of_B by (by eapply vget_Some). unfold name_of. by rewrite Hd. }
    split.
    + intros t Ht'. apply (slots_added g v0 x Hok Hgl) in Ht' as (k & Hk & Hs).
      pose proof (fv_regular _ _ _ _ _ Hfv k t Hs (or_intror Hk)) as Hf. rewrite Hnm in Hf. apply name_resolves; [done| |done].
      assert (t ∈ regular_inputs_to_add x) as Hin by (apply (slots_added g v0 x Hok Hgl); eauto).
      destruct (ok_ports_add _ _ Hok t Hin) as [->|Hp0]; [|unfold port_ok in Hp0; lia]. exfalso.
      unfold slots in Hs. destruct (Z.ltb_spec k (NumRegularFanins v0)); [lia|]. cbv zeta in Hs. case_bool_decide as E; [done|]. injection Hs as Hs. done.
    + intros k t Hk. destruct (ok_update _ _ Hok k t Hk) as [Hkr Hm]. assert (slots g v0 x k = Some t) as Hs.
      { unfold slots. rewrite (proj2 (Z.ltb_lt _ _)) by lia. by rewrite Hm, Hk. }
      pose proof (fv_regular _ _ _ _ _ Hfv k t Hs ltac:(left; eauto)) as Hf. rewrite Hnm in Hf. apply name_resolves; [done| |done].
      pose proof (ok_ports_update _ _ Hok k t Hk) as Hp0. unfold port_ok in Hp0. lia.
    + intros s Hs. pose proof (fv_controls _ _ _ _ _ Hfv s Hs) as Hf. rewrite Hnm in Hf. apply name_resolves; [done| |done].
      unfold control_id, kControlSlot. cbn. lia.
Qed.

Lemma apply_updates_spec : runs ApplyNodeUpdates gB (fun _ gC => updates_applied gB gC (count_up (size_ (updated_nodes_ (mutation_ g))))).
Proof.
  assert (updated_nodes_ (mutation_ gB) = updated_nodes_ (mutation_ g)) as E by (by rewrite (ad_updated _ _ _ _ HB), (cl_mutation _ _ _ HA)).
  unfold ApplyNodeUpdates. run_step. run_step. rewrite E. apply apply_diffs_spec.
  - apply (ad_view _ _ _ _ HB).
  - apply NoDup_count_up.
  - intros u Hu%elem_of_count_up. by rewrite E.
  - intros u x [_ Hx]. apply ready_B. rewrite <- E. apply elem_of_vget. eauto.
  - intros u u' x x' [_ Hx] [_ Hx']. rewrite E in Hx, Hx'. by apply (diff_unique g u u' x x' (va_mutation _ _ Hva)).
Qed.

(** *** The new nodes *)

Context (gC : G) (HC : updates_applied gB gC (count_up (size_ (updated_nodes_ (mutation_ g))))).

Lemma changes_B j : changes gB (count_up (size_ (updated_nodes_ (mutation_ g)))) j <->
  exists x, x ∈ updated_nodes_ (mutation_ g) /\ is_empty x = false /\ diff_node_index x = j.
Proof.
  unfold changes, diff_in. rewrite (ad_updated _ _ _ _ HB), (cl_mutation _ _ _ HA). split.
  - intros (u & x & [_ Hx] & ? & ?). exists x. split; [apply elem_of_vget; eauto|done].
  - intros (x & [u Hx]%elem_of_vget & ? & ?). exists u, x. rewrite elem_of_count_up. split; [split; [by eapply vget_Some|done]|done].
Qed.

Lemma blank_C : Forall2 (blank gC) idx ns.
Proof.
  eapply Forall2_mono_in; [exact (ad_blank _ _ _ _ HB)|]. intros i n Hi _. apply blank_same, (sb_same _ _ _ (ua_same _ _ _ HC)).
  intros (x & Hx & He & <-)%changes_B. by apply (changed_not_idx x).
Qed.

Lemma resolves_C : Forall2 (new_resolves gC) idx ns.
Proof.
  eapply Forall2_mono_in; [exact (ad_blank _ _ _ _ HB)|]. intros i n _ Hn Hb. destruct (va_new _ _ Hva n Hn) as [Hnv Htr].
  pose proof (mo_new _ (va_mutation _ _ Hva) n Hn) as Hok. pose proof (sb_names _ _ _ (ua_same _ _ _ HC)) as En.
  assert (name (new_node n) = name_of gB i) as Hni by (symmetry; by eapply blank_name_of). split.
  - intros t [k Hk]%elem_of_vget. assert (t <> EmptyTensorId) as Hne.
    { intros ->. assert (size_ (new_regular_fanins n) = num_regular_fanins n) as Hsz.
      { rewrite <- Htr at 1. apply (new_gapless n Hok). apply Hnv. }
      rewrite (no_num _ Hok) in Hsz. apply (proj1 (count_full _ _) (eq_sym Hsz) k (vget_Some _ _ _ Hk)). unfold padded. by rewrite Hk. }
    assert (c_regular (new_target n) k = Some t) as Hs by (cbn; unfold padded; rewrite Hk; cbn; by rewrite bool_decide_false).
    pose proof (nv_names _ _ _ Hnv k t Hs) as Hf. rewrite Hni in Hf.
    destruct (no_ports _ Hok t ltac:(apply elem_of_vget; eauto)) as [|Hp]; [done|]. unfold port_ok in Hp.
    split; [apply name_resolves; [done|lia|done]|lia].
  - intros s Hs. pose proof (nv_controls _ _ _ Hnv s Hs) as Hf. rewrite Hni in Hf. apply name_resolves; [done| |done].
    unfold control_id, kControlSlot. cbn. lia.
Qed.

(** *** The graph before the removal *)

Context (gD : G) (HD : fanins_set gC gD idx ns).

Lemma name_of_D j : 0 <= j < size_ (nodes_ g) -> name_of gD j = name_of g j.
Proof.
  intros Hj. rewrite (sb_name_of _ _ _ (fs_same _ _ _ _ HD)), (sb_name_of _ _ _ (ua_same _ _ _ HC)). by apply name_of_B.
Qed.

Lemma size_D : size_ (nodes_ gD) = size_ (nodes_ gB).
Proof. by rewrite (sb_size _ _ _ (fs_same _ _ _ _ HD)), (sb_size _ _ _ (ua_same _ _ _ HC)). Qed.

Lemma removed_D : removed_nodes_ (mutation_ gD) = removed_nodes_ (mutation_ g) ∖ list_to_set idx.
Proof. by rewrite (fs_mutation _ _ _ _ HD), (ua_removed _ _ _ HC), (ad_removed _ _ _ _ HB), (cl_mutation _ _ _ HA). Qed.

Lemma dead_D r : r ∈ removed_nodes_ (mutation_ gD) -> dead g r.
Proof.
  rewrite removed_D, elem_of_difference, elem_of_list_to_set. intros [Hr Hni]. split; [done|].
  pose proof (mo_removed _ (va_mutation _ _ Hva) r Hr) as Hrr. intros Hc. unfold claimed in Hc.
  apply elem_of_app in Hc as [(u & Hs & [Hu _]%elem_of_filter_bool)%list_elem_of_fmap|(n & Hn & Hin)%list_elem_of_fmap].
  - apply elem_of_all_diffs in Hu. pose proof (diff_node_range g u (va_mutation _ _ Hva) Hu) as Hdr. apply vget_ex in Hu as [x Hx].
    unfold new_name_of in Hs. rewrite (diff_of_Some _ _ _ Hx) in *. rewrite (va_keeps _ _ Hva) in Hs by (apply elem_of_vget; eauto).
    apply (name_of_inj g) in Hs; [|apply Hva|done|done]. destruct (mo_diff _ (va_mutation _ _ Hva) _ _ Hx) as (v & _ & _ & _ & Hnr). by rewrite Hs in Hr.
  - pose proof (ad_blank _ _ _ _ HB) as Hb. apply Forall2_flip in Hb. destruct (Forall2_in_l _ _ _ _ Hb Hin) as (i & Hi & Hbi). cbv beta in Hbi.
    rewrite <- (name_of_B r Hrr), <- (blank_name_of _ _ _ Hbi) in Hn. pose proof (ad_size _ _ _ _ HB). rewrite (cl_size _ _ _ HA) in *.
    apply (name_of_inj gB) in Hn; [by subst|apply (ad_view _ _ _ _ HB)|lia|by eapply blank_range].
Qed.

Lemma old_range j : j ∉ idx -> 0 <= j < size_ (nodes_ gD) -> 0 <= j < size_ (nodes_ g).
Proof.
  rewrite size_D. intros Hj Hr. rewrite (ok_length _ (ok_names_ok _ _ _ (ad_view _ _ _ _ HB))) in Hr. destruct (vget_ex _ _ Hr) as [d Hd].
  rewrite (sn_def _ _ _ (ad_same _ _ _ _ HB j Hj)), (cl_graph _ _ _ HA) in Hd. rewrite (ok_length _ (ok_names_ok _ _ _ (va_view _ _ Hva))).
  by eapply vget_Some.
Qed.

(** An old node has the content that is recorded for it. *)
Record old_node (j : Z) (d : NodeDef AttrValue) (v : MutableNodeView) (c : content AttrValue) : Prop := {
  on_def : vget (graph gD) j = Some d;
  on_node : vget (nodes_ gD) j = Some v;
  on_update : update_index_ v = kMissingIndex;
  on_pending : pending g j = Some c;
  on_content : node_content gD d v ≡ c;
  on_alive : j ∉ removed_nodes_ (mutation_ g) -> forall r, dead g r -> ~ mentions c (name_of g r)
}.

Lemma changed_node_D x : x ∈ updated_nodes_ (mutation_ g) -> is_empty x = false -> exists d v c, old_node (diff_node_index x) d v c.
Proof.
  intros Hx He. pose proof Hx as [u Hu]%elem_of_vget. destruct (mo_diff _ (va_mutation _ _ Hva) _ _ Hu) as (v0 & Hv0 & Hui & _ & _).
  destruct (view_ok_def _ _ _ _ _ (va_view _ _ Hva) Hv0) as [d0 Hd0]. destruct (node_B x v0 d0 Hx He Hv0 Hd0) as (v & Hv & Hd & Hr & Hc).
  destruct (ua_node _ _ _ HC u x v d0) as (v' & d' & Hv' & Hd' & Hu' & Hct); [|done|done|done|].
  { split; [apply elem_of_count_up; by eapply vget_Some|]. by rewrite (ad_updated _ _ _ _ HB), (cl_mutation _ _ _ HA). }
  destruct (sb_same _ _ _ (fs_same _ _ _ _ HD) _ (changed_not_idx x Hx He)) as [Hsd Hsn].
  destruct (Hsn v' Hv') as (v2 & Hv2 & Hu2 & Hr2 & Hc2). exists d', v2, (target g d0 v0 x). split.
  - by rewrite Hsd.
  - done.
  - congruence.
  - unfold pending, pending_diff. rewrite Hv0. cbn [mbind option_bind]. rewrite Hd0. cbn [mbind option_bind]. by rewrite Hui, Hu.
  - etrans; [apply node_content_same; [intros w _; apply (sb_name_of _ _ _ (fs_same _ _ _ _ HD))|exact Hr2|exact Hc2]|].
    rewrite Hct. apply (target_same g gB v0 v); [intros w; by apply (source_B _ _ _ Hv0)|done|done].
  - intros _ r Hr0. by apply (updated_alive g M).
Qed.

Lemma kept_node_D j : j ∉ idx -> 0 <= j < size_ (nodes_ g) -> ~ changes gB (count_up (size_ (updated_nodes_ (mutation_ g)))) j ->
  exists d v c, old_node j d v c.
Proof.
  intros Hj Hr Hn. destruct (vget_ex _ _ Hr) as [v0 Hv0]. destruct (view_ok_def _ _ _ _ _ (va_view _ _ Hva) Hv0) as [d0 Hd0].
  pose proof (cl_node _ _ _ HA _ _ Hv0) as HvA. set (vA := if bool_decide _ then _ else _) in HvA.
  assert (update_index_ vA = kMissingIndex) as HuA.
  { destruct (decide (update_index_ vA = kMissingIndex)) as [|Hne]; [done|]. exfalso. destruct (update_A j vA HvA Hne) as (x & Hx & Hxi & He).
    apply Hn, changes_B. exists x. split; [apply elem_of_vget; eauto|done]. }
  assert (same_node gA gD j) as [Hsd Hsn].
  { eapply same_node_trans; [by apply (ad_same _ _ _ _ HB)|]. eapply same_node_trans; [by apply (sb_same _ _ _ (ua_same _ _ _ HC))|].
    by apply (sb_same _ _ _ (fs_same _ _ _ _ HD)). }
  destruct (Hsn vA HvA) as (v & Hv & Hu & Hre & Hco). rewrite (cl_graph _ _ _ HA), Hd0 in Hsd.
  assert (map ends (regular_fanins_ v) = map ends (regular_fanins_ v0) /\ map ends (controlling_fanins_ v) = map ends (controlling_fanins_ v0)) as [Hre0 Hco0].
  { rewrite Hre, Hco. unfold vA. by case_bool_decide. }
  assert (unchanged_node g v0) as Hun.
  { destruct (decide (update_index_ v0 = kMissingIndex)) as [|Hne]; [by left|right].
    destruct (mo_node _ (va_mutation _ _ Hva) j v0 Hv0 Hne) as (x & Hx & Hxi). exists x. split; [done|].
    destruct (is_empty x) eqn:He; [done|]. exfalso. apply Hn, changes_B. exists x. split; [apply elem_of_vget; eauto|done]. }
  assert (exists c, pending g j = Some c /\ c ≡ node_content g d0 v0) as (c & Hp & Hc).
  { unfold pending, pending_diff. rewrite Hv0. cbn [mbind option_bind]. rewrite Hd0. cbn [mbind option_bind]. eexists. split; [done|].
    destruct (vget (updated_nodes_ (mutation_ g)) (update_index_ v0)) as [x|] eqn:Hx; [|done]. destruct Hun as [E|(x' & Hx' & He)].
    - rewrite E in Hx. apply vget_Some in Hx. unfold kMissingIndex in Hx. lia.
    - rewrite Hx in Hx'. injection Hx' as <-. apply empty_target; [done|]. apply (va_settled _ _ Hva), elem_of_vget. eauto. }
  exists d0, v, c. split; [done|done|congruence|done| |].
  - rewrite Hc. apply node_content_same; [|done|done]. intros w Hw. apply name_of_D. rewrite (ok_length _ (ok_names_ok _ _ _ (va_view _ _ Hva))).
    by apply (ok_fanin_range _ _ _ _ _ (ok_index_ok _ _ _ (va_view _ _ Hva) j v0 Hv0)).
  - intros Hnr r Hdr Hm. apply (unchanged_alive g M Hva r Hdr j v0 d0 Hnr Hv0 Hun). by eapply mentions_equiv.
Qed.

Lemma old_node_D j : j ∉ idx -> 0 <= j < size_ (nodes_ gD) -> exists d v c, old_node j d v c.
Proof.
  intros Hj Hr. pose proof (old_range j Hj Hr) as Hrg.
  destruct (existsb (fun x => negb (is_empty x) && (diff_node_index x =? j)) (updated_nodes_ (mutation_ g))) eqn:E.
  - apply existsb_exists in E as (x & Hx & [He <-%Z.eqb_eq]%andb_true_iff). apply changed_node_D; [by apply list_elem_of_In|by apply negb_true_iff].
  - apply kept_node_D; [done|done|]. intros (x & Hx & He & Hxi)%changes_B. apply Bool.not_true_iff_false in E. apply E, existsb_exists.
    exists x. split; [by apply list_elem_of_In|]. by rewrite He, Hxi, Z.eqb_refl.
Qed.

(** *** What stays *)

(** Node [i] of the graph is neither removed nor replaced by a new node. *)
Definition stays (i : Z) : Prop := 0 <= i < size_ (nodes_ g) /\ i ∉ removed_nodes_ (mutation_ g) /\
  name_of g i ∉ map (fun n => name (new_node n)) ns.

(** The contents that the mutation asks for. *)
Definition asked (c : content AttrValue) : Prop :=
  (exists n, n ∈ ns /\ c = new_target n) \/ (exists i, stays i /\ pending g i = Some c).

Lemma stays_not_idx j : stays j -> j ∉ idx.
Proof.
  intros (Hr & _ & Hn) Hi. destruct (idx_name j Hi) as (n & Hin & E). apply Hn. rewrite <- (name_of_B j Hr), E.
  apply list_elem_of_fmap. eauto.
Qed.

Lemma not_idx_stays j : j ∉ idx -> 0 <= j < size_ (nodes_ g) -> j ∉ removed_nodes_ (mutation_ g) -> stays j.
Proof.
  intros Hj Hr Hnr. split_and!; [lia|lia|done|]. intros (n & Hn & Hin)%list_elem_of_fmap. pose proof (ad_blank _ _ _ _ HB) as Hb.
  apply Forall2_flip in Hb. destruct (Forall2_in_l _ _ _ _ Hb Hin) as (i & Hi & Hbi). cbv beta in Hbi. apply Hj.
  assert (j = i) as ->; [|done]. pose proof (ad_size _ _ _ _ HB) as Hsz. rewrite (cl_size _ _ _ HA) in Hsz.
  apply (name_of_inj gB); [apply (ad_view _ _ _ _ HB)|lia|by eapply blank_range|].
  by rewrite (name_of_B j Hr), Hn, (blank_name_of _ _ _ Hbi).
Qed.

(** A node of the graph before the removal, with its content. *)
Record node_before_removal (j : Z) (d : NodeDef AttrValue) (v : MutableNodeView) (c : content AttrValue) : Prop := {
  nb_def : vget (graph gD) j = Some d;
  nb_node : vget (nodes_ gD) j = Some v;
  nb_update : update_index_ v = kMissingIndex;
  nb_content : node_content gD d v ≡ c
}.

Lemma node_D j : 0 <= j < size_ (nodes_ gD) -> j ∉ removed_nodes_ (mutation_ gD) ->
  exists d v c, node_before_removal j d v c /\ asked c /\ forall r, dead g r -> ~ mentions c (name_of g r).
Proof.
  intros Hj Hnr. rewrite removed_D, elem_of_difference, elem_of_list_to_set in Hnr. destruct (decide (j ∈ idx)) as [Hi|Hi].
  - destruct (Forall2_in_l _ _ _ _ (fs_placed _ _ _ _ HD) Hi) as (n & Hn & d & v & Hd & Hv & Hu & Hc).
    exists d, v, (new_target n). split; [done|]. split; [left; eauto|]. intros r Hr. by apply (new_alive g M Hva r Hr).
  - assert (j ∉ removed_nodes_ (mutation_ g)) as Hjr by tauto. pose proof (old_range j Hi Hj) as Hr.
    destruct (old_node_D j Hi Hj) as (d & v & c & [H1 H2 H3 H4 H5 H6]). exists d, v, c. split; [done|]. split; [|by apply H6].
    right. exists j. split; [by apply not_idx_stays|done].
Qed.

Lemma asked_D c : asked c -> exists j d v, j ∉ removed_nodes_ (mutation_ gD) /\ node_before_removal j d v c.
Proof.
  intros [(n & Hn & ->)|(j & Hs & Hp)].
  - pose proof (fs_placed _ _ _ _ HD) as Hpl. apply Forall2_flip in Hpl.
    destruct (Forall2_in_l _ _ _ _ Hpl Hn) as (i & Hi & d & v & Hd & Hv & Hu & Hc). exists i, d, v.
    split; [|done]. rewrite removed_D, elem_of_difference, elem_of_list_to_set. tauto.
  - pose proof (stays_not_idx j Hs) as Hi. destruct Hs as (Hr & Hnr & _).
    assert (0 <= j < size_ (nodes_ gD)) as HrD by (rewrite size_D; pose proof (ad_size _ _ _ _ HB) as H; rewrite (cl_size _ _ _ HA) in H; lia).
    destruct (old_node_D j Hi HrD) as (d & v & c' & [H1 H2 H3 H4 H5 _]). rewrite Hp in H4. injection H4 as <-.
    exists j, d, v. split; [|done]. rewrite removed_D, elem_of_difference. tauto.
Qed.

(** No node that stays has a fanin from one that goes. *)
Lemma fanins_stay_D j v w : j ∉ removed_nodes_ (mutation_ gD) -> vget (nodes_ gD) j = Some v ->
  w ∈ regular_fanins_ v ++ controlling_fanins_ v -> fanout_node_index w ∉ removed_nodes_ (mutation_ gD).
Proof.
  intros Hj Hv Hw Hr. destruct (node_D j ltac:(by eapply vget_Some) Hj) as (d & v' & c & [H1 H2 _ H4] & _ & Hc).
  rewrite Hv in H2. injection H2 as <-. pose proof (dead_D _ Hr) as Hdead. apply (Hc _ Hdead). eapply mentions_equiv; [exact H4|].
  rewrite <- name_of_D by apply (dead_range g M Hva _ Hdead). by apply fanin_mentioned.
Qed.
End stages.
End commit.
