(* ===== verification/GraphRemoveNodes.v ===== *)
(** * GraphRemoveNodes: taking nodes out of the graph

    [RemoveNodesInternal] disconnects the removed nodes, exchanges each with the
    last node, whose neighbours learn its new index, and cuts them off. *)

From S2P Require Import Prelude Vec TensorName GraphView GraphInv TopoSort Renumber GraphEdit GraphEditProofs GraphBuild GraphBulk HashOrder GraphDiff GraphContent GraphMutation GraphMutationProofs GraphValidate GraphValidateProofs GraphApply GraphNewNodes.
#[local] Open Scope string_scope.
#[local] Open Scope list_scope.
#[local] Open Scope Z_scope.

(** ** Entries of nodes, visited one by one

    The four loops over the neighbours of a node change entries of one kind: [A]
    is where an entry stands in its node, [keep] is what such a change keeps of
    a node. *)

Section visit.
Context {AttrValue : Type}.
#[local] Notation G := (MutableGraphView AttrValue).
#[local] Notation M := (ST G).
Implicit Type g : G.

Context {A E : Type} `{!EqDecision A} (entry : MutableNodeView -> A -> option E)
  (put : A -> E -> MutableNodeView -> MutableNodeView) (keep : MutableNodeView -> MutableNodeView -> Prop)
  `{!PreOrder keep} (h : E -> E) (step : Z -> A -> M unit).
Context (Hput : forall v a e e', entry v a = Some e -> keep v (put a e' v) /\
    forall b, entry (put a e' v) b = if bool_decide (a = b) then Some e' else entry v b)
  (Hh : forall e, h (h e) = h e)
  (Hstep : forall j a g v e (Q : unit -> G -> Prop), vget (nodes_ g) j = Some v -> entry v a = Some e ->
    Q tt (set_nodes (vset (nodes_ g) j (put a (h e) v)) g) -> runs (step j a) g Q).

Fixpoint visit (l : list (Z * A)) : M unit :=
  match l with [] => mret tt | (j, a) :: l => step j a;; visit l end.

Definition entry_at g (j : Z) (a : A) : option E := v ← vget (nodes_ g) j; entry v a.

(** The entries at the places of [l] are changed by [h]. *)
Record visited g g' (l : list (Z * A)) : Prop := {
  vi_frame : exists ns, g' = set_nodes ns g /\ size_ ns = size_ (nodes_ g);
  vi_node : forall x v, vget (nodes_ g) x = Some v -> exists v', vget (nodes_ g') x = Some v' /\ keep v v' /\
    forall a, entry v' a = if bool_decide ((x, a) ∈ l) then h <$> entry v a else entry v a
}.

Lemma visit_spec l : forall g, (forall j a, (j, a) ∈ l -> is_Some (entry_at g j a)) ->
  runs (visit l) g (fun _ g' => visited g g' l).
Proof.
  induction l as [|[j a] l IH]; intros g Hl; cbn [visit].
  { run_step. split; [exists (nodes_ g); by destruct g|]. intros x v Hv. exists v. split; [done|]. split; [done|].
    intros b. by rewrite bool_decide_false by apply not_elem_of_nil. }
  destruct (Hl j a ltac:(left)) as [e (v & Hv & He)%bind_Some]. pose proof (vget_Some _ _ _ Hv) as Hj.
  run_step. eapply Hstep; [exact Hv|exact He|]. set (g1 := set_nodes _ g).
  destruct (Hput v a e (h e) He) as [Hk Hent].
  assert (forall x u, vget (nodes_ g) x = Some u -> exists u1, vget (nodes_ g1) x = Some u1 /\ keep u u1 /\
    forall b, entry u1 b = if bool_decide ((x, b) = (j, a)) then h <$> entry u b else entry u b) as Hone.
  { intros x u Hu. unfold g1. cbn [nodes_ set_nodes]. rewrite vget_vset by done. case_bool_decide as Ex.
    - subst x. rewrite Hv in Hu. injection Hu as <-. eexists. split; [done|]. split; [done|]. intros b. rewrite Hent.
      rewrite (bool_decide_ext (a = b) ((j, b) = (j, a))) by (split; congruence). case_bool_decide as Eb; [|done]. injection Eb as ->. by rewrite He.
    - exists u. split; [done|]. split; [done|]. intros b. rewrite bool_decide_false; [done|]. congruence. }
  eapply runs_mono; [apply (IH g1)|].
  - intros y b Hb. destruct (Hl y b ltac:(by right)) as [e' (u & Hu & He')%bind_Some]. destruct (Hone y u Hu) as (u1 & Hu1 & _ & Hb1).
    unfold entry_at. rewrite Hu1. cbn [mbind option_bind]. rewrite Hb1, He'. case_bool_decide; eauto.
  - intros _ g2 [(ns & -> & Hns) Hnode]. split; [exists ns; split; [done|]; by rewrite Hns; cbn; rewrite size_vset|].
    intros x u Hu. destruct (Hone x u Hu) as (u1 & Hu1 & Hk1 & He1). destruct (Hnode x u1 Hu1) as (u2 & Hu2 & Hk2 & He2).
    exists u2. split; [done|]. split; [by etrans|]. intros b. rewrite He2, He1.
    rewrite (bool_decide_ext ((x, b) ∈ (j, a) :: l) ((x, b) = (j, a) \/ (x, b) ∈ l)) by apply elem_of_cons.
    case_bool_decide as E1; case_bool_decide as E2; case_bool_decide as E3; try tauto; try done.
    destruct (entry u b); cbn; [by rewrite Hh|done].
Qed.
End visit.

(** *** Entries of a vector of a node *)

Section field.
Context {AttrValue E : Type} (getl : MutableNodeView -> list E) (setl : list E -> MutableNodeView -> MutableNodeView).
Context (Hgs : forall l v, getl (setl l v) = l) (Hss : forall l l' v, setl l (setl l' v) = setl l v) (Hsg : forall v, setl (getl v) v = v).
#[local] Notation G := (MutableGraphView AttrValue).

Definition field_entry (v : MutableNodeView) (k : Z) : option E := vget (getl v) k.
Definition field_put (k : Z) (e : E) (v : MutableNodeView) : MutableNodeView := setl (vset (getl v) k e) v.
Definition field_keep (v v' : MutableNodeView) : Prop := v' = setl (getl v') v /\ size_ (getl v') = size_ (getl v).

Lemma field_keep_preorder : PreOrder field_keep.
Proof.
  split; [by intros v; split|]. intros v1 v2 v3 [H1 H2] [H3 H4]. split; [|congruence]. rewrite H3 at 1. rewrite H1. apply Hss.
Qed.

Lemma field_put_ok v k (e e' : E) : field_entry v k = Some e -> field_keep v (field_put k e' v) /\
  forall b, field_entry (field_put k e' v) b = if bool_decide (k = b) then Some e' else field_entry v b.
Proof.
  intros He. apply vget_Some in He. unfold field_keep, field_entry, field_put. rewrite Hgs, size_vset. split; [done|].
  intros b. by apply vget_vset.
Qed.

Lemma field_moved (h f : E -> E) (g g' : G) l x v : visited field_entry field_keep h g g' l -> vget (nodes_ g) x = Some v ->
  (forall k e, vget (getl v) k = Some e -> f e = if bool_decide ((x, k) ∈ l) then h e else e) ->
  vget (nodes_ g') x = Some (setl (map f (getl v)) v).
Proof.
  intros Hvi Hv Hf. destruct (vi_node _ _ _ _ _ _ Hvi x v Hv) as (v' & Hv' & [E1 E2] & He). rewrite Hv', E1. f_equal. f_equal.
  apply vget_ext. intros k. specialize (He k). unfold field_entry in He. rewrite He, vget_map.
  destruct (vget (getl v) k) as [e|] eqn:Ek; cbn; [rewrite (Hf k e Ek)|]; by case_bool_decide.
Qed.
End field.

(** *** Entries of the fanouts by port *)

Section ports.
Context {AttrValue : Type}.
#[local] Notation G := (MutableGraphView AttrValue).
Implicit Types (v : MutableNodeView) (e : MutableFaninView).

Definition port_entry v (a : Z * Z) : option MutableFaninView := port_at (regular_fanouts_by_port_ v) a.1 a.2.
Definition port_put (a : Z * Z) e v : MutableNodeView :=
  set_regular_fanouts (vset (regular_fanouts_by_port_ v) a.1 (vset (default [] (vget (regular_fanouts_by_port_ v) a.1)) a.2 e))
    (num_regular_fanouts_ v) v.
Definition port_keep v v' : Prop :=
  v' = set_regular_fanouts (regular_fanouts_by_port_ v') (num_regular_fanouts_ v) v /\
  map size_ (regular_fanouts_by_port_ v') = map size_ (regular_fanouts_by_port_ v).

#[export] Instance port_keep_preorder : PreOrder port_keep.
Proof.
  split; [by intros []|]. intros v1 v2 v3 [H1 H2] [H3 H4]. split; [|congruence]. rewrite H3 at 1. by rewrite H1.
Qed.

Lemma port_put_ok v a e e' : port_entry v a = Some e -> port_keep v (port_put a e' v) /\
  forall b, port_entry (port_put a e' v) b = if bool_decide (a = b) then Some e' else port_entry v b.
Proof.
  destruct a as [p f]. intros (l & Hl & He)%bind_Some. cbn [fst snd] in *. unfold port_put, port_keep, port_entry. cbn [fst snd].
  rewrite Hl. cbn [default from_option id]. cbn [regular_fanouts_by_port_ set_regular_fanouts]. split.
  - split; [done|]. apply vget_ext. intros q. rewrite !vget_map, vget_vset by (by eapply vget_Some). case_bool_decide; [|done]. subst q.
    rewrite Hl. cbn. by rewrite size_vset.
  - intros [q c]. cbn [fst snd]. rewrite (port_at_vset _ _ l) by done. case_bool_decide as E1.
    + subst q. rewrite vget_vset by (by eapply vget_Some). unfold port_at. rewrite Hl. cbn [mbind option_bind].
      by rewrite (bool_decide_ext (f = c) ((p, f) = (p, c))) by (split; congruence).
    + rewrite bool_decide_false; [done|congruence].
Qed.

Lemma ports_ext (P P' : list (list MutableFaninView)) : map size_ P = map size_ P' ->
  (forall p f, port_at P p f = port_at P' p f) -> P = P'.
Proof.
  intros Hs Hp. apply vget_ext. intros p. pose proof (f_equal (fun l => vget l p) Hs) as Hsp. cbv beta in Hsp. rewrite !vget_map in Hsp.
  specialize (Hp p). unfold port_at in Hp. destruct (vget P p) as [l|], (vget P' p) as [l'|]; try done. f_equal. by apply vget_ext.
Qed.

Lemma ports_moved (h f : MutableFaninView -> MutableFaninView) (g g' : G) l x v : visited port_entry port_keep h g g' l ->
  vget (nodes_ g) x = Some v ->
  (forall p c e, port_at (regular_fanouts_by_port_ v) p c = Some e -> f e = if bool_decide ((x, (p, c)) ∈ l) then h e else e) ->
  vget (nodes_ g') x = Some (set_regular_fanouts (map (map f) (regular_fanouts_by_port_ v)) (num_regular_fanouts_ v) v).
Proof.
  intros Hvi Hv Hf. destruct (vi_node _ _ _ _ _ _ Hvi x v Hv) as (v' & Hv' & [E1 E2] & He). rewrite Hv', E1. f_equal. f_equal.
  apply ports_ext.
  - rewrite E2, map_map. apply map_ext. intros c. by rewrite size_map.
  - intros p c. specialize (He (p, c)). unfold port_entry in He. cbn [fst snd] in He. rewrite He. unfold port_at. rewrite vget_map.
    specialize (Hf p c). unfold port_at in Hf. destruct (vget (regular_fanouts_by_port_ v) p) as [q|]; cbn; [|by case_bool_decide].
    cbn in Hf. rewrite vget_map. destruct (vget q c) as [e|]; cbn; [rewrite (Hf e eq_refl)|]; by case_bool_decide.
Qed.
End ports.

(** ** The last node takes the place of a removed one *)

(** Node [i] has no edges. *)
Record isolated {AttrValue} (g : MutableGraphView AttrValue) (i : Z) : Prop := {
  is_fanin : forall k, fanin_at g i k = None;
  is_control_fanin : forall k, control_fanin_at g i k = None;
  is_fanout : forall p f, fanout_at g i p f = None;
  is_control_fanout : forall f, control_fanout_at g i f = None
}.

Section move.
  Context {AttrValue : Type}.
  #[local] Notation G := (MutableGraphView AttrValue).
  #[local] Notation M := (ST G).

Context (g : G) (i last : Z) (vl : MutableNodeView) (Hg : core_ok ∅ ∅ g) (Hi : isolated g i) (Hne : i <> last)
  (Hvl : vget (nodes_ g) last = Some vl).

(** The exchange of [i] and the last index. *)
Definition exchange (x : Z) : Z := if x =? last then i else if x =? i then last else x.
#[local] Notation fo := (renumber_fanout exchange).
#[local] Notation fi := (renumber_fanin exchange).

Lemma exchange_last : exchange last = i.
Proof. unfold exchange. by rewrite Z.eqb_refl. Qed.
Lemma exchange_other x : x <> last -> x <> i -> exchange x = x.
Proof. intros H1 H2. unfold exchange. by rewrite !(proj2 (Z.eqb_neq _ _)) by done. Qed.

Lemma fanout_not_gone x p c e : fanout_at g x p c = Some e -> fanin_node_index e <> i.
Proof.
  intros He E. destruct (ok_fanout _ _ (ok_edges _ _ _ Hg) _ _ _ _ He) as [_ Hf]. by rewrite E, (is_fanin _ _ Hi) in Hf.
Qed.
Lemma control_fanout_not_gone x c e : control_fanout_at g x c = Some e -> fanin_node_index e <> i.
Proof.
  intros He E. destruct (ok_control_fanout _ _ (ok_controls _ _ _ Hg) _ _ _ He) as [_ Hf]. by rewrite E, (is_control_fanin _ _ Hi) in Hf.
Qed.
Lemma fanin_not_gone x k w : fanin_at g x k = Some w -> fanout_node_index w <> i.
Proof.
  intros Hw E. destruct (ok_fanin _ _ (ok_edges _ _ _ Hg) _ _ _ Hw) as [_ Hf]. specialize (Hf ltac:(set_solver)).
  by rewrite E, (is_fanout _ _ Hi) in Hf.
Qed.
Lemma control_fanin_not_gone x k w : control_fanin_at g x k = Some w -> fanout_node_index w <> i.
Proof.
  intros Hw E. destruct (ok_control_fanin _ _ (ok_controls _ _ _ Hg) _ _ _ Hw) as [_ Hf]. specialize (Hf ltac:(set_solver)).
  by rewrite E, (is_control_fanout _ _ Hi) in Hf.
Qed.

Lemma move_fanout e : fanin_node_index e <> i -> fo e = if bool_decide (fanin_node_index e = last) then set_fanout_node i e else e.
Proof.
  intros H. unfold renumber_fanout. case_bool_decide as E; [by rewrite E, exchange_last|]. rewrite exchange_other by done. by destruct e.
Qed.
Lemma move_fanin w : fanout_node_index w <> i -> fi w = if bool_decide (fanout_node_index w = last) then set_fanin_node i w else w.
Proof.
  intros H. unfold renumber_fanin. case_bool_decide as E; [by rewrite E, exchange_last|]. rewrite exchange_other by done. by destruct w.
Qed.

(** Where the entries stand whose other end is the last node. *)
Definition regular_sources : list (Z * (Z * Z)) :=
  map (fun w => (fanout_node_index w, (fanout_port_index w, fanout_index_ w))) (regular_fanins_ vl).
Definition control_sources : list (Z * Z) := map (fun w => (fanout_node_index w, fanout_index_ w)) (controlling_fanins_ vl).
Definition regular_targets : list (Z * Z) := map (fun e => (fanin_node_index e, fanin_index_ e)) (concat (regular_fanouts_by_port_ vl)).
Definition control_targets : list (Z * Z) := map (fun e => (fanin_node_index e, fanin_index_ e)) (controlled_fanouts_ vl).

Lemma elem_of_regular_sources x p c : (x, (p, c)) ∈ regular_sources <->
  exists k, fanout_at g x p c = Some (mk_FaninView last k k).
Proof.
  unfold regular_sources. rewrite list_elem_of_fmap. setoid_rewrite elem_of_vget. split.
  - intros (w & [= -> -> ->] & k & Hw). exists k. apply (ok_fanin _ _ (ok_edges _ _ _ Hg) last k w); [|set_solver]. apply fanin_at_Some. eauto.
  - intros [k Hk]. destruct (ok_fanout _ _ (ok_edges _ _ _ Hg) _ _ _ _ Hk) as [_ Hf]. apply fanin_at_Some in Hf as (v & Hv & Hw).
    cbn in Hv, Hw. rewrite Hvl in Hv. injection Hv as <-. eexists. split; [|eauto]. done.
Qed.

Lemma elem_of_control_sources x c : (x, c) ∈ control_sources <->
  exists k, control_fanout_at g x c = Some (mk_FaninView last kControlSlot k).
Proof.
  unfold control_sources. rewrite list_elem_of_fmap. setoid_rewrite elem_of_vget. split.
  - intros (w & [= -> ->] & k & Hw). exists k. apply (ok_control_fanin _ _ (ok_controls _ _ _ Hg) last k w); [|set_solver]. apply control_fanin_at_Some. eauto.
  - intros [k Hk]. destruct (ok_control_fanout _ _ (ok_controls _ _ _ Hg) _ _ _ Hk) as [_ Hf]. apply control_fanin_at_Some in Hf as (v & Hv & Hw).
    cbn in Hv, Hw. rewrite Hvl in Hv. injection Hv as <-. eexists. split; [|eauto]. done.
Qed.

Lemma elem_of_regular_targets x k : (x, k) ∈ regular_targets <-> exists p c, fanin_at g x k = Some (mk_FanoutView last p c).
Proof.
  unfold regular_targets. rewrite list_elem_of_fmap. setoid_rewrite list_elem_of_In. setoid_rewrite in_concat. setoid_rewrite <- list_elem_of_In. split.
  - intros (e & [= -> ->] & l & [p Hl]%elem_of_vget & [c He]%elem_of_vget). exists p, c.
    destruct (ok_fanout _ _ (ok_edges _ _ _ Hg) last p c e) as [Hp Hf]; [apply fanout_at_Some; eauto|]. by rewrite <- Hp.
  - intros (p & c & Hk). destruct (ok_fanin _ _ (ok_edges _ _ _ Hg) _ _ _ Hk) as [_ Hf]. specialize (Hf ltac:(set_solver)).
    apply fanout_at_Some in Hf as (v & l & Hv & Hl & He). cbn in Hv, Hl, He. rewrite Hvl in Hv. injection Hv as <-. eexists. split; [|exists l; split; apply elem_of_vget; eauto]. done.
Qed.

Lemma elem_of_control_targets x k : (x, k) ∈ control_targets <-> exists c, control_fanin_at g x k = Some (mk_FanoutView last kControlSlot c).
Proof.
  unfold control_targets. rewrite list_elem_of_fmap. setoid_rewrite elem_of_vget. split.
  - intros (e & [= -> ->] & c & He). exists c. apply (ok_control_fanout _ _ (ok_controls _ _ _ Hg) last c e). apply control_fanout_at_Some. eauto.
  - intros [c Hk]. destruct (ok_control_fanin _ _ (ok_controls _ _ _ Hg) _ _ _ Hk) as [_ Hf]. specialize (Hf ltac:(set_solver)).
    apply control_fanout_at_Some in Hf as (v & Hv & He). cbn in Hv, He. rewrite Hvl in Hv. injection Hv as <-. eexists. split; [|eauto]. done.
Qed.

(** The new entries of a node, by where they stand. *)
Lemma moved_port x v p c e : vget (nodes_ g) x = Some v -> port_at (regular_fanouts_by_port_ v) p c = Some e ->
  fo e = if bool_decide ((x, (p, c)) ∈ regular_sources) then set_fanout_node i e else e.
Proof.
  intros Hv (l & Hl & He)%bind_Some. assert (fanout_at g x p c = Some e) as Hf by (apply fanout_at_Some; eauto).
  rewrite move_fanout by (by eapply fanout_not_gone). rewrite (bool_decide_ext (fanin_node_index e = last) ((x, (p, c)) ∈ regular_sources)); [done|].
  rewrite elem_of_regular_sources, Hf. split; [|intros [k [= ->]]; done].
  intros <-. exists (fanin_index_ e). destruct (ok_fanout _ _ (ok_edges _ _ _ Hg) _ _ _ _ Hf) as [Hp _]. destruct e. cbn in *. by subst.
Qed.

Lemma moved_control_fanout x v c e : vget (nodes_ g) x = Some v -> vget (controlled_fanouts_ v) c = Some e ->
  fo e = if bool_decide ((x, c) ∈ control_sources) then set_fanout_node i e else e.
Proof.
  intros Hv He. assert (control_fanout_at g x c = Some e) as Hf by (apply control_fanout_at_Some; eauto).
  rewrite move_fanout by (by eapply control_fanout_not_gone). rewrite (bool_decide_ext (fanin_node_index e = last) ((x, c) ∈ control_sources)); [done|].
  rewrite elem_of_control_sources, Hf. split; [|intros [k [= ->]]; done].
  intros <-. exists (fanin_index_ e). destruct (ok_control_fanout _ _ (ok_controls _ _ _ Hg) _ _ _ Hf) as [Hp _]. destruct e. cbn in *. by subst.
Qed.

Lemma moved_fanin x v k w : vget (nodes_ g) x = Some v -> vget (regular_fanins_ v) k = Some w ->
  fi w = if bool_decide ((x, k) ∈ regular_targets) then set_fanin_node i w else w.
Proof.
  intros Hv Hw. assert (fanin_at g x k = Some w) as Hf by (apply fanin_at_Some; eauto).
  rewrite move_fanin by (by eapply fanin_not_gone). rewrite (bool_decide_ext (fanout_node_index w = last) ((x, k) ∈ regular_targets)); [done|].
  rewrite elem_of_regular_targets, Hf. split; [|intros (p & c & [= ->]); done].
  intros <-. exists (fanout_port_index w), (fanout_index_ w). by destruct w.
Qed.

Lemma moved_control_fanin x v k w : vget (nodes_ g) x = Some v -> vget (controlling_fanins_ v) k = Some w ->
  fi w = if bool_decide ((x, k) ∈ control_targets) then set_fanin_node i w else w.
Proof.
  intros Hv Hw. assert (control_fanin_at g x k = Some w) as Hf by (apply control_fanin_at_Some; eauto).
  rewrite move_fanin by (by eapply control_fanin_not_gone). rewrite (bool_decide_ext (fanout_node_index w = last) ((x, k) ∈ control_targets)); [done|].
  rewrite elem_of_control_targets, Hf. split; [|intros (c & [= ->]); done].
  intros <-. exists (fanout_index_ w). destruct (ok_control_fanin _ _ (ok_controls _ _ _ Hg) _ _ _ Hf) as [Hp _]. destruct w. cbn in *. by subst.
Qed.

(** The fanouts of the last node are of other nodes. *)
Lemma own_fanouts : map (map fo) (regular_fanouts_by_port_ vl) = regular_fanouts_by_port_ vl /\
  map fo (controlled_fanouts_ vl) = controlled_fanouts_ vl.
Proof.
  split.
  - apply vget_ext. intros p. rewrite vget_map. destruct (vget (regular_fanouts_by_port_ vl) p) as [l|] eqn:Hl; [|done]. cbn. f_equal.
    apply vget_ext. intros c. rewrite vget_map. destruct (vget l c) as [e|] eqn:He; [|done]. cbn. f_equal.
    assert (fanout_at g last p c = Some e) as Hf by (apply fanout_at_Some; eauto). rewrite move_fanout by (by eapply fanout_not_gone).
    rewrite bool_decide_false; [done|]. intros E. destruct (ok_fanout _ _ (ok_edges _ _ _ Hg) _ _ _ _ Hf) as [_ Hfi].
    rewrite E in Hfi. by apply (fanin_not_self ∅ ∅ g last) in Hfi.
  - apply vget_ext. intros c. rewrite vget_map. destruct (vget (controlled_fanouts_ vl) c) as [e|] eqn:He; [|done]. cbn. f_equal.
    assert (control_fanout_at g last c = Some e) as Hf by (apply control_fanout_at_Some; eauto). rewrite move_fanout by (by eapply control_fanout_not_gone).
    rewrite bool_decide_false; [done|]. intros E. destruct (ok_control_fanout _ _ (ok_controls _ _ _ Hg) _ _ _ Hf) as [_ Hfi].
    rewrite E in Hfi. by apply (control_not_self ∅ ∅ g last) in Hfi.
Qed.

(** *** The loops *)

Definition with_index (x : Z) (v : MutableNodeView) : MutableNodeView := if bool_decide (x = last) then set_view_node_index i v else v.
Definition with_ports (v : MutableNodeView) : MutableNodeView :=
  set_regular_fanouts (map (map fo) (regular_fanouts_by_port_ v)) (num_regular_fanouts_ v) v.
Definition with_control_fanouts (v : MutableNodeView) : MutableNodeView := set_controlled_fanouts (map fo (controlled_fanouts_ v)) v.
Definition with_fanins (v : MutableNodeView) : MutableNodeView := set_regular_fanins (map fi (regular_fanins_ v)) v.
Definition with_control_fanins (v : MutableNodeView) : MutableNodeView := set_controlling_fanins (map fi (controlling_fanins_ v)) v.

Lemma with_all x v : x <> i -> node_index_ v = x ->
  with_control_fanins (with_fanins (with_control_fanouts (with_ports (with_index x v)))) = renumber_node exchange v.
Proof.
  intros Hx Hn. unfold with_index. case_bool_decide as E.
  - unfold renumber_node. rewrite Hn, E, exchange_last. done.
  - unfold renumber_node. rewrite Hn, exchange_other by done. rewrite <- Hn. by destruct v.
Qed.

(** From the state [s0]: the nodes are those of [g], each changed by [F]. *)
Context (s0 : G).
Record staged (F : Z -> MutableNodeView -> MutableNodeView) (s : G) : Prop := {
  st_frame : exists ns, s = set_nodes ns s0 /\ size_ ns = size_ (nodes_ g);
  st_node : forall x v, vget (nodes_ g) x = Some v -> vget (nodes_ s) x = Some (F x v)
}.

Lemma staged_visited {A E} `{!EqDecision A} (entry : MutableNodeView -> A -> option E) keep h s s' l F F' : staged F s ->
  visited entry keep h s s' l -> (forall x v, vget (nodes_ g) x = Some v -> vget (nodes_ s') x = Some (F' x v)) -> staged F' s'.
Proof.
  intros [(ns & -> & Hns) _] Hvi HF. destruct (vi_frame _ _ _ _ _ _ Hvi) as (ns' & -> & Hns'). split; [|done].
  exists ns'. split; [done|]. rewrite Hns'. exact Hns.
Qed.

Lemma regular_fanins_visit l : move_regular_fanins (AttrValue := AttrValue) i l =
  visit (fun j a => update_regular_fanout j a.1 a.2 (set_fanout_node i)) (map (fun w => (fanout_node_index w, (fanout_port_index w, fanout_index_ w))) l).
Proof. induction l as [|w l IH]; cbn; [done|]. by rewrite IH. Qed.
Lemma controlling_fanins_visit l : move_controlling_fanins (AttrValue := AttrValue) i l =
  visit (fun j f => update_controlled_fanout j f (set_fanout_node i)) (map (fun w => (fanout_node_index w, fanout_index_ w)) l).
Proof. induction l as [|w l IH]; cbn; [done|]. by rewrite IH. Qed.
Lemma regular_fanouts_visit l : move_regular_fanouts (AttrValue := AttrValue) i l =
  visit (fun j k => update_regular_fanin j k (set_fanin_node i)) (map (fun w => (fanin_node_index w, fanin_index_ w)) l).
Proof. induction l as [|w l IH]; cbn; [done|]. by rewrite IH. Qed.
Lemma controlled_fanouts_visit l : move_controlled_fanouts (AttrValue := AttrValue) i l =
  visit (fun j k => update_controlling_fanin j k (set_fanin_node i)) (map (fun w => (fanin_node_index w, fanin_index_ w)) l).
Proof. induction l as [|w l IH]; cbn; [done|]. by rewrite IH. Qed.

Lemma stage_ports s : staged with_index s -> runs (v ← node_at last; move_regular_fanins i (regular_fanins_ v)) s
  (fun _ s' => staged (fun x v => with_ports (with_index x v)) s').
Proof.
  intros Hst. pose proof (st_node _ _ Hst) as Hs. run_step. eapply runs_node_at; [exact (Hs _ _ Hvl)|]. rewrite regular_fanins_visit.
  assert (forall x v, regular_fanins_ (with_index x v) = regular_fanins_ v /\ regular_fanouts_by_port_ (with_index x v) = regular_fanouts_by_port_ v) as Hw
    by (intros x v; unfold with_index; by case_bool_decide).
  rewrite (proj1 (Hw last vl)). fold regular_sources. eapply runs_mono; [apply (visit_spec port_entry port_put port_keep (set_fanout_node i))|].
  - intros v a e e'. apply port_put_ok.
  - done.
  - intros j [p f] s1 v e Q Hv (l & Hlp & He)%bind_Some HQ. unfold update_regular_fanout. cbn [fst snd] in *. run_step. eapply runs_node_at; [exact Hv|].
    run_step. eapply runs_at; [exact Hlp|]. run_step. eapply runs_at; [exact He|]. eapply runs_update_node; [exact Hv|].
    unfold port_put in HQ. cbn [fst snd] in HQ. by rewrite Hlp in HQ.
  - intros j [p c] [k Hk]%elem_of_regular_sources. apply fanout_at_Some in Hk as (v & l & Hv & Hlp & He).
    unfold entry_at. rewrite (Hs _ _ Hv). cbn [mbind option_bind]. unfold port_entry, port_at. cbn [fst snd].
    rewrite (proj2 (Hw j v)), Hlp. cbn. eauto.
  - intros u s' Hvi. eapply staged_visited; [exact Hst|exact Hvi|]. intros x v Hv.
    eapply (ports_moved _ fo); [exact Hvi|by apply Hs|]. intros p c e. rewrite (proj2 (Hw x v)). by apply moved_port.
Qed.

Section field_stage.
Context {E : Type} (getl : MutableNodeView -> list E) (setl : list E -> MutableNodeView -> MutableNodeView).
Context (Hgs : forall l v, getl (setl l v) = l) (Hss : forall l l' v, setl l (setl l' v) = setl l v) (Hsg : forall v, setl (getl v) v = v).
Context (h : E -> E) (Hh : forall e, h (h e) = h e) (f : E -> E) (step : Z -> Z -> M unit).
Context (Hstep : forall j k s v e (Q : unit -> G -> Prop), vget (nodes_ s) j = Some v -> vget (getl v) k = Some e ->
  Q tt (set_nodes (vset (nodes_ s) j (setl (vset (getl v) k (h e)) v)) s) -> runs (step j k) s Q).

Lemma field_stage F s l : staged F s -> (forall x v, getl (F x v) = getl v) ->
  (forall x k, (x, k) ∈ l -> exists v, vget (nodes_ g) x = Some v /\ is_Some (vget (getl v) k)) ->
  (forall x v k e, vget (nodes_ g) x = Some v -> vget (getl v) k = Some e -> f e = if bool_decide ((x, k) ∈ l) then h e else e) ->
  runs (visit step l) s (fun _ s' => staged (fun x v => setl (map f (getl (F x v))) (F x v)) s').
Proof.
  intros Hst HF Hl Hf. pose proof (st_node _ _ Hst) as Hs. pose proof (field_keep_preorder getl setl Hss Hsg) as Hpre.
  eapply runs_mono; [apply (visit_spec (field_entry getl) (field_put getl setl) (field_keep getl setl) h step)|].
  - intros v a e e'. by apply field_put_ok.
  - done.
  - exact Hstep.
  - intros x k Hk. destruct (Hl x k Hk) as (v & Hv & He). unfold entry_at. rewrite (Hs _ _ Hv). cbn [mbind option_bind].
    unfold field_entry. by rewrite HF.
  - intros u s' Hvi. eapply staged_visited; [exact Hst|exact Hvi|]. intros x v Hv.
    eapply (field_moved getl setl h f); [exact Hvi|by apply Hs|]. intros k e. rewrite HF. by apply Hf.
Qed.
End field_stage.

Lemma stage_control_fanouts F s : staged F s -> (forall x v, controlled_fanouts_ (F x v) = controlled_fanouts_ v) ->
  controlling_fanins_ (F last vl) = controlling_fanins_ vl ->
  runs (v ← node_at last; move_controlling_fanins i (controlling_fanins_ v)) s
    (fun _ s' => staged (fun x v => with_control_fanouts (F x v)) s').
Proof.
  intros Hst HF Hl. run_step. eapply runs_node_at; [exact (st_node _ _ Hst _ _ Hvl)|]. rewrite controlling_fanins_visit, Hl. fold control_sources.
  apply (field_stage controlled_fanouts_ set_controlled_fanouts) with (h := set_fanout_node i); try done.
  - intros v. by destruct v.
  - intros j k s1 v e Q Hv He HQ. unfold update_controlled_fanout. run_step. eapply runs_node_at; [exact Hv|].
    run_step. eapply runs_at; [exact He|]. by eapply runs_update_node.
  - intros x k [c Hc]%elem_of_control_sources. apply control_fanout_at_Some in Hc as (v & Hv & Hc). exists v. split; [done|]. rewrite Hc. eauto.
  - intros x v k e. apply moved_control_fanout.
Qed.

Lemma stage_fanins F s : staged F s -> (forall x v, regular_fanins_ (F x v) = regular_fanins_ v) ->
  regular_fanouts_by_port_ (F last vl) = regular_fanouts_by_port_ vl ->
  runs (v ← node_at last; move_regular_fanouts i (concat (regular_fanouts_by_port_ v))) s
    (fun _ s' => staged (fun x v => with_fanins (F x v)) s').
Proof.
  intros Hst HF Hl. run_step. eapply runs_node_at; [exact (st_node _ _ Hst _ _ Hvl)|]. rewrite regular_fanouts_visit, Hl. fold regular_targets.
  apply (field_stage regular_fanins_ set_regular_fanins) with (h := set_fanin_node i); try done.
  - intros v. by destruct v.
  - intros j k s1 v e Q Hv He HQ. unfold update_regular_fanin. run_step. eapply runs_node_at; [exact Hv|].
    run_step. eapply runs_at; [exact He|]. by eapply runs_update_node.
  - intros x k (p & c & Hc)%elem_of_regular_targets. apply fanin_at_Some in Hc as (v & Hv & Hc). exists v. split; [done|]. rewrite Hc. eauto.
  - intros x v k e. apply moved_fanin.
Qed.

Lemma stage_control_fanins F s : staged F s -> (forall x v, controlling_fanins_ (F x v) = controlling_fanins_ v) ->
  controlled_fanouts_ (F last vl) = controlled_fanouts_ vl ->
  runs (v ← node_at last; move_controlled_fanouts i (controlled_fanouts_ v)) s
    (fun _ s' => staged (fun x v => with_control_fanins (F x v)) s').
Proof.
  intros Hst HF Hl. run_step. eapply runs_node_at; [exact (st_node _ _ Hst _ _ Hvl)|]. rewrite controlled_fanouts_visit, Hl. fold control_targets.
  apply (field_stage controlling_fanins_ set_controlling_fanins) with (h := set_fanin_node i); try done.
  - intros v. by destruct v.
  - intros j k s1 v e Q Hv He HQ. unfold update_controlling_fanin. run_step. eapply runs_node_at; [exact Hv|].
    run_step. eapply runs_at; [exact He|]. by eapply runs_update_node.
  - intros x k (c & Hc)%elem_of_control_targets. apply control_fanin_at_Some in Hc as (v & Hv & Hc). exists v. split; [done|]. rewrite Hc. eauto.
  - intros x v k e. apply moved_control_fanin.
Qed.

(** All loops: the last node has the index [i] everywhere. *)
Lemma move_spec {A} (K : M A) (Q : A -> G -> Prop) : nodes_ s0 = nodes_ g ->
  (forall s, staged (fun x v => with_control_fanins (with_fanins (with_control_fanouts (with_ports (with_index x v))))) s -> runs K s Q) ->
  runs (update_node last (set_view_node_index i);;
        v ← node_at last; move_regular_fanins i (regular_fanins_ v);;
        v ← node_at last; move_controlling_fanins i (controlling_fanins_ v);;
        v ← node_at last; move_regular_fanouts i (concat (regular_fanouts_by_port_ v));;
        v ← node_at last; move_controlled_fanouts i (controlled_fanouts_ v);; K) s0 Q.
Proof.
  intros Hs HK. pose proof (vget_Some _ _ _ Hvl) as Hr. run_step. eapply runs_update_node; [by rewrite Hs|]. set (s1 := set_nodes _ s0).
  assert (staged with_index s1) as H1.
  { split; [eexists; split; [done|]; by rewrite Hs, size_vset|]. intros x v Hv. cbn [nodes_ s1 set_nodes]. rewrite Hs, vget_vset by done.
    unfold with_index. rewrite (bool_decide_ext (last = x) (x = last)) by done. case_bool_decide; [|done]. subst x. congruence. }
  destruct own_fanouts as [Ho Hoc].
  apply (runs_group (node_at last)). run_step. eapply runs_mono; [by apply stage_ports|]. intros u2 s2 H2.
  apply (runs_group (node_at last)). run_step. eapply runs_mono; [apply (stage_control_fanouts _ _ H2)|].
  { intros x v. unfold with_ports, with_index. by case_bool_decide. } { unfold with_ports, with_index. by case_bool_decide. }
  intros u3 s3 H3. apply (runs_group (node_at last)). run_step. eapply runs_mono; [apply (stage_fanins _ _ H3)|].
  { intros x v. unfold with_control_fanouts, with_ports, with_index. by case_bool_decide. }
  { unfold with_control_fanouts, with_ports, with_index. case_bool_decide; exact Ho. }
  intros u4 s4 H4. apply (runs_group (node_at last)). run_step. eapply runs_mono; [apply (stage_control_fanins _ _ H4)|].
  { intros x v. unfold with_fanins, with_control_fanouts, with_ports, with_index. by case_bool_decide. }
  { unfold with_fanins, with_control_fanouts, with_ports, with_index. case_bool_decide; exact Hoc. }
  intros u5 s5 H5. by apply HK.
Qed.
End move.
