(* ===== verification/GraphRemoval.v ===== *)
(** * GraphRemoval: what [RemoveNodesInternal] leaves

    While nodes are removed, the names and the NodeDefs of a state lag behind its
    nodes; [shadow] relates it to a view in which all is in step and the removed
    nodes have no edges.  The nodes that are not removed keep their contents. *)

From S2P Require Import Prelude TensorName Vec GraphView GraphInv TopoSort Renumber GraphEdit GraphEditProofs GraphBuild GraphBulk HashOrder GraphDiff GraphContent GraphMutation GraphMutationProofs GraphValidate GraphValidateProofs GraphApply GraphUpdate GraphNewNodes GraphRemoveNodes.
#[local] Open Scope string_scope.
#[local] Open Scope list_scope.
#[local] Open Scope Z_scope.

(** ** A view without its last node

    A last node without edges can be cut off a consistent view. *)

Section cut.
Context {AttrValue : Type} (g : MutableGraphView AttrValue).
#[local] Notation last := (size_ (nodes_ g) - 1).

Definition cut : MutableGraphView AttrValue :=
  mk_GraphView (take (Z.to_nat last) (graph g)) (take (Z.to_nat last) (nodes_ g))
    (delete (name_of g last) (node_index_by_name_ g)) (mutation_ g).

Context (Hg : core_ok ∅ ∅ g) (Hlast : 0 <= last) (Hiso : isolated g last).

Lemma cut_len : size_ (graph g) = size_ (nodes_ g).
Proof. symmetry. apply Hg. Qed.

Lemma cut_def i : vget (graph cut) i = if bool_decide (i < last) then vget (graph g) i else None.
Proof. by apply vget_take_if. Qed.
Lemma cut_node i : vget (nodes_ cut) i = if bool_decide (i < last) then vget (nodes_ g) i else None.
Proof. by apply vget_take_if. Qed.

Lemma cut_size : size_ (nodes_ cut) = last /\ size_ (graph cut) = last.
Proof. pose proof cut_len. unfold cut, size_ in *. cbn. rewrite !length_take. lia. Qed.

Lemma cut_name_of i : i < last -> name_of cut i = name_of g i.
Proof. intros Hi. unfold name_of. by rewrite cut_def, bool_decide_true. Qed.

Lemma cut_at {A} i (h : MutableNodeView -> option A) : (v ← vget (nodes_ g) last; h v) = None ->
  (v ← vget (nodes_ cut) i; h v) = (v ← vget (nodes_ g) i; h v).
Proof.
  intros Hh. rewrite cut_node. case_bool_decide as E; [done|]. cbn. symmetry. destruct (decide (i = last)) as [->|Hi]; [done|].
  by rewrite vget_None by lia.
Qed.

(** No fanin comes from the last node. *)
Lemma cut_source i v w : vget (nodes_ g) i = Some v -> w ∈ regular_fanins_ v ++ controlling_fanins_ v ->
  0 <= fanout_node_index w < last.
Proof.
  intros Hv Hw. destruct (ok_fanin_range _ _ _ _ _ (ok_index_ok _ _ _ Hg i v Hv) w Hw) as [Hr _]. rewrite cut_len in Hr.
  destruct (decide (fanout_node_index w = last)) as [E|]; [|lia]. exfalso. apply elem_of_app in Hw as [[k Hk]%elem_of_vget|[k Hk]%elem_of_vget].
  - assert (fanin_at g i k = Some w) as Hf by (apply fanin_at_Some; eauto).
    destruct (ok_fanin _ _ (ok_edges _ _ _ Hg) _ _ _ Hf) as [_ Hfo]. specialize (Hfo ltac:(set_solver)). by rewrite E, (is_fanout _ _ Hiso) in Hfo.
  - assert (control_fanin_at g i k = Some w) as Hf by (apply control_fanin_at_Some; eauto).
    destruct (ok_control_fanin _ _ (ok_controls _ _ _ Hg) _ _ _ Hf) as [_ Hfo]. specialize (Hfo ltac:(set_solver)). by rewrite E, (is_control_fanout _ _ Hiso) in Hfo.
Qed.

Lemma cut_names : names_ok cut.
Proof.
  pose proof (ok_names_ok _ _ _ Hg) as Hn. pose proof cut_len as Hl. destruct cut_size as [Hs1 Hs2]. split.
  - by rewrite Hs1, Hs2.
  - intros i v. rewrite cut_node. case_bool_decide; [|done]. apply (ok_index _ Hn).
  - intros s i. cbn [node_index_by_name_ cut]. rewrite lookup_delete_Some, (ok_names _ Hn). setoid_rewrite cut_def. split.
    + intros [Hs (d & Hd & Hds)]. exists d. rewrite bool_decide_true; [done|]. pose proof (vget_Some _ _ _ Hd).
      destruct (decide (i = last)) as [->|]; [|lia]. exfalso. apply Hs. unfold name_of. by rewrite Hd.
    + intros (d & Hd & Hds). case_bool_decide as E; [|done]. split; [|eauto]. intros <-. destruct (vget_ex (graph g) last) as [e He]; [lia|].
      assert (node_index_by_name_ g !! name d = Some i) as H1 by (apply (ok_names _ Hn); eauto).
      assert (node_index_by_name_ g !! name d = Some last) as H2 by (apply (ok_names _ Hn); exists e; split; [done|]; rewrite Hds; unfold name_of; by rewrite He).
      rewrite H1 in H2. injection H2. lia.
  - intros i j d e. rewrite !cut_def. case_bool_decide; [|done]. case_bool_decide; [|done]. apply (ok_address _ Hn).
Qed.

Lemma cut_index_ok i v : vget (nodes_ g) i = Some v -> i < last -> index_ok ∅ ∅ cut i v.
Proof.
  intros Hv Hi. pose proof (ok_index_ok _ _ _ Hg i v Hv) as Hix. pose proof cut_len as Hl. destruct cut_size as [Hs1 Hs2]. split.
  - intros j p Hj. rewrite Hs2 in Hj. rewrite !live_empty. pose proof (ok_count _ _ _ _ _ Hix j p ltac:(lia)) as Hc. rewrite !live_empty in Hc.
    rewrite <- Hc. unfold address_of. rewrite cut_def, bool_decide_true by lia. done.
  - intros s k. rewrite (ok_control_index _ _ _ _ _ Hix s k). split; intros (w & Hw & Hk & Hs); exists w; (split; [done|]; split; [done|]);
      rewrite <- Hs; [|symmetry]; (apply cut_name_of, (cut_source i v w Hv), elem_of_app; right; apply elem_of_vget; eauto).
  - intros w Hw. rewrite Hs2. split; [by eapply cut_source|]. by apply (ok_fanin_range _ _ _ _ _ Hix).
  - intros a p Ha. pose proof (ok_count_known _ _ _ _ _ Hix a p Ha) as (d & -> & [j Hd]%elem_of_vget)%list_elem_of_fmap.
    apply list_elem_of_fmap. exists d. split; [done|]. apply elem_of_vget. exists j. rewrite cut_def, bool_decide_true; [done|].
    pose proof (vget_Some _ _ _ Hd). destruct (decide (j = last)) as [E|]; [|lia]. exfalso.
    pose proof (ok_count _ _ _ _ _ Hix j p ltac:(lia)) as Hc. unfold address_of in Hc. rewrite Hd in Hc. cbn [fmap option_fmap option_map default from_option id] in Hc.
    unfold id in Hc. rewrite Hc, !live_empty, occurrences_zero in Ha; [by destruct Ha|]. intros w Hw [= E' _]. pose proof (cut_source i v w Hv Hw). lia.
Qed.

Lemma cut_ok : core_ok ∅ ∅ cut.
Proof.
  split.
  - apply cut_names.
  - split.
    + eapply matching_ext; [apply Hg|intros; apply cut_at, (is_fanin _ _ Hiso)|intros; apply cut_at, (is_fanout _ _ Hiso)].
    + intros j v. rewrite cut_node. case_bool_decide; [|done]. apply (ok_num_fanouts _ _ (ok_edges _ _ _ Hg)).
  - eapply matching_ext; [apply Hg|intros; apply cut_at, (is_control_fanin _ _ Hiso)|]. intros j p f. unfold control_fanout_by_port.
    destruct (p =? kControlSlot); [apply cut_at, (is_control_fanout _ _ Hiso)|done].
  - intros i v. rewrite cut_node. case_bool_decide; [|done]. intros Hv. by apply cut_index_ok.
Qed.

Lemma cut_fanin_id i v w : vget (nodes_ g) i = Some v -> w ∈ regular_fanins_ v ++ controlling_fanins_ v -> fanin_id cut w = fanin_id g w.
Proof. intros Hv Hw. unfold fanin_id. rewrite cut_name_of; [done|]. by eapply cut_source. Qed.

Lemma cut_inputs i d v : vget (nodes_ g) i = Some v -> inputs_ok g d v -> inputs_ok cut d v.
Proof.
  intros Hv Hin. unfold inputs_ok in *. rewrite Hin. apply map_ext_in. intros w Hw%list_elem_of_In. symmetry. by apply (cut_fanin_id i v).
Qed.
End cut.

(** ** What [RemoveNodesInternal] leaves *)

Section removal.
  Context {AttrValue : Type}.
  #[local] Notation G := (MutableGraphView AttrValue).
  Implicit Types (g s : G) (R : list Z).

(** The nodes of [R] are dead: nothing is asked of their inputs, and they have no
    edges. *)
Record pruned R g : Prop := {
  pr_core : core_ok ∅ ∅ g;
  pr_inputs : forall i d v, i ∉ R -> vget (graph g) i = Some d -> vget (nodes_ g) i = Some v -> inputs_ok g d v;
  pr_isolated : forall i, i ∈ R -> isolated g i
}.

(** The other nodes go from [g] to [g'], wherever they stand. *)
Record survives R g R' g' : Prop := {
  su_node : forall j d v, j ∉ R -> vget (graph g) j = Some d -> vget (nodes_ g) j = Some v ->
    exists j' v', j' ∉ R' /\ vget (graph g') j' = Some d /\ vget (nodes_ g') j' = Some v' /\
      update_index_ v' = update_index_ v /\ node_content g' d v' ≡ node_content g d v;
  su_back : forall j' d, j' ∉ R' -> vget (graph g') j' = Some d -> exists j, j ∉ R /\ vget (graph g) j = Some d
}.

Lemma survives_refl R g : survives R g R g.
Proof. split; [|eauto]. intros j d v Hj Hd Hv. exists j, v. done. Qed.

Lemma survives_trans R1 g1 R2 g2 R3 g3 : survives R1 g1 R2 g2 -> survives R2 g2 R3 g3 -> survives R1 g1 R3 g3.
Proof.
  intros [H1 H2] [H3 H4]. split.
  - intros j d v Hj Hd Hv. destruct (H1 j d v Hj Hd Hv) as (j2 & v2 & Hj2 & Hd2 & Hv2 & Hu2 & Hc2).
    destruct (H3 j2 d v2 Hj2 Hd2 Hv2) as (j3 & v3 & Hj3 & Hd3 & Hv3 & Hu3 & Hc3). exists j3, v3. split_and!; try done; [congruence|by rewrite Hc3].
  - intros j d Hj Hd. destruct (H4 j d Hj Hd) as (j2 & Hj2 & Hd2). by apply (H2 j2).
Qed.

(** ** A dead node is exchanged with the last one *)

Section exchange.
Context (g g1 : G) (i last : Z) (Hre : renumbered (exchange i last) g g1).

Lemma isolated_renumbered j : core_ok ∅ ∅ g -> 0 <= j < size_ (nodes_ g) -> isolated g j -> isolated g1 (exchange i last j).
Proof.
  intros Hg Hj [H1 H2 H3 H4]. split; intros.
  - by rewrite (re_fanin_at _ _ _ Hre), H1.
  - by rewrite (re_control_fanin_at _ _ _ Hre), H2.
  - by rewrite (re_fanout_at _ _ _ Hre), H3.
  - by rewrite (re_control_fanout_at _ _ _ Hre), H4.
Qed.

Lemma renumbered_content j d v : core_ok ∅ ∅ g -> vget (nodes_ g) j = Some v ->
  node_content g1 d (renumber_node (exchange i last) v) ≡ node_content g d v.
Proof.
  intros Hg Hv. split_and!; try done.
  - intros k. cbn. rewrite vget_map. destruct (vget (regular_fanins_ v) k) as [w|] eqn:Hw; [|done]. cbn. f_equal.
    apply (renumbered_fanin_id _ _ _ Hre Hg j v w Hv). apply elem_of_app. left. apply elem_of_vget. eauto.
  - cbn. unfold control_names. cbn. rewrite map_map. f_equal. apply map_ext_in. intros w Hw%list_elem_of_In.
    pose proof (renumbered_fanin_id _ _ _ Hre Hg j v w Hv ltac:(apply elem_of_app; by right)) as E. by injection E.
Qed.

Lemma renumber_step R : pruned (i :: R) g -> 0 <= i < last -> last = size_ (nodes_ g) - 1 -> (forall j, j ∈ R -> 0 <= j < i) ->
  pruned (last :: R) g1 /\ survives (i :: R) g (last :: R) g1.
Proof.
  intros [Hg Hin Hiso] Hi Hl HR. assert (exchange i last last = i) as El by apply exchange_last.
  assert (exchange i last i = last) as Ei by (unfold exchange; by rewrite (proj2 (Z.eqb_neq i last)), Z.eqb_refl by lia).
  assert (forall j, j <> last -> j <> i -> exchange i last j = j) as Eo by (intros; by apply exchange_other).
  pose proof (re_len _ Hg) as Hlen.
  assert (forall j, j ∉ i :: R -> exchange i last j ∉ last :: R) as Hlive.
  { intros j Hj. rewrite !not_elem_of_cons in *. destruct Hj as [Hji HjR]. destruct (decide (j = last)) as [->|Hjl].
    - rewrite El. split; [lia|]. intros H. specialize (HR i H). lia.
    - rewrite Eo by done. done. }
  assert (forall j, exchange i last j ∉ last :: R -> j ∉ i :: R) as Hback.
  { intros j Hj [->|HjR]%elem_of_cons; [rewrite Ei in Hj; apply Hj; left|]. pose proof (HR j HjR). rewrite Eo in Hj by lia. apply Hj. by right. }
  split; [split|split].
  - exact (renumbered_core _ _ _ Hre Hg).
  - intros x d v' Hx (j & Hj & -> & Hd)%(re_def _ _ _ Hre Hg) Hv. rewrite (re_nodes _ _ _ Hre j Hj) in Hv. apply fmap_Some in Hv as (v & Hv & ->).
    apply (renumbered_inputs _ _ _ Hre Hg j d v Hv). by apply (Hin j); [apply Hback| |].
  - intros x [->|Hx]%elem_of_cons.
    + pose proof (isolated_renumbered i Hg ltac:(lia) (Hiso i ltac:(left))) as H. by rewrite Ei in H.
    + pose proof (HR x Hx). rewrite <- (Eo x) by lia. apply isolated_renumbered; [done|lia|apply Hiso; by right].
  - intros j d v Hj Hd Hv. pose proof (vget_Some _ _ _ Hv) as Hr. exists (exchange i last j), (renumber_node (exchange i last) v).
    split; [by apply Hlive|]. rewrite (re_graph _ _ _ Hre j Hr). split; [done|]. rewrite (re_nodes _ _ _ Hre j Hr), Hv. split; [done|].
    split; [done|]. by eapply renumbered_content.
  - intros x d Hx (j & Hj & -> & Hd)%(re_def _ _ _ Hre Hg). exists j. split; [by apply Hback|done].
Qed.
End exchange.

(** ** The last node is cut off *)

Lemma cut_step R g : let last := size_ (nodes_ g) - 1 in pruned (last :: R) g -> 0 <= last -> (forall j, j ∈ R -> 0 <= j < last) ->
  pruned R (cut g) /\ survives (last :: R) g R (cut g).
Proof.
  intros last [Hg Hin Hiso] Hl HR. pose proof (Hiso last ltac:(left)) as Hil. pose proof (cut_ok g Hg Hl Hil) as Hc.
  split; [split|split].
  - done.
  - intros j d v Hj. rewrite cut_def, cut_node by done. case_bool_decide as E; [|done]. intros Hd Hv. apply (cut_inputs g Hg Hl Hil j d v Hv).
    apply (Hin j); [|done|done]. apply not_elem_of_cons. split; [fold last in E; lia|done].
  - intros j Hj. destruct (Hiso j ltac:(by right)) as [H1 H2 H3 H4]. specialize (HR j Hj). destruct Hil as [L1 L2 L3 L4]. split; intros.
    + unfold fanin_at. rewrite cut_at; [apply H1|done|apply L1].
    + unfold control_fanin_at. rewrite cut_at; [apply H2|done|apply L2].
    + unfold fanout_at. rewrite cut_at; [apply H3|done|apply L3].
    + unfold control_fanout_at. rewrite cut_at; [apply H4|done|apply L4].
  - intros j d v Hj Hd Hv. apply not_elem_of_cons in Hj as [Hj HjR]. exists j, v. rewrite cut_def, cut_node by done.
    pose proof (vget_Some _ _ _ Hv). rewrite bool_decide_true by (fold last; unfold last in *; lia). split; [done|]. split; [done|]. split; [done|]. split; [done|]. split_and!; try done.
    + intros k. cbn. destruct (vget (regular_fanins_ v) k) as [w|] eqn:Hw; [|done]. cbn. f_equal.
      apply (cut_fanin_id g Hg Hl Hil j v w Hv). apply elem_of_app. left. apply elem_of_vget. eauto.
    + cbn. unfold control_names. f_equal. apply map_ext_in. intros w Hw%list_elem_of_In.
      pose proof (cut_fanin_id g Hg Hl Hil j v w Hv ltac:(apply elem_of_app; by right)) as E. by injection E.
  - intros j d Hj. rewrite cut_def by done. case_bool_decide as E; [|done]. intros Hd. exists j. split; [|done].
    apply not_elem_of_cons. split; [fold last in E; lia|done].
Qed.

(** ** One node *)

Record shadow R s g : Prop := {
  sh_nodes : nodes_ s = nodes_ g;
  sh_graph : graph g = take (Z.to_nat (size_ (nodes_ g))) (graph s);
  sh_mutation : mutation_ s = mutation_ g;
  sh_names : forall n, node_index_by_name_ s !! n = (j ← node_index_by_name_ g !! n; if bool_decide (j ∈ R) then None else Some j)
}.

Lemma sh_def R s g i : shadow R s g -> i < size_ (nodes_ g) -> vget (graph s) i = vget (graph g) i.
Proof. intros Hsh Hi. rewrite (sh_graph _ _ _ Hsh), vget_take_if by apply size_nonneg. by rewrite bool_decide_true. Qed.

Lemma pop_back_take {A} (l : list A) : 0 < size_ l -> pop_back l = Ok (take (Z.to_nat (size_ l - 1)) l).
Proof.
  destruct (snoc_cases l) as [->|(l' & x & ->)]; [done|]. intros _. rewrite pop_back_snoc, size_snoc. f_equal.
  replace (Z.to_nat (size_ l' + 1 - 1)) with (length l') by (unfold size_; lia). by rewrite take_app_length.
Qed.

(** The view in which node [i] has been exchanged with the last one; [ns] are the
    nodes after the loops. *)
Definition exchanged g (i : Z) (ns : list MutableNodeView) (vi vl : MutableNodeView) (di dl : NodeDef AttrValue) : G :=
  let last := size_ (nodes_ g) - 1 in
  mk_GraphView (vset (vset (graph g) last di) i dl)
    (vset (vset ns last (renumber_node (exchange i last) vi)) i (renumber_node (exchange i last) vl))
    (exchange i last <$> node_index_by_name_ g) (mutation_ g).

Lemma exchange_involutive i last x : exchange i last (exchange i last x) = x.
Proof. unfold exchange. repeat (case_match; bool_to_prop); lia. Qed.

Lemma exchanged_renumbered g i ns vi vl di dl : let last := size_ (nodes_ g) - 1 in
  size_ (graph g) = size_ (nodes_ g) -> size_ ns = size_ (nodes_ g) -> 0 <= i < last ->
  vget (nodes_ g) i = Some vi -> vget (nodes_ g) last = Some vl -> vget (graph g) i = Some di -> vget (graph g) last = Some dl ->
  (forall x v, x <> i -> vget (nodes_ g) x = Some v -> vget ns x = Some (renumber_node (exchange i last) v)) ->
  renumbered (exchange i last) g (exchanged g i ns vi vl di dl).
Proof.
  intros last Hlen Hns Hi Hvi Hvl Hdi Hdl Hn. assert (exchange i last last = i) as El by apply exchange_last.
  assert (exchange i last i = last) as Ei by (unfold exchange; by rewrite (proj2 (Z.eqb_neq i last)), Z.eqb_refl by lia).
  split; fold last; cbn [nodes_ graph node_index_by_name_ exchanged].
  - by rewrite !size_vset.
  - intros x Hx. unfold exchange. repeat (case_match; bool_to_prop); lia.
  - intros x y _ _ E. by rewrite <- (exchange_involutive i last x), E, exchange_involutive.
  - intros x Hx. exists (exchange i last x). split; [|apply exchange_involutive]. unfold exchange. repeat (case_match; bool_to_prop); lia.
  - intros x Hx. fold last. destruct (decide (x = last)) as [->|Hxl]; [|destruct (decide (x = i)) as [->|Hxi]].
    + rewrite El, Hvl, vget_vset_eq by (rewrite size_vset; lia). done.
    + rewrite Ei, Hvi, vget_vset_ne, vget_vset_eq by lia. done.
    + rewrite exchange_other by done. rewrite !vget_vset_ne by done. destruct (vget_ex _ _ Hx) as [v Hv]. rewrite Hv. by apply Hn.
  - intros x Hx. fold last. destruct (decide (x = last)) as [->|Hxl]; [|destruct (decide (x = i)) as [->|Hxi]].
    + rewrite El, Hdl, vget_vset_eq by (rewrite size_vset; lia). done.
    + rewrite Ei, Hdi, vget_vset_ne, vget_vset_eq by lia. done.
    + rewrite exchange_other by done. by rewrite !vget_vset_ne by done.
  - intros n. apply lookup_fmap.
Qed.

(** What is left once node [i] has been removed, in any of the two ways. *)
Record removed_one R i s g s' g' : Prop := {
  ro_shadow : shadow R s' g';
  ro_pruned : pruned R g';
  ro_size : size_ (nodes_ g') = size_ (nodes_ g) - 1;
  ro_graph : size_ (graph s') = size_ (graph s);
  ro_mutation : mutation_ s' = mutation_ s;
  ro_survives : survives (i :: R) g R g'
}.

Lemma remove_last R s g i : shadow (i :: R) s g -> pruned (i :: R) g -> i = size_ (nodes_ g) - 1 -> 0 <= i ->
  (forall j, j ∈ R -> 0 <= j < i) ->
  removed_one R i s g (set_nodes (take (Z.to_nat i) (nodes_ s)) s) (cut g).
Proof.
  intros Hsh Hp Hi Hr HR. destruct (cut_step R g) as [Hp' Hs']; [by rewrite <- Hi|lia|by rewrite <- Hi|].
  pose proof (re_len _ (pr_core _ _ Hp)) as Hlen. destruct (cut_size g (pr_core _ _ Hp) ltac:(lia)) as [Hs1 Hs2].
  split; [split|done|by rewrite Hs1|done|done|by rewrite Hi].
  - cbn. by rewrite (sh_nodes _ _ _ Hsh), Hi.
  - rewrite Hs1. cbn. rewrite (sh_graph _ _ _ Hsh), take_take. f_equal. lia.
  - apply (sh_mutation _ _ _ Hsh).
  - intros n. cbn [node_index_by_name_ set_nodes cut]. rewrite (sh_names _ _ _ Hsh), <- Hi. destruct (decide (n = name_of g i)) as [->|Hn].
    + rewrite lookup_delete_eq. cbn. destruct (node_index_by_name_ g !! name_of g i) as [j|] eqn:E; [|done]. cbn.
      destruct (name_index_range _ _ _ _ _ (pr_core _ _ Hp) E) as [Hj Hnj]. rewrite bool_decide_true; [done|].
      apply (ok_names _ (ok_names_ok _ _ _ (pr_core _ _ Hp))) in E as (d & Hd & Hdn). destruct (vget_ex (graph g) i) as [e He]; [lia|].
      assert (node_index_by_name_ g !! name d = Some j) as H1 by (apply (ok_names _ (ok_names_ok _ _ _ (pr_core _ _ Hp))); eauto).
      assert (node_index_by_name_ g !! name d = Some i) as H2.
      { apply (ok_names _ (ok_names_ok _ _ _ (pr_core _ _ Hp))). exists e. split; [done|]. rewrite Hdn. unfold name_of. by rewrite He. }
      rewrite H1 in H2. injection H2 as ->. left.
    + rewrite lookup_delete_ne by done. destruct (node_index_by_name_ g !! n) as [j|] eqn:E; [|done]. cbn.
      destruct (name_index_range _ _ _ _ _ (pr_core _ _ Hp) E) as [Hj Hnj].
      rewrite (bool_decide_ext (j ∈ i :: R) (j ∈ R)); [done|]. rewrite elem_of_cons. split; [|by right]. intros [->|]; [by rewrite Hnj in Hn|done].
Qed.

(** The state when node [i] has been exchanged with the last one and that has been
    popped, and the view in step with it. *)
Lemma remove_exchanged R s g i ns vi vl b di dl : let last := size_ (nodes_ g) - 1 in
  shadow (i :: R) s g -> pruned (i :: R) g -> 0 <= i < last -> (forall j, j ∈ R -> 0 <= j < i) -> size_ ns = size_ (nodes_ g) ->
  vget (nodes_ g) i = Some vi -> vget (nodes_ g) last = Some vl -> vget (graph g) i = Some di -> vget (graph g) last = Some dl ->
  (forall x v, x <> i -> vget (nodes_ g) x = Some v -> vget ns x = Some (renumber_node (exchange i last) v)) ->
  removed_one R i s g
    (mk_GraphView (vset (vset (graph s) last di) i dl)
       (take (Z.to_nat last) (vset (vset ns last b) i (renumber_node (exchange i last) vl)))
       (<[name dl := i]> (node_index_by_name_ s)) (mutation_ s)) (cut (exchanged g i ns vi vl di dl)).
Proof.
  intros last Hsh Hp Hi HR Hns Hvi Hvl Hdi Hdl Hn. pose proof (re_len _ (pr_core _ _ Hp)) as Hlen.
  pose proof (exchanged_renumbered g i ns vi vl di dl Hlen Hns Hi Hvi Hvl Hdi Hdl Hn) as Hre. set (g1 := exchanged g i ns vi vl di dl) in *.
  assert (nodes_ g1 = vset (vset ns last (renumber_node (exchange i last) vi)) i (renumber_node (exchange i last) vl)) as En by done.
  assert (graph g1 = vset (vset (graph g) last di) i dl) as Eg by done. fold last in Hre. assert (size_ (nodes_ g1) - 1 = last) as Hl1 by (cbn; by rewrite !size_vset, Hns).
  destruct (renumber_step g g1 i last Hre R Hp Hi eq_refl HR) as [Hp1 Hs1].
  destruct (cut_step R g1) as [Hp2 Hs2]; [by rewrite Hl1|lia|rewrite Hl1; intros j Hj; specialize (HR j Hj); lia|].
  destruct (cut_size g1 (pr_core _ _ Hp1) ltac:(lia)) as [Hc1 Hc2]. rewrite Hl1 in Hs2, Hc1, Hc2. pose proof (ok_names_ok _ _ _ (pr_core _ _ Hp)) as Hnm.
  split; [split|done|by rewrite Hc1|cbn; by rewrite !size_vset|done|by eapply survives_trans].
  - cbn [nodes_ cut]. rewrite Hl1. apply vget_ext. intros k. rewrite !vget_take_if by lia. case_bool_decide as Ek; [|done].
    rewrite En. destruct (decide (k = i)) as [->|Hk]; [by rewrite !vget_vset_eq by (rewrite size_vset; lia)|]. by rewrite !vget_vset_ne by lia.
  - rewrite Hc1. cbn [graph cut]. rewrite Hl1. apply vget_ext. intros k. rewrite !vget_take_if by lia. case_bool_decide as Ek; [|done].
    rewrite Eg. assert (size_ (graph g) <= size_ (graph s)) as Hgs.
    { rewrite (sh_graph _ _ _ Hsh). unfold size_. rewrite length_take. lia. }
    destruct (decide (k = i)) as [->|Hk]; [by rewrite !vget_vset_eq by (rewrite size_vset; lia)|]. rewrite !vget_vset_ne by lia.
    symmetry. apply (sh_def _ _ _ _ Hsh). lia.
  - apply (sh_mutation _ _ _ Hsh).
  - intros n. cbn [node_index_by_name_ cut]. rewrite Hl1. assert (name_of g1 last = name di) as ->.
    { unfold name_of. rewrite Eg, vget_vset_ne, vget_vset_eq by lia. done. }
    assert (node_index_by_name_ g !! name di = Some i) as Hni by (apply (ok_names _ Hnm); eauto).
    assert (node_index_by_name_ g !! name dl = Some last) as Hnl by (apply (ok_names _ Hnm); eauto).
    change (node_index_by_name_ g1) with (exchange i last <$> node_index_by_name_ g).
    assert (i ∉ R) as HiR by (intros H; specialize (HR i H); lia). assert (name di <> name dl) as Hne by (intros E; rewrite E, Hnl in Hni; injection Hni; lia).
    destruct (decide (n = name dl)) as [->|Hnl'].
    + rewrite lookup_insert_eq, lookup_delete_ne, lookup_fmap, Hnl by done. cbn. by rewrite exchange_last, bool_decide_false.
    + rewrite lookup_insert_ne, (sh_names _ _ _ Hsh) by done. destruct (decide (n = name di)) as [->|Hni'].
      * rewrite Hni, lookup_delete_eq. cbn. by rewrite bool_decide_true by left.
      * rewrite lookup_delete_ne, lookup_fmap by done. destruct (node_index_by_name_ g !! n) as [j|] eqn:E; [|done]. cbn.
        apply (ok_names _ Hnm) in E as (d & Hd & <-).
        assert (j <> last) as Hjl by congruence. assert (j <> i) as Hji by congruence. rewrite exchange_other by done.
        rewrite (bool_decide_ext (j ∈ i :: R) (j ∈ R)); [done|]. rewrite elem_of_cons. tauto.
Qed.

Lemma remove_node_spec R s g i : shadow (i :: R) s g -> pruned (i :: R) g -> 0 <= i < size_ (nodes_ g) -> (forall j, j ∈ R -> 0 <= j < i) ->
  runs (remove_node i) s (fun _ s' => exists g', removed_one R i s g s' g').
Proof.
  intros Hsh Hp Hi HR. set (last := size_ (nodes_ g) - 1). pose proof (pr_core _ _ Hp) as Hg. pose proof (re_len _ Hg) as Hlen.
  destruct (vget_ex (nodes_ g) last) as [vl Hvl]; [lia|]. destruct (vget_ex (nodes_ g) i) as [vi Hvi]; [lia|].
  destruct (vget_ex (graph g) last) as [dl Hdl]; [lia|]. destruct (vget_ex (graph g) i) as [di Hdi]; [lia|].
  pose proof (ok_index _ (ok_names_ok _ _ _ Hg)) as Hix. unfold remove_node. run_step. run_step.
  rewrite (sh_nodes _ _ _ Hsh). fold last. run_step. eapply runs_node_at; [by rewrite (sh_nodes _ _ _ Hsh)|]. rewrite (Hix _ _ Hvl).
  destruct (Z.ltb_spec i last) as [Hlt|Hge].
  - run_step. apply (move_spec g i last vl Hg (pr_isolated _ _ Hp i ltac:(left)) ltac:(lia) Hvl s); [by apply Hsh|].
    intros s5 [(ns & -> & Hns) Hst]. cbn [nodes_ set_nodes] in Hst.
    assert (forall x v, x <> i -> vget (nodes_ g) x = Some v -> vget ns x = Some (renumber_node (exchange i last) v)) as Hn.
    { intros x v Hx Hv. rewrite (Hst x v Hv). f_equal. apply with_all; [done|]. by apply Hix. }
    pose proof (Hn last vl ltac:(lia) Hvl) as Hnl. destruct (vget_ex ns i) as [b Hb]; [lia|].
    run_step. run_step. cbn [nodes_ graph set_nodes]. run_step. eapply runs_lift; [by apply swap_elements_spec|]. run_step. run_step.
    run_step. eapply runs_lift; [apply swap_elements_spec; rewrite (sh_def _ _ _ _ Hsh) by lia; done|]. run_step. run_step.
    set (vl' := renumber_node (exchange i last) vl). assert (node_index_ vl' = i) as Hvl' by (unfold vl'; cbn; by rewrite (Hix _ _ Hvl), exchange_last).
    assert (size_ (graph g) <= size_ (graph s)) as Hgs.
    { rewrite (sh_graph _ _ _ Hsh). unfold size_. rewrite length_take. lia. }
    run_step. unfold get_name. run_step. eapply runs_node_at; [cbn; apply vget_vset_eq; rewrite size_vset; lia|]. rewrite Hvl'.
    run_step. eapply runs_node_def_at; [cbn; apply vget_vset_eq; rewrite size_vset; lia|]. run_step. run_step. run_step.
    run_step. eapply runs_lift.
    { cbn [node_index_by_name_ set_nodes set_graph]. rewrite (sh_names _ _ _ Hsh).
      assert (node_index_by_name_ g !! name dl = Some last) as -> by (apply (ok_names _ (ok_names_ok _ _ _ Hg)); eauto). cbn.
      rewrite bool_decide_false; [done|]. intros [->|H]%elem_of_cons; [lia|]. specialize (HR last H). lia. }
    run_step. run_step. run_step. run_step. eapply runs_lift; [apply pop_back_take; cbn; rewrite !size_vset; lia|]. run_step.
    eexists. cbn. rewrite !size_vset, Hns. fold last. apply (remove_exchanged R s g i ns vi vl b di dl); try done. lia.
  - run_step. run_step. run_step. run_step. rewrite (sh_nodes _ _ _ Hsh). run_step. eapply runs_lift; [apply pop_back_take; lia|]. run_step.
    exists (cut g). rewrite <- (sh_nodes _ _ _ Hsh). assert (i = last) as E by lia. replace (size_ (nodes_ s) - 1) with i by (rewrite (sh_nodes _ _ _ Hsh); lia).
    apply remove_last; try done; lia.
Qed.

(** ** All of them, from the last one down *)

Record removed_all R s g s' g' : Prop := {
  ra_shadow : shadow [] s' g';
  ra_pruned : pruned [] g';
  ra_size : size_ (nodes_ g') = size_ (nodes_ g) - size_ R;
  ra_graph : size_ (graph s') = size_ (graph s);
  ra_mutation : mutation_ s' = mutation_ s;
  ra_survives : survives R g [] g'
}.

Lemma remove_nodes_spec R : forall s g, shadow R s g -> pruned R g -> StronglySorted Z.gt R -> (forall j, j ∈ R -> 0 <= j < size_ (nodes_ g)) ->
  runs (remove_nodes R) s (fun _ s' => exists g', removed_all R s g s' g').
Proof.
  induction R as [|i R IH]; intros s g Hsh Hp Hs Hr; cbn [remove_nodes].
  { run_step. exists g. split; try done; [unfold size_ at 3; cbn; lia|apply survives_refl]. }
  apply StronglySorted_inv in Hs as [Hs Hi]. rewrite Forall_forall in Hi.
  assert (forall j, j ∈ R -> 0 <= j < i) as HR by (intros j Hj; specialize (Hi j Hj); specialize (Hr j ltac:(by right)); lia).
  run_step. eapply runs_mono; [apply (remove_node_spec R s g i Hsh Hp); [apply Hr; left|done]|].
  intros u s1 (g1 & [Hsh1 Hp1 Hn1 Hg1 Hm1 Hs1]). eapply runs_mono; [apply (IH s1 g1 Hsh1 Hp1 Hs)|].
  - intros j Hj. specialize (HR j Hj). specialize (Hr i ltac:(left)). rewrite Hn1. lia.
  - intros u' s2 (g2 & [Hsh2 Hp2 Hn2 Hg2 Hm2 Hs2]). exists g2. split; try done; [rewrite size_cons; lia|congruence|congruence|by eapply survives_trans].
Qed.

(** ** Computations that do not see the names *)

Definition blind {A} (m : ST G A) : Prop := forall s n,
  m (set_node_index_by_name n s) = match m s with Ok (a, s') => Ok (a, set_node_index_by_name n s') | Fault e => Fault e end.

Lemma blind_ret {A} (a : A) : blind (mret a).
Proof. done. Qed.
Lemma blind_lift {A} (r : result A) : blind (lift r).
Proof. intros s n. unfold lift. by destruct r. Qed.
Lemma blind_bind {A B} (m : ST G A) (k : A -> ST G B) : blind m -> (forall a, blind (k a)) -> blind (a ← m; k a).
Proof. intros Hm Hk s n. unfold mbind, ST_bind. rewrite Hm. destruct (m s) as [[a s']|]; [apply Hk|done]. Qed.
Lemma blind_node_at i : blind (node_at i).
Proof. intros s n. unfold node_at, mbind, ST_bind, get, lift. cbn. by destruct (at_ (nodes_ s) i). Qed.
Lemma blind_node_def_at i : blind (node_def_at i).
Proof. intros s n. unfold node_def_at, mbind, ST_bind, get, lift. cbn. by destruct (at_ (graph s) i). Qed.
Lemma blind_update_node i f : blind (update_node i f).
Proof. intros s n. unfold update_node, node_at, mbind, ST_bind, get, lift. cbn. by destruct (at_ (nodes_ s) i). Qed.
End removal.

Create HintDb blind.
#[export] Hint Resolve blind_ret blind_lift blind_node_at blind_node_def_at blind_update_node : blind.
Ltac see_no_names := repeat (first [ solve [auto with blind] | apply blind_bind; [|intros] | case_match ]).

Section disconnect.
  Context {AttrValue : Type}.
  #[local] Notation G := (MutableGraphView AttrValue).
  Implicit Types (g s : G) (R : list Z).

Lemma blind_remove_regular i k : blind (AttrValue := AttrValue) (RemoveRegularFaninFanoutInternal i k).
Proof. unfold RemoveRegularFaninFanoutInternal, drop_regular_fanout. see_no_names. Qed.
Lemma blind_remove_controlling i k : blind (AttrValue := AttrValue) (RemoveControllingFaninFanoutInternal i k).
Proof. unfold RemoveControllingFaninFanoutInternal, drop_controlled_fanout. see_no_names. Qed.
#[local] Hint Resolve blind_remove_regular blind_remove_controlling : blind.
Lemma blind_remove_all i : blind (AttrValue := AttrValue) (RemoveAllFaninFanoutInternal i).
Proof.
  assert (forall ks, blind (AttrValue := AttrValue) (remove_regular_fanouts i ks)) as H1.
  { intros ks. induction ks as [|k ks IH]; cbn [remove_regular_fanouts]; see_no_names. }
  assert (forall ks, blind (AttrValue := AttrValue) (remove_controlling_fanouts i ks)) as H2.
  { intros ks. induction ks as [|k ks IH]; cbn [remove_controlling_fanouts]; see_no_names. }
  unfold RemoveAllFaninFanoutInternal. see_no_names.
Qed.

Lemma runs_blind {A} (m : ST G A) s n Q : blind m -> runs m s (fun a s' => Q a (set_node_index_by_name n s')) ->
  runs m (set_node_index_by_name n s) Q.
Proof. intros Hb (a & s' & Hm & HQ). exists a, (set_node_index_by_name n s'). by rewrite Hb, Hm. Qed.

(** ** The removed nodes lose their fanins and their names *)

(** [g] is [g0] with the fanins of the nodes of [R] gone. *)
Record disconnected R g0 g : Prop := {
  di_core : core_ok ∅ ∅ g;
  di_graph : graph g = graph g0;
  di_names : node_index_by_name_ g = node_index_by_name_ g0;
  di_mutation : mutation_ g = mutation_ g0;
  di_size : size_ (nodes_ g) = size_ (nodes_ g0);
  di_node : forall x v, vget (nodes_ g0) x = Some v -> exists v', vget (nodes_ g) x = Some v' /\ update_index_ v' = update_index_ v /\
    map ends (regular_fanins_ v') = (if bool_decide (x ∈ R) then [] else map ends (regular_fanins_ v)) /\
    map ends (controlling_fanins_ v') = (if bool_decide (x ∈ R) then [] else map ends (controlling_fanins_ v))
}.

Lemma disconnect_one R g0 g g1 i : disconnected R g0 g -> core_ok ∅ ∅ g1 -> ends_step g g1 i (fun _ => []) (fun _ => []) ->
  disconnected (i :: R) g0 g1.
Proof.
  intros [H1 H2 H3 H4 H5 H6] Hc [E1 E2 E3 E4 E5]. split; try congruence; try done. intros x v Hv.
  destruct (H6 x v Hv) as (v1 & Hv1 & Hu1 & Hr1 & Hc1). destruct (E5 x v1 Hv1) as (v2 & Hv2 & _ & Hu2 & Hr2 & Hc2).
  exists v2. split; [done|]. split; [congruence|]. rewrite Hr2, Hc2, Hr1, Hc1.
  rewrite (bool_decide_ext (x ∈ i :: R) (x = i \/ x ∈ R)) by apply elem_of_cons.
  destruct (decide (x = i)) as [->|Hx]; [by rewrite !(bool_decide_true (i = i)), !(bool_decide_true (i = i \/ _)) by tauto|].
  rewrite !(bool_decide_false (x = i)) by done. by rewrite (bool_decide_ext (x = i \/ x ∈ R) (x ∈ R)) by tauto.
Qed.

Lemma disconnect_removed_spec ow L : forall R s g0 g, disconnected R g0 g -> shadow R s g -> graph s = graph g ->
  Forall (fun i => 0 <= i < size_ (nodes_ g0) /\ vget ow i = Some false) L ->
  runs (disconnect_removed ow L) s (fun _ s' => exists g' R', (forall i, i ∈ R' <-> i ∈ L \/ i ∈ R) /\
    disconnected R' g0 g' /\ shadow R' s' g' /\ graph s' = graph g').
Proof.
  induction L as [|i L IH]; intros R s g0 g Hd Hsh Hgr Hl; cbn [disconnect_removed].
  { run_step. exists g, R. split; [|done]. intros i. rewrite elem_of_nil. tauto. }
  apply Forall_cons in Hl as [[Hi Hw] Hl]. pose proof (di_core _ _ _ Hd) as Hc. rewrite <- (di_size _ _ _ Hd) in Hi.
  destruct (vget_ex _ _ Hi) as [v Hv]. destruct (view_ok_def _ _ _ _ _ Hc Hv) as [d Hdf].
  assert (s = set_node_index_by_name (node_index_by_name_ s) g) as Es.
  { unfold set_node_index_by_name. rewrite <- Hgr, <- (sh_nodes _ _ _ Hsh), <- (sh_mutation _ _ _ Hsh). by destruct s. }
  rewrite Es. run_step. apply runs_blind; [apply blind_remove_all|].
  eapply runs_mono; [apply (RemoveAllFaninFanoutInternal_spec ∅ ∅ g i v Hc Hv); set_solver|]. intros u g1 [Hc1 Hs1].
  destruct (es_node _ _ _ _ _ Hs1 i v Hv) as (v1 & Hv1 & Hn1 & _). rewrite (ok_index _ (ok_names_ok _ _ _ Hc) _ _ Hv) in Hn1.
  set (s1 := set_node_index_by_name _ g1). run_step. eapply runs_at; [exact Hw|]. apply (runs_bind (get_name i ≫= _)).
  unfold get_name. run_step. run_step. eapply runs_node_at; [exact Hv1|]. rewrite Hn1. run_step.
  eapply runs_node_def_at; [cbn; rewrite (es_graph _ _ _ _ _ Hs1); exact Hdf|]. run_step. unfold erase_name. run_step.
  pose proof (disconnect_one R g0 g g1 i Hd Hc1 Hs1) as Hd1.
  eapply runs_mono; [apply (IH (i :: R) _ g0 g1 Hd1)|].
  - split; try done.
    + cbn. symmetry. apply take_ge. rewrite (ok_length _ (ok_names_ok _ _ _ Hc1)). unfold size_. lia.
    + intros n. cbn [node_index_by_name_ set_node_index_by_name s1]. rewrite (es_names _ _ _ _ _ Hs1).
      pose proof (ok_names _ (ok_names_ok _ _ _ Hc)) as Hnm. assert (node_index_by_name_ g !! name d = Some i) as Hni by (apply Hnm; eauto).
      destruct (decide (n = name d)) as [->|Hne].
      * rewrite lookup_delete_eq, Hni. cbn. by rewrite bool_decide_true by left.
      * rewrite lookup_delete_ne, (sh_names _ _ _ Hsh) by done. destruct (node_index_by_name_ g !! n) as [j|] eqn:E; [|done]. cbn.
        rewrite (bool_decide_ext (j ∈ i :: R) (j ∈ R)); [done|]. rewrite elem_of_cons. split; [|by right]. intros [->|]; [|done].
        apply Hnm in E as (e & He & <-). congruence.
  - done.
  - done.
  - intros u' s' (g' & R' & HR' & Hd' & Hsh' & Hgr'). exists g', R'. split; [|done]. intros j. rewrite HR', !elem_of_cons. tauto.
Qed.

Lemma disconnected_name_of R g0 g j : disconnected R g0 g -> name_of g j = name_of g0 j.
Proof. intros Hd. unfold name_of. by rewrite (di_graph _ _ _ Hd). Qed.

(** When no other node has a fanin from one of them, they have no edges left. *)
Lemma disconnected_pruned R g0 g : disconnected R g0 g -> view_ok g0 ->
  (forall j v w, j ∉ R -> vget (nodes_ g0) j = Some v -> w ∈ regular_fanins_ v ++ controlling_fanins_ v -> fanout_node_index w ∉ R) ->
  pruned R g /\ survives R g0 R g.
Proof.
  intros Hd Hg0 Hal. pose proof (di_core _ _ _ Hd) as Hc.
  assert (forall x v', vget (nodes_ g) x = Some v' -> x ∈ R -> regular_fanins_ v' = [] /\ controlling_fanins_ v' = []) as Hno.
  { intros x v' Hv' Hx. destruct (vget_ex (nodes_ g0) x) as [v Hv]; [rewrite <- (di_size _ _ _ Hd); by eapply vget_Some|].
    destruct (di_node _ _ _ Hd x v Hv) as (v2 & Hv2 & _ & Hr & Hcc). rewrite bool_decide_true in Hr, Hcc by done. simplify_eq.
    by apply map_eq_nil in Hr, Hcc. }
  assert (forall x v' w, vget (nodes_ g) x = Some v' -> w ∈ regular_fanins_ v' ++ controlling_fanins_ v' -> fanout_node_index w ∉ R) as Hsrc.
  { intros x v' w Hv' Hw. destruct (decide (x ∈ R)) as [Hx|Hx].
    - destruct (Hno x v' Hv' Hx) as [E1 E2]. rewrite E1, E2 in Hw. by apply elem_of_nil in Hw.
    - destruct (vget_ex (nodes_ g0) x) as [v Hv]; [rewrite <- (di_size _ _ _ Hd); by eapply vget_Some|].
      destruct (di_node _ _ _ Hd x v Hv) as (v2 & Hv2 & _ & Hr & Hcc). rewrite bool_decide_false in Hr, Hcc by done. simplify_eq.
      assert (ends w ∈ map ends (regular_fanins_ v ++ controlling_fanins_ v)) as Hin.
      { rewrite map_app, <- Hr, <- Hcc, <- map_app. apply list_elem_of_fmap. eauto. }
      apply list_elem_of_fmap in Hin as (w' & [= Hn _] & Hin). rewrite Hn. by apply (Hal x v). }
  split; [split|split].
  - done.
  - intros i d v' Hi Hdf Hv'. rewrite (di_graph _ _ _ Hd) in Hdf. destruct (view_ok_node _ _ _ _ _ Hg0 Hdf) as [v Hv].
    destruct (di_node _ _ _ Hd i v Hv) as (v2 & Hv2 & _ & Hr & Hcc). rewrite bool_decide_false in Hr, Hcc by done. simplify_eq.
    eapply inputs_ok_ends; [apply (ok_inputs _ Hg0 i d v Hdf Hv)|intros x; by eapply disconnected_name_of|done|done].
  - intros i Hi. split.
    + intros k. apply eq_None_not_Some. intros [w (v & Hv & Hw)%fanin_at_Some]. destruct (Hno i v Hv Hi) as [E _]. by rewrite E, vget_nil in Hw.
    + intros k. apply eq_None_not_Some. intros [w (v & Hv & Hw)%control_fanin_at_Some]. destruct (Hno i v Hv Hi) as [_ E]. by rewrite E, vget_nil in Hw.
    + intros p f. apply eq_None_not_Some. intros [e He]. destruct (ok_fanout _ _ (ok_edges _ _ _ Hc) _ _ _ _ He) as [_ (v & Hv & Hw)%fanin_at_Some].
      apply (Hsrc _ v (mk_FanoutView i p f) Hv); [|done]. apply elem_of_app. left. apply elem_of_vget. eauto.
    + intros f. apply eq_None_not_Some. intros [e He]. destruct (ok_control_fanout _ _ (ok_controls _ _ _ Hc) _ _ _ He) as [_ (v & Hv & Hw)%control_fanin_at_Some].
      apply (Hsrc _ v (mk_FanoutView i kControlSlot f) Hv); [|done]. apply elem_of_app. right. apply elem_of_vget. eauto.
  - intros j d v Hj Hdf Hv. destruct (di_node _ _ _ Hd j v Hv) as (v2 & Hv2 & Hu & Hr & Hcc). rewrite bool_decide_false in Hr, Hcc by done.
    exists j, v2. split; [done|]. rewrite (di_graph _ _ _ Hd). split; [done|]. split; [done|]. split; [done|].
    apply node_content_same; [|done|done]. intros w _. by eapply disconnected_name_of.
  - intros j d Hj Hdf. rewrite (di_graph _ _ _ Hd) in Hdf. eauto.
Qed.

(** ** The whole stage *)

Lemma pruned_ext R R' g : (forall i, i ∈ R' <-> i ∈ R) -> pruned R g -> pruned R' g.
Proof. intros H [H1 H2 H3]. split; [done|intros i d v; rewrite H; apply H2|intros i; rewrite H; apply H3]. Qed.
Lemma shadow_ext R R' s g : (forall i, i ∈ R' <-> i ∈ R) -> shadow R s g -> shadow R' s g.
Proof.
  intros H [H1 H2 H3 H4]. split; try done. intros n. rewrite H4. destruct (_ !! n) as [j|]; [|done]. cbn. by rewrite (bool_decide_ext _ _ (H j)).
Qed.
Lemma survives_ext R1 R g R' g' : (forall i, i ∈ R1 <-> i ∈ R) -> survives R g R' g' -> survives R1 g R' g'.
Proof.
  intros H [H1 H2]. split; [intros j d v; rewrite H; apply H1|]. intros j d Hj Hd. destruct (H2 j d Hj Hd) as (j0 & Hj0 & ?). exists j0. by rewrite H.
Qed.
Lemma survives_ext_r R1 R g R' g' : (forall i, i ∈ R1 <-> i ∈ R') -> survives R g R' g' -> survives R g R1 g'.
Proof.
  intros H [H1 H2]. split; [|intros j d; rewrite H; apply H2]. intros j d v Hj Hd Hv. destruct (H1 j d v Hj Hd Hv) as (j' & v' & Hj' & ?).
  exists j', v'. by rewrite H.
Qed.

Lemma RemoveNodesInternal_spec {HO : HashOrder} ow g : view_ok g -> let dead_ := removed_nodes_ (mutation_ g) in
  (forall i, i ∈ dead_ -> 0 <= i < size_ (nodes_ g) /\ vget ow i = Some false) ->
  (forall j v w, j ∉ dead_ -> vget (nodes_ g) j = Some v -> w ∈ regular_fanins_ v ++ controlling_fanins_ v -> fanout_node_index w ∉ dead_) ->
  runs (RemoveNodesInternal [] ow) g (fun _ g' => view_ok g' /\ mutation_ g' = mutation_ g /\ survives (elements dead_) g [] g').
Proof.
  intros Hg dead_ Hr Hal. unfold RemoveNodesInternal. cbn [disconnect_overwritten]. run_step. run_step. run_step. run_step. run_step.
  eapply runs_mono; [apply (disconnect_removed_spec ow _ [] g g g)|].
  { split; try done; [apply Hg|]. intros x v Hv. exists v. by rewrite !bool_decide_false by apply not_elem_of_nil. }
  { split; try done; [symmetry; apply take_ge; rewrite (ok_length _ (ok_names_ok _ _ _ Hg)); unfold size_; lia|].
    intros n. destruct (node_index_by_name_ g !! n); [|done]. cbn. by rewrite bool_decide_false by apply not_elem_of_nil. }
  { done. }
  { apply Forall_forall. intros i Hi%elem_of_indices_in_order. by apply Hr. }
  intros u s1 (g1 & R' & HR' & Hd & Hsh & Hgr). fold dead_.
  assert (forall i, i ∈ R' <-> i ∈ dead_) as HR by (intros i; rewrite HR', elem_of_indices_in_order, elem_of_nil; tauto).
  destruct (disconnected_pruned R' g g1 Hd Hg) as [Hp Hs]; [intros j v w; rewrite !HR; apply Hal|].
  set (sorted := sorted_indices _). assert (forall i, i ∈ rev sorted <-> i ∈ R') as Hrev.
  { intros i. unfold sorted. rewrite list_elem_of_In, <- in_rev, <- list_elem_of_In, elem_of_sorted_indices, HR. cbn. set_solver. }
  run_step. eapply runs_mono; [apply (remove_nodes_spec (rev sorted) s1 g1)|].
  { by apply (shadow_ext R'). } { by apply (pruned_ext R'). } { apply descending_sorted. }
  { intros j Hj. rewrite Hrev, HR in Hj. rewrite (di_size _ _ _ Hd). by apply Hr. }
  intros u' s2 (g2 & [Hsh2 Hp2 Hn2 Hg2 Hm2 Hs2]).
  assert (size_ (rev sorted) = size_ sorted) as Hsz by (unfold size_; by rewrite length_rev).
  assert (size_ (graph s1) = size_ (nodes_ g1)) as Hs1 by (rewrite Hgr; symmetry; apply (ok_length _ (ok_names_ok _ _ _ (di_core _ _ _ Hd)))).
  assert (set_graph (take (Z.to_nat (size_ (graph s2) - size_ sorted)) (graph s2)) s2 = g2) as Efin.
  { rewrite Hg2, Hs1, <- Hsz, <- Hn2, <- (sh_graph _ _ _ Hsh2). unfold set_graph. rewrite (sh_nodes _ _ _ Hsh2), (sh_mutation _ _ _ Hsh2).
    assert (node_index_by_name_ s2 = node_index_by_name_ g2) as ->; [|by destruct g2]. apply map_eq. intros n. rewrite (sh_names _ _ _ Hsh2).
    by destruct (node_index_by_name_ g2 !! n). }
  assert (view_ok g2 /\ mutation_ g2 = mutation_ g /\ survives (elements dead_) g [] g2) as Hgoal.
  { split; [|split].
    - split; [apply Hp2|]. intros i d v. apply (pr_inputs _ _ Hp2). apply not_elem_of_nil.
    - rewrite <- (sh_mutation _ _ _ Hsh2), Hm2, (sh_mutation _ _ _ Hsh). apply (di_mutation _ _ _ Hd).
    - apply (survives_ext _ R'); [intros i; by rewrite HR, elem_of_elements|]. eapply survives_trans; [exact Hs|]. by apply (survives_ext _ (rev sorted)). }
  case_bool_decide as E.
  - run_step. assert (s2 = g2) as ->; [|done]. rewrite <- Efin, E. unfold size_ at 2. cbn. rewrite Z.sub_0_r, take_ge by (unfold size_; lia). by destruct s2.
  - run_step. by rewrite Efin.
Qed.
End disconnect.
