(* ===== verification/GraphApplyProofs.v ===== *)
(** * GraphApplyProofs: a valid mutation is carried out

    The stages of [Apply] put together, for a mutation that renames no node: the
    graph that is left is consistent and has exactly the contents asked for. *)

From S2P Require Import Prelude Vec TensorName GraphView GraphInv GraphEdit GraphEditProofs GraphBuild HashOrder GraphDiff GraphContent GraphWellFormed GraphMutation GraphMutationProofs GraphValidate GraphValidateProofs GraphValidated GraphApply GraphUpdate GraphNewNodes GraphCommit GraphRemoveNodes GraphRemoval.
#[local] Open Scope string_scope.
#[local] Open Scope list_scope.
#[local] Open Scope Z_scope.

Section apply.
  Context {AttrValue : Type} {HO : HashOrder} {NA : NodeAllocation}.
  #[local] Notation G := (MutableGraphView AttrValue).
  Implicit Type g : G.

(** Some node of [g] has content [c]. *)
Definition has_content g (c : content AttrValue) : Prop :=
  exists i d v, vget (graph g) i = Some d /\ vget (nodes_ g) i = Some v /\ node_content g d v ≡ c.

(** No node is removed, and new nodes take the names of nodes that are there. *)
Definition replaces_only g : Prop := removed_nodes_ (mutation_ g) = ∅ /\
  forall n, n ∈ new_nodes_ (mutation_ g) -> is_Some (node_index_by_name_ g !! name (new_node n)).

(** The mutation of [g] has been carried out. *)
Record committed g g' : Prop := {
  co_view : view_ok g';
  co_mutation : mutation_ g' = mk_Mutation (mutation_counter_ (mutation_ g) + 1) [] ∅ [];
  co_idle : forall i v, vget (nodes_ g') i = Some v -> update_index_ v = kMissingIndex;
  co_asked : forall c, asked g c -> has_content g' c;
  co_only : forall i d v, vget (graph g') i = Some d -> vget (nodes_ g') i = Some v -> exists c, asked g c /\ node_content g' d v ≡ c;
  co_places : replaces_only g -> map name (graph g') = map name (graph g)
}.

Lemma entries_in_order_empty A : entries_in_order (∅ : gmap string A) = [].
Proof.
  destruct (entries_in_order ∅) as [|[k x] l] eqn:E; [done|]. exfalso.
  assert ((k, x) ∈ entries_in_order (∅ : gmap string A)) as H by (rewrite E; left).
  apply elem_of_entries_in_order in H. by rewrite lookup_empty in H.
Qed.

Lemma FixRenamedNodes_none g : runs (FixRenamedNodes []) g (fun r g' => g' = g /\
  r = mk_renaming [] ∅ (replicate (length (nodes_ g)) false)).
Proof. unfold FixRenamedNodes. cbn [extract_fanouts rename_nodes]. do 5 run_step. done. Qed.

(** Two postconditions of one run. *)
Lemma runs_and {S A} (m : ST S A) s (P Q : A -> S -> Prop) : runs m s P -> (forall a s', m s = Ok (a, s') -> Q a s') -> runs m s (fun a s' => P a s' /\ Q a s').
Proof. intros (a & s' & Hm & HP) HQ. exists a, s'. auto. Qed.
Lemma runs_when {S A} (C : Prop) (m : ST S A) s (Q : A -> S -> Prop) : (C -> runs m s Q) -> forall a s', m s = Ok (a, s') -> C -> Q a s'.
Proof. intros H a s' Hm HC. destruct (H HC) as (a' & s'' & Hm' & HQ). rewrite Hm in Hm'. by injection Hm' as <- <-. Qed.

(** Nothing happens when no node is removed. *)
Lemma RemoveNodesInternal_none ow g : removed_nodes_ (mutation_ g) = ∅ -> runs (RemoveNodesInternal [] ow) g (fun _ g' => g' = g).
Proof.
  intros Hr. unfold RemoveNodesInternal. cbn [disconnect_overwritten]. do 5 run_step. rewrite Hr.
  assert (indices_in_order ∅ = []) as ->.
  { destruct (indices_in_order ∅) as [|i l] eqn:E; [done|]. exfalso. apply (not_elem_of_empty (C := gset Z) i), elem_of_indices_in_order. rewrite E. left. }
  assert (sorted_indices (∅ ∪ list_to_set []) = []) as ->.
  { destruct (sorted_indices _) as [|i l] eqn:E; [done|]. exfalso. assert (i ∈ sorted_indices (∅ ∪ list_to_set [])) as H by (rewrite E; left).
    apply elem_of_sorted_indices in H. set_solver. }
  apply runs_ret. by exists tt, g.
Qed.

(** ** The stages after validation *)

(** What is left when the removed nodes are gone, before the mutation is reset. *)
Record carried_out g g' : Prop := {
  ca_view : view_ok g';
  ca_counter : mutation_counter_ (mutation_ g') = mutation_counter_ (mutation_ g);
  ca_idle : forall i v, vget (nodes_ g') i = Some v -> update_index_ v = kMissingIndex;
  ca_asked : forall c, asked g c -> has_content g' c;
  ca_only : forall i d v, vget (graph g') i = Some d -> vget (nodes_ g') i = Some v -> exists c, asked g c /\ node_content g' d v ≡ c;
  ca_places : replaces_only g -> map name (graph g') = map name (graph g)
}.

Section removal.
Context (g : G) (M : gmap string Z) (Hva : validated g M).
Context (gA : G) (l : list Z) (Hl : of_empty_diffs g l) (HA : cleared g gA l).
Context (gB : G) (idx : list Z) (HB : added gA gB (new_nodes_ (mutation_ g)) idx).
Context (gC : G) (HC : updates_applied gB gC (count_up (size_ (updated_nodes_ (mutation_ g))))).
Context (gD : G) (HD : fanins_set gC gD idx (new_nodes_ (mutation_ g))).

(** New nodes that take the names of nodes take their places. *)
Lemma places_D : replaces_only g -> map name (graph gD) = map name (graph g).
Proof.
  intros [_ Hn]. pose proof (va_view _ _ Hva) as Hg. pose proof (ok_length _ (ok_names_ok _ _ _ Hg)) as Hlg.
  assert (view_ok gD) as HgD by apply (fs_view _ _ _ _ HD). pose proof (ok_length _ (ok_names_ok _ _ _ HgD)) as HlD.
  assert (size_ (nodes_ gD) = size_ (nodes_ gB)) as HsD by (by eapply size_D). pose proof (ad_size _ _ _ _ HB) as HsB. rewrite (cl_size _ _ _ HA) in HsB.
  assert (forall j, 0 <= j < size_ (nodes_ gD) -> 0 <= j < size_ (nodes_ g)) as Hr.
  { intros j Hj. destruct (decide (j ∈ idx)) as [Hi|Hi]; [|by eapply old_range].
    assert (exists n, n ∈ new_nodes_ (mutation_ g) /\ name_of gB j = name (new_node n)) as (n & Hin & E) by (by eapply idx_name). destruct (Hn n Hin) as [i Hi'].
    apply (ok_names _ (ok_names_ok _ _ _ Hg)) in Hi' as (d & Hd & Ed). assert (0 <= i < size_ (nodes_ g)) as Hir by (rewrite Hlg; by eapply vget_Some).
    assert (j = i) as ->; [|done]. apply (name_of_inj gB); [apply (ad_view _ _ _ _ HB)|lia|lia|].
    assert (name_of gB i = name_of g i) as -> by (by eapply name_of_B). rewrite E. unfold name_of. by rewrite Hd. }
  apply vget_ext. intros j. rewrite !vget_map.
  assert (size_ (nodes_ gD) = size_ (nodes_ g)) as Hs.
  { apply Z.le_antisymm; [|lia]. destruct (Z.lt_ge_cases 0 (size_ (nodes_ gD))) as [Hp|Hp]; [|unfold size_ in *; lia].
    pose proof (Hr (size_ (nodes_ gD) - 1) ltac:(lia)). lia. }
  destruct (decide (0 <= j < size_ (nodes_ g))) as [Hj|Hj].
  - assert (name_of gD j = name_of g j) as E by (by eapply name_of_D). destruct (vget_ex (graph g) j) as [d Hd]; [lia|].
    destruct (vget_ex (graph gD) j) as [d' Hd']; [lia|]. unfold name_of in E. rewrite Hd, Hd' in E. cbn in E. rewrite Hd, Hd'. cbn. by rewrite E.
  - destruct (vget (graph gD) j) as [d'|] eqn:Hd'; [apply vget_Some in Hd'; lia|]. destruct (vget (graph g) j) as [d|] eqn:Hd; [apply vget_Some in Hd; lia|done].
Qed.

Lemma remove_all_places : replaces_only g ->
  runs (RemoveNodesInternal [] (replicate (length (nodes_ gA)) false)) gD (fun _ g' => map name (graph g') = map name (graph g)).
Proof.
  intros Hro. eapply runs_mono; [apply RemoveNodesInternal_none|].
  - assert (removed_nodes_ (mutation_ gD) = removed_nodes_ (mutation_ g) ∖ list_to_set idx) as -> by (by eapply removed_D). rewrite (proj1 Hro). set_solver.
  - intros u g' ->. by apply places_D.
Qed.

Lemma remove_all_spec : runs (RemoveNodesInternal [] (replicate (length (nodes_ gA)) false)) gD (fun _ g' => carried_out g g').
Proof.
  eapply runs_mono; [apply runs_and; [apply RemoveNodesInternal_spec; [by eapply fs_view| |]|exact (runs_when _ _ _ _ remove_all_places)]|].
  - intros i Hi. pose proof (dead_range g M Hva i) as Hr. specialize (Hr ltac:(eapply dead_D; eauto)).
    pose proof (ad_size _ _ _ _ HB) as Hsz. pose proof (cl_size _ _ _ HA) as HsA.
    assert (size_ (nodes_ gD) = size_ (nodes_ gB)) as HsD by (by eapply size_D).
    split; [lia|]. apply vget_replicate. unfold size_ in HsA, Hr. lia.
  - intros j v w Hj Hv Hw. by eapply (fanins_stay_D g M).
  - intros u g' [(Hg' & Hm & Hs & Hb) Hpl].
    assert (forall i d v, vget (graph g') i = Some d -> vget (nodes_ g') i = Some v ->
      update_index_ v = kMissingIndex /\ exists c, asked g c /\ node_content g' d v ≡ c) as Hall.
    { intros i d v Hd Hv. destruct (Hb i d (not_elem_of_nil _) Hd) as (j & Hj & HdD). rewrite elem_of_elements in Hj.
      assert (0 <= j < size_ (nodes_ gD)) as Hr.
      { rewrite (ok_length _ (ok_names_ok _ _ _ (fs_view _ _ _ _ HD))). by eapply vget_Some. }
      destruct (node_D g M Hva gA l Hl HA gB idx HB gC HC gD HD j Hr Hj) as (d' & vD & c & [H1 H2 H3 H4] & Hc & _).
      rewrite HdD in H1. injection H1 as <-. destruct (Hs j d vD) as (i' & v' & _ & Hd' & Hv' & Hu' & Hc'); [by rewrite elem_of_elements|done|done|].
      assert (i' = i) as ->.
      { pose proof (ok_names _ (ok_names_ok _ _ _ Hg')) as Hn. assert (node_index_by_name_ g' !! name d = Some i') as E1 by (apply Hn; eauto).
        assert (node_index_by_name_ g' !! name d = Some i) as E2 by (apply Hn; eauto). congruence. }
      rewrite Hv in Hv'. injection Hv' as <-. split; [congruence|]. exists c. split; [done|]. by rewrite Hc'. }
    split.
    + done.
    + rewrite Hm, (fs_mutation _ _ _ _ HD), (ua_counter _ _ _ HC), (ad_counter _ _ _ _ HB). by rewrite (cl_mutation _ _ _ HA).
    + intros i v Hv. destruct (view_ok_def _ _ _ _ _ Hg' Hv) as [d Hd]. by apply (Hall i d v).
    + intros c Hc. destruct (asked_D g M Hva gA l Hl HA gB idx HB gC HC gD HD c Hc) as (j & d & v & Hj & [H1 H2 H3 H4]).
      destruct (Hs j d v) as (i & v' & _ & Hd' & Hv' & _ & Hc'); [by rewrite elem_of_elements|done|done|]. exists i, d, v'. split; [done|]. split; [done|].
      by rewrite Hc'.
    + intros i d v Hd Hv. by apply (Hall i d v).
    + exact Hpl.
Qed.
End removal.

(** ** From validation to the removal *)

(** The stages of [ApplyMutationInternal] after validation, and what follows. *)
Definition apply_stages {A} (l : list Z) (k : ST G A) : ST G A :=
  clear_update_indices l;;
  r ← FixRenamedNodes [];
  g ← get;
  '(renamed_fanouts, new_node_indices) ← AddNewNodes (new_nodes_ (mutation_ g)) (rn_fanouts r) [];
  FixRenamedFanouts (entries_in_order renamed_fanouts);;
  ApplyNodeUpdates;;
  SetNewNodesFanins new_node_indices (new_nodes_ (mutation_ g));;
  RemoveNodesInternal (rn_nodes r) (rn_overwritten r);;
  k.

Lemma apply_stages_spec {A} g M l (k : ST G A) Q : validated g M -> valid_names g -> of_empty_diffs g l ->
  (forall g', carried_out g g' -> runs k g' Q) -> runs (apply_stages l k) g Q.
Proof.
  intros Hva Hvn Hl Hk. pose proof (va_mutation _ _ Hva) as Hm. unfold apply_stages. run_step.
  eapply runs_mono; [apply clear_update_indices_spec|].
  { apply Forall_forall. intros i (x & [u Hx]%elem_of_vget & _ & <-)%Hl. destruct (mo_diff _ Hm _ _ Hx) as (v & Hv & _). by eapply vget_Some. }
  intros u1 gA HA. run_step. eapply runs_mono; [apply FixRenamedNodes_none|]. intros r g0 [-> ->]. cbn [rn_fanouts rn_nodes rn_overwritten].
  run_step. run_step. rewrite (cl_mutation _ _ _ HA). run_step. eapply runs_mono; [apply AddNewNodes_spec|].
  { exact (view_A g M Hva gA l HA). }
  { apply Forall_forall. apply Hm. }
  { intros n Hn. exact (free_A g M Hva gA l Hl HA n Hn). }
  { intros i. rewrite (cl_mutation _ _ _ HA), (cl_size _ _ _ HA). apply Hm. }
  { exact (new_names_distinct g M Hva). }
  intros [rf ix] gB (E1 & idx & E2 & HB). cbn [fst snd app] in E1, E2. subst rf ix. rewrite entries_in_order_empty. cbn [FixRenamedFanouts].
  run_step. run_step. run_step. eapply runs_mono; [exact (apply_updates_spec g M Hva Hvn gA l HA gB idx HB)|]. intros u2 gC HC. run_step.
  eapply runs_mono; [apply SetNewNodesFanins_spec|].
  { apply (ua_view _ _ _ HC). }
  { exact (blank_C g M Hva gA l HA gB idx HB gC HC). }
  { exact (idx_distinct g M Hva gA gB idx HB). }
  { exact (resolves_C g M Hva Hvn gA l HA gB idx HB gC HC). }
  intros u3 gD HD. run_step.
  eapply runs_mono; [exact (remove_all_spec g M Hva gA l Hl HA gB idx HB gC HC gD HD)|]. intros u4 g' Hg'. by apply Hk.
Qed.

(** ** The validated mutation is the one recorded *)

Lemma valid_names_revised g g1 : revised g g1 -> valid_names g -> valid_names g1.
Proof.
  intros Hr [H1 H2]. split.
  - intros i. rewrite (rv_nodes _ _ Hr), (name_of_revised _ _ _ Hr). apply H1.
  - intros n' [k Hn']%elem_of_vget. destruct (rv_new_back _ _ _ _ Hr Hn') as (n & Hn & [->| ->]); apply (H2 n), elem_of_vget; eauto.
Qed.

Lemma partitioned_empty g g1 p : mutation_ok g -> revised g g1 -> partitioned g p -> of_empty_diffs g1 (p_empty_diff_node_indices p).
Proof.
  intros Hm Hr (_ & _ & _ & _ & ->) i. rewrite list_elem_of_fmap. unfold unchanged. setoid_rewrite elem_of_filter_bool. split.
  - intros (u & -> & [Hu%elem_of_all_diffs He]). destruct (diff_of_revised _ _ _ Hr Hu) as [Hx Hrev].
    exists (diff_of g1 u). split; [apply elem_of_vget; eauto|]. by rewrite (revises_empty _ _ Hrev), (proj1 (revises_fields _ _ Hrev)).
  - intros (x' & [u Hx']%elem_of_vget & He & <-). destruct (rv_updated_back _ _ _ _ Hr Hx') as (x & Hx & Hrev). exists u.
    rewrite (diff_of_Some _ _ _ Hx), (proj1 (revises_fields _ _ Hrev)), <- (revises_empty _ _ Hrev). split; [done|]. split; [|done].
    apply elem_of_all_diffs. by eapply vget_Some.
Qed.

Lemma stays_revised g g1 i : revised g g1 -> stays g1 i <-> stays g i.
Proof.
  intros Hr. unfold stays. rewrite (rv_nodes _ _ Hr), (rv_removed _ _ Hr), (name_of_revised _ _ _ Hr).
  assert (map (fun n => name (new_node n)) (new_nodes_ (mutation_ g1)) = map (fun n => name (new_node n)) (new_nodes_ (mutation_ g))) as ->; [|done].
  apply vget_ext. intros k. rewrite !vget_map. destruct (vget (new_nodes_ (mutation_ g1)) k) as [n'|] eqn:E.
  - destruct (rv_new_back _ _ _ _ Hr E) as (n & -> & [->| ->]); done.
  - destruct (vget (new_nodes_ (mutation_ g)) k) as [n|] eqn:E'; [|done]. destruct (rv_new _ _ Hr _ _ E') as (n' & Hn' & _). congruence.
Qed.

Lemma asked_revised g g1 c : revised g g1 -> asked g c -> exists c', asked g1 c' /\ c' ≡ c.
Proof.
  intros Hr [(n & [k Hn]%elem_of_vget & ->)|(i & Hs & Hp)].
  - destruct (rv_new _ _ Hr _ _ Hn) as (n' & Hn' & Hrev). exists (new_target n'). split; [left; exists n'; split; [apply elem_of_vget; eauto|done]|].
    by apply new_revises_target.
  - pose proof (pending_revised g g1 i Hr) as H. rewrite Hp in H. apply Some_equiv_eq in H as (c' & Hp' & Hc). exists c'.
    split; [|done]. right. exists i. by rewrite stays_revised.
Qed.

Lemma asked_revised_back g g1 c : revised g g1 -> asked g1 c -> exists c', asked g c' /\ c ≡ c'.
Proof.
  intros Hr [(n' & [k Hn']%elem_of_vget & ->)|(i & Hs & Hp)].
  - destruct (rv_new_back _ _ _ _ Hr Hn') as (n & Hn & Hrev). exists (new_target n). split; [left; exists n; split; [apply elem_of_vget; eauto|done]|].
    by apply new_revises_target.
  - pose proof (pending_revised g g1 i Hr) as H. rewrite Hp in H. symmetry in H. apply Some_equiv_eq in H as (c' & Hp' & Hc). exists c'.
    split; [|done]. right. exists i. by rewrite <- (stays_revised g g1).
Qed.

Lemma replaces_revised g g1 : revised g g1 -> replaces_only g -> replaces_only g1.
Proof.
  intros Hr [H1 H2]. split; [by rewrite (rv_removed _ _ Hr)|]. intros n' [k Hn']%elem_of_vget.
  destruct (rv_new_back _ _ _ _ Hr Hn') as (n & Hn & Hrev). rewrite (rv_names _ _ Hr).
  assert (name (new_node n') = name (new_node n)) as -> by (by destruct Hrev as [->| ->]). apply H2, elem_of_vget. eauto.
Qed.

(** ** The whole *)

(** Validation decides. *)
Lemma valid_mutation_or_not g : view_ok g -> mutation_ok g -> (exists M, valid_mutation g M) \/ ~ (exists M, valid_mutation g M).
Proof.
  intros Hg Hm. destruct (ValidateInternal_spec g Hg Hm) as ([st|p] & g' & _ & _ & H); [right; apply H|left]. destruct H as (_ & H & _). eauto.
Qed.

Lemma Apply_refused g : view_ok g -> mutation_ok g -> ~ (exists M, valid_mutation g M) ->
  runs Apply g (fun st g' => status_ok st = false /\ graph g' = graph g /\ nodes_ g' = nodes_ g /\
    node_index_by_name_ g' = node_index_by_name_ g /\ mutation_ok g' /\ forall i, pending g' i ≡ pending g i).
Proof.
  intros Hg Hm Hv. unfold Apply, ApplyMutationInternal. run_step.
  eapply runs_mono; [by apply ValidateInternal_spec|]. intros [st|p] g' [Hr H]; [|by destruct H as (_ & H & _); exfalso; eauto].
  run_step. split; [apply H|]. split_and!; try apply Hr; [by eapply mutation_ok_revised|]. intros i. by apply pending_revised.
Qed.

Lemma Apply_committed g M : view_ok g -> mutation_ok g -> valid_names g -> keeps_names g -> valid_mutation g M ->
  runs Apply g (fun st g' => st = Status_OK /\ committed g g').
Proof.
  intros Hg Hm Hvn Hk HM. unfold Apply, ApplyMutationInternal. run_step.
  eapply runs_mono; [by apply ValidateInternal_spec|]. intros [st|p] g1 [Hr H]; [by destruct H as (_ & H); exfalso; eauto|].
  destruct H as (Hp & HM1 & Htr & Hset). assert (p_renamed_nodes p = []) as ->.
  { destruct Hp as (_ & _ & -> & _). by rewrite nothing_renamed. }
  assert (validated g1 (p_node_names p)) as Hva by (by eapply validated_from).
  eapply (apply_stages_spec g1 _ (p_empty_diff_node_indices p)); [exact Hva|by eapply valid_names_revised|by eapply partitioned_empty|].
  intros g' [Hg' Hct Hid Has Hon Hpl]. unfold ResetInternal, modify_mutation. do 5 run_step. split; [done|]. split.
  - eapply view_ok_same; [|exact Hg']. split; try done. intros i v Hv. exists (update_index_ v). by rewrite set_update_index_id.
  - cbn. by rewrite Hct, (rv_counter _ _ Hr).
  - exact Hid.
  - intros c (c' & Hc' & E)%(asked_revised g g1); [|done]. destruct (Has c' Hc') as (i & d & v & Hd & Hv & Hc). exists i, d, v. by rewrite <- E.
  - intros i d v Hd Hv. destruct (Hon i d v Hd Hv) as (c & Hc & E). destruct (asked_revised_back g g1 c Hr Hc) as (c' & Hc' & E').
    exists c'. split; [done|]. rewrite <- E'. exact E.
  - intros Hro. cbn. rewrite Hpl; [by rewrite (rv_graph _ _ Hr)|]. by apply (replaces_revised g).
Qed.
(** Nothing is recorded afterwards. *)
Lemma committed_mutation_ok g g' : committed g g' -> mutation_ok g'.
Proof.
  intros [_ Hm Hi _ _ _]. split; rewrite Hm; cbn [updated_nodes_ removed_nodes_ new_nodes_]; [..|by intros i H%elem_of_empty|by intros n H%elem_of_nil].
  - intros i v Hv Hne. exfalso. by apply Hne, (Hi i).
  - intros u x Hx. by rewrite vget_nil in Hx.
Qed.
End apply.
