(* ===== verification/GraphMutationTheorems.v ===== *)
(** * GraphMutationTheorems: what a mutation records and when it is refused

    The operations of [Mutation] before [Apply]: each records its edit of the
    node it names and nothing else; a diff knows whether its node would be well
    formed; a mutation that is not valid is refused and changes nothing. *)

From S2P Require Import Prelude Vec TensorName GraphView GraphInv GraphEdit GraphBuild GraphTheorems HashOrder GraphDiff GraphContent GraphWellFormed GraphMutation GraphMutationProofs GraphValidate GraphValidateProofs GraphValidated GraphApply GraphCommit GraphApplyProofs.
#[local] Open Scope string_scope.
#[local] Open Scope list_scope.
#[local] Open Scope Z_scope.

(** ** Recording *)

(** C38: Every operation of [Mutation] on a node of the graph (a new name, op or
    device, a fanin or a control input set or removed, an attribute set or
    removed), on a consistent view and mutation and where [edit_allowed] holds,
    returns and records exactly that: the content that the node is to have is
    changed by the edit, that of the other nodes, the graph and its nodes are as
    before, and the diffs and nodes still refer to each other, so that further
    edits may follow.  [edit_allowed] asks three things: the node is in the
    graph and has not been marked removed (the code records an update of a
    removed node, graph_view.cc:405, example [removed_node_updated]); a fanin is
    set at a position that is not negative, to a port that is not negative; and
    a fanin with a pending update is not set back to the fanin that the node has
    in the graph (the code then keeps the update, graph_view_internal.h:600,
    example [fanin_not_set_back]).  Under these conditions the edits of one
    node may come in any order. *)
Theorem Mutation_records_edit {AttrValue} (g : MutableGraphView AttrValue) i e :
  view_ok g -> mutation_ok g -> edit_allowed g i e ->
  exists g', apply_edit i e g = Ok (tt, g') /\ recorded g i e g'.
Proof. intros Hg Hm He. destruct (apply_edit_spec g i e Hg Hm He) as ([] & g' & Hr & H). eauto. Qed.

(** [Mutation::RemoveNode] returns, drops what was recorded of the node, and
    marks it removed; what is recorded of other nodes stays, though their diffs
    move. *)
Theorem Mutation_RemoveNode_forgets {AttrValue} (g : MutableGraphView AttrValue) i :
  view_ok g -> mutation_ok g -> 0 <= i < size_ (nodes_ g) ->
  exists g', RemoveNode i g = Ok (tt, g') /\ removal g i g'.
Proof.
  intros Hg Hm [v Hv]%vget_ex. destruct (RemoveNode_spec g i v Hg Hm Hv) as ([] & g' & Hr & H). eauto.
Qed.

(** [Mutation::AddNode] accepts a node exactly when no input names the node
    itself and no regular input follows a controlling one.  Then the node to be
    added has the name, op, device and attributes given, its regular inputs in
    their order and each control input once; otherwise nothing is recorded. *)
Theorem Mutation_AddNode_decides {AttrValue} (g : MutableGraphView AttrValue) node :
  mutation_ok g -> ports_in_range node ->
  exists st mn g', AddNode node g = Ok ((st, mn), g') /\ mutation_ok g' /\ only_new_nodes g g' /\
    (status_ok st = true <-> addable node) /\ (status_ok st = false -> g' = g) /\
    (status_ok st = true -> exists n, new_nodes_ (mutation_ g') = new_nodes_ (mutation_ g) ++ [n] /\
       new_target n ≡ mk_content (name node) (op node) (device node)
         (vget (List.filter (fun t => negb (IsTensorIdControl t)) (map ParseTensorName (input node))))
         (list_to_set (map TensorName.node (List.filter IsTensorIdControl (map ParseTensorName (input node))))) (attr node)).
Proof.
  intros Hm Hp. destruct (AddNode_spec g node Hm Hp) as ([st mn] & g' & Hr & H1 & H2 & H3 & H4 & _ & H5).
  exists st, mn, g'. split_and!; try done; [by apply H3..|]. intros Hst. destruct (H5 Hst) as (n & Hn & _ & Ht). eauto.
Qed.

(** The operations on a node that is yet to be added record their edit of that
    node in the same sense. *)
Theorem Mutation_records_new_edit {AttrValue} (g : MutableGraphView AttrValue) node e n :
  mutation_ok g -> mnn_mutation_counter node = mutation_counter_ (mutation_ g) ->
  vget (new_nodes_ (mutation_ g)) (mnn_index node) = Some n -> new_edit_ok e ->
  exists g' n', apply_new_edit node e g = Ok (tt, g') /\ mutation_ok g' /\ only_new_nodes g g' /\
    new_nodes_ (mutation_ g') = vset (new_nodes_ (mutation_ g)) (mnn_index node) n' /\
    new_target n' ≡ edit_content e (new_target n).
Proof.
  intros Hm Hc Hn He. destruct (apply_new_edit_spec g node e n Hm Hc Hn He) as ([] & g' & Hr & H1 & H2 & n' & H3 & H4). eauto 10.
Qed.

(** C39: [IsWellFormed] of a diff, on a consistent view, returns, and says yes
    exactly when the content that the node is to have has its regular fanins at
    positions without gaps; every regular fanin that the diff sets or appends,
    and every controlling fanin that it adds, names another node that will
    exist; and a node that the diff renames does not take the name of one of
    its fanins.  The fanins that the diff does not change are not checked to
    exist, as the comment in the source says.  The diff is left trimmed. *)
Theorem Diff_IsWellFormed_decides {AttrValue} {HO : HashOrder} (g : MutableGraphView AttrValue) names d v (x : NodeViewDiff AttrValue) :
  view_ok g -> vget (nodes_ g) (diff_node_index x) = Some v -> vget (graph g) (diff_node_index x) = Some d -> diff_ok v x ->
  exists b, Diff.IsWellFormed g names x = Ok (b, Diff.trim x) /\
    (b = true <-> (exists l, regular_inputs (target g d v x) l) /\ fanins_valid g names d v x).
Proof.
  intros Hg Hv Hd Hx. destruct (IsWellFormed_ok g names d v x Hg Hv Hd Hx) as (b & Hb & Hi). exists b. split; [done|].
  rewrite Hi, (gapless_iff g v) by (first [by apply diff_ok_trim|apply trim_idemp]). setoid_rewrite slots_trim. done.
Qed.

(** ** Applying *)

(** C16: [Mutation::Apply] carries out what was recorded.  On a consistent view
    ([view_ok]), for diffs and nodes that refer to each other, with no diff of a
    removed node ([mutation_ok], which the constructors establish and the edits
    allowed keep), with names that a tensor can name ([valid_names]) and for a
    mutation that renames no node ([keeps_names]), it returns, and with OK exactly when the
    mutation is valid.  Then the view it leaves is consistent again, every new
    node has the content it was built with, every old node that is neither
    removed nor replaced by a new one has the content recorded for it, there are
    no other nodes, and nothing is left recorded.  This holds for every order in
    which the hash containers are traversed, though the nodes change their
    places. *)
Theorem Apply_commits {AttrValue} {HO : HashOrder} {NA : NodeAllocation} (g : MutableGraphView AttrValue) :
  view_ok g -> mutation_ok g -> valid_names g -> keeps_names g ->
  exists st g', Apply g = Ok (st, g') /\ (status_ok st = true <-> exists M, valid_mutation g M) /\
    (status_ok st = true -> committed g g' /\ mutation_ok g').
Proof.
  intros Hg Hm Hn Hk. destruct (valid_mutation_or_not g Hg Hm) as [[M HM]|HM].
  - destruct (Apply_committed g M Hg Hm Hn Hk HM) as (st & g' & Hr & -> & H). exists Status_OK, g'. split; [done|].
    split; [split; [by exists M|done]|]. intros _. split; [done|]. by eapply committed_mutation_ok.
  - destruct (Apply_refused g Hg Hm HM) as (st & g' & Hr & Hst & _). exists st, g'. rewrite Hst. split; [done|]. by split.
Qed.


(** C40: On a consistent view and mutation ([view_ok], [mutation_ok])
    [Mutation::Apply] refuses a mutation that is not valid: that takes a name
    twice, removes or renames a node whose fanouts stay, or leaves a node with
    gaps, with itself or an unknown node among its fanins.  It returns an error,
    and the graph, its nodes and its names are as before; the mutation is still
    recorded and means the same. *)
Theorem Apply_refuses {AttrValue} {HO : HashOrder} {NA : NodeAllocation} (g : MutableGraphView AttrValue) :
  view_ok g -> mutation_ok g -> ~ (exists M, valid_mutation g M) ->
  exists st g', Apply g = Ok (st, g') /\ status_ok st = false /\ graph g' = graph g /\ nodes_ g' = nodes_ g /\
    node_index_by_name_ g' = node_index_by_name_ g /\ mutation_ok g' /\ forall i, pending g' i ≡ pending g i.
Proof.
  intros Hg Hm Hv. destruct (Apply_refused g Hg Hm Hv) as (st & g' & Hr & H). eauto.
Qed.

(** ** Instances *)

#[export] Instance next_address : NodeAllocation.
Proof.
  refine {| new_address l := 1 + foldr Z.max 0 l |}.
  intros l H. assert (forall x, x ∈ l -> x <= foldr Z.max 0 l) as Hm; [|specialize (Hm _ H); lia].
  clear. induction l as [|y l IH]; intros x Hx; [set_solver|]. apply elem_of_cons in Hx as [->|Hx]; simpl; [lia|]. specialize (IH x Hx). lia.
Defined.

(** The example graph and a node that depends on [c]. *)
Definition diamond : list (NodeDef unit) := (example_nodes ++ [mk_NodeDef 103 "d" "Neg" "" ["c"; "^a"] ∅])%list.
Definition diamond_view : MutableGraphView unit := built_view diamond.

(** What a computed entry says. *)
Lemma read_vget {A B} (f : A -> B) (l : list A) i x y : vget l i = Some x -> (f <$> vget l i) = Some y -> f x = y.
Proof. intros -> [= E]. exact E. Qed.

Lemma no_mutation_ok {AttrValue} (g : MutableGraphView AttrValue) :
  mutation_ g = empty_mutation -> Forall (fun v => update_index_ v = kMissingIndex) (nodes_ g) -> mutation_ok g.
Proof.
  intros Hm Hu. split; rewrite Hm; cbn; try (intros; set_solver).
  - intros i v Hv Hne. exfalso. apply Hne. rewrite Forall_forall in Hu. apply Hu, elem_of_vget. eauto.
  - intros u x Hx. by rewrite vget_nil in Hx.
Qed.

Lemma diamond_ok : view_ok diamond_view /\ mutation_ok diamond_view.
Proof.
  destruct (constructed_ok diamond diamond_view) as [Hv Hm]; [check_graph..|]. split; [done|].
  apply no_mutation_ok; [done|]. vm_compute. repeat constructor.
Qed.

(** The state after operations that cannot fail. *)
Definition state_after {A} (m : ST (MutableGraphView unit) A) (g : MutableGraphView unit) : MutableGraphView unit :=
  match m g with Ok (_, g') => g' | Fault _ => g end.

Lemma diamond_edit_allowed i e : 0 <= i < 4 -> (forall k t, e <> SetFanin k t) -> edit_allowed diamond_view i e.
Proof.
  intros Hi He. destruct (vget_ex (nodes_ diamond_view) i) as [v Hv]; [vm_compute size_; lia|].
  exists v. split; [done|]. split; [vm_compute; set_solver|]. destruct e; try done. by destruct (He k t).
Qed.

Lemma Mutation_records_edit_witness :
  exists g', Mut.AddControllingFanin 3 "b" diamond_view = Ok (tt, g') /\ recorded diamond_view 3 (AddControl "b") g'.
Proof.
  apply (Mutation_records_edit diamond_view 3 (AddControl "b")); [apply diamond_ok..|]. by apply diamond_edit_allowed.
Defined.

Lemma Mutation_RemoveNode_forgets_witness :
  exists g', RemoveNode 3 diamond_view = Ok (tt, g') /\ removal diamond_view 3 g'.
Proof. apply (Mutation_RemoveNode_forgets diamond_view 3); [apply diamond_ok..|]. by vm_compute. Defined.

Definition extra_node : NodeDef unit := mk_NodeDef 0 "e" "Sum" "" ["a:2"; "b"; "^c"] ∅.

Lemma Mutation_AddNode_decides_witness :
  exists mn g', AddNode extra_node diamond_view = Ok ((Status_OK, mn), g') /\ mutation_ok g' /\ addable extra_node.
Proof.
  destruct (Mutation_AddNode_decides diamond_view extra_node) as (st & mn & g' & Hr & Hm & _ & Hst & _).
  { apply diamond_ok. }
  { repeat constructor; vm_compute; congruence. }
  assert (st = Status_OK) as ->.
  { apply (f_equal (fun r => match r with Ok ((s, _), _) => s | Fault _ => st end)) in Hr. by vm_compute in Hr. }
  exists mn, g'. split; [done|]. split; [done|]. by apply Hst.
Defined.

Definition with_extra : MutableGraphView unit := state_after (AddNode extra_node) diamond_view.

Lemma with_extra_ok : mutation_ok with_extra.
Proof.
  destruct (AddNode_spec diamond_view extra_node) as ([st mn] & g' & Hr & Hm & _); [apply diamond_ok| |].
  { repeat constructor; vm_compute; congruence. }
  unfold with_extra, state_after. by rewrite Hr.
Qed.

(** Input 1 of the node that is to be added is taken away. *)
Lemma Mutation_records_new_edit_witness :
  exists g' n n', vget (new_nodes_ (mutation_ with_extra)) 0 = Some n /\ new_regular_fanins n = [mk_TensorId "a" 2; mk_TensorId "b" 0] /\
    MutNew.RemoveRegularFanin (mk_MutationNewNode 0 0) 1 with_extra = Ok (tt, g') /\ mutation_ok g' /\
    new_target n' ≡ edit_content (UnsetFanin 1) (new_target n).
Proof.
  destruct (vget (new_nodes_ (mutation_ with_extra)) 0) as [n|] eqn:Hn; [|by vm_compute in Hn].
  destruct (Mutation_records_new_edit with_extra (mk_MutationNewNode 0 0) (UnsetFanin 1) n) as (g' & n' & Hr & H1 & _ & _ & H2);
    [apply with_extra_ok|by vm_compute|done|by vm_compute|].
  exists g', n, n'. split; [done|]. cbn [apply_new_edit] in Hr. split; [|split; [exact Hr|by split]]. by apply (read_vget new_regular_fanins _ _ _ _ Hn); vm_compute.
Defined.

(** A diff that would leave node [c] without its first input: refused. *)
Definition gap_diff : NodeViewDiff unit := Diff.set_regular_remove [false; true] 1 (Diff.make 0).

Lemma gap_diff_ok v : vget (nodes_ diamond_view) 0 = Some v -> diff_ok v gap_diff.
Proof.
  intros Hv. assert (NumRegularFanins v = 2) as Hn.
  { by apply (read_vget NumRegularFanins _ _ _ _ Hv); vm_compute. }
  clear Hv. split; cbn; rewrite ?Hn; try done; intros; set_solver.
Qed.

Lemma gap_diff_fanins g names d v : fanins_valid g names d v gap_diff.
Proof.
  split; [|intros s; cbn; set_solver|done]. intros k t Hk [[u Hu]|Hu]; [done|]. unfold slots in Hk.
  rewrite (proj2 (Z.ltb_ge _ _) Hu) in Hk. cbn [regular_inputs_to_add gap_diff Diff.make Diff.set_regular_remove] in Hk.
  unfold padded in Hk. by rewrite vget_nil in Hk.
Qed.

Lemma Diff_IsWellFormed_decides_witness :
  exists d v, Diff.IsWellFormed (HO := elements_order) diamond_view ∅ gap_diff = Ok (false, gap_diff) /\
    ~ exists l, regular_inputs (target diamond_view d v gap_diff) l.
Proof.
  destruct (vget (nodes_ diamond_view) 0) as [v|] eqn:Hv; [|by vm_compute in Hv].
  destruct (vget (graph diamond_view) 0) as [d|] eqn:Hd; [|by vm_compute in Hd].
  destruct (Diff_IsWellFormed_decides (HO := elements_order) diamond_view ∅ d v gap_diff) as (b & Hb & Hi);
    [apply diamond_ok|done|done|by apply gap_diff_ok|].
  exists d, v. assert (b = false) as ->.
  { apply (f_equal (fun r => match r with Ok (c, _) => c | Fault _ => b end)) in Hb. by vm_compute in Hb. }
  split; [done|]. intros Hl. assert (false = true) as Hf; [|done]. apply Hi. split; [exact Hl|]. apply gap_diff_fanins.
Defined.

(** Removing node [a], on which others depend. *)
Definition without_a : MutableGraphView unit := state_after (RemoveNode 2) diamond_view.

Lemma without_a_ok : view_ok without_a /\ mutation_ok without_a.
Proof.
  destruct (vget (nodes_ diamond_view) 2) as [v|] eqn:Hv; [|by vm_compute in Hv].
  destruct (RemoveNode_spec diamond_view 2 v) as ([] & g' & Hr & H); [apply diamond_ok..|done|].
  unfold without_a, state_after. rewrite Hr. split; [|apply H]. eapply view_ok_same; [apply H|]. apply diamond_ok.
Qed.

Ltac by_deciding := apply (bool_decide_unpack _); vm_compute; exact I.

Lemma without_a_leaving : leaving without_a 2 /\ name_of without_a 2 ∉ claimed without_a.
Proof. split; [left|]; by_deciding. Qed.

Lemma without_a_not_valid M : ~ valid_mutation without_a M.
Proof.
  intros [_ _ Hstay _ _]. destruct without_a_leaving as [H1 H2]. specialize (Hstay 2 H1 H2). clear H1 H2.
  destruct (vget (nodes_ without_a) 2) as [v|] eqn:Hv; [|by vm_compute in Hv].
  destruct (Hstay v Hv) as [H _]. clear Hstay. assert (mk_FaninView 1 0 0 ∈ concat (regular_fanouts_by_port_ v)) as Hfo.
  { apply (bool_decide_eq_true _).
    apply (read_vget (fun v => bool_decide (mk_FaninView 1 0 0 ∈ concat (regular_fanouts_by_port_ v))) _ _ _ _ Hv). by vm_compute. }
  destruct (H _ Hfo) as (w & Hw & Hc). cbn [fanin_node_index] in *. assert (update_index_ w = kMissingIndex) as Hu.
  { by apply (read_vget update_index_ _ _ _ _ Hw); vm_compute. }
  rewrite bool_decide_true in Hc by exact Hu. destruct Hc as [Hc|(r & Hc & _)].
  - apply (bool_decide_spec _) in Hc. by vm_compute in Hc.
  - assert (map (renamed_node without_a) (renamed without_a (all_diffs without_a)) = []) as E by (vm_compute; reflexivity).
    rewrite E in Hc. by apply elem_of_nil in Hc.
Qed.

Lemma Apply_refuses_witness :
  exists st g', Apply (HO := elements_order) without_a = Ok (st, g') /\ status_ok st = false /\ map name (graph g') = ["c"; "b"; "a"; "d"].
Proof.
  destruct (Apply_refuses (HO := elements_order) without_a) as (st & g' & Hr & Hst & Hg & _); [apply without_a_ok..| |].
  - intros [M HM]. by apply (without_a_not_valid M).
  - exists st, g'. split; [exact Hr|]. split; [exact Hst|]. rewrite Hg. vm_compute. reflexivity.
Defined.

(** Node [c] gets another op, [e] is added and [d] goes. *)
Definition edited : MutableGraphView unit := state_after (Mut.UpdateNodeOp 0 "Abs") with_extra.
Definition edited_and_removed : MutableGraphView unit := state_after (RemoveNode 3) edited.

Lemma edited_ok : view_ok edited /\ mutation_ok edited.
Proof.
  assert (view_ok with_extra) as Hv.
  { destruct (AddNode_spec diamond_view extra_node) as ([st mn] & g' & Hr & _ & (Hg & Hn & Hi & _) & _); [apply diamond_ok| |].
    { repeat constructor; vm_compute; congruence. }
    unfold with_extra, state_after. rewrite Hr. eapply view_ok_same; [|apply diamond_ok]. split; [done|done|by rewrite Hn|].
    intros i v Hvi. exists (update_index_ v). by rewrite Hn, set_update_index_id. }
  destruct (apply_edit_spec with_extra 0 (SetOp "Abs") Hv with_extra_ok) as ([] & g' & Hr & H).
  { destruct (vget (nodes_ with_extra) 0) as [v|] eqn:Hv0; [|by vm_compute in Hv0]. exists v. split; [done|]. split; [|done]. clear. vm_compute. set_solver. }
  cbn [apply_edit] in Hr. unfold edited, state_after. rewrite Hr. split; [|apply H]. eapply view_ok_same; [apply H|done].
Qed.

Lemma edited_and_removed_ok : view_ok edited_and_removed /\ mutation_ok edited_and_removed.
Proof.
  destruct edited_ok as [Hv Hm]. destruct (vget (nodes_ edited) 3) as [v|] eqn:Hv3; [|by vm_compute in Hv3].
  destruct (RemoveNode_spec edited 3 v Hv Hm Hv3) as ([] & g' & Hr & H).
  unfold edited_and_removed, state_after. rewrite Hr. split; [|apply H]. eapply view_ok_same; [apply H|done].
Qed.

Lemma valid_names_from {AttrValue} (g : MutableGraphView AttrValue) : view_ok g ->
  Forall (fun d => valid_node_name (name d) = true) (graph g) ->
  Forall (fun n => valid_node_name (name (new_node n)) = true) (new_nodes_ (mutation_ g)) -> valid_names g.
Proof.
  rewrite !Forall_forall. intros Hg H1 H2. split; [|done]. intros i Hi. rewrite (ok_length _ (ok_names_ok _ _ _ Hg)) in Hi.
  apply vget_ex in Hi as [d Hd]. unfold name_of. rewrite Hd. apply H1, elem_of_vget. eauto.
Qed.

Lemma keeps_names_from {AttrValue} (g : MutableGraphView AttrValue) :
  Forall (fun x => update_name x = false) (updated_nodes_ (mutation_ g)) -> keeps_names g.
Proof. by rewrite Forall_forall. Qed.

Lemma Apply_commits_witness :
  exists g', Apply (HO := elements_order) edited_and_removed = Ok (Status_OK, g') /\ committed edited_and_removed g' /\
    map name (graph g') = ["c"; "b"; "a"; "e"] /\ map op (graph g') = ["Abs"; "Split"; "Const"; "Sum"].
Proof.
  destruct edited_and_removed_ok as [Hv Hm].
  destruct (Apply_commits (HO := elements_order) edited_and_removed Hv Hm) as (st & g' & Hr & _ & Hc).
  { apply valid_names_from; [exact Hv|by_deciding..]. }
  { apply keeps_names_from. by_deciding. }
  assert (st = Status_OK) as ->.
  { apply (f_equal (fun r => match r with Ok (s, _) => s | Fault _ => st end)) in Hr. by vm_compute in Hr. }
  exists g'. split; [exact Hr|]. split; [by apply Hc|]. clear Hv Hm Hc.
  assert (match Apply (HO := elements_order) edited_and_removed with Ok (_, h) => Some (map name (graph h), map op (graph h)) | Fault _ => None end
    = Some (["c"; "b"; "a"; "e"], ["Abs"; "Split"; "Const"; "Sum"])) as E by (vm_compute; reflexivity).
  rewrite Hr in E. clear Hr. injection E as E1 E2. split; assumption.
Defined.

(** ** Three behaviours of the code on the example *)

#[local] Existing Instance elements_order.

(** [FixRenamedNodes] clears the new name, so that [ApplyNodeUpdates] takes the
    diff of a node that was only renamed for empty and leaves the index of the
    diff in the node.  The mutation is empty afterwards, and the next change of
    that node reads a diff that is not there. *)
Example rename_leaves_update_index :
  let renamed := state_after (Mut.UpdateNodeName 3 "e";; Apply) diamond_view in
  map name (graph renamed) = ["c"; "b"; "a"; "e"] /\ updated_nodes_ (mutation_ renamed) = [] /\
  update_index_ <$> vget (nodes_ renamed) 3 = Some 0 /\
  Mut.UpdateNodeOp 3 "Abs" renamed = Fault OutOfRange.
Proof. vm_compute. split_and!; reflexivity. Qed.

(** An update of a node that has been removed records a diff of it.  Its name then
    counts as one that will exist, so that its fanouts are not checked: [Apply]
    reports success, and node [d] is left with an input of the node that is
    gone. *)
Example removed_node_updated :
  exists g', (RemoveNode 0;; Mut.UpdateNodeOp 0 "Abs";; Apply) diamond_view = Ok (Status_OK, g') /\
    map name (graph g') = ["d"; "b"; "a"] /\ map input (graph g') = [["c"; "^a"]; ["a"]; []].
Proof. eexists. split; [vm_compute; reflexivity|]. vm_compute. split; reflexivity. Qed.

(** A fanin is set to another node and then back to the one it has: the update
    recorded first stays and is applied. *)
Example fanin_not_set_back :
  exists g', (Mut.AddOrUpdateRegularFanin 1 0 (mk_TensorId "c" 0);; Mut.AddOrUpdateRegularFanin 1 0 (mk_TensorId "a" 0))
      diamond_view = Ok (tt, g') /\
    (regular_inputs_to_update <$> updated_nodes_ (mutation_ g')) = [{[0 := mk_TensorId "c" 0]}].
Proof. eexists. split; [vm_compute; reflexivity|]. vm_compute. reflexivity. Qed.
