(* ===== verification/GraphRewrite.v ===== *)
(** * GraphRewrite: lists of edits, applied to a graph

    What an optimizer of a graph relies on: the content of a node as its NodeDef
    says it, a list of edits recorded one after the other, and when the mutation
    that comes of it is valid.  Together: the graph that [Apply] leaves has
    exactly the contents that the edits ask for. *)

From S2P Require Import Prelude Vec TensorName GraphView GraphInv GraphBulk GraphEdit GraphEditProofs GraphBuild HashOrder GraphDiff GraphContent GraphWellFormed GraphMutation GraphMutationProofs GraphValidate GraphValidateProofs GraphValidated GraphApply GraphUpdate GraphNewNodes GraphCommit GraphApplyProofs.
#[local] Open Scope string_scope.
#[local] Open Scope list_scope.
#[local] Open Scope Z_scope.

Section rewrite.
  Context {AttrValue : Type}.
  #[local] Notation G := (MutableGraphView AttrValue).
  #[local] Notation D := (NodeViewDiff AttrValue).
  Implicit Type g : G.

(** ** The content of a NodeDef *)

Definition regular_ids (d : NodeDef AttrValue) : list TensorId :=
  List.filter (fun t => negb (IsTensorIdControl t)) (map ParseTensorName (input d)).
Definition control_ids (d : NodeDef AttrValue) : list TensorId :=
  List.filter IsTensorIdControl (map ParseTensorName (input d)).

Definition def_content (d : NodeDef AttrValue) : content AttrValue :=
  mk_content (name d) (op d) (device d) (vget (regular_ids d)) (list_to_set (map TensorName.node (control_ids d))) (attr d).

(** Two graphs with the same contents, whatever their order. *)
Definition contents_of (l : list (NodeDef AttrValue)) (P : content AttrValue -> Prop) : Prop :=
  (forall d, d ∈ l -> exists c, P c /\ def_content d ≡ c) /\ (forall c, P c -> exists d, d ∈ l /\ def_content d ≡ c).

Lemma filter_all {A} (f : A -> bool) (l : list A) : (forall x, x ∈ l -> f x = true) -> List.filter f l = l.
Proof.
  induction l as [|x l IH]; intros H; cbn; [done|]. rewrite (H x) by left. f_equal. apply IH. intros y Hy. apply H. by right.
Qed.
Lemma filter_none {A} (f : A -> bool) (l : list A) : (forall x, x ∈ l -> f x = false) -> List.filter f l = [].
Proof.
  induction l as [|x l IH]; intros H; cbn; [done|]. rewrite (H x) by left. apply IH. intros y Hy. apply H. by right.
Qed.

Lemma regular_port g i v w : view_ok g -> vget (nodes_ g) i = Some v -> w ∈ regular_fanins_ v -> 0 <= fanout_port_index w.
Proof.
  intros Hg Hv [k Hk]%elem_of_vget. apply (ok_fanin ∅ g (ok_edges _ _ _ Hg) i k w). unfold fanin_at. by rewrite Hv.
Qed.
Lemma control_port g i v w : view_ok g -> vget (nodes_ g) i = Some v -> w ∈ controlling_fanins_ v -> fanout_port_index w = kControlSlot.
Proof.
  intros Hg Hv [k Hk]%elem_of_vget. apply (ok_control_fanin ∅ g (ok_controls _ _ _ Hg) i k w). unfold control_fanin_at. by rewrite Hv.
Qed.

Lemma split_ids g i d v : view_ok g -> vget (graph g) i = Some d -> vget (nodes_ g) i = Some v ->
  regular_ids d = map (fanin_id g) (regular_fanins_ v) /\ control_ids d = map (fanin_id g) (controlling_fanins_ v).
Proof.
  intros Hg Hd Hv. pose proof (ok_inputs _ Hg i d v Hd Hv) as Hi. unfold regular_ids, control_ids. rewrite Hi, !map_app, !List.filter_app.
  assert (forall t, t ∈ map (fanin_id g) (regular_fanins_ v) -> IsTensorIdControl t = false) as Hr.
  { intros t (w & -> & Hw)%list_elem_of_fmap. pose proof (regular_port g i v w Hg Hv Hw). unfold IsTensorIdControl, kControlSlot. cbn.
    apply Z.eqb_neq. lia. }
  assert (forall t, t ∈ map (fanin_id g) (controlling_fanins_ v) -> IsTensorIdControl t = true) as Hc.
  { intros t (w & -> & Hw)%list_elem_of_fmap. pose proof (control_port g i v w Hg Hv Hw) as E. unfold IsTensorIdControl. cbn. rewrite E. done. }
  rewrite (filter_all (fun t => negb (IsTensorIdControl t)) (map _ (regular_fanins_ v))) by (intros t Ht; by rewrite Hr).
  rewrite (filter_none (fun t => negb (IsTensorIdControl t)) (map _ (controlling_fanins_ v))) by (intros t Ht; by rewrite Hc).
  rewrite (filter_none IsTensorIdControl (map _ (regular_fanins_ v))) by done.
  rewrite (filter_all IsTensorIdControl (map _ (controlling_fanins_ v))) by done. by rewrite app_nil_r.
Qed.

Lemma def_content_ok g i d v : view_ok g -> vget (graph g) i = Some d -> vget (nodes_ g) i = Some v -> def_content d ≡ node_content g d v.
Proof.
  intros Hg Hd Hv. destruct (split_ids g i d v Hg Hd Hv) as [Hr Hc]. split_and!; try done; cbn.
  - intros k. rewrite Hr. by rewrite vget_map.
  - rewrite Hc. unfold control_names. rewrite map_map. done.
Qed.

Lemma deduplicated_regular d0 d : inputs_deduplicated d0 d -> regular_ids d = regular_ids d0.
Proof.
  intros (controls & Hc & _ & Hin).
  assert (forall t, t ∈ controls -> IsTensorIdControl t = true) as Hcs by (intros t [_ Ht]%Hin%elem_of_filter_bool; done).
  unfold regular_ids. rewrite Hc, List.filter_app, (filter_none _ controls), app_nil_r by (intros t Ht; by rewrite Hcs).
  apply filter_all. intros t Ht%elem_of_filter_bool. apply Ht.
Qed.

Lemma deduplicated_content d0 d : same_but_input d0 d -> inputs_deduplicated d0 d -> def_content d ≡ def_content d0.
Proof.
  intros (H1 & H2 & H3 & H4 & _) Hdd. pose proof (deduplicated_regular d0 d Hdd) as Hr. destruct Hdd as (controls & Hc & _ & Hin). unfold def_content.
  assert (forall t, t ∈ controls -> IsTensorIdControl t = true) as Hcs by (intros t [_ Ht]%Hin%elem_of_filter_bool; done).
  assert (control_ids d = controls) as Hk.
  { unfold control_ids. rewrite Hc, List.filter_app, (filter_all _ controls) by done. rewrite filter_none; [done|].
    intros t [_ Ht]%elem_of_filter_bool. by apply negb_true_iff. }
  split_and!; cbn; rewrite ?Hr, ?Hk; try done. apply set_eq. intros s. rewrite !elem_of_list_to_set, !list_elem_of_fmap.
  unfold control_ids. by setoid_rewrite Hin.
Qed.

(** ** Edits in a row *)

(** An edit that may come at any time: it sets a fanin to another tensor than the
    one that is there, or changes an attribute. *)
Definition plain_edit g (i : Z) (e : edit AttrValue) : Prop :=
  exists v, vget (nodes_ g) i = Some v /\
    match e with
    | SetFanin k t => 0 <= k /\ port_ok t /\ fanin_id g <$> vget (regular_fanins_ v) k <> Some t
    | SetAttr _ _ => True
    | _ => False
    end.

Lemma plain_edit_same g g' i e : same_view g g' -> plain_edit g i e -> plain_edit g' i e.
Proof.
  intros Hs (v & Hv & He). destruct (sv_node _ _ Hs _ _ Hv) as [u Hu]. exists (set_update_index u v). split; [done|].
  destruct e; try done. destruct He as (H1 & H2 & H3). split; [done|]. split; [done|]. cbn.
  intros E. apply H3. rewrite <- E. destruct (vget (regular_fanins_ v) k) as [w|]; [|done]. cbn. unfold fanin_id, name_of. by rewrite (sv_graph _ _ Hs).
Qed.

Lemma plain_edit_allowed g i e : i ∉ removed_nodes_ (mutation_ g) -> plain_edit g i e -> edit_allowed g i e.
Proof.
  intros Hi (v & Hv & He). exists v. split; [done|]. split; [done|]. destruct e; try done. destruct He as (H1 & H2 & H3).
  split; [done|]. split; [done|]. intros E. exfalso. by apply H3.
Qed.

(** What a list of edits makes of the content of one node. *)
Definition edited_by (es : list (Z * edit AttrValue)) (i : Z) (c : content AttrValue) : content AttrValue :=
  fold_left (fun c '(j, e) => if bool_decide (j = i) then edit_content e c else c) es c.

#[export] Instance edited_by_proper es i : Proper ((≡) ==> (≡)) (edited_by es i).
Proof.
  induction es as [|[j e] es IH]; intros c c' Hc; cbn [edited_by fold_left]; [done|]. apply IH.
  case_bool_decide; [by apply edit_content_proper|done].
Qed.

(** Edits of fanins and attributes, as they add up. *)
Definition plain (e : edit AttrValue) : Prop := match e with SetFanin _ _ | SetAttr _ _ => True | _ => False end.

Lemma edited_by_snoc es j e i c : edited_by (es ++ [(j, e)]) i c = if bool_decide (j = i) then edit_content e (edited_by es i c) else edited_by es i c.
Proof. unfold edited_by. by rewrite fold_left_app. Qed.

Lemma edited_fields es i c : (forall j e, (j, e) ∈ es -> plain e) -> c_name (edited_by es i c) = c_name c /\ c_op (edited_by es i c) = c_op c /\
  c_device (edited_by es i c) = c_device c /\ c_controls (edited_by es i c) = c_controls c.
Proof.
  induction es as [|[j e] es IH] using rev_ind; intros He; [done|]. rewrite edited_by_snoc.
  destruct IH as (H1 & H2 & H3 & H4); [intros j' e' Hin; apply (He j' e'); set_solver|].
  specialize (He j e ltac:(set_solver)). case_bool_decide; [|done]. destruct e, (edited_by es i c); done.
Qed.

Lemma edited_slot_kept es i c k : (forall j e, (j, e) ∈ es -> plain e) -> (forall t, (i, SetFanin k t) ∉ es) ->
  c_regular (edited_by es i c) k = c_regular c k.
Proof.
  induction es as [|[j e] es IH] using rev_ind; intros He Hn; [done|]. rewrite edited_by_snoc.
  assert (c_regular (edited_by es i c) k = c_regular c k) as <- by (apply IH; [intros j' e' Hin; apply (He j' e'); set_solver|set_solver]).
  specialize (He j e ltac:(set_solver)). case_bool_decide as E; [|done]. subst j. destruct e, (edited_by es i c); try done.
  cbn. unfold set_slot. rewrite bool_decide_false; [done|]. intros ->. apply (Hn t). set_solver.
Qed.

Lemma edited_slot es i c k t : (forall j e, (j, e) ∈ es -> plain e) -> (i, SetFanin k t) ∈ es ->
  (forall t', (i, SetFanin k t') ∈ es -> t' = t) -> c_regular (edited_by es i c) k = Some t.
Proof.
  induction es as [|[j e] es IH] using rev_ind; intros He Hin Hall; [by apply elem_of_nil in Hin|]. rewrite edited_by_snoc.
  assert (plain e) as Hp by (apply (He j e); set_solver). case_bool_decide as E.
  - subst j. assert ((exists t', e = SetFanin k t') \/ ~ exists t', e = SetFanin k t') as [[t' ->]|Hne].
    { destruct e as [| | |k' t'| | | | |]; try (right; naive_solver). destruct (decide (k' = k)) as [->|]; [left; eauto|right; naive_solver]. }
    { rewrite (Hall t') by set_solver. destruct (edited_by es i c). cbn. unfold set_slot. by rewrite bool_decide_true. }
    assert (c_regular (edited_by es i c) k = Some t) as <-.
    { apply IH; [intros j' e' H'; apply (He j' e'); set_solver| |set_solver]. apply elem_of_app in Hin as [?|Hin%list_elem_of_singleton]; [done|].
      exfalso. apply Hne. exists t. congruence. }
    destruct e, (edited_by es i c); try done. cbn. unfold set_slot. rewrite bool_decide_false; [done|]. intros ->. by apply Hne; exists t0.
  - apply IH; [intros j' e' H'; apply (He j' e'); set_solver| |set_solver]. apply elem_of_app in Hin as [?|Hin%list_elem_of_singleton]; [done|congruence].
Qed.

Lemma edited_attr_kept es i c : (forall j e, (j, e) ∈ es -> plain e) -> (forall s a, (i, SetAttr s a) ∉ es) -> c_attr (edited_by es i c) = c_attr c.
Proof.
  induction es as [|[j e] es IH] using rev_ind; intros He Hn; [done|]. rewrite edited_by_snoc.
  assert (c_attr (edited_by es i c) = c_attr c) as <- by (apply IH; [intros j' e' Hin; apply (He j' e'); set_solver|set_solver]).
  specialize (He j e ltac:(set_solver)). case_bool_decide as E; [|done]. subst j. destruct e, (edited_by es i c); try done.
  exfalso. apply (Hn s a). set_solver.
Qed.

Lemma edited_attr_or es i c s a : (forall j e, (j, e) ∈ es -> plain e) -> (forall s' a', (i, SetAttr s' a') ∈ es -> s' = s /\ a' = a) ->
  c_attr (edited_by es i c) = c_attr c \/ c_attr (edited_by es i c) = <[s := a]> (c_attr c).
Proof.
  induction es as [|[j e] es IH] using rev_ind; intros He Ha; [by left|]. rewrite edited_by_snoc.
  assert (c_attr (edited_by es i c) = c_attr c \/ c_attr (edited_by es i c) = <[s:=a]> (c_attr c)) as IH'.
  { apply IH; [intros j' e' H; apply (He j' e')|intros s' a' H; apply (Ha s' a')]; apply elem_of_app; by left. }
  assert ((j, e) ∈ es ++ [(j, e)]) as Hl by (apply elem_of_app; right; left). case_bool_decide as E; [|done]. subst j.
  pose proof (He i e Hl) as Hp. clear He IH. destruct e; try done; [by destruct (edited_by es i c)|].
  destruct (Ha _ _ Hl) as [-> ->]. right. destruct (edited_by es i c). cbn in *. destruct IH' as [->| ->]; [done|]. by rewrite insert_insert_eq.
Qed.

Lemma edited_attr es i c s a : (forall j e, (j, e) ∈ es -> plain e) -> (i, SetAttr s a) ∈ es ->
  (forall s' a', (i, SetAttr s' a') ∈ es -> s' = s /\ a' = a) -> c_attr (edited_by es i c) = <[s := a]> (c_attr c).
Proof.
  intros He (l1 & l2 & ->)%list_elem_of_split Ha. unfold edited_by. rewrite fold_left_app. cbn [fold_left]. rewrite bool_decide_true by done.
  assert (forall l c', (forall p, p ∈ l -> p ∈ l1 ++ (i, SetAttr s a) :: l2) -> c_attr (edited_by l i c') = c_attr c' \/ c_attr (edited_by l i c') = <[s := a]> (c_attr c')) as Hor.
  { intros l c' Hl. apply edited_attr_or; [intros j e H; by apply (He j e), Hl|intros s' a' H; by apply Ha, Hl]. }
  fold (edited_by l1 i c). set (c1 := edited_by l1 i c). fold (edited_by l2 i (edit_content (SetAttr s a) c1)).
  assert (c_attr (edit_content (SetAttr s a) c1) = <[s := a]> (c_attr c)) as E.
  { destruct (Hor l1 c) as [E|E]; [intros p Hp; apply elem_of_app; by left|..]; fold c1 in E; destruct c1; cbn in *; rewrite E; [done|]. by rewrite insert_insert_eq. }
  destruct (Hor l2 (edit_content (SetAttr s a) c1)) as [->| ->]; [intros p Hp; apply elem_of_app; right; by right|done|]. rewrite E. by rewrite insert_insert_eq.
Qed.

(** No name changes while edits are recorded. *)
Lemma AddMutation_keeps_names g i f u g' : (forall g x b x', f g x = Ok (b, x') -> update_name x' = update_name x) ->
  AddMutation i f g = Ok (u, g') -> keeps_names g -> keeps_names g'.
Proof.
  intros Hf H Hk. unfold AddMutation, update_node, modify_mutation, modify, node_at, lift, get, at_, in_range, mbind, ST_bind, mret, ST_ret in H.
  repeat case_match; simplify_eq; cbn in *; try done; intros y [k Hy]%elem_of_vget; cbn in Hy; try (apply Hk, elem_of_vget; by eauto).
  - rewrite vget_snoc in Hy. case_bool_decide; [|apply Hk, elem_of_vget; by eauto]. simplify_eq.
    match goal with H : f _ (Diff.make _) = Ok _ |- _ => by rewrite (Hf _ _ _ _ H) end.
  - match goal with H : vget (updated_nodes_ _) _ = Some ?x |- _ => rewrite vget_vset in Hy by (by eapply vget_Some);
      assert (update_name x = false) as Hx by (apply Hk, elem_of_vget; by eauto) end.
    case_bool_decide; [|apply Hk, elem_of_vget; by eauto]. simplify_eq.
    match goal with H : f _ _ = Ok (_, y) |- _ => by rewrite (Hf _ _ _ _ H) end.
Qed.

Lemma apply_edit_keeps_names g i e u g' : plain_edit g i e -> apply_edit i e g = Ok (u, g') -> keeps_names g -> keeps_names g'.
Proof.
  intros (v & _ & He) H. destruct e; try done; cbn [apply_edit] in H; (eapply AddMutation_keeps_names; [|exact H]); intros h x b x' Hf; cbv beta in Hf.
  - unfold Diff.AddOrUpdateRegularFanin, mbind, result_bind, mret, result_ret in Hf. repeat case_match; simplify_eq; done.
  - unfold Diff.AddOrUpdateAttribute, mret, result_ret in Hf. injection Hf as _ <-. by case_bool_decide.
Qed.

(** The effect of recording edits, one after the other. *)
Record edits_recorded g (es : list (Z * edit AttrValue)) g' : Prop := {
  er_view : same_view g g';
  er_ok : mutation_ok g';
  er_names : keeps_names g';
  er_pending : forall j, pending g' j ≡ edited_by es j <$> pending g j;
  er_removed : removed_nodes_ (mutation_ g') = removed_nodes_ (mutation_ g);
  er_new : new_nodes_ (mutation_ g') = new_nodes_ (mutation_ g)
}.

Lemma edits_recorded_app g es g1 es' g2 : edits_recorded g es g1 -> edits_recorded g1 es' g2 -> edits_recorded g (es ++ es') g2.
Proof.
  intros [H1 H2 H3 H4 H5 H6] [K1 K2 K3 K4 K5 K6]. split; try done; try congruence; [by etrans|].
  intros j. rewrite (K4 j), (H4 j). unfold edited_by. rewrite <- option_fmap_compose. apply option_fmap_equiv_ext.
  intros c. cbn. by rewrite fold_left_app.
Qed.

Lemma edits_recorded_start g : mutation_ok g -> keeps_names g -> edits_recorded g [] g.
Proof. intros Hm Hk. split; try done. intros j. by destruct (pending g j). Qed.

(** One more edit. *)
Lemma record_edit g es g1 i e : view_ok g -> removed_nodes_ (mutation_ g) = ∅ -> edits_recorded g es g1 -> plain_edit g i e ->
  runs (apply_edit i e) g1 (fun _ => edits_recorded g (es ++ [(i, e)])).
Proof.
  intros Hg Hr He Hi. pose proof He as [E1 E2 E3 E4 E5 E6]. assert (plain_edit g1 i e) as Hi1 by (by eapply plain_edit_same).
  assert (view_ok g1) as Hg1 by (by eapply view_ok_same).
  destruct (apply_edit_spec g1 i e Hg1 E2) as ([] & g2 & H & Hrec); [by apply plain_edit_allowed; [rewrite E5, Hr|]|].
  exists tt, g2. split; [done|]. eapply edits_recorded_app; [exact He|]. pose proof (apply_edit_keeps_names g1 i e tt g2 Hi1 H E3) as Hk2.
  destruct Hrec as [R1 R2 R3 R4 R5 R6 _]. split; try done. intros j. unfold edited_by. cbn [fold_left].
  destruct (decide (i = j)) as [<-|E]; [by rewrite bool_decide_true by done|]. rewrite bool_decide_false, (R4 j) by done. by destruct (pending g1 j).
Qed.

(** ** When a mutation is valid *)

Lemma final_names_ex g : view_ok g -> mutation_ok g -> keeps_names g -> NoDup (claimed g) -> exists M, final_names g M.
Proof.
  intros Hg Hm Hk Hnd. set (M1 := list_to_map (map (fun s => (s, kNodeNamePresent)) (claimed g)) : gmap string Z).
  set (M2 := list_to_map (map (fun i => (name_of g i, i)) (elements (removed_nodes_ (mutation_ g)))) : gmap string Z).
  assert (forall s, M1 !! s = if bool_decide (s ∈ claimed g) then Some kNodeNamePresent else None) as H1.
  { intros s. unfold M1. case_bool_decide as E.
    - apply elem_of_list_to_map_1; [by rewrite <- list_fmap_compose, list_fmap_id|]. apply list_elem_of_fmap. eauto.
    - apply not_elem_of_list_to_map_1. by rewrite <- list_fmap_compose, list_fmap_id. }
  assert (forall i, leaving g i <-> i ∈ removed_nodes_ (mutation_ g)) as Hl.
  { intros i. split; [|by left]. intros [?|(x & Hx & Hu & _)]; [done|]. by rewrite (Hk x Hx) in Hu. }
  assert (forall i, i ∈ removed_nodes_ (mutation_ g) -> 0 <= i < size_ (nodes_ g)) as Hrg by apply Hm.
  assert (forall s i, M2 !! s = Some i <-> i ∈ removed_nodes_ (mutation_ g) /\ name_of g i = s) as H2.
  { intros s i. unfold M2. rewrite <- elem_of_list_to_map.
    - rewrite list_elem_of_fmap. setoid_rewrite elem_of_elements. split; [intros (j & [= -> ->] & Hj); done|intros [Hi <-]; eauto].
    - rewrite <- list_fmap_compose. apply NoDup_fmap_2_strong; [|apply NoDup_elements]. intros x y Hx%elem_of_elements Hy%elem_of_elements E.
      cbn in E. apply (name_of_inj g); auto. }
  exists (M1 ∪ M2). split.
  - intros s Hs. rewrite lookup_union, H1, bool_decide_true by done. by destruct (M2 !! s).
  - intros s i Hs. rewrite lookup_union, H1, bool_decide_false by done. rewrite (left_id_L None _), H2, Hl. done.
Qed.

Lemma changed_names_distinct g : view_ok g -> mutation_ok g -> keeps_names g -> NoDup (map (new_name_of g) (changed g (all_diffs g))).
Proof.
  intros Hg Hm Hk. apply NoDup_fmap_2_strong.
  - intros u u' [Hu%elem_of_all_diffs _]%elem_of_filter_bool [Hu'%elem_of_all_diffs _]%elem_of_filter_bool E.
    destruct (vget_ex _ _ Hu) as [x Hx], (vget_ex _ _ Hu') as [x' Hx']. apply (diff_unique g u u' x x' Hm Hx Hx').
    unfold new_name_of in E. rewrite (diff_of_Some _ _ _ Hx), (diff_of_Some _ _ _ Hx') in E.
    rewrite (Hk x), (Hk x') in E by (apply elem_of_vget; eauto).
    apply (name_of_inj g); [done| | |done]; rewrite <- ?(diff_of_Some _ _ _ Hx), <- ?(diff_of_Some _ _ _ Hx'); by apply diff_node_range.
  - unfold changed, all_diffs. apply NoDup_ListNoDup, List.NoDup_filter, NoDup_ListNoDup, NoDup_count_up.
Qed.

(** The inputs of a content are without gaps and are other nodes that exist. *)
Record linked (exists_ : string -> Prop) (c : content AttrValue) : Prop := {
  ln_regular : exists l, regular_inputs c l;
  ln_inputs : forall k t, c_regular c k = Some t -> TensorName.node t <> c_name c /\ exists_ (TensorName.node t);
  ln_controls : forall s, s ∈ c_controls c -> s <> c_name c /\ exists_ s
}.

Lemma linked_equiv P c c' : c ≡ c' -> linked P c -> linked P c'.
Proof.
  intros (En & _ & _ & Er & Ec & _) [[l Hl] H2 H3]. split.
  - exists l. intros k. by rewrite <- Er.
  - intros k t. rewrite <- Er, <- En. apply H2.
  - intros s. rewrite <- Ec, <- En. apply H3.
Qed.

(** The names that there are after the mutation. *)
Definition remains g (s : string) : Prop :=
  s ∈ claimed g \/ (HasNode g s = true /\ forall i, i ∈ removed_nodes_ (mutation_ g) -> name_of g i <> s).

Lemma remains_exists g M s : final_names g M -> keeps_names g -> remains g s -> CheckNodeNameExists s M g = true.
Proof.
  intros [H1 H2] Hk Hs. unfold CheckNodeNameExists. destruct (decide (s ∈ claimed g)) as [Hc|Hc]; [by rewrite H1|].
  destruct Hs as [?|[Hh Hn]]; [done|]. destruct (M !! s) as [i|] eqn:E; [|done]. apply H2 in E as [[Hi|(x & Hx & Hu & _)] En]; [|by rewrite (Hk x Hx) in Hu|done].
  by destruct (Hn i Hi).
Qed.

(** Fanouts of removed nodes are removed as well, no other node is touched. *)
Definition removal_closed g : Prop :=
  forall i v, i ∈ removed_nodes_ (mutation_ g) -> name_of g i ∉ claimed g -> vget (nodes_ g) i = Some v ->
  forall fo, fo ∈ concat (regular_fanouts_by_port_ v) \/ fo ∈ controlled_fanouts_ v ->
  exists w, vget (nodes_ g) (fanin_node_index fo) = Some w /\ update_index_ w = kMissingIndex /\ fanin_node_index fo ∈ removed_nodes_ (mutation_ g).

Lemma mutation_valid g : view_ok g -> mutation_ok g -> keeps_names g -> NoDup (claimed g) -> removal_closed g ->
  (forall n, n ∈ new_nodes_ (mutation_ g) -> linked (remains g) (new_target n)) ->
  (forall u i c, u ∈ changed g (all_diffs g) -> diff_node_index (diff_of g u) = i -> pending g i = Some c -> linked (remains g) c) ->
  exists M, valid_mutation g M.
Proof.
  intros Hg Hm Hk Hnd Hrc Hnew Hupd. destruct (final_names_ex g Hg Hm Hk Hnd) as [M HM]. exists M.
  assert (forall nm s, s <> nm /\ remains g s -> fanin_name_ok g M nm s) as Hok.
  { intros nm s [Hs Hr]. split; [done|]. by apply remains_exists. }
  split; [done|done| | |].
  - intros i Hl Hn v Hv. assert (i ∈ removed_nodes_ (mutation_ g)) as Hi.
    { destruct Hl as [?|(x & Hx & Hu & _)]; [done|]. by rewrite (Hk x Hx) in Hu. }
    split; intros fo Hfo; destruct (Hrc i v Hi Hn Hv fo) as (w & Hw & Hu & Hr); try tauto; exists w; (split; [done|]); rewrite bool_decide_true by done; by left.
  - intros u Hu. pose proof Hu as [Hur%elem_of_all_diffs _]%elem_of_filter_bool. destruct (vget_ex _ _ Hur) as [x Hx].
    destruct (mo_diff _ Hm _ _ Hx) as (v & Hv & Hvu & _ & _). destruct (view_ok_def _ _ _ _ _ Hg Hv) as [d Hd].
    unfold diff_valid. pose proof (diff_of_Some _ _ _ Hx) as Ex. rewrite Ex. exists v, d. split; [done|]. split; [done|].
    assert (pending g (diff_node_index x) = Some (target g d v x)) as Hp.
    { unfold pending, pending_diff. rewrite Hv. cbn [mbind option_bind]. rewrite Hd, Hvu, Hx. done. }
    destruct (Hupd u (diff_node_index x) _ Hu ltac:(by rewrite Ex) Hp) as [[l Hl] Hin Hc]. split; [exists l; exact Hl|]. split.
    + intros k t Ht _. apply Hok. by apply (Hin k).
    + intros s Hs. apply Hok, Hc. cbn. apply elem_of_union. by left.
    + intros Hun. rewrite (Hk x) in Hun; [done|]. apply elem_of_vget. eauto.
  - intros n Hn. destruct (Hnew n Hn) as [Hl Hin Hc]. split; [done| |]; intros; apply Hok; [by eapply Hin|by apply Hc].
Qed.
End rewrite.

(** ** The graph that is left *)

Section applied.
  Context {AttrValue : Type} {HO : HashOrder} {NA : NodeAllocation}.
  #[local] Notation G := (MutableGraphView AttrValue).
  Implicit Type g : G.

(** A consistent view with nothing recorded. *)
Record idle_view g : Prop := {
  iv_view : view_ok g;
  iv_updated : updated_nodes_ (mutation_ g) = [];
  iv_removed : removed_nodes_ (mutation_ g) = ∅;
  iv_new : new_nodes_ (mutation_ g) = [];
  iv_nodes : forall i v, vget (nodes_ g) i = Some v -> update_index_ v = kMissingIndex;
  iv_names : forall d, d ∈ graph g -> valid_node_name (name d) = true
}.

Lemma idle_mutation_ok g : idle_view g -> mutation_ok g.
Proof.
  intros [Hg Hu Hr Hn Hi _]. split; rewrite ?Hu, ?Hr, ?Hn.
  - intros i v Hv Hne. exfalso. by apply Hne, (Hi i).
  - intros u x Hx. by rewrite vget_nil in Hx.
  - intros i Hi'%elem_of_empty. done.
  - intros n Hn'%elem_of_nil. done.
Qed.

Lemma idle_keeps_names g : idle_view g -> keeps_names g.
Proof. intros [_ Hu _ _ _ _] x. rewrite Hu. by intros ?%elem_of_nil. Qed.

Lemma unedited_pending g i v d : updated_nodes_ (mutation_ g) = [] -> vget (nodes_ g) i = Some v -> vget (graph g) i = Some d ->
  pending g i = Some (node_content g d v).
Proof. intros Hu Hv Hd. unfold pending, pending_diff. rewrite Hv. cbn [mbind option_bind]. by rewrite Hd, Hu, vget_nil. Qed.

Lemma idle_pending g i v d : idle_view g -> vget (nodes_ g) i = Some v -> vget (graph g) i = Some d -> pending g i = Some (node_content g d v).
Proof. intros Hi. apply unedited_pending, Hi. Qed.

Lemma node_at_index g i : view_ok g -> 0 <= i < size_ (nodes_ g) -> exists v d, vget (nodes_ g) i = Some v /\ vget (graph g) i = Some d.
Proof. intros Hg [v Hv]%vget_ex. destruct (view_ok_def _ _ _ _ _ Hg Hv) as [d Hd]. eauto. Qed.

Lemma node_of_def g d : view_ok g -> d ∈ graph g -> exists i v, vget (nodes_ g) i = Some v /\ vget (graph g) i = Some d.
Proof.
  intros Hg [i Hi]%elem_of_vget. destruct (vget_ex (nodes_ g) i) as [v Hv]; [rewrite (ok_length _ (ok_names_ok _ _ _ Hg)); by eapply vget_Some|]. eauto.
Qed.

(** A valid mutation is carried out: the graph has the contents asked for. *)
Lemma Apply_contents g M : view_ok g -> mutation_ok g -> keeps_names g -> valid_mutation g M ->
  (forall d, d ∈ graph g -> valid_node_name (name d) = true) ->
  (forall n, n ∈ new_nodes_ (mutation_ g) -> valid_node_name (name (new_node n)) = true) ->
  runs Apply g (fun st g' => st = Status_OK /\ idle_view g' /\ contents_of (graph g') (asked g) /\
    (replaces_only g -> map name (graph g') = map name (graph g))).
Proof.
  intros Hg Hm Hk HM Hnames Hnew. assert (valid_names g) as Hvn.
  { split; [|done]. intros i (v & d & _ & Hd)%(node_at_index g); [|done]. unfold name_of. rewrite Hd. apply Hnames, elem_of_vget. eauto. }
  eapply runs_mono; [by apply (Apply_committed g M)|]. intros st g' [-> [H1 H2 H3 H4 H5 H6]]. split; [done|].
  assert (contents_of (graph g') (asked g)) as Hc.
  { split.
    - intros d (i & v & Hv & Hd)%node_of_def; [|done]. destruct (H5 i d v Hd Hv) as (c & Hc & E). exists c. split; [done|].
      by rewrite (def_content_ok g' i d v).
    - intros c (i & d & v & Hd & Hv & E)%H4. exists d. split; [apply elem_of_vget; eauto|]. by rewrite (def_content_ok g' i d v). }
  split; [|by split]. split; rewrite ?H2; try done. intros d (c & Ha & (En & _))%(proj1 Hc). cbn in En. rewrite En.
  destruct Ha as [(n & Hn & ->)|(i & Hs & Hp)]; [by apply Hnew|]. destruct Hs as (Hr & _ & _).
  destruct (node_at_index g i Hg Hr) as (v & d' & Hv & Hd'). assert (c_name c = name d') as ->; [|apply Hnames, elem_of_vget; eauto].
  unfold pending in Hp. rewrite Hv in Hp. cbn [mbind option_bind] in Hp. rewrite Hd' in Hp. injection Hp as <-.
  destruct (pending_diff g i) as [x|] eqn:E; [|done]. cbn. rewrite (Hk x); [done|]. unfold pending_diff in E. rewrite Hv in E. apply elem_of_vget. eauto.
Qed.
End applied.

(** ** A view that has just been built *)

Section built.
  Context {AttrValue : Type}.
  #[local] Notation G := (MutableGraphView AttrValue).
  Implicit Type g : G.

Definition nothing_pending g : Prop := forall i v, vget (nodes_ g) i = Some v -> update_index_ v = kMissingIndex.

(** The computation keeps it so, whatever it gives. *)
Definition keeps {A} (P : G -> Prop) (m : ST G A) : Prop := forall g a g', P g -> m g = Ok (a, g') -> P g'.

Lemma keeps_bind {A B} P (m : ST G A) (k : A -> ST G B) : keeps P m -> (forall a, keeps P (k a)) -> keeps P (m ≫= k).
Proof. intros Hm Hk g b g' Hg H. unfold mbind, ST_bind in H. destruct (m g) as [[a g1]|] eqn:E; [|done]. eapply Hk; [|exact H]. by eapply Hm. Qed.
Lemma keeps_ret {A} P (a : A) : keeps P (mret a).
Proof. by intros g b g' Hg [= _ <-]. Qed.
Lemma keeps_get P : keeps P get.
Proof. by intros g b g' Hg [= _ <-]. Qed.
Lemma keeps_lift {A} P (r : result A) : keeps P (lift r).
Proof. intros g b g' Hg H. unfold lift in H. destruct r; [|done]. by injection H as _ <-. Qed.

Lemma keeps_node_at i : keeps nothing_pending (node_at i).
Proof. apply keeps_bind; [apply keeps_get|]. intros g. apply keeps_lift. Qed.
Lemma keeps_node_def_at i : keeps nothing_pending (node_def_at i).
Proof. apply keeps_bind; [apply keeps_get|]. intros g. apply keeps_lift. Qed.

Lemma keeps_update_node i f : (forall v, update_index_ (f v) = update_index_ v) -> keeps nothing_pending (update_node i f).
Proof.
  intros Hf g a g' Hg H. unfold update_node, node_at, modify, lift, at_, in_range, mbind, ST_bind, get in H.
  destruct (vget (nodes_ g) i) as [v|] eqn:E; [|done]. injection H as _ <-. intros j w Hw. cbn in Hw.
  rewrite vget_vset in Hw by (by eapply vget_Some). case_bool_decide; [|by apply (Hg j)]. simplify_eq. rewrite Hf. by apply (Hg j).
Qed.

Lemma keeps_update_node_def i f : keeps nothing_pending (update_node_def i f).
Proof. apply keeps_bind; [apply keeps_node_def_at|]. intros d g a g' Hg [= _ <-]. exact Hg. Qed.

Ltac keep := cbv zeta; repeat (first
  [ apply keeps_update_node; done | apply keeps_update_node_def | apply keeps_bind; [|intros ?; cbv zeta] | apply keeps_ret | apply keeps_get | apply keeps_lift | apply keeps_node_at | apply keeps_node_def_at ]).

Lemma keeps_connect_regular i j port : keeps nothing_pending (connect_regular i j port).
Proof. unfold connect_regular, push_regular_fanout, increment_fanin_count. keep. Qed.
Lemma keeps_connect_control i j : keeps nothing_pending (connect_control i j).
Proof. unfold connect_control, increment_fanin_count. keep. Qed.

Lemma keeps_add_fanins_loop fuel : forall i pos last_pos nf obs, keeps nothing_pending (add_fanins_loop fuel i pos last_pos nf obs).
Proof.
  induction fuel as [|fuel IH]; intros i pos last_pos nf obs; cbn [add_fanins_loop]; [apply keeps_lift|].
  destruct (last_pos <? pos); [apply keeps_ret|]. keep. destruct (IsTensorIdControl _); [case_bool_decide|].
  - keep. apply IH.
  - apply keeps_bind; [apply keeps_connect_control|]. intros _. keep. apply IH.
  - apply keeps_bind; [apply keeps_connect_regular|]. intros _. apply IH.
Qed.

Lemma keeps_AddFaninsInternal fanins : forall i, keeps nothing_pending (AddFaninsInternal i fanins).
Proof.
  induction fanins as [|nf fanins IH]; intros i; cbn [AddFaninsInternal]; [apply keeps_ret|]. apply keeps_bind; [|intros _; apply IH].
  apply keeps_bind; [apply keeps_add_fanins_loop|]. intros last_pos. destruct (_ <? _); keep.
Qed.

Lemma keeps_AddUniqueNodeInternal d : keeps nothing_pending (AddUniqueNodeInternal d).
Proof.
  intros g a g' Hg H. unfold AddUniqueNodeInternal, get, put, mbind, ST_bind, mret, ST_ret in H.
  destruct (node_index_by_name_ g !! name d); injection H as _ <-; [done|]. intros i v Hv. cbn in Hv.
  rewrite vget_snoc in Hv. case_bool_decide; [by simplify_eq|]. by apply (Hg i).
Qed.

Lemma keeps_add_unique_nodes l : keeps nothing_pending (add_unique_nodes l).
Proof.
  induction l as [|d l IH]; cbn [add_unique_nodes]; [apply keeps_ret|]. apply keeps_bind; [apply keeps_AddUniqueNodeInternal|].
  intros []; [apply IH|apply keeps_ret].
Qed.

Lemma keeps_construct : keeps nothing_pending construct.
Proof.
  assert (keeps nothing_pending Reset) as Hr by (intros g a g' Hg [= _ <-] i v Hv; cbn in Hv; by rewrite vget_nil in Hv).
  unfold construct. apply keeps_bind; [apply keeps_get|]. intros g0. apply keeps_bind; [apply keeps_add_unique_nodes|].
  intros [s|]; [by apply keeps_bind; [|intros ?; apply keeps_ret]|].
  apply keeps_bind; [apply keeps_bind; [apply keeps_get|intros ?; apply keeps_ret]|].
  intros [st|fanins]; [by apply keeps_bind; [|intros ?; apply keeps_ret]|]. apply keeps_bind; [apply keeps_AddFaninsInternal|]. intros _.
  apply keeps_bind; [|intros ?; apply keeps_ret]. intros g a g' Hg [= _ <-]. exact Hg.
Qed.

(** What a constructed view is. *)
Lemma constructed_idle (l : list (NodeDef AttrValue)) g : NoDup (map address l) -> Forall ports_in_range l ->
  (forall d, d ∈ l -> valid_node_name (name d) = true) -> make_MutableGraphView l = Ok (Status_OK, g) ->
  idle_view g /\ Forall2 (fun d0 d => same_but_input d0 d /\ inputs_deduplicated d0 d) l (graph g).
Proof.
  intros Ha Hp Hn H. destruct (construct_spec l Ha Hp) as (st & g' & Hg' & _ & _ & Hok). unfold make_MutableGraphView in H.
  rewrite H in Hg'. injection Hg' as <- <-. destruct (Hok eq_refl) as (Hv & Hm & Hf). split; [|done].
  split; rewrite ?Hm; try done.
  - eapply (keeps_construct _ _ g); [|exact H]. intros i v Hvi. cbn in Hvi. by rewrite vget_nil in Hvi.
  - intros d Hd. apply Forall2_flip in Hf. destruct (Forall2_in_l _ _ _ _ Hf Hd) as (d0 & Hd0 & (E & _) & _). rewrite E. by apply Hn.
Qed.

Lemma deduplicated_back (l l' : list (NodeDef AttrValue)) d : Forall2 (fun d0 d => same_but_input d0 d /\ inputs_deduplicated d0 d) l l' -> d ∈ l' ->
  exists d0, d0 ∈ l /\ name d0 = name d /\ op d0 = op d /\ attr d0 = attr d /\ regular_ids d0 = regular_ids d.
Proof.
  intros Hf Hd. apply Forall2_flip in Hf. destruct (Forall2_in_l _ _ _ _ Hf Hd) as (d0 & Hd0 & (E1 & E2 & _ & E4 & _) & Hdd).
  exists d0. split_and!; try done. symmetry. by apply deduplicated_regular.
Qed.

(** The contents of the nodes are those of the nodes given. *)
Lemma constructed_contents (l l' : list (NodeDef AttrValue)) : Forall2 (fun d0 d => same_but_input d0 d /\ inputs_deduplicated d0 d) l l' ->
  contents_of l' (fun c => exists d, d ∈ l /\ c = def_content d).
Proof.
  intros Hf. split.
  - intros d Hd. apply Forall2_flip in Hf. destruct (Forall2_in_l _ _ _ _ Hf Hd) as (d0 & Hd0 & H1 & H2).
    exists (def_content d0). split; [eauto|]. by apply deduplicated_content.
  - intros c (d0 & Hd0 & ->). destruct (Forall2_in_l _ _ _ _ Hf Hd0) as (d & Hd & H1 & H2). exists d. split; [done|]. by apply deduplicated_content.
Qed.
End built.
