(* ===== verification/GraphMeaning.v ===== *)
(** * GraphMeaning: the values that a graph computes

    The ops of a graph are given as a function from the name, op, attributes and
    input values of a node to the values of its outputs; a graph is evaluated by
    an assignment of values to tensors that agrees with all its nodes.  Both
    optimizers are judged by whether an evaluation of the graph they are given
    still is one of the graph they give back. *)

From S2P Require Import Prelude Vec TensorName GraphView GraphContent GraphRewrite.
#[local] Open Scope string_scope.
#[local] Open Scope list_scope.
#[local] Open Scope Z_scope.

Section meaning.
  Context {AttrValue V : Type}.

(** Name, op, attributes, inputs and output port. *)
Definition op_semantics : Type := string -> string -> gmap string AttrValue -> list V -> Z -> V.

Context (F : op_semantics).

(** The outputs of the node have the values that its op gives. *)
Definition computes (val : TensorId -> V) (c : content AttrValue) : Prop :=
  forall l p, regular_inputs c l -> 0 <= p -> val (mk_TensorId (c_name c) p) = F (c_name c) (c_op c) (c_attr c) (map val l) p.

Definition evaluates (l : list (NodeDef AttrValue)) (val : TensorId -> V) : Prop :=
  forall d, d ∈ l -> computes val (def_content d).

Lemma computes_equiv val c c' : c ≡ c' -> computes val c -> computes val c'.
Proof.
  intros (En & Eo & _ & Er & _ & Ea) H l p Hl Hp. rewrite <- En, <- Eo, <- Ea. apply H; [|done]. intros k. rewrite Er. apply Hl.
Qed.

Lemma regular_inputs_unique (c : content AttrValue) l l' : regular_inputs c l -> regular_inputs c l' -> l = l'.
Proof. intros H H'. apply vget_ext. intros k. by rewrite <- H, <- H'. Qed.

(** The values of a graph by its contents. *)
Lemma evaluates_contents l P val : contents_of l P -> evaluates l val <-> forall c, P c -> computes val c.
Proof.
  intros [H1 H2]. split.
  - intros H c (d & Hd & E)%H2. eapply computes_equiv; [exact E|]. by apply H.
  - intros H d (c & Hc & E)%H1. eapply computes_equiv; [symmetry; exact E|]. by apply H.
Qed.
End meaning.
Arguments op_semantics : clear implicits.
