(* ===== verification/Grappler.v ===== *)
(** * Grappler: what the graph optimizers share

    optimizer/op_types.cc, tensor_proto_util.{h,cc}, utils.cc, perm_utils.cc,
    grappler_item.{h,cc}, graph_properties.{h,cc} and op_registry.cc: the kinds
    of ops, the elements of a constant tensor, permutations between tensor
    formats, and what the host says of a graph.  The messages that are generated
    from TensorFlow's definitions and the C API of its optimizer are interfaces,
    the classes [ProtoMessages] and [GrapplerApi]. *)

From Stdlib Require Import Ascii.
From S2P Require Import Prelude Vec GraphView.
#[local] Open Scope string_scope.
#[local] Open Scope list_scope.
#[local] Open Scope Z_scope.

(** ** Messages

    [tensorflow::DataType], as far as it is told apart. *)

Inductive DataType := DT_INVALID | DT_HALF | DT_FLOAT | DT_INT32 | DT_INT64 | DT_other (n : Z).

#[export] Instance DataType_eq_dec : EqDecision DataType.
Proof. solve_decision. Defined.

(** The fields of [TensorProto] and [AttrValue] that are read and written.  A
    message field is [None] when it is not set, a value of an attribute is
    [None] when the attribute holds a value of another kind.  Bytes and the bits
    of floating-point numbers are integers. *)
Class ProtoMessages := {
  TensorProto : Type;
  default_TensorProto : TensorProto;
  tensor_shape : TensorProto -> option (list Z);
  dtype : TensorProto -> DataType;
  version_number : TensorProto -> Z;
  tensor_content : TensorProto -> list Z;
  int_val : TensorProto -> list Z;
  int64_val : TensorProto -> list Z;
  half_val : TensorProto -> list Z;
  float_val : TensorProto -> list Z;
  AttrValue : Type;
  attr_s : AttrValue -> option string;
  attr_tensor : AttrValue -> option TensorProto;
  attr_type : AttrValue -> option DataType;
  attr_shape : AttrValue -> option (list Z);
  attr_list_i : AttrValue -> option (list Z);
  make_s : string -> AttrValue;
  make_list_i : list Z -> AttrValue;
  default_TensorProto_shape : tensor_shape default_TensorProto = None;
  default_TensorProto_dtype : dtype default_TensorProto = DT_INVALID;
  attr_s_make_s s : attr_s (make_s s) = Some s;
  attr_list_i_make_list_i l : attr_list_i (make_list_i l) = Some l
}.

(** ** Kinds of ops *)

Section op_types.
  Context {A : Type}.
  Implicit Type node : NodeDef A.

Definition has_op node (l : list string) : bool := existsb (String.eqb (op node)) l.

Definition IsBiasAdd node : bool := has_op node ["BiasAdd"; "BiasAddV1"].
Definition IsConstant node : bool := has_op node ["Const"].
Definition IsConv2D node : bool := has_op node ["Conv2D"].
Definition IsElu node : bool := has_op node ["Elu"].
Definition IsFusedBatchNormGrad node : bool :=
  has_op node ["FusedBatchNormGrad"; "FusedBatchNormGradV2"; "FusedBatchNormGradV3"].
Definition IsLeakyRelu node : bool := has_op node ["LeakyRelu"].
Definition IsPlaceholder node : bool := has_op node ["Placeholder"; "PlaceholderV2"; "PlaceholderWithDefault"].
Definition IsPad node : bool := has_op node ["Pad"; "PadV2"].
Definition IsRelu node : bool := has_op node ["Relu"].
Definition IsRelu6 node : bool := has_op node ["Relu6"].
Definition IsSymbolicGradient node : bool := has_op node ["SymbolicGradient"].
Definition IsTranspose node : bool := has_op node ["Transpose"].
End op_types.

(** ** Permutations between formats *)

Definition GetDimensionIndices (data_format : string) : gmap ascii Z :=
  fold_left (fun index '(i, c) => <[c := Z.of_nat i]> index)
    (imap pair (String.list_ascii_of_string data_format)) ∅.

Definition GetPermutation (src_dim_indices : gmap ascii Z) (dst_format : string) : result (list Z) :=
  ASSERT (Z.of_nat (size src_dim_indices) =? Z.of_nat (String.length dst_format));;
  mapM (fun c => in_range (src_dim_indices !! c)) (String.list_ascii_of_string dst_format).

Section protos.
  Context {PM : ProtoMessages}.

(** [GetDataTypeFromAttr] *)
Definition GetDataTypeFromAttr (node : NodeDef AttrValue) (type_attr : string) : DataType :=
  match attr node !! type_attr with Some a => default DT_INVALID (attr_type a) | None => DT_INVALID end.

(** ** The elements of a constant *)

Definition GetNumElements (tensor : TensorProto) : result Z :=
  ASSERT (bool_decide (is_Some (tensor_shape tensor)));;
  let shape := default [] (tensor_shape tensor) in
  if size_ shape =? 0 then mret 0
  else mret (i32 (fold_left (fun num_elements size => i64 (num_elements * size)) shape 1)).

(** [RETURN_TENSOR_VALUE] for a field of values. *)
Definition tensor_value (val : list Z) (tensor : TensorProto) (elem_index : Z) : result Z :=
  if (version_number tensor =? 0) && (size_ val =? 1) then at_ val 0
  else
    num_elements ← GetNumElements tensor;
    ASSERT (size_ val =? num_elements);;
    at_ val elem_index.

(** [sizeof(T)] and the field that holds the values of each type [T]. *)
Record element_type := mk_element_type {
  et_dtype : DataType;
  et_size : Z;
  et_signed : bool;
  et_val : TensorProto -> list Z
}.

Definition int32_element : element_type := mk_element_type DT_INT32 4 true int_val.
Definition int64_element : element_type := mk_element_type DT_INT64 8 true int64_val.
Definition half_element : element_type := mk_element_type DT_HALF 2 false half_val.
Definition float_element : element_type := mk_element_type DT_FLOAT 4 false float_val.

(** [reinterpret_cast<const T*>(bytes)[elem_index]] *)
Definition read_element (T : element_type) (bytes : list Z) (elem_index : Z) : result Z :=
  bytes ← mapM (fun k => at_ bytes (elem_index * et_size T + k)) (count_up (et_size T));
  let x := foldr (fun b n => b + 2 ^ 8 * n) 0 bytes in
  mret (if et_signed T then to_signed (8 * et_size T) x else x).

Definition GetTensorElement (T : element_type) (tensor : TensorProto) (elem_index : Z) : result Z :=
  num_elements ← GetNumElements tensor;
  ASSERT (elem_index <? num_elements);;
  if bool_decide (tensor_content tensor <> []) then
    ASSERT (Z.quot (size_ (tensor_content tensor)) (et_size T) =? num_elements);;
    read_element T (tensor_content tensor) elem_index
  else
    ASSERT (bool_decide (dtype tensor = et_dtype T));;
    tensor_value (et_val T tensor) tensor elem_index.

(** ** Fanins of a node as nodes *)

(** [fanin.node_view()] where it is read; the view of a missing fanin is null. *)
Definition node_view (g : MutableGraphView AttrValue) (fanin : MutableFanoutView) : result Z :=
  match GetNode_by_index g (fanout_node_index fanin) with
  | Some _ => mret (fanout_node_index fanin)
  | None => Fault OutOfRange
  end.

(** [fanout.node_view()] likewise. *)
Definition fanout_view (g : MutableGraphView AttrValue) (fanout : MutableFaninView) : result Z :=
  match GetNode_by_index g (fanin_node_index fanout) with
  | Some _ => mret (fanin_node_index fanout)
  | None => Fault OutOfRange
  end.

(** [node_view->node()] *)
Definition node_of (g : MutableGraphView AttrValue) (i : Z) : result (NodeDef AttrValue) :=
  v ← at_ (nodes_ g) i; at_ (graph g) (node_index_ v).
End protos.

(** ** What the host says of a graph *)

(** The C API of the host's optimizer, for one item. *)
Class GrapplerApi := {
  TF_GrapplerItem : Type;
  TF_Buffer : Type;
  TensorProperties : Type;
  (** the shape of a tensor, [None] where it is not set *)
  properties_shape : TensorProperties -> option (list Z);
  ParseBuffer : TF_Buffer -> Status + TensorProperties;
  TF_GetNodesToPreserveListSize : TF_GrapplerItem -> Status * (Z * Z);
  TF_GetNodesToPreserveList : TF_GrapplerItem -> Z * Z -> Status * list string;
  TF_GraphProperties : Type;
  TF_NewGraphProperties : TF_GrapplerItem -> TF_GraphProperties;
  TF_InferStatically : bool -> bool -> bool -> bool -> TF_GraphProperties -> Status * TF_GraphProperties;
  TF_GetInputPropertiesListSize : TF_GraphProperties -> string -> Status * Z;
  TF_GetOutputPropertiesListSize : TF_GraphProperties -> string -> Status * Z;
  TF_GetInputPropertiesList : TF_GraphProperties -> string -> Z -> Status * list TF_Buffer;
  TF_GetOutputPropertiesList : TF_GraphProperties -> string -> Z -> Status * list TF_Buffer
}.

Section grappler.
  Context {PM : ProtoMessages} {GA : GrapplerApi}.

Record GrapplerItem := mk_GrapplerItem {
  grappler_item_ : TF_GrapplerItem;
  allow_non_differentiable_rewrites : bool;
  item_graph : list (NodeDef AttrValue)
}.

Definition NodesToPreserve (item : GrapplerItem) : result (gset string) :=
  let '(status, sizes) := TF_GetNodesToPreserveListSize (grappler_item_ item) in
  CHECK (status_ok status);;
  let '(status, names) := TF_GetNodesToPreserveList (grappler_item_ item) sizes in
  CHECK (status_ok status);;
  mret (list_to_set names).

(** [GraphProperties]; the item it belongs to is an argument of its methods. *)
Record GraphProperties := mk_GraphProperties {
  graph_props_ : TF_GraphProperties;
  input_properties_ : gmap string (list TensorProperties);
  output_properties_ : gmap string (list TensorProperties)
}.

Definition make_GraphProperties (item : GrapplerItem) : GraphProperties :=
  mk_GraphProperties (TF_NewGraphProperties (grappler_item_ item)) ∅ ∅.

Definition GetInputProperties (p : GraphProperties) (node_name : string) : list TensorProperties :=
  default [] (input_properties_ p !! node_name).
Definition GetOutputProperties (p : GraphProperties) (node_name : string) : list TensorProperties :=
  default [] (output_properties_ p !! node_name).

(** The loops that parse the properties of the inputs and outputs of a node; the
    entry of the node is there even if nothing is parsed. *)
Fixpoint parse_properties (buffers : list TF_Buffer) (l : list TensorProperties) : Status * list TensorProperties :=
  match buffers with
  | [] => (Status_OK, l)
  | buffer :: buffers =>
      match ParseBuffer buffer with
      | inl status => (status, l)
      | inr tensor_props => parse_properties buffers (l ++ [tensor_props])
      end
  end.

Definition infer_node (name : string) (p : GraphProperties) : Status * GraphProperties :=
  let '(status, num_inputs) := TF_GetInputPropertiesListSize (graph_props_ p) name in
  if negb (status_ok status) then (status, p) else
  let '(status, num_outputs) := TF_GetOutputPropertiesListSize (graph_props_ p) name in
  if negb (status_ok status) then (status, p) else
  let '(status, buffers) := TF_GetInputPropertiesList (graph_props_ p) name num_inputs in
  if negb (status_ok status) then (status, p) else
  let '(status, l) := parse_properties buffers (GetInputProperties p name) in
  let p := mk_GraphProperties (graph_props_ p) (<[name := l]> (input_properties_ p)) (output_properties_ p) in
  if negb (status_ok status) then (status, p) else
  let '(status, buffers) := TF_GetOutputPropertiesList (graph_props_ p) name num_outputs in
  if negb (status_ok status) then (status, p) else
  let '(status, l) := parse_properties buffers (GetOutputProperties p name) in
  (status, mk_GraphProperties (graph_props_ p) (input_properties_ p) (<[name := l]> (output_properties_ p))).

Fixpoint infer_nodes (l : list (NodeDef AttrValue)) (p : GraphProperties) : Status * GraphProperties :=
  match l with
  | [] => (Status_OK, p)
  | node :: l =>
      let '(status, p) := infer_node (name node) p in
      if status_ok status then infer_nodes l p else (status, p)
  end.

Definition InferStatically (item : GrapplerItem) (assume_valid_feeds aggressive_shape_inference
    include_input_tensor_values include_output_tensor_values : bool) (p : GraphProperties) : Status * GraphProperties :=
  let '(status, graph_props) := TF_InferStatically assume_valid_feeds aggressive_shape_inference
    include_input_tensor_values include_output_tensor_values (graph_props_ p) in
  let p := mk_GraphProperties graph_props (input_properties_ p) (output_properties_ p) in
  if status_ok status then infer_nodes (item_graph item) p else (status, p).
End grappler.
Arguments GrapplerItem : clear implicits.
Arguments GrapplerItem {_ _}.

(** ** Permutations *)

(** [perm] takes the dimensions of [src] to those of [dst]. *)
Definition permutes {A} (src dst : list A) (perm : list Z) : Prop :=
  Forall2 (fun i x => vget src i = Some x) perm dst.

Lemma dimension_indices_spec (l : list ascii) : forall n (m : gmap ascii Z) c i,
  NoDup l -> (forall c, c ∈ l -> m !! c = None) ->
  fold_left (fun (index : gmap ascii Z) '(i, c) => <[c := Z.of_nat i]> index) (imap (fun i c => (n + i, c)%nat) l) m !! c = Some i <->
  m !! c = Some i \/ exists k, l !! k = Some c /\ i = Z.of_nat (n + k)%nat.
Proof.
  induction l as [|x l IH]; intros n m c i Hnd Hm; cbn [imap fold_left].
  { split; [by left|]. intros [H|(k & H & _)]; [done|]. by rewrite lookup_nil in H. }
  apply NoDup_cons in Hnd as [Hx Hnd].
  rewrite (imap_ext _ (fun i c => (S n + i, c)%nat)) by (intros k y _; cbn; f_equal; lia).
  rewrite Nat.add_0_r, IH; [|done|].
  - destruct (decide (x = c)) as [->|Hne].
    + rewrite lookup_insert_eq. rewrite (Hm c) by left. split.
      * intros [[= <-]|(k & Hk & _)]; [right; exists 0%nat; split; [done|lia]|]. exfalso. apply Hx. by eapply list_elem_of_lookup_2.
      * intros [?|([|k] & Hk & ->)]; [done|left; f_equal; lia|]. exfalso. apply Hx. by eapply list_elem_of_lookup_2.
    + rewrite lookup_insert_ne by done. split; (intros [?|(k & Hk & ->)]; [by left|right]).
      * exists (S k). split; [done|lia].
      * destruct k as [|k]; [by injection Hk|]. exists k. split; [done|lia].
  - intros y Hy. rewrite lookup_insert_ne by (intros ->; done). apply Hm. by right.
Qed.

Lemma GetDimensionIndices_spec s c i : NoDup (String.list_ascii_of_string s) ->
  GetDimensionIndices s !! c = Some i <-> vget (String.list_ascii_of_string s) i = Some c.
Proof.
  intros Hnd. pose proof (dimension_indices_spec (String.list_ascii_of_string s) 0 ∅ c i Hnd ltac:(done)) as H.
  unfold GetDimensionIndices. rewrite H, lookup_empty. split.
  - intros [?|(k & Hk & ->)]; [done|]. by rewrite vget_nat.
  - intros Hv. right. pose proof (vget_Some _ _ _ Hv). exists (Z.to_nat i). rewrite <- vget_nat, Nat.add_0_l, Z2Nat.id by lia. done.
Qed.
