(* ===== verification/TransposeRemover.v ===== *)
(** * TransposeRemover: gradients of batch normalisation in the NCHW format

    optimizer/transpose_remover.cc: a FusedBatchNormGrad on the GPU whose first
    two inputs are transposed from NCHW to NHWC, and whose first output is only
    used by transposes back to NCHW, is made to work on NCHW itself.  The edits
    are recorded for all nodes of the graph, in the order of the nodes, and then
    applied together. *)

From Stdlib Require Import Ascii.
From S2P Require Import Prelude Vec TensorName DeviceName GraphView HashOrder GraphDiff GraphMutation GraphValidate GraphApply Grappler.
#[local] Open Scope string_scope.
#[local] Open Scope list_scope.
#[local] Open Scope Z_scope.

(** [absl::StrContains] *)
Definition StrContains (s t : string) : bool := bool_decide (is_Some (String.index 0 t s)).

Section remover.
  Context {PM : ProtoMessages} {GA : GrapplerApi} {HO : HashOrder} {NA : NodeAllocation}.
  #[local] Notation G := (MutableGraphView AttrValue).
  #[local] Notation M := (ST G).
  Implicit Type g : G.

Definition IsOnDml (node_def : NodeDef AttrValue) : result bool :=
  split ← SplitDeviceName (device node_def);
  mret (match split with
        | Some (_, device) => StrContains (AsciiStrToLower device) (AsciiStrToLower "GPU")
        | None => false
        end).

(** The loop over the elements of the permutation. *)
Fixpoint same_perm (T : element_type) (perm_tensor : TensorProto) (i : Z) (expected_perm : list Z) : result bool :=
  match expected_perm with
  | [] => mret true
  | expected :: expected_perm =>
      perm_value ← GetTensorElement T perm_tensor i;
      if perm_value =? expected then same_perm T perm_tensor (i + 1) expected_perm else mret false
  end.

Definition is_perm_tensor (perm_tensor : TensorProto) (expected_perm : list Z) : result bool :=
  match tensor_shape perm_tensor with
  | Some [dim] =>
      if negb (u64 dim =? size_ expected_perm) then mret false else
      num_elements ← GetNumElements perm_tensor;
      if negb (u64 num_elements =? size_ expected_perm) then mret false else
      match dtype perm_tensor with
      | DT_INT32 => same_perm int32_element perm_tensor 0 expected_perm
      | DT_INT64 => same_perm int64_element perm_tensor 0 expected_perm
      | _ => mret false
      end
  | _ => mret false
  end.

Definition IsLayoutTranspose g (transpose_node : Z) (expected_perm : list Z) : result bool :=
  d ← node_of g transpose_node;
  if negb (IsTranspose d) then mret false else
  v ← at_ (nodes_ g) transpose_node;
  perm_node ← node_view g (GetRegularFanin v 1);
  perm_def ← node_of g perm_node;
  if negb (IsConstant perm_def) then mret false else
  match attr perm_def !! "value" ≫= attr_tensor with
  | Some perm_tensor => is_perm_tensor perm_tensor expected_perm
  | None => mret false
  end.

(** Whether the fanouts are all transposes with the permutation. *)
Fixpoint all_transposes g (perm : list Z) (fanouts : list MutableFaninView) : result bool :=
  match fanouts with
  | [] => mret true
  | fanout :: fanouts =>
      output_transpose_node ← fanout_view g fanout;
      b ← IsLayoutTranspose g output_transpose_node perm;
      if b : bool then all_transposes g perm fanouts else mret false
  end.

(** The fanouts of a transpose of the output are connected to the node. *)
Fixpoint connect_fanouts (fanout_tensor_id : TensorId) (transpose_fanouts : list MutableFaninView) : M unit :=
  match transpose_fanouts with
  | [] => mret tt
  | transpose_fanout :: transpose_fanouts =>
      g ← get;
      node ← lift (fanout_view g transpose_fanout);
      Mut.AddOrUpdateRegularFanin node (fanin_port_index transpose_fanout) fanout_tensor_id;;
      connect_fanouts fanout_tensor_id transpose_fanouts
  end.

(** The loop over the transposes of the output: whether one must be preserved. *)
Fixpoint bypass_outputs (nodes_to_preserve : gset string) (node_name : string) (fanouts : list MutableFaninView) : M bool :=
  match fanouts with
  | [] => mret false
  | fanout :: fanouts =>
      g ← get;
      output_transpose_node ← lift (fanout_view g fanout);
      d ← lift (node_of g output_transpose_node);
      if bool_decide (name d ∈ nodes_to_preserve) then mret true else
      v ← node_at output_transpose_node;
      connect_fanouts (mk_TensorId node_name 0) (GetRegularFanout v 0);;
      bypass_outputs nodes_to_preserve node_name fanouts
  end.

(** The tensor that a transpose reads. *)
Definition transposed_tensor g (transpose_node : Z) : result TensorId :=
  v ← at_ (nodes_ g) transpose_node;
  fanin_node ← node_view g (GetRegularFanin v 0);
  d ← node_of g fanin_node;
  mret (mk_TensorId (name d) (fanout_port_index (GetRegularFanin v 0))).

Definition convert_inputs (i transpose_node_0 transpose_node_1 : Z) : M unit :=
  g ← get;
  fanin_0_tensor_id ← lift (transposed_tensor g transpose_node_0);
  Mut.AddOrUpdateRegularFanin i 0 fanin_0_tensor_id;;
  g ← get;
  fanin_1_tensor_id ← lift (transposed_tensor g transpose_node_1);
  Mut.AddOrUpdateRegularFanin i 1 fanin_1_tensor_id;;
  Mut.AddOrUpdateNodeAttr i "data_format" (make_s "NCHW").

(** Whether node [i] is a candidate, before its neighbours are looked at. *)
Definition is_candidate g (i : Z) : result bool :=
  d ← node_of g i;
  v ← at_ (nodes_ g) i;
  on_dml ← IsOnDml d;
  mret (on_dml && IsFusedBatchNormGrad d &&
        bool_decide (attr d !! "data_format" ≫= attr_s = Some "NHWC") && negb (NumRegularFanins v <? 2)).

(** The two transposes of the inputs of a node that can be converted. *)
Definition can_convert g (i : Z) (src_to_dst dst_to_src : list Z) : result (option (Z * Z)) :=
  candidate ← is_candidate g i;
  if negb candidate then mret None else
  v ← at_ (nodes_ g) i;
  transpose_node_0 ← node_view g (GetRegularFanin v 0);
  transpose_node_1 ← node_view g (GetRegularFanin v 1);
  b ← IsLayoutTranspose g transpose_node_0 dst_to_src;
  if negb b then mret None else
  b ← IsLayoutTranspose g transpose_node_1 dst_to_src;
  if negb b then mret None else
  if size_ (regular_fanouts_by_port_ v) <? 1 then mret None else
  can_convert_outputs ← all_transposes g src_to_dst (GetRegularFanout v 0);
  mret (if can_convert_outputs : bool then Some (transpose_node_0, transpose_node_1) else None).

(** The body of the loop. *)
Definition optimize_node (nodes_to_preserve : gset string) (src_to_dst dst_to_src : list Z) (i : Z) : M unit :=
  g ← get;
  transposes ← lift (can_convert g i src_to_dst dst_to_src);
  match transposes with
  | None => mret tt
  | Some (transpose_node_0, transpose_node_1) =>
      v ← node_at i;
      d ← lift (node_of g i);
      should_preserve_output ← bypass_outputs nodes_to_preserve (name d) (GetRegularFanout v 0);
      if should_preserve_output : bool then mret tt
      else convert_inputs i transpose_node_0 transpose_node_1
  end.

Fixpoint optimize_nodes (nodes_to_preserve : gset string) (src_to_dst dst_to_src : list Z) (l : list Z) : M unit :=
  match l with
  | [] => mret tt
  | i :: l => optimize_node nodes_to_preserve src_to_dst dst_to_src i;;
              optimize_nodes nodes_to_preserve src_to_dst dst_to_src l
  end.

(** [TransposeRemover::Optimize]: the status and what [*output] holds. *)
Definition Optimize (item : GrapplerItem) : result (Status * list (NodeDef AttrValue)) :=
  '(status, graph_view) ← make_MutableGraphView (item_graph item);
  if negb (status_ok status) then mret (status, graph graph_view) else
  nodes_to_preserve ← NodesToPreserve item;
  src_to_dst ← GetPermutation (GetDimensionIndices "NHWC") "NCHW";
  dst_to_src ← GetPermutation (GetDimensionIndices "NCHW") "NHWC";
  '(status, graph_view) ← (optimize_nodes nodes_to_preserve src_to_dst dst_to_src (count_up (NumNodes graph_view));; Apply) graph_view;
  mret (status, graph graph_view).
End remover.
