(* ===== verification/TransposeTheorems.v ===== *)
(** * TransposeTheorems: what the transpose remover makes of a graph

    The graph that [TransposeRemover::Optimize] leaves has exactly the rewritten
    contents; when no converted node reads the result of another through the
    transposes that go, every tensor keeps its value, those apart that the
    conversion is about. *)

From S2P Require Import Prelude DeviceName DeviceNameProofs TensorName Vec GraphView GraphInv GraphEditProofs GraphBuild GraphBulk HashOrder GraphDiff GraphContent GraphWellFormed GraphMutation GraphMutationProofs GraphValidateProofs GraphValidated GraphApply GraphCommit GraphRewrite Grappler TransposeRemover.
#[local] Open Scope string_scope.
#[local] Open Scope list_scope.
#[local] Open Scope Z_scope.

(** ** What the transpose remover records

    When a node is converted, that no step of the loop fails on a graph whose
    transposes and constants are well formed, and that the loop records exactly
    the planned edits. *)

(** The two permutations of [Optimize]. *)
Definition src_to_dst : list Z := [0; 3; 1; 2].
Definition dst_to_src : list Z := [0; 2; 3; 1].

Lemma permutations_of_formats :
  GetPermutation (GetDimensionIndices "NHWC") "NCHW" = Ok src_to_dst /\
  GetPermutation (GetDimensionIndices "NCHW") "NHWC" = Ok dst_to_src.
Proof. split; vm_compute; reflexivity. Qed.

Section proofs.
  Context {PM : ProtoMessages}.
  #[local] Notation G := (MutableGraphView AttrValue).
  Implicit Type g : G.

(** ** Permutations of constants *)

Lemma same_perm_unique T t p : forall i q, length p = length q -> same_perm T t i p = Ok true -> same_perm T t i q = Ok true -> p = q.
Proof.
  induction p as [|x p IH]; intros i [|y q] Hl; try done. cbn [same_perm].
  destruct (GetTensorElement T t i) as [z|]; [|done]. cbn [mbind result_bind].
  destruct (Z.eqb_spec z x) as [->|]; [|done]. destruct (Z.eqb_spec x y) as [->|]; [|done].
  intros H1 H2. f_equal. eapply IH; [|exact H1|exact H2]. by injection Hl.
Qed.

Lemma is_perm_tensor_unique t p q : is_perm_tensor t p = Ok true -> is_perm_tensor t q = Ok true -> p = q.
Proof.
  unfold is_perm_tensor. destruct (tensor_shape t) as [[|dim [|]]|]; [done| |done|done].
  destruct (Z.eqb_spec (u64 dim) (size_ p)) as [E1|]; [|done]. destruct (Z.eqb_spec (u64 dim) (size_ q)) as [E2|]; [|done].
  cbn [negb]. destruct (GetNumElements t) as [n|]; [|done]. cbn [mbind result_bind].
  destruct (Z.eqb_spec (u64 n) (size_ p)); [|done]. destruct (Z.eqb_spec (u64 n) (size_ q)); [|done]. cbn [negb].
  assert (length p = length q) as Hl by (unfold size_ in *; lia).
  destruct (dtype t); try done; intros H1 H2; by eapply same_perm_unique.
Qed.

(** The constant node holds the permutation. *)
Definition const_perm (a : gmap string AttrValue) (perm : list Z) : Prop :=
  exists t, a !! "value" ≫= attr_tensor = Some t /\ is_perm_tensor t perm = Ok true.

Lemma const_perm_unique a p q : const_perm a p -> const_perm a q -> p = q.
Proof. intros (t & H1 & H2) (t' & H3 & H4). assert (t' = t) as -> by congruence. by eapply is_perm_tensor_unique. Qed.

(** ** Graphs on which nothing fails *)

(** Transposes have two inputs, they and constants a single output, constants no
    inputs, and whether a constant is a given permutation can be read off it. *)
Record layout_graph (l : list (NodeDef AttrValue)) : Prop := {
  lg_transpose : forall d, d ∈ l -> op d = "Transpose" -> length (regular_ids d) = 2%nat;
  lg_single : forall d d' t, d ∈ l -> d' ∈ l -> t ∈ regular_ids d -> name d' = TensorName.node t ->
    op d' = "Transpose" \/ op d' = "Const" -> TensorName.index t = 0;
  lg_const : forall d, d ∈ l -> op d = "Const" -> regular_ids d = [];
  lg_perm : forall d t, d ∈ l -> op d = "Const" -> attr d !! "value" ≫= attr_tensor = Some t ->
    forall p, exists b, is_perm_tensor t p = Ok b
}.

Lemma has_op_one (d : NodeDef AttrValue) s : has_op d [s] = true <-> op d = s.
Proof. unfold has_op. cbn. rewrite orb_false_r. apply String.eqb_eq. Qed.

(** The fanins of a node, found. *)
Lemma fanin_node g i v w : view_ok g -> vget (nodes_ g) i = Some v -> w ∈ regular_fanins_ v ->
  exists v' d', vget (nodes_ g) (fanout_node_index w) = Some v' /\ vget (graph g) (fanout_node_index w) = Some d' /\
    fanout_node_index w <> i /\ fanin_id g w = mk_TensorId (name d') (fanout_port_index w).
Proof.
  intros Hg Hv Hw. destruct (ok_fanin_range _ _ _ _ _ (ok_index_ok _ _ _ Hg i v Hv) w) as [Hr Hn]; [apply elem_of_app; by left|].
  rewrite <- (ok_length _ (ok_names_ok _ _ _ Hg)) in Hr. destruct (node_at_index g _ Hg Hr) as (v' & d' & Hv' & Hd').
  exists v', d'. split_and!; try done. unfold fanin_id, name_of. by rewrite Hd'.
Qed.

Lemma node_view_ok g i v w : view_ok g -> vget (nodes_ g) i = Some v -> w ∈ regular_fanins_ v -> node_view g w = Ok (fanout_node_index w).
Proof.
  intros Hg Hv Hw. destruct (fanin_node g i v w Hg Hv Hw) as (v' & d' & Hv' & _). unfold node_view, GetNode_by_index.
  pose proof (vget_Some _ _ _ Hv'). destruct (Z.ltb_spec (fanout_node_index w) 0), (Z.leb_spec (size_ (nodes_ g)) (fanout_node_index w)); try lia.
  cbn [orb]. by rewrite Hv'.
Qed.

Lemma fanout_view_ok g i v fo : vget (nodes_ g) i = Some v -> fanin_node_index fo = i -> fanout_view g fo = Ok i.
Proof.
  intros Hv <-. unfold fanout_view, GetNode_by_index. pose proof (vget_Some _ _ _ Hv).
  destruct (Z.ltb_spec (fanin_node_index fo) 0), (Z.leb_spec (size_ (nodes_ g)) (fanin_node_index fo)); try lia. cbn [orb]. by rewrite Hv.
Qed.

Lemma node_of_ok g i v d : view_ok g -> vget (nodes_ g) i = Some v -> vget (graph g) i = Some d -> node_of g i = Ok d.
Proof.
  intros Hg Hv Hd. unfold node_of. rewrite (at_Some _ _ _ Hv). cbn [mbind result_bind].
  rewrite (ok_index _ (ok_names_ok _ _ _ Hg) _ _ Hv). by apply at_Some.
Qed.

Lemma GetRegularFanin_ok (v : MutableNodeView) k w : vget (regular_fanins_ v) k = Some w -> GetRegularFanin v k = w.
Proof.
  intros Hw. unfold GetRegularFanin, NumRegularFanins. pose proof (vget_Some _ _ _ Hw).
  destruct (Z.ltb_spec k 0), (Z.leb_spec (size_ (regular_fanins_ v)) k); try lia. cbn [orb]. by rewrite Hw.
Qed.

(** A fanout of the first output, from both ends. *)
Lemma elem_of_fanouts g i v fo : view_ok g -> vget (nodes_ g) i = Some v -> fo ∈ GetRegularFanout v 0 ->
  exists u w, vget (nodes_ g) (fanin_node_index fo) = Some u /\ vget (regular_fanins_ u) (fanin_port_index fo) = Some w /\
    fanout_node_index w = i /\ fanout_port_index w = 0.
Proof.
  intros Hg Hv Hfo. unfold GetRegularFanout in Hfo. destruct (_ || _) eqn:E; [by apply elem_of_nil in Hfo|].
  destruct (vget (regular_fanouts_by_port_ v) 0) as [l|] eqn:El; [|by apply elem_of_nil in Hfo]. cbn in Hfo.
  apply elem_of_vget in Hfo as [f Hf]. destruct (ok_fanout ∅ g (ok_edges _ _ _ Hg) i 0 f fo) as [_ H].
  { unfold fanout_at. rewrite Hv. cbn [mbind option_bind]. by rewrite El. }
  unfold fanin_at in H. destruct (vget (nodes_ g) (fanin_node_index fo)) as [u|]; [|done]. eauto 10.
Qed.

Lemma fanout_of_fanin g i u k w : view_ok g -> vget (nodes_ g) i = Some u -> vget (regular_fanins_ u) k = Some w -> fanout_port_index w = 0 ->
  exists v fo, vget (nodes_ g) (fanout_node_index w) = Some v /\ fo ∈ GetRegularFanout v 0 /\ fanin_node_index fo = i /\ fanin_port_index fo = k.
Proof.
  intros Hg Hu Hw Hp. destruct (ok_fanin ∅ g (ok_edges _ _ _ Hg) i k w) as [_ H]; [unfold fanin_at; by rewrite Hu|].
  specialize (H ltac:(set_solver)). unfold fanout_at in H. rewrite Hp in H. destruct (vget (nodes_ g) (fanout_node_index w)) as [v|]; [|done].
  cbn [mbind option_bind] in H. destruct (vget (regular_fanouts_by_port_ v) 0) as [l|] eqn:El; [|done]. cbn [mbind option_bind] in H.
  exists v, (mk_FaninView i k k). split; [done|]. split; [|done]. unfold GetRegularFanout. pose proof (vget_Some _ _ _ El).
  destruct (Z.leb_spec (size_ (regular_fanouts_by_port_ v)) 0); [lia|]. cbn [Z.ltb Z.compare orb]. rewrite El. cbn. apply elem_of_vget. eauto.
Qed.

Section layout.
Context (g : G) (Hg : view_ok g) (Hl : layout_graph (graph g)).

Lemma ids_of i d v : vget (graph g) i = Some d -> vget (nodes_ g) i = Some v -> regular_ids d = map (fanin_id g) (regular_fanins_ v).
Proof. intros Hd Hv. apply (split_ids g i d v Hg Hd Hv). Qed.

Lemma transpose_fanins i d v : vget (graph g) i = Some d -> vget (nodes_ g) i = Some v -> op d = "Transpose" ->
  exists w0 w1, regular_fanins_ v = [w0; w1].
Proof.
  intros Hd Hv Ho. pose proof (lg_transpose _ Hl d (proj2 (elem_of_vget _ _) (ex_intro _ i Hd)) Ho) as Hn.
  rewrite (ids_of i d v Hd Hv), length_map in Hn. destruct (regular_fanins_ v) as [|w0 [|w1 [|]]]; try done. eauto.
Qed.

Lemma single_port i v w d' : vget (nodes_ g) i = Some v -> w ∈ regular_fanins_ v -> vget (graph g) (fanout_node_index w) = Some d' ->
  op d' = "Transpose" \/ op d' = "Const" -> fanout_port_index w = 0.
Proof.
  intros Hv Hw Hd' Ho. destruct (view_ok_def _ _ _ _ _ Hg Hv) as [d Hd].
  pose proof (lg_single _ Hl d d' (fanin_id g w)) as H. apply H; [apply elem_of_vget; eauto|apply elem_of_vget; eauto| | |done].
  - rewrite (ids_of i d v Hd Hv). apply list_elem_of_fmap. eauto.
  - unfold fanin_id, name_of. cbn. by rewrite Hd'.
Qed.

(** A layout transpose, and where its permutation comes from. *)
Definition layout_transpose (i : Z) (perm : list Z) : Prop :=
  exists d v w0 w1 dp, vget (graph g) i = Some d /\ vget (nodes_ g) i = Some v /\ op d = "Transpose" /\
    regular_fanins_ v = [w0; w1] /\ vget (graph g) (fanout_node_index w1) = Some dp /\ op dp = "Const" /\ const_perm (attr dp) perm.

Lemma IsLayoutTranspose_ok i perm : 0 <= i < size_ (nodes_ g) ->
  exists b, IsLayoutTranspose g i perm = Ok b /\ (b = true <-> layout_transpose i perm).
Proof.
  intros (v & d & Hv & Hd)%(node_at_index g); [|done]. unfold IsLayoutTranspose. rewrite (node_of_ok g i v d Hg Hv Hd). cbn [mbind result_bind].
  destruct (IsTranspose d) eqn:Et; cbn [negb].
  2:{ exists false. split; [done|]. split; [done|]. intros (d' & v' & _ & _ & _ & Hd' & _ & Ho & _).
      assert (d' = d) as -> by congruence. apply has_op_one in Ho. unfold IsTranspose in Et. congruence. }
  apply has_op_one in Et. destruct (transpose_fanins i d v Hd Hv Et) as (w0 & w1 & Hf).
  rewrite (at_Some _ _ _ Hv). cbn [mbind result_bind]. assert (GetRegularFanin v 1 = w1) as -> by (apply GetRegularFanin_ok; by rewrite Hf).
  assert (w1 ∈ regular_fanins_ v) as Hw1 by (rewrite Hf; set_solver). rewrite (node_view_ok g i v w1 Hg Hv Hw1). cbn [mbind result_bind].
  destruct (fanin_node g i v w1 Hg Hv Hw1) as (v' & d' & Hv' & Hd' & _). rewrite (node_of_ok g _ v' d' Hg Hv' Hd'). cbn [mbind result_bind].
  assert (forall d2 v2 x0 x1 dp, vget (graph g) i = Some d2 -> vget (nodes_ g) i = Some v2 -> regular_fanins_ v2 = [x0; x1] ->
    vget (graph g) (fanout_node_index x1) = Some dp -> dp = d') as Hsame.
  { intros d2 v2 x0 x1 dp H1 H2 H3 H4. assert (v2 = v) as -> by congruence. rewrite Hf in H3. injection H3 as <- <-. congruence. }
  destruct (IsConstant d') eqn:Ec; cbn [negb].
  2:{ exists false. split; [done|]. split; [done|]. intros (d2 & v2 & x0 & x1 & dp & H1 & H2 & _ & H3 & H4 & Ho & _).
      rewrite (Hsame d2 v2 x0 x1 dp H1 H2 H3 H4) in Ho. apply has_op_one in Ho. unfold IsConstant in Ec. congruence. }
  apply has_op_one in Ec. destruct (attr d' !! "value" ≫= attr_tensor) as [t|] eqn:Ea.
  - destruct (lg_perm _ Hl d' t (proj2 (elem_of_vget _ _) (ex_intro _ _ Hd')) Ec Ea perm) as [b Hb]. exists b. split; [done|]. split.
    + intros ->. exists d, v, w0, w1, d'. split_and!; try done. by exists t.
    + intros (d2 & v2 & x0 & x1 & dp & H1 & H2 & _ & H3 & H4 & _ & t' & H5 & H6).
      rewrite (Hsame d2 v2 x0 x1 dp H1 H2 H3 H4) in H5. congruence.
  - exists false. split; [done|]. split; [done|]. intros (d2 & v2 & x0 & x1 & dp & H1 & H2 & _ & H3 & H4 & _ & t' & H5 & H6).
    rewrite (Hsame d2 v2 x0 x1 dp H1 H2 H3 H4) in H5. congruence.
Qed.

Lemma layout_transpose_unique i p q : layout_transpose i p -> layout_transpose i q -> p = q.
Proof.
  intros (d & v & w0 & w1 & dp & Hd & Hv & _ & Hf & Hdp & _ & Hp) (d2 & v2 & x0 & x1 & dq & Hd2 & Hv2 & _ & Hf2 & Hdq & _ & Hq).
  assert (v2 = v) as -> by congruence. rewrite Hf in Hf2. injection Hf2 as <- <-. assert (dq = dp) as -> by congruence.
  by eapply const_perm_unique.
Qed.

(** ** When a node is converted *)

Record convertible (i t0 t1 : Z) (d : NodeDef AttrValue) (v : MutableNodeView) (w0 w1 : MutableFanoutView) : Prop := {
  cv_def : vget (graph g) i = Some d;
  cv_node : vget (nodes_ g) i = Some v;
  cv_op : IsFusedBatchNormGrad d = true;
  cv_format : attr d !! "data_format" ≫= attr_s = Some "NHWC";
  cv_fanin0 : vget (regular_fanins_ v) 0 = Some w0;
  cv_fanin1 : vget (regular_fanins_ v) 1 = Some w1;
  cv_source0 : t0 = fanout_node_index w0;
  cv_source1 : t1 = fanout_node_index w1;
  cv_transpose0 : layout_transpose t0 dst_to_src;
  cv_transpose1 : layout_transpose t1 dst_to_src;
  cv_outputs : forall fo, fo ∈ GetRegularFanout v 0 -> layout_transpose (fanin_node_index fo) src_to_dst
}.

Lemma fanout_in_range i v fo : vget (nodes_ g) i = Some v -> fo ∈ GetRegularFanout v 0 -> 0 <= fanin_node_index fo < size_ (nodes_ g).
Proof. intros Hv Hfo. destruct (elem_of_fanouts g i v fo Hg Hv Hfo) as (u & _ & Hu & _). by eapply vget_Some. Qed.

Lemma all_transposes_ok perm fanouts : (forall fo, fo ∈ fanouts -> 0 <= fanin_node_index fo < size_ (nodes_ g)) ->
  exists b, all_transposes g perm fanouts = Ok b /\ (b = true <-> forall fo, fo ∈ fanouts -> layout_transpose (fanin_node_index fo) perm).
Proof.
  induction fanouts as [|fo fanouts IH]; intros Hr; cbn [all_transposes].
  { exists true. split; [done|]. split; [|done]. intros _ fo H. by apply elem_of_nil in H. }
  assert (0 <= fanin_node_index fo < size_ (nodes_ g)) as Hi by (apply Hr; left). pose proof Hi as [u Hu]%vget_ex.
  rewrite (fanout_view_ok g _ u fo Hu) by done. cbn [mbind result_bind].
  destruct (IsLayoutTranspose_ok _ perm Hi) as (b & -> & Hb). cbn [mbind result_bind]. destruct b.
  - destruct IH as (b & Hb' & Hi'); [intros x Hx; apply Hr; by right|]. exists b. split; [done|]. rewrite Hi'. split.
    + intros H x [->|Hx]%elem_of_cons; [by apply Hb|by apply H].
    + intros H x Hx. apply H. by right.
  - exists false. split; [done|]. split; [done|]. intros H. apply Hb, H. left.
Qed.

Lemma IsOnDml_ok (d : NodeDef AttrValue) : exists b, IsOnDml d = Ok b.
Proof.
  unfold IsOnDml, SplitDeviceName. destruct (ParseFullName_total (device d)) as (ok & p & ->). cbn [mbind result_bind mret result_ret].
  case_match; eexists; reflexivity.
Qed.

Lemma can_convert_ok i : 0 <= i < size_ (nodes_ g) ->
  exists r, can_convert g i src_to_dst dst_to_src = Ok r /\
    forall t0 t1, r = Some (t0, t1) -> exists d v w0 w1, convertible i t0 t1 d v w0 w1.
Proof.
  intros (v & d & Hv & Hd)%(node_at_index g); [|done]. unfold can_convert, is_candidate.
  rewrite (node_of_ok g i v d Hg Hv Hd), (at_Some _ _ _ Hv). cbn [mbind result_bind].
  destruct (IsOnDml_ok d) as [b ->]. cbn [mbind result_bind mret result_ret].
  destruct b; [|by exists None]. destruct (IsFusedBatchNormGrad d) eqn:Eo; [|by exists None]. cbn [andb].
  case_bool_decide as Ef; [|by exists None]. destruct (Z.ltb_spec (NumRegularFanins v) 2) as [|Hn]; [by exists None|]. cbn [andb negb].
  destruct (vget_ex (regular_fanins_ v) 0) as [w0 Hw0]; [unfold NumRegularFanins in Hn; lia|].
  destruct (vget_ex (regular_fanins_ v) 1) as [w1 Hw1]; [unfold NumRegularFanins in Hn; lia|].
  rewrite (GetRegularFanin_ok v 0 w0 Hw0), (GetRegularFanin_ok v 1 w1 Hw1).
  assert (w0 ∈ regular_fanins_ v /\ w1 ∈ regular_fanins_ v) as [Hi0 Hi1] by (split; apply elem_of_vget; eauto).
  rewrite (node_view_ok g i v w0 Hg Hv Hi0), (node_view_ok g i v w1 Hg Hv Hi1). cbn [mbind result_bind].
  destruct (fanin_node g i v w0 Hg Hv Hi0) as (u0 & _ & Hu0 & _), (fanin_node g i v w1 Hg Hv Hi1) as (u1 & _ & Hu1 & _).
  destruct (IsLayoutTranspose_ok _ dst_to_src (vget_Some _ _ _ Hu0)) as (b0 & -> & Hb0). cbn [mbind result_bind]. destruct b0; [|by exists None]. cbn [negb].
  destruct (IsLayoutTranspose_ok _ dst_to_src (vget_Some _ _ _ Hu1)) as (b1 & -> & Hb1). cbn [mbind result_bind]. destruct b1; [|by exists None]. cbn [negb].
  destruct (size_ (regular_fanouts_by_port_ v) <? 1); [by exists None|].
  destruct (all_transposes_ok src_to_dst (GetRegularFanout v 0)) as (b & -> & Hb); [intros fo Hfo; by apply (fanout_in_range i v)|]. cbn [mbind result_bind].
  destruct b; [|by exists None]. eexists. split; [reflexivity|]. intros t0 t1 [= <- <-]. exists d, v, w0, w1. split; try done; [by apply Hb0|by apply Hb1|by apply Hb].
Qed.

(** ** The planned edits *)

Context (nodes_to_preserve : gset string).

Definition outputs_preserved (v : MutableNodeView) : bool :=
  existsb (fun fo => bool_decide (name_of g (fanin_node_index fo) ∈ nodes_to_preserve)) (GetRegularFanout v 0).

(** The transposes of the inputs of node [i], if the node is converted. *)
Definition converted (i : Z) : option (Z * Z) :=
  match can_convert g i src_to_dst dst_to_src, vget (nodes_ g) i with
  | Ok (Some p), Some v => if outputs_preserved v then None else Some p
  | _, _ => None
  end.

(** The tensor that a transpose reads. *)
Definition source (t : Z) : TensorId :=
  match vget (nodes_ g) t ≫= fun v => vget (regular_fanins_ v) 0 with Some w => fanin_id g w | None => EmptyTensorId end.

Lemma source_eq t v w l : vget (nodes_ g) t = Some v -> regular_fanins_ v = w :: l -> source t = fanin_id g w.
Proof. intros Hv Hw. unfold source. rewrite Hv. cbn [mbind option_bind]. by rewrite Hw. Qed.

Definition fanout_edits (nm : string) (fanouts : list MutableFaninView) : list (Z * edit AttrValue) :=
  map (fun fo => (fanin_node_index fo, SetFanin (fanin_port_index fo) (mk_TensorId nm 0))) fanouts.

Definition output_edits (nm : string) (fanouts : list MutableFaninView) : list (Z * edit AttrValue) :=
  concat (map (fun fo => match vget (nodes_ g) (fanin_node_index fo) with
                         | Some v => fanout_edits nm (GetRegularFanout v 0)
                         | None => [] end) fanouts).

Definition planned (i : Z) : list (Z * edit AttrValue) :=
  match converted i, vget (nodes_ g) i with
  | Some (t0, t1), Some v =>
      output_edits (name_of g i) (GetRegularFanout v 0) ++
      [(i, SetFanin 0 (source t0)); (i, SetFanin 1 (source t1)); (i, SetAttr "data_format" (make_s "NCHW"))]
  | _, _ => []
  end.

(** The transposes of an output are kept together. *)
Definition preserved_together : Prop := forall i v fo fo', can_convert g i src_to_dst dst_to_src <> Ok None ->
  vget (nodes_ g) i = Some v -> fo ∈ GetRegularFanout v 0 -> fo' ∈ GetRegularFanout v 0 ->
  name_of g (fanin_node_index fo) ∈ nodes_to_preserve -> name_of g (fanin_node_index fo') ∈ nodes_to_preserve.

(** ** The loop reads the graph only *)

Section same.
Context (g1 : G) (Hs : same_view g g1).

Lemma same_bind {A} i (k : MutableNodeView -> result A) : (forall u v, k (set_update_index u v) = k v) ->
  (v ← at_ (nodes_ g1) i; k v) = (v ← at_ (nodes_ g) i; k v).
Proof.
  intros Hk. unfold at_, in_range. destruct (vget (nodes_ g) i) as [v|] eqn:E.
  - destruct (sv_node _ _ Hs _ _ E) as [u ->]. cbn. apply Hk.
  - destruct (vget (nodes_ g1) i) as [v'|] eqn:E'; [|done]. destruct (sv_node_back _ _ _ _ Hs E') as (v & Hv & _). congruence.
Qed.

Lemma node_of_same i : node_of g1 i = node_of g i.
Proof. unfold node_of. rewrite (sv_graph _ _ Hs). by apply same_bind. Qed.

Lemma GetNode_same i : GetNode_by_index g1 i = None <-> GetNode_by_index g i = None.
Proof.
  unfold GetNode_by_index. rewrite (sv_size _ _ Hs). destruct (_ || _); [done|]. destruct (vget (nodes_ g) i) as [v|] eqn:E.
  - destruct (sv_node _ _ Hs _ _ E) as [u ->]. done.
  - destruct (vget (nodes_ g1) i) as [v'|] eqn:E'; [|done]. destruct (sv_node_back _ _ _ _ Hs E') as (v & Hv & _). congruence.
Qed.

Lemma node_view_same w : node_view g1 w = node_view g w.
Proof.
  unfold node_view. pose proof (GetNode_same (fanout_node_index w)) as H.
  destruct (GetNode_by_index g1 _), (GetNode_by_index g _); try done; by (exfalso; destruct H as [H1 H2]; (discriminate H1 || discriminate H2 || naive_solver)).
Qed.

Lemma fanout_view_same fo : fanout_view g1 fo = fanout_view g fo.
Proof.
  unfold fanout_view. pose proof (GetNode_same (fanin_node_index fo)) as H.
  destruct (GetNode_by_index g1 _), (GetNode_by_index g _); try done; by (exfalso; naive_solver).
Qed.

Lemma IsLayoutTranspose_same i perm : IsLayoutTranspose g1 i perm = IsLayoutTranspose g i perm.
Proof.
  unfold IsLayoutTranspose. rewrite node_of_same. destruct (node_of g i) as [d|]; [|done]. cbn [mbind result_bind].
  destruct (negb _); [done|]. etrans; [apply same_bind; done|]. destruct (at_ (nodes_ g) i) as [v|]; [|done]. cbn [mbind result_bind].
  rewrite node_view_same. destruct (node_view g _) as [j|]; [|done]. cbn [mbind result_bind]. by rewrite node_of_same.
Qed.

Lemma all_transposes_same perm fanouts : all_transposes g1 perm fanouts = all_transposes g perm fanouts.
Proof.
  induction fanouts as [|fo fanouts IH]; cbn [all_transposes]; [done|]. rewrite fanout_view_same. destruct (fanout_view g fo) as [j|]; [|done].
  cbn [mbind result_bind]. rewrite IsLayoutTranspose_same. destruct (IsLayoutTranspose g j perm) as [[]|]; done.
Qed.

Lemma can_convert_same i p q : can_convert g1 i p q = can_convert g i p q.
Proof.
  unfold can_convert. assert (is_candidate g1 i = is_candidate g i) as ->.
  { unfold is_candidate. rewrite node_of_same. destruct (node_of g i) as [d|]; [|done]. cbn [mbind result_bind]. by apply same_bind. }
  destruct (is_candidate g i) as [[]|]; [|done..]. cbn [mbind result_bind negb]. etrans; [apply same_bind; done|].
  destruct (at_ (nodes_ g) i) as [v|]; [|done]. cbn [mbind result_bind]. rewrite !node_view_same.
  destruct (node_view g (GetRegularFanin v 0)) as [t0|]; [|done]. cbn [mbind result_bind]. destruct (node_view g (GetRegularFanin v 1)) as [t1|]; [|done]. cbn [mbind result_bind].
  rewrite (IsLayoutTranspose_same t0 q). destruct (IsLayoutTranspose g t0 q) as [[]|]; [|done..]. cbn [mbind result_bind negb].
  rewrite (IsLayoutTranspose_same t1 q). destruct (IsLayoutTranspose g t1 q) as [[]|]; [|done..]. cbn [mbind result_bind negb].
  destruct (_ <? 1); [done|]. by rewrite all_transposes_same.
Qed.

Lemma transposed_tensor_same t : transposed_tensor g1 t = transposed_tensor g t.
Proof.
  unfold transposed_tensor. etrans; [apply same_bind; done|]. destruct (at_ (nodes_ g) t) as [v|]; [|done]. cbn [mbind result_bind].
  rewrite node_view_same. destruct (node_view g _) as [j|]; [|done]. cbn [mbind result_bind]. by rewrite node_of_same.
Qed.

Lemma node_same i v : vget (nodes_ g) i = Some v -> exists u, vget (nodes_ g1) i = Some (set_update_index u v).
Proof. apply (sv_node _ _ Hs). Qed.
End same.

(** ** The planned edits can be recorded *)

Lemma fanin_port_ok i v w : vget (nodes_ g) i = Some v -> w ∈ regular_fanins_ v -> port_ok (fanin_id g w).
Proof.
  intros Hv Hw. destruct (view_ok_def _ _ _ _ _ Hg Hv) as [d Hd]. split; [by apply (regular_port g i v w)|].
  assert (fanin_id g w ∈ map ParseTensorName (input d)) as (s & -> & _)%list_elem_of_fmap; [|apply ParseTensorName_index].
  pose proof (ok_inputs _ Hg i d v Hd Hv) as Hi. unfold inputs_ok in Hi. rewrite Hi. apply list_elem_of_fmap. exists w.
  split; [done|]. apply elem_of_app. by left.
Qed.

Lemma name_of_def i d : vget (graph g) i = Some d -> name_of g i = name d.
Proof. intros Hd. unfold name_of. by rewrite Hd. Qed.

Lemma batch_norm_no_transpose (d : NodeDef AttrValue) : IsFusedBatchNormGrad d = true -> op d <> "Transpose" /\ op d <> "Const".
Proof.
  unfold IsFusedBatchNormGrad, has_op. cbn. rewrite !orb_true_iff, !String.eqb_eq. intros H.
  split; intros E; rewrite E in H; naive_solver.
Qed.

Lemma converted_convertible i t0 t1 : converted i = Some (t0, t1) -> exists d v w0 w1, convertible i t0 t1 d v w0 w1 /\ outputs_preserved v = false.
Proof.
  unfold converted. intros H. destruct (can_convert g i src_to_dst dst_to_src) as [[p|]|] eqn:E; [|done..].
  destruct (vget (nodes_ g) i) as [v|] eqn:Hv; [|done]. destruct (outputs_preserved v) eqn:Ep; [done|]. injection H as ->.
  destruct (can_convert_ok i) as (r & Hr & Hc); [by eapply vget_Some|]. rewrite E in Hr. injection Hr as <-.
  destruct (Hc t0 t1 eq_refl) as (d & v' & w0 & w1 & Hcv). assert (v' = v) as -> by (pose proof (cv_node _ _ _ _ _ _ _ Hcv); congruence). eauto 10.
Qed.

Lemma output_not_node i t0 t1 d v w0 w1 fo : convertible i t0 t1 d v w0 w1 -> fo ∈ GetRegularFanout v 0 -> fanin_node_index fo <> i.
Proof.
  intros Hc Hfo E. destruct (cv_outputs _ _ _ _ _ _ _ Hc fo Hfo) as (d' & _ & _ & _ & _ & Hd' & _ & Ho & _).
  rewrite E, (cv_def _ _ _ _ _ _ _ Hc) in Hd'. injection Hd' as <-. by destruct (batch_norm_no_transpose d (cv_op _ _ _ _ _ _ _ Hc)).
Qed.

Lemma fanout_edit_plain i j v fo' : vget (nodes_ g) j = Some v -> 0 <= i < size_ (nodes_ g) -> i <> j -> fo' ∈ GetRegularFanout v 0 ->
  plain_edit g (fanin_node_index fo') (SetFanin (fanin_port_index fo') (mk_TensorId (name_of g i) 0)).
Proof.
  intros Hv Hi Hij Hfo. destruct (elem_of_fanouts g j v fo' Hg Hv Hfo) as (u & w & Hu & Hw & Hn & Hp). exists u. split; [done|].
  split; [apply vget_Some in Hw; lia|]. split; [unfold port_ok; cbn; lia|]. rewrite Hw. cbn. unfold fanin_id. rewrite Hn, Hp. intros [= E].
  apply Hij. symmetry. apply (name_of_inj g); try done. by eapply vget_Some.
Qed.

Lemma source_plain i v k w perm : vget (nodes_ g) i = Some v -> vget (regular_fanins_ v) k = Some w -> layout_transpose (fanout_node_index w) perm ->
  plain_edit g i (SetFanin k (source (fanout_node_index w))).
Proof.
  intros Hv Hw (dt & vt & x0 & x1 & dp & Hdt & Hvt & _ & Hf & _). exists v. split; [done|]. split; [apply vget_Some in Hw; lia|].
  assert (x0 ∈ regular_fanins_ vt) as Hx0 by (rewrite Hf; left).
  rewrite (source_eq _ vt x0 [x1] Hvt Hf).
  split; [by eapply (fanin_port_ok _ vt)|]. rewrite Hw. cbn. intros E. injection E as E _.
  destruct (fanin_node g _ vt x0 Hg Hvt Hx0) as (v' & _ & Hv' & _ & Hne & _). apply Hne. symmetry. apply (name_of_inj g); try done; by eapply vget_Some.
Qed.

(** ** The loop records them *)

Context (Hnew : removed_nodes_ (mutation_ g) = ∅).

Lemma connect_fanouts_spec nm fos : forall es g1, edits_recorded g es g1 ->
  (forall fo, fo ∈ fos -> plain_edit g (fanin_node_index fo) (SetFanin (fanin_port_index fo) (mk_TensorId nm 0))) ->
  runs (connect_fanouts (mk_TensorId nm 0) fos) g1 (fun _ => edits_recorded g (es ++ fanout_edits nm fos)).
Proof.
  induction fos as [|fo fos IH]; intros es g1 He Hp; cbn [connect_fanouts fanout_edits map].
  { run_step. by rewrite app_nil_r. }
  assert (plain_edit g (fanin_node_index fo) (SetFanin (fanin_port_index fo) (mk_TensorId nm 0))) as Hfo by (apply Hp; left).
  pose proof Hfo as (u & Hu & _). run_step. run_step. run_step.
  eapply runs_lift; [rewrite (fanout_view_same g1 (er_view _ _ _ He)); by apply (fanout_view_ok g _ u)|]. run_step.
  eapply runs_mono; [by apply (record_edit g es g1 _ _ Hg Hnew He Hfo)|]. intros [] g2 He2.
  eapply runs_mono; [apply (IH _ g2 He2); intros x Hx; apply Hp; by right|]. intros [] g3 H3. by rewrite <- app_assoc in H3.
Qed.

Lemma bypass_outputs_spec i v fanouts : vget (nodes_ g) i = Some v -> forall es g1, edits_recorded g es g1 ->
  (forall fo, fo ∈ fanouts -> fanin_node_index fo <> i /\ 0 <= fanin_node_index fo < size_ (nodes_ g) /\ name_of g (fanin_node_index fo) ∉ nodes_to_preserve) ->
  runs (bypass_outputs nodes_to_preserve (name_of g i) fanouts) g1 (fun b g2 => b = false /\ edits_recorded g (es ++ output_edits (name_of g i) fanouts) g2).
Proof.
  intros Hv. induction fanouts as [|fo fanouts IH]; intros es g1 He Hfo; cbn [bypass_outputs].
  { run_step. unfold output_edits. cbn. by rewrite app_nil_r. }
  destruct (Hfo fo) as (Hne & Hr & Hnp); [left|]. pose proof Hr as (u & d & Hu & Hd)%(node_at_index g); [|done].
  run_step. run_step. run_step. eapply runs_lift; [rewrite (fanout_view_same g1 (er_view _ _ _ He)); by apply (fanout_view_ok g _ u)|].
  run_step. eapply runs_lift; [rewrite (node_of_same g1 (er_view _ _ _ He)); by apply (node_of_ok g _ u d)|].
  rewrite bool_decide_false by (by rewrite <- (name_of_def _ d Hd)). destruct (node_same g1 (er_view _ _ _ He) _ u Hu) as [x Hx].
  run_step. eapply runs_node_at; [exact Hx|]. run_step. change (GetRegularFanout (set_update_index x u) 0) with (GetRegularFanout u 0).
  eapply runs_mono; [apply (connect_fanouts_spec _ _ es g1 He)|].
  { intros fo' Hfo'. apply (fanout_edit_plain i (fanin_node_index fo) u); try done; by eapply vget_Some. }
  intros [] g2 He2. eapply runs_mono; [apply (IH _ g2 He2); intros y Hy; apply Hfo; by right|]. intros b g3 [-> He3]. split; [done|].
  unfold output_edits. cbn [map concat]. rewrite Hu. by rewrite <- app_assoc in He3.
Qed.

Lemma transposed_tensor_ok t perm : layout_transpose t perm -> transposed_tensor g t = Ok (source t).
Proof.
  intros (dt & vt & x0 & x1 & dp & Hdt & Hvt & _ & Hf & _). unfold transposed_tensor. rewrite (at_Some _ _ _ Hvt). cbn [mbind result_bind].
  assert (x0 ∈ regular_fanins_ vt) as Hx0 by (rewrite Hf; left). rewrite (GetRegularFanin_ok vt 0 x0) by (by rewrite Hf).
  rewrite (node_view_ok g t vt x0 Hg Hvt Hx0). cbn [mbind result_bind]. destruct (fanin_node g t vt x0 Hg Hvt Hx0) as (v' & d' & Hv' & Hd' & _ & E).
  rewrite (node_of_ok g _ v' d' Hg Hv' Hd'). cbn [mbind result_bind].
  by rewrite (source_eq t vt x0 [x1] Hvt Hf), E.
Qed.

Lemma convert_inputs_spec i t0 t1 d v w0 w1 es g1 : convertible i t0 t1 d v w0 w1 -> edits_recorded g es g1 ->
  runs (convert_inputs i t0 t1) g1 (fun _ => edits_recorded g
    (es ++ [(i, SetFanin 0 (source t0)); (i, SetFanin 1 (source t1)); (i, SetAttr "data_format" (make_s "NCHW"))])).
Proof.
  intros [_ Hv _ _ H0 H1 E0 E1 T0 T1 _] He. unfold convert_inputs.
  run_step. run_step. run_step. eapply runs_lift; [rewrite (transposed_tensor_same g1 (er_view _ _ _ He)); by apply (transposed_tensor_ok t0 dst_to_src)|].
  run_step. eapply runs_mono; [apply (record_edit g es g1 i (SetFanin 0 (source t0)) Hg Hnew He); rewrite E0; eapply source_plain; [done..|by rewrite <- E0]|].
  intros [] g2 He2. run_step. run_step. run_step.
  eapply runs_lift; [rewrite (transposed_tensor_same g2 (er_view _ _ _ He2)); by apply (transposed_tensor_ok t1 dst_to_src)|].
  run_step. eapply runs_mono; [apply (record_edit g _ g2 i (SetFanin 1 (source t1)) Hg Hnew He2); rewrite E1; eapply source_plain; [done..|by rewrite <- E1]|].
  intros [] g3 He3. eapply runs_mono; [apply (record_edit g _ g3 i (SetAttr "data_format" (make_s "NCHW")) Hg Hnew He3); by exists v|].
  intros [] g4 He4. by rewrite <- !app_assoc in He4.
Qed.

Context (Htog : preserved_together).

Lemma optimize_node_spec i es g1 : 0 <= i < size_ (nodes_ g) -> edits_recorded g es g1 ->
  runs (optimize_node nodes_to_preserve src_to_dst dst_to_src i) g1 (fun _ => edits_recorded g (es ++ planned i)).
Proof.
  intros Hi He. pose proof (er_view _ _ _ He) as Hs. destruct (can_convert_ok i Hi) as (r & Hr & Hc).
  unfold optimize_node. run_step. run_step. run_step. eapply runs_lift; [by rewrite (can_convert_same g1 Hs)|].
  unfold planned, converted. rewrite Hr. destruct r as [[t0 t1]|]; [|run_step; by rewrite app_nil_r].
  destruct (Hc t0 t1 eq_refl) as (d & v & w0 & w1 & Hcv). pose proof (cv_node _ _ _ _ _ _ _ Hcv) as Hv. pose proof (cv_def _ _ _ _ _ _ _ Hcv) as Hd.
  rewrite Hv. destruct (node_same g1 Hs i v Hv) as [x Hx]. run_step. eapply runs_node_at; [exact Hx|].
  run_step. eapply runs_lift; [rewrite (node_of_same g1 Hs); by apply (node_of_ok g i v d)|]. rewrite <- (name_of_def i d Hd).
  change (GetRegularFanout (set_update_index x v) 0) with (GetRegularFanout v 0). run_step.
  destruct (outputs_preserved v) eqn:Ep.
  - unfold outputs_preserved in Ep. apply existsb_exists in Ep as (fo & Hfo%list_elem_of_In & Hin%bool_decide_eq_true).
    destruct (GetRegularFanout v 0) as [|fo' fos] eqn:Ef; [by apply elem_of_nil in Hfo|]. cbn [bypass_outputs].
    assert (fo' ∈ GetRegularFanout v 0) as Hfo' by (rewrite Ef; left). rewrite <- Ef in Hfo.
    assert (name_of g (fanin_node_index fo') ∈ nodes_to_preserve) as Hin'.
    { apply (Htog i v fo fo'); try done. by rewrite Hr. }
    destruct (node_at_index g _ Hg (fanout_in_range i v fo' Hv Hfo')) as (u & e & Hu & Hue).
    run_step. run_step. run_step. eapply runs_lift; [rewrite (fanout_view_same g1 Hs); by apply (fanout_view_ok g _ u)|].
    run_step. eapply runs_lift; [rewrite (node_of_same g1 Hs); by apply (node_of_ok g _ u e)|].
    rewrite bool_decide_true by (by rewrite <- (name_of_def _ e Hue)). run_step. run_step. by rewrite app_nil_r.
  - eapply runs_mono; [apply (bypass_outputs_spec i v (GetRegularFanout v 0) Hv es g1 He)|].
    + intros fo Hfo. split; [by eapply output_not_node|]. split; [by eapply fanout_in_range|]. intros Hin.
      assert (outputs_preserved v = true) as Hp; [|congruence]. apply existsb_exists. exists fo.
      split; [by apply list_elem_of_In|by apply bool_decide_eq_true].
    + intros b g2 [-> He2]. eapply runs_mono; [by apply (convert_inputs_spec i t0 t1 d v w0 w1)|]. intros [] g3 He3. by rewrite <- app_assoc in He3.
Qed.

Lemma optimize_nodes_spec l : forall es g1, (forall i, i ∈ l -> 0 <= i < size_ (nodes_ g)) -> edits_recorded g es g1 ->
  runs (optimize_nodes nodes_to_preserve src_to_dst dst_to_src l) g1 (fun _ => edits_recorded g (es ++ concat (map planned l))).
Proof.
  induction l as [|i l IH]; intros es g1 Hl' He; cbn [optimize_nodes map concat].
  { run_step. by rewrite app_nil_r. }
  run_step. eapply runs_mono; [apply (optimize_node_spec i es g1); [apply Hl'; left|done]|]. intros [] g2 He2.
  eapply runs_mono; [apply (IH (es ++ planned i) g2); [intros j Hj; apply Hl'; by right|done]|]. intros [] g3 He3. by rewrite <- app_assoc in He3.
Qed.
End layout.
End proofs.

(** ** What the transpose remover makes of a graph *)

Section contents.
  Context {PM : ProtoMessages}.
  #[local] Notation G := (MutableGraphView AttrValue).
Context (g : G) (Hg : view_ok g) (Hl : layout_graph (graph g)) (nodes_to_preserve : gset string).
#[local] Notation converted := (converted g nodes_to_preserve).
#[local] Notation planned := (planned g nodes_to_preserve).

(** ** The rewritten contents *)

(** The node that a transpose of the output of a converted node reads. *)
Definition bypassed (t : Z) : option Z :=
  v ← vget (nodes_ g) t; w ← vget (regular_fanins_ v) 0;
  if (fanout_port_index w =? 0) && bool_decide (is_Some (converted (fanout_node_index w))) then Some (fanout_node_index w) else None.

Definition redirected (w : MutableFanoutView) : TensorId :=
  if fanout_port_index w =? 0 then
    match bypassed (fanout_node_index w) with Some i => mk_TensorId (name_of g i) 0 | None => fanin_id g w end
  else fanin_id g w.

Definition rewritten_fanin (j k : Z) (w : MutableFanoutView) : TensorId :=
  match converted j with
  | Some (t0, t1) => if k =? 0 then source g t0 else if k =? 1 then source g t1 else redirected w
  | None => redirected w
  end.

Definition rewritten_content (j : Z) (d : NodeDef AttrValue) (v : MutableNodeView) : content AttrValue :=
  mk_content (name d) (op d) (device d) (fun k => rewritten_fanin j k <$> vget (regular_fanins_ v) k) (control_names g v)
    (if bool_decide (is_Some (converted j)) then <["data_format" := make_s "NCHW"]> (attr d) else attr d).

Definition rewritten (c : content AttrValue) : Prop :=
  exists j d v, vget (graph g) j = Some d /\ vget (nodes_ g) j = Some v /\ c = rewritten_content j d v.

(** ** What is planned for one fanin *)

Lemma converted_range i p : converted i = Some p -> 0 <= i < size_ (nodes_ g).
Proof.
  destruct p as [t0 t1]. intros (d & v & w0 & w1 & Hc & _)%(converted_convertible g Hg Hl). pose proof (cv_node _ _ _ _ _ _ _ _ Hc). by eapply vget_Some.
Qed.

(** A transpose of the output of a converted node reads that node. *)
Lemma output_bypassed i t0 t1 d v w0 w1 fo : converted i = Some (t0, t1) -> convertible g i t0 t1 d v w0 w1 -> fo ∈ GetRegularFanout v 0 ->
  bypassed (fanin_node_index fo) = Some i.
Proof.
  intros Hci Hc Hfo. destruct (cv_outputs _ _ _ _ _ _ _ _ Hc fo Hfo) as (dt & vt & x0 & x1 & dp & Hdt & Hvt & _ & Hf & Hdp & Hop & _).
  destruct (elem_of_fanouts g i v fo Hg (cv_node _ _ _ _ _ _ _ _ Hc) Hfo) as (u & w & Hu & Hw & Hn & Hp). assert (u = vt) as -> by congruence.
  rewrite Hf in Hw. assert (w = x0) as ->.
  { destruct (decide (fanin_port_index fo = 0)) as [E|E]; [rewrite E in Hw; by injection Hw|]. pose proof (vget_Some _ _ _ Hw) as Hr. unfold size_ in Hr. cbn in Hr.
    assert (fanin_port_index fo = 1) as E1 by lia. rewrite E1 in Hw. injection Hw as <-. rewrite Hn, (cv_def _ _ _ _ _ _ _ _ Hc) in Hdp. injection Hdp as <-.
    by destruct (batch_norm_no_transpose d (cv_op _ _ _ _ _ _ _ _ Hc)). }
  unfold bypassed. rewrite Hvt. cbn [mbind option_bind]. rewrite Hf. change (vget [x0; x1] 0) with (Some x0). cbn [mbind option_bind].
  rewrite Hp, Hn, bool_decide_true by (rewrite Hci; eauto). done.
Qed.

Lemma bypassed_output t i : bypassed t = Some i -> exists t0 t1 d v w0 w1 fo, converted i = Some (t0, t1) /\ convertible g i t0 t1 d v w0 w1 /\
  outputs_preserved g nodes_to_preserve v = false /\ fo ∈ GetRegularFanout v 0 /\ fanin_node_index fo = t.
Proof.
  unfold bypassed. destruct (vget (nodes_ g) t) as [vt|] eqn:Hvt; [|done]. cbn [mbind option_bind].
  destruct (vget (regular_fanins_ vt) 0) as [w|] eqn:Hw; [|done]. cbn [mbind option_bind]. destruct (Z.eqb_spec (fanout_port_index w) 0) as [Hp|]; [|done].
  case_bool_decide as E; [|done]. cbn. intros [= <-]. destruct E as [[t0 t1] Hc]. destruct (converted_convertible g Hg Hl _ _ _ _ Hc) as (d & v & w0 & w1 & Hcv & Hnp).
  destruct (fanout_of_fanin g t vt 0 w Hg Hvt Hw Hp) as (v' & fo & Hv' & Hfo & Hn & _).
  assert (v' = v) as -> by (pose proof (cv_node _ _ _ _ _ _ _ _ Hcv); congruence). eauto 12.
Qed.

Lemma bypassed_transpose t i : bypassed t = Some i -> layout_transpose g t src_to_dst.
Proof.
  intros (t0 & t1 & d & v & w0 & w1 & fo & _ & Hcv & _ & Hfo & <-)%bypassed_output. by apply (cv_outputs _ _ _ _ _ _ _ _ Hcv).
Qed.

Lemma elem_of_output_edits nm fos j e : (j, e) ∈ output_edits g nm fos <->
  exists fo vt fo', fo ∈ fos /\ vget (nodes_ g) (fanin_node_index fo) = Some vt /\ fo' ∈ GetRegularFanout vt 0 /\
    j = fanin_node_index fo' /\ e = SetFanin (fanin_port_index fo') (mk_TensorId nm 0).
Proof.
  unfold output_edits, fanout_edits. rewrite elem_of_concat. split.
  - intros (l & Hin & (fo & -> & Hfo)%list_elem_of_fmap). destruct (vget (nodes_ g) (fanin_node_index fo)) as [vt|] eqn:E; [|by apply elem_of_nil in Hin].
    apply list_elem_of_fmap in Hin as (fo' & [= -> ->] & Hfo'). eauto 10.
  - intros (fo & vt & fo' & Hfo & Hvt & Hfo' & -> & ->). eexists. split; [|apply list_elem_of_fmap; exists fo; split; [reflexivity|done]].
    rewrite Hvt. apply list_elem_of_fmap. eauto.
Qed.

Lemma elem_of_planned i j e : (j, e) ∈ planned i <-> exists t0 t1 d v w0 w1, converted i = Some (t0, t1) /\ convertible g i t0 t1 d v w0 w1 /\
  ((exists fo vt fo', fo ∈ GetRegularFanout v 0 /\ vget (nodes_ g) (fanin_node_index fo) = Some vt /\ fo' ∈ GetRegularFanout vt 0 /\
      j = fanin_node_index fo' /\ e = SetFanin (fanin_port_index fo') (mk_TensorId (name_of g i) 0)) \/
   (j = i /\ e = SetFanin 0 (source g t0)) \/ (j = i /\ e = SetFanin 1 (source g t1)) \/ (j = i /\ e = SetAttr "data_format" (make_s "NCHW"))).
Proof.
  unfold planned. split.
  - destruct (converted i) as [[t0 t1]|] eqn:Hc; [|by intros H%elem_of_nil]. destruct (converted_convertible g Hg Hl _ _ _ _ Hc) as (d & v & w0 & w1 & Hcv & _).
    rewrite (cv_node _ _ _ _ _ _ _ _ Hcv), elem_of_app, !elem_of_cons, elem_of_nil, elem_of_output_edits. intros H. exists t0, t1, d, v, w0, w1.
    split; [done|]. split; [done|]. naive_solver.
  - intros (t0 & t1 & d & v & w0 & w1 & -> & Hcv & H). rewrite (cv_node _ _ _ _ _ _ _ _ Hcv), elem_of_app, !elem_of_cons, elem_of_nil, elem_of_output_edits. naive_solver.
Qed.

Definition all_planned : list (Z * edit AttrValue) := concat (map planned (count_up (size_ (nodes_ g)))).

Lemma elem_of_all_planned j e : (j, e) ∈ all_planned <-> exists i, (j, e) ∈ planned i.
Proof.
  unfold all_planned. rewrite elem_of_concat. split.
  - intros (l & H & (i & -> & _)%list_elem_of_fmap). eauto.
  - intros [i H]. exists (planned i). split; [done|]. apply list_elem_of_fmap. exists i. split; [done|]. apply elem_of_count_up.
    apply elem_of_planned in H as (t0 & t1 & _ & _ & _ & _ & Hc & _). by eapply converted_range.
Qed.

Lemma planned_plain_edit j e : (j, e) ∈ all_planned -> plain_edit g j e.
Proof.
  intros [i (t0 & t1 & d & v & w0 & w1 & Hci & Hc & H)%elem_of_planned]%elem_of_all_planned.
  pose proof Hc as [_ Hv _ _ H0 H1 E0 E1 T0 T1 _]. destruct H as [(fo & vt & fo' & Hfo & Hvt & Hfo' & -> & ->)|[[-> ->]|[[-> ->]|[-> ->]]]].
  - eapply fanout_edit_plain; [done|exact Hvt|by eapply vget_Some| |done]. apply not_eq_sym. by eapply output_not_node.
  - rewrite E0. eapply source_plain; [done..|by rewrite <- E0].
  - rewrite E1. eapply source_plain; [done..|by rewrite <- E1].
  - by exists v.
Qed.

Lemma planned_kinds j e : (j, e) ∈ all_planned -> plain e.
Proof. intros (v & _ & H)%planned_plain_edit. by destruct e. Qed.

(** What is set is the rewritten fanin. *)
Lemma planned_slot j v k w t : vget (nodes_ g) j = Some v -> vget (regular_fanins_ v) k = Some w -> (j, SetFanin k t) ∈ all_planned ->
  t = rewritten_fanin j k w.
Proof.
  intros Hv Hw [i Hin]%elem_of_all_planned. apply elem_of_planned in Hin as (t0 & t1 & d & vi & w0 & w1 & Hci & Hc & H).
  destruct H as [(fo & vt & fo' & Hfo & Hvt & Hfo' & Ej & Ee)|[[-> Ee]|[[-> Ee]|[_ ?]]]]; [| | |done].
  - injection Ee as -> ->. destruct (elem_of_fanouts g _ vt fo' Hg Hvt Hfo') as (u & x & Hu & Hx & Hn & Hp).
    rewrite <- Ej, Hv in Hu. injection Hu as <-. assert (x = w) as -> by congruence.
    pose proof (output_bypassed i t0 t1 d vi w0 w1 fo Hci Hc Hfo) as Hb. pose proof (cv_outputs _ _ _ _ _ _ _ _ Hc fo Hfo) as Ht.
    assert (redirected w = mk_TensorId (name_of g i) 0) as Er by (unfold redirected; by rewrite Hp, Hn, Hb).
    unfold rewritten_fanin. destruct (converted j) as [[u0 u1]|] eqn:Hcj; [|done].
    destruct (converted_convertible g Hg Hl _ _ _ _ Hcj) as (dj & vj & x0 & x1 & Hcvj & _). pose proof (cv_node _ _ _ _ _ _ _ _ Hcvj) as Hvj.
    assert (vj = v) as -> by congruence.
    destruct (Z.eqb_spec (fanin_port_index fo') 0) as [E|_]; [|destruct (Z.eqb_spec (fanin_port_index fo') 1) as [E|_]; [|done]]; exfalso; rewrite E in Hw.
    + rewrite (cv_fanin0 _ _ _ _ _ _ _ _ Hcvj) in Hw. injection Hw as ->. pose proof (cv_transpose0 _ _ _ _ _ _ _ _ Hcvj) as T.
      rewrite (cv_source0 _ _ _ _ _ _ _ _ Hcvj), Hn in T. by pose proof (layout_transpose_unique g _ _ _ T Ht).
    + rewrite (cv_fanin1 _ _ _ _ _ _ _ _ Hcvj) in Hw. injection Hw as ->. pose proof (cv_transpose1 _ _ _ _ _ _ _ _ Hcvj) as T.
      rewrite (cv_source1 _ _ _ _ _ _ _ _ Hcvj), Hn in T. by pose proof (layout_transpose_unique g _ _ _ T Ht).
  - injection Ee as -> ->. unfold rewritten_fanin. by rewrite Hci.
  - injection Ee as -> ->. unfold rewritten_fanin. by rewrite Hci.
Qed.

(** What is not set stays. *)
Lemma unplanned_slot j v k w : vget (nodes_ g) j = Some v -> vget (regular_fanins_ v) k = Some w -> (forall t, (j, SetFanin k t) ∉ all_planned) ->
  rewritten_fanin j k w = fanin_id g w.
Proof.
  intros Hv Hw Hn. assert (redirected w = fanin_id g w) as Hr.
  { unfold redirected. destruct (Z.eqb_spec (fanout_port_index w) 0) as [Hp|]; [|done]. destruct (bypassed (fanout_node_index w)) as [i|] eqn:Hb; [|done].
    destruct (bypassed_output _ _ Hb) as (t0 & t1 & d & vi & w0 & w1 & fo & Hci & Hc & _ & Hfo & Hfn).
    destruct (fanout_of_fanin g j v k w Hg Hv Hw Hp) as (vt & fo' & Hvt & Hfo' & Hj & Hk). exfalso. apply (Hn (mk_TensorId (name_of g i) 0)).
    apply elem_of_all_planned. exists i. apply elem_of_planned. exists t0, t1, d, vi, w0, w1. split; [done|]. split; [done|]. left.
    exists fo, vt, fo'. rewrite Hfn, Hj, Hk. done. }
  unfold rewritten_fanin. destruct (converted j) as [[t0 t1]|] eqn:Hc; [|done].
  destruct (converted_convertible g Hg Hl _ _ _ _ Hc) as (d & vj & w0 & w1 & Hcv & _).
  destruct (Z.eqb_spec k 0) as [->|_]; [exfalso; apply (Hn (source g t0))|destruct (Z.eqb_spec k 1) as [->|_]; [exfalso; apply (Hn (source g t1))|done]];
    apply elem_of_all_planned; exists j; apply elem_of_planned; exists t0, t1, d, vj, w0, w1; (split; [done|]; split; [done|]); tauto.
Qed.

Lemma planned_attr j s a : (j, SetAttr s a) ∈ all_planned <-> is_Some (converted j) /\ s = "data_format" /\ a = make_s "NCHW".
Proof.
  rewrite elem_of_all_planned. split.
  - intros [i H]. apply elem_of_planned in H as (t0 & t1 & d & v & w0 & w1 & Hc & _ & [(? & ? & ? & _ & _ & _ & _ & ?)|[[_ ?]|[[_ ?]|[-> E]]]]); try done.
    injection E as -> ->. rewrite Hc. eauto.
  - intros ([[t0 t1] Hc] & -> & ->). destruct (converted_convertible g Hg Hl _ _ _ _ Hc) as (d & v & w0 & w1 & Hcv & _). exists j. apply elem_of_planned.
    exists t0, t1, d, v, w0, w1. split; [done|]. split; [done|]. tauto.
Qed.

Lemma decide_slot j k : (exists t, (j, SetFanin k t) ∈ all_planned) \/ forall t, (j, SetFanin k t) ∉ all_planned.
Proof.
  induction all_planned as [|[i e] l IH]; [right; intros t H; by apply elem_of_nil in H|]. destruct IH as [[t Ht]|Hn]; [left; exists t; by right|].
  destruct e as [| | |k' t| | | | |]; try (right; intros t'; rewrite elem_of_cons; intros [?|?]; [done|by eapply Hn]).
  destruct (decide (i = j /\ k' = k)) as [[-> ->]|Hne]; [left; exists t; left|]. right. intros t'. rewrite elem_of_cons. intros [[= -> -> ->]|?]; [by apply Hne|by eapply Hn].
Qed.

(** The edits make the rewritten content. *)
Lemma edited_rewritten j d v : vget (graph g) j = Some d -> vget (nodes_ g) j = Some v ->
  edited_by all_planned j (node_content g d v) ≡ rewritten_content j d v.
Proof.
  intros Hd Hv. destruct (edited_fields all_planned j (node_content g d v) planned_kinds) as (E1 & E2 & E3 & E4). split_and!; try done.
  - intros k. cbn [rewritten_content c_regular]. destruct (decide_slot j k) as [[t Ht]|Hn].
    + destruct (planned_plain_edit _ _ Ht) as (v' & Hv' & Hk & _ & Hne). assert (exists w, vget (regular_fanins_ v) k = Some w) as [w Hw].
      { pose proof Ht as [i Hin]%elem_of_all_planned. apply elem_of_planned in Hin as (t0 & t1 & di & vi & w0 & w1 & _ & Hc & H).
        destruct H as [(fo & vt & fo' & _ & Hvt & Hfo' & -> & Ee)|[[-> Ee]|[[-> Ee]|[_ ?]]]]; [| | |done].
        - injection Ee as -> ->. destruct (elem_of_fanouts g _ vt fo' Hg Hvt Hfo') as (u & x & Hu & Hx & _). assert (u = v) as -> by congruence. eauto.
        - injection Ee as -> ->. pose proof (cv_node _ _ _ _ _ _ _ _ Hc). pose proof (cv_fanin0 _ _ _ _ _ _ _ _ Hc). assert (vi = v) as -> by congruence. eauto.
        - injection Ee as -> ->. pose proof (cv_node _ _ _ _ _ _ _ _ Hc). pose proof (cv_fanin1 _ _ _ _ _ _ _ _ Hc). assert (vi = v) as -> by congruence. eauto. }
      rewrite Hw. cbn. rewrite <- (planned_slot j v k w t Hv Hw Ht). apply edited_slot; [apply planned_kinds|done|].
      intros t' Ht'. rewrite (planned_slot j v k w t Hv Hw Ht). by apply (planned_slot j v k w).
    + rewrite (edited_slot_kept _ _ _ _ planned_kinds Hn). cbn. destruct (vget (regular_fanins_ v) k) as [w|] eqn:Hw; [|done]. cbn. f_equal.
      symmetry. by apply (unplanned_slot j v).
  - cbn [rewritten_content c_attr]. case_bool_decide as Hc.
    + apply edited_attr; [apply planned_kinds|by apply planned_attr|]. intros s a H%planned_attr. tauto.
    + apply edited_attr_kept; [apply planned_kinds|]. intros s a H%planned_attr. tauto.
Qed.
End contents.

(** ** The rewritten graph can be applied *)

Section optimize.
  Context {PM : ProtoMessages}.
  #[local] Notation G := (MutableGraphView AttrValue).
  Implicit Type g : G.

(** No node reads itself through a transpose. *)
Definition no_feedback (l : list (NodeDef AttrValue)) : Prop := forall d d' t t', d ∈ l -> d' ∈ l -> op d' = "Transpose" ->
  t ∈ regular_ids d -> name d' = TensorName.node t -> t' ∈ regular_ids d' -> TensorName.node t' <> name d.

Lemma layout_graph_deduplicated (l l' : list (NodeDef AttrValue)) : Forall2 (fun d0 d => same_but_input d0 d /\ inputs_deduplicated d0 d) l l' ->
  layout_graph l -> layout_graph l'.
Proof.
  intros Hf [H1 H2 H3 H4]. split.
  - intros d (d0 & Hd0 & E1 & E2 & E3 & E4)%(deduplicated_back _ _ _ Hf) Ho. rewrite <- E4. apply (H1 d0 Hd0). congruence.
  - intros d d' t (d0 & Hd0 & E1 & E2 & E3 & E4)%(deduplicated_back _ _ _ Hf) (d0' & Hd0' & F1 & F2 & F3 & F4)%(deduplicated_back _ _ _ Hf).
    rewrite <- E4, <- F1, <- F2. by apply H2.
  - intros d (d0 & Hd0 & E1 & E2 & E3 & E4)%(deduplicated_back _ _ _ Hf) Ho. rewrite <- E4. apply (H3 d0 Hd0). congruence.
  - intros d t (d0 & Hd0 & E1 & E2 & E3 & E4)%(deduplicated_back _ _ _ Hf). rewrite <- E2, <- E3. by apply H4.
Qed.

Lemma no_feedback_deduplicated (l l' : list (NodeDef AttrValue)) : Forall2 (fun d0 d => same_but_input d0 d /\ inputs_deduplicated d0 d) l l' ->
  no_feedback l -> no_feedback l'.
Proof.
  intros Hf H d d' t t' (d0 & Hd0 & E1 & _ & _ & E4)%(deduplicated_back _ _ _ Hf) (d0' & Hd0' & F1 & F2 & _ & F4)%(deduplicated_back _ _ _ Hf).
  rewrite <- E1, <- E4, <- F1, <- F2, <- F4. by apply H.
Qed.

Section linked.
Context (g : G) (Hg : view_ok g) (Hl : layout_graph (graph g)) (Hnf : no_feedback (graph g)) (nodes_to_preserve : gset string).

Lemma HasNode_name i d : vget (graph g) i = Some d -> HasNode g (name d) = true.
Proof.
  intros Hd. unfold HasNode. apply bool_decide_eq_true. exists i. apply (ok_names _ (ok_names_ok _ _ _ Hg)). eauto.
Qed.

(** No fanin of a fanin that is a transpose is the node itself. *)
Lemma no_feedback_view j v w u x dt : vget (nodes_ g) j = Some v -> w ∈ regular_fanins_ v -> vget (graph g) (fanout_node_index w) = Some dt ->
  op dt = "Transpose" -> vget (nodes_ g) (fanout_node_index w) = Some u -> x ∈ regular_fanins_ u -> fanout_node_index x <> j.
Proof.
  intros Hv Hw Hdt Ho Hu Hx E. destruct (view_ok_def _ _ _ _ _ Hg Hv) as [d Hd].
  apply (Hnf d dt (fanin_id g w) (fanin_id g x)); [apply elem_of_vget; eauto|apply elem_of_vget; eauto|done| | | |].
  - rewrite (proj1 (split_ids g j d v Hg Hd Hv)). apply list_elem_of_fmap. eauto.
  - cbn. by rewrite (name_of_def g _ dt Hdt).
  - rewrite (proj1 (split_ids g _ dt u Hg Hdt Hu)). apply list_elem_of_fmap. eauto.
  - cbn. rewrite E. by rewrite (name_of_def g _ d Hd).
Qed.

(** A fanin that a rewritten node has: of another node of the graph. *)
Lemma rewritten_fanin_node j v k w : vget (nodes_ g) j = Some v -> vget (regular_fanins_ v) k = Some w ->
  exists i d, vget (graph g) i = Some d /\ TensorName.node (rewritten_fanin g nodes_to_preserve j k w) = name d /\ i <> j.
Proof.
  intros Hv Hw. assert (w ∈ regular_fanins_ v) as Hin by (apply elem_of_vget; eauto).
  destruct (fanin_node g j v w Hg Hv Hin) as (u & du & Hu & Hdu & Hne & Hid).
  assert (exists i d, vget (graph g) i = Some d /\ TensorName.node (redirected g nodes_to_preserve w) = name d /\ i <> j) as Hred.
  { unfold redirected. destruct (fanout_port_index w =? 0); [|rewrite Hid; eauto].
    destruct (bypassed g nodes_to_preserve (fanout_node_index w)) as [i|] eqn:Hb; [|rewrite Hid; eauto].
    destruct (bypassed_transpose g Hg Hl nodes_to_preserve _ _ Hb) as (dt & vt & x0 & x1 & dp & Hdt & Hvt & Ho & Hf & _).
    destruct (bypassed_output g Hg Hl nodes_to_preserve _ _ Hb) as (t0 & t1 & d & vi & w0 & w1 & fo & _ & Hc & _ & Hfo & Hfn).
    exists i, d. split; [apply Hc|]. split; [cbn; by rewrite (name_of_def g i d (cv_def _ _ _ _ _ _ _ _ Hc))|].
    destruct (elem_of_fanouts g i vi fo Hg (cv_node _ _ _ _ _ _ _ _ Hc) Hfo) as (vt' & x & Hvt' & Hx & Hn & _). rewrite Hfn in Hvt'.
    rewrite <- Hn. eapply (no_feedback_view j v w vt' x dt); try done. apply elem_of_vget. eauto. }
  unfold rewritten_fanin. destruct (converted g nodes_to_preserve j) as [[t0 t1]|] eqn:Hc; [|done].
  destruct (converted_convertible g Hg Hl _ _ _ _ Hc) as (d & v' & w0 & w1 & Hcv & _). assert (v' = v) as -> by (pose proof (cv_node _ _ _ _ _ _ _ _ Hcv); congruence).
  assert (forall x t perm, vget (regular_fanins_ v) x = Some t -> layout_transpose g (fanout_node_index t) perm ->
    exists i d, vget (graph g) i = Some d /\ TensorName.node (source g (fanout_node_index t)) = name d /\ i <> j) as Hsrc.
  { intros x t perm Ht (dt & vt & x0 & x1 & dp & Hdt & Hvt & Ho & Hf & _). assert (x0 ∈ regular_fanins_ vt) as Hx0 by (rewrite Hf; left).
    destruct (fanin_node g _ vt x0 Hg Hvt Hx0) as (v2 & d2 & _ & Hd2 & _ & E2). exists (fanout_node_index x0), d2. split; [done|].
    rewrite (source_eq g _ vt x0 [x1] Hvt Hf), E2. split; [done|].
    eapply (no_feedback_view j v t vt x0 dt); try done. apply elem_of_vget. eauto. }
  destruct (k =? 0); [|destruct (k =? 1); [|done]].
  - rewrite (cv_source0 _ _ _ _ _ _ _ _ Hcv). eapply Hsrc; [apply Hcv|]. rewrite <- (cv_source0 _ _ _ _ _ _ _ _ Hcv). apply Hcv.
  - rewrite (cv_source1 _ _ _ _ _ _ _ _ Hcv). eapply Hsrc; [apply Hcv|]. rewrite <- (cv_source1 _ _ _ _ _ _ _ _ Hcv). apply Hcv.
Qed.

Lemma rewritten_linked j d v (P : string -> Prop) : (forall s, HasNode g s = true -> P s) -> vget (graph g) j = Some d -> vget (nodes_ g) j = Some v ->
  linked P (rewritten_content g nodes_to_preserve j d v).
Proof.
  intros HP Hd Hv. split.
  - exists (imap (fun n w => rewritten_fanin g nodes_to_preserve j (Z.of_nat n) w) (regular_fanins_ v)). intros k. cbn.
    unfold vget. destruct (Z.ltb_spec k 0); [done|]. rewrite list_lookup_imap, Z2Nat.id by lia. done.
  - intros k t. cbn. destruct (vget (regular_fanins_ v) k) as [w|] eqn:Hw; [|done]. cbn. intros [= <-].
    destruct (rewritten_fanin_node j v k w Hv Hw) as (i & di & Hdi & -> & Hne). split; [|by apply HP, (HasNode_name i)].
    intros E. apply Hne, (name_of_inj g); [done|..|by rewrite (name_of_def g _ _ Hdi), (name_of_def g _ _ Hd)];
      rewrite (ok_length _ (ok_names_ok _ _ _ Hg)); by eapply vget_Some.
  - intros s (k & w & Hw & <-)%elem_of_control_names. destruct (ok_fanin_range _ _ _ _ _ (ok_index_ok _ _ _ Hg j v Hv) w) as [Hr Hn].
    { apply elem_of_app. right. apply elem_of_vget. eauto. }
    apply vget_ex in Hr as [dw Hdw]. rewrite (name_of_def g _ _ Hdw). split; [|by apply HP, (HasNode_name (fanout_node_index w))]. cbn. intros E.
    apply Hn, (name_of_inj g); [done|..|by rewrite (name_of_def g _ _ Hdw), (name_of_def g _ _ Hd)];
      rewrite (ok_length _ (ok_names_ok _ _ _ Hg)); by eapply vget_Some.
Qed.
End linked.
End optimize.

Section remover.
  Context {PM : ProtoMessages} {GA : GrapplerApi} {HO : HashOrder} {NA : NodeAllocation}.

(** The input of the optimizer: a graph from which the view can be built. *)
Record optimizer_input (item : GrapplerItem) (g : MutableGraphView AttrValue) : Prop := {
  oi_addresses : NoDup (map address (item_graph item));
  oi_ports : Forall ports_in_range (item_graph item);
  oi_names : forall d, d ∈ item_graph item -> valid_node_name (name d) = true;
  oi_view : make_MutableGraphView (item_graph item) = Ok (Status_OK, g)
}.

(** The part of [Optimize] after the construction. *)
Lemma optimize_view_spec g nodes_to_preserve : idle_view g -> layout_graph (graph g) -> no_feedback (graph g) -> preserved_together g nodes_to_preserve ->
  runs (optimize_nodes nodes_to_preserve src_to_dst dst_to_src (count_up (NumNodes g));; Apply) g
    (fun st g' => st = Status_OK /\ idle_view g' /\ contents_of (graph g') (rewritten g nodes_to_preserve)).
Proof.
  intros Hi Hl Hnf Ht. pose proof (iv_view _ Hi) as Hg. run_step.
  eapply runs_mono; [apply (optimize_nodes_spec g Hg Hl nodes_to_preserve (iv_removed _ Hi) Ht _ [] g)|].
  { intros i. apply elem_of_count_up. }
  { apply edits_recorded_start; [by apply idle_mutation_ok|by apply idle_keeps_names]. }
  intros [] g1 He. cbn [app] in He. fold (all_planned g nodes_to_preserve) in He. pose proof He as [Hs Hm Hk Hp Hr Hn].
  assert (view_ok g1) as Hg1 by (by eapply view_ok_same). rewrite (iv_removed _ Hi) in Hr. rewrite (iv_new _ Hi) in Hn.
  assert (forall i c, pending g1 i = Some c -> exists d v, vget (graph g) i = Some d /\ vget (nodes_ g) i = Some v /\
    c ≡ rewritten_content g nodes_to_preserve i d v) as Hpend.
  { intros i c Hc. pose proof (Hp i) as E. rewrite Hc in E. destruct (vget (nodes_ g) i) as [v|] eqn:Hv.
    2:{ unfold pending in E. rewrite Hv in E. by inversion E. }
    destruct (view_ok_def _ _ _ _ _ Hg Hv) as [d Hd]. rewrite (idle_pending g i v d Hi Hv Hd) in E. cbn in E. apply Some_equiv_inj in E.
    exists d, v. split; [done|]. split; [done|]. rewrite E. by apply edited_rewritten. }
  assert (exists M, valid_mutation g1 M) as [M HM].
  { apply mutation_valid; try done.
    - unfold claimed. rewrite Hn. cbn. rewrite app_nil_r. by apply changed_names_distinct.
    - intros i v Hin. rewrite Hr in Hin. by apply elem_of_empty in Hin.
    - intros n Hin. rewrite Hn in Hin. by apply elem_of_nil in Hin.
    - intros u i c _ _ Hc. destruct (Hpend i c Hc) as (d & v & Hd & Hv & E). symmetry in E. eapply linked_equiv; [exact E|].
      apply rewritten_linked; try done. intros s Hs'. right. rewrite Hr. split; [|by intros ? ?%elem_of_empty].
      unfold HasNode. by rewrite (sv_names _ _ Hs). }
  eapply runs_mono; [apply (Apply_contents g1 M Hg1 Hm Hk HM)|].
  { rewrite (sv_graph _ _ Hs). apply Hi. }
  { intros n Hin. rewrite Hn in Hin. by apply elem_of_nil in Hin. }
  intros st g' (-> & Hi' & [Hc1 Hc2] & _). split; [done|]. split; [done|]. split.
  - intros d (c & Ha & E)%Hc1. destruct Ha as [(n & Hin & _)|(i & _ & Hc)]; [rewrite Hn in Hin; by apply elem_of_nil in Hin|].
    destruct (Hpend i c Hc) as (d0 & v & Hd & Hv & E'). exists (rewritten_content g nodes_to_preserve i d0 v). split; [exists i, d0, v; done|].
    by rewrite E.
  - intros c (i & d & v & Hd & Hv & ->). assert (exists c, pending g1 i = Some c) as [c Hc].
    { pose proof (Hp i) as E. rewrite (idle_pending g i v d Hi Hv Hd) in E. cbn in E. apply Some_equiv_eq in E as (c & Hc & _). eauto. }
    destruct (Hc2 c) as (d' & Hd' & E).
    { right. exists i. split; [|done]. split; [rewrite (sv_size _ _ Hs); by eapply vget_Some|]. rewrite Hr, Hn. split; [set_solver|]. cbn. set_solver. }
    exists d'. split; [done|]. rewrite E. destruct (Hpend i c Hc) as (d2 & v2 & Hd2 & Hv2 & E2). assert (d2 = d) as -> by congruence. assert (v2 = v) as -> by congruence. done.
Qed.

Lemma Optimize_contents item g preserve :
  optimizer_input item g -> NodesToPreserve item = Ok preserve -> layout_graph (item_graph item) -> no_feedback (item_graph item) ->
  preserved_together g preserve ->
  exists l, TransposeRemover.Optimize item = Ok (Status_OK, l) /\ contents_of l (rewritten g preserve).
Proof.
  intros [Ha Hpo Hna Hv] Hp Hl Hnf Ht. destruct (constructed_idle _ g Ha Hpo Hna Hv) as [Hi Hf].
  destruct (optimize_view_spec g preserve Hi) as (st & g' & Hr & -> & _ & Hc); [by eapply layout_graph_deduplicated|by eapply no_feedback_deduplicated|done|].
  exists (graph g'). split; [|done]. unfold TransposeRemover.Optimize. rewrite Hv. cbn [mbind result_bind].
  change (negb (status_ok Status_OK)) with false. cbv iota. rewrite Hp. cbn [mbind result_bind]. destruct permutations_of_formats as [-> ->]. cbn [mbind result_bind].
  rewrite Hr. done.
Qed.
End remover.
