(* ===== verification/GrapplerExample.v ===== *)
(** * GrapplerExample: messages and a host for concrete runs

    One way to have the messages of [ProtoMessages] and the host of [GrapplerApi],
    and a semantics of a few ops, for the examples of both optimizers. *)

From S2P Require Import Prelude Vec TensorName GraphView GraphRewrite GraphMeaning Grappler TransposeRemover.
#[local] Open Scope string_scope.
#[local] Open Scope list_scope.
#[local] Open Scope Z_scope.

Record example_tensor := mk_tensor { et_shape : option (list Z); et_type : DataType; et_ints : list Z }.

Inductive example_value :=
  | ValueS (s : string) | ValueTensor (t : example_tensor) | ValueType (t : DataType) | ValueShape (l : list Z) | ValueList (l : list Z).

(** Tensors keep their values in the field of their type. *)
#[export] Instance example_protos : ProtoMessages.
Proof.
  refine {|
    TensorProto := example_tensor;
    default_TensorProto := mk_tensor None DT_INVALID [];
    tensor_shape := et_shape;
    dtype := et_type;
    version_number := fun _ => 0;
    tensor_content := fun _ => [];
    int_val := fun t => if bool_decide (et_type t = DT_INT32) then et_ints t else [];
    int64_val := fun t => if bool_decide (et_type t = DT_INT64) then et_ints t else [];
    half_val := fun t => if bool_decide (et_type t = DT_HALF) then et_ints t else [];
    float_val := fun t => if bool_decide (et_type t = DT_FLOAT) then et_ints t else [];
    AttrValue := example_value;
    attr_s := fun a => match a with ValueS s => Some s | _ => None end;
    attr_tensor := fun a => match a with ValueTensor t => Some t | _ => None end;
    attr_type := fun a => match a with ValueType t => Some t | _ => None end;
    attr_shape := fun a => match a with ValueShape l => Some l | _ => None end;
    attr_list_i := fun a => match a with ValueList l => Some l | _ => None end;
    make_s := ValueS;
    make_list_i := ValueList
  |}; done.
Defined.

(** The host knows the names to keep and the shapes of the inputs of each node. *)
Record example_item := mk_example_item { ei_preserve : list string; ei_shapes : string -> list (option (list Z)) }.

#[export] Instance example_host : GrapplerApi.
Proof.
  refine {|
    TF_GrapplerItem := example_item;
    TF_Buffer := option (list Z);
    TensorProperties := option (list Z);
    properties_shape := fun p => p;
    ParseBuffer := fun b => inr b;
    TF_GetNodesToPreserveListSize := fun i => (Status_OK, (size_ (ei_preserve i), 0));
    TF_GetNodesToPreserveList := fun i _ => (Status_OK, ei_preserve i);
    TF_GraphProperties := example_item;
    TF_NewGraphProperties := fun i => i;
    TF_InferStatically := fun _ _ _ _ i => (Status_OK, i);
    TF_GetInputPropertiesListSize := fun i s => (Status_OK, size_ (ei_shapes i s));
    TF_GetOutputPropertiesListSize := fun _ _ => (Status_OK, 0);
    TF_GetInputPropertiesList := fun i s _ => (Status_OK, ei_shapes i s);
    TF_GetOutputPropertiesList := fun _ _ _ => (Status_OK, [])
  |}.
Defined.

(** Nodes of an example graph. *)
Definition example_node (a : Z) (name op : string) (device : string) (input : list string) (attrs : list (string * example_value))
  : NodeDef AttrValue := mk_NodeDef a name op device input (list_to_map attrs).

Definition ints (l : list Z) : example_value := ValueTensor (mk_tensor (Some [size_ l]) DT_INT32 l).

(** ** Evaluating a graph

    The values of the tensors of a graph, as far down as the fuel reaches. *)

Section evaluation.
  Context {A V : Type} (F : op_semantics A V) (nowhere : V).

Fixpoint evaluation (fuel : nat) (l : list (NodeDef A)) (t : TensorId) : V :=
  match fuel with
  | O => nowhere
  | S fuel =>
      match List.find (fun d => bool_decide (name d = TensorName.node t)) l with
      | Some d => F (name d) (op d) (attr d) (map (evaluation fuel l) (regular_ids d)) (TensorName.index t)
      | None => nowhere
      end
  end.

(** It evaluates the graph when more fuel does not change what the inputs of its
    nodes are. *)
Lemma evaluation_evaluates fuel l : NoDup (map name l) ->
  (forall d t, d ∈ l -> t ∈ regular_ids d -> evaluation fuel l t = evaluation (S fuel) l t) -> evaluates F l (evaluation (S fuel) l).
Proof.
  intros Hnd Hs d Hd ids p Hids Hp. assert (ids = regular_ids d) as -> by (by apply (regular_inputs_unique (def_content d))).
  cbn [evaluation TensorName.node TensorName.index def_content GraphContent.c_name GraphContent.c_op GraphContent.c_attr].
  assert (List.find (fun d' => bool_decide (name d' = name d)) l = Some d) as ->.
  { clear Hs Hids. induction l as [|e l IH]; [by apply elem_of_nil in Hd|]. cbn. cbn in Hnd. apply NoDup_cons in Hnd as [Hn Hnd].
    apply elem_of_cons in Hd as [->|Hd]; [by rewrite bool_decide_true|]. rewrite bool_decide_false; [by apply IH|]. intros E.
    apply Hn, list_elem_of_fmap. by exists d. }
  f_equal. apply map_ext_in. intros t Ht%list_elem_of_In. by apply (Hs d).
Qed.
End evaluation.
