(* ===== verification/TransposeMeaning.v ===== *)
(** * TransposeMeaning: the transpose remover keeps the values of a graph

    With a semantics in which transposing from NCHW to NHWC and back is the
    identity and a FusedBatchNormGrad commutes with it, an evaluation of the
    graph is one of the optimized graph, apart from the tensors whose layout the
    conversion changes. *)

From S2P Require Import Prelude Vec TensorName GraphView GraphInv GraphBulk GraphEditProofs GraphBuild HashOrder GraphDiff GraphContent GraphWellFormed GraphMutation GraphMutationProofs GraphValidateProofs GraphApply GraphRewrite GraphMeaning Grappler TransposeRemover TransposeTheorems GrapplerExample GraphMutationTheorems.
#[local] Open Scope string_scope.
#[local] Open Scope list_scope.
#[local] Open Scope Z_scope.

(** What the conversion relies on: [transposed] permutes the dimensions of a
    tensor. *)
Record layout_semantics {PM : ProtoMessages} {V} (F : op_semantics AttrValue V) (transposed : list Z -> V -> V) : Prop := {
  ls_transpose : forall nm nm' a a' perm x, const_perm a' perm ->
    F nm "Transpose" a [x; F nm' "Const" a' [] 0] 0 = transposed perm x;
  ls_inverse : forall x, transposed src_to_dst (transposed dst_to_src x) = x;
  ls_batch_norm : forall nm op a x y rest p, op ∈ ["FusedBatchNormGrad"; "FusedBatchNormGradV2"; "FusedBatchNormGradV3"] ->
    a !! "data_format" ≫= attr_s = Some "NHWC" -> 0 <= p ->
    F nm op a (transposed dst_to_src x :: transposed dst_to_src y :: rest) p =
      let r := F nm op (<["data_format" := make_s "NCHW"]> a) (x :: y :: rest) p in
      if p =? 0 then transposed dst_to_src r else r
}.

Section meaning.
  Context {PM : ProtoMessages} {V : Type} (F : op_semantics AttrValue V) (transposed : list Z -> V -> V) (HF : layout_semantics F transposed).
  Context (g : MutableGraphView AttrValue) (Hg : view_ok g) (Hl : layout_graph (graph g)) (preserve : gset string).
  #[local] Notation converted := (converted g preserve).
  #[local] Notation bypassed := (bypassed g preserve).
  #[local] Notation redirected := (redirected g preserve).

(** No converted node reads what a transpose that is bypassed gives. *)
Definition no_chain : Prop := forall i t0 t1 t v w, converted i = Some (t0, t1) -> t = t0 \/ t = t1 ->
  vget (nodes_ g) t = Some v -> vget (regular_fanins_ v) 0 = Some w -> bypassed (fanout_node_index w) = None.

(** The tensors whose layout changes: the first output of a converted node, and
    the outputs of the transposes that are left without a use. *)
Definition relaid (t : TensorId) : Prop :=
  (exists i, is_Some (converted i) /\ t = mk_TensorId (name_of g i) 0) \/
  (exists j, is_Some (bypassed j) /\ TensorName.node t = name_of g j).

Context (Hnc : no_chain) (val : TensorId -> V) (Hval : evaluates F (graph g) val).

(** The values in the optimized graph. *)
Definition new_value (t : TensorId) : V :=
  match node_index_by_name_ g !! TensorName.node t with
  | None => val t
  | Some j =>
      if bool_decide (is_Some (converted j)) && (TensorName.index t =? 0) then transposed src_to_dst (val t)
      else match bypassed j, vget (graph g) j, vget (nodes_ g) j with
           | Some i, Some d, Some v =>
               F (name d) (op d) (attr d)
                 [transposed src_to_dst (val (mk_TensorId (name_of g i) 0));
                  default (val t) (val ∘ fanin_id g <$> vget (regular_fanins_ v) 1)] (TensorName.index t)
           | _, _, _ => val t
           end
  end.

Lemma name_lookup j d : vget (graph g) j = Some d -> node_index_by_name_ g !! name d = Some j.
Proof. intros Hd. apply (ok_names _ (ok_names_ok _ _ _ Hg)). eauto. Qed.

Lemma new_value_converted i d : is_Some (converted i) -> vget (graph g) i = Some d ->
  new_value (mk_TensorId (name d) 0) = transposed src_to_dst (val (mk_TensorId (name d) 0)).
Proof. intros Hc Hd. unfold new_value. cbn [TensorName.node TensorName.index]. by rewrite (name_lookup i d Hd), bool_decide_true. Qed.

(** The value of a tensor whose layout stays. *)
Lemma new_value_other j d p : vget (graph g) j = Some d -> (is_Some (converted j) -> p <> 0) -> bypassed j = None ->
  new_value (mk_TensorId (name d) p) = val (mk_TensorId (name d) p).
Proof.
  intros Hd Hc Hb. unfold new_value. cbn [TensorName.node TensorName.index]. rewrite (name_lookup j d Hd), Hb.
  destruct (bool_decide _ && _) eqn:E; [|done]. apply andb_true_iff in E as [E1%bool_decide_eq_true E2%Z.eqb_eq]. by destruct (Hc E1).
Qed.

(** The value of a node in the graph as it was. *)
Lemma node_value j d v p : vget (graph g) j = Some d -> vget (nodes_ g) j = Some v -> 0 <= p ->
  val (mk_TensorId (name d) p) = F (name d) (op d) (attr d) (map (fun w => val (fanin_id g w)) (regular_fanins_ v)) p.
Proof.
  intros Hd Hv Hp. pose proof (Hval d (proj2 (elem_of_vget _ _) (ex_intro _ j Hd)) (regular_ids d) p (fun k => eq_refl) Hp) as H.
  cbn in H. rewrite H, (proj1 (split_ids g j d v Hg Hd Hv)), map_map. done.
Qed.

(** A layout transpose gives the transposed value of what it reads. *)
Lemma transpose_value j d perm : vget (graph g) j = Some d -> layout_transpose g j perm ->
  val (mk_TensorId (name d) 0) = transposed perm (val (source g j)).
Proof.
  intros Hd (d' & v & x0 & x1 & dp & Hd' & Hv & Ho & Hf & Hdp & Hop & Hperm). assert (d' = d) as -> by congruence.
  rewrite (node_value j d v 0 Hd Hv), Ho, Hf by lia. cbn [map].
  assert (x1 ∈ regular_fanins_ v) as Hx1 by (rewrite Hf; set_solver). destruct (fanin_node g j v x1 Hg Hv Hx1) as (vp & dp' & Hvp & Hdp' & _ & E).
  assert (dp' = dp) as -> by congruence. rewrite (single_port g Hg Hl j v x1 dp Hv Hx1 Hdp (or_intror Hop)) in E.
  rewrite E, (node_value _ dp vp 0 Hdp Hvp), Hop by lia.
  assert (regular_fanins_ vp = []) as ->.
  { pose proof (lg_const _ Hl dp (proj2 (elem_of_vget _ _) (ex_intro _ _ Hdp)) Hop) as Hn. rewrite (proj1 (split_ids g _ dp vp Hg Hdp Hvp)) in Hn.
    by destruct (regular_fanins_ vp). }
  cbn [map]. rewrite (ls_transpose _ _ HF _ _ _ _ perm _ Hperm). by rewrite (source_eq g j v x0 [x1] Hv Hf).
Qed.

Lemma converted_not_bypassed i : is_Some (converted i) -> bypassed i = None.
Proof.
  intros [[t0 t1] Hc]. destruct (bypassed i) as [k|] eqn:Hb; [|done]. exfalso.
  destruct (converted_convertible g Hg Hl _ _ _ _ Hc) as (d & v & w0 & w1 & Hcv & _).
  destruct (bypassed_transpose g Hg Hl _ _ _ Hb) as (d' & _ & _ & _ & _ & Hd' & _ & Ho & _).
  assert (d' = d) as -> by (pose proof (cv_def _ _ _ _ _ _ _ _ Hcv); congruence). by destruct (batch_norm_no_transpose d (cv_op _ _ _ _ _ _ _ _ Hcv)).
Qed.

(** Who reads the first output of a converted node. *)
Lemma reads_converted j v w : vget (nodes_ g) j = Some v -> w ∈ regular_fanins_ v -> is_Some (converted (fanout_node_index w)) -> fanout_port_index w = 0 ->
  bypassed j = Some (fanout_node_index w).
Proof.
  intros Hv [k Hw]%elem_of_vget [[t0 t1] Hc] Hp. destruct (converted_convertible g Hg Hl _ _ _ _ Hc) as (d & vi & w0 & w1 & Hcv & _).
  destruct (fanout_of_fanin g j v k w Hg Hv Hw Hp) as (v' & fo & Hv' & Hfo & <- & _).
  assert (v' = vi) as -> by (pose proof (cv_node _ _ _ _ _ _ _ _ Hcv); congruence). by eapply (output_bypassed g Hg).
Qed.

(** What a node reads that is no bypassed transpose has the value it had. *)
Lemma new_value_redirected j v w : vget (nodes_ g) j = Some v -> w ∈ regular_fanins_ v -> bypassed j = None ->
  new_value (redirected w) = val (fanin_id g w).
Proof.
  intros Hv Hw Hj. destruct (fanin_node g j v w Hg Hv Hw) as (u & d & Hu & Hd & _ & E). unfold TransposeTheorems.redirected.
  destruct (bypassed (fanout_node_index w)) as [i|] eqn:Hb.
  - pose proof (bypassed_transpose g Hg Hl _ _ _ Hb) as Ht. pose proof Ht as (d' & u' & x0 & x1 & _ & Hd' & Hu' & Ho & Hf & _).
    assert (d' = d) as -> by congruence. assert (u' = u) as -> by congruence.
    rewrite (single_port g Hg Hl j v w d Hv Hw Hd (or_introl Ho)) in E |- *. cbn [Z.eqb].
    destruct (bypassed_output g Hg Hl _ _ _ Hb) as (t0 & t1 & di & vi & w0 & w1 & fo & Hc & Hcv & _ & Hfo & Hfn).
    pose proof (cv_def _ _ _ _ _ _ _ _ Hcv) as Hdi. rewrite (name_of_def g i di Hdi), (new_value_converted i di) by eauto.
    rewrite E, (transpose_value _ d src_to_dst Hd Ht), (source_eq g _ u x0 [x1] Hu Hf).
    assert (fanout_node_index x0 = i /\ fanout_port_index x0 = 0) as [E0 P0].
    { unfold TransposeTheorems.bypassed in Hb. rewrite Hu in Hb. cbn [mbind option_bind] in Hb. rewrite Hf in Hb. change (vget [x0; x1] 0) with (Some x0) in Hb.
      cbn [mbind option_bind] in Hb. destruct (Z.eqb_spec (fanout_port_index x0) 0); [|done]. case_bool_decide; [|done]. cbn in Hb. by injection Hb. }
    unfold fanin_id. by rewrite E0, P0, (name_of_def g i di Hdi).
  - assert ((if fanout_port_index w =? 0 then fanin_id g w else fanin_id g w) = fanin_id g w) as -> by (by destruct (_ =? 0)).
    rewrite E. apply (new_value_other (fanout_node_index w)); [done| |done]. intros Hc Hp. rewrite (reads_converted j v w Hv Hw Hc Hp) in Hj. done.
Qed.

(** So does what a transpose of an input of a converted node reads. *)
Lemma new_value_source i t0 t1 t : converted i = Some (t0, t1) -> t = t0 \/ t = t1 -> layout_transpose g t dst_to_src ->
  new_value (source g t) = val (source g t).
Proof.
  intros Hc Ht Hlt. pose proof Hlt as (d & v & x0 & x1 & _ & Hd & Hv & _ & Hf & _). assert (x0 ∈ regular_fanins_ v) as Hx0 by (rewrite Hf; left).
  assert (vget (regular_fanins_ v) 0 = Some x0) as Hw by (by rewrite Hf). rewrite (source_eq g t v x0 _ Hv Hf).
  destruct (fanin_node g t v x0 Hg Hv Hx0) as (u & du & Hu & Hdu & _ & E). rewrite E. apply (new_value_other (fanout_node_index x0)); [done| |].
  - intros Hcx Hp. pose proof (bypassed_transpose g Hg Hl _ _ _ (reads_converted t v x0 Hv Hx0 Hcx Hp)) as Ht'.
    by pose proof (layout_transpose_unique g _ _ _ Hlt Ht').
  - by apply (Hnc i t0 t1 t v x0).
Qed.

Lemma converted_value i t0 t1 d v w0 w1 p : convertible g i t0 t1 d v w0 w1 -> 0 <= p ->
  exists rest, regular_fanins_ v = w0 :: w1 :: rest /\
  let r := F (name d) (op d) (<["data_format" := make_s "NCHW"]> (attr d)) (val (source g t0) :: val (source g t1) :: map (fun w => val (fanin_id g w)) rest) p in
  val (mk_TensorId (name d) p) = if p =? 0 then transposed dst_to_src r else r.
Proof.
  intros Hc Hp. pose proof Hc as [Hd Hv Ho Hfm H0 H1 E0 E1 T0 T1 _]. destruct (regular_fanins_ v) as [|y0 [|y1 rest]] eqn:Hf; [done|done|].
  injection H0 as ->. injection H1 as ->. exists rest. split; [done|]. cbv zeta.
  rewrite (node_value i d v p Hd Hv Hp), Hf. cbn [map].
  assert (forall w t, w ∈ regular_fanins_ v -> t = fanout_node_index w -> layout_transpose g t dst_to_src -> val (fanin_id g w) = transposed dst_to_src (val (source g t))) as Hv'.
  { intros w t Hw -> T. destruct (fanin_node g i v w Hg Hv Hw) as (u & du & _ & Hdu & _ & E). pose proof T as (du' & _ & _ & _ & _ & Hdu' & _ & Hop & _).
    assert (du' = du) as -> by congruence. rewrite E, (single_port g Hg Hl i v w du Hv Hw Hdu (or_introl Hop)). by apply (transpose_value (fanout_node_index w)). }
  rewrite (Hv' w0 t0), (Hv' w1 t1) by (done || (rewrite Hf; set_solver)). apply (ls_batch_norm _ _ HF); [|done|done].
  unfold IsFusedBatchNormGrad, has_op in Ho. apply existsb_exists in Ho as (x & Hx & E%String.eqb_eq). rewrite E. by apply list_elem_of_In.
Qed.

Lemma regular_inputs_rewritten j d v : regular_inputs (rewritten_content g preserve j d v)
  (imap (fun n w => rewritten_fanin g preserve j (Z.of_nat n) w) (regular_fanins_ v)).
Proof.
  intros k. cbn. unfold vget. destruct (Z.ltb_spec k 0); [done|]. rewrite list_lookup_imap, Z2Nat.id by lia. done.
Qed.

Lemma map_redirected j v l : vget (nodes_ g) j = Some v -> bypassed j = None -> (forall w, w ∈ l -> w ∈ regular_fanins_ v) ->
  map new_value (map redirected l) = map (fun w => val (fanin_id g w)) l.
Proof.
  intros Hv Hj Hin. rewrite map_map. apply map_ext_in. intros w Hw%list_elem_of_In. apply (new_value_redirected j v); auto.
Qed.

Lemma rewritten_converted j t0 t1 w0 w1 rest : converted j = Some (t0, t1) ->
  imap (fun n w => rewritten_fanin g preserve j (Z.of_nat n) w) (w0 :: w1 :: rest) = source g t0 :: source g t1 :: map redirected rest.
Proof.
  intros Hc. cbn [imap]. unfold compose. f_equal; [unfold rewritten_fanin; by rewrite Hc|]. f_equal; [unfold rewritten_fanin; by rewrite Hc|].
  apply list_eq. intros n. rewrite list_lookup_imap, list_lookup_fmap. destruct (rest !! n) as [w|]; [|done]. cbn [fmap option_fmap option_map]. f_equal.
  unfold rewritten_fanin. rewrite Hc. destruct (Z.eqb_spec (Z.of_nat (S (S n))) 0); [lia|]. destruct (Z.eqb_spec (Z.of_nat (S (S n))) 1); [lia|]. done.
Qed.

Lemma rewritten_others j l : converted j = None -> imap (fun n w => rewritten_fanin g preserve j (Z.of_nat n) w) l = map redirected l.
Proof.
  intros Hc. apply list_eq. intros n. rewrite list_lookup_imap, list_lookup_fmap. destruct (l !! n) as [w|]; [|done]. cbn. f_equal.
  unfold rewritten_fanin. by rewrite Hc.
Qed.

(** A transpose that is left without a use computes on the new layout. *)
Lemma bypassed_computes j i d v p : vget (graph g) j = Some d -> vget (nodes_ g) j = Some v -> converted j = None -> bypassed j = Some i ->
  new_value (mk_TensorId (name d) p) = F (name d) (op d) (attr d) (map new_value (map redirected (regular_fanins_ v))) p.
Proof.
  intros Hd Hv Hc Hb. pose proof (bypassed_transpose g Hg Hl _ _ _ Hb) as (d' & v' & x0 & x1 & dp & Hd' & Hv' & _ & Hf & Hdp & Hop & _).
  assert (d' = d) as -> by congruence. assert (v' = v) as -> by congruence.
  assert (fanout_port_index x0 = 0 /\ is_Some (converted (fanout_node_index x0)) /\ fanout_node_index x0 = i) as (P0 & Hci & E0).
  { unfold TransposeTheorems.bypassed in Hb. rewrite Hv in Hb. cbn [mbind option_bind] in Hb. rewrite Hf in Hb. change (vget [x0; x1] 0) with (Some x0) in Hb.
    cbn [mbind option_bind] in Hb. destruct (Z.eqb_spec (fanout_port_index x0) 0); [|done]. case_bool_decide; [|done]. cbn in Hb. by injection Hb. }
  assert (x0 ∈ regular_fanins_ v /\ x1 ∈ regular_fanins_ v) as [Hx0 Hx1] by (rewrite Hf; set_solver).
  destruct (fanin_node g j v x0 Hg Hv Hx0) as (u0 & d0 & _ & Hd0 & _ & F0), (fanin_node g j v x1 Hg Hv Hx1) as (u1 & d1 & _ & Hd1 & _ & F1).
  assert (d1 = dp) as -> by congruence. rewrite E0 in Hci, Hd0. rewrite P0 in F0. rewrite Hf. cbn [map].
  assert (bypassed (fanout_node_index x1) = None) as Hb1.
  { destruct (bypassed (fanout_node_index x1)) eqn:Hb1; [|done]. destruct (bypassed_transpose g Hg Hl _ _ _ Hb1) as (d2 & _ & _ & _ & _ & Hd2 & _ & Ho2 & _). congruence. }
  assert (redirected x0 = mk_TensorId (name d0) 0 /\ redirected x1 = fanin_id g x1) as [-> ->].
  { unfold TransposeTheorems.redirected. rewrite P0, E0, (converted_not_bypassed i Hci), F0, Hb1. split; [done|]. by destruct (_ =? 0). }
  rewrite (new_value_converted i d0 Hci Hd0). assert (new_value (fanin_id g x1) = val (fanin_id g x1)) as ->.
  { rewrite F1. apply (new_value_other (fanout_node_index x1)); [done| |done]. intros [[t0 t1] Hc1].
    destruct (converted_convertible g Hg Hl _ _ _ _ Hc1) as (d2 & v2 & w0 & w1 & Hcv & _). assert (d2 = dp) as -> by (pose proof (cv_def _ _ _ _ _ _ _ _ Hcv); congruence).
    by destruct (batch_norm_no_transpose dp (cv_op _ _ _ _ _ _ _ _ Hcv)). }
  unfold new_value. cbn [TensorName.node TensorName.index]. rewrite (name_lookup j d Hd), Hc, bool_decide_false, Hb, Hd, Hv by (by intros [? ?]). cbn [andb].
  rewrite (name_of_def g i d0 Hd0), Hf. done.
Qed.

Lemma rewritten_computes j d v : vget (graph g) j = Some d -> vget (nodes_ g) j = Some v -> computes F new_value (rewritten_content g preserve j d v).
Proof.
  intros Hd Hv l p Hin Hp. rewrite <- (regular_inputs_unique _ _ _ (regular_inputs_rewritten j d v) Hin). clear l Hin. cbn [rewritten_content c_name c_op c_attr].
  destruct (converted j) as [[t0 t1]|] eqn:Hc.
  - rewrite bool_decide_true by eauto. destruct (converted_convertible g Hg Hl _ _ _ _ Hc) as (d' & v' & w0 & w1 & Hcv & _).
    assert (d' = d) as -> by (pose proof (cv_def _ _ _ _ _ _ _ _ Hcv); congruence). assert (v' = v) as -> by (pose proof (cv_node _ _ _ _ _ _ _ _ Hcv); congruence).
    destruct (converted_value j t0 t1 d v w0 w1 p Hcv Hp) as (rest & Hf & Hvp). rewrite Hf, (rewritten_converted j t0 t1 w0 w1 rest Hc). cbn [map].
    assert (is_Some (converted j)) as Hcs by eauto. pose proof (converted_not_bypassed j Hcs) as Hb.
    rewrite (new_value_source j t0 t1 t0), (new_value_source j t0 t1 t1) by (try done; try tauto; apply Hcv).
    rewrite (map_redirected j v rest Hv Hb) by (intros w Hw; rewrite Hf; set_solver).
    destruct (Z.eqb_spec p 0) as [->|Hp0]; [rewrite (new_value_converted j d Hcs Hd), Hvp; apply (ls_inverse _ _ HF)|].
    by rewrite (new_value_other j d p Hd (fun _ => Hp0) Hb), Hvp.
  - rewrite bool_decide_false by (by intros [? ?]).
    rewrite (rewritten_others j _ Hc). destruct (bypassed j) as [i|] eqn:Hb.
    + by eapply bypassed_computes.
    + rewrite (map_redirected j v _ Hv Hb) by done. rewrite (new_value_other j d p Hd) by (done || (rewrite Hc; by intros [? ?])). by apply (node_value j).
Qed.

Lemma new_value_same t : ~ relaid t -> new_value t = val t.
Proof.
  intros Hn. destruct t as [nm p]. destruct (node_index_by_name_ g !! nm) as [j|] eqn:E; [|unfold new_value; cbn [TensorName.node]; by rewrite E].
  apply (ok_names _ (ok_names_ok _ _ _ Hg)) in E as (d & Hd & <-). apply (new_value_other j); [done| |].
  - intros Hc ->. apply Hn. left. exists j. by rewrite (name_of_def g j d Hd).
  - destruct (bypassed j) as [i|] eqn:Hb; [|done]. exfalso. apply Hn. right. exists j. rewrite Hb, (name_of_def g j d Hd). eauto.
Qed.
End meaning.

(** C17: On the graphs named here, the transpose remover converts what it decides
    to convert, touches nothing else, and keeps the meaning of the graph.  The
    conditions for the first part: the view accepts the graph and its names are
    valid ([optimizer_input]); transposes have two inputs, they and constants
    one output, constants no inputs and permutations that can be read
    ([layout_graph]); no node reads itself through a transpose ([no_feedback]);
    and of the transposes that read the first output of a candidate either all
    are to be preserved or none ([preserved_together]: without it the edits of
    the transposes before the preserved one stay, transpose_remover.cc:216,
    example [preserved_transpose_too_late]).  Then [TransposeRemover::Optimize]
    returns OK, and the graph it gives has exactly these contents: a converted
    FusedBatchNormGrad reads what the transposes of its first two inputs read
    and has the data format NCHW; what read a transpose of its first output
    reads that output; all else is as it was.

    The second part assumes of the ops that transposing from NCHW to NHWC and
    back is the identity and that the gradient in NHWC of transposed tensors is
    the transposed gradient in NCHW ([layout_semantics]), and of the graph that
    no converted node reads the result of another through two transposes
    ([no_chain]: otherwise it is transposed twice, transpose_remover.cc:247,
    example [chained_gradients]).  Then an evaluation of the graph becomes one
    of the optimized graph when only the first outputs of the converted nodes
    and the transposes that lose their uses get other values ([relaid]; a first
    output that is itself to be preserved is among them, example
    [preserved_gradient_changes_layout]). *)
Theorem TransposeRemover_keeps_values {PM : ProtoMessages} {GA : GrapplerApi} {HO : HashOrder} {NA : NodeAllocation} {V}
    (F : op_semantics AttrValue V) transposed item g preserve :
  optimizer_input item g -> NodesToPreserve item = Ok preserve -> layout_graph (item_graph item) -> no_feedback (item_graph item) ->
  preserved_together g preserve ->
  exists l, TransposeRemover.Optimize item = Ok (Status_OK, l) /\ contents_of l (rewritten g preserve) /\
    (layout_semantics F transposed -> no_chain g preserve -> forall val, evaluates F (item_graph item) val ->
     exists val', evaluates F l val' /\ forall t, ~ relaid g preserve t -> val' t = val t).
Proof.
  intros Hoi Hp Hl Hnf Ht. destruct (Optimize_contents item g preserve Hoi Hp Hl Hnf Ht) as (l & Hr & Hc).
  destruct Hoi as [Ha Hpo Hna Hv]. destruct (constructed_idle _ g Ha Hpo Hna Hv) as [Hi Hf]. pose proof (iv_view _ Hi) as Hg.
  exists l. split; [done|]. split; [done|]. intros HF Hnc val Hval. assert (layout_graph (graph g)) as Hlg by (by eapply layout_graph_deduplicated).
  assert (evaluates F (graph g) val) as Hvg.
  { apply (evaluates_contents F _ _ _ (constructed_contents _ _ Hf)). intros c (d & Hd & ->). by apply Hval. }
  exists (new_value F transposed g preserve val). split.
  - apply (evaluates_contents F _ _ _ Hc). intros c (j & d & v & Hd & Hvj & ->). by apply rewritten_computes.
  - intros t. by apply new_value_same.
Qed.

(** ** Instances

    A gradient [bn] between transposes, on the first GPU. *)

Definition gpu : string := "/job:localhost/replica:0/task:0/device:GPU:0".

Definition gradient_nodes : list (NodeDef AttrValue) := [
  example_node 1 "y" "Placeholder" "" [] [];
  example_node 2 "x" "Placeholder" "" [] [];
  example_node 3 "p" "Const" "" [] [("value", ints dst_to_src)];
  example_node 4 "q" "Const" "" [] [("value", ints src_to_dst)];
  example_node 5 "ty" "Transpose" gpu ["y"; "p"] [];
  example_node 6 "tx" "Transpose" gpu ["x"; "p"] [];
  example_node 7 "bn" "FusedBatchNormGradV3" gpu ["ty"; "tx"; "x"] [("data_format", ValueS "NHWC")];
  example_node 8 "to" "Transpose" gpu ["bn"; "q"] [];
  example_node 9 "dx" "Identity" gpu ["to"] [];
  example_node 10 "dscale" "Identity" gpu ["bn:1"; "^to"] [] ].

Definition gradient_item (preserve : list string) (l : list (NodeDef AttrValue)) : GrapplerItem :=
  mk_GrapplerItem (mk_example_item preserve (fun _ => [])) true l.

(** The name, op and inputs of the nodes that [Optimize] gives. *)
Definition optimized (preserve : list string) (l : list (NodeDef AttrValue)) : option (list (string * list string * option string)) :=
  match TransposeRemover.Optimize (HO := elements_order) (NA := GraphMutationTheorems.next_address) (gradient_item preserve l) with
  | Ok (st, l) => if status_ok st then Some (map (fun d => (name d, input d, attr d !! "data_format" ≫= attr_s)) l) else None
  | Fault _ => None
  end.

Example gradient_optimized : optimized ["dx"; "dscale"] gradient_nodes = Some [
  ("y", [], None); ("x", [], None); ("p", [], None); ("q", [], None); ("ty", ["y"; "p"], None); ("tx", ["x"; "p"], None);
  ("bn", ["y"; "x"; "x"], Some "NCHW"); ("to", ["bn"; "q"], None); ("dx", ["bn"], None); ("dscale", ["bn:1"; "^to"], None)].
Proof. vm_compute. reflexivity. Qed.

(** The first output of [bn] is to be kept for the host, which then gets it in the
    other layout: only the transposes of the output are looked up. *)
Example preserved_gradient_changes_layout : optimized ["bn"] gradient_nodes = optimized [] gradient_nodes.
Proof. vm_compute. reflexivity. Qed.

(** A second transpose of the output is to be kept, and [bn] is not converted.  But
    what read the first one has been connected to [bn] already, and now gets its
    result in NHWC. *)
Example preserved_transpose_too_late :
  optimized ["to2"] (gradient_nodes ++ [example_node 11 "to2" "Transpose" gpu ["bn"; "q"] []]) = Some [
  ("y", [], None); ("x", [], None); ("p", [], None); ("q", [], None); ("ty", ["y"; "p"], None); ("tx", ["x"; "p"], None);
  ("bn", ["ty"; "tx"; "x"], Some "NHWC"); ("to", ["bn"; "q"], None); ("dx", ["bn"], None); ("dscale", ["bn:1"; "^to"], None);
  ("to2", ["bn"; "q"], None)].
Proof. vm_compute. reflexivity. Qed.

(** The result of one gradient goes to another through two transposes.  Both are
    converted, and [bn2] reads the transpose [to] of a result that already is in
    NCHW. *)
Definition chained_nodes : list (NodeDef AttrValue) :=
  take 8 gradient_nodes ++ [
    example_node 11 "ti" "Transpose" gpu ["to"; "p"] [];
    example_node 12 "bn2" "FusedBatchNormGradV3" gpu ["ti"; "tx"; "x"] [("data_format", ValueS "NHWC")];
    example_node 13 "to2" "Transpose" gpu ["bn2"; "q"] [] ].

Example chained_gradients : optimized [] chained_nodes = Some [
  ("y", [], None); ("x", [], None); ("p", [], None); ("q", [], None); ("ty", ["y"; "p"], None); ("tx", ["x"; "p"], None);
  ("bn", ["y"; "x"; "x"], Some "NCHW"); ("to", ["bn"; "q"], None); ("ti", ["bn"; "p"], None);
  ("bn2", ["to"; "x"; "x"], Some "NCHW"); ("to2", ["bn2"; "q"], None)].
Proof. vm_compute. reflexivity. Qed.

(** *** A semantics for the example

    A value is a number, a layout transpose adds or subtracts one. *)

Definition perm_shift (perm : list Z) : Z := if bool_decide (perm = dst_to_src) then 1 else if bool_decide (perm = src_to_dst) then -1 else 0.
Definition shifted (perm : list Z) (x : Z) : Z := x + perm_shift perm.
Definition holds_perm (a : gmap string AttrValue) (perm : list Z) : bool :=
  match a !! "value" ≫= attr_tensor with
  | Some t => match is_perm_tensor t perm with Ok b => b | Fault _ => false end
  | None => false
  end.

Definition example_ops : op_semantics AttrValue Z := fun nm op a ins p =>
  if (op =? "Const")%string then (if holds_perm a dst_to_src then 1 else if holds_perm a src_to_dst then -1 else 0)
  else match ins with
       | [] => Z.of_nat (String.length nm)
       | [x] => x
       | x :: y :: _ => if (op =? "Transpose")%string then x + y else if p =? 0 then 2 * x - y else x - y
       end.

Lemma holds_perm_spec a perm : holds_perm a perm = true <-> const_perm a perm.
Proof.
  unfold holds_perm, const_perm. destruct (a !! "value" ≫= attr_tensor) as [t|].
  - split; [destruct (is_perm_tensor t perm) as [[]|] eqn:E; [eauto|done..]|]. intros (t' & [= <-] & ->). done.
  - split; [done|]. by intros (? & ? & _).
Qed.

Lemma perm_shifts : perm_shift dst_to_src = 1 /\ perm_shift src_to_dst = -1.
Proof. split; vm_compute; reflexivity. Qed.

Lemma example_layout : layout_semantics example_ops shifted.
Proof.
  split.
  - intros nm nm' a a' perm x Hp. unfold example_ops, shifted, perm_shift. cbn. f_equal.
    destruct (holds_perm a' dst_to_src) eqn:E1.
    + apply holds_perm_spec in E1. by rewrite (const_perm_unique _ _ _ Hp E1), bool_decide_true.
    + rewrite bool_decide_false by (intros ->; apply holds_perm_spec in Hp; congruence). destruct (holds_perm a' src_to_dst) eqn:E2.
      * apply holds_perm_spec in E2. by rewrite (const_perm_unique _ _ _ Hp E2), bool_decide_true.
      * by rewrite bool_decide_false by (intros ->; apply holds_perm_spec in Hp; congruence).
  - intros x. unfold shifted. destruct perm_shifts as [-> ->]. lia.
  - intros nm op a x y rest p Hop _ _. assert (op <> "Const" /\ op <> "Transpose") as [H1 H2].
    { rewrite !elem_of_cons, elem_of_nil in Hop. naive_solver. }
    unfold example_ops, shifted. destruct perm_shifts as [-> _]. apply String.eqb_neq in H1 as ->. apply String.eqb_neq in H2 as ->. destruct (p =? 0); lia.
Qed.

(** A permutation of four elements can be read. *)
Lemma same_perm_read T t p : forall i, (forall j, i <= j < i + size_ p -> exists x, GetTensorElement T t j = Ok x) -> exists b, same_perm T t i p = Ok b.
Proof.
  induction p as [|x p IH]; intros i Hr; cbn [same_perm]; [by exists true|]. destruct (Hr i) as [y ->]; [unfold size_; cbn; lia|]. cbn [mbind result_bind].
  destruct (_ =? _); [|by exists false]. apply IH. intros j Hj. apply Hr. unfold size_ in *. cbn. lia.
Qed.

Lemma ints_read l p : size_ l = 4 -> exists b, is_perm_tensor (mk_tensor (Some [size_ l]) DT_INT32 l) p = Ok b.
Proof.
  intros Hl. rewrite Hl. unfold is_perm_tensor. cbn [tensor_shape et_shape example_protos].
  assert (GetNumElements (mk_tensor (Some [4]) DT_INT32 l) = Ok 4) as En by reflexivity. rewrite En. cbn [mbind result_bind]. change (u64 4) with 4.
  destruct (Z.eqb_spec 4 (size_ p)) as [Ep|]; [|by exists false]. cbn [negb dtype et_type example_protos].
  apply same_perm_read. intros j Hj. unfold GetTensorElement, tensor_value, ASSERT. rewrite En. cbn [mbind result_bind].
  rewrite (proj2 (Z.ltb_lt j 4)) by lia. cbn [mbind result_bind tensor_content example_protos]. rewrite bool_decide_false by (by intros H').
  cbn [dtype et_type example_protos int32_element et_dtype Grappler.et_val]. rewrite bool_decide_true by done. cbn [mbind result_bind version_number].
  cbn [int_val example_protos et_type et_ints]. rewrite bool_decide_true by done. rewrite Hl. cbn [Z.eqb andb Pos.eqb mbind result_bind].
  destruct (vget_ex l j) as [x Hx]; [lia|]. exists x. by apply at_Some.
Qed.

(** *** The theorem on the example *)

(** The conditions on a graph that can be computed. *)
Definition layout_check {PM : ProtoMessages} (l : list (NodeDef AttrValue)) : bool :=
  forallb (fun d => (negb (op d =? "Transpose")%string || (length (regular_ids d) =? 2)%nat) &&
    (negb (op d =? "Const")%string || (length (regular_ids d) =? 0)%nat) &&
    forallb (fun t => forallb (fun d' => negb (name d' =? TensorName.node t)%string ||
      (negb ((op d' =? "Transpose")%string || (op d' =? "Const")%string) || (TensorName.index t =? 0)) &&
      (negb (op d' =? "Transpose")%string || forallb (fun t' => negb (TensorName.node t' =? name d)%string) (regular_ids d'))) l) (regular_ids d)) l.

Lemma layout_check_spec {PM : ProtoMessages} l : layout_check l = true ->
  (forall d t, d ∈ l -> op d = "Const" -> attr d !! "value" ≫= attr_tensor = Some t -> forall p, exists b, is_perm_tensor t p = Ok b) ->
  layout_graph l /\ no_feedback l.
Proof.
  unfold layout_check. rewrite forallb_forall. intros H Hp. setoid_rewrite <- list_elem_of_In in H.
  assert (forall d, d ∈ l -> (op d = "Transpose" -> length (regular_ids d) = 2%nat) /\ (op d = "Const" -> regular_ids d = []) /\
    forall t d', t ∈ regular_ids d -> d' ∈ l -> name d' = TensorName.node t ->
      (op d' = "Transpose" \/ op d' = "Const" -> TensorName.index t = 0) /\ (op d' = "Transpose" -> forall t', t' ∈ regular_ids d' -> TensorName.node t' <> name d)) as Hd.
  { intros d Hd. specialize (H d Hd). rewrite !andb_true_iff in H. destruct H as [[H1 H2] H3]. split; [|split].
    - intros E. apply String.eqb_eq in E. rewrite E in H1. by apply Nat.eqb_eq.
    - intros E. apply String.eqb_eq in E. rewrite E in H2. apply Nat.eqb_eq in H2. by destruct (regular_ids d).
    - intros t d' Ht Hd' En. rewrite forallb_forall in H3. specialize (H3 t (proj1 (list_elem_of_In _ _) Ht)). rewrite forallb_forall in H3.
      specialize (H3 d' (proj1 (list_elem_of_In _ _) Hd')). apply String.eqb_eq in En. rewrite En in H3. cbn [negb orb] in H3.
      apply andb_true_iff in H3 as [H3 H4]. split.
      + intros E. apply Z.eqb_eq. destruct E as [E|E]; apply String.eqb_eq in E; rewrite E in H3; [done|]. by rewrite orb_true_r in H3.
      + intros E t' Ht'. apply String.eqb_eq in E. rewrite E in H4. cbn [negb orb] in H4. rewrite forallb_forall in H4.
        specialize (H4 t' (proj1 (list_elem_of_In _ _) Ht')). by apply negb_true_iff, String.eqb_neq in H4. }
  split; [split|].
  - intros d Hin. by apply Hd.
  - intros d d' t Hin Hin' Ht En. by apply (Hd d Hin).
  - intros d Hin. by apply Hd.
  - exact Hp.
  - intros d d' t t' Hin Hin' Ho Ht En Ht'. destruct (Hd d Hin) as (_ & _ & H'). by apply (H' t d').
Qed.

Definition gradient_view : MutableGraphView AttrValue :=
  match make_MutableGraphView gradient_nodes with Ok (_, g) => g | Fault _ => mk_GraphView [] [] ∅ empty_mutation end.

Definition kept : list string := ["dx"; "dscale"].

Lemma gradient_input : optimizer_input (gradient_item kept gradient_nodes) gradient_view.
Proof.
  split; cbn [item_graph gradient_item].
  - by_deciding.
  - repeat constructor; vm_compute; congruence.
  - apply (Forall_forall (fun d => valid_node_name (name d) = true)). by_deciding.
  - vm_compute. reflexivity.
Qed.

Lemma gradient_layout : layout_graph gradient_nodes /\ no_feedback gradient_nodes.
Proof.
  apply layout_check_spec; [vm_compute; reflexivity|]. intros d t Hd _ Ht p.
  assert (exists l, t = mk_tensor (Some [size_ l]) DT_INT32 l /\ size_ l = 4) as (l & -> & Hl); [|by apply ints_read].
  unfold gradient_nodes in Hd. repeat (apply elem_of_cons in Hd as [->|Hd]; [vm_compute in Ht; try done; injection Ht as <-; first [by exists dst_to_src | by exists src_to_dst]|]).
  by apply elem_of_nil in Hd.
Qed.

Lemma gradient_idle : view_ok gradient_view /\ layout_graph (graph gradient_view).
Proof.
  destruct gradient_input as [H1 H2 H3 H4]. destruct (constructed_idle _ _ H1 H2 H3 H4) as [Hi Hf]. split; [apply Hi|].
  eapply layout_graph_deduplicated; [exact Hf|]. apply gradient_layout.
Qed.

Lemma gradient_together : preserved_together gradient_view (list_to_set kept).
Proof.
  intros i v fo fo' Hc Hv Hfo Hfo' Hin. exfalso.
  assert (forallb (fun i => match can_convert gradient_view i src_to_dst dst_to_src, vget (nodes_ gradient_view) i with
     | Ok None, _ => true
     | _, Some v => forallb (fun fo => negb (bool_decide (name_of gradient_view (fanin_node_index fo) ∈ (list_to_set kept : gset string)))) (GetRegularFanout v 0)
     | _, _ => false end) (count_up 10) = true) as Hall by (vm_compute; reflexivity).
  rewrite forallb_forall in Hall. specialize (Hall i). rewrite Hv in Hall.
  assert (In i (count_up 10)) as Hi by (apply list_elem_of_In, elem_of_count_up; by apply vget_Some in Hv). specialize (Hall Hi).
  assert (forallb (fun fo => negb (bool_decide (name_of gradient_view (fanin_node_index fo) ∈ (list_to_set kept : gset string)))) (GetRegularFanout v 0) = true) as Hb.
  { destruct (can_convert gradient_view i src_to_dst dst_to_src) as [[?|]|]; done. }
  rewrite forallb_forall in Hb. specialize (Hb fo (proj1 (list_elem_of_In _ _) Hfo)). by rewrite bool_decide_true in Hb.
Qed.

Lemma gradient_no_chain : no_chain gradient_view (list_to_set kept).
Proof.
  intros i t0 t1 t v w Hc Ht Hv Hw. destruct gradient_idle as [Hg Hl]. pose proof (converted_range _ Hg Hl _ _ _ Hc) as Hi.
  assert (forallb (fun i => match converted gradient_view (list_to_set kept) i with
     | Some (t0, t1) => forallb (fun t => match (v ← vget (nodes_ gradient_view) t; vget (regular_fanins_ v) 0) with
         | Some w => bool_decide (bypassed gradient_view (list_to_set kept) (fanout_node_index w) = None) | None => true end) [t0; t1]
     | None => true end) (count_up 10) = true) as Hall by (vm_compute; reflexivity).
  rewrite forallb_forall in Hall. specialize (Hall i (proj1 (list_elem_of_In _ _) (proj2 (elem_of_count_up 10 i) Hi))). rewrite Hc in Hall.
  rewrite forallb_forall in Hall. specialize (Hall t ltac:(destruct Ht as [->| ->]; cbn; tauto)). rewrite Hv in Hall. cbn [mbind option_bind] in Hall.
  rewrite Hw in Hall. by apply bool_decide_eq_true in Hall.
Qed.

Definition gradient_values : TensorId -> Z := evaluation example_ops 0 6 gradient_nodes.

Lemma gradient_evaluates : evaluates example_ops gradient_nodes gradient_values.
Proof.
  apply evaluation_evaluates; [by_deciding|]. intros d t Hd Ht.
  assert (Forall (fun t => evaluation example_ops 0 5 gradient_nodes t = evaluation example_ops 0 6 gradient_nodes t) (concat (map regular_ids gradient_nodes))) as Hall by by_deciding.
  rewrite Forall_forall in Hall. apply Hall. apply elem_of_concat. exists (regular_ids d). split; [done|]. apply list_elem_of_fmap. eauto.
Qed.

Lemma gradient_not_relaid : ~ relaid gradient_view (list_to_set kept) (mk_TensorId "dx" 0).
Proof.
  destruct gradient_idle as [Hg Hl].
  assert (forallb (fun i => (negb (bool_decide (is_Some (converted gradient_view (list_to_set kept) i))) &&
    negb (bool_decide (is_Some (bypassed gradient_view (list_to_set kept) i)))) || negb (name_of gradient_view i =? "dx")%string) (count_up 10) = true) as Hall by (vm_compute; reflexivity).
  rewrite forallb_forall in Hall. assert (forall i, 0 <= i < 10 -> name_of gradient_view i = "dx" ->
    ~ is_Some (converted gradient_view (list_to_set kept) i) /\ ~ is_Some (bypassed gradient_view (list_to_set kept) i)) as H.
  { intros i Hi E. specialize (Hall i (proj1 (list_elem_of_In _ _) (proj2 (elem_of_count_up 10 i) Hi))). apply String.eqb_eq in E. rewrite E, orb_false_r in Hall.
    apply andb_true_iff in Hall as [H1%negb_true_iff%bool_decide_eq_false H2%negb_true_iff%bool_decide_eq_false]. done. }
  intros [(i & Hc & [= E])|(j & Hb & E)].
  - pose proof Hc as [p Hp]. pose proof (converted_range _ Hg Hl _ _ _ Hp) as Hi. by destruct (H i Hi (eq_sym E)).
  - pose proof Hb as [k Hk]. destruct (bypassed_transpose _ Hg Hl _ _ _ Hk) as (d & v & _ & _ & _ & _ & Hv & _). apply vget_Some in Hv. by destruct (H j Hv (eq_sym E)).
Qed.

Lemma TransposeRemover_keeps_values_witness :
  exists l val', TransposeRemover.Optimize (HO := elements_order) (gradient_item kept gradient_nodes) = Ok (Status_OK, l) /\
    map input l = [[]; []; []; []; ["y"; "p"]; ["x"; "p"]; ["y"; "x"; "x"]; ["bn"; "q"]; ["bn"]; ["bn:1"; "^to"]] /\
    evaluates example_ops l val' /\ val' (mk_TensorId "dx" 0) = 1.
Proof.
  destruct (TransposeRemover_keeps_values (HO := elements_order) example_ops shifted (gradient_item kept gradient_nodes) gradient_view (list_to_set kept))
    as (l & Hr & _ & H); [exact gradient_input|vm_compute; reflexivity|apply gradient_layout|apply gradient_layout|exact gradient_together|].
  destruct (H example_layout gradient_no_chain gradient_values gradient_evaluates) as (val' & He & Hs). exists l, val'. split; [exact Hr|].
  split; [|split; [exact He|]].
  - apply (f_equal (fun r => match r with Ok (_, l) => map input l | Fault _ => [] end)) in Hr. rewrite <- Hr. vm_compute. reflexivity.
  - rewrite (Hs _ gradient_not_relaid). vm_compute. reflexivity.
Defined.
