(* ===== verification/Remapper.v ===== *)
(** * Remapper: padding fused into convolutions

    optimizer/remapper.cc: the nodes are taken in reverse topological order; a
    Conv2D whose input is padded with zeros by constants is replaced by a Conv2D
    with explicit padding, each with a mutation of its own, and the Pad nodes are
    removed at the end.  The host infers shapes when the first candidate is met. *)

From Stdlib Require Import Ascii.
From S2P Require Import Prelude Vec TensorName GraphView TopoSort HashOrder GraphDiff GraphMutation GraphValidate GraphApply TensorFormat Grappler.
#[local] Open Scope string_scope.
#[local] Open Scope list_scope.
#[local] Open Scope Z_scope.

(** [attr().at(name)], which fails on an attribute that is missing *)
Definition attr_at {A} (d : NodeDef A) (attr_name : string) : result A := CHECK (bool_decide (is_Some (attr d !! attr_name)));; in_range (attr d !! attr_name).

(** [MutableNodeView::GetAttr] *)
Definition GetAttr {A} (d : NodeDef A) (attr_name : string) : option A := attr d !! attr_name.

(** [PadWithConv2D] *)
Record PadWithConv2D := mk_PadWithConv2D { pad : Z; conv_2d : Z; new_padding_values : list Z }.

(** [array[i] += x] for an array of [int32_t] and an [int64_t]. *)
Definition add_to (l : list Z) (i x : Z) : result (list Z) := y ← at_ l i; mret (vset l i (i32 (i64 (y + x)))).

Fixpoint add_all (l : list Z) (i : Z) (paddings : list Z) : result (list Z) :=
  match paddings with
  | [] => mret l
  | x :: paddings => l ← add_to l i x; add_all l (i + 1) paddings
  end.

Section remapper.
  Context {PM : ProtoMessages} {GA : GrapplerApi} {HO : HashOrder} {NA : NodeAllocation}.
  #[local] Notation G := (MutableGraphView AttrValue).
  Implicit Type g : G.

(** ** The context *)

(** [RemapperContext], without the item that is given to it. *)
Record RemapperContext := mk_RemapperContext {
  nodes_to_preserve : gset string;
  graph_properties : GraphProperties;
  graph_view : G;
  inferred_graph_properties : bool
}.

Definition InitializeRemapperContext (item : GrapplerItem) : result (Status * RemapperContext) :=
  nodes_to_preserve ← NodesToPreserve item;
  '(status, graph_view) ← make_MutableGraphView (item_graph item);
  mret (status, mk_RemapperContext nodes_to_preserve (make_GraphProperties item) graph_view false).

Definition IsInPreserveSet (ctx : RemapperContext) (node : NodeDef AttrValue) : bool := bool_decide (name node ∈ nodes_to_preserve ctx).

Definition HaveSameDataType (lhs rhs : NodeDef AttrValue) (type_attr : string) : bool :=
  let lhs_attr := GetDataTypeFromAttr lhs type_attr in
  let rhs_attr := GetDataTypeFromAttr rhs type_attr in
  bool_decide (lhs_attr <> DT_INVALID) && bool_decide (rhs_attr <> DT_INVALID) && bool_decide (lhs_attr = rhs_attr).

Definition IsSupportedActivation (node : NodeDef AttrValue) : bool := IsRelu node || IsRelu6 node || IsElu node || IsLeakyRelu node.

Definition HasControlFaninOrFanout (v : MutableNodeView) : bool := (0 <? NumControllingFanins v) || (0 <? NumControlledFanouts v).

Definition HasAtMostOneFanoutAtPort0 (v : MutableNodeView) : bool := size_ (GetRegularFanout v 0) <=? 1.

(** ** The pattern *)

(** [float_val == 0.0f] for the bits of a number of [width] bits: zero has either
    sign. *)
Definition is_zero (width bits : Z) : bool := bits mod 2 ^ (width - 1) =? 0.

(** Whether the value that a PadV2 pads with is zero, or is not there. *)
Definition zero_value (val_tensor : TensorProto) : result bool :=
  num_elements ← GetNumElements val_tensor;
  match dtype val_tensor with
  | DT_HALF => if num_elements =? 0 then mret true else float_val ← GetTensorElement half_element val_tensor 0; mret (is_zero 16 float_val)
  | DT_FLOAT => if num_elements =? 0 then mret true else float_val ← GetTensorElement float_element val_tensor 0; mret (is_zero 32 float_val)
  | _ => mret false
  end.

Definition tensor_attr (a : AttrValue) : TensorProto := default default_TensorProto (attr_tensor a).

Definition pads_with_zeros g (pad_props : list TensorProperties) (pad_node_def : NodeDef AttrValue) (v : MutableNodeView) : result bool :=
  if (op pad_node_def =? "PadV2")%string then
    if negb (size_ pad_props =? 3) then mret false else
    constant_values_node ← node_view g (GetRegularFanin v 2);
    constant_values_node_def ← node_of g constant_values_node;
    if negb (IsConstant constant_values_node_def) then mret false else
    match GetAttr constant_values_node_def "value" with
    | None => mret false
    | Some value_attr => zero_value (tensor_attr value_attr)
    end
  else mret (op pad_node_def =? "Pad")%string.

(** The shape of the paddings of a Pad is four pairs. *)
Definition four_pairs (pad_props : list TensorProperties) : bool :=
  match vget pad_props 1 ≫= properties_shape with
  | Some [rows; columns] => (rows =? 4) && (columns =? 2)
  | _ => false
  end.

Definition read_values (T : element_type) (val_tensor : TensorProto) : result (list Z) :=
  mapM (fun i => x ← GetTensorElement T val_tensor i; mret (i32 x)) (count_up 8).

Definition read_paddings (val_tensor : TensorProto) : result (option (list Z)) :=
  match dtype val_tensor with
  | DT_INT32 => l ← read_values int32_element val_tensor; mret (Some l)
  | DT_INT64 => l ← read_values int64_element val_tensor; mret (Some l)
  | _ => mret None
  end.

(** Both paddings of dimension [i] are zero. *)
Definition unpadded (l : list Z) (i : Z) : result bool :=
  before ← at_ l (i * 2);
  if negb (before =? 0) then mret false else
  after ← at_ l (i * 2 + 1);
  mret (after =? 0).

Definition padding_of (a : AttrValue) : option Padding :=
  match default "" (attr_s a) with
  | "VALID" => Some VALID
  | "EXPLICIT" => Some EXPLICIT
  | "SAME" => Some SAME
  | _ => None
  end.

Definition known_shape (shape : list Z) : bool := forallb (fun d => 0 <=? d) shape.

(** The shape of the filter, from the host or from the attribute of a
    Placeholder. *)
Definition filter_shape_of g (conv_props : list TensorProperties) (v : MutableNodeView) : result (option (list Z)) :=
  if negb (size_ conv_props =? 2) then mret None else
  match vget conv_props 1 ≫= properties_shape with
  | None => mret None
  | Some filter_shape =>
      if negb (size_ filter_shape =? 4) then mret None
      else if known_shape filter_shape then mret (Some filter_shape)
      else if NumRegularFanins v <? 2 then mret None
      else
        filter_node ← node_view g (GetRegularFanin v 1);
        filter_node_def ← node_of g filter_node;
        if negb (IsPlaceholder filter_node_def) then mret None else
        match attr filter_node_def !! "shape" with
        | None => mret None
        | Some a => let filter_shape := default [] (attr_shape a) in mret (if known_shape filter_shape then Some filter_shape else None)
        end
  end.

(** What SAME padding needs along one dimension, and the paddings with it. *)
Definition same_padding (l : list Z) (index filter_size dilation : Z) : result (list Z) :=
  let padding_needed := Z.max 0 (i64 (i64 (filter_size - 1) * dilation)) in
  let padding_before := Z.quot padding_needed 2 in
  let padding_after := i64 (padding_needed - padding_before) in
  l ← add_to l (index * 2) padding_before;
  add_to l (index * 2 + 1) padding_after.

(** Adds the padding of the convolution to [l]. *)
Definition conv_padding (ctx : RemapperContext) (padding_type : Padding) (conv_node_def : NodeDef AttrValue) (v : MutableNodeView)
    (h_index w_index : Z) (l : list Z) : result (option (list Z)) :=
  match padding_type with
  | VALID => mret (Some l)
  | EXPLICIT =>
      a ← attr_at conv_node_def "explicit_paddings";
      let paddings := default [] (attr_list_i a) in
      if negb (size_ paddings =? 8) then mret None else
      l ← add_all l 0 paddings;
      mret (Some l)
  | SAME =>
      shape ← filter_shape_of (graph_view ctx) (GetInputProperties (graph_properties ctx) (name conv_node_def)) v;
      match shape with
      | None => mret None
      | Some filter_shape =>
          a ← attr_at conv_node_def "dilations";
          let dilations := default [] (attr_list_i a) in
          if negb (size_ dilations =? 4) then mret None else
          dilation_h ← at_ dilations h_index;
          dilation_w ← at_ dilations w_index;
          filter_h ← at_ filter_shape 0;
          filter_w ← at_ filter_shape 1;
          l ← same_padding l h_index filter_h dilation_h;
          l ← same_padding l w_index filter_w dilation_w;
          mret (Some l)
      end
  end.

(** The padding that the Pad node with definition [pad_node_def] and the
    convolution add up to. *)
Definition fused_padding (ctx : RemapperContext) (conv_node_def pad_node_def paddings_node_def : NodeDef AttrValue) (conv_v pad_v : MutableNodeView)
    : result (option (list Z)) :=
  a ← attr_at conv_node_def "data_format";
  match FormatFromString (default "" (attr_s a)) with
  | None => mret None
  | Some data_format =>
      let pad_props := GetInputProperties (graph_properties ctx) (name pad_node_def) in
      zeros ← pads_with_zeros (graph_view ctx) pad_props pad_node_def pad_v;
      if negb zeros then mret None else
      n_index ← GetTensorDimIndex data_format "N" 4;
      h_index ← GetTensorDimIndex data_format "H" 4;
      w_index ← GetTensorDimIndex data_format "W" 4;
      c_index ← GetTensorDimIndex data_format "C" 4;
      if negb (four_pairs pad_props) then mret None else
      match GetAttr paddings_node_def "value" with
      | None => mret None
      | Some value_attr =>
          values ← read_paddings (tensor_attr value_attr);
          match values with
          | None => mret None
          | Some l =>
              n ← unpadded l n_index;
              if negb n then mret None else
              c ← unpadded l c_index;
              if negb c then mret None else
              match GetAttr conv_node_def "padding" ≫= padding_of with
              | None => mret None
              | Some padding_type => conv_padding ctx padding_type conv_node_def conv_v h_index w_index l
              end
          end
      end
  end.

Definition FindPadWithConv2D (ctx : RemapperContext) (node_index : Z) : result (option PadWithConv2D) :=
  let g := graph_view ctx in
  conv_v ← at_ (nodes_ g) node_index;
  conv_node_def ← node_of g node_index;
  if negb (IsConv2D conv_node_def) then mret None else
  if HasControlFaninOrFanout conv_v then mret None else
  if NumRegularFanins conv_v <? 1 then mret None else
  pad_node ← node_view g (GetRegularFanin conv_v 0);
  pad_v ← at_ (nodes_ g) pad_node;
  pad_node_def ← node_of g pad_node;
  if negb (IsPad pad_node_def) then mret None else
  if negb (HaveSameDataType conv_node_def pad_node_def "T") then mret None else
  if HasControlFaninOrFanout pad_v then mret None else
  if negb (HasAtMostOneFanoutAtPort0 pad_v) then mret None else
  if IsInPreserveSet ctx pad_node_def then mret None else
  paddings_node ← node_view g (GetRegularFanin pad_v 1);
  paddings_node_def ← node_of g paddings_node;
  if negb (IsConstant paddings_node_def) then mret None else
  padding ← fused_padding ctx conv_node_def pad_node_def paddings_node_def conv_v pad_v;
  mret (mk_PadWithConv2D (node_index_ pad_v) node_index <$> padding).

(** ** The fused node *)

Fixpoint copy_attrs (src_attr : NodeDef AttrValue) (l : list string) (a : gmap string AttrValue) : result (gmap string AttrValue) :=
  match l with
  | [] => mret a
  | attr_name :: l => x ← attr_at src_attr attr_name; copy_attrs src_attr l (<[attr_name := x]> a)
  end.

(** [activation] is null in every call. *)
Definition CopyConv2DAttributes (conv2d : NodeDef AttrValue) : result (gmap string AttrValue) :=
  ASSERT (IsConv2D conv2d);;
  copy_attrs conv2d ["T"; "strides"; "padding"; "explicit_paddings"; "dilations"; "data_format"; "use_cudnn_on_gpu"] ∅.

Definition FuseConv2DExplicitPaddings (matched : PadWithConv2D) (a : gmap string AttrValue) : gmap string AttrValue :=
  <["explicit_paddings" := make_list_i (new_padding_values matched)]> (<["padding" := make_s "EXPLICIT"]> a).

(** The address is that of a local variable. *)
Definition fused_node (pad_def conv_def : NodeDef AttrValue) (matched : PadWithConv2D) : result (NodeDef AttrValue) :=
  input_0 ← at_ (input pad_def) 0;
  input_1 ← at_ (input conv_def) 1;
  attrs ← CopyConv2DAttributes conv_def;
  mret (mk_NodeDef (-1) (name conv_def) (op conv_def) (device conv_def) [input_0; input_1] (FuseConv2DExplicitPaddings matched attrs)).

(** ** The loop *)

(** The local variables of [Optimize]. *)
Record remap_state := mk_remap_state {
  context : RemapperContext;
  invalidated_nodes : list bool;
  nodes_to_delete : list bool
}.
#[local] Notation M := (ST remap_state).

Definition set_graph_view g (ctx : RemapperContext) : RemapperContext :=
  mk_RemapperContext (nodes_to_preserve ctx) (graph_properties ctx) g (inferred_graph_properties ctx).
Definition set_context (ctx : RemapperContext) (s : remap_state) : remap_state := mk_remap_state ctx (invalidated_nodes s) (nodes_to_delete s).

Definition on_view {A} (m : ST G A) : M A := fun s =>
  '(a, g) ← m (graph_view (context s)); mret (a, set_context (set_graph_view g (context s)) s).

Definition AddFusedContractionNode (matched : PadWithConv2D) : M Status :=
  s ← get;
  let g := graph_view (context s) in
  pad_def ← lift (at_ (graph g) (pad matched));
  conv_def ← lift (at_ (graph g) (conv_2d matched));
  fused_op ← lift (fused_node pad_def conv_def matched);
  '(status, _) ← on_view (AddNode fused_op);
  if negb (status_ok status) then mret status else
  status ← on_view Apply;
  if negb (status_ok status) then mret status else
  s ← get;
  lift (at_ (nodes_to_delete s) (pad matched));;
  lift (at_ (invalidated_nodes s) (conv_2d matched));;
  put (mk_remap_state (context s) (vset (invalidated_nodes s) (conv_2d matched) true) (vset (nodes_to_delete s) (pad matched) true));;
  mret Status_OK.

(** One step down in [RequiresInferredShapes]. *)
Definition first_fanin g (i : Z) : result (option Z) :=
  v ← at_ (nodes_ g) i;
  if NumRegularFanins v <? 1 then mret None else
  j ← node_view g (GetRegularFanin v 0);
  mret (Some j).

Definition below g (P : NodeDef AttrValue -> bool) (i : option Z) : result (option Z) :=
  match i with
  | None => mret None
  | Some i => d ← node_of g i; if P d then first_fanin g i else mret (Some i)
  end.

Definition RequiresInferredShapes (ctx : RemapperContext) (node_index : Z) : result bool :=
  let g := graph_view ctx in
  i ← below g IsSupportedActivation (Some node_index);
  i ← below g IsBiasAdd i;
  match i with
  | None => mret false
  | Some i =>
      d ← node_of g i;
      if negb (IsConv2D d) then mret false else
      j ← first_fanin g i;
      match j with
      | None => mret false
      | Some j => d ← node_of g j; mret (IsPad d)
      end
  end.

(** Infers the properties if they are needed and not there. *)
Definition infer_lazily (item : GrapplerItem) (i : Z) : M Status :=
  s ← get;
  let ctx := context s in
  required ← (if inferred_graph_properties ctx then mret false else lift (RequiresInferredShapes ctx i));
  if negb required then mret Status_OK else
  let '(status, p) := InferStatically item false false true false (graph_properties ctx) in
  put (set_context (mk_RemapperContext (nodes_to_preserve ctx) p (graph_view ctx) (status_ok status)) s);;
  mret status.

(** The body of the loop. *)
Definition remap_node (item : GrapplerItem) (i : Z) : M Status :=
  s ← get;
  invalidated ← lift (at_ (invalidated_nodes s) i);
  to_delete ← lift (at_ (nodes_to_delete s) i);
  if invalidated || to_delete then mret Status_OK else
  status ← infer_lazily item i;
  if negb (status_ok status) then mret status else
  if negb (allow_non_differentiable_rewrites item) then mret Status_OK else
  s ← get;
  pad_with_conv_2d ← lift (FindPadWithConv2D (context s) i);
  match pad_with_conv_2d with
  | None => mret Status_OK
  | Some matched => AddFusedContractionNode matched
  end.

Fixpoint remap_nodes (item : GrapplerItem) (l : list Z) : M Status :=
  match l with
  | [] => mret Status_OK
  | i :: l => status ← remap_node item i; if status_ok status then remap_nodes item l else mret status
  end.

Fixpoint remove_nodes (l : list Z) : M unit :=
  match l with
  | [] => mret tt
  | i :: l =>
      s ← get;
      to_delete ← lift (at_ (nodes_to_delete s) i);
      (if to_delete : bool then on_view (RemoveNode i) else mret tt);;
      remove_nodes l
  end.

(** What follows the sort. *)
Definition remap (item : GrapplerItem) : M Status :=
  let num_nodes := size_ (item_graph item) in
  status ← remap_nodes item (rev (count_up num_nodes));
  if negb (status_ok status) then mret status else
  remove_nodes (count_up num_nodes);;
  on_view Apply.

(** [Remapper::Optimize]; the graph is [None] where [*optimized_graph] is not
    written. *)
Definition Optimize (item : GrapplerItem) : result (Status * option (list (NodeDef AttrValue))) :=
  '(status, ctx) ← InitializeRemapperContext item;
  if negb (status_ok status) then mret (status, None) else
  '(status, g) ← SortTopologically false [] (graph_view ctx);
  if negb (status_ok status) then mret (status, None) else
  let num_nodes := length (item_graph item) in
  '(status, s) ← remap item (mk_remap_state (set_graph_view g ctx) (replicate num_nodes false) (replicate num_nodes false));
  if negb (status_ok status) then mret (status, None) else
  mret (status, Some (graph (graph_view (context s)))).
End remapper.
Arguments RemapperContext {_ _}.
Arguments remap_state {_ _}.
