(* ===== verification/RemapperProofs.v ===== *)
(** * RemapperProofs: what the remapper does to the graph

    A node that is replaced by one of the same name stays at its place, with the
    content of the new one; Pads that are fused lose their only reader and can be
    removed at the end.  The padding computed for SAME is that of the kernel when
    the stride is 1. *)

From S2P Require Import Prelude Vec TensorName GraphView GraphInv GraphBulk GraphEdit GraphEditProofs GraphBuild HashOrder GraphDiff GraphContent GraphWellFormed GraphMutation GraphMutationProofs GraphValidate GraphValidateProofs GraphValidated GraphApply GraphUpdate GraphCommit GraphApplyProofs GraphRewrite.
#[local] Open Scope string_scope.
#[local] Open Scope list_scope.
#[local] Open Scope Z_scope.

Section replace.
  Context {AttrValue : Type} {HO : HashOrder} {NA : NodeAllocation}.
  #[local] Notation G := (MutableGraphView AttrValue).
  Implicit Type g : G.

(** ** Replacing a node *)

(** [g'] is [g] with node [i] replaced by [d']. *)
Record replaced g (i : Z) (d' : NodeDef AttrValue) g' : Prop := {
  rp_idle : idle_view g';
  rp_names : map name (graph g') = map name (graph g);
  rp_new : exists d, vget (graph g') i = Some d /\ def_content d ≡ def_content d';
  rp_old : forall j d, j <> i -> vget (graph g) j = Some d -> exists d2, vget (graph g') j = Some d2 /\ def_content d2 ≡ def_content d
}.

(** The place of a name. *)
Lemma same_place g i j d d' : view_ok g -> vget (graph g) i = Some d -> vget (graph g) j = Some d' -> name d' = name d -> j = i.
Proof.
  intros Hg Hd Hd' E. pose proof (ok_names _ (ok_names_ok _ _ _ Hg)) as Hn.
  assert (node_index_by_name_ g !! name d = Some i) as H1 by (apply Hn; eauto). assert (node_index_by_name_ g !! name d = Some j) as H2 by (apply Hn; eauto).
  congruence.
Qed.

Lemma named_at g (l' : list (NodeDef AttrValue)) i d d' : view_ok g -> map name l' = map name (graph g) ->
  vget (graph g) i = Some d -> d' ∈ l' -> name d' = name d -> vget l' i = Some d'.
Proof.
  intros Hg Hm Hd [j Hj]%elem_of_vget En. assert (name <$> vget (graph g) j = Some (name d')) as E by (by rewrite <- vget_map, <- Hm, vget_map, Hj).
  destruct (vget (graph g) j) as [dj|] eqn:Hdj; [|done]. injection E as E. by rewrite <- (same_place g i j d dj) by congruence.
Qed.

Lemma AddNode_Apply_replaces g i d d' : idle_view g -> vget (graph g) i = Some d -> name d' = name d ->
  ports_in_range d' -> addable d' -> (forall t, t ∈ map ParseTensorName (input d') -> HasNode g (TensorName.node t) = true) ->
  exists st mn g1 g2, AddNode d' g = Ok ((st, mn), g1) /\ status_ok st = true /\ Apply g1 = Ok (Status_OK, g2) /\ replaced g i d' g2.
Proof.
  intros Hi Hd En Hp Had Hex. pose proof (iv_view _ Hi) as Hg.
  destruct (AddNode_spec g d' (idle_mutation_ok g Hi) Hp) as ([st mn] & g1 & Hr & Hm1 & (Eg & Ev & Ei & Em) & Hst & _ & _ & Hn).
  apply Hst in Had. destruct (Hn Had) as (n & En1 & _ & Ht). rewrite (iv_new _ Hi) in En1. cbn [app] in En1.
  change (mk_content _ _ _ _ _ _) with (def_content d') in Ht.
  assert (updated_nodes_ (mutation_ g1) = []) as Eu by (by rewrite Em, En1; apply Hi).
  assert (removed_nodes_ (mutation_ g1) = ∅) as Er by (by rewrite Em, En1; apply Hi).
  assert (view_ok g1) as Hg1.
  { eapply view_ok_same; [|exact Hg]. split; rewrite ?Eg, ?Ev, ?Ei; try done. intros k v Hv. exists (update_index_ v). by rewrite set_update_index_id. }
  assert (keeps_names g1) as Hk1 by (intros x Hx; rewrite Eu in Hx; by apply elem_of_nil in Hx).
  assert (name (new_node n) = name d) as Enn by (destruct Ht as (E & _); rewrite <- En; exact E).
  assert (claimed g1 = [name d]) as Ec by (unfold claimed, changed, all_diffs; rewrite Eu, En1; cbn; by rewrite Enn).
  destruct (mutation_valid g1) as [M HM]; try done.
  { rewrite Ec. apply NoDup_singleton. }
  { intros j v Hj. rewrite Er in Hj. by apply elem_of_empty in Hj. }
  { rewrite En1. intros n' ->%list_elem_of_singleton. apply (linked_equiv _ _ _ (symmetry Ht)).
    assert (forall t, t ∈ map ParseTensorName (input d') -> TensorName.node t <> name d' /\ remains g1 (TensorName.node t)) as Hall.
    { intros t Hin. split; [apply Hst in Had; destruct Had as [Hne _]; rewrite Forall_forall in Hne; by apply Hne|]. right. split.
      - pose proof (Hex t Hin) as H. unfold HasNode in *. by rewrite Ei.
      - intros j Hj. rewrite Er in Hj. by apply elem_of_empty in Hj. }
    split; cbn.
    - by exists (regular_ids d').
    - intros k t Hkt. apply Hall. assert (t ∈ regular_ids d') as Hin by (apply elem_of_vget; eauto). by destruct (proj1 (elem_of_filter_bool _ _ _) Hin).
    - intros s. rewrite elem_of_list_to_set. intros (t & -> & Hin)%list_elem_of_fmap. apply Hall. by destruct (proj1 (elem_of_filter_bool _ _ _) Hin). }
  { intros u k c Hu. unfold changed, all_diffs in Hu. rewrite Eu in Hu. by apply elem_of_nil in Hu. }
  destruct (Apply_contents g1 M Hg1 Hm1 Hk1 HM) as (st' & g2 & Ha & -> & Hi2 & [Hc1 Hc2] & Hpl).
  { rewrite Eg. apply Hi. }
  { rewrite En1. intros n' ->%list_elem_of_singleton. rewrite Enn. apply (iv_names _ Hi), elem_of_vget. eauto. }
  assert (map name (graph g2) = map name (graph g)) as Hnm.
  { rewrite Hpl; [by rewrite Eg|]. split; [done|]. rewrite En1. intros n' ->%list_elem_of_singleton. rewrite Enn, Ei. exists i.
    apply (ok_names _ (ok_names_ok _ _ _ Hg)). eauto. }
  exists st, mn, g1, g2. split; [done|]. split; [done|]. split; [done|]. split; [done|done| |].
  - destruct (Hc2 (new_target n)) as (d2 & Hd2 & E2); [left; exists n; split; [rewrite En1; left|done]|]. rewrite Ht in E2.
    exists d2. split; [|done]. apply (named_at g _ i d d2 Hg Hnm Hd Hd2). destruct E2 as (E2 & _). cbn in E2. by rewrite E2.
  - intros j dj Hne Hdj. destruct (view_ok_node _ _ _ _ _ Hg Hdj) as [vj Hvj].
    assert (pending g1 j = Some (node_content g1 dj vj)) as Hpj by (apply unedited_pending; [done|by rewrite Ev|by rewrite Eg]).
    destruct (Hc2 (node_content g1 dj vj)) as (d2 & Hd2 & E2).
    { right. exists j. split; [|done]. split; [rewrite Ev; by eapply vget_Some|]. rewrite Er. split; [set_solver|]. rewrite En1. cbn. rewrite Enn.
      intros E%list_elem_of_singleton. apply Hne. unfold name_of in E. rewrite Eg, Hdj in E. cbn in E. by apply (same_place g i j d dj). }
    assert (def_content d2 ≡ def_content dj) as E.
    { rewrite E2. rewrite <- (def_content_ok g1 j dj vj Hg1); [done|by rewrite Eg|by rewrite Ev]. }
    exists d2. split; [|done]. apply (named_at g _ j dj d2 Hg Hnm Hdj Hd2). destruct E as (E & _). exact E.
Qed.
(** ** Removing nodes that nobody reads *)

Definition removing g (R : gset Z) : G := set_mutation (set_removed_nodes R (mutation_ g)) g.

Lemma removing_nothing g : idle_view g -> removing g ∅ = g.
Proof. intros Hi. unfold removing. pose proof (iv_removed _ Hi) as E. destruct g as [gr no na [c u r n]]. cbn in *. by subst. Qed.

Lemma RemoveNode_idle g R i v : idle_view g -> vget (nodes_ g) i = Some v -> RemoveNode i (removing g R) = Ok (tt, removing g ({[i]} ∪ R)).
Proof.
  intros Hi Hv. unfold RemoveNode, node_at, get, lift, modify_mutation, modify, mbind, ST_bind, mret, ST_ret. cbn [nodes_ removing set_mutation].
  rewrite (at_Some _ _ _ Hv). rewrite (iv_nodes _ Hi _ _ Hv). cbn [Z.eqb kMissingIndex].
  by rewrite (ok_index _ (ok_names_ok _ _ _ (iv_view _ Hi)) _ _ Hv).
Qed.

(** No node mentions the name. *)
Definition unmentioned g (s : string) : Prop := forall d, d ∈ graph g -> ~ mentions (def_content d) s.

Lemma unmentioned_fanin g i j v w : view_ok g -> unmentioned g (name_of g i) -> vget (nodes_ g) j = Some v ->
  w ∈ regular_fanins_ v ++ controlling_fanins_ v -> fanout_node_index w <> i.
Proof.
  intros Hg Hu Hv Hw E. destruct (view_ok_def _ _ _ _ _ Hg Hv) as [d Hd]. apply (Hu d); [apply elem_of_vget; eauto|].
  eapply mentions_equiv; [symmetry; by apply (def_content_ok g j d v)|]. rewrite <- E. by apply fanin_mentioned.
Qed.

Lemma unmentioned_fanouts g i v fo : view_ok g -> unmentioned g (name_of g i) -> vget (nodes_ g) i = Some v ->
  ~ (fo ∈ concat (regular_fanouts_by_port_ v) \/ fo ∈ controlled_fanouts_ v).
Proof.
  intros Hg Hu Hv [(l & [f Hf]%elem_of_vget & [p Hp]%elem_of_vget)%elem_of_concat|[f Hf]%elem_of_vget].
  - destruct (ok_fanout ∅ g (ok_edges _ _ _ Hg) i p f fo) as [_ H]; [unfold fanout_at; rewrite Hv; cbn [mbind option_bind]; by rewrite Hp|].
    apply fanin_at_Some in H as (u & Hu' & Hw). apply (unmentioned_fanin g i _ u (mk_FanoutView i p f) Hg Hu Hu'); [|done].
    apply elem_of_app. left. apply elem_of_vget. eauto.
  - destruct (ok_control_fanout ∅ g (ok_controls _ _ _ Hg) i f fo) as [_ H]; [unfold control_fanout_at; by rewrite Hv|].
    apply control_fanin_at_Some in H as (u & Hu' & Hw). apply (unmentioned_fanin g i _ u (mk_FanoutView i kControlSlot f) Hg Hu Hu'); [|done].
    apply elem_of_app. right. apply elem_of_vget. eauto.
Qed.

(** The nodes other than those removed. *)
Definition others_of g (R : gset Z) (c : content AttrValue) : Prop := exists j d, vget (graph g) j = Some d /\ j ∉ R /\ c = def_content d.

Lemma Apply_removes g R : idle_view g -> (forall i, i ∈ R -> 0 <= i < size_ (nodes_ g) /\ unmentioned g (name_of g i)) ->
  runs Apply (removing g R) (fun st g' => st = Status_OK /\ idle_view g' /\ contents_of (graph g') (others_of g R)).
Proof.
  intros Hi HR. pose proof (iv_view _ Hi) as Hg. set (g1 := removing g R).
  assert (updated_nodes_ (mutation_ g1) = []) as Eu by apply Hi. assert (new_nodes_ (mutation_ g1) = []) as En by apply Hi.
  assert (view_ok g1) as Hg1.
  { eapply view_ok_same; [|exact Hg]. split; try done. intros k v Hv. exists (update_index_ v). by rewrite set_update_index_id. }
  assert (mutation_ok g1) as Hm1.
  { pose proof (idle_mutation_ok g Hi) as [M1 M2 M3 M4]. split; rewrite ?Eu, ?En.
    - intros i v Hv Hne. by destruct Hne; apply (iv_nodes _ Hi i).
    - intros u x Hx. by rewrite vget_nil in Hx.
    - intros i Hin. by apply HR.
    - intros n Hn. by apply elem_of_nil in Hn. }
  assert (keeps_names g1) as Hk1 by (intros x Hx; rewrite Eu in Hx; by apply elem_of_nil in Hx).
  assert (claimed g1 = []) as Ec by (unfold claimed, changed, all_diffs; by rewrite Eu, En).
  destruct (mutation_valid g1) as [M HM]; try done.
  { rewrite Ec. constructor. }
  { intros j v Hj _ Hv fo Hfo. exfalso. destruct (HR j Hj) as [_ Hu]. by apply (unmentioned_fanouts g j v fo Hg Hu Hv). }
  { rewrite En. by intros n Hn%elem_of_nil. }
  { intros u k c Hu. unfold changed, all_diffs in Hu. rewrite Eu in Hu. by apply elem_of_nil in Hu. }
  eapply runs_mono; [apply (Apply_contents g1 M Hg1 Hm1 Hk1 HM)|].
  { apply (iv_names _ Hi). }
  { rewrite En. by intros n Hn%elem_of_nil. }
  intros st g' (-> & Hi' & [Hc1 Hc2] & _). split; [done|]. split; [done|].
  assert (forall i v d, vget (nodes_ g) i = Some v -> vget (graph g) i = Some d -> pending g1 i = Some (node_content g1 d v)) as Hpend by (intros; by apply unedited_pending).
  assert (forall i v d, vget (nodes_ g) i = Some v -> vget (graph g) i = Some d -> def_content d ≡ node_content g1 d v) as Hdef by (intros; by apply (def_content_ok g1 i)).
  split.
  - intros d (c & Ha & E)%Hc1. destruct Ha as [(n & Hin & _)|(i & (Hr & Hnr & _) & Hc)]; [rewrite En in Hin; by apply elem_of_nil in Hin|].
    destruct (node_at_index g i Hg Hr) as (v & d0 & Hv & Hd). rewrite (Hpend i v d0 Hv Hd) in Hc. injection Hc as <-.
    exists (def_content d0). split; [exists i, d0; done|]. by rewrite E, (Hdef i v d0).
  - intros c (i & d & Hd & Hnr & ->). destruct (view_ok_node _ _ _ _ _ Hg Hd) as [v Hv]. destruct (Hc2 (node_content g1 d v)) as (d' & Hd' & E).
    { right. exists i. split; [|by apply Hpend]. split; [by eapply vget_Some|]. split; [done|]. rewrite En. cbn. set_solver. }
    exists d'. split; [done|]. by rewrite E, (Hdef i v d).
Qed.
End replace.

(** ** The padding of SAME *)

From S2P Require Import TensorFormat WindowedOutput Remapper.

Lemma add_to_pair p q : 0 <= p < 2 ^ 31 -> 0 <= q < 2 ^ 31 ->
  (l ← add_to [0; 0] 0 p; add_to l 1 q) = Ok [p; q].
Proof.
  intros Hp Hq. change (Ok [i32 (i64 (0 + p)); i32 (i64 (0 + q))] = Ok [p; q]).
  by rewrite !Z.add_0_l, !i64_small, !i32_small by lia.
Qed.

(** With stride 1 the padding that the remapper computes for SAME is that of the
    kernel, as its comment says. *)
Lemma same_padding_stride_one input f d out st w :
  0 <= input < 2 ^ 61 -> 1 <= f -> 1 <= d -> span f d < 2 ^ 31 ->
  GetWindowedOutputSizeVerboseV2 input f d 1 SAME out = (st, w) ->
  same_padding [0; 0] 0 f d = Ok [padding_before w; padding_after w].
Proof.
  intros Hi Hf Hd Hs. pose proof (span_range f d Hf Hd).
  unfold GetWindowedOutputSizeVerboseV2. destruct (Z.ltb_spec d 1); [lia|]. cbn [Z.leb Z.compare].
  rewrite effective_span by lia.
  rewrite !(i64_small (input + 1)), !(i64_small (input + 1 - 1)), Z.quot_1_r by lia.
  assert (Z.max 0 (i64 (i64 (i64 (i64 (input + 1 - 1 - 1) * 1) + span f d) - input)) = span f d - 1) as ->.
  { replace (input + 1 - 1 - 1) with (input - 1) by lia.
    rewrite !(i64_small (input - 1)), Z.mul_1_r, (i64_small (input - 1)), (i64_small (input - 1 + span f d)), i64_small by lia. lia. }
  assert (Z.max 0 (i64 (i64 (f - 1) * d)) = span f d - 1) as Hm.
  { unfold span in *. rewrite (i64_small (f - 1)), i64_small by nia. lia. }
  intros E. assert (w = mk_windowed (input + 1 - 1) (Z.quot (span f d - 1) 2) (i64 (span f d - 1 - Z.quot (span f d - 1) 2))) as ->.
  { destruct (_ <? 0); by injection E as _ <-. }
  pose proof (Z.quot_rem' (span f d - 1) 2). pose proof (Z.rem_bound_pos (span f d - 1) 2 ltac:(lia) ltac:(lia)).
  unfold same_padding. rewrite Hm. cbn [padding_before padding_after].
  rewrite (i64_small (span f d - 1 - _)) by lia.
  apply add_to_pair; lia.
Qed.

(** With stride 2 it is not: the kernel pads 4 cells by none before and one
    after, the remapper by one on each side.  [FindPadWithConv2D] does not look
    at the strides. *)
Example same_padding_with_stride :
  GetWindowedOutputSizeVerboseV2 4 3 1 2 SAME (mk_windowed 0 0 0) = (Status_OK, mk_windowed 2 0 1) /\
  same_padding [0; 0] 0 3 1 = Ok [1; 1].
Proof. split; reflexivity. Qed.
